(* ===== verification/_CoqProject ===== *)
-Q . S2P
Prelude.v
Interfaces.v
Pmm.v
Memory.v
Uaccess.v
KList.v
Object.v
Handle.v
Vmm.v
PageWalk.v
VmmSpec.v
Heap.v
HeapSpec.v
HeapExamples.v
Block.v
BlockSpec.v
BlockCache.v
BlockCacheSpec.v
Task.v
TaskSpec.v
TaskRun.v
Spinlock.v
Wait.v
WaitSpec.v
WaitRun.v
Process.v
ProcessSpec.v
ProcessRun.v
ProcessLife.v
Mutex.v
MutexSpec.v
Inet.v
NetState.v
Ethernet.v
Ipv4.v
Ipv4Spec.v
Ipv4Reasm.v
Arp.v
ArpSpec.v
Icmp.v
Tcp.v
TcpSpec.v
TcpInv.v
TcpStream.v
TcpHandshake.v
TcpReturn.v
Bytes.v
Format.v
FormatSpec.v
Log.v
LogSpec.v
Partition.v
PartitionSpec.v
Fat32.v
Fat32Entry.v
Fat32Chain.v
Fat32Dir.v
Fat32Files.v
Fat32Spec.v
Fat32Examples.v
Elf.v
ElfSpec.v
ElfStack.v
Vfs.v
Ramfs.v
RamfsSpec.v
VfsSpec.v
Asn1.v
Asn1Spec.v
Sha2.v
Sha2Spec.v
Aead.v
Aes.v
Chacha.v
Signature.v
X25519.v
X25519Spec.v
Kpkg.v
PkgDb.v
Installer.v
