(* ===== verification/Prelude.v ===== *)
(** * A verification library for the KOS / vinoS kernel

    ** The program

    KOS (vinoS) is a small x86-64 kernel in C.  Its parts, under src/:
    - mm/: the physical frame allocator (pmm.c), four-level page tables (vmm.c)
      and the kernel heap (heap.c), each built on the one before;
    - kernel/: reference-counted objects (object.c) named by per-process handle
      tables (handle.c), access to user memory (uaccess.c), the round-robin
      scheduler (task.c), sleeping mutexes (mutex.c), wait queues and events
      (wait.c), processes (process.c), the kernel log (log.c), system calls;
    - drivers/ and fs/: the block device registry (block.c), the write-back
      block cache above it (block_cache.c), partition tables (partition.c), the
      FAT32 driver (fat32.c), the program loader (elf.c), volumes and the path
      layer (vfs.c, ramfs.c);
    - net/: Ethernet, ARP, IPv4, ICMP and the transport and application layers;
    - lib/: the freestanding C runtime (memory.c), cryptography (crypto.c),
      certificates and packages;
    - include/kos/: the data types, and the intrusive lists of list.h.

    ** How code is modelled

    A C function is a function of this library with the same name.  State is
    passed explicitly: the static variables of a component (and the memory or
    the devices below it) are a record, and a function returns its result and
    the new record.  A section of code under a spinlock with interrupts off is
    one such function, because on the one processor the kernel runs on nothing
    can come in between; where the code runs without a lock and its interleaving
    matters (mutex.c), threads are a step relation over program counters.
    Unsigned integers are [Z] with every wrap-around written out ([u64], [u32],
    [u16], [u8]); bit operations are those of [Z].  Byte memory and page-table
    memory are finite maps from addresses; tables updated by index are lists.
    NULL is [0] where the code stores addresses and [None] where a pointer is
    modelled by the thing it points to.  Hardware, drivers and callbacks are
    parameters.

    ** Files

    - Prelude: machine integers, automation and lemmas on lists, maps and bits
      that the components share.
    - Interfaces: the type classes by which components rely on each other:
      [FrameAllocator] (pmm.c to vmm.c), [PageMapper] (vmm.c to heap.c),
      [BlockIO] (block.c to block_cache.c) and [SectorCache] (block_cache.c to
      fat32.c).
    - Pmm (mm/pmm.c), Memory (lib/memory.c), Uaccess (kernel/uaccess.c), KList
      (include/kos/list.h), Object (kernel/object.c), Handle (kernel/handle.c):
      definitions and theorems of one component each.
    - Vmm (mm/vmm.c), PageWalk (page tables as functions of their entries),
      VmmSpec (theorems).
    - Heap (mm/heap.c), HeapSpec; HeapExamples (both on a concrete machine).
    - Block (drivers/block.c), BlockSpec; BlockCache (fs/block_cache.c),
      BlockCacheSpec.
    - Bytes (little-endian fields of on-disk and in-memory structures).
    - Format (the formatter of kernel/log.c), FormatSpec; Log (the rest of
      kernel/log.c), LogSpec.
    - Partition (fs/partition.c), PartitionSpec; Elf (fs/elf.c),
      ElfSpec (segments), ElfStack (the user stack, and a concrete program).
    - Fat32 (fs/fat32.c); Fat32Entry (entries, names, and the volume as a table
      and clusters), Fat32Chain (chains), Fat32Dir (directories, consistent
      volumes), Fat32Files (what the operations do), Fat32Spec (the theorems),
      Fat32Examples.
    - Task (kernel/task.c with the context switch of arch/x86_64/task_switch.asm),
      TaskSpec (what every operation does), TaskRun (reachable states).
    - Spinlock (kernel/spinlock.c), Mutex (kernel/mutex.c), MutexSpec; Wait
      (kernel/wait.c), WaitSpec (code that blocks nobody, queues, waking),
      WaitRun (threads, signals and the rest of the kernel interleaved).
    - Process (kernel/process.c), ProcessSpec, ProcessRun (reachable states),
      ProcessLife (from creation to reaping).
    - Inet (byte order and checksum), NetState (state of the stack), Ethernet,
      Ipv4, Ipv4Spec, Ipv4Reasm, Arp, ArpSpec, Icmp: the files of net/ with
      these names.
    - Tcp (net/tcp.c), TcpSpec (ring buffer and segments), TcpInv (the socket
      table), TcpStream (what the application reads), TcpHandshake (two
      machines), TcpReturn (blocking calls, and sequence numbers that wrap).
    - Vfs (fs/vfs.c), VfsSpec; Ramfs (fs/ramfs.c), RamfsSpec.
    - Asn1 (lib/asn1.c), Asn1Spec.
    - Sha2, Sha2Spec, Aead, Aes, Chacha, Signature, X25519, X25519Spec: the
      sections of lib/crypto.c.
    - Kpkg (lib/kpkg.c), PkgDb (kernel/pkg_db.c), Installer (kernel/installer.c):
      definitions and theorems; [PathStore] of Installer is what it expects of
      the file system, and Vfs with Ramfs implements it.

    ** What the theorems show

    - Memory: the frame allocator hands out only usable free frames, refuses
      double frees and keeps its counters equal to the sets they count, in every
      reachable state; mapping and unmapping a page change the translation of
      exactly that page, roll back on failure and neither leak nor double-free
      table frames: unmapping releases exactly the tables that it leaves empty;
      user memory is accessed inside the user half and with AC set; the heap's blocks tile its address range, allocations are
      disjoint and reallocation keeps the bytes.
    - Objects: the reference count of every object equals the number of handles
      to it, a closed handle is never valid again until the generation counter
      has gone round, and duplication never adds rights.
    - Scheduling: one invariant for the task table, the sleep queue and the
      processor's registers in every reachable state; [schedule] resumes the
      next ready task with its own registers and address space, and a task that
      stays ready runs within one round; a tick wakes exactly the due sleepers.
      The mutex, before and after the scheduler starts, excludes two holders in
      runs where the unlock fast path is not interrupted, blocks only queued
      waiters and makes the waiter it grants the lock runnable; the excluded case
      is a computed run with two holders.  The
      spinlock excludes two owners for every interleaving of processors; no
      wake-up on a manual-reset event is lost, and an auto-reset event never
      releases a waiter.
    - Storage: the registry invariant, confinement of partition transfers, and
      the cache as a refinement of a flat store of sectors, for the sectors whose
      write-back does not fail.  The path parser accepts exactly the spellings of
      file names on mounted volumes, which cannot leave their volume; the
      in-memory volume refines a bounded map, and what is written through the
      file system under one spelling is read back under every other.
    - FAT32: over any sector cache that keeps what is written, and as long as
      [kmalloc] succeeds ([HeapWorks]; deleting does not need it), on a consistent
      volume, overwriting, creating and deleting a file change that file on
      every path to it and no other, keep the volume consistent and report
      failure without damage, with every cluster accounted for; a read returns
      the stored bytes.
    - Partition tables and programs: the scan registers exactly the partitions
      that the tables describe and that fit the disk, with the CRC-32 of the GPT
      header as a polynomial division; the loader maps exactly the pages of the
      segments and of the stack, with the bytes of the file and the rights of the
      first segment in each page.
    - Processes: parents, children and the table stay consistent in every
      reachable state (children of a process that has replaced its address space
      excepted), and waiting for a child that exits, by itself or not and with
      any time-out, returns its status and releases its handle table, address
      space, stacks and slot, once.
    - Kernel log: the formatter writes the text that a format and its arguments
      stand for (a separate definition, with numbers in positional notation), cut
      to its buffer and terminated, and nothing behind it; the ring holds the
      latest messages in order.
    - Network: fragments of a datagram, received in any order, deliver the
      payload once and unchanged; the ARP cache answers with the binding learned
      last.  TCP: an invariant of the socket table with re-entrant layers below,
      the three-way handshake between two machines, what is read is a prefix of
      the peer's stream whatever the network does, and blocking calls return
      within their time-outs, given a timer that goes on.
    - Packages: what is opened is within its limits and its paths stay below the
      directory of the application; what is packed is extracted again; the
      database is a map from application ids to records; installing is a
      transaction over any file store that keeps its contract, except for the
      marker of the data directory that a failed registration leaves behind,
      while an update loses the data path of the application.
    - Encodings: the DER reader accepts exactly one encoding of each element and
      never looks outside its buffer when lengths do not wrap.
    - Cryptography: SHA-256 equals the hash of FIPS 180-4 (a separate definition)
      for every way of cutting the input, and SHA-384 hashes the padded message
      however it is cut; AES-GCM and ChaCha20-Poly1305 decrypt what
      they encrypt and reject every other tag; X25519 equals the function of RFC
      7748 modulo 2^255 - 19, with limbs that never leave 64 bits.

    ** Bounds and fuel

    Loops with a bound fixed on entry are structural.  Searches over linked
    blocks of the heap have a fuel of one more than the number of headers, which
    the tiling shows to be enough; scans for a string terminator have a fuel
    argument and return [None] when it runs out, and their theorems give the
    fuel that suffices; polling loops (ARP, ping) are bounded by the code.  The
    waits of TCP end by the clock: their theorem says that some fuel is enough and
    that more gives the same result.  The only retry without a bound,
    [mutex_lock] after a wait, is steps of the transition system.

    ** Not modelled

    Boot code, interrupt entry and chipset programming (arch/, boot/), device
    drivers, text output and the shell (kernel/command.c, console.c), the boot
    sequence, self-tests and host tools: they drive hardware or only call the
    components above.  Certificates and TLS, the socket layer and the network
    clients, mounted volumes and the system call table are left out as well; they
    compose components that are modelled.  Memory ordering between processors is outside the
    model: every lock is held with interrupts off on one processor. *)

From Stdlib Require Import ZArith Lia.
From stdpp Require Import gmap.

#[local] Open Scope Z_scope.

(** ** Machine integers

    An unsigned w-bit integer is a [Z] in [[0, 2^w)]; every place where the C
    arithmetic can leave that range is written with one of the wraps below. *)

Definition W64 : Z := 18446744073709551616.
Definition UINT64_MAX : Z := 18446744073709551615.

Definition u64 (z : Z) : Z := z mod W64.
Definition u32 (z : Z) : Z := z mod 4294967296.
Definition u16 (z : Z) : Z := z mod 65536.
Definition u8 (z : Z) : Z := z mod 256.

(** [(int32_t)z], two's complement. *)
Definition s32 (z : Z) : Z :=
  let r := u32 z in if r <? 2147483648 then r else r - 4294967296.

(** The C complement [~x] of a 64-bit and of a 32-bit word. *)
Definition not64 (x : Z) : Z := u64 (Z.lnot x).
Definition not32 (x : Z) : Z := u32 (Z.lnot x).

Definition is_u64 (z : Z) : Prop := 0 <= z < W64.
Definition is_u32 (z : Z) : Prop := 0 <= z < 4294967296.
Definition is_u8 (z : Z) : Prop := 0 <= z < 256.

(** [__builtin_ctzll] and [__builtin_popcountll]. *)
Fixpoint ctz_pos (p : positive) : Z :=
  match p with
  | xO q => 1 + ctz_pos q
  | _ => 0
  end.

Definition builtin_ctz (z : Z) : Z :=
  match z with Zpos p => ctz_pos p | _ => 0 end.

Fixpoint popcount_pos (p : positive) : Z :=
  match p with
  | xH => 1
  | xO q => popcount_pos q
  | xI q => 1 + popcount_pos q
  end.

Definition builtin_popcount (z : Z) : Z :=
  match z with Zpos p => popcount_pos p | _ => 0 end.

(** ** Tactics *)

(** Linear arithmetic with division and modulo by constants. *)
Ltac zsolve := Z.to_euclidean_division_equations; lia.

(** Splits the first boolean comparison of [Z] in the goal into its two cases. *)
Ltac zcase1 :=
  match goal with
  | |- context [?a <? ?b] => destruct (Z.ltb_spec a b)
  | |- context [?a <=? ?b] => destruct (Z.leb_spec a b)
  | |- context [?a >? ?b] => rewrite (Z.gtb_ltb a b)
  | |- context [?a >=? ?b] => rewrite (Z.geb_leb a b)
  | |- context [?a =? ?b] => destruct (Z.eqb_spec a b)
  end.
Ltac zcase := repeat (zcase1; simpl; try lia).

(** The same in a hypothesis. *)
Ltac zcase_in H :=
  repeat match type of H with
  | context [?a <? ?b] => destruct (Z.ltb_spec a b)
  | context [?a <=? ?b] => destruct (Z.leb_spec a b)
  | context [?a >? ?b] => rewrite (Z.gtb_ltb a b) in H
  | context [?a >=? ?b] => rewrite (Z.geb_leb a b) in H
  | context [?a =? ?b] => destruct (Z.eqb_spec a b)
  end; simpl in H.

Create HintDb kos.

(** ** Bits *)

Lemma u64_small z : is_u64 z → u64 z = z.
Proof. unfold is_u64, u64. intros. by apply Z.mod_small. Qed.

Lemma u64_range z : is_u64 (u64 z).
Proof. unfold is_u64, u64. apply Z.mod_pos_bound. done. Qed.

Lemma u32_small z : is_u32 z → u32 z = z.
Proof. unfold is_u32, u32. intros. by apply Z.mod_small. Qed.

Lemma u32_range z : is_u32 (u32 z).
Proof. unfold is_u32, u32. apply Z.mod_pos_bound. done. Qed.

#[export] Hint Resolve u64_range u32_range : kos.

Lemma W64_pow : W64 = 2 ^ 64.
Proof. reflexivity. Qed.

Lemma u64_testbit z i : Z.testbit (u64 z) i = (i <? 64) && Z.testbit z i.
Proof.
  unfold u64. rewrite W64_pow. destruct (Z.ltb_spec i 64).
  - destruct (Z.leb_spec 0 i); [by rewrite Z.mod_pow2_bits_low|].
    by rewrite !Z.testbit_neg_r by lia.
  - by rewrite Z.mod_pow2_bits_high by lia.
Qed.

Lemma not64_testbit z i :
  0 ≤ i → Z.testbit (not64 z) i = (i <? 64) && negb (Z.testbit z i).
Proof. intros. unfold not64. by rewrite u64_testbit, Z.lnot_spec by lia. Qed.

(** A word below [2^n] has no bit at or above [n]. *)
Lemma testbit_high z n i : 0 ≤ z < 2 ^ n → n ≤ i → Z.testbit z i = false.
Proof.
  intros [Hz Hn] Hi.
  destruct (Z.eq_dec z 0) as [->|]; [apply Z.bits_0|].
  apply Z.bits_above_log2; [lia|].
  apply Z.log2_lt_pow2; [lia|].
  eapply Z.lt_le_trans; [done|]. apply Z.pow_le_mono_r; lia.
Qed.

Lemma testbit_high64 z i : is_u64 z → 64 ≤ i → Z.testbit z i = false.
Proof. intros [H1 H2] ?. apply testbit_high with 64; [|lia]. by rewrite <- W64_pow. Qed.

(** Conversely a non-negative integer without bits at or above [n] is below [2^n]. *)
Lemma bits_bound z n :
  0 ≤ z → 0 ≤ n → (∀ i, n ≤ i → Z.testbit z i = false) → z < 2 ^ n.
Proof.
  intros Hz Hn Hb. destruct (Z.eq_dec z 0) as [->|]; [lia|].
  apply Z.log2_lt_pow2; [lia|].
  destruct (Z.lt_ge_cases (Z.log2 z) n) as [|Hge]; [done|].
  specialize (Hb _ Hge). rewrite Z.bit_log2 in Hb by lia. done.
Qed.

Lemma is_u64_bits z : 0 ≤ z → (∀ i, 64 ≤ i → Z.testbit z i = false) → is_u64 z.
Proof. intros H1 H2. split; [done|]. rewrite W64_pow. apply bits_bound; [done|lia|done]. Qed.

Lemma land_u64 a b : is_u64 a → is_u64 b → is_u64 (Z.land a b).
Proof.
  intros Ha Hb. apply is_u64_bits.
  - apply Z.land_nonneg. left. apply Ha.
  - intros i Hi. by rewrite Z.land_spec, (testbit_high64 a).
Qed.

Lemma lor_u64 a b : is_u64 a → is_u64 b → is_u64 (Z.lor a b).
Proof.
  intros Ha Hb. apply is_u64_bits.
  - apply Z.lor_nonneg. split; [apply Ha|apply Hb].
  - intros i Hi. by rewrite Z.lor_spec, (testbit_high64 a), (testbit_high64 b).
Qed.

#[export] Hint Resolve land_u64 lor_u64 : kos.

Lemma builtin_ctz_spec z :
  0 < z → 0 ≤ builtin_ctz z ∧ Z.testbit z (builtin_ctz z) = true ∧
          ∀ i, i < builtin_ctz z → Z.testbit z i = false.
Proof.
  destruct z as [|p|p]; [lia| |lia]. intros _. simpl.
  induction p as [p _|p (H0 & H1 & H2)|]; simpl ctz_pos.
  - repeat split; [lia|]. intros. by apply Z.testbit_neg_r.
  - change (Z.pos p~0) with (Z.double (Z.pos p)).
    rewrite Z.double_bits. split; [lia|].
    split; [by replace (Z.pred (1 + ctz_pos p)) with (ctz_pos p) by lia|].
    intros i Hi. rewrite Z.double_bits. apply H2. lia.
  - repeat split; [lia|]. intros. by apply Z.testbit_neg_r.
Qed.

Lemma popcount_half z :
  0 ≤ z → builtin_popcount z = Z.b2z (Z.testbit z 0) + builtin_popcount (z / 2).
Proof.
  intros Hz. rewrite <- Z.div2_div. destruct z as [|p|p]; [done| |lia].
  by destruct p.
Qed.

(** The positions of the set bits of a word among the first [n]. *)
Definition bits_of (n : nat) (w : Z) : list Z :=
  filter (λ j, Z.testbit w j = true) (seqZ 0 (Z.of_nat n)).

Lemma elem_of_bits_of n w j :
  j ∈ bits_of n w ↔ 0 ≤ j < Z.of_nat n ∧ Z.testbit w j = true.
Proof. unfold bits_of. rewrite list_elem_of_filter, elem_of_seqZ. intuition lia. Qed.

Lemma NoDup_bits_of n w : NoDup (bits_of n w).
Proof. apply NoDup_filter, NoDup_seqZ. Qed.

Lemma length_bits_of n w :
  0 ≤ w < 2 ^ Z.of_nat n → Z.of_nat (length (bits_of n w)) = builtin_popcount w.
Proof.
  revert w. induction n as [|n IH]; intros w Hw.
  - assert (w = 0) as -> by (change (2 ^ Z.of_nat 0) with 1 in Hw; lia). done.
  - rewrite popcount_half by lia. rewrite <- (IH (w / 2)).
    2:{ rewrite Nat2Z.inj_succ, Z.pow_succ_r in Hw by lia. zsolve. }
    assert (length (bits_of (S n) w)
            = ((if Z.testbit w 0 then 1 else 0) + length (bits_of n (w / 2)))%nat) as ->.
    { unfold bits_of. rewrite seqZ_cons by lia.
      replace (Z.pred (Z.of_nat (S n))) with (Z.of_nat n) by lia.
      change (Z.succ 0) with (1 + 0). rewrite <- fmap_add_seqZ, filter_cons.
      assert (∀ l, (∀ x, x ∈ l → 0 ≤ x) →
        length (filter (λ j, Z.testbit w j = true) (Z.add 1 <$> l))
        = length (filter (λ j, Z.testbit (w / 2) j = true) l)) as Hl.
      { induction l as [|x l IHl]; intros Hx; [done|].
        rewrite fmap_cons, !filter_cons.
        assert (Z.testbit w (1 + x) = Z.testbit (w / 2) x) as ->.
        { rewrite <- Z.div2_div, Z.div2_spec, Z.shiftr_spec by (apply Hx; left).
          f_equal; lia. }
        specialize (IHl (λ y Hy, Hx y (list_elem_of_further _ _ _ Hy))).
        case_decide; simpl; lia. }
      rewrite <- (Hl (seqZ 0 (Z.of_nat n))) by (intros x; rewrite elem_of_seqZ; lia).
      destruct (Z.testbit w 0) eqn:E; [rewrite decide_True by done|rewrite decide_False by done];
        simpl; reflexivity. }
    destruct (Z.testbit w 0); simpl Z.b2z; lia.
Qed.

(** Two non-negative words are equal when their low 64 bits agree. *)
Lemma u64_bits_eq a b :
  is_u64 a → is_u64 b → (∀ i, 0 ≤ i < 64 → Z.testbit a i = Z.testbit b i) → a = b.
Proof.
  intros Ha Hb H. apply Z.bits_inj'. intros i Hi.
  destruct (Z.lt_ge_cases i 64); [by apply H|].
  by rewrite !testbit_high64.
Qed.

(** Loading from a finite map that stands for zero-initialised storage. *)
Definition get0 (m : gmap Z Z) (i : Z) : Z := default 0 (m !! i).

Lemma get0_insert m i v : get0 (<[i := v]> m) i = v.
Proof. unfold get0. by rewrite lookup_insert_eq. Qed.

Lemma get0_insert_ne m i j v : i ≠ j → get0 (<[i := v]> m) j = get0 m j.
Proof. intros. unfold get0. by rewrite lookup_insert_ne. Qed.

Lemma get0_insert_dec m i j v :
  get0 (<[i := v]> m) j = if decide (i = j) then v else get0 m j.
Proof. case_decide; subst; [apply get0_insert|by apply get0_insert_ne]. Qed.

Lemma lxor_u32 a b : is_u32 a → is_u32 b → is_u32 (Z.lxor a b).
Proof.
  unfold is_u32. change 4294967296 with (2 ^ 32). intros Ha Hb.
  assert (Hn : 0 ≤ Z.lxor a b) by (apply Z.lxor_nonneg; lia).
  split; [done|]. apply bits_bound; [done|lia|].
  intros i Hi. by rewrite Z.lxor_spec, !(testbit_high _ 32).
Qed.

(** Or-ing a field below bit [n] into a multiple of [2^n] is addition. *)
Lemma lor_mul_pow2 x y n : 0 ≤ n → 0 ≤ y < 2 ^ n → Z.lor (x * 2 ^ n) y = x * 2 ^ n + y.
Proof.
  intros Hn Hy. rewrite <- Z.add_lor_land.
  assert (Z.land (x * 2 ^ n) y = 0) as ->; [|lia].
  apply Z.bits_inj'. intros i Hi. rewrite Z.land_spec, Z.bits_0.
  destruct (Z.lt_ge_cases i n).
  - by rewrite Z.mul_pow2_bits_low.
  - rewrite (testbit_high y n i) by done. by rewrite andb_false_r.
Qed.

Lemma land_low_mask x n m : 0 ≤ n → m = Z.ones n → Z.land x m = x mod 2 ^ n.
Proof. intros ? ->. by apply Z.land_ones. Qed.

Lemma u32_testbit z i : Z.testbit (u32 z) i = (i <? 32) && Z.testbit z i.
Proof.
  unfold u32. change 4294967296 with (2 ^ 32). destruct (Z.ltb_spec i 32).
  - destruct (Z.leb_spec 0 i); [by rewrite Z.mod_pow2_bits_low|].
    by rewrite !Z.testbit_neg_r by lia.
  - by rewrite Z.mod_pow2_bits_high by lia.
Qed.

(** [(t & ~r) == 0] says that the bits of [t] are among those of [r]. *)
Lemma land_not32_zero t r : is_u32 t → Z.land t (not32 r) = 0 ↔ Z.land t r = t.
Proof.
  intros Ht.
  assert (Hbit : ∀ i, 0 ≤ i → Z.testbit (Z.land t (not32 r)) i = Z.testbit t i && negb (Z.testbit r i)).
  { intros i Hi. unfold not32. rewrite Z.land_spec, u32_testbit, Z.lnot_spec by done.
    destruct (Z.ltb_spec i 32); [done|].
    rewrite (testbit_high t 32 i) by (done || exact Ht). done. }
  split; intros H.
  - apply Z.bits_inj'. intros i Hi. specialize (Hbit i Hi). rewrite H, Z.bits_0 in Hbit.
    rewrite Z.land_spec. by destruct (Z.testbit t i), (Z.testbit r i).
  - apply Z.bits_inj'. intros i Hi. rewrite (Hbit i Hi), Z.bits_0, <- H, Z.land_spec.
    by destruct (Z.testbit t i), (Z.testbit r i).
Qed.

(** Testing one bit with a mask. *)
Lemma land_bit e k : 0 ≤ k → (Z.land e (2 ^ k) =? 0) = negb (Z.testbit e k).
Proof.
  intros Hk. destruct (Z.eqb_spec (Z.land e (2 ^ k)) 0) as [H|H].
  - assert (Z.testbit (Z.land e (2 ^ k)) k = false) as Hb by (rewrite H; apply Z.bits_0).
    rewrite Z.land_spec, Z.pow2_bits_true, andb_true_r in Hb by done. by rewrite Hb.
  - destruct (Z.testbit e k) eqn:E; [done|]. destruct H. apply Z.bits_inj'. intros i Hi.
    rewrite Z.land_spec, Z.bits_0. destruct (Z.eq_dec i k) as [->|].
    + by rewrite E.
    + by rewrite Z.pow2_bits_false, andb_false_r by lia.
Qed.

(** Testing two bits with a mask. *)
Lemma land_two_bits e j k :
  0 ≤ j → 0 ≤ k →
  negb (Z.land e (Z.lor (2 ^ j) (2 ^ k)) =? Z.lor (2 ^ j) (2 ^ k))
  = negb (Z.testbit e j && Z.testbit e k).
Proof.
  intros Hj Hk. f_equal.
  assert (Hm : ∀ i, 0 ≤ i → Z.testbit (Z.lor (2 ^ j) (2 ^ k)) i = (j =? i) || (k =? i)).
  { intros i Hi. by rewrite Z.lor_spec, !Z.pow2_bits_eqb. }
  set (m := Z.lor (2 ^ j) (2 ^ k)) in *. destruct (Z.eqb_spec (Z.land e m) m) as [H|H].
  - pose proof (f_equal (λ z, Z.testbit z j) H) as H0. pose proof (f_equal (λ z, Z.testbit z k) H) as H9.
    cbv beta in H0, H9. rewrite Z.land_spec, Hm in H0, H9 by done.
    rewrite Z.eqb_refl in H0. rewrite Z.eqb_refl, orb_true_r in H9. cbn [orb] in H0.
    rewrite andb_true_r in H0, H9. by rewrite H0, H9.
  - symmetry. apply not_true_iff_false. intros [H0 H9]%andb_prop. apply H. clear H.
    apply Z.bits_inj'. intros i Hi. rewrite Z.land_spec, Hm by done.
    destruct (Z.eqb_spec j i) as [<-|]; [by rewrite H0|].
    destruct (Z.eqb_spec k i) as [<-|]; [by rewrite H9|]. by rewrite andb_false_r.
Qed.

(** Clearing the low [n] bits of a word rounds down to a multiple of [2^n]. *)
Lemma land_not64_ones x n : is_u64 x → 0 ≤ n ≤ 64 → Z.land x (not64 (Z.ones n)) = x / 2 ^ n * 2 ^ n.
Proof.
  intros Hx Hn. rewrite <- Z.shiftr_div_pow2, <- Z.shiftl_mul_pow2 by lia.
  apply Z.bits_inj'. intros i Hi. rewrite Z.land_spec, not64_testbit by done.
  rewrite Z.shiftl_spec by done. destruct (Z.ltb_spec i 64).
  - destruct (Z.lt_ge_cases i n).
    + rewrite Z.ones_spec_low, (Z.testbit_neg_r _ (i - n)) by lia. simpl. apply andb_false_r.
    + rewrite Z.ones_spec_high, Z.shiftr_spec by lia. simpl. rewrite andb_true_r. f_equal. lia.
  - rewrite Z.shiftr_spec by lia. cbn [andb].
    replace (i - n + n) with i by lia. rewrite (testbit_high64 x i) by done. done.
Qed.

(** ** Lists *)

Lemma filter_all {A} (P : A → Prop) `{!∀ x, Decision (P x)} (l : list A) :
  (∀ x, x ∈ l → P x) → filter P l = l.
Proof.
  induction l as [|x l IH]; intros Hl; [done|]. rewrite filter_cons, decide_True by (apply Hl; left).
  f_equal. apply IH. intros y Hy. apply Hl. by right.
Qed.

Lemma filter_none {A} (P : A → Prop) `{!∀ x, Decision (P x)} (l : list A) :
  (∀ x, x ∈ l → ¬ P x) → filter P l = [].
Proof.
  induction l as [|x l IH]; intros Hl; [done|]. rewrite filter_cons, decide_False by (apply Hl; left).
  apply IH. intros y Hy. apply Hl. by right.
Qed.
