(* ===== verification/Interfaces.v ===== *)
(** * Interfaces between components

    What one component promises to another, as type classes: the clients'
    definitions and theorems are stated against the class, and the component
    that implements it declares the instance. *)

From S2P Require Import Prelude.
From Stdlib Require Import ZArith Lia.
From stdpp Require Import gmap.
#[local] Open Scope Z_scope.

(** ** Physical frames (src/include/kos/pmm.h)

    The page frame allocator as the virtual memory manager and the heap use it:
    [pmm_allocate_frame] and [pmm_free_frame] over an abstract set of usable
    frame numbers and a subset of free ones. *)
Class FrameAllocator (S : Type) := {
  fa_allocate : S → Z * S;
  fa_release : Z → S → bool * S;
  fa_ok : S → Prop;
  fa_usable : S → gset Z;
  fa_free : S → gset Z;
  fa_free_usable s : fa_ok s → fa_free s ⊆ fa_usable s;
  fa_usable_range s f : fa_ok s → f ∈ fa_usable s → 1 ≤ f < 16777216;
  fa_allocate_spec s :
    fa_ok s →
    let '(a, s') := fa_allocate s in
    fa_ok s' ∧ fa_usable s' = fa_usable s ∧
    ((a = 0 ∧ fa_free s = ∅ ∧ s' = s) ∨
     ∃ f, f ∈ fa_free s ∧ a = f * 4096 ∧ fa_free s' = fa_free s ∖ {[f]});
  fa_release_spec s a :
    fa_ok s → 0 ≤ a →
    let '(ok, s') := fa_release a s in
    fa_ok s' ∧ fa_usable s' = fa_usable s ∧
    if ok then ∃ f, a = f * 4096 ∧ f ∈ fa_usable s ∖ fa_free s ∧ fa_free s' = fa_free s ∪ {[f]}
    else s' = s ∧ ∀ f, a = f * 4096 → f ∉ fa_usable s ∖ fa_free s
}.

(** ** Backing pages (src/include/kos/pmm.h, src/include/kos/vmm.h)

    The four calls the heap makes to back its address range with frames. *)
Class PageMapper (S : Type) := {
  map_allocate_frame : S → Z * S;
  map_free_frame : Z → S → bool * S;
  map_map_page : Z → Z → Z → S → bool * S;
  map_unmap_page : Z → S → Z * S;
}.

(** ** Block devices (src/include/kos/block.h)

    Single-sector transfers as the block cache uses them; a device is a
    non-zero pointer.  A sector that was written reads back, no other sector
    changes, and a failed write or a flush changes nothing that can be read. *)
Class BlockIO (S : Type) := {
  bio_id : Z → Z;
  bio_read : Z → Z → S → option (list Z);
  bio_write : Z → Z → list Z → S → bool * S;
  bio_flush : Z → S → S;
  bio_write_spec dev lba x s dev' lba' :
    let '(ok, s') := bio_write dev lba x s in
    bio_read dev' lba' s' =
      if ok && bool_decide (dev' = dev ∧ lba' = lba) then Some x else bio_read dev' lba' s;
  bio_flush_spec dev s dev' lba' : bio_read dev' lba' (bio_flush dev s) = bio_read dev' lba' s;
}.

(** ** Cached sectors (src/include/kos/block_cache.h)

    The block cache as a file system uses it.  [sc_view] is the content a
    client sees of each sector of each device: reading returns it and changes
    nothing visible, a write changes the sectors of its run and nothing else,
    and a flush changes nothing visible.  [sc_sector] says which sectors the
    devices have. *)
Class SectorCache (S : Type) := {
  sc_read : Z → Z → Z → S → option (list (list Z)) * S;
  sc_write : Z → Z → list (list Z) → S → bool * S;
  sc_flush : Z → S → bool * S;
  sc_device_read : Z → Z → S → option (list Z);
  sc_ok : S → Prop;
  sc_view : S → Z → Z → option (list Z);
  sc_sector : Z → Z → Prop;
  sc_read_spec d b count s :
    sc_ok s → d ≠ 0 → 0 < count →
    let '(r, s') := sc_read d b count s in
    sc_ok s' ∧ (∀ d' b', sc_view s' d' b' = sc_view s d' b') ∧
    r = mapM (λ k, sc_view s d (u64 (b + k))) (seqZ 0 count);
  sc_write_spec d b src s :
    sc_ok s → d ≠ 0 → src ≠ [] → 0 ≤ b → b + Z.of_nat (length src) ≤ W64 →
    (∀ k, b ≤ k < b + Z.of_nat (length src) → sc_sector d k) →
    let '(ok, s') := sc_write d b src s in
    ok = true ∧ sc_ok s' ∧
    ∀ d' b', sc_view s' d' b' =
      if bool_decide (d' = d ∧ b ≤ b' < b + Z.of_nat (length src)) then src !! Z.to_nat (b' - b)
      else sc_view s d' b';
  sc_flush_spec d s :
    sc_ok s →
    let '(_, s') := sc_flush d s in sc_ok s' ∧ ∀ d' b', sc_view s' d' b' = sc_view s d' b';
}.
