(* ===== verification/Pmm.v ===== *)
(** * Physical memory manager (src/mm/pmm.c)

    The two bitmaps are maps from word index to 64-bit word (an absent word is
    0, the value [zero_bitmap] writes); every critical section of [pmm_lock] is
    one state-passing function.  The abstraction of a bitmap is the finite set
    of frames whose bit is set ([bitmap_frames]); the theorems state what each
    operation does to the sets of usable and of free frames, and the instance
    at the end discharges the [FrameAllocator] interface its clients use. *)

From S2P Require Import Prelude Interfaces.
From Stdlib Require Import ZArith Lia.
From stdpp Require Import gmap.
#[local] Open Scope Z_scope.

(** ** Data *)

Definition FRAME_SIZE : Z := 4096.
Definition MAX_TRACKED_PHYSICAL_MEMORY : Z := 68719476736.
Definition MAX_TRACKED_FRAMES : Z := 16777216.
Definition BITMAP_WORDS : Z := 262144.

Record physical_memory_manager := Pmm {
  usable_bitmap : gmap Z Z;
  free_bitmap : gmap Z Z;
  total_memory_bytes : Z;
  usable_memory_bytes : Z;
  kernel_memory_bytes : Z;
  framebuffer_memory_bytes : Z;
  bootloader_reclaimable_bytes : Z;
  tracked_usable_frames : Z;
  free_frames : Z;
  frame_search_limit : Z;
  allocation_hint : Z;
  initialized : bool
}.

(** The memory types the code names; their numeric values are the boot
    protocol's, and every other value falls in the [default] branches. *)
Inductive limine_memmap_type :=
  | LIMINE_MEMMAP_USABLE
  | LIMINE_MEMMAP_ACPI_RECLAIMABLE
  | LIMINE_MEMMAP_ACPI_NVS
  | LIMINE_MEMMAP_BOOTLOADER_RECLAIMABLE
  | LIMINE_MEMMAP_EXECUTABLE_AND_MODULES
  | LIMINE_MEMMAP_FRAMEBUFFER
  | LIMINE_MEMMAP_DEFAULT.

#[export] Instance limine_memmap_type_eq_dec : EqDecision limine_memmap_type.
Proof. solve_decision. Defined.

Record limine_memmap_entry := MemmapEntry {
  base : Z;
  length : Z;
  type : limine_memmap_type
}.

(** [None] is the null pointer: the response itself, its array of entries, or
    one entry. The list has [entry_count] elements. *)
Definition limine_memmap_response := option (option (list (option limine_memmap_entry))).

(** ** Bit operations *)

Definition saturating_add (left right : Z) : Z :=
  if UINT64_MAX - left <? right then UINT64_MAX else left + right.

Definition align_up_frame (address : Z) : Z :=
  address / FRAME_SIZE + (if address mod FRAME_SIZE =? 0 then 0 else 1).

Definition align_down_frame (address : Z) : Z := address / FRAME_SIZE.

Definition frame_is_tracked (frame : Z) : bool := frame <? MAX_TRACKED_FRAMES.

Definition frame_mask (frame : Z) : Z := u64 (Z.shiftl 1 (frame mod 64)).

Definition bitmap_test (bitmap : gmap Z Z) (frame : Z) : bool :=
  negb (Z.land (get0 bitmap (frame / 64)) (frame_mask frame) =? 0).

Definition bitmap_set (bitmap : gmap Z Z) (frame : Z) : gmap Z Z :=
  <[frame / 64 := Z.lor (get0 bitmap (frame / 64)) (frame_mask frame)]> bitmap.

Definition bitmap_clear (bitmap : gmap Z Z) (frame : Z) : gmap Z Z :=
  <[frame / 64 := Z.land (get0 bitmap (frame / 64)) (not64 (frame_mask frame))]> bitmap.

Definition zero_bitmap : gmap Z Z := ∅.

Definition bitmap_range_mask (word first_frame end_frame : Z) : Z :=
  let word_first_frame := u64 (word * 64) in
  let first_bit := if first_frame >? word_first_frame then first_frame - word_first_frame else 0 in
  let word_end_frame := u64 (word_first_frame + 64) in
  let end_bit := if end_frame <? word_end_frame then u64 (end_frame - word_first_frame) else 64 in
  if first_bit >=? end_bit then 0
  else
    let lower_mask := u64 (Z.shiftl UINT64_MAX first_bit) in
    let upper_mask := if end_bit =? 64 then UINT64_MAX else u64 (u64 (Z.shiftl 1 end_bit) - 1) in
    Z.land lower_mask upper_mask.

(** ** Initialisation *)

(** The body of the loop of [mark_usable_frames] for one word. *)
Definition mark_usable_word (first_frame end_frame word : Z) (pmm : physical_memory_manager)
  : physical_memory_manager :=
  let mask := bitmap_range_mask word first_frame end_frame in
  let newly_usable := Z.land mask (not64 (get0 (usable_bitmap pmm) word)) in
  let added_frames := builtin_popcount newly_usable in
  {| usable_bitmap := <[word := Z.lor (get0 (usable_bitmap pmm) word) mask]> (usable_bitmap pmm);
     free_bitmap := <[word := Z.lor (get0 (free_bitmap pmm) word) newly_usable]> (free_bitmap pmm);
     total_memory_bytes := total_memory_bytes pmm;
     usable_memory_bytes := usable_memory_bytes pmm;
     kernel_memory_bytes := kernel_memory_bytes pmm;
     framebuffer_memory_bytes := framebuffer_memory_bytes pmm;
     bootloader_reclaimable_bytes := bootloader_reclaimable_bytes pmm;
     tracked_usable_frames := u64 (tracked_usable_frames pmm + added_frames);
     free_frames := u64 (free_frames pmm + added_frames);
     frame_search_limit := frame_search_limit pmm;
     allocation_hint := allocation_hint pmm;
     initialized := initialized pmm |}.

Fixpoint mark_usable_words (first_frame end_frame : Z) (n : nat) (word : Z)
    (pmm : physical_memory_manager) : physical_memory_manager :=
  match n with
  | O => pmm
  | S n' => mark_usable_words first_frame end_frame n' (word + 1)
              (mark_usable_word first_frame end_frame word pmm)
  end.

(** [for (word = first_word; word <= last_word; ++word)] runs
    [last_word - first_word + 1] times. *)
Definition mark_usable_frames (first_frame end_frame : Z) (pmm : physical_memory_manager)
  : physical_memory_manager :=
  if first_frame >=? end_frame then pmm
  else
    let first_word := first_frame / 64 in
    let last_word := (end_frame - 1) / 64 in
    mark_usable_words first_frame end_frame (Z.to_nat (last_word - first_word + 1)) first_word pmm.

Definition memory_type_is_physical_ram (type : limine_memmap_type) : bool :=
  match type with
  | LIMINE_MEMMAP_USABLE
  | LIMINE_MEMMAP_ACPI_RECLAIMABLE
  | LIMINE_MEMMAP_ACPI_NVS
  | LIMINE_MEMMAP_BOOTLOADER_RECLAIMABLE
  | LIMINE_MEMMAP_EXECUTABLE_AND_MODULES
  | LIMINE_MEMMAP_FRAMEBUFFER => true
  | LIMINE_MEMMAP_DEFAULT => false
  end.

(** The byte counters of a state, replaced; every other field is kept. *)
Definition with_accounting (pmm : physical_memory_manager) (total usable kernel framebuffer reclaimable : Z)
  : physical_memory_manager :=
  {| usable_bitmap := usable_bitmap pmm;
     free_bitmap := free_bitmap pmm;
     total_memory_bytes := total;
     usable_memory_bytes := usable;
     kernel_memory_bytes := kernel;
     framebuffer_memory_bytes := framebuffer;
     bootloader_reclaimable_bytes := reclaimable;
     tracked_usable_frames := tracked_usable_frames pmm;
     free_frames := free_frames pmm;
     frame_search_limit := frame_search_limit pmm;
     allocation_hint := allocation_hint pmm;
     initialized := initialized pmm |}.

(** The allocator's own fields of a state, replaced. *)
Definition with_allocator (pmm : physical_memory_manager) (free : gmap Z Z)
    (free_count limit hint : Z) (init : bool) : physical_memory_manager :=
  {| usable_bitmap := usable_bitmap pmm;
     free_bitmap := free;
     total_memory_bytes := total_memory_bytes pmm;
     usable_memory_bytes := usable_memory_bytes pmm;
     kernel_memory_bytes := kernel_memory_bytes pmm;
     framebuffer_memory_bytes := framebuffer_memory_bytes pmm;
     bootloader_reclaimable_bytes := bootloader_reclaimable_bytes pmm;
     tracked_usable_frames := tracked_usable_frames pmm;
     free_frames := free_count;
     frame_search_limit := limit;
     allocation_hint := hint;
     initialized := init |}.

Definition account_memory_type (entry : limine_memmap_entry) (pmm : physical_memory_manager)
  : physical_memory_manager :=
  match type entry with
  | LIMINE_MEMMAP_EXECUTABLE_AND_MODULES =>
      with_accounting pmm (total_memory_bytes pmm) (usable_memory_bytes pmm)
        (saturating_add (kernel_memory_bytes pmm) (length entry))
        (framebuffer_memory_bytes pmm) (bootloader_reclaimable_bytes pmm)
  | LIMINE_MEMMAP_FRAMEBUFFER =>
      with_accounting pmm (total_memory_bytes pmm) (usable_memory_bytes pmm)
        (kernel_memory_bytes pmm)
        (saturating_add (framebuffer_memory_bytes pmm) (length entry))
        (bootloader_reclaimable_bytes pmm)
  | LIMINE_MEMMAP_BOOTLOADER_RECLAIMABLE =>
      with_accounting pmm (total_memory_bytes pmm) (usable_memory_bytes pmm)
        (kernel_memory_bytes pmm) (framebuffer_memory_bytes pmm)
        (saturating_add (bootloader_reclaimable_bytes pmm) (length entry))
  | _ => pmm
  end.

Definition mark_usable_range (base length : Z) (pmm : physical_memory_manager)
  : physical_memory_manager :=
  if (length =? 0) || (base >=? MAX_TRACKED_PHYSICAL_MEMORY) then pmm
  else
    let e := saturating_add base length in
    let e := if e >? MAX_TRACKED_PHYSICAL_MEMORY then MAX_TRACKED_PHYSICAL_MEMORY else e in
    let first_frame := align_up_frame base in
    let end_frame := align_down_frame e in
    let limit := if end_frame >? frame_search_limit pmm then end_frame else frame_search_limit pmm in
    let pmm := with_allocator pmm (free_bitmap pmm) (free_frames pmm) limit
                 (allocation_hint pmm) (initialized pmm) in
    let first_frame := if first_frame =? 0 then 1 else first_frame in
    mark_usable_frames first_frame end_frame pmm.

(** The loop of [pmm_initialize] over the entries; the boolean is [false] when
    a null entry made the function return. *)
Fixpoint pmm_scan_entries (entries : list (option limine_memmap_entry))
    (pmm : physical_memory_manager) : bool * physical_memory_manager :=
  match entries with
  | [] => (true, pmm)
  | None :: _ => (false, pmm)
  | Some entry :: rest =>
      let pmm :=
        if memory_type_is_physical_ram (type entry) then
          with_accounting pmm (saturating_add (total_memory_bytes pmm) (length entry))
            (usable_memory_bytes pmm) (kernel_memory_bytes pmm)
            (framebuffer_memory_bytes pmm) (bootloader_reclaimable_bytes pmm)
        else pmm in
      let pmm := account_memory_type entry pmm in
      let pmm :=
        if bool_decide (type entry = LIMINE_MEMMAP_USABLE) then
          mark_usable_range (base entry) (length entry)
            (with_accounting pmm (total_memory_bytes pmm)
               (saturating_add (usable_memory_bytes pmm) (length entry))
               (kernel_memory_bytes pmm) (framebuffer_memory_bytes pmm)
               (bootloader_reclaimable_bytes pmm))
        else pmm in
      pmm_scan_entries rest pmm
  end.

Definition pmm_reset : physical_memory_manager :=
  {| usable_bitmap := zero_bitmap; free_bitmap := zero_bitmap;
     total_memory_bytes := 0; usable_memory_bytes := 0; kernel_memory_bytes := 0;
     framebuffer_memory_bytes := 0; bootloader_reclaimable_bytes := 0;
     tracked_usable_frames := 0; free_frames := 0;
     frame_search_limit := 1; allocation_hint := 1; initialized := false |}.

Definition pmm_initialize (memory_map : limine_memmap_response) (pmm : physical_memory_manager)
  : bool * physical_memory_manager :=
  match memory_map with
  | None | Some None => (false, pmm)
  | Some (Some entries) =>
      let '(ok, pmm) := pmm_scan_entries entries pmm_reset in
      if negb ok then (false, pmm)
      else
        let limit := if frame_search_limit pmm >? MAX_TRACKED_FRAMES then MAX_TRACKED_FRAMES
                     else frame_search_limit pmm in
        let init := negb (free_frames pmm =? 0) in
        (init, with_allocator pmm (free_bitmap pmm) (free_frames pmm) limit
                 (allocation_hint pmm) init)
  end.

(** ** Allocation and release *)

Fixpoint find_free_words (free : gmap Z Z) (start e : Z) (n : nat) (word : Z) : Z :=
  match n with
  | O => 0
  | S n' =>
      let candidates := Z.land (get0 free word) (bitmap_range_mask word start e) in
      if negb (candidates =? 0) then word * 64 + builtin_ctz candidates
      else find_free_words free start e n' (word + 1)
  end.

Definition find_free_frame (pmm : physical_memory_manager) (start e : Z) : Z :=
  if start >=? e then 0
  else
    let first_word := start / 64 in
    let last_word := (e - 1) / 64 in
    find_free_words (free_bitmap pmm) start e (Z.to_nat (last_word - first_word + 1)) first_word.

Definition pmm_allocate_frame (pmm : physical_memory_manager) : Z * physical_memory_manager :=
  if negb (initialized pmm) then (0, pmm)
  else
    let frame := find_free_frame pmm (allocation_hint pmm) (frame_search_limit pmm) in
    let frame := if (frame =? 0) && (allocation_hint pmm >? 1)
                 then find_free_frame pmm 1 (allocation_hint pmm) else frame in
    if frame =? 0 then (0, pmm)
    else
      let hint := u64 (frame + 1) in
      let hint := if hint >=? frame_search_limit pmm then 1 else hint in
      (u64 (frame * FRAME_SIZE),
       with_allocator pmm (bitmap_clear (free_bitmap pmm) frame) (u64 (free_frames pmm - 1))
         (frame_search_limit pmm) hint (initialized pmm)).

(** The guard of [pmm_free_frame] and of the first loop of [pmm_free_pages]. *)
Definition frame_is_releasable (pmm : physical_memory_manager) (frame : Z) : bool :=
  negb (negb (frame_is_tracked frame) || negb (bitmap_test (usable_bitmap pmm) frame)
        || bitmap_test (free_bitmap pmm) frame).

Definition pmm_free_frame (physical_address : Z) (pmm : physical_memory_manager)
  : bool * physical_memory_manager :=
  if negb (initialized pmm) || (physical_address =? 0) || negb (physical_address mod FRAME_SIZE =? 0)
  then (false, pmm)
  else
    let frame := physical_address / FRAME_SIZE in
    if negb (frame_is_releasable pmm frame) then (false, pmm)
    else
      let hint := if frame <? allocation_hint pmm then frame else allocation_hint pmm in
      (true, with_allocator pmm (bitmap_set (free_bitmap pmm) frame) (u64 (free_frames pmm + 1))
               (frame_search_limit pmm) hint (initialized pmm)).

Definition pmm_alloc_page := pmm_allocate_frame.
Definition pmm_free_page := pmm_free_frame.

(** The scan for [count] consecutive free frames, [n] iterations from [frame];
    returns the final [consecutive] and [start_frame]. *)
Fixpoint scan_run (free : gmap Z Z) (count : Z) (n : nat) (frame consecutive start_frame : Z) : Z * Z :=
  match n with
  | O => (consecutive, start_frame)
  | S n' =>
      if bitmap_test free frame then
        let start_frame := if consecutive =? 0 then frame else start_frame in
        let consecutive := consecutive + 1 in
        if consecutive =? count then (consecutive, start_frame)
        else scan_run free count n' (frame + 1) consecutive start_frame
      else scan_run free count n' (frame + 1) 0 start_frame
  end.

Fixpoint clear_run (free : gmap Z Z) (n : nat) (frame : Z) : gmap Z Z :=
  match n with
  | O => free
  | S n' => clear_run (bitmap_clear free frame) n' (frame + 1)
  end.

Fixpoint set_run (free : gmap Z Z) (n : nat) (frame : Z) : gmap Z Z :=
  match n with
  | O => free
  | S n' => set_run (bitmap_set free frame) n' (frame + 1)
  end.

Definition pmm_alloc_pages (count : Z) (pmm : physical_memory_manager) : Z * physical_memory_manager :=
  if count =? 0 then (0, pmm)
  else if count =? 1 then pmm_allocate_frame pmm
  else if negb (initialized pmm) || (free_frames pmm <? count) then (0, pmm)
  else
    let hint := allocation_hint pmm in
    let limit := frame_search_limit pmm in
    let '(consecutive, start_frame) :=
      scan_run (free_bitmap pmm) count (Z.to_nat (limit - hint)) hint 0 0 in
    let '(consecutive, start_frame) :=
      if (consecutive <? count) && (hint >? 1)
      then scan_run (free_bitmap pmm) count
             (Z.to_nat (Z.min (u64 (hint + count)) limit - 1)) 1 0 start_frame
      else (consecutive, start_frame) in
    if consecutive <? count then (0, pmm)
    else
      let hint := u64 (start_frame + count) in
      let hint := if hint >=? limit then 1 else hint in
      (u64 (start_frame * FRAME_SIZE),
       with_allocator pmm (clear_run (free_bitmap pmm) (Z.to_nat count) start_frame)
         (u64 (free_frames pmm - count)) limit hint (initialized pmm)).

Fixpoint run_is_releasable (pmm : physical_memory_manager) (n : nat) (frame : Z) : bool :=
  match n with
  | O => true
  | S n' => if negb (frame_is_releasable pmm frame) then false
            else run_is_releasable pmm n' (frame + 1)
  end.

Definition pmm_free_pages (physical_address count : Z) (pmm : physical_memory_manager)
  : bool * physical_memory_manager :=
  if count =? 0 then (false, pmm)
  else if count =? 1 then pmm_free_frame physical_address pmm
  else if negb (initialized pmm) || (physical_address =? 0)
          || negb (physical_address mod FRAME_SIZE =? 0) then (false, pmm)
  else
    let start_frame := physical_address / FRAME_SIZE in
    if negb (run_is_releasable pmm (Z.to_nat count) start_frame) then (false, pmm)
    else
      let hint := if start_frame <? allocation_hint pmm then start_frame else allocation_hint pmm in
      (true, with_allocator pmm (set_run (free_bitmap pmm) (Z.to_nat count) start_frame)
               (u64 (free_frames pmm + count)) (frame_search_limit pmm) hint (initialized pmm)).

(** ** Queries *)

Definition pmm_total_memory_bytes (pmm : physical_memory_manager) : Z := total_memory_bytes pmm.
Definition pmm_usable_memory_bytes (pmm : physical_memory_manager) : Z := usable_memory_bytes pmm.
Definition pmm_tracked_memory_bytes (pmm : physical_memory_manager) : Z :=
  u64 (tracked_usable_frames pmm * FRAME_SIZE).
Definition pmm_kernel_memory_bytes (pmm : physical_memory_manager) : Z := kernel_memory_bytes pmm.
Definition pmm_framebuffer_memory_bytes (pmm : physical_memory_manager) : Z :=
  framebuffer_memory_bytes pmm.
Definition pmm_bootloader_reclaimable_bytes (pmm : physical_memory_manager) : Z :=
  bootloader_reclaimable_bytes pmm.
Definition pmm_free_frame_count (pmm : physical_memory_manager) : Z := free_frames pmm.
Definition pmm_allocated_frame_count (pmm : physical_memory_manager) : Z :=
  u64 (tracked_usable_frames pmm - free_frames pmm).
Definition pmm_frame_size : Z := FRAME_SIZE.

(** ** Abstraction of a bitmap: the set of its frames *)

Definition bitmap_frames (b : gmap Z Z) : gset Z :=
  list_to_set (map_to_list b ≫= λ '(i, w), (λ j, 64 * i + j) <$> bits_of 64 w).

Definition words_ok (b : gmap Z Z) : Prop :=
  map_Forall (λ i w, 0 ≤ i < BITMAP_WORDS ∧ is_u64 w) b.

Ltac unfold_consts :=
  unfold FRAME_SIZE, MAX_TRACKED_PHYSICAL_MEMORY, MAX_TRACKED_FRAMES, BITMAP_WORDS,
    is_u64, W64, UINT64_MAX in *.

Lemma frame_mask_testbit f i : 0 ≤ i → Z.testbit (frame_mask f) i = (i =? f mod 64).
Proof.
  intros. unfold frame_mask. rewrite u64_testbit, Z.shiftl_1_l, Z.pow2_bits_eqb by zsolve.
  zcase; zsolve.
Qed.

Lemma bitmap_test_spec b f :
  bitmap_test b f = Z.testbit (get0 b (f / 64)) (f mod 64).
Proof.
  unfold bitmap_test. set (w := get0 b (f / 64)).
  assert (0 ≤ f mod 64) by zsolve.
  destruct (Z.testbit w (f mod 64)) eqn:E.
  - destruct (Z.eqb_spec (Z.land w (frame_mask f)) 0) as [H0|]; [|done].
    assert (Z.testbit (Z.land w (frame_mask f)) (f mod 64) = true) as H1.
    { by rewrite Z.land_spec, E, frame_mask_testbit, Z.eqb_refl. }
    by rewrite H0, Z.bits_0 in H1.
  - assert (Z.land w (frame_mask f) = 0) as ->; [|done].
    apply Z.bits_inj'. intros i Hi. rewrite Z.land_spec, frame_mask_testbit, Z.bits_0 by done.
    destruct (Z.eqb_spec i (f mod 64)) as [->|]; [by rewrite E|by rewrite andb_false_r].
Qed.

Lemma elem_of_bitmap_frames b f : f ∈ bitmap_frames b ↔ bitmap_test b f = true.
Proof.
  rewrite bitmap_test_spec. unfold bitmap_frames, get0.
  rewrite elem_of_list_to_set, list_elem_of_bind. split.
  - intros ([i w] & Hf & Hiw).
    apply list_elem_of_fmap in Hf as (j & -> & [Hj Hb]%elem_of_bits_of).
    apply elem_of_map_to_list in Hiw.
    replace ((64 * i + j) / 64) with i by zsolve.
    replace ((64 * i + j) mod 64) with j by zsolve. by rewrite Hiw.
  - destruct (b !! (f / 64)) as [w|] eqn:E; simpl; [|by rewrite Z.bits_0].
    intros Hb. exists (f / 64, w). split; [|by apply elem_of_map_to_list].
    apply list_elem_of_fmap. exists (f mod 64). split; [zsolve|].
    apply elem_of_bits_of. split; [zsolve|done].
Qed.

(** The frames of one word of a bitmap. *)
Definition word_frames (word w : Z) : gset Z :=
  list_to_set ((λ j, 64 * word + j) <$> bits_of 64 w).

Lemma elem_of_word_frames word w f :
  f ∈ word_frames word w ↔ f / 64 = word ∧ Z.testbit w (f mod 64) = true.
Proof.
  unfold word_frames. rewrite elem_of_list_to_set, list_elem_of_fmap. split.
  - intros (j & -> & [Hj Hb]%elem_of_bits_of).
    replace ((64 * word + j) / 64) with word by zsolve.
    by replace ((64 * word + j) mod 64) with j by zsolve.
  - intros [<- Hb]. exists (f mod 64). split; [zsolve|].
    apply elem_of_bits_of. split; [zsolve|done].
Qed.

Lemma size_word_frames word w :
  is_u64 w → Z.of_nat (size (word_frames word w)) = builtin_popcount w.
Proof.
  intros Hw. unfold word_frames. rewrite size_list_to_set.
  - rewrite length_fmap. by apply length_bits_of.
  - apply NoDup_fmap_2; [intros x y; lia|]. apply NoDup_bits_of.
Qed.

Lemma bitmap_test_insert b i w f :
  bitmap_test (<[i := w]> b) f
  = if decide (f / 64 = i) then Z.testbit w (f mod 64) else bitmap_test b f.
Proof.
  rewrite !bitmap_test_spec, get0_insert_dec.
  destruct (decide (i = f / 64)); destruct (decide (f / 64 = i)); congruence.
Qed.

Lemma bitmap_frames_lor b i m :
  bitmap_frames (<[i := Z.lor (get0 b i) m]> b) = bitmap_frames b ∪ word_frames i m.
Proof.
  apply set_eq. intros f.
  rewrite elem_of_union, !elem_of_bitmap_frames, elem_of_word_frames, bitmap_test_insert.
  case_decide as E; [|naive_solver]. subst i.
  rewrite Z.lor_spec, orb_true_iff, bitmap_test_spec. naive_solver.
Qed.

Lemma bitmap_frames_set b f : bitmap_frames (bitmap_set b f) = bitmap_frames b ∪ {[f]}.
Proof.
  unfold bitmap_set. rewrite bitmap_frames_lor. f_equal.
  apply set_eq. intros g. rewrite elem_of_word_frames, elem_of_singleton.
  rewrite frame_mask_testbit by zsolve. rewrite Z.eqb_eq. split; [|intros ->; done].
  intros []. zsolve.
Qed.

Lemma bitmap_frames_clear b f : bitmap_frames (bitmap_clear b f) = bitmap_frames b ∖ {[f]}.
Proof.
  apply set_eq. intros g. unfold bitmap_clear.
  rewrite elem_of_difference, !elem_of_bitmap_frames, elem_of_singleton, bitmap_test_insert.
  case_decide as E; [|naive_solver].
  rewrite Z.land_spec, andb_true_iff, <- E, bitmap_test_spec, not64_testbit by zsolve.
  rewrite frame_mask_testbit by zsolve.
  assert ((g mod 64 <? 64) = true) as -> by zsolve.
  rewrite andb_true_l, negb_true_iff, Z.eqb_neq. split; intros []; (split; [done|]).
  - by intros ->.
  - zsolve.
Qed.

Lemma words_ok_get b i : words_ok b → is_u64 (get0 b i).
Proof.
  intros H. unfold get0. destruct (b !! i) eqn:E; simpl; [by apply (H i _ E)|done].
Qed.

Lemma words_ok_insert b i w :
  words_ok b → 0 ≤ i < BITMAP_WORDS → is_u64 w → words_ok (<[i := w]> b).
Proof. intros. by apply map_Forall_insert_2. Qed.

Lemma not64_range x : is_u64 (not64 x).
Proof. apply u64_range. Qed.

#[export] Hint Resolve words_ok_get words_ok_insert not64_range : kos.

Lemma frame_mask_u64 f : is_u64 (frame_mask f).
Proof. apply u64_range. Qed.

Lemma words_ok_set b f :
  words_ok b → 0 ≤ f < MAX_TRACKED_FRAMES → words_ok (bitmap_set b f).
Proof.
  intros. unfold bitmap_set. apply words_ok_insert; [done| |].
  - unfold_consts. zsolve.
  - auto using frame_mask_u64 with kos.
Qed.

Lemma words_ok_clear b f :
  words_ok b → 0 ≤ f < MAX_TRACKED_FRAMES → words_ok (bitmap_clear b f).
Proof.
  intros. unfold bitmap_clear. apply words_ok_insert; [done| |].
  - unfold_consts. zsolve.
  - auto with kos.
Qed.

Lemma words_ok_range b f : words_ok b → f ∈ bitmap_frames b → 0 ≤ f < MAX_TRACKED_FRAMES.
Proof.
  intros Hb. rewrite elem_of_bitmap_frames, bitmap_test_spec. unfold get0.
  destruct (b !! (f / 64)) as [w|] eqn:E; simpl; [|by rewrite Z.bits_0].
  intros _. destruct (Hb _ _ E) as [Hr _]. unfold_consts. zsolve.
Qed.

(** A set of tracked frames has at most [MAX_TRACKED_FRAMES] elements. *)
Lemma frames_size_bound (X : gset Z) :
  (∀ f, f ∈ X → 0 ≤ f < MAX_TRACKED_FRAMES) → Z.of_nat (size X) ≤ MAX_TRACKED_FRAMES.
Proof.
  intros HX.
  assert (size X ≤ size (list_to_set (seqZ 0 MAX_TRACKED_FRAMES) : gset Z))%nat as Hle.
  { apply subseteq_size. intros f Hf. apply elem_of_list_to_set, elem_of_seqZ.
    specialize (HX f Hf). lia. }
  rewrite size_list_to_set, length_seqZ in Hle by apply NoDup_seqZ.
  unfold MAX_TRACKED_FRAMES in *. lia.
Qed.

(** ** The range mask *)

Lemma bitmap_range_mask_testbit word first_frame end_frame j :
  0 ≤ word → 0 ≤ first_frame → end_frame ≤ MAX_TRACKED_FRAMES → word * 64 < end_frame → 0 ≤ j < 64 →
  Z.testbit (bitmap_range_mask word first_frame end_frame) j
  = (first_frame <=? word * 64 + j) && (word * 64 + j <? end_frame).
Proof.
  intros Hw Hf He Hwe Hj. unfold bitmap_range_mask.
  rewrite (u64_small (word * 64)) by (unfold_consts; lia).
  rewrite (u64_small (word * 64 + 64)) by (unfold_consts; lia).
  rewrite (u64_small (end_frame - word * 64)) by (unfold_consts; lia).
  set (first_bit := if first_frame >? word * 64 then first_frame - word * 64 else 0).
  set (end_bit := if end_frame <? word * 64 + 64 then end_frame - word * 64 else 64).
  assert (0 ≤ first_bit ∧ (first_bit ≤ j ↔ first_frame ≤ word * 64 + j)) as [Hfb Hfb'].
  { unfold first_bit. zcase. }
  assert (0 ≤ end_bit ≤ 64 ∧ (j < end_bit ↔ word * 64 + j < end_frame)) as [Heb Heb'].
  { unfold end_bit. zcase. }
  rewrite Z.geb_leb. destruct (Z.leb_spec end_bit first_bit).
  { rewrite Z.bits_0. zcase. }
  rewrite Z.land_spec. f_equal.
  - rewrite u64_testbit, Z.shiftl_spec by lia.
    change UINT64_MAX with (Z.ones 64). rewrite Z.testbit_ones by lia.
    zcase1; [|lia]. simpl. zcase.
  - destruct (Z.eqb_spec end_bit 64).
    + change UINT64_MAX with (Z.ones 64). rewrite Z.testbit_ones by lia. zcase.
    + rewrite (u64_small (Z.shiftl 1 end_bit)).
      2:{ rewrite Z.shiftl_1_l. split; [lia|]. rewrite W64_pow. apply Z.pow_lt_mono_r; lia. }
      rewrite Z.shiftl_1_l.
      replace (2 ^ end_bit - 1) with (Z.ones end_bit) by (rewrite Z.ones_equiv; lia).
      rewrite u64_testbit, Z.testbit_ones by lia. zcase.
Qed.

Lemma bitmap_range_mask_u64 word first_frame end_frame :
  is_u64 (bitmap_range_mask word first_frame end_frame).
Proof.
  unfold bitmap_range_mask. repeat case_match; try done; apply land_u64; auto with kos; done.
Qed.

Lemma elem_of_range_mask word first_frame end_frame f :
  0 ≤ word → 0 ≤ first_frame → end_frame ≤ MAX_TRACKED_FRAMES → word * 64 < end_frame →
  f ∈ word_frames word (bitmap_range_mask word first_frame end_frame)
  ↔ f / 64 = word ∧ first_frame ≤ f < end_frame.
Proof.
  intros. rewrite elem_of_word_frames.
  rewrite bitmap_range_mask_testbit by (try done; zsolve).
  rewrite andb_true_iff, Z.leb_le, Z.ltb_lt.
  split; (intros [<- ?]; split; [done|]); zsolve.
Qed.

(** ** The invariant *)

Abbreviation usable_frames p := (bitmap_frames (usable_bitmap p)).
Abbreviation free_frames_set p := (bitmap_frames (free_bitmap p)).

(** Frame 0 is never handed out, a free frame is usable, the counters are the
    sizes of the sets, and every usable frame lies below the search limit. *)
Record pmm_wf (p : physical_memory_manager) : Prop := {
  wf_usable_words : words_ok (usable_bitmap p);
  wf_free_words : words_ok (free_bitmap p);
  wf_free_usable : free_frames_set p ⊆ usable_frames p;
  wf_usable_range : ∀ f, f ∈ usable_frames p → 1 ≤ f < frame_search_limit p;
  wf_limit : 1 ≤ frame_search_limit p ≤ MAX_TRACKED_FRAMES;
  wf_tracked : tracked_usable_frames p = Z.of_nat (size (usable_frames p));
  wf_free : free_frames p = Z.of_nat (size (free_frames_set p));
  wf_hint : 1 ≤ allocation_hint p ≤ frame_search_limit p
}.

Lemma wf_free_range p f : pmm_wf p → f ∈ free_frames_set p → 1 ≤ f < frame_search_limit p.
Proof. intros Hp Hf. apply (wf_usable_range p Hp). by apply (wf_free_usable p Hp). Qed.

Lemma wf_free_bound p : pmm_wf p → 0 ≤ free_frames p ≤ MAX_TRACKED_FRAMES.
Proof.
  intros Hp. rewrite (wf_free p Hp). split; [lia|]. apply frames_size_bound.
  intros f Hf. destruct (wf_free_range p f Hp Hf). pose proof (wf_limit p Hp). lia.
Qed.

Lemma wf_tracked_bound p : pmm_wf p → 0 ≤ tracked_usable_frames p ≤ MAX_TRACKED_FRAMES.
Proof.
  intros Hp. rewrite (wf_tracked p Hp). split; [lia|]. apply frames_size_bound.
  intros f Hf. destruct (wf_usable_range p Hp f Hf). pose proof (wf_limit p Hp). lia.
Qed.

#[export] Hint Resolve wf_usable_words wf_free_words wf_free_usable : kos.

Lemma size_disjoint_union (X Y : gset Z) :
  X ## Y → Z.of_nat (size (X ∪ Y)) = Z.of_nat (size X) + Z.of_nat (size Y).
Proof. intros. rewrite size_union by done. lia. Qed.

Lemma pmm_reset_wf : pmm_wf pmm_reset.
Proof.
  assert (bitmap_frames ∅ = ∅) as E.
  { unfold bitmap_frames. by rewrite map_to_list_empty. }
  split; simpl; rewrite ?E; try done; try (apply map_Forall_empty); try (unfold_consts; lia).
Qed.

Lemma newly_usable_frames b word m :
  words_ok b → is_u64 m →
  word_frames word (Z.land m (not64 (get0 b word))) = word_frames word m ∖ bitmap_frames b.
Proof.
  intros Hb Hm. apply set_eq. intros f.
  rewrite elem_of_difference, !elem_of_word_frames, elem_of_bitmap_frames, bitmap_test_spec.
  rewrite Z.land_spec, not64_testbit, andb_true_iff by zsolve.
  assert ((f mod 64 <? 64) = true) as -> by zsolve. simpl.
  rewrite negb_true_iff. destruct (Z.testbit (get0 b (f / 64)) (f mod 64)) eqn:E;
    (split; [intros [<- [? E']]|intros [[<- ?] ?]]); rewrite ?E in *; done.
Qed.

Lemma mark_usable_word_spec p first_frame end_frame word :
  pmm_wf p → 0 ≤ word → 1 ≤ first_frame → end_frame ≤ frame_search_limit p → word * 64 < end_frame →
  let p' := mark_usable_word first_frame end_frame word p in
  let m := word_frames word (bitmap_range_mask word first_frame end_frame) in
  pmm_wf p' ∧ usable_frames p' = usable_frames p ∪ m ∧
  free_frames_set p' = free_frames_set p ∪ (m ∖ usable_frames p) ∧
  frame_search_limit p' = frame_search_limit p.
Proof.
  intros Hp Hw Hf He Hwe p' m. pose proof (wf_limit p Hp).
  assert (usable_frames p' = usable_frames p ∪ m) as HU by apply bitmap_frames_lor.
  assert (free_frames_set p' = free_frames_set p ∪ (m ∖ usable_frames p)) as HF.
  { subst p'. simpl. rewrite bitmap_frames_lor, newly_usable_frames;
      auto using bitmap_range_mask_u64 with kos. }
  set (newly := Z.land (bitmap_range_mask word first_frame end_frame)
                  (not64 (get0 (usable_bitmap p) word))) in *.
  assert (builtin_popcount newly = Z.of_nat (size (m ∖ usable_frames p))) as Hpop.
  { rewrite <- (size_word_frames word).
    - unfold newly. rewrite newly_usable_frames; auto using bitmap_range_mask_u64 with kos.
    - unfold newly. auto using bitmap_range_mask_u64 with kos. }
  assert (Hm : ∀ f, f ∈ m → 1 ≤ f < frame_search_limit p).
  { intros f Hfm. apply elem_of_range_mask in Hfm; lia. }
  assert (0 ≤ word < BITMAP_WORDS) by (unfold_consts; lia).
  pose proof (wf_free_usable p Hp) as Hsub.
  assert (usable_frames p' = usable_frames p ∪ (m ∖ usable_frames p)) as HU'
    by (rewrite HU; apply set_eq; intros f; rewrite !elem_of_union, elem_of_difference;
        destruct (decide (f ∈ usable_frames p)); tauto).
  assert (Hsize : ∀ X : gset Z, X ⊆ usable_frames p → Z.of_nat (size (X ∪ (m ∖ usable_frames p)))
                   = u64 (Z.of_nat (size X) + builtin_popcount newly)).
  { intros X HX. rewrite Hpop, <- size_disjoint_union by set_solver.
    symmetry. apply u64_small. split; [lia|].
    apply Z.le_lt_trans with MAX_TRACKED_FRAMES; [|done]. apply frames_size_bound.
    intros f [Hfx|[Hfm _]%elem_of_difference]%elem_of_union.
    - apply HX, (wf_usable_range p Hp) in Hfx. lia.
    - apply Hm in Hfm. lia. }
  split; [|done]. split.
  - apply words_ok_insert; auto using bitmap_range_mask_u64 with kos.
  - apply words_ok_insert; auto using bitmap_range_mask_u64 with kos.
  - rewrite HU', HF. set_solver.
  - rewrite HU. intros f [Hfu|Hfm]%elem_of_union; [by apply (wf_usable_range p Hp)|by apply Hm].
  - done.
  - rewrite HU'. simpl. fold newly. rewrite (wf_tracked p Hp). symmetry. by apply Hsize.
  - rewrite HF. simpl. fold newly. rewrite (wf_free p Hp). symmetry. by apply Hsize.
  - apply Hp.
Qed.

Lemma mark_usable_words_spec n : ∀ p first_frame end_frame word,
  pmm_wf p → 0 ≤ word → 1 ≤ first_frame → end_frame ≤ frame_search_limit p →
  (n ≠ O → (word + Z.of_nat n - 1) * 64 < end_frame) →
  let p' := mark_usable_words first_frame end_frame n word p in
  let new f := word ≤ f / 64 < word + Z.of_nat n ∧ first_frame ≤ f < end_frame in
  pmm_wf p' ∧
  (∀ f, f ∈ usable_frames p' ↔ f ∈ usable_frames p ∨ new f) ∧
  (∀ f, f ∈ free_frames_set p' ↔ f ∈ free_frames_set p ∨ (new f ∧ f ∉ usable_frames p)) ∧
  frame_search_limit p' = frame_search_limit p.
Proof.
  induction n as [|n IH]; intros p first_frame end_frame word Hp Hw Hf He Hn p' new.
  { subst p' new. simpl. split_and!; [done| | |done]; intros f; intuition lia. }
  assert (word * 64 < end_frame) as Hwe by (specialize (Hn ltac:(done)); lia).
  destruct (mark_usable_word_spec p first_frame end_frame word) as (Hp1 & HU1 & HF1 & Hl1);
    [done..|].
  set (p1 := mark_usable_word first_frame end_frame word p) in *.
  destruct (IH p1 first_frame end_frame (word + 1)) as (Hp2 & HU2 & HF2 & Hl2);
    [done|lia|done|lia| |]. { intros _. specialize (Hn ltac:(done)). lia. }
  subst p'. simpl. fold p1.
  assert (Hmask : ∀ f, f ∈ word_frames word (bitmap_range_mask word first_frame end_frame)
            ↔ f / 64 = word ∧ first_frame ≤ f < end_frame).
  { intros f. apply elem_of_range_mask; try lia. pose proof (wf_limit p Hp). lia. }
  split_and!; [done| | |congruence]; intros f.
  - rewrite HU2, HU1, elem_of_union, Hmask. unfold new.
    destruct (decide (f / 64 = word)); intuition lia.
  - rewrite HF2, HF1, HU1, !elem_of_union, elem_of_difference, Hmask. unfold new.
    destruct (decide (f ∈ usable_frames p)), (decide (f / 64 = word)); intuition lia.
Qed.

Lemma mark_usable_frames_spec p first_frame end_frame :
  pmm_wf p → 1 ≤ first_frame → end_frame ≤ frame_search_limit p →
  let p' := mark_usable_frames first_frame end_frame p in
  pmm_wf p' ∧
  (∀ f, f ∈ usable_frames p' ↔ f ∈ usable_frames p ∨ first_frame ≤ f < end_frame) ∧
  (∀ f, f ∈ free_frames_set p'
        ↔ f ∈ free_frames_set p ∨ (first_frame ≤ f < end_frame ∧ f ∉ usable_frames p)).
Proof.
  intros Hp Hf He p'. subst p'. unfold mark_usable_frames. rewrite Z.geb_leb.
  destruct (Z.leb_spec end_frame first_frame).
  { split_and!; [done|..]; intros f; intuition lia. }
  set (n := Z.to_nat ((end_frame - 1) / 64 - first_frame / 64 + 1)).
  destruct (mark_usable_words_spec n p first_frame end_frame (first_frame / 64))
    as (Hp' & HU & HF & _); [done|zsolve|done|done|unfold n; zsolve|].
  assert (Hin : ∀ f, first_frame ≤ f < end_frame →
      first_frame / 64 ≤ f / 64 < first_frame / 64 + Z.of_nat n) by (unfold n; intros; zsolve).
  split_and!; [done|..]; intros f; [rewrite HU|rewrite HF]; specialize (Hin f); tauto.
Qed.

(** The frame with number [f] lies entirely in [[base, base + length)] and
    below the tracking limit. *)
Definition frame_inside (b len f : Z) : Prop :=
  1 ≤ f < MAX_TRACKED_FRAMES ∧ b ≤ f * FRAME_SIZE ∧ (f + 1) * FRAME_SIZE ≤ b + len.

Lemma align_up_frame_eq a : align_up_frame a = (a + (FRAME_SIZE - 1)) / FRAME_SIZE.
Proof. unfold align_up_frame. unfold_consts. zcase; zsolve. Qed.

Lemma wf_with_limit p limit :
  pmm_wf p → frame_search_limit p ≤ limit ≤ MAX_TRACKED_FRAMES →
  pmm_wf (with_allocator p (free_bitmap p) (free_frames p) limit (allocation_hint p) (initialized p)).
Proof.
  intros Hp Hl. destruct Hp. split; simpl; try done; try lia.
  intros f Hf. specialize (wf_usable_range0 f Hf). lia.
Qed.

Lemma mark_usable_range_spec p b len :
  pmm_wf p → is_u64 b → is_u64 len →
  let p' := mark_usable_range b len p in
  pmm_wf p' ∧
  (∀ f, f ∈ usable_frames p' ↔ f ∈ usable_frames p ∨ frame_inside b len f) ∧
  (∀ f, f ∈ free_frames_set p' ↔ f ∈ free_frames_set p ∨ (frame_inside b len f ∧ f ∉ usable_frames p)).
Proof.
  intros Hp Hb Hlen p'. subst p'. unfold mark_usable_range, frame_inside. rewrite Z.geb_leb, orb_comm.
  destruct (Z.leb_spec MAX_TRACKED_PHYSICAL_MEMORY b) as [?|Hb']; simpl.
  { split_and!; [done|..]; intros f; unfold_consts; intuition lia. }
  destruct (Z.eqb_spec len 0) as [->|Hl].
  { split_and!; [done|..]; intros f; unfold_consts; intuition lia. }
  set (e := saturating_add b len). set (e' := if e >? _ then _ else e).
  assert (e' = Z.min (b + len) MAX_TRACKED_PHYSICAL_MEMORY) as He'.
  { unfold e', e, saturating_add. unfold_consts. zcase. }
  unfold align_down_frame. set (limit := if e' / FRAME_SIZE >? _ then _ else _).
  set (first_frame := if align_up_frame b =? 0 then 1 else align_up_frame b).
  assert (Hin : ∀ f, first_frame ≤ f < e' / FRAME_SIZE ↔
     1 ≤ f < MAX_TRACKED_FRAMES ∧ b ≤ f * FRAME_SIZE ∧ (f + 1) * FRAME_SIZE ≤ b + len).
  { intros f. rewrite He'. subst first_frame. rewrite align_up_frame_eq.
    unfold_consts. zcase; zsolve. }
  pose proof (wf_limit p Hp).
  destruct (mark_usable_frames_spec
    (with_allocator p (free_bitmap p) (free_frames p) limit (allocation_hint p) (initialized p))
    first_frame (e' / FRAME_SIZE)) as (H1 & H2 & H3).
  - apply wf_with_limit; [done|]. subst limit. rewrite He'. unfold_consts. zcase; zsolve.
  - subst first_frame. rewrite align_up_frame_eq. unfold_consts. zcase; zsolve.
  - simpl. subst limit. zcase.
  - split_and!; [done|..]; intros f; [rewrite H2|rewrite H3]; simpl; rewrite Hin; done.
Qed.

Lemma wf_with_accounting p a b c d e : pmm_wf p → pmm_wf (with_accounting p a b c d e).
Proof. intros []. by split. Qed.

Lemma wf_account_memory_type p e : pmm_wf p → pmm_wf (account_memory_type e p).
Proof. intros. unfold account_memory_type. destruct (type e); auto using wf_with_accounting. Qed.

#[export] Hint Resolve wf_with_accounting wf_account_memory_type : kos.

Lemma account_memory_type_allocator e p :
  usable_bitmap (account_memory_type e p) = usable_bitmap p ∧
  free_bitmap (account_memory_type e p) = free_bitmap p ∧
  initialized (account_memory_type e p) = initialized p.
Proof. unfold account_memory_type. by destruct (type e). Qed.

Definition entry_ok (e : limine_memmap_entry) : Prop := is_u64 (base e) ∧ is_u64 (length e).

(** A frame the memory map makes allocatable. *)
Definition frame_in_map (entries : list (option limine_memmap_entry)) (f : Z) : Prop :=
  ∃ e, Some e ∈ entries ∧ type e = LIMINE_MEMMAP_USABLE ∧ frame_inside (base e) (length e) f.

(** The state before the usable range of one entry is marked. *)
Lemma scan_entry_spec p e :
  pmm_wf p → entry_ok e → free_frames_set p = usable_frames p →
  let p1 := if memory_type_is_physical_ram (type e) then
              with_accounting p (saturating_add (total_memory_bytes p) (length e))
                (usable_memory_bytes p) (kernel_memory_bytes p)
                (framebuffer_memory_bytes p) (bootloader_reclaimable_bytes p) else p in
  let p2 := account_memory_type e p1 in
  let p' := if bool_decide (type e = LIMINE_MEMMAP_USABLE) then
              mark_usable_range (base e) (length e)
                (with_accounting p2 (total_memory_bytes p2)
                   (saturating_add (usable_memory_bytes p2) (length e))
                   (kernel_memory_bytes p2) (framebuffer_memory_bytes p2)
                   (bootloader_reclaimable_bytes p2)) else p2 in
  pmm_wf p' ∧ free_frames_set p' = usable_frames p' ∧
  ∀ f, f ∈ usable_frames p' ↔ f ∈ usable_frames p ∨ frame_in_map [Some e] f.
Proof.
  intros Hp [Hb Hl] Heq p1 p2 p'.
  assert (pmm_wf p2 ∧ usable_bitmap p2 = usable_bitmap p ∧ free_bitmap p2 = free_bitmap p)
    as (Hp2 & HU2 & HF2).
  { subst p2. destruct (account_memory_type_allocator e p1) as (-> & -> & _).
    split; [apply wf_account_memory_type|]; subst p1; destruct (memory_type_is_physical_ram _);
      auto with kos. }
  assert (Hmap : ∀ f, frame_in_map [Some e] f ↔
            type e = LIMINE_MEMMAP_USABLE ∧ frame_inside (base e) (length e) f).
  { intros f. unfold frame_in_map. split; [|naive_solver set_solver].
    intros (e' & Hin%list_elem_of_singleton & ?). by simplify_eq. }
  subst p'. case_bool_decide as Ht.
  - destruct (mark_usable_range_spec
      (with_accounting p2 (total_memory_bytes p2) (saturating_add (usable_memory_bytes p2) (length e))
         (kernel_memory_bytes p2) (framebuffer_memory_bytes p2) (bootloader_reclaimable_bytes p2))
      (base e) (length e)) as (H1 & H2 & H3); [by auto with kos|done|done|].
    simpl in H2, H3. rewrite HU2 in H2. rewrite HF2, HU2, Heq in H3.
    split_and!; [done| |intros f; rewrite H2, Hmap; tauto].
    apply set_eq. intros f. rewrite H2, H3. destruct (decide (f ∈ usable_frames p)); tauto.
  - split_and!; [done|by rewrite HU2, HF2|]. intros f. rewrite HU2, Hmap. tauto.
Qed.

Lemma frame_in_map_cons e rest f :
  frame_in_map (Some e :: rest) f ↔ frame_in_map [Some e] f ∨ frame_in_map rest f.
Proof. unfold frame_in_map. setoid_rewrite elem_of_cons. set_solver. Qed.

Lemma mark_usable_words_initialized n : ∀ a b w p,
  initialized (mark_usable_words a b n w p) = initialized p.
Proof. induction n as [|n IH]; intros; [done|]. simpl. by rewrite IH. Qed.

Lemma mark_usable_range_initialized b l p : initialized (mark_usable_range b l p) = initialized p.
Proof.
  unfold mark_usable_range. destruct ((l =? 0) || _); [done|].
  unfold mark_usable_frames. destruct (_ >=? _); [done|].
  by rewrite mark_usable_words_initialized.
Qed.

Lemma pmm_scan_entries_spec entries : ∀ p,
  pmm_wf p → (∀ e, Some e ∈ entries → entry_ok e) →
  free_frames_set p = usable_frames p → initialized p = false →
  let r := pmm_scan_entries entries p in
  pmm_wf r.2 ∧ initialized r.2 = false ∧ (r.1 = false ↔ None ∈ entries) ∧
  (r.1 = true → free_frames_set r.2 = usable_frames r.2 ∧
    ∀ f, f ∈ usable_frames r.2 ↔ f ∈ usable_frames p ∨ frame_in_map entries f).
Proof.
  induction entries as [|[e|] rest IH]; intros p Hp Hok Heq Hi; simpl.
  - split_and!; [done|done|split; [done|by intros ?%not_elem_of_nil]|].
    intros _. split; [done|]. intros f. split; [by left|]. intros [|(e & He & _)]; [done|].
    by apply not_elem_of_nil in He.
  - destruct (scan_entry_spec p e) as (Hp' & Heq' & HU'); [done|apply Hok; left|done|].
    match type of Hp' with pmm_wf ?q => set (p' := q) in * end.
    destruct (IH p') as (H1 & H2 & H3 & H4); [done|intros e' He'; apply Hok; by right|done| |].
    { subst p'. destruct (account_memory_type_allocator e p) as (_ & _ & Ha).
      unfold account_memory_type in *.
      repeat case_match; rewrite ?mark_usable_range_initialized; done. }
    split_and!; [done|done|by rewrite H3, elem_of_cons; intuition congruence|].
    intros [H5 H6]%H4. split; [done|]. intros f. rewrite H6, HU', (frame_in_map_cons e rest). tauto.
  - split_and!; [done|done|split; [intros _; left|done]|done].
Qed.

(** [pmm_initialize] on a memory map without null entries establishes the
    invariant; a frame is usable exactly when it is not frame 0, lies below
    64 GiB and lies entirely inside one usable entry (partial frames at either
    end are dropped, overlapping entries are not counted twice); every usable
    frame is free; and the call reports success exactly when there is one. *)
Theorem pmm_initialize_spec (entries : list (option limine_memmap_entry)) p :
  (∀ e, Some e ∈ entries → entry_ok e) → None ∉ entries →
  let '(ok, p') := pmm_initialize (Some (Some entries)) p in
  pmm_wf p' ∧
  (∀ f, f ∈ usable_frames p' ↔ frame_in_map entries f) ∧
  free_frames_set p' = usable_frames p' ∧
  initialized p' = ok ∧ (ok = true ↔ ∃ f, frame_in_map entries f).
Proof.
  intros Hok Hnone. simpl.
  destruct (pmm_scan_entries_spec entries pmm_reset) as (Hp & _ & Hr & Hsome);
    [apply pmm_reset_wf|done|done|done|].
  destruct (pmm_scan_entries entries pmm_reset) as [[] p1]; simpl in *; [|tauto].
  destruct (Hsome eq_refl) as [Heq HU].
  assert (HU' : ∀ f, f ∈ usable_frames p1 ↔ frame_in_map entries f).
  { intros f. rewrite HU. unfold zero_bitmap, bitmap_frames at 1.
    rewrite map_to_list_empty. set_solver. }
  pose proof (wf_limit p1 Hp). pose proof (wf_free p1 Hp) as Hfree.
  rewrite Z.gtb_ltb. destruct (Z.ltb_spec MAX_TRACKED_FRAMES (frame_search_limit p1)); [lia|].
  split_and!; [by destruct Hp; split|done|done|done|].
  rewrite negb_true_iff, Z.eqb_neq, Hfree, Heq. setoid_rewrite <- HU'. split.
  - intros Hs. apply set_choose_L. intros E. rewrite E, size_empty in Hs. done.
  - intros [f Hf] Hs. assert (size (usable_frames p1) = 0%nat) as E by lia.
    apply size_empty_inv in E. set_solver.
Qed.

(** ** Searching for a free frame *)

Definition search_result (free : gset Z) (lo start e r : Z) : Prop :=
  (r = 0 ∧ ∀ f, f ∈ free → lo ≤ f / 64 → ¬ start ≤ f < e) ∨
  (r ∈ free ∧ start ≤ r < e ∧ ∀ f, f ∈ free → lo ≤ f / 64 → start ≤ f < e → r ≤ f).

Lemma find_free_words_spec n : ∀ free start e word,
  words_ok free → 0 ≤ word → 0 ≤ start → e ≤ MAX_TRACKED_FRAMES →
  (n ≠ O → (word + Z.of_nat n - 1) * 64 < e) → e ≤ (word + Z.of_nat n) * 64 →
  search_result (bitmap_frames free) word start e (find_free_words free start e n word).
Proof.
  induction n as [|n IH]; intros free start e word Hok Hw Hs He Hn Hcov.
  { left. split; [done|]. intros f _ ? ?. zsolve. }
  specialize (Hn ltac:(done)).
  assert (Hc : word_frames word (Z.land (get0 free word) (bitmap_range_mask word start e))
     = bitmap_frames free ∩ word_frames word (bitmap_range_mask word start e)).
  { apply set_eq. intros f.
    rewrite elem_of_intersection, !elem_of_word_frames, elem_of_bitmap_frames, bitmap_test_spec.
    rewrite Z.land_spec, andb_true_iff. naive_solver. }
  assert (Hin : ∀ f, f ∈ word_frames word (Z.land (get0 free word) (bitmap_range_mask word start e))
     ↔ f ∈ bitmap_frames free ∧ f / 64 = word ∧ start ≤ f < e).
  { intros f. rewrite Hc, elem_of_intersection, elem_of_range_mask by lia. done. }
  simpl. set (c := Z.land (get0 free word) (bitmap_range_mask word start e)) in *.
  assert (is_u64 c) as Hcu by (subst c; auto using bitmap_range_mask_u64 with kos).
  setoid_rewrite elem_of_word_frames in Hin.
  destruct (Z.eqb_spec c 0) as [E|Hne]; simpl.
  - destruct (IH free start e (word + 1)) as [[-> Hno]|(Hr & Hrange & Hmin)]; [done|lia|done|done|lia|lia| |].
    + left. split; [done|]. intros f Hf Hlo Hse.
      destruct (decide (f / 64 = word)) as [Hfw|]; [|apply (Hno f Hf); lia].
      destruct (proj2 (Hin f) (conj Hf (conj Hfw Hse))) as [_ Hbit]. by rewrite E, Z.bits_0 in Hbit.
    + right. split_and!; [done|lia..|]. intros f Hf Hlo Hse.
      destruct (decide (f / 64 = word)) as [Hfw|]; [|apply Hmin; [done|lia|done]].
      destruct (proj2 (Hin f) (conj Hf (conj Hfw Hse))) as [_ Hbit]. by rewrite E, Z.bits_0 in Hbit.
  - destruct (builtin_ctz_spec c) as (H0 & Hset & Hlow); [destruct Hcu; lia|].
    assert (builtin_ctz c < 64) as H64.
    { destruct (Z.lt_ge_cases (builtin_ctz c) 64); [done|]. by rewrite testbit_high64 in Hset. }
    right. destruct (proj1 (Hin (word * 64 + builtin_ctz c))) as (Hr & _ & Hrange).
    { replace ((word * 64 + builtin_ctz c) / 64) with word by zsolve.
      by replace ((word * 64 + builtin_ctz c) mod 64) with (builtin_ctz c) by zsolve. }
    split_and!; [done|lia..|]. intros f Hf Hlo Hse.
    destruct (Z.le_gt_cases (word * 64 + builtin_ctz c) f) as [|Hlt]; [done|exfalso].
    assert (f / 64 = word) as Hfw by zsolve.
    destruct (proj2 (Hin f) (conj Hf (conj Hfw Hse))) as [_ Hbit].
    rewrite Hlow in Hbit; [done|]. zsolve.
Qed.

(** [find_free_frame] returns the least free frame of the range, or 0 when the
    range has none. *)
Lemma find_free_frame_spec p start e :
  pmm_wf p → 1 ≤ start → e ≤ MAX_TRACKED_FRAMES →
  let r := find_free_frame p start e in
  (r = 0 ∧ ∀ f, f ∈ free_frames_set p → ¬ start ≤ f < e) ∨
  (r ∈ free_frames_set p ∧ start ≤ r < e ∧ ∀ f, f ∈ free_frames_set p → start ≤ f < e → r ≤ f).
Proof.
  intros Hp Hs He. unfold find_free_frame. rewrite Z.geb_leb.
  destruct (Z.leb_spec e start); [left; split; [done|lia]|].
  destruct (find_free_words_spec (Z.to_nat ((e - 1) / 64 - start / 64 + 1)) (free_bitmap p) start e
    (start / 64)) as [[-> Hno]|(Hr & Hrange & Hmin)]; [auto with kos|zsolve|lia|done|zsolve|zsolve| |].
  - left. split; [done|]. intros f Hf Hse. apply (Hno f Hf); [zsolve|done].
  - right. split_and!; [done|lia..|]. intros f Hf Hse. apply Hmin; [done|zsolve|done].
Qed.

(** Clearing a free frame and restoring the counters keeps the invariant. *)
Lemma wf_release p (free : gmap Z Z) count limit hint :
  pmm_wf p → words_ok free → bitmap_frames free ⊆ usable_frames p →
  count = Z.of_nat (size (bitmap_frames free)) → limit = frame_search_limit p →
  1 ≤ hint ≤ limit → pmm_wf (with_allocator p free count limit hint (initialized p)).
Proof. intros [] ? ? -> -> ?. by split. Qed.

Lemma wf_frame_tracked p f : pmm_wf p → f ∈ usable_frames p → 0 ≤ f < MAX_TRACKED_FRAMES.
Proof. intros Hp Hf%(wf_usable_range p Hp). pose proof (wf_limit p Hp). lia. Qed.

(** The effect of handing out frame [f]: the record written by
    [pmm_allocate_frame] after a successful search. *)
Lemma take_frame_wf p f hint :
  pmm_wf p → f ∈ free_frames_set p → 1 ≤ hint ≤ frame_search_limit p →
  pmm_wf (with_allocator p (bitmap_clear (free_bitmap p) f) (u64 (free_frames p - 1))
            (frame_search_limit p) hint (initialized p)).
Proof.
  intros Hp Hf Hh. pose proof (wf_free_usable p Hp). pose proof (wf_free_bound p Hp).
  assert (Z.of_nat (size (free_frames_set p))
          = Z.of_nat (size (free_frames_set p ∖ {[f]})) + 1) as Hsz.
  { rewrite size_difference, size_singleton by set_solver.
    assert (size (free_frames_set p) ≠ 0%nat) by (intros E%size_empty_inv; set_solver). lia. }
  apply wf_release; rewrite ?bitmap_frames_clear; auto.
  - apply words_ok_clear; [auto with kos|]. eapply wf_frame_tracked; [done|set_solver].
  - set_solver.
  - rewrite (wf_free p Hp) in *. rewrite u64_small; [lia|]. unfold_consts. lia.
Qed.

(** The frame [pmm_allocate_frame] picks: the least free frame at or above the
    hint, and when there is none the least free frame below it. *)
Definition next_fit (free : gset Z) (hint f : Z) : Prop :=
  f ∈ free ∧
  ((hint ≤ f ∧ ∀ g, g ∈ free → hint ≤ g → f ≤ g) ∨
   (f < hint ∧ ∀ g, g ∈ free → g < hint ∧ f ≤ g)).

Lemma allocate_search p :
  pmm_wf p →
  let frame := find_free_frame p (allocation_hint p) (frame_search_limit p) in
  let frame := if (frame =? 0) && (allocation_hint p >? 1)
               then find_free_frame p 1 (allocation_hint p) else frame in
  (frame = 0 ∧ free_frames_set p = ∅) ∨ (1 ≤ frame ∧ next_fit (free_frames_set p) (allocation_hint p) frame).
Proof.
  intros Hp. pose proof (wf_limit p Hp). pose proof (wf_hint p Hp).
  destruct (find_free_frame_spec p (allocation_hint p) (frame_search_limit p))
    as [[-> Hno]|(Hr & Hrange & Hmin)]; [done|lia|lia| |].
  - assert (Hlow : ∀ f, f ∈ free_frames_set p → f < allocation_hint p).
    { intros f Hf. pose proof (Hno f Hf). pose proof (wf_free_range p f Hp Hf). lia. }
    simpl. rewrite Z.gtb_ltb. destruct (Z.ltb_spec 1 (allocation_hint p)).
    + destruct (find_free_frame_spec p 1 (allocation_hint p))
        as [[-> Hno']|(Hr & Hrange & Hmin)]; [done|lia|lia| |].
      * left. split; [done|]. apply set_eq. intros f. split; [|set_solver]. intros Hf.
        destruct (Hno' f Hf). pose proof (wf_free_range p f Hp Hf). pose proof (Hlow f Hf). lia.
      * right. split; [lia|]. split; [done|]. right. split; [lia|]. intros g Hg.
        pose proof (wf_free_range p g Hp Hg). pose proof (Hlow g Hg).
        split; [done|]. apply Hmin; [done|lia].
    + left. split; [done|]. apply set_eq. intros f. split; [|set_solver]. intros Hf.
      pose proof (wf_free_range p f Hp Hf). pose proof (Hlow f Hf). lia.
  - simpl. set (r := find_free_frame _ _ _) in *.
    destruct (Z.eqb_spec r 0); [lia|]. simpl. right. split; [lia|]. split; [done|].
    left. split; [lia|]. intros g Hg ?. apply Hmin; [done|].
    pose proof (wf_free_range p g Hp Hg). lia.
Qed.

(** The result of [pmm_allocate_frame] on an initialised state, both branches. *)
Lemma pmm_allocate_frame_cases p :
  pmm_wf p → initialized p = true →
  (pmm_allocate_frame p = (0, p) ∧ free_frames_set p = ∅) ∨
  ∃ f p', pmm_allocate_frame p = (f * FRAME_SIZE, p') ∧ pmm_wf p' ∧ initialized p' = true ∧
    next_fit (free_frames_set p) (allocation_hint p) f ∧
    usable_frames p' = usable_frames p ∧ free_frames_set p' = free_frames_set p ∖ {[f]}.
Proof.
  intros Hp Hi. unfold pmm_allocate_frame. rewrite Hi. simpl.
  pose proof (allocate_search p Hp) as Hs. cbv zeta in Hs.
  match goal with |- context [if ?c then find_free_frame p 1 _ else ?x] =>
    set (frame := if c then find_free_frame p 1 (allocation_hint p) else x) in * end.
  destruct Hs as [[-> Hempty]|[Hge Hfit]]; [by left|].
  destruct (Z.eqb_spec frame 0) as [|_]; [lia|]. right. exists frame.
  pose proof (wf_free_range p frame Hp (proj1 Hfit)). pose proof (wf_limit p Hp).
  rewrite (u64_small (frame * FRAME_SIZE)), (u64_small (frame + 1)) by (unfold_consts; lia).
  eexists. split; [done|]. split_and!; [|done|done|done|apply bitmap_frames_clear].
  rewrite <- Hi. apply take_frame_wf; [done|apply Hfit|]. zcase.
Qed.

(** C4: on an initialised state [pmm_allocate_frame] fails (returning 0 and
    changing nothing) exactly when no frame is free; otherwise it returns the
    page-aligned address, below 64 GiB, of the free frame chosen by the
    next-fit policy, removes exactly that frame from the free set, leaves the
    usable set alone and preserves the invariant. *)
Theorem pmm_allocate_frame_spec p :
  pmm_wf p → initialized p = true →
  let '(a, p') := pmm_allocate_frame p in
  pmm_wf p' ∧ usable_frames p' = usable_frames p ∧
  (a = 0 ↔ free_frames_set p = ∅) ∧ (a = 0 → p' = p) ∧
  (a ≠ 0 → ∃ f, a = f * FRAME_SIZE ∧ 0 < a < MAX_TRACKED_PHYSICAL_MEMORY ∧
     next_fit (free_frames_set p) (allocation_hint p) f ∧
     free_frames_set p' = free_frames_set p ∖ {[f]} ∧
     pmm_free_frame_count p' = pmm_free_frame_count p - 1).
Proof.
  intros Hp Hi. destruct (pmm_allocate_frame_cases p Hp Hi) as [[-> HE]|(f & p' & -> & Hp' & _ & Hfit & HU & HF)].
  { split_and!; done. }
  pose proof (wf_free_range p f Hp (proj1 Hfit)). pose proof (wf_limit p Hp).
  assert (0 < f * FRAME_SIZE < MAX_TRACKED_PHYSICAL_MEMORY) by (unfold_consts; lia).
  split_and!; [done|done| |lia|].
  - split; [lia|]. intros HE. destruct Hfit as [Hin _]. set_solver.
  - intros _. exists f. split_and!; [done|lia..|done|done|].
    unfold pmm_free_frame_count. rewrite (wf_free p Hp), (wf_free p' Hp'), HF.
    destruct Hfit as [Hin _]. rewrite size_difference, size_singleton by set_solver.
    assert (size (free_frames_set p) ≠ 0%nat) by (intros E%size_empty_inv; set_solver). lia.
Qed.

(** ** Release *)

Lemma frame_is_releasable_spec p f :
  pmm_wf p → frame_is_releasable p f = true ↔ f ∈ usable_frames p ∖ free_frames_set p.
Proof.
  intros Hp. unfold frame_is_releasable, frame_is_tracked.
  rewrite negb_true_iff, !orb_false_iff, !negb_false_iff, Z.ltb_lt.
  rewrite elem_of_difference, !elem_of_bitmap_frames, not_true_iff_false.
  split; [tauto|]. intros [Hu Hf]. split_and!; [|done|done].
  apply elem_of_bitmap_frames, (wf_frame_tracked p f Hp) in Hu. lia.
Qed.

Lemma size_union_singleton_notin (X : gset Z) f :
  f ∉ X → Z.of_nat (size (X ∪ {[f]})) = Z.of_nat (size X) + 1.
Proof. intros. rewrite size_disjoint_union, size_singleton by set_solver. lia. Qed.

(** The record written by [pmm_free_frame] after its guards. *)
Lemma give_frame_wf p f hint :
  pmm_wf p → f ∈ usable_frames p ∖ free_frames_set p → 1 ≤ hint ≤ frame_search_limit p →
  pmm_wf (with_allocator p (bitmap_set (free_bitmap p) f) (u64 (free_frames p + 1))
            (frame_search_limit p) hint (initialized p)).
Proof.
  intros Hp [Hu Hf]%elem_of_difference Hh. pose proof (wf_free_usable p Hp).
  pose proof (wf_free_bound p Hp).
  apply wf_release; rewrite ?bitmap_frames_set; auto.
  - apply words_ok_set; [auto with kos|]. by eapply wf_frame_tracked.
  - set_solver.
  - rewrite size_union_singleton_notin, <- (wf_free p Hp) by done.
    apply u64_small. unfold_consts. lia.
Qed.

Lemma pmm_free_frame_cases p a :
  pmm_wf p → initialized p = true → 0 ≤ a →
  (∃ f p', pmm_free_frame a p = (true, p') ∧ a = f * FRAME_SIZE ∧
     f ∈ usable_frames p ∖ free_frames_set p ∧ pmm_wf p' ∧ initialized p' = true ∧
     usable_frames p' = usable_frames p ∧ free_frames_set p' = free_frames_set p ∪ {[f]}) ∨
  (pmm_free_frame a p = (false, p) ∧
   ∀ f, a = f * FRAME_SIZE → f ∉ usable_frames p ∖ free_frames_set p).
Proof.
  intros Hp Hi Ha. unfold pmm_free_frame. rewrite Hi. simpl.
  destruct (Z.eqb_spec a 0) as [->|Ha0]; simpl.
  { right. split; [done|]. intros f Hf Hin%elem_of_difference.
    destruct Hin as [Hin%(wf_usable_range p Hp) _]. unfold_consts. lia. }
  destruct (Z.eqb_spec (a mod FRAME_SIZE) 0) as [Hmod|Hmod]; simpl.
  2:{ right. split; [done|]. intros f ->. unfold_consts. zsolve. }
  assert (Hdiv : a = a / FRAME_SIZE * FRAME_SIZE) by (unfold_consts; zsolve).
  assert (Huniq : ∀ f, a = f * FRAME_SIZE → f = a / FRAME_SIZE) by (unfold_consts; intros; zsolve).
  pose proof (frame_is_releasable_spec p (a / FRAME_SIZE) Hp) as Hrel.
  destruct (frame_is_releasable p (a / FRAME_SIZE)); simpl.
  - left. assert (Hin : a / FRAME_SIZE ∈ usable_frames p ∖ free_frames_set p) by by apply Hrel.
    eexists _, _. split; [done|]. split_and!; [done|done| |done|done|apply bitmap_frames_set].
    rewrite <- Hi. apply give_frame_wf; [done|done|].
    pose proof (wf_hint p Hp).
    apply elem_of_difference in Hin as [Hin%(wf_usable_range p Hp) _]. zcase.
  - right. split; [done|]. intros f ->%Huniq Hin%Hrel. done.
Qed.

(** [pmm_free_frame] succeeds exactly on the page-aligned address of a
    usable frame that is currently allocated, and then adds exactly that frame
    to the free set; a null, unaligned or untracked address, a frame outside the
    memory map and a double free are all rejected without any change. *)
Theorem pmm_free_frame_spec p a :
  pmm_wf p → initialized p = true → 0 ≤ a →
  let '(ok, p') := pmm_free_frame a p in
  pmm_wf p' ∧ usable_frames p' = usable_frames p ∧
  (ok = true ↔ ∃ f, a = f * FRAME_SIZE ∧ f ∈ usable_frames p ∖ free_frames_set p) ∧
  (ok = false → p' = p) ∧
  (ok = true → free_frames_set p' = free_frames_set p ∪ {[a / FRAME_SIZE]} ∧
     (pmm_free_frame a p').1 = false).
Proof.
  intros Hp Hi Ha.
  destruct (pmm_free_frame_cases p a Hp Hi Ha) as [(f & p' & -> & -> & Hin & Hp' & Hi' & HU & HF)|[-> Hno]].
  - replace (f * FRAME_SIZE / FRAME_SIZE) with f by (unfold_consts; zsolve).
    split_and!; [done|done|naive_solver|done|]. intros _. split; [done|].
    destruct (pmm_free_frame_cases p' (f * FRAME_SIZE) Hp' Hi' Ha)
      as [(f' & p'' & _ & Hf' & Hin' & _)|[-> _]]; [|done].
    assert (f' = f) as -> by (unfold_consts; lia). set_solver.
  - split_and!; [done|done| |done|done]. split; [done|]. naive_solver.
Qed.

(** ** Runs of frames *)

Definition frame_run (f : Z) (count : Z) : gset Z := list_to_set (seqZ f count).

Lemma elem_of_frame_run f count g : g ∈ frame_run f count ↔ f ≤ g < f + count.
Proof. unfold frame_run. rewrite elem_of_list_to_set, elem_of_seqZ. lia. Qed.

Lemma size_frame_run f count : 0 ≤ count → Z.of_nat (size (frame_run f count)) = count.
Proof.
  intros. unfold frame_run. rewrite size_list_to_set by apply NoDup_seqZ.
  rewrite length_seqZ. lia.
Qed.

Lemma scan_run_spec n : ∀ free count lo frame c s,
  0 ≤ c < count → lo ≤ frame - c → (0 < c → s = frame - c ∧ frame_run s c ⊆ bitmap_frames free) →
  (∀ a, lo ≤ a < frame - c → ¬ frame_run a count ⊆ bitmap_frames free) →
  let '(c', s') := scan_run free count n frame c s in
  let e := frame + Z.of_nat n in
  (c' = count ∧ lo ≤ s' ∧ s' + count ≤ e ∧ frame_run s' count ⊆ bitmap_frames free) ∨
  (c' < count ∧ ∀ a, lo ≤ a → a + count ≤ e → ¬ frame_run a count ⊆ bitmap_frames free).
Proof.
  induction n as [|n IH]; intros free count lo frame c s Hc Hlo Hrun Hno; simpl.
  { right. split; [lia|]. intros a Ha He. apply Hno. lia. }
  destruct (bitmap_test free frame) eqn:Et.
  - apply elem_of_bitmap_frames in Et.
    set (s1 := if c =? 0 then frame else s).
    assert (s1 = frame - c ∧ frame_run s1 (c + 1) ⊆ bitmap_frames free) as [Hs1 Hr1].
    { unfold s1. destruct (Z.eqb_spec c 0) as [->|].
      - split; [lia|]. intros g Hg%elem_of_frame_run. by replace g with frame by lia.
      - destruct Hrun as [-> Hr]; [lia|]. split; [done|]. intros g Hg%elem_of_frame_run.
        destruct (decide (g = frame)) as [->|]; [done|]. apply Hr, elem_of_frame_run. lia. }
    destruct (Z.eqb_spec (c + 1) count) as [E|Hne].
    + left. rewrite <- E. split_and!; [lia|lia|lia|done].
    + specialize (IH free count lo (frame + 1) (c + 1) s1).
      destruct (scan_run free count n (frame + 1) (c + 1) s1) as [c' s'].
      cbv zeta in IH. replace (frame + Z.of_nat (S n)) with (frame + 1 + Z.of_nat n) by lia.
      apply IH; [lia|lia| |].
      * intros _. split; [lia|done].
      * intros a Ha. apply Hno. lia.
  - specialize (IH free count lo (frame + 1) 0 s).
    destruct (scan_run free count n (frame + 1) 0 s) as [c' s'].
    cbv zeta in IH. replace (frame + Z.of_nat (S n)) with (frame + 1 + Z.of_nat n) by lia.
    apply IH; [lia|lia|lia|]. intros a Ha Hsub.
    destruct (Z.lt_ge_cases a (frame - c)); [apply (Hno a); [lia|done]|].
    assert (frame ∈ bitmap_frames free) as Hf by (apply Hsub, elem_of_frame_run; lia).
    apply elem_of_bitmap_frames in Hf. congruence.
Qed.

Lemma clear_run_spec n : ∀ b f,
  words_ok b → 0 ≤ f → f + Z.of_nat n ≤ MAX_TRACKED_FRAMES →
  words_ok (clear_run b n f) ∧
  bitmap_frames (clear_run b n f) = bitmap_frames b ∖ frame_run f (Z.of_nat n).
Proof.
  induction n as [|n IH]; intros b f Hb Hf Hn; simpl.
  { split; [done|]. apply set_eq. intros g. rewrite elem_of_difference, elem_of_frame_run. intuition lia. }
  destruct (IH (bitmap_clear b f) (f + 1)) as [H1 H2]; [apply words_ok_clear; [done|lia]|lia|lia|].
  split; [done|]. rewrite H2, bitmap_frames_clear. apply set_eq. intros g.
  rewrite !elem_of_difference, elem_of_singleton, !elem_of_frame_run. intuition lia.
Qed.

Lemma set_run_spec n : ∀ b f,
  words_ok b → 0 ≤ f → f + Z.of_nat n ≤ MAX_TRACKED_FRAMES →
  words_ok (set_run b n f) ∧
  bitmap_frames (set_run b n f) = bitmap_frames b ∪ frame_run f (Z.of_nat n).
Proof.
  induction n as [|n IH]; intros b f Hb Hf Hn; simpl.
  { split; [done|]. apply set_eq. intros g. rewrite elem_of_union, elem_of_frame_run. intuition lia. }
  destruct (IH (bitmap_set b f) (f + 1)) as [H1 H2]; [apply words_ok_set; [done|lia]|lia|lia|].
  split; [done|]. rewrite H2, bitmap_frames_set. apply set_eq. intros g.
  rewrite !elem_of_union, elem_of_singleton, !elem_of_frame_run.
  destruct (decide (g = f)); intuition lia.
Qed.

(** The two scans of [pmm_alloc_pages] together find a run whenever the free
    set has one. *)
Lemma alloc_pages_search p count :
  pmm_wf p → 1 ≤ count ≤ free_frames p →
  let hint := allocation_hint p in
  let limit := frame_search_limit p in
  let '(c, s) := scan_run (free_bitmap p) count (Z.to_nat (limit - hint)) hint 0 0 in
  let '(c, s) := if (c <? count) && (hint >? 1)
     then scan_run (free_bitmap p) count (Z.to_nat (Z.min (u64 (hint + count)) limit - 1)) 1 0 s
     else (c, s) in
  (c = count ∧ 1 ≤ s ∧ s + count ≤ limit ∧ frame_run s count ⊆ free_frames_set p) ∨
  (c < count ∧ ∀ a, ¬ frame_run a count ⊆ free_frames_set p).
Proof.
  intros Hp Hc hint limit. pose proof (wf_limit p Hp) as Hl. pose proof (wf_hint p Hp) as Hh.
  fold hint limit in Hl, Hh. pose proof (wf_free_bound p Hp).
  assert (Hrange : ∀ a, frame_run a count ⊆ free_frames_set p → 1 ≤ a ∧ a + count ≤ limit).
  { intros a Ha. assert (a ∈ frame_run a count) as H1 by (apply elem_of_frame_run; lia).
    assert (a + count - 1 ∈ frame_run a count) as H2 by (apply elem_of_frame_run; lia).
    apply Ha, (wf_free_range p _ Hp) in H1, H2. subst limit. lia. }
  pose proof (scan_run_spec (Z.to_nat (limit - hint)) (free_bitmap p) count hint hint 0 0) as H1.
  destruct (scan_run _ _ _ _ 0 0) as [c s]. cbv zeta in H1.
  destruct H1 as [(-> & Hs1 & Hs2 & Hs3)|[Hlt Hno]]; [lia|lia|lia|intros; lia| |].
  { rewrite Z.ltb_irrefl. simpl. left. split_and!; [done|lia|lia|done]. }
  destruct (Z.ltb_spec c count) as [_|]; [|lia]. simpl.
  rewrite Z.gtb_ltb. destruct (Z.ltb_spec 1 hint) as [Hh1|Hh1].
  - rewrite u64_small by (unfold_consts; lia).
    pose proof (scan_run_spec (Z.to_nat (Z.min (hint + count) limit - 1)) (free_bitmap p) count 1 1 0 s) as H2.
    destruct (scan_run _ _ _ 1 0 s) as [c2 s2]. cbv zeta in H2.
    destruct H2 as [(-> & Ht1 & Ht2 & Ht3)|[Hlt2 Hno2]]; [lia|lia|lia|intros; lia| |].
    + left. split_and!; [done|lia|lia|done].
    + right. split; [done|]. intros a Ha. destruct (Hrange a Ha).
      destruct (Z.lt_ge_cases a hint); [apply (Hno2 a)|apply (Hno a)]; (done || lia).
  - right. split; [done|]. intros a Ha. destruct (Hrange a Ha). apply (Hno a); (done || lia).
Qed.

(** Removing a run of free frames. *)
Lemma take_run_wf p s count hint :
  pmm_wf p → 1 ≤ count → 1 ≤ s → s + count ≤ frame_search_limit p →
  frame_run s count ⊆ free_frames_set p → 1 ≤ hint ≤ frame_search_limit p →
  pmm_wf (with_allocator p (clear_run (free_bitmap p) (Z.to_nat count) s)
            (u64 (free_frames p - count)) (frame_search_limit p) hint (initialized p)) ∧
  bitmap_frames (clear_run (free_bitmap p) (Z.to_nat count) s) = free_frames_set p ∖ frame_run s count ∧
  u64 (free_frames p - count) = free_frames p - count.
Proof.
  intros Hp Hc Hs He Hrun Hh. pose proof (wf_limit p Hp). pose proof (wf_free_bound p Hp).
  pose proof (wf_free_usable p Hp).
  destruct (clear_run_spec (Z.to_nat count) (free_bitmap p) s) as [Hok Hfr];
    [auto with kos|lia|lia|]. rewrite Z2Nat.id in Hfr by lia.
  assert (Z.of_nat (size (free_frames_set p ∖ frame_run s count)) = free_frames p - count) as Hsz.
  { rewrite size_difference by done. rewrite (wf_free p Hp).
    pose proof (size_frame_run s count ltac:(lia)). apply subseteq_size in Hrun. lia. }
  assert (u64 (free_frames p - count) = free_frames p - count) as Hu.
  { apply u64_small. unfold_consts. lia. }
  split_and!; [|done|done]. apply wf_release; auto; rewrite Hfr; [set_solver|by rewrite Hu].
Qed.

Lemma run_is_releasable_spec n : ∀ p f,
  pmm_wf p →
  run_is_releasable p n f = true ↔ frame_run f (Z.of_nat n) ⊆ usable_frames p ∖ free_frames_set p.
Proof.
  induction n as [|n IH]; intros p f Hp; simpl.
  { split; [|done]. intros _ g Hg%elem_of_frame_run. lia. }
  pose proof (frame_is_releasable_spec p f Hp) as Hrel.
  destruct (frame_is_releasable p f) eqn:E; simpl.
  - rewrite IH by done. split; intros Hsub g Hg%elem_of_frame_run.
    + destruct (decide (g = f)) as [->|]; [by apply Hrel|]. apply Hsub, elem_of_frame_run. lia.
    + apply Hsub, elem_of_frame_run. lia.
  - split; [done|]. intros Hsub. apply Hrel, Hsub, elem_of_frame_run. lia.
Qed.

Lemma give_run_wf p s count hint :
  pmm_wf p → 1 ≤ count → frame_run s count ⊆ usable_frames p ∖ free_frames_set p →
  1 ≤ hint ≤ frame_search_limit p →
  pmm_wf (with_allocator p (set_run (free_bitmap p) (Z.to_nat count) s)
            (u64 (free_frames p + count)) (frame_search_limit p) hint (initialized p)) ∧
  bitmap_frames (set_run (free_bitmap p) (Z.to_nat count) s) = free_frames_set p ∪ frame_run s count.
Proof.
  intros Hp Hc Hrun Hh. pose proof (wf_limit p Hp). pose proof (wf_free_usable p Hp).
  assert (s ∈ frame_run s count) as H1 by (apply elem_of_frame_run; lia).
  assert (s + count - 1 ∈ frame_run s count) as H2 by (apply elem_of_frame_run; lia).
  apply Hrun, elem_of_difference in H1 as [H1%(wf_usable_range p Hp) _].
  apply Hrun, elem_of_difference in H2 as [H2%(wf_usable_range p Hp) _].
  destruct (set_run_spec (Z.to_nat count) (free_bitmap p) s) as [Hok Hfr];
    [auto with kos|lia|lia|]. rewrite Z2Nat.id in Hfr by lia.
  split; [|done]. apply wf_release; auto; rewrite Hfr; [set_solver|].
  rewrite size_disjoint_union, size_frame_run, <- (wf_free p Hp) by (lia || set_solver).
  pose proof (wf_free_bound p Hp). apply u64_small. unfold_consts. lia.
Qed.

Lemma pmm_free_pages_cases p a count :
  pmm_wf p → initialized p = true → 0 ≤ a → 2 ≤ count →
  (∃ f p', pmm_free_pages a count p = (true, p') ∧ a = f * FRAME_SIZE ∧
     frame_run f count ⊆ usable_frames p ∖ free_frames_set p ∧ pmm_wf p' ∧ initialized p' = true ∧
     usable_frames p' = usable_frames p ∧ free_frames_set p' = free_frames_set p ∪ frame_run f count) ∨
  (pmm_free_pages a count p = (false, p) ∧
   ∀ f, a = f * FRAME_SIZE → ¬ frame_run f count ⊆ usable_frames p ∖ free_frames_set p).
Proof.
  intros Hp Hi Ha Hc. unfold pmm_free_pages. rewrite Hi. simpl.
  destruct (Z.eqb_spec count 0); [lia|]. destruct (Z.eqb_spec count 1); [lia|].
  assert (Hfirst : ∀ f, frame_run f count ⊆ usable_frames p ∖ free_frames_set p →
            1 ≤ f < frame_search_limit p).
  { intros f Hsub. apply (wf_usable_range p Hp).
    assert (f ∈ frame_run f count) as Hf by (apply elem_of_frame_run; lia). set_solver. }
  destruct (Z.eqb_spec a 0) as [->|Ha0]; simpl.
  { right. split; [done|]. intros f Hf Hsub%Hfirst. unfold_consts. lia. }
  destruct (Z.eqb_spec (a mod FRAME_SIZE) 0) as [Hmod|Hmod]; simpl.
  2:{ right. split; [done|]. intros f ->. unfold_consts. zsolve. }
  assert (Hdiv : a = a / FRAME_SIZE * FRAME_SIZE) by (unfold_consts; zsolve).
  assert (Huniq : ∀ f, a = f * FRAME_SIZE → f = a / FRAME_SIZE) by (unfold_consts; intros; zsolve).
  pose proof (run_is_releasable_spec (Z.to_nat count) p (a / FRAME_SIZE) Hp) as Hrel.
  rewrite Z2Nat.id in Hrel by lia.
  destruct (run_is_releasable p (Z.to_nat count) (a / FRAME_SIZE)); simpl.
  - left. assert (Hin : frame_run (a / FRAME_SIZE) count ⊆ usable_frames p ∖ free_frames_set p)
      by by apply Hrel.
    pose proof (wf_hint p Hp). pose proof (Hfirst _ Hin).
    edestruct (give_run_wf p (a / FRAME_SIZE) count) as [Hwf Hfr]; [done|lia|done| |].
    2: eexists _, _; split; [done|]; rewrite <- Hi; split_and!; [done|done|exact Hwf|done|done|exact Hfr].
    zcase.
  - right. split; [done|]. intros f ->%Huniq Hin%Hrel. done.
Qed.

Lemma pmm_alloc_pages_cases p count :
  pmm_wf p → initialized p = true → 2 ≤ count →
  (pmm_alloc_pages count p = (0, p) ∧ ∀ f, ¬ frame_run f count ⊆ free_frames_set p) ∨
  ∃ f p', pmm_alloc_pages count p = (f * FRAME_SIZE, p') ∧ 1 ≤ f ∧ pmm_wf p' ∧ initialized p' = true ∧
    usable_frames p' = usable_frames p ∧ frame_run f count ⊆ free_frames_set p ∧
    free_frames_set p' = free_frames_set p ∖ frame_run f count ∧
    free_frames p' = free_frames p - count.
Proof.
  intros Hp Hi Hc. unfold pmm_alloc_pages. rewrite Hi.
  destruct (Z.eqb_spec count 0); [lia|]. destruct (Z.eqb_spec count 1); [lia|]. simpl.
  destruct (Z.ltb_spec (free_frames p) count) as [Hlt|Hge].
  { left. split; [done|]. intros f Hrun.
    apply subseteq_size in Hrun. pose proof (size_frame_run f count ltac:(lia)).
    rewrite (wf_free p Hp) in Hlt. lia. }
  pose proof (alloc_pages_search p count Hp ltac:(lia)) as Hs. cbv zeta in Hs.
  destruct (scan_run _ _ _ _ 0 0) as [c0 s0].
  destruct (if (c0 <? count) && _ then _ else _) as [c s].
  destruct Hs as [(-> & Hs1 & Hs2 & Hrun)|[Hlt Hno]].
  - rewrite Z.ltb_irrefl. pose proof (wf_limit p Hp). right. exists s.
    rewrite (u64_small (s * FRAME_SIZE)), (u64_small (s + count)) by (unfold_consts; lia).
    edestruct (take_run_wf p s count) as (Hwf & Hfr & Hu); [done|lia|done|done|done| |].
    2: eexists; split; [done|]; rewrite <- Hi; split_and!;
       [done|exact Hwf|done|done|done|exact Hfr|exact Hu].
    zcase.
  - destruct (Z.ltb_spec c count); [|lia]. by left.
Qed.

(** for [count >= 2] on an initialised state [pmm_alloc_pages] fails
    (returning 0 and changing nothing) exactly when no [count] consecutive
    frames are free; otherwise it returns the page-aligned address of a run of
    [count] free frames and removes exactly that run from the free set, and
    [pmm_free_pages] on the result gives back exactly that run. *)
Theorem pmm_alloc_pages_spec p count :
  pmm_wf p → initialized p = true → 2 ≤ count →
  let '(a, p') := pmm_alloc_pages count p in
  pmm_wf p' ∧ usable_frames p' = usable_frames p ∧
  (a = 0 ↔ ∀ f, ¬ frame_run f count ⊆ free_frames_set p) ∧ (a = 0 → p' = p) ∧
  (a ≠ 0 → ∃ f, a = f * FRAME_SIZE ∧ frame_run f count ⊆ free_frames_set p ∧
     free_frames_set p' = free_frames_set p ∖ frame_run f count ∧
     pmm_free_frame_count p' = pmm_free_frame_count p - count ∧
     let '(ok, p'') := pmm_free_pages a count p' in
     ok = true ∧ pmm_wf p'' ∧ free_frames_set p'' = free_frames_set p).
Proof.
  intros Hp Hi Hc. pose proof (wf_free_usable p Hp).
  destruct (pmm_alloc_pages_cases p count Hp Hi Hc)
    as [[-> Hno]|(f & p' & -> & Hf & Hp' & Hi' & HU & Hrun & HF & Hn)].
  { by split_and!. }
  assert (f * FRAME_SIZE ≠ 0) by (unfold_consts; lia).
  split_and!; [done|done| |done|].
  - split; [done|]. intros Hno. by destruct (Hno f).
  - intros _. exists f. split_and!; [done|done|done|done|].
    destruct (pmm_free_pages_cases p' (f * FRAME_SIZE) count)
      as [(f' & p'' & -> & Hf' & _ & Hwf'' & _ & _ & HF')|[_ Hno]];
      [done|done|unfold_consts; lia|done| |].
    + assert (f' = f) as -> by (unfold_consts; lia). split_and!; [done|done|].
      rewrite HF', HF. apply set_eq. intros g. rewrite elem_of_union, elem_of_difference.
      destruct (decide (g ∈ frame_run f count)); set_solver.
    + destruct (Hno f eq_refl). rewrite HU, HF. set_solver.
Qed.

(** ** The allocator as a transition system *)

(** One call of the public interface by some client, with any arguments. *)
Inductive pmm_step : physical_memory_manager → physical_memory_manager → Prop :=
  | step_allocate_frame p : pmm_step p (pmm_allocate_frame p).2
  | step_free_frame p a : is_u64 a → pmm_step p (pmm_free_frame a p).2
  | step_alloc_pages p count : is_u64 count → pmm_step p (pmm_alloc_pages count p).2
  | step_free_pages p a count : is_u64 a → is_u64 count → pmm_step p (pmm_free_pages a count p).2.

Definition pmm_ready (p : physical_memory_manager) : Prop := pmm_wf p ∧ initialized p = true.

Lemma pmm_step_ready p p' :
  pmm_step p p' → pmm_ready p → pmm_ready p' ∧ usable_frames p' = usable_frames p.
Proof.
  assert (Halloc : ∀ p, pmm_ready p → pmm_ready (pmm_allocate_frame p).2 ∧
     usable_frames (pmm_allocate_frame p).2 = usable_frames p).
  { intros q [Hq Hi]. destruct (pmm_allocate_frame_cases q Hq Hi)
      as [[-> _]|(f & q' & -> & ? & ? & _ & ? & _)]; done. }
  assert (Hfree : ∀ p a, is_u64 a → pmm_ready p → pmm_ready (pmm_free_frame a p).2 ∧
     usable_frames (pmm_free_frame a p).2 = usable_frames p).
  { intros q a [Ha _] [Hq Hi]. destruct (pmm_free_frame_cases q a Hq Hi Ha)
      as [(f & q' & -> & _ & _ & ? & ? & ? & _)|[-> _]]; done. }
  intros [q|q a Ha|q count Hc|q a count Ha Hc] Hr; [by auto|by auto|..].
  - destruct (decide (count = 0)) as [->|]; [done|].
    destruct (decide (count = 1)) as [->|]; [by apply Halloc|]. destruct Hr as [Hq Hi], Hc.
    destruct (pmm_alloc_pages_cases q count Hq Hi) as [[-> _]|(f & q' & -> & _ & ? & ? & ? & _)];
      [lia|done|done].
  - destruct (decide (count = 0)) as [->|]; [done|].
    destruct (decide (count = 1)) as [->|]; [by apply Hfree|]. destruct Hr as [Hq Hi], Ha, Hc.
    destruct (pmm_free_pages_cases q a count Hq Hi) as [(f & q' & -> & _ & _ & ? & ? & ? & _)|[-> _]];
      (done || lia).
Qed.

Lemma pmm_steps_ready p p' :
  rtc pmm_step p p' → pmm_ready p → pmm_ready p' ∧ usable_frames p' = usable_frames p.
Proof.
  induction 1 as [|p q r Hs _ IH]; [done|]. intros [Hq HU]%(pmm_step_ready _ _ Hs).
  destruct (IH Hq) as [? HU']. by rewrite HU'.
Qed.

(** C3: whatever sequence of calls clients make on an initialised allocator
    (any frames, addresses and counts), the invariant holds, the set of usable
    frames never changes, and the reported counts are exact: the allocated
    count is the number of usable frames that are not free, and allocated plus
    free is the number of tracked frames. *)
Theorem pmm_reachable_accounting p0 p :
  pmm_ready p0 → rtc pmm_step p0 p →
  pmm_wf p ∧ usable_frames p = usable_frames p0 ∧
  pmm_allocated_frame_count p = Z.of_nat (size (usable_frames p ∖ free_frames_set p)) ∧
  pmm_allocated_frame_count p + pmm_free_frame_count p = tracked_usable_frames p0 ∧
  pmm_tracked_memory_bytes p = tracked_usable_frames p0 * FRAME_SIZE.
Proof.
  intros [Hp0 Hi0] Hrtc. destruct (pmm_steps_ready _ _ Hrtc (conj Hp0 Hi0)) as [[Hp _] HU].
  assert (tracked_usable_frames p = tracked_usable_frames p0) as Ht.
  { by rewrite (wf_tracked p Hp), (wf_tracked p0 Hp0), HU. }
  pose proof (wf_tracked_bound p Hp). pose proof (wf_free_usable p Hp) as Hsub.
  assert (pmm_allocated_frame_count p = tracked_usable_frames p - free_frames p) as Ha.
  { unfold pmm_allocated_frame_count. apply u64_small. rewrite (wf_tracked p Hp), (wf_free p Hp) in *.
    apply subseteq_size in Hsub. unfold_consts. lia. }
  split_and!; [done|done| |unfold pmm_free_frame_count; lia|].
  - rewrite Ha, (wf_tracked p Hp), (wf_free p Hp), size_difference by done.
    apply subseteq_size in Hsub. lia.
  - unfold pmm_tracked_memory_bytes. rewrite Ht in *. apply u64_small. unfold_consts. lia.
Qed.

(** ** The interface instance *)

#[export] Program Instance pmm_frame_allocator : FrameAllocator physical_memory_manager := {|
  fa_allocate := pmm_allocate_frame;
  fa_release := pmm_free_frame;
  fa_ok := pmm_ready;
  fa_usable p := usable_frames p;
  fa_free p := free_frames_set p
|}.
Next Obligation. intros p [Hp _]. auto with kos. Qed.
Next Obligation.
  intros p f [Hp _] Hf. pose proof (wf_usable_range p Hp f Hf). pose proof (wf_limit p Hp).
  unfold_consts. lia.
Qed.
Next Obligation.
  intros p [Hp Hi]. destruct (pmm_allocate_frame_cases p Hp Hi)
    as [[-> HE]|(f & p' & -> & Hp' & Hi' & [Hf _] & HU & HF)]; [by split_and!; auto|].
  split_and!; [done|done|]. right. by exists f.
Qed.
Next Obligation.
  intros p a [Hp Hi] Ha. destruct (pmm_free_frame_cases p a Hp Hi Ha)
    as [(f & p' & -> & ? & ? & ? & ? & ? & ?)|[-> ?]]; [|done].
  split_and!; [done|done|]. by exists f.
Qed.

(** ** Witnesses: a machine with three usable frames *)

Definition sample_map : list (option limine_memmap_entry) :=
  [Some (MemmapEntry 0 4000 LIMINE_MEMMAP_EXECUTABLE_AND_MODULES);
   Some (MemmapEntry 4000 12400 LIMINE_MEMMAP_USABLE)].

Definition sample_pmm : physical_memory_manager :=
  {| usable_bitmap := {[0 := 14]}; free_bitmap := {[0 := 14]};
     total_memory_bytes := 16400; usable_memory_bytes := 12400; kernel_memory_bytes := 4000;
     framebuffer_memory_bytes := 0; bootloader_reclaimable_bytes := 0;
     tracked_usable_frames := 3; free_frames := 3;
     frame_search_limit := 4; allocation_hint := 1; initialized := true |}.

Lemma sample_frames : bitmap_frames {[0 := 14]} = list_to_set [1; 2; 3].
Proof. vm_compute. reflexivity. Qed.

Lemma sample_pmm_ready : pmm_ready sample_pmm.
Proof.
  split; [|done]. split; simpl; rewrite ?sample_frames; try done.
  - apply map_Forall_singleton. unfold_consts. lia.
  - apply map_Forall_singleton. unfold_consts. lia.
  - intros f. rewrite elem_of_list_to_set. set_unfold. lia.
Qed.

Lemma pmm_initialize_spec_witness :
  pmm_initialize (Some (Some sample_map)) pmm_reset = (true, sample_pmm) ∧ pmm_wf sample_pmm.
Proof.
  split; [vm_compute; reflexivity|].
  pose proof (pmm_initialize_spec sample_map pmm_reset) as H.
  assert (pmm_initialize (Some (Some sample_map)) pmm_reset = (true, sample_pmm)) as E
    by (vm_compute; reflexivity).
  rewrite E in H. apply H.
  - clear. intros e. unfold sample_map. rewrite !elem_of_cons.
    intros [[= ->]|[[= ->]|[]%not_elem_of_nil]]; unfold entry_ok; simpl; unfold_consts; lia.
  - clear. unfold sample_map. rewrite !not_elem_of_cons. split_and!; [done|done|]. apply not_elem_of_nil.
Defined.

Lemma pmm_allocate_frame_spec_witness :
  (pmm_allocate_frame sample_pmm).1 = 4096 ∧
  let '(a, p') := pmm_allocate_frame sample_pmm in
  pmm_wf p' ∧ (a ≠ 0 → pmm_free_frame_count p' = 2).
Proof.
  split; [reflexivity|].
  pose proof (pmm_allocate_frame_spec sample_pmm (proj1 sample_pmm_ready) eq_refl) as H.
  destruct (pmm_allocate_frame sample_pmm) as [a p']. destruct H as (H1 & _ & _ & _ & H2).
  split; [done|]. intros Ha. destruct (H2 Ha) as (f & _ & _ & _ & _ & ->). done.
Defined.

Lemma pmm_free_frame_spec_witness :
  let p := (pmm_allocate_frame sample_pmm).2 in
  (pmm_free_frame 4096 p).1 = true ∧ (pmm_free_frame 4096 (pmm_free_frame 4096 p).2).1 = false ∧
  pmm_wf (pmm_free_frame 4096 sample_pmm).2.
Proof.
  split; [reflexivity|]. split; [reflexivity|].
  pose proof (pmm_free_frame_spec sample_pmm 4096 (proj1 sample_pmm_ready) eq_refl ltac:(lia)) as H.
  destruct (pmm_free_frame 4096 sample_pmm). apply H.
Defined.

Lemma pmm_alloc_pages_spec_witness :
  (pmm_alloc_pages 3 sample_pmm).1 = 4096 ∧ pmm_wf (pmm_alloc_pages 3 sample_pmm).2.
Proof.
  split; [reflexivity|].
  pose proof (pmm_alloc_pages_spec sample_pmm 3 (proj1 sample_pmm_ready) eq_refl ltac:(lia)) as H.
  destruct (pmm_alloc_pages 3 sample_pmm). apply H.
Defined.

Lemma pmm_reachable_accounting_witness :
  let p := (pmm_alloc_pages 2 (pmm_allocate_frame sample_pmm).2).2 in
  pmm_allocated_frame_count p = 3 ∧ pmm_allocated_frame_count p + pmm_free_frame_count p = 3.
Proof.
  intros p. split; [reflexivity|].
  destruct (pmm_reachable_accounting sample_pmm p sample_pmm_ready) as (_ & _ & _ & H & _);
    [|exact H].
  eapply rtc_l; [apply step_allocate_frame|]. eapply rtc_l; [|apply rtc_refl].
  apply step_alloc_pages. unfold_consts. lia.
Defined.
