(* ===== verification/Memory.v ===== *)
(** * Freestanding C runtime (src/lib/memory.c)

    Byte-addressed memory is a map from address to byte (0..255).  The loops of
    the memory routines run a number of times fixed on entry and are structural
    recursions on it; the scans for a terminator take fuel and return [None]
    when it runs out.  Pointers are plain integers: an object never wraps around
    the end of the address space. *)

From S2P Require Import Prelude.
From Stdlib Require Import ZArith Lia.
From stdpp Require Import gmap.
#[local] Open Scope Z_scope.

Definition NULL : Z := 0.

(** ** Block operations *)

(** [n] iterations from [index]. *)
Fixpoint memset_loop (bytes : Z) (value : Z) (n : nat) (index : Z) (m : gmap Z Z) : gmap Z Z :=
  match n with
  | O => m
  | S n' => memset_loop bytes value n' (index + 1) (<[bytes + index := u8 value]> m)
  end.

Definition memset (destination value size : Z) (m : gmap Z Z) : gmap Z Z :=
  memset_loop destination value (Z.to_nat size) 0 m.

Fixpoint copy_forward (target input : Z) (n : nat) (index : Z) (m : gmap Z Z) : gmap Z Z :=
  match n with
  | O => m
  | S n' => copy_forward target input n' (index + 1) (<[target + index := get0 m (input + index)]> m)
  end.

(** [for (index = size; index != 0; --index)]. *)
Fixpoint copy_backward (target input : Z) (n : nat) (m : gmap Z Z) : gmap Z Z :=
  match n with
  | O => m
  | S n' => copy_backward target input n'
              (<[target + Z.of_nat n' := get0 m (input + Z.of_nat n')]> m)
  end.

Definition memcpy (destination source size : Z) (m : gmap Z Z) : gmap Z Z :=
  copy_forward destination source (Z.to_nat size) 0 m.

Definition memmove (destination source size : Z) (m : gmap Z Z) : gmap Z Z :=
  if destination <? source then copy_forward destination source (Z.to_nat size) 0 m
  else if destination >? source then copy_backward destination source (Z.to_nat size) m
  else m.

Fixpoint memcmp_loop (first second : Z) (n : nat) (index : Z) (m : gmap Z Z) : Z :=
  match n with
  | O => 0
  | S n' =>
      let a := get0 m (first + index) in
      let b := get0 m (second + index) in
      if negb (a =? b) then (if a <? b then -1 else 1)
      else memcmp_loop first second n' (index + 1) m
  end.

Definition memcmp (left right size : Z) (m : gmap Z Z) : Z :=
  memcmp_loop left right (Z.to_nat size) 0 m.

(** ** Strings *)

Fixpoint kstrlen_loop (fuel : nat) (s len : Z) (m : gmap Z Z) : option Z :=
  match fuel with
  | O => None
  | S f => if get0 m (s + len) =? 0 then Some len else kstrlen_loop f s (len + 1) m
  end.

Definition kstrlen (fuel : nat) (s : Z) (m : gmap Z Z) : option Z :=
  if s =? NULL then Some 0 else kstrlen_loop fuel s 0 m.

Fixpoint kstrcmp_loop (fuel : nat) (s1 s2 : Z) (m : gmap Z Z) : option Z :=
  match fuel with
  | O => None
  | S f =>
      let a := get0 m s1 in
      let b := get0 m s2 in
      if negb (a =? 0) && (a =? b) then kstrcmp_loop f (s1 + 1) (s2 + 1) m
      else Some (a - b)
  end.

Definition kstrcmp (fuel : nat) (s1 s2 : Z) (m : gmap Z Z) : option Z :=
  if s1 =? s2 then Some 0
  else if s1 =? NULL then Some (-1)
  else if s2 =? NULL then Some 1
  else kstrcmp_loop fuel s1 s2 m.

(** The loop decrements [n], so it is the recursion's argument. *)
Fixpoint kstrncmp (s1 s2 : Z) (n : nat) (m : gmap Z Z) : Z :=
  match n with
  | O => 0
  | S n' =>
      let a := get0 m s1 in
      let b := get0 m s2 in
      if negb (a =? 0) && negb (b =? 0) && (a =? b) then kstrncmp (s1 + 1) (s2 + 1) n' m
      else a - b
  end.

(** The copying loop of [kstrncpy]: stops at the terminator or after [n]
    bytes, returning the index reached. *)
Fixpoint kstrncpy_copy (dst src : Z) (n : nat) (i : Z) (m : gmap Z Z) : Z * gmap Z Z :=
  match n with
  | O => (i, m)
  | S n' => if get0 m (src + i) =? 0 then (i, m)
            else kstrncpy_copy dst src n' (i + 1) (<[dst + i := get0 m (src + i)]> m)
  end.

Definition kstrncpy (dst src n : Z) (m : gmap Z Z) : gmap Z Z :=
  if (dst =? NULL) || (n =? 0) then m
  else
    let '(i, m) := if src =? NULL then (0, m) else kstrncpy_copy dst src (Z.to_nat n) 0 m in
    memset_loop dst 0 (Z.to_nat (n - i)) i m.

(** ** What each routine does to memory *)

(** [m'] is [m] with the [n] bytes at [dst] replaced by [f 0 .. f (n-1)]. *)
Definition wrote (dst n : Z) (f : Z → Z) (m m' : gmap Z Z) : Prop :=
  ∀ a, get0 m' a = if decide (dst ≤ a < dst + n) then f (a - dst) else get0 m a.

Lemma memset_loop_spec n : ∀ bytes value index m a,
  get0 (memset_loop bytes value n index m) a
  = if decide (bytes + index ≤ a < bytes + index + Z.of_nat n) then u8 value else get0 m a.
Proof.
  induction n as [|n IH]; intros; simpl; [by rewrite decide_False by lia|].
  rewrite IH, get0_insert_dec. repeat case_decide; try done; lia.
Qed.

Lemma copy_forward_spec n : ∀ target input index m a,
  (∀ i j, index ≤ i < j → j < index + Z.of_nat n → input + j ≠ target + i) →
  get0 (copy_forward target input n index m) a
  = if decide (target + index ≤ a < target + index + Z.of_nat n)
    then get0 m (input + (a - target)) else get0 m a.
Proof.
  induction n as [|n IH]; intros target input index m a Hd; simpl; [by rewrite decide_False by lia|].
  rewrite IH by (intros i j Hi Hj; apply Hd; lia).
  rewrite !get0_insert_dec. repeat case_decide; try lia; try done.
  - exfalso. apply (Hd index (a - target)); lia.
  - f_equal; lia.
Qed.

Lemma copy_backward_spec n : ∀ target input m a,
  (∀ i j, 0 ≤ i < j → j < Z.of_nat n → input + i ≠ target + j) →
  get0 (copy_backward target input n m) a
  = if decide (target ≤ a < target + Z.of_nat n) then get0 m (input + (a - target)) else get0 m a.
Proof.
  induction n as [|n IH]; intros target input m a Hd; simpl; [by rewrite decide_False by lia|].
  rewrite IH by (intros i j Hi Hj; apply Hd; lia).
  rewrite !get0_insert_dec. repeat case_decide; try lia; try done.
  - exfalso. apply (Hd (a - target) (Z.of_nat n)); lia.
  - f_equal; lia.
Qed.

Lemma memcpy_wrote dst src n m :
  0 ≤ n → dst ≤ src ∨ src + n ≤ dst →
  wrote dst n (λ i, get0 m (src + i)) m (memcpy dst src n m).
Proof.
  intros Hn Hd a. unfold memcpy. rewrite copy_forward_spec by (intros; lia).
  repeat case_decide; try done; lia.
Qed.

(** [memmove] copies correctly whatever the overlap: afterwards each of the
    [n] bytes at the destination is the byte the source held on entry, and no
    other byte of memory has changed; and wherever the regions do not overlap
    or the destination is below the source, [memcpy] computes the same memory. *)
Theorem memmove_spec dst src n m :
  0 ≤ n →
  wrote dst n (λ i, get0 m (src + i)) m (memmove dst src n m) ∧
  (dst ≤ src ∨ src + n ≤ dst →
   ∀ a, get0 (memcpy dst src n m) a = get0 (memmove dst src n m) a).
Proof.
  intros Hn.
  assert (wrote dst n (λ i, get0 m (src + i)) m (memmove dst src n m)) as H.
  { intros a. unfold memmove. rewrite Z.gtb_ltb.
    destruct (Z.ltb_spec dst src); [|destruct (Z.ltb_spec src dst)].
    - rewrite copy_forward_spec by (intros; lia). repeat case_decide; try done; lia.
    - rewrite copy_backward_spec by (intros; lia). repeat case_decide; try done; lia.
    - case_decide; [|done]. f_equal; lia. }
  split; [done|]. intros Hd a. by rewrite (memcpy_wrote dst src n m Hn Hd a), (H a).
Qed.

Lemma memmove_spec_witness :
  let m : gmap Z Z := {[100 := 1; 101 := 2; 102 := 3]} in
  get0 (memmove 101 100 3 m) 103 = 3 ∧ get0 (memmove 101 100 3 m) 102 = 2 ∧
  get0 (memmove 101 100 3 m) 101 = 1.
Proof.
  intros m. destruct (memmove_spec 101 100 3 m ltac:(lia)) as [H _].
  rewrite (H 103), (H 102), (H 101). split_and!; reflexivity.
Defined.

(** ** C strings *)

(** The bytes [l], none of them 0, followed by a terminator, are stored at [s]. *)
Fixpoint cstr (m : gmap Z Z) (s : Z) (l : list Z) : Prop :=
  match l with
  | [] => get0 m s = 0
  | c :: l' => 0 < c < 256 ∧ get0 m s = c ∧ cstr m (s + 1) l'
  end.

(** Lexicographic order on byte strings. *)
Fixpoint str_lt (l1 l2 : list Z) : Prop :=
  match l1, l2 with
  | _, [] => False
  | [], _ :: _ => True
  | a :: l1', b :: l2' => a < b ∨ (a = b ∧ str_lt l1' l2')
  end.

Lemma cstr_inj m l1 : ∀ s l2, cstr m s l1 → cstr m s l2 → l1 = l2.
Proof.
  induction l1 as [|a l1 IH]; intros s [|b l2]; simpl; [done|intuition lia|intuition lia|].
  intros (_ & -> & H1) (_ & -> & H2). f_equal. by apply (IH (s + 1)).
Qed.

Lemma str_lt_irrefl l : ¬ str_lt l l.
Proof. induction l as [|a l IH]; simpl; [tauto|]. intros [|[]]; [lia|by apply IH]. Qed.

Lemma kstrlen_loop_spec m l : ∀ s i fuel,
  cstr m (s + i) l → (length l < fuel)%nat →
  kstrlen_loop fuel s i m = Some (i + Z.of_nat (length l)).
Proof.
  induction l as [|c l IH]; intros s i [|fuel] Hs Hf; simpl in *; try lia.
  - rewrite Hs. simpl. f_equal. lia.
  - destruct Hs as (Hc & -> & Hs). destruct (Z.eqb_spec c 0); [lia|].
    rewrite IH; [f_equal; lia| |lia]. by replace (s + (i + 1)) with (s + i + 1) by lia.
Qed.

Lemma kstrcmp_loop_spec m l1 : ∀ l2 s1 s2 fuel,
  cstr m s1 l1 → cstr m s2 l2 → (length l1 < fuel)%nat →
  ∃ r, kstrcmp_loop fuel s1 s2 m = Some r ∧ (r = 0 ↔ l1 = l2) ∧ (r < 0 ↔ str_lt l1 l2).
Proof.
  induction l1 as [|a l1 IH]; intros [|b l2] s1 s2 [|fuel] H1 H2 Hf; simpl in *; try lia.
  - rewrite H1. simpl. exists 0. rewrite H2. done.
  - destruct H2 as (Hb & -> & _). rewrite H1. simpl. eexists; split; [done|].
    split; split; intros; (done || lia).
  - destruct H1 as (Ha & -> & _). rewrite H2. destruct (Z.eqb_spec a 0); [lia|]. simpl.
    eexists; split; [done|]. split; split; intros; (done || lia).
  - destruct H1 as (Ha & -> & H1), H2 as (Hb & -> & H2). destruct (Z.eqb_spec a 0); [lia|]. simpl.
    destruct (Z.eqb_spec a b) as [->|].
    + destruct (IH l2 (s1 + 1) (s2 + 1) fuel H1 H2) as (r & -> & Heq & Hlt); [lia|].
      exists r. split; [done|]. rewrite Heq, Hlt. split; split.
      * by intros ->.
      * by intros [= ->].
      * by right.
      * intros [|[]]; [lia|done].
    + eexists; split; [done|]. split; split; intros H.
      * lia.
      * congruence.
      * left. lia.
      * destruct H as [|[]]; lia.
Qed.

(** on two terminated strings [kstrlen] returns the length, and [kstrcmp]
    terminates and decides their order: the result is 0 exactly when the
    strings are equal and negative exactly when the first is lexicographically
    smaller. *)
Theorem kstrcmp_spec m s1 s2 l1 l2 fuel :
  s1 ≠ NULL → s2 ≠ NULL → cstr m s1 l1 → cstr m s2 l2 → (length l1 < fuel)%nat →
  kstrlen fuel s1 m = Some (Z.of_nat (length l1)) ∧
  ∃ r, kstrcmp fuel s1 s2 m = Some r ∧ (r = 0 ↔ l1 = l2) ∧ (r < 0 ↔ str_lt l1 l2).
Proof.
  intros N1 N2 H1 H2 Hf. split.
  - unfold kstrlen. destruct (Z.eqb_spec s1 NULL); [done|].
    rewrite (kstrlen_loop_spec m l1); [done| |done]. by rewrite Z.add_0_r.
  - unfold kstrcmp. destruct (Z.eqb_spec s1 s2) as [->|].
    + assert (l1 = l2) as -> by by apply (cstr_inj m l1 s2). exists 0. split; [done|].
      split; [done|]. split; [lia|]. by intros ?%str_lt_irrefl.
    + destruct (Z.eqb_spec s1 NULL); [done|]. destruct (Z.eqb_spec s2 NULL); [done|].
      by apply kstrcmp_loop_spec.
Qed.

Lemma kstrcmp_spec_witness :
  let m : gmap Z Z := {[16 := 97; 17 := 98; 32 := 97; 33 := 99]} in
  kstrcmp 5 16 32 m = Some (-1) ∧ kstrlen 5 16 m = Some 2.
Proof.
  intros m. split; [reflexivity|].
  destruct (kstrcmp_spec m 16 32 [97; 98] [97; 99] 5) as [H _]; [done|done|..].
  - vm_compute. split_and!; done.
  - vm_compute. split_and!; done.
  - simpl. lia.
  - exact H.
Defined.

(** The copying loop stops at the terminator or at [n]. *)
Lemma kstrncpy_copy_spec l : ∀ n dst src i m,
  cstr m (src + i) l → 0 ≤ i → (∀ k j, i ≤ k → k < i + Z.of_nat n →
     0 ≤ j ≤ i + Z.of_nat (length l) → dst + k ≠ src + j) →
  let '(i', m') := kstrncpy_copy dst src n i m in
  i' = i + Z.of_nat (length (take n l)) ∧
  ∀ a, get0 m' a = if decide (dst + i ≤ a < dst + i')
                   then nth (Z.to_nat (a - dst - i)) l 0 else get0 m a.
Proof.
  induction l as [|c l IH]; intros [|n] dst src i m Hs Hi Hd; simpl in *;
    try (split; [lia|]; intros a; by rewrite decide_False by lia).
  - rewrite Hs. simpl. split; [lia|]. intros a. by rewrite decide_False by lia.
  - destruct Hs as (Hc & Hg & Hs). rewrite Hg. destruct (Z.eqb_spec c 0); [lia|].
    set (m1 := <[dst + i := c]> m).
    assert (Hs1 : cstr m1 (src + (i + 1)) l).
    { replace (src + i + 1) with (src + (i + 1)) in Hs by lia.
      assert (Hd' : ∀ j, 0 ≤ j ≤ Z.of_nat (length l) → src + (i + 1) + j ≠ dst + i).
      { intros j Hj E. apply (Hd i (i + 1 + j)); lia. }
      revert Hs Hd'. generalize (src + (i + 1)). clear -i.
      induction l as [|d l IHl]; intros s Hs Hd'; simpl in *; subst m1.
      - rewrite get0_insert_ne; [done|]. specialize (Hd' 0). lia.
      - destruct Hs as (Hc & Hg & Hs). split_and!; [lia|lia| |].
        + rewrite get0_insert_ne; [done|]. specialize (Hd' 0). lia.
        + apply IHl; [done|]. intros j Hj. specialize (Hd' (j + 1)). lia. }
    specialize (IH n dst src (i + 1) m1 Hs1).
    destruct (kstrncpy_copy dst src n (i + 1) m1) as [i' m'].
    destruct IH as [-> Hm']; [lia|intros k j ? ? ?; apply Hd; lia|]. split; [lia|].
    intros a. rewrite Hm'. subst m1. rewrite get0_insert_dec.
    repeat case_decide; try lia; try done.
    + replace (Z.to_nat (a - dst - i)) with (S (Z.to_nat (a - dst - (i + 1)))) by lia. done.
    + by replace (Z.to_nat (a - dst - i)) with O by lia.
Qed.

(** [kstrncpy] writes exactly [n] bytes: the source string cut to [n]
    bytes, padded with zeros; nothing else in memory changes (in particular the
    result is terminated only when the string is shorter than [n]). *)
Theorem kstrncpy_spec dst src n l m :
  dst ≠ NULL → src ≠ NULL → 0 ≤ n → cstr m src l →
  (dst + n ≤ src ∨ src + Z.of_nat (length l) < dst) →
  wrote dst n (λ i, nth (Z.to_nat i) (take (Z.to_nat n) l) 0) m (kstrncpy dst src n m).
Proof.
  intros Hdst Hsrc Hn Hs Hd a. unfold kstrncpy.
  destruct (Z.eqb_spec dst NULL); [done|]. simpl.
  destruct (Z.eqb_spec n 0) as [->|]; [by rewrite decide_False by lia|].
  destruct (Z.eqb_spec src NULL); [done|].
  pose proof (kstrncpy_copy_spec l (Z.to_nat n) dst src 0 m) as H.
  destruct (kstrncpy_copy dst src (Z.to_nat n) 0 m) as [i m'].
  destruct H as [-> Hm']; [by rewrite Z.add_0_r|done|intros; lia|].
  rewrite memset_loop_spec, Hm'. rewrite length_take. change (u8 0) with 0.
  repeat case_decide; try lia; try done.
  - rewrite nth_overflow; [done|]. rewrite length_take. lia.
  - rewrite List.nth_firstn. destruct (Nat.ltb_spec (Z.to_nat (a - dst)) (Z.to_nat n)); [|lia].
    f_equal. lia.
Qed.

Lemma kstrncpy_spec_witness :
  let m : gmap Z Z := {[16 := 97; 17 := 98; 64 := 7; 67 := 7; 68 := 7]} in
  get0 (kstrncpy 64 16 4 m) 65 = 98 ∧ get0 (kstrncpy 64 16 4 m) 67 = 0 ∧
  get0 (kstrncpy 64 16 4 m) 68 = 7.
Proof.
  intros m. assert (wrote 64 4 (λ i, nth (Z.to_nat i) (take (Z.to_nat 4) [97; 98]) 0) m (kstrncpy 64 16 4 m)) as H.
  { apply kstrncpy_spec; [done|done|lia| |simpl; lia]. vm_compute. split_and!; done. }
  rewrite (H 65), (H 67), (H 68). split_and!; reflexivity.
Defined.
