(* ===== verification/Uaccess.v ===== *)
(** * User memory access (src/kernel/uaccess.c, src/include/kos/uaccess.h)

    The state is the byte memory of [Memory], whether the CPU has SMAP, and the
    AC flag that [stac] and [clac] set and clear around every access to user
    memory; an access with AC clear on a CPU with SMAP is recorded as refused.
    Page faults on unmapped user pages are not modelled. *)

From S2P Require Import Prelude Memory.
From Stdlib Require Import ZArith Lia.
From stdpp Require Import gmap.
#[local] Open Scope Z_scope.

Definition KOS_USER_SPACE_MAX : Z := 140737488355327.
Definition EFAULT : Z := 14.

Record user_access := UserAccess {
  ua_mem : gmap Z Z;
  ua_has_smap : bool;
  ua_ac : bool;
  (** SMAP has refused an access to user memory *)
  ua_refused : bool
}.

Definition stac (s : user_access) : user_access :=
  if ua_has_smap s then UserAccess (ua_mem s) (ua_has_smap s) true (ua_refused s) else s.

Definition clac (s : user_access) : user_access :=
  if ua_has_smap s then UserAccess (ua_mem s) (ua_has_smap s) false (ua_refused s) else s.

Definition with_mem (s : user_access) (m : gmap Z Z) : user_access :=
  UserAccess m (ua_has_smap s) (ua_ac s) (ua_refused s).

(** The CPU's check when the kernel reads or writes user memory. *)
Definition user_memory_access (s : user_access) : user_access :=
  UserAccess (ua_mem s) (ua_has_smap s) (ua_ac s) (ua_refused s || (ua_has_smap s && negb (ua_ac s))).

Definition access_ok (addr size : Z) : bool :=
  if size =? 0 then true
  else if addr =? 0 then false
  else if u64 (addr + size) <? addr then false
  else if u64 (u64 (addr + size) - 1) >? KOS_USER_SPACE_MAX then false
  else true.

Definition copy_from_user (dst src size : Z) (s : user_access) : Z * user_access :=
  if size =? 0 then (0, s)
  else if (dst =? NULL) || negb (access_ok src size) then (- EFAULT, s)
  else
    let s := user_memory_access (stac s) in
    let s := with_mem s (memcpy dst src size (ua_mem s)) in
    let s := clac s in
    (0, s).

Definition copy_to_user (dst src size : Z) (s : user_access) : Z * user_access :=
  if size =? 0 then (0, s)
  else if (src =? NULL) || negb (access_ok dst size) then (- EFAULT, s)
  else
    let s := user_memory_access (stac s) in
    let s := with_mem s (memcpy dst src size (ua_mem s)) in
    let s := clac s in
    (0, s).

(** [n] remaining iterations of the loop at index [i]. *)
Fixpoint strncpy_from_user_loop (dst src count : Z) (n : nat) (i : Z) (s : user_access)
  : Z * user_access :=
  match n with
  | O => (count, clac s)
  | S n' =>
      let curr := u64 (src + i) in
      if curr >? KOS_USER_SPACE_MAX then (- EFAULT, clac s)
      else
        let s := user_memory_access s in
        let c := get0 (ua_mem s) (src + i) in
        let s := with_mem s (<[dst + i := c]> (ua_mem s)) in
        if c =? 0 then (i + 1, clac s)
        else strncpy_from_user_loop dst src count n' (i + 1) s
  end.

Definition strncpy_from_user (dst src count : Z) (s : user_access) : Z * user_access :=
  if count =? 0 then (0, s)
  else if (dst =? NULL) || negb (access_ok src 1) then (- EFAULT, s)
  else strncpy_from_user_loop dst src count (Z.to_nat count) 0 (stac s).

Fixpoint strlen_user_loop (src : Z) (n : nat) (len : Z) (s : user_access) : Z * user_access :=
  match n with
  | O => (- EFAULT, clac s)
  | S n' =>
      let curr := u64 (src + len) in
      if curr >? KOS_USER_SPACE_MAX then (- EFAULT, clac s)
      else
        let s := user_memory_access s in
        if get0 (ua_mem s) (src + len) =? 0 then (len, clac s)
        else strlen_user_loop src n' (len + 1) s
  end.

Definition strlen_user (src : Z) (s : user_access) : Z * user_access :=
  if negb (access_ok src 1) then (- EFAULT, s)
  else strlen_user_loop src 4096 0 (stac s).

(** ** Properties *)

Definition user_range (addr size : Z) : Prop := 0 < addr ∧ addr + size - 1 ≤ KOS_USER_SPACE_MAX.

Lemma access_ok_true addr size :
  is_u64 addr → is_u64 size → access_ok addr size = true ↔ size = 0 ∨ user_range addr size.
Proof.
  unfold is_u64, access_ok, user_range, u64, KOS_USER_SPACE_MAX, W64. intros Ha Hs.
  zcase; try zsolve.
Qed.

(** [access_ok] accepts a non-empty range exactly when, computed without
    wrap-around, it starts above address 0 and ends inside the canonical lower
    half; in particular no range that wraps the 64-bit address space and no
    kernel address is accepted. *)
Theorem access_ok_spec addr size :
  is_u64 addr → is_u64 size →
  (access_ok addr size = true ↔ size = 0 ∨ (0 < addr ∧ addr + size - 1 ≤ KOS_USER_SPACE_MAX)) ∧
  (access_ok addr size = true → 0 < size → ∀ a, addr ≤ a < addr + size → a ≤ KOS_USER_SPACE_MAX).
Proof.
  intros Ha Hs. pose proof (access_ok_true addr size Ha Hs) as H. split; [exact H|].
  intros [->|[? ?]]%H Hpos a ?; lia.
Qed.

Lemma access_ok_spec_witness :
  access_ok 4096 16 = true ∧ access_ok 18446744073709547520 8192 = false ∧ access_ok 140737488355320 8 = true.
Proof.
  split_and!; [|reflexivity|].
  - apply (access_ok_spec 4096 16); [done|done|]. right. unfold KOS_USER_SPACE_MAX. lia.
  - apply (access_ok_spec 140737488355320 8); [done|done|]. right. unfold KOS_USER_SPACE_MAX. lia.
Defined.

(** C38: [copy_from_user] and [copy_to_user] never touch memory on a user range
    outside the lower half and return [-EFAULT]; on a valid range they return 0
    having copied exactly [size] bytes and changed nothing else; and on every
    path the AC flag is clear on return if it was clear on entry, and SMAP refuses
    no access: user memory is only touched while AC is set. *)
Theorem copy_user_spec dst src size s :
  is_u64 dst → is_u64 src → is_u64 size → dst ≠ NULL → src ≠ NULL → 0 < size →
  (dst ≤ src ∨ src + size ≤ dst) → ua_ac s = false →
  (let '(r, s') := copy_from_user dst src size s in
   ua_ac s' = false ∧ ua_refused s' = ua_refused s ∧ ua_has_smap s' = ua_has_smap s ∧
   ((user_range src size ∧ r = 0 ∧
     wrote dst size (λ i, get0 (ua_mem s) (src + i)) (ua_mem s) (ua_mem s')) ∨
    (¬ user_range src size ∧ r = - EFAULT ∧ s' = s))) ∧
  (let '(r, s') := copy_to_user dst src size s in
   ua_ac s' = false ∧ ua_refused s' = ua_refused s ∧ ua_has_smap s' = ua_has_smap s ∧
   ((user_range dst size ∧ r = 0 ∧
     wrote dst size (λ i, get0 (ua_mem s) (src + i)) (ua_mem s) (ua_mem s')) ∨
    (¬ user_range dst size ∧ r = - EFAULT ∧ s' = s))).
Proof.
  intros Hd Hs Hn Nd Ns Hpos Hov Hac. unfold copy_from_user, copy_to_user.
  destruct (Z.eqb_spec size 0); [lia|]. destruct (Z.eqb_spec dst NULL); [done|].
  destruct (Z.eqb_spec src NULL); [done|]. simpl.
  pose proof (access_ok_true src size Hs Hn) as H1. pose proof (access_ok_true dst size Hd Hn) as H2.
  assert (wrote dst size (λ i, get0 (ua_mem s) (src + i)) (ua_mem s) (memcpy dst src size (ua_mem s)))
    as Hw by (apply memcpy_wrote; [lia|done]).
  unfold stac, clac, with_mem, user_memory_access.
  split; [destruct (access_ok src size)|destruct (access_ok dst size)]; simpl;
    destruct (ua_has_smap s) eqn:Esm; simpl; rewrite ?Esm; simpl; rewrite ?Hac;
    (split_and!; [done|by rewrite ?orb_false_r|done|]);
    first [left; split_and!; [|done|exact Hw]; intuition lia
          |right; split_and!; [|done|done]; intuition done].
Qed.

Definition sample_access : user_access := UserAccess {[4096 := 65; 4097 := 66]} true false false.

Lemma copy_user_spec_witness :
  get0 (ua_mem (copy_from_user 18446603336221196288 4096 2 sample_access).2) 18446603336221196289 = 66 ∧
  ua_ac (copy_from_user 18446603336221196288 4096 2 sample_access).2 = false.
Proof.
  split; [reflexivity|].
  destruct (copy_user_spec 18446603336221196288 4096 2 sample_access ltac:(done) ltac:(done) ltac:(done)
    ltac:(done) ltac:(done) ltac:(lia) ltac:(lia) eq_refl) as [H _].
  destruct (copy_from_user 18446603336221196288 4096 2 sample_access) as [r s']. apply H.
Defined.

(** The loop of [strncpy_from_user] from index [i]. *)
Lemma strncpy_from_user_loop_spec n : ∀ dst src count i s,
  0 ≤ i → count = i + Z.of_nat n → 0 < src ≤ KOS_USER_SPACE_MAX → count < W64 - src →
  (dst + count ≤ src ∨ KOS_USER_SPACE_MAX < dst) →
  let '(r, s') := strncpy_from_user_loop dst src count n i s in
  ua_has_smap s' = ua_has_smap s ∧ (ua_has_smap s = true → ua_ac s' = false) ∧
  (ua_has_smap s = false → ua_ac s' = ua_ac s) ∧
  (∀ a, ¬ dst + i ≤ a < dst + count → get0 (ua_mem s') a = get0 (ua_mem s) a) ∧
  ((r = - EFAULT ∧ KOS_USER_SPACE_MAX < src + count - 1) ∨
   (i ≤ r ≤ count ∧
    (∀ k, i ≤ k < r → src + k ≤ KOS_USER_SPACE_MAX ∧
       get0 (ua_mem s') (dst + k) = get0 (ua_mem s) (src + k)) ∧
    (∀ k, i ≤ k < r - 1 → get0 (ua_mem s) (src + k) ≠ 0) ∧
    (r < count → i < r ∧ get0 (ua_mem s) (src + (r - 1)) = 0))).
Proof.
  induction n as [|n IH]; intros dst src count i s Hi Hcount Hsrc Hwrap Hdisj.
  { simpl. unfold clac. destruct (ua_has_smap s) eqn:E; simpl; rewrite ?E;
      (split_and!; [done|done|done|done|]); right; split_and!; try lia; intros; lia. }
  simpl. rewrite u64_small by (unfold is_u64, KOS_USER_SPACE_MAX, W64 in *; lia).
  rewrite Z.gtb_ltb. destruct (Z.ltb_spec KOS_USER_SPACE_MAX (src + i)) as [Hout|Hin].
  { unfold clac. destruct (ua_has_smap s) eqn:E; simpl; rewrite ?E;
      (split_and!; [done|done|done|done|]); left; split; (done || lia). }
  set (c := get0 (ua_mem s) (src + i)).
  set (s1 := with_mem (user_memory_access s) (<[dst + i := c]> (ua_mem s))).
  assert (Hsame : ∀ k, i ≤ k < count → src + k ≤ KOS_USER_SPACE_MAX →
             get0 (ua_mem s1) (src + k) = get0 (ua_mem s) (src + k)).
  { intros k Hk Hk'. apply get0_insert_ne. lia. }
  destruct (Z.eqb_spec c 0) as [Hc|Hc].
  { assert (ua_has_smap (clac s1) = ua_has_smap s ∧ (ua_has_smap s = true → ua_ac (clac s1) = false) ∧
      (ua_has_smap s = false → ua_ac (clac s1) = ua_ac s) ∧ ua_mem (clac s1) = <[dst + i := c]> (ua_mem s))
      as (H1 & H2 & H3 & H4).
    { unfold clac, s1. simpl. by destruct (ua_has_smap s) eqn:E; simpl; rewrite ?E. }
    split_and!; [done|done|done| |].
    - intros a Ha. rewrite H4. apply get0_insert_ne. lia.
    - right. split_and!; [lia|lia| | |].
      + intros k Hk. replace k with i by lia. split; [done|]. rewrite H4. apply get0_insert.
      + intros; lia.
      + intros _. split; [lia|]. by replace (i + 1 - 1) with i by lia. }
  specialize (IH dst src count (i + 1) s1).
  destruct (strncpy_from_user_loop dst src count n (i + 1) s1) as [r s'].
  destruct IH as (H1 & H2 & H3 & H4 & H5); [lia|lia|done|done|done|].
  split_and!; [done|done|done| |].
  { intros a Ha. rewrite H4 by lia. apply get0_insert_ne. lia. }
  destruct H5 as [?|(Hr & Hcopy & Hnz & Hend)]; [by left|]. right. split_and!; [lia|lia| | |].
  - intros k Hk. destruct (decide (k = i)) as [->|].
    + split; [done|]. rewrite H4 by lia. apply get0_insert.
    + destruct (Hcopy k) as [Hk1 Hk2]; [lia|]. split; [done|]. rewrite Hk2. apply Hsame; [lia|done].
  - intros k Hk. destruct (decide (k = i)) as [->|]; [done|].
    rewrite <- Hsame; [apply Hnz; lia|lia|apply Hcopy; lia].
  - intros Hlt. destruct (Hend Hlt) as [? Hz]. split; [lia|].
    rewrite <- Hsame; [done|lia|apply Hcopy; lia].
Qed.

(** [strncpy_from_user] writes only the [count] bytes of the kernel buffer
    and reads only user memory; when it succeeds with result [r] the first [r]
    bytes are the user string's, only the last of them can be 0, and when [r] is
    less than [count] that last byte is the terminator; it fails only when the
    source starts outside user space or runs past its end; and the AC flag is
    clear on return on every path. *)
Theorem strncpy_from_user_spec dst src count s :
  is_u64 src → 0 < count < W64 - KOS_USER_SPACE_MAX → dst ≠ NULL → KOS_USER_SPACE_MAX < dst →
  ua_ac s = false →
  let '(r, s') := strncpy_from_user dst src count s in
  ua_ac s' = false ∧
  (∀ a, ¬ dst ≤ a < dst + count → get0 (ua_mem s') a = get0 (ua_mem s) a) ∧
  ((r = - EFAULT ∧ ¬ user_range src count) ∨
   (0 < r ≤ count ∧
    (∀ k, 0 ≤ k < r → src + k ≤ KOS_USER_SPACE_MAX ∧
       get0 (ua_mem s') (dst + k) = get0 (ua_mem s) (src + k)) ∧
    (∀ k, 0 ≤ k < r - 1 → get0 (ua_mem s) (src + k) ≠ 0) ∧
    (r < count → get0 (ua_mem s) (src + (r - 1)) = 0))).
Proof.
  intros Hsrc Hcount Nd Hdst Hac. unfold strncpy_from_user.
  destruct (Z.eqb_spec count 0); [lia|]. destruct (Z.eqb_spec dst NULL); [done|]. simpl.
  pose proof (access_ok_true src 1 Hsrc ltac:(done)) as Hok. unfold user_range in Hok.
  destruct (access_ok src 1); simpl.
  2:{ split_and!; [done|done|]. left. split; [done|]. unfold user_range. intuition lia. }
  assert (0 < src ≤ KOS_USER_SPACE_MAX) by intuition lia.
  pose proof (strncpy_from_user_loop_spec (Z.to_nat count) dst src count 0 (stac s)) as Hloop.
  destruct (strncpy_from_user_loop _ _ _ _ 0 (stac s)) as [r s'].
  assert (ua_mem (stac s) = ua_mem s ∧ ua_has_smap (stac s) = ua_has_smap s ∧
          (ua_has_smap s = false → ua_ac (stac s) = false)) as (Em & Es & Ea)
    by (unfold stac; destruct (ua_has_smap s) eqn:E; split_and!; simpl; (done || congruence)).
  rewrite Em, Es in Hloop. destruct Hloop as (H1 & H2 & H3 & H4 & H5); [lia|lia|lia| | |].
  { unfold W64, KOS_USER_SPACE_MAX in *. lia. } { by right. }
  split_and!.
  - destruct (ua_has_smap s); [by apply H2|]. rewrite H3; auto.
  - intros a Ha. apply H4. lia.
  - destruct H5 as [[-> Hend]|(Hr & Hc & Hnz & Hz)].
    + left. split; [done|]. unfold user_range. lia.
    + right. split_and!; [|lia|done|done|].
      * destruct (Z.lt_ge_cases r count) as [Hlt|]; [|lia]. destruct (Hz Hlt). lia.
      * intros Hlt. by destruct (Hz Hlt).
Qed.

Lemma strncpy_from_user_spec_witness :
  (strncpy_from_user 18446603336221196288 4096 8 sample_access).1 = 3 ∧
  ua_ac (strncpy_from_user 18446603336221196288 4096 8 sample_access).2 = false.
Proof.
  split; [reflexivity|].
  pose proof (strncpy_from_user_spec 18446603336221196288 4096 8 sample_access) as H.
  destruct (strncpy_from_user 18446603336221196288 4096 8 sample_access) as [r s'].
  apply H; try done.
Defined.
