(* ===== verification/KList.v ===== *)
(** * Intrusive doubly linked lists (src/include/kos/list.h)

    The links of every [struct list_head] in memory are two maps from node
    address to node address (0 is NULL), and the operations are the header's
    pointer assignments in their order.  [dlist s h l] says that the circular
    list with head [h] holds the nodes [l] in order; the theorems say that the
    operations are the corresponding operations on the sequence [l].  The
    components that own such lists (sleep queue, wait queues, LRU list, hash
    buckets, waiter lists) model them as that sequence. *)

From S2P Require Import Prelude.
From Stdlib Require Import ZArith Lia.
From stdpp Require Import gmap.
#[local] Open Scope Z_scope.

Record links := Links { lnext : gmap Z Z; lprev : gmap Z Z }.

Definition next (s : links) (n : Z) : Z := get0 (lnext s) n.
Definition prev (s : links) (n : Z) : Z := get0 (lprev s) n.

Definition set_next (n v : Z) (s : links) : links := Links (<[n := v]> (lnext s)) (lprev s).
Definition set_prev (n v : Z) (s : links) : links := Links (lnext s) (<[n := v]> (lprev s)).

Definition list_init (list : Z) (s : links) : links := set_prev list list (set_next list list s).

Definition __list_add (new_node prev next : Z) (s : links) : links :=
  let s := set_prev next new_node s in
  let s := set_next new_node next s in
  let s := set_prev new_node prev s in
  set_next prev new_node s.

Definition list_add (new_node head : Z) (s : links) : links :=
  __list_add new_node head (next s head) s.

Definition list_add_tail (new_node head : Z) (s : links) : links :=
  __list_add new_node (prev s head) head s.

Definition __list_del (prev next : Z) (s : links) : links :=
  set_next prev next (set_prev next prev s).

Definition list_del (entry : Z) (s : links) : links :=
  let s := __list_del (prev s entry) (next s entry) s in
  set_prev entry 0 (set_next entry 0 s).

Definition list_del_init (entry : Z) (s : links) : links :=
  let s := __list_del (prev s entry) (next s entry) s in
  list_init entry s.

Definition list_empty (head : Z) (s : links) : bool := next s head =? head.

(** [list_for_each(pos, head)]: the nodes visited, at most [fuel] of them. *)
Fixpoint list_for_each (fuel : nat) (pos head : Z) (s : links) : option (list Z) :=
  match fuel with
  | O => None
  | S f => if pos =? head then Some []
           else option_map (cons pos) (list_for_each f (next s pos) head s)
  end.

Fixpoint list_for_each_prev (fuel : nat) (pos head : Z) (s : links) : option (list Z) :=
  match fuel with
  | O => None
  | S f => if pos =? head then Some []
           else option_map (cons pos) (list_for_each_prev f (prev s pos) head s)
  end.

(** ** Representation *)

Fixpoint linked (s : links) (path : list Z) : Prop :=
  match path with
  | a :: ((b :: _) as rest) => next s a = b ∧ prev s b = a ∧ linked s rest
  | _ => True
  end.

Definition dlist (s : links) (h : Z) (l : list Z) : Prop :=
  NoDup (h :: l) ∧ linked s (h :: l ++ [h]).

Lemma next_set_next n v s x : next (set_next n v s) x = if decide (n = x) then v else next s x.
Proof. apply get0_insert_dec. Qed.
Lemma prev_set_prev n v s x : prev (set_prev n v s) x = if decide (n = x) then v else prev s x.
Proof. apply get0_insert_dec. Qed.
Lemma next_set_prev n v s x : next (set_prev n v s) x = next s x.
Proof. done. Qed.
Lemma prev_set_next n v s x : prev (set_next n v s) x = prev s x.
Proof. done. Qed.

Create Rewrite HintDb links.
#[export] Hint Rewrite next_set_next prev_set_prev next_set_prev prev_set_next : links.

Lemma linked_app s k1 p nx k2 :
  linked s (k1 ++ p :: nx :: k2) ↔
  linked s (k1 ++ [p]) ∧ next s p = nx ∧ prev s nx = p ∧ linked s (nx :: k2).
Proof.
  induction k1 as [|a k1 IH]; simpl; [tauto|].
  destruct k1 as [|b k1]; simpl in *; tauto.
Qed.

Lemma linked_frame s s' path :
  linked s path → (∀ x, x ∈ removelast path → next s' x = next s x) →
  (∀ x, x ∈ tail path → prev s' x = prev s x) → linked s' path.
Proof.
  induction path as [|a [|b path] IH]; simpl; [done|done|].
  intros (Hn & Hp & Hl) Hn' Hp'. split_and!.
  - rewrite Hn'; [done|left].
  - rewrite Hp'; [done|left].
  - apply IH; [done|intros x Hx; apply Hn'; by right|intros x Hx; apply Hp'; by right].
Qed.

(** Cuts the circle between [l1] and [l2]: the last node before the cut, the
    first after it, and the two paths. *)
Lemma dlist_cut s h l1 l2 :
  dlist s h (l1 ++ l2) →
  ∃ k1 p nx k2, h :: l1 = k1 ++ [p] ∧ l2 ++ [h] = nx :: k2 ∧
    linked s (k1 ++ [p]) ∧ next s p = nx ∧ prev s nx = p ∧ linked s (nx :: k2).
Proof.
  intros [_ Hl].
  destruct (exists_last (l := h :: l1)) as (k1 & p & E1); [done|].
  destruct (l2 ++ [h]) as [|nx k2] eqn:E2; [by destruct l2|].
  exists k1, p, nx, k2. split_and!; [done|done|..];
    replace (h :: (l1 ++ l2) ++ [h]) with (k1 ++ p :: nx :: k2) in Hl
      by (rewrite <- app_assoc, E2; change (h :: l1 ++ nx :: k2) with ((h :: l1) ++ nx :: k2);
          rewrite E1, <- app_assoc; done);
    apply linked_app in Hl; tauto.
Qed.

Lemma linked_join s h l1 l2 k1 p nx k2 :
  h :: l1 = k1 ++ [p] → l2 ++ [h] = nx :: k2 →
  linked s (k1 ++ [p]) → next s p = nx → prev s nx = p → linked s (nx :: k2) →
  linked s (h :: (l1 ++ l2) ++ [h]).
Proof.
  intros E1 E2 ? ? ? ?. rewrite <- app_assoc, E2.
  change (linked s ((h :: l1) ++ nx :: k2)). rewrite E1, <- app_assoc. simpl.
  by apply linked_app.
Qed.

(** Which nodes the two paths of a cut use. *)
Lemma cut_nodes h l1 l2 k1 p nx k2 :
  NoDup (h :: l1 ++ l2) → h :: l1 = k1 ++ [p] → l2 ++ [h] = nx :: k2 →
  (p ∈ (h :: l1)) ∧ (nx ∈ (h :: l2)) ∧ (p ∉ k1) ∧ (∀ x : Z, x ∈ k1 → x ∈ (h :: l1)) ∧
  (nx ∉ tail (k1 ++ [p])) ∧ (p ∉ removelast (nx :: k2)) ∧ (nx ∉ k2) ∧
  removelast (nx :: k2) = l2 ∧ (∀ x : Z, x ∈ k2 → x ∈ (h :: l2)) ∧ tail (k1 ++ [p]) = l1.
Proof.
  intros Hnd E1 E2. apply NoDup_cons in Hnd as [Hh Hnd].
  apply NoDup_app in Hnd as (Hn1 & Hdisj & Hn2).
  assert (NoDup (h :: l1)) as Hnd1 by (apply NoDup_cons; set_solver).
  assert (removelast (nx :: k2) = l2) as Er by (rewrite <- E2; apply removelast_last).
  assert (tail (k1 ++ [p]) = l1) as Et by (by rewrite <- E1).
  assert (p ∈ (h :: l1)) by (rewrite E1; set_solver).
  assert (∀ x : Z, x ∈ (nx :: k2) → x ∈ (h :: l2)) as Hsub by (rewrite <- E2; set_solver).
  assert (nx ∈ (h :: l2)) by (apply Hsub; left).
  rewrite E1 in Hnd1. apply NoDup_app in Hnd1 as (_ & Hk1 & _).
  split_and!; [done|done|set_solver| | | | |done|intros x Hx; apply Hsub; by right|done].
  - intros x Hx. rewrite E1. set_solver.
  - rewrite Et. set_solver.
  - rewrite Er. set_solver.
  - destruct l2 as [|y l2]; simplify_eq/=; [by apply not_elem_of_nil|].
    apply NoDup_cons in Hn2 as [? _]. set_solver.
Qed.

(** Insertion between any two neighbours. *)
Lemma list_add_between s h l1 l2 n :
  dlist s h (l1 ++ l2) → n ∉ (h :: l1 ++ l2) →
  ∃ p nx, p ∈ (h :: l1) ∧ nx ∈ (h :: l2) ∧ next s p = nx ∧ prev s nx = p ∧
    (l1 = [] → p = h) ∧ (l2 = [] → nx = h) ∧ dlist (__list_add n p nx s) h (l1 ++ n :: l2).
Proof.
  intros Hd Hn. destruct (dlist_cut s h l1 l2 Hd) as (k1 & p & nx & k2 & E1 & E2 & H1 & H2 & H3 & H4).
  destruct Hd as [Hnd _].
  destruct (cut_nodes h l1 l2 k1 p nx k2 Hnd E1 E2)
    as (Hp & Hnx & Hpk & Hk1 & Hnt & Hpr & Hnk & Er & Hk2 & Et).
  exists p, nx. split_and!; [done|done|done|done| | |].
  { intros ->. destruct k1 as [|? [|]]; simplify_eq/=; done. }
  { intros ->. by simplify_eq/=. }
  split.
  { rewrite NoDup_cons in *. rewrite !NoDup_app, NoDup_cons in *. set_solver. }
  set (s' := __list_add n p nx s).
  assert (n ≠ p ∧ n ≠ nx) as [Hnp Hnnx] by set_solver.
  replace (l1 ++ n :: l2) with ((l1 ++ [n]) ++ l2) by (by rewrite <- app_assoc).
  apply (linked_join s' h (l1 ++ [n]) l2 (h :: l1) n nx k2).
  - by rewrite app_comm_cons.
  - done.
  - change (linked s' (h :: l1 ++ [n])). rewrite app_comm_cons, E1, <- app_assoc. simpl.
    apply linked_app. split_and!; [|unfold s', __list_add; autorewrite with links; by repeat case_decide..|done].
    apply (linked_frame s); [done|..].
    + intros x Hx. rewrite removelast_last in Hx.
      unfold s', __list_add; autorewrite with links. repeat case_decide; subst; set_solver.
    + intros x Hx. rewrite Et in Hx.
      unfold s', __list_add; autorewrite with links. repeat case_decide; subst; set_solver.
  - unfold s', __list_add; autorewrite with links. by repeat case_decide.
  - unfold s', __list_add; autorewrite with links. by repeat case_decide.
  - apply (linked_frame s); [done|..].
    + intros x Hx. rewrite Er in *.
      unfold s', __list_add; autorewrite with links. repeat case_decide; subst; set_solver.
    + intros x Hx. simpl in Hx. apply Hk2 in Hx as Hx'.
      unfold s', __list_add; autorewrite with links. repeat case_decide; subst; set_solver.
Qed.

Lemma list_unlink s s' h l1 n l2 :
  dlist s h (l1 ++ n :: l2) →
  let p := prev s n in
  let nx := next s n in
  (∀ x, x ≠ n → next s' x = if decide (p = x) then nx else next s x) →
  (∀ x, x ≠ n → prev s' x = if decide (nx = x) then p else prev s x) →
  dlist s' h (l1 ++ l2).
Proof.
  intros Hd p nx Hn' Hp'.
  destruct (dlist_cut s h l1 (n :: l2) Hd) as (k1 & p0 & n0 & k2 & E1 & E2 & H1 & H2 & H3 & H4).
  simpl in E2. injection E2 as <- E2. subst p. rewrite H3 in *.
  destruct k2 as [|nx0 k2]; [by destruct l2|]. destruct H4 as (Hnx & Hpx & H4). subst nx. rewrite Hnx in *.
  destruct Hd as [Hnd _].
  assert ((n ∉ (h :: l1 ++ l2)) ∧ NoDup (h :: l1 ++ l2)) as [Hn Hnd'].
  { clear -Hnd. rewrite NoDup_cons in *. rewrite !NoDup_app, NoDup_cons in *. set_solver. }
  destruct (cut_nodes h l1 l2 k1 p0 nx0 k2 Hnd' E1 E2)
    as (Hp & Hnx0 & Hpk & Hk1 & Hnt & Hpr & Hnk & Er & Hk2 & Et).
  assert (n ≠ p0 ∧ n ≠ nx0) as [? ?] by (clear -Hn Hp Hnx0; set_solver).
  assert ((n ∉ l1) ∧ (n ∉ l2) ∧ n ≠ h) as (Hn1 & Hn2 & Hnh) by (clear -Hn; set_solver).
  assert ((n ∉ k1) ∧ (n ∉ k2)) as [Hnk1 Hnk2] by (clear -Hn Hk1 Hk2; set_solver).
  split; [done|]. apply (linked_join s' h l1 l2 k1 p0 nx0 k2); [done|done|..].
  - apply (linked_frame s); [done|..].
    + intros x Hx. rewrite removelast_last in Hx. rewrite Hn' by congruence.
      case_decide; subst; done.
    + intros x Hx. rewrite Et in *. rewrite Hp' by congruence. case_decide; subst; done.
  - rewrite Hn' by done. by rewrite decide_True.
  - rewrite Hp' by done. by rewrite decide_True.
  - apply (linked_frame s); [done|..].
    + intros x Hx. rewrite Er in *. rewrite Hn' by congruence. case_decide; subst; done.
    + intros x Hx. simpl in Hx. rewrite Hp' by congruence. case_decide; subst; done.
Qed.

(** A list none of whose nodes is touched is unchanged. *)
Lemma dlist_frame s s' h l :
  dlist s h l → (∀ x, x ∈ (h :: l) → next s' x = next s x ∧ prev s' x = prev s x) → dlist s' h l.
Proof.
  intros [Hnd Hl] Hf. split; [done|]. apply (linked_frame s); [done|..].
  - intros x Hx. change (h :: l ++ [h]) with ((h :: l) ++ [h]) in Hx.
    rewrite removelast_last in Hx. by apply Hf.
  - intros x Hx. simpl in Hx. apply Hf. set_solver.
Qed.

Lemma list_for_each_spec l : ∀ s h x fuel,
  linked s (x :: l ++ [h]) → h ∉ l → (length l < fuel)%nat →
  list_for_each fuel (next s x) h s = Some l.
Proof.
  induction l as [|a l IH]; intros s h x [|fuel] Hl Hh Hf; simpl in *; try lia.
  - destruct Hl as (-> & _). by rewrite Z.eqb_refl.
  - destruct Hl as (-> & _ & Hl). destruct (Z.eqb_spec a h); [set_solver|].
    rewrite IH; [done|done|set_solver|lia].
Qed.

(** the list operations implement sequences.  If the circular list at [h]
    holds the nodes [l1 ++ l2] and [n] is a fresh node, then [list_add] puts [n]
    first and [list_add_tail] puts it last; if it holds [l1 ++ n :: l2] then
    [list_del] and [list_del_init] leave exactly [l1 ++ l2], whatever the
    position of [n], with the links of [n] cleared or pointing to itself;
    [list_empty] tests for the empty sequence, and walking the list visits
    exactly its nodes in order and stops. *)
Theorem list_operations_refine s h l n :
  dlist s h l →
  (n ∉ (h :: l) → dlist (list_add n h s) h (n :: l) ∧ dlist (list_add_tail n h s) h (l ++ [n])) ∧
  (∀ l1 l2, l = l1 ++ n :: l2 →
     (dlist (list_del n s) h (l1 ++ l2) ∧ next (list_del n s) n = 0) ∧
     dlist (list_del_init n s) h (l1 ++ l2) ∧ next (list_del_init n s) n = n) ∧
  (list_empty h s = true ↔ l = []) ∧
  list_for_each (S (length l)) (next s h) h s = Some l.
Proof.
  intros Hd. split_and!.
  - intros Hn. split.
    + destruct (list_add_between s h [] l n Hd Hn) as (p & nx & _ & _ & H1 & _ & Hp & _ & H).
      rewrite (Hp eq_refl) in *. unfold list_add. by rewrite H1.
    + rewrite <- (app_nil_r l) in Hd, Hn.
      destruct (list_add_between s h l [] n Hd Hn) as (p & nx & _ & _ & _ & H1 & _ & Hnx & H).
      rewrite (Hnx eq_refl) in *. unfold list_add_tail. by rewrite H1.
  - intros l1 l2 ->. split; split.
    + eapply list_unlink; [done|..]; intros x Hx;
        unfold list_del, __list_del; autorewrite with links; by rewrite decide_False.
    + unfold list_del, __list_del; autorewrite with links. by rewrite decide_True.
    + eapply list_unlink; [done|..]; intros x Hx;
        unfold list_del_init, list_init, __list_del; autorewrite with links; by rewrite decide_False.
    + unfold list_del_init, list_init, __list_del; autorewrite with links. by rewrite decide_True.
  - destruct Hd as [Hnd Hl]. unfold list_empty. rewrite Z.eqb_eq. split; [|intros ->; apply Hl].
    destruct l as [|a l]; [done|]. destruct Hl as (-> & _). intros ->.
    apply NoDup_cons in Hnd. set_solver.
  - destruct Hd as [Hnd Hl]. apply list_for_each_spec; [done| |lia].
    by apply NoDup_cons in Hnd as [? _].
Qed.

Lemma list_operations_refine_witness :
  let s := list_add_tail 3 1 (list_add_tail 2 1 (list_init 1 (Links ∅ ∅))) in
  dlist s 1 [2; 3] ∧ dlist (list_del 2 s) 1 [3] ∧ list_for_each 3 (next s 1) 1 s = Some [2; 3].
Proof.
  intros s. assert (dlist s 1 [2; 3]) as Hd.
  { split; [|vm_compute; split_and!; done]. repeat (apply NoDup_cons; split; [set_solver|]). by apply NoDup_nil. }
  split; [done|]. destruct (list_operations_refine s 1 [2; 3] 2 Hd) as (_ & H1 & _ & H2).
  split; [|exact H2]. by apply (H1 [] [3]).
Defined.
