(* ===== verification/Object.v ===== *)
(** * Reference-counted kernel objects (src/kernel/object.c)

    Objects live in a store indexed by their (non-null) address; the reference
    count is a 32-bit signed integer.  A destructor is a function pointer: the
    store records the addresses of the objects whose destructor has been called,
    in order. *)

From S2P Require Import Prelude.
From Stdlib Require Import ZArith Lia.
From stdpp Require Import gmap.
#[local] Open Scope Z_scope.

Inductive kos_object_type :=
  | KOS_OBJ_NONE | KOS_OBJ_THREAD | KOS_OBJ_PROCESS | KOS_OBJ_MUTEX | KOS_OBJ_SEMAPHORE
  | KOS_OBJ_EVENT | KOS_OBJ_FILE | KOS_OBJ_SOCKET | KOS_OBJ_WAIT_QUEUE | KOS_OBJ_MAX.

#[export] Instance kos_object_type_eq_dec : EqDecision kos_object_type.
Proof. solve_decision. Defined.

Record kos_object_header := ObjectHeader {
  otype : kos_object_type;
  refcount : Z;
  has_destructor : bool
}.

Record object_store := ObjectStore {
  headers : gmap Z kos_object_header;
  destructor_calls : list Z
}.

Definition atomic_inc_return (v : Z) : Z := s32 (v + 1).
Definition atomic_dec_return (v : Z) : Z := s32 (v - 1).
Definition atomic_dec_and_test (v : Z) : Z * bool :=
  (atomic_dec_return v, atomic_dec_return v =? 0).

Definition kos_object_init (hdr : Z) (type : kos_object_type) (destructor : bool) (os : object_store)
  : object_store :=
  if hdr =? 0 then os
  else ObjectStore (<[hdr := ObjectHeader type 1 destructor]> (headers os)) (destructor_calls os).

Definition kos_object_ref (hdr : Z) (os : object_store) : object_store :=
  if hdr =? 0 then os
  else ObjectStore
         (alter (λ h, ObjectHeader (otype h) (atomic_inc_return (refcount h)) (has_destructor h)) hdr
            (headers os))
         (destructor_calls os).

Definition kos_object_unref (hdr : Z) (os : object_store) : object_store :=
  if hdr =? 0 then os
  else
    match headers os !! hdr with
    | None => os
    | Some h =>
        let '(v, zero) := atomic_dec_and_test (refcount h) in
        let hs := <[hdr := ObjectHeader (otype h) v (has_destructor h)]> (headers os) in
        if zero && has_destructor h then ObjectStore hs (destructor_calls os ++ [hdr])
        else ObjectStore hs (destructor_calls os)
    end.

Definition kos_object_get_refcount (hdr : Z) (os : object_store) : Z :=
  if hdr =? 0 then 0 else from_option refcount 0 (headers os !! hdr).

(** ** Effects on one object *)

Lemma s32_small z : -2147483648 ≤ z < 2147483648 → s32 z = z.
Proof. intros. unfold s32, u32. zcase; zsolve. Qed.

Lemma headers_ref o os x :
  headers (kos_object_ref o os) !! x
  = if decide (o = x ∧ o ≠ 0) then
      (λ h, ObjectHeader (otype h) (s32 (refcount h + 1)) (has_destructor h)) <$> headers os !! x
    else headers os !! x.
Proof.
  unfold kos_object_ref. destruct (Z.eqb_spec o 0) as [->|]; simpl.
  - by rewrite decide_False by tauto.
  - rewrite lookup_alter. destruct (decide (o = x)) as [->|].
    + by rewrite decide_True.
    + by rewrite decide_False by tauto.
Qed.

Lemma headers_unref o os x :
  headers (kos_object_unref o os) !! x
  = if decide (o = x ∧ o ≠ 0) then
      (λ h, ObjectHeader (otype h) (s32 (refcount h - 1)) (has_destructor h)) <$> headers os !! x
    else headers os !! x.
Proof.
  unfold kos_object_unref. destruct (Z.eqb_spec o 0) as [->|]; simpl.
  { by rewrite decide_False by tauto. }
  destruct (headers os !! o) as [h|] eqn:E.
  - unfold atomic_dec_and_test, atomic_dec_return.
    destruct (_ && _); simpl; (destruct (decide (o = x)) as [->|];
      [rewrite decide_True by done; by rewrite lookup_insert_eq, E
      |rewrite decide_False by tauto; by rewrite lookup_insert_ne]).
  - case_decide as Hd; [|done]. destruct Hd as [<- _]. by rewrite E.
Qed.

(** Taking and dropping a reference on a live object leaves the store as it was. *)
Lemma unref_ref o os :
  (∀ h, headers os !! o = Some h → 0 < refcount h < 2147483647) →
  headers (kos_object_unref o (kos_object_ref o os)) = headers os.
Proof.
  intros Ho. apply map_eq. intros x. rewrite headers_unref, headers_ref.
  case_decide as Hd; [|done]. destruct Hd as [<- Ho0].
  destruct (headers os !! o) as [h|] eqn:E; [|done]. simpl.
  specialize (Ho h eq_refl). rewrite !s32_small by (rewrite ?s32_small; lia).
  do 2 f_equal. destruct h; simpl; f_equal; lia.
Qed.

Lemma destructor_calls_unref o os :
  destructor_calls (kos_object_unref o os)
  = destructor_calls os ++
    match headers os !! o with
    | Some h => if bool_decide (o ≠ 0) && (s32 (refcount h - 1) =? 0) && has_destructor h then [o] else []
    | None => []
    end.
Proof.
  unfold kos_object_unref. destruct (Z.eqb_spec o 0) as [->|].
  { rewrite bool_decide_false by lia. simpl. destruct (headers os !! 0); by rewrite app_nil_r. }
  rewrite bool_decide_true by done. simpl.
  destruct (headers os !! o) as [h|]; [|by rewrite app_nil_r].
  unfold atomic_dec_and_test, atomic_dec_return.
  destruct (_ && _); simpl; by rewrite ?app_nil_r.
Qed.

Lemma destructor_calls_ref o os : destructor_calls (kos_object_ref o os) = destructor_calls os.
Proof. unfold kos_object_ref. by destruct (_ =? _). Qed.
