(* ===== verification/Handle.v ===== *)
(** * Handle tables (src/kernel/handle.c, src/include/kos/handle.h)

    Handle tables live in a store indexed by table address, so that two
    processes may share one; a process is the address of its table (0 for
    none).  The kernel state pairs that store with the object store. *)

From S2P Require Import Prelude Object.
From Stdlib Require Import ZArith Lia.
From stdpp Require Import gmap.
#[local] Open Scope Z_scope.

(** ** Encoding *)

Definition KOS_RIGHT_NONE : Z := 0.
Definition KOS_RIGHT_READ : Z := 1.
Definition KOS_RIGHT_WRITE : Z := 2.
Definition KOS_RIGHT_EXECUTE : Z := 4.
Definition KOS_RIGHT_WAIT : Z := 8.
Definition KOS_RIGHT_SIGNAL : Z := 16.
Definition KOS_RIGHT_DUPLICATE : Z := 32.
Definition KOS_RIGHT_TRANSFER : Z := 64.
Definition KOS_RIGHT_DESTROY : Z := 128.
Definition KOS_RIGHT_ALL : Z := 4294967295.

Definition KOS_INVALID_HANDLE : Z := 0.
Definition KOS_HANDLE_TABLE_CAPACITY : Z := 64.

Definition KOS_HANDLE_INDEX (h : Z) : Z := u16 (Z.land h 65535).
Definition KOS_HANDLE_GEN (h : Z) : Z := u16 (Z.land (Z.shiftr h 16) 65535).
Definition KOS_MAKE_HANDLE (idx gen : Z) : Z := Z.lor (u32 (Z.shiftl gen 16)) (Z.land idx 65535).

(** ** State *)

Record handle_entry := HandleEntry {
  object : Z;
  rights : Z;
  generation : Z;
  in_use : bool
}.

Record handle_table := HandleTable {
  entries : list handle_entry;
  count : Z
}.

Record kernel := Kernel {
  tables : gmap Z handle_table;
  objects : object_store
}.

(** A process as the handle functions see it: the address of its table. *)
Record process := Process { handles : Z }.

Definition with_table (k : kernel) (tp : Z) (t : handle_table) : kernel :=
  Kernel (<[tp := t]> (tables k)) (objects k).

Definition with_objects (k : kernel) (os : object_store) : kernel := Kernel (tables k) os.

(** [generation++; if (generation == 0) generation = 1;] *)
Definition next_generation (g : Z) : Z :=
  let g := u16 (g + 1) in if g =? 0 then 1 else g.

Definition closed_entry (e : handle_entry) : handle_entry :=
  HandleEntry 0 KOS_RIGHT_NONE (next_generation (generation e)) false.

(** ** Tables *)

Definition empty_entry : handle_entry := HandleEntry 0 KOS_RIGHT_NONE 1 false.

(** [ptr] is what [kmalloc] returned. *)
Definition handle_table_create (ptr : Z) (k : kernel) : Z * kernel :=
  if ptr =? 0 then (0, k)
  else (ptr, with_table k ptr (HandleTable (replicate 64 empty_entry) 0)).

(** The locked loop of [handle_table_destroy]: the new entries and
    [objs_to_unref]. *)
Fixpoint destroy_entries (es : list handle_entry) : list handle_entry * list Z :=
  match es with
  | [] => ([], [])
  | e :: rest =>
      let '(es', objs) := destroy_entries rest in
      if in_use e && negb (object e =? 0) then (closed_entry e :: es', object e :: objs)
      else (e :: es', objs)
  end.

Definition handle_table_destroy (table : Z) (k : kernel) : kernel :=
  if table =? 0 then k
  else
    match tables k !! table with
    | None => k
    | Some t =>
        let '(es, objs) := destroy_entries (entries t) in
        let k := with_table k table (HandleTable es 0) in
        let k := with_objects k (foldl (λ os o, kos_object_unref o os) (objects k) objs) in
        (* kfree(table) *)
        Kernel (delete table (tables k)) (objects k)
    end.

(** The first entry that is not in use, from index [i]. *)
Fixpoint find_unused (es : list handle_entry) (i : nat) : option (nat * handle_entry) :=
  match es with
  | [] => None
  | e :: rest => if negb (in_use e) then Some (i, e) else find_unused rest (S i)
  end.

(** ** Handles *)

Definition handle_create (proc : option process) (obj rts : Z) (k : kernel) : Z * kernel :=
  match proc with
  | None => (KOS_INVALID_HANDLE, k)
  | Some p =>
      if obj =? 0 then (KOS_INVALID_HANDLE, k)
      else if handles p =? 0 then (KOS_INVALID_HANDLE, k)
      else
        match tables k !! handles p with
        | None => (KOS_INVALID_HANDLE, k)
        | Some t =>
            match find_unused (entries t) 0 with
            | None => (KOS_INVALID_HANDLE, k)
            | Some (i, e) =>
                let gen := if generation e =? 0 then 1 else generation e in
                let e' := HandleEntry obj rts gen true in
                let k := with_table k (handles p)
                           (HandleTable (<[i := e']> (entries t)) (u32 (count t + 1))) in
                let k := with_objects k (kos_object_ref obj (objects k)) in
                (KOS_MAKE_HANDLE (Z.of_nat i) gen, k)
            end
        end
  end.

(** The table and entry a handle designates: the common prefix of
    [handle_lookup], [handle_close] and [handle_duplicate]. *)
Definition resolve (proc : option process) (handle : Z) (k : kernel)
  : option (Z * handle_table * nat * handle_entry) :=
  match proc with
  | None => None
  | Some p =>
      if handle =? KOS_INVALID_HANDLE then None
      else if handles p =? 0 then None
      else
        let index := KOS_HANDLE_INDEX handle in
        let gen := KOS_HANDLE_GEN handle in
        if index >=? KOS_HANDLE_TABLE_CAPACITY then None
        else
          match tables k !! handles p with
          | None => None
          | Some t =>
              match entries t !! Z.to_nat index with
              | None => None
              | Some e =>
                  if negb (in_use e) || negb (generation e =? gen) then None
                  else Some (handles p, t, Z.to_nat index, e)
              end
          end
  end.

Definition handle_lookup (proc : option process) (handle required_rights : Z) (k : kernel) : Z :=
  match resolve proc handle k with
  | None => 0
  | Some (_, _, _, e) =>
      if negb (Z.land (rights e) required_rights =? required_rights) then 0
      else object e
  end.

Definition handle_lookup_type (proc : option process) (handle : Z) (type : kos_object_type)
    (required_rights : Z) (k : kernel) : Z :=
  let obj := handle_lookup proc handle required_rights k in
  if obj =? 0 then 0
  else
    match headers (objects k) !! obj with
    | None => 0
    | Some hdr => if bool_decide (otype hdr = type) then obj else 0
    end.

Definition handle_close (proc : option process) (handle : Z) (k : kernel) : bool * kernel :=
  match resolve proc handle k with
  | None => (false, k)
  | Some (tp, t, i, e) =>
      let obj_to_unref := object e in
      let n := if count t >? 0 then count t - 1 else count t in
      let k := with_table k tp (HandleTable (<[i := closed_entry e]> (entries t)) n) in
      let k := if negb (obj_to_unref =? 0)
               then with_objects k (kos_object_unref obj_to_unref (objects k)) else k in
      (true, k)
  end.

Definition handle_duplicate (src_proc dst_proc : option process) (handle new_rights : Z) (k : kernel)
  : Z * kernel :=
  match dst_proc with
  | None => (KOS_INVALID_HANDLE, k)
  | Some d =>
      if handles d =? 0 then (KOS_INVALID_HANDLE, k)
      else
        match resolve src_proc handle k with
        | None => (KOS_INVALID_HANDLE, k)
        | Some (_, _, _, e) =>
            if Z.land (rights e) KOS_RIGHT_DUPLICATE =? 0 then (KOS_INVALID_HANDLE, k)
            else
              let target_rights := if negb (new_rights =? 0) then new_rights else rights e in
              if negb (Z.land target_rights (not32 (rights e)) =? 0) then (KOS_INVALID_HANDLE, k)
              else
                let obj := object e in
                if obj =? 0 then (KOS_INVALID_HANDLE, k)
                else
                  let k := with_objects k (kos_object_ref obj (objects k)) in
                  let '(dst_handle, k) := handle_create dst_proc obj target_rights k in
                  let k := with_objects k (kos_object_unref obj (objects k)) in
                  (dst_handle, k)
        end
  end.

#[global] Arguments handle_create : simpl never.
#[global] Arguments handle_close : simpl never.
#[global] Arguments handle_duplicate : simpl never.
#[global] Arguments handle_lookup : simpl never.

(** ** Encoding *)

Lemma make_handle_eq i g :
  0 ≤ i < 65536 → 0 ≤ g < 65536 → KOS_MAKE_HANDLE i g = g * 65536 + i.
Proof.
  intros Hi Hg. unfold KOS_MAKE_HANDLE.
  rewrite (land_low_mask i 16) by (done || lia). rewrite Z.shiftl_mul_pow2 by lia.
  change (2 ^ 16) with 65536. rewrite Z.mod_small by lia.
  rewrite u32_small by (unfold is_u32; lia). apply (lor_mul_pow2 g i 16); [lia|]. change (2 ^ 16) with 65536. lia.
Qed.

Lemma handle_index_eq h : KOS_HANDLE_INDEX h = h mod 65536.
Proof.
  unfold KOS_HANDLE_INDEX, u16. rewrite (land_low_mask h 16) by (done || lia).
  change (2 ^ 16) with 65536. zsolve.
Qed.

Lemma handle_gen_eq h : KOS_HANDLE_GEN h = h / 65536 mod 65536.
Proof.
  unfold KOS_HANDLE_GEN, u16. rewrite (land_low_mask _ 16) by (done || lia).
  rewrite Z.shiftr_div_pow2 by lia. change (2 ^ 16) with 65536. zsolve.
Qed.

(** The encoding is a bijection between 32-bit handles and pairs of 16-bit
    index and generation. *)
Lemma handle_decode h i g :
  is_u32 h → 0 ≤ i < 65536 → 0 ≤ g < 65536 →
  KOS_HANDLE_INDEX h = i ∧ KOS_HANDLE_GEN h = g ↔ h = KOS_MAKE_HANDLE i g.
Proof.
  intros Hh Hi Hg. rewrite handle_index_eq, handle_gen_eq, make_handle_eq by done.
  unfold is_u32 in Hh. split; [intros []|intros ->; split]; zsolve.
Qed.

Lemma make_handle_u32 i g : 0 ≤ i < 65536 → 0 ≤ g < 65536 → is_u32 (KOS_MAKE_HANDLE i g).
Proof. intros. rewrite make_handle_eq by done. unfold is_u32. lia. Qed.

(** Generations run through 1 .. 65535 and around. *)
Lemma next_generation_range g : 1 ≤ g ≤ 65535 → 1 ≤ next_generation g ≤ 65535.
Proof. intros. unfold next_generation, u16. zcase; zsolve. Qed.

Lemma next_generation_iter n g :
  1 ≤ g ≤ 65535 → Nat.iter n next_generation g = (g - 1 + Z.of_nat n) mod 65535 + 1.
Proof.
  intros Hg. induction n as [|n IH]; simpl Nat.iter.
  - rewrite Z.mod_small by lia. lia.
  - rewrite IH. unfold next_generation, u16. zcase; zsolve.
Qed.

(** ** Well-formed tables *)

Definition entry_ok (e : handle_entry) : Prop :=
  1 ≤ generation e ≤ 65535 ∧ is_u32 (rights e) ∧ (in_use e = true → object e ≠ 0).

(** Entries in use. *)
Definition used (es : list handle_entry) : nat := length (filter (λ e, in_use e = true) es).

Record table_ok (t : handle_table) : Prop := {
  tok_length : length (entries t) = 64%nat;
  tok_count : count t = Z.of_nat (used (entries t));
  tok_entries : Forall entry_ok (entries t)
}.

Definition tables_ok (k : kernel) : Prop := map_Forall (λ _ t, table_ok t) (tables k).

Lemma used_insert es i e e' :
  es !! i = Some e →
  (used (<[i := e']> es) + (if in_use e then 1 else 0)
   = used es + (if in_use e' then 1 else 0))%nat.
Proof.
  unfold used. revert i. induction es as [|a es IH]; intros [|i] He; simplify_eq/=.
  - rewrite !filter_cons. repeat case_decide; repeat case_match; simpl; try congruence; lia.
  - rewrite !filter_cons. specialize (IH i He). repeat case_decide; simpl; lia.
Qed.

Lemma used_le es : (used es ≤ length es)%nat.
Proof. apply length_filter. Qed.

Lemma find_unused_Some es : ∀ i j e,
  find_unused es i = Some (j, e) →
  (i ≤ j)%nat ∧ es !! (j - i)%nat = Some e ∧ in_use e = false.
Proof.
  induction es as [|a es IH]; intros i j e H; simpl in H; [done|].
  destruct (in_use a) eqn:Ea; simpl in H; simplify_eq.
  - destruct (IH _ _ _ H) as (? & Hl & ?). split_and!; [lia| |done].
    by replace (j - i)%nat with (S (j - S i)) by lia.
  - split_and!; [lia| |done]. by rewrite Nat.sub_diag.
Qed.

Lemma find_unused_None es i :
  find_unused es i = None ↔ Forall (λ e, in_use e = true) es.
Proof.
  revert i. induction es as [|a es IH]; intros i; simpl; [done|].
  destruct (in_use a) eqn:Ea; simpl; rewrite Forall_cons; [|naive_solver congruence].
  rewrite IH. naive_solver.
Qed.

Lemma resolve_spec p h k tp t i e :
  is_u32 h → tables_ok k →
  resolve (Some p) h k = Some (tp, t, i, e) ↔
  tp = handles p ∧ tp ≠ 0 ∧ tables k !! tp = Some t ∧ entries t !! i = Some e ∧
  in_use e = true ∧ h = KOS_MAKE_HANDLE (Z.of_nat i) (generation e).
Proof.
  intros Hh Hok. unfold resolve, KOS_INVALID_HANDLE. split.
  - destruct (Z.eqb_spec h 0); [done|]. destruct (Z.eqb_spec (handles p) 0); [done|].
    rewrite Z.geb_leb. destruct (Z.leb_spec KOS_HANDLE_TABLE_CAPACITY (KOS_HANDLE_INDEX h)); [done|].
    destruct (tables k !! handles p) as [t'|] eqn:Et; [|done].
    destruct (entries t' !! Z.to_nat (KOS_HANDLE_INDEX h)) as [e'|] eqn:Ee; [|done].
    destruct (in_use e') eqn:Eu; [|done]. simpl.
    destruct (Z.eqb_spec (generation e') (KOS_HANDLE_GEN h)) as [Eg|]; [|done].
    intros [= <- <- <- <-]. split_and!; try done.
    assert (0 ≤ KOS_HANDLE_INDEX h < 65536) by (rewrite handle_index_eq; zsolve).
    rewrite Z2Nat.id, Eg by lia. apply handle_decode; [done|lia| |done].
    rewrite handle_gen_eq. zsolve.
  - intros (-> & Hp & Et & Ee & Eu & Eh).
    pose proof (lookup_lt_Some _ _ _ Ee) as Hi. rewrite (tok_length t (Hok _ _ Et)) in Hi.
    pose proof (tok_entries t (Hok _ _ Et)) as Hes. rewrite Forall_lookup in Hes.
    destruct (Hes _ _ Ee) as (Hg & _ & _).
    assert (h ≠ 0) by (rewrite Eh, make_handle_eq by lia; lia).
    apply handle_decode in Eh as [Ei Eg]; [|done|lia|lia]. rewrite Ei, Eg, Nat2Z.id, Et, Ee, Eu.
    destruct (Z.eqb_spec h 0); [done|]. destruct (Z.eqb_spec (handles p) 0); [done|].
    unfold KOS_HANDLE_TABLE_CAPACITY. rewrite Z.geb_leb.
    destruct (Z.leb_spec 64 (Z.of_nat i)); [lia|]. simpl. by rewrite Z.eqb_refl.
Qed.

(** The entry in slot [i] of the table at [tp]. *)
Definition entry_at (k : kernel) (tp : Z) (i : nat) : option handle_entry :=
  tables k !! tp ≫= λ t, entries t !! i.

Lemma entry_at_with_table k tp t x j :
  entry_at (with_table k tp t) x j = if decide (tp = x) then entries t !! j else entry_at k x j.
Proof.
  unfold entry_at. simpl. destruct (decide (tp = x)) as [->|].
  - by rewrite lookup_insert_eq.
  - by rewrite lookup_insert_ne.
Qed.

(** [handle_lookup] depends only on the entry in the handle's slot. *)
Definition lookup_in (e : option handle_entry) (handle required_rights : Z) : Z :=
  match e with
  | Some e =>
      if in_use e && (generation e =? KOS_HANDLE_GEN handle)
         && (Z.land (rights e) required_rights =? required_rights) then object e else 0
  | None => 0
  end.

Lemma handle_lookup_eq p h req k :
  handle_lookup (Some p) h req k
  = if (h =? KOS_INVALID_HANDLE) || (handles p =? 0) || (KOS_HANDLE_INDEX h >=? KOS_HANDLE_TABLE_CAPACITY)
    then 0 else lookup_in (entry_at k (handles p) (Z.to_nat (KOS_HANDLE_INDEX h))) h req.
Proof.
  unfold handle_lookup, resolve, entry_at, lookup_in.
  destruct (h =? KOS_INVALID_HANDLE); [done|]. destruct (handles p =? 0); [done|].
  destruct (_ >=? _); [done|]. destruct (tables k !! handles p) as [t|]; [|done]. simpl.
  destruct (entries t !! _) as [e|]; [|done].
  destruct (in_use e), (generation e =? KOS_HANDLE_GEN h); simpl; try done.
  by destruct (Z.land (rights e) req =? req).
Qed.

(** The slot a successful [handle_create] fills. *)
Lemma handle_create_cases p obj rts k t :
  tables_ok k → handles p ≠ 0 → tables k !! handles p = Some t → obj ≠ 0 → is_u32 rts →
  (handle_create (Some p) obj rts k = (KOS_INVALID_HANDLE, k) ∧ Forall (λ e, in_use e = true) (entries t)) ∨
  ∃ i e, entries t !! i = Some e ∧ (i < 64)%nat ∧ in_use e = false ∧ 1 ≤ generation e ≤ 65535 ∧
    let t' := HandleTable (<[i := HandleEntry obj rts (generation e) true]> (entries t)) (count t + 1) in
    let k' := Kernel (<[handles p := t']> (tables k)) (kos_object_ref obj (objects k)) in
    handle_create (Some p) obj rts k = (KOS_MAKE_HANDLE (Z.of_nat i) (generation e), k') ∧
    tables_ok k' ∧ KOS_MAKE_HANDLE (Z.of_nat i) (generation e) ≠ 0.
Proof.
  intros Hok Hp Et Ho Hr. unfold handle_create. rewrite Et.
  destruct (Z.eqb_spec obj 0); [done|]. destruct (Z.eqb_spec (handles p) 0); [done|].
  destruct (find_unused (entries t) 0) as [[i e]|] eqn:Ef.
  - right. exists i, e. apply find_unused_Some in Ef as (_ & Ee & Eu).
    rewrite Nat.sub_0_r in Ee. pose proof (Hok _ _ Et) as [Hlen Hcount Hes].
    pose proof (lookup_lt_Some _ _ _ Ee) as Hi. rewrite Hlen in Hi.
    pose proof (Forall_lookup_1 _ _ _ _ Hes Ee) as (Hg & _ & _).
    pose proof (used_insert _ _ _ (HandleEntry obj rts (generation e) true) Ee) as Hu.
    rewrite Eu in Hu. simpl in Hu.
    pose proof (used_le (<[i := HandleEntry obj rts (generation e) true]> (entries t))) as Hle.
    rewrite length_insert, Hlen in Hle.
    destruct (Z.eqb_spec (generation e) 0); [lia|].
    rewrite u32_small by (unfold is_u32; lia).
    split_and!; [done|done|done|lia|lia|done| |rewrite make_handle_eq by lia; lia].
    apply map_Forall_insert_2; [|done]. split; simpl; [by rewrite length_insert|lia|].
    by apply Forall_insert.
  - left. split; [done|]. by eapply find_unused_None.
Qed.

(** on a well-formed table [handle_create] fails exactly when all 64 entries
    are in use, changing nothing; otherwise the handle it returns was not valid
    before, looks up to the object for exactly the requested subsets of the
    granted rights, and no other handle of any process changes its meaning;
    the object gains one reference. *)
Theorem handle_create_spec p obj rts k t :
  tables_ok k → handles p ≠ 0 → tables k !! handles p = Some t → obj ≠ 0 → is_u32 rts →
  let '(h, k') := handle_create (Some p) obj rts k in
  tables_ok k' ∧
  (h = KOS_INVALID_HANDLE ↔ Forall (λ e, in_use e = true) (entries t)) ∧
  (h = KOS_INVALID_HANDLE → k' = k) ∧
  (h ≠ KOS_INVALID_HANDLE →
    (∀ req, handle_lookup (Some p) h req k = 0) ∧
    (∀ req, handle_lookup (Some p) h req k' = if Z.land rts req =? req then obj else 0) ∧
    (∀ q h' req, is_u32 h' → handles q ≠ handles p ∨ h' ≠ h →
       handle_lookup (Some q) h' req k' = handle_lookup (Some q) h' req k) ∧
    objects k' = kos_object_ref obj (objects k)).
Proof.
  intros Hok Hp Et Ho Hr.
  destruct (handle_create_cases p obj rts k t Hok Hp Et Ho Hr)
    as [[-> Hfull]|(i & e & Ee & Hi & Eu & Hg & -> & Hok' & Hh)]; [by split_and!|].
  set (h := KOS_MAKE_HANDLE (Z.of_nat i) (generation e)) in *.
  set (t' := HandleTable _ _). set (k' := Kernel _ _) in *.
  assert (is_u32 h) as Hh32 by (apply make_handle_u32; lia).
  destruct (proj2 (handle_decode h (Z.of_nat i) (generation e) Hh32 ltac:(lia) ltac:(lia)) eq_refl)
    as [Ei Eg].
  assert (Hat : ∀ q j, entry_at k' q j = if decide (handles p = q) then entries t' !! j else entry_at k q j).
  { intros q j. rewrite <- entry_at_with_table. done. }
  assert (Hat0 : entry_at k (handles p) i = Some e) by (unfold entry_at; rewrite Et; done).
  assert (Hcap : (Z.of_nat i >=? KOS_HANDLE_TABLE_CAPACITY) = false)
    by (unfold KOS_HANDLE_TABLE_CAPACITY; lia).
  split_and!; [done| |done|].
  { split; [done|]. intros Hfull. pose proof (Forall_lookup_1 _ _ _ _ Hfull Ee). congruence. }
  intros _. split_and!; [..|done].
  - intros req. rewrite handle_lookup_eq, Ei, Nat2Z.id, Hat0, Hcap. unfold lookup_in. rewrite Eu.
    by destruct (_ || _).
  - intros req. rewrite handle_lookup_eq, Ei, Nat2Z.id, Hat, Hcap, decide_True by done.
    simpl. rewrite list_lookup_insert_eq by (rewrite (tok_length t (Hok _ _ Et)); lia). simpl.
    rewrite Eg, Z.eqb_refl. destruct (Z.eqb_spec h KOS_INVALID_HANDLE); [done|].
    destruct (Z.eqb_spec (handles p) 0); [done|]. done.
  - intros q h' req Hh' Hne. rewrite !handle_lookup_eq. destruct (_ || _) eqn:Eb; [done|].
    rewrite !orb_false_iff in Eb. destruct Eb as [_ Ecap].
    rewrite Hat. case_decide as Eq; [|done]. rewrite <- Eq in *.
    destruct Hne as [Hne|Hne]; [congruence|]. simpl.
    assert (0 ≤ KOS_HANDLE_INDEX h' < 65536) by (rewrite handle_index_eq; zsolve).
    destruct (decide (i = Z.to_nat (KOS_HANDLE_INDEX h'))) as [Eidx|Hidx].
    + rewrite <- Eidx, Hat0, list_lookup_insert_eq by (rewrite (tok_length t (Hok _ _ Et)); lia).
      unfold lookup_in. simpl. rewrite Eu.
      destruct (Z.eqb_spec (generation e) (KOS_HANDLE_GEN h')) as [Egen|]; [|done].
      destruct Hne. apply handle_decode; [done|lia|lia|]. split; [lia|done].
    + rewrite list_lookup_insert_ne by done. unfold entry_at. by rewrite Et.
Qed.

(** ** Closing *)

Lemma entry_at_Some k tp i e :
  entry_at k tp i = Some e ↔ ∃ t, tables k !! tp = Some t ∧ entries t !! i = Some e.
Proof. unfold entry_at. destruct (tables k !! tp); simpl; naive_solver. Qed.

Lemma handle_close_cases p h k :
  tables_ok k → is_u32 h →
  (handle_close (Some p) h k = (false, k) ∧ resolve (Some p) h k = None) ∨
  ∃ t i e, resolve (Some p) h k = Some (handles p, t, i, e) ∧
    tables k !! handles p = Some t ∧ entries t !! i = Some e ∧ in_use e = true ∧ object e ≠ 0 ∧
    1 ≤ generation e ≤ 65535 ∧ (i < 64)%nat ∧ h = KOS_MAKE_HANDLE (Z.of_nat i) (generation e) ∧
    let t' := HandleTable (<[i := closed_entry e]> (entries t)) (count t - 1) in
    let k' := Kernel (<[handles p := t']> (tables k)) (kos_object_unref (object e) (objects k)) in
    handle_close (Some p) h k = (true, k') ∧ tables_ok k'.
Proof.
  intros Hok Hh. unfold handle_close.
  destruct (resolve (Some p) h k) as [[[[tp t] i] e]|] eqn:Er; [|by left]. right.
  apply resolve_spec in Er as (-> & Hp & Et & Ee & Eu & Eh); [|done|done].
  pose proof (Hok _ _ Et) as [Hlen Hcount Hes].
  pose proof (Forall_lookup_1 _ _ _ _ Hes Ee) as (Hg & Hr & Hobj). specialize (Hobj Eu).
  pose proof (lookup_lt_Some _ _ _ Ee) as Hi. rewrite Hlen in Hi.
  pose proof (used_insert _ _ _ (closed_entry e) Ee) as Hu. rewrite Eu in Hu. simpl in Hu.
  rewrite Z.gtb_ltb. destruct (Z.ltb_spec 0 (count t)); [|lia].
  destruct (Z.eqb_spec (object e) 0); [done|]. simpl.
  exists t, i, e. split_and!; try done; try lia.
  apply map_Forall_insert_2; [|done]. split; simpl; [by rewrite length_insert|lia|].
  apply Forall_insert; [done|]. pose proof (next_generation_range _ Hg).
  split_and!; simpl; (lia || done).
Qed.

Lemma handle_create_keeps_generation p obj rts k :
  tables_ok k → is_u32 rts →
  let k' := (handle_create (Some p) obj rts k).2 in
  tables_ok k' ∧ ∀ tp i e, entry_at k tp i = Some e →
    ∃ e', entry_at k' tp i = Some e' ∧ generation e' = generation e.
Proof.
  intros Hok Hr. destruct (decide (obj = 0)) as [->|Ho]; [simpl; eauto|].
  destruct (decide (handles p = 0)) as [E|Hp].
  { unfold handle_create. rewrite E. destruct (obj =? 0); simpl; eauto. }
  destruct (tables k !! handles p) as [t|] eqn:Et.
  2:{ unfold handle_create. rewrite Et. destruct (obj =? 0), (handles p =? 0); simpl; eauto. }
  destruct (handle_create_cases p obj rts k t Hok Hp Et Ho Hr)
    as [[-> _]|(i & e & Ee & Hi & Eu & Hg & -> & Hok' & _)]; simpl; [by eauto|].
  split; [done|]. intros tp j e0 (t0 & Et0 & Ee0)%entry_at_Some.
  unfold entry_at. simpl.
  destruct (decide (handles p = tp)) as [<-|].
  - rewrite lookup_insert_eq. simplify_eq/=. destruct (decide (i = j)) as [<-|].
    + rewrite list_lookup_insert_eq by by eapply lookup_lt_Some. simplify_eq. eauto.
    + rewrite list_lookup_insert_ne by done. eauto.
  - rewrite lookup_insert_ne by done. rewrite Et0. simpl. eauto.
Qed.

(** [handle_duplicate] either changes nothing or is a [handle_create] between a
    temporary reference and its release. *)
Lemma handle_duplicate_cases s d h nr k :
  handle_duplicate (Some s) (Some d) h nr k = (KOS_INVALID_HANDLE, k) ∨
  ∃ tp t i e tr, resolve (Some s) h k = Some (tp, t, i, e) ∧
    Z.land (rights e) KOS_RIGHT_DUPLICATE ≠ 0 ∧ object e ≠ 0 ∧
    tr = (if negb (nr =? 0) then nr else rights e) ∧ Z.land tr (not32 (rights e)) = 0 ∧
    let k1 := with_objects k (kos_object_ref (object e) (objects k)) in
    let '(h', k2) := handle_create (Some d) (object e) tr k1 in
    handle_duplicate (Some s) (Some d) h nr k
    = (h', with_objects k2 (kos_object_unref (object e) (objects k2))).
Proof.
  unfold handle_duplicate. destruct (handles d =? 0); [by left|].
  destruct (resolve (Some s) h k) as [[[[tp t] i] e]|]; [|by left].
  destruct (Z.eqb_spec (Z.land (rights e) KOS_RIGHT_DUPLICATE) 0); [by left|].
  destruct (Z.eqb_spec (Z.land (if negb (nr =? 0) then nr else rights e) (not32 (rights e))) 0);
    [|by left]. simpl.
  destruct (Z.eqb_spec (object e) 0); [by left|]. right.
  exists tp, t, i, e, (if negb (nr =? 0) then nr else rights e).
  do 5 (split; [done|]). cbv zeta.
  by destruct (handle_create (Some d) (object e) (if negb (nr =? 0) then nr else rights e)
    (with_objects k (kos_object_ref (object e) (objects k)))) as [h' k2].
Qed.

Definition rights_ok (k : kernel) : Prop :=
  ∀ tp i e, entry_at k tp i = Some e → is_u32 (rights e).

Lemma tables_ok_rights k : tables_ok k → rights_ok k.
Proof.
  intros Hok tp i e (t & Et & Ee)%entry_at_Some.
  by apply (Forall_lookup_1 _ _ _ _ (tok_entries t (Hok _ _ Et)) Ee).
Qed.

(** Any sequence of handle operations by any processes; the index counts the
    times slot [i] of the table at [tp] is closed. *)
Inductive handle_trace (tp : Z) (i : nat) : nat → kernel → kernel → Prop :=
  | trace_refl k : handle_trace tp i 0 k k
  | trace_create n k k' p obj rts :
      is_u32 rts → handle_trace tp i n k k' →
      handle_trace tp i n k (handle_create (Some p) obj rts k').2
  | trace_duplicate n k k' s d h nr :
      is_u32 nr → is_u32 h → handle_trace tp i n k k' →
      handle_trace tp i n k (handle_duplicate (Some s) (Some d) h nr k').2
  | trace_close n k k' p h :
      is_u32 h → handle_trace tp i n k k' →
      handle_trace tp i
        ((match resolve (Some p) h k' with
          | Some (tp', _, i', _) => if decide (tp' = tp ∧ i' = i) then 1 else 0
          | None => 0
          end) + n) k (handle_close (Some p) h k').2.

Lemma handle_trace_generation tp i n k k' e :
  tables_ok k → handle_trace tp i n k k' → entry_at k tp i = Some e →
  tables_ok k' ∧ ∃ e', entry_at k' tp i = Some e' ∧
    generation e' = Nat.iter n next_generation (generation e).
Proof.
  intros Hok Htr He.
  induction Htr as [|n k k' p obj rts Hr _ IH|n k k' s d h nr Hnr Hh _ IH|n k k' p h Hh _ IH];
    [by eauto|..]; destruct (IH Hok He) as (Hok' & e' & He' & Hg); clear IH.
  - destruct (handle_create_keeps_generation p obj rts k' Hok' Hr) as [H1 H2].
    destruct (H2 _ _ _ He') as (e'' & ? & ?). split; [done|]. exists e''. by split; [|congruence].
  - destruct (handle_duplicate_cases s d h nr k') as [->|(tp' & t' & i' & es & tr & Er & _ & _ & Etr & _ & E)];
      [by eauto|].
    apply resolve_spec in Er as (_ & _ & Et' & Ees & _); [|done|done].
    assert (is_u32 tr) as Htr'.
    { subst tr. destruct (negb _); [done|]. apply (tables_ok_rights k' Hok' tp' i').
      apply entry_at_Some. eauto. }
    cbv zeta in E. set (k1 := with_objects k' _) in E.
    destruct (handle_create_keeps_generation d (object es) tr k1 Hok' Htr') as [H1 H2].
    destruct (H2 _ _ _ He') as (e'' & ? & ?).
    destruct (handle_create _ _ _ _) as [h' k2]. rewrite E. simpl in *.
    split; [done|]. exists e''. by split; [|congruence].
  - destruct (handle_close_cases p h k' Hok' Hh)
      as [[-> ->]|(t & j & ec & -> & Et & Ee & Eu & Ho & Hgc & Hj & _ & -> & Hok'')]; [by eauto|].
    split; [done|]. simpl. apply entry_at_Some in He' as (t0 & Et0 & Ee0).
    unfold entry_at. simpl. destruct (decide (handles p = tp)) as [Etp|Htp].
    + rewrite Etp in *. rewrite lookup_insert_eq. simplify_eq/=. destruct (decide (j = i)) as [->|].
      * rewrite decide_True by done. rewrite list_lookup_insert_eq by by eapply lookup_lt_Some.
        simplify_eq. eexists. split; [done|]. simpl. by rewrite Hg.
      * rewrite decide_False by tauto. rewrite list_lookup_insert_ne by done. eauto.
    + rewrite decide_False by tauto. rewrite lookup_insert_ne by done. rewrite Et0. simpl. eauto.
Qed.

(** C10: a closed handle is stale.  After [handle_close] succeeds, looking the
    handle up returns NULL, whatever handles are created, duplicated and closed
    afterwards by any process, as long as its slot is closed fewer than 65534
    further times (the generations then come around). *)
Theorem closed_handle_is_stale p h k k1 k2 n req :
  tables_ok k → is_u32 h → handle_close (Some p) h k = (true, k1) →
  handle_trace (handles p) (Z.to_nat (KOS_HANDLE_INDEX h)) n k1 k2 → Z.of_nat n < 65534 →
  handle_lookup (Some p) h req k2 = 0.
Proof.
  intros Hok Hh Hclose Htr Hn.
  destruct (handle_close_cases p h k Hok Hh)
    as [[? _]|(t & i & e & _ & Et & Ee & Eu & Ho & Hg & Hi & Eh & E & Hok1)]; [congruence|].
  rewrite E in Hclose. injection Hclose as <-.
  apply handle_decode in Eh as [Ei Eg]; [|done|lia|lia]. rewrite Ei, Nat2Z.id in Htr.
  eapply (handle_trace_generation _ _ _ _ _ (closed_entry e)) in Htr as (_ & e' & He' & Hge); [|done|].
  2:{ apply entry_at_Some. eexists. simpl. rewrite lookup_insert_eq. split; [done|]. simpl.
      by rewrite list_lookup_insert_eq by by eapply lookup_lt_Some. }
  rewrite handle_lookup_eq, Ei, Nat2Z.id, He'. simpl. rewrite Eg, Hge.
  assert (Nat.iter n next_generation (next_generation (generation e)) ≠ generation e) as Hne.
  { change (next_generation (generation e)) with (Nat.iter 1 next_generation (generation e)).
    rewrite <- Nat.iter_add, next_generation_iter by done. zsolve. }
  destruct (Z.eqb_spec (Nat.iter n next_generation (generation (closed_entry e))) (generation e)); [done|].
  rewrite andb_false_r. by destruct (_ || _).
Qed.


(** ** Reference counts *)

(** References to [o] held by the entries of a table, and by all tables. *)
Definition refs_in (o : Z) (es : list handle_entry) : nat :=
  length (filter (λ e, in_use e = true ∧ object e = o) es).

Definition total_refs (o : Z) (ts : gmap Z handle_table) : nat :=
  map_fold (λ _ t n, refs_in o (entries t) + n)%nat 0%nat ts.

Definition holds (o : Z) (e : handle_entry) : nat :=
  if decide (in_use e = true ∧ object e = o) then 1 else 0.

Lemma refs_in_cons o e es : refs_in o (e :: es) = (holds o e + refs_in o es)%nat.
Proof. unfold refs_in, holds. rewrite filter_cons. by case_decide. Qed.

Lemma refs_in_insert o es i e e' :
  es !! i = Some e → (refs_in o (<[i := e']> es) + holds o e = refs_in o es + holds o e')%nat.
Proof.
  revert i. induction es as [|a es IH]; intros [|i] He; simplify_eq/=.
  - rewrite !refs_in_cons. lia.
  - rewrite !refs_in_cons. specialize (IH i He). lia.
Qed.

Lemma total_refs_new o ts tp t :
  ts !! tp = None → total_refs o (<[tp := t]> ts) = (refs_in o (entries t) + total_refs o ts)%nat.
Proof. intros. unfold total_refs. rewrite map_fold_insert_L; [done|intros; lia|done]. Qed.

Lemma total_refs_delete o ts tp t :
  ts !! tp = Some t → (refs_in o (entries t) + total_refs o (delete tp ts) = total_refs o ts)%nat.
Proof.
  intros. rewrite <- (total_refs_new o (delete tp ts) tp t) by apply lookup_delete_eq.
  by rewrite insert_delete_id.
Qed.

Lemma total_refs_insert o ts tp t t' :
  ts !! tp = Some t →
  (total_refs o (<[tp := t']> ts) + refs_in o (entries t) = total_refs o ts + refs_in o (entries t'))%nat.
Proof.
  intros Ht. rewrite <- (total_refs_delete o ts tp t Ht).
  rewrite <- (insert_delete_eq ts tp t'), total_refs_new by apply lookup_delete_eq. lia.
Qed.

(** Replacing one entry changes the total by what the entries hold. *)
Lemma total_refs_set_entry o ts tp t i e e' n :
  ts !! tp = Some t → entries t !! i = Some e →
  (total_refs o (<[tp := HandleTable (<[i := e']> (entries t)) n]> ts) + holds o e
   = total_refs o ts + holds o e')%nat.
Proof.
  intros Ht He. pose proof (total_refs_insert o ts tp t (HandleTable (<[i := e']> (entries t)) n) Ht).
  pose proof (refs_in_insert o (entries t) i e e' He). simpl in *. lia.
Qed.

(** The invariant: every reference count is the number of references held
    outside the handle tables ([ext]) plus the number of handles. *)
Record kernel_inv (ext : Z → Z) (k : kernel) : Prop := {
  ki_tables : tables_ok k;
  ki_ext : ∀ o, 0 ≤ ext o;
  ki_refcount : ∀ o h, headers (objects k) !! o = Some h →
                  refcount h = ext o + Z.of_nat (total_refs o (tables k));
  ki_live : ∀ o, headers (objects k) !! o = None → total_refs o (tables k) = 0%nat
}.

(** [Z]-valued form of the reference counts after a change of one object. *)
Lemma kernel_inv_change ext k ts' os' :
  kernel_inv ext k → map_Forall (λ _ t, table_ok t) ts' →
  (∀ o, is_Some (headers os' !! o) ↔ is_Some (headers (objects k) !! o)) →
  (∀ o h h', headers (objects k) !! o = Some h → headers os' !! o = Some h' →
     refcount h' - refcount h = Z.of_nat (total_refs o ts') - Z.of_nat (total_refs o (tables k))) →
  (∀ o, headers (objects k) !! o = None → total_refs o ts' = total_refs o (tables k)) →
  kernel_inv ext (Kernel ts' os').
Proof.
  intros [H1 H2 H3 H4] Hok Hdom Hdiff Hnone. split; simpl; [done|done|..].
  - intros o h' Ho'. destruct (proj1 (Hdom o) (ex_intro _ h' Ho')) as [h Ho].
    specialize (Hdiff o h h' Ho Ho'). specialize (H3 o h Ho). lia.
  - intros o Ho'. assert (headers (objects k) !! o = None) as Ho.
    { rewrite eq_None_not_Some in *. by rewrite <- Hdom. }
    rewrite Hnone by done. by apply H4.
Qed.

Lemma is_Some_headers_ref o os x :
  is_Some (headers (kos_object_ref o os) !! x) ↔ is_Some (headers os !! x).
Proof. rewrite headers_ref. case_decide; [|done]. by rewrite fmap_is_Some. Qed.

Lemma is_Some_headers_unref o os x :
  is_Some (headers (kos_object_unref o os) !! x) ↔ is_Some (headers os !! x).
Proof. rewrite headers_unref. case_decide; [|done]. by rewrite fmap_is_Some. Qed.

Lemma handle_create_inv ext p obj rts k t hd :
  kernel_inv ext k → handles p ≠ 0 → tables k !! handles p = Some t → obj ≠ 0 → is_u32 rts →
  headers (objects k) !! obj = Some hd → refcount hd < 2147483647 →
  kernel_inv ext (handle_create (Some p) obj rts k).2.
Proof.
  intros Hinv Hp Et Ho Hr Hhd Hmax. pose proof (ki_tables _ _ Hinv) as Hok.
  destruct (handle_create_cases p obj rts k t Hok Hp Et Ho Hr)
    as [[-> _]|(i & e & Ee & Hi & Eu & Hg & -> & Hok' & _)]; [done|]. simpl.
  assert (Hh : ∀ o, holds o e = 0%nat).
  { intros o. unfold holds. rewrite decide_False; [done|]. rewrite Eu. by intros []. }
  assert (Htot : ∀ o, total_refs o (<[handles p := HandleTable
      (<[i := HandleEntry obj rts (generation e) true]> (entries t)) (count t + 1)]> (tables k))
      = (total_refs o (tables k) + if decide (obj = o) then 1 else 0)%nat).
  { intros o. pose proof (total_refs_set_entry o (tables k) (handles p) t i e
      (HandleEntry obj rts (generation e) true) (count t + 1) Et Ee) as H.
    rewrite Hh in H. unfold holds in H. simpl in H.
    destruct (decide (obj = o)); [rewrite decide_True in H by done|rewrite decide_False in H by tauto]; lia. }
  pose proof (ki_refcount _ _ Hinv _ _ Hhd). pose proof (ki_ext _ _ Hinv obj).
  apply (kernel_inv_change _ k); [done|done|apply is_Some_headers_ref| |].
  - intros o h h' Hh1 Hh2. rewrite headers_ref in Hh2. rewrite Htot.
    destruct (decide (obj = o)) as [<-|].
    + rewrite decide_True in Hh2 by done. rewrite Hh1 in Hh2, Hhd. simplify_eq/=.
      rewrite s32_small by lia. lia.
    + rewrite decide_False in Hh2 by tauto. simplify_eq. lia.
  - intros o Hnone. rewrite Htot. rewrite decide_False by congruence. lia.
Qed.

(** One more reference to [o] outside the tables. *)
Definition ext_add (o : Z) (ext : Z → Z) : Z → Z := λ x, if decide (o = x) then ext x + 1 else ext x.

(** No reference count is about to overflow its 32 bits. *)
Definition refs_bounded (k : kernel) : Prop :=
  ∀ o hd, headers (objects k) !! o = Some hd → refcount hd < 2147483646.

Lemma ref_inv ext o k :
  kernel_inv ext k → o ≠ 0 → refs_bounded k →
  kernel_inv (ext_add o ext) (with_objects k (kos_object_ref o (objects k))).
Proof.
  intros Hinv Ho Hb. destruct (Hinv) as [H1 H2 H3 H4]. split; simpl; [done|..].
  - intros x. unfold ext_add. specialize (H2 x). case_decide; lia.
  - intros x h' Hx. rewrite headers_ref in Hx. unfold ext_add. destruct (decide (o = x)) as [<-|].
    + rewrite decide_True in Hx by done. apply fmap_Some in Hx as (h & Hh & ->). simpl.
      specialize (H3 _ _ Hh). specialize (Hb _ _ Hh). specialize (H2 o). rewrite s32_small by lia. lia.
    + rewrite decide_False in Hx by tauto. by apply H3.
  - intros x Hx. apply H4. rewrite eq_None_not_Some in *. by rewrite is_Some_headers_ref in Hx.
Qed.

(** Dropping a reference held outside the tables; the destructor runs only if
    that was the last reference of any kind. *)
Lemma unref_inv ext ext' o k :
  kernel_inv ext' k → (∀ x, ext' x = ext_add o ext x) → (∀ x, 0 ≤ ext x) → o ≠ 0 →
  (∀ x hd, headers (objects k) !! x = Some hd → refcount hd < 2147483648) →
  let k' := with_objects k (kos_object_unref o (objects k)) in
  kernel_inv ext k' ∧
  (∀ x hd, headers (objects k') !! x = Some hd → refcount hd < 2147483648) ∧
  ∃ calls, destructor_calls (objects k') = destructor_calls (objects k) ++ calls ∧
    ∀ x, x ∈ calls → ext x = 0 ∧ total_refs x (tables k) = 0%nat.
Proof.
  intros [H1 H2 H3 H4] Hext Hpos Ho Hb. simpl.
  assert (Hrc : ∀ x hd, headers (kos_object_unref o (objects k)) !! x = Some hd →
            refcount hd = ext x + Z.of_nat (total_refs x (tables k))).
  { intros x h' Hx. rewrite headers_unref in Hx. destruct (decide (o = x)) as [<-|].
    - rewrite decide_True in Hx by done. apply fmap_Some in Hx as (h & Hh & ->). simpl.
      specialize (H3 _ _ Hh). specialize (Hb _ _ Hh). rewrite Hext in H3. unfold ext_add in H3.
      rewrite decide_True in H3 by done. specialize (Hpos o). rewrite s32_small by lia. lia.
    - rewrite decide_False in Hx by tauto. rewrite (H3 _ _ Hx), Hext. unfold ext_add.
      by rewrite decide_False. }
  split_and!.
  - split; simpl; [done|done|done|]. intros x Hx. apply H4.
    rewrite eq_None_not_Some in *. by rewrite is_Some_headers_unref in Hx.
  - intros x h' Hx. rewrite headers_unref in Hx. case_decide as Hd; [|by apply (Hb x)].
    apply fmap_Some in Hx as (h & Hh & ->). simpl. specialize (Hb _ _ Hh).
    specialize (H3 _ _ Hh). specialize (H2 x). rewrite s32_small by lia. lia.
  - rewrite destructor_calls_unref. eexists. split; [done|]. intros x Hx.
    destruct (headers (objects k) !! o) as [h|] eqn:E; [|by apply not_elem_of_nil in Hx].
    destruct (_ && _ && _) eqn:Ec; [|by apply not_elem_of_nil in Hx].
    apply list_elem_of_singleton in Hx as ->.
    rewrite !andb_true_iff, Z.eqb_eq in Ec. destruct Ec as [[_ Ez] _].
    assert (headers (kos_object_unref o (objects k)) !! o
      = Some (ObjectHeader (otype h) (s32 (refcount h - 1)) (has_destructor h))) as Eh.
    { rewrite headers_unref, decide_True by done. by rewrite E. }
    apply Hrc in Eh. simpl in Eh. specialize (Hpos o). lia.
Qed.

Lemma unref_all_inv objs : ∀ ext ext' k,
  kernel_inv ext' k → (∀ x, ext' x = ext x + Z.of_nat (length (filter (x =.) objs))) →
  (∀ x, 0 ≤ ext x) → Forall (λ o, o ≠ 0) objs →
  (∀ x hd, headers (objects k) !! x = Some hd → refcount hd < 2147483648) →
  let k' := with_objects k (foldl (λ os o, kos_object_unref o os) (objects k) objs) in
  kernel_inv ext k' ∧
  ∃ calls, destructor_calls (objects k') = destructor_calls (objects k) ++ calls ∧
    ∀ x, x ∈ calls → ext x = 0 ∧ total_refs x (tables k) = 0%nat.
Proof.
  induction objs as [|o objs IH]; intros ext ext' k Hinv Hext Hpos Hnz Hb k'.
  - split.
    + destruct Hinv as [H1 H2 H3 H4]. split; simpl; [done|done| |done].
      intros x h Hx. rewrite (H3 x h Hx), Hext. simpl. lia.
    + exists []. rewrite app_nil_r. split; [done|]. by intros x ?%not_elem_of_nil.
  - apply Forall_cons in Hnz as [Ho Hnz].
    set (ext1 := λ x, ext x + Z.of_nat (length (filter (x =.) objs))).
    destruct (unref_inv ext1 ext' o k) as (Hinv1 & Hb1 & c1 & Hc1 & Hz1); [done| | |done|done|].
    { intros x. rewrite Hext. unfold ext_add, ext1. rewrite filter_cons.
      destruct (decide (o = x)) as [->|]; [rewrite decide_True by done|rewrite decide_False by done];
        simpl; lia. }
    { intros x. unfold ext1. specialize (Hpos x). lia. }
    set (k1 := with_objects k (kos_object_unref o (objects k))) in *.
    destruct (IH ext ext1 k1 Hinv1) as (Hinv2 & c2 & Hc2 & Hz2); [done|done|done|done|].
    split; [exact Hinv2|]. exists (c1 ++ c2). split.
    + subst k'. simpl. simpl in Hc2. rewrite Hc2. simpl in Hc1. rewrite Hc1. by rewrite app_assoc.
    + intros x [Hx|Hx]%elem_of_app; [|by apply Hz2].
      destruct (Hz1 x Hx) as [He Ht]. split; [|done]. unfold ext1 in He. specialize (Hpos x). lia.
Qed.

(** What one step may do to the destructor log: append objects to which no
    reference of any kind is left. *)
Definition only_dead_destroyed (ext : Z → Z) (k k' : kernel) : Prop :=
  ∃ calls, destructor_calls (objects k') = destructor_calls (objects k) ++ calls ∧
    ∀ x, x ∈ calls → ext x = 0 ∧ total_refs x (tables k') = 0%nat.

Lemma only_dead_destroyed_same ext k k' :
  destructor_calls (objects k') = destructor_calls (objects k) → only_dead_destroyed ext k k'.
Proof. exists []. rewrite app_nil_r. split; [done|]. by intros x ?%not_elem_of_nil. Qed.

Lemma handle_close_inv ext p h k :
  kernel_inv ext k → is_u32 h → refs_bounded k →
  let k' := (handle_close (Some p) h k).2 in kernel_inv ext k' ∧ only_dead_destroyed ext k k'.
Proof.
  intros Hinv Hh Hb. pose proof (ki_tables _ _ Hinv) as Hok.
  destruct (handle_close_cases p h k Hok Hh)
    as [[-> _]|(t & i & e & _ & Et & Ee & Eu & Ho & Hg & Hi & _ & -> & Hok')]; simpl.
  { split; [done|]. by apply only_dead_destroyed_same. }
  set (ts' := <[handles p := _]> (tables k)).
  assert (Htot : ∀ o, (total_refs o ts' + (if decide (object e = o) then 1 else 0)
                       = total_refs o (tables k))%nat).
  { intros o. pose proof (total_refs_set_entry o (tables k) (handles p) t i e
      (closed_entry e) (count t - 1) Et Ee) as H.
    assert (holds o (closed_entry e) = 0%nat) as H0 by done. rewrite H0 in H. unfold holds in H.
    fold ts' in H.
    destruct (decide (object e = o)); [rewrite decide_True in H by done|rewrite decide_False in H by tauto];
      lia. }
  assert (kernel_inv (ext_add (object e) ext) (Kernel ts' (objects k))) as Hinv1.
  { destruct Hinv as [H1 H2 H3 H4]. split; simpl; [done|..].
    - intros o. unfold ext_add. specialize (H2 o). case_decide; lia.
    - intros o hd Hhd. rewrite (H3 _ _ Hhd). specialize (Htot o). unfold ext_add. case_decide; lia.
    - intros o Hnone. specialize (H4 _ Hnone). specialize (Htot o). lia. }
  destruct (unref_inv ext _ (object e) _ Hinv1) as (H1 & _ & H2); [done|apply Hinv|done| |].
  { intros x hd Hx. specialize (Hb x hd Hx). lia. }
  split; [exact H1|exact H2].
Qed.

Lemma handle_duplicate_inv ext s d h nr k td :
  kernel_inv ext k → is_u32 h → is_u32 nr → refs_bounded k →
  handles d ≠ 0 → tables k !! handles d = Some td →
  let k' := (handle_duplicate (Some s) (Some d) h nr k).2 in
  kernel_inv ext k' ∧ only_dead_destroyed ext k k'.
Proof.
  intros Hinv Hh Hnr Hb Hd Etd. pose proof (ki_tables _ _ Hinv) as Hok.
  destruct (handle_duplicate_cases s d h nr k) as [->|(tp & t & i & e & tr & Er & _ & Ho & Etr & _ & E)].
  { split; [done|]. by apply only_dead_destroyed_same. }
  apply resolve_spec in Er as (_ & _ & Et & Ee & Eu & _); [|done|done].
  assert (is_u32 tr) as Htr.
  { subst tr. destruct (negb _); [done|]. apply (tables_ok_rights k Hok tp i).
    apply entry_at_Some. eauto. }
  assert (is_Some (headers (objects k) !! object e)) as [hd Hhd].
  { destruct (headers (objects k) !! object e) eqn:En; [done|].
    pose proof (ki_live _ _ Hinv _ En) as Hz.
    pose proof (total_refs_set_entry (object e) (tables k) tp t i e (closed_entry e) 0 Et Ee) as H.
    unfold holds in H. rewrite decide_True in H by done. simpl in H. lia. }
  pose proof (ref_inv ext (object e) k Hinv Ho Hb) as Hinv1. cbv zeta in E.
  set (k1 := with_objects k (kos_object_ref (object e) (objects k))) in *.
  assert (headers (objects k1) !! object e
    = Some (ObjectHeader (otype hd) (refcount hd + 1) (has_destructor hd))) as Hhd1.
  { simpl. rewrite headers_ref, decide_True, Hhd by done. simpl.
    pose proof (Hb _ _ Hhd). pose proof (ki_refcount _ _ Hinv _ _ Hhd). pose proof (ki_ext _ _ Hinv (object e)).
    by rewrite s32_small by lia. }
  pose proof (handle_create_inv _ d (object e) tr k1 td _ Hinv1 Hd Etd Ho Htr Hhd1) as Hinv2.
  assert (destructor_calls (objects (handle_create (Some d) (object e) tr k1).2)
          = destructor_calls (objects k)) as Hcalls.
  { destruct (handle_create_cases d (object e) tr k1 td (ki_tables _ _ Hinv1) Hd Etd Ho Htr)
      as [[-> _]|(j & e' & _ & _ & _ & _ & -> & _)]; simpl; by rewrite ?destructor_calls_ref. }
  assert (∀ x hx, headers (objects (handle_create (Some d) (object e) tr k1).2) !! x = Some hx →
            refcount hx < 2147483648) as Hb2.
  { intros x hx. destruct (handle_create_cases d (object e) tr k1 td (ki_tables _ _ Hinv1) Hd Etd Ho Htr)
      as [[-> _]|(j & e' & _ & _ & _ & _ & -> & _)]; simpl; rewrite ?headers_ref;
      (destruct (decide (object e = x ∧ object e ≠ 0)) as [[<- _]|]; [rewrite Hhd; simpl|intros Hx;
        specialize (Hb _ _ Hx); lia]);
      pose proof (Hb _ _ Hhd); pose proof (ki_refcount _ _ Hinv _ _ Hhd);
      pose proof (ki_ext _ _ Hinv (object e)); intros [= <-]; simpl; rewrite !s32_small by
        (rewrite ?s32_small by lia; lia); lia. }
  specialize (Hinv2 ltac:(simpl; pose proof (Hb _ _ Hhd); lia)).
  destruct (handle_create (Some d) (object e) tr k1) as [h' k2]. rewrite E. simpl in *.
  destruct (unref_inv ext _ (object e) k2 Hinv2) as (H1 & _ & c & H2 & H3);
    [done|apply Hinv|done|done|].
  split; [exact H1|]. exists c. by rewrite <- Hcalls.
Qed.

Lemma destroy_entries_spec es :
  Forall entry_ok es →
  Forall (λ o, o ≠ 0) (destroy_entries es).2 ∧
  ∀ o, length (filter (o =.) (destroy_entries es).2) = refs_in o es.
Proof.
  induction es as [|e es IH]; intros Hes; simpl; [done|].
  apply Forall_cons in Hes as [(_ & _ & He) Hes]. destruct (IH Hes) as [H1 H2].
  destruct (destroy_entries es) as [es' objs]. simpl in *.
  destruct (in_use e) eqn:Eu; simpl.
  - destruct (Z.eqb_spec (object e) 0) as [|Ho]; [by destruct He|]. simpl.
    split; [by constructor|]. intros o. rewrite refs_in_cons, <- H2, filter_cons. unfold holds.
    rewrite Eu. destruct (decide (o = object e)) as [->|].
    + by rewrite decide_True.
    + by rewrite decide_False by naive_solver.
  - split; [done|]. intros o. rewrite refs_in_cons, <- H2. unfold holds.
    rewrite decide_False by (rewrite Eu; by intros []). done.
Qed.

Lemma handle_table_destroy_inv ext tp k :
  kernel_inv ext k → refs_bounded k →
  let k' := handle_table_destroy tp k in kernel_inv ext k' ∧ only_dead_destroyed ext k k'.
Proof.
  intros Hinv Hb. unfold handle_table_destroy.
  destruct (Z.eqb_spec tp 0). { split; [done|]. by apply only_dead_destroyed_same. }
  destruct (tables k !! tp) as [t|] eqn:Et. 2:{ split; [done|]. by apply only_dead_destroyed_same. }
  destruct (destroy_entries_spec (entries t)) as [Hnz Hcount].
  { apply (tok_entries t). by apply (ki_tables _ _ Hinv tp). }
  destruct (destroy_entries (entries t)) as [es objs]. simpl in *.
  replace (delete tp (<[tp := HandleTable es 0]> (tables k))) with (delete tp (tables k))
    by (by rewrite delete_insert_eq).
  assert (Hdel : ∀ o, (refs_in o (entries t) + total_refs o (delete tp (tables k))
                       = total_refs o (tables k))%nat) by (intros; by apply total_refs_delete).
  set (k0 := Kernel (delete tp (tables k)) (objects k)).
  assert (kernel_inv (λ o, ext o + Z.of_nat (refs_in o (entries t))) k0) as Hinv0.
  { destruct Hinv as [H1 H2 H3 H4]. split; simpl.
    - by apply map_Forall_delete.
    - intros o. specialize (H2 o). lia.
    - intros o hd Hhd. rewrite (H3 _ _ Hhd), <- Hdel. lia.
    - intros o Hnone. specialize (H4 _ Hnone). specialize (Hdel o). lia. }
  destruct (unref_all_inv objs ext _ k0 Hinv0) as (H1 & c & H2 & H3); [|apply Hinv|done| |].
  - intros o. by rewrite Hcount.
  - intros x hd Hx. specialize (Hb x hd Hx). lia.
  - split; [exact H1|]. by exists c.
Qed.

(** duplication cannot amplify rights.  When [handle_duplicate] returns a
    handle, the source handle was valid and had the DUPLICATE right, and the new
    handle designates the same object in the destination process with rights
    that are a subset of the source's (exactly the source's when 0 was
    requested); when it fails, no table has changed. *)
Theorem handle_duplicate_attenuates s d h nr k td :
  tables_ok k → is_u32 h → is_u32 nr → handles d ≠ 0 → tables k !! handles d = Some td →
  let '(h', k') := handle_duplicate (Some s) (Some d) h nr k in
  tables_ok k' ∧
  (h' = KOS_INVALID_HANDLE → tables k' = tables k) ∧
  (h' ≠ KOS_INVALID_HANDLE →
   ∃ i e, entry_at k (handles s) i = Some e ∧ h = KOS_MAKE_HANDLE (Z.of_nat i) (generation e) ∧
     in_use e = true ∧ Z.land (rights e) KOS_RIGHT_DUPLICATE ≠ 0 ∧
     ∃ r, (nr = 0 → r = rights e) ∧ (nr ≠ 0 → r = nr) ∧ Z.land r (rights e) = r ∧
       ∀ req, handle_lookup (Some d) h' req k' = if Z.land r req =? req then object e else 0).
Proof.
  intros Hok Hh Hnr Hd Etd.
  destruct (handle_duplicate_cases s d h nr k) as [->|(tp & t & i & e & tr & Er & Hdup & Ho & Etr & Hsub & E)];
    [by split_and!|].
  apply resolve_spec in Er as (-> & _ & Et & Ee & Eu & Eh); [|done|done].
  assert (is_u32 tr) as Htr.
  { subst tr. destruct (negb _); [done|]. apply (tables_ok_rights k Hok (handles s) i).
    apply entry_at_Some. eauto. }
  apply land_not32_zero in Hsub; [|done]. cbv zeta in E.
  set (k1 := with_objects k (kos_object_ref (object e) (objects k))) in *.
  destruct (handle_create_cases d (object e) tr k1 td Hok Hd Etd Ho Htr)
    as [[Ec _]|(j & e' & Ej & Hj & _ & Hg & Ec & Hok' & Hne)]; rewrite Ec in E; rewrite E; [by split_and!|].
  split_and!; [done|done|]. intros _. exists i, e. split_and!; [apply entry_at_Some; eauto|done|done|done|].
  exists tr. split_and!; [| |done|].
  { intros ->. by rewrite Etr. } { intros ?. rewrite Etr. by destruct (Z.eqb_spec nr 0). }
  intros req. rewrite handle_lookup_eq. set (h' := KOS_MAKE_HANDLE (Z.of_nat j) (generation e')) in *.
  assert (0 ≤ Z.of_nat j < 65536) as Hj' by lia.
  assert (0 ≤ generation e' < 65536) as Hg' by lia.
  assert (is_u32 h') as Hh' by (apply make_handle_u32; lia).
  destruct (proj2 (handle_decode h' (Z.of_nat j) (generation e') Hh' Hj' Hg') eq_refl) as [Ei Eg].
  rewrite Ei, Nat2Z.id. unfold KOS_HANDLE_TABLE_CAPACITY. rewrite Z.geb_leb.
  destruct (Z.eqb_spec h' KOS_INVALID_HANDLE); [done|]. destruct (Z.eqb_spec (handles d) 0); [done|].
  destruct (Z.leb_spec 64 (Z.of_nat j)); [lia|]. simpl. unfold entry_at. simpl.
  rewrite lookup_insert_eq. simpl. rewrite list_lookup_insert_eq by by eapply lookup_lt_Some.
  simpl. by rewrite Eg, Z.eqb_refl.
Qed.

(** One operation on handles, by any processes with a live table. *)
Inductive handle_step : kernel → kernel → Prop :=
  | step_create k p obj rts t hd :
      handles p ≠ 0 → tables k !! handles p = Some t → obj ≠ 0 → is_u32 rts →
      headers (objects k) !! obj = Some hd → handle_step k (handle_create (Some p) obj rts k).2
  | step_close k p h : is_u32 h → handle_step k (handle_close (Some p) h k).2
  | step_duplicate k s d h nr td :
      is_u32 h → is_u32 nr → handles d ≠ 0 → tables k !! handles d = Some td →
      handle_step k (handle_duplicate (Some s) (Some d) h nr k).2
  | step_destroy k tp : handle_step k (handle_table_destroy tp k).

(** C9: reference counting is exact.  If every reference count equals the
    references held outside the tables plus the handles to the object, then it
    still does after any handle operation (creating, closing, duplicating, and
    destroying a whole table); and an operation runs the destructor of an object
    only when no handle in any table and no outside reference to it is left. *)
Theorem handle_refcounts_exact ext k k' :
  kernel_inv ext k → refs_bounded k → handle_step k k' →
  kernel_inv ext k' ∧ only_dead_destroyed ext k k'.
Proof.
  intros Hinv Hb Hs. destruct Hs as [k p obj rts t hd Hp Et Ho Hr Hhd|k p h Hh|k s d h nr td Hh Hnr Hd Etd|k tp].
  - pose proof (Hb _ _ Hhd) as Hlt.
    split; [apply (handle_create_inv ext p obj rts k t hd Hinv Hp Et Ho Hr Hhd); lia|].
    apply only_dead_destroyed_same.
    destruct (handle_create_cases p obj rts k t (ki_tables _ _ Hinv) Hp Et Ho Hr)
      as [[-> _]|(j & e' & _ & _ & _ & _ & -> & _)]; simpl; by rewrite ?destructor_calls_ref.
  - by apply handle_close_inv.
  - exact (handle_duplicate_inv ext s d h nr k td Hinv Hh Hnr Hb Hd Etd).
  - by apply handle_table_destroy_inv.
Qed.

(** ** Witnesses: one process with an empty table, one event object *)

Definition sample_kernel : kernel :=
  Kernel {[4096 := HandleTable (replicate 64 empty_entry) 0]}
    (ObjectStore {[8192 := ObjectHeader KOS_OBJ_EVENT 1 true]} []).
Definition sample_process : process := Process 4096.

Lemma sample_table_ok : table_ok (HandleTable (replicate 64 empty_entry) 0).
Proof. split; [done|done|]. apply Forall_replicate. unfold entry_ok, is_u32. simpl. split_and!; done. Qed.

Lemma sample_tables_ok : tables_ok sample_kernel.
Proof. apply map_Forall_singleton. apply sample_table_ok. Qed.

Lemma sample_kernel_inv : kernel_inv (λ o, if decide (o = 8192) then 1 else 0) sample_kernel.
Proof.
  assert (∀ o, total_refs o (tables sample_kernel) = 0%nat) as Hz.
  { intros o. change (tables sample_kernel)
      with (<[4096 := HandleTable (replicate 64 empty_entry) 0]> (∅ : gmap Z handle_table)).
    by rewrite total_refs_new. }
  split; [apply sample_tables_ok|intros; by case_decide| |by intros; apply Hz].
  intros o h Ho. rewrite Hz. simpl in Ho. apply lookup_singleton_Some in Ho as [<- <-]. done.
Qed.

Lemma sample_bounded : refs_bounded sample_kernel.
Proof. intros o h Ho. simpl in Ho. apply lookup_singleton_Some in Ho as [<- <-]. done. Qed.

Lemma handle_create_spec_witness :
  (handle_create (Some sample_process) 8192 24 sample_kernel).1 = 65536 ∧
  tables_ok (handle_create (Some sample_process) 8192 24 sample_kernel).2.
Proof.
  split; [reflexivity|].
  pose proof (handle_create_spec sample_process 8192 24 sample_kernel _ sample_tables_ok
    ltac:(done) eq_refl ltac:(done) ltac:(done)) as H.
  destruct (handle_create _ _ _ _). apply H.
Defined.

Lemma closed_handle_is_stale_witness :
  let k := (handle_create (Some sample_process) 8192 24 sample_kernel).2 in
  let k1 := (handle_close (Some sample_process) 65536 k).2 in
  let k2 := (handle_create (Some sample_process) 8192 24 k1).2 in
  handle_lookup (Some sample_process) 65536 8 k = 8192 ∧
  handle_lookup (Some sample_process) 65536 8 k2 = 0 ∧
  handle_lookup (Some sample_process) 131072 8 k2 = 8192.
Proof.
  intros k k1 k2. split_and!; [reflexivity| |reflexivity].
  apply (closed_handle_is_stale sample_process 65536 k k1 k2 0 8).
  - apply (handle_create_keeps_generation sample_process 8192 24 sample_kernel sample_tables_ok). done.
  - done.
  - reflexivity.
  - apply trace_create; [done|apply trace_refl].
  - lia.
Defined.

Lemma handle_duplicate_attenuates_witness :
  let k := (handle_create (Some sample_process) 8192 56 sample_kernel).2 in
  (handle_duplicate (Some sample_process) (Some sample_process) 65536 8 k).1 = 65537 ∧
  tables_ok (handle_duplicate (Some sample_process) (Some sample_process) 65536 8 k).2 ∧
  (handle_duplicate (Some sample_process) (Some sample_process) 65536 9 k).1 = 0.
Proof.
  intros k. split_and!; [reflexivity| |reflexivity].
  pose proof (handle_duplicate_attenuates sample_process sample_process 65536 8 k _
    (proj1 (handle_create_keeps_generation sample_process 8192 56 sample_kernel sample_tables_ok ltac:(done)))
    ltac:(done) ltac:(done) ltac:(done) eq_refl) as H.
  destruct (handle_duplicate _ _ _ _ _). apply H.
Defined.

Lemma handle_refcounts_exact_witness :
  let k := (handle_create (Some sample_process) 8192 56 sample_kernel).2 in
  kernel_inv (λ o, if decide (o = 8192) then 1 else 0) k ∧
  kos_object_get_refcount 8192 (objects k) = 2.
Proof.
  intros k. split; [|reflexivity].
  apply (handle_refcounts_exact (λ o, if decide (o = 8192) then 1 else 0) sample_kernel k
    sample_kernel_inv sample_bounded).
  eapply step_create; [done|reflexivity|done|done|reflexivity].
Defined.
