(* ===== verification/Vmm.v ===== *)
(** * Virtual memory manager (src/mm/vmm.c)

    Four-level x86-64 page tables reached through the higher-half direct map.
    Memory is a map from the virtual address of a 64-bit word to its value;
    [physical_to_virtual] adds the direct-map offset, so every access below goes
    through the same address arithmetic as the C code.  Frames come from an
    abstract [FrameAllocator]; [cr3] and the log of [invlpg] instructions stand
    for the CPU.  The bodies are the critical sections of [vmm_lock]. *)

From S2P Require Import Prelude Interfaces.
From Stdlib Require Import ZArith Lia.
From stdpp Require Import gmap.
#[local] Open Scope Z_scope.

(** ** Data *)

Definition PAGE_SIZE : Z := 4096.
Definition PAGE_PRESENT : Z := 1.
Definition PAGE_USER : Z := 4.
Definition PAGE_HUGE : Z := 128.
Definition PAGE_KOS_OWNED_TABLE : Z := 512.
Definition PAGE_KOS_OWNED_MAPPING : Z := 1024.
Definition PAGE_ADDRESS_MASK : Z := 0x000ffffffffff000.
Definition PAGE_2M_ADDRESS_MASK : Z := 0x000fffffffe00000.
Definition PAGE_1G_ADDRESS_MASK : Z := 0x000fffffc0000000.
Definition VMM_PAGE_WRITABLE : Z := 2.
Definition VMM_PAGE_USER : Z := 4.
Definition VMM_PAGE_NO_EXECUTE : Z := 0x8000000000000000.
Definition VMM_PERMISSIONS : Z :=
  Z.lor (Z.lor VMM_PAGE_WRITABLE VMM_PAGE_USER) VMM_PAGE_NO_EXECUTE.
Definition USER_LIMIT : Z := 0x0000800000000000.
Definition KERNEL_BASE : Z := 0xffff800000000000.

Record vmm_state (PM : Type) := VmmState {
  hhdm_offset : Z;
  pml4 : Z;
  kernel_pml4_phys : Z;
  initialized : bool;
  words : gmap Z Z;
  frames : PM;
  cr3 : Z;
  invalidated : list Z;
}.
Arguments VmmState {_}.
Arguments hhdm_offset {_}. Arguments pml4 {_}. Arguments kernel_pml4_phys {_}.
Arguments initialized {_}. Arguments words {_}. Arguments frames {_}.
Arguments cr3 {_}. Arguments invalidated {_}.

(** ** Operations *)

Section operations.
Context {PM : Type} `{FA : FrameAllocator PM}.
Implicit Types s : vmm_state PM.

Definition load (a : Z) s : Z := get0 (words s) a.

Definition store (a v : Z) s : vmm_state PM :=
  VmmState (hhdm_offset s) (pml4 s) (kernel_pml4_phys s) (initialized s)
    (<[a := v]> (words s)) (frames s) (cr3 s) (invalidated s).

Definition with_frames (pm : PM) s : vmm_state PM :=
  VmmState (hhdm_offset s) (pml4 s) (kernel_pml4_phys s) (initialized s)
    (words s) pm (cr3 s) (invalidated s).

Definition cpu_write_cr3 (v : Z) s : vmm_state PM :=
  VmmState (hhdm_offset s) (pml4 s) (kernel_pml4_phys s) (initialized s)
    (words s) (frames s) v (invalidated s).

Definition cpu_invalidate_page (va : Z) s : vmm_state PM :=
  VmmState (hhdm_offset s) (pml4 s) (kernel_pml4_phys s) (initialized s)
    (words s) (frames s) (cr3 s) (invalidated s ++ [va]).

Definition allocate_frame s : Z * vmm_state PM :=
  let '(frame, pm) := fa_allocate (frames s) in (frame, with_frames pm s).

Definition free_frame (frame : Z) s : bool * vmm_state PM :=
  let '(ok, pm) := fa_release frame (frames s) in (ok, with_frames pm s).

Definition physical_to_virtual (physical_address : Z) s : Z :=
  u64 (hhdm_offset s + physical_address).

Definition vmm_virtual_to_physical (virtual_address : Z) s : Z :=
  u64 (virtual_address - hhdm_offset s).

(** [&table[index]] for a [uint64_t *]. *)
Definition slot (table index : Z) : Z := u64 (table + 8 * index).

Definition page_table_index (virtual_address shift : Z) : Z :=
  Z.land (Z.shiftr virtual_address shift) 0x1ff.

Fixpoint clear_page_table (table : Z) (n : nat) (index : Z) s : vmm_state PM :=
  match n with
  | O => s
  | S n => clear_page_table table n (index + 1) (store (slot table index) 0 s)
  end.

Fixpoint page_table_is_empty (table : Z) (n : nat) (index : Z) s : bool :=
  match n with
  | O => true
  | S n =>
      if negb (Z.land (load (slot table index) s) PAGE_PRESENT =? 0) then false
      else page_table_is_empty table n (index + 1) s
  end.

Definition release_owned_empty_table (entry : Z) s : bool * vmm_state PM :=
  let value := load entry s in
  let owned := Z.lor PAGE_PRESENT PAGE_KOS_OWNED_TABLE in
  if negb (Z.land value owned =? owned) then (false, s)
  else
    let table := physical_to_virtual (Z.land value PAGE_ADDRESS_MASK) s in
    if negb (page_table_is_empty table 512 0 s) then (false, s)
    else
      let s := store entry 0 s in
      free_frame (Z.land value PAGE_ADDRESS_MASK) s.

Definition public_page_flags (flags : Z) : Z :=
  Z.land flags (not64 (Z.lor PAGE_KOS_OWNED_TABLE PAGE_KOS_OWNED_MAPPING)).

Definition combine_effective_flags (parent_flags entry : Z) : Z :=
  let result := entry in
  let result := if Z.land parent_flags VMM_PAGE_WRITABLE =? 0
                then Z.land result (not64 VMM_PAGE_WRITABLE) else result in
  let result := if Z.land parent_flags VMM_PAGE_USER =? 0
                then Z.land result (not64 VMM_PAGE_USER) else result in
  let result := if negb (Z.land parent_flags VMM_PAGE_NO_EXECUTE =? 0)
                then Z.lor result VMM_PAGE_NO_EXECUTE else result in
  result.

(** Returns the table (0 for NULL), whether it was created, and the state. *)
Definition next_table (entry virtual_address flags : Z) s : Z * bool * vmm_state PM :=
  let is_user := (virtual_address <? USER_LIMIT) || negb (Z.land flags VMM_PAGE_USER =? 0) in
  if negb (Z.land (load entry s) PAGE_PRESENT =? 0) then
    if negb (Z.land (load entry s) PAGE_HUGE =? 0) then (0, false, s)
    else
      let s := if is_user then store entry (Z.lor (load entry s) PAGE_USER) s else s in
      (physical_to_virtual (Z.land (load entry s) PAGE_ADDRESS_MASK) s, false, s)
  else
    let '(frame, s) := allocate_frame s in
    if frame =? 0 then (0, false, s)
    else
      let table := physical_to_virtual frame s in
      let s := clear_page_table table 512 0 s in
      let entry_flags :=
        Z.lor (Z.lor (Z.lor frame PAGE_PRESENT) VMM_PAGE_WRITABLE) PAGE_KOS_OWNED_TABLE in
      let entry_flags := if is_user then Z.lor entry_flags PAGE_USER else entry_flags in
      (table, true, store entry entry_flags s).

(** [if (created) release_owned_empty_table(entry);] *)
Definition rollback (created : bool) (entry : Z) s : vmm_state PM :=
  if created then (release_owned_empty_table entry s).2 else s.

(** [if ((cpu_read_cr3() & PAGE_ADDRESS_MASK) == pml4_phys) cpu_invalidate_page(va);] *)
Definition invalidate_if_current (pml4_phys va : Z) s : vmm_state PM :=
  if Z.land (cr3 s) PAGE_ADDRESS_MASK =? pml4_phys then cpu_invalidate_page va s else s.

(** The guards of [vmm_map_page_in] before the lock is taken. *)
Definition map_arguments_ok (pml4_phys virtual_address physical_address flags : Z) : bool :=
  if negb (virtual_address mod PAGE_SIZE =? 0) || negb (physical_address mod PAGE_SIZE =? 0)
     || (pml4_phys =? 0) || negb (pml4_phys mod PAGE_SIZE =? 0)
     || negb (Z.land flags (not64 VMM_PERMISSIONS) =? 0) then false
  else if negb (Z.land flags VMM_PAGE_USER =? 0) && (virtual_address >=? USER_LIMIT) then false
  else if (virtual_address >=? USER_LIMIT) && (virtual_address <? KERNEL_BASE) then false
  else true.

Definition vmm_map_page_in (pml4_phys virtual_address physical_address flags : Z) s
  : bool * vmm_state PM :=
  if negb (map_arguments_ok pml4_phys virtual_address physical_address flags) then (false, s)
  else if negb (initialized s) then (false, s)
  else
    let target_pml4 := physical_to_virtual pml4_phys s in
    let pml4_entry := slot target_pml4 (page_table_index virtual_address 39) in
    let '(pdpt, pml4_table_created, s) := next_table pml4_entry virtual_address flags s in
    if pdpt =? 0 then (false, s)
    else
      let pdpt_entry := slot pdpt (page_table_index virtual_address 30) in
      let '(directory, pdpt_table_created, s) := next_table pdpt_entry virtual_address flags s in
      if directory =? 0 then (false, rollback pml4_table_created pml4_entry s)
      else
        let directory_entry := slot directory (page_table_index virtual_address 21) in
        let '(table, directory_table_created, s) := next_table directory_entry virtual_address flags s in
        if table =? 0 then
          let s := rollback pdpt_table_created pdpt_entry s in
          (false, rollback pml4_table_created pml4_entry s)
        else
          let entry := slot table (page_table_index virtual_address 12) in
          if negb (Z.land (load entry s) PAGE_PRESENT =? 0) then
            let s := rollback directory_table_created directory_entry s in
            let s := rollback pdpt_table_created pdpt_entry s in
            (false, rollback pml4_table_created pml4_entry s)
          else
            let s := store entry
              (Z.lor (Z.lor (Z.lor (Z.land physical_address PAGE_ADDRESS_MASK) PAGE_PRESENT)
                            PAGE_KOS_OWNED_MAPPING) flags) s in
            (true, invalidate_if_current pml4_phys virtual_address s).

Definition vmm_map_page (virtual_address physical_address flags : Z) s : bool * vmm_state PM :=
  vmm_map_page_in (kernel_pml4_phys s) virtual_address physical_address flags s.

(** [Some (physical_address, flags)] when the C function returns true. *)
Definition vmm_query_page_in (pml4_phys virtual_address : Z) s : option (Z * Z) :=
  if (pml4_phys =? 0) || negb (pml4_phys mod PAGE_SIZE =? 0) then None
  else if negb (initialized s) then None
  else
    let target_pml4 := physical_to_virtual pml4_phys s in
    let entry := load (slot target_pml4 (page_table_index virtual_address 39)) s in
    if Z.land entry PAGE_PRESENT =? 0 then None
    else
      let effective_flags := entry in
      let pdpt := physical_to_virtual (Z.land entry PAGE_ADDRESS_MASK) s in
      let entry := load (slot pdpt (page_table_index virtual_address 30)) s in
      if Z.land entry PAGE_PRESENT =? 0 then None
      else
        let effective_flags := combine_effective_flags effective_flags entry in
        if negb (Z.land entry PAGE_HUGE =? 0) then
          Some (Z.lor (Z.land entry PAGE_1G_ADDRESS_MASK) (Z.land virtual_address 0x3fffffff),
                public_page_flags effective_flags)
        else
          let directory := physical_to_virtual (Z.land entry PAGE_ADDRESS_MASK) s in
          let entry := load (slot directory (page_table_index virtual_address 21)) s in
          if Z.land entry PAGE_PRESENT =? 0 then None
          else
            let effective_flags := combine_effective_flags effective_flags entry in
            if negb (Z.land entry PAGE_HUGE =? 0) then
              Some (Z.lor (Z.land entry PAGE_2M_ADDRESS_MASK) (Z.land virtual_address 0x1fffff),
                    public_page_flags effective_flags)
            else
              let table := physical_to_virtual (Z.land entry PAGE_ADDRESS_MASK) s in
              let entry := load (slot table (page_table_index virtual_address 12)) s in
              if Z.land entry PAGE_PRESENT =? 0 then None
              else
                let effective_flags := combine_effective_flags effective_flags entry in
                Some (Z.lor (Z.land entry PAGE_ADDRESS_MASK) (Z.land virtual_address (PAGE_SIZE - 1)),
                      public_page_flags effective_flags).

Definition vmm_query_page (virtual_address : Z) s : option (Z * Z) :=
  vmm_query_page_in (kernel_pml4_phys s) virtual_address s.

Definition vmm_is_mapped (virtual_address : Z) s : bool :=
  match vmm_query_page virtual_address s with Some _ => true | None => false end.

Definition set_leaf_permissions (virtual_address entry permissions : Z) s : bool * vmm_state PM :=
  let s := store entry (Z.lor (Z.land (load entry s) (not64 VMM_PERMISSIONS)) permissions) s in
  (true, cpu_invalidate_page virtual_address s).

Definition vmm_set_page_permissions (virtual_address permissions : Z) s : bool * vmm_state PM :=
  if negb (initialized s) || negb (Z.land permissions (not64 VMM_PERMISSIONS) =? 0) then (false, s)
  else
    let pml4_value := load (slot (pml4 s) (page_table_index virtual_address 39)) s in
    if (Z.land pml4_value PAGE_PRESENT =? 0) || negb (Z.land pml4_value PAGE_HUGE =? 0) then (false, s)
    else
      let pdpt := physical_to_virtual (Z.land pml4_value PAGE_ADDRESS_MASK) s in
      let pdpt_entry := slot pdpt (page_table_index virtual_address 30) in
      let pdpt_value := load pdpt_entry s in
      if Z.land pdpt_value PAGE_PRESENT =? 0 then (false, s)
      else if negb (Z.land pdpt_value PAGE_HUGE =? 0) then
        set_leaf_permissions virtual_address pdpt_entry permissions s
      else
        let directory := physical_to_virtual (Z.land pdpt_value PAGE_ADDRESS_MASK) s in
        let directory_entry := slot directory (page_table_index virtual_address 21) in
        let directory_value := load directory_entry s in
        if Z.land directory_value PAGE_PRESENT =? 0 then (false, s)
        else if negb (Z.land directory_value PAGE_HUGE =? 0) then
          set_leaf_permissions virtual_address directory_entry permissions s
        else
          let table := physical_to_virtual (Z.land directory_value PAGE_ADDRESS_MASK) s in
          let page_entry := slot table (page_table_index virtual_address 12) in
          if Z.land (load page_entry s) PAGE_PRESENT =? 0 then (false, s)
          else set_leaf_permissions virtual_address page_entry permissions s.

(** A present entry that is not a large page: [unmap] and [set permissions]
    give up on anything else. *)
Definition is_table_entry (value : Z) : bool :=
  negb ((Z.land value PAGE_PRESENT =? 0) || negb (Z.land value PAGE_HUGE =? 0)).

Definition vmm_unmap_page_in (pml4_phys virtual_address : Z) s : Z * vmm_state PM :=
  if negb (virtual_address mod PAGE_SIZE =? 0) || (pml4_phys =? 0)
     || negb (pml4_phys mod PAGE_SIZE =? 0) then (0, s)
  else if negb (initialized s) then (0, s)
  else
    let target_pml4 := physical_to_virtual pml4_phys s in
    let pml4_entry := slot target_pml4 (page_table_index virtual_address 39) in
    let pml4_value := load pml4_entry s in
    if negb (is_table_entry pml4_value) then (0, s)
    else
      let pdpt := physical_to_virtual (Z.land pml4_value PAGE_ADDRESS_MASK) s in
      let pdpt_entry := slot pdpt (page_table_index virtual_address 30) in
      let pdpt_value := load pdpt_entry s in
      if negb (is_table_entry pdpt_value) then (0, s)
      else
        let directory := physical_to_virtual (Z.land pdpt_value PAGE_ADDRESS_MASK) s in
        let directory_entry := slot directory (page_table_index virtual_address 21) in
        let directory_value := load directory_entry s in
        if negb (is_table_entry directory_value) then (0, s)
        else
          let table := physical_to_virtual (Z.land directory_value PAGE_ADDRESS_MASK) s in
          let page_entry := slot table (page_table_index virtual_address 12) in
          let entry := load page_entry s in
          let owned := Z.lor PAGE_PRESENT PAGE_KOS_OWNED_MAPPING in
          if negb (Z.land entry owned =? owned) then (0, s)
          else
            let s := store page_entry 0 s in
            let s := invalidate_if_current pml4_phys virtual_address s in
            let physical_address := Z.land entry PAGE_ADDRESS_MASK in
            let '(directory_released, s) := release_owned_empty_table directory_entry s in
            let s :=
              if directory_released then
                let '(pdpt_released, s) := release_owned_empty_table pdpt_entry s in
                if pdpt_released then (release_owned_empty_table pml4_entry s).2 else s
              else s in
            (physical_address, s).

Definition vmm_unmap_page (virtual_address : Z) s : Z * vmm_state PM :=
  vmm_unmap_page_in (kernel_pml4_phys s) virtual_address s.

(** The roll-back loop of [vmm_map_pages]. *)
Fixpoint unmap_first (virtual_address : Z) (n : nat) (j : Z) s : vmm_state PM :=
  match n with
  | O => s
  | S n => unmap_first virtual_address n (j + 1)
             (vmm_unmap_page (u64 (virtual_address + j * PAGE_SIZE)) s).2
  end.

Fixpoint map_pages_loop (virtual_address physical_address flags : Z) (n : nat) (i : Z) s
  : bool * vmm_state PM :=
  match n with
  | O => (true, s)
  | S n =>
      let '(ok, s) := vmm_map_page (u64 (virtual_address + i * PAGE_SIZE))
                        (u64 (physical_address + i * PAGE_SIZE)) flags s in
      if negb ok then (false, unmap_first virtual_address (Z.to_nat i) 0 s)
      else map_pages_loop virtual_address physical_address flags n (i + 1) s
  end.

Definition vmm_map_pages (virtual_address physical_address page_count flags : Z) s
  : bool * vmm_state PM :=
  map_pages_loop virtual_address physical_address flags (Z.to_nat page_count) 0 s.

Fixpoint unmap_pages_loop (virtual_address : Z) (n : nat) (i unmapped : Z) s : Z * vmm_state PM :=
  match n with
  | O => (unmapped, s)
  | S n =>
      let '(r, s) := vmm_unmap_page (u64 (virtual_address + i * PAGE_SIZE)) s in
      unmap_pages_loop virtual_address n (i + 1)
        (if negb (r =? 0) then u64 (unmapped + 1) else unmapped) s
  end.

Definition vmm_unmap_pages (virtual_address page_count : Z) s : Z * vmm_state PM :=
  unmap_pages_loop virtual_address (Z.to_nat page_count) 0 0 s.

(** The two fill loops of [vmm_create_address_space]. *)
Fixpoint copy_kernel_half (new_pml4 : Z) (n : nat) (index : Z) s : vmm_state PM :=
  match n with
  | O => s
  | S n => copy_kernel_half new_pml4 n (index + 1)
             (store (slot new_pml4 index) (load (slot (pml4 s) index) s) s)
  end.

Definition vmm_create_address_space s : Z * vmm_state PM :=
  if negb (initialized s) || (pml4 s =? 0) then (0, s)
  else
    let '(pml4_frame, s) := allocate_frame s in
    if pml4_frame =? 0 then (0, s)
    else
      let new_pml4 := physical_to_virtual pml4_frame s in
      let s := clear_page_table new_pml4 256 0 s in
      (pml4_frame, copy_kernel_half new_pml4 256 256 s).

(** The nested loops of [vmm_clear_user_address_space], innermost first. *)
Fixpoint clear_pt (pt : Z) (n : nat) (index : Z) s : vmm_state PM :=
  match n with
  | O => s
  | S n =>
      let pte := load (slot pt index) s in
      let s :=
        if Z.land pte PAGE_PRESENT =? 0 then s
        else store (slot pt index) 0 (free_frame (Z.land pte PAGE_ADDRESS_MASK) s).2 in
      clear_pt pt n (index + 1) s
  end.

Fixpoint clear_pd (pd : Z) (n : nat) (index : Z) s : vmm_state PM :=
  match n with
  | O => s
  | S n =>
      let pde := load (slot pd index) s in
      let s :=
        if Z.land pde PAGE_PRESENT =? 0 then s
        else if negb (Z.land pde PAGE_HUGE =? 0) then
          store (slot pd index) 0 (free_frame (Z.land pde PAGE_ADDRESS_MASK) s).2
        else
          let pt_phys := Z.land pde PAGE_ADDRESS_MASK in
          let s := clear_pt (physical_to_virtual pt_phys s) 512 0 s in
          store (slot pd index) 0 (free_frame pt_phys s).2 in
      clear_pd pd n (index + 1) s
  end.

Fixpoint clear_pdpt (pdpt : Z) (n : nat) (index : Z) s : vmm_state PM :=
  match n with
  | O => s
  | S n =>
      let pdpte := load (slot pdpt index) s in
      let s :=
        if Z.land pdpte PAGE_PRESENT =? 0 then s
        else if negb (Z.land pdpte PAGE_HUGE =? 0) then
          store (slot pdpt index) 0 (free_frame (Z.land pdpte PAGE_ADDRESS_MASK) s).2
        else
          let pd_phys := Z.land pdpte PAGE_ADDRESS_MASK in
          let s := clear_pd (physical_to_virtual pd_phys s) 512 0 s in
          store (slot pdpt index) 0 (free_frame pd_phys s).2 in
      clear_pdpt pdpt n (index + 1) s
  end.

Fixpoint clear_pml4 (pml4 : Z) (n : nat) (index : Z) s : vmm_state PM :=
  match n with
  | O => s
  | S n =>
      let pml4e := load (slot pml4 index) s in
      let s :=
        if Z.land pml4e PAGE_PRESENT =? 0 then s
        else
          let pdpt_phys := Z.land pml4e PAGE_ADDRESS_MASK in
          let s := clear_pdpt (physical_to_virtual pdpt_phys s) 512 0 s in
          store (slot pml4 index) 0 (free_frame pdpt_phys s).2 in
      clear_pml4 pml4 n (index + 1) s
  end.

(** [if ((cpu_read_cr3() & MASK) == pml4_phys) cpu_write_cr3(vmm.kernel_pml4_phys);] *)
Definition leave_address_space (pml4_phys : Z) s : vmm_state PM :=
  if Z.land (cr3 s) PAGE_ADDRESS_MASK =? pml4_phys then cpu_write_cr3 (kernel_pml4_phys s) s else s.

Definition vmm_clear_user_address_space (pml4_phys : Z) s : vmm_state PM :=
  if (pml4_phys =? 0) || negb (pml4_phys mod PAGE_SIZE =? 0) then s
  else if negb (initialized s) || (pml4_phys =? kernel_pml4_phys s) then s
  else leave_address_space pml4_phys (clear_pml4 (physical_to_virtual pml4_phys s) 256 0 s).

Definition vmm_destroy_address_space (pml4_phys : Z) s : vmm_state PM :=
  if (pml4_phys =? 0) || negb (pml4_phys mod PAGE_SIZE =? 0) then s
  else if negb (initialized s) || (pml4_phys =? kernel_pml4_phys s) then s
  else
    let s := leave_address_space pml4_phys s in
    let s := vmm_clear_user_address_space pml4_phys s in
    (free_frame pml4_phys s).2.

(** The page loop of [vmm_map_mmio]: [p] runs from [start_phys] in page steps. *)
Fixpoint map_mmio_loop (p : Z) (n : nat) s : vmm_state PM :=
  match n with
  | O => s
  | S n =>
      let v := physical_to_virtual p s in
      let s := if vmm_is_mapped v s then s
               else (vmm_map_page v p (Z.lor VMM_PAGE_WRITABLE VMM_PAGE_NO_EXECUTE) s).2 in
      map_mmio_loop (u64 (p + PAGE_SIZE)) n s
  end.

Definition vmm_map_mmio (physical_address size_bytes : Z) s : Z * vmm_state PM :=
  if size_bytes =? 0 then (0, s)
  else
    let page_mask := not64 (PAGE_SIZE - 1) in
    let page_offset := Z.land physical_address (PAGE_SIZE - 1) in
    let start_phys := Z.land physical_address page_mask in
    let end_phys := Z.land (u64 (physical_address + size_bytes + PAGE_SIZE - 1)) page_mask in
    let s := map_mmio_loop start_phys (Z.to_nat ((end_phys - start_phys) / PAGE_SIZE)) s in
    (u64 (physical_to_virtual start_phys s + page_offset), s).

End operations.

(** The kernel's address space as the provider of backing pages. *)
#[export] Instance vmm_page_mapper {PM : Type} `{FrameAllocator PM} : PageMapper (vmm_state PM) := {|
  map_allocate_frame := allocate_frame;
  map_free_frame := free_frame;
  map_map_page := vmm_map_page;
  map_unmap_page := vmm_unmap_page;
|}.
