(* ===== verification/PageWalk.v ===== *)
(** * The page-table walk as a function of the table entries

    The abstract side of src/mm/vmm.c: a page-table memory is a function from a
    table's physical address and an index to an entry, with a typing of tables
    by level.  [walk] is the reference translation; the lemmas say how it reacts
    to the edits the manager makes - setting the USER bit of an entry, grafting
    an empty table, pruning one, and writing a leaf. *)

From S2P Require Import Prelude Vmm.
From Stdlib Require Import ZArith Lia.
From stdpp Require Import gmap.
#[local] Open Scope Z_scope.

(** ** Entries *)

Definition present (e : Z) : bool := Z.testbit e 0.
Definition huge (e : Z) : bool := Z.testbit e 7.
Definition phys (e : Z) : Z := Z.land e PAGE_ADDRESS_MASK.

(** An entry that points to a table of the next level. *)
Definition tbl (e : Z) : bool := present e && negb (huge e).

Lemma tbl_true e : tbl e = true ↔ present e = true ∧ huge e = false.
Proof. unfold tbl. by rewrite andb_true_iff, negb_true_iff. Qed.

Lemma land_PRESENT e : (Z.land e PAGE_PRESENT =? 0) = negb (present e).
Proof. exact (land_bit e 0 ltac:(lia)). Qed.
Lemma land_HUGE e : (Z.land e PAGE_HUGE =? 0) = negb (huge e).
Proof. exact (land_bit e 7 ltac:(lia)). Qed.
Lemma land_USER e : (Z.land e VMM_PAGE_USER =? 0) = negb (Z.testbit e 2).
Proof. exact (land_bit e 2 ltac:(lia)). Qed.
Lemma land_WRITABLE e : (Z.land e VMM_PAGE_WRITABLE =? 0) = negb (Z.testbit e 1).
Proof. exact (land_bit e 1 ltac:(lia)). Qed.
Lemma land_NX e : (Z.land e VMM_PAGE_NO_EXECUTE =? 0) = negb (Z.testbit e 63).
Proof. exact (land_bit e 63 ltac:(lia)). Qed.

Lemma is_table_entry_tbl e : is_table_entry e = tbl e.
Proof.
  unfold is_table_entry, tbl. rewrite land_PRESENT, land_HUGE.
  by destruct (present e), (huge e).
Qed.

Lemma phys_nonneg e : 0 ≤ phys e.
Proof. apply Z.land_nonneg. right. done. Qed.

Lemma mask_testbit i : 0 ≤ i → Z.testbit PAGE_ADDRESS_MASK i = (12 <=? i) && (i <? 52).
Proof.
  intros Hi. change PAGE_ADDRESS_MASK with (Z.shiftl (Z.ones 40) 12).
  rewrite Z.shiftl_spec by done. destruct (Z.leb_spec 12 i); simpl.
  - rewrite Z.testbit_ones_nonneg by lia. apply eq_true_iff_eq. rewrite !Z.ltb_lt. lia.
  - by rewrite Z.testbit_neg_r by lia.
Qed.

Lemma phys_testbit e i :
  0 ≤ i → Z.testbit (phys e) i = Z.testbit e i && ((12 <=? i) && (i <? 52)).
Proof. intros. unfold phys. by rewrite Z.land_spec, mask_testbit. Qed.

Lemma phys_aligned e : phys e mod 4096 = 0.
Proof.
  change 4096 with (2 ^ 12). rewrite <- Z.land_ones by lia. unfold phys.
  apply Z.bits_inj'. intros i Hi. rewrite !Z.land_spec, mask_testbit, Z.bits_0 by done.
  destruct (Z.leb_spec 12 i); [|by rewrite andb_false_r].
  by rewrite Z.ones_spec_high, andb_false_r by lia.
Qed.

(** Or-ing bits outside the address field does not move the address. *)
Lemma phys_lor a b : phys (Z.lor a b) = Z.lor (phys a) (phys b).
Proof. apply Z.land_lor_distr_l. Qed.

Lemma phys_small p : 0 ≤ p < 2 ^ 52 → p mod 4096 = 0 → phys p = p.
Proof.
  intros Hp Ha. apply Z.bits_inj'. intros i Hi. rewrite phys_testbit by done.
  destruct (Z.ltb_spec i 52).
  - destruct (Z.leb_spec 12 i); [by rewrite andb_true_r|]. rewrite andb_false_r. symmetry.
    rewrite (Z.div_mod p 4096), Ha, Z.add_0_r, Z.mul_comm by lia.
    change 4096 with (2 ^ 12). by apply Z.mul_pow2_bits_low.
  - rewrite (testbit_high p 52 i) by done. done.
Qed.

(** Equality of entries (and of flag words) up to the USER bit. *)
Definition equser (a b : Z) : Prop := ∀ i, 0 ≤ i < 64 → i ≠ 2 → Z.testbit a i = Z.testbit b i.

#[export] Instance equser_equiv : Equivalence equser.
Proof.
  unfold equser. split; [by intros x|intros x y H i Hi Hn; by rewrite H|].
  intros x y z H1 H2 i Hi Hn. by rewrite H1, H2.
Qed.

Lemma user_testbit i : 0 ≤ i → Z.testbit PAGE_USER i = bool_decide (i = 2).
Proof.
  intros. change PAGE_USER with (2 ^ 2). case_bool_decide as E; [by subst i|].
  apply Z.pow2_bits_false. lia.
Qed.

Lemma equser_set e : equser (Z.lor e PAGE_USER) e.
Proof.
  intros i Hi Hn. rewrite Z.lor_spec, user_testbit, bool_decide_false by lia. apply orb_false_r.
Qed.

#[export] Instance present_proper : Proper (equser ==> eq) present.
Proof. intros a b H. apply (H 0); lia. Qed.
#[export] Instance huge_proper : Proper (equser ==> eq) huge.
Proof. intros a b H. apply (H 7); lia. Qed.
#[export] Instance tbl_proper : Proper (equser ==> eq) tbl.
Proof. intros a b H. unfold tbl. by rewrite H. Qed.

Lemma land_equser a b m :
  equser a b → is_u64 m → Z.testbit m 2 = false → Z.land a m = Z.land b m.
Proof.
  intros H Hu Hm. apply Z.bits_inj'. intros i Hi. rewrite !Z.land_spec.
  destruct (Z.eq_dec i 2) as [->|]; [by rewrite Hm, !andb_false_r|].
  destruct (Z.lt_ge_cases i 64); [f_equal; apply H; lia|].
  by rewrite (testbit_high64 m), !andb_false_r.
Qed.

#[export] Instance phys_proper : Proper (equser ==> eq) phys.
Proof. intros a b H. by apply land_equser. Qed.

(** The effective flags, bit by bit. *)
Lemma combine_testbit a e i :
  0 ≤ i < 64 → Z.testbit (combine_effective_flags a e) i =
    if decide (i = 1) then Z.testbit e i && Z.testbit a 1
    else if decide (i = 2) then Z.testbit e i && Z.testbit a 2
    else if decide (i = 63) then Z.testbit e i || Z.testbit a 63
    else Z.testbit e i.
Proof.
  intros Hi. unfold combine_effective_flags. rewrite land_WRITABLE, land_USER, land_NX.
  assert (HW : Z.testbit (not64 VMM_PAGE_WRITABLE) i = negb (bool_decide (i = 1))).
  { rewrite not64_testbit by lia. change VMM_PAGE_WRITABLE with (2 ^ 1).
    destruct (Z.ltb_spec i 64); [|lia].
    simpl. f_equal. case_bool_decide as E; [by subst i|]. apply Z.pow2_bits_false. lia. }
  assert (HU : Z.testbit (not64 VMM_PAGE_USER) i = negb (bool_decide (i = 2))).
  { rewrite not64_testbit by lia. change VMM_PAGE_USER with PAGE_USER. rewrite user_testbit by lia.
    destruct (Z.ltb_spec i 64); [done|lia]. }
  assert (HN : Z.testbit VMM_PAGE_NO_EXECUTE i = bool_decide (i = 63)).
  { change VMM_PAGE_NO_EXECUTE with (2 ^ 63).
    destruct (bool_decide_reflect (i = 63)); [by subst i|].
    apply Z.pow2_bits_false. lia. }
  destruct (Z.testbit a 1), (Z.testbit a 2), (Z.testbit a 63); cbn [negb];
    rewrite ?Z.lor_spec, ?Z.land_spec, ?HW, ?HU, ?HN;
    destruct (Z.testbit e i) eqn:Ee;
    clear HW HU HN;
    repeat case_decide; subst; rewrite ?bool_decide_true, ?bool_decide_false by lia; done.
Qed.

#[export] Instance combine_proper : Proper (equser ==> equser ==> equser) combine_effective_flags.
Proof.
  intros a a' Ha e e' He i Hi Hn. rewrite !combine_testbit by done.
  rewrite (He i), (Ha 1), (Ha 63) by lia. by rewrite !(decide_False (P := i = 2)).
Qed.

Lemma public_testbit f i :
  0 ≤ i → Z.testbit (public_page_flags f) i = Z.testbit f i && (bool_decide (i < 64 ∧ i ≠ 9 ∧ i ≠ 10)).
Proof.
  intros Hi. unfold public_page_flags. rewrite Z.land_spec, not64_testbit, Z.lor_spec by done.
  change PAGE_KOS_OWNED_TABLE with (2 ^ 9). change PAGE_KOS_OWNED_MAPPING with (2 ^ 10).
  f_equal. rewrite !Z.pow2_bits_eqb by lia. 
  destruct (Z.ltb_spec i 64), (Z.eqb_spec 9 i), (Z.eqb_spec 10 i); simpl; case_bool_decide; done || lia.
Qed.

Lemma public_equser a b :
  equser a b → Z.lor (public_page_flags a) PAGE_USER = Z.lor (public_page_flags b) PAGE_USER.
Proof.
  intros H. apply Z.bits_inj'. intros i Hi. rewrite !Z.lor_spec, !public_testbit, user_testbit by done.
  destruct (decide (i = 2)) as [->|]; [by rewrite !orb_true_r|].
  destruct (decide (i < 64)); [by rewrite (H i)|]. by rewrite bool_decide_false, !andb_false_r by lia.
Qed.

(** Translations equal up to the USER bit of the reported flags. *)
Definition up_to_user (q : option (Z * Z)) : option (Z * Z) :=
  prod_map id (λ f, Z.lor f PAGE_USER) <$> q.

(** ** The walk *)

Definition vidx (va : Z) (L : nat) : Z := page_table_index va (12 + 9 * Z.of_nat L).

(** The address bits a large page of level 1 (2 MiB) or 2 (1 GiB) keeps. *)
Definition large_mask (L : nat) : Z :=
  match L with 1%nat => PAGE_2M_ADDRESS_MASK | 2%nat => PAGE_1G_ADDRESS_MASK | _ => PAGE_ADDRESS_MASK end.

(** Level 3 is the PML4; [acc] accumulates the permissions of the path. *)
Fixpoint walk (E : Z → Z → Z) (L : nat) (p va acc : Z) : option (Z * Z) :=
  let e := E p (vidx va L) in
  if negb (present e) then None
  else
    let eff := combine_effective_flags acc e in
    match L with
    | O => Some (Z.lor (phys e) (Z.land va 4095), public_page_flags eff)
    | S L' =>
        if huge e && (L <? 3)%nat
        then Some (Z.lor (Z.land e (large_mask L)) (Z.land va (Z.ones (12 + 9 * Z.of_nat L))),
                   public_page_flags eff)
        else walk E L' (phys e) va eff
    end.

(** Read and write permitted, execution permitted: the accumulator at the root. *)
Definition ACC0 : Z := 6.

Lemma vidx_range va L : 0 ≤ vidx va L < 512.
Proof.
  unfold vidx, page_table_index. change 0x1ff with (Z.ones 9). rewrite Z.land_ones by lia.
  apply Z.mod_pos_bound. lia.
Qed.
#[export] Hint Resolve vidx_range : kos.
#[global] Arguments vidx : simpl never.
#[global] Arguments combine_effective_flags : simpl never.
#[global] Arguments public_page_flags : simpl never.
#[global] Arguments phys : simpl never.
#[global] Arguments present : simpl never.
#[global] Arguments huge : simpl never.

(** ** Typed page tables *)

(** [T] gives the level of each table; the tables of one address space form a
    tree, and only PDPTs of the kernel half are shared between address spaces. *)
Record well_typed (T : gmap Z nat) (E : Z → Z → Z) : Prop := {
  wt_level p L : T !! p = Some L → (L ≤ 3)%nat;
  wt_child p L i : T !! p = Some (S L) → 0 ≤ i < 512 → tbl (E p i) = true → T !! phys (E p i) = Some L;
  wt_top p i : T !! p = Some 3%nat → 0 ≤ i < 512 → present (E p i) = true → huge (E p i) = false;
  wt_parent p p' i i' L :
    T !! p = Some (S L) → T !! p' = Some (S L) → 0 ≤ i < 512 → 0 ≤ i' < 512 →
    tbl (E p i) = true → tbl (E p' i') = true → phys (E p i) = phys (E p' i') →
    i = i' ∧ (p = p' ∨ (L = 2%nat ∧ 256 ≤ i));
}.

(** The only entry that points to [q] is entry [i] of [p]. *)
Definition sole (T : gmap Z nat) (E : Z → Z → Z) (p i q : Z) : Prop :=
  ∀ p' L i', T !! p' = Some (S L) → 0 ≤ i' < 512 → tbl (E p' i') = true → phys (E p' i') = q →
    p' = p ∧ i' = i.

Definition empty_row (E : Z → Z → Z) (q : Z) : Prop := ∀ j, 0 ≤ j < 512 → present (E q j) = false.

(** No translation goes through this entry. *)
Definition dead (E : Z → Z → Z) (L : nat) (p i : Z) : Prop :=
  present (E p i) = false ∨ (L ≠ O ∧ tbl (E p i) = true ∧ empty_row E (phys (E p i))).

Lemma walk_dead E L p va acc : dead E L p (vidx va L) → walk E L p va acc = None.
Proof.
  intros [H|(HL & Ht & He)]; destruct L as [|L]; simpl; [by rewrite H..|done|].
  unfold tbl in Ht. apply andb_prop in Ht as [-> Hh]. apply negb_true_iff in Hh. rewrite Hh. simpl.
  pose proof (He _ (vidx_range va L)) as Hp. destruct L; simpl; by rewrite Hp.
Qed.

(** Two page-table memories that agree up to the USER bit, except at entries
    that translate nothing in either, translate alike. *)
Lemma walk_sim T E E' :
  well_typed T E →
  (∀ p L i, T !! p = Some L → 0 ≤ i < 512 →
     equser (E p i) (E' p i) ∨ (dead E L p i ∧ dead E' L p i)) →
  ∀ L p va acc acc', T !! p = Some L → equser acc acc' →
    up_to_user (walk E L p va acc) = up_to_user (walk E' L p va acc').
Proof.
  intros HT Hsim. induction L as [|L IH]; intros p va acc acc' Hp Ha.
  - destruct (Hsim p _ _ Hp (vidx_range va 0)) as [He|[Hd Hd']]; [|by rewrite !walk_dead].
    simpl. rewrite He. destruct (present _); [simpl|done]. f_equal. unfold prod_map. simpl.
    rewrite (public_equser (combine_effective_flags acc (E p (vidx va 0)))
               (combine_effective_flags acc' (E' p (vidx va 0)))) by by rewrite Ha, He.
    by rewrite He.
  - destruct (Hsim p _ _ Hp (vidx_range va (S L))) as [He|[Hd Hd']]; [|by rewrite !walk_dead].
    simpl. rewrite (present_proper _ _ He), (huge_proper _ _ He).
    destruct (present (E' _ _)) eqn:Epr; [simpl|done].
    destruct (huge (E' _ _)) eqn:Eh; simpl.
    + destruct (Nat.ltb_spec (S L) 3) as [Hlt|Hge].
      * cbn. f_equal. unfold prod_map. cbn.
        rewrite (public_equser (combine_effective_flags acc (E p (vidx va (S L))))
                   (combine_effective_flags acc' (E' p (vidx va (S L))))) by by rewrite Ha, He.
        f_equal. f_equal. apply land_equser; [done|by destruct L as [|[|[]]]|by destruct L as [|[|[]]]].
      * pose proof (wt_level _ _ HT _ _ Hp). assert (L = 2%nat) as -> by lia.
        exfalso. pose proof (wt_top _ _ HT p _ Hp (vidx_range va 3)) as Hx.
        rewrite He in Hx. rewrite Eh in Hx. by specialize (Hx Epr).
    + rewrite <- (phys_proper _ _ He). apply IH; [|by rewrite Ha, He].
      apply (wt_child _ _ HT); [done|apply vidx_range|].
      rewrite (tbl_proper _ _ He). unfold tbl. by rewrite Epr, Eh.
Qed.

(** ** Edits *)

Definition upd (E : Z → Z → Z) (p i v : Z) : Z → Z → Z :=
  λ p' i', if decide (p' = p ∧ i' = i) then v else E p' i'.

Lemma upd_eq E p i v : upd E p i v p i = v.
Proof. unfold upd. by rewrite decide_True. Qed.

Lemma upd_ne E p i v p' i' : ¬ (p' = p ∧ i' = i) → upd E p i v p' i' = E p' i'.
Proof. intros. unfold upd. by rewrite decide_False. Qed.

(** [upd] at the point, or elsewhere. *)
Ltac upd_cases p i p' i' :=
  destruct (decide (p' = p ∧ i' = i)) as [[-> ->]|]; [rewrite ?upd_eq in *|rewrite ?upd_ne in * by done].

(** The contents of the tables agree. *)
Definition agree (T : gmap Z nat) (E E' : Z → Z → Z) : Prop :=
  ∀ p L i, T !! p = Some L → 0 ≤ i < 512 → E p i = E' p i.

Lemma well_typed_agree T E E' : well_typed T E → agree T E E' → well_typed T E'.
Proof.
  intros [H1 H2 H3 H4] Ha. split; [done|..].
  - intros p L i Hp Hi. rewrite <- (Ha p _ i Hp Hi). by apply H2.
  - intros p i Hp Hi. rewrite <- (Ha p _ i Hp Hi). by apply H3.
  - intros p p' i i' L Hp Hp' Hi Hi'. rewrite <- (Ha p _ i Hp Hi), <- (Ha p' _ i' Hp' Hi'). by apply H4.
Qed.

(** Changing a table entry without changing where it points. *)
Lemma well_typed_upd_same T E p i v :
  well_typed T E → equser v (E p i) → well_typed T (upd E p i v).
Proof.
  intros [H1 H2 H3 H4] Hv.
  assert (Hu : ∀ p' i', equser (upd E p i v p' i') (E p' i')).
  { intros p' i'. upd_cases p i p' i'; done. }
  split; [done|..].
  - intros p' L i' Hp Hi. rewrite (tbl_proper _ _ (Hu p' i')), (phys_proper _ _ (Hu p' i')). by apply H2.
  - intros p' i' Hp Hi. rewrite (present_proper _ _ (Hu p' i')), (huge_proper _ _ (Hu p' i')). by apply H3.
  - intros p1 p2 i1 i2 L. rewrite (tbl_proper _ _ (Hu p1 i1)), (phys_proper _ _ (Hu p1 i1)),
      (tbl_proper _ _ (Hu p2 i2)), (phys_proper _ _ (Hu p2 i2)). by apply H4.
Qed.

(** Writing a leaf entry. *)
Lemma well_typed_upd_leaf T E p i v :
  well_typed T E → T !! p = Some O → well_typed T (upd E p i v).
Proof.
  intros [H1 H2 H3 H4] Hv. split; [done|..].
  - intros p' L i' Hp Hi. rewrite upd_ne by naive_solver. by apply H2.
  - intros p' i' Hp Hi. rewrite upd_ne by naive_solver. by apply H3.
  - intros p1 p2 i1 i2 L Hp1 Hp2. rewrite !upd_ne by naive_solver. by apply H4.
Qed.

Lemma not_present_tbl e : present e = false → tbl e = false.
Proof. unfold tbl. by intros ->. Qed.

(** Grafting the empty table [g] below an entry that was not present. *)
Lemma well_typed_graft T E p i L g v :
  well_typed T E → T !! p = Some (S L) → 0 ≤ i < 512 → T !! g = None →
  tbl v = true → phys v = g → empty_row E g →
  well_typed (<[g := L]> T) (upd E p i v).
Proof.
  intros [H1 H2 H3 H4] Hp Hi Hg Hv Hph He.
  assert (p ≠ g) as Hpg by congruence.
  assert (Hold : ∀ p' L' i', <[g := L]> T !! p' = Some (S L') → 0 ≤ i' < 512 → ¬ (p' = p ∧ i' = i) →
            tbl (E p' i') = true → T !! p' = Some (S L') ∧ T !! phys (E p' i') = Some L').
  { intros p' L' i' Hp' Hi' Hne Ht. destruct (decide (p' = g)) as [->|].
    { by rewrite (not_present_tbl _ (He _ Hi')) in Ht. }
    rewrite lookup_insert_ne in Hp' by done. eauto. }
  split.
  - intros p' L' Hp'. apply lookup_insert_Some in Hp' as [[<- <-]|[_ Hp']]; [|by eapply H1].
    pose proof (H1 _ _ Hp). lia.
  - intros p' L' i' Hp' Hi' Ht. upd_cases p i p' i'.
    + rewrite lookup_insert_ne in Hp' by done. rewrite Hph, lookup_insert_eq. congruence.
    + destruct (Hold _ _ _ Hp' Hi' n Ht) as [_ Hx]. rewrite lookup_insert_ne by congruence. done.
  - intros p' i' Hp' Hi' Hpr. upd_cases p i p' i'.
    + unfold tbl in Hv. apply andb_prop in Hv as [_ Hv]. by apply negb_true_iff.
    + destruct (decide (p' = g)) as [->|]; [by rewrite He in Hpr|].
      rewrite lookup_insert_ne in Hp' by done. by apply H3.
  - intros p1 p2 i1 i2 L' Hp1 Hp2 Hi1 Hi2 Ht1 Ht2 Heq.
    destruct (decide (p1 = p ∧ i1 = i)) as [[-> ->]|N1], (decide (p2 = p ∧ i2 = i)) as [[-> ->]|N2];
      rewrite ?upd_eq in *; rewrite ?upd_ne in * by done; [by auto|..].
    + destruct (Hold _ _ _ Hp2 Hi2 N2 Ht2) as [_ Hx]. congruence.
    + destruct (Hold _ _ _ Hp1 Hi1 N1 Ht1) as [_ Hx]. congruence.
    + destruct (Hold _ _ _ Hp1 Hi1 N1 Ht1) as [Hx1 _], (Hold _ _ _ Hp2 Hi2 N2 Ht2) as [Hx2 _].
      eapply H4; eauto.
Qed.

(** Pruning the table below an entry that is its only parent. *)
Lemma well_typed_prune T E p i q :
  well_typed T E → sole T E p i q → well_typed (delete q T) (upd E p i 0).
Proof.
  intros [H1 H2 H3 H4] Hs.
  assert (tbl 0 = false) as H0 by done. assert (present 0 = false) as H0' by done.
  split.
  - intros p' L' [_ Hp']%lookup_delete_Some. eauto.
  - intros p' L' i' [Hq Hp']%lookup_delete_Some Hi' Ht. upd_cases p i p' i'; [congruence|].
    apply lookup_delete_Some. split; [|by eauto]. intros Heq. apply n. by eapply Hs.
  - intros p' i' [Hq Hp']%lookup_delete_Some Hi' Hpr. upd_cases p i p' i'; [congruence|]. by apply H3.
  - intros p1 p2 i1 i2 L' [_ Hp1]%lookup_delete_Some [_ Hp2]%lookup_delete_Some Hi1 Hi2 Ht1 Ht2 Heq.
    destruct (decide (p1 = p ∧ i1 = i)) as [[-> ->]|N1], (decide (p2 = p ∧ i2 = i)) as [[-> ->]|N2];
      rewrite ?upd_eq in *; rewrite ?upd_ne in * by done; [congruence..|]. eapply H4; eauto.
Qed.

(** A new table has a single parent. *)
Lemma sole_graft T E p i L g v :
  well_typed T E → T !! p = Some (S L) → T !! g = None → empty_row E g →
  sole (<[g := L]> T) (upd E p i v) p i g.
Proof.
  intros HT Hp Hg He p' L' i' Hp' Hi' Ht Heq.
  destruct (decide (p' = p ∧ i' = i)) as [|N]; [done|]. exfalso. rewrite upd_ne in * by done.
  destruct (decide (p' = g)) as [->|]; [by rewrite (not_present_tbl _ (He _ Hi')) in Ht|].
  rewrite lookup_insert_ne in Hp' by done. pose proof (wt_child _ _ HT _ _ _ Hp' Hi' Ht). congruence.
Qed.

(** ** The leaf table a walk reaches *)

Fixpoint leaf_table (E : Z → Z → Z) (L : nat) (p va : Z) : option Z :=
  match L with
  | O => Some p
  | S L' => let e := E p (vidx va L) in if tbl e then leaf_table E L' (phys e) va else None
  end.

(** Writing a leaf entry changes only the walks that end in it. *)
Lemma walk_upd_leaf T E t i v :
  well_typed T E → T !! t = Some O →
  ∀ L p va acc, T !! p = Some L → ¬ (leaf_table E L p va = Some t ∧ vidx va 0 = i) →
    walk (upd E t i v) L p va acc = walk E L p va acc.
Proof.
  intros HT Ht. induction L as [|L IH]; intros p va acc Hp Hne; simpl.
  - simpl in Hne. rewrite upd_ne by (intros [-> Hx]; apply Hne; split; [done|exact Hx]). done.
  - rewrite upd_ne by (intros [-> _]; congruence). simpl in Hne.
    destruct (present (E _ _)) eqn:Epr; simpl; [|done].
    destruct (huge (E _ _)) eqn:Eh; simpl.
    + destruct (Nat.ltb_spec (S L) 3) as [|Hge]; [done|].
      pose proof (wt_level _ _ HT _ _ Hp). assert (L = 2%nat) as -> by lia.
      by rewrite (wt_top _ _ HT p _ Hp (vidx_range va 3) Epr) in Eh.
    + assert (tbl (E p (vidx va (S L))) = true) as Htb by (unfold tbl; by rewrite Epr, Eh).
      rewrite Htb in Hne. apply IH; [|done]. by apply (wt_child _ _ HT); [|apply vidx_range|].
Qed.

(** Walks that reach the same leaf table use the same indices all the way down,
    from the same root unless they go through the shared kernel half. *)
Lemma leaf_table_inj T E t :
  well_typed T E →
  ∀ L p p' va va', T !! p = Some L → T !! p' = Some L →
    leaf_table E L p va = Some t → leaf_table E L p' va' = Some t →
    (∀ l, (1 ≤ l ≤ L)%nat → vidx va l = vidx va' l) ∧ (p = p' ∨ (L = 3%nat ∧ 256 ≤ vidx va 3)).
Proof.
  intros HT. induction L as [|L IH]; intros p p' va va' Hp Hp' Hl Hl'; simpl in Hl, Hl'.
  - split; [lia|]. left. congruence.
  - destruct (tbl (E p _)) eqn:Et; [|done]. destruct (tbl (E p' _)) eqn:Et'; [|done].
    pose proof (wt_child _ _ HT _ _ _ Hp (vidx_range _ _) Et) as Hc.
    pose proof (wt_child _ _ HT _ _ _ Hp' (vidx_range _ _) Et') as Hc'.
    destruct (IH _ _ _ _ Hc Hc' Hl Hl') as [Hi [Heq|[-> _]]].
    2:{ pose proof (wt_level _ _ HT _ _ Hp). lia. }
    destruct (wt_parent _ _ HT _ _ _ _ _ Hp Hp' (vidx_range _ _) (vidx_range _ _) Et Et' Heq) as [Hv Hr].
    split.
    + intros l Hl1. destruct (decide (l = S L)) as [->|]; [done|]. apply Hi. lia.
    + destruct Hr as [->|[-> ?]]; [by left|]. by right.
Qed.

(** The walk depends only on the tables of [T]. *)
Lemma walk_agree T E E' :
  well_typed T E → agree T E E' →
  ∀ L p va acc, T !! p = Some L → walk E L p va acc = walk E' L p va acc.
Proof.
  intros HT Ha. induction L as [|L IH]; intros p va acc Hp; cbn [walk];
    rewrite <- (Ha p _ _ Hp (vidx_range va _)); [done|].
  destruct (present (E _ _)) eqn:Epr; cbn [negb]; [|done].
  destruct (huge (E _ _)) eqn:Eh; cbn [andb].
  - destruct (Nat.ltb_spec (S L) 3) as [|Hge]; [done|].
    pose proof (wt_level _ _ HT _ _ Hp). assert (L = 2%nat) as -> by lia.
    by rewrite (wt_top _ _ HT p _ Hp (vidx_range va 3) Epr) in Eh.
  - apply IH. apply (wt_child _ _ HT); [done|apply vidx_range|]. by apply tbl_true.
Qed.

Lemma leaf_table_upd T E t i v :
  well_typed T E → T !! t = Some O →
  ∀ L p va, T !! p = Some L → leaf_table (upd E t i v) L p va = leaf_table E L p va.
Proof.
  intros HT Ht. induction L as [|L IH]; intros p va Hp; [done|]. cbn [leaf_table].
  rewrite upd_ne by (intros [-> _]; congruence). destruct (tbl (E _ _)) eqn:Etb; [|done].
  apply IH. by apply (wt_child _ _ HT); [|apply vidx_range|].
Qed.

Lemma leaf_table_agree T E E' :
  well_typed T E → agree T E E' →
  ∀ L p va, T !! p = Some L → leaf_table E L p va = leaf_table E' L p va.
Proof.
  intros HT Ha. induction L as [|L IH]; intros p va Hp; [done|]. cbn [leaf_table].
  rewrite <- (Ha p _ _ Hp (vidx_range va _)). destruct (tbl (E _ _)) eqn:Etb; [|done].
  apply IH. by apply (wt_child _ _ HT); [|apply vidx_range|].
Qed.

(** What a walk that reaches a present leaf entry returns. *)
Lemma walk_leaf E t L : ∀ p va acc,
  leaf_table E L p va = Some t → present (E t (vidx va 0)) = true →
  ∃ acc', walk E L p va acc =
    Some (Z.lor (phys (E t (vidx va 0))) (Z.land va 4095),
          public_page_flags (combine_effective_flags acc' (E t (vidx va 0)))).
Proof.
  induction L as [|L IH]; intros p va acc Hl He; cbn [leaf_table] in Hl.
  - injection Hl as ->. exists acc. cbn [walk]. by rewrite He.
  - destruct (tbl (E p _)) eqn:Etb; [|done]. apply tbl_true in Etb as [E1 E2].
    destruct (IH _ _ (combine_effective_flags acc (E p (vidx va (S L)))) Hl He) as [acc' Hw].
    exists acc'. cbn [walk]. rewrite E1, E2. exact Hw.
Qed.

(** ** Tables that withhold nothing

    The hardware and [vmm_query_page_in] grant a right only when every level
    does.  A path is open when the entries that point to its tables are writable
    and executable; the rights of a page are then those of its own entry. *)

Definition open_entry (e : Z) : Prop := Z.testbit e 1 = true ∧ Z.testbit e 63 = false.

Fixpoint open_path (E : Z → Z → Z) (L : nat) (p va : Z) : Prop :=
  match L with
  | O => True
  | S L' => let e := E p (vidx va L) in tbl e = true → open_entry e ∧ open_path E L' (phys e) va
  end.

Lemma open_empty E L p va : empty_row E p → open_path E L p va.
Proof.
  intros H. destruct L as [|L]; [done|]. cbn [open_path]. unfold tbl.
  by rewrite (H _ (vidx_range va (S L))).
Qed.

(** A path stays open when entries keep their rights, vanish, or are set, open,
    to an empty table. *)
Lemma open_path_sim T E E' :
  well_typed T E' →
  (∀ p L i, T !! p = Some (S L) → 0 ≤ i < 512 →
     equser (E p i) (E' p i) ∨ tbl (E' p i) = false ∨ (open_entry (E' p i) ∧ empty_row E' (phys (E' p i)))) →
  ∀ L p va, T !! p = Some L → open_path E L p va → open_path E' L p va.
Proof.
  intros HT Hsim. induction L as [|L IH]; intros p va Hp Ho; [done|]. cbn [open_path] in *. intros Ht.
  destruct (Hsim p L _ Hp (vidx_range va (S L))) as [He|[Hf|[He Hr]]]; [|congruence|].
  - rewrite (tbl_proper _ _ He), (phys_proper _ _ He) in Ho. destruct (Ho Ht) as [[H1 H2] Hrest].
    split; [split; [by rewrite <- (He 1 ltac:(lia) ltac:(lia))|by rewrite <- (He 63 ltac:(lia) ltac:(lia))]|].
    apply IH; [|done]. by apply (wt_child _ _ HT p L _ Hp (vidx_range _ _)).
  - split; [done|]. by apply open_empty.
Qed.

Lemma walk_open E t L : ∀ p va acc,
  leaf_table E L p va = Some t → present (E t (vidx va 0)) = true → open_path E L p va → open_entry acc →
  ∃ acc', open_entry acc' ∧ walk E L p va acc =
    Some (Z.lor (phys (E t (vidx va 0))) (Z.land va 4095),
          public_page_flags (combine_effective_flags acc' (E t (vidx va 0)))).
Proof.
  induction L as [|L IH]; intros p va acc Hl He Ho Ha; cbn [leaf_table] in Hl.
  - injection Hl as ->. exists acc. split; [done|]. cbn [walk]. by rewrite He.
  - destruct (tbl (E p _)) eqn:Etb; [|done]. cbn [open_path] in Ho. destruct (Ho Etb) as [[H1 H2] Hrest].
    apply tbl_true in Etb as [E1 E2]. destruct Ha as [A1 A2].
    destruct (IH _ _ (combine_effective_flags acc (E p (vidx va (S L)))) Hl He Hrest) as (acc' & Ha' & Hw).
    { unfold open_entry. rewrite !combine_testbit by lia.
      repeat (rewrite decide_True by lia || rewrite decide_False by lia). by rewrite H1, H2, A1, A2. }
    exists acc'. split; [done|]. cbn [walk]. rewrite E1, E2. exact Hw.
Qed.

(** Below an open path, the rights are the entry's. *)
Lemma open_flags acc e :
  open_entry acc →
  let f := public_page_flags (combine_effective_flags acc e) in
  Z.testbit f 1 = Z.testbit e 1 ∧ Z.testbit f 63 = Z.testbit e 63.
Proof.
  intros [A1 A2] f. unfold f. rewrite !public_testbit, !combine_testbit by lia.
  repeat (rewrite decide_True by lia || rewrite decide_False by lia). rewrite A1, A2.
  by rewrite !bool_decide_true, !andb_true_r, orb_false_r by lia.
Qed.

Lemma walk_leaf_none E t L : ∀ p va acc,
  leaf_table E L p va = Some t → present (E t (vidx va 0)) = false → walk E L p va acc = None.
Proof.
  induction L as [|L IH]; intros p va acc Hl He; cbn [leaf_table] in Hl.
  - injection Hl as ->. cbn [walk]. by rewrite He.
  - destruct (tbl (E p _)) eqn:Etb; [|done]. apply tbl_true in Etb as [E1 E2].
    cbn [walk]. rewrite E1, E2. by apply IH.
Qed.

(** ** Canonical addresses *)

Definition canonical (va : Z) : Prop := 0 ≤ va < USER_LIMIT ∨ KERNEL_BASE ≤ va < W64.

Lemma vidx_eq va L : vidx va L = (va / 2 ^ (12 + 9 * Z.of_nat L)) mod 512.
Proof.
  unfold vidx, page_table_index. change 0x1ff with (Z.ones 9).
  rewrite Z.land_ones, Z.shiftr_div_pow2 by lia. done.
Qed.

Lemma vidx3_user va : canonical va → va < USER_LIMIT ↔ vidx va 3 < 256.
Proof.
  intros H. rewrite vidx_eq. change (2 ^ (12 + 9 * Z.of_nat 3)) with 549755813888.
  unfold canonical, USER_LIMIT, KERNEL_BASE, W64 in *. zsolve.
Qed.

(** A canonical page is determined by its four indices. *)
Lemma vidx_inj va va' :
  canonical va → canonical va' → (∀ l, (l ≤ 3)%nat → vidx va l = vidx va' l) → va / 4096 = va' / 4096.
Proof.
  intros Hc Hc' H. pose proof (H 0%nat ltac:(lia)) as H0. pose proof (H 1%nat ltac:(lia)) as H1.
  pose proof (H 2%nat ltac:(lia)) as H2. pose proof (H 3%nat ltac:(lia)) as H3.
  rewrite !vidx_eq in H0, H1, H2, H3.
  change (2 ^ (12 + 9 * Z.of_nat 0)) with 4096 in *. change (2 ^ (12 + 9 * Z.of_nat 1)) with 2097152 in *.
  change (2 ^ (12 + 9 * Z.of_nat 2)) with 1073741824 in *.
  change (2 ^ (12 + 9 * Z.of_nat 3)) with 549755813888 in *.
  unfold canonical, USER_LIMIT, KERNEL_BASE, W64 in *. clear H. zsolve.
Qed.
