(* ===== verification/VmmSpec.v ===== *)
(** * What the virtual memory manager guarantees (src/mm/vmm.c)

    The theorems about Vmm.v.  [vm_inv T s] says that the tables [T] lie in
    mapped, allocated frames and are well typed (PageWalk.v).  Mapping is shown
    equal to a recursion over the levels ([map_rec]), which makes the goto-based
    roll-back a structural property. *)

From S2P Require Import Prelude Interfaces Vmm PageWalk.
From Stdlib Require Import ZArith Lia.
From stdpp Require Import gmap.
#[local] Open Scope Z_scope.

Section vmm.
Context {PM : Type} `{FA : FrameAllocator PM}.
Implicit Types s : vmm_state PM.
Implicit Types T : gmap Z nat.
Implicit Types E : Z → Z → Z.

(** ** Tables in memory *)

Definition ent s (p i : Z) : Z := load (slot (physical_to_virtual p s) i) s.

(** The fields that only [vmm_initialize] writes. *)
Definition config s : Z * Z * Z * bool :=
  (hhdm_offset s, pml4 s, kernel_pml4_phys s, initialized s).

Lemma config_hhdm s s' : config s' = config s → hhdm_offset s' = hhdm_offset s.
Proof. intros H. by injection H. Qed.

Definition addr_ok (hhdm p : Z) : Prop := 0 < p ∧ p mod 4096 = 0 ∧ hhdm + p + 4096 ≤ W64.

Record vm_inv T s : Prop := {
  vi_fa : fa_ok (frames s);
  vi_init : initialized s = true;
  vi_hhdm : 0 < hhdm_offset s ∧ hhdm_offset s mod 4096 = 0 ∧ hhdm_offset s + 2 ^ 36 ≤ W64;
  vi_addr p L : T !! p = Some L → addr_ok (hhdm_offset s) p;
  vi_free p L : T !! p = Some L → p / 4096 ∉ fa_free (frames s);
  vi_owned p L i : T !! p = Some (S L) → 0 ≤ i < 512 → tbl (ent s p i) = true →
    Z.testbit (ent s p i) 9 = true → phys (ent s p i) / 4096 ∈ fa_usable (frames s);
  vi_wt : well_typed T (ent s);
}.

Lemma slot_eq s p i :
  0 < hhdm_offset s → addr_ok (hhdm_offset s) p → 0 ≤ i < 512 →
  slot (physical_to_virtual p s) i = hhdm_offset s + p + 8 * i.
Proof.
  intros Hh (Hp & _ & Hw) Hi. unfold slot, physical_to_virtual.
  rewrite (u64_small (hhdm_offset s + p)) by (unfold is_u64; lia).
  apply u64_small. unfold is_u64. lia.
Qed.

Lemma ptv_nonzero s p :
  0 < hhdm_offset s → addr_ok (hhdm_offset s) p → physical_to_virtual p s ≠ 0.
Proof.
  intros Hh (Hp & _ & Hw). unfold physical_to_virtual.
  rewrite u64_small by (unfold is_u64; lia). lia.
Qed.

Lemma ent_store s p i v p' i' :
  0 < hhdm_offset s → addr_ok (hhdm_offset s) p → addr_ok (hhdm_offset s) p' →
  0 ≤ i < 512 → 0 ≤ i' < 512 →
  ent (store (slot (physical_to_virtual p s) i) v s) p' i' = upd (ent s) p i v p' i'.
Proof.
  intros Hh Hp Hp' Hi Hi'. unfold ent, load at 1.
  change (physical_to_virtual p' (store _ v s)) with (physical_to_virtual p' s). simpl.
  rewrite get0_insert_dec. unfold upd. rewrite !slot_eq by done.
  destruct Hp as (_ & Ha & _), Hp' as (_ & Ha' & _).
  destruct (decide (p' = p ∧ i' = i)) as [[-> ->]|N]; [by rewrite decide_True|].
  rewrite decide_False; [done|].
  intros Heq. apply N. zsolve.
Qed.

Definition zero E (g : Z) : Z → Z → Z := λ p i, if decide (p = g) then 0 else E p i.

Lemma clear_config table n : ∀ index s,
  let s' := clear_page_table table n index s in
  config s' = config s ∧ frames s' = frames s ∧ cr3 s' = cr3 s ∧ invalidated s' = invalidated s.
Proof.
  induction n as [|n IH]; intros index s; cbv zeta; cbn [clear_page_table]; [done|].
  destruct (IH (index + 1) (store (slot table index) 0 s)) as (-> & -> & -> & ->). done.
Qed.

Lemma ent_clear s g p i n index :
  0 < hhdm_offset s → addr_ok (hhdm_offset s) g → addr_ok (hhdm_offset s) p →
  0 ≤ i < 512 → 0 ≤ index → index + Z.of_nat n ≤ 512 →
  ent (clear_page_table (physical_to_virtual g s) n index s) p i
  = if decide (p = g ∧ index ≤ i < index + Z.of_nat n) then 0 else ent s p i.
Proof.
  intros Hh Hg Hp Hi. revert s Hh Hg Hp index. induction n as [|n IH]; intros s Hh Hg Hp index H0 Hn; cbn [clear_page_table].
  { rewrite decide_False by lia. done. }
  change (physical_to_virtual g s) with (physical_to_virtual g (store (slot (physical_to_virtual g s) index) 0 s)) at 1.
  rewrite IH by (simpl; done || lia). rewrite ent_store by (done || lia). unfold upd.
  destruct (decide (p = g ∧ index + 1 ≤ i < index + 1 + Z.of_nat n)) as [[-> ?]|N1].
  - rewrite decide_True by lia. done.
  - destruct (decide (p = g ∧ i = index)) as [[-> ->]|N2].
    + rewrite decide_True by lia. done.
    + rewrite decide_False; [done|]. intros [-> ?]. apply N1. split; [done|].
      destruct (decide (i = index)) as [->|]; [by destruct N2|lia].
Qed.

#[local] Arguments clear_page_table : simpl never.
#[local] Arguments release_owned_empty_table : simpl never.
#[local] Arguments next_table : simpl never.

Lemma ent_with_frames pm s : ent (with_frames pm s) = ent s.
Proof. done. Qed.

(** Allocation and release of a frame, as seen from the state. *)
Lemma allocate_frame_spec s :
  fa_ok (frames s) →
  (allocate_frame s = (0, s) ∧ fa_free (frames s) = ∅) ∨
  ∃ g pm, allocate_frame s = (g, with_frames pm s) ∧ g mod 4096 = 0 ∧ 4096 ≤ g < 2 ^ 36 ∧
    g / 4096 ∈ fa_free (frames s) ∧ fa_ok pm ∧ fa_usable pm = fa_usable (frames s) ∧
    fa_free pm = fa_free (frames s) ∖ {[g / 4096]}.
Proof.
  intros Hok. unfold allocate_frame. pose proof (fa_allocate_spec _ Hok) as H.
  destruct (fa_allocate (frames s)) as [a pm]. destruct H as (H1 & H2 & [(-> & H3 & ->)|(f & Hf & -> & H4)]).
  - left. split; [|done]. f_equal. by destruct s.
  - right. exists (f * 4096), pm. pose proof (fa_free_usable _ Hok _ Hf) as Hu.
    pose proof (fa_usable_range _ _ Hok Hu). rewrite Z.div_mul by lia.
    rewrite Z.mod_mul by lia. change (2 ^ 36) with 68719476736. split_and!; done || lia.
Qed.

Lemma free_frame_spec s q :
  fa_ok (frames s) → 0 ≤ q → q mod 4096 = 0 →
  q / 4096 ∈ fa_usable (frames s) → q / 4096 ∉ fa_free (frames s) →
  ∃ pm, free_frame q s = (true, with_frames pm s) ∧ fa_ok pm ∧ fa_usable pm = fa_usable (frames s) ∧
    fa_free pm = fa_free (frames s) ∪ {[q / 4096]}.
Proof.
  intros Hok Hq Ha Hu Hf. unfold free_frame. pose proof (fa_release_spec _ q Hok Hq) as H.
  assert (q = (q / 4096) * 4096) as Hq' by zsolve.
  destruct (fa_release q (frames s)) as [[] pm]; destruct H as (H1 & H2 & H3).
  - destruct H3 as (f & Hfe & _ & H3). exists pm. assert (f = q / 4096) as <- by lia. done.
  - destruct H3 as (_ & H3). exfalso. apply (H3 _ Hq'). apply elem_of_difference. done.
Qed.

(** ** The invariant under the four edits *)

(** The translations of all tables of [T] agree (up to the USER bit). *)
Definition walks_eq T E E' : Prop :=
  ∀ L p va acc acc', T !! p = Some L → equser acc acc' →
    up_to_user (walk E L p va acc) = up_to_user (walk E' L p va acc').

Lemma walks_eq_trans T T' E1 E2 E3 :
  T ⊆ T' → walks_eq T E1 E2 → walks_eq T' E2 E3 → walks_eq T E1 E3.
Proof.
  intros Hs H1 H2 L p va acc acc' Hp Ha. rewrite (H1 L p va acc acc' Hp Ha).
  apply H2; [|done]. by eapply lookup_weaken.
Qed.

Lemma walks_eq_weaken T T' E E' : T' ⊆ T → walks_eq T E E' → walks_eq T' E E'.
Proof. intros Hs H L p va acc acc' Hp Ha. apply H; [by eapply lookup_weaken|done]. Qed.

Lemma walks_eq_sim T E E' :
  well_typed T E →
  (∀ p L i, T !! p = Some L → 0 ≤ i < 512 →
     equser (E p i) (E' p i) ∨ (dead E L p i ∧ dead E' L p i)) → walks_eq T E E'.
Proof. intros HT Hs L p va acc acc' Hp Ha. by eapply walk_sim. Qed.

Lemma walks_eq_agree T E E' : well_typed T E → agree T E E' → walks_eq T E E'.
Proof. intros HT Ha. apply walks_eq_sim; [done|]. intros p L i Hp Hi. left. by rewrite (Ha p L i Hp Hi). Qed.

Lemma walks_eq_refl T E : well_typed T E → walks_eq T E E.
Proof. intros HT. by apply walks_eq_agree. Qed.

(** A state whose tables hold [E], with the configuration of [s]. *)
Lemma vm_inv_intro T s s' E :
  vm_inv T s → config s' = config s → fa_ok (frames s') → fa_usable (frames s') = fa_usable (frames s) →
  ∀ T', (∀ p L, T' !! p = Some L → addr_ok (hhdm_offset s) p ∧ p / 4096 ∉ fa_free (frames s')) →
  agree T' E (ent s') → well_typed T' E →
  (∀ p L i, T' !! p = Some (S L) → 0 ≤ i < 512 → tbl (E p i) = true → Z.testbit (E p i) 9 = true →
    phys (E p i) / 4096 ∈ fa_usable (frames s)) →
  vm_inv T' s'.
Proof.
  intros Hi Hc Hok Hu T' Ht Ha Hwt Ho. unfold config in Hc. injection Hc as Hc1 Hc2 Hc3 Hc4.
  split; [done|by rewrite Hc4; apply Hi|by rewrite Hc1; apply Hi|..].
  - intros p L Hp. rewrite Hc1. by eapply Ht.
  - intros p L Hp. by eapply Ht.
  - intros p L i Hp Hb. rewrite <- (Ha _ _ i Hp Hb), Hu. by eapply Ho.
  - by eapply well_typed_agree.
Qed.

(** Overwriting one entry. *)
Lemma vm_inv_store T s p L i v :
  vm_inv T s → T !! p = Some L → 0 ≤ i < 512 → well_typed T (upd (ent s) p i v) →
  (∀ L', L = S L' → tbl v = true → Z.testbit v 9 = true → phys v / 4096 ∈ fa_usable (frames s)) →
  vm_inv T (store (slot (physical_to_virtual p s) i) v s) ∧
  agree T (upd (ent s) p i v) (ent (store (slot (physical_to_virtual p s) i) v s)).
Proof.
  intros Hi Hp Hb Hwt Ho.
  assert (agree T (upd (ent s) p i v) (ent (store (slot (physical_to_virtual p s) i) v s))) as Ha.
  { intros p' L' i' Hp' Hi'. symmetry.
    apply ent_store; [apply Hi|by eapply (vi_addr _ _ Hi)|by eapply (vi_addr _ _ Hi)|done|done]. }
  split; [|done]. apply (vm_inv_intro T s _ (upd (ent s) p i v)); try done; try apply Hi.
  - intros p' L' Hp'. split; [by eapply (vi_addr _ _ Hi)|by eapply (vi_free _ _ Hi)].
  - intros p' L' i' Hp' Hi' Ht H9. upd_cases p i p' i'; [apply (Ho L'); [congruence|done|done]|].
    by eapply (vi_owned _ _ Hi).
Qed.

(** ** Descending one level *)

Lemma new_entry_bits g u :
  4096 ≤ g < 2 ^ 36 → g mod 4096 = 0 →
  let v := Z.lor (Z.lor (Z.lor g PAGE_PRESENT) VMM_PAGE_WRITABLE) PAGE_KOS_OWNED_TABLE in
  let v := if u : bool then Z.lor v PAGE_USER else v in
  tbl v = true ∧ phys v = g ∧ Z.testbit v 9 = true ∧ open_entry v.
Proof.
  intros Hg Ha. change (2 ^ 36) with 68719476736 in Hg.
  assert (phys g = g) as Hp by (apply phys_small; [change (2 ^ 52) with 4503599627370496; lia|done]).
  assert (Z.testbit g 7 = false) as H7.
  { rewrite <- Hp. rewrite phys_testbit by lia. by rewrite andb_false_r. }
  assert (Z.testbit g 63 = false) as H63 by (apply (testbit_high g 36); [change (2 ^ 36) with 68719476736|]; lia).
  unfold tbl, present, huge, open_entry.
  destruct u; cbv zeta; rewrite ?phys_lor, ?Hp, !Z.lor_spec, ?H7, ?H63, ?orb_true_r;
    (split; [done|split; [|split; [done|split; [by rewrite ?orb_true_r|done]]]]);
    repeat match goal with |- context [phys ?c] => change (phys c) with 0 end; by rewrite ?Z.lor_0_r.
Qed.

(** The three outcomes of [next_table] on entry [i] of a table [p] of level [S L]. *)
Variant next_outcome T s (p i : Z) (L : nat) : Z → bool → vmm_state PM → Prop :=
  | next_none :
      tbl (ent s p i) = false →
      (present (ent s p i) = false → fa_free (frames s) = ∅) →
      next_outcome T s p i L 0 false s
  | next_existing s' v :
      tbl (ent s p i) = true → equser v (ent s p i) → T !! phys v = Some L →
      config s' = config s → frames s' = frames s → vm_inv T s' →
      agree T (upd (ent s) p i v) (ent s') →
      next_outcome T s p i L (physical_to_virtual (phys v) s) false s'
  | next_created s' g v :
      present (ent s p i) = false → T !! g = None → g mod 4096 = 0 → g / 4096 ∈ fa_free (frames s) →
      tbl v = true → phys v = g → Z.testbit v 9 = true → open_entry v →
      config s' = config s → fa_usable (frames s') = fa_usable (frames s) →
      fa_free (frames s') = fa_free (frames s) ∖ {[g / 4096]} →
      vm_inv (<[g := L]> T) s' →
      agree (<[g := L]> T) (upd (zero (ent s) g) p i v) (ent s') →
      next_outcome T s p i L (physical_to_virtual g s) true s'.

Lemma next_table_existing T s p i L u :
  vm_inv T s → T !! p = Some (S L) → 0 ≤ i < 512 → tbl (ent s p i) = true →
  let a := slot (physical_to_virtual p s) i in
  let s' := if u : bool then store a (Z.lor (load a s) PAGE_USER) s else s in
  next_outcome T s p i L (physical_to_virtual (Z.land (load a s') PAGE_ADDRESS_MASK) s') false s'.
Proof.
  intros Hinv Hp Hi Ht a. destruct u.
  - simpl. set (v := Z.lor (load a s) PAGE_USER).
    assert (load a (store a v s) = v) as -> by apply get0_insert.
    assert (equser v (ent s p i)) as Hv by apply equser_set.
    assert (well_typed T (upd (ent s) p i v)) as Hwt by (apply well_typed_upd_same; [apply Hinv|done]).
    assert (T !! phys v = Some L) as Hc.
    { rewrite (phys_proper _ _ Hv). by apply (wt_child _ _ (vi_wt _ _ Hinv)). }
    destruct (vm_inv_store T s p (S L) i v Hinv Hp Hi Hwt) as [H1 H2].
    { intros L' HL Htv H9. injection HL as <-. rewrite (phys_proper _ _ Hv).
      apply (vi_owned _ _ Hinv p L i Hp Hi Ht). rewrite <- H9. symmetry. apply Hv; lia. }
    exact (next_existing T s p i L (store a v s) v Ht Hv Hc eq_refl eq_refl H1 H2).
  - apply (next_existing T s p i L s (ent s p i)); try done.
    + by apply (wt_child _ _ (vi_wt _ _ Hinv)).
    + intros p' L' i' Hp' Hi'. unfold upd. by case_decide as Hd; [destruct Hd; subst|].
Qed.

Lemma next_table_created T s p i L g pm v :
  vm_inv T s → T !! p = Some (S L) → 0 ≤ i < 512 → present (ent s p i) = false →
  g mod 4096 = 0 → 4096 ≤ g < 2 ^ 36 → g / 4096 ∈ fa_free (frames s) → fa_ok pm →
  fa_usable pm = fa_usable (frames s) → fa_free pm = fa_free (frames s) ∖ {[g / 4096]} →
  tbl v = true → phys v = g → Z.testbit v 9 = true → open_entry v →
  next_outcome T s p i L (physical_to_virtual g s) true
    (store (slot (physical_to_virtual p s) i) v
       (clear_page_table (physical_to_virtual g s) 512 0 (with_frames pm s))).
Proof.
  intros Hinv Hp Hi Hnp Ha Hg Hf Hpm Hu Hfr Ht Hph H9 Hopen.
  change (2 ^ 36) with 68719476736 in Hg.
  destruct (vi_hhdm _ _ Hinv) as (Hh & Hh2 & Hh3). change (2 ^ 36) with 68719476736 in Hh3.
  assert (addr_ok (hhdm_offset s) g) as Hga by (unfold addr_ok; split_and!; [lia|done|clear -Hh3 Hg Ha; zsolve]).
  assert (T !! g = None) as HgT.
  { destruct (T !! g) eqn:Eg; [|done]. by destruct (vi_free _ _ Hinv _ _ Eg). }
  assert (∃ s1, s1 = clear_page_table (physical_to_virtual g s) 512 0 (with_frames pm s)) as [s1 Es1] by eauto.
  rewrite <- Es1.
  destruct (clear_config (physical_to_virtual g s) 512 0 (with_frames pm s)) as (Hc & Hf1 & _).
  rewrite <- Es1 in Hc, Hf1. change (config (with_frames pm s)) with (config s) in Hc.
  change (frames (with_frames pm s)) with pm in Hf1.
  pose proof (config_hhdm _ _ Hc) as Hh1.
  assert (He1 : ∀ p' i', addr_ok (hhdm_offset s) p' → 0 ≤ i' < 512 → ent s1 p' i' = zero (ent s) g p' i').
  { intros p' i' Hp' Hi'. rewrite Es1.
    change (physical_to_virtual g s) with (physical_to_virtual g (with_frames pm s)).
    rewrite ent_clear by (done || lia). rewrite ent_with_frames. unfold zero.
    destruct (decide (p' = g)) as [->|]; [rewrite decide_True by lia|rewrite decide_False by naive_solver]; done. }
  clear Es1.
  assert (empty_row (zero (ent s) g) g) as Hrow.
  { intros j _. unfold zero. by rewrite decide_True. }
  assert (agree T (zero (ent s) g) (ent s)) as Hz.
  { intros p' L' i' Hp' _. unfold zero. rewrite decide_False by congruence. done. }
  assert (well_typed T (zero (ent s) g)) as Hwt.
  { eapply well_typed_agree; [apply Hinv|]. intros p' L' i' Hp' Hi'. symmetry. by eapply Hz. }
  assert (Haddr : ∀ p' L', <[g := L]> T !! p' = Some L' → addr_ok (hhdm_offset s) p').
  { intros p' L' [[<- _]|[_ Hp']]%lookup_insert_Some; [done|by eapply (vi_addr _ _ Hinv)]. }
  assert (agree (<[g := L]> T) (upd (zero (ent s) g) p i v)
            (ent (store (slot (physical_to_virtual p s) i) v s1))) as Hag.
  { intros p' L' i' Hp' Hi'. unfold physical_to_virtual. rewrite <- Hh1.
    fold (physical_to_virtual p s1). pose proof (vi_addr _ _ Hinv _ _ Hp).
    pose proof (Haddr _ _ Hp').
    rewrite ent_store by (rewrite ?Hh1; done). unfold upd. case_decide; [done|]. by rewrite He1. }
  set (s2 := store (slot (physical_to_virtual p s) i) v s1) in *.
  assert (frames s2 = pm) as Hf2 by exact Hf1. assert (config s2 = config s) as Hc2 by exact Hc. clearbody s2.
  apply (next_created T s p i L s2 g v); try done; [by rewrite Hf2|by rewrite Hf2|].
  apply (vm_inv_intro T s s2 (upd (zero (ent s) g) p i v) Hinv Hc2); try done;
    [by rewrite Hf2|by rewrite Hf2|..].
  - intros p' L' Hp'. split; [by eapply Haddr|]. rewrite Hf2, Hfr.
    apply lookup_insert_Some in Hp' as [[<- _]|[_ Hp']]; [set_solver|].
    pose proof (vi_free _ _ Hinv _ _ Hp'). set_solver.
  - apply well_typed_graft; try done.
  - intros p' L' i' Hp' Hi' Ht' H9'. upd_cases p i p' i'.
    + rewrite Hph. by apply (fa_free_usable _ (vi_fa _ _ Hinv)).
    + destruct (decide (p' = g)) as [->|]; [by rewrite (not_present_tbl _ (Hrow _ Hi')) in Ht'|].
      rewrite lookup_insert_ne in Hp' by done. unfold zero in Ht', H9' |- *.
      rewrite decide_False in * by done. by eapply (vi_owned _ _ Hinv).
Qed.

Lemma next_table_cases T s p i L va flags :
  vm_inv T s → T !! p = Some (S L) → 0 ≤ i < 512 →
  let '(t, created, s') := next_table (slot (physical_to_virtual p s) i) va flags s in
  next_outcome T s p i L t created s'.
Proof.
  intros Hinv Hp Hi. unfold next_table. rewrite land_PRESENT, land_HUGE.
  change (load (slot (physical_to_virtual p s) i) s) with (ent s p i).
  rewrite !negb_involutive. destruct (present (ent s p i)) eqn:Epr.
  - destruct (huge (ent s p i)) eqn:Eh.
    + apply next_none; [unfold tbl; by rewrite Eh, andb_false_r|congruence].
    + apply next_table_existing; [done..|]. unfold tbl. by rewrite Epr, Eh.
  - destruct (allocate_frame_spec s (vi_fa _ _ Hinv))
      as [[-> Hempty]|(g & pm & -> & Ha & Hg & Hf & Hok & Hu & Hfr)]; cbv beta iota zeta.
    + apply next_none; [by apply not_present_tbl|done].
    + destruct (Z.eqb_spec g 0); [lia|].
      destruct (new_entry_bits g ((va <? USER_LIMIT) || negb (Z.land flags VMM_PAGE_USER =? 0)) Hg Ha)
        as (H1 & H2 & H3 & H4).
      exact (next_table_created T s p i L g pm _ Hinv Hp Hi Epr Ha Hg Hf Hok Hu Hfr H1 H2 H3 H4).
Qed.

(** ** Releasing an empty table *)

Lemma page_table_is_empty_spec s q n : ∀ index,
  0 ≤ index → index + Z.of_nat n ≤ 512 →
  page_table_is_empty (physical_to_virtual q s) n index s = true ↔
  ∀ j, index ≤ j < index + Z.of_nat n → present (ent s q j) = false.
Proof.
  induction n as [|n IH]; intros index H0 Hn; cbn [page_table_is_empty].
  { split; [intros _ j Hj; lia|done]. }
  rewrite land_PRESENT, negb_involutive.
  change (load (slot (physical_to_virtual q s) index) s) with (ent s q index).
  destruct (present (ent s q index)) eqn:Ep.
  - split; [done|]. intros H. rewrite H in Ep by lia. done.
  - rewrite IH by lia. split; intros H j Hj.
    + destruct (decide (j = index)) as [->|]; [done|]. apply H. lia.
    + apply H. lia.
Qed.

Lemma owned_bits e :
  negb (Z.land e (Z.lor PAGE_PRESENT PAGE_KOS_OWNED_TABLE) =? Z.lor PAGE_PRESENT PAGE_KOS_OWNED_TABLE)
  = negb (present e && Z.testbit e 9).
Proof. apply (land_two_bits e 0 9); lia. Qed.

Lemma release_cases T s p i L :
  vm_inv T s → T !! p = Some (S L) → 0 ≤ i < 512 → tbl (ent s p i) = true →
  sole T (ent s) p i (phys (ent s p i)) →
  let q := phys (ent s p i) in
  let '(ok, s') := release_owned_empty_table (slot (physical_to_virtual p s) i) s in
  if ok then
    config s' = config s ∧ vm_inv (delete q T) s' ∧ agree (delete q T) (upd (ent s) p i 0) (ent s') ∧
    empty_row (ent s) q ∧ fa_usable (frames s') = fa_usable (frames s) ∧
    fa_free (frames s') = fa_free (frames s) ∪ {[q / 4096]}
  else s' = s ∧ ¬ (Z.testbit (ent s p i) 9 = true ∧ empty_row (ent s) q).
Proof.
  intros Hinv Hp Hi Ht Hs q. unfold release_owned_empty_table.
  change (load (slot (physical_to_virtual p s) i) s) with (ent s p i).
  rewrite owned_bits. assert (present (ent s p i) = true) as -> by (apply tbl_true in Ht; apply Ht).
  destruct (Z.testbit (ent s p i) 9) eqn:E9; cbn [andb negb]; [|by split; [|intros []]].
  change (Z.land (ent s p i) PAGE_ADDRESS_MASK) with q.
  pose proof (page_table_is_empty_spec s q 512 0 ltac:(lia) ltac:(lia)) as Hem.
  change (0 + Z.of_nat 512) with 512 in Hem. fold (empty_row (ent s) q) in Hem.
  destruct (page_table_is_empty _ 512 0 s); cbn [negb].
  2:{ split; [done|]. intros [_ He]. apply Hem in He. done. }
  assert (empty_row (ent s) q) as He by (by apply Hem). clear Hem.
  pose proof (wt_child _ _ (vi_wt _ _ Hinv) p L i Hp Hi Ht) as Hq. fold q in Hq.
  set (s1 := store (slot (physical_to_virtual p s) i) 0 s).
  destruct (free_frame_spec s1 q) as (pm & -> & Hok & Hu & Hf).
  { apply (vi_fa _ _ Hinv). } { apply phys_nonneg. } { apply phys_aligned. }
  { by apply (vi_owned _ _ Hinv p L i). } { by apply (vi_free _ _ Hinv q L). }
  assert (agree (delete q T) (upd (ent s) p i 0) (ent s1)) as Hag.
  { intros p' L' i' [_ Hp']%lookup_delete_Some Hi'. symmetry.
    apply ent_store; [apply Hinv|by eapply (vi_addr _ _ Hinv)|by eapply (vi_addr _ _ Hinv)|done|done]. }
  split_and!; try done.
  apply (vm_inv_intro T s _ (upd (ent s) p i 0) Hinv); try done.
  - intros p' L' [Hne Hp']%lookup_delete_Some. split; [by eapply (vi_addr _ _ Hinv)|].
    change (frames (with_frames pm s1)) with pm. rewrite Hf. change (frames s1) with (frames s).
    pose proof (vi_free _ _ Hinv _ _ Hp') as Hnf.
    pose proof (vi_addr _ _ Hinv _ _ Hp') as (_ & Ha' & _).
    pose proof (vi_addr _ _ Hinv _ _ Hq) as (_ & Ha & _).
    intros [Hin|Heq%elem_of_singleton]%elem_of_union; [done|]. apply Hne. clear -Heq Ha Ha'. zsolve.
  - apply well_typed_prune; [apply Hinv|done].
  - intros p' L' i' [Hne Hp']%lookup_delete_Some Hi' Ht' H9. upd_cases p i p' i'; [done|].
    by eapply (vi_owned _ _ Hinv).
Qed.

(** Pruning an empty table does not change a translation. *)
Lemma walks_eq_prune T E p i L :
  well_typed T E → T !! p = Some (S L) → 0 ≤ i < 512 → tbl (E p i) = true → empty_row E (phys (E p i)) →
  walks_eq T E (upd E p i 0).
Proof.
  intros HT Hp Hi Ht He. apply walks_eq_sim; [done|]. intros p' L' i' Hp' Hi'.
  upd_cases p i p' i'; [right|by left]. split; [|left; by rewrite upd_eq].
  right. split_and!; [congruence|done|done].
Qed.

(** Neither does grafting an empty one. *)
Lemma walks_eq_graft T E p i L g v :
  well_typed T E → T !! p = Some (S L) → T !! g = None → present (E p i) = false →
  tbl v = true → phys v = g → walks_eq T E (upd (zero E g) p i v).
Proof.
  intros HT Hp Hg Hnp Ht Hph. apply walks_eq_sim; [done|]. intros p' L' i' Hp' Hi'.
  destruct (decide (p' = p ∧ i' = i)) as [[-> ->]|N].
  - right. split; [by left|]. right. rewrite upd_eq. split_and!; [congruence|done|].
    intros j Hj. rewrite Hph. rewrite upd_ne by (intros [-> _]; congruence).
    unfold zero. by rewrite decide_True.
  - left. rewrite upd_ne by done. unfold zero. by rewrite decide_False by congruence.
Qed.

(** ** Mapping, level by level *)

(** [vmm_map_page_in] after its guards, as a recursion over the levels. *)
Fixpoint map_rec (L : nat) (table va flags v : Z) s : bool * vmm_state PM :=
  let entry := slot table (vidx va L) in
  match L with
  | O => if negb (Z.land (load entry s) PAGE_PRESENT =? 0) then (false, s) else (true, store entry v s)
  | S L' =>
      let '(t, created, s) := next_table entry va flags s in
      if t =? 0 then (false, s)
      else
        let '(ok, s) := map_rec L' t va flags v s in
        if ok then (true, s) else (false, rollback created entry s)
  end.

Definition leaf_value (pa flags : Z) : Z :=
  Z.lor (Z.lor (Z.lor (Z.land pa PAGE_ADDRESS_MASK) PAGE_PRESENT) PAGE_KOS_OWNED_MAPPING) flags.

Lemma vmm_map_page_in_rec p va pa flags s :
  vmm_map_page_in p va pa flags s =
  if negb (map_arguments_ok p va pa flags) then (false, s)
  else if negb (initialized s) then (false, s)
  else let '(ok, s') := map_rec 3 (physical_to_virtual p s) va flags (leaf_value pa flags) s in
       (ok, if ok then invalidate_if_current p va s' else s').
Proof.
  unfold vmm_map_page_in. destruct (map_arguments_ok _ _ _ _); [|done].
  destruct (initialized s); [|done]. cbn [negb map_rec].
  change (vidx va 3) with (page_table_index va 39). change (vidx va 2) with (page_table_index va 30).
  change (vidx va 1) with (page_table_index va 21). change (vidx va 0) with (page_table_index va 12).
  destruct (next_table _ va flags s) as [[pdpt c1] s1]. destruct (pdpt =? 0); [done|].
  destruct (next_table _ va flags s1) as [[dir c2] s2]. destruct (dir =? 0); [done|].
  destruct (next_table _ va flags s2) as [[tb c3] s3]. destruct (tb =? 0); [done|].
  destruct (Z.land _ PAGE_PRESENT =? 0); done.
Qed.

(** Tables above level [L] are left alone. *)
Definition above_same T s s' (L : nat) : Prop :=
  ∀ p L' i, T !! p = Some L' → (L < L')%nat → 0 ≤ i < 512 → ent s' p i = ent s p i.

(** Open paths stay open. *)
Definition open_kept T s s' : Prop :=
  ∀ p L va, T !! p = Some L → open_path (ent s) L p va → open_path (ent s') L p va.

Lemma open_kept_refl T s : open_kept T s s.
Proof. by intros p L va. Qed.

Lemma open_kept_trans T T' s s1 s2 : T ⊆ T' → open_kept T s s1 → open_kept T' s1 s2 → open_kept T s s2.
Proof.
  intros Hs H1 H2 p L va Hp Ho. apply (H2 p L va); [by eapply lookup_weaken|]. by apply (H1 p L va).
Qed.

(** Changes of USER bits only. *)
Lemma open_kept_user T s s' :
  vm_inv T s' → (∀ p L i, T !! p = Some (S L) → 0 ≤ i < 512 → equser (ent s p i) (ent s' p i)) → open_kept T s s'.
Proof.
  intros Hi H p L va. apply open_path_sim; [apply Hi|]. intros q L' i Hq Hb. left. by eapply H.
Qed.

Record map_failed T s s' (L : nat) (p va : Z) : Prop := {
  mf_config : config s' = config s;
  mf_inv : vm_inv T s';
  mf_walks : walks_eq T (ent s) (ent s');
  mf_usable : fa_usable (frames s') = fa_usable (frames s);
  mf_free : fa_free (frames s') = fa_free (frames s);
  mf_empty q L' : T !! q = Some L' → empty_row (ent s) q → empty_row (ent s') q;
  mf_above : above_same T s s' L;
  mf_reason : (∀ acc, walk (ent s) L p va acc ≠ None) ∨ (size (fa_free (frames s)) < L)%nat;
  mf_open : open_kept T s s';
}.

Record map_done T s T' s' (L : nat) (p va v t : Z) E1 : Prop := {
  md_config : config s' = config s;
  md_tables : T ⊆ T';
  md_new p' L' : T' !! p' = Some L' → (L ≤ L')%nat → T !! p' = Some L';
  md_inv : vm_inv T' s';
  md_wt : well_typed T' E1;
  md_leaf : T' !! t = Some O;
  md_path : leaf_table E1 L p va = Some t;
  md_unmapped : present (E1 t (vidx va 0)) = false;
  md_agree : agree T' (upd E1 t (vidx va 0) v) (ent s');
  md_walks : walks_eq T (ent s) E1;
  md_above : above_same T s s' L;
  md_usable : fa_usable (frames s') = fa_usable (frames s);
  md_free : fa_free (frames s') ⊆ fa_free (frames s);
  md_used f : f ∈ fa_free (frames s) → f ∉ fa_free (frames s') → is_Some (T' !! (f * 4096));
  md_fresh p' L' : T' !! p' = Some L' → T !! p' = Some L' ∨ p' / 4096 ∈ fa_free (frames s);
  md_size : (size (fa_free (frames s)) ≤ size (fa_free (frames s')) + L)%nat;
  md_open : open_kept T s s';
}.

Lemma map_rec_leaf T s p va flags v :
  vm_inv T s → T !! p = Some O →
  let '(ok, s') := map_rec 0 (physical_to_virtual p s) va flags v s in
  if ok then ∃ T' t E1, map_done T s T' s' 0 p va v t E1 else map_failed T s s' 0 p va.
Proof.
  intros Hinv Hp. cbn [map_rec].
  change (load (slot (physical_to_virtual p s) (vidx va 0)) s) with (ent s p (vidx va 0)).
  rewrite land_PRESENT, negb_involutive. destruct (present _) eqn:Ep.
  - split; try done; [apply walks_eq_refl, Hinv| |apply open_kept_refl]. left. intros acc. cbn [walk]. by rewrite Ep.
  - destruct (vm_inv_store T s p 0 (vidx va 0) v Hinv Hp (vidx_range _ _)) as [H1 H2]; [|done|].
    { apply well_typed_upd_leaf; [apply Hinv|done]. }
    assert (Habove : ∀ p' L' i, T !! p' = Some L' → (0 < L')%nat → 0 ≤ i < 512 →
      ent (store (slot (physical_to_virtual p s) (vidx va 0)) v s) p' i = ent s p' i).
    { intros p' L' i Hp' HL Hi. rewrite <- (H2 p' L' i Hp' Hi).
      apply upd_ne. intros [-> _]. rewrite Hp in Hp'. injection Hp' as <-. lia. }
    exists T, p, (ent s). split; try done; try apply Hinv; [apply walks_eq_refl, Hinv|by left|simpl; lia|].
    apply open_kept_user; [done|]. intros p' L' i Hp' Hi. rewrite (Habove p' (S L') i Hp') by (done || lia). done.
Qed.

(** The step of the recursion when the entry already points to a table. *)
Lemma map_step_existing_failed T s s1 s2 p va L e :
  vm_inv T s → T !! p = Some (S L) → tbl (ent s p (vidx va (S L))) = true →
  equser e (ent s p (vidx va (S L))) → T !! phys e = Some L →
  config s1 = config s → frames s1 = frames s → vm_inv T s1 → agree T (upd (ent s) p (vidx va (S L)) e) (ent s1) →
  map_failed T s1 s2 L (phys e) va → map_failed T s s2 (S L) p va.
Proof.
  set (i := vidx va (S L)). intros Hinv Hp Ht He Hq Hc Hf Hinv1 Hag Hm.
  assert (Hu : ∀ p' L' i', T !! p' = Some L' → 0 ≤ i' < 512 → equser (ent s1 p' i') (ent s p' i')).
  { intros p' L' i' Hp' Hi'. rewrite <- (Hag _ _ _ Hp' Hi'). upd_cases p i p' i'; done. }
  assert (walks_eq T (ent s) (ent s1)) as Hw.
  { apply walks_eq_sim; [apply Hinv|]. intros p' L' i' Hp' Hi'. left. symmetry. by eapply Hu. }
  split.
  - by rewrite (mf_config _ _ _ _ _ _ Hm).
  - apply Hm.
  - eapply walks_eq_trans; [done|done|apply Hm].
  - by rewrite (mf_usable _ _ _ _ _ _ Hm), Hf.
  - by rewrite (mf_free _ _ _ _ _ _ Hm), Hf.
  - intros q L' HqT Hr. apply (mf_empty _ _ _ _ _ _ Hm q L' HqT). intros j Hj.
    rewrite (present_proper _ _ (Hu _ _ _ HqT Hj)). by apply Hr.
  - intros p' L' i' Hp' HL Hi'. rewrite (mf_above _ _ _ _ _ _ Hm p' L' i' Hp') by (done || lia).
    rewrite <- (Hag _ _ _ Hp' Hi'). apply upd_ne. intros [-> _]. rewrite Hp in Hp'.
    injection Hp' as <-. lia.
  - destruct (mf_reason _ _ _ _ _ _ Hm) as [Hr|Hr]; [left|right; rewrite <- Hf; lia].
    intros acc Hn. specialize (Hw (S L) p va acc acc Hp ltac:(done)). rewrite Hn in Hw. symmetry in Hw.
    apply fmap_None in Hw. cbn [walk] in Hw. fold i in Hw.
    assert (ent s1 p i = e) as Hei.
    { rewrite <- (Hag p _ i Hp (vidx_range _ _)). apply upd_eq. }
    rewrite Hei in Hw. assert (tbl e = true) as Hte by (by rewrite (tbl_proper _ _ He)).
    apply tbl_true in Hte as [Hpe Hhe]. rewrite Hpe, Hhe in Hw. by apply (Hr _ Hw).
  - eapply (open_kept_trans T T); [done| |apply Hm]. apply open_kept_user; [done|].
    intros p' L' i' Hp' Hi'. symmetry. by eapply Hu.
Qed.

Lemma map_step_existing_done T s s1 T' s2 p va L e v t E1 :
  vm_inv T s → T !! p = Some (S L) → tbl (ent s p (vidx va (S L))) = true →
  equser e (ent s p (vidx va (S L))) → T !! phys e = Some L →
  config s1 = config s → frames s1 = frames s → vm_inv T s1 → agree T (upd (ent s) p (vidx va (S L)) e) (ent s1) →
  map_done T s1 T' s2 L (phys e) va v t E1 → map_done T s T' s2 (S L) p va v t E1.
Proof.
  set (i := vidx va (S L)). intros Hinv Hp Ht He Hq Hc Hf Hinv1 Hag Hm.
  assert (walks_eq T (ent s) (ent s1)) as Hw.
  { apply walks_eq_sim; [apply Hinv|]. intros p' L' i' Hp' Hi'. left.
    rewrite <- (Hag _ _ _ Hp' Hi'). upd_cases p i p' i'; done. }
  assert (E1 p i = e) as HE.
  { pose proof (lookup_weaken _ _ _ _ Hp (md_tables _ _ _ _ _ _ _ _ _ _ Hm)) as Hp'.
    pose proof (md_agree _ _ _ _ _ _ _ _ _ _ Hm p _ i Hp' (vidx_range _ _)) as Ha.
    rewrite upd_ne in Ha by (intros [-> _]; pose proof (md_leaf _ _ _ _ _ _ _ _ _ _ Hm); congruence).
    rewrite Ha, (md_above _ _ _ _ _ _ _ _ _ _ Hm p _ i Hp) by (auto with kos lia || apply vidx_range).
    rewrite <- (Hag p _ i Hp (vidx_range _ _)). apply upd_eq. }
  destruct Hm as [H1 H2 H3 H4 H5 H6 H7 H8 H9 H10 H11 H12 H13 H14 H15 H16 H17].
  split; try done.
  - by rewrite H1.
  - intros p' L' Hp' HL. apply H3; [done|lia].
  - cbn [leaf_table]. fold i. rewrite HE, (tbl_proper _ _ He), Ht. done.
  - eapply walks_eq_trans; [|exact Hw|exact H10]. done.
  - intros p' L' i' Hp' HL Hi'. rewrite (H11 p' L' i' Hp') by (done || lia).
    rewrite <- (Hag _ _ _ Hp' Hi'). apply upd_ne. intros [-> _]. rewrite Hp in Hp'.
    injection Hp' as <-. lia.
  - by rewrite H12, Hf.
  - by rewrite <- Hf.
  - intros f. rewrite <- Hf. apply H14.
  - intros p' L'. rewrite <- Hf. apply H15.
  - rewrite <- Hf. lia.
  - eapply (open_kept_trans T T); [done| |exact H17]. apply open_kept_user; [done|].
    intros p' L' i' Hp' Hi'. rewrite <- (Hag _ _ _ Hp' Hi'). upd_cases p i p' i'; done.
Qed.

(** The step when a table was created. *)
Section created.
Context (T : gmap Z nat) (s s1 : vmm_state PM) (p va : Z) (L : nat) (g e : Z).
Let i := vidx va (S L).
Context (Hinv : vm_inv T s) (Hp : T !! p = Some (S L)) (Hnp : present (ent s p i) = false)
  (Hg : T !! g = None) (Hgf : g / 4096 ∈ fa_free (frames s)) (Hga : g mod 4096 = 0)
  (Ht : tbl e = true) (Hph : phys e = g) (H9 : Z.testbit e 9 = true) (Hopen : open_entry e)
  (Hc : config s1 = config s) (Hus : fa_usable (frames s1) = fa_usable (frames s))
  (Hfr : fa_free (frames s1) = fa_free (frames s) ∖ {[g / 4096]})
  (Hinv1 : vm_inv (<[g := L]> T) s1)
  (Hag : agree (<[g := L]> T) (upd (zero (ent s) g) p i e) (ent s1)).

#[local] Lemma created_le : T ⊆ <[g := L]> T.
Proof. by apply insert_subseteq. Qed.

#[local] Lemma created_parent : <[g := L]> T !! p = Some (S L).
Proof. eapply lookup_weaken; [exact Hp|apply created_le]. Qed.

#[local] Lemma created_entry : ent s1 p i = e.
Proof. rewrite <- (Hag p _ i created_parent (vidx_range _ _)). apply upd_eq. Qed.

#[local] Lemma created_row : empty_row (ent s1) g.
Proof.
  intros j Hj. rewrite <- (Hag g L j) by (rewrite ?lookup_insert_eq; done).
  rewrite upd_ne by (intros [-> _]; congruence). unfold zero. by rewrite decide_True.
Qed.

#[local] Lemma created_other p' L' j :
  T !! p' = Some L' → 0 ≤ j < 512 → ¬ (p' = p ∧ j = i) → ent s1 p' j = ent s p' j.
Proof.
  intros Hp' Hj N. rewrite <- (Hag p' L' j); [|by eapply lookup_weaken, created_le|done].
  rewrite upd_ne by done. unfold zero. by rewrite decide_False by congruence.
Qed.

#[local] Lemma created_above : above_same T s s1 (S L).
Proof.
  intros p' L' j Hp' HL Hj. eapply created_other; [done..|]. intros [-> _].
  rewrite Hp in Hp'. injection Hp' as <-. lia.
Qed.

#[local] Lemma created_walks : walks_eq T (ent s) (ent s1).
Proof.
  apply (walks_eq_trans T T _ (upd (zero (ent s) g) p i e)); [done|..].
  - eapply walks_eq_graft; try done. apply Hinv.
  - intros L' p' va' a a' Hp' Ha.
    apply (walks_eq_agree (<[g := L]> T)); [|exact Hag|by eapply lookup_weaken, created_le|done].
    eapply well_typed_agree; [apply Hinv1|]. intros ? ? ? ? ?. symmetry. by eapply Hag.
Qed.

#[local] Lemma created_open : open_kept T s s1.
Proof.
  intros p' L' va' Hp' Ho.
  apply (open_path_sim (<[g := L]> T) (zero (ent s) g) (ent s1)).
  - apply Hinv1.
  - intros q L2 j Hq Hj. rewrite <- (Hag q _ j Hq Hj). upd_cases p i q j; [|by left].
    right. right. rewrite Hph. split; [done|]. apply created_row.
  - by eapply lookup_weaken, created_le.
  - revert p' va' Hp' Ho. induction L' as [|L' IH]; intros p' va' Hp' Ho; [done|]. cbn [open_path] in *.
    unfold zero at 1 2 3 4. rewrite !decide_False by congruence. intros Htb. destruct (Ho Htb) as [H1 H2].
    split; [done|]. apply IH; [|done]. by apply (wt_child _ _ (vi_wt _ _ Hinv) p' L' _ Hp' (vidx_range _ _)).
Qed.

Lemma map_step_created_done T' s2 v t E1 :
  map_done (<[g := L]> T) s1 T' s2 L g va v t E1 → map_done T s T' s2 (S L) p va v t E1.
Proof.
  intros Hm.
  assert (E1 p i = e) as HE.
  { pose proof (lookup_weaken _ _ _ _ created_parent (md_tables _ _ _ _ _ _ _ _ _ _ Hm)) as Hp'.
    pose proof (md_agree _ _ _ _ _ _ _ _ _ _ Hm p _ i Hp' (vidx_range _ _)) as Ha.
    rewrite upd_ne in Ha by (intros [-> _]; pose proof (md_leaf _ _ _ _ _ _ _ _ _ _ Hm); congruence).
    rewrite Ha, (md_above _ _ _ _ _ _ _ _ _ _ Hm p _ i created_parent) by (lia || apply vidx_range).
    apply created_entry. }
  destruct Hm as [M1 M2 M3 M4 M5 M6 M7 M8 M9 M10 M11 M12 M13 M14 M15 M16 M17]. split; try done.
  - by rewrite M1.
  - etrans; [apply created_le|done].
  - intros p' L' Hp' HL. specialize (M3 p' L' Hp' ltac:(lia)).
    apply lookup_insert_Some in M3 as [[_ <-]|[_ ?]]; [lia|done].
  - cbn [leaf_table]. fold i. by rewrite HE, Ht, Hph.
  - eapply walks_eq_trans; [apply created_le|apply created_walks|done].
  - intros p' L' j Hp' HL Hj.
    rewrite (M11 p' L' j) by (done || lia || by eapply lookup_weaken, created_le).
    by eapply created_above.
  - by rewrite M12.
  - rewrite Hfr in M13. set_solver.
  - intros f Hf Hf'. destruct (decide (f = g / 4096)) as [->|].
    + replace (g / 4096 * 4096) with g by (clear -Hga; zsolve). exists L.
      eapply lookup_weaken; [|exact M2]. apply lookup_insert_eq.
    + apply M14; [|done]. rewrite Hfr. set_solver.
  - intros p' L' Hp'. destruct (M15 p' L' Hp') as [H|H]; [|right; rewrite Hfr in H; set_solver].
    apply lookup_insert_Some in H as [[<- _]|[_ ?]]; [by right|by left].
  - rewrite Hfr, size_difference, size_singleton in M16 by (by apply singleton_subseteq_l). lia.
  - eapply open_kept_trans; [apply created_le|apply created_open|exact M17].
Qed.

(** After the failure below it, the new table is still empty, has no other
    parent, and is released. *)
#[local] Lemma created_sole s2 :
  vm_inv (<[g := L]> T) s2 → above_same (<[g := L]> T) s1 s2 L → sole (<[g := L]> T) (ent s2) p i g.
Proof.
  intros Hinv2 Ha p' L' j Hp' Hj Ht' Heq.
  pose proof (wt_child _ _ (vi_wt _ _ Hinv2) _ _ _ Hp' Hj Ht') as Hl.
  rewrite Heq, lookup_insert_eq in Hl. injection Hl as <-.
  rewrite (Ha p' _ j Hp') in Ht', Heq by (done || lia).
  destruct (decide (p' = p ∧ j = i)) as [|N]; [done|]. exfalso.
  destruct (decide (p' = g)) as [->|]; [rewrite lookup_insert_eq in Hp'; injection Hp'; lia|].
  rewrite lookup_insert_ne in Hp' by done.
  rewrite (created_other p' _ j Hp' Hj N) in Ht', Heq.
  pose proof (wt_child _ _ (vi_wt _ _ Hinv) _ _ _ Hp' Hj Ht'). congruence.
Qed.

Lemma map_step_created_failed s2 :
  map_failed (<[g := L]> T) s1 s2 L g va →
  map_failed T s (rollback true (slot (physical_to_virtual p s) i) s2) (S L) p va.
Proof.
  intros [M1 M2 M3 M4 M5 M6 M7 M8 M9]. pose proof (created_sole s2 M2 M7) as Hs.
  assert (ent s2 p i = e) as He2.
  { rewrite (M7 p (S L) i created_parent) by (lia || apply vidx_range). apply created_entry. }
  assert (empty_row (ent s2) g) as Hr2 by (apply (M6 g L); [apply lookup_insert_eq|apply created_row]).
  pose proof (release_cases _ s2 p i L M2 created_parent (vidx_range _ _)) as Hrel. rewrite He2, Hph in Hrel.
  specialize (Hrel Ht Hs). unfold rollback.
  assert (physical_to_virtual p s = physical_to_virtual p s2) as ->.
  { unfold physical_to_virtual. do 2 f_equal. symmetry. apply config_hhdm. by rewrite M1. }
  destruct (release_owned_empty_table _ s2) as [[] s3]; [|by destruct Hrel as [_ []]].
  destruct Hrel as (R1 & R2 & R3 & _ & R5 & R6). rewrite delete_insert_id in R2, R3 by done. simpl.
  assert (He3 : ∀ p' L' j, T !! p' = Some L' → 0 ≤ j < 512 →
            ent s3 p' j = if decide (p' = p ∧ j = i) then 0 else ent s2 p' j).
  { intros p' L' j Hp' Hj. by rewrite <- (R3 p' L' j Hp' Hj). }
  split.
  - by rewrite R1, M1.
  - done.
  - apply (walks_eq_trans T T _ (ent s2)); [done|..].
    { eapply walks_eq_trans; [apply created_le|apply created_walks|done]. }
    apply (walks_eq_trans T T _ (upd (ent s2) p i 0)); [done|..].
    + intros L' p' va' a a' Hp' Ha. eapply (walks_eq_prune (<[g := L]> T)); try done.
      * apply M2. * apply created_parent. * apply vidx_range. * by rewrite He2. * by rewrite He2, Hph.
      * by eapply lookup_weaken, created_le.
    + apply walks_eq_agree; [|done]. eapply well_typed_agree; [apply R2|].
      intros ? ? ? ? ?. symmetry. by eapply R3.
  - by rewrite R5, M4.
  - rewrite R6, M5, Hfr. apply set_eq. intros x. clear -Hgf.
    destruct (decide (x = g / 4096)) as [->|]; set_solver.
  - intros q L' HqT Hrow j Hj. rewrite (He3 _ _ _ HqT Hj). case_decide as Hd; [done|].
    destruct (decide (q = p)) as [->|].
    + rewrite (M7 p (S L) j created_parent), (created_other p (S L) j Hp) by (done || lia). by apply Hrow.
    + apply (M6 q L'); [by eapply lookup_weaken, created_le| |done]. intros j' Hj'.
      rewrite (created_other q L' j' HqT Hj') by (by intros []). by apply Hrow.
  - intros p' L' j Hp' HL Hj. rewrite (He3 _ _ _ Hp' Hj), decide_False.
    + rewrite (M7 p' L' j) by (done || lia || by eapply lookup_weaken, created_le).
      by eapply created_above.
    + intros [-> _]. rewrite Hp in Hp'. injection Hp' as <-. lia.
  - destruct M8 as [Hn|Hn].
    + destruct (Hn ACC0). apply walk_dead. left. apply created_row, vidx_range.
    + right. rewrite Hfr in Hn.
      set (f := g / 4096) in *.
      assert (size (fa_free (frames s)) ≤ S (size (fa_free (frames s) ∖ {[f]})))%nat; [|lia].
      rewrite size_difference by (apply singleton_subseteq_l; done). rewrite size_singleton. lia.
  - intros p' L' va' Hp' Ho. apply (open_path_sim T (ent s2)); [apply R2| |done|].
    + intros q L2 j Hq Hj. rewrite (He3 _ _ _ Hq Hj). case_decide; [by right; left|by left].
    + apply (M9 p' L' va'); [by eapply lookup_weaken, created_le|]. by apply created_open.
Qed.

End created.

Lemma map_step_none T s p va L :
  vm_inv T s → T !! p = Some (S L) → tbl (ent s p (vidx va (S L))) = false →
  (present (ent s p (vidx va (S L))) = false → fa_free (frames s) = ∅) → map_failed T s s (S L) p va.
Proof.
  intros Hinv Hp Ht Hn. split; try done; [apply walks_eq_refl, Hinv| |apply open_kept_refl].
  destruct (present (ent s p (vidx va (S L)))) eqn:Epr.
  - left. intros acc. cbn [walk]. rewrite Epr.
    assert (huge (ent s p (vidx va (S L))) = true) as Eh.
    { unfold tbl in Ht. rewrite Epr in Ht. by apply negb_false_iff in Ht. }
    rewrite Eh. cbn [negb andb]. destruct (Nat.ltb_spec (S L) 3) as [|Hge]; [done|].
    pose proof (wt_level _ _ (vi_wt _ _ Hinv) _ _ Hp). assert (L = 2%nat) as -> by lia.
    by rewrite (wt_top _ _ (vi_wt _ _ Hinv) p _ Hp (vidx_range va 3) Epr) in Eh.
  - right. rewrite Hn by done. rewrite size_empty. lia.
Qed.

Lemma map_rec_spec va flags v L : ∀ T s p,
  vm_inv T s → T !! p = Some L →
  let '(ok, s') := map_rec L (physical_to_virtual p s) va flags v s in
  if ok then ∃ T' t E1, map_done T s T' s' L p va v t E1 else map_failed T s s' L p va.
Proof.
  induction L as [|L IH]; intros T s p Hinv Hp; [by apply map_rec_leaf|].
  cbn [map_rec].
  pose proof (next_table_cases T s p (vidx va (S L)) L va flags Hinv Hp (vidx_range _ _)) as Hn.
  destruct (next_table _ va flags s) as [[t c] s1].
  pose proof (vi_hhdm _ _ Hinv) as (Hh & _ & _).
  destruct Hn as [Ht Hn|s1 e Ht He Hq Hc Hf Hinv1 Hag|s1 g e Hnp Hg Hga Hgf Ht Hph H9 Hopen Hc Hus Hfr Hinv1 Hag].
  - by apply map_step_none.
  - destruct (Z.eqb_spec (physical_to_virtual (phys e) s) 0) as [H0|_].
    { by destruct (ptv_nonzero s (phys e) Hh (vi_addr _ _ Hinv _ _ Hq)). }
    specialize (IH T s1 (phys e) Hinv1 Hq).
    replace (physical_to_virtual (phys e) s1) with (physical_to_virtual (phys e) s) in IH
      by (unfold physical_to_virtual; by rewrite (config_hhdm _ _ Hc)).
    destruct (map_rec L _ va flags v s1) as [[] s2].
    + destruct IH as (T' & t & E1 & IH). exists T', t, E1. by eapply map_step_existing_done.
    + by eapply map_step_existing_failed.
  - assert (<[g := L]> T !! g = Some L) as Hgl by apply lookup_insert_eq.
    pose proof (vi_addr _ _ Hinv1 _ _ Hgl) as Hao. rewrite (config_hhdm _ _ Hc) in Hao.
    destruct (Z.eqb_spec (physical_to_virtual g s) 0) as [H0|_]; [by destruct (ptv_nonzero s g Hh Hao)|].
    specialize (IH _ s1 g Hinv1 Hgl).
    replace (physical_to_virtual g s1) with (physical_to_virtual g s) in IH
      by (unfold physical_to_virtual; by rewrite (config_hhdm _ _ Hc)).
    destruct (map_rec L _ va flags v s1) as [[] s2].
    + destruct IH as (T' & t & E1 & IH). exists T', t, E1. by eapply map_step_created_done.
    + by eapply map_step_created_failed.
Qed.

(** ** Queries *)

(** [vmm_query_page_in] is the reference walk. *)
Lemma vmm_query_page_in_walk p va s :
  0 < p → p mod 4096 = 0 → initialized s = true →
  vmm_query_page_in p va s = walk (ent s) 3 p va ACC0.
Proof.
  intros Hp Ha Hi. unfold vmm_query_page_in, PAGE_SIZE. rewrite Hi, Ha.
  destruct (Z.eqb_spec p 0); [lia|]. cbn [orb negb Z.eqb walk].
  rewrite !land_PRESENT, !land_HUGE, !negb_involutive.
  change (page_table_index va 39) with (vidx va 3). change (page_table_index va 30) with (vidx va 2).
  change (page_table_index va 21) with (vidx va 1). change (page_table_index va 12) with (vidx va 0).
  change (load (slot (physical_to_virtual p s) (vidx va 3)) s) with (ent s p (vidx va 3)).
  destruct (present (ent s p (vidx va 3))); [cbn [negb]|done].
  change (Nat.ltb 3 3) with false. rewrite andb_false_r.
  change (combine_effective_flags ACC0 (ent s p (vidx va 3))) with (ent s p (vidx va 3)).
  fold (phys (ent s p (vidx va 3))). set (e3 := ent s p (vidx va 3)).
  change (load (slot (physical_to_virtual (phys e3) s) (vidx va 2)) s) with (ent s (phys e3) (vidx va 2)).
  destruct (present (ent s (phys e3) (vidx va 2))); [cbn [negb]|done].
  change (Nat.ltb 2 3) with true. rewrite andb_true_r.
  destruct (huge (ent s (phys e3) (vidx va 2))); [done|].
  set (e2 := ent s (phys e3) (vidx va 2)). fold (phys e2).
  change (load (slot (physical_to_virtual (phys e2) s) (vidx va 1)) s) with (ent s (phys e2) (vidx va 1)).
  destruct (present (ent s (phys e2) (vidx va 1))); [cbn [negb]|done].
  change (Nat.ltb 1 3) with true. rewrite andb_true_r.
  destruct (huge (ent s (phys e2) (vidx va 1))); [done|].
  set (e1 := ent s (phys e2) (vidx va 1)). fold (phys e1).
  change (load (slot (physical_to_virtual (phys e1) s) (vidx va 0)) s) with (ent s (phys e1) (vidx va 0)).
  destruct (present (ent s (phys e1) (vidx va 0))); done.
Qed.

(** ** Mapping a page *)

Lemma map_arguments_ok_spec p va pa flags :
  is_u64 va → is_u64 flags → map_arguments_ok p va pa flags = true →
  va mod 4096 = 0 ∧ pa mod 4096 = 0 ∧ canonical va ∧
  (Z.testbit flags 2 = true → va < USER_LIMIT) ∧
  (∀ i, 0 ≤ i → Z.testbit flags i = true → i = 1 ∨ i = 2 ∨ i = 63).
Proof.
  intros Hva Hfl. unfold map_arguments_ok, PAGE_SIZE. rewrite land_USER, negb_involutive, !Z.geb_leb.
  destruct (Z.eqb_spec (va mod 4096) 0); [|done]. destruct (Z.eqb_spec (pa mod 4096) 0); [|done].
  destruct (p =? 0); [done|]. destruct (p mod 4096 =? 0); [|done].
  destruct (Z.eqb_spec (Z.land flags (not64 VMM_PERMISSIONS)) 0) as [Hf|]; [|done]. cbn [negb orb].
  intros H. split_and!; [done|done|..].
  - unfold canonical, is_u64 in *. destruct (Z.leb_spec USER_LIMIT va), (Z.ltb_spec va KERNEL_BASE);
      destruct (Z.testbit flags 2); cbn [andb] in H; try done; lia.
  - intros H2. rewrite H2 in H. destruct (Z.leb_spec USER_LIMIT va); [done|lia].
  - intros i Hi Hb. apply (f_equal (λ z, Z.testbit z i)) in Hf.
    rewrite Z.land_spec, Hb, Z.bits_0, not64_testbit in Hf by done.
    destruct (Z.ltb_spec i 64); [|by rewrite testbit_high64 in Hb]. cbn [andb] in Hf.
    apply negb_false_iff in Hf. change VMM_PERMISSIONS with (Z.lor (Z.lor (2 ^ 1) (2 ^ 2)) (2 ^ 63)) in Hf.
    rewrite !Z.lor_spec, !Z.pow2_bits_eqb in Hf by lia. lia.
Qed.

Lemma leaf_value_bits pa flags :
  0 ≤ pa < 2 ^ 52 → pa mod 4096 = 0 →
  (∀ i, 0 ≤ i → Z.testbit flags i = true → i = 1 ∨ i = 2 ∨ i = 63) →
  let e := leaf_value pa flags in
  present e = true ∧ phys e = pa ∧ Z.testbit e 10 = true ∧
  (∀ i, i = 1 ∨ i = 2 ∨ i = 63 → Z.testbit e i = Z.testbit flags i).
Proof.
  intros Hpa Ha Hfl e. unfold e, leaf_value.
  change (Z.land pa PAGE_ADDRESS_MASK) with (phys pa). rewrite phys_small by done.
  assert (phys flags = 0) as Hpf.
  { apply Z.bits_inj'. intros i Hi. rewrite phys_testbit, Z.bits_0 by done.
    destruct (Z.testbit flags i) eqn:E; [|done]. destruct (Hfl i Hi E) as [->|[->| ->]]; done. }
  assert (Hpb : ∀ i, 0 ≤ i → (i < 12 ∨ 52 ≤ i) → Z.testbit pa i = false).
  { intros i Hi Hr. rewrite <- (phys_small pa), phys_testbit by done.
    destruct (Z.leb_spec 12 i), (Z.ltb_spec i 52); rewrite ?andb_false_r; done || lia. }
  split_and!.
  - unfold present. rewrite !Z.lor_spec. by rewrite orb_true_r.
  - rewrite !phys_lor, phys_small, Hpf by done. change (phys PAGE_PRESENT) with 0.
    change (phys PAGE_KOS_OWNED_MAPPING) with 0. by rewrite !Z.lor_0_r.
  - rewrite !Z.lor_spec. by rewrite orb_true_r.
  - intros i Hi. rewrite !Z.lor_spec, Hpb by lia. destruct Hi as [->|[->| ->]]; done.
Qed.

(** The effective permissions a query reports never exceed the leaf's. *)
Lemma effective_flags_bits acc e :
  let f := public_page_flags (combine_effective_flags acc e) in
  (Z.testbit f 1 = true → Z.testbit e 1 = true) ∧ (Z.testbit f 2 = true → Z.testbit e 2 = true) ∧
  (Z.testbit e 63 = true → Z.testbit f 63 = true).
Proof.
  intros f. unfold f. rewrite !public_testbit, !combine_testbit by lia.
  repeat (rewrite decide_True by lia || rewrite decide_False by lia).
  destruct (Z.testbit e 1), (Z.testbit e 2), (Z.testbit e 63); split_and!; done.
Qed.

(** The finished mapping in the final state. *)
Lemma map_done_leaf_entry T s T' s' L p va v t E1 :
  map_done T s T' s' L p va v t E1 → ent s' t (vidx va 0) = v.
Proof.
  intros Hm. rewrite <- (md_agree _ _ _ _ _ _ _ _ _ _ Hm t O); [apply upd_eq| |apply vidx_range].
  apply Hm.
Qed.

Lemma map_done_leaf_table T s T' s' L p va v t E1 :
  T !! p = Some L → map_done T s T' s' L p va v t E1 → leaf_table (ent s') L p va = Some t.
Proof.
  intros Hp Hm. pose proof (lookup_weaken _ _ _ _ Hp (md_tables _ _ _ _ _ _ _ _ _ _ Hm)) as Hp'.
  rewrite <- (md_path _ _ _ _ _ _ _ _ _ _ Hm).
  rewrite <- (leaf_table_upd T' E1 t (vidx va 0) v (md_wt _ _ _ _ _ _ _ _ _ _ Hm)
                (md_leaf _ _ _ _ _ _ _ _ _ _ Hm) L p va Hp').
  symmetry. apply (leaf_table_agree T'); [|apply Hm|done].
  apply well_typed_upd_leaf; apply Hm.
Qed.

(** Translation in the address space [p] of [s']: unchanged from [s], USER apart. *)
Definition same_translation s s' (p va : Z) : Prop :=
  up_to_user (vmm_query_page_in p va s') = up_to_user (vmm_query_page_in p va s).

Lemma query_walk T s p va :
  vm_inv T s → T !! p = Some 3%nat → vmm_query_page_in p va s = walk (ent s) 3 p va ACC0.
Proof.
  intros Hinv Hp. pose proof (vi_addr _ _ Hinv _ _ Hp) as (? & ? & _).
  apply vmm_query_page_in_walk; [done..|apply Hinv].
Qed.

Lemma walks_eq_query T T' s s' p va :
  vm_inv T s → vm_inv T' s' → T !! p = Some 3%nat → T' !! p = Some 3%nat →
  walks_eq T (ent s) (ent s') → same_translation s s' p va.
Proof.
  intros Hi Hi' Hp Hp' Hw. unfold same_translation.
  rewrite (query_walk T s p va Hi Hp), (query_walk T' s' p va Hi' Hp'). symmetry. by apply Hw.
Qed.

(** What a finished mapping means for queries. *)
Lemma map_done_query T s T' s' p va pa flags t E1 :
  vm_inv T s → T !! p = Some 3%nat → is_u64 va → is_u64 flags → 0 ≤ pa < 2 ^ 52 →
  map_arguments_ok p va pa flags = true →
  map_done T s T' s' 3 p va (leaf_value pa flags) t E1 →
  vmm_query_page_in p va s = None ∧
  (∃ f, vmm_query_page_in p va s' = Some (pa, f) ∧
     (Z.testbit f 1 = true → Z.testbit flags 1 = true) ∧
     (Z.testbit f 2 = true → Z.testbit flags 2 = true) ∧
     (Z.testbit flags 63 = true → Z.testbit f 63 = true)) ∧
  (∀ p' va', T !! p' = Some 3%nat → canonical va' →
     va' / 4096 ≠ va / 4096 ∨ (p' ≠ p ∧ va' < USER_LIMIT) → same_translation s s' p' va').
Proof.
  intros Hinv Hp Hva Hfl Hpa Harg Hm.
  destruct (map_arguments_ok_spec _ _ _ _ Hva Hfl Harg) as (Hav & Hap & Hcan & _ & Hfb).
  destruct (leaf_value_bits pa flags Hpa Hap Hfb) as (Hpr & Hph & _ & Hbits).
  destruct Hm as [M1 M2 M3 M4 M5 M6 M7 M8 M9 M10 M11 M12 M13 M14 M15 M16 M17].
  pose proof (lookup_weaken _ _ _ _ Hp M2) as Hp'.
  assert (well_typed T' (upd E1 t (vidx va 0) (leaf_value pa flags))) as Hwt by by apply well_typed_upd_leaf.
  assert (HQ : ∀ p' va', T !! p' = Some 3%nat →
    vmm_query_page_in p' va' s' = walk (upd E1 t (vidx va 0) (leaf_value pa flags)) 3 p' va' ACC0).
  { intros p' va' HT. rewrite (query_walk T') by (done || by eapply lookup_weaken).
    symmetry. eapply walk_agree; [done|done|by eapply lookup_weaken]. }
  split_and!.
  - rewrite (query_walk T) by done. specialize (M10 3%nat p va ACC0 ACC0 Hp ltac:(done)).
    rewrite (walk_leaf_none E1 t 3 p va ACC0 M7 M8) in M10. by apply fmap_None in M10.
  - rewrite HQ by done.
    destruct (walk_leaf (upd E1 t (vidx va 0) (leaf_value pa flags)) t 3 p va ACC0) as [acc' ->].
    { by rewrite (leaf_table_upd T'). } { by rewrite upd_eq. }
    rewrite upd_eq, Hph. eexists. split.
    + f_equal. f_equal. replace (Z.land va 4095) with 0; [apply Z.lor_0_r|].
      change 4095 with (Z.ones 12). rewrite Z.land_ones by lia. symmetry. exact Hav.
    + rewrite <- !Hbits by auto. apply effective_flags_bits.
  - intros p' va' HT Hcan' Hne. unfold same_translation. rewrite HQ, (query_walk T) by done.
    rewrite (walk_upd_leaf T' E1); [symmetry; by apply M10|done|done|by eapply lookup_weaken|].
    intros [Hl Hv]. destruct (leaf_table_inj T' E1 t M5 3 p p' va va') as [Hidx Hroot];
      [done|by eapply lookup_weaken|done|done|].
    assert (∀ l, (l ≤ 3)%nat → vidx va l = vidx va' l) as Hall.
    { intros [|l] Hl3; [done|apply Hidx; lia]. }
    destruct Hne as [Hne|[Hne Hus]].
    + apply Hne. symmetry. by apply vidx_inj.
    + destruct Hroot as [->|[_ Hk]]; [done|].
      rewrite (Hall 3%nat) in Hk by lia. apply (vidx3_user va' Hcan') in Hus. lia.
Qed.

(** ... and for the rights: on an open path the page gets those requested. *)
Lemma map_done_rights T s T' s' p va pa flags t E1 :
  vm_inv T s → T !! p = Some 3%nat → is_u64 va → is_u64 flags → 0 ≤ pa < 2 ^ 52 →
  map_arguments_ok p va pa flags = true → open_path (ent s) 3 p va →
  map_done T s T' s' 3 p va (leaf_value pa flags) t E1 →
  ∃ f, vmm_query_page_in p va s' = Some (pa, f) ∧
    Z.testbit f 1 = Z.testbit flags 1 ∧ Z.testbit f 63 = Z.testbit flags 63.
Proof.
  intros Hinv Hp Hva Hfl Hpa Harg Ho Hm.
  destruct (map_arguments_ok_spec _ _ _ _ Hva Hfl Harg) as (Hav & Hap & _ & _ & Hfb).
  destruct (leaf_value_bits pa flags Hpa Hap Hfb) as (Hpr & Hph & _ & Hbits).
  pose proof (map_done_leaf_table _ _ _ _ _ _ _ _ _ _ Hp Hm) as Hlt.
  pose proof (map_done_leaf_entry _ _ _ _ _ _ _ _ _ _ Hm) as Hle.
  pose proof (lookup_weaken _ _ _ _ Hp (md_tables _ _ _ _ _ _ _ _ _ _ Hm)) as Hp'.
  rewrite (query_walk T' s' p va (md_inv _ _ _ _ _ _ _ _ _ _ Hm) Hp').
  destruct (walk_open (ent s') t 3 p va ACC0) as (acc & Hacc & ->);
    [done|by rewrite Hle|by apply (md_open _ _ _ _ _ _ _ _ _ _ Hm)|done|].
  rewrite Hle, Hph. eexists. split.
  - f_equal. f_equal. replace (Z.land va 4095) with 0; [apply Z.lor_0_r|].
    change 4095 with (Z.ones 12). rewrite Z.land_ones by lia. symmetry. exact Hav.
  - rewrite <- !Hbits by auto. by apply open_flags.
Qed.

(** ** Unmapping, level by level *)

(** [Some (physical address, whether to go on releasing tables, state)]. *)
Fixpoint unmap_rec (L : nat) (pml4_phys table va : Z) s : option (Z * bool * vmm_state PM) :=
  let entry := slot table (vidx va L) in
  let e := load entry s in
  match L with
  | O =>
      let owned := Z.lor PAGE_PRESENT PAGE_KOS_OWNED_MAPPING in
      if negb (Z.land e owned =? owned) then None
      else Some (phys e, true, invalidate_if_current pml4_phys va (store entry 0 s))
  | S L' =>
      if negb (is_table_entry e) then None
      else
        match unmap_rec L' pml4_phys (physical_to_virtual (phys e) s) va s with
        | None => None
        | Some (r, go_on, s) =>
            if go_on then
              let '(released, s) := release_owned_empty_table entry s in Some (r, released, s)
            else Some (r, false, s)
        end
  end.

Lemma vmm_unmap_page_in_rec p va s :
  vmm_unmap_page_in p va s =
  if negb (va mod PAGE_SIZE =? 0) || (p =? 0) || negb (p mod PAGE_SIZE =? 0) then (0, s)
  else if negb (initialized s) then (0, s)
  else match unmap_rec 3 p (physical_to_virtual p s) va s with
       | None => (0, s)
       | Some (r, _, s') => (r, s')
       end.
Proof.
  unfold vmm_unmap_page_in. destruct (_ || _ || _); [done|]. destruct (initialized s); [|done].
  cbn [negb unmap_rec].
  change (vidx va 3) with (page_table_index va 39). change (vidx va 2) with (page_table_index va 30).
  change (vidx va 1) with (page_table_index va 21). change (vidx va 0) with (page_table_index va 12).
  unfold phys. set (a3 := slot (physical_to_virtual p s) (page_table_index va 39)).
  destruct (is_table_entry (load a3 s)); [cbn [negb]|done].
  set (a2 := slot (physical_to_virtual (Z.land (load a3 s) PAGE_ADDRESS_MASK) s) (page_table_index va 30)).
  destruct (is_table_entry (load a2 s)); [cbn [negb]|done].
  set (a1 := slot (physical_to_virtual (Z.land (load a2 s) PAGE_ADDRESS_MASK) s) (page_table_index va 21)).
  destruct (is_table_entry (load a1 s)); [cbn [negb]|done].
  destruct (Z.land _ _ =? _); [cbn [negb]|done].
  destruct (release_owned_empty_table a1 _) as [[] s1]; [|done].
  destruct (release_owned_empty_table a2 s1) as [[] s2]; [|done].
  by destruct (release_owned_empty_table _ s2).
Qed.

(** A table of the kernel half that the manager owns is not shared. *)
Definition private_top T s (p va : Z) : Prop :=
  Z.testbit (ent s p (vidx va 3)) 9 = true →
  ∀ p' j, T !! p' = Some 3%nat → 0 ≤ j < 512 → tbl (ent s p' j) = true →
    phys (ent s p' j) = phys (ent s p (vidx va 3)) → p' = p ∧ j = vidx va 3.

Record unmap_done T s T' s' (L : nat) (p va r t : Z) : Prop := {
  ud_config : config s' = config s;
  ud_tables : T' ⊆ T;
  ud_kept p' L' : T !! p' = Some L' → (L ≤ L')%nat → T' !! p' = Some L';
  ud_inv : vm_inv T' s';
  ud_path : leaf_table (ent s) L p va = Some t;
  ud_leaf : T !! t = Some O;
  ud_mapped : present (ent s t (vidx va 0)) = true ∧ Z.testbit (ent s t (vidx va 0)) 10 = true;
  ud_phys : r = phys (ent s t (vidx va 0));
  ud_walks : walks_eq T' (upd (ent s) t (vidx va 0) 0) (ent s');
  ud_above : above_same T s s' L;
  ud_free : fa_free (frames s) ⊆ fa_free (frames s');
  ud_released f : f ∈ fa_free (frames s') → f ∉ fa_free (frames s) →
    is_Some (T !! (f * 4096)) ∧ T' !! (f * 4096) = None;
}.

(** Of the table [q], entry [i] is the only present one. *)
Definition only_entry (E : Z → Z → Z) (q i : Z) : Prop :=
  ∀ j, 0 ≤ j < 512 → j ≠ i → present (E q j) = false.

(** Every table below [p] on the path of [va] is the manager's own (bit 9 of the
    entry that leads to it) and holds nothing but the path: without the page of
    [va] all of them are empty. *)
Fixpoint emptied (E : Z → Z → Z) (L : nat) (p va : Z) : Prop :=
  match L with
  | O => True
  | S L' =>
      let e := E p (vidx va L) in
      Z.testbit e 9 = true ∧ only_entry E (phys e) (vidx va L') ∧ emptied E L' (phys e) va
  end.

(** The tables on the path of [va] that unmapping its page leaves empty: those
    from which only emptied tables lie below. *)
Fixpoint becomes_empty (E : Z → Z → Z) (L : nat) (p va q : Z) : Prop :=
  match L with
  | O => False
  | S L' =>
      let e := E p (vidx va L) in
      becomes_empty E L' (phys e) va q ∨ q = phys e ∧ emptied E L p va
  end.

Record unmap_released T s T' s' (L : nat) (p va : Z) (go_on : bool) : Prop := {
  ur_go : go_on = true ↔ emptied (ent s) L p va;
  ur_row : go_on = true → ∀ j, 0 ≤ j < 512 →
    ent s' p j = if decide (j = vidx va L) then 0 else ent s p j;
  ur_tables q L' : T' !! q = Some L' ↔ T !! q = Some L' ∧ ¬ becomes_empty (ent s) L p va q;
  ur_free f : f ∈ fa_free (frames s') ↔
    f ∈ fa_free (frames s) ∨ becomes_empty (ent s) L p va (f * 4096);
}.

Lemma vm_inv_invalidate T p va s : vm_inv T s → vm_inv T (invalidate_if_current p va s).
Proof. unfold invalidate_if_current. destruct (_ =? _); [|done]. intros []. by split. Qed.

Lemma invalidate_same p va s :
  let s' := invalidate_if_current p va s in
  config s' = config s ∧ frames s' = frames s ∧ ent s' = ent s.
Proof. unfold invalidate_if_current. by destruct (_ =? _). Qed.

Lemma owned_mapping_bits e :
  negb (Z.land e (Z.lor PAGE_PRESENT PAGE_KOS_OWNED_MAPPING) =? Z.lor PAGE_PRESENT PAGE_KOS_OWNED_MAPPING)
  = negb (present e && Z.testbit e 10).
Proof. apply (land_two_bits e 0 10); lia. Qed.

Lemma unmap_rec_leaf T s pml4_phys p va :
  vm_inv T s → T !! p = Some O →
  match unmap_rec 0 pml4_phys (physical_to_virtual p s) va s with
  | None => ¬ (present (ent s p (vidx va 0)) = true ∧ Z.testbit (ent s p (vidx va 0)) 10 = true)
  | Some (r, go_on, s') => ∃ T', unmap_done T s T' s' 0 p va r p ∧ unmap_released T s T' s' 0 p va go_on
  end.
Proof.
  intros Hinv Hp. cbn [unmap_rec].
  change (load (slot (physical_to_virtual p s) (vidx va 0)) s) with (ent s p (vidx va 0)).
  rewrite owned_mapping_bits. destruct (present _) eqn:E0; [|by intros []].
  destruct (Z.testbit _ 10) eqn:E10; [cbn [andb negb]|by intros []].
  destruct (vm_inv_store T s p 0 (vidx va 0) 0 Hinv Hp (vidx_range _ _)) as [H1 H2]; [|done|].
  { apply well_typed_upd_leaf; [apply Hinv|done]. }
  set (s1 := store _ 0 s) in *. destruct (invalidate_same pml4_phys va s1) as (Hc & Hf & He).
  exists T. split; [split; try done|].
  - by apply vm_inv_invalidate.
  - rewrite He. apply walks_eq_agree; [|done]. apply well_typed_upd_leaf; [apply Hinv|done].
  - intros p' L' i Hp' HL Hi. rewrite He, <- (H2 p' L' i Hp' Hi). apply upd_ne. intros [-> _].
    rewrite Hp in Hp'. injection Hp' as <-. lia.
  - by rewrite Hf.
  - by rewrite Hf.
  - split; try done.
    + intros _ j Hj. rewrite He, <- (H2 p 0%nat j Hp Hj). destruct (decide (j = vidx va 0)) as [->|Hne].
      * by rewrite upd_eq.
      * apply upd_ne. by intros [].
    + intros q L'. cbn [becomes_empty]. tauto.
    + intros f. rewrite Hf. cbn [becomes_empty]. tauto.
Qed.

Lemma release_not_owned s a :
  Z.testbit (load a s) 9 = false → release_owned_empty_table a s = (false, s).
Proof. intros H. unfold release_owned_empty_table. by rewrite owned_bits, H, andb_false_r. Qed.

(** The step of the recursion: nothing more is released. *)
Lemma unmap_step_stop T s T1 s1 L p va r t :
  T !! p = Some (S L) → tbl (ent s p (vidx va (S L))) = true →
  unmap_done T s T1 s1 L (phys (ent s p (vidx va (S L)))) va r t →
  unmap_done T s T1 s1 (S L) p va r t.
Proof.
  intros Hp Ht [U1 U2 U3 U4 U5 U6 U7 U8 U9 U10 U11 U12]. split; try done.
  - intros p' L' Hp' HL. apply U3; [done|lia].
  - cbn [leaf_table]. by rewrite Ht.
  - intros p' L' i Hp' HL Hi. apply (U10 p' L'); [done|lia|done].
Qed.

(** The table below the entry is released as well. *)
Lemma unmap_step_release T s T1 s1 s2 L p va r t :
  let i := vidx va (S L) in
  let q := phys (ent s p i) in
  vm_inv T s → T !! p = Some (S L) → tbl (ent s p i) = true → unmap_done T s T1 s1 L q va r t →
  config s2 = config s1 → vm_inv (delete q T1) s2 → ent s1 p i = ent s p i →
  agree (delete q T1) (upd (ent s1) p i 0) (ent s2) → empty_row (ent s1) q →
  fa_free (frames s2) = fa_free (frames s1) ∪ {[q / 4096]} →
  unmap_done T s (delete q T1) s2 (S L) p va r t.
Proof.
  intros i q Hinv Hp Ht [U1 U2 U3 U4 U5 U6 U7 U8 U9 U10 U11 U12] Hc Hinv2 He1 Hag Hrow Hf.
  pose proof (wt_child _ _ (vi_wt _ _ Hinv) p L i Hp (vidx_range _ _) Ht) as Hq. fold q in Hq.
  assert (T1 !! p = Some (S L)) as Hp1 by (apply U3; [done|lia]).
  assert (delete q T1 ⊆ T1) as Hle by apply delete_subseteq.
  assert (q * 1 = q / 4096 * 4096) as Hqa by (pose proof (phys_aligned (ent s p i)) as Hx; fold q in Hx; clear -Hx; zsolve).
  split.
  - by rewrite Hc.
  - by etrans.
  - intros p' L' Hp' HL. apply lookup_delete_Some. split; [|apply U3; [done|lia]].
    intros <-. rewrite Hq in Hp'. injection Hp' as <-. lia.
  - done.
  - cbn [leaf_table]. fold i. by rewrite Ht.
  - done.
  - done.
  - done.
  - apply (walks_eq_trans (delete q T1) (delete q T1) _ (ent s1)); [done|by eapply walks_eq_weaken|].
    apply (walks_eq_trans (delete q T1) (delete q T1) _ (upd (ent s1) p i 0)); [done|..].
    + apply (walks_eq_weaken T1); [done|]. apply (walks_eq_prune T1 _ p i L);
        [apply U4|done|apply vidx_range|by rewrite He1|by rewrite He1].
    + apply walks_eq_agree; [|done]. eapply well_typed_agree; [apply Hinv2|].
      intros ? ? ? ? ?. symmetry. by eapply Hag.
  - intros p' L' j Hp' HL Hj.
    assert (p' ≠ q) as Hne by (intros ->; rewrite Hq in Hp'; injection Hp' as <-; lia).
    assert (p' ≠ p) as Hne' by (intros ->; rewrite Hp in Hp'; injection Hp' as <-; lia).
    rewrite <- (Hag p' L' j); [|by rewrite lookup_delete_ne; [apply U3; [|lia]|]|done].
    rewrite upd_ne by (by intros []). apply (U10 p' L'); [done|lia|done].
  - rewrite Hf. set_solver.
  - intros f Hf2 Hf0. rewrite Hf in Hf2. destruct (decide (f = q / 4096)) as [->|].
    + rewrite <- Hqa, Z.mul_1_r. split; [by exists L|apply lookup_delete_eq].
    + destruct (U12 f) as [V1 V2]; [set_solver|done|]. split; [done|].
      destruct (decide (q = f * 4096)) as [<-|]; [apply lookup_delete_eq|by rewrite lookup_delete_ne].
Qed.

(** The same steps, for what is released. *)
Lemma unmap_released_stop T s T1 s1 L p va g :
  let e := ent s p (vidx va (S L)) in
  unmap_released T s T1 s1 L (phys e) va g → ¬ emptied (ent s) (S L) p va →
  unmap_released T s T1 s1 (S L) p va false.
Proof.
  intros e [R1 R2 R3 R4] Hn. split; [by split| |..]; [done|..].
  - intros q L'. rewrite R3. cbn [becomes_empty]. fold e. tauto.
  - intros f. rewrite R4. cbn [becomes_empty]. fold e. tauto.
Qed.

(** With the tables below emptied, the table is empty if and only if it holds
    nothing else. *)
Lemma unmap_released_empty T s T1 s1 L q va :
  unmap_released T s T1 s1 L q va true → empty_row (ent s1) q ↔ only_entry (ent s) q (vidx va L).
Proof.
  intros [_ R2 _ _]. specialize (R2 eq_refl). split; intros H j Hj.
  - intros Hne. specialize (H j Hj). rewrite R2 in H by done. by destruct (decide _).
  - rewrite R2 by done. destruct (decide _); [done|by apply H].
Qed.

Lemma unmap_released_release T s T1 s1 s2 L p va :
  let i := vidx va (S L) in
  let q := phys (ent s p i) in
  unmap_released T s T1 s1 L q va true → emptied (ent s) (S L) p va →
  T1 !! p = Some (S L) → T1 !! q = Some L → (∀ j, 0 ≤ j < 512 → ent s1 p j = ent s p j) →
  agree (delete q T1) (upd (ent s1) p i 0) (ent s2) →
  fa_free (frames s2) = fa_free (frames s1) ∪ {[q / 4096]} →
  unmap_released T s (delete q T1) s2 (S L) p va true.
Proof.
  intros i q [R1 R2 R3 R4] Hem Hp Hq Hrow Hag Hf. split; [done|..].
  - intros _ j Hj. rewrite <- (Hag p (S L) j); [|rewrite lookup_delete_ne; [done|]|done].
    2:{ intros Hpq. assert (Some (S L) = Some L) as [=] by congruence. lia. }
    fold i. destruct (decide (j = i)) as [->|Hne]; [by rewrite upd_eq|].
    rewrite upd_ne by (by intros []). by apply Hrow.
  - intros q' L'. rewrite lookup_delete_Some, R3. cbn [becomes_empty]. fold i q.
    split; [intros (H1 & H2 & H3); split; [done|]; intros [?|[-> _]]; done|].
    intros [H1 H2]. split_and!; [intros <-; tauto|done|tauto].
  - intros f. rewrite Hf, elem_of_union, elem_of_singleton, R4. cbn [becomes_empty]. fold i q.
    assert (f = q / 4096 ↔ f * 4096 = q) as ->; [|tauto].
    pose proof (phys_aligned (ent s p i)) as Hx. fold q in Hx. clear -Hx. split; zsolve.
Qed.

Lemma unmap_rec_spec T pml4_phys va L : ∀ s p,
  vm_inv T s → T !! p = Some L → (L = 3%nat → private_top T s p va) →
  match unmap_rec L pml4_phys (physical_to_virtual p s) va s with
  | None => ∀ t, leaf_table (ent s) L p va = Some t →
      ¬ (present (ent s t (vidx va 0)) = true ∧ Z.testbit (ent s t (vidx va 0)) 10 = true)
  | Some (r, go_on, s') => ∃ T' t,
      unmap_done T s T' s' L p va r t ∧ unmap_released T s T' s' L p va go_on
  end.
Proof.
  induction L as [|L IH]; intros s p Hinv Hp Hpriv.
  { pose proof (unmap_rec_leaf T s pml4_phys p va Hinv Hp) as H.
    destruct (unmap_rec 0 _ _ va s) as [[[r g] s']|]; [destruct H as (T' & H & H'); eauto|].
    intros t [= <-]. done. }
  cbn [unmap_rec]. set (i := vidx va (S L)).
  change (load (slot (physical_to_virtual p s) i) s) with (ent s p i). rewrite is_table_entry_tbl.
  destruct (tbl (ent s p i)) eqn:Ht; cbn [negb].
  2:{ intros t Hl. cbn [leaf_table] in Hl. fold i in Hl. by rewrite Ht in Hl. }
  pose proof (wt_child _ _ (vi_wt _ _ Hinv) p L i Hp (vidx_range _ _) Ht) as Hq.
  assert (L ≠ 3%nat) as HL3 by (pose proof (wt_level _ _ (vi_wt _ _ Hinv) _ _ Hp); lia).
  specialize (IH s (phys (ent s p i)) Hinv Hq ltac:(done)).
  destruct (unmap_rec L _ _ va s) as [[[r go_on] s1]|].
  2:{ intros t Hl. cbn [leaf_table] in Hl. fold i in Hl. rewrite Ht in Hl. by apply IH. }
  destruct IH as (T1 & t & Hd & Hr). destruct go_on.
  2:{ exists T1, t. split; [by apply unmap_step_stop|]. eapply unmap_released_stop; [exact Hr|].
      intros (_ & _ & He). apply (ur_go _ _ _ _ _ _ _ _ Hr) in He. done. }
  assert (ent s1 p i = ent s p i) as He1.
  { apply (ud_above _ _ _ _ _ _ _ _ _ Hd p (S L)); [done|lia|apply vidx_range]. }
  assert (physical_to_virtual p s = physical_to_virtual p s1) as Hptv.
  { unfold physical_to_virtual. by rewrite (config_hhdm _ _ (ud_config _ _ _ _ _ _ _ _ _ Hd)). }
  rewrite Hptv. assert (T1 !! p = Some (S L)) as Hp1 by (apply (ud_kept _ _ _ _ _ _ _ _ _ Hd); [done|lia]).
  destruct (Z.testbit (ent s p i) 9) eqn:E9.
  2:{ rewrite release_not_owned by (change (Z.testbit (ent s1 p i) 9 = false); by rewrite He1).
      exists T1, t. split; [by apply unmap_step_stop|]. eapply unmap_released_stop; [exact Hr|].
      intros (He & _). fold i in He. congruence. }
  assert (sole T1 (ent s1) p i (phys (ent s1 p i))) as Hs.
  { intros p' L' j Hp' Hj Ht' Heq.
    pose proof (wt_child _ _ (vi_wt _ _ (ud_inv _ _ _ _ _ _ _ _ _ Hd)) _ _ _ Hp' Hj Ht') as Hc.
    assert (T1 !! phys (ent s p i) = Some L) as Hq1 by (apply (ud_kept _ _ _ _ _ _ _ _ _ Hd); [done|lia]).
    rewrite Heq, He1, Hq1 in Hc. injection Hc as <-.
    pose proof (lookup_weaken _ _ _ _ Hp' (ud_tables _ _ _ _ _ _ _ _ _ Hd)) as HpT.
    rewrite (ud_above _ _ _ _ _ _ _ _ _ Hd p' (S L) j HpT) in Ht', Heq by (lia || done). rewrite He1 in Heq.
    destruct (wt_parent _ _ (vi_wt _ _ Hinv) p' p j i L HpT Hp Hj (vidx_range _ _) Ht' Ht Heq)
      as [-> [->|[-> Hk]]]; [done|]. by apply (Hpriv eq_refl E9). }
  pose proof (release_cases T1 s1 p i L (ud_inv _ _ _ _ _ _ _ _ _ Hd) Hp1 (vidx_range _ _)) as Hrel.
  rewrite He1 in Hrel, Hs. specialize (Hrel Ht Hs). cbv zeta in Hrel.
  destruct (release_owned_empty_table _ s1) as [[] s2].
  - destruct Hrel as (R1 & R2 & R3 & R4 & _ & R6).
    exists (delete (phys (ent s p i)) T1), t. split; [by eapply unmap_step_release|].
    apply (unmap_released_release T s T1 s1 s2 L p va Hr); try done.
    + cbn [emptied]. fold i. split_and!; [done| |by apply (ur_go _ _ _ _ _ _ _ _ Hr)].
      by apply (unmap_released_empty _ _ _ _ _ _ _ Hr).
    + apply (ud_kept _ _ _ _ _ _ _ _ _ Hd); [done|lia].
    + intros j Hj. apply (ud_above _ _ _ _ _ _ _ _ _ Hd p (S L)); [done|lia|done].
  - destruct Hrel as [-> Hno]. exists T1, t. split; [by apply unmap_step_stop|].
    eapply unmap_released_stop; [exact Hr|]. intros (He & Ho & _). apply Hno. split; [done|].
    by apply (unmap_released_empty _ _ _ _ _ _ _ Hr).
Qed.


(** ** The theorems *)

(** The two outcomes of [vmm_map_page_in]. *)
Lemma vmm_map_page_in_cases T s p va pa flags :
  vm_inv T s → T !! p = Some 3%nat →
  (∃ s', vmm_map_page_in p va pa flags s = (false, s') ∧
     (map_arguments_ok p va pa flags = false ∧ s' = s ∨ map_failed T s s' 3 p va)) ∨
  (map_arguments_ok p va pa flags = true ∧
   ∃ s' T' t E1, vmm_map_page_in p va pa flags s = (true, s') ∧
     map_done T s T' s' 3 p va (leaf_value pa flags) t E1).
Proof.
  intros Hinv Hp. rewrite vmm_map_page_in_rec, (vi_init _ _ Hinv).
  destruct (map_arguments_ok p va pa flags); cbn [negb]; [|left; eauto].
  pose proof (map_rec_spec va flags (leaf_value pa flags) 3 T s p Hinv Hp) as H.
  destruct (map_rec 3 _ va flags _ s) as [[] s1]; [right; split; [done|]|left; eauto].
  destruct H as (T' & t & E1 & [M1 M2 M3 M4 M5 M6 M7 M8 M9 M10 M11 M12 M13 M14 M15 M16 M17]).
  destruct (invalidate_same p va s1) as (Hc & Hf & He).
  exists (invalidate_if_current p va s1), T', t, E1. split; [done|].
  split; try done; rewrite ?Hc, ?Hf, ?He; try done; [by apply vm_inv_invalidate| |].
  - intros p' L' i. rewrite He. apply M11.
  - intros p' L' va'. rewrite He. apply M17.
Qed.

(** C1: mapping a page.  A successful [vmm_map_page_in] makes exactly that page
    of that address space translate to the given frame, with no more rights than
    requested, and never a user page outside the user half; every other page of
    it, and the user half of every other address space, translates as before
    (a flag bit apart: USER may be set on the path).  A failed one changes no
    translation and gives back every frame it took; it fails only for bad
    arguments, a page that is mapped already, or fewer than three free frames. *)
Theorem vmm_map_page_in_spec T s p va pa flags :
  vm_inv T s → T !! p = Some 3%nat → is_u64 va → is_u64 flags → 0 ≤ pa < 2 ^ 52 →
  let '(ok, s') := vmm_map_page_in p va pa flags s in
  ∃ T', T ⊆ T' ∧ vm_inv T' s' ∧
  if ok then
    (Z.testbit flags 2 = true → va < USER_LIMIT) ∧
    vmm_query_page_in p va s = None ∧
    (∃ f, vmm_query_page_in p va s' = Some (pa, f) ∧
       (Z.testbit f 1 = true → Z.testbit flags 1 = true) ∧
       (Z.testbit f 2 = true → Z.testbit flags 2 = true) ∧
       (Z.testbit flags 63 = true → Z.testbit f 63 = true)) ∧
    (∀ p' va', T !! p' = Some 3%nat → canonical va' →
       va' / 4096 ≠ va / 4096 ∨ (p' ≠ p ∧ va' < USER_LIMIT) → same_translation s s' p' va') ∧
    fa_free (frames s') ⊆ fa_free (frames s) ∧
    (∀ f, f ∈ fa_free (frames s) → f ∉ fa_free (frames s') → is_Some (T' !! (f * 4096)))
  else
    T' = T ∧ fa_free (frames s') = fa_free (frames s) ∧
    (∀ p' va', T !! p' = Some 3%nat → same_translation s s' p' va') ∧
    (map_arguments_ok p va pa flags = false ∨ vmm_query_page_in p va s ≠ None ∨
     (size (fa_free (frames s)) < 3)%nat).
Proof.
  intros Hinv Hp Hva Hfl Hpa.
  destruct (vmm_map_page_in_cases T s p va pa flags Hinv Hp)
    as [(s' & -> & [[Ha ->]|Hm])|(Ha & s' & T' & t & E1 & -> & Hm)].
  - exists T. split_and!; try done. by left.
  - exists T. destruct Hm as [M1 M2 M3 M4 M5 M6 M7 M8 M9]. split_and!; try done.
    + intros p' va' Hp'. by eapply walks_eq_query.
    + right. rewrite (query_walk T) by done. destruct M8 as [M8|M8]; [left; apply M8|by right].
  - exists T'. destruct (map_done_query T s T' s' p va pa flags t E1) as (Q1 & Q2 & Q3); [done..|].
    destruct Hm as [M1 M2 M3 M4 M5 M6 M7 M8 M9 M10 M11 M12 M13 M14 M15 M16 M17]. split_and!; try done.
    by apply (map_arguments_ok_spec p va pa flags).
Qed.

(** The page is mapped by the manager (not by the boot loader, not a large page). *)
Definition owned_mapping s (p va r : Z) : Prop :=
  ∃ t, leaf_table (ent s) 3 p va = Some t ∧ present (ent s t (vidx va 0)) = true ∧
    Z.testbit (ent s t (vidx va 0)) 10 = true ∧ r = phys (ent s t (vidx va 0)).

Lemma owned_mapping_query T s p va r :
  vm_inv T s → T !! p = Some 3%nat → va mod 4096 = 0 → owned_mapping s p va r →
  ∃ f, vmm_query_page_in p va s = Some (r, f).
Proof.
  intros Hinv Hp Ha (t & Hl & Hpr & _ & ->). rewrite (query_walk T) by done.
  destruct (walk_leaf (ent s) t 3 p va ACC0 Hl Hpr) as [acc ->]. eexists. f_equal. f_equal.
  replace (Z.land va 4095) with 0; [apply Z.lor_0_r|].
  change 4095 with (Z.ones 12). rewrite Z.land_ones by lia. done.
Qed.

Lemma unmap_done_query T s T' s' p va r t :
  vm_inv T s → T !! p = Some 3%nat → canonical va → unmap_done T s T' s' 3 p va r t →
  vmm_query_page_in p va s' = None ∧
  (∀ p' va', T !! p' = Some 3%nat → canonical va' →
     va' / 4096 ≠ va / 4096 ∨ (p' ≠ p ∧ va' < USER_LIMIT) → same_translation s s' p' va').
Proof.
  intros Hinv Hp Hcan [U1 U2 U3 U4 U5 U6 U7 U8 U9 U10 U11 U12].
  assert (HQ : ∀ p' va', T !! p' = Some 3%nat →
    up_to_user (vmm_query_page_in p' va' s') = up_to_user (walk (upd (ent s) t (vidx va 0) 0) 3 p' va' ACC0)).
  { intros p' va' HT. assert (T' !! p' = Some 3%nat) as HT' by (by apply U3).
    rewrite (query_walk T') by done. symmetry. by apply U9. }
  split.
  - specialize (HQ p va Hp). rewrite (walk_leaf_none _ t 3) in HQ.
    + by apply fmap_None in HQ.
    + by rewrite (leaf_table_upd T _ _ _ _ (vi_wt _ _ Hinv)).
    + by rewrite upd_eq.
  - intros p' va' HT Hcan' Hne. unfold same_translation. rewrite HQ, (query_walk T s) by done.
    rewrite (walk_upd_leaf T (ent s)); [done|apply Hinv|done|done|].
    intros [Hl Hv]. destruct (leaf_table_inj T (ent s) t (vi_wt _ _ Hinv) 3 p p' va va') as [Hidx Hroot]; [done..|].
    assert (∀ l, (l ≤ 3)%nat → vidx va l = vidx va' l) as Hall.
    { intros [|l] Hl3; [done|apply Hidx; lia]. }
    destruct Hne as [Hne|[Hne Hus]].
    + apply Hne. symmetry. by apply vidx_inj.
    + destruct Hroot as [->|[_ Hk]]; [done|].
      rewrite (Hall 3%nat) in Hk by lia. apply (vidx3_user va' Hcan') in Hus. lia.
Qed.

Lemma private_top_user T s p va :
  vm_inv T s → T !! p = Some 3%nat → canonical va →
  tbl (ent s p (vidx va 3)) = true →
  va < USER_LIMIT ∨ (∀ p', T !! p' = Some 3%nat → p' = p) → private_top T s p va.
Proof.
  intros Hinv Hp Hcan Ht Hor _ p' j Hp' Hj Ht' Heq.
  destruct (wt_parent _ _ (vi_wt _ _ Hinv) p' p j (vidx va 3) 2 Hp' Hp Hj (vidx_range _ _) Ht' Ht Heq)
    as [-> [->|[_ Hk]]]; [done|].
  destruct Hor as [Hus|Hone]; [apply (vidx3_user va Hcan) in Hus; lia|]. by rewrite (Hone p' Hp').
Qed.

Lemma vmm_unmap_page_in_cases T s p va :
  vm_inv T s → T !! p = Some 3%nat → canonical va → va mod 4096 = 0 →
  va < USER_LIMIT ∨ (∀ p', T !! p' = Some 3%nat → p' = p) →
  (vmm_unmap_page_in p va s = (0, s) ∧ ∀ r, ¬ owned_mapping s p va r) ∨
  ∃ r s' T' t g, vmm_unmap_page_in p va s = (r, s') ∧ unmap_done T s T' s' 3 p va r t ∧
    unmap_released T s T' s' 3 p va g.
Proof.
  intros Hinv Hp Hcan Ha Hor. rewrite vmm_unmap_page_in_rec. unfold PAGE_SIZE.
  pose proof (vi_addr _ _ Hinv _ _ Hp) as (Hp0 & Hpa & _).
  rewrite Ha, Hpa, (vi_init _ _ Hinv). destruct (Z.eqb_spec p 0); [lia|]. cbn [negb orb Z.eqb].
  destruct (tbl (ent s p (vidx va 3))) eqn:Ht.
  - pose proof (unmap_rec_spec T p va 3 s p Hinv Hp (λ _, private_top_user T s p va Hinv Hp Hcan Ht Hor)) as H.
    destruct (unmap_rec 3 p _ va s) as [[[r g] s']|].
    + destruct H as (T' & t & H & H'). right. by exists r, s', T', t, g.
    + left. split; [done|]. intros r (t & Hl & H1 & H2 & _). by apply (H t).
  - cbn [unmap_rec].
    change (load (slot (physical_to_virtual p s) (vidx va 3)) s) with (ent s p (vidx va 3)).
    rewrite is_table_entry_tbl, Ht. left. split; [done|]. intros r (t & Hl & _).
    cbn [leaf_table] in Hl. by rewrite Ht in Hl.
Qed.

(** C2: unmapping a page.  On a page the manager mapped, in the user half, or
    when no other address space exists, [vmm_unmap_page_in] returns the frame it
    translated to and removes that one translation: every other page, here and in
    the user half of other address spaces, is unaffected.  It frees the page
    tables that became empty, neither more nor fewer: a table on the path of the
    page is gone, and its frame free, if and only if it and every table below it
    on the path is the manager's own and held nothing but the path.  On any other
    page it returns 0 and changes nothing. *)
Theorem vmm_unmap_page_in_spec T s p va :
  vm_inv T s → T !! p = Some 3%nat → canonical va → va mod 4096 = 0 →
  va < USER_LIMIT ∨ (∀ p', T !! p' = Some 3%nat → p' = p) →
  let '(r, s') := vmm_unmap_page_in p va s in
  (r = 0 ∧ s' = s ∧ ∀ r', ¬ owned_mapping s p va r') ∨
  (owned_mapping s p va r ∧ (∃ f, vmm_query_page_in p va s = Some (r, f)) ∧
   vmm_query_page_in p va s' = None ∧
   (∀ p' va', T !! p' = Some 3%nat → canonical va' →
      va' / 4096 ≠ va / 4096 ∨ (p' ≠ p ∧ va' < USER_LIMIT) → same_translation s s' p' va') ∧
   ∃ T', vm_inv T' s' ∧ (∀ p', T !! p' = Some 3%nat → T' !! p' = Some 3%nat) ∧
     (∀ q L, T' !! q = Some L ↔ T !! q = Some L ∧ ¬ becomes_empty (ent s) 3 p va q) ∧
     (∀ f, f ∈ fa_free (frames s') ↔
        f ∈ fa_free (frames s) ∨ becomes_empty (ent s) 3 p va (f * 4096))).
Proof.
  intros Hinv Hp Hcan Ha Hor.
  destruct (vmm_unmap_page_in_cases T s p va Hinv Hp Hcan Ha Hor)
    as [[-> Hn]|(r & s' & T' & t & g & -> & Hu & [_ _ R3 R4])]; [by left|]. right.
  destruct (unmap_done_query T s T' s' p va r t Hinv Hp Hcan Hu) as [Q1 Q2].
  destruct Hu as [U1 U2 U3 U4 U5 U6 [U7 U7'] U8 U9 U10 U11 U12].
  assert (owned_mapping s p va r) as Ho by (exists t; done).
  split_and!; [done|by eapply owned_mapping_query|done|done|].
  exists T'. split_and!; try done. intros p' Hp'. by apply U3.
Qed.

(** ** Address spaces *)

Lemma copy_kernel_half_config new n : ∀ index s,
  let s' := copy_kernel_half new n index s in
  config s' = config s ∧ frames s' = frames s ∧ cr3 s' = cr3 s ∧ invalidated s' = invalidated s.
Proof.
  induction n as [|n IH]; intros index s; cbv zeta; cbn [copy_kernel_half]; [done|].
  destruct (IH (index + 1) (store (slot new index) (load (slot (pml4 s) index) s) s)) as (-> & -> & -> & ->).
  done.
Qed.

Lemma ent_copy_kernel_half s g k p i n index :
  0 < hhdm_offset s → addr_ok (hhdm_offset s) g → addr_ok (hhdm_offset s) k → addr_ok (hhdm_offset s) p →
  g ≠ k → pml4 s = physical_to_virtual k s → 0 ≤ i < 512 → 0 ≤ index → index + Z.of_nat n ≤ 512 →
  ent (copy_kernel_half (physical_to_virtual g s) n index s) p i
  = if decide (p = g ∧ index ≤ i < index + Z.of_nat n) then ent s k i else ent s p i.
Proof.
  intros Hh Hg Hk Hp Hgk Hpml Hi. revert s Hh Hg Hk Hp Hpml index.
  induction n as [|n IH]; intros s Hh Hg Hk Hp Hpml index H0 Hn; cbn [copy_kernel_half].
  { rewrite decide_False by lia. done. }
  rewrite Hpml. change (load (slot (physical_to_virtual k s) index) s) with (ent s k index).
  set (s1 := store (slot (physical_to_virtual g s) index) (ent s k index) s).
  change (physical_to_virtual g s) with (physical_to_virtual g s1).
  rewrite IH by (simpl; done || lia). unfold s1. rewrite !ent_store by (done || lia). unfold upd.
  rewrite (decide_False (P := k = g ∧ i = index)) by naive_solver.
  destruct (decide (p = g ∧ index + 1 ≤ i < index + 1 + Z.of_nat n)) as [[-> ?]|N1].
  - rewrite decide_True by lia. done.
  - destruct (decide (p = g ∧ i = index)) as [[-> ->]|N2].
    + rewrite decide_True by lia. done.
    + rewrite decide_False; [done|]. intros [-> ?]. apply N1. split; [done|].
      destruct (decide (i = index)) as [->|]; [by destruct N2|lia].
Qed.

(** A new root that shares the kernel half of [k]. *)
Lemma well_typed_new_root T E g k :
  well_typed T E → T !! k = Some 3%nat → T !! g = None →
  (∀ i, 0 ≤ i < 256 → E g i = 0) → (∀ i, 256 ≤ i < 512 → E g i = E k i) →
  well_typed (<[g := 3%nat]> T) E.
Proof.
  intros [H1 H2 H3 H4] Hk Hg Hlo Hhi.
  assert (present 0 = false) as H0 by done. assert (tbl 0 = false) as H0' by done.
  assert (Hrow : ∀ i, 0 ≤ i < 512 → present (E g i) = true → 256 ≤ i ∧ E g i = E k i).
  { intros i Hi Hp. destruct (Z.lt_ge_cases i 256); [rewrite Hlo in Hp by lia; congruence|].
    split; [done|]. apply Hhi. lia. }
  assert (Hroot : ∀ p L i, <[g := 3%nat]> T !! p = Some (S L) → 0 ≤ i < 512 → tbl (E p i) = true →
    ∃ p', T !! p' = Some (S L) ∧ E p i = E p' i ∧ (p = p' ∨ (L = 2%nat ∧ 256 ≤ i))).
  { intros p L i [[<- [= <-]]|[_ Hp]]%lookup_insert_Some Hi Ht; [|by exists p; auto].
    apply tbl_true in Ht as [Hp _]. destruct (Hrow i Hi Hp) as [Hi2 He]. exists k. auto. }
  split.
  - intros p L [[<- <-]|[_ Hp]]%lookup_insert_Some; [done|eauto].
  - intros p L i Hp Hi Ht. destruct (Hroot p L i Hp Hi Ht) as (p' & Hp' & He & _).
    rewrite He in Ht |- *. specialize (H2 p' L i Hp' Hi Ht).
    rewrite lookup_insert_ne; [done|]. intros Heq. rewrite <- Heq in H2. congruence.
  - intros p i [[<- _]|[_ Hp]]%lookup_insert_Some Hi Hpr; [|eauto].
    destruct (Hrow i Hi Hpr) as [_ He]. rewrite He in Hpr |- *. eauto.
  - intros p p' i i' L Hp Hp' Hi Hi' Ht Ht' Heq.
    destruct (Hroot p L i Hp Hi Ht) as (q & Hq & He & Hor).
    destruct (Hroot p' L i' Hp' Hi' Ht') as (q' & Hq' & He' & Hor').
    rewrite He in Ht, Heq. rewrite He' in Ht', Heq.
    destruct (H4 q q' i i' L Hq Hq' Hi Hi' Ht Ht' Heq) as [-> Hqq]. split; [done|].
    destruct Hor as [->|]; [|by right]. destruct Hor' as [->|]; [|by right]. done.
Qed.

Lemma vmm_create_cases T s :
  vm_inv T s → T !! kernel_pml4_phys s = Some 3%nat →
  pml4 s = physical_to_virtual (kernel_pml4_phys s) s →
  (vmm_create_address_space s = (0, s) ∧ fa_free (frames s) = ∅) ∨
  ∃ g s', vmm_create_address_space s = (g, s') ∧ T !! g = None ∧ g ≠ 0 ∧
    config s' = config s ∧ vm_inv (<[g := 3%nat]> T) s' ∧ agree T (ent s) (ent s') ∧
    (∀ i, 0 ≤ i < 256 → ent s' g i = 0) ∧
    (∀ i, 256 ≤ i < 512 → ent s' g i = ent s (kernel_pml4_phys s) i) ∧
    g / 4096 ∈ fa_free (frames s) ∧ fa_free (frames s') = fa_free (frames s) ∖ {[g / 4096]}.
Proof.
  intros Hinv Hk Hpml. unfold vmm_create_address_space. rewrite (vi_init _ _ Hinv). cbn [negb orb].
  destruct (vi_hhdm _ _ Hinv) as (Hh & Hh2 & Hh3). change (2 ^ 36) with 68719476736 in Hh3.
  pose proof (vi_addr _ _ Hinv _ _ Hk) as Hka.
  destruct (Z.eqb_spec (pml4 s) 0) as [H0|_]; [rewrite Hpml in H0; by destruct (ptv_nonzero s _ Hh Hka)|].
  destruct (allocate_frame_spec s (vi_fa _ _ Hinv))
    as [[-> Hempty]|(g & pm & -> & Ha & Hg & Hf & Hok & Hu & Hfr)]; [by left|]. right.
  change (2 ^ 36) with 68719476736 in Hg. destruct (Z.eqb_spec g 0); [lia|].
  assert (T !! g = None) as HgT.
  { destruct (T !! g) eqn:Eg; [|done]. by destruct (vi_free _ _ Hinv _ _ Eg). }
  assert (addr_ok (hhdm_offset s) g) as Hga by (unfold addr_ok; split_and!; [lia|done|clear -Hh3 Hg Ha; zsolve]).
  set (k := kernel_pml4_phys s) in *. assert (g ≠ k) as Hgk by congruence.
  set (s0 := with_frames pm s). change (physical_to_virtual g s0) with (physical_to_virtual g s).
  set (s1 := clear_page_table (physical_to_virtual g s) 256 0 s0).
  set (s2 := copy_kernel_half (physical_to_virtual g s) 256 256 s1).
  destruct (clear_config (physical_to_virtual g s) 256 0 s0) as (Hc1 & Hf1 & _). fold s1 in Hc1, Hf1.
  destruct (copy_kernel_half_config (physical_to_virtual g s) 256 256 s1) as (Hc2 & Hf2 & _). fold s2 in Hc2, Hf2.
  assert (config s2 = config s) as Hc by (rewrite Hc2, Hc1; done).
  assert (frames s2 = pm) as Hfs by (rewrite Hf2, Hf1; done).
  assert (He : ∀ p i, addr_ok (hhdm_offset s) p → 0 ≤ i < 512 →
    ent s2 p i = if decide (p = g) then if decide (i < 256) then 0 else ent s k i else ent s p i).
  { intros p i Hp Hi. pose proof (config_hhdm _ _ Hc1) as Hh1. change (hhdm_offset s0) with (hhdm_offset s) in Hh1.
    assert (Hpg : ∀ q, physical_to_virtual q s = physical_to_virtual q s1)
      by (intros q; unfold physical_to_virtual; by rewrite Hh1).
    unfold s2. rewrite (Hpg g), (ent_copy_kernel_half s1 g k) by
      (rewrite ?Hh1; done || lia || (injection Hc1 as _ Hx _ _; rewrite Hx, <- Hpg; exact Hpml)).
    unfold s1. change (physical_to_virtual g s) with (physical_to_virtual g s0).
    rewrite !ent_clear by (done || lia). change (ent s0) with (ent s).
    rewrite (decide_False (P := k = g ∧ _)) by (intros [Hx _]; by apply Hgk).
    destruct (decide (p = g)) as [->|Npg].
    - destruct (decide (i < 256)); [rewrite decide_False by lia; by rewrite decide_True by lia|].
      by rewrite decide_True by lia.
    - rewrite !decide_False by (intros [Hx _]; by apply Npg). done. }
  clearbody s2. clear Hc1 Hf1 Hc2 Hf2 s1 s0. exists g, s2.
  assert (Haddr : ∀ p L, <[g := 3%nat]> T !! p = Some L → addr_ok (hhdm_offset s) p).
  { intros p L [[<- _]|[_ Hp]]%lookup_insert_Some; [done|by eapply (vi_addr _ _ Hinv)]. }
  assert (agree T (ent s) (ent s2)) as Hag.
  { intros p L i Hp Hi. rewrite He by (done || by eapply (vi_addr _ _ Hinv)).
    by rewrite decide_False by congruence. }
  assert (∀ i, 0 ≤ i < 256 → ent s2 g i = 0) as Hlo.
  { intros i Hi. rewrite He, decide_True, decide_True by (done || lia). done. }
  assert (∀ i, 256 ≤ i < 512 → ent s2 g i = ent s k i) as Hhi.
  { intros i Hi. rewrite He, decide_True, decide_False by (done || lia). done. }
  assert (well_typed (<[g := 3%nat]> T) (ent s2)) as Hwt.
  { apply (well_typed_new_root T (ent s2) g k); try done; [by eapply well_typed_agree; [apply Hinv|]|].
    intros i Hi. rewrite Hhi by done. eapply Hag; [done|lia]. }
  split_and!; try done; [|by rewrite Hfs].
  apply (vm_inv_intro T s s2 (ent s2) Hinv Hc); try done; rewrite ?Hfs; try done.
  - intros p L Hp. split; [by eapply Haddr|]. rewrite Hfr.
    apply lookup_insert_Some in Hp as [[<- _]|[_ Hp]]; [clear; set_solver|].
    pose proof (vi_free _ _ Hinv _ _ Hp) as Hx. clear -Hx. set_solver.
  - intros p L i [[<- [= <-]]|[_ Hp]]%lookup_insert_Some Hi Ht H9.
    + destruct (Z.lt_ge_cases i 256); [by rewrite Hlo in Ht by lia|].
      rewrite Hhi in Ht, H9 |- * by lia. by apply (vi_owned _ _ Hinv k 2 i).
    + rewrite <- (Hag p _ i Hp Hi) in Ht, H9 |- *. by eapply (vi_owned _ _ Hinv).
Qed.

(** creating an address space.  [vmm_create_address_space] fails only when no
    frame is free.  The new address space maps nothing in the user half, and
    translates the kernel half exactly as the kernel's own tables do; the other
    address spaces are untouched, and one frame was taken. *)
Theorem vmm_create_address_space_spec T s :
  vm_inv T s → T !! kernel_pml4_phys s = Some 3%nat →
  pml4 s = physical_to_virtual (kernel_pml4_phys s) s →
  let '(g, s') := vmm_create_address_space s in
  (g = 0 ∧ s' = s ∧ fa_free (frames s) = ∅) ∨
  (g ≠ 0 ∧ T !! g = None ∧ vm_inv (<[g := 3%nat]> T) s' ∧
   (∀ va, canonical va → va < USER_LIMIT → vmm_query_page_in g va s' = None) ∧
   (∀ va, canonical va → USER_LIMIT ≤ va →
      vmm_query_page_in g va s' = vmm_query_page_in (kernel_pml4_phys s) va s) ∧
   (∀ p va, T !! p = Some 3%nat → vmm_query_page_in p va s' = vmm_query_page_in p va s) ∧
   g / 4096 ∈ fa_free (frames s) ∧ fa_free (frames s') = fa_free (frames s) ∖ {[g / 4096]}).
Proof.
  intros Hinv Hk Hpml.
  destruct (vmm_create_cases T s Hinv Hk Hpml)
    as [[-> He]|(g & s' & -> & Hg & H0 & Hc & Hinv' & Hag & Hlo & Hhi & Hf & Hfr)]; [by left|]. right.
  assert (<[g := 3%nat]> T !! g = Some 3%nat) as Hgl by apply lookup_insert_eq.
  assert (well_typed T (ent s')) as Hwt by (by eapply well_typed_agree; [apply Hinv|]).
  split_and!; try done.
  - intros va Hcan Hus. rewrite (query_walk _ s' g va Hinv' Hgl). apply walk_dead. left.
    rewrite Hlo; [done|]. pose proof (vidx_range va 3). apply (vidx3_user va Hcan) in Hus. lia.
  - intros va Hcan Hus. rewrite (query_walk _ s' g va Hinv' Hgl), (query_walk T s _ va Hinv Hk).
    assert (256 ≤ vidx va 3 < 512) as Hi.
    { pose proof (vidx_range va 3). pose proof (vidx3_user va Hcan). lia. }
    rewrite (walk_agree T (ent s) (ent s') (vi_wt _ _ Hinv) Hag 3 _ va ACC0 Hk). cbn [walk].
    rewrite (Hhi _ Hi), (Hag _ _ _ Hk) by lia. done.
  - intros p va Hp. assert (<[g := 3%nat]> T !! p = Some 3%nat) as Hp' by (rewrite lookup_insert_ne; congruence).
    rewrite (query_walk _ s' p va Hinv' Hp'), (query_walk T s p va Hinv Hp).
    symmetry. by apply (walk_agree T _ _ (vi_wt _ _ Hinv) Hag).
Qed.

End vmm.
