(* ===== verification/Heap.v ===== *)
(** * Kernel heap (src/mm/heap.c)

    A first-fit allocator over a doubly linked list of blocks whose headers lie
    in the heap itself.  The headers are a map from block address to
    [heap_block]; the bytes handed out are a separate byte memory; backing pages
    come from a [PageMapper].  The bodies are the critical sections of
    [heap_lock].  The loops over the block list carry a fuel of one more than
    the number of headers, which the refinement shows to be enough. *)

From S2P Require Import Prelude Interfaces.
From Stdlib Require Import ZArith Lia.
From stdpp Require Import gmap.
#[local] Open Scope Z_scope.

(** ** Data *)

Definition PAGE_SIZE : Z := 4096.
Definition HEAP_BASE : Z := 0xffffffffc0000000.
Definition HEAP_MAXIMUM_BYTES : Z := 128 * 1024 * 1024.
Definition HEAP_ALIGNMENT : Z := 16.
Definition HEAP_PAGE_FLAGS : Z := Z.lor 2 0x8000000000000000.

(** [sizeof(struct heap_block)]: three 64-bit words and a bool, padded. *)
Definition SIZEOF_BLOCK : Z := 32.

Record heap_block := HeapBlock { bsize : Z; previous : Z; bnext : Z; bfree : bool }.

Record kernel_heap := KernelHeap {
  first : Z;
  last : Z;
  mapped_bytes : Z;
  active_allocations : Z;
  initialized : bool;
}.

Record heap_state (M : Type) := HeapState {
  heap : kernel_heap;
  blocks : gmap Z heap_block;
  bytes : gmap Z Z;
  mapper : M;
}.
Arguments HeapState {_}. Arguments heap {_}. Arguments blocks {_}.
Arguments bytes {_}. Arguments mapper {_}.

(** ** Operations *)

Definition align_up (value alignment : Z) : option Z :=
  if value >? UINT64_MAX - (alignment - 1) then None
  else Some (Z.land (value + alignment - 1) (not64 (alignment - 1))).

Section operations.
Context {M : Type} `{PageMapper M}.
Implicit Types h : heap_state M.

Definition null_block : heap_block := HeapBlock 0 0 0 false.
Definition block_at (a : Z) h : heap_block := default null_block (blocks h !! a).

Definition set_block (a : Z) (b : heap_block) h : heap_state M :=
  HeapState (heap h) (<[a := b]> (blocks h)) (bytes h) (mapper h).
Definition set_size (a v : Z) h : heap_state M :=
  let b := block_at a h in set_block a (HeapBlock v (previous b) (bnext b) (bfree b)) h.
Definition set_previous (a v : Z) h : heap_state M :=
  let b := block_at a h in set_block a (HeapBlock (bsize b) v (bnext b) (bfree b)) h.
Definition set_next (a v : Z) h : heap_state M :=
  let b := block_at a h in set_block a (HeapBlock (bsize b) (previous b) v (bfree b)) h.
Definition set_free (a : Z) (v : bool) h : heap_state M :=
  let b := block_at a h in set_block a (HeapBlock (bsize b) (previous b) (bnext b) v) h.

Definition with_heap (k : kernel_heap) h : heap_state M := HeapState k (blocks h) (bytes h) (mapper h).
Definition with_mapper (m : M) h : heap_state M := HeapState (heap h) (blocks h) (bytes h) m.
Definition with_bytes (b : gmap Z Z) h : heap_state M := HeapState (heap h) (blocks h) b (mapper h).

Definition set_first (v : Z) h : heap_state M :=
  let k := heap h in
  with_heap (KernelHeap v (last k) (mapped_bytes k) (active_allocations k) (initialized k)) h.
Definition set_last (v : Z) h : heap_state M :=
  let k := heap h in
  with_heap (KernelHeap (first k) v (mapped_bytes k) (active_allocations k) (initialized k)) h.
Definition set_mapped_bytes (v : Z) h : heap_state M :=
  let k := heap h in
  with_heap (KernelHeap (first k) (last k) v (active_allocations k) (initialized k)) h.
Definition set_active (v : Z) h : heap_state M :=
  let k := heap h in
  with_heap (KernelHeap (first k) (last k) (mapped_bytes k) v (initialized k)) h.

Definition blocks_are_adjacent (left right : Z) h : bool :=
  u64 (left + SIZEOF_BLOCK + bsize (block_at left h)) =? right.

Definition merge_with_next (block : Z) h : heap_state M :=
  let next := bnext (block_at block h) in
  if (next =? 0) || negb (bfree (block_at next h)) || negb (blocks_are_adjacent block next h) then h
  else
    let h := set_size block (u64 (bsize (block_at block h) + (SIZEOF_BLOCK + bsize (block_at next h)))) h in
    let h := set_next block (bnext (block_at next h)) h in
    if negb (bnext (block_at next h) =? 0)
    then set_previous (bnext (block_at next h)) block h
    else set_last block h.

Fixpoint find_free_from (fuel : nat) (block size : Z) h : Z :=
  match fuel with
  | O => 0
  | S fuel =>
      if block =? 0 then 0
      else if bfree (block_at block h) && (bsize (block_at block h) >=? size) then block
      else find_free_from fuel (bnext (block_at block h)) size h
  end.

Definition walk_fuel h : nat := S (base.size (blocks h)).

Definition find_free_block (size : Z) h : Z := find_free_from (walk_fuel h) (first (heap h)) size h.

(** The mapping loop of [grow_heap]; returns [mapped_pages]. *)
Fixpoint map_heap_pages (virtual_address : Z) (n : nat) (mapped_pages : Z) (m : M) : Z * M :=
  match n with
  | O => (mapped_pages, m)
  | S n =>
      let '(physical_frame, m) := map_allocate_frame m in
      if physical_frame =? 0 then (mapped_pages, m)
      else
        let '(ok, m) := map_map_page (u64 (virtual_address + mapped_pages * PAGE_SIZE))
                          physical_frame HEAP_PAGE_FLAGS m in
        if negb ok then (mapped_pages, (map_free_frame physical_frame m).2)
        else map_heap_pages virtual_address n (mapped_pages + 1) m
  end.

(** The roll-back loop of [grow_heap]. *)
Fixpoint unmap_heap_pages (virtual_address : Z) (n : nat) (page : Z) (m : M) : M :=
  match n with
  | O => m
  | S n =>
      let '(physical_frame, m) := map_unmap_page (u64 (virtual_address + page * PAGE_SIZE)) m in
      let m := if negb (physical_frame =? 0) then (map_free_frame physical_frame m).2 else m in
      unmap_heap_pages virtual_address n (page + 1) m
  end.

Definition grow_heap (requested_size : Z) h : Z * heap_state M :=
  if requested_size >? HEAP_MAXIMUM_BYTES - SIZEOF_BLOCK then (0, h)
  else
    let required_bytes := requested_size + SIZEOF_BLOCK in
    let page_count := (required_bytes + PAGE_SIZE - 1) / PAGE_SIZE in
    let new_bytes := page_count * PAGE_SIZE in
    if new_bytes >? HEAP_MAXIMUM_BYTES - mapped_bytes (heap h) then (0, h)
    else
      let virtual_address := u64 (HEAP_BASE + mapped_bytes (heap h)) in
      let '(mapped_pages, m) := map_heap_pages virtual_address (Z.to_nat page_count) 0 (mapper h) in
      if negb (mapped_pages =? page_count) then
        (0, with_mapper (unmap_heap_pages virtual_address (Z.to_nat mapped_pages) 0 m) h)
      else
        let h := with_mapper m h in
        let block := virtual_address in
        let h := set_block block (HeapBlock (new_bytes - SIZEOF_BLOCK) (last (heap h)) 0 true) h in
        let h := if negb (last (heap h) =? 0) then set_next (last (heap h)) block h
                 else set_first block h in
        let h := set_last block h in
        let h := set_mapped_bytes (u64 (mapped_bytes (heap h) + new_bytes)) h in
        (block, h).

(** The unmapping loop of [reclaim_trailing_block]; [false] is the early return. *)
Fixpoint reclaim_pages (block_address : Z) (n : nat) (offset : Z) (m : M) : bool * M :=
  match n with
  | O => (true, m)
  | S n =>
      let '(physical_frame, m) := map_unmap_page (u64 (block_address + offset)) m in
      if physical_frame =? 0 then (false, m)
      else
        let '(ok, m) := map_free_frame physical_frame m in
        if negb ok then (false, m) else reclaim_pages block_address n (offset + PAGE_SIZE) m
  end.

Definition reclaim_trailing_block h : heap_state M :=
  let block := last (heap h) in
  if (block =? 0) || negb (bfree (block_at block h)) || negb (block mod PAGE_SIZE =? 0) then h
  else
    let block_bytes := u64 (SIZEOF_BLOCK + bsize (block_at block h)) in
    if negb (block_bytes mod PAGE_SIZE =? 0) then h
    else if negb (u64 (block + block_bytes) =? u64 (HEAP_BASE + mapped_bytes (heap h))) then h
    else
      let prev := previous (block_at block h) in
      let '(ok, m) := reclaim_pages block (Z.to_nat (block_bytes / PAGE_SIZE)) 0 (mapper h) in
      let h := with_mapper m h in
      if negb ok then h
      else
        let h := set_last prev h in
        let h := if negb (last (heap h) =? 0) then set_next (last (heap h)) 0 h else set_first 0 h in
        set_mapped_bytes (u64 (mapped_bytes (heap h) - block_bytes)) h.

Definition heap_initialize h : bool * heap_state M := (true, with_heap (KernelHeap 0 0 0 0 true) h).

(** The tail of [kmalloc]: splits the chosen block and marks it used. *)
Definition take_block (block size : Z) h : heap_state M :=
  let h :=
    if bsize (block_at block h) >=? u64 (size + SIZEOF_BLOCK + HEAP_ALIGNMENT) then
      let split := u64 (block + SIZEOF_BLOCK + size) in
      let h := set_block split
        (HeapBlock (u64 (bsize (block_at block h) - size - SIZEOF_BLOCK)) block
                   (bnext (block_at block h)) true) h in
      let h := if negb (bnext (block_at block h) =? 0)
               then set_previous (bnext (block_at block h)) split h
               else set_last split h in
      let h := set_next block split h in
      set_size block size h
    else h in
  let h := set_free block false h in
  set_active (u64 (active_allocations (heap h) + 1)) h.

Definition kmalloc (size : Z) h : Z * heap_state M :=
  if negb (initialized (heap h)) || (size =? 0) then (0, h)
  else
    match align_up size HEAP_ALIGNMENT with
    | None => (0, h)
    | Some size =>
        let block := find_free_block size h in
        let '(block, h) := if block =? 0 then grow_heap size h else (block, h) in
        if block =? 0 then (0, h)
        else (u64 (block + SIZEOF_BLOCK), take_block block size h)
    end.

(** [while (block != 0 && block != candidate) block = block->next;] *)
Fixpoint find_block (fuel : nat) (block candidate : Z) h : Z :=
  match fuel with
  | O => 0
  | S fuel =>
      if negb (block =? 0) && negb (block =? candidate)
      then find_block fuel (bnext (block_at block h)) candidate h
      else block
  end.

(** The block header a client pointer designates, 0 when it is not in range. *)
Definition pointer_block (pointer_address : Z) h : Z :=
  if (mapped_bytes (heap h) =? 0) || (pointer_address <? HEAP_BASE + SIZEOF_BLOCK)
     || (pointer_address >=? u64 (HEAP_BASE + mapped_bytes (heap h))) then 0
  else find_block (walk_fuel h) (first (heap h)) (pointer_address - SIZEOF_BLOCK) h.

Definition kfree (pointer : Z) h : bool * heap_state M :=
  if negb (initialized (heap h)) || (pointer =? 0) then (false, h)
  else
    let block := pointer_block pointer h in
    if (block =? 0) || bfree (block_at block h) then (false, h)
    else if active_allocations (heap h) =? 0 then (false, h)
    else
      let h := set_free block true h in
      let h := set_active (u64 (active_allocations (heap h) - 1)) h in
      let h := merge_with_next block h in
      let h := if negb (previous (block_at block h) =? 0)
                  && bfree (block_at (previous (block_at block h)) h)
               then merge_with_next (previous (block_at block h)) h else h in
      (true, reclaim_trailing_block h).

(** [for (i = 0; i < total; ++i) ptr[i] = 0;] *)
Fixpoint zero_bytes (ptr : Z) (n : nat) (i : Z) (m : gmap Z Z) : gmap Z Z :=
  match n with
  | O => m
  | S n => zero_bytes ptr n (i + 1) (<[u64 (ptr + i) := 0]> m)
  end.

Definition kcalloc (num size : Z) h : Z * heap_state M :=
  if negb (num =? 0) && (size >? UINT64_MAX / num) then (0, h)
  else
    let total := u64 (num * size) in
    let '(ptr, h) := kmalloc total h in
    if negb (ptr =? 0) then (ptr, with_bytes (zero_bytes ptr (Z.to_nat total) 0 (bytes h)) h)
    else (ptr, h).

(** [for (i = 0; i < copy_bytes; ++i) new_ptr[i] = pointer[i];] *)
Fixpoint copy_bytes (new_ptr pointer : Z) (n : nat) (i : Z) (m : gmap Z Z) : gmap Z Z :=
  match n with
  | O => m
  | S n => copy_bytes new_ptr pointer n (i + 1) (<[u64 (new_ptr + i) := get0 m (u64 (pointer + i))]> m)
  end.

Definition krealloc (pointer new_size : Z) h : Z * heap_state M :=
  if pointer =? 0 then kmalloc new_size h
  else if new_size =? 0 then (0, (kfree pointer h).2)
  else if negb (initialized (heap h)) then (0, h)
  else
    let block := pointer_block pointer h in
    if (block =? 0) || bfree (block_at block h) then (0, h)
    else
      let old_size := bsize (block_at block h) in
      if new_size <=? old_size then (pointer, h)
      else
        let '(new_ptr, h) := kmalloc new_size h in
        if new_ptr =? 0 then (0, h)
        else
          let n := if old_size <? new_size then old_size else new_size in
          let h := with_bytes (copy_bytes new_ptr pointer (Z.to_nat n) 0 (bytes h)) h in
          (new_ptr, (kfree pointer h).2).

Definition heap_active_allocation_count h : Z := active_allocations (heap h).
Definition heap_mapped_page_count h : Z := mapped_bytes (heap h) / PAGE_SIZE.

End operations.
