(* ===== verification/HeapSpec.v ===== *)
(** * What the kernel heap guarantees (src/mm/heap.c)

    The block list of Heap.v refines a list of tiles that cover the heap's
    address range without gap or overlap.  On tiles, allocation and release are
    list edits; the theorems say what they mean for the blocks in use. *)

From Stdlib Require Import ZArith Lia.
From stdpp Require Import gmap.
From S2P Require Import Prelude Interfaces Heap.
#[local] Open Scope Z_scope.

(** ** Tiles *)

Record tile := Tile { taddr : Z; tsize : Z; tfree : bool }.

(** The list covers [base, limit): a header, then a payload of a positive
    multiple of 16 bytes, then the next tile. *)
Fixpoint tiles (base : Z) (l : list tile) (limit : Z) : Prop :=
  match l with
  | [] => base = limit
  | t :: l => taddr t = base ∧ 16 ≤ tsize t ∧ tsize t mod 16 = 0 ∧ tiles (base + 32 + tsize t) l limit
  end.

Definition head_addr (l : list tile) (nx : Z) : Z := match l with [] => nx | t :: _ => taddr t end.

Fixpoint last_addr (p : Z) (l : list tile) : Z := match l with [] => p | t :: l => last_addr (taddr t) l end.

(** The headers of the tiles, doubly linked, after [prev] and before [nx]. *)
Fixpoint chain (m : gmap Z heap_block) (prev : Z) (l : list tile) (nx : Z) : Prop :=
  match l with
  | [] => True
  | t :: l => m !! taddr t = Some (HeapBlock (tsize t) prev (head_addr l nx) (tfree t)) ∧
              chain m (taddr t) l nx
  end.

(** The blocks in use, as (address, size). *)
Definition used (l : list tile) : list (Z * Z) :=
  (λ t, (taddr t, tsize t)) <$> filter (λ t, tfree t = false) l.

Lemma used_app l1 l2 : used (l1 ++ l2) = used l1 ++ used l2.
Proof. unfold used. by rewrite filter_app, fmap_app. Qed.

Lemma used_cons t l : used (t :: l) = if tfree t then used l else (taddr t, tsize t) :: used l.
Proof. unfold used. rewrite filter_cons. by destruct (tfree t). Qed.

Lemma tiles_app l1 l2 b e : tiles b (l1 ++ l2) e ↔ ∃ mid, tiles b l1 mid ∧ tiles mid l2 e.
Proof.
  revert b. induction l1 as [|t l1 IH]; intros b; simpl.
  - split; [by exists b|]. by intros (mid & -> & ?).
  - rewrite IH. split.
    + intros (? & ? & ? & mid & ? & ?). by exists mid.
    + intros (mid & (? & ? & ? & ?) & ?). split_and!; try done. by exists mid.
Qed.

Lemma tiles_le b l e : tiles b l e → b ≤ e.
Proof. revert b. induction l as [|t l IH]; intros b; simpl; [lia|]. intros (_ & ? & _ & ?%IH). lia. Qed.

Lemma tiles_bounds b l e t :
  tiles b l e → t ∈ l → b ≤ taddr t ∧ taddr t + 32 + tsize t ≤ e ∧ 16 ≤ tsize t ∧ tsize t mod 16 = 0 ∧
    (b mod 16 = 0 → taddr t mod 16 = 0).
Proof.
  revert b. induction l as [|u l IH]; intros b Hl Ht; [by apply not_elem_of_nil in Ht|].
  destruct Hl as (Ha & Hs & Hm & Hl). apply elem_of_cons in Ht as [->|Ht].
  - pose proof (tiles_le _ _ _ Hl). rewrite Ha. split_and!; done || lia.
  - destruct (IH _ Hl Ht) as (? & ? & ? & ? & Hal). split_and!; try lia.
    intros Hb. apply Hal. clear -Hb Hm. zsolve.
Qed.

Lemma tiles_NoDup b l e : tiles b l e → NoDup (taddr <$> l).
Proof.
  revert b. induction l as [|t l IH]; intros b; [constructor|]. intros (Ha & Hs & _ & Hl).
  rewrite fmap_cons. apply NoDup_cons. split; [|by eapply IH].
  intros (u & Hau & Hu)%list_elem_of_fmap. destruct (tiles_bounds _ _ _ _ Hl Hu). lia.
Qed.

(** Two blocks in use never overlap. *)
Lemma used_disjoint b l e a1 s1 a2 s2 :
  tiles b l e → (a1, s1) ∈ used l → (a2, s2) ∈ used l → a1 ≠ a2 → a1 + 32 + s1 ≤ a2 ∨ a2 + 32 + s2 ≤ a1.
Proof.
  revert b. induction l as [|t l IH]; intros b Hl H1 H2 Hne; [by apply not_elem_of_nil in H1|].
  assert (Hin : ∀ a s, (a, s) ∈ used l → ∃ u, u ∈ l ∧ taddr u = a ∧ tsize u = s).
  { intros a s (u & [= -> ->] & [_ Hu]%list_elem_of_filter)%list_elem_of_fmap. by exists u. }
  destruct Hl as (Ha & Hs & _ & Hl). rewrite used_cons in H1, H2.
  destruct (tfree t); [by eapply IH|].
  apply elem_of_cons in H1 as [[= -> ->]|H1]; apply elem_of_cons in H2 as [[= -> ->]|H2].
  - done.
  - destruct (Hin _ _ H2) as (u & Hu & <- & <-). destruct (tiles_bounds _ _ _ _ Hl Hu). lia.
  - destruct (Hin _ _ H1) as (u & Hu & <- & <-). destruct (tiles_bounds _ _ _ _ Hl Hu). lia.
  - by eapply IH.
Qed.

(** ** Chains *)

Lemma head_addr_app l1 l2 nx : head_addr (l1 ++ l2) nx = head_addr l1 (head_addr l2 nx).
Proof. by destruct l1. Qed.

Lemma last_addr_app p l1 l2 : last_addr p (l1 ++ l2) = last_addr (last_addr p l1) l2.
Proof. revert p. induction l1 as [|t l1 IH]; intros p; simpl; [done|apply IH]. Qed.

Lemma chain_app m p l1 l2 nx :
  chain m p (l1 ++ l2) nx ↔ chain m p l1 (head_addr l2 nx) ∧ chain m (last_addr p l1) l2 nx.
Proof.
  revert p. induction l1 as [|t l1 IH]; intros p; simpl; [naive_solver|].
  rewrite IH, head_addr_app. naive_solver.
Qed.

Lemma chain_frame m m' p l nx :
  (∀ t, t ∈ l → m' !! taddr t = m !! taddr t) → chain m p l nx → chain m' p l nx.
Proof.
  revert p. induction l as [|t l IH]; intros p Hm; simpl; [done|]. intros [H1 H2].
  split; [by rewrite Hm by left|]. apply IH; [|done]. intros u Hu. apply Hm. by right.
Qed.

Lemma chain_lookup m p l1 t l2 nx :
  chain m p (l1 ++ t :: l2) nx →
  m !! taddr t = Some (HeapBlock (tsize t) (last_addr p l1) (head_addr l2 nx) (tfree t)).
Proof. intros [_ [H _]]%chain_app. done. Qed.

Lemma chain_size m p l nx : chain m p l nx → NoDup (taddr <$> l) → (length l ≤ size m)%nat.
Proof.
  intros Hc Hn. rewrite <- (length_fmap taddr), <- size_dom.
  rewrite <- (size_list_to_set (C := gset Z) (taddr <$> l)) by done.
  apply subseteq_size. intros a (t & -> & Ht)%elem_of_list_to_set%list_elem_of_fmap.
  apply elem_of_dom. revert p Hc. induction l as [|u l IH]; intros p Hc; [by apply not_elem_of_nil in Ht|].
  destruct Hc as [H1 H2]. apply elem_of_cons in Ht as [->|Ht]; [by eexists|].
  apply NoDup_cons in Hn as [_ Hn]. by eapply IH.
Qed.

(** ** The refinement relation *)

Section heap.
Context {M : Type} `{PageMapper M}.
Implicit Types h : heap_state M.

Record heap_inv (l : list tile) h : Prop := {
  hi_init : initialized (heap h) = true;
  hi_chain : chain (blocks h) 0 l 0;
  hi_first : first (heap h) = head_addr l 0;
  hi_last : last (heap h) = last_addr 0 l;
  hi_tiles : tiles HEAP_BASE l (HEAP_BASE + mapped_bytes (heap h));
  hi_mapped : mapped_bytes (heap h) mod 4096 = 0 ∧ 0 ≤ mapped_bytes (heap h) ≤ HEAP_MAXIMUM_BYTES;
  hi_active : active_allocations (heap h) = Z.of_nat (length (used l));
}.

Lemma heap_bounds l h t :
  heap_inv l h → t ∈ l →
  HEAP_BASE ≤ taddr t ∧ taddr t + 32 + tsize t ≤ HEAP_BASE + mapped_bytes (heap h) ∧
  16 ≤ tsize t ∧ tsize t mod 16 = 0 ∧ taddr t mod 16 = 0.
Proof.
  intros Hi Ht. destruct (tiles_bounds _ _ _ _ (hi_tiles _ _ Hi) Ht) as (? & ? & ? & ? & Ha).
  split_and!; try done. by apply Ha.
Qed.

Lemma tiles_length b l e : tiles b l e → 48 * Z.of_nat (length l) ≤ e - b.
Proof.
  revert b. induction l as [|t l IH]; intros b; simpl; [lia|].
  intros (_ & ? & _ & ?%IH). lia.
Qed.

Lemma used_length l : (length (used l) ≤ length l)%nat.
Proof. unfold used. rewrite length_fmap. apply length_filter. Qed.

Lemma heap_active_bound l h :
  heap_inv l h → 0 ≤ active_allocations (heap h) < 4194304.
Proof.
  intros Hi. rewrite (hi_active _ _ Hi). pose proof (used_length l).
  pose proof (tiles_length _ _ _ (hi_tiles _ _ Hi)). destruct (hi_mapped _ _ Hi) as [_ ?].
  unfold HEAP_MAXIMUM_BYTES in *. lia.
Qed.

Lemma block_at_tile l1 t l2 h p nx :
  chain (blocks h) p (l1 ++ t :: l2) nx →
  block_at (taddr t) h = HeapBlock (tsize t) (last_addr p l1) (head_addr l2 nx) (tfree t).
Proof. intros Hc. unfold block_at. by rewrite (chain_lookup _ _ _ _ _ _ Hc). Qed.

(** ** Searching *)

Lemma find_free_from_spec size h l : ∀ p fuel,
  chain (blocks h) p l 0 → (∀ t, t ∈ l → taddr t ≠ 0) → (length l < fuel)%nat →
  (find_free_from fuel (head_addr l 0) size h = 0 ∧
   ∀ t, t ∈ l → tfree t = true → tsize t < size) ∨
  ∃ l1 t l2, l = l1 ++ t :: l2 ∧ tfree t = true ∧ size ≤ tsize t ∧
    find_free_from fuel (head_addr l 0) size h = taddr t ∧
    ∀ u, u ∈ l1 → tfree u = true → tsize u < size.
Proof.
  induction l as [|t l IH]; intros p fuel Hc Hz Hf; (destruct fuel as [|fuel]; [simpl in Hf; lia|]).
  { left. split; [done|]. by intros t ?%not_elem_of_nil. }
  cbn [find_free_from head_addr]. destruct (Z.eqb_spec (taddr t) 0); [by destruct (Hz t ltac:(left))|].
  rewrite (block_at_tile [] t l h p 0 Hc). cbn [bfree bsize bnext].
  destruct (tfree t) eqn:Ef; cbn [andb].
  - rewrite Z.geb_leb. destruct (Z.leb_spec size (tsize t)).
    + right. exists [], t, l. split_and!; try done. by intros u ?%not_elem_of_nil.
    + destruct Hc as [_ Hc]. destruct (IH _ fuel Hc) as [[-> Hn]|(l1 & u & l2 & -> & Hu & Hs & -> & Hn)].
      * intros u Hu. apply Hz. by right.
      * simpl in Hf. lia.
      * left. split; [done|]. intros u [->|Hu]%elem_of_cons Hfu; [done|by apply Hn].
      * right. exists (t :: l1), u, l2. split_and!; try done.
        intros v [->|Hv]%elem_of_cons Hfv; [done|by apply Hn].
  - destruct Hc as [_ Hc]. destruct (IH _ fuel Hc) as [[-> Hn]|(l1 & u & l2 & -> & Hu & Hs & -> & Hn)].
    + intros u Hu. apply Hz. by right.
    + simpl in Hf. lia.
    + left. split; [done|]. intros u [->|Hu]%elem_of_cons Hfu; [congruence|by apply Hn].
    + right. exists (t :: l1), u, l2. split_and!; try done.
      intros v [->|Hv]%elem_of_cons Hfv; [congruence|by apply Hn].
Qed.

Lemma find_block_spec c h l : ∀ p fuel,
  chain (blocks h) p l 0 → (∀ t, t ∈ l → taddr t ≠ 0) → (length l < fuel)%nat →
  (find_block fuel (head_addr l 0) c h = 0 ∧ ∀ t, t ∈ l → taddr t ≠ c) ∨
  ∃ l1 t l2, l = l1 ++ t :: l2 ∧ taddr t = c ∧ find_block fuel (head_addr l 0) c h = c.
Proof.
  induction l as [|t l IH]; intros p fuel Hc Hz Hf; (destruct fuel as [|fuel]; [simpl in Hf; lia|]).
  { left. split; [done|]. by intros t ?%not_elem_of_nil. }
  cbn [find_block head_addr]. destruct (Z.eqb_spec (taddr t) 0); [by destruct (Hz t ltac:(left))|].
  destruct (Z.eqb_spec (taddr t) c); cbn [negb andb]; [right; exists [], t, l; done|].
  rewrite (block_at_tile [] t l h p 0 Hc). cbn [bnext]. destruct Hc as [_ Hc].
  destruct (IH _ fuel Hc) as [[-> Hn]|(l1 & u & l2 & -> & Hu & ->)].
  - intros u Hu. apply Hz. by right.
  - simpl in Hf. lia.
  - left. split; [done|]. intros u [->|Hu]%elem_of_cons; [done|by apply Hn].
  - right. by exists (t :: l1), u, l2.
Qed.

Lemma walk_fuel_enough l h : heap_inv l h → (length l < walk_fuel h)%nat.
Proof.
  intros Hi. unfold walk_fuel. pose proof (chain_size _ _ _ _ (hi_chain _ _ Hi)
    (tiles_NoDup _ _ _ (hi_tiles _ _ Hi))). lia.
Qed.

Lemma heap_addr_nonzero l h t : heap_inv l h → t ∈ l → taddr t ≠ 0.
Proof. intros Hi Ht. destruct (heap_bounds l h t Hi Ht). unfold HEAP_BASE in *. lia. Qed.

(** ** Taking a block *)

Definition take_tiles (t : tile) (size : Z) : list tile :=
  if tsize t >=? size + 48
  then [Tile (taddr t) size false; Tile (taddr t + 32 + size) (tsize t - size - 32) true]
  else [Tile (taddr t) (tsize t) false].

(** The addresses of the other tiles are away from a given one. *)
Lemma heap_addr_ne l1 t l2 h u :
  heap_inv (l1 ++ t :: l2) h → u ∈ l1 ++ l2 → taddr u + 32 + tsize u ≤ taddr t ∨ taddr t + 32 + tsize t ≤ taddr u.
Proof.
  intros Hi Hu. pose proof (hi_tiles _ _ Hi) as Ht. apply tiles_app in Ht as (mid & H1 & Ht & Hs & _ & H2).
  apply elem_of_app in Hu as [Hu|Hu].
  - left. destruct (tiles_bounds _ _ _ _ H1 Hu) as (_ & ? & _). lia.
  - right. destruct (tiles_bounds _ _ _ _ H2 Hu) as (? & _). lia.
Qed.

(** Redirecting the back pointer of the first tile of a chain. *)
Lemma chain_reroot m p p' l nx :
  NoDup (taddr <$> l) → chain m p l nx →
  match l with
  | [] => True
  | t :: l' => chain (<[taddr t := HeapBlock (tsize t) p' (head_addr l' nx) (tfree t)]> m) p' l nx
  end.
Proof.
  destruct l as [|t l]; [done|]. intros [Hn _]%NoDup_cons [_ Hc]. split; [apply lookup_insert_eq|].
  eapply chain_frame; [|done]. intros u Hu. rewrite lookup_insert_ne; [done|].
  intros Heq. apply Hn. rewrite Heq. apply list_elem_of_fmap. by exists u.
Qed.

(** Replacing one tile by a segment: the chain is rebuilt from the new headers of
    the segment and the new back pointer after it. *)
Lemma chain_splice m m' l1 t seg l2 :
  NoDup (taddr <$> (l1 ++ t :: l2)) → chain m 0 (l1 ++ t :: l2) 0 →
  head_addr seg 0 = taddr t → seg ≠ [] →
  (∀ u, u ∈ l1 → m' !! taddr u = m !! taddr u) →
  chain m' (last_addr 0 l1) seg (head_addr l2 0) →
  match l2 with
  | [] => True
  | u :: l2' => m' !! taddr u = Some (HeapBlock (tsize u) (last_addr 0 seg) (head_addr l2' 0) (tfree u)) ∧
                ∀ v, v ∈ l2' → m' !! taddr v = m !! taddr v
  end →
  chain m' 0 (l1 ++ seg ++ l2) 0.
Proof.
  intros Hn Hc Hh Hne H1 Hs H2. apply chain_app in Hc as [Hc1 [_ Hc2]].
  assert (∀ p q, last_addr p seg = last_addr q seg) as Hla by (by destruct seg).
  rewrite !chain_app. rewrite head_addr_app. split_and!.
  - replace (head_addr seg _) with (taddr t) by (by destruct seg). by eapply chain_frame.
  - done.
  - destruct l2 as [|u l2]; [done|]. destruct H2 as [H2 H3]. split; [by rewrite (Hla _ 0)|].
    destruct Hc2 as [_ Hc2]. by eapply chain_frame.
Qed.

Lemma head_not_in (l1 : list tile) t l2 u :
  NoDup (taddr <$> (l1 ++ t :: l2)) → u ∈ l1 ++ l2 → taddr u ≠ taddr t.
Proof.
  rewrite fmap_app, fmap_cons. intros (_ & Hd & [Hn _]%NoDup_cons)%NoDup_app Hu Heq.
  apply elem_of_app in Hu as [Hu|Hu].
  - apply (Hd (taddr u)); [apply list_elem_of_fmap; by exists u|]. rewrite Heq. left.
  - apply Hn. rewrite <- Heq. apply list_elem_of_fmap. by exists u.
Qed.

Lemma tiles_take b l1 t l2 e size :
  tiles b (l1 ++ t :: l2) e → 16 ≤ size ≤ tsize t → size mod 16 = 0 →
  tiles b (l1 ++ take_tiles t size ++ l2) e.
Proof.
  intros (mid & H1 & Ha & Hs & Hm & H2)%tiles_app Hsz Hsm. apply tiles_app. exists mid. split; [done|].
  unfold take_tiles. rewrite Z.geb_leb. destruct (Z.leb_spec (size + 48) (tsize t)); simpl.
  - split_and!; try (done || lia); [|by replace (mid + 32 + size + 32 + (tsize t - size - 32))
      with (mid + 32 + tsize t) by lia]. clear -Hm Hsm. zsolve.
  - done.
Qed.

Lemma used_take t size : tfree t = true →
  ∃ s, used (take_tiles t size) = [(taddr t, s)] ∧ (s = size ∨ s = tsize t).
Proof.
  intros _. unfold take_tiles. destruct (_ >=? _); rewrite !used_cons; simpl; eauto.
Qed.

(** The header writes on a state in closed form. *)
Section writes.
Context (k : kernel_heap) (m : gmap Z heap_block) (by' : gmap Z Z) (mp : M) (a : Z) (b : heap_block).
Hypothesis Ha : m !! a = Some b.
Abbreviation st m := (HeapState k m by' mp).

Lemma block_at_eq : block_at a (st m) = b.
Proof. unfold block_at. simpl. by rewrite Ha. Qed.
Lemma set_size_eq v : set_size a v (st m) = st (<[a := HeapBlock v (previous b) (bnext b) (bfree b)]> m).
Proof. unfold set_size. by rewrite block_at_eq. Qed.
Lemma set_previous_eq v : set_previous a v (st m) = st (<[a := HeapBlock (bsize b) v (bnext b) (bfree b)]> m).
Proof. unfold set_previous. by rewrite block_at_eq. Qed.
Lemma set_next_eq v : set_next a v (st m) = st (<[a := HeapBlock (bsize b) (previous b) v (bfree b)]> m).
Proof. unfold set_next. by rewrite block_at_eq. Qed.
Lemma set_free_eq v : set_free a v (st m) = st (<[a := HeapBlock (bsize b) (previous b) (bnext b) v]> m).
Proof. unfold set_free. by rewrite block_at_eq. Qed.
End writes.

Definition with_last (k : kernel_heap) (v : Z) : kernel_heap :=
  KernelHeap (first k) v (mapped_bytes k) (active_allocations k) (initialized k).
Definition with_active (k : kernel_heap) (v : Z) : kernel_heap :=
  KernelHeap (first k) (last k) (mapped_bytes k) v (initialized k).

(** Looks a header up through the writes before it. *)
Ltac hdr := repeat first [rewrite lookup_insert_eq; reflexivity|rewrite lookup_insert_ne by congruence|eassumption].

(** [take_block] in closed form: the whole block, a split at the end of the
    list, a split before another block. *)
Lemma take_block_whole k m by' (mp : M) a size b :
  m !! a = Some b → bsize b < u64 (size + SIZEOF_BLOCK + HEAP_ALIGNMENT) →
  take_block a size (HeapState k m by' mp) =
  HeapState (with_active k (u64 (active_allocations k + 1)))
    (<[a := HeapBlock (bsize b) (previous b) (bnext b) false]> m) by' mp.
Proof.
  intros Ha Hs. unfold take_block.
  rewrite (block_at_eq k m by' mp a b Ha), Z.geb_leb, (proj2 (Z.leb_gt _ _) Hs).
  by rewrite (set_free_eq k m by' mp a b Ha).
Qed.

Lemma take_block_split_last k m by' (mp : M) a size b sp :
  m !! a = Some b → u64 (size + SIZEOF_BLOCK + HEAP_ALIGNMENT) ≤ bsize b →
  sp = u64 (a + SIZEOF_BLOCK + size) → a ≠ sp → bnext b = 0 →
  take_block a size (HeapState k m by' mp) =
  HeapState (with_active (with_last k sp) (u64 (active_allocations k + 1)))
    (<[a := HeapBlock size (previous b) sp false]>
       (<[sp := HeapBlock (u64 (bsize b - size - SIZEOF_BLOCK)) a 0 true]> m)) by' mp.
Proof.
  intros Ha Hs -> Hne Hn. set (sp := u64 (a + SIZEOF_BLOCK + size)) in *.
  unfold take_block. fold sp.
  rewrite (block_at_eq k m by' mp a b Ha), Z.geb_leb, (proj2 (Z.leb_le _ _) Hs). rewrite Hn.
  cbv zeta. unfold set_block. cbn [heap blocks bytes mapper].
  rewrite (block_at_eq _ _ _ _ _ b) by hdr. rewrite Hn. cbn [Z.eqb negb].
  unfold set_last, with_heap. cbn [heap blocks bytes mapper]. fold (with_last k sp).
  rewrite (set_next_eq _ _ _ _ _ b) by hdr. cbn [bsize previous bfree].
  erewrite set_size_eq by hdr. cbn [bsize previous bnext bfree].
  erewrite set_free_eq by hdr. cbn [bsize previous bnext bfree].
  rewrite !insert_insert_eq. done.
Qed.

Lemma take_block_split k m by' (mp : M) a size b sp n c :
  m !! a = Some b → u64 (size + SIZEOF_BLOCK + HEAP_ALIGNMENT) ≤ bsize b →
  sp = u64 (a + SIZEOF_BLOCK + size) → a ≠ sp → bnext b = n → n ≠ 0 → n ≠ a → n ≠ sp → m !! n = Some c →
  take_block a size (HeapState k m by' mp) =
  HeapState (with_active k (u64 (active_allocations k + 1)))
    (<[a := HeapBlock size (previous b) sp false]>
       (<[n := HeapBlock (bsize c) sp (bnext c) (bfree c)]>
          (<[sp := HeapBlock (u64 (bsize b - size - SIZEOF_BLOCK)) a n true]> m))) by' mp.
Proof.
  intros Ha Hs -> Hne Hn Hn0 Hna Hnsp Hc. set (sp := u64 (a + SIZEOF_BLOCK + size)) in *.
  unfold take_block. fold sp.
  rewrite (block_at_eq k m by' mp a b Ha), Z.geb_leb, (proj2 (Z.leb_le _ _) Hs). rewrite Hn.
  cbv zeta. unfold set_block. cbn [heap blocks bytes mapper].
  rewrite (block_at_eq _ _ _ _ _ b) by hdr. rewrite Hn, (proj2 (Z.eqb_neq _ _) Hn0). cbn [negb].
  rewrite (set_previous_eq _ _ _ _ _ c) by hdr.
  rewrite (set_next_eq _ _ _ _ _ b) by hdr. cbn [bsize previous bfree].
  erewrite set_size_eq by hdr. cbn [bsize previous bnext bfree].
  erewrite set_free_eq by hdr. cbn [bsize previous bnext bfree].
  rewrite !insert_insert_eq. done.
Qed.

(** An edit of the list that leaves range and count of the state right. *)
Lemma heap_inv_edit l l' k m by' (mp : M) k' m' by'' (mp' : M) :
  heap_inv l (HeapState k m by' mp) → chain m' 0 l' 0 →
  first k' = head_addr l' 0 → last k' = last_addr 0 l' →
  tiles HEAP_BASE l' (HEAP_BASE + mapped_bytes k') →
  mapped_bytes k' mod 4096 = 0 ∧ 0 ≤ mapped_bytes k' ≤ HEAP_MAXIMUM_BYTES →
  active_allocations k' = Z.of_nat (length (used l')) → initialized k' = initialized k →
  heap_inv l' (HeapState k' m' by'' mp').
Proof. intros [] ? ? ? ? ? ? Hin. split; try done. simpl in *. congruence. Qed.

Lemma take_block_spec l1 t l2 size h :
  heap_inv (l1 ++ t :: l2) h → tfree t = true → 16 ≤ size ≤ tsize t → size mod 16 = 0 →
  let h' := take_block (taddr t) size h in
  heap_inv (l1 ++ take_tiles t size ++ l2) h' ∧ mapped_bytes (heap h') = mapped_bytes (heap h) ∧
  bytes h' = bytes h ∧ mapper h' = mapper h.
Proof.
  intros Hi Hfr Hsz Hsm h'. destruct h as [k m by' mp].
  pose proof (heap_bounds _ _ t Hi ltac:(apply elem_of_app; right; left)) as (B1 & B2 & B3 & B4 & B5).
  pose proof (hi_mapped _ _ Hi) as Hmb. pose proof (heap_active_bound _ _ Hi) as Hact.
  pose proof (tiles_NoDup _ _ _ (hi_tiles _ _ Hi)) as Hnd.
  pose proof (chain_lookup _ _ _ _ _ _ (hi_chain _ _ Hi)) as Hb. cbn [blocks heap] in *.
  pose proof (λ u Hu, head_not_in l1 t l2 u Hnd Hu) as Hne.
  pose proof (λ u Hu, heap_addr_ne l1 t l2 _ u Hi Hu) as Hsep.
  pose proof (tiles_take _ _ _ _ _ size (hi_tiles _ _ Hi) Hsz Hsm) as Htl. cbn [heap] in Htl.
  assert (HU : u64 (active_allocations k + 1) = Z.of_nat (length (used (l1 ++ take_tiles t size ++ l2)))).
  { rewrite u64_small by (unfold is_u64, W64; lia). pose proof (hi_active _ _ Hi) as Ha. cbn [heap] in Ha.
    rewrite Ha. destruct (used_take t size Hfr) as (s & Hs & _).
    rewrite !used_app, used_cons, Hfr, Hs, !length_app. cbn [length]. lia. }
  assert (Hin : ∀ u, u ∈ l1 ++ l2 → u ∈ l1 ++ t :: l2).
  { intros u. rewrite !elem_of_app, elem_of_cons. tauto. }
  pose proof (hi_first _ _ Hi) as Hf1. pose proof (hi_last _ _ Hi) as Hl1. cbn [heap] in Hf1, Hl1.
  rewrite !last_addr_app in Hl1. rewrite head_addr_app in Hf1. cbn [last_addr head_addr] in Hl1, Hf1.
  unfold h'. clear h'.
  assert (u64 (size + SIZEOF_BLOCK + HEAP_ALIGNMENT) = size + 48) as Hu1.
  { unfold HEAP_MAXIMUM_BYTES, SIZEOF_BLOCK, HEAP_ALIGNMENT, HEAP_BASE in *.
    rewrite u64_small by (unfold is_u64, W64; lia). lia. }
  unfold take_tiles in *. rewrite !Z.geb_leb in *.
  destruct (Z.leb_spec (size + 48) (tsize t)) as [Hle|Hgt].
  2:{ rewrite (take_block_whole _ _ _ _ _ _ _ Hb) by (cbn [bsize]; lia).
      split; [|done]. eapply heap_inv_edit; try done.
      - eapply (chain_splice m); try done; [apply Hi|..].
        + intros u Hu. rewrite lookup_insert_ne; [done|]. symmetry. apply Hne. apply elem_of_app. by left.
        + split; [apply lookup_insert_eq|done].
        + destruct l2 as [|u l2]; [done|].
          assert (Hn2 : ∀ v, v ∈ (u :: l2) → taddr t ≠ taddr v).
          { intros v Hv. symmetry. apply Hne. apply elem_of_app. by right. }
          pose proof (hi_chain _ _ Hi) as Hc. apply chain_app in Hc as [_ [_ [Hc _]]].
          split; [rewrite lookup_insert_ne by (apply Hn2; left); exact Hc|].
          intros v Hv. rewrite lookup_insert_ne; [done|]. apply Hn2. by right.
      - by rewrite head_addr_app.
      - rewrite !last_addr_app. done. }
  assert (u64 (taddr t + SIZEOF_BLOCK + size) = taddr t + 32 + size) as Hu2.
  { unfold HEAP_MAXIMUM_BYTES, SIZEOF_BLOCK, HEAP_ALIGNMENT, HEAP_BASE in *.
    by rewrite u64_small by (unfold is_u64, W64; lia). }
  assert (u64 (tsize t - size - SIZEOF_BLOCK) = tsize t - size - 32) as Hu3.
  { unfold HEAP_MAXIMUM_BYTES, SIZEOF_BLOCK, HEAP_BASE in *. by rewrite u64_small by (unfold is_u64, W64; lia). }
  set (sp := taddr t + 32 + size) in *. assert (taddr t ≠ sp) as Hasp by lia.
  assert (∀ u, u ∈ l1 ++ l2 → taddr u ≠ sp) as Hsp.
  { intros u Hu Heq. destruct (heap_bounds _ _ u Hi (Hin u Hu)) as (_ & _ & ? & _).
    destruct (Hsep u Hu); lia. }
  assert (Hl1ne : ∀ u, u ∈ l1 → taddr u ≠ taddr t ∧ taddr u ≠ sp).
  { intros u Hu. split; [apply Hne|apply Hsp]; apply elem_of_app; by left. }
  destruct l2 as [|u l2].
  - rewrite (take_block_split_last _ _ _ _ _ _ _ sp Hb) by (done || lia || (cbn [bsize]; lia)).
    cbn [bsize previous]. rewrite Hu3. split; [|done]. eapply heap_inv_edit; try done.
    + eapply (chain_splice m); try done; [apply Hi|..].
      * intros v Hv. destruct (Hl1ne v Hv). by rewrite !lookup_insert_ne by done.
      * cbn [chain head_addr taddr tsize tfree].
        rewrite lookup_insert_eq, lookup_insert_ne, lookup_insert_eq by done. done.
    + by rewrite head_addr_app.
    + rewrite !last_addr_app. done.
  - assert (Hu0 : taddr u ≠ 0) by (apply (heap_addr_nonzero _ _ u Hi), Hin, elem_of_app; right; left).
    assert (Hu4 : taddr u ≠ taddr t ∧ taddr u ≠ sp) by (split; [apply Hne|apply Hsp]; apply elem_of_app; right; left).
    pose proof (hi_chain _ _ Hi) as Hc. apply chain_app in Hc as [_ [_ [Hcu _]]]. cbn [blocks] in Hcu.
    rewrite (take_block_split _ _ _ _ _ _ _ sp (taddr u) _ Hb) by (done || lia || (cbn [bsize]; lia) || apply Hu4 || exact Hcu).
    cbn [bsize previous bnext bfree]. rewrite Hu3. split; [|done]. destruct Hu4 as [Hu4 Hu5].
    assert (Hur : ∀ v, v ∈ l1 ++ l2 → taddr v ≠ taddr u).
    { intros v Hv. apply (head_not_in (l1 ++ [t]) u l2 v); [by rewrite <- app_assoc|].
      rewrite !elem_of_app in *. tauto. }
    eapply heap_inv_edit; try done.
    + eapply (chain_splice m); try done; [apply Hi|..].
      * intros v Hv. destruct (Hl1ne v Hv). pose proof (Hur v ltac:(apply elem_of_app; by left)).
        by rewrite !lookup_insert_ne by done.
      * cbn [chain head_addr taddr tsize tfree]. rewrite lookup_insert_eq.
        rewrite !lookup_insert_ne, lookup_insert_eq by done. done.
      * cbn [last_addr taddr]. rewrite lookup_insert_ne, lookup_insert_eq by done. split; [done|].
        intros v Hv. pose proof (Hur v ltac:(apply elem_of_app; by right)).
        pose proof (Hne v ltac:(rewrite elem_of_app, elem_of_cons; tauto)).
        pose proof (Hsp v ltac:(rewrite elem_of_app, elem_of_cons; tauto)).
        by rewrite !lookup_insert_ne by done.
    + by rewrite head_addr_app.
    + rewrite !last_addr_app. done.
Qed.

(** ** Growing the heap *)

Lemma heap_inv_mapper l h m : heap_inv l h → heap_inv l (with_mapper m h).
Proof. intros []. by split. Qed.

Lemma heap_inv_bytes l h b : heap_inv l h → heap_inv l (with_bytes b h).
Proof. intros []. by split. Qed.

Lemma snoc_cases (l : list tile) : l = [] ∨ ∃ l0 u, l = l0 ++ [u].
Proof. destruct l as [|u l0] using rev_ind; eauto. Qed.

(** Linking a fresh block behind the last one. *)
Lemma chain_snoc m l t :
  NoDup (taddr <$> (l ++ [t])) → chain m 0 l 0 →
  let m1 := <[taddr t := HeapBlock (tsize t) (last_addr 0 l) 0 (tfree t)]> m in
  chain (match reverse l with
         | [] => m1
         | u :: _ => <[taddr u := HeapBlock (tsize u) (last_addr 0 (removelast l)) (taddr t) (tfree u)]> m1
         end) 0 (l ++ [t]) 0.
Proof.
  intros Hn Hc m1. destruct (snoc_cases l) as [->|(l0 & u & ->)].
  { simpl. split; [|done]. unfold m1. apply lookup_insert_eq. }
  rewrite reverse_app. cbn [reverse rev_append app]. change (reverse [u]) with [u]. cbn [app].
  rewrite removelast_last. rewrite <- app_assoc in Hn |- *. cbn [app] in *.
  assert (Hnu : taddr t ≠ taddr u).
  { apply (head_not_in l0 u [t] t Hn). apply elem_of_app. right. left. }
  rewrite chain_app. apply chain_app in Hc as [Hc1 [Hc2 _]]. cbn [head_addr chain last_addr] in *. split.
  - eapply chain_frame; [|exact Hc1]. intros v Hv.
    pose proof (head_not_in l0 u [t] v Hn ltac:(apply elem_of_app; by left)).
    pose proof (head_not_in (l0 ++ [u]) t [] v ltac:(by rewrite <- app_assoc) ltac:(rewrite !elem_of_app; tauto)).
    unfold m1. by rewrite !lookup_insert_ne by done.
  - split; [apply lookup_insert_eq|]. split; [|done].
    rewrite lookup_insert_ne by done. unfold m1. rewrite lookup_insert_eq, last_addr_app. done.
Qed.

Lemma grow_heap_cases l size h :
  heap_inv l h → 16 ≤ size → size mod 16 = 0 →
  (∃ m', grow_heap size h = (0, with_mapper m' h)) ∨
  ∃ t h', grow_heap size h = (taddr t, h') ∧ tfree t = true ∧ size ≤ tsize t ∧ taddr t ≠ 0 ∧
    heap_inv (l ++ [t]) h' ∧ bytes h' = bytes h.
Proof.
  intros Hi Hsz Hsm. destruct h as [k m by' mp]. unfold grow_heap. cbn [heap mapper].
  destruct (hi_mapped _ _ Hi) as [Hm1 Hm2]. cbn [heap] in Hm1, Hm2. rewrite !Z.gtb_ltb.
  destruct (Z.ltb_spec (HEAP_MAXIMUM_BYTES - SIZEOF_BLOCK) size) as [|Hs1]; [left; by exists mp|].
  set (pc := (size + SIZEOF_BLOCK + PAGE_SIZE - 1) / PAGE_SIZE).
  destruct (Z.ltb_spec (HEAP_MAXIMUM_BYTES - mapped_bytes k) (pc * PAGE_SIZE)) as [|Hs2]; [left; by exists mp|].
  destruct (map_heap_pages _ _ 0 mp) as [mapped mp'].
  destruct (Z.eqb_spec mapped pc); cbn [negb]; [|left; eexists; done]. right.
  set (end' := HEAP_BASE + mapped_bytes k) in *.
  assert (size + 32 ≤ pc * 4096 < size + 32 + 4096) as Hpc by (unfold pc, SIZEOF_BLOCK, PAGE_SIZE; zsolve).
  assert (u64 end' = end') as Hu.
  { apply u64_small. unfold end', is_u64, HEAP_BASE, HEAP_MAXIMUM_BYTES, W64 in *. lia. }
  rewrite Hu. unfold SIZEOF_BLOCK, PAGE_SIZE, HEAP_MAXIMUM_BYTES in *.
  set (t := Tile end' (pc * 4096 - 32) true).
  assert (Ht : tiles HEAP_BASE (l ++ [t]) (HEAP_BASE + (mapped_bytes k + pc * 4096))).
  { apply tiles_app. exists end'. split; [apply Hi|]. unfold t. cbn [tiles taddr tsize]. unfold end'.
    split_and!; [done|lia|clearbody pc; clear; zsolve|lia]. }
  assert (u64 (mapped_bytes k + pc * 4096) = mapped_bytes k + pc * 4096) as Hu2.
  { apply u64_small. unfold is_u64, W64. lia. }
  pose proof (chain_snoc m l t (tiles_NoDup _ _ _ Ht) (hi_chain _ _ Hi)) as Hc.
  pose proof (hi_last _ _ Hi) as Hl. pose proof (hi_first _ _ Hi) as Hf. cbn [heap] in Hl, Hf.
  assert (Hact : active_allocations k = Z.of_nat (length (used (l ++ [t])))).
  { rewrite used_app, app_nil_r. apply Hi. }
  assert (end' ≠ 0) as Hne by (unfold end', HEAP_BASE; lia).
  unfold set_block, with_mapper. cbn [heap blocks bytes mapper]. rewrite Hl.
  assert (Hmm : (mapped_bytes k + pc * 4096) mod 4096 = 0 ∧
            0 ≤ mapped_bytes k + pc * 4096 ≤ HEAP_MAXIMUM_BYTES).
  { unfold HEAP_MAXIMUM_BYTES. split; [clearbody pc; clear -Hm1; zsolve|lia]. }
  destruct (snoc_cases l) as [->|(l0 & u & ->)].
  - exists t. eexists. cbn [last_addr Z.eqb negb].
    split; [unfold set_first, set_last, set_mapped_bytes, with_heap; cbn [heap blocks bytes mapper mapped_bytes];
            reflexivity|].
    split_and!; try done; [simpl; lia|]. cbn [mapped_bytes heap]. rewrite Hu2.
    eapply heap_inv_edit; try done; exact Hi.
  - rewrite last_addr_app in *. cbn [last_addr] in *.
    assert (taddr u ≠ 0) as Hu0 by (apply (heap_addr_nonzero _ _ u Hi), elem_of_app; right; left).
    rewrite (proj2 (Z.eqb_neq _ _) Hu0). cbn [negb].
    pose proof (hi_chain _ _ Hi) as Hc0. apply chain_app in Hc0 as [_ [Hcu _]]. cbn [blocks] in Hcu.
    assert (end' ≠ taddr u) as Hnu.
    { pose proof (tiles_NoDup _ _ _ Ht) as Hn. rewrite <- app_assoc in Hn.
      apply (head_not_in l0 u [t] t Hn). apply elem_of_app. right. left. }
    rewrite (set_next_eq _ _ _ _ _ _ ltac:(rewrite lookup_insert_ne by done; exact Hcu)).
    rewrite reverse_app in Hc. change (reverse [u]) with [u] in Hc. rewrite removelast_last in Hc.
    cbn [app] in Hc. exists t. eexists.
    split; [unfold set_first, set_last, set_mapped_bytes, with_heap; cbn [heap blocks bytes mapper mapped_bytes];
            reflexivity|].
    split_and!; try done; [simpl; lia|]. cbn [mapped_bytes heap bsize previous bfree]. rewrite Hu2.
    apply (heap_inv_edit _ _ _ _ _ _ _ _ _ _ Hi); try done.
    + rewrite Hf. by destruct l0.
    + by rewrite !last_addr_app.
Qed.

(** ** Allocation *)

Lemma align_up_cases v :
  0 < v < W64 →
  (align_up v HEAP_ALIGNMENT = None ∧ W64 - 16 < v) ∨
  ∃ a, align_up v HEAP_ALIGNMENT = Some a ∧ v ≤ a < v + 16 ∧ a mod 16 = 0.
Proof.
  intros Hv. unfold align_up, HEAP_ALIGNMENT. rewrite Z.gtb_ltb.
  destruct (Z.ltb_spec (UINT64_MAX - (16 - 1)) v) as [Hlt|Hge]; unfold UINT64_MAX, W64 in *; [left; split; [done|lia]|].
  right. eexists. split; [done|]. change (16 - 1) with (Z.ones 4).
  rewrite land_not64_ones by (unfold is_u64, W64; lia). change (2 ^ 4) with 16. zsolve.
Qed.

Lemma find_free_block_spec l size h :
  heap_inv l h →
  (find_free_block size h = 0 ∧ ∀ t, t ∈ l → tfree t = true → tsize t < size) ∨
  ∃ l1 t l2, l = l1 ++ t :: l2 ∧ tfree t = true ∧ size ≤ tsize t ∧ find_free_block size h = taddr t.
Proof.
  intros Hi. unfold find_free_block. rewrite (hi_first _ _ Hi).
  destruct (find_free_from_spec size h l 0 (walk_fuel h) (hi_chain _ _ Hi)
    (λ t, heap_addr_nonzero l h t Hi) (walk_fuel_enough l h Hi))
    as [[-> Hn]|(l1 & t & l2 & -> & Hf & Hs & -> & _)]; [by left|].
  right. by exists l1, t, l2.
Qed.

Lemma kmalloc_cases l size h :
  heap_inv l h → 0 ≤ size < W64 →
  (∃ m', kmalloc size h = (0, with_mapper m' h) ∧
     ((size = 0 ∨ W64 - 16 < size) ∧ m' = mapper h ∨ ∀ t, t ∈ l → tfree t = true → tsize t < size + 16)) ∨
  ∃ l' t s h', kmalloc size h = (taddr t + 32, h') ∧ heap_inv l' h' ∧ size ≤ s ∧
    used l' ≡ₚ (taddr t, s) :: used l ∧ taddr t ≠ 0 ∧ bytes h' = bytes h.
Proof.
  intros Hi Hsz. unfold kmalloc. rewrite (hi_init _ _ Hi). cbn [negb orb].
  assert (with_mapper (mapper h) h = h) as Hid by (by destruct h).
  destruct (Z.eqb_spec size 0) as [->|]; [left; exists (mapper h); rewrite Hid; auto|].
  destruct (align_up_cases size) as [[-> Hbig]|(a & -> & Ha & Ham)]; [lia|left; exists (mapper h); rewrite Hid; auto|].
  assert (16 ≤ a) as Ha16 by (clear -Ha Ham Hsz n; zsolve).
  assert (Htake : ∀ l1 t l2 h1, heap_inv (l1 ++ t :: l2) h1 → tfree t = true → a ≤ tsize t →
    used (l1 ++ t :: l2) ≡ₚ used l → bytes h1 = bytes h →
    ∃ l' t' s h', (u64 (taddr t + SIZEOF_BLOCK), take_block (taddr t) a h1) = (taddr t' + 32, h') ∧
      heap_inv l' h' ∧ size ≤ s ∧ used l' ≡ₚ (taddr t', s) :: used l ∧ taddr t' ≠ 0 ∧ bytes h' = bytes h).
  { intros l1 t l2 h1 Hi1 Hf Hs Hu Hb.
    destruct (take_block_spec l1 t l2 a h1 Hi1 Hf) as (Hi2 & _ & Hb2 & _); [lia|done|].
    destruct (used_take t a Hf) as (s & Hus & Hs').
    pose proof (heap_bounds _ _ t Hi1 ltac:(apply elem_of_app; right; left)) as (B1 & B2 & B3 & _).
    destruct (hi_mapped _ _ Hi1) as [_ Hm].
    exists (l1 ++ take_tiles t a ++ l2), t, s, (take_block (taddr t) a h1). split_and!; try done.
    - unfold SIZEOF_BLOCK, HEAP_BASE, HEAP_MAXIMUM_BYTES in *. by rewrite u64_small by (unfold is_u64, W64; lia).
    - destruct Hs' as [->| ->]; lia.
    - rewrite <- Hu, !used_app, used_cons, Hf, Hus. cbn [app]. by rewrite Permutation_middle.
    - unfold HEAP_BASE in *. lia.
    - by rewrite Hb2. }
  destruct (find_free_block_spec l a h Hi) as [[Hz Hn]|(l1 & t & l2 & -> & Hf & Hs & Hz)]; rewrite Hz.
  - cbn [Z.eqb]. destruct (grow_heap_cases l a h Hi) as [[m' ->]|(t & h1 & -> & Hf & Hs & Ht0 & Hi1 & Hb)];
      [lia|done|..].
    + left. exists m'. split; [done|]. right. intros t Ht Htf. specialize (Hn t Ht Htf). lia.
    + right. rewrite (proj2 (Z.eqb_neq _ _) Ht0). apply (Htake l t []); try done.
      rewrite used_app, used_cons, Hf. by rewrite app_nil_r.
  - right. assert (taddr t ≠ 0) as Ht0 by (apply (heap_addr_nonzero _ _ t Hi), elem_of_app; right; left).
    rewrite (proj2 (Z.eqb_neq _ _) Ht0). rewrite (proj2 (Z.eqb_neq _ _) Ht0). by apply (Htake l1 t l2).
Qed.

(** ** Merging *)

Definition merge_tiles (t : tile) (l : list tile) : list tile :=
  match l with
  | u :: l' => if tfree u then Tile (taddr t) (tsize t + 32 + tsize u) (tfree t) :: l' else t :: l
  | [] => [t]
  end.

Lemma tiles_merge b l1 t l2 e : tiles b (l1 ++ t :: l2) e → tiles b (l1 ++ merge_tiles t l2) e.
Proof.
  intros (mid & H1 & Ha & Hs & Hm & H2)%tiles_app. apply tiles_app. exists mid. split; [done|].
  destruct l2 as [|u l2]; [by simpl|]. destruct H2 as (Hb & Hs2 & Hm2 & H2). cbn [merge_tiles].
  destruct (tfree u); [|done]. cbn [tiles taddr tsize]. split_and!; [done|lia|clear -Hm Hm2; zsolve|].
  by replace (mid + 32 + (tsize t + 32 + tsize u)) with (mid + 32 + tsize t + 32 + tsize u) by lia.
Qed.

Lemma used_merge l1 t l2 : tfree t = true → used (l1 ++ merge_tiles t l2) = used (l1 ++ t :: l2).
Proof.
  intros Ht. rewrite !used_app. f_equal. destruct l2 as [|u l2]; [done|]. cbn [merge_tiles].
  destruct (tfree u) eqn:Eu; [|done]. rewrite !used_cons. cbn [tfree]. by rewrite Ht, Eu.
Qed.

(** [merge_with_next] in closed form when the next block is free and adjacent. *)
Lemma merge_with_next_eq k m by' (mp : M) a b n c :
  m !! a = Some b → bnext b = n → n ≠ 0 → n ≠ a → m !! n = Some c → bfree c = true →
  u64 (a + SIZEOF_BLOCK + bsize b) = n → bnext c ≠ a → bnext c ≠ n →
  merge_with_next a (HeapState k m by' mp) =
  let m1 := <[a := HeapBlock (u64 (bsize b + (SIZEOF_BLOCK + bsize c))) (previous b) (bnext c) (bfree b)]> m in
  if bnext c =? 0 then HeapState (with_last k a) m1 by' mp
  else set_previous (bnext c) a (HeapState k m1 by' mp).
Proof.
  intros Ha Hn Hn0 Hna Hc Hfc Hadj Hca Hcn. unfold merge_with_next, blocks_are_adjacent.
  rewrite (block_at_eq k m by' mp a b Ha), Hn, (proj2 (Z.eqb_neq _ _) Hn0), (block_at_eq k m by' mp n c Hc), Hfc.
  rewrite Hadj, Z.eqb_refl. cbn [negb orb]. rewrite (set_size_eq k m by' mp a b Ha). cbv zeta.
  rewrite (block_at_eq _ _ _ _ n c) by hdr. erewrite set_next_eq by hdr. cbn [bsize previous bnext bfree].
  rewrite insert_insert_eq. rewrite (block_at_eq _ _ _ _ n c) by hdr. by destruct (bnext c =? 0).
Qed.

Lemma merge_with_next_spec l1 t l2 h :
  heap_inv (l1 ++ t :: l2) h → tfree t = true →
  let h' := merge_with_next (taddr t) h in
  heap_inv (l1 ++ merge_tiles t l2) h' ∧ bytes h' = bytes h ∧ mapped_bytes (heap h') = mapped_bytes (heap h).
Proof.
  intros Hi Htf h'. destruct h as [k m by' mp]. unfold h'. clear h'.
  pose proof (chain_lookup _ _ _ _ _ _ (hi_chain _ _ Hi)) as Hb. cbn [blocks] in Hb.
  destruct l2 as [|u l2].
  { unfold merge_with_next. rewrite (block_at_eq _ _ _ _ _ _ Hb). cbn. done. }
  pose proof (hi_chain _ _ Hi) as Hc. apply chain_app in Hc as [Hc1 [_ [Hcu Hc2]]]. cbn [blocks] in *.
  pose proof (heap_addr_nonzero _ _ u Hi ltac:(apply elem_of_app; right; right; left)) as Hu0.
  pose proof (tiles_NoDup _ _ _ (hi_tiles _ _ Hi)) as Hnd.
  assert (Htu : taddr u ≠ taddr t) by (apply (head_not_in l1 t (u :: l2) u Hnd); apply elem_of_app; right; left).
  destruct (tfree u) eqn:Euf.
  2:{ unfold merge_with_next. rewrite (block_at_eq _ _ _ _ _ _ Hb). cbn [bnext head_addr].
      rewrite (block_at_eq _ _ _ _ _ _ Hcu). cbn [bfree]. rewrite orb_true_r. cbn [orb].
      cbn [merge_tiles]. by rewrite Euf. }
  pose proof (heap_bounds _ _ t Hi ltac:(apply elem_of_app; right; left)) as (T1 & T2 & T3 & T4 & _).
  pose proof (heap_bounds _ _ u Hi ltac:(apply elem_of_app; right; right; left)) as (U1 & U2 & U3 & U4 & _).
  destruct (hi_mapped _ _ Hi) as [Hm1 Hm2]. cbn [heap] in *.
  assert (Hadj : taddr u = taddr t + 32 + tsize t).
  { pose proof (hi_tiles _ _ Hi) as Ht. apply tiles_app in Ht as (mid & _ & E1 & _ & _ & E2 & _). lia. }
  assert (Hu1 : u64 (taddr t + SIZEOF_BLOCK + tsize t) = taddr u).
  { unfold SIZEOF_BLOCK, HEAP_BASE, HEAP_MAXIMUM_BYTES in *. rewrite u64_small by (unfold is_u64, W64; lia). lia. }
  assert (Hu2 : u64 (tsize t + (SIZEOF_BLOCK + tsize u)) = tsize t + 32 + tsize u).
  { unfold SIZEOF_BLOCK, HEAP_BASE, HEAP_MAXIMUM_BYTES in *. rewrite u64_small by (unfold is_u64, W64; lia). lia. }
  assert (Hh : head_addr l2 0 ≠ taddr t ∧ head_addr l2 0 ≠ taddr u).
  { destruct l2 as [|v l2]; cbn [head_addr]; [split; [|done]|].
    - pose proof (heap_addr_nonzero _ _ t Hi ltac:(apply elem_of_app; right; left)). done.
    - split; [apply (head_not_in l1 t (u :: v :: l2) v Hnd); rewrite elem_of_app, !elem_of_cons; tauto|].
      apply (head_not_in (l1 ++ [t]) u (v :: l2) v); [by rewrite <- app_assoc|rewrite elem_of_app, !elem_of_cons; tauto]. }
  rewrite (merge_with_next_eq _ _ _ _ _ _ (taddr u) _ Hb eq_refl Hu0 Htu Hcu eq_refl Hu1 (proj1 Hh) (proj2 Hh)).
  cbn [bsize previous bnext bfree]. rewrite Hu2. cbv zeta.
  pose proof (tiles_merge _ _ _ _ _ (hi_tiles _ _ Hi)) as Htl.
  assert (Hact : active_allocations k = Z.of_nat (length (used (l1 ++ merge_tiles t (u :: l2))))).
  { rewrite used_merge by done. apply Hi. }
  pose proof (hi_first _ _ Hi) as Hf1. pose proof (hi_last _ _ Hi) as Hl1. cbn [heap] in *.
  rewrite head_addr_app in Hf1. rewrite last_addr_app in Hl1. cbn [last_addr head_addr] in Hf1, Hl1.
  cbn [merge_tiles] in *. rewrite Euf in *.
  assert (Hrest : ∀ v, v ∈ l1 ++ l2 → taddr v ≠ taddr t).
  { intros v Hv. apply (head_not_in l1 t (u :: l2) v Hnd). rewrite elem_of_app, elem_of_cons in *. tauto. }
  set (nt := Tile (taddr t) (tsize t + 32 + tsize u) (tfree t)) in *.
  destruct l2 as [|v l2]; cbn [head_addr] in *.
  - cbn [Z.eqb]. split; [|done]. apply (heap_inv_edit _ _ _ _ _ _ _ _ _ _ Hi); try done.
    + rewrite chain_app. split; [|split; [apply lookup_insert_eq|done]].
      eapply chain_frame; [|exact Hc1]. intros v Hv. rewrite lookup_insert_ne; [done|].
      symmetry. apply Hrest, elem_of_app. by left.
    + by rewrite head_addr_app.
    + by rewrite last_addr_app.
  - destruct Hh as [Hv1 Hv2]. destruct Hc2 as [Hcv Hc2].
    assert (taddr v ≠ 0) as Hv0 by (apply (heap_addr_nonzero _ _ v Hi); rewrite elem_of_app, !elem_of_cons; tauto).
    rewrite (proj2 (Z.eqb_neq _ _) Hv0).
    rewrite (set_previous_eq _ _ _ _ _ (HeapBlock (tsize v) (taddr u) (head_addr l2 0) (tfree v))) by hdr.
    cbn [bsize bnext bfree]. split; [|done]. apply (heap_inv_edit _ _ _ _ _ _ _ _ _ _ Hi); try done.
    + assert (Hvr : ∀ w, w ∈ l1 ++ l2 → taddr w ≠ taddr v).
      { intros w Hw. apply (head_not_in (l1 ++ [t; u]) v l2 w); [by rewrite <- app_assoc|].
        rewrite !elem_of_app, !elem_of_cons in *. tauto. }
      rewrite chain_app. split.
      * eapply chain_frame; [|exact Hc1]. intros w Hw.
        pose proof (Hvr w ltac:(apply elem_of_app; by left)).
        pose proof (Hrest w ltac:(rewrite elem_of_app; tauto)). by rewrite !lookup_insert_ne by done.
      * cbn [chain head_addr]. split; [rewrite lookup_insert_ne by done; apply lookup_insert_eq|].
        split; [apply lookup_insert_eq|]. eapply chain_frame; [|exact Hc2]. intros w Hw.
        pose proof (Hvr w ltac:(apply elem_of_app; by right)).
        pose proof (Hrest w ltac:(rewrite elem_of_app, elem_of_cons; tauto)). by rewrite !lookup_insert_ne by done.
    + by rewrite head_addr_app.
    + by rewrite last_addr_app.
Qed.

(** ** Giving back trailing pages *)

Lemma chain_drop_last m l0 u :
  NoDup (taddr <$> (l0 ++ [u])) → chain m 0 (l0 ++ [u]) 0 →
  match reverse l0 with
  | [] => True
  | v :: _ => chain (<[taddr v := HeapBlock (tsize v) (last_addr 0 (removelast l0)) 0 (tfree v)]> m) 0 l0 0
  end.
Proof.
  intros Hn Hc. destruct (snoc_cases l0) as [->|(l1 & v & ->)]; [done|].
  rewrite reverse_app. change (reverse [v]) with [v]. cbn [app]. rewrite removelast_last.
  rewrite <- app_assoc in Hn, Hc. cbn [app] in *. apply chain_app in Hc as [Hc1 [Hc2 _]].
  rewrite chain_app. cbn [head_addr] in *. split; [|split; [apply lookup_insert_eq|done]].
  eapply chain_frame; [|exact Hc1]. intros w Hw. rewrite lookup_insert_ne; [done|].
  symmetry. apply (head_not_in l1 v [u] w Hn). apply elem_of_app. by left.
Qed.

Lemma reclaim_spec l h :
  heap_inv l h →
  ∃ l', heap_inv l' (reclaim_trailing_block h) ∧ used l' = used l ∧ bytes (reclaim_trailing_block h) = bytes h.
Proof.
  intros Hi. destruct h as [k m by' mp]. unfold reclaim_trailing_block. cbn [heap mapper].
  pose proof (hi_last _ _ Hi) as Hl. pose proof (hi_first _ _ Hi) as Hf. cbn [heap] in Hl, Hf. rewrite Hl.
  destruct (snoc_cases l) as [->|(l0 & u & ->)]; [by exists []|]. rewrite last_addr_app. cbn [last_addr].
  pose proof (chain_lookup _ _ _ _ _ _ (hi_chain _ _ Hi)) as Hb. cbn [blocks head_addr] in Hb.
  rewrite (block_at_eq _ _ _ _ _ _ Hb). cbn [bsize bfree previous].
  destruct (_ || _ || _) eqn:Eg; [by exists (l0 ++ [u])|].
  apply orb_false_elim in Eg as [[_ Euf%negb_false_iff]%orb_false_elim Epg%negb_false_iff%Z.eqb_eq].
  pose proof (heap_bounds _ _ u Hi ltac:(apply elem_of_app; right; left)) as (U1 & U2 & U3 & U4 & _).
  destruct (hi_mapped _ _ Hi) as [Hm1 Hm2]. cbn [heap] in *.
  assert (Hu1 : u64 (SIZEOF_BLOCK + tsize u) = 32 + tsize u).
  { unfold SIZEOF_BLOCK, HEAP_BASE, HEAP_MAXIMUM_BYTES in *. by rewrite u64_small by (unfold is_u64, W64; lia). }
  rewrite Hu1. destruct (negb (_ mod PAGE_SIZE =? 0)) eqn:Ebm; [by exists (l0 ++ [u])|].
  destruct (negb (u64 (taddr u + _) =? _)); [by exists (l0 ++ [u])|].
  destruct (reclaim_pages _ _ 0 mp) as [ok mp']. destruct ok; cbn [negb].
  2:{ exists (l0 ++ [u]). split; [|done]. by apply (heap_inv_mapper _ (HeapState k m by' mp)). }
  assert (Hend : taddr u + 32 + tsize u = HEAP_BASE + mapped_bytes k ∧ tiles HEAP_BASE l0 (taddr u)).
  { pose proof (hi_tiles _ _ Hi) as Ht. apply tiles_app in Ht as (mid & Ht & -> & _ & _ & Hx). done. }
  destruct Hend as [Hend Ht0]. exists l0.
  assert (used l0 = used (l0 ++ [u])) as Hus by (by rewrite used_app, used_cons, Euf, app_nil_r).
  split; [|split; [done|]].
  2:{ unfold set_mapped_bytes, with_heap. cbn [bytes]. by case_match. }
  assert (Hu2 : u64 (mapped_bytes k - (32 + tsize u)) = taddr u - HEAP_BASE).
  { unfold HEAP_BASE, HEAP_MAXIMUM_BYTES in *. rewrite u64_small by (unfold is_u64, W64; lia). lia. }
  unfold PAGE_SIZE in *.
  assert (Hmm : (taddr u - HEAP_BASE) mod 4096 = 0 ∧ 0 ≤ taddr u - HEAP_BASE ≤ HEAP_MAXIMUM_BYTES).
  { split; [unfold HEAP_BASE; clear -Epg; zsolve|lia]. }
  pose proof (chain_drop_last m l0 u (tiles_NoDup _ _ _ (hi_tiles _ _ Hi)) (hi_chain _ _ Hi)) as Hcd.
  assert (Hact : active_allocations k = Z.of_nat (length (used l0))) by (rewrite Hus; apply Hi).
  unfold set_last, with_mapper, with_heap. cbn [heap blocks bytes mapper last].
  destruct (snoc_cases l0) as [->|(l1 & v & ->)].
  - cbn [last_addr Z.eqb negb]. unfold set_first, set_mapped_bytes, with_heap. cbn. rewrite Hu2.
    apply (heap_inv_edit _ _ _ _ _ _ _ _ _ _ Hi); try done. cbn. cbn in Ht0. lia.
  - rewrite last_addr_app. cbn [last_addr].
    assert (taddr v ≠ 0) as Hv0 by (apply (heap_addr_nonzero _ _ v Hi); rewrite !elem_of_app, elem_of_cons; tauto).
    rewrite (proj2 (Z.eqb_neq _ _) Hv0). cbn [negb].
    pose proof (hi_chain _ _ Hi) as Hc. rewrite <- app_assoc in Hc. apply chain_lookup in Hc. cbn [blocks] in Hc.
    rewrite (set_next_eq _ _ _ _ _ _ Hc). cbn [bsize previous bfree].
    unfold set_mapped_bytes, with_heap. cbn [heap blocks bytes mapper mapped_bytes first last active_allocations initialized].
    rewrite Hu2. rewrite reverse_app in Hcd. change (reverse [v]) with [v] in Hcd. cbn [app] in Hcd.
    rewrite removelast_last in Hcd.
    apply (heap_inv_edit _ _ _ _ _ _ _ _ _ _ Hi); try done.
    + cbn [first]. rewrite Hf. by destruct l1.
    + cbn [last]. by rewrite last_addr_app.
    + cbn [mapped_bytes]. by replace (HEAP_BASE + (taddr u - HEAP_BASE)) with (taddr u) by lia.
Qed.

(** ** Release *)

Lemma mark_free_spec l1 t l2 h :
  heap_inv (l1 ++ t :: l2) h → tfree t = false →
  let h1 := set_free (taddr t) true h in
  heap_inv (l1 ++ Tile (taddr t) (tsize t) true :: l2) (set_active (u64 (active_allocations (heap h1) - 1)) h1).
Proof.
  intros Hi Htf h1. destruct h as [k m by' mp]. unfold h1. clear h1.
  pose proof (chain_lookup _ _ _ _ _ _ (hi_chain _ _ Hi)) as Hb. cbn [blocks] in Hb.
  rewrite (set_free_eq _ _ _ _ _ _ Hb). cbn [bsize previous bnext].
  pose proof (heap_active_bound _ _ Hi) as Hab. pose proof (hi_active _ _ Hi) as Ha. cbn [heap] in *.
  assert (HU : u64 (active_allocations k - 1) = Z.of_nat (length (used (l1 ++ Tile (taddr t) (tsize t) true :: l2)))).
  { rewrite used_app, used_cons, Htf, length_app in Ha. cbn [length] in Ha.
    rewrite used_app, used_cons. cbn [tfree]. rewrite length_app, u64_small by (unfold is_u64, W64; lia). lia. }
  pose proof (tiles_NoDup _ _ _ (hi_tiles _ _ Hi)) as Hnd.
  pose proof (λ u Hu, head_not_in l1 t l2 u Hnd Hu) as Hne.
  pose proof (hi_first _ _ Hi) as Hf1. pose proof (hi_last _ _ Hi) as Hl1. cbn [heap] in *.
  rewrite head_addr_app in Hf1. rewrite last_addr_app in Hl1.
  unfold set_active, with_heap. cbn [heap blocks bytes mapper].
  apply (heap_inv_edit _ _ _ _ _ _ _ _ _ _ Hi); try done.
  - pose proof (hi_chain _ _ Hi) as Hc. rewrite chain_app in *. destruct Hc as [Hc1 [_ Hc2]]. cbn [blocks] in *.
    split; [|split; [apply lookup_insert_eq|]].
    + eapply chain_frame; [|exact Hc1]. intros w Hw. rewrite lookup_insert_ne; [done|].
      symmetry. apply Hne, elem_of_app. by left.
    + eapply chain_frame; [|exact Hc2]. intros w Hw. rewrite lookup_insert_ne; [done|].
      symmetry. apply Hne, elem_of_app. by right.
  - by rewrite head_addr_app.
  - by rewrite last_addr_app.
  - pose proof (hi_tiles _ _ Hi) as Ht. rewrite tiles_app in Ht |- *. destruct Ht as (mid & ? & ? & ? & ? & ?).
    by exists mid.
  - apply Hi.
Qed.

(** The block a pointer designates, in terms of tiles. *)
Lemma pointer_block_spec l p h :
  heap_inv l h → is_u64 p →
  (pointer_block p h = 0 ∧ ∀ t, t ∈ l → taddr t + 32 ≠ p) ∨
  ∃ l1 t l2, l = l1 ++ t :: l2 ∧ taddr t + 32 = p ∧ pointer_block p h = taddr t ∧ taddr t ≠ 0.
Proof.
  intros Hi Hp. unfold pointer_block.
  destruct (hi_mapped _ _ Hi) as [Hm1 Hm2].
  assert (u64 (HEAP_BASE + mapped_bytes (heap h)) = HEAP_BASE + mapped_bytes (heap h)) as Hu.
  { apply u64_small. unfold is_u64, W64, HEAP_BASE, HEAP_MAXIMUM_BYTES in *. lia. }
  rewrite Hu. unfold SIZEOF_BLOCK. destruct (_ || _ || _) eqn:Eg.
  - left. split; [done|]. intros t Ht Heq. destruct (heap_bounds l h t Hi Ht) as (B1 & B2 & B3 & _).
    unfold HEAP_BASE, HEAP_MAXIMUM_BYTES in *.
    destruct (Z.eqb_spec (mapped_bytes (heap h)) 0); [lia|].
    destruct (Z.ltb_spec p (0xffffffffc0000000 + 32)); [lia|]. rewrite Z.geb_leb in Eg. cbn [orb] in Eg.
    apply Z.leb_le in Eg. lia.
  - rewrite (hi_first _ _ Hi).
    destruct (find_block_spec (p - 32) h l 0 (walk_fuel h) (hi_chain _ _ Hi)
      (λ t, heap_addr_nonzero l h t Hi) (walk_fuel_enough l h Hi)) as [[-> Hn]|(l1 & t & l2 & -> & Ht & ->)].
    + left. split; [done|]. intros t Ht Heq. apply (Hn t Ht). lia.
    + right. exists l1, t, l2. split_and!; [done|lia|done|].
      apply (heap_addr_nonzero _ _ t Hi). apply elem_of_app. right. left.
Qed.

Lemma used_middle l1 t l2 : tfree t = false → used (l1 ++ t :: l2) ≡ₚ (taddr t, tsize t) :: used (l1 ++ l2).
Proof. intros Ht. rewrite !used_app, used_cons, Ht. by rewrite Permutation_middle. Qed.

Lemma used_not_tile l a s : (∀ t, t ∈ l → taddr t = a → tfree t = true) → (a, s) ∉ used l.
Proof.
  intros Hn (t & [= -> ->] & [Hf Ht]%list_elem_of_filter)%list_elem_of_fmap.
  specialize (Hn t Ht eq_refl). congruence.
Qed.

(** The two merges of [kfree]: the block, then its predecessor. *)
Lemma kfree_merge_spec l1 t l2 h :
  heap_inv (l1 ++ t :: l2) h → tfree t = true →
  let h1 := merge_with_next (taddr t) h in
  let prev := previous (block_at (taddr t) h1) in
  let h2 := if negb (prev =? 0) && bfree (block_at prev h1) then merge_with_next prev h1 else h1 in
  ∃ l', heap_inv l' h2 ∧ used l' = used (l1 ++ l2) ∧ bytes h2 = bytes h.
Proof.
  intros Hi Htf h1 prev h2.
  destruct (merge_with_next_spec l1 t l2 h Hi Htf) as (Hi1 & Hb1 & _). fold h1 in Hi1, Hb1.
  assert (Hus : used (l1 ++ merge_tiles t l2) = used (l1 ++ l2)).
  { rewrite used_merge by done. by rewrite !used_app, used_cons, Htf. }
  assert (∃ t' l2', merge_tiles t l2 = t' :: l2' ∧ taddr t' = taddr t) as (t' & l2' & Hmt & Hta).
  { destruct l2 as [|u l2]; [by exists t, []|]. cbn [merge_tiles].
    destruct (tfree u); [by eexists _, _|by exists t, (u :: l2)]. }
  rewrite Hmt in Hi1, Hus.
  assert (prev = last_addr 0 l1) as Hpv.
  { unfold prev. rewrite <- Hta, (block_at_tile l1 t' l2' h1 0 0); [done|apply Hi1]. }
  destruct (snoc_cases l1) as [->|(l0 & u & ->)].
  { exists (t' :: l2'). unfold h2. rewrite Hpv. cbn. done. }
  rewrite last_addr_app in Hpv. cbn [last_addr] in Hpv. rewrite <- app_assoc in Hi1, Hus. cbn [app] in Hi1, Hus.
  pose proof (block_at_tile l0 u (t' :: l2') h1 0 0 (hi_chain _ _ Hi1)) as Hbu.
  assert (taddr u ≠ 0) as Hu0 by (apply (heap_addr_nonzero _ _ u Hi1), elem_of_app; right; left).
  unfold h2. rewrite Hpv, (proj2 (Z.eqb_neq _ _) Hu0), Hbu. cbn [negb andb bfree].
  destruct (tfree u) eqn:Euf; [|exists (l0 ++ u :: t' :: l2'); done].
  destruct (merge_with_next_spec l0 u (t' :: l2') h1 Hi1 Euf) as (Hi2 & Hb2 & _).
  exists (l0 ++ merge_tiles u (t' :: l2')). split_and!; [done|by rewrite used_merge|by rewrite Hb2].
Qed.

Lemma kfree_cases l p h :
  heap_inv l h → is_u64 p →
  (kfree p h = (false, h) ∧ ∀ s, (p - 32, s) ∉ used l) ∨
  ∃ l' s h', kfree p h = (true, h') ∧ heap_inv l' h' ∧ used l ≡ₚ (p - 32, s) :: used l' ∧ bytes h' = bytes h.
Proof.
  intros Hi Hp. unfold kfree. rewrite (hi_init _ _ Hi). cbn [negb orb].
  destruct (Z.eqb_spec p 0) as [->|].
  { left. split; [done|]. intros s. apply used_not_tile. intros t Ht Heq.
    destruct (heap_bounds l h t Hi Ht). unfold HEAP_BASE in *. lia. }
  destruct (pointer_block_spec l p h Hi Hp) as [[-> Hn]|(l1 & t & l2 & -> & Ht & -> & Ht0)].
  { left. split; [done|]. intros s. apply used_not_tile. intros t Ht Heq. destruct (Hn t Ht). lia. }
  rewrite (proj2 (Z.eqb_neq _ _) Ht0), (block_at_tile l1 t l2 h 0 0 (hi_chain _ _ Hi)). cbn [orb bfree].
  destruct (tfree t) eqn:Etf.
  { left. split; [done|]. intros s. apply used_not_tile. intros u Hu Heq.
    apply elem_of_app in Hu as [Hu|[->|Hu]%elem_of_cons]; [|done|];
      destruct (head_not_in l1 t l2 u (tiles_NoDup _ _ _ (hi_tiles _ _ Hi))); (lia || (apply elem_of_app; tauto)). }
  assert (active_allocations (heap h) ≠ 0) as Hact.
  { rewrite (hi_active _ _ Hi), (Permutation_length (used_middle l1 t l2 Etf)). simpl. lia. }
  rewrite (proj2 (Z.eqb_neq _ _) Hact). right.
  pose proof (mark_free_spec l1 t l2 h Hi Etf) as Hi1. cbv zeta in Hi1.
  set (h1 := set_active _ _) in *. set (t1 := Tile (taddr t) (tsize t) true) in *.
  destruct (kfree_merge_spec l1 t1 l2 h1 Hi1 eq_refl) as (l' & Hi2 & Hu2 & Hb2).
  cbn [taddr t1] in Hi2, Hb2. change (taddr t1) with (taddr t) in *.
  destruct (reclaim_spec l' _ Hi2) as (l'' & Hi3 & Hu3 & Hb3).
  exists l'', (tsize t). eexists. split; [reflexivity|]. split_and!.
  - exact Hi3.
  - rewrite Hu3, Hu2. replace (p - 32) with (taddr t) by lia. by apply used_middle.
  - by rewrite Hb3, Hb2.
Qed.

Lemma used_NoDup l h : heap_inv l h → NoDup ((used l).*1).
Proof.
  intros Hi. eapply sublist_NoDup; [exact (tiles_NoDup _ _ _ (hi_tiles _ _ Hi))|]. unfold used.
  rewrite <- list_fmap_compose. apply fmap_sublist, sublist_filter.
Qed.

Lemma used_inj l h a s1 s2 : heap_inv l h → (a, s1) ∈ used l → (a, s2) ∈ used l → s1 = s2.
Proof.
  intros Hi H1 H2. destruct (decide (s1 = s2)) as [|Hne]; [done|exfalso].
  pose proof (used_NoDup l h Hi) as Hn.
  apply list_elem_of_lookup in H1 as [i1 H1]. apply list_elem_of_lookup in H2 as [i2 H2].
  assert (i1 = i2) as ->; [|congruence].
  apply (NoDup_lookup _ i1 i2 a Hn); rewrite list_lookup_fmap; [by rewrite H1|by rewrite H2].
Qed.

(** C5: allocation.  [kmalloc] returns 0 and leaves the heap as it was, or the
    16-byte aligned address of a fresh block of at least [size] bytes: the block
    lies inside the heap's address range, does not overlap (header included) any
    block in use, and every block in use stays in use with its address and size. *)
Theorem kmalloc_spec l size h :
  heap_inv l h → 0 ≤ size < W64 →
  let '(p, h') := kmalloc size h in
  ∃ l', heap_inv l' h' ∧ bytes h' = bytes h ∧
  ((p = 0 ∧ l' = l) ∨
   (p ≠ 0 ∧ p mod 16 = 0 ∧ ∃ s, size ≤ s ∧ used l' ≡ₚ (p - 32, s) :: used l ∧
      HEAP_BASE + 32 ≤ p ∧ p + s ≤ HEAP_BASE + mapped_bytes (heap h') ∧
      mapped_bytes (heap h') ≤ HEAP_MAXIMUM_BYTES ∧
      ∀ a s', (a, s') ∈ used l → p + s ≤ a ∨ a + 32 + s' ≤ p - 32)).
Proof.
  intros Hi Hsz. destruct (kmalloc_cases l size h Hi Hsz)
    as [(m' & -> & _)|(l' & t & s & h' & -> & Hi' & Hs & Hu & Ht0 & Hb)].
  - exists l. split_and!; [by apply heap_inv_mapper|done|by left].
  - exists l'. split_and!; [done|done|]. right.
    assert ((taddr t, s) ∈ used l') as Hin by (rewrite Hu; left).
    assert (∃ u, u ∈ l' ∧ taddr u = taddr t ∧ tsize u = s) as (u & Hul & Hua & Hus).
    { apply list_elem_of_fmap in Hin as (u & [= -> ->] & [_ Hul]%list_elem_of_filter). by exists u. }
    destruct (heap_bounds l' h' u Hi' Hul) as (B1 & B2 & B3 & B4 & B5). rewrite Hua in *.
    destruct (hi_mapped _ _ Hi') as [_ Hm]. replace (taddr t + 32 - 32) with (taddr t) by lia.
    split_and!; [unfold HEAP_BASE in *; lia|clear -B5; zsolve|]. exists s. split_and!; try done; try lia.
    intros a s' Ha. assert ((a, s') ∈ used l') as Ha' by (rewrite Hu; by right).
    pose proof (used_NoDup l' h' Hi') as Hnd.
    rewrite Hu in Hnd. apply NoDup_cons in Hnd as [Hnd _].
    destruct (used_disjoint _ _ _ (taddr t) s a s' (hi_tiles _ _ Hi') Hin Ha'); [|lia..].
    intros <-. apply Hnd. apply list_elem_of_fmap. by exists (taddr t, s').
Qed.

(** C6: release.  [kfree] accepts exactly the pointers of blocks in use: it then
    removes that block and no other; anything else - null, a foreign address, an
    interior pointer, a block freed before - is refused and changes nothing. *)
Theorem kfree_spec l p h :
  heap_inv l h → is_u64 p →
  let '(ok, h') := kfree p h in
  (ok = true ↔ ∃ s, (p - 32, s) ∈ used l) ∧
  if ok then ∃ l' s, heap_inv l' h' ∧ used l ≡ₚ (p - 32, s) :: used l' ∧ bytes h' = bytes h
  else h' = h.
Proof.
  intros Hi Hp. destruct (kfree_cases l p h Hi Hp) as [[-> Hn]|(l' & s & h' & -> & Hi' & Hu & Hb)].
  - split; [|done]. split; [done|]. intros [s Hs]. by destruct (Hn s).
  - split; [|by exists l', s]. split; [|done]. intros _. exists s. rewrite Hu. left.
Qed.

(** ** Contents *)

Lemma zero_bytes_get ptr n x : ∀ i m,
  0 ≤ ptr → 0 ≤ i → ptr + i + Z.of_nat n < W64 →
  get0 (zero_bytes ptr n i m) x = if decide (ptr + i ≤ x < ptr + i + Z.of_nat n) then 0 else get0 m x.
Proof.
  induction n as [|n IH]; intros i m Hp Hi Hw; cbn [zero_bytes].
  { rewrite decide_False by lia. done. }
  rewrite IH by lia. rewrite u64_small by (unfold is_u64; lia). rewrite get0_insert_dec.
  repeat case_decide; done || lia.
Qed.

Lemma copy_bytes_get np p n x : ∀ i m,
  0 ≤ np → 0 ≤ p → 0 ≤ i → np + i + Z.of_nat n < W64 → p + i + Z.of_nat n < W64 →
  p + i + Z.of_nat n ≤ np + i ∨ np + i + Z.of_nat n ≤ p + i →
  get0 (copy_bytes np p n i m) x =
  if decide (np + i ≤ x < np + i + Z.of_nat n) then get0 m (p + (x - np)) else get0 m x.
Proof.
  induction n as [|n IH]; intros i m Hnp Hp Hi Hw1 Hw2 Hd; cbn [copy_bytes].
  { rewrite decide_False by lia. done. }
  rewrite IH by lia. rewrite !u64_small by (unfold is_u64; lia). rewrite !get0_insert_dec.
  destruct (decide (np + i = x)) as [<-|].
  - rewrite decide_False by lia. rewrite decide_True by lia. f_equal. lia.
  - destruct (decide (np + (i + 1) ≤ x < np + (i + 1) + Z.of_nat n)).
    + rewrite decide_False by lia. rewrite decide_True by lia. done.
    + rewrite decide_False by lia. done.
Qed.

(** [kcalloc] returns 0 when the product of its arguments does not fit in 64
    bits (and when there is no memory); otherwise a fresh block of at least
    [num * size] bytes, all zero, disjoint from the blocks in use. *)
Theorem kcalloc_spec l num size h :
  heap_inv l h → is_u64 num → is_u64 size →
  let '(p, h') := kcalloc num size h in
  (W64 ≤ num * size → p = 0) ∧
  ∃ l', heap_inv l' h' ∧
  ((p = 0 ∧ l' = l ∧ bytes h' = bytes h) ∨
   ∃ s, num * size ≤ s ∧ used l' ≡ₚ (p - 32, s) :: used l ∧
     ∀ x, get0 (bytes h') x = if decide (p ≤ x < p + num * size) then 0 else get0 (bytes h) x).
Proof.
  intros Hi Hn Hs. unfold kcalloc.
  destruct (negb (num =? 0) && (size >? UINT64_MAX / num)) eqn:Eg.
  { split; [done|]. exists l. split; [done|]. by left. }
  assert (0 ≤ num * size < W64) as Hprod.
  { unfold is_u64, UINT64_MAX, W64 in *. destruct (Z.eqb_spec num 0) as [->|Hn0]; [lia|].
    cbn [negb andb] in Eg. rewrite Z.gtb_ltb in Eg. apply Z.ltb_ge in Eg.
    pose proof (Z.mul_div_le 18446744073709551615 num ltac:(lia)). nia. }
  rewrite u64_small by done.
  destruct (kmalloc_cases l (num * size) h Hi Hprod)
    as [(m' & -> & _)|(l' & t & s & h' & -> & Hi' & Hsz & Hu & Ht0 & Hb)].
  - cbn. split; [lia|]. exists l. split; [by apply heap_inv_mapper|]. by left.
  - assert ((taddr t, s) ∈ used l') as Hin by (rewrite Hu; left).
    apply list_elem_of_fmap in Hin as (u & [= Hua Hus] & [_ Hul]%list_elem_of_filter).
    destruct (heap_bounds l' h' u Hi' Hul) as (B1 & B2 & B3 & _). rewrite <- Hua, <- Hus in *.
    destruct (hi_mapped _ _ Hi') as [_ Hm]. unfold HEAP_BASE, HEAP_MAXIMUM_BYTES in *.
    destruct (Z.eqb_spec (taddr t + 32) 0); [lia|]. cbn [negb]. split; [lia|].
    exists l'. split; [by apply heap_inv_bytes|]. right. exists s.
    replace (taddr t + 32 - 32) with (taddr t) by lia. split_and!; [done|done|]. intros x.
    cbn [bytes with_bytes]. rewrite zero_bytes_get by (unfold W64 in *; lia). rewrite Hb.
    rewrite Z2Nat.id by lia. rewrite Z.add_0_r. done.
Qed.

(** [krealloc] of a block in use to a non-zero size returns 0 (the block stays
    as it is), the same pointer (when the block is large enough), or a new block
    of the new size that starts with the bytes of the old one, which is freed;
    the bytes of every other block in use are unchanged. *)
Theorem krealloc_spec l p s n h :
  heap_inv l h → is_u64 p → 0 < n < W64 → (p - 32, s) ∈ used l →
  let '(q, h') := krealloc p n h in
  ∃ l', heap_inv l' h' ∧
  ((q = 0 ∧ used l' = used l ∧ bytes h' = bytes h) ∨
   (q = p ∧ n ≤ s ∧ l' = l ∧ h' = h) ∨
   (s < n ∧ ∃ s', n ≤ s' ∧ (p - 32, s) :: used l' ≡ₚ (q - 32, s') :: used l ∧
      (∀ i, 0 ≤ i < s → get0 (bytes h') (q + i) = get0 (bytes h) (p + i)) ∧
      ∀ a sa x, (a, sa) ∈ used l → a ≤ x < a + 32 + sa → get0 (bytes h') x = get0 (bytes h) x)).
Proof.
  intros Hi Hp Hn Hin.
  assert (∃ l1 t l2, l = l1 ++ t :: l2 ∧ taddr t + 32 = p ∧ tsize t = s ∧ tfree t = false) as (l1 & t & l2 & Hl & Htp & Hts & Htf).
  { apply list_elem_of_fmap in Hin as (t & [= Ha Hs] & [Hf (l1 & l2 & Hl)%list_elem_of_split]%list_elem_of_filter).
    exists l1, t, l2. split_and!; [done|lia|done|done]. }
  assert (t ∈ l) as Htl by (rewrite Hl; apply elem_of_app; right; left).
  destruct (heap_bounds l h t Hi Htl) as (B1 & B2 & B3 & _).
  destruct (hi_mapped _ _ Hi) as [_ Hm].
  unfold krealloc. destruct (Z.eqb_spec p 0); [unfold HEAP_BASE in *; lia|].
  destruct (Z.eqb_spec n 0); [lia|]. rewrite (hi_init _ _ Hi). cbn [negb].
  destruct (pointer_block_spec l p h Hi Hp) as [[_ Hno]|(m1 & t' & m2 & Hl' & Ht' & -> & Ht0)]; [by destruct (Hno t Htl)|].
  assert (block_at (taddr t') h = HeapBlock s (last_addr 0 l1) (head_addr l2 0) false) as ->.
  { assert (taddr t' = taddr t) as -> by lia. rewrite <- Hts, <- Htf. apply block_at_tile. rewrite <- Hl. apply Hi. }
  rewrite (proj2 (Z.eqb_neq _ _) Ht0). cbn [orb bfree bsize].
  destruct (Z.leb_spec n s); [exists l; split; [done|]; right; left; done|].
  destruct (kmalloc_cases l n h Hi ltac:(lia))
    as [(m' & -> & _)|(l' & u & s' & h' & -> & Hi' & Hsz & Hu & Hu0 & Hb)].
  { exists l. split; [by apply heap_inv_mapper|]. by left. }
  assert ((taddr u, s') ∈ used l') as Hinu by (rewrite Hu; left).
  assert ((taddr t, s) ∈ used l') as Hint by (rewrite Hu; right; by replace (taddr t) with (p - 32) by lia).
  assert (∃ v, v ∈ l' ∧ taddr v = taddr u ∧ tsize v = s') as (v & Hv & Hva & Hvs).
  { apply list_elem_of_fmap in Hinu as (v & [= Hx Hy] & [_ Hv]%list_elem_of_filter). by exists v. }
  destruct (heap_bounds l' h' v Hi' Hv) as (V1 & V2 & V3 & _). rewrite Hva, Hvs in *.
  destruct (hi_mapped _ _ Hi') as [_ Hm'].
  assert (NoDup ((used l').*1)) as Hnd by by apply (used_NoDup l' h').
  rewrite Hu in Hnd. apply NoDup_cons in Hnd as [Hnd _].
  assert (Hne : ∀ a sa, (a, sa) ∈ used l → taddr u ≠ a).
  { intros a sa Ha <-. apply Hnd, list_elem_of_fmap. by exists (taddr u, sa). }
  assert (Hdis : ∀ a sa, (a, sa) ∈ used l → taddr u + 32 + s' ≤ a ∨ a + 32 + sa ≤ taddr u).
  { intros a sa Ha. apply (used_disjoint _ _ _ (taddr u) s' a sa (hi_tiles _ _ Hi') Hinu); [rewrite Hu; by right|].
    by eapply Hne. }
  pose proof (Hdis _ _ Hin) as Hd.
  unfold HEAP_BASE, HEAP_MAXIMUM_BYTES in *. destruct (Z.eqb_spec (taddr u + 32) 0); [lia|].
  destruct (Z.ltb_spec s n); [|lia].
  set (h2 := with_bytes _ h'). assert (heap_inv l' h2) as Hi2 by (by apply heap_inv_bytes).
  destruct (kfree_cases l' p h2 Hi2 Hp) as [[_ Hno]|(l'' & s2 & h3 & -> & Hi3 & Hu3 & Hb3)].
  { destruct (Hno s). by replace (p - 32) with (taddr t) by lia. }
  cbn [snd]. exists l''. split; [done|]. right. right. split; [done|]. exists s'.
  replace (taddr u + 32 - 32) with (taddr u) by lia.
  assert (HB : ∀ x, get0 (bytes h3) x =
    if decide (taddr u + 32 ≤ x < taddr u + 32 + s) then get0 (bytes h) (p + (x - (taddr u + 32))) else get0 (bytes h) x).
  { intros x. rewrite Hb3. unfold h2. cbn [bytes with_bytes].
    rewrite copy_bytes_get by (unfold W64 in *; lia). rewrite Hb, Z2Nat.id by lia. by rewrite Z.add_0_r. }
  split_and!; [done|..].
  - assert (s2 = s) as ->; [|by rewrite <- Hu3, Hu].
    apply (used_inj l' h' (p - 32)); [done|rewrite Hu3; left|]. by replace (p - 32) with (taddr t) by lia.
  - intros i Hix. rewrite HB, decide_True by lia. f_equal. lia.
  - intros a sa x Ha Hx. rewrite HB, decide_False; [done|]. destruct (Hdis a sa Ha); lia.
Qed.

End heap.
