(* ===== verification/HeapExamples.v ===== *)
(** * Kernel memory on a concrete machine

    The theorems of VmmSpec.v and HeapSpec.v on a machine of a few frames: a
    kernel address space with a handful of tables, and on it a heap of one
    page with one block in use and the rest free. *)

From Stdlib Require Import ZArith Lia.
From stdpp Require Import gmap.
From S2P Require Import Prelude Interfaces Pmm Vmm PageWalk VmmSpec Heap HeapSpec.
#[local] Open Scope Z_scope.

(** ** The virtual memory manager

    The theorems of VmmSpec.v at work over the page frame allocator of Pmm.v: a
    kernel PML4 with nothing mapped and three free frames. *)

Definition sample_vmm : vmm_state physical_memory_manager :=
  VmmState 0xffff800000000000 0xffff800000100000 0x100000 true ∅ sample_pmm 0x100000 [].

Definition sample_tables : gmap Z nat := {[0x100000 := 3%nat]}.

Lemma sample_tables_inv p L : sample_tables !! p = Some L → 0x100000 = p ∧ 3%nat = L.
Proof. apply lookup_singleton_Some. Qed.

Lemma sample_ent p i : ent sample_vmm p i = 0.
Proof. unfold ent, load, get0. change (words sample_vmm) with (∅ : gmap Z Z). by rewrite lookup_empty. Qed.

Lemma sample_free : fa_free (frames sample_vmm) = list_to_set [1; 2; 3].
Proof. exact sample_frames. Qed.

Lemma sample_vm_inv : vm_inv sample_tables sample_vmm.
Proof.
  split.
  - apply sample_pmm_ready.
  - done.
  - done.
  - intros p L [<- <-]%sample_tables_inv. done.
  - intros p L [<- <-]%sample_tables_inv. rewrite sample_free.
    rewrite elem_of_list_to_set. vm_compute (0x100000 / 4096). set_unfold. lia.
  - intros p L i _ _. rewrite sample_ent. done.
  - split.
    + by intros p L [<- <-]%sample_tables_inv.
    + intros p L i _ _. rewrite sample_ent. done.
    + intros p i _ _. rewrite sample_ent. done.
    + intros p p' i i' L _ _ _ _. rewrite sample_ent. done.
Qed.

Lemma sample_query va : vmm_query_page_in 0x100000 va sample_vmm = None.
Proof.
  rewrite (query_walk sample_tables) by (apply sample_vm_inv || reflexivity).
  apply walk_dead. left. by rewrite sample_ent.
Qed.

(** A user page at 4 MiB, read-write, backed by the frame at 8 MiB: the mapping
    succeeds with the three frames there are. *)
Lemma vmm_map_page_in_spec_witness :
  let '(ok, s') := vmm_map_page_in 0x100000 0x400000 0x800000 6 sample_vmm in
  ok = true ∧ ∃ f, vmm_query_page_in 0x100000 0x400000 s' = Some (0x800000, f).
Proof.
  pose proof (vmm_map_page_in_spec sample_tables sample_vmm 0x100000 0x400000 0x800000 6
    sample_vm_inv eq_refl ltac:(done) ltac:(done) ltac:(done)) as H.
  destruct (vmm_map_page_in _ _ _ _ sample_vmm) as [[] s'].
  - destruct H as (T' & _ & _ & _ & _ & (f & Hf & _) & _). split; [done|]. by exists f.
  - exfalso. destruct H as (T' & _ & _ & _ & _ & _ & [H|[H|H]]).
    + done.
    + apply H, sample_query.
    + rewrite sample_free in H. vm_compute in H. lia.
Defined.

Lemma sample_mapped :
  ∃ s1 T' t E1, vmm_map_page_in 0x100000 0x400000 0x800000 6 sample_vmm = (true, s1) ∧
    map_done sample_tables sample_vmm T' s1 3 0x100000 0x400000 (leaf_value 0x800000 6) t E1.
Proof.
  destruct (vmm_map_page_in_cases sample_tables sample_vmm 0x100000 0x400000 0x800000 6 sample_vm_inv eq_refl)
    as [(s' & _ & [[H _]|H])|(_ & H)]; [discriminate H|exfalso|exact H].
  destruct (mf_reason _ _ _ _ _ _ H) as [Hr|Hr].
  - apply (Hr ACC0). rewrite <- (query_walk sample_tables sample_vmm 0x100000 0x400000 sample_vm_inv eq_refl).
    apply sample_query.
  - rewrite sample_free in Hr. vm_compute in Hr. lia.
Qed.

(** Unmapping it again returns the frame. *)
Lemma vmm_unmap_page_in_spec_witness :
  let s1 := (vmm_map_page_in 0x100000 0x400000 0x800000 6 sample_vmm).2 in
  let '(r, s') := vmm_unmap_page_in 0x100000 0x400000 s1 in
  r = 0x800000 ∧ vmm_query_page_in 0x100000 0x400000 s' = None.
Proof.
  destruct sample_mapped as (s1 & T' & t & E1 & Hs1 & Hm).
  rewrite Hs1. cbv zeta. cbn [snd]. clear Hs1.
  destruct (map_done_query sample_tables sample_vmm T' s1 0x100000 0x400000 0x800000 6 t E1
    sample_vm_inv eq_refl ltac:(done) ltac:(done) ltac:(done) eq_refl Hm) as (_ & (f & Hf & _) & _).
  assert (T' !! 0x100000 = Some 3%nat) as Hp by (eapply lookup_weaken; [|apply (md_tables _ _ _ _ _ _ _ _ _ _ Hm)]; done).
  pose proof (vmm_unmap_page_in_spec T' s1 0x100000 0x400000 (md_inv _ _ _ _ _ _ _ _ _ _ Hm) Hp
    ltac:(by left) eq_refl ltac:(by left)) as H.
  destruct (vmm_unmap_page_in 0x100000 0x400000 s1) as [r s'].
  destruct H as [(_ & _ & H)|(_ & (f' & Hf') & H & _)]; [exfalso|].
  - eapply H. exists t. split_and!; [| | |reflexivity].
    + eapply map_done_leaf_table; [|exact Hm]. reflexivity.
    + rewrite (map_done_leaf_entry _ _ _ _ _ _ _ _ _ _ Hm). done.
    + rewrite (map_done_leaf_entry _ _ _ _ _ _ _ _ _ _ Hm). done.
  - split; [congruence|done].
Defined.

Lemma vmm_create_address_space_spec_witness :
  let '(g, s') := vmm_create_address_space sample_vmm in
  g ≠ 0 ∧ vmm_query_page_in g 0x400000 s' = None ∧ size (fa_free (frames s')) = 2%nat.
Proof.
  pose proof (vmm_create_address_space_spec sample_tables sample_vmm sample_vm_inv eq_refl eq_refl) as H.
  destruct (vmm_create_address_space sample_vmm) as [g s'].
  destruct H as [(_ & _ & H)|(H0 & _ & _ & Hq & _ & _ & Hf & Hfr)].
  { rewrite sample_free in H. done. }
  split; [done|]. split; [apply Hq; [by left|done]|].
  rewrite Hfr, size_difference by (by apply singleton_subseteq_l).
  rewrite size_singleton, sample_free. reflexivity.
Defined.

(** ** The heap *)

Definition sample_blocks : gmap Z heap_block :=
  <[HEAP_BASE := HeapBlock 64 0 (HEAP_BASE + 96) false]>
    {[HEAP_BASE + 96 := HeapBlock 3968 HEAP_BASE 0 true]}.

Definition sample_heap : heap_state (vmm_state physical_memory_manager) :=
  HeapState (KernelHeap HEAP_BASE (HEAP_BASE + 96) 4096 1 true) sample_blocks
    {[HEAP_BASE + 32 := 7]} sample_vmm.

Definition sample_tiles : list tile := [Tile HEAP_BASE 64 false; Tile (HEAP_BASE + 96) 3968 true].

Lemma sample_heap_inv : heap_inv sample_tiles sample_heap.
Proof. by split. Qed.

Lemma kmalloc_spec_witness :
  (kmalloc 100 sample_heap).1 = HEAP_BASE + 128 ∧
  ∃ l', heap_inv l' (kmalloc 100 sample_heap).2.
Proof.
  split; [reflexivity|].
  pose proof (kmalloc_spec sample_tiles 100 sample_heap sample_heap_inv ltac:(done)) as H.
  destruct (kmalloc 100 sample_heap) as [p h']. destruct H as (l' & H & _). by exists l'.
Defined.

Lemma kfree_spec_witness :
  (kfree (HEAP_BASE + 32) sample_heap).1 = true ∧ (kfree (HEAP_BASE + 128) sample_heap).1 = false ∧
  ∃ l' s, heap_inv l' (kfree (HEAP_BASE + 32) sample_heap).2 ∧ used sample_tiles ≡ₚ (HEAP_BASE, s) :: used l'.
Proof.
  pose proof (kfree_spec sample_tiles (HEAP_BASE + 32) sample_heap sample_heap_inv ltac:(done)) as H.
  assert (HEAP_BASE + 32 - 32 = HEAP_BASE) as E by lia. rewrite E in H.
  split_and!.
  - destruct (kfree (HEAP_BASE + 32) sample_heap) as [ok h']. apply H. exists 64. left.
  - reflexivity.
  - destruct (kfree (HEAP_BASE + 32) sample_heap) as [ok h']. destruct H as [Hok H].
    destruct ok; [destruct H as (l' & s & H1 & H2 & _); by exists l', s|].
    exfalso. assert (false = true) as Hf by (apply Hok; exists 64; left). done.
Defined.

Lemma kcalloc_spec_witness :
  (kcalloc 0x100000000 0x100000000 sample_heap).1 = 0 ∧
  (kcalloc 10 10 sample_heap).1 = HEAP_BASE + 128 ∧ ∃ l', heap_inv l' (kcalloc 10 10 sample_heap).2.
Proof.
  split_and!; [reflexivity|reflexivity|].
  pose proof (kcalloc_spec sample_tiles 10 10 sample_heap sample_heap_inv ltac:(done) ltac:(done)) as H.
  destruct (kcalloc 10 10 sample_heap) as [p h']. destruct H as (_ & l' & H & _). by exists l'.
Defined.

Lemma krealloc_spec_witness :
  (krealloc (HEAP_BASE + 32) 64 sample_heap).1 = HEAP_BASE + 32 ∧
  let '(q, h') := krealloc (HEAP_BASE + 32) 100 sample_heap in
  q = 0 ∨ get0 (bytes h') q = 7.
Proof.
  split; [reflexivity|].
  pose proof (krealloc_spec sample_tiles (HEAP_BASE + 32) 64 100 sample_heap sample_heap_inv
    ltac:(done) ltac:(done) ltac:(left)) as H.
  destruct (krealloc (HEAP_BASE + 32) 100 sample_heap) as [q h'].
  destruct H as (l' & _ & [H|[(_ & H & _)|(_ & s' & _ & _ & H & _)]]); [left; apply H|lia|right].
  specialize (H 0 ltac:(lia)). rewrite !Z.add_0_r in H. rewrite H. reflexivity.
Defined.
