(* ===== verification/Block.v ===== *)
(** * Block device registry (src/drivers/block.c)

    The fixed table of 64 devices, the order in which they were registered, and
    the bounds-checked transfers that partitions forward to their parent.  A
    device pointer is an index into the table ([None] is NULL); a driver is a
    record of optional functions over an abstract disk state [D], as
    [struct block_device_ops] is; [partition_ops] is a value of its own because
    it calls back into [block_read].  Sectors are lists of bytes. *)

From S2P Require Import Prelude.
From Stdlib Require Import ZArith Lia.
From stdpp Require Import gmap.
#[local] Open Scope Z_scope.

(** ** Data *)

Definition BLOCK_NAME_MAX : Z := 32.
Definition BLOCK_MAX_DEVICES : nat := 64.
Definition BLOCK_DEFAULT_SECTOR_SIZE : Z := 512.

Inductive block_device_state := BLOCK_DEVICE_OFFLINE | BLOCK_DEVICE_ONLINE | BLOCK_DEVICE_ERROR.
Inductive block_device_type :=
  | BLOCK_TYPE_UNKNOWN | BLOCK_TYPE_RAMDISK | BLOCK_TYPE_AHCI | BLOCK_TYPE_VIRTIO
  | BLOCK_TYPE_PARTITION | BLOCK_TYPE_NVME.

#[export] Instance block_device_state_eq_dec : EqDecision block_device_state.
Proof. solve_decision. Defined.

Abbreviation sector := (list Z).

(** [struct block_device_ops]: a NULL function pointer is [None]; the first
    argument is the device's [private_data]. *)
Record block_device_ops (D : Type) := BlockOps {
  read_blocks : option (Z → Z → Z → D → option (list sector));
  write_blocks : option (Z → Z → Z → list sector → D → bool * D);
  ops_flush : option (Z → D → bool * D);
  ops_destroy : option (Z → D → D);
}.
Arguments BlockOps {_}. Arguments read_blocks {_}. Arguments write_blocks {_}.
Arguments ops_flush {_}. Arguments ops_destroy {_}.

Inductive ops_pointer (D : Type) := NullOps | PartitionOps | DriverOps (o : block_device_ops D).
Arguments NullOps {_}. Arguments PartitionOps {_}. Arguments DriverOps {_}.

Record block_device (D : Type) := BlockDevice {
  id : Z;
  name : list Z;
  type : block_device_type;
  state : block_device_state;
  block_size : Z;
  total_blocks : Z;
  capacity_bytes : Z;
  ops : ops_pointer D;
  private_data : Z;
  parent : option nat;
  start_lba : Z;
  partition_index : Z;
  partition_type_mbr : Z;
  partition_guid : list Z;
  has_guid : bool;
}.
Arguments BlockDevice {_}. Arguments id {_}. Arguments name {_}. Arguments type {_}.
Arguments state {_}. Arguments block_size {_}. Arguments total_blocks {_}.
Arguments capacity_bytes {_}. Arguments ops {_}. Arguments private_data {_}.
Arguments parent {_}. Arguments start_lba {_}. Arguments partition_index {_}.
Arguments partition_type_mbr {_}. Arguments partition_guid {_}. Arguments has_guid {_}.

(** The static variables of block.c, and the disks behind the drivers. *)
Record block_state (D : Type) := BlockState {
  block_devices : list (block_device D);
  block_device_list : list nat;
  next_device_id : Z;
  block_initialized : bool;
  disks : D;
}.
Arguments BlockState {_}. Arguments block_devices {_}. Arguments block_device_list {_}.
Arguments next_device_id {_}. Arguments block_initialized {_}. Arguments disks {_}.

(** ** Operations *)

Section operations.
Context {D : Type}.
Implicit Types s : block_state D.
Implicit Types dev : block_device D.

Definition device (p : nat) s : option (block_device D) := block_devices s !! p.

Definition set_device (p : nat) dev s : block_state D :=
  BlockState (<[p := dev]> (block_devices s)) (block_device_list s) (next_device_id s)
    (block_initialized s) (disks s).
Definition set_list (l : list nat) s : block_state D :=
  BlockState (block_devices s) l (next_device_id s) (block_initialized s) (disks s).
Definition set_disks (d : D) s : block_state D :=
  BlockState (block_devices s) (block_device_list s) (next_device_id s) (block_initialized s) d.

(** [block_streq] and [block_strcpy] on C strings: a NUL byte ends the string,
    and so does the end of the list. *)
Fixpoint block_streq (a b : list Z) : bool :=
  match a, b with
  | c :: a', d :: b' =>
      if (c =? 0) || (d =? 0) then c =? d else if c =? d then block_streq a' b' else false
  | c :: _, [] => c =? 0
  | [], d :: _ => d =? 0
  | [], [] => true
  end.

Fixpoint copy_string (src : list Z) (n : nat) : list Z :=
  match n, src with
  | S n, c :: src => if c =? 0 then [] else c :: copy_string src n
  | _, _ => []
  end.

Definition block_strcpy (src : list Z) (max_len : Z) : list Z := copy_string src (Z.to_nat (max_len - 1)).

(** [state] and [id] as [block_subsystem_init] and [block_device_unregister] leave them. *)
Definition offline dev : block_device D :=
  BlockDevice 0 (name dev) (type dev) BLOCK_DEVICE_OFFLINE (block_size dev) (total_blocks dev)
    (capacity_bytes dev) (ops dev) (private_data dev) (parent dev) (start_lba dev)
    (partition_index dev) (partition_type_mbr dev) (partition_guid dev) (has_guid dev).

Definition reset_device dev : block_device D :=
  BlockDevice 0 (name dev) BLOCK_TYPE_UNKNOWN BLOCK_DEVICE_OFFLINE (block_size dev) (total_blocks dev)
    (capacity_bytes dev) (ops dev) (private_data dev) (parent dev) (start_lba dev)
    (partition_index dev) (partition_type_mbr dev) (partition_guid dev) (has_guid dev).

Definition block_subsystem_init s : bool * block_state D :=
  if block_initialized s then (true, s)
  else (true, BlockState (reset_device <$> block_devices s) [] (next_device_id s) true (disks s)).

Definition is_unused dev : bool := bool_decide (state dev = BLOCK_DEVICE_OFFLINE) && (id dev =? 0).

(** The search for a slot that both registration functions make. *)
Fixpoint find_slot (devs : list (block_device D)) (i : nat) : option nat :=
  match devs with
  | [] => None
  | d :: devs => if is_unused d then Some i else find_slot devs (S i)
  end.

Definition ops_readable (o : ops_pointer D) : bool :=
  match o with
  | NullOps => false
  | PartitionOps => true
  | DriverOps o => match read_blocks o with Some _ => true | None => false end
  end.

(** Puts [dev] into slot [p] and appends it to the device list. *)
Definition install (p : nat) dev s : block_state D :=
  BlockState (<[p := dev]> (block_devices s)) (block_device_list s ++ [p])
    (u32 (next_device_id s + 1)) (block_initialized s) (disks s).

Definition block_device_register (nm : option (list Z)) (ty : block_device_type) (bsize total : Z)
    (o : ops_pointer D) (private : Z) s : option nat * block_state D :=
  match nm with
  | None => (None, s)
  | Some nm =>
      if negb (ops_readable o) || (bsize =? 0) || (total =? 0) then (None, s)
      else
        let s := if block_initialized s then s else (block_subsystem_init s).2 in
        match find_slot (block_devices s) 0 with
        | None => (None, s)
        | Some p =>
            match device p s with
            | None => (None, s)
            | Some old =>
                (Some p, install p
                  (BlockDevice (next_device_id s) (block_strcpy nm BLOCK_NAME_MAX) ty BLOCK_DEVICE_ONLINE
                     bsize total (u64 (bsize * total)) o private None 0 0 0 (partition_guid old) false) s)
            end
        end
  end.

(** "blk0" and partition 1 give "blk0p1". *)
Definition part_name (parent_name : list Z) (part_index : Z) : list Z :=
  take (Z.to_nat (BLOCK_NAME_MAX - 8)) parent_name ++ [112] ++
  (if part_index >=? 10 then [u8 (48 + part_index / 10)] else []) ++ [u8 (48 + part_index mod 10)].

Definition block_partition_register (par : option nat) (part_index start count mbr : Z)
    (guid : option (list Z)) s : option nat * block_state D :=
  match par with
  | None => (None, s)
  | Some pp =>
      match device pp s with
      | None => (None, s)
      | Some pdev =>
          if (count =? 0) || (u64 (start + count) >? total_blocks pdev) then (None, s)
          else
            match find_slot (block_devices s) 0 with
            | None => (None, s)
            | Some p =>
                (Some p, install p
                  (BlockDevice (next_device_id s)
                     (block_strcpy (part_name (name pdev) part_index) BLOCK_NAME_MAX)
                     BLOCK_TYPE_PARTITION BLOCK_DEVICE_ONLINE (block_size pdev) count
                     (u64 (block_size pdev * count)) PartitionOps 0 (Some pp) start part_index mbr
                     (match guid with Some g => g | None => replicate 16 0 end)
                     (match guid with Some _ => true | None => false end)) s)
            end
      end
  end.

(** The loop of [block_device_unregister] over the child partitions. *)
Fixpoint unregister_children (p : nat) (n : nat) (i : nat) s : block_state D :=
  match n with
  | O => s
  | S n =>
      let s :=
        match device i s with
        | Some d =>
            if bool_decide (parent d = Some p) && negb (bool_decide (state d = BLOCK_DEVICE_OFFLINE))
            then set_device i (offline d) (set_list (filter (λ j, j ≠ i) (block_device_list s)) s)
            else s
        | None => s
        end in
      unregister_children p n (S i) s
  end.

Definition orphan dev : block_device D :=
  BlockDevice (id dev) (name dev) (type dev) (state dev) (block_size dev) (total_blocks dev)
    (capacity_bytes dev) (ops dev) (private_data dev) None (start_lba dev) (partition_index dev)
    (partition_type_mbr dev) (partition_guid dev) (has_guid dev).

Definition block_device_unregister (p : option nat) s : bool * block_state D :=
  match p with
  | None => (false, s)
  | Some p =>
      match device p s with
      | None => (false, s)
      | Some d =>
          if is_unused d then (false, s)
          else
            let s := unregister_children p BLOCK_MAX_DEVICES 0 s in
            let s := set_list (filter (λ j, j ≠ p) (block_device_list s)) s in
            let s := match ops d with
                     | DriverOps o =>
                         match ops_destroy o with
                         | Some f => set_disks (f (private_data d) (disks s)) s
                         | None => s
                         end
                     | _ => s
                     end in
            match device p s with
            | None => (true, s)
            | Some d => (true, set_device p (orphan (offline d)) s)
            end
      end
  end.

(** Walks over the registered devices in list order. *)
Fixpoint find_in_list (l : list nat) (f : block_device D → bool) s : option nat :=
  match l with
  | [] => None
  | p :: l =>
      match device p s with
      | Some d => if bool_decide (state d = BLOCK_DEVICE_ONLINE) && f d then Some p else find_in_list l f s
      | None => find_in_list l f s
      end
  end.

Definition block_device_find_by_name (nm : option (list Z)) s : option nat :=
  match nm with
  | None => None
  | Some nm => find_in_list (block_device_list s) (λ d, block_streq (name d) nm) s
  end.

Definition block_device_find_by_id (i : Z) s : option nat :=
  if i =? 0 then None else find_in_list (block_device_list s) (λ d, id d =? i) s.

Definition block_device_count s : Z := u32 (Z.of_nat (length (block_device_list s))).

Definition block_device_get_at (index : Z) s : option nat := block_device_list s !! Z.to_nat index.

(** [block_read], with [partition_read_blocks] inlined at its only call through
    [ops]; the fuel bounds the chain of parents. *)
Fixpoint block_read (fuel : nat) (p : option nat) (lba count : Z) s : option (list sector) :=
  match fuel, p with
  | O, _ | _, None => None
  | S fuel, Some p =>
      match device p s with
      | None => None
      | Some d =>
          if count =? 0 then None
          else if negb (bool_decide (state d = BLOCK_DEVICE_ONLINE)) then None
          else if u64 (lba + count) >? total_blocks d then None
          else
            match ops d with
            | NullOps => None
            | PartitionOps =>
                match parent d with
                | None => None
                | Some pp =>
                    if u64 (lba + count) >? total_blocks d then None
                    else block_read fuel (Some pp) (u64 (start_lba d + lba)) count s
                end
            | DriverOps o =>
                match read_blocks o with
                | None => None
                | Some f => f (private_data d) lba count (disks s)
                end
            end
      end
  end.

Fixpoint block_write (fuel : nat) (p : option nat) (lba count : Z) (data : list sector) s
  : bool * block_state D :=
  match fuel, p with
  | O, _ | _, None => (false, s)
  | S fuel, Some p =>
      match device p s with
      | None => (false, s)
      | Some d =>
          if count =? 0 then (false, s)
          else if negb (bool_decide (state d = BLOCK_DEVICE_ONLINE)) then (false, s)
          else if u64 (lba + count) >? total_blocks d then (false, s)
          else
            match ops d with
            | NullOps => (false, s)
            | PartitionOps =>
                match parent d with
                | None => (false, s)
                | Some pp =>
                    if u64 (lba + count) >? total_blocks d then (false, s)
                    else block_write fuel (Some pp) (u64 (start_lba d + lba)) count data s
                end
            | DriverOps o =>
                match write_blocks o with
                | None => (false, s)
                | Some f =>
                    let '(ok, disk) := f (private_data d) lba count data (disks s) in
                    (ok, set_disks disk s)
                end
            end
      end
  end.

Fixpoint block_flush (fuel : nat) (p : option nat) s : bool * block_state D :=
  match fuel, p with
  | O, _ | _, None => (false, s)
  | S fuel, Some p =>
      match device p s with
      | None => (false, s)
      | Some d =>
          match ops d with
          | NullOps => (true, s)
          | PartitionOps =>
              match parent d with
              | None => (false, s)
              | Some pp => block_flush fuel (Some pp) s
              end
          | DriverOps o =>
              match ops_flush o with
              | None => (true, s)
              | Some f => let '(ok, disk) := f (private_data d) (disks s) in (ok, set_disks disk s)
              end
          end
      end
  end.

End operations.
