(* ===== verification/BlockSpec.v ===== *)
(** * What the block layer guarantees (src/drivers/block.c)

    The registry invariant, the confinement of partition transfers, and the one
    way around it: the bounds checks add in 64 bits and wrap. *)

From S2P Require Import Prelude Block.
From Stdlib Require Import ZArith Lia.
From stdpp Require Import gmap.
#[local] Open Scope Z_scope.

Section block.
Context {D : Type}.
Implicit Types s : block_state D.
Implicit Types d : block_device D.

(** ** Invariant *)

Definition used d : Prop := is_unused d = false.

Definition is_partition d : Prop := ops d = PartitionOps.

(** A partition lies inside a registered disk. *)
Definition partition_ok d s : Prop :=
  ∃ pp pd, parent d = Some pp ∧ device pp s = Some pd ∧ used pd ∧ ¬ is_partition pd ∧
    0 ≤ start_lba d ∧ start_lba d + total_blocks d ≤ total_blocks pd.

Record registry_ok s : Prop := {
  ro_length : length (block_devices s) = BLOCK_MAX_DEVICES;
  ro_NoDup : NoDup (block_device_list s);
  ro_list p : p ∈ block_device_list s ↔ ∃ d, device p s = Some d ∧ used d;
  ro_id p d : device p s = Some d → used d → 1 ≤ id d < next_device_id s;
  ro_id_inj p q d e : device p s = Some d → device q s = Some e → used d → used e → id d = id e → p = q;
  ro_total p d : device p s = Some d → used d → 0 < total_blocks d < W64;
  ro_partition p d : device p s = Some d → used d → is_partition d → partition_ok d s;
  ro_state p d : device p s = Some d → used d → state d ≠ BLOCK_DEVICE_OFFLINE;
  ro_disk p d : device p s = Some d → used d → ¬ is_partition d → parent d = None;
}.

Lemma find_slot_Some devs i p :
  find_slot devs i = Some p →
  ∃ d : block_device D, devs !! (p - i)%nat = Some d ∧ is_unused d = true ∧ (i ≤ p)%nat.
Proof.
  revert i. induction devs as [|d devs IH]; intros i; simpl; [done|].
  destruct (is_unused d) eqn:E.
  - intros [= <-]. rewrite Nat.sub_diag. by exists d.
  - intros (e & He & Hu & Hle)%IH. exists e. split_and!; [|done|lia].
    replace (p - i)%nat with (S (p - S i)) by lia. done.
Qed.

Lemma find_slot_None devs i : find_slot devs i = None → Forall (λ d : block_device D, used d) devs.
Proof.
  revert i. induction devs as [|d devs IH]; intros i; simpl; [constructor|].
  destruct (is_unused d) eqn:E; [done|]. intros. constructor; [done|]. by eapply IH.
Qed.

(** Installing a device into an unused slot. *)
Lemma install_ok s p old d :
  registry_ok s → device p s = Some old → is_unused old = true →
  id d = next_device_id s → state d = BLOCK_DEVICE_ONLINE → 0 < total_blocks d < W64 →
  1 ≤ next_device_id s < 4294967295 → (is_partition d → partition_ok d s) →
  (¬ is_partition d → parent d = None) →
  registry_ok (install p d s).
Proof.
  intros [H1 H2 H3 H4 H5 H6 H7 H8 H9] Hold Hun Hid Hst Htot Hnext Hpart Hdisk.
  assert (Hpl : (p < length (block_devices s))%nat) by (by eapply lookup_lt_Some).
  assert (Hp : device p (install p d s) = Some d).
  { unfold device. simpl. by apply list_lookup_insert_eq. }
  assert (Hq : ∀ q, q ≠ p → device q (install p d s) = device q s).
  { intros q Hne. unfold device. simpl. by apply list_lookup_insert_ne. }
  assert (Hud : used d).
  { unfold used, is_unused. by rewrite Hst. }
  assert (Hnp : p ∉ block_device_list s).
  { intros (e & He & Hue)%H3. rewrite Hold in He. injection He as <-. unfold used in Hue. congruence. }
  assert (Hnx : next_device_id (install p d s) = next_device_id s + 1).
  { simpl. apply u32_small. unfold is_u32. lia. }
  split.
  - simpl. by rewrite length_insert.
  - simpl. apply NoDup_app. split_and!; [done| |apply NoDup_singleton].
    intros q Hq1 ->%list_elem_of_singleton. done.
  - intros q. simpl. rewrite elem_of_app, list_elem_of_singleton. destruct (decide (q = p)) as [->|Hne].
    + rewrite Hp. split; [eauto|by right].
    + rewrite (Hq q Hne), <- H3. intuition.
  - intros q e He Hu. rewrite Hnx. destruct (decide (q = p)) as [->|Hne].
    + rewrite Hp in He. injection He as <-. lia.
    + rewrite Hq in He by done. specialize (H4 _ _ He Hu). lia.
  - intros q r e f He Hf Hue Huf Heq. destruct (decide (q = p)) as [->|Hne], (decide (r = p)) as [->|Hne'].
    + done.
    + rewrite Hp in He. injection He as <-. rewrite Hq in Hf by done. specialize (H4 _ _ Hf Huf). lia.
    + rewrite Hp in Hf. injection Hf as <-. rewrite Hq in He by done. specialize (H4 _ _ He Hue). lia.
    + rewrite Hq in He, Hf by done. by eapply H5.
  - intros q e He Hu. destruct (decide (q = p)) as [->|Hne].
    + rewrite Hp in He. by injection He as <-.
    + rewrite Hq in He by done. by eapply H6.
  - intros q e He Hu Hpe.
    assert (partition_ok e s) as (pp & pd & E1 & E2 & E3 & E4 & E5).
    { destruct (decide (q = p)) as [->|Hne].
      - rewrite Hp in He. injection He as <-. by apply Hpart.
      - rewrite Hq in He by done. by eapply H7. }
    exists pp, pd. split_and!; try done; [|apply E5..].
    rewrite Hq; [done|]. intros ->. rewrite Hold in E2. injection E2 as <-. unfold used in E3. congruence.
  - intros q e He Hu. destruct (decide (q = p)) as [->|Hne].
    + rewrite Hp in He. injection He as <-. by rewrite Hst.
    + rewrite Hq in He by done. by eapply H8.
  - intros q e He Hu Hn. destruct (decide (q = p)) as [->|Hne].
    + rewrite Hp in He. injection He as <-. by apply Hdisk.
    + rewrite Hq in He by done. by eapply H9.
Qed.

Lemma block_device_register_ok nm ty bsize total o private s :
  registry_ok s → block_initialized s = true → 1 ≤ next_device_id s < 4294967295 →
  o ≠ PartitionOps → 0 ≤ total < W64 →
  registry_ok (block_device_register nm ty bsize total o private s).2.
Proof.
  intros Hok Hin Hnx Ho Htot. unfold block_device_register. destruct nm as [nm|]; [|done].
  destruct (_ || _ || _) eqn:Eg; [done|]. rewrite Hin.
  apply orb_false_elim in Eg as [_ Et%Z.eqb_neq].
  destruct (find_slot _ 0) as [p|] eqn:Ef; [|done].
  apply find_slot_Some in Ef as (old & Hold & Hun & _). rewrite Nat.sub_0_r in Hold.
  unfold device at 1. rewrite Hold. apply (install_ok s p old); try done. simpl. lia.
Qed.

Lemma block_partition_register_ok pp i start count mbr guid s :
  registry_ok s → 1 ≤ next_device_id s < 4294967295 →
  0 ≤ start → 0 ≤ count → start + count < W64 →
  (∀ pd, device pp s = Some pd → used pd ∧ ¬ is_partition pd) →
  registry_ok (block_partition_register (Some pp) i start count mbr guid s).2.
Proof.
  intros Hok Hnx Hst Hct Hw Hpar. unfold block_partition_register.
  destruct (device pp s) as [pd|] eqn:Epd; [|done].
  destruct (Hpar pd eq_refl) as [Hu Hnpart].
  rewrite u64_small by (unfold is_u64; lia). rewrite Z.gtb_ltb.
  destruct (Z.eqb_spec count 0); [done|]. destruct (Z.ltb_spec (total_blocks pd) (start + count)); [done|].
  cbn [orb]. destruct (find_slot _ 0) as [p|] eqn:Ef; [|done].
  apply find_slot_Some in Ef as (old & Hold & Hun & _). rewrite Nat.sub_0_r in Hold.
  apply (install_ok s p old); try done.
  - simpl. pose proof (ro_total _ Hok _ _ Epd Hu). lia.
  - intros _. by exists pp, pd.
Qed.

(** Taking devices off line. *)
Lemma take_offline_ok (P : nat → Prop) `{∀ p, Decision (P p)} s devs l disk :
  registry_ok s → length devs = length (block_devices s) →
  (∀ p, P p → ∀ d', devs !! p = Some d' → is_unused d' = true) →
  (∀ p, ¬ P p → devs !! p = device p s) →
  NoDup l → (∀ p, p ∈ l ↔ p ∈ block_device_list s ∧ ¬ P p) →
  (∀ p d pp, ¬ P p → device p s = Some d → used d → is_partition d → parent d = Some pp → ¬ P pp) →
  registry_ok (BlockState devs l (next_device_id s) (block_initialized s) disk).
Proof.
  intros [H1 H2 H3 H4 H5 H6 H7 H8 H9] Hlen HP HN Hnd Hl Hpar.
  assert (Hdev : ∀ p d, devs !! p = Some d → used d → device p s = Some d ∧ ¬ P p).
  { intros p d Hd Hu. destruct (decide (P p)) as [Hp|Hp].
    - specialize (HP p Hp d Hd). unfold used in Hu. congruence.
    - by rewrite <- HN. }
  split.
  - simpl. congruence.
  - done.
  - intros p. simpl. rewrite Hl, H3. unfold device at 2. simpl. split.
    + intros [(d & Hd & Hu) Hp]. exists d. by rewrite HN.
    + intros (d & Hd & Hu). destruct (Hdev p d Hd Hu) as [E1 E2]. split; [by exists d|done].
  - intros p d Hd Hu. destruct (Hdev p d Hd Hu). by eapply H4.
  - intros p q d e Hd He Hu1 Hu2. destruct (Hdev p d Hd Hu1), (Hdev q e He Hu2). by eapply H5.
  - intros p d Hd Hu. destruct (Hdev p d Hd Hu). by eapply H6.
  - intros p d Hd Hu Hpd. destruct (Hdev p d Hd Hu) as [E1 E2].
    destruct (H7 p d E1 Hu Hpd) as (pp & pd & F1 & F2 & F3 & F4 & F5). exists pp, pd.
    split_and!; try done; [|apply F5..]. unfold device. simpl. rewrite HN; [done|]. by eapply Hpar.
  - intros p d Hd Hu. destruct (Hdev p d Hd Hu). by eapply H8.
  - intros p d Hd Hu. destruct (Hdev p d Hd Hu). by eapply H9.
Qed.

(** The child loop: every on-line child of [p] among the slots from [i] on is
    taken off line and off the list. *)
Lemma unregister_children_spec p n : ∀ i s,
  NoDup (block_device_list s) → (i + n ≤ length (block_devices s))%nat →
  let s' := unregister_children p n i s in
  let child q := (i ≤ q < i + n)%nat ∧ ∃ d, device q s = Some d ∧ parent d = Some p ∧ state d ≠ BLOCK_DEVICE_OFFLINE in
  length (block_devices s') = length (block_devices s) ∧ NoDup (block_device_list s') ∧
  next_device_id s' = next_device_id s ∧ block_initialized s' = block_initialized s ∧ disks s' = disks s ∧
  (∀ q, (child q → device q s' = offline <$> device q s) ∧ (¬ child q → device q s' = device q s)) ∧
  (∀ q, q ∈ block_device_list s' ↔ q ∈ block_device_list s ∧ ¬ child q).
Proof.
  induction n as [|n IH]; intros i s Hnd Hlen.
  { simpl. split_and!; try done.
    - intros q. split; [|done]. intros [? _]. lia.
    - intros q. split; [|by intros []]. intros Hq. split; [done|]. intros [? _]. lia. }
  cbn [unregister_children].
  destruct (lookup_lt_is_Some_2 (block_devices s) i ltac:(lia)) as [d Hd].
  change (block_devices s !! i) with (device i s) in Hd. rewrite Hd.
  destruct (bool_decide (parent d = Some p) && negb (bool_decide (state d = BLOCK_DEVICE_OFFLINE))) eqn:Ec.
  - apply andb_prop in Ec as [Ep%bool_decide_eq_true Es%negb_true_iff%bool_decide_eq_false].
    set (s1 := set_device i (offline d) _).
    destruct (IH (S i) s1) as (K1 & K2 & K3 & K4 & K5 & K6 & K7).
    { simpl. by apply NoDup_filter. } { simpl. rewrite length_insert. lia. }
    simpl in K1, K3, K4, K5. rewrite length_insert in K1.
    assert (Hi : device i s1 = Some (offline d)).
    { unfold device. simpl. apply list_lookup_insert_eq. lia. }
    assert (Hq : ∀ q, q ≠ i → device q s1 = device q s).
    { intros q Hne. unfold device. simpl. by apply list_lookup_insert_ne. }
    split_and!; try done.
    + intros q. destruct (K6 q) as [Ka Kb]. destruct (decide (q = i)) as [->|Hne].
      * split; [intros _|intros Hn; exfalso; apply Hn; split; [lia|by exists d]].
        rewrite Kb, Hi, Hd by (intros [? _]; lia). done.
      * rewrite Hq in Ka, Kb by done. split.
        -- intros [Hr Hc]. apply Ka. split; [lia|done].
        -- intros Hn. apply Kb. intros [Hr Hc]. apply Hn. split; [lia|done].
    + intros q. rewrite K7. simpl. rewrite list_elem_of_filter. destruct (decide (q = i)) as [->|Hne].
      * split; [tauto|]. intros [_ Hn]. exfalso. apply Hn. split; [lia|by exists d].
      * rewrite Hq by done. split; intros [Hx Hn]; (split; [tauto|]); intros [Hr Hc]; apply Hn; (split; [lia|done]).
  - destruct (IH (S i) s Hnd ltac:(lia)) as (K1 & K2 & K3 & K4 & K5 & K6 & K7).
    assert (Hnc : ∀ q, ((i ≤ q < i + S n)%nat ∧ ∃ d, device q s = Some d ∧ parent d = Some p ∧ state d ≠ BLOCK_DEVICE_OFFLINE)
      ↔ ((S i ≤ q < S i + n)%nat ∧ ∃ d, device q s = Some d ∧ parent d = Some p ∧ state d ≠ BLOCK_DEVICE_OFFLINE)).
    { intros q. split; intros [Hr (e & He & Hp1 & Hs1)]; (split; [|by exists e]); [|lia].
      destruct (decide (q = i)) as [->|]; [|lia]. exfalso. rewrite Hd in He. injection He as <-.
      rewrite bool_decide_true, bool_decide_false in Ec by done. done. }
    split_and!; try done; intros q; rewrite Hnc; [apply K6|apply K7].
Qed.

(** The last steps of [block_device_unregister], after the child loop. *)
Lemma unregister_final_ok p s s1 d disk (child : nat → Prop) `{∀ q, Decision (child q)} :
  registry_ok s → device p s = Some d →
  (∀ q e, device q s = Some e → used e → parent e = Some p → child q) →
  (∀ q, child q → ∃ e, device q s = Some e ∧ is_Some (parent e)) →
  length (block_devices s1) = length (block_devices s) → NoDup (block_device_list s1) →
  (∀ q, (child q → device q s1 = offline <$> device q s) ∧ (¬ child q → device q s1 = device q s)) →
  (∀ q, q ∈ block_device_list s1 ↔ q ∈ block_device_list s ∧ ¬ child q) →
  ∀ d1, registry_ok (BlockState (<[p := orphan (offline d1)]> (block_devices s1))
    (filter (λ j, j ≠ p) (block_device_list s1)) (next_device_id s) (block_initialized s) disk).
Proof.
  intros Hok Hd Hchild Hcp K1 K2 K6 K7 d1.
  assert (p < length (block_devices s1))%nat as Hpl by (rewrite K1; by eapply lookup_lt_Some).
  apply (take_offline_ok (λ q, q = p ∨ child q) s); try done.
  - by rewrite length_insert.
  - intros q Hq d' Hd'. destruct (decide (q = p)) as [->|Hne].
    + rewrite list_lookup_insert_eq in Hd' by done. by injection Hd' as <-.
    + rewrite list_lookup_insert_ne in Hd' by done. destruct Hq as [|Hq]; [done|].
      change (device q s1 = Some d') in Hd'. rewrite (proj1 (K6 q) Hq) in Hd'.
      apply fmap_Some in Hd' as (e & _ & ->). done.
  - intros q Hq. rewrite list_lookup_insert_ne by (intros ->; tauto).
    apply (proj2 (K6 q)). intros Hc. apply Hq. by right.
  - by apply NoDup_filter.
  - intros q. rewrite list_elem_of_filter, K7. clear. tauto.
  - intros q e pp Hq He Hue Hpe Hpp [->|Hc].
    + apply Hq. right. by eapply Hchild.
    + destruct (ro_partition _ Hok q e He Hue Hpe) as (pp' & pd & F1 & F2 & F3 & F4 & _).
      assert (pp' = pp) as -> by congruence. destruct (Hcp pp Hc) as (e' & He' & [x Hx]).
      rewrite F2 in He'. injection He' as <-. by rewrite (ro_disk _ Hok _ _ F2 F3 F4) in Hx.
Qed.

Definition online_child (p : nat) s (q : nat) : Prop :=
  (q < BLOCK_MAX_DEVICES)%nat ∧ ∃ d, device q s = Some d ∧ parent d = Some p ∧ state d ≠ BLOCK_DEVICE_OFFLINE.

#[local] Instance online_child_dec p s q : Decision (online_child p s q).
Proof.
  unfold online_child. destruct (device q s) as [e|].
  - destruct (decide ((q < BLOCK_MAX_DEVICES)%nat ∧ parent e = Some p ∧ state e ≠ BLOCK_DEVICE_OFFLINE)) as [Hy|Hn].
    + left. destruct Hy as (? & ? & ?). split; [done|by exists e].
    + right. intros [? (e' & [= <-] & ? & ?)]. by apply Hn.
  - right. by intros [_ (e & ? & _)].
Defined.

Lemma block_device_unregister_ok p s :
  registry_ok s → registry_ok (block_device_unregister p s).2.
Proof.
  intros Hok. unfold block_device_unregister. destruct p as [p|]; [|done].
  destruct (device p s) as [d|] eqn:Ed; [|done]. destruct (is_unused d) eqn:Eu; [done|].
  pose proof (ro_length _ Hok) as Hlen.
  pose proof (unregister_children_spec p BLOCK_MAX_DEVICES 0 s (ro_NoDup _ Hok)) as HK.
  rewrite Hlen in HK. specialize (HK (Nat.le_refl _)). cbv zeta in HK |- *.
  remember (unregister_children p BLOCK_MAX_DEVICES 0 s) as s1 eqn:Es1. clear Es1.
  destruct HK as (K1 & K2 & K3 & K4 & K5 & K6 & K7).
  set (disk := match ops d with
               | DriverOps o => match ops_destroy o with Some f => f (private_data d) (disks s1) | None => disks s1 end
               | _ => disks s1 end).
  match goal with |- registry_ok (match device p ?s2 with _ => _ end).2 =>
    assert (s2 = BlockState (block_devices s1) (filter (λ j, j ≠ p) (block_device_list s1))
                   (next_device_id s) (block_initialized s) disk) as ->
      by (unfold disk, set_list; rewrite K3, K4; destruct (ops d) as [| |o]; [done..|]; by destruct (ops_destroy o))
  end.
  assert (∃ d1, block_devices s1 !! p = Some d1) as [d1 Hd1].
  { apply lookup_lt_is_Some_2. rewrite K1, <- Hlen. by eapply lookup_lt_Some. }
  unfold device at 1. cbn [block_devices]. rewrite Hd1. cbn [snd].
  apply (unregister_final_ok p s s1 d disk (online_child p s) Hok Ed).
  - intros q e He Hue Hpe. split; [rewrite <- Hlen; by eapply lookup_lt_Some|].
    exists e. split_and!; [done|done|by eapply (ro_state _ Hok)].
  - intros q [_ (e & He & Hpe & _)]. exists e. by rewrite Hpe.
  - by rewrite K1, Hlen.
  - done.
  - intros q. destruct (K6 q) as [Ka Kb]. unfold online_child. split.
    + intros [Hr Hc]. apply Ka. split; [split; [apply Nat.le_0_l|exact Hr]|exact Hc].
    + intros Hn. apply Kb. intros [[_ Hr] Hc]. by apply Hn.
  - intros q. rewrite K7. unfold online_child. split; intros [Hx Hn]; (split; [done|]).
    + intros [Hr Hc]. apply Hn. split; [split; [apply Nat.le_0_l|exact Hr]|exact Hc].
    + intros [[_ Hr] Hc]. by apply Hn.
Qed.

(** One registry operation, with arguments that do not wrap and disks (not
    partitions) as parents. *)
Inductive registry_step : block_state D → block_state D → Prop :=
  | step_register s nm ty bsize total o private :
      block_initialized s = true → next_device_id s < 4294967295 → o ≠ PartitionOps → 0 ≤ total < W64 →
      registry_step s (block_device_register nm ty bsize total o private s).2
  | step_partition s pp i start count mbr guid :
      next_device_id s < 4294967295 → 0 ≤ start → 0 ≤ count → start + count < W64 →
      (∀ pd, device pp s = Some pd → used pd ∧ ¬ is_partition pd) →
      registry_step s (block_partition_register (Some pp) i start count mbr guid s).2
  | step_unregister s p : registry_step s (block_device_unregister p s).2.

Lemma registry_step_next s s' : 1 ≤ next_device_id s → registry_step s s' → 1 ≤ next_device_id s'.
Proof.
  intros Hnx Hs. revert Hnx.
  destruct Hs as [s nm ty bsize total o private Hi Hn Ho Ht|s pp i start count mbr guid Hn Hst Hct Hw Hpar|s p];
    intros Hnx.
  - unfold block_device_register. destruct nm as [nm|]; [|done]. destruct (_ || _ || _); [done|].
    rewrite Hi. destruct (find_slot _ 0) as [p|]; [|done]. destruct (device p s); [|done]. simpl.
    rewrite u32_small by (unfold is_u32; lia). lia.
  - unfold block_partition_register. destruct (device pp s) as [pd|]; [|done]. destruct (_ || _); [done|].
    destruct (find_slot _ 0); [|done]. simpl. rewrite u32_small by (unfold is_u32; lia). lia.
  - unfold block_device_unregister. destruct p as [p|]; [|done]. destruct (device p s) as [d|]; [|done].
    destruct (is_unused d); [done|].
    assert (Hk : ∀ n i s, next_device_id (unregister_children p n i s) = next_device_id s).
    { clear. induction n as [|n IH]; intros i s; simpl; [done|]. rewrite IH. by repeat case_match. }
    specialize (Hk BLOCK_MAX_DEVICES 0%nat s). cbv zeta.
    remember (unregister_children p BLOCK_MAX_DEVICES 0 s) as s1 eqn:Es1. clear Es1.
    repeat case_match; simpl; lia.
Qed.

(** the device registry.  Over any sequence of registrations, partition
    registrations and removals, the device list holds exactly the slots in use,
    each once; identifiers are unique; and every partition lies inside a disk
    that is still registered (removing a disk removes its partitions). *)
Theorem block_registry_invariant s s' :
  registry_ok s → 1 ≤ next_device_id s → rtc registry_step s s' → registry_ok s'.
Proof.
  intros Hok Hnx Hr. cut (registry_ok s' ∧ 1 ≤ next_device_id s'); [by intros []|].
  induction Hr as [s|s1 s2 s3 Hs _ IH]; [done|]. apply IH.
  - destruct Hs as [s nm ty bsize total o private Hi Hn Ho Ht|s pp i start count mbr guid Hn Hst Hct Hw Hpar|s p].
    + by apply block_device_register_ok.
    + by apply block_partition_register_ok.
    + by apply block_device_unregister_ok.
  - by eapply registry_step_next.
Qed.

(** ** Transfers *)

Definition online d : bool := bool_decide (state d = BLOCK_DEVICE_ONLINE).

(** The driver's own transfer, without any check. *)
Definition driver_read d (lba count : Z) s : option (list sector) :=
  match ops d with
  | DriverOps o => match read_blocks o with Some f => f (private_data d) lba count (disks s) | None => None end
  | _ => None
  end.

Definition driver_write d (lba count : Z) (data : list sector) s : bool * block_state D :=
  match ops d with
  | DriverOps o =>
      match write_blocks o with
      | Some f => let '(ok, disk) := f (private_data d) lba count data (disks s) in (ok, set_disks disk s)
      | None => (false, s)
      end
  | _ => (false, s)
  end.

Lemma block_read_disk fuel p d lba count s :
  device p s = Some d → ¬ is_partition d → 0 ≤ lba → 0 < count → lba + count < W64 →
  block_read (S fuel) (Some p) lba count s =
  if online d && (lba + count <=? total_blocks d) then driver_read d lba count s else None.
Proof.
  intros Hd Hn Hl Hc Hw. cbn [block_read]. rewrite Hd. destruct (Z.eqb_spec count 0); [lia|].
  fold (online d). destruct (online d); [cbn [negb andb]|done].
  rewrite u64_small by (unfold is_u64; lia). rewrite Z.gtb_ltb, Z.ltb_antisym.
  destruct (lba + count <=? total_blocks d); [cbn [negb]|done].
  unfold driver_read. destruct (ops d) as [| |o] eqn:Eo; [done|by destruct Hn|done].
Qed.

Lemma block_write_disk fuel p d lba count data s :
  device p s = Some d → ¬ is_partition d → 0 ≤ lba → 0 < count → lba + count < W64 →
  block_write (S fuel) (Some p) lba count data s =
  if online d && (lba + count <=? total_blocks d) then driver_write d lba count data s else (false, s).
Proof.
  intros Hd Hn Hl Hc Hw. cbn [block_write]. rewrite Hd. destruct (Z.eqb_spec count 0); [lia|].
  fold (online d). destruct (online d); [cbn [negb andb]|done].
  rewrite u64_small by (unfold is_u64; lia). rewrite Z.gtb_ltb, Z.ltb_antisym.
  destruct (lba + count <=? total_blocks d); [cbn [negb]|done].
  unfold driver_write. destruct (ops d) as [| |o] eqn:Eo; [done|by destruct Hn|done].
Qed.

(** partition transfers are confined.  In a well-formed registry, a transfer
    of [count] sectors at [lba] of a partition, with [lba + count] below 2^64,
    either is refused or is exactly the driver's transfer at [start_lba + lba] of
    the parent disk, and then every sector lies inside the partition, which lies
    inside the disk. *)
Theorem block_partition_confined s p d fuel lba count data :
  registry_ok s → device p s = Some d → used d → is_partition d →
  0 ≤ lba → 0 < count → lba + count < W64 → (2 ≤ fuel)%nat →
  ∃ pp pd, parent d = Some pp ∧ device pp s = Some pd ∧
    0 ≤ start_lba d ∧ start_lba d + total_blocks d ≤ total_blocks pd ∧
    let allowed := online d && online pd && (lba + count <=? total_blocks d) in
    block_read fuel (Some p) lba count s =
      (if allowed then driver_read pd (start_lba d + lba) count s else None) ∧
    block_write fuel (Some p) lba count data s =
      (if allowed then driver_write pd (start_lba d + lba) count data s else (false, s)).
Proof.
  intros Hok Hd Hu Hp Hl Hc Hw Hf.
  destruct (ro_partition _ Hok p d Hd Hu Hp) as (pp & pd & F1 & F2 & F3 & F4 & F5 & F6).
  pose proof (ro_total _ Hok _ _ F2 F3) as Ht. exists pp, pd. split_and!; try done.
  destruct fuel as [|[|fuel]]; [lia..|]. cbv zeta. unfold is_partition in Hp.
  destruct (Z.leb_spec (lba + count) (total_blocks d)) as [Hin|Hout].
  - assert (u64 (start_lba d + lba) = start_lba d + lba) as Hu64 by (apply u64_small; unfold is_u64; lia).
    assert (Hread : ∀ n, block_read (S n) (Some pp) (start_lba d + lba) count s =
      if online pd then driver_read pd (start_lba d + lba) count s else None).
    { intros n. rewrite (block_read_disk n pp pd) by (done || lia).
      rewrite (proj2 (Z.leb_le (start_lba d + lba + count) (total_blocks pd))), andb_true_r by lia. done. }
    assert (Hwrite : ∀ n, block_write (S n) (Some pp) (start_lba d + lba) count data s =
      if online pd then driver_write pd (start_lba d + lba) count data s else (false, s)).
    { intros n. rewrite (block_write_disk n pp pd) by (done || lia).
      rewrite (proj2 (Z.leb_le (start_lba d + lba + count) (total_blocks pd))), andb_true_r by lia. done. }
    split; [remember (S fuel) as n eqn:En; cbn [block_read]|remember (S fuel) as n eqn:En; cbn [block_write]];
      rewrite Hd; (destruct (Z.eqb_spec count 0); [lia|]); fold (online d);
      (destruct (online d); [cbn [negb andb]|done]);
      rewrite (u64_small (lba + count)) by (unfold is_u64; lia);
      (destruct (Z.gtb_spec (lba + count) (total_blocks d)); [lia|]); rewrite Hp, F1, Hu64, En;
      rewrite andb_true_r; [apply Hread|apply Hwrite].
  - rewrite !andb_false_r. split; [cbn [block_read]|cbn [block_write]]; rewrite Hd;
      (destruct (Z.eqb_spec count 0); [lia|]); fold (online d); (destruct (online d); [cbn [negb]|done]);
      rewrite (u64_small (lba + count)) by (unfold is_u64; lia);
      (destruct (Z.gtb_spec (lba + count) (total_blocks d)); [done|lia]).
Qed.

End block.

(** ** A concrete disk *)

(** A disk of 100 sectors (sector [i] holds the byte [i]) with a partition of 10
    sectors at 50, in slots 0 and 1. *)
Definition sample_ops : block_device_ops unit :=
  BlockOps (Some (λ _ lba count _, Some ((λ i, [i]) <$> seqZ lba count))) None None None.

Definition blank_device : block_device unit :=
  BlockDevice 0 [] BLOCK_TYPE_UNKNOWN BLOCK_DEVICE_OFFLINE 0 0 0 NullOps 0 None 0 0 0 [] false.

Definition empty_registry : block_state unit := BlockState (replicate BLOCK_MAX_DEVICES blank_device) [] 1 true tt.

Definition one_disk : block_state unit :=
  (block_device_register (Some [98]) BLOCK_TYPE_RAMDISK 512 100 (DriverOps sample_ops) 0 empty_registry).2.

Definition disk_and_partition : block_state unit :=
  (block_partition_register (Some 0%nat) 1 50 10 131 None one_disk).2.

Lemma empty_registry_ok : registry_ok empty_registry.
Proof.
  assert (Hno : ∀ p d, device p empty_registry = Some d → ¬ used d).
  { intros p d [-> _]%lookup_replicate. done. }
  split; try (intros; exfalso; by eapply Hno); [apply length_replicate|constructor|].
  intros p. split; [by intros ?%not_elem_of_nil|]. intros (d & Hd & Hu). by destruct (Hno p d Hd).
Qed.

Lemma disk_and_partition_steps : rtc registry_step empty_registry disk_and_partition.
Proof.
  apply (rtc_l _ _ one_disk); [by apply step_register|].
  apply (rtc_l _ _ disk_and_partition); [|apply rtc_refl]. apply step_partition; try done.
  intros pd [= <-]. done.
Qed.

Lemma block_registry_invariant_witness :
  registry_ok disk_and_partition ∧ block_device_list disk_and_partition = [0%nat; 1%nat].
Proof.
  split; [|reflexivity].
  apply (block_registry_invariant empty_registry); [apply empty_registry_ok|done|apply disk_and_partition_steps].
Defined.

Lemma disk_and_partition_ok : registry_ok disk_and_partition.
Proof.
  assert (registry_ok one_disk) by (apply block_device_register_ok; done || apply empty_registry_ok).
  apply block_partition_register_ok; try done. intros pd [= <-]. done.
Qed.

Lemma block_partition_confined_witness :
  block_read 2 (Some 1%nat) 3 2 disk_and_partition = Some [[53]; [54]] ∧
  block_read 2 (Some 1%nat) 9 2 disk_and_partition = None ∧
  ∃ pp, parent <$> device 1 disk_and_partition = Some (Some pp).
Proof.
  split_and!; [reflexivity|reflexivity|].
  destruct (device 1 disk_and_partition) as [d|] eqn:Ed; [|done].
  destruct (block_partition_confined disk_and_partition 1 d 2 3 2 [] disk_and_partition_ok Ed) as (pp & pd & H & _);
    try (injection Ed as <-; done); [lia..|]. exists pp. simpl. by rewrite H.
Defined.

(** The bounds checks of [block_read] and of [partition_read_blocks] add in 64
    bits: a transfer at the last 64-bit sector number wraps past them, and reads
    the sector of the disk just before the partition. *)
Theorem partition_bounds_wrap :
  block_read 2 (Some 1%nat) (W64 - 1) 1 disk_and_partition = Some [[49]].
Proof. reflexivity. Qed.
