(* ===== verification/BlockCache.v ===== *)
(** * Block cache (src/fs/block_cache.c)

    512 cache entries, an LRU order and 128 hash buckets.  The two kinds of
    intrusive lists are sequences of entry indices (KList.v shows that the link
    surgery of list.h implements the sequence operations used here); the devices
    are a [BlockIO].  The bodies are the critical sections of the cache lock; the
    timer is a field of the state. *)

From S2P Require Import Prelude Interfaces.
From Stdlib Require Import ZArith Lia.
From stdpp Require Import gmap.
#[local] Open Scope Z_scope.

(** ** Data *)

Definition BLOCK_CACHE_CAPACITY : nat := 512.
Definition BLOCK_CACHE_HASH_SIZE : Z := 128.

Record cache_entry := CacheEntry {
  dev : Z;
  lba : Z;
  data : list Z;
  valid : bool;
  dirty : bool;
  last_access : Z;
}.

Record block_cache_stats := CacheStats {
  hits : Z; misses : Z; reads : Z; writes : Z; flushes : Z; evictions : Z;
}.

Record block_cache_state := CacheState {
  entries : list cache_entry;
  lru_list : list nat;
  hash_table : list (list nat);
  stats : block_cache_stats;
  initialized : bool;
}.

(** The cache, the devices below it and the timer. *)
Record cache_world (D : Type) := CacheWorld { g_cache : block_cache_state; devices : D; ticks : Z }.
Arguments CacheWorld {_}. Arguments g_cache {_}. Arguments devices {_}. Arguments ticks {_}.

(** ** Operations *)

Definition cache_hash (dev_id lba : Z) : Z :=
  let key := Z.lxor (u64 (Z.shiftl dev_id 48)) lba in
  let key := u64 (not64 key + u64 (Z.shiftl key 18)) in
  let key := Z.lxor key (Z.shiftr key 31) in
  let key := u64 (key * 21) in
  let key := Z.lxor key (Z.shiftr key 11) in
  let key := u64 (key + u64 (Z.shiftl key 6)) in
  let key := Z.lxor key (Z.shiftr key 22) in
  key mod BLOCK_CACHE_HASH_SIZE.

Definition bump (st : block_cache_stats) (h m r w f e : Z) : block_cache_stats :=
  CacheStats (u64 (hits st + h)) (u64 (misses st + m)) (u64 (reads st + r)) (u64 (writes st + w))
    (u64 (flushes st + f)) (u64 (evictions st + e)).

Section operations.
Context {D : Type} `{BlockIO D}.
Implicit Types w : cache_world D.
Implicit Types c : block_cache_state.

Definition with_cache (c : block_cache_state) w : cache_world D := CacheWorld c (devices w) (ticks w).
Definition with_devices (d : D) w : cache_world D := CacheWorld (g_cache w) d (ticks w).

Definition set_entry (i : nat) (e : cache_entry) c : block_cache_state :=
  CacheState (<[i := e]> (entries c)) (lru_list c) (hash_table c) (stats c) (initialized c).
Definition set_lru (l : list nat) c : block_cache_state :=
  CacheState (entries c) l (hash_table c) (stats c) (initialized c).
Definition set_stats (st : block_cache_stats) c : block_cache_state :=
  CacheState (entries c) (lru_list c) (hash_table c) st (initialized c).

(** [list_add(&entry->hash_node, &hash_table[bucket])]. *)
Definition hash_add (bucket : Z) (i : nat) c : block_cache_state :=
  CacheState (entries c) (lru_list c)
    (alter (λ l, i :: l) (Z.to_nat bucket) (hash_table c)) (stats c) (initialized c).

(** [list_del(&entry->hash_node); list_init(&entry->hash_node);] from whichever
    bucket the node is in. *)
Definition hash_del (i : nat) c : block_cache_state :=
  CacheState (entries c) (lru_list c) ((λ l, filter (λ j, j ≠ i) l) <$> hash_table c)
    (stats c) (initialized c).

(** [list_del(&entry->lru_node); list_add(&entry->lru_node, &lru_list);] *)
Definition lru_front (i : nat) c : block_cache_state :=
  set_lru (i :: filter (λ j, j ≠ i) (lru_list c)) c.

Definition empty_entry : cache_entry := CacheEntry 0 0 [] false false 0.

Definition block_cache_init w : bool * cache_world D :=
  (true, with_cache
    (CacheState ((λ e, CacheEntry 0 0 (data e) false false 0) <$> entries (g_cache w))
       (seq 0 BLOCK_CACHE_CAPACITY) (replicate (Z.to_nat BLOCK_CACHE_HASH_SIZE) [])
       (CacheStats 0 0 0 0 0 0) true) w).

Fixpoint find_in_bucket (l : list nat) (d b : Z) c : option nat :=
  match l with
  | [] => None
  | i :: l =>
      match entries c !! i with
      | Some e => if valid e && (dev e =? d) && (lba e =? b) then Some i else find_in_bucket l d b c
      | None => find_in_bucket l d b c
      end
  end.

Definition cache_lookup_locked (d b : Z) c : option nat :=
  match hash_table c !! Z.to_nat (cache_hash (bio_id d) b) with
  | None => None
  | Some l => find_in_bucket l d b c
  end.

Definition clean (e : cache_entry) : cache_entry :=
  CacheEntry (dev e) (lba e) (data e) (valid e) false (last_access e).

Definition cache_flush_entry_locked (i : nat) w : bool * cache_world D :=
  match entries (g_cache w) !! i with
  | None => (true, w)
  | Some e =>
      if negb (valid e) || negb (dirty e) || (dev e =? 0) then (true, w)
      else
        let '(ok, d) := bio_write (dev e) (lba e) (data e) (devices w) in
        let w := with_devices d w in
        if ok then
          (true, with_cache (set_stats (bump (stats (g_cache w)) 0 0 0 0 1 0)
                               (set_entry i (clean e) (g_cache w))) w)
        else (false, w)
  end.

(** The tail-to-head search for an entry that is not valid. *)
Fixpoint find_invalid (l : list nat) c : option nat :=
  match l with
  | [] => None
  | i :: l =>
      match entries c !! i with
      | Some e => if negb (valid e) then Some i else find_invalid l c
      | None => find_invalid l c
      end
  end.

Definition invalidate_entry (e : cache_entry) : cache_entry :=
  CacheEntry (dev e) (lba e) (data e) false (dirty e) (last_access e).

(** Eviction of the least recently used entry. *)
Definition evict (i : nat) w : cache_world D :=
  match entries (g_cache w) !! i with
  | None => w
  | Some e =>
      let w := if dirty e then (cache_flush_entry_locked i w).2 else w in
      let w := with_cache (hash_del i (g_cache w)) w in
      let w := match entries (g_cache w) !! i with
               | Some e => with_cache (set_entry i (invalidate_entry e) (g_cache w)) w
               | None => w
               end in
      with_cache (set_stats (bump (stats (g_cache w)) 0 0 0 0 0 1) (g_cache w)) w
  end.

Definition cache_allocate_slot_locked (d b : Z) w : option nat * cache_world D :=
  let '(slot, w) :=
    match find_invalid (reverse (lru_list (g_cache w))) (g_cache w) with
    | Some i => (Some i, w)
    | None =>
        match last (lru_list (g_cache w)) with
        | Some i => (Some i, evict i w)
        | None => (None, w)
        end
    end in
  match slot with
  | None => (None, w)
  | Some i =>
      match entries (g_cache w) !! i with
      | None => (None, w)
      | Some e =>
          let c := set_entry i (CacheEntry d b (data e) false false (ticks w)) (g_cache w) in
          let c := hash_add (cache_hash (bio_id d) b) i c in
          (Some i, with_cache (lru_front i c) w)
      end
  end.

Definition touch_entry (t : Z) (e : cache_entry) : cache_entry :=
  CacheEntry (dev e) (lba e) (data e) (valid e) (dirty e) t.

Definition cache_touch_locked (i : nat) w : cache_world D :=
  match entries (g_cache w) !! i with
  | None => w
  | Some e => with_cache (lru_front i (set_entry i (touch_entry (ticks w) e) (g_cache w))) w
  end.

(** One iteration of [block_cache_read]: the sector, or failure. *)
Definition cache_read_one (d b : Z) w : option (list Z) * cache_world D :=
  let w := with_cache (set_stats (bump (stats (g_cache w)) 0 0 1 0 0 0) (g_cache w)) w in
  match cache_lookup_locked d b (g_cache w) with
  | Some i =>
      let w := with_cache (set_stats (bump (stats (g_cache w)) 1 0 0 0 0 0) (g_cache w)) w in
      match entries (g_cache w) !! i with
      | Some e => (Some (data e), cache_touch_locked i w)
      | None => (None, w)
      end
  | None =>
      let w := with_cache (set_stats (bump (stats (g_cache w)) 0 1 0 0 0 0) (g_cache w)) w in
      let '(slot, w) := cache_allocate_slot_locked d b w in
      match slot with
      | None => (bio_read d b (devices w), w)
      | Some i =>
          match entries (g_cache w) !! i with
          | None => (None, w)
          | Some e =>
              match bio_read d b (devices w) with
              | None =>
                  (None, with_cache (hash_del i (set_entry i (invalidate_entry e) (g_cache w))) w)
              | Some x =>
                  (Some x, with_cache (set_entry i (CacheEntry (dev e) (lba e) x true false (last_access e))
                                         (g_cache w)) w)
              end
          end
      end
  end.

Fixpoint cache_read_loop (d b : Z) (n : nat) (i : Z) w : option (list (list Z)) * cache_world D :=
  match n with
  | O => (Some [], w)
  | S n =>
      match cache_read_one d (u64 (b + i)) w with
      | (None, w) => (None, w)
      | (Some x, w) =>
          match cache_read_loop d b n (i + 1) w with
          | (None, w) => (None, w)
          | (Some l, w) => (Some (x :: l), w)
          end
      end
  end.

Definition block_cache_read (d b count : Z) w : option (list (list Z)) * cache_world D :=
  if negb (initialized (g_cache w)) || (d =? 0) || (count =? 0) then (None, w)
  else cache_read_loop d b (Z.to_nat count) 0 w.

(** One iteration of [block_cache_write]. *)
Definition cache_write_one (d b : Z) (x : list Z) w : bool * cache_world D :=
  let w := with_cache (set_stats (bump (stats (g_cache w)) 0 0 0 1 0 0) (g_cache w)) w in
  let '(slot, w) :=
    match cache_lookup_locked d b (g_cache w) with
    | Some i => (Some i, w)
    | None =>
        let '(slot, w) := cache_allocate_slot_locked d b w in
        match slot with
        | None => (None, w)
        | Some i =>
            match entries (g_cache w) !! i with
            | None => (None, w)
            | Some e =>
                (Some i, with_cache (set_entry i (CacheEntry (dev e) (lba e) (data e) true (dirty e)
                                                    (last_access e)) (g_cache w)) w)
            end
        end
    end in
  match slot with
  | None => let '(ok, dd) := bio_write d b x (devices w) in (ok, with_devices dd w)
  | Some i =>
      match entries (g_cache w) !! i with
      | None => (false, w)
      | Some e =>
          let w := with_cache (set_entry i (CacheEntry (dev e) (lba e) x (valid e) true (last_access e))
                                 (g_cache w)) w in
          (true, cache_touch_locked i w)
      end
  end.

Fixpoint cache_write_loop (d b : Z) (i : Z) (src : list (list Z)) w : bool * cache_world D :=
  match src with
  | [] => (true, w)
  | x :: src =>
      match cache_write_one d (u64 (b + i)) x w with
      | (false, w) => (false, w)
      | (true, w) => cache_write_loop d b (i + 1) src w
      end
  end.

(** [count] sectors at [src]. *)
Definition block_cache_write (d b : Z) (src : list (list Z)) w : bool * cache_world D :=
  if negb (initialized (g_cache w)) || (d =? 0) || (Z.of_nat (length src) =? 0) then (false, w)
  else cache_write_loop d b 0 src w.

Fixpoint flush_loop (d : Z) (n : nat) (i : nat) (all_ok : bool) w : bool * cache_world D :=
  match n with
  | O => (all_ok, w)
  | S n =>
      match entries (g_cache w) !! i with
      | Some e =>
          if valid e && dirty e && ((d =? 0) || (dev e =? d)) then
            let '(ok, w) := cache_flush_entry_locked i w in
            flush_loop d n (S i) (if ok then all_ok else false) w
          else flush_loop d n (S i) all_ok w
      | None => flush_loop d n (S i) all_ok w
      end
  end.

(** A null device means all of them. *)
Definition block_cache_flush_device (d : Z) w : bool * cache_world D :=
  if negb (initialized (g_cache w)) then (false, w)
  else
    let '(all_ok, w) := flush_loop d BLOCK_CACHE_CAPACITY 0 true w in
    if negb (d =? 0) then (all_ok, with_devices (bio_flush d (devices w)) w) else (all_ok, w).

Definition block_cache_sync w : bool * cache_world D := block_cache_flush_device 0 w.

Definition dropped_entry (e : cache_entry) : cache_entry :=
  CacheEntry 0 (lba e) (data e) false false (last_access e).

Fixpoint invalidate_loop (d : Z) (n : nat) (i : nat) w : cache_world D :=
  match n with
  | O => w
  | S n =>
      let w :=
        match entries (g_cache w) !! i with
        | Some e =>
            if valid e && (dev e =? d) then
              let w := if dirty e then (cache_flush_entry_locked i w).2 else w in
              let c := hash_del i (g_cache w) in
              match entries c !! i with
              | Some e => with_cache (set_entry i (dropped_entry e) c) w
              | None => w
              end
            else w
        | None => w
        end in
      invalidate_loop d n (S i) w
  end.

Definition block_cache_invalidate_device (d : Z) w : cache_world D :=
  if negb (initialized (g_cache w)) || (d =? 0) then w
  else invalidate_loop d BLOCK_CACHE_CAPACITY 0 w.

Definition block_cache_get_stats w : block_cache_stats := stats (g_cache w).

End operations.
