(* ===== verification/BlockCacheSpec.v ===== *)
(** * What the block cache guarantees (src/fs/block_cache.c)

    The cache and the devices below it refine a flat store of sectors: [view]
    is the content a client sees.  The invariant is stated with an optional
    pending entry, the one [cache_allocate_slot_locked] has linked into its
    bucket but not yet marked valid. *)

From Stdlib Require Import ZArith Lia.
From stdpp Require Import gmap.
From S2P Require Import Prelude Interfaces BlockCache.
#[local] Open Scope Z_scope.

Section cache.
Context {D : Type} `{BlockIO D}.
Implicit Types w : cache_world D.
Implicit Types c : block_cache_state.
Implicit Types e : cache_entry.

(** The sectors the devices have, and so accept writes to. *)
Context (sector : Z → Z → Prop).

(** ** Invariant *)

Definition bucket (d b : Z) : nat := Z.to_nat (cache_hash (bio_id d) b).

(** Entry [i] holds sector [b] of device [d]. *)
Definition holds c (i : nat) (d b : Z) : Prop :=
  ∃ e, entries c !! i = Some e ∧ valid e = true ∧ dev e = d ∧ lba e = b.

(** Entry [i] is linked into a bucket: it is valid, or the pending one. *)
Definition linked (x : option nat) c (i : nat) (e : cache_entry) : Prop :=
  entries c !! i = Some e ∧ (valid e = true ∨ x = Some i).

(** A dirty entry is one of the sectors, a clean one equals the device's. *)
Definition coherent (s : D) (e : cache_entry) : Prop :=
  if dirty e then sector (dev e) (lba e) else bio_read (dev e) (lba e) s = Some (data e).

Record cache_inv (x : option nat) w : Prop := {
  ci_init : initialized (g_cache w) = true;
  ci_size : length (entries (g_cache w)) = BLOCK_CACHE_CAPACITY;
  ci_lru : lru_list (g_cache w) ≡ₚ seq 0 BLOCK_CACHE_CAPACITY;
  ci_buckets : length (hash_table (g_cache w)) = 128%nat;
  ci_hash k l i : hash_table (g_cache w) !! k = Some l →
    i ∈ l ↔ ∃ e, linked x (g_cache w) i e ∧ bucket (dev e) (lba e) = k;
  ci_dev i e : linked x (g_cache w) i e → dev e ≠ 0;
  ci_uniq i j e f : linked x (g_cache w) i e → linked x (g_cache w) j f →
    dev e = dev f → lba e = lba f → i = j;
  ci_content i e : entries (g_cache w) !! i = Some e → valid e = true → coherent (devices w) e;
  ci_pending i e : x = Some i → entries (g_cache w) !! i = Some e → valid e = false;
}.

(** What a client sees at sector [b] of device [d]. *)
Definition view w (d b : Z) : option (list Z) :=
  match cache_lookup_locked d b (g_cache w) with
  | Some i => data <$> entries (g_cache w) !! i
  | None => bio_read d b (devices w)
  end.

Lemma cache_hash_range i b : 0 ≤ cache_hash i b < 128.
Proof. unfold cache_hash. apply Z.mod_pos_bound. done. Qed.

Lemma bucket_range d b : (bucket d b < 128)%nat.
Proof. unfold bucket. pose proof (cache_hash_range (bio_id d) b). lia. Qed.

#[local] Opaque cache_hash.

Lemma find_in_bucket_Some c d b l i :
  find_in_bucket l d b c = Some i → i ∈ l ∧ holds c i d b.
Proof.
  induction l as [|j l IH]; simpl; [done|].
  destruct (entries c !! j) as [e|] eqn:Ej; [|by intros [??]%IH; split; [right|]].
  destruct (valid e && _ && _) eqn:Ec; [|by intros [??]%IH; split; [right|]].
  intros [= <-]. apply andb_prop in Ec as [[Ev Ed%Z.eqb_eq]%andb_prop Eb%Z.eqb_eq].
  split; [left|]. by exists e.
Qed.

Lemma find_in_bucket_None c d b l i :
  find_in_bucket l d b c = None → i ∈ l → ¬ holds c i d b.
Proof.
  induction l as [|j l IH]; simpl; [by intros _ ?%not_elem_of_nil|].
  intros Hf [->|Hi]%elem_of_cons (e & He & Hv & Hd & Hb).
  - rewrite He, Hv, Hd, Hb, !Z.eqb_refl in Hf. done.
  - assert (find_in_bucket l d b c = None) as Hf' 
      by (destruct (entries c !! j) as [f|]; [by destruct (valid f && _ && _)|done]).
    apply (IH Hf' Hi). by exists e.
Qed.

Lemma bucket_list x w d b :
  cache_inv x w → ∃ l, hash_table (g_cache w) !! bucket d b = Some l.
Proof. intros Hi. apply lookup_lt_is_Some_2. rewrite (ci_buckets _ _ Hi). apply bucket_range. Qed.

Lemma holds_linked x c i d b e : entries c !! i = Some e → holds c i d b → linked x c i e ∧ dev e = d ∧ lba e = b.
Proof. intros He (e' & He' & Hv & Hd & Hb). rewrite He in He'. injection He' as <-. split_and!; try done. split; auto. Qed.

(** The lookup finds the entry that holds the sector, if any does. *)
Lemma cache_lookup_Some x w d b i :
  cache_inv x w → cache_lookup_locked d b (g_cache w) = Some i ↔ holds (g_cache w) i d b.
Proof.
  intros Hi. unfold cache_lookup_locked.
  change (Z.to_nat (cache_hash (bio_id d) b)) with (bucket d b).
  destruct (bucket_list x w d b Hi) as [l Hl]. rewrite Hl. split.
  - by intros [_ ?]%find_in_bucket_Some.
  - intros Hh. pose proof Hh as (e & He & Hv & Hd & Hb).
    assert (i ∈ l) as Hil.
    { apply (ci_hash _ _ Hi _ _ i Hl). exists e. split; [split; auto|]. by rewrite Hd, Hb. }
    destruct (find_in_bucket l d b (g_cache w)) as [j|] eqn:Ef.
    + apply find_in_bucket_Some in Ef as [_ (f & Hf & Hvf & Hdf & Hbf)]. f_equal.
      apply (ci_uniq _ _ Hi j i f e); [split; auto..|congruence|congruence].
    + by destruct (find_in_bucket_None _ _ _ _ i Ef Hil).
Qed.

Lemma cache_lookup_None x w d b :
  cache_inv x w → cache_lookup_locked d b (g_cache w) = None ↔ ∀ i, ¬ holds (g_cache w) i d b.
Proof.
  intros Hi. destruct (cache_lookup_locked d b (g_cache w)) as [i|] eqn:E.
  - split; [done|]. intros Hn. by destruct (Hn i); apply (cache_lookup_Some x).
  - split; [|done]. intros _ i Hh. apply (cache_lookup_Some x w d b i Hi) in Hh. congruence.
Qed.

Lemma view_cached x w i e :
  cache_inv x w → entries (g_cache w) !! i = Some e → valid e = true → view w (dev e) (lba e) = Some (data e).
Proof.
  intros Hi He Hv. unfold view. rewrite (proj2 (cache_lookup_Some x w _ _ i Hi)); [by rewrite He|].
  by exists e.
Qed.

Lemma view_uncached x w d b :
  cache_inv x w → (∀ i, ¬ holds (g_cache w) i d b) → view w d b = bio_read d b (devices w).
Proof. intros Hi Hn. unfold view. by rewrite (proj2 (cache_lookup_None x w d b Hi)). Qed.

Lemma view_cases x w d b :
  cache_inv x w →
  (∃ i e, entries (g_cache w) !! i = Some e ∧ valid e = true ∧ dev e = d ∧ lba e = b ∧ view w d b = Some (data e)) ∨
  ((∀ i, ¬ holds (g_cache w) i d b) ∧ view w d b = bio_read d b (devices w)).
Proof.
  intros Hi. destruct (cache_lookup_locked d b (g_cache w)) as [i|] eqn:E.
  - apply (cache_lookup_Some x w d b i Hi) in E as (e & He & Hv & <- & <-). left. exists i, e.
    split_and!; try done. by apply (view_cached x w i).
  - pose proof (proj1 (cache_lookup_None x w d b Hi) E). right. split; [done|]. by apply (view_uncached x).
Qed.

(** ** Edits that keep the keys *)

(** The two worlds have the same lists and keys, the same reads, and the same
    data in valid entries. *)
Definition same_entry e e' : Prop := dev e' = dev e ∧ lba e' = lba e ∧ valid e' = valid e.

Lemma cache_inv_rekey x w w' :
  cache_inv x w →
  initialized (g_cache w') = initialized (g_cache w) → lru_list (g_cache w') ≡ₚ lru_list (g_cache w) →
  hash_table (g_cache w') = hash_table (g_cache w) →
  length (entries (g_cache w')) = length (entries (g_cache w)) →
  (∀ i e', entries (g_cache w') !! i = Some e' → ∃ e, entries (g_cache w) !! i = Some e ∧ same_entry e e') →
  (∀ i e', entries (g_cache w') !! i = Some e' → valid e' = true → coherent (devices w') e') →
  cache_inv x w'.
Proof.
  intros [H1 H2 H3 H4 H5 H6 H7 H8 H9] Ei El Eh En Ee Ec.
  assert (Hlink : ∀ i e', linked x (g_cache w') i e' →
    ∃ e, linked x (g_cache w) i e ∧ dev e' = dev e ∧ lba e' = lba e).
  { intros i e' [He' Hv]. destruct (Ee i e' He') as (e & He & Ed & Eb & Ev). exists e.
    split; [split; [done|by rewrite <- Ev]|done]. }
  split.
  - by rewrite Ei.
  - by rewrite En.
  - by rewrite El.
  - by rewrite Eh.
  - intros k l i Hl. rewrite Eh in Hl. rewrite (H5 k l i Hl). split.
    + intros (e & [He Hv] & Hk).
      assert (∃ e', entries (g_cache w') !! i = Some e') as [e' He'].
      { apply lookup_lt_is_Some_2. rewrite En. by eapply lookup_lt_Some. }
      destruct (Ee i e' He') as (e0 & He0 & Ed & Eb & Ev). rewrite He in He0. injection He0 as <-.
      exists e'. split; [split; [done|by rewrite Ev]|by rewrite Ed, Eb].
    + intros (e' & He' & Hk). destruct (Hlink i e' He') as (e & He & Ed & Eb).
      exists e. split; [done|]. by rewrite <- Ed, <- Eb.
  - intros i e' He'. destruct (Hlink i e' He') as (e & He & -> & _). by eapply H6.
  - intros i j e' f' He' Hf' Hd Hb. destruct (Hlink i e' He') as (e & He & E1 & E2).
    destruct (Hlink j f' Hf') as (f & Hf & E3 & E4). apply (H7 i j e f He Hf); congruence.
  - done.
  - intros i e' Hx He'. destruct (Ee i e' He') as (e & He & _ & _ & ->). by eapply H9.
Qed.

(** Replacing entry [i] by one with the same key. *)
Lemma set_entry_same i e c :
  entries c !! i = Some e → ∀ e', same_entry e e' →
  ∀ j f, <[i := e']> (entries c) !! j = Some f → ∃ g, entries c !! j = Some g ∧ same_entry g f.
Proof.
  intros He e' Hs j f Hf. apply list_lookup_insert_Some in Hf as [(-> & -> & _)|[_ Hf]]; [by exists e|].
  exists f. by split_and!.
Qed.

(** Two worlds that agree on what is held and on the rest of the devices. *)
Lemma view_same x x' w w' d b :
  cache_inv x w → cache_inv x' w' →
  (∀ i e, entries (g_cache w) !! i = Some e → valid e = true → dev e = d → lba e = b →
     (∃ e', entries (g_cache w') !! i = Some e' ∧ valid e' = true ∧ dev e' = d ∧ lba e' = b ∧ data e' = data e)
     ∨ ((∀ j, ¬ holds (g_cache w') j d b) ∧ bio_read d b (devices w') = Some (data e))) →
  ((∀ i, ¬ holds (g_cache w) i d b) →
     (∀ j, ¬ holds (g_cache w') j d b) ∧ bio_read d b (devices w') = bio_read d b (devices w)) →
  view w' d b = view w d b.
Proof.
  intros Hi Hi' Hh Hn. destruct (view_cases x w d b Hi) as [(i & e & He & Hv & Hd & Hb & ->)|[Hno ->]].
  - destruct (Hh i e He Hv Hd Hb) as [(e' & He' & Hv' & <- & <- & <-)|[Hno ->%symmetry]].
    + by apply (view_cached x' w' i).
    + by apply (view_uncached x').
  - destruct (Hn Hno) as [Hno' <-]. by apply (view_uncached x').
Qed.

(** A change of the counters, of the LRU order and of the access times. *)
Lemma quiet_inv x w w' :
  cache_inv x w → devices w' = devices w →
  initialized (g_cache w') = initialized (g_cache w) → lru_list (g_cache w') ≡ₚ lru_list (g_cache w) →
  hash_table (g_cache w') = hash_table (g_cache w) → entries (g_cache w') = entries (g_cache w) →
  cache_inv x w' ∧ ∀ d b, view w' d b = view w d b.
Proof.
  intros Hi Ed E1 E2 E3 E4. split.
  - apply (cache_inv_rekey x w w' Hi); try done; rewrite E4; [done| |].
    + intros i e He. by exists e.
    + rewrite Ed. apply (ci_content _ _ Hi).
  - intros d b. unfold view, cache_lookup_locked. rewrite Ed, E3.
    assert (∀ l, find_in_bucket l d b (g_cache w') = find_in_bucket l d b (g_cache w)) as El.
    { induction l as [|i l IH]; simpl; [done|]. by rewrite E4, IH. }
    destruct (hash_table (g_cache w) !! _); [rewrite El|done]. by rewrite E4.
Qed.

Lemma stats_inv x w st :
  cache_inv x w →
  cache_inv x (with_cache (set_stats st (g_cache w)) w) ∧
  ∀ d b, view (with_cache (set_stats st (g_cache w)) w) d b = view w d b.
Proof. intros Hi. by apply (quiet_inv x w). Qed.

Lemma lru_front_perm x w i :
  cache_inv x w → (i < BLOCK_CACHE_CAPACITY)%nat →
  i :: filter (λ j, j ≠ i) (lru_list (g_cache w)) ≡ₚ lru_list (g_cache w).
Proof.
  intros Hi Hlt. pose proof (ci_lru _ _ Hi) as Hp.
  assert (NoDup (lru_list (g_cache w))) as Hnd by (rewrite Hp; apply NoDup_seq).
  apply NoDup_Permutation; [|done|].
  - constructor; [rewrite list_elem_of_filter; tauto|by apply NoDup_filter].
  - intros j. rewrite elem_of_cons, list_elem_of_filter. split; [|destruct (decide (j = i)); tauto].
    intros [->|[_ ?]]; [|done]. rewrite Hp, elem_of_seq. lia.
Qed.

Lemma entry_in_range x w i e :
  cache_inv x w → entries (g_cache w) !! i = Some e → (i < BLOCK_CACHE_CAPACITY)%nat.
Proof. intros Hi He%lookup_lt_Some. by rewrite (ci_size _ _ Hi) in He. Qed.

(** ** Writing one entry back *)

Lemma cache_flush_entry_cases x w i ok w' :
  cache_inv x w → cache_flush_entry_locked i w = (ok, w') →
  cache_inv x w' ∧ (∀ d b, view w' d b = view w d b) ∧
  lru_list (g_cache w') = lru_list (g_cache w) ∧
  (∀ j, j ≠ i → entries (g_cache w') !! j = entries (g_cache w) !! j) ∧
  (∀ e, entries (g_cache w) !! i = Some e → valid e = true →
     if ok then entries (g_cache w') !! i = Some (clean e)
     else dirty e = true ∧ (bio_write (dev e) (lba e) (data e) (devices w)).1 = false ∧
          g_cache w' = g_cache w).
Proof.
  intros Hi. unfold cache_flush_entry_locked.
  destruct (entries (g_cache w) !! i) as [e|] eqn:He; [|intros [= <- <-]; by split_and!].
  destruct (negb (valid e) || negb (dirty e) || (dev e =? 0)) eqn:Eg.
  { intros [= <- <-]. split_and!; try done. intros e' [= <-] Hv.
    rewrite He. f_equal. destruct (dirty e) eqn:Ed; [|destruct e; simpl in *; by subst].
    rewrite Hv in Eg. simpl in Eg. apply Z.eqb_eq in Eg.
    by destruct (ci_dev _ _ Hi i e (conj He (or_introl Hv))). }
  apply orb_false_elim in Eg as [[Hv%negb_false_iff Hd%negb_false_iff]%orb_false_elim _].
  pose proof (bio_write_spec (dev e) (lba e) (data e) (devices w)) as Hw.
  destruct (bio_write (dev e) (lba e) (data e) (devices w)) as [[] s'] eqn:Ew; intros [= <- <-].
  - assert (cache_inv x (with_cache (set_stats (bump (stats (g_cache w)) 0 0 0 0 1 0)
       (set_entry i (clean e) (g_cache w))) (with_devices s' w))) as Hi'.
    { apply (cache_inv_rekey x w _ Hi); simpl; try done.
      - by rewrite length_insert.
      - by apply (set_entry_same i e (g_cache w) He).
      - intros j f Hf Hvf. apply list_lookup_insert_Some in Hf as [(-> & <- & _)|[Hne Hf]]; unfold coherent; simpl.
        + by rewrite Hw, bool_decide_true.
        + pose proof (ci_content _ _ Hi j f Hf Hvf) as Hc. unfold coherent in Hc.
          destruct (dirty f); [done|]. rewrite Hw, bool_decide_false; [done|].
          intros [E1 E2]. apply Hne. apply (ci_uniq _ _ Hi i j e f); [by split; auto..|done|done]. }
    split_and!; try done.
    + intros d b. apply (view_same x x w _ d b Hi Hi'); simpl.
      * intros j f Hf Hvf Hdf Hbf. left. destruct (decide (i = j)) as [<-|Hne].
        -- rewrite list_lookup_insert_eq by (by eapply lookup_lt_Some). rewrite He in Hf. injection Hf as <-.
           by exists (clean e).
        -- rewrite list_lookup_insert_ne by done. by exists f.
      * intros Hno. split.
        -- intros j (f & Hf & Hvf & Hdf & Hbf). apply (Hno j).
           destruct (set_entry_same i e (g_cache w) He (clean e) (conj eq_refl (conj eq_refl eq_refl)) j f Hf)
             as (g & Hg & E1 & E2 & E3). exists g. split_and!; congruence.
        -- rewrite Hw, bool_decide_false; [done|]. intros [-> ->]. apply (Hno i). by exists e.
    + simpl. intros j Hne. by rewrite list_lookup_insert_ne.
    + simpl. intros e' [= <-] _. rewrite list_lookup_insert_eq by (by eapply lookup_lt_Some). done.
  - simpl in Hw. assert (cache_inv x (with_devices s' w)) as Hi'.
    { apply (cache_inv_rekey x w _ Hi); simpl; try done; [intros j f Hf; by exists f|].
      intros j f Hf Hvf. pose proof (ci_content _ _ Hi j f Hf Hvf) as Hc. unfold coherent in *.
      destruct (dirty f); [done|]. by rewrite Hw. }
    split_and!; try done.
    + intros d b. unfold view. simpl. by rewrite Hw.
    + intros e' [= <-] _. by rewrite Ew.
Qed.

(** ** Unlinking, linking and validating one entry *)

Definition drop_entry (i : nat) (e : cache_entry) w : cache_world D :=
  with_cache (set_entry i e (hash_del i (g_cache w))) w.

Lemma drop_entry_inv x w i e e' :
  cache_inv x w → x = None ∨ x = Some i → entries (g_cache w) !! i = Some e → valid e' = false →
  cache_inv None (drop_entry i e' w).
Proof.
  intros [H1 H2 H3 H4 H5 H6 H7 H8 H9] Hx He Hv.
  assert (Hlink : ∀ j f, linked None (g_cache (drop_entry i e' w)) j f ↔ j ≠ i ∧ linked x (g_cache w) j f).
  { intros j f. unfold linked. simpl. split.
    - intros [Hf [Hvf|]]; [|done]. apply list_lookup_insert_Some in Hf as [(-> & -> & _)|[? Hf]]; [congruence|auto].
    - intros (Hne & Hf & Hl). rewrite list_lookup_insert_ne by done. split; [done|]. left.
      destruct Hl as [|Hl]; [done|]. destruct Hx as [->| ->]; [done|congruence]. }
  split; simpl; try done.
  - by rewrite length_insert.
  - by rewrite length_fmap.
  - intros k l j Hl. apply list_lookup_fmap_Some_1 in Hl as (l0 & -> & Hl0).
    rewrite list_elem_of_filter, (H5 k l0 j Hl0). split.
    + intros (Hne & f & Hf & Hk). exists f. split; [by apply Hlink|done].
    + intros (f & [Hne Hf]%Hlink & Hk). split; [done|by exists f].
  - intros j f [_ Hf]%Hlink. by eapply H6.
  - intros j k f g [_ Hf]%Hlink [_ Hg]%Hlink. by eapply H7.
  - intros j f Hf Hvf. apply list_lookup_insert_Some in Hf as [(-> & -> & _)|[? Hf]]; [congruence|by eapply H8].
Qed.

(** Dropping an entry hides nothing when the device has the sector. *)
Lemma drop_entry_view x w i e e' d b :
  cache_inv x w → x = None ∨ x = Some i → entries (g_cache w) !! i = Some e → valid e' = false →
  (valid e = true → dev e = d → lba e = b → dirty e = false) → view (drop_entry i e' w) d b = view w d b.
Proof.
  intros Hi Hx He Hv Hc. pose proof (drop_entry_inv x w i e e' Hi Hx He Hv) as Hi'.
  assert (Hgone : ∀ j, holds (g_cache (drop_entry i e' w)) j d b → j ≠ i ∧ holds (g_cache w) j d b).
  { intros j (f & Hf & Hvf & Hk). simpl in Hf.
    apply list_lookup_insert_Some in Hf as [(-> & -> & _)|[? Hf]]; [congruence|]. split; [done|by exists f]. }
  apply (view_same x None w _ d b Hi Hi').
  - intros j f Hf Hvf Hdf Hbf. destruct (decide (j = i)) as [->|Hne].
    + right. rewrite He in Hf. injection Hf as <-. split.
      * intros k [Hk (g & Hg & Hvg & Hdg & Hbg)]%Hgone. apply Hk.
        apply (ci_uniq _ _ Hi k i g e); [by split; auto..|congruence|congruence].
      * pose proof (ci_content _ _ Hi i e He Hvf) as Hr. unfold coherent in Hr.
        rewrite (Hc Hvf Hdf Hbf) in Hr. by subst.
    + left. exists f. simpl. by rewrite list_lookup_insert_ne.
  - intros Hno. split; [|done]. by intros j [_ Hj]%Hgone; apply (Hno j).
Qed.

(** [cache_allocate_slot_locked]'s last part: entry [i], not valid, becomes the
    pending entry of sector [b] of [d]. *)
Definition link_entry (i : nat) (d b : Z) (e : cache_entry) w : cache_world D :=
  with_cache (lru_front i (hash_add (cache_hash (bio_id d) b) i
    (set_entry i (CacheEntry d b (data e) false false (ticks w)) (g_cache w)))) w.

Lemma link_entry_inv w i d b e :
  cache_inv None w → entries (g_cache w) !! i = Some e → valid e = false → d ≠ 0 →
  (∀ j, ¬ holds (g_cache w) j d b) → cache_inv (Some i) (link_entry i d b e w).
Proof.
  intros Hi He Hv Hd Hno. pose proof (lru_front_perm None w i Hi (entry_in_range _ _ _ _ Hi He)) as Hperm.
  pose proof (lookup_lt_Some _ _ _ He) as Hlen. revert Hno. destruct Hi as [H1 H2 H3 H4 H5 H6 H7 H8 H9]. intros Hno.
  set (n := CacheEntry d b (data e) false false (ticks w)).
  assert (Hlink : ∀ j f, linked (Some i) (g_cache (link_entry i d b e w)) j f ↔
    (j = i ∧ f = n) ∨ (j ≠ i ∧ linked None (g_cache w) j f)).
  { intros j f. unfold linked. simpl. fold n. destruct (decide (j = i)) as [->|Hne].
    - rewrite list_lookup_insert_eq by done. split; [intros [[= <-] _]; by left|].
      intros [[_ ->]|[? _]]; [|done]. by split; [|right].
    - rewrite list_lookup_insert_ne by done. split.
      + intros [Hf [Hvf|Hvf]]; [|congruence]. right. by split_and!; [| |left].
      + intros [[? _]|(_ & Hf & [Hvf|])]; [done| |done]. by split; [|left]. }
  assert (Hold : ∀ j f, linked None (g_cache w) j f → dev f = d → lba f = b → False).
  { intros j f [Hf [Hvf|]] ? ?; [|done]. apply (Hno j). by exists f. }
  split; simpl; try done.
  - by rewrite length_insert.
  - by rewrite Hperm.
  - by rewrite length_alter.
  - intros k l j Hl. setoid_rewrite Hlink.
    assert (Hold' : ∀ l0, hash_table (g_cache w) !! k = Some l0 →
      j ∈ l0 ↔ ∃ f, (j ≠ i ∧ linked None (g_cache w) j f) ∧ bucket (dev f) (lba f) = k).
    { intros l0 Hl0. rewrite (H5 k l0 j Hl0). split; intros (f & Hf & Hk); exists f; [|by destruct Hf].
      split_and!; try done. intros ->. destruct Hf as [Hf [Hvf|]]; [|done]. congruence. }
    destruct (decide (bucket d b = k)) as [Hk|Hk].
    + change (Z.to_nat (cache_hash (bio_id d) b)) with (bucket d b) in Hl. subst k.
      rewrite list_lookup_alter_eq in Hl. apply fmap_Some in Hl as (l0 & Hl0 & ->).
      rewrite elem_of_cons, (Hold' l0 Hl0). split.
      * intros [->|(f & Hf & Hk)]; [exists n; auto|exists f; auto].
      * intros (f & [[-> ->]|Hf] & Hk); [by left|right; by exists f].
    + change (Z.to_nat (cache_hash (bio_id d) b)) with (bucket d b) in Hl.
      rewrite list_lookup_alter_ne in Hl by done. rewrite (Hold' l Hl). split.
      * intros (f & Hf & Hk'); exists f; auto.
      * intros (f & [[-> ->]|Hf] & Hk'); [by destruct Hk|by exists f].
  - intros j f [[-> ->]|[_ Hf]]%Hlink; [done|by eapply H6].
  - intros j k f g [[-> ->]|[Hj Hf]]%Hlink [[-> ->]|[Hk Hg]]%Hlink E1 E2; [done| | |by eapply H7].
    + by destruct (Hold k g Hg).
    + by destruct (Hold j f Hf).
  - intros j f Hf Hvf. apply list_lookup_insert_Some in Hf as [(-> & <- & _)|[? Hf]]; [done|by eapply H8].
  - intros j f [= <-] Hf. rewrite list_lookup_insert_eq in Hf by done. by injection Hf as <-.
Qed.

Lemma link_entry_view w i d b e d' b' :
  cache_inv None w → entries (g_cache w) !! i = Some e → valid e = false → d ≠ 0 →
  (∀ j, ¬ holds (g_cache w) j d b) → view (link_entry i d b e w) d' b' = view w d' b'.
Proof.
  intros Hi He Hv Hd Hno. pose proof (link_entry_inv w i d b e Hi He Hv Hd Hno) as Hi'.
  apply (view_same None (Some i) w _ d' b' Hi Hi').
  - intros j f Hf Hvf Hdf Hbf. left. exists f. simpl. rewrite list_lookup_insert_ne; [done|congruence].
  - intros Hn. split; [|done]. intros j (f & Hf & Hvf & Hk). simpl in Hf.
    apply list_lookup_insert_Some in Hf as [(-> & <- & _)|[? Hf]]; [done|]. apply (Hn j). by exists f.
Qed.

(** The pending entry gets its data and becomes valid. *)
Lemma commit_inv w i e e' :
  cache_inv (Some i) w → entries (g_cache w) !! i = Some e →
  dev e' = dev e → lba e' = lba e → valid e' = true → coherent (devices w) e' →
  cache_inv None (with_cache (set_entry i e' (g_cache w)) w).
Proof.
  intros [H1 H2 H3 H4 H5 H6 H7 H8 H9] He Ed Eb Hv Hc. pose proof (lookup_lt_Some _ _ _ He) as Hlen.
  assert (Hlink : ∀ j f, linked None (set_entry i e' (g_cache w)) j f →
    ∃ g, linked (Some i) (g_cache w) j g ∧ dev f = dev g ∧ lba f = lba g).
  { intros j f [Hf [Hvf|]]; [|done]. simpl in Hf.
    apply list_lookup_insert_Some in Hf as [(-> & <- & _)|[? Hf]].
    - exists e. split_and!; [split; auto|done|done].
    - exists f. split_and!; [split; auto|done|done]. }
  split; simpl; try done.
  - by rewrite length_insert.
  - intros k l j Hl. rewrite (H5 k l j Hl). split.
    + intros (f & [Hf Hvf] & Hk). destruct (decide (j = i)) as [->|Hne].
      * exists e'. rewrite He in Hf. injection Hf as <-. rewrite Ed, Eb. split; [|done].
        split; [apply list_lookup_insert_eq; done|by left].
      * exists f. split; [|done]. split; [simpl; by rewrite list_lookup_insert_ne|].
        destruct Hvf; [by left|congruence].
    + intros (f & Hf & Hk). destruct (Hlink j f Hf) as (g & Hg & E1 & E2). exists g. by rewrite <- E1, <- E2.
  - intros j f Hf. destruct (Hlink j f Hf) as (g & Hg & -> & _). by eapply H6.
  - intros j k f g Hf Hg E1 E2. destruct (Hlink j f Hf) as (f' & Hf' & E3 & E4).
    destruct (Hlink k g Hg) as (g' & Hg' & E5 & E6). apply (H7 j k f' g'); congruence.
  - intros j f Hf Hvf. apply list_lookup_insert_Some in Hf as [(-> & <- & _)|[? Hf]]; [done|by eapply H8].
Qed.

(** A write through an entry that holds the sector, or that is pending for it. *)
Lemma commit_view x w i e e' d b :
  cache_inv x w → x = None ∨ x = Some i → cache_inv None (with_cache (set_entry i e' (g_cache w)) w) →
  entries (g_cache w) !! i = Some e → (valid e = true ∨ x = Some i) →
  dev e' = dev e → lba e' = lba e → valid e' = true →
  view (with_cache (set_entry i e' (g_cache w)) w) d b
  = if bool_decide (d = dev e ∧ b = lba e) then Some (data e') else view w d b.
Proof.
  intros Hi Hx Hi' He Hl Ed Eb Hv. pose proof (lookup_lt_Some _ _ _ He) as Hlen.
  case_bool_decide as Hk.
  - destruct Hk as [-> ->]. rewrite <- Ed, <- Eb. apply (view_cached None _ i); simpl; [done| |done].
    by apply list_lookup_insert_eq.
  - apply (view_same x None w _ d b Hi Hi'); simpl.
    + intros j f Hf Hvf Hdf Hbf. left. exists f. rewrite list_lookup_insert_ne; [done|].
      intros <-. apply Hk. rewrite He in Hf. injection Hf as <-. done.
    + intros Hn. split; [|done]. intros j (f & Hf & Hvf & Hdf & Hbf). simpl in Hf.
      apply list_lookup_insert_Some in Hf as [(-> & <- & _)|[? Hf]]; [apply Hk; split; congruence|].
      apply (Hn j). by exists f.
Qed.

(** ** Allocation of a slot *)

(** The device never refuses a write to the sector, if it is one of its sectors
    (only those are ever dirty). *)
Definition safe (d b : Z) : Prop := sector d b → ∀ x s, (bio_write d b x s).1 = true.

(** No device refuses a write to one of its sectors. *)
Definition reliable : Prop := ∀ d b, safe d b.

(** An entry about to be dropped is written back first, if it is dirty; the
    write-back may fail. *)
Lemma flush_clean w i e :
  cache_inv None w → entries (g_cache w) !! i = Some e → valid e = true →
  ∃ w1 e1, (if dirty e then (cache_flush_entry_locked i w).2 else w) = w1 ∧ cache_inv None w1 ∧
    (∀ d b, view w1 d b = view w d b) ∧ entries (g_cache w1) !! i = Some e1 ∧
    (safe (dev e1) (lba e1) → dirty e1 = false) ∧
    ∀ j, j ≠ i → entries (g_cache w1) !! j = entries (g_cache w) !! j.
Proof.
  intros Hi He Hv. destruct (dirty e) eqn:Ed; [|by exists w, e].
  destruct (cache_flush_entry_locked i w) as [ok w1] eqn:Ef.
  destruct (cache_flush_entry_cases None w i ok w1 Hi Ef) as (Hi1 & Hv1 & _ & Ho & Hok).
  specialize (Hok e He Hv). destruct ok; [by exists w1, (clean e)|].
  destruct Hok as (_ & Hw & Eg). pose proof (ci_content _ _ Hi i e He Hv) as Hc.
  unfold coherent in Hc. rewrite Ed in Hc. exists w1, e. rewrite Eg. split_and!; try done.
  intros Hs. by rewrite (Hs Hc) in Hw.
Qed.

Lemma evict_cases w i e :
  cache_inv None w → entries (g_cache w) !! i = Some e → valid e = true →
  cache_inv None (evict i w) ∧ (∀ d b, safe d b → view (evict i w) d b = view w d b) ∧
  (∃ e', entries (g_cache (evict i w)) !! i = Some e' ∧ valid e' = false) ∧
  ∀ j, j ≠ i → entries (g_cache (evict i w)) !! j = entries (g_cache w) !! j.
Proof.
  intros Hi He Hv. unfold evict. rewrite He.
  destruct (flush_clean w i e Hi He Hv) as (w1 & e1 & -> & Hi1 & Hv1 & He1 & Hd1 & Ho1).
  cbn [g_cache with_cache entries hash_del]. rewrite He1.
  pose proof (drop_entry_inv None w1 i e1 (invalidate_entry e1) Hi1 (or_introl eq_refl) He1 eq_refl) as Hi2.
  destruct (stats_inv None _ (bump (stats (g_cache (drop_entry i (invalidate_entry e1) w1))) 0 0 0 0 0 1) Hi2)
    as [Hi3 Hv3].
  split_and!; [exact Hi3| | |].
  - intros d b Hs. etransitivity; [apply (Hv3 d b)|]. rewrite <- Hv1.
    apply (drop_entry_view None w1 i e1); auto. intros _ <- <-. by apply Hd1.
  - exists (invalidate_entry e1). simpl. split; [|done]. apply list_lookup_insert_eq. by eapply lookup_lt_Some.
  - intros j Hne. simpl. by rewrite list_lookup_insert_ne, Ho1.
Qed.

Lemma find_invalid_Some c l i :
  find_invalid l c = Some i → ∃ e, entries c !! i = Some e ∧ valid e = false.
Proof.
  induction l as [|j l IH]; simpl; [done|]. destruct (entries c !! j) as [e|] eqn:E; [|done].
  destruct (valid e) eqn:Ev; simpl; [done|]. intros [= <-]. by exists e.
Qed.

Lemma find_invalid_None c l i e :
  find_invalid l c = None → i ∈ l → entries c !! i = Some e → valid e = true.
Proof.
  induction l as [|j l IH]; simpl; [by intros _ ?%not_elem_of_nil|].
  intros Hf [->|Hi]%elem_of_cons He.
  - rewrite He in Hf. by destruct (valid e).
  - destruct (entries c !! j) as [f|]; [destruct (valid f)|]; simpl in Hf; [by apply IH|done|by apply IH].
Qed.

Lemma lru_last w : cache_inv None w → ∃ i, last (lru_list (g_cache w)) = Some i ∧ i ∈ lru_list (g_cache w).
Proof.
  intros Hi. destruct (last (lru_list (g_cache w))) as [i|] eqn:El.
  - exists i. split; [done|]. by apply last_Some_elem_of.
  - apply last_None in El. pose proof (ci_lru _ _ Hi) as Hp. rewrite El in Hp.
    by apply Permutation_nil_l in Hp.
Qed.

(** A slot is always found, holds the new key, and no data is lost but that of a
    sector whose device refuses it. *)
Lemma cache_allocate_slot_cases d b w :
  cache_inv None w → d ≠ 0 → (∀ j, ¬ holds (g_cache w) j d b) →
  ∃ i e w', cache_allocate_slot_locked d b w = (Some i, w') ∧ cache_inv (Some i) w' ∧
    (∀ d' b', safe d' b' → view w' d' b' = view w d' b') ∧ entries (g_cache w') !! i = Some e ∧ dev e = d ∧ lba e = b ∧
    dirty e = false.
Proof.
  intros Hi Hd Hno. unfold cache_allocate_slot_locked.
  assert (∃ i e w1, match find_invalid (reverse (lru_list (g_cache w))) (g_cache w) with
    | Some i => (Some i, w)
    | None => match last (lru_list (g_cache w)) with Some i => (Some i, evict i w) | None => (None, w) end
    end = (Some i, w1) ∧ cache_inv None w1 ∧ (∀ d' b', safe d' b' → view w1 d' b' = view w d' b') ∧
    entries (g_cache w1) !! i = Some e ∧ valid e = false ∧ (∀ j, ¬ holds (g_cache w1) j d b))
    as (i & e & w1 & -> & Hi1 & Hv1 & He & Hv & Hno1).
  { destruct (find_invalid _ _) as [i|] eqn:Ef.
    - destruct (find_invalid_Some _ _ _ Ef) as (e & He & Hv). by exists i, e, w.
    - destruct (lru_last w Hi) as (i & -> & Hin).
      assert (i < length (entries (g_cache w)))%nat as [e He]%lookup_lt_is_Some_2.
      { rewrite (ci_lru _ _ Hi), elem_of_seq in Hin. rewrite (ci_size _ _ Hi). lia. }
      assert (valid e = true) as Hv by (by apply (find_invalid_None _ _ i e Ef); [apply elem_of_reverse|]).
      destruct (evict_cases w i e Hi He Hv) as (Hi1 & Hv1 & (e' & He' & Hv') & Ho).
      exists i, e', (evict i w). split_and!; try done. intros j (f & Hf & Hvf & Hk).
      destruct (decide (j = i)) as [->|Hne]; [congruence|]. rewrite Ho in Hf by done.
      apply (Hno j). by exists f. }
  rewrite He. fold (link_entry i d b e w1).
  eexists i, _, _. split; [done|]. split; [by apply link_entry_inv|].
  split; [intros d' b' Hs; rewrite <- Hv1 by done; by apply link_entry_view|].
  simpl. rewrite list_lookup_insert_eq by (by eapply lookup_lt_Some). by split_and!.
Qed.

(** ** One sector *)

Lemma cache_touch_inv w i :
  cache_inv None w → cache_inv None (cache_touch_locked i w) ∧
  ∀ d b, view (cache_touch_locked i w) d b = view w d b.
Proof.
  intros Hi. unfold cache_touch_locked. destruct (entries (g_cache w) !! i) as [e|] eqn:He; [|done].
  assert (cache_inv None (with_cache (lru_front i (set_entry i (touch_entry (ticks w) e) (g_cache w))) w)) as Hi'.
  { apply (cache_inv_rekey None w _ Hi); simpl; try done.
    - by apply (lru_front_perm None), (entry_in_range None w i e).
    - by rewrite length_insert.
    - by apply (set_entry_same i e).
    - intros j f Hf Hvf. apply list_lookup_insert_Some in Hf as [(-> & <- & _)|[_ Hf]].
      + by apply (ci_content _ _ Hi j e He).
      + by apply (ci_content _ _ Hi j f Hf). }
  split; [done|]. intros d b. apply (view_same None None w _ d b Hi Hi'); simpl.
  - intros j f Hf Hvf Hdf Hbf. left. destruct (decide (i = j)) as [<-|Hne].
    + rewrite list_lookup_insert_eq by (by eapply lookup_lt_Some). rewrite He in Hf. injection Hf as <-.
      by exists (touch_entry (ticks w) e).
    + rewrite list_lookup_insert_ne by done. by exists f.
  - intros Hno. split; [|done]. intros j (f & Hf & Hvf & Hdf & Hbf). apply (Hno j).
    destruct (set_entry_same i e (g_cache w) He (touch_entry (ticks w) e) (conj eq_refl (conj eq_refl eq_refl)) j f Hf)
      as (g & Hg & E1 & E2 & E3). exists g. split_and!; congruence.
Qed.

Lemma cache_read_one_cases d b w r w' :
  cache_inv None w → d ≠ 0 → cache_read_one d b w = (r, w') →
  cache_inv None w' ∧ (∀ d' b', safe d' b' → view w' d' b' = view w d' b') ∧ (safe d b → r = view w d b).
Proof.
  intros Hi Hd. unfold cache_read_one.
  destruct (stats_inv None w (bump (stats (g_cache w)) 0 0 1 0 0 0) Hi) as [Hi1 Hv1].
  set (w1 := with_cache _ w) in *. setoid_rewrite <- Hv1. clearbody w1. clear Hi Hv1 w.
  destruct (cache_lookup_locked d b (g_cache w1)) as [i|] eqn:El.
  - destruct (stats_inv None w1 (bump (stats (g_cache w1)) 1 0 0 0 0 0) Hi1) as [Hi2 Hv2].
    pose proof (proj1 (cache_lookup_Some None w1 d b i Hi1) El) as (e & He & Hv & Hde & Hbe).
    cbn [g_cache with_cache entries set_stats]. rewrite He. intros [= <- <-].
    destruct (cache_touch_inv _ i Hi2) as [Hi3 Hv3]. split_and!; [done| |].
    + intros d' b' _. by rewrite Hv3, Hv2.
    + intros _. subst. symmetry. by apply (view_cached None w1 i).
  - pose proof (proj1 (cache_lookup_None None w1 d b Hi1) El) as Hno.
    destruct (stats_inv None w1 (bump (stats (g_cache w1)) 0 1 0 0 0 0) Hi1) as [Hi2 Hv2].
    assert (∀ j, ¬ holds (g_cache (with_cache (set_stats (bump (stats (g_cache w1)) 0 1 0 0 0 0) (g_cache w1)) w1)) j d b) as Hno2
      by exact Hno.
    set (w2 := with_cache _ w1) in *. setoid_rewrite <- Hv2. clearbody w2. clear El Hno Hv2 Hi1 w1.
    destruct (cache_allocate_slot_cases d b w2 Hi2 Hd Hno2) as (i & e & w3 & -> & Hi3 & Hv3 & He & Hde & Hbe & _).
    assert (∀ r w', cache_inv None w' ∧ (∀ d' b', view w' d' b' = view w3 d' b') ∧ r = view w3 d b →
      cache_inv None w' ∧ (∀ d' b', safe d' b' → view w' d' b' = view w2 d' b') ∧ (safe d b → r = view w2 d b)) as Hgo.
    { intros r0 w0 (G1 & G2 & G3). split_and!; [done|intros d' b' Hs; by rewrite G2, Hv3|].
      intros Hs. by rewrite G3, Hv3. }
    intros E. apply Hgo. clear Hgo. revert E. clear Hv3 Hi2 Hno2 w2. rewrite He.
    assert (valid e = false) as Hve by by apply (ci_pending _ _ Hi3 i e).
    assert (view w3 d b = bio_read d b (devices w3)) as Hview.
    { apply (view_uncached (Some i)); [done|]. intros j (f & Hf & Hvf & Hdf & Hbf).
      assert (j = i) as ->; [|congruence].
      apply (ci_uniq _ _ Hi3 j i f e); [by split; auto..|congruence|congruence]. }
    destruct (bio_read d b (devices w3)) as [x|] eqn:Er; intros [= <- <-].
    + set (e' := CacheEntry (dev e) (lba e) x true false (last_access e)).
      assert (cache_inv None (with_cache (set_entry i e' (g_cache w3)) w3)) as Hi4.
      { apply (commit_inv w3 i e); try done. unfold coherent. simpl. by subst. }
      split_and!; [done| |done]. intros d' b'.
      rewrite (commit_view (Some i) w3 i e e' d' b' Hi3 (or_intror eq_refl) Hi4 He (or_intror eq_refl))
        by done. case_bool_decide as Hk; [|done]. destruct Hk as [-> ->]. subst. by rewrite Hview.
    + split_and!; [by apply (drop_entry_inv (Some i) w3 i e (invalidate_entry e) Hi3 (or_intror eq_refl) He)| |done].
      intros d' b'. apply (drop_entry_view (Some i) w3 i e (invalidate_entry e)); try done; [by right|congruence].
Qed.

(** Overwriting an entry that is valid or pending with dirty data. *)
Lemma dirty_inv x w i e y t :
  cache_inv x w → x = None ∨ x = Some i → entries (g_cache w) !! i = Some e → valid e = true ∨ x = Some i →
  sector (dev e) (lba e) →
  let w' := with_cache (set_entry i (CacheEntry (dev e) (lba e) y true true t) (g_cache w)) w in
  cache_inv None w' ∧
  ∀ d b, view w' d b = if bool_decide (d = dev e ∧ b = lba e) then Some y else view w d b.
Proof.
  intros Hi Hx He Hv Hs w'.
  assert (cache_inv None w') as Hi'; [|split; [done|]].
  - destruct Hx as [->| ->]; [|by apply (commit_inv w i e)]. destruct Hv as [Hv|]; [|done].
    apply (cache_inv_rekey None w _ Hi); simpl; try done.
    + by rewrite length_insert.
    + apply (set_entry_same i e); [done|]. by split_and!.
    + intros j f Hf Hvf. apply list_lookup_insert_Some in Hf as [(-> & <- & _)|[_ Hf]]; [done|].
      by apply (ci_content _ _ Hi j f Hf).
  - intros d b. unfold w' in *. by rewrite (commit_view x w i e _ d b Hi Hx Hi' He Hv).
Qed.

Lemma cache_write_one_cases d b y w ok w' :
  cache_inv None w → d ≠ 0 → sector d b → cache_write_one d b y w = (ok, w') →
  ok = true ∧ cache_inv None w' ∧ view w' d b = Some y ∧
  ∀ d' b', safe d' b' → view w' d' b' = if bool_decide (d' = d ∧ b' = b) then Some y else view w d' b'.
Proof.
  intros Hi Hd Hs. unfold cache_write_one.
  destruct (stats_inv None w (bump (stats (g_cache w)) 0 0 0 1 0 0) Hi) as [Hi1 Hv1].
  set (w1 := with_cache _ w) in *. setoid_rewrite <- Hv1. clearbody w1. clear Hi Hv1 w.
  destruct (cache_lookup_locked d b (g_cache w1)) as [i|] eqn:El.
  - pose proof (proj1 (cache_lookup_Some None w1 d b i Hi1) El) as (e & He & Hv & Hde & Hbe).
    rewrite He, Hv. intros [= <- <-]. split; [done|].
    rewrite <- Hde, <- Hbe in Hs |- *.
    destruct (dirty_inv None w1 i e y (last_access e) Hi1 (or_introl eq_refl) He (or_introl Hv) Hs) as [Hi2 Hv2].
    destruct (cache_touch_inv _ i Hi2) as [Hi3 Hv3]. split; [done|].
    split; [by rewrite Hv3, Hv2, bool_decide_true|]. intros d' b' _. by rewrite Hv3, Hv2.
  - pose proof (proj1 (cache_lookup_None None w1 d b Hi1) El) as Hno.
    destruct (cache_allocate_slot_cases d b w1 Hi1 Hd Hno) as (i & e & w2 & -> & Hi2 & Hv2 & He & Hde & Hbe & Hc).
    assert (∀ ok w', ok = true ∧ cache_inv None w' ∧
        (∀ d' b', view w' d' b' = if bool_decide (d' = d ∧ b' = b) then Some y else view w2 d' b') →
      ok = true ∧ cache_inv None w' ∧ view w' d b = Some y ∧
      ∀ d' b', safe d' b' → view w' d' b' = if bool_decide (d' = d ∧ b' = b) then Some y else view w1 d' b') as Hgo.
    { intros ok0 w0 (G1 & G2 & G3). split_and!; [done|done|by rewrite G3, bool_decide_true|].
      intros d' b' Hsf. rewrite G3. case_bool_decide; [done|by apply Hv2]. }
    intros E. apply Hgo. clear Hgo. revert E. clear Hv2 Hi1 Hno El w1. rewrite He.
    cbn [g_cache with_cache entries set_entry].
    rewrite list_lookup_insert_eq by (by eapply lookup_lt_Some). cbn [dev lba valid last_access data dirty].
    intros [= <- <-]. split; [done|]. rewrite <- Hde, <- Hbe in Hs |- *.
    destruct (dirty_inv (Some i) w2 i e y (last_access e) Hi2 (or_intror eq_refl) He (or_intror eq_refl) Hs)
      as [Hi3 Hv3].
    destruct (cache_touch_inv _ i Hi3) as [Hi4 Hv4].
    unfold set_entry in *. cbn [g_cache with_cache entries] in *. rewrite list_insert_insert_eq.
    split; [done|]. intros d' b'. etransitivity; [apply Hv4|]. apply Hv3.
Qed.

(** ** Runs of sectors *)

Lemma mapM_ext_elem {A B} (f g : A → option B) l : (∀ x, x ∈ l → f x = g x) → mapM f l = mapM g l.
Proof.
  induction l as [|x l IH]; intros Hfg; [done|]. cbn [mapM]. rewrite Hfg, IH; [done| |by left].
  intros y Hy. apply Hfg. by right.
Qed.

Lemma cache_read_loop_cases d b n : ∀ i w r w',
  cache_inv None w → d ≠ 0 → cache_read_loop d b n i w = (r, w') →
  cache_inv None w' ∧ (∀ d' b', safe d' b' → view w' d' b' = view w d' b') ∧
  ((∀ k, i ≤ k < i + Z.of_nat n → safe d (u64 (b + k))) →
   r = mapM (λ k, view w d (u64 (b + k))) (seqZ i (Z.of_nat n))).
Proof.
  induction n as [|n IH]; intros i w r w' Hi Hd.
  { intros [= <- <-]. by split_and!. }
  rewrite seqZ_cons by lia. replace (Z.pred (Z.of_nat (S n))) with (Z.of_nat n) by lia.
  cbn [cache_read_loop]. destruct (cache_read_one d (u64 (b + i)) w) as [r1 w1] eqn:E1.
  destruct (cache_read_one_cases _ _ _ _ _ Hi Hd E1) as (Hi1 & Hv1 & Hr1).
  destruct r1 as [x|].
  2:{ intros [= <- <-]. split_and!; try done. intros Hs. cbn [mapM]. by rewrite <- Hr1 by (apply Hs; lia). }
  destruct (cache_read_loop d b n (i + 1) w1) as [r2 w2] eqn:E2.
  destruct (IH _ _ _ _ Hi1 Hd E2) as (Hi2 & Hv2 & Hr2).
  assert ((∀ k, i ≤ k < i + Z.of_nat (S n) → safe d (u64 (b + k))) →
    mapM (λ k, view w d (u64 (b + k))) (seqZ (Z.succ i) (Z.of_nat n)) = r2) as Em.
  { intros Hs. rewrite Hr2 by (intros k Hk; apply Hs; lia). apply mapM_ext_elem. intros k Hk%elem_of_seqZ.
    rewrite Hv1; [done|]. apply Hs. lia. }
  assert ((∀ k, i ≤ k < i + Z.of_nat (S n) → safe d (u64 (b + k))) → Some x = view w d (u64 (b + i))) as Hx
    by (intros Hs; apply Hr1, Hs; lia).
  destruct r2 as [l|]; intros [= <- <-]; (split_and!; [done|intros; by rewrite Hv2, Hv1|]); intros Hs;
    cbn [mapM]; rewrite <- Hx, (Em Hs) by done; done.
Qed.

Lemma cache_write_loop_cases d b src : ∀ i w ok w',
  cache_inv None w → d ≠ 0 → 0 ≤ b + i → b + i + Z.of_nat (length src) ≤ W64 →
  (∀ k, 0 ≤ k < Z.of_nat (length src) → sector d (b + i + k)) →
  cache_write_loop d b i src w = (ok, w') →
  ok = true ∧ cache_inv None w' ∧
  ∀ d' b', safe d' b' → view w' d' b' =
    if bool_decide (d' = d ∧ b + i ≤ b' < b + i + Z.of_nat (length src)) then src !! Z.to_nat (b' - b - i)
    else view w d' b'.
Proof.
  induction src as [|y src IH]; intros i w ok w' Hi Hd H0 Hb Hs.
  { intros [= <- <-]. split_and!; try done. intros d' b' _. rewrite bool_decide_false; [done|]. simpl. lia. }
  cbn [cache_write_loop]. rewrite length_cons in Hb, Hs |- *.
  assert (u64 (b + i) = b + i) as -> by (apply u64_small; split; lia).
  destruct (cache_write_one d (b + i) y w) as [ok1 w1] eqn:E1.
  destruct (cache_write_one_cases _ _ _ _ _ _ Hi Hd (eq_ind _ (sector d) (Hs 0 ltac:(lia)) _ (Z.add_0_r _)) E1)
    as (-> & Hi1 & _ & Hv1).
  intros E2. destruct (IH (i + 1) w1 ok w' Hi1 Hd) as (-> & Hi2 & Hv2); [lia|lia| |done|].
  { intros k Hk. replace (b + (i + 1) + k) with (b + i + (k + 1)) by lia. apply Hs. lia. }
  split_and!; [done|done|]. intros d' b' Hsf. rewrite Hv2, Hv1 by done.
  destruct (decide (d' = d)) as [->|]; [|rewrite !bool_decide_false; tauto].
  destruct (decide (b' = b + i)) as [->|Hne].
  - rewrite bool_decide_false, !bool_decide_true by ((split; [done|lia]) || lia).
    replace (Z.to_nat (b + i - b - i)) with 0%nat by lia. done.
  - rewrite (bool_decide_false (d = d ∧ b' = b + i)) by tauto.
    case_bool_decide; case_bool_decide; try lia; [|done].
    replace (Z.to_nat (b' - b - i)) with (S (Z.to_nat (b' - b - (i + 1)))) by lia. done.
Qed.

(** ** Write-back of all the entries *)

Lemma flush_loop_cases d n : ∀ i all_ok w ok w',
  cache_inv None w → flush_loop d n i all_ok w = (ok, w') →
  cache_inv None w' ∧ (∀ d' b', view w' d' b' = view w d' b') ∧
  (∀ j, (j < i)%nat → entries (g_cache w') !! j = entries (g_cache w) !! j) ∧
  (ok = true → all_ok = true ∧
     ∀ j e, (i ≤ j < i + n)%nat → entries (g_cache w') !! j = Some e → valid e = true →
       d = 0 ∨ dev e = d → dirty e = false) ∧
  (reliable → ok = all_ok).
Proof.
  induction n as [|n IH]; intros i all_ok w ok w' Hi; cbn [flush_loop].
  { intros [= <- <-]. split_and!; try done. intros ->. split; [done|lia]. }
  assert (Hskip : (∀ e, entries (g_cache w) !! i = Some e → valid e && dirty e && ((d =? 0) || (dev e =? d)) = false) →
    flush_loop d n (S i) all_ok w = (ok, w') →
    cache_inv None w' ∧ (∀ d' b', view w' d' b' = view w d' b') ∧
    (∀ j, (j < i)%nat → entries (g_cache w') !! j = entries (g_cache w) !! j) ∧
    (ok = true → all_ok = true ∧
       ∀ j e, (i ≤ j < i + S n)%nat → entries (g_cache w') !! j = Some e → valid e = true →
         d = 0 ∨ dev e = d → dirty e = false) ∧ (reliable → ok = all_ok)).
  { intros Hc Hf. destruct (IH _ _ _ _ _ Hi Hf) as (Hi' & Hv & Ho & Hok & Hr).
    split_and!; try done; [intros j Hj; apply Ho; lia|]. intros Ht. destruct (Hok Ht) as [-> Hcl].
    split; [done|]. intros j e Hj He Hve Hde. destruct (decide (j = i)) as [->|Hne]; [|by apply (Hcl j e); [lia|..]].
    rewrite Ho in He by lia. specialize (Hc e He). rewrite Hve in Hc. destruct (dirty e); [|done].
    simpl in Hc. apply orb_false_elim in Hc as [?%Z.eqb_neq ?%Z.eqb_neq]. tauto. }
  destruct (entries (g_cache w) !! i) as [e|] eqn:He; [|by apply Hskip].
  destruct (valid e && dirty e && _) eqn:Ec; [|apply Hskip; by intros ? [= <-]].
  clear Hskip. apply andb_prop in Ec as [[Hve Hde]%andb_prop _].
  destruct (cache_flush_entry_locked i w) as [ok1 w1] eqn:Ef.
  destruct (cache_flush_entry_cases None w i ok1 w1 Hi Ef) as (Hi1 & Hv1 & _ & Ho1 & Hok1).
  specialize (Hok1 e He Hve). intros Hf.
  destruct (IH _ _ _ _ _ Hi1 Hf) as (Hi' & Hv & Ho & Hok & Hr). split_and!.
  - done.
  - intros. by rewrite Hv, Hv1.
  - intros j Hj. rewrite Ho, Ho1 by lia. done.
  - intros Ht. destruct (Hok Ht) as [Ha Hcl]. destruct ok1; [|done]. split; [done|].
    intros j f Hj Hf' Hvf Hdf. destruct (decide (j = i)) as [->|Hne]; [|by apply (Hcl j f); [lia|..]].
    rewrite Ho, Hok1 in Hf' by lia. by injection Hf' as <-.
  - intros Hrel. rewrite (Hr Hrel). destruct ok1; [done|]. destruct Hok1 as (_ & Hw & _).
    pose proof (ci_content _ _ Hi i e He Hve) as Hc. unfold coherent in Hc. rewrite Hde in Hc.
    by rewrite (Hrel _ _ Hc) in Hw.
Qed.

Lemma invalidate_loop_cases d n : ∀ i w,
  reliable → cache_inv None w → d ≠ 0 →
  let w' := invalidate_loop d n i w in
  cache_inv None w' ∧ (∀ d' b', view w' d' b' = view w d' b') ∧
  (∀ j, (j < i)%nat → entries (g_cache w') !! j = entries (g_cache w) !! j) ∧
  (∀ j e, (i ≤ j < i + n)%nat → entries (g_cache w') !! j = Some e → valid e = true → dev e ≠ d).
Proof.
  induction n as [|n IH]; intros i w Hr Hi Hd; cbn [invalidate_loop].
  { split_and!; try done. lia. }
  match goal with |- context [invalidate_loop d n (S i) ?x] => set (w1 := x) end.
  assert (cache_inv None w1 ∧ (∀ d' b', view w1 d' b' = view w d' b') ∧
    (∀ j, j ≠ i → entries (g_cache w1) !! j = entries (g_cache w) !! j) ∧
    (∀ e, entries (g_cache w1) !! i = Some e → valid e = true → dev e ≠ d)) as (Hi1 & Hv1 & Ho1 & Hg1).
  { unfold w1. clear w1 IH. destruct (entries (g_cache w) !! i) as [e|] eqn:He.
    2:{ split_and!; try done. by rewrite He. }
    destruct (valid e && (dev e =? d)) eqn:Ec.
    2:{ split_and!; try done. rewrite He. intros ? [= <-] Hve. rewrite Hve in Ec. by apply Z.eqb_neq. }
    apply andb_prop in Ec as [Hve _].
    destruct (flush_clean w i e Hi He Hve) as (w1 & e1 & -> & Hi1 & Hv1 & He1 & Hd1 & Ho1).
    specialize (Hd1 (Hr _ _)).
    cbn [entries hash_del]. rewrite He1. fold (drop_entry i (dropped_entry e1) w1). split_and!.
    - by apply (drop_entry_inv None w1 i e1); auto.
    - intros d' b'. rewrite <- Hv1. apply (drop_entry_view None w1 i e1); auto.
    - intros j Hne. simpl. rewrite list_lookup_insert_ne by done. by apply Ho1.
    - simpl. rewrite list_lookup_insert_eq by (by eapply lookup_lt_Some). by intros ? [= <-]. }
  clearbody w1. destruct (IH (S i) w1 Hr Hi1 Hd) as (Hi' & Hv & Ho & Hg). split_and!.
  - done.
  - intros. by rewrite Hv, Hv1.
  - intros j Hj. rewrite Ho, Ho1 by lia. done.
  - intros j e Hj He Hve. destruct (decide (j = i)) as [->|Hne]; [|by apply (Hg j e); [lia|..]].
    rewrite Ho in He by lia. by apply Hg1.
Qed.

(** ** The empty cache *)

Lemma block_cache_init_inv w :
  length (entries (g_cache w)) = BLOCK_CACHE_CAPACITY →
  let w' := (block_cache_init w).2 in
  cache_inv None w' ∧ ∀ d b, view w' d b = bio_read d b (devices w).
Proof.
  intros Hn w'.
  assert (Hinv : ∀ i e, entries (g_cache w') !! i = Some e → valid e = false).
  { intros i e He. simpl in He. by apply list_lookup_fmap_Some_1 in He as (f & -> & _). }
  assert (Hlink : ∀ i e, ¬ linked None (g_cache w') i e).
  { intros i e [He [Hv|]]; [|done]. by rewrite (Hinv i e He) in Hv. }
  assert (cache_inv None w') as Hi; [|split; [done|]].
  - split; try done.
    + simpl. by rewrite length_fmap.
    + intros k l i Hl. unfold w' in Hl. cbn [block_cache_init snd with_cache g_cache hash_table] in Hl.
      apply lookup_replicate in Hl as [-> _]. split.
      * by intros ?%not_elem_of_nil.
      * by intros (e & ?%Hlink & _).
    + intros i e Hl. by destruct (Hlink i e).
    + intros i j e f Hl. by destruct (Hlink i e).
    + intros i e He Hv. by rewrite (Hinv i e He) in Hv.
  - intros d b. change (devices w) with (devices w'). apply (view_uncached None); [done|].
    intros i (e & He & Hv & _). by rewrite (Hinv i e He) in Hv.
Qed.

(** ** Whole flushes *)

Lemma flush_device_cases d w ok w' :
  cache_inv None w → block_cache_flush_device d w = (ok, w') →
  cache_inv None w' ∧ (∀ d' b', view w' d' b' = view w d' b') ∧
  (ok = true → ∀ d' b', d = 0 ∨ d' = d → bio_read d' b' (devices w') = view w d' b') ∧
  (reliable → ok = true).
Proof.
  intros Hi. unfold block_cache_flush_device. rewrite (ci_init _ _ Hi). cbn [negb].
  destruct (flush_loop d BLOCK_CACHE_CAPACITY 0 true w) as [ok1 w1] eqn:Ef.
  destruct (flush_loop_cases d BLOCK_CACHE_CAPACITY 0 true w ok1 w1 Hi Ef) as (Hi1 & Hv1 & _ & Hok & Hrel). clear Ef.
  assert (Hdur : ok1 = true → ∀ d' b', d = 0 ∨ d' = d → bio_read d' b' (devices w1) = view w d' b').
  { intros Ht d' b' Hd'. destruct (Hok Ht) as [_ Hcl]. rewrite <- Hv1.
    destruct (view_cases None w1 d' b' Hi1) as [(i & e & He & Hve & <- & <- & ->)|[_ ->]]; [|done].
    pose proof (ci_content _ _ Hi1 i e He Hve) as Hc. unfold coherent in Hc. rewrite (Hcl i e) in Hc; try done.
    pose proof (entry_in_range _ _ _ _ Hi1 He). lia. }
  destruct (Z.eqb_spec d 0); cbn [negb]; intros [= <- <-]; [by split_and!|].
  assert (cache_inv None (with_devices (bio_flush d (devices w1)) w1)) as Hi2.
  { apply (cache_inv_rekey None w1 _ Hi1); simpl; try done; [intros j f Hf; by exists f|].
    intros j f Hf Hvf. pose proof (ci_content _ _ Hi1 j f Hf Hvf) as Hc. unfold coherent in *.
    destruct (dirty f); [done|]. by rewrite bio_flush_spec. }
  split_and!; [done| |intros; simpl; rewrite bio_flush_spec; by apply Hdur|done].
  intros d' b'. rewrite <- Hv1. unfold view. simpl. by rewrite bio_flush_spec.
Qed.

(** ** Properties *)



(** after [block_cache_flush_device], or [block_cache_sync] for all devices,
    reports success, the device itself holds the visible content of every one of
    its sectors; on success or failure nothing visible has changed; and the
    flush does succeed when the device accepts writes to its sectors. *)
Theorem block_cache_flush_device_spec d w ok w' :
  cache_inv None w → block_cache_flush_device d w = (ok, w') →
  cache_inv None w' ∧ (∀ d' b', view w' d' b' = view w d' b') ∧
  (ok = true → ∀ d' b', d = 0 ∨ d' = d → bio_read d' b' (devices w') = view w d' b') ∧
  (reliable → ok = true).
Proof. intros Hi E. destruct (flush_device_cases d w ok w' Hi E) as (? & ? & ? & ?). by split_and!. Qed.

(** [block_cache_invalidate_device] writes the dirty sectors of the device
    back and forgets all of them, losing no data: nothing visible changes, no
    valid entry of the device is left, and the device itself holds its visible
    content. *)
Theorem block_cache_invalidate_device_spec d w :
  reliable → cache_inv None w → d ≠ 0 →
  let w' := block_cache_invalidate_device d w in
  cache_inv None w' ∧ (∀ d' b', view w' d' b' = view w d' b') ∧
  (∀ i b, ¬ holds (g_cache w') i d b) ∧ (∀ b, bio_read d b (devices w') = view w d b).
Proof.
  intros Hr Hi Hd w'. unfold w', block_cache_invalidate_device.
  rewrite (ci_init _ _ Hi), (proj2 (Z.eqb_neq d 0) Hd). cbn [negb orb]. clear w'.
  destruct (invalidate_loop_cases d BLOCK_CACHE_CAPACITY 0 w Hr Hi Hd) as (Hi' & Hv & _ & Hg).
  set (w' := invalidate_loop _ _ _ _) in *. clearbody w'.
  assert (Hno : ∀ i b, ¬ holds (g_cache w') i d b).
  { intros i b (e & He & Hve & Hde & _). apply (Hg i e); try done.
    pose proof (entry_in_range _ _ _ _ Hi' He). lia. }
  split_and!; try done. intros b. rewrite <- Hv. symmetry. by apply (view_uncached None).
Qed.

(** The cache over reliable devices is the interface that file systems use. *)
#[refine] Definition cached_sectors (Hr : reliable) : SectorCache (cache_world D) :=
  {| sc_read := block_cache_read; sc_write := block_cache_write; sc_flush := block_cache_flush_device;
     sc_device_read d b w := bio_read d b (devices w);
     sc_ok := cache_inv None; sc_view := view; sc_sector := sector |}.
Proof.
  - intros d b count w Hi Hd Hc. unfold block_cache_read.
    rewrite (ci_init _ _ Hi), (proj2 (Z.eqb_neq d 0) Hd), (proj2 (Z.eqb_neq count 0)) by lia. cbn [negb orb].
    destruct (cache_read_loop d b (Z.to_nat count) 0 w) as [r w'] eqn:E.
    replace (seqZ 0 count) with (seqZ 0 (Z.of_nat (Z.to_nat count))) by (f_equal; lia).
    destruct (cache_read_loop_cases d b (Z.to_nat count) 0 w r w' Hi Hd E) as (H1 & H2 & H3).
    split_and!; [done|intros d' b'; by apply H2, Hr|]. apply H3. intros k _. apply Hr.
  - intros d b src w Hi Hd Hn Hb Hw Hs. unfold block_cache_write.
    rewrite (ci_init _ _ Hi), (proj2 (Z.eqb_neq d 0) Hd), (proj2 (Z.eqb_neq _ 0))
      by (destruct src; [done|]; cbn [length]; lia). cbn [negb orb].
    destruct (cache_write_loop d b 0 src w) as [ok w'] eqn:E.
    destruct (cache_write_loop_cases d b src 0 w ok w' Hi Hd) as (-> & Hi' & Hv); [lia|lia| |done|].
    { intros k Hk. apply Hs. lia. }
    split_and!; [done|done|]. intros d' b'. rewrite Hv by apply Hr.
    by replace (b + 0) with b by lia; replace (b' - b - 0) with (b' - b) by lia.
  - intros d w Hi. destruct (block_cache_flush_device d w) as [ok w'] eqn:E. by destruct (flush_device_cases d w ok w' Hi E) as (? & ? & _).
Defined.

End cache.

(** ** A disk *)

(** Sectors of one number, 1000 of them per device; a write beyond them fails. *)
Definition disk : Type := gmap (Z * Z) (list Z).
Definition disk_sector (d b : Z) : Prop := 0 ≤ b < 1000.
Definition disk_read (d b : Z) (s : disk) : option (list Z) :=
  match s !! (d, b) with
  | Some x => Some x
  | None => if (0 <=? b) && (b <? 1000) then Some [0] else None
  end.
Definition disk_write (d b : Z) (x : list Z) (s : disk) : bool * disk :=
  if (0 <=? b) && (b <? 1000) then (true, <[(d, b) := x]> s) else (false, s).

#[refine] Instance disk_io : BlockIO disk :=
  {| bio_id d := d; bio_read := disk_read; bio_write := disk_write; bio_flush _ s := s |}.
Proof.
  - intros d b x s d' b'. unfold disk_write. destruct ((0 <=? b) && (b <? 1000)); [|done].
    unfold disk_read. cbn [andb]. unfold disk in *. case_bool_decide as Hk.
    + destruct Hk as [-> ->]. by rewrite lookup_insert_eq.
    + rewrite lookup_insert_ne; [done|]. intros [= -> ->]. by apply Hk.
  - done.
Defined.

Lemma disk_reliable : reliable disk_sector.
Proof.
  intros d b [H1 H2] x s. simpl. unfold disk_write.
  by rewrite (proj2 (Z.leb_le _ _) H1), (proj2 (Z.ltb_lt _ _) H2).
Qed.

Definition disk_boot : cache_world disk :=
  (block_cache_init (CacheWorld (CacheState (replicate BLOCK_CACHE_CAPACITY empty_entry) [] []
     (CacheStats 0 0 0 0 0 0) false) ∅ 0)).2.

Lemma disk_boot_inv : cache_inv disk_sector None disk_boot.
Proof. apply block_cache_init_inv. reflexivity. Qed.



Lemma block_cache_flush_device_spec_witness : (block_cache_flush_device 1 disk_boot).1 = true.
Proof.
  destruct (block_cache_flush_device 1 disk_boot) as [ok w'] eqn:E.
  apply (block_cache_flush_device_spec disk_sector 1 disk_boot ok w' disk_boot_inv E), disk_reliable.
Defined.

Lemma block_cache_invalidate_device_spec_witness :
  view (block_cache_invalidate_device 1 disk_boot) 1 7 = view disk_boot 1 7.
Proof.
  destruct (block_cache_invalidate_device_spec disk_sector 1 disk_boot disk_reliable disk_boot_inv) as (_ & Hv & _);
    [done|]. apply Hv.
Defined.

(** ** A write that is reported as done and lost

    The device refuses writes to sector 5000: the cache accepts a write to a sector the device does
    not have; the eviction of the entry ignores that the write-back failed, and
    after 512 reads of other sectors, all successful, the data is gone. *)
Definition read_all (n : nat) (w : cache_world disk) : bool * cache_world disk :=
  foldl (λ '(ok, w) k, let '(r, w) := block_cache_read 1 (Z.of_nat k) 1 w in
                       (ok && bool_decide (is_Some r), w)) (true, w) (seq 0 n).

Theorem eviction_loses_dirty_block :
  let '(ok, w) := block_cache_write 1 5000 [[42]] disk_boot in
  let '(all_read, w') := read_all 512 w in
  ok = true ∧ view w 1 5000 = Some [42] ∧ all_read = true ∧ view w' 1 5000 = None.
Proof. vm_compute. done. Qed.
