(* ===== verification/Task.v ===== *)
(** * Scheduler (src/kernel/task.c)

    The task table, the idle task, the sleep queue and the context switch on one
    processor.  A [struct task *] is a [task_ref], an index into [tasks] or the
    idle task; [option] adds NULL.  A task is linked into the sleep queue when it
    is in the list [sleep_queue].  The processor's own state is part of the model:
    the registers that [task_switch] exchanges, CR3 and the kernel stack of the
    TSS, so that [schedule] is a function from the state in which one thread calls
    it to the state in which another one returns from it.  A section under
    [sleep_lock] is bracketed by [preempt_disable] and [preempt_enable] as
    [spinlock_lock_irqsave] and [spinlock_unlock_irqrestore] do. *)

From S2P Require Import Prelude.
From Stdlib Require Import ZArith Lia.
From stdpp Require Import gmap.
#[local] Open Scope Z_scope.

(** ** Data *)

Definition TASK_DEFAULT_QUANTUM : Z := 20.
Definition TASK_MAX_COUNT : nat := 64.
Definition TASK_KERNEL_STACK_SIZE : Z := 4096 * 4.
Definition KOS_RFLAGS_IF : Z := 512.

Record task_context := TaskContext {
  rbx : Z; rbp : Z; r12 : Z; r13 : Z; r14 : Z; r15 : Z; rsp : Z; rip : Z; rflags : Z;
}.

Inductive thread_state :=
  | THREAD_STATE_UNUSED | THREAD_STATE_RUNNABLE | THREAD_STATE_RUNNING | THREAD_STATE_BLOCKED
  | THREAD_STATE_SLEEPING | THREAD_STATE_ZOMBIE | THREAD_STATE_DEAD.

#[export] Instance thread_state_eq_dec : EqDecision thread_state.
Proof. solve_decision. Defined.

(** [tid] also stands for its alias [id]; the list nodes are in the lists. *)
Record task := Task {
  context : task_context;
  entry : Z;
  argument : Z;
  stack : Z;
  stack_size : Z;
  state : thread_state;
  tid : Z;
  process : Z;
  exit_code : Z;
  sleep_target_tick : Z;
  preempt_count : Z;
  reschedule_pending : bool;
  quantum_remaining : Z;
}.

Inductive task_ref := Slot (i : nat) | Idle.

#[export] Instance task_ref_eq_dec : EqDecision task_ref.
Proof. solve_decision. Defined.

Record sched := Sched {
  tasks : list task;
  idle_task : task;
  current_task : option task_ref;
  next_task_id : Z;
  initialized : bool;
  reschedule_requested : bool;
  sleep_queue : list task_ref;
  sleeping_task_count : Z;
  reaper_thread : option task_ref;
  percpu_current : option (option task_ref);  (** [smp_get_current_cpu()->current_task] *)
  pml4_physical : gmap Z Z;                   (** of the processes, by address *)
  cpu : task_context;
  cr3 : Z;
  rsp0 : Z;
}.

(** The addresses the linker gives to the code and stacks named in the source. *)
Record task_layout := TaskLayout {
  task_start_trampoline : Z;
  task_switch_resume : Z;
  idle_task_entry : Z;
  idle_stack : Z;
  kos_boot_stack_top : Z;
}.

(** ** Field updates *)

Definition zero_context : task_context := TaskContext 0 0 0 0 0 0 0 0 0.

Definition set_rflags (f : Z) (c : task_context) : task_context :=
  TaskContext (rbx c) (rbp c) (r12 c) (r13 c) (r14 c) (r15 c) (rsp c) (rip c) f.

Definition set_context (c : task_context) (t : task) : task :=
  Task c (entry t) (argument t) (stack t) (stack_size t) (state t) (tid t) (process t) (exit_code t)
    (sleep_target_tick t) (preempt_count t) (reschedule_pending t) (quantum_remaining t).
Definition set_state (st : thread_state) (t : task) : task :=
  Task (context t) (entry t) (argument t) (stack t) (stack_size t) st (tid t) (process t) (exit_code t)
    (sleep_target_tick t) (preempt_count t) (reschedule_pending t) (quantum_remaining t).
Definition set_target (n : Z) (t : task) : task :=
  Task (context t) (entry t) (argument t) (stack t) (stack_size t) (state t) (tid t) (process t) (exit_code t)
    n (preempt_count t) (reschedule_pending t) (quantum_remaining t).
Definition set_preempt (n : Z) (t : task) : task :=
  Task (context t) (entry t) (argument t) (stack t) (stack_size t) (state t) (tid t) (process t) (exit_code t)
    (sleep_target_tick t) n (reschedule_pending t) (quantum_remaining t).
Definition set_pending (b : bool) (t : task) : task :=
  Task (context t) (entry t) (argument t) (stack t) (stack_size t) (state t) (tid t) (process t) (exit_code t)
    (sleep_target_tick t) (preempt_count t) b (quantum_remaining t).
Definition set_quantum (n : Z) (t : task) : task :=
  Task (context t) (entry t) (argument t) (stack t) (stack_size t) (state t) (tid t) (process t) (exit_code t)
    (sleep_target_tick t) (preempt_count t) (reschedule_pending t) n.

Definition with_tasks (l : list task) (i : task) (s : sched) : sched :=
  Sched l i (current_task s) (next_task_id s) (initialized s) (reschedule_requested s) (sleep_queue s)
    (sleeping_task_count s) (reaper_thread s) (percpu_current s) (pml4_physical s) (cpu s) (cr3 s) (rsp0 s).
Definition with_requested (b : bool) (s : sched) : sched :=
  Sched (tasks s) (idle_task s) (current_task s) (next_task_id s) (initialized s) b (sleep_queue s)
    (sleeping_task_count s) (reaper_thread s) (percpu_current s) (pml4_physical s) (cpu s) (cr3 s) (rsp0 s).
Definition with_queue (q : list task_ref) (n : Z) (s : sched) : sched :=
  Sched (tasks s) (idle_task s) (current_task s) (next_task_id s) (initialized s) (reschedule_requested s) q
    n (reaper_thread s) (percpu_current s) (pml4_physical s) (cpu s) (cr3 s) (rsp0 s).
Definition with_cpu (c : task_context) (s : sched) : sched :=
  Sched (tasks s) (idle_task s) (current_task s) (next_task_id s) (initialized s) (reschedule_requested s)
    (sleep_queue s) (sleeping_task_count s) (reaper_thread s) (percpu_current s) (pml4_physical s) c (cr3 s) (rsp0 s).
Definition with_next_id (n : Z) (s : sched) : sched :=
  Sched (tasks s) (idle_task s) (current_task s) n (initialized s) (reschedule_requested s) (sleep_queue s)
    (sleeping_task_count s) (reaper_thread s) (percpu_current s) (pml4_physical s) (cpu s) (cr3 s) (rsp0 s).
Definition with_cr3 (v : Z) (s : sched) : sched :=
  Sched (tasks s) (idle_task s) (current_task s) (next_task_id s) (initialized s) (reschedule_requested s)
    (sleep_queue s) (sleeping_task_count s) (reaper_thread s) (percpu_current s) (pml4_physical s) (cpu s) v (rsp0 s).
Definition with_rsp0 (v : Z) (s : sched) : sched :=
  Sched (tasks s) (idle_task s) (current_task s) (next_task_id s) (initialized s) (reschedule_requested s)
    (sleep_queue s) (sleeping_task_count s) (reaper_thread s) (percpu_current s) (pml4_physical s) (cpu s) (cr3 s) v.

(** [current_task = next] and, when there is per-CPU data, [cpu->current_task = next]. *)
Definition with_current (r : task_ref) (s : sched) : sched :=
  Sched (tasks s) (idle_task s) (Some r) (next_task_id s) (initialized s) (reschedule_requested s)
    (sleep_queue s) (sleeping_task_count s) (reaper_thread s)
    (match percpu_current s with Some _ => Some (Some r) | None => None end)
    (pml4_physical s) (cpu s) (cr3 s) (rsp0 s).

(** Loads and stores through a task pointer. *)
Definition get (r : task_ref) (s : sched) : option task :=
  match r with Slot i => tasks s !! i | Idle => Some (idle_task s) end.
Definition put (r : task_ref) (t : task) (s : sched) : sched :=
  match r with
  | Slot i => with_tasks (<[i := t]> (tasks s)) (idle_task s) s
  | Idle => with_tasks (tasks s) t s
  end.
Definition modify (r : task_ref) (f : task → task) (s : sched) : sched :=
  match get r s with Some t => put r (f t) s | None => s end.

Definition has_state (r : task_ref) (st : thread_state) (s : sched) : bool :=
  match get r s with Some t => bool_decide (state t = st) | None => false end.

(** [cpu_interrupt_save_disable], [cpu_interrupt_restore], [spinlock_irqs_enabled]. *)
Definition cpu_interrupt_save_disable (s : sched) : Z * sched :=
  (rflags (cpu s), with_cpu (set_rflags (Z.ldiff (rflags (cpu s)) KOS_RFLAGS_IF) (cpu s)) s).
Definition cpu_interrupt_restore (flags : Z) (s : sched) : sched :=
  if negb (Z.land flags KOS_RFLAGS_IF =? 0)
  then with_cpu (set_rflags (Z.lor (rflags (cpu s)) KOS_RFLAGS_IF) (cpu s)) s
  else with_cpu (set_rflags (Z.ldiff (rflags (cpu s)) KOS_RFLAGS_IF) (cpu s)) s.
Definition spinlock_irqs_enabled (s : sched) : bool := negb (Z.land (rflags (cpu s)) KOS_RFLAGS_IF =? 0).

(** ** Sleep queue *)

Definition target_of (s : sched) (r : task_ref) : Z :=
  match get r s with Some t => sleep_target_tick t | None => 0 end.

(** The position of a task with the given target: before the first later one. *)
Fixpoint insert_sorted (target : task_ref → Z) (r : task_ref) (q : list task_ref) : list task_ref :=
  match q with
  | [] => [r]
  | e :: q => if target r <? target e then r :: e :: q else e :: insert_sorted target r q
  end.

Definition sleep_queue_insert_sorted (r : task_ref) (s : sched) : sched :=
  with_queue (insert_sorted (target_of s) r (sleep_queue s)) (u64 (sleeping_task_count s + 1)) s.

(** Unlinks a task that is linked, and counts it. *)
Definition sleep_queue_unlink (r : task_ref) (s : sched) : sched :=
  if bool_decide (r ∈ sleep_queue s) then
    with_queue (filter (λ e, e ≠ r) (sleep_queue s))
      (if sleeping_task_count s >? 0 then sleeping_task_count s - 1 else sleeping_task_count s) s
  else s.

(** ** Choosing and switching *)

Fixpoint find_ready (s : sched) (start : nat) (n : nat) (step : nat) : option task_ref :=
  match n with
  | O => None
  | S n =>
      let candidate := Slot ((start + step) mod TASK_MAX_COUNT) in
      if has_state candidate THREAD_STATE_RUNNABLE s then Some candidate
      else find_ready s start n (S step)
  end.

Definition task_find_next_ready (s : sched) : option task_ref :=
  let start := match current_task s with Some (Slot i) => i | _ => 0%nat end in
  find_ready s start TASK_MAX_COUNT 1.

Section layout.
Context (L : task_layout).

(** The assembly routine: the callee-saved registers, the stack pointer and the
    resume address go to [old], those of [next] and its RFLAGS are loaded. *)
Definition task_switch (old next : task_ref) (s : sched) : sched :=
  let c := cpu s in
  let s := modify old (λ t, set_context
    (TaskContext (rbx c) (rbp c) (r12 c) (r13 c) (r14 c) (r15 c) (rsp c) (task_switch_resume L)
       (rflags (context t))) t) s in
  match get next s with Some t => with_cpu (context t) s | None => s end.

(** The part of [schedule] after the choice. *)
Definition switch_to (next : task_ref) (flags : Z) (s : sched) : sched :=
  let previous := current_task s in
  let s := match previous with
           | Some p => if has_state p THREAD_STATE_RUNNING s
                       then modify p (set_state THREAD_STATE_RUNNABLE) s else s
           | None => s
           end in
  let s := modify next (set_state THREAD_STATE_RUNNING) s in
  let s := modify next (set_quantum TASK_DEFAULT_QUANTUM) s in
  let s := with_current next s in
  match get next s with
  | None => s
  | Some t =>
      let root := get0 (pml4_physical s) (process t) in
      let other := match previous with
                   | None => true
                   | Some p => match get p s with Some pt => negb (process pt =? process t) | None => true end
                   end in
      let s := if negb (process t =? 0) && negb (root =? 0) && other then with_cr3 root s else s in
      let s := if negb (stack t =? 0)
               then with_rsp0 (Z.land (u64 (stack t + stack_size t)) (not64 15)) s
               else with_rsp0 (kos_boot_stack_top L) s in
      match previous with
      | None => s
      | Some p =>
          let s := modify p (λ t, set_context (set_rflags flags (context t)) t) s in
          task_switch p next s
      end
  end.

Definition schedule (s : sched) : sched :=
  if negb (initialized s) then s
  else
    let '(flags, s) := cpu_interrupt_save_disable s in
    let next := task_find_next_ready s in
    let s := with_requested false s in
    match next with
    | None =>
        match current_task s with
        | Some Idle => cpu_interrupt_restore flags s
        | Some (Slot i) =>
            if has_state (Slot i) THREAD_STATE_RUNNING s then cpu_interrupt_restore flags s
            else switch_to Idle flags s
        | None => switch_to Idle flags s
        end
    | Some n =>
        if bool_decide (current_task s = Some n) then cpu_interrupt_restore flags s
        else switch_to n flags s
    end.

Definition task_yield (s : sched) : sched := schedule s.

(** ** Preemption *)

Definition preempt_disable (s : sched) : sched :=
  if negb (initialized s) then s
  else match current_task s with
       | None => s
       | Some c => modify c (λ t, set_preempt (u32 (preempt_count t + 1)) t) s
       end.

Definition preempt_enable (s : sched) : sched :=
  if negb (initialized s) then s
  else match current_task s with
       | None => s
       | Some c =>
           let s := modify c (λ t, if preempt_count t >? 0 then set_preempt (preempt_count t - 1) t else t) s in
           match get c s with
           | None => s
           | Some t =>
               if (preempt_count t =? 0) && spinlock_irqs_enabled s then
                 if reschedule_pending t || reschedule_requested s
                 then schedule (modify c (set_pending false) s) else s
               else s
           end
       end.

Definition get_preempt_count (s : sched) : Z :=
  if negb (initialized s) then 0
  else match current_task s with
       | None => 0
       | Some c => match get c s with Some t => preempt_count t | None => 0 end
       end.

Definition task_sleep_enqueue (r : option task_ref) (target : Z) (s : sched) : sched :=
  match r with
  | None => s
  | Some r =>
      let s := preempt_disable s in
      let s := sleep_queue_unlink r s in
      let s := modify r (set_target target) s in
      let s := sleep_queue_insert_sorted r s in
      preempt_enable s
  end.

Definition task_sleep_dequeue (r : option task_ref) (s : sched) : sched :=
  match r with
  | None => s
  | Some r =>
      let s := preempt_disable s in
      let s := sleep_queue_unlink r s in
      let s := modify r (set_target 0) s in
      preempt_enable s
  end.

Definition task_sleeping_count (s : sched) : Z := sleeping_task_count s.

(** ** Blocking *)

Definition task_block (r : option task_ref) (s : sched) : sched :=
  if negb (initialized s) then s
  else match (match r with None => current_task s | Some _ => r end) with
       | None => s
       | Some r => modify r (set_state THREAD_STATE_BLOCKED) s
       end.

Definition task_unblock (r : option task_ref) (s : sched) : sched :=
  match r with
  | None => s
  | Some r => if has_state r THREAD_STATE_BLOCKED s then modify r (set_state THREAD_STATE_RUNNABLE) s else s
  end.

Definition task_current (s : sched) : option task_ref :=
  if negb (initialized s) then None
  else match percpu_current s with
       | Some (Some r) => Some r
       | _ => current_task s
       end.

Definition task_current_tid (s : sched) : Z :=
  match task_current s with
  | Some r => match get r s with Some t => tid t | None => 1 end
  | None => 1
  end.

Definition task_is_multitasking_active (s : sched) : bool := initialized s.

(** [task_sleep] up to the first [schedule] of its loop, with [timer_get_ticks()]
    and [timer_ms_to_ticks(ms)] as arguments; the busy wait of early boot changes
    no state of the scheduler. *)
Definition task_sleep (ms ticks now : Z) (s : sched) : sched :=
  match current_task s with
  | None => s
  | Some cur =>
      if negb (task_is_multitasking_active s) || negb (spinlock_irqs_enabled s) then s
      else if ms =? 0 then task_yield s
      else
        let ticks_to_sleep := if ticks =? 0 then 1 else ticks in
        let deadline := if u64 (now + ticks_to_sleep) <? now then UINT64_MAX else u64 (now + ticks_to_sleep) in
        let s := preempt_disable s in
        let s := modify cur (set_target deadline) s in
        let s := modify cur (set_state THREAD_STATE_SLEEPING) s in
        let s := sleep_queue_insert_sorted cur s in
        let s := preempt_enable s in
        if bool_decide (current_task s = Some cur) && has_state cur THREAD_STATE_SLEEPING s then schedule s else s
  end.

(** What the sleeper does each time it runs again: leave the loop, or go on. *)
Definition task_sleep_resume (cur : task_ref) (s : sched) : sched :=
  if has_state cur THREAD_STATE_SLEEPING s then schedule s
  else modify cur (set_state THREAD_STATE_RUNNING) s.

(** ** Timer *)

Definition task_ready_count (s : sched) : Z :=
  Z.of_nat (length (filter (λ t, state t = THREAD_STATE_RUNNABLE) (tasks s))).

Definition task_count (s : sched) : Z :=
  Z.of_nat (length (filter (λ t, state t ≠ THREAD_STATE_UNUSED) (tasks s)))
  + (if bool_decide (state (idle_task s) = THREAD_STATE_UNUSED) then 0 else 1).

(** The loop over the sleep queue. *)
Fixpoint wake_expired (now : Z) (n : nat) (woken : bool) (s : sched) : bool * sched :=
  match n, sleep_queue s with
  | S n, r :: q =>
      if now <? target_of s r then (woken, s)
      else
        let s := with_queue q
          (if sleeping_task_count s >? 0 then sleeping_task_count s - 1 else sleeping_task_count s) s in
        let s := modify r (set_state THREAD_STATE_RUNNABLE) s in
        let s := modify r (set_quantum TASK_DEFAULT_QUANTUM) s in
        wake_expired now n true s
  | _, _ => (woken, s)
  end.

(** Requests a reschedule now, or when the current section ends. *)
Definition request_or_defer (now : bool) (c : task_ref) (s : sched) : sched :=
  if now then with_requested true s else modify c (set_pending true) s.

(** The quantum of the running task. *)
Definition tick_quantum (c : task_ref) (s : sched) : sched :=
  if negb (has_state c THREAD_STATE_RUNNING s) then s
  else
    let s := modify c (λ t, if quantum_remaining t >? 0 then set_quantum (quantum_remaining t - 1) t else t) s in
    match get c s with
    | None => s
    | Some t =>
        if quantum_remaining t =? 0 then
          request_or_defer (preempt_count t =? 0) c (modify c (set_quantum TASK_DEFAULT_QUANTUM) s)
        else s
    end.

Definition task_timer_tick (now : Z) (s : sched) : sched :=
  if negb (initialized s) then s
  else
    let '(woken, s) :=
      if sleeping_task_count s >? 0 then wake_expired now (length (sleep_queue s)) false s else (false, s) in
    match current_task s with
    | None => s
    | Some c =>
        let count := match get c s with Some t => preempt_count t | None => 0 end in
        let s := if woken then request_or_defer (bool_decide (c = Idle) || (count =? 0)) c s else s in
        if bool_decide (c = Idle) then
          if task_ready_count s >? 0 then with_requested true s else s
        else tick_quantum c s
    end.

Definition task_reschedule_if_needed (s : sched) : sched :=
  if negb (initialized s) then s
  else match current_task s with
       | None => s
       | Some c =>
           match get c s with
           | None => s
           | Some t =>
               if preempt_count t >? 0 then s
               else
                 let requested := reschedule_requested s in
                 let s := with_requested false s in
                 if requested || reschedule_pending t
                    || (bool_decide (c = Idle) && (task_ready_count s >? 0))
                 then schedule (modify c (set_pending false) s) else s
           end
       end.

Definition task_request_reschedule (s : sched) : sched :=
  let s := with_requested true s in
  match current_task s with
  | None => s
  | Some c => modify c (λ t, if preempt_count t >? 0 then set_pending true t else t) s
  end.

(** ** The task table *)

Fixpoint find_free_slot (l : list task) (i : nat) : option task_ref :=
  match l with
  | [] => None
  | t :: l =>
      if (1 <=? i)%nat && (bool_decide (state t = THREAD_STATE_UNUSED) || bool_decide (state t = THREAD_STATE_DEAD))
      then Some (Slot i) else find_free_slot l (S i)
  end.

Definition task_allocate_slot (s : sched) : option task_ref := find_free_slot (tasks s) 0.

Definition task_free_slot (r : option task_ref) (s : sched) : sched :=
  match r with
  | None | Some (Slot O) | Some Idle => s
  | Some r => modify r (set_state THREAD_STATE_UNUSED) s
  end.

Definition task_next_id (s : sched) : Z * sched :=
  (next_task_id s, with_next_id (u64 (next_task_id s + 1)) s).

(** The table part of [thread_create]: [stk] is what [kmalloc] returned. *)
Definition install_thread (proc ent arg stk : Z) (s : sched) : option task_ref * sched :=
  if ent =? 0 then (None, s)
  else match task_allocate_slot s with
       | None => (None, s)
       | Some r =>
           if stk =? 0 then (None, task_free_slot (Some r) s)
           else
             let stack_top := u64 (Z.land (u64 (stk + TASK_KERNEL_STACK_SIZE)) (not64 15) - 8) in
             let '(id, s) := task_next_id s in
             (Some r, put r (Task (TaskContext 0 0 0 0 0 0 stack_top (task_start_trampoline L) 514) ent arg stk
                TASK_KERNEL_STACK_SIZE THREAD_STATE_RUNNABLE id proc 0 0 0 false TASK_DEFAULT_QUANTUM) s)
       end.

(** [task_release]; [freed] is what [kfree(task->stack)] returned. *)
Definition unused_task : task :=
  Task zero_context 0 0 0 0 THREAD_STATE_UNUSED 0 0 0 0 0 false 0.

Definition task_release (r : option task_ref) (freed : bool) (s : sched) : bool * sched :=
  match r with
  | None | Some Idle => (false, s)
  | Some r =>
      if bool_decide (current_task s = Some r) || has_state r THREAD_STATE_RUNNING s then (false, s)
      else match get r s with
           | None => (false, s)
           | Some t =>
               if negb (stack t =? 0) && negb (stack t =? idle_stack L) && negb freed then (false, s)
               else (true, put r unused_task s)
           end
  end.

(** The two halves of [task_reap_terminated], before and after its [task_yield]. *)
Definition reap_wake (s : sched) : sched :=
  match reaper_thread s with
  | Some r => if has_state r THREAD_STATE_BLOCKED s then task_yield (task_unblock (Some r) s) else s
  | None => s
  end.
Definition reap_sweep (s : sched) : sched :=
  with_tasks (imap (λ i t, if (1 <=? i)%nat && bool_decide (state t = THREAD_STATE_DEAD)
                           then set_state THREAD_STATE_UNUSED t else t) (tasks s)) (idle_task s) s.

(** ** Initialisation *)

Definition cleared_task (t : task) : task :=
  Task (context t) (entry t) (argument t) 0 0 THREAD_STATE_UNUSED (tid t) 0 0 0 0 false TASK_DEFAULT_QUANTUM.

Definition bootstrap_task (id : Z) (t : task) : task :=
  Task (set_rflags 514 (context t)) (entry t) (argument t) 0 16384 THREAD_STATE_RUNNING id (process t)
    (exit_code t) 0 0 false TASK_DEFAULT_QUANTUM.

Definition new_idle_task : task :=
  Task (TaskContext 0 0 0 0 0 0 (u64 (Z.land (u64 (idle_stack L + TASK_KERNEL_STACK_SIZE)) (not64 15) - 8))
          (task_start_trampoline L) 514)
    (idle_task_entry L) 0 (idle_stack L) TASK_KERNEL_STACK_SIZE THREAD_STATE_RUNNABLE 0 0 0 0 0 false
    TASK_DEFAULT_QUANTUM.

(** [task_initialize], up to its call of [process_subsystem_init]. *)
Definition task_initialize (s : sched) : bool * sched :=
  if initialized s then (false, s)
  else
    let l := alter (bootstrap_task (next_task_id s)) 0%nat (cleared_task <$> tasks s) in
    (true, Sched l new_idle_task (Some (Slot 0)) (u64 (next_task_id s + 1)) true (reschedule_requested s)
             [] 0 (reaper_thread s) (percpu_current s) (pml4_physical s) (cpu s) (cr3 s) (rsp0 s)).

End layout.
