(* ===== verification/TaskSpec.v ===== *)
(** * What the scheduler guarantees (src/kernel/task.c)

    One invariant for the task table, the sleep queue and the processor, kept by
    every operation; the choice [schedule] makes; fairness of that choice; and
    the effect of a timer tick. *)

From Stdlib Require Import ZArith Lia Sorted.
From stdpp Require Import gmap.
From S2P Require Import Prelude Task.
#[local] Open Scope Z_scope.

Implicit Types s : sched.
Implicit Types r : task_ref.

(** ** Loads and stores *)

Lemma get_put r t s r' :
  is_Some (get r s) → get r' (put r t s) = if decide (r' = r) then Some t else get r' s.
Proof.
  intros Hr. destruct r as [i|], r' as [j|]; simpl in *.
  - destruct (decide (Slot j = Slot i)) as [[= ->]|Hne].
    + apply list_lookup_insert_eq. by apply lookup_lt_is_Some.
    + apply list_lookup_insert_ne. congruence.
  - done.
  - done.
  - done.
Qed.

Lemma get_modify r f s r' :
  get r' (modify r f s) = if decide (r' = r) then f <$> get r' s else get r' s.
Proof.
  unfold modify. destruct (get r s) as [t|] eqn:E.
  - rewrite get_put by done. destruct (decide (r' = r)) as [->|]; [by rewrite E|done].
  - destruct (decide (r' = r)) as [->|]; [by rewrite E|done].
Qed.

(** A store through a task pointer changes only the table. *)
Lemma modify_fields r f s :
  let s' := modify r f s in
  length (tasks s') = length (tasks s) ∧ current_task s' = current_task s ∧ next_task_id s' = next_task_id s ∧
  initialized s' = initialized s ∧ reschedule_requested s' = reschedule_requested s ∧
  sleep_queue s' = sleep_queue s ∧ sleeping_task_count s' = sleeping_task_count s ∧
  reaper_thread s' = reaper_thread s ∧ percpu_current s' = percpu_current s ∧
  pml4_physical s' = pml4_physical s ∧ cpu s' = cpu s ∧ cr3 s' = cr3 s ∧ rsp0 s' = rsp0 s.
Proof.
  unfold modify. destruct (get r s) as [t|]; [|done].
  destruct r as [i|]; simpl; split_and!; try done. by rewrite length_insert.
Qed.

Ltac fields :=
  repeat match goal with
  | |- context [modify ?r ?f ?s] =>
      let H := fresh in
      pose proof (modify_fields r f s) as H; cbv zeta in H;
      destruct H as (? & ? & ? & ? & ? & ? & ? & ? & ? & ? & ? & ? & ?);
      progress repeat match goal with
        | E : _ (modify r f s) = _ |- _ => rewrite E; clear E
        | E : length (tasks (modify r f s)) = _ |- _ => rewrite E; clear E
        end
  end.

Lemma has_state_true r st s : has_state r st s = true ↔ ∃ t, get r s = Some t ∧ state t = st.
Proof.
  unfold has_state. destruct (get r s) as [t|].
  - rewrite bool_decide_eq_true. split; [intros; by exists t|]. by intros (? & [= <-] & ?).
  - split; [done|]. by intros (? & ? & _).
Qed.

Lemma has_state_false r st s : has_state r st s = false ↔ ∀ t, get r s = Some t → state t ≠ st.
Proof.
  rewrite <- not_true_iff_false, has_state_true. split; [intros H t ? ?; apply H; by exists t|].
  intros H (t & ? & ?). by apply (H t).
Qed.

(** ** Invariant *)

Definition live (st : thread_state) : Prop := st ≠ THREAD_STATE_UNUSED ∧ st ≠ THREAD_STATE_DEAD.

(** The table and the sleep queue when [x] is the only task that may run. *)
Record table_inv (x : task_ref) (s : sched) : Prop := {
  ti_init : initialized s = true;
  ti_size : length (tasks s) = TASK_MAX_COUNT;
  ti_cur : ∃ t, get x s = Some t ∧ live (state t);
  ti_running r t : get r s = Some t → state t = THREAD_STATE_RUNNING → r = x;
  ti_nodup : NoDup (sleep_queue s);
  ti_sorted : StronglySorted (λ a b, target_of s a ≤ target_of s b) (sleep_queue s);
  ti_count : sleeping_task_count s = Z.of_nat (length (sleep_queue s));
  ti_queue r : r ∈ sleep_queue s → ∃ t, get r s = Some t ∧ live (state t);
}.

(** The address space of task [c] is the one loaded. *)
Definition space_ok (c : task_ref) (s : sched) : Prop :=
  ∀ t, get c s = Some t → process t ≠ 0 → get0 (pml4_physical s) (process t) ≠ 0 →
  cr3 s = get0 (pml4_physical s) (process t).

Definition percpu_ok (c : task_ref) (s : sched) : Prop :=
  ∀ x, percpu_current s = Some (Some x) → x = c.

Definition sched_inv (s : sched) : Prop :=
  ∃ c, current_task s = Some c ∧ table_inv c s ∧ percpu_ok c s ∧ space_ok c s.

(** ** Preservation by single stores *)

(** What a store may do to a task: only [x] starts running, a task that is
    queued or that is [x] stays live, and a queued task keeps its deadline. *)
Definition store_ok (x : task_ref) (r : task_ref) (f : task → task) (s : sched) : Prop :=
  ∀ t, get r s = Some t →
    (state (f t) = THREAD_STATE_RUNNING → state t = THREAD_STATE_RUNNING ∨ r = x) ∧
    ((live (state t) → live (state (f t))) ∨ ((r ∉ sleep_queue s) ∧ r ≠ x)) ∧
    (sleep_target_tick (f t) = sleep_target_tick t ∨ r ∉ sleep_queue s).

Lemma target_modify r f s r' :
  target_of (modify r f s) r' =
    match get r' s with
    | Some t => if decide (r' = r) then sleep_target_tick (f t) else sleep_target_tick t
    | None => 0
    end.
Proof.
  unfold target_of. rewrite get_modify. destruct (decide (r' = r)); by destruct (get r' s).
Qed.

Lemma sorted_ext (q : list task_ref) (f g : task_ref → Z) :
  (∀ r, r ∈ q → f r = g r) →
  StronglySorted (λ a b, f a ≤ f b) q → StronglySorted (λ a b, g a ≤ g b) q.
Proof.
  intros Hfg. induction 1 as [|a q Hs IH Hall]; constructor.
  - apply IH. intros r Hr. apply Hfg. by right.
  - rewrite Forall_forall in Hall |- *. intros b Hb. rewrite <- !Hfg by (first [by left|by right]). by apply Hall.
Qed.

Lemma table_inv_modify x r f s : table_inv x s → store_ok x r f s → table_inv x (modify r f s).
Proof.
  intros [H1 H2 H3 H4 H5 H6 H7 H8] Hok.
  assert (Hlive : ∀ y t, get y s = Some t → live (state t) → y ∈ sleep_queue s ∨ y = x →
    ∃ t', get y (modify r f s) = Some t' ∧ live (state t')).
  { intros y t Hy Hl Hq. rewrite get_modify. destruct (decide (y = r)) as [->|]; [|by exists t].
    rewrite Hy. exists (f t). split; [done|]. destruct (Hok t Hy) as (_ & [Hl'|[? ?]] & _); [by apply Hl'|].
    by destruct Hq. }
  split; fields; try done.
  - destruct H3 as (t & Ht & Hl). apply (Hlive x t Ht Hl). by right.
  - intros y t. rewrite get_modify. destruct (decide (y = r)) as [->|]; [|by apply H4].
    intros (t0 & Ht0 & ->)%fmap_Some Hst. destruct (Hok t0 Ht0) as (Hrun & _).
    destruct (Hrun Hst) as [?| ->]; [by apply (H4 r t0)|done].
  - apply (sorted_ext _ (target_of s)); [|done]. intros y Hy. rewrite target_modify. unfold target_of.
    destruct (get y s) as [t|] eqn:E; [|done]. destruct (decide (y = r)) as [->|]; [|done].
    destruct (Hok t E) as (_ & _ & [->|?]); done.
  - intros y Hy. destruct (H8 y Hy) as (t & Ht & Hl). apply (Hlive y t Ht Hl). by left.
Qed.

(** Changes that do not touch the table or the queue. *)
Lemma table_inv_ext x s s' :
  table_inv x s → tasks s' = tasks s → idle_task s' = idle_task s → initialized s' = initialized s →
  sleep_queue s' = sleep_queue s → sleeping_task_count s' = sleeping_task_count s → table_inv x s'.
Proof.
  intros [H1 H2 H3 H4 H5 H6 H7 H8] E1 E2 E3 E4 E5.
  assert (Hget : ∀ r, get r s' = get r s) by (intros [i|]; simpl; by rewrite ?E1, ?E2).
  split; rewrite ?E1, ?E3, ?E4, ?E5; try done.
  - by rewrite Hget.
  - intros r t. rewrite Hget. apply H4.
  - apply (sorted_ext _ (target_of s)); [|done]. intros r _. unfold target_of. by rewrite Hget.
  - intros r. rewrite Hget. apply H8.
Qed.

Lemma sched_inv_ext s s' :
  sched_inv s → tasks s' = tasks s → idle_task s' = idle_task s → initialized s' = initialized s →
  sleep_queue s' = sleep_queue s → sleeping_task_count s' = sleeping_task_count s →
  current_task s' = current_task s → percpu_current s' = percpu_current s →
  pml4_physical s' = pml4_physical s → cr3 s' = cr3 s → sched_inv s'.
Proof.
  intros (c & Hc & Ht & Hp & Hs) E1 E2 E3 E4 E5 E6 E7 E8 E9. exists c. split_and!.
  - by rewrite E6.
  - by apply (table_inv_ext c s).
  - intros x. rewrite E7. apply Hp.
  - intros t. rewrite E8, E9. intros Hg. apply Hs. by destruct c; simpl in *; rewrite <- ?E1, <- ?E2.
Qed.

Lemma sched_inv_modify r f s :
  sched_inv s → (∀ c, current_task s = Some c → store_ok c r f s) →
  (∀ t, process (f t) = process t) ∨ current_task s ≠ Some r → sched_inv (modify r f s).
Proof.
  intros (c & Hc & Ht & Hp & Hs) Hok Hproc. exists c. split_and!; try (fields; done).
  - apply table_inv_modify; [done|by apply Hok].
  - intros x. fields. apply Hp.
  - intros t. fields. rewrite get_modify. destruct (decide (c = r)) as [<-|]; [|apply Hs].
    intros (t0 & Ht0 & ->)%fmap_Some. destruct Hproc as [->|?]; [by apply Hs|done].
Qed.

(** ** The switch *)

Lemma find_ready_Some s start n : ∀ step r,
  find_ready s start n step = Some r →
  ∃ d, (step ≤ d < step + n)%nat ∧ r = Slot ((start + d) mod TASK_MAX_COUNT) ∧
    has_state r THREAD_STATE_RUNNABLE s = true ∧
    ∀ e, (step ≤ e < d)%nat → has_state (Slot ((start + e) mod TASK_MAX_COUNT)) THREAD_STATE_RUNNABLE s = false.
Proof.
  induction n as [|n IH]; intros step r; cbn [find_ready]; [done|]. cbv zeta.
  destruct (has_state (Slot ((start + step) mod TASK_MAX_COUNT)) THREAD_STATE_RUNNABLE s) eqn:E.
  - intros [= <-]. exists step. split_and!; try lia; try done.
  - intros (d & Hd & -> & Hr & Hno)%IH. exists d. split_and!; try lia; try done.
    intros e He. destruct (decide (e = step)) as [->|]; [done|]. apply Hno. lia.
Qed.

Lemma find_ready_None s start n : ∀ step e,
  find_ready s start n step = None → (step ≤ e < step + n)%nat →
  has_state (Slot ((start + e) mod TASK_MAX_COUNT)) THREAD_STATE_RUNNABLE s = false.
Proof.
  induction n as [|n IH]; intros step e; cbn [find_ready]; [lia|]. cbv zeta.
  destruct (has_state (Slot ((start + step) mod TASK_MAX_COUNT)) THREAD_STATE_RUNNABLE s) eqn:E; [done|].
  intros Hf He. destruct (decide (e = step)) as [->|]; [done|]. apply (IH (S step)); [done|lia].
Qed.

Section switch.
Context (L : task_layout).

(** The registers a thread gives up, with the RFLAGS it had before. *)
Definition saved_context (c : task_context) (flags : Z) : task_context :=
  TaskContext (rbx c) (rbp c) (r12 c) (r13 c) (r14 c) (r15 c) (rsp c) (task_switch_resume L) flags.

Definition switched_in (t : task) : task := set_quantum TASK_DEFAULT_QUANTUM (set_state THREAD_STATE_RUNNING t).

Definition switched_out (c : task_context) (flags : Z) (t : task) : task :=
  set_context (saved_context c flags)
    (if bool_decide (state t = THREAD_STATE_RUNNING) then set_state THREAD_STATE_RUNNABLE t else t).

(** The kernel stack of a task, for the TSS. *)
Definition kernel_stack (t : task) : Z :=
  if negb (stack t =? 0) then Z.land (u64 (stack t + stack_size t)) (not64 15) else kos_boot_stack_top L.

Lemma switch_to_cases p next flags s tp tn :
  current_task s = Some p → p ≠ next → get p s = Some tp → get next s = Some tn →
  let s' := switch_to L next flags s in
  (∀ r, get r s' = if decide (r = next) then Some (switched_in tn)
                   else if decide (r = p) then Some (switched_out (cpu s) flags tp) else get r s) ∧
  length (tasks s') = length (tasks s) ∧ current_task s' = Some next ∧ next_task_id s' = next_task_id s ∧
  initialized s' = initialized s ∧ reschedule_requested s' = reschedule_requested s ∧
  sleep_queue s' = sleep_queue s ∧ sleeping_task_count s' = sleeping_task_count s ∧
  percpu_current s' = match percpu_current s with Some _ => Some (Some next) | None => None end ∧
  pml4_physical s' = pml4_physical s ∧ cpu s' = context tn ∧ rsp0 s' = kernel_stack tn ∧
  cr3 s' = (let root := get0 (pml4_physical s) (process tn) in
            if negb (process tn =? 0) && negb (root =? 0) && negb (process tp =? process tn) then root else cr3 s).
Proof.
  intros Hc Hne Hp Hn. unfold switch_to. rewrite Hc.
  set (s1 := if has_state p THREAD_STATE_RUNNING s then _ else s).
  assert (H1 : (∀ r, get r s1 = if decide (r = p)
             then Some (if bool_decide (state tp = THREAD_STATE_RUNNING) then set_state THREAD_STATE_RUNNABLE tp else tp)
             else get r s) ∧
    length (tasks s1) = length (tasks s) ∧ current_task s1 = current_task s ∧ next_task_id s1 = next_task_id s ∧
    initialized s1 = initialized s ∧ reschedule_requested s1 = reschedule_requested s ∧
    sleep_queue s1 = sleep_queue s ∧ sleeping_task_count s1 = sleeping_task_count s ∧
    percpu_current s1 = percpu_current s ∧
    pml4_physical s1 = pml4_physical s ∧ cpu s1 = cpu s ∧ cr3 s1 = cr3 s ∧ rsp0 s1 = rsp0 s).
  { unfold s1, has_state. rewrite Hp. case_bool_decide.
    - split; [|fields; done]. intros r. rewrite get_modify. destruct (decide (r = p)) as [->|]; [by rewrite Hp|done].
    - split; [|done]. intros r. by destruct (decide (r = p)) as [->|]. }
  clearbody s1. destruct H1 as (Hg1 & E1 & E2 & E3 & E4 & E5 & E6 & E7 & E8 & E9 & E10 & E11 & E12).
  set (s2 := with_current next _).
  assert (H2 : (∀ r, get r s2 = if decide (r = next) then Some (switched_in tn) else get r s1) ∧
    length (tasks s2) = length (tasks s) ∧ current_task s2 = Some next ∧ next_task_id s2 = next_task_id s ∧
    initialized s2 = initialized s ∧ reschedule_requested s2 = reschedule_requested s ∧
    sleep_queue s2 = sleep_queue s ∧ sleeping_task_count s2 = sleeping_task_count s ∧
    percpu_current s2 = match percpu_current s with Some _ => Some (Some next) | None => None end ∧
    pml4_physical s2 = pml4_physical s ∧ cpu s2 = cpu s ∧ cr3 s2 = cr3 s ∧ rsp0 s2 = rsp0 s).
  { split.
    - intros r. change (get r s2) with
        (get r (modify next (set_quantum TASK_DEFAULT_QUANTUM) (modify next (set_state THREAD_STATE_RUNNING) s1))).
      rewrite !get_modify, Hg1. destruct (decide (r = next)) as [->|]; [|done].
      rewrite decide_False by done. by rewrite Hn.
    - unfold s2. cbn [with_current tasks current_task next_task_id initialized reschedule_requested sleep_queue
        sleeping_task_count percpu_current pml4_physical cpu cr3 rsp0]. fields. rewrite E8. by split_and!. }
  clearbody s2. destruct H2 as (Hg2 & F1 & F2 & F3 & F4 & F5 & F6 & F7 & F8 & F9 & F10 & F11 & F12).
  assert (get next s2 = Some (switched_in tn)) as Hn2 by (by rewrite Hg2, decide_True).
  assert (∃ tp2, get p s2 = Some tp2 ∧ process tp2 = process tp ∧
    tp2 = if bool_decide (state tp = THREAD_STATE_RUNNING) then set_state THREAD_STATE_RUNNABLE tp else tp)
    as (tp2 & Hp2 & Epr & Etp).
  { rewrite Hg2, decide_False, Hg1, decide_True by done. eexists. split_and!; try done. by case_bool_decide. }
  rewrite Hn2, Hp2, Epr, F9. cbn [switched_in set_quantum set_state process stack stack_size]. 
  set (root := get0 (pml4_physical s) (process tn)).
  set (s3 := if _ && _ && _ then with_cr3 root s2 else s2).
  set (s4 := if negb (stack tn =? 0) then _ else _).
  assert (H4 : (∀ r, get r s4 = get r s2) ∧ length (tasks s4) = length (tasks s) ∧ current_task s4 = Some next ∧
    next_task_id s4 = next_task_id s ∧
    initialized s4 = initialized s ∧ reschedule_requested s4 = reschedule_requested s ∧
    sleep_queue s4 = sleep_queue s ∧ sleeping_task_count s4 = sleeping_task_count s ∧
    percpu_current s4 = match percpu_current s with Some _ => Some (Some next) | None => None end ∧
    pml4_physical s4 = pml4_physical s ∧ cpu s4 = cpu s ∧ rsp0 s4 = kernel_stack tn ∧
    cr3 s4 = if negb (process tn =? 0) && negb (root =? 0) && negb (process tp =? process tn) then root else cr3 s).
  { unfold s4, s3, kernel_stack.
    destruct (negb (process tn =? 0) && negb (root =? 0) && negb (process tp =? process tn));
      destruct (negb (stack tn =? 0)); split_and!; try done; by intros [?|]. }
  clearbody s4. clear s3. destruct H4 as (Hg4 & G1 & G2 & G3 & G4 & G5 & G6 & G7 & G8 & G9 & G10 & G11 & G12).
  unfold task_switch. cbv zeta. fields.
  rewrite G10. set (s5 := modify p _ (modify p _ s4)).
  assert (Hg5 : ∀ r, get r s5 = if decide (r = next) then Some (switched_in tn)
                   else if decide (r = p) then Some (switched_out (cpu s) flags tp) else get r s).
  { intros r. unfold s5. rewrite !get_modify, Hg4, Hg2, Hg1.
    destruct (decide (r = p)) as [->|]; [|by destruct (decide (r = next))].
    rewrite !decide_False by done. reflexivity. }
  rewrite (Hg5 next), decide_True by done. split; [intros r; rewrite <- Hg5; by destruct r|].
  cbn [with_cpu tasks current_task next_task_id initialized reschedule_requested sleep_queue
        sleeping_task_count percpu_current pml4_physical cpu cr3 rsp0]. unfold s5. fields. by split_and!.
Qed.

Lemma restore_interrupts s :
  cpu_interrupt_restore (rflags (cpu s)) (with_requested false (cpu_interrupt_save_disable s).2)
  = with_requested false s.
Proof.
  assert (∀ v, v = rflags (cpu s) →
    with_cpu (set_rflags v (set_rflags (Z.ldiff (rflags (cpu s)) KOS_RFLAGS_IF) (cpu s))) (with_requested false s)
    = with_requested false s) as Hcpu.
  { intros v ->. destruct s as [? ? ? ? ? ? ? ? ? ? ? c]. by destruct c. }
  unfold cpu_interrupt_restore. change KOS_RFLAGS_IF with (2 ^ 9) in *. rewrite land_bit, negb_involutive by done.
  destruct (Z.testbit (rflags (cpu s)) 9) eqn:Eb; apply Hcpu;
    cbn [cpu_interrupt_save_disable snd with_requested cpu with_cpu set_rflags rflags];
    change KOS_RFLAGS_IF with (2 ^ 9); apply Z.bits_inj'; intros i Hi;
    rewrite ?Z.lor_spec, ?Z.ldiff_spec, ?Z.pow2_bits_eqb by done;
    (destruct (Z.eqb_spec 9 i) as [<-|]; [by rewrite Eb|by destruct (Z.testbit (rflags (cpu s)) i)]).
Qed.

Definition start_of s : nat := match current_task s with Some (Slot i) => i | _ => 0%nat end.

(** The task round robin gives the processor to: the first runnable one after
    the current task in cyclic order; if there is none, the current task while it
    is running, and the idle task otherwise. *)
Definition chosen s (n : task_ref) : Prop :=
  (∃ d, (1 ≤ d ≤ TASK_MAX_COUNT)%nat ∧ n = Slot ((start_of s + d) mod TASK_MAX_COUNT) ∧
     has_state n THREAD_STATE_RUNNABLE s = true ∧
     ∀ e, (1 ≤ e < d)%nat →
       has_state (Slot ((start_of s + e) mod TASK_MAX_COUNT)) THREAD_STATE_RUNNABLE s = false)
  ∨ ((∀ i, has_state (Slot i) THREAD_STATE_RUNNABLE s = false) ∧
     ((current_task s = Some n ∧ has_state n THREAD_STATE_RUNNING s = true) ∨
      (n = Idle ∧ ∀ i, current_task s = Some (Slot i) → has_state (Slot i) THREAD_STATE_RUNNING s = false))).

(** What the switch from task [p] to task [n] leaves. *)
Definition switched s (p n : task_ref) (s' : sched) : Prop :=
  ∃ tp tn, get p s = Some tp ∧ get n s = Some tn ∧
    (∀ r, get r s' = if decide (r = n) then Some (switched_in tn)
                     else if decide (r = p) then Some (switched_out (cpu s) (rflags (cpu s)) tp) else get r s) ∧
    cpu s' = context tn ∧ rsp0 s' = kernel_stack tn ∧
    sleep_queue s' = sleep_queue s.

Lemma start_bound s c : table_inv c s → current_task s = Some c → (start_of s < TASK_MAX_COUNT)%nat.
Proof.
  intros Hi Hc. unfold start_of. rewrite Hc. destruct c as [j|]; [|unfold TASK_MAX_COUNT; lia].
  destruct (ti_cur _ _ Hi) as (t & Ht%lookup_lt_Some & _). by rewrite (ti_size _ _ Hi) in Ht.
Qed.

Lemma no_ready s c :
  table_inv c s → current_task s = Some c → find_ready s (start_of s) TASK_MAX_COUNT 1 = None →
  ∀ i, has_state (Slot i) THREAD_STATE_RUNNABLE s = false.
Proof.
  intros Hi Hc Hf i. destruct (decide (i < TASK_MAX_COUNT)%nat) as [Hlt|Hge].
  2:{ unfold has_state. simpl. rewrite lookup_ge_None_2; [done|]. rewrite (ti_size _ _ Hi). lia. }
  pose proof (start_bound s c Hi Hc) as Hst.
  pose proof (find_ready_None s (start_of s) TASK_MAX_COUNT 1
    (if decide (start_of s < i)%nat then i - start_of s else i + TASK_MAX_COUNT - start_of s) Hf) as Hn.
  replace ((start_of s + _) mod TASK_MAX_COUNT)%nat with i in Hn; [apply Hn; case_decide; lia|].
  case_decide.
  - replace (start_of s + (i - start_of s))%nat with i by lia. by rewrite Nat.mod_small.
  - replace (start_of s + (i + TASK_MAX_COUNT - start_of s))%nat with (i + 1 * TASK_MAX_COUNT)%nat by lia.
    rewrite Nat.Div0.mod_add. by rewrite Nat.mod_small.
Qed.

(** [schedule] as a choice and, if the choice is another task, a switch. *)
Lemma schedule_choice s c :
  table_inv c s → current_task s = Some c →
  ∃ n tn, chosen s n ∧ get n s = Some tn ∧ (n = c ∨ n = Idle ∨ state tn = THREAD_STATE_RUNNABLE) ∧
    (n = Idle → state tn ≠ THREAD_STATE_RUNNING ∨ n = c) ∧
    schedule L s = if decide (n = c) then with_requested false s
                   else switch_to L n (rflags (cpu s)) (with_requested false (cpu_interrupt_save_disable s).2).
Proof.
  intros Hi Hc. unfold schedule. rewrite (ti_init _ _ Hi). cbn [negb].
  destruct (cpu_interrupt_save_disable s) as [flags s0] eqn:E0.
  assert (flags = rflags (cpu s)) as -> by (by injection E0 as <- <-).
  pose proof (restore_interrupts s) as Hrest. rewrite E0 in Hrest. cbn [snd] in *.
  assert (task_find_next_ready s0 = find_ready s (start_of s) TASK_MAX_COUNT 1) as ->.
  { injection E0 as <-. unfold task_find_next_ready, start_of. cbn [with_cpu current_task].
    generalize (match current_task s with Some (Slot i) => i | _ => 0%nat end), 1%nat.
    induction TASK_MAX_COUNT as [|k IH]; intros a b; [done|]. cbn [find_ready]. cbv zeta. by rewrite IH. }
  assert (current_task (with_requested false s0) = Some c) as Hc0 by (by injection E0 as <-).
  assert (∀ r st, has_state r st (with_requested false s0) = has_state r st s) as Hs0
    by (intros [?|] ?; by injection E0 as <-).
  rewrite Hc0. destruct (ti_cur _ _ Hi) as (tc & Htc & Hlive).
  assert (Hidle : ∀ t, get Idle s = Some t → state t ≠ THREAD_STATE_RUNNING ∨ Idle = c).
  { intros t Ht. destruct (decide (state t = THREAD_STATE_RUNNING)) as [Hr|]; [right|by left].
    by apply (ti_running _ _ Hi Idle t). }
  destruct (find_ready s (start_of s) TASK_MAX_COUNT 1) as [n|] eqn:Ef.
  - pose proof (find_ready_Some _ _ _ _ _ Ef) as (d & Hd & -> & Hr & Hno).
    pose proof (proj1 (has_state_true _ _ _) Hr) as (t & Ht & Hst).
    eexists _, t. split_and!; [left; exists d; split_and!; try done; lia|done|by right; right|done|].
    destruct (decide (Slot ((start_of s + d) mod TASK_MAX_COUNT) = c)) as [<-|Hne].
    + by rewrite bool_decide_true.
    + rewrite bool_decide_false; [done|congruence].
  - pose proof (no_ready s c Hi Hc Ef) as Hno. destruct c as [i|].
    + rewrite Hs0. destruct (has_state (Slot i) THREAD_STATE_RUNNING s) eqn:Er.
      * exists (Slot i), tc. rewrite decide_True by done. split_and!; try done; [|by left].
        right. split; [done|]. left. by split.
      * exists Idle, (idle_task s). rewrite decide_False by done. split_and!; try done; [|by right; left|intros _; by apply Hidle].
        right. split; [done|]. right. split; [done|]. rewrite Hc. by intros ? [= <-].
    + exists Idle, tc. rewrite decide_True by done. split_and!; try done; [|by left|by right].
      right. split; [done|]. right. split; [done|]. by rewrite Hc.
Qed.

Lemma live_running : live THREAD_STATE_RUNNING.
Proof. by split. Qed.

Lemma live_switched_out c flags t : live (state t) → live (state (switched_out c flags t)).
Proof. unfold switched_out. simpl. by case_bool_decide. Qed.

Lemma switched_out_idle c flags t : state (switched_out c flags t) ≠ THREAD_STATE_RUNNING.
Proof. unfold switched_out. simpl. by case_bool_decide. Qed.

Lemma switched_targets c flags tp tn :
  sleep_target_tick (switched_out c flags tp) = sleep_target_tick tp ∧
  sleep_target_tick (switched_in tn) = sleep_target_tick tn ∧
  process (switched_out c flags tp) = process tp ∧ process (switched_in tn) = process tn.
Proof. unfold switched_out. simpl. by case_bool_decide. Qed.

(** The invariant after a switch, from the tables before and after. *)
Lemma table_inv_switched s s' p n c flags tp tn :
  table_inv p s → get p s = Some tp → get n s = Some tn →
  (∀ r, get r s' = if decide (r = n) then Some (switched_in tn)
                   else if decide (r = p) then Some (switched_out c flags tp) else get r s) →
  initialized s' = initialized s → length (tasks s') = length (tasks s) →
  sleep_queue s' = sleep_queue s → sleeping_task_count s' = sleeping_task_count s → table_inv n s'.
Proof.
  intros [H1 H2 H3 H4 H5 H6 H7 H8] Hp Hn Hg E1 E2 E3 E4.
  destruct (switched_targets c flags tp tn) as (T1 & T2 & _).
  split; rewrite ?E1, ?E2, ?E3, ?E4; try done.
  - exists (switched_in tn). rewrite Hg, decide_True by done. by split; [|apply live_running].
  - intros r t. rewrite Hg. destruct (decide (r = n)) as [->|]; [done|].
    destruct (decide (r = p)) as [->|Hne]; [|intros Ht Hs; by destruct Hne; apply (H4 r t)].
    intros [= <-] Hs. by apply switched_out_idle in Hs.
  - apply (sorted_ext _ (target_of s)); [|done]. intros r _. unfold target_of. rewrite Hg.
    destruct (decide (r = n)) as [->|]; [by rewrite Hn, T2|].
    destruct (decide (r = p)) as [->|]; [by rewrite Hp, T1|done].
  - intros r Hr. destruct (H8 r Hr) as (t & Ht & Hl). rewrite Hg.
    destruct (decide (r = n)) as [->|]; [exists (switched_in tn); by split; [|apply live_running]|].
    destruct (decide (r = p)) as [->|]; [|by exists t]. eexists. split; [done|].
    apply live_switched_out. congruence.
Qed.

Lemma schedule_cases s c :
  sched_inv s → current_task s = Some c →
  let s' := schedule L s in
  sched_inv s' ∧ sleep_queue s' = sleep_queue s ∧
  ∃ n, current_task s' = Some n ∧ chosen s n ∧
    if decide (n = c) then s' = with_requested false s else switched s c n s'.
Proof.
  intros (c' & Hc' & Hi & Hpc & Hsp) Hc. rewrite Hc in Hc'. injection Hc' as <-.
  destruct (schedule_choice s c Hi Hc) as (n & tn & Hch & Hn & _ & _ & ->).
  destruct (decide (n = c)) as [->|Hne].
  - split; [by apply (sched_inv_ext s); [exists c|..]|]. split; [done|]. exists c. by rewrite decide_True.
  - destruct (ti_cur _ _ Hi) as (tp & Hp & _).
    set (s0 := with_requested false (cpu_interrupt_save_disable s).2).
    assert (∀ r, get r s0 = get r s) as Hg0 by (by intros [?|]).
    destruct (switch_to_cases c n (rflags (cpu s)) s0 tp tn Hc (not_eq_sym Hne)) as
      (Hg & E1 & E2 & E3 & E4 & E5 & E6 & E7 & E8 & E9 & E10 & E11 & E12); [by rewrite Hg0|by rewrite Hg0|].
    set (s' := switch_to L n (rflags (cpu s)) s0) in *. clearbody s'.
    assert (Hg' : ∀ r, get r s' = if decide (r = n) then Some (switched_in tn)
              else if decide (r = c) then Some (switched_out (cpu s) (rflags (cpu s)) tp) else get r s).
    { intros r. rewrite Hg. by destruct (decide (r = n)), (decide (r = c)); rewrite ?Hg0. }
    split; [|split; [done|]].
    + exists n. split_and!; [done| | |].
      * by apply (table_inv_switched s s' c n (cpu s) (rflags (cpu s)) tp tn Hi Hp Hn Hg').
      * intros x. rewrite E8. change (percpu_current s0) with (percpu_current s).
        destruct (percpu_current s) as [[?|]|]; [by intros [= ->]|by intros [= ->]|done].
      * intros t. rewrite Hg', decide_True by done. intros [= <-]. rewrite E9, E12.
        change (pml4_physical s0) with (pml4_physical s). change (cr3 s0) with (cr3 s).
        destruct (switched_targets (cpu s) 0 tp tn) as (_ & _ & _ & ->). intros Hp0 Hr0. cbv zeta.
        apply Z.eqb_neq in Hp0 as Hp0'. apply Z.eqb_neq in Hr0 as Hr0'. rewrite Hp0', Hr0'. cbn [negb andb].
        destruct (Z.eqb_spec (process tp) (process tn)) as [Ep|]; cbn [negb]; [|done].
        rewrite <- Ep in Hp0, Hr0 |- *. by apply (Hsp tp).
    + exists n. rewrite decide_False by done. split_and!; try done. exists tp, tn. by split_and!.
Qed.

Lemma schedule_inv s : sched_inv s → sched_inv (schedule L s).
Proof. intros Hi. pose proof Hi as (c & Hc & _). by destruct (schedule_cases s c Hi Hc). Qed.

End switch.

(** ** Preservation by the other operations *)

Lemma store_ok_tame x r f s :
  (∀ t, state (f t) = state t ∧ sleep_target_tick (f t) = sleep_target_tick t) → store_ok x r f s.
Proof. intros Hf t _. destruct (Hf t) as [-> ->]. split_and!; auto. Qed.

Lemma sched_inv_tame r f s :
  (∀ t, state (f t) = state t ∧ sleep_target_tick (f t) = sleep_target_tick t ∧ process (f t) = process t) →
  sched_inv s → sched_inv (modify r f s).
Proof.
  intros Hf Hi. apply sched_inv_modify; [done| |left; intros t; apply Hf].
  intros c _. apply store_ok_tame. intros t. by destruct (Hf t) as (? & ? & _).
Qed.

Lemma sched_inv_state r st s :
  live st → st ≠ THREAD_STATE_RUNNING → sched_inv s → sched_inv (modify r (set_state st) s).
Proof. intros Hl Hr Hi. apply sched_inv_modify; [done| |by left]. intros c _ t _. split_and!; auto. done. Qed.

Lemma sched_inv_target r n s :
  r ∉ sleep_queue s → sched_inv s → sched_inv (modify r (set_target n) s).
Proof. intros Hr Hi. apply sched_inv_modify; [done| |by left]. intros c _ t _. split_and!; auto. Qed.

(** The queue has at most one entry per task. *)
Lemma queue_length x s : table_inv x s → (length (sleep_queue s) ≤ 65)%nat.
Proof.
  intros Hi. transitivity (length (Idle :: (Slot <$> seq 0 TASK_MAX_COUNT))); [|done].
  apply submseteq_length, NoDup_submseteq; [apply (ti_nodup _ _ Hi)|].
  intros r Hr. destruct (ti_queue _ _ Hi r Hr) as (t & Ht & _). destruct r as [i|]; [|left]. right.
  apply list_elem_of_fmap. exists i. split; [done|]. apply lookup_lt_Some in Ht.
  rewrite (ti_size _ _ Hi) in Ht. apply elem_of_seq. lia.
Qed.

Lemma sorted_filter (q : list task_ref) (f : task_ref → Z) (P : task_ref → Prop) `{!∀ r, Decision (P r)} :
  StronglySorted (λ a b, f a ≤ f b) q → StronglySorted (λ a b, f a ≤ f b) (filter P q).
Proof.
  induction 1 as [|a q Hs IH Hall]; [constructor|]. rewrite filter_cons. case_decide; [|done].
  constructor; [done|]. rewrite Forall_forall in Hall |- *. intros b [_ Hb]%list_elem_of_filter. by apply Hall.
Qed.

Lemma length_filter_remove (q : list task_ref) r :
  NoDup q → r ∈ q → length q = S (length (filter (λ e, e ≠ r) q)).
Proof.
  induction 1 as [|a q Ha Hnd IH]; [by intros ?%not_elem_of_nil|].
  intros [->|Hr]%elem_of_cons; rewrite filter_cons.
  - rewrite decide_False by tauto. simpl. f_equal. rewrite filter_all; [done|]. by intros x Hx ->.
  - rewrite decide_True by (intros ->; done). simpl. by rewrite <- IH.
Qed.

Lemma sched_inv_unlink r s : sched_inv s → sched_inv (sleep_queue_unlink r s) ∧ r ∉ sleep_queue (sleep_queue_unlink r s).
Proof.
  intros (c & Hc & [H1 H2 H3 H4 H5 H6 H7 H8] & Hp & Hs). unfold sleep_queue_unlink.
  case_bool_decide as Hr; [|split; [by exists c|done]]. split.
  - exists c. split_and!; try done. split; cbn [with_queue tasks sleep_queue sleeping_task_count]; try done.
    + by apply NoDup_filter.
    + by apply sorted_filter.
    + rewrite H7, (length_filter_remove (sleep_queue s) r) by done. zcase.
    + intros x [_ Hx]%list_elem_of_filter. by apply H8.
  - cbn [with_queue sleep_queue]. rewrite list_elem_of_filter. tauto.
Qed.

Lemma insert_sorted_perm f r q : insert_sorted f r q ≡ₚ r :: q.
Proof.
  induction q as [|e q IH]; simpl; [done|]. destruct (f r <? f e); [done|]. rewrite IH. apply Permutation_swap.
Qed.

Lemma insert_sorted_sorted f r q :
  StronglySorted (λ a b, f a ≤ f b) q → StronglySorted (λ a b, f a ≤ f b) (insert_sorted f r q).
Proof.
  induction 1 as [|a q Hs IH Hall]; simpl; [by repeat constructor|].
  destruct (Z.ltb_spec (f r) (f a)).
  - constructor; [by constructor|]. constructor; [lia|]. rewrite Forall_forall in Hall |- *.
    intros b Hb. specialize (Hall b Hb). simpl in Hall. lia.
  - constructor; [done|]. rewrite insert_sorted_perm. by constructor.
Qed.

Lemma sched_inv_insert r t s :
  sched_inv s → r ∉ sleep_queue s → get r s = Some t → live (state t) → sched_inv (sleep_queue_insert_sorted r s).
Proof.
  intros (c & Hc & Hi & Hp & Hs) Hr Ht Hl. exists c. split_and!; try done.
  pose proof (queue_length c s Hi) as Hq. destruct Hi as [H1 H2 H3 H4 H5 H6 H7 H8].
  split; try done; cbn [sleep_queue_insert_sorted with_queue sleep_queue sleeping_task_count].
  - rewrite insert_sorted_perm. by constructor.
  - by apply insert_sorted_sorted.
  - rewrite insert_sorted_perm, H7, u64_small by (split; unfold W64; lia). simpl. lia.
  - intros x. rewrite insert_sorted_perm. intros [->|Hx]%elem_of_cons; [by exists t|by apply H8].
Qed.

Section operations.
Context (L : task_layout).

Lemma preempt_disable_cases s :
  sched_inv s → sched_inv (preempt_disable s) ∧ sleep_queue (preempt_disable s) = sleep_queue s ∧
  current_task (preempt_disable s) = current_task s ∧
  ∀ r t, get r s = Some t → ∃ t', get r (preempt_disable s) = Some t' ∧ state t' = state t.
Proof.
  intros Hi. pose proof Hi as (c & Hc & Ht & _). unfold preempt_disable. rewrite (ti_init _ _ Ht), Hc. cbn [negb].
  split_and!; [by apply sched_inv_tame|by fields|by fields|].
  intros r t Hr. rewrite get_modify. destruct (decide (r = c)); rewrite Hr; eauto.
Qed.

Lemma preempt_enable_inv s : sched_inv s → sched_inv (preempt_enable L s).
Proof.
  intros Hi. pose proof Hi as (c & Hc & Ht & _). unfold preempt_enable. rewrite (ti_init _ _ Ht), Hc. cbn [negb].
  set (s1 := modify c _ s).
  assert (sched_inv s1) as Hi1 by (apply sched_inv_tame; [intros t; by destruct (preempt_count t >? 0)|done]).
  destruct (get c s1) as [t|]; [|done]. destruct (_ && _); [|done]. destruct (_ || _); [|done].
  by apply schedule_inv, sched_inv_tame.
Qed.

Lemma task_sleep_enqueue_inv r t target s :
  sched_inv s → get r s = Some t → live (state t) → sched_inv (task_sleep_enqueue L (Some r) target s).
Proof.
  intros Hi Hr Hl. unfold task_sleep_enqueue. destruct (preempt_disable_cases s Hi) as (Hi1 & _ & _ & Hg).
  destruct (Hg r t Hr) as (t1 & Ht1 & Hst). destruct (sched_inv_unlink r _ Hi1) as [Hi2 Hr2].
  apply preempt_enable_inv, (sched_inv_insert r (set_target target t1)).
  - by apply sched_inv_target.
  - by fields.
  - rewrite get_modify, decide_True by done.
    assert (get r (sleep_queue_unlink r (preempt_disable s)) = Some t1) as ->; [|done].
    unfold sleep_queue_unlink. case_bool_decide; [by destruct r|done].
  - simpl. by rewrite Hst.
Qed.

Lemma task_sleep_dequeue_inv r s : sched_inv s → sched_inv (task_sleep_dequeue L (Some r) s).
Proof.
  intros Hi. unfold task_sleep_dequeue. destruct (preempt_disable_cases s Hi) as (Hi1 & _).
  destruct (sched_inv_unlink r _ Hi1) as [Hi2 Hr2]. by apply preempt_enable_inv, sched_inv_target.
Qed.

Lemma task_block_inv (o : option task_ref) s : sched_inv s → sched_inv (task_block o s).
Proof.
  intros Hi. unfold task_block. destruct (negb _); [done|].
  destruct (match o with None => current_task s | Some _ => o end) as [x|]; [|done]. by apply sched_inv_state.
Qed.

Lemma task_unblock_inv (o : option task_ref) s : sched_inv s → sched_inv (task_unblock o s).
Proof. intros Hi. destruct o as [r|]; simpl; [|done]. destruct (has_state r _ s); [|done]. by apply sched_inv_state. Qed.

Lemma task_sleep_inv ms ticks now s :
  sched_inv s → (∀ c, current_task s = Some c → c ∉ sleep_queue s) → sched_inv (task_sleep L ms ticks now s).
Proof.
  intros Hi Hq. pose proof Hi as (c & Hc & _). unfold task_sleep. rewrite Hc.
  destruct (negb _ || negb _); [done|]. destruct (ms =? 0); [by apply schedule_inv|].
  set (deadline := if _ <? now then _ else _).
  destruct (preempt_disable_cases s Hi) as (Hi1 & Hq1 & Hc1 & Hg).
  pose proof Hi1 as (c' & Hc' & Ht' & _). rewrite Hc1, Hc in Hc'. injection Hc' as <-.
  destruct (ti_cur _ _ Ht') as (t & Ht & _). specialize (Hq c Hc). rewrite <- Hq1 in Hq.
  set (s1 := preempt_disable s) in *. clearbody s1.
  assert (sched_inv (sleep_queue_insert_sorted c (modify c (set_state THREAD_STATE_SLEEPING)
    (modify c (set_target deadline) s1)))) as Hi2.
  { apply (sched_inv_insert c (set_state THREAD_STATE_SLEEPING (set_target deadline t))).
    - apply sched_inv_state; [done|done|]. by apply sched_inv_target.
    - by fields.
    - rewrite !get_modify, !decide_True by done. by rewrite Ht.
    - done. }
  pose proof (preempt_enable_inv _ Hi2) as Hi3. destruct (_ && _); [by apply schedule_inv|done].
Qed.

Lemma task_sleep_resume_inv c s : sched_inv s → current_task s = Some c → sched_inv (task_sleep_resume L c s).
Proof.
  intros Hi Hc. unfold task_sleep_resume. destruct (has_state c _ s); [by apply schedule_inv|].
  apply sched_inv_modify; [done| |by left]. intros c' Hc' t _. rewrite Hc in Hc'. injection Hc' as <-.
  split_and!; [by right|by left; intros; apply live_running|by left].
Qed.

(** ** Timer *)

Definition woken_task (t : task) : task := set_quantum TASK_DEFAULT_QUANTUM (set_state THREAD_STATE_RUNNABLE t).

(** The part of the queue that is due, and what waking it does. *)
Lemma wake_expired_cases now : ∀ n woken s w' s',
  sched_inv s → n = length (sleep_queue s) → wake_expired now n woken s = (w', s') →
  sched_inv s' ∧ current_task s' = current_task s ∧ reschedule_requested s' = reschedule_requested s ∧
  ∃ due, sleep_queue s = due ++ sleep_queue s' ∧
    (∀ r, r ∈ due → target_of s r ≤ now) ∧ (∀ r, r ∈ sleep_queue s' → now < target_of s r) ∧
    w' = woken || negb (bool_decide (due = [])) ∧
    ∀ r, get r s' = if decide (r ∈ due) then woken_task <$> get r s else get r s.
Proof.
  induction n as [|n IH]; intros woken s w' s' Hi Hn; cbn [wake_expired].
  { symmetry in Hn. apply nil_length_inv in Hn. intros [= <- <-]. split_and!; try done. exists []. rewrite Hn.
    split_and!; try done; [by intros ? ?%not_elem_of_nil..|by rewrite orb_false_r]. }
  destruct (sleep_queue s) as [|r q] eqn:Eq; [done|]. injection Hn as Hn.
  pose proof Hi as (c & Hc & Ht & _). pose proof (ti_sorted _ _ Ht) as Hso. rewrite Eq in Hso.
  apply StronglySorted_inv in Hso as [_ Hall]. rewrite Forall_forall in Hall.
  destruct (Z.ltb_spec now (target_of s r)) as [Hlt|Hge].
  { intros [= <- <-]. split_and!; try done. exists []. rewrite Eq. split_and!; try done;
      [by intros ? ?%not_elem_of_nil| |by rewrite orb_false_r].
    intros x [->|Hx]%elem_of_cons; [done|]. specialize (Hall x Hx). simpl in Hall. lia. }
  set (s1 := modify r _ (modify r _ _)).
  assert (Hg1 : ∀ x, get x s1 = if decide (x = r) then woken_task <$> get x s else get x s).
  { intros x. unfold s1. rewrite !get_modify. by destruct x, (decide (_ = r)); simpl; rewrite <- ?option_fmap_compose. }
  assert (sleep_queue s1 = q ∧ current_task s1 = current_task s ∧ reschedule_requested s1 = reschedule_requested s)
    as (Eq1 & Ec1 & Er1) by (unfold s1; by fields).
  assert (r ∉ q) as Hrq by (pose proof (ti_nodup _ _ Ht) as Hnd; rewrite Eq in Hnd; by apply NoDup_cons in Hnd as [? _]).
  assert (sched_inv s1) as Hi1.
  { unfold s1. apply sched_inv_tame; [done|]. apply sched_inv_state; [done|done|].
    pose proof (sched_inv_unlink r s Hi) as [Hu _]. unfold sleep_queue_unlink in Hu.
    rewrite Eq, bool_decide_true in Hu by (by left). rewrite filter_cons, decide_False in Hu by tauto.
    rewrite filter_all in Hu; [done|]. by intros x Hx ->. }
  clearbody s1. intros Hw.
  destruct (IH true s1 w' s' Hi1 (eq_trans Hn (f_equal length (eq_sym Eq1))) Hw) as
    (Hi' & Ec' & Er' & due & Eq' & Hdue & Hrest & -> & Hg').
  assert (Htg : ∀ x, target_of s1 x = target_of s x).
  { intros x. unfold target_of. rewrite Hg1. by destruct (decide (x = r)), (get x s). }
  split_and!; [done|congruence|congruence|]. exists (r :: due). rewrite <- Eq1, Eq'. split_and!; try done.
  - intros x [->|Hx]%elem_of_cons; [done|]. rewrite <- Htg. by apply Hdue.
  - intros x Hx. rewrite <- Htg. by apply Hrest.
  - simpl. by rewrite orb_true_r.
  - intros x. rewrite Hg', Hg1. destruct (decide (x = r)) as [->|Hne].
    + rewrite (decide_True (P := r ∈ r :: due)) by (by left). case_decide as Hd; [|done].
      destruct Hrq. rewrite <- Eq1, Eq'. set_solver.
    + destruct (decide (x ∈ due)) as [Hd|Hd]; [rewrite decide_True by (by right); done|].
      rewrite decide_False; [done|]. by intros [?|?]%elem_of_cons.
Qed.

(** A request for a reschedule is recorded, at once or for the end of the
    section that disabled preemption. *)
Definition will_reschedule (c : task_ref) (s : sched) : Prop :=
  reschedule_requested s = true ∨ ∃ t, get c s = Some t ∧ reschedule_pending t = true.

Lemma request_or_defer_cases b c t s :
  sched_inv s → get c s = Some t →
  let s' := request_or_defer b c s in
  sched_inv s' ∧ will_reschedule c s' ∧ current_task s' = current_task s ∧ sleep_queue s' = sleep_queue s ∧
  ∀ r, get r s' = if decide (r = c) then Some (if b then t else set_pending true t) else get r s.
Proof.
  intros Hi Hc. unfold request_or_defer. destruct b.
  - split_and!; [by apply (sched_inv_ext s)|by left|done|done|].
    intros r. case_decide; [subst|]; by destruct c || destruct r.
  - assert (∀ r, get r (modify c (set_pending true) s) = if decide (r = c) then Some (set_pending true t) else get r s) as Hg.
    { intros r. rewrite get_modify. destruct (decide (r = c)) as [->|]; [by rewrite Hc|done]. }
    split_and!; [by apply sched_inv_tame| |by fields|by fields|done].
    right. exists (set_pending true t). by rewrite Hg, decide_True.
Qed.

(** The quantum a running task is left with by a tick. *)
Definition next_quantum (q : Z) : Z := if q >? 1 then q - 1 else TASK_DEFAULT_QUANTUM.

Lemma tick_quantum_cases c t s :
  sched_inv s → get c s = Some t → 0 ≤ quantum_remaining t →
  let s' := tick_quantum c s in
  sched_inv s' ∧ current_task s' = current_task s ∧ sleep_queue s' = sleep_queue s ∧
  (∀ r, r ≠ c → get r s' = get r s) ∧
  (will_reschedule c s → will_reschedule c s') ∧
  ∃ t', get c s' = Some t' ∧ state t' = state t ∧
    if bool_decide (state t = THREAD_STATE_RUNNING)
    then quantum_remaining t' = next_quantum (quantum_remaining t) ∧
         (quantum_remaining t ≤ 1 → will_reschedule c s')
    else s' = s.
Proof.
  intros Hi Hc Hq. unfold tick_quantum, has_state. rewrite Hc. case_bool_decide as Hst; cbn [negb].
  2:{ split_and!; try done. by exists t. }
  set (f := λ t : task, if quantum_remaining t >? 0 then set_quantum (quantum_remaining t - 1) t else t).
  assert (Hf : ∀ u, state (f u) = state u ∧ sleep_target_tick (f u) = sleep_target_tick u ∧
    process (f u) = process u ∧ reschedule_pending (f u) = reschedule_pending u)
    by (intros u; unfold f; by destruct (quantum_remaining u >? 0)).
  assert (Hg : ∀ r, get r (modify c f s) = if decide (r = c) then Some (f t) else get r s).
  { intros r. rewrite get_modify. destruct (decide (r = c)) as [->|]; [by rewrite Hc|done]. }
  assert (sched_inv (modify c f s)) as Hi1 by (apply sched_inv_tame; [intros u; by destruct (Hf u) as (?&?&?&?)|done]).
  assert (current_task (modify c f s) = current_task s ∧ sleep_queue (modify c f s) = sleep_queue s ∧
    reschedule_requested (modify c f s) = reschedule_requested s) as (Ec & Eq & Er) by (by fields).
  set (s1 := modify c f s) in *. clearbody s1.
  rewrite (Hg c), decide_True by done. destruct (Hf t) as (Hf1 & _ & _ & Hf2).
  assert (quantum_remaining (f t) = if quantum_remaining t >? 0 then quantum_remaining t - 1 else quantum_remaining t)
    as Hqf by (unfold f; by destruct (quantum_remaining t >? 0)).
  destruct (Z.eqb_spec (quantum_remaining (f t)) 0) as [H0|H0].
  - assert (get c (modify c (set_quantum TASK_DEFAULT_QUANTUM) s1) = Some (set_quantum TASK_DEFAULT_QUANTUM (f t))) as Hc2
      by (rewrite get_modify, decide_True, (Hg c), decide_True by done; done).
    destruct (request_or_defer_cases (preempt_count (f t) =? 0) c _ _
      (sched_inv_tame c (set_quantum TASK_DEFAULT_QUANTUM) s1 (λ _, conj eq_refl (conj eq_refl eq_refl)) Hi1) Hc2)
      as (Hi2 & Hw & Ec2 & Eq2 & Hg2).
    set (s2 := request_or_defer _ _ _) in *. clearbody s2.
    pose proof (modify_fields c (set_quantum TASK_DEFAULT_QUANTUM) s1) as (_ & F2 & _ & _ & _ & F6 & _).
    split_and!; try done; [congruence|congruence| |].
    + intros r Hr. rewrite Hg2, decide_False, get_modify, decide_False, Hg, decide_False by done. done.
    + eexists. rewrite Hg2, decide_True by done. split; [done|]. unfold next_quantum.
      split_and!; [by destruct (preempt_count (f t) =? 0)| |done].
      destruct (preempt_count (f t) =? 0); simpl; revert Hqf H0; zcase.
  - split_and!; try done.
    + intros r Hr. by rewrite Hg, decide_False.
    + intros [Hw|(u & Hu & Hw)]; [left; congruence|right]. rewrite Hc in Hu. injection Hu as <-.
      exists (f t). rewrite Hg, decide_True by done. split; congruence.
    + exists (f t). rewrite Hg, decide_True by done. split_and!; try done.
      * rewrite Hqf. unfold next_quantum. revert Hqf H0. zcase.
      * revert Hqf H0. zcase.
Qed.

Definition due (now : Z) s r : Prop := r ∈ sleep_queue s ∧ target_of s r ≤ now.

#[local] Instance due_dec now s r : Decision (due now s r).
Proof. unfold due. apply _. Defined.

(** The first part of a tick: the tasks that are due leave the queue. *)
Lemma tick_wake_cases now s :
  sched_inv s → ∃ woken s',
  (if sleeping_task_count s >? 0 then wake_expired now (length (sleep_queue s)) false s else (false, s)) = (woken, s') ∧
  sched_inv s' ∧ current_task s' = current_task s ∧ reschedule_requested s' = reschedule_requested s ∧
  sleep_queue s' = filter (λ r, now < target_of s r) (sleep_queue s) ∧
  (woken = true ↔ ∃ r, due now s r) ∧
  ∀ r, get r s' = if decide (due now s r) then woken_task <$> get r s else get r s.
Proof.
  intros Hi. pose proof Hi as (c & Hc & Ht & _). rewrite (ti_count _ _ Ht).
  destruct (Z.gtb_spec (Z.of_nat (length (sleep_queue s))) 0) as [Hpos|Hz].
  - destruct (wake_expired now (length (sleep_queue s)) false s) as [w s'] eqn:Ew.
    destruct (wake_expired_cases now _ false s w s' Hi eq_refl Ew) as (Hi' & Ec & Er & l & Eq & Hdue & Hrest & -> & Hg).
    assert (Hin : ∀ r, due now s r ↔ r ∈ l).
    { intros r. unfold due. rewrite Eq, elem_of_app. split; [|intros Hr; split; [by left|by apply Hdue]].
      intros [[?|Hr] Hle]; [done|]. specialize (Hrest r Hr). lia. }
    exists (negb (bool_decide (l = []))), s'. split_and!; try done.
    + rewrite Eq, filter_app, filter_none, filter_all; [done|done|]. intros r Hr. specialize (Hdue r Hr). lia.
    + rewrite negb_true_iff, bool_decide_eq_false. split.
      * destruct l as [|r l]; [done|]. intros _. exists r. apply Hin. left.
      * intros (r & Hr%Hin) ->. by apply not_elem_of_nil in Hr.
    + intros r. rewrite Hg. destruct (decide (r ∈ l)) as [Hr|Hr]; [rewrite decide_True by (by apply Hin); done|].
      rewrite decide_False; [done|]. by rewrite Hin.
  - assert (sleep_queue s = []) as Eq by (apply nil_length_inv; lia).
    exists false, s. rewrite Eq. split_and!; try done.
    + split; [done|]. intros (r & Hr & _). rewrite Eq in Hr. by apply not_elem_of_nil in Hr.
    + intros r. rewrite decide_False; [done|]. intros [Hr _]. rewrite Eq in Hr. by apply not_elem_of_nil in Hr.
Qed.

Lemma task_timer_tick_cases now s c :
  sched_inv s → current_task s = Some c → (∀ r t, get r s = Some t → 0 ≤ quantum_remaining t) →
  let s' := task_timer_tick now s in
  sched_inv s' ∧ current_task s' = Some c ∧
  sleep_queue s' = filter (λ r, now < target_of s r) (sleep_queue s) ∧
  (∀ r t, get r s = Some t → ∃ t', get r s' = Some t' ∧
     if decide (due now s r) then state t' = THREAD_STATE_RUNNABLE ∧ quantum_remaining t' = TASK_DEFAULT_QUANTUM
     else state t' = state t ∧
       quantum_remaining t' =
         if bool_decide (r = c ∧ c ≠ Idle ∧ state t = THREAD_STATE_RUNNING) then next_quantum (quantum_remaining t)
         else quantum_remaining t) ∧
  ((∃ r, due now s r) → will_reschedule c s') ∧
  (∀ t, c ≠ Idle → get c s = Some t → ¬ due now s c → state t = THREAD_STATE_RUNNING → quantum_remaining t ≤ 1 →
     will_reschedule c s').
Proof.
  intros Hi Hc Hq. pose proof Hi as (c0 & Hc0 & Ht0 & _). rewrite Hc in Hc0. injection Hc0 as <-.
  destruct (ti_cur _ _ Ht0) as (tc & Htc & _). unfold task_timer_tick. rewrite (ti_init _ _ Ht0). cbn [negb].
  destruct (tick_wake_cases now s Hi) as (woken & s1 & -> & Hi1 & Ec1 & _ & Eq1 & Hw & Hg1). rewrite Ec1, Hc.
  assert (∃ t1, get c s1 = Some t1 ∧ t1 = if decide (due now s c) then woken_task tc else tc) as (t1 & Ht1 & Et1)
    by (rewrite Hg1, Htc; destruct (decide (due now s c)); eauto).
  rewrite Ht1. set (b := bool_decide (c = Idle) || (preempt_count t1 =? 0)).
  set (s2 := if woken then request_or_defer b c s1 else s1).
  assert (H2 : sched_inv s2 ∧ (woken = true → will_reschedule c s2) ∧ current_task s2 = Some c ∧
    sleep_queue s2 = sleep_queue s1 ∧
    ∃ t2, get c s2 = Some t2 ∧ state t2 = state t1 ∧ quantum_remaining t2 = quantum_remaining t1 ∧
      ∀ r, r ≠ c → get r s2 = get r s1).
  { unfold s2. destruct woken; [|split_and!; try done; [by rewrite Ec1, Hc|by exists t1]].
    destruct (request_or_defer_cases b c t1 s1 Hi1 Ht1) as (Hi2 & Hw2 & Ec2 & Eq2 & Hg2).
    split_and!; try done; [by rewrite Ec2, Ec1|]. eexists. rewrite Hg2, decide_True by done.
    split_and!; [done|by destruct b..|]. intros r Hr. by rewrite Hg2, decide_False. }
  clearbody s2. destruct H2 as (Hi2 & Hw2 & Ec2 & Eq2 & t2 & Ht2 & Est2 & Eqt2 & Hg2).
  assert (Hq2 : 0 ≤ quantum_remaining t2).
  { rewrite Eqt2, Et1. destruct (decide (due now s c)); [done|by apply (Hq c)]. }
  assert (Hrest : ∀ s', (∀ r, r ≠ c → get r s' = get r s2) → ∀ r t, r ≠ c → get r s = Some t →
     ∃ t', get r s' = Some t' ∧
     if decide (due now s r) then state t' = THREAD_STATE_RUNNABLE ∧ quantum_remaining t' = TASK_DEFAULT_QUANTUM
     else state t' = state t ∧ quantum_remaining t' =
         if bool_decide (r = c ∧ c ≠ Idle ∧ state t = THREAD_STATE_RUNNING) then next_quantum (quantum_remaining t)
         else quantum_remaining t).
  { intros s' Hg' r t Hr Ht. rewrite Hg', Hg2, Hg1 by done. rewrite (bool_decide_false (r = c ∧ _)) by tauto.
    rewrite Ht. destruct (decide (due now s r)); eauto. }
  case_bool_decide as Hid.
  - set (s3 := if task_ready_count s2 >? 0 then with_requested true s2 else s2).
    assert (sched_inv s3 ∧ current_task s3 = Some c ∧ sleep_queue s3 = sleep_queue s2 ∧ (∀ r, get r s3 = get r s2) ∧
      (will_reschedule c s2 → will_reschedule c s3)) as (Hi3 & Ec3 & Eq3 & Hg3 & Hw3).
    { unfold s3. destruct (task_ready_count s2 >? 0); [|by split_and!].
      split_and!; try done; [by apply (sched_inv_ext s2)|by left]. }
    clearbody s3. split_and!; try done; [congruence| |by intros ?%Hw; auto].
    intros r t Ht. destruct (decide (r = c)) as [->|Hr]; [|by apply Hrest; [intros; by rewrite Hg3|..]].
    exists t2. rewrite Hg3, bool_decide_false by tauto. split; [done|]. rewrite Est2, Eqt2, Et1.
    rewrite Htc in Ht. injection Ht as <-. by destruct (decide (due now s c)).
  - destruct (tick_quantum_cases c t2 s2 Hi2 Ht2 Hq2) as (Hi3 & Ec3 & Eq3 & Hg3 & Hw3 & t3 & Ht3 & Est3 & Hq3).
    set (s3 := tick_quantum c s2) in *. clearbody s3.
    split_and!; try done; [congruence|congruence| |by intros ?%Hw; auto|].
    + intros r t Ht. destruct (decide (r = c)) as [->|Hr]; [|by apply Hrest].
      exists t3. split; [done|]. rewrite Htc in Ht. injection Ht as <-. rewrite Est3, Est2.
      destruct (decide (due now s c)) as [Hd|Hd]; subst t1.
      * rewrite Est2, bool_decide_false in Hq3 by done. split; [done|]. subst s3.
        rewrite Ht2 in Ht3. injection Ht3 as <-. by rewrite Eqt2.
      * split; [done|]. rewrite Est2 in Hq3. destruct (decide (state tc = THREAD_STATE_RUNNING)) as [Hr|Hr].
        -- rewrite bool_decide_true in Hq3 by done. rewrite bool_decide_true by done. by rewrite <- Eqt2; destruct Hq3.
        -- rewrite bool_decide_false in Hq3 by done. rewrite bool_decide_false by tauto. subst s3.
           rewrite Ht2 in Ht3. injection Ht3 as <-. done.
    + intros t _ Ht Hd Hr Hle. rewrite Htc in Ht. injection Ht as <-. rewrite decide_False in Et1 by done. subst t1.
      rewrite Est2, bool_decide_true in Hq3 by done. apply Hq3. by rewrite Eqt2.
Qed.

End operations.
