(* ===== verification/TaskRun.v ===== *)
(** * Runs of the scheduler (src/kernel/task.c)

    Every operation of the scheduler as a step, the invariant of the reachable
    states, the choice made by [schedule], its fairness, and the timer tick. *)

From Stdlib Require Import ZArith Lia Sorted.
From stdpp Require Import gmap.
From S2P Require Import Prelude Task TaskSpec.
#[local] Open Scope Z_scope.

Implicit Types s : sched.
Implicit Types r : task_ref.

(** ** The task table *)

Lemma put_modify r t s : is_Some (get r s) → put r t s = modify r (λ _, t) s.
Proof. intros [t0 Ht]. unfold modify. by rewrite Ht. Qed.

Lemma find_free_slot_Some l : ∀ i r,
  find_free_slot l i = Some r → ∃ j t, r = Slot (i + j) ∧ l !! j = Some t ∧ ¬ live (state t).
Proof.
  induction l as [|t l IH]; intros i r; cbn [find_free_slot]; [done|].
  destruct (_ && _) eqn:E.
  - intros [= <-]. apply andb_prop in E as [_ E]. exists 0%nat, t. split_and!; [f_equal; lia|done|].
    intros [? ?]. by apply orb_prop in E as [E|E]; apply bool_decide_eq_true in E.
  - intros (j & t' & -> & Hl & Hd)%IH. exists (S j), t'. split_and!; [f_equal; lia|done|done].
Qed.

(** A slot that is not live is neither queued nor current. *)
Lemma dead_slot_unused s r t :
  sched_inv s → get r s = Some t → ¬ live (state t) → (r ∉ sleep_queue s) ∧ current_task s ≠ Some r.
Proof.
  intros (c & Hc & Hi & _) Hr Hd. split.
  - intros Hq. destruct (ti_queue _ _ Hi r Hq) as (t' & Ht' & ?). congruence.
  - intros Hcr. destruct (ti_cur _ _ Hi) as (t' & Ht' & ?). congruence.
Qed.

(** Replacing a task that is neither queued nor current. *)
Lemma sched_inv_replace r t s :
  sched_inv s → is_Some (get r s) → r ∉ sleep_queue s → current_task s ≠ Some r →
  state t ≠ THREAD_STATE_RUNNING → sched_inv (put r t s).
Proof.
  intros Hi Hr Hq Hc Hst. rewrite put_modify by done. apply sched_inv_modify; [done| |by right].
  intros c Hc' t0 _. split_and!; [done| |by right]. right. split; [done|]. congruence.
Qed.

Section steps.
Context (L : task_layout).

Lemma task_free_slot_inv (o : option task_ref) s :
  sched_inv s → (∀ r, o = Some r → (r ∉ sleep_queue s) ∧ current_task s ≠ Some r) → sched_inv (task_free_slot o s).
Proof.
  intros Hi Ho. assert (Hm : ∀ r, o = Some r → sched_inv (modify r (set_state THREAD_STATE_UNUSED) s)).
  { intros r Hr. destruct (Ho r Hr) as [Hq Hc]. apply sched_inv_modify; [done| |by right].
    intros c Hc' t _. split_and!; [done| |by left]. right. split; [done|]. congruence. }
  destruct o as [[[|i]|]|]; simpl; try done. by apply Hm.
Qed.

Lemma install_thread_inv proc ent arg stk s : sched_inv s → sched_inv (install_thread L proc ent arg stk s).2.
Proof.
  intros Hi. unfold install_thread. destruct (ent =? 0); [done|].
  destruct (task_allocate_slot s) as [r|] eqn:Ea; [|done].
  apply find_free_slot_Some in Ea as (j & t & -> & Ht & Hd).
  destruct (dead_slot_unused s (Slot j) t Hi Ht Hd) as [Hq Hc].
  destruct (stk =? 0).
  - apply task_free_slot_inv; [done|]. by intros ? [= <-].
  - cbn [snd task_next_id]. apply sched_inv_replace; try done. by apply (sched_inv_ext s).
Qed.

Lemma task_release_inv (o : option task_ref) freed s :
  sched_inv s → (∀ r, o = Some r → r ∉ sleep_queue s) → sched_inv (task_release L o freed s).2.
Proof.
  intros Hi Hq. unfold task_release. destruct o as [[i|]|]; try done.
  destruct (_ || _) eqn:E; [done|]. apply orb_false_elim in E as [E _]. apply bool_decide_eq_false in E.
  destruct (get (Slot i) s) as [t|] eqn:Ht; [|done]. destruct (_ && _); [done|]. cbn [snd].
  apply sched_inv_replace; try done. by apply Hq.
Qed.

Lemma get_reap_sweep s r :
  get r (reap_sweep s) = (λ t, if bool_decide (r ≠ Slot 0 ∧ r ≠ Idle ∧ state t = THREAD_STATE_DEAD)
                               then set_state THREAD_STATE_UNUSED t else t) <$> get r s.
Proof.
  destruct r as [i|]; cbn [get reap_sweep with_tasks tasks idle_task].
  - rewrite list_lookup_imap. destruct (tasks s !! i) as [t|]; [|done]. cbn [fmap option_fmap option_map]. f_equal.
    destruct i as [|i]; cbn [Nat.leb andb]; [by case_bool_decide as H; [destruct H|]|].
    do 2 case_bool_decide; try done; [by exfalso; eauto|by destruct_and!].
  - cbn [fmap option_fmap option_map]. case_bool_decide as H; [by destruct H as (_ & H & _)|done].
Qed.

Lemma reap_sweep_inv s : sched_inv s → sched_inv (reap_sweep s).
Proof.
  intros (c & Hc & [H1 H2 H3 H4 H5 H6 H7 H8] & Hp & Hs).
  assert (Hkeep : ∀ r t, get r s = Some t → live (state t) → get r (reap_sweep s) = Some t).
  { intros r t Hr [_ Hl]. rewrite get_reap_sweep, Hr. simpl. by rewrite bool_decide_false by tauto. }
  exists c. split_and!; try done.
  - split; try done.
    + cbn [reap_sweep with_tasks tasks]. by rewrite length_imap.
    + destruct H3 as (t & Ht & Hl). exists t. split; [by apply Hkeep|done].
    + intros r t. rewrite get_reap_sweep. intros (t0 & Ht0 & ->)%fmap_Some Hst. apply (H4 r t0 Ht0).
      revert Hst. by case_bool_decide.
    + apply (sorted_ext _ (target_of s)); [|done]. intros r Hr. destruct (H8 r Hr) as (t & Ht & Hl).
      unfold target_of. by rewrite (Hkeep r t Ht Hl), Ht.
    + intros r Hr. destruct (H8 r Hr) as (t & Ht & Hl). exists t. split; [by apply Hkeep|done].
  - intros t. rewrite get_reap_sweep. intros (t0 & Ht0 & ->)%fmap_Some. intros Hp0 Hr0.
    assert (process (if bool_decide (c ≠ Slot 0 ∧ c ≠ Idle ∧ state t0 = THREAD_STATE_DEAD)
                     then set_state THREAD_STATE_UNUSED t0 else t0) = process t0) as E by (by case_bool_decide).
    rewrite E in Hp0, Hr0 |- *. by apply Hs.
Qed.

Lemma task_reschedule_if_needed_inv s : sched_inv s → sched_inv (task_reschedule_if_needed L s).
Proof.
  intros Hi. unfold task_reschedule_if_needed. destruct (negb _); [done|].
  destruct (current_task s) as [c|]; [|done]. destruct (get c s) as [t|]; [|done].
  destruct (_ >? 0); [done|]. assert (sched_inv (with_requested false s)) by (by apply (sched_inv_ext s)).
  destruct (_ || _); [|done]. by apply schedule_inv, sched_inv_tame.
Qed.

Lemma task_request_reschedule_inv s : sched_inv s → sched_inv (task_request_reschedule s).
Proof.
  intros Hi. unfold task_request_reschedule. cbn [with_requested current_task].
  assert (sched_inv (with_requested true s)) by (by apply (sched_inv_ext s)).
  destruct (current_task s) as [c|]; [|done]. apply sched_inv_tame; [|done]. intros t. by destruct (_ >? 0).
Qed.

Lemma reap_wake_inv s : sched_inv s → sched_inv (reap_wake L s).
Proof.
  intros Hi. unfold reap_wake. destruct (reaper_thread s) as [r|]; [|done].
  destruct (has_state r _ s); [|done]. by apply schedule_inv, task_unblock_inv.
Qed.

(** ** Steps *)

(** One call of a scheduler function.  The premises are what the callers in the
    kernel ensure: only existing tasks are queued, a task frees its slot after it
    has left the sleep queue, and a running thread sleeps at most once at a time. *)
Inductive task_step : sched → sched → Prop :=
  | step_schedule s : task_step s (schedule L s)
  | step_preempt_disable s : task_step s (preempt_disable s)
  | step_preempt_enable s : task_step s (preempt_enable L s)
  | step_sleep_enqueue r t n s : get r s = Some t → live (state t) → task_step s (task_sleep_enqueue L (Some r) n s)
  | step_sleep_dequeue r s : task_step s (task_sleep_dequeue L (Some r) s)
  | step_block o s : task_step s (task_block o s)
  | step_unblock o s : task_step s (task_unblock o s)
  | step_sleep ms ticks now s :
      (∀ c, current_task s = Some c → c ∉ sleep_queue s) → task_step s (task_sleep L ms ticks now s)
  | step_sleep_resume c s : current_task s = Some c → task_step s (task_sleep_resume L c s)
  | step_tick now s :
      (∀ r t, get r s = Some t → 0 ≤ quantum_remaining t) → task_step s (task_timer_tick now s)
  | step_reschedule_if_needed s : task_step s (task_reschedule_if_needed L s)
  | step_request_reschedule s : task_step s (task_request_reschedule s)
  | step_install proc ent arg stk s : task_step s (install_thread L proc ent arg stk s).2
  | step_free_slot o s :
      (∀ r, o = Some r → (r ∉ sleep_queue s) ∧ current_task s ≠ Some r) → task_step s (task_free_slot o s)
  | step_release o freed s : (∀ r, o = Some r → r ∉ sleep_queue s) → task_step s (task_release L o freed s).2
  | step_reap_wake s : task_step s (reap_wake L s)
  | step_reap_sweep s : task_step s (reap_sweep s).

Lemma task_step_inv s s' : sched_inv s → task_step s s' → sched_inv s'.
Proof.
  intros Hi. inversion 1; subst.
  - by apply schedule_inv.
  - by apply preempt_disable_cases.
  - by apply preempt_enable_inv.
  - by eapply task_sleep_enqueue_inv.
  - by apply task_sleep_dequeue_inv.
  - by apply task_block_inv.
  - by apply task_unblock_inv.
  - by apply task_sleep_inv.
  - by apply task_sleep_resume_inv.
  - pose proof Hi as (c & Hc & _). by apply (task_timer_tick_cases now s c).
  - by apply task_reschedule_if_needed_inv.
  - by apply task_request_reschedule_inv.
  - by apply install_thread_inv.
  - by apply task_free_slot_inv.
  - by apply task_release_inv.
  - by apply reap_wake_inv.
  - by apply reap_sweep_inv.
Qed.

Lemma task_initialize_inv s :
  initialized s = false → length (tasks s) = TASK_MAX_COUNT →
  (∀ x, percpu_current s = Some (Some x) → x = Slot 0) → sched_inv (task_initialize L s).2.
Proof.
  intros Hn Hlen Hcpu. unfold task_initialize. rewrite Hn. cbn [snd].
  set (l := alter _ _ _). assert (Hl : ∀ i, l !! i = (λ t, (if decide (i = 0%nat) then bootstrap_task (next_task_id s) else λ x, x)
    (cleared_task t)) <$> tasks s !! i).
  { intros i. unfold l. destruct (decide (i = 0%nat)) as [->|Hne].
    - rewrite list_lookup_alter_eq, list_lookup_fmap. by destruct (tasks s !! 0%nat).
    - rewrite list_lookup_alter_ne by done. rewrite list_lookup_fmap. by destruct (tasks s !! i). }
  assert (∃ t0, tasks s !! 0%nat = Some t0) as [t0 Ht0].
  { apply lookup_lt_is_Some_2. rewrite Hlen. unfold TASK_MAX_COUNT. lia. }
  exists (Slot 0). split_and!; [done| |exact Hcpu|].
  - split; try done; cbn [tasks sleep_queue].
    + unfold l. by rewrite length_alter, length_fmap.
    + eexists. cbn [get tasks]. rewrite Hl, Ht0. split; [done|]. by rewrite decide_True.
    + intros [i|] t; cbn [get tasks idle_task]; [|by intros [= <-]]. rewrite Hl.
      intros (t1 & _ & ->)%fmap_Some. destruct (decide (i = 0%nat)) as [->|]; done.
    + constructor.
    + constructor.
    + by intros r ?%not_elem_of_nil.
  - intros t. cbn [get tasks]. rewrite Hl, Ht0. intros [= <-]. done.
Qed.

(** C7: after [task_initialize], whatever sequence of scheduler calls is made, at
    most the current task is RUNNING, the sleep queue holds live tasks once each,
    sorted by deadline and correctly counted, the per-CPU pointer agrees with the
    current task, and CR3 holds the address space of the current process. *)
Theorem scheduler_invariant s0 s :
  initialized s0 = false → length (tasks s0) = TASK_MAX_COUNT →
  (∀ x, percpu_current s0 = Some (Some x) → x = Slot 0) →
  rtc task_step (task_initialize L s0).2 s → sched_inv s.
Proof.
  intros Hn Hl Hp Hrun. pose proof (task_initialize_inv s0 Hn Hl Hp) as Hi. revert Hi.
  induction Hrun as [|x y z Hxy _ IH]; [done|]. intros Hi. apply IH. by eapply task_step_inv.
Qed.

(** [schedule] gives the processor to the task round robin chooses.  When
    that is another task, the registers of the caller are saved in its context
    with the RFLAGS it had, it becomes RUNNABLE if it was RUNNING, the chosen task
    becomes RUNNING with a full quantum, its saved registers are loaded and its
    kernel stack is installed, and no other task changes; otherwise only the
    pending request is dropped.  The invariant is preserved. *)
Theorem schedule_spec s c :
  sched_inv s → current_task s = Some c →
  let s' := schedule L s in
  sched_inv s' ∧
  ∃ n, current_task s' = Some n ∧ chosen s n ∧
    if decide (n = c) then s' = with_requested false s else switched L s c n s'.
Proof. intros Hi Hc s'. by destruct (schedule_cases L s c Hi Hc) as (? & _ & ?). Qed.

(** a timer tick wakes exactly the queued tasks whose deadline has come: they
    leave the queue, become RUNNABLE and get a full quantum; every other task
    keeps its state; the quantum of the running task goes down by one and is
    refilled when it is used up; and a reschedule is requested, or deferred to the
    end of the preemption-disabled section, when a task was woken or the quantum
    was used up. *)
Theorem task_timer_tick_spec now s c :
  sched_inv s → current_task s = Some c → (∀ r t, get r s = Some t → 0 ≤ quantum_remaining t) →
  let s' := task_timer_tick now s in
  sched_inv s' ∧ current_task s' = Some c ∧
  sleep_queue s' = filter (λ r, now < target_of s r) (sleep_queue s) ∧
  (∀ r t, get r s = Some t → ∃ t', get r s' = Some t' ∧
     if decide (due now s r) then state t' = THREAD_STATE_RUNNABLE ∧ quantum_remaining t' = TASK_DEFAULT_QUANTUM
     else state t' = state t ∧
       quantum_remaining t' =
         if bool_decide (r = c ∧ c ≠ Idle ∧ state t = THREAD_STATE_RUNNING) then next_quantum (quantum_remaining t)
         else quantum_remaining t) ∧
  ((∃ r, due now s r) → will_reschedule c s') ∧
  (∀ t, c ≠ Idle → get c s = Some t → ¬ due now s c → state t = THREAD_STATE_RUNNING → quantum_remaining t ≤ 1 →
     will_reschedule c s').
Proof. apply task_timer_tick_cases. Qed.

(** ** Fairness *)

(** Steps from slot [a] to slot [b] in cyclic order, at least one. *)
Definition turn (a b : nat) : nat := if (a <? b)%nat then b - a else b + TASK_MAX_COUNT - a.

Lemma turn_spec a b :
  (a < TASK_MAX_COUNT → b < TASK_MAX_COUNT →
   1 ≤ turn a b ≤ TASK_MAX_COUNT ∧ (a + turn a b) mod TASK_MAX_COUNT = b)%nat.
Proof.
  intros Ha Hb. unfold turn. destruct (Nat.ltb_spec a b); (split; [lia|]).
  - replace (a + (b - a))%nat with b by lia. by apply Nat.mod_small.
  - replace (a + (b + TASK_MAX_COUNT - a))%nat with (b + 1 * TASK_MAX_COUNT)%nat by lia.
    rewrite Nat.Div0.mod_add. by apply Nat.mod_small.
Qed.

Lemma turn_closer a b d :
  (a < TASK_MAX_COUNT → b < TASK_MAX_COUNT → 1 ≤ d < turn a b →
   turn ((a + d) mod TASK_MAX_COUNT) b < turn a b)%nat.
Proof.
  intros Ha Hb Hd. assert ((a + d) mod TASK_MAX_COUNT = if (a + d <? TASK_MAX_COUNT)%nat then a + d else a + d - TASK_MAX_COUNT)%nat as ->.
  { unfold turn in Hd. destruct (Nat.ltb_spec (a + d) TASK_MAX_COUNT); [by apply Nat.mod_small|].
    replace (a + d)%nat with ((a + d - TASK_MAX_COUNT) + 1 * TASK_MAX_COUNT)%nat at 1 by lia.
    rewrite Nat.Div0.mod_add. apply Nat.mod_small. destruct (Nat.ltb_spec a b); lia. }
  revert Hd. unfold turn. destruct (Nat.ltb_spec a b); destruct (Nat.ltb_spec (a + d) TASK_MAX_COUNT);
    intros Hd; match goal with |- context [(?x <? ?y)%nat] => destruct (Nat.ltb_spec x y) end; lia.
Qed.

Lemma chosen_turn s c j n :
  table_inv c s → current_task s = Some c → (j < TASK_MAX_COUNT)%nat →
  has_state (Slot j) THREAD_STATE_RUNNABLE s = true → chosen s n →
  n = Slot j ∨ ∃ i, n = Slot i ∧ (turn i j < turn (start_of s) j)%nat.
Proof.
  intros Hi Hc Hj Hr [(d & Hd & -> & Hn & Hno)|[Hno _]]; [|by rewrite Hno in Hr].
  pose proof (start_bound s c Hi Hc) as Hst. destruct (turn_spec (start_of s) j Hst Hj) as [Ht Hm].
  destruct (decide (d < turn (start_of s) j)%nat) as [Hlt|Hge].
  - right. eexists. split; [done|]. apply turn_closer; [done|done|lia].
  - left. destruct (decide (d = turn (start_of s) j)) as [->|Hne]; [by rewrite Hm|].
    rewrite <- Hm, Hno in Hr by lia. done.
Qed.

(** Rounds of anything else that happens, followed by a call of [schedule]. *)
Fixpoint rounds (env : nat → sched → sched) (n : nat) s : sched :=
  match n with
  | O => s
  | S n => rounds (λ k, env (S k)) n (schedule L (env 0%nat s))
  end.

(** The environment neither switches tasks nor makes task [j] unready. *)
Definition fair_env (j : nat) (env : nat → sched → sched) : Prop :=
  ∀ k s, sched_inv s → has_state (Slot j) THREAD_STATE_RUNNABLE s = true →
    sched_inv (env k s) ∧ has_state (Slot j) THREAD_STATE_RUNNABLE (env k s) = true ∧
    current_task (env k s) = current_task s.

Lemma fair_rounds j m : ∀ env s,
  (j < TASK_MAX_COUNT)%nat → fair_env j env → sched_inv s → has_state (Slot j) THREAD_STATE_RUNNABLE s = true →
  (turn (start_of s) j ≤ m)%nat → ∃ n, (1 ≤ n ≤ m)%nat ∧ current_task (rounds env n s) = Some (Slot j).
Proof.
  induction m as [|m IH]; intros env s Hj Henv Hi Hr Hm.
  { unfold turn in Hm. pose proof Hi as (c & Hc & Ht & _). pose proof (start_bound s c Ht Hc).
    destruct (Nat.ltb_spec (start_of s) j); lia. }
  destruct (Henv 0%nat s Hi Hr) as (Hi1 & Hr1 & Ec1). set (s1 := env 0%nat s) in *.
  pose proof Hi1 as (c & Hc & Ht & _). destruct (schedule_cases L s1 c Hi1 Hc) as (Hi2 & _ & n & Hn & Hch & Hsw).
  assert (start_of s1 = start_of s) as Est by (unfold start_of; by rewrite Ec1).
  destruct (chosen_turn s1 c j n Ht Hc Hj Hr1 Hch) as [->|(i & -> & Hlt)].
  { exists 1%nat. split; [lia|]. done. }
  destruct (decide (i = j)) as [->|Hij]; [exists 1%nat; split; [lia|done]|].
  assert (has_state (Slot j) THREAD_STATE_RUNNABLE (schedule L s1) = true) as Hr2.
  { destruct (decide (Slot i = c)) as [Hic|Hic]; [by rewrite Hsw|].
    destruct Hsw as (tp & tn & Htp & Htn & Hg & _). apply has_state_true in Hr1 as (tj & Htj & Hst).
    apply has_state_true. rewrite Hg, decide_False by congruence. destruct (decide (Slot j = c)) as [<-|]; [|by exists tj].
    eexists. split; [done|]. rewrite Htp in Htj. injection Htj as ->. unfold switched_out. simpl.
    by rewrite bool_decide_false by congruence. }
  assert (start_of (schedule L s1) = i) as Est2 by (unfold start_of; by rewrite Hn).
  destruct (IH (λ k, env (S k)) (schedule L s1) Hj) as (k & Hk & Hcur); try done.
  - intros k. apply Henv.
  - rewrite Est2. rewrite Est in Hlt. lia.
  - exists (S k). split; [lia|]. done.
Qed.

(** C8: no runnable task starves: a task that stays RUNNABLE until it is chosen
    runs after at most 64 calls of [schedule], whatever the interrupt handlers
    and the other threads do in between. *)
Theorem schedule_fair j env s :
  (j < TASK_MAX_COUNT)%nat → fair_env j env → sched_inv s → has_state (Slot j) THREAD_STATE_RUNNABLE s = true →
  ∃ n, (1 ≤ n ≤ TASK_MAX_COUNT)%nat ∧ current_task (rounds env n s) = Some (Slot j).
Proof.
  intros Hj Henv Hi Hr. apply fair_rounds; try done. pose proof Hi as (c & Hc & Ht & _).
  by apply turn_spec; [apply (start_bound s c)|].
Qed.

End steps.

(** ** A concrete machine *)

Definition demo_layout : task_layout := TaskLayout 4096 4112 8192 65536 131072.

Definition demo_boot : sched :=
  Sched (replicate TASK_MAX_COUNT unused_task) unused_task None 1 false false [] 0 None None ∅ zero_context 0 0.

(** Three threads beside the bootstrap task. *)
Definition demo : sched :=
  let s := (task_initialize demo_layout demo_boot).2 in
  let s := (install_thread demo_layout 7 100 0 1048576 s).2 in
  let s := (install_thread demo_layout 7 200 0 2097152 s).2 in
  (install_thread demo_layout 9 300 0 3145728 s).2.

Lemma demo_inv : sched_inv demo.
Proof. do 3 apply install_thread_inv. by apply task_initialize_inv. Qed.

Lemma scheduler_invariant_witness : sched_inv (schedule demo_layout (task_initialize demo_layout demo_boot).2).
Proof.
  apply (scheduler_invariant demo_layout demo_boot); [done|done|done|].
  eapply rtc_l; [apply step_schedule|apply rtc_refl].
Defined.

Lemma schedule_spec_witness : current_task (schedule demo_layout demo) = Some (Slot 1).
Proof.
  destruct (schedule_spec demo_layout demo (Slot 0) demo_inv eq_refl) as (_ & n & Hn & _). rewrite Hn.
  rewrite <- Hn. vm_compute. reflexivity.
Defined.

Lemma task_timer_tick_spec_witness : sleep_queue (task_timer_tick 50 demo) = [].
Proof.
  destruct (task_timer_tick_spec 50 demo (Slot 0) demo_inv eq_refl) as (_ & _ & Hq & _); [|by rewrite Hq].
  assert (Forall (λ t, 0 ≤ quantum_remaining t) (idle_task demo :: tasks demo)) as Hall.
  { apply Forall_forall. intros t Ht. revert t Ht. apply Forall_forall. vm_compute. repeat constructor; done. }
  intros [i|] t Ht; simpl in Ht.
  - apply Forall_cons in Hall as [_ Hall]. rewrite Forall_lookup in Hall. by apply (Hall i).
  - injection Ht as <-. by apply Forall_cons in Hall as [? _].
Defined.

Lemma schedule_fair_witness :
  ∃ n, (1 ≤ n ≤ TASK_MAX_COUNT)%nat ∧ current_task (rounds demo_layout (λ _ s, s) n demo) = Some (Slot 3).
Proof.
  apply (schedule_fair demo_layout 3 (λ _ s, s) demo); [unfold TASK_MAX_COUNT; lia|by intros k s|exact demo_inv|].
  vm_compute. reflexivity.
Defined.
