(* ===== verification/Spinlock.v ===== *)
(** * Spinlocks (src/kernel/spinlock.c, src/include/kos/spinlock.h)

    Two views of the same code.  The functions of [Section caller] are what one
    call does to the lock and to the processor it runs on: interrupts, the
    preemption count and a deferred reschedule; a call that would spin for ever,
    because the processor itself holds the lock and nothing else can run, is
    [None].  [act] is the code that several processors run at once, one access to
    the lock's fields at a time. *)

From Stdlib Require Import ZArith Lia.
From stdpp Require Import gmap.
From S2P Require Import Prelude Task TaskSpec.
#[local] Open Scope Z_scope.

(** ** The lock *)

Definition KOS_SPINLOCK_UNLOCKED : Z := 0.
Definition KOS_SPINLOCK_LOCKED : Z := 1.
Definition KOS_SPINLOCK_NO_CPU : Z := 4294967295.

Record kos_spinlock := Spinlock {
  lock : Z;
  owner_cpu : Z;
  last_rip : Z;
  lock_count : Z;
}.

Definition spinlock_init : kos_spinlock := Spinlock KOS_SPINLOCK_UNLOCKED KOS_SPINLOCK_NO_CPU 0 0.

Definition spinlock_is_locked (l : option kos_spinlock) : bool :=
  match l with None => false | Some l => negb (lock l =? KOS_SPINLOCK_UNLOCKED) end.

Definition set_lock (v : Z) (l : kos_spinlock) : kos_spinlock :=
  Spinlock v (owner_cpu l) (last_rip l) (lock_count l).
Definition set_owner (v : Z) (l : kos_spinlock) : kos_spinlock :=
  Spinlock (lock l) v (last_rip l) (lock_count l).
Definition set_rip (v : Z) (l : kos_spinlock) : kos_spinlock :=
  Spinlock (lock l) (owner_cpu l) v (lock_count l).
Definition count_up (l : kos_spinlock) : kos_spinlock :=
  Spinlock (lock l) (owner_cpu l) (last_rip l) (u64 (lock_count l + 1)).

(** [__atomic_exchange_n(&lock->lock, KOS_SPINLOCK_LOCKED)]: the old value and
    the lock after it. *)
Definition exchange (l : kos_spinlock) : Z * kos_spinlock := (lock l, set_lock KOS_SPINLOCK_LOCKED l).

(** The stores of the processor that has won the exchange. *)
Definition acquired (rip : Z) (l : kos_spinlock) : kos_spinlock := count_up (set_rip rip (set_owner 0 l)).

(** The stores that release the lock. *)
Definition released (l : kos_spinlock) : kos_spinlock :=
  set_lock KOS_SPINLOCK_UNLOCKED (set_rip 0 (set_owner KOS_SPINLOCK_NO_CPU l)).

(** ** One call *)

Section caller.
Context (L : task_layout).

Definition spinlock_lock_internal (rip : Z) (l : option kos_spinlock) : option (option kos_spinlock) :=
  match l with
  | None => Some None
  | Some l =>
      let '(old, l) := exchange l in
      if old =? KOS_SPINLOCK_UNLOCKED then Some (Some (acquired rip l)) else None
  end.

Definition spinlock_lock (rip : Z) (l : option kos_spinlock) (s : sched) : option (option kos_spinlock * sched) :=
  let s := preempt_disable s in
  match spinlock_lock_internal rip l with Some l => Some (l, s) | None => None end.

Definition spinlock_try_lock (rip : Z) (l : option kos_spinlock) (s : sched) : bool * option kos_spinlock * sched :=
  match l with
  | None => (false, None, s)
  | Some l =>
      let s := preempt_disable s in
      if negb (lock l =? KOS_SPINLOCK_UNLOCKED) then (false, Some l, preempt_enable L s)
      else
        let '(old, l) := exchange l in
        if old =? KOS_SPINLOCK_UNLOCKED then (true, Some (acquired rip l), s)
        else (false, Some l, preempt_enable L s)
  end.

Definition spinlock_unlock (l : option kos_spinlock) (s : sched) : option kos_spinlock * sched :=
  match l with
  | None => (None, s)
  | Some l => (Some (released l), preempt_enable L s)
  end.

Definition spinlock_lock_irqsave (rip : Z) (l : option kos_spinlock) (s : sched)
  : option (Z * option kos_spinlock * sched) :=
  let '(flags, s) := cpu_interrupt_save_disable s in
  let s := preempt_disable s in
  match spinlock_lock_internal rip l with Some l => Some (flags, l, s) | None => None end.

Definition spinlock_unlock_irqrestore (l : option kos_spinlock) (flags : Z) (s : sched)
  : option kos_spinlock * sched :=
  let l := match l with None => None | Some l => Some (released l) end in
  (l, preempt_enable L (cpu_interrupt_restore flags s)).

(** [flags_out] is not NULL; [Some flags] is a return of [true]. *)
Definition spinlock_try_lock_irqsave (rip : Z) (l : kos_spinlock) (s : sched)
  : option Z * kos_spinlock * sched :=
  let '(flags, s) := cpu_interrupt_save_disable s in
  let s := preempt_disable s in
  if lock l =? KOS_SPINLOCK_UNLOCKED then
    let '(old, l) := exchange l in
    if old =? KOS_SPINLOCK_UNLOCKED then (Some flags, acquired rip l, s)
    else (None, l, cpu_interrupt_restore flags (preempt_enable L s))
  else (None, l, cpu_interrupt_restore flags (preempt_enable L s)).

End caller.

(** ** Several processors *)

(** Where a processor is in [spinlock_lock], [spinlock_try_lock] (both variants)
    or [spinlock_unlock] (both variants). *)
Inductive counter :=
  | Out | Held (rip : Z)
  | Exchange (rip : Z) | Spin (rip : Z)
  | TryLoad (rip : Z) | TryExchange (rip : Z)
  | StoreOwner (rip : Z) | StoreRip (rip : Z) | StoreCount (rip : Z)
  | ClearOwner | ClearRip | ClearLock.

Record config := Config { shared : kos_spinlock; counters : gmap Z counter }.

Definition counter_of (p : Z) (c : config) : counter := default Out (counters c !! p).

Definition goto (p : Z) (k : counter) (l : kos_spinlock) (c : config) : config :=
  Config l (<[p := k]> (counters c)).

(** One access of processor [p]. *)
Definition run (p : Z) (c : config) : config :=
  let l := shared c in
  match counter_of p c with
  | Out | Held _ => c
  | Exchange rip =>
      let '(old, l) := exchange l in
      goto p (if old =? KOS_SPINLOCK_UNLOCKED then StoreOwner rip else Spin rip) l c
  | Spin rip => goto p (if negb (lock l =? KOS_SPINLOCK_UNLOCKED) then Spin rip else Exchange rip) l c
  | TryLoad rip => goto p (if negb (lock l =? KOS_SPINLOCK_UNLOCKED) then Out else TryExchange rip) l c
  | TryExchange rip =>
      let '(old, l) := exchange l in
      goto p (if old =? KOS_SPINLOCK_UNLOCKED then StoreOwner rip else Out) l c
  | StoreOwner rip => goto p (StoreRip rip) (set_owner 0 l) c
  | StoreRip rip => goto p (StoreCount rip) (set_rip rip l) c
  | StoreCount rip => goto p (Held rip) (count_up l) c
  | ClearOwner => goto p ClearRip (set_owner KOS_SPINLOCK_NO_CPU l) c
  | ClearRip => goto p ClearLock (set_rip 0 l) c
  | ClearLock => goto p Out (set_lock KOS_SPINLOCK_UNLOCKED l) c
  end.

(** A processor outside calls lock or try-lock, the holder calls unlock. *)
Inductive action := CallLock (p rip : Z) | CallTryLock (p rip : Z) | CallUnlock (p : Z) | Run (p : Z).

Definition is_held (k : counter) : bool := match k with Held _ => true | _ => false end.

Definition act (a : action) (c : config) : config :=
  match a with
  | CallLock p rip => match counter_of p c with Out => goto p (Exchange rip) (shared c) c | _ => c end
  | CallTryLock p rip => match counter_of p c with Out => goto p (TryLoad rip) (shared c) c | _ => c end
  | CallUnlock p => if is_held (counter_of p c) then goto p ClearOwner (shared c) c else c
  | Run p => run p c
  end.

Definition idle_lock : config := Config spinlock_init ∅.

(** ** Mutual exclusion *)

(** Between the exchange that wins and the store that releases. *)
Definition owning (k : counter) : bool :=
  match k with
  | Held _ | StoreOwner _ | StoreRip _ | StoreCount _ | ClearOwner | ClearRip | ClearLock => true
  | _ => false
  end.

(** What the diagnostic fields hold while the owner is at [k]. *)
Definition fields_ok (k : counter) (l : kos_spinlock) : Prop :=
  match k with
  | StoreRip _ => owner_cpu l = 0
  | StoreCount rip | Held rip => owner_cpu l = 0 ∧ last_rip l = rip
  | ClearOwner => owner_cpu l = 0
  | ClearRip => owner_cpu l = KOS_SPINLOCK_NO_CPU
  | ClearLock => owner_cpu l = KOS_SPINLOCK_NO_CPU ∧ last_rip l = 0
  | StoreOwner _ => owner_cpu l = KOS_SPINLOCK_NO_CPU ∧ last_rip l = 0
  | _ => True
  end.

(** [h] is the owner. *)
Record spin_inv (h : option Z) (c : config) : Prop := {
  si_owner p : owning (counter_of p c) = true ↔ h = Some p;
  si_lock : lock (shared c) = match h with Some _ => KOS_SPINLOCK_LOCKED | None => KOS_SPINLOCK_UNLOCKED end;
  si_fields : match h with
              | Some p => fields_ok (counter_of p c) (shared c)
              | None => owner_cpu (shared c) = KOS_SPINLOCK_NO_CPU ∧ last_rip (shared c) = 0
              end;
}.

Lemma counter_goto p k l c q : counter_of q (goto p k l c) = if decide (q = p) then k else counter_of q c.
Proof.
  unfold counter_of, goto. simpl. destruct (decide (q = p)) as [->|].
  - by rewrite lookup_insert_eq.
  - by rewrite lookup_insert_ne.
Qed.

(** A processor that does not own the lock moves without taking it. *)
Lemma spin_inv_outside h c p k l :
  spin_inv h c → owning (counter_of p c) = false → owning k = false →
  (l = shared c ∨ (h ≠ None ∧ l = set_lock KOS_SPINLOCK_LOCKED (shared c))) → spin_inv h (goto p k l c).
Proof.
  intros [H1 H2 H3] Hp Hk Hl.
  assert (h ≠ Some p) as Hne by (rewrite <- H1; congruence).
  assert (lock l = lock (shared c) ∧ owner_cpu l = owner_cpu (shared c) ∧ last_rip l = last_rip (shared c)) as (E1 & E2 & E3).
  { destruct Hl as [-> | [Hh ->]]; [done|]. destruct h; [|done]. simpl. by rewrite H2. }
  split.
  - intros q. rewrite counter_goto. destruct (decide (q = p)) as [->|]; [|done]. rewrite Hk. by split.
  - by rewrite <- H2.
  - destruct h as [q|]; cbn [goto shared]; [|by rewrite E2, E3].
    rewrite counter_goto, decide_False by congruence. unfold fields_ok in *. by rewrite E2, E3.
Qed.

(** The owner moves and stays owner. *)
Lemma spin_inv_owner c p k l :
  spin_inv (Some p) c → owning k = true → lock l = lock (shared c) → fields_ok k l → spin_inv (Some p) (goto p k l c).
Proof.
  intros [H1 H2 H3] Hk Hl Hf. split.
  - intros q. rewrite counter_goto. destruct (decide (q = p)) as [->|]; [|done]. by rewrite Hk.
  - simpl. by rewrite Hl.
  - rewrite counter_goto. by rewrite decide_True.
Qed.

(** A processor wins the exchange on a free lock. *)
Lemma spin_inv_take c p rip :
  spin_inv None c → spin_inv (Some p) (goto p (StoreOwner rip) (set_lock KOS_SPINLOCK_LOCKED (shared c)) c).
Proof.
  intros [H1 H2 H3]. split; [|done|].
  - intros q. rewrite counter_goto. destruct (decide (q = p)) as [->|Hne]; [done|].
    rewrite H1. split; [done|congruence].
  - by rewrite counter_goto, decide_True.
Qed.

Lemma spin_act_inv a h c : spin_inv h c → ∃ h', spin_inv h' (act a c).
Proof.
  intros Hi. pose proof Hi as [H1 H2 H3].
  assert (Hout : ∀ p k l, owning (counter_of p c) = false → owning k = false →
    (l = shared c ∨ (h ≠ None ∧ l = set_lock KOS_SPINLOCK_LOCKED (shared c))) → ∃ h', spin_inv h' (goto p k l c)).
  { intros. exists h. by apply spin_inv_outside. }
  assert (Hown : ∀ p k l, owning (counter_of p c) = true → owning k = true → lock l = lock (shared c) →
    (fields_ok (counter_of p c) (shared c) → fields_ok k l) → ∃ h', spin_inv h' (goto p k l c)).
  { intros p k l Hp%H1 Hk Hl Hf. subst h. exists (Some p). apply spin_inv_owner; auto. }
  assert (Hex : ∀ p rip k, owning (counter_of p c) = false → owning k = false →
    ∃ h', spin_inv h' (goto p (if lock (shared c) =? KOS_SPINLOCK_UNLOCKED then StoreOwner rip else k)
                          (set_lock KOS_SPINLOCK_LOCKED (shared c)) c)).
  { intros p rip k Hp Hk. rewrite H2. destruct h as [q|]; cbn [Z.eqb KOS_SPINLOCK_LOCKED KOS_SPINLOCK_UNLOCKED].
    - apply Hout; auto.
    - exists (Some p). by apply spin_inv_take. }
  destruct a as [p rip|p rip|p|p]; cbn [act].
  - destruct (counter_of p c) eqn:E; try by exists h. apply Hout; auto. by rewrite E.
  - destruct (counter_of p c) eqn:E; try by exists h. apply Hout; auto. by rewrite E.
  - destruct (counter_of p c) eqn:E; cbn [is_held]; try by exists h.
    apply Hown; rewrite ?E; auto. simpl. tauto.
  - unfold run. destruct (counter_of p c) as [|rip|rip|rip|rip|rip|rip|rip|rip| | |] eqn:E; cbn [exchange];
      try by exists h.
    1,4: apply Hex; by rewrite ?E.
    1,2: destruct (negb _); apply Hout; rewrite ?E; auto.
    all: try by (apply Hown; rewrite ?E; auto; simpl; intuition).
    assert (h = Some p) as -> by (apply H1; by rewrite E). exists None. rewrite E in H3. split; [|done|done].
    intros q. rewrite counter_goto. destruct (decide (q = p)) as [->|Hne]; [done|].
    rewrite H1. by split; [congruence|].
Qed.

Lemma runs_inv acts : ∃ h, spin_inv h (foldl (λ c a, act a c) idle_lock acts).
Proof.
  assert (∀ c, (∃ h, spin_inv h c) → ∃ h, spin_inv h (foldl (λ c a, act a c) c acts)) as H.
  { induction acts as [|a acts IH]; [done|]. intros c [h Hi]. simpl. apply IH. by apply (spin_act_inv a h). }
  apply H. exists None. by split.
Qed.

(** C15: whatever the interleaving of the processors, at most one of them is
    between winning the exchange and releasing the lock, the lock word is set
    exactly then, and while a processor is inside its critical section
    [last_rip] is the return address of its own call.  [owner_cpu] is then 0,
    whichever processor it is: the code stores that constant, and not the number
    of the processor that spinlock.h documents.  When nobody owns the lock,
    a processor that spins on it owns it after two of its own accesses. *)
Theorem spinlock_exclusion acts :
  let c := foldl (λ c a, act a c) idle_lock acts in
  (∀ p q, owning (counter_of p c) = true → owning (counter_of q c) = true → p = q) ∧
  (spinlock_is_locked (Some (shared c)) = true ↔ ∃ p, owning (counter_of p c) = true) ∧
  (∀ p rip, counter_of p c = Held rip → owner_cpu (shared c) = 0 ∧ last_rip (shared c) = rip) ∧
  (∀ p rip, counter_of p c = Spin rip → (∀ q, owning (counter_of q c) = false) →
     owning (counter_of p (act (Run p) (act (Run p) c))) = true).
Proof.
  intros c. destruct (runs_inv acts) as [h [H1 H2 H3]]. fold c in H1, H2, H3. split_and!.
  - intros p q Hp%H1 Hq%H1. congruence.
  - cbn [spinlock_is_locked]. rewrite H2. destruct h as [p|]; cbn; split; try done.
    + intros _. exists p. by apply H1.
    + by intros [p Hp%H1].
  - intros p rip Hp. assert (h = Some p) as -> by (apply H1; by rewrite Hp). by rewrite Hp in H3.
  - intros p rip Hp Hno.
    assert (lock (shared c) = 0) as Hl.
    { rewrite H2. destruct h as [q|]; [|done]. specialize (Hno q). by rewrite (proj2 (H1 q) eq_refl) in Hno. }
    cbn [act]. assert (run p c = goto p (Exchange rip) (shared c) c) as ->.
    { unfold run. rewrite Hp. by rewrite Hl. }
    unfold run. rewrite counter_goto, decide_True by done. cbn [exchange goto shared]. rewrite Hl. cbn [Z.eqb].
    by rewrite counter_goto, decide_True.
Qed.

(** ** One processor *)

(** Locking with interrupts off and unlocking again: the lock is free with one
    more acquisition counted and the interrupt flag is what it was. *)
Lemma irqsave_restores L rip l s flags l' s' :
  spinlock_lock_irqsave rip (Some l) s = Some (flags, l', s') →
  lock l = KOS_SPINLOCK_UNLOCKED ∧ flags = rflags (cpu s) ∧
  Z.land (rflags (cpu s')) KOS_RFLAGS_IF = 0 ∧
  fst (spinlock_unlock_irqrestore L l' flags s') = Some (Spinlock 0 KOS_SPINLOCK_NO_CPU 0 (u64 (lock_count l + 1))).
Proof.
  unfold spinlock_lock_irqsave. cbn [cpu_interrupt_save_disable spinlock_lock_internal exchange].
  destruct (Z.eqb_spec (lock l) KOS_SPINLOCK_UNLOCKED) as [Hl|]; [|done].
  intros [= <- <- <-]. split_and!; [done|done| |done].
  set (s1 := with_cpu _ s). assert (rflags (cpu (preempt_disable s1)) = Z.ldiff (rflags (cpu s)) KOS_RFLAGS_IF) as ->.
  { unfold preempt_disable. destruct (negb _); [done|]. destruct (current_task s1) as [x|]; [|done].
    unfold modify. destruct (get x s1) as [t|]; [|done]. by destruct x. }
  rewrite Z.ldiff_land, <- Z.land_assoc, (Z.land_comm (Z.lnot _)), Z.land_lnot_diag. apply Z.land_0_r.
Qed.

(** Taking a lock the processor already holds never returns. *)
Lemma relock_hangs rip l s : lock l = KOS_SPINLOCK_LOCKED → spinlock_lock_irqsave rip (Some l) s = None.
Proof. intros Hl. unfold spinlock_lock_irqsave. simpl. by rewrite Hl. Qed.
