(* ===== verification/Wait.v ===== *)
(** * Wait queues and events (src/kernel/wait.c, src/include/kos/wait.h)

    A wait queue entry lives on the stack of the thread that waits, and a thread
    is in one wait at a time, so an entry is named by its thread: [head] is the
    list of the linked entries in order.  The locks of a queue and of an event are
    held with interrupts off on one processor; what remains of them is their
    effect on the interrupt flag and the preemption count, and the reschedule that
    may happen when they are released.  [wait_event] and [wait_event_timeout] run
    over several visits to the processor: the position of a thread in them is its
    program counter, and [wait_step] is the code up to the next point where
    another thread or an interrupt can come in. *)

From Stdlib Require Import ZArith Lia.
From stdpp Require Import gmap.
From S2P Require Import Prelude Object Handle Task.
#[local] Open Scope Z_scope.

#[export] Instance task_ref_countable : Countable task_ref.
Proof.
  refine (inj_countable' (λ r, match r with Slot i => Some i | Idle => None end)
            (λ o, match o with Some i => Slot i | None => Idle end) _).
  by intros [].
Defined.

(** ** Data *)

Definition WQ_FLAG_WOKEN : Z := 2.

Record wait_queue := WaitQueue { head : list task_ref; waiter_count : Z }.

Record kos_event_object := Event { wq : wait_queue; manual_reset : bool; signaled : bool }.

Definition set_wq (q : wait_queue) (e : kos_event_object) : kos_event_object :=
  Event q (manual_reset e) (signaled e).
Definition set_signaled (b : bool) (e : kos_event_object) : kos_event_object :=
  Event (wq e) (manual_reset e) b.

(** The [flags] of the entries. *)
Definition entry_flags := gmap task_ref Z.

(** ** The queue *)

Definition wait_queue_init : wait_queue := WaitQueue [] 0.

Definition wait_queue_add (r : task_ref) (q : wait_queue) : wait_queue :=
  WaitQueue (head q ++ [r]) (u32 (waiter_count q + 1)).

Definition count_down (n : Z) : Z := if n >? 0 then n - 1 else n.

Definition wait_queue_remove (r : task_ref) (q : wait_queue) : wait_queue :=
  if bool_decide (r ∈ head q) then WaitQueue (filter (λ x, x ≠ r) (head q)) (count_down (waiter_count q)) else q.

Section layout.
Context (L : task_layout).

(** The locks: [spinlock_lock_irqsave] and [spinlock_unlock_irqrestore]. *)
Definition lock_irqsave (s : sched) : Z * sched :=
  let '(flags, s) := cpu_interrupt_save_disable s in (flags, preempt_disable s).
Definition unlock_irqrestore (flags : Z) (s : sched) : sched := preempt_enable L (cpu_interrupt_restore flags s).

(** [entry->flags |= WQ_FLAG_WOKEN] and [task_unblock(entry->task)]. *)
Definition wake_entry (r : task_ref) (fs : entry_flags * sched) : entry_flags * sched :=
  (<[r := Z.lor (default 0 (fs.1 !! r)) WQ_FLAG_WOKEN]> fs.1, task_unblock (Some r) fs.2).

Definition wait_queue_wake_one (q : wait_queue) (fl : entry_flags) (s : sched) : wait_queue * entry_flags * sched :=
  let '(flags, s) := lock_irqsave s in
  match head q with
  | [] => (q, fl, unlock_irqrestore flags s)
  | r :: rest =>
      let '(fl, s) := wake_entry r (fl, s) in
      (WaitQueue rest (count_down (waiter_count q)), fl, unlock_irqrestore flags (task_request_reschedule s))
  end.

Fixpoint wake_entries (l : list task_ref) (n : Z) (fs : entry_flags * sched) : Z * (entry_flags * sched) :=
  match l with
  | [] => (n, fs)
  | r :: l => wake_entries l (count_down n) (wake_entry r fs)
  end.

Definition wait_queue_wake_all (q : wait_queue) (fl : entry_flags) (s : sched) : wait_queue * entry_flags * sched :=
  let '(flags, s) := lock_irqsave s in
  let '(n, (fl, s)) := wake_entries (head q) (waiter_count q) (fl, s) in
  (WaitQueue [] n, fl, unlock_irqrestore flags (task_request_reschedule s)).

(** ** Events *)

Definition event_check_condition (e : kos_event_object) (s : sched) : bool * kos_event_object * sched :=
  let '(flags, s) := lock_irqsave s in
  let is_sig := signaled e in
  let e := if is_sig && negb (manual_reset e) then set_signaled false e else e in
  (is_sig, e, unlock_irqrestore flags s).

(** The body of [event_signal], once the event is found. *)
Definition signal_event (e : kos_event_object) (fl : entry_flags) (s : sched) : kos_event_object * entry_flags * sched :=
  let '(flags, s) := lock_irqsave s in
  let e := set_signaled true e in
  let '(e, fl, s) :=
    if manual_reset e then
      let '(q, fl, s) := wait_queue_wake_all (wq e) fl s in (set_wq q e, fl, s)
    else
      let '(q, fl, s) := wait_queue_wake_one (wq e) fl s in (set_signaled false (set_wq q e), fl, s) in
  (e, fl, unlock_irqrestore flags s).

(** The body of [event_reset]. *)
Definition reset_event (e : kos_event_object) (s : sched) : kos_event_object * sched :=
  let '(flags, s) := lock_irqsave s in (set_signaled false e, unlock_irqrestore flags s).

(** ** Kernel objects *)

Record wait_kernel := WaitKernel {
  ker : kernel;
  events : gmap Z kos_event_object;
  wait_objects : gmap Z wait_queue;
}.

Definition with_events (m : gmap Z kos_event_object) (k : wait_kernel) : wait_kernel :=
  WaitKernel (ker k) m (wait_objects k).

(** [kos_object_unref] on a new object; its destructor finds an empty queue and
    frees the object. *)
Definition drop_new (ptr : Z) (k : wait_kernel) : wait_kernel :=
  let os := objects (ker k) in
  let dead := match headers os !! ptr with
              | Some h => snd (atomic_dec_and_test (refcount h))
              | None => false
              end in
  let kk := with_objects (ker k) (kos_object_unref ptr os) in
  if dead then WaitKernel kk (delete ptr (events k)) (delete ptr (wait_objects k))
  else WaitKernel kk (events k) (wait_objects k).

Definition EVENT_RIGHTS : Z :=
  Z.lor KOS_RIGHT_WAIT (Z.lor KOS_RIGHT_SIGNAL (Z.lor KOS_RIGHT_READ
    (Z.lor KOS_RIGHT_WRITE (Z.lor KOS_RIGHT_DUPLICATE KOS_RIGHT_DESTROY)))).
Definition WAIT_QUEUE_RIGHTS : Z :=
  Z.lor KOS_RIGHT_WAIT (Z.lor KOS_RIGHT_SIGNAL (Z.lor KOS_RIGHT_READ
    (Z.lor KOS_RIGHT_DUPLICATE KOS_RIGHT_DESTROY))).

(** [ptr] is what [kmalloc] returned. *)
Definition event_create (proc : option Handle.process) (manual initial : bool) (ptr : Z) (k : wait_kernel)
  : Z * wait_kernel :=
  match proc with
  | None => (KOS_INVALID_HANDLE, k)
  | Some _ =>
      if ptr =? 0 then (KOS_INVALID_HANDLE, k)
      else
        let kk := with_objects (ker k) (kos_object_init ptr KOS_OBJ_EVENT true (objects (ker k))) in
        let evs := <[ptr := Event wait_queue_init manual initial]> (events k) in
        let '(h, kk) := handle_create proc ptr EVENT_RIGHTS kk in
        (h, drop_new ptr (WaitKernel kk evs (wait_objects k)))
  end.

Definition wait_queue_create_object (proc : option Handle.process) (ptr : Z) (k : wait_kernel) : Z * wait_kernel :=
  match proc with
  | None => (KOS_INVALID_HANDLE, k)
  | Some _ =>
      if ptr =? 0 then (KOS_INVALID_HANDLE, k)
      else
        let kk := with_objects (ker k) (kos_object_init ptr KOS_OBJ_WAIT_QUEUE true (objects (ker k))) in
        let '(h, kk) := handle_create proc ptr WAIT_QUEUE_RIGHTS kk in
        (h, drop_new ptr (WaitKernel kk (events k) (<[ptr := wait_queue_init]> (wait_objects k))))
  end.

(** ** Waiting threads *)

(** [limit] is the deadline of [wait_event_timeout], [None] in [wait_event]. *)
Inductive wait_pc :=
  | Begin (timeout : option Z)                  (** before the first look at the condition *)
  | Polling (limit : option (Z * Z))            (** the busy wait of early boot *)
  | Loop (limit : option Z)                     (** top of the loop *)
  | Parked (limit : option Z)                   (** about to call [schedule] *)
  | Resumed (limit : option Z)                  (** back from it, with a deadline *)
  | Leaving (success : bool)                    (** out of the loop, with a deadline *)
  | Removing (success : bool)                   (** the last section *)
  | Returned (success : bool).

Record world := World {
  sch : sched;
  objs : wait_kernel;
  flags_of : entry_flags;
  pcs : gmap task_ref (Z * wait_pc);            (** the event a thread waits for, and where it is *)
}.

Definition goto (r : task_ref) (a : Z) (pc : wait_pc) (s : sched) (w : world) : world :=
  World s (objs w) (flags_of w) (<[r := (a, pc)]> (pcs w)).
Definition put_event (a : Z) (e : kos_event_object) (w : world) : world :=
  World (sch w) (with_events (<[a := e]> (events (objs w))) (objs w)) (flags_of w) (pcs w).

(** The deadline [timeout_ms] after [now], in ticks. *)
Definition deadline (now ticks : Z) : Z :=
  let ticks := if ticks =? 0 then 1 else ticks in
  if u64 (now + ticks) <? now then UINT64_MAX else u64 (now + ticks).

(** The loop of [wait_event] and [wait_event_timeout] from its top to [schedule],
    or out of it. *)
Definition wait_loop (now : Z) (r : task_ref) (limit : option Z) (e : kos_event_object) (s : sched)
  : wait_pc * kos_event_object * sched :=
  let '(flags, s) := lock_irqsave s in
  let '(ok, e, s) := event_check_condition e s in
  if ok then
    (match limit with Some _ => Leaving true | None => Removing true end,
     set_wq (wait_queue_remove r (wq e)) e, unlock_irqrestore flags s)
  else if match limit with Some d => d <=? now | None => false end then
    (Leaving false, set_wq (wait_queue_remove r (wq e)) e, unlock_irqrestore flags s)
  else
    let q := if bool_decide (r ∈ head (wq e)) then wq e else wait_queue_add r (wq e) in
    let s := match limit with Some d => task_sleep_enqueue L (Some r) d s | None => s end in
    let s := task_block (Some r) s in
    (Parked limit, set_wq q e, unlock_irqrestore flags s).

(** The first look at the condition, and the choice of the way to wait; [now] and
    [ticks] are [timer_get_ticks()] and [timer_ms_to_ticks(timeout_ms)]. *)
Definition wait_begin (now ticks : Z) (timeout : option Z) (e : kos_event_object) (s : sched)
  : wait_pc * kos_event_object * sched :=
  let '(ok, e, s) := event_check_condition e s in
  if ok then (Returned true, e, s)
  else
    let active := match task_current s with Some _ => task_is_multitasking_active s | None => false end in
    match timeout with
    | None => (if active then Loop None else Polling None, e, s)
    | Some _ =>
        (if active then Loop (Some (deadline now ticks))
         else Polling (Some (now, if ticks =? 0 then 1 else ticks)), e, s)
    end.

(** One round of the busy wait; with a limit the condition is evaluated again for
    the result. *)
Definition wait_polling (now : Z) (limit : option (Z * Z)) (e : kos_event_object) (s : sched)
  : wait_pc * kos_event_object * sched :=
  let '(ok, e, s) := event_check_condition e s in
  match limit with
  | None => (if ok then Returned true else Polling None, e, s)
  | Some (start, ticks) =>
      if ok then let '(ok, e, s) := event_check_condition e s in (Returned ok, e, s)
      else (if u64 (now - start) >=? ticks then Returned false else Polling limit, e, s)
  end.

(** The last section of both functions. *)
Definition wait_remove (r : task_ref) (e : kos_event_object) (s : sched) : kos_event_object * sched :=
  let '(flags, s) := lock_irqsave s in
  (set_wq (wait_queue_remove r (wq e)) e, unlock_irqrestore flags s).

(** The thread [r] runs to its next point; [None] when it touches an event that
    has been freed. *)
Definition wait_step (now ticks : Z) (r : task_ref) (w : world) : option world :=
  match pcs w !! r with
  | None | Some (_, Returned _) => Some w
  | Some (a, Parked limit) =>
      let s := schedule L (sch w) in
      Some (goto r a (match limit with Some _ => Resumed limit | None => Loop None end) s w)
  | Some (a, Resumed limit) => Some (goto r a (Loop limit) (task_sleep_dequeue L (Some r) (sch w)) w)
  | Some (a, Leaving b) => Some (goto r a (Removing b) (task_sleep_dequeue L (Some r) (sch w)) w)
  | Some (a, pc) =>
      match events (objs w) !! a with
      | None => None
      | Some e =>
          let '(pc', e, s) :=
            match pc with
            | Begin timeout => wait_begin now ticks timeout e (sch w)
            | Polling limit => wait_polling now limit e (sch w)
            | Loop limit => wait_loop now r limit e (sch w)
            | Removing b => let '(e, s) := wait_remove r e (sch w) in (Returned b, e, s)
            | pc => (pc, e, sch w)
            end in
          let fl := match pc, pc' with Begin _, Loop _ => <[r := 0]> (flags_of w) | _, _ => flags_of w end in
          Some (put_event a e (goto r a pc' s (World (sch w) (objs w) fl (pcs w))))
      end
  end.

(** [event_signal], [event_reset] and [event_wait] of a process. *)
Definition lookup_event (proc : option Handle.process) (handle right : Z) (w : world) : option (Z * kos_event_object) :=
  let a := handle_lookup_type proc handle KOS_OBJ_EVENT right (ker (objs w)) in
  if a =? 0 then None
  else match events (objs w) !! a with Some e => Some (a, e) | None => None end.

Definition event_signal (proc : option Handle.process) (handle : Z) (w : world) : bool * world :=
  match lookup_event proc handle KOS_RIGHT_SIGNAL w with
  | None => (false, w)
  | Some (a, e) =>
      let '(e, fl, s) := signal_event e (flags_of w) (sch w) in
      (true, put_event a e (World s (objs w) fl (pcs w)))
  end.

Definition event_reset (proc : option Handle.process) (handle : Z) (w : world) : bool * world :=
  match lookup_event proc handle KOS_RIGHT_SIGNAL w with
  | None => (false, w)
  | Some (a, e) =>
      let '(e, s) := reset_event e (sch w) in
      (true, put_event a e (World s (objs w) (flags_of w) (pcs w)))
  end.

(** The call: [None] is a return of [false] at once, otherwise the thread is
    inside the call. *)
Definition event_wait (r : task_ref) (proc : option Handle.process) (handle timeout_ms : Z) (w : world) : option world :=
  match lookup_event proc handle KOS_RIGHT_WAIT w with
  | None => None
  | Some (a, e) =>
      if timeout_ms =? 0 then
        let '(ok, e, s) := event_check_condition e (sch w) in
        Some (put_event a e (goto r a (Returned ok) s w))
      else if timeout_ms =? UINT64_MAX then Some (goto r a (Begin None) (sch w) w)
      else Some (goto r a (Begin (Some timeout_ms)) (sch w) w)
  end.

(** The destructor of an event: the waiters are woken and the object is freed. *)
Definition event_destructor (a : Z) (w : world) : world :=
  match events (objs w) !! a with
  | None => w
  | Some e =>
      let '(_, fl, s) := wait_queue_wake_all (wq e) (flags_of w) (sch w) in
      World s (with_events (delete a (events (objs w))) (objs w)) fl (pcs w)
  end.

(** The destructor of a wait queue object. *)
Definition wait_queue_object_destructor (a : Z) (w : world) : world :=
  match wait_objects (objs w) !! a with
  | None => w
  | Some q =>
      let '(_, fl, s) := wait_queue_wake_all q (flags_of w) (sch w) in
      World s (WaitKernel (ker (objs w)) (events (objs w)) (delete a (wait_objects (objs w)))) fl (pcs w)
  end.

End layout.
