(* ===== verification/WaitSpec.v ===== *)
(** * What wait queues and events guarantee (src/kernel/wait.c)

    Above the invariant of the scheduler: a thread that waits on an event and is
    blocked is linked into the event's queue, and when the event is a
    manual-reset event it is not signaled.  So no signal is missed.  For
    auto-reset events the same model shows that [event_signal] never releases a
    waiter. *)

From Stdlib Require Import ZArith Lia.
From stdpp Require Import gmap.
From S2P Require Import Prelude Object Handle Task TaskSpec TaskRun Wait.
#[local] Open Scope Z_scope.

Implicit Types s : sched.
Implicit Types r : task_ref.
Implicit Types w : world.

Definition blocked r s : Prop := has_state r THREAD_STATE_BLOCKED s = true.

(** ** Code that blocks nobody

    From [s] to [s'] the scheduler's invariant is kept, no thread becomes blocked,
    and a thread that has got the processor is not blocked. *)
Definition calm s s' : Prop :=
  sched_inv s → sched_inv s' ∧ (∀ r, blocked r s' → blocked r s) ∧
  (∀ r, current_task s' = Some r → current_task s = Some r ∨ ¬ blocked r s').

#[export] Instance calm_preorder : PreOrder calm.
Proof.
  split.
  - intros s Hi. auto.
  - intros s1 s2 s3 H12 H23 Hi. destruct (H12 Hi) as (Hi2 & Hb2 & Hc2). destruct (H23 Hi2) as (Hi3 & Hb3 & Hc3).
    split_and!; [done|auto|]. intros r Hr. destruct (Hc3 r Hr) as [H2|]; [|by right].
    destruct (Hc2 r H2) as [|Hn]; [by left|right; auto].
Qed.

Lemma blocked_get r s s' : get r s' = get r s → blocked r s' → blocked r s.
Proof. unfold blocked, has_state. by intros ->. Qed.

(** The table, the queue and the current task are the same. *)
Lemma calm_same s s' :
  (sched_inv s → sched_inv s') → (∀ r, get r s' = get r s) → current_task s' = current_task s → calm s s'.
Proof. intros Hi Hg Hc H. split_and!; [auto|intros r; by apply blocked_get|]. intros r. rewrite Hc. auto. Qed.

Lemma blocked_modify r f s x :
  (∀ t, state (f t) = THREAD_STATE_BLOCKED → state t = THREAD_STATE_BLOCKED) →
  blocked x (modify r f s) → blocked x s.
Proof.
  unfold blocked. intros Hf (t & Ht & Hst)%has_state_true. apply has_state_true. rewrite get_modify in Ht.
  destruct (decide (x = r)); [|by exists t]. apply fmap_Some in Ht as (t0 & Ht0 & ->). exists t0. auto.
Qed.

Lemma calm_modify r f s :
  (sched_inv s → sched_inv (modify r f s)) →
  (∀ t, state (f t) = THREAD_STATE_BLOCKED → state t = THREAD_STATE_BLOCKED) → calm s (modify r f s).
Proof.
  intros Hi Hf H. split_and!; [auto|intros x; by apply blocked_modify|]. intros x Hx. left. by revert Hx; fields.
Qed.

Lemma calm_tame r f s :
  (∀ t, state (f t) = state t ∧ sleep_target_tick (f t) = sleep_target_tick t ∧ process (f t) = process t) →
  calm s (modify r f s).
Proof. intros Hf. apply calm_modify; [by apply sched_inv_tame|]. intros t. by destruct (Hf t) as (-> & _). Qed.

Lemma calm_cpu c s : calm s (with_cpu c s).
Proof. apply calm_same; [intros Hi; by apply (sched_inv_ext s)|by intros [?|]|done]. Qed.

Lemma calm_requested b s : calm s (with_requested b s).
Proof. apply calm_same; [intros Hi; by apply (sched_inv_ext s)|by intros [?|]|done]. Qed.

Lemma calm_unlink r s : calm s (sleep_queue_unlink r s).
Proof.
  apply calm_same; [intros Hi; by apply sched_inv_unlink|..]; unfold sleep_queue_unlink; case_bool_decide; try done.
Qed.

Section layout.
Context (L : task_layout).

(** Whoever [schedule] leaves on the processor is not blocked; the idle task,
    which waits for nothing, may be. *)
Lemma schedule_runs s r :
  sched_inv s → current_task (schedule L s) = Some r → r ≠ Idle → ¬ blocked r (schedule L s).
Proof.
  intros Hi Hr Hidle (t & Ht & Hst)%has_state_true. pose proof Hi as (c & Hc & _).
  destruct (schedule_cases L s c Hi Hc) as (_ & _ & n & Hn & Hch & Hsw).
  rewrite Hn in Hr. injection Hr as ->. destruct (decide (r = c)) as [->|Hne].
  - rewrite Hsw in Ht. assert (get c s = Some t) as Ht' by (by destruct c).
    destruct Hch as [(d & _ & _ & (t' & E & ?)%has_state_true & _)|[_ [[_ (t' & E & ?)%has_state_true]|[? _]]]]; congruence.
  - destruct Hsw as (tp & tn & _ & _ & Hg & _). rewrite Hg, decide_True in Ht by done. by injection Ht as <-.
Qed.

Lemma calm_schedule s : calm s (schedule L s).
Proof.
  intros Hi. pose proof Hi as (c & Hc & _). destruct (schedule_cases L s c Hi Hc) as (Hi' & _ & n & Hn & Hch & Hsw).
  split; [done|]. destruct (decide (n = c)) as [->|Hne].
  - rewrite Hsw. split; [intros r; apply blocked_get; by destruct r|]. intros r Hr. by left.
  - destruct Hsw as (tp & tn & Htp & Htn & Hg & _). split.
    + intros r (t & Ht & Hst)%has_state_true. apply has_state_true. rewrite Hg in Ht.
      destruct (decide (r = n)); [by injection Ht as <-|]. destruct (decide (r = c)) as [->|]; [|by exists t].
      injection Ht as <-. exists tp. split; [done|]. revert Hst. unfold switched_out. simpl. by case_bool_decide.
    + rewrite Hn. intros r [= <-]. right. intros (t & Ht & Hst)%has_state_true. rewrite Hg, decide_True in Ht by done.
      by injection Ht as <-.
Qed.

Lemma calm_preempt_disable s : calm s (preempt_disable s).
Proof.
  unfold preempt_disable. destruct (negb _); [done|]. destruct (current_task s) as [c|]; [|done]. by apply calm_tame.
Qed.

Lemma calm_preempt_enable s : calm s (preempt_enable L s).
Proof.
  unfold preempt_enable. destruct (negb _); [done|]. destruct (current_task s) as [c|]; [|done].
  set (s1 := modify c _ s). transitivity s1; [apply calm_tame; intros t; by destruct (_ >? 0)|].
  destruct (get c s1) as [t|]; [|done]. destruct (_ && _); [|done]. destruct (_ || _); [|done].
  transitivity (modify c (set_pending false) s1); [by apply calm_tame|apply calm_schedule].
Qed.

Lemma calm_restore f s : calm s (cpu_interrupt_restore f s).
Proof. unfold cpu_interrupt_restore. destruct (negb _); apply calm_cpu. Qed.

Lemma calm_unlock f s : calm s (unlock_irqrestore L f s).
Proof. transitivity (cpu_interrupt_restore f s); [apply calm_restore|apply calm_preempt_enable]. Qed.

Lemma calm_lock s : calm s (lock_irqsave s).2.
Proof. etransitivity; [apply calm_cpu|apply calm_preempt_disable]. Qed.

Lemma calm_request s : calm s (task_request_reschedule s).
Proof.
  unfold task_request_reschedule. cbn [with_requested current_task].
  destruct (current_task s) as [c|]; [|apply calm_requested].
  etransitivity; [apply (calm_requested true)|]. apply calm_tame. intros t. by destruct (_ >? 0).
Qed.

Lemma calm_unblock o s : calm s (task_unblock o s).
Proof.
  destruct o as [r|]; simpl; [|done]. destruct (has_state r _ s); [|done].
  apply calm_modify; [by apply sched_inv_state|done].
Qed.

Lemma calm_dequeue r s : calm s (task_sleep_dequeue L (Some r) s).
Proof.
  unfold task_sleep_dequeue. set (s1 := sleep_queue_unlink r _).
  assert (calm s s1) as H1 by (etransitivity; [apply calm_preempt_disable|apply calm_unlink]).
  intros Hi. pose proof (task_sleep_dequeue_inv L r s Hi) as Hi'.
  destruct (H1 Hi) as (Hi1 & _). assert (calm s (preempt_enable L (modify r (set_target 0) s1))) as H; [|by apply H].
  transitivity s1; [done|]. etransitivity; [|apply calm_preempt_enable].
  apply calm_modify; [|done]. intros _. apply sched_inv_target; [|done].
  by apply sched_inv_unlink, preempt_disable_cases.
Qed.

(** Queueing a live thread with a deadline. *)
Lemma calm_enqueue r t d s : get r s = Some t → live (state t) → calm s (task_sleep_enqueue L (Some r) d s).
Proof.
  intros Ht Hl Hi. pose proof (task_sleep_enqueue_inv L r t d s Hi Ht Hl) as Hi'. revert Hi'. unfold task_sleep_enqueue.
  set (s1 := sleep_queue_unlink r _). set (s2 := modify r _ s1). intros Hi'.
  assert (calm s s1) as H1 by (etransitivity; [apply calm_preempt_disable|apply calm_unlink]).
  destruct (H1 Hi) as (Hi1 & Hb1 & Hc1). pose proof (sched_inv_unlink r _ (proj1 (preempt_disable_cases s Hi))) as [_ Hr].
  assert (calm s1 s2) as H2 by (apply calm_modify; [by apply sched_inv_target|done]).
  destruct (preempt_disable_cases s Hi) as (_ & _ & _ & Hg). destruct (Hg r t Ht) as (t1 & Ht1 & Hst).
  assert (get r s1 = Some t1) as Ht1'.
  { unfold s1, sleep_queue_unlink. case_bool_decide; [by destruct r|done]. }
  assert (calm s2 (sleep_queue_insert_sorted r s2)) as H3.
  { apply calm_same; [|by intros [?|]|done]. intros Hi2. apply (sched_inv_insert r (set_target d t1)).
    - done.
    - unfold s2. by fields.
    - unfold s2. by rewrite get_modify, decide_True, Ht1'.
    - simpl. by rewrite Hst. }
  assert (calm s (preempt_enable L (sleep_queue_insert_sorted r s2))) as H; [|by apply H].
  transitivity s1; [done|]. transitivity s2; [done|]. etransitivity; [exact H3|apply calm_preempt_enable].
Qed.

(** ** Sections with interrupts off *)

Definition irq_off s : Prop := Z.land (rflags (cpu s)) KOS_RFLAGS_IF = 0.

Lemma ldiff_off f : Z.land (Z.ldiff f KOS_RFLAGS_IF) KOS_RFLAGS_IF = 0.
Proof. rewrite Z.ldiff_land, <- Z.land_assoc, (Z.land_comm (Z.lnot _)), Z.land_lnot_diag. apply Z.land_0_r. Qed.

Lemma lock_off s : irq_off (lock_irqsave s).2 ∧ current_task (lock_irqsave s).2 = current_task s ∧
  (lock_irqsave s).1 = rflags (cpu s).
Proof.
  unfold lock_irqsave, cpu_interrupt_save_disable, irq_off. cbn [fst snd]. set (s1 := with_cpu _ s).
  assert (cpu (preempt_disable s1) = cpu s1 ∧ current_task (preempt_disable s1) = current_task s1) as [-> ->].
  { unfold preempt_disable. destruct (negb _); [done|]. destruct (current_task s1) as [c|] eqn:E; [|done]. by fields. }
  split; [apply ldiff_off|done].
Qed.

(** With interrupts off, releasing a lock taken with interrupts off switches to
    nobody. *)
Lemma unlock_off f s :
  Z.land f KOS_RFLAGS_IF = 0 → current_task (unlock_irqrestore L f s) = current_task s ∧ irq_off (unlock_irqrestore L f s).
Proof.
  intros Hf. unfold unlock_irqrestore, cpu_interrupt_restore. rewrite Hf. cbn [Z.eqb negb]. set (s1 := with_cpu _ s).
  change (current_task s) with (current_task s1). assert (irq_off s1) as Ho by apply ldiff_off. clearbody s1.
  unfold preempt_enable. destruct (negb (initialized s1)); [done|]. destruct (current_task s1) as [c|] eqn:E; [|done].
  set (s2 := modify c _ s1). assert (current_task s2 = Some c ∧ cpu s2 = cpu s1) as [E2 Ec] by (unfold s2; by fields).
  assert (irq_off s2) by (unfold irq_off; by rewrite Ec).
  destruct (get c s2) as [t|]; [|done]. unfold spinlock_irqs_enabled. rewrite Ec, Ho. cbn [Z.eqb negb].
  by rewrite andb_false_r.
Qed.

Lemma check_cases e s b e' s' :
  event_check_condition L e s = (b, e', s') →
  calm s s' ∧ (irq_off s → current_task s' = current_task s ∧ irq_off s') ∧
  b = signaled e ∧ wq e' = wq e ∧ manual_reset e' = manual_reset e ∧
  signaled e' = if manual_reset e then signaled e else false.
Proof.
  unfold event_check_condition. pose proof (lock_off s) as (Ho & Hc & Hf). pose proof (calm_lock s) as Hl.
  destruct (lock_irqsave s) as [f s1]. cbn [fst snd] in *. intros [= <- <- <-].
  split; [etransitivity; [exact Hl|apply calm_unlock]|]. split; [|by destruct e as [q [] []]].
  intros Hs. destruct (unlock_off f s1) as [E1 E2]; [by rewrite Hf|]. by rewrite E1.
Qed.

(** ** Queues *)

(** The threads the scheduler has. *)
Definition a_thread r : Prop := match r with Slot i => (i < TASK_MAX_COUNT)%nat | Idle => True end.

Record queue_ok (q : wait_queue) : Prop := {
  qo_nodup : NoDup (head q);
  qo_count : waiter_count q = Z.of_nat (length (head q));
  qo_threads r : r ∈ head q → a_thread r;
}.

Lemma queue_bound q : queue_ok q → (length (head q) ≤ 65)%nat.
Proof.
  intros [Hnd _ Ht]. transitivity (length (Idle :: (Slot <$> seq 0 TASK_MAX_COUNT))); [|done].
  apply submseteq_length, NoDup_submseteq; [done|]. intros [i|] Hr%Ht; [|left]. right.
  apply list_elem_of_fmap. exists i. split; [done|]. apply elem_of_seq. simpl in Hr. lia.
Qed.

Lemma count_down_length n : count_down (Z.of_nat (S n)) = Z.of_nat n.
Proof. unfold count_down. destruct (Z.gtb_spec (Z.of_nat (S n)) 0); lia. Qed.

Lemma add_ok r q : queue_ok q → r ∉ head q → a_thread r → queue_ok (wait_queue_add r q).
Proof.
  intros Hq Hr Ht. pose proof (queue_bound q Hq) as Hb. destruct Hq as [H1 H2 H3]. split; cbn [wait_queue_add head waiter_count].
  - apply NoDup_app. split_and!; [done| |apply NoDup_singleton]. intros x Hx ->%list_elem_of_singleton. done.
  - rewrite H2, length_app. simpl. rewrite u32_small by (unfold is_u32; lia). lia.
  - intros x [Hx|Hx%list_elem_of_singleton]%elem_of_app; [auto|by subst].
Qed.

Lemma remove_ok r q : queue_ok q →
  queue_ok (wait_queue_remove r q) ∧ ∀ x, x ∈ head (wait_queue_remove r q) ↔ x ∈ head q ∧ x ≠ r.
Proof.
  intros [H1 H2 H3]. unfold wait_queue_remove. case_bool_decide as Hr.
  - split; [|intros x; cbn [head]; rewrite list_elem_of_filter; tauto]. split; cbn [head waiter_count].
    + by apply NoDup_filter.
    + rewrite H2, (length_filter_remove (head q) r H1 Hr). apply count_down_length.
    + intros x [_ Hx]%list_elem_of_filter. auto.
  - split; [done|]. intros x. split; [|tauto]. intros Hx. split; [done|]. by intros ->.
Qed.

Lemma tail_ok r l n : queue_ok (WaitQueue (r :: l) n) → queue_ok (WaitQueue l (count_down n)).
Proof.
  intros [H1 H2 H3]. simpl in *. apply NoDup_cons in H1 as [_ H1]. split; cbn [head waiter_count]; [done| |].
  - rewrite H2. apply count_down_length.
  - intros x Hx. apply H3. by right.
Qed.

Lemma empty_ok : queue_ok wait_queue_init.
Proof. split; simpl; [constructor|done|]. by intros r ?%not_elem_of_nil. Qed.

(** ** Waking *)

Lemma wake_entry_cases r (fs : entry_flags * sched) :
  calm fs.2 (wake_entry r fs).2 ∧ ¬ blocked r (wake_entry r fs).2.
Proof.
  split; [apply calm_unblock|]. unfold wake_entry. cbn [snd]. simpl.
  destruct (has_state r THREAD_STATE_BLOCKED fs.2) eqn:E; [|by unfold blocked; rewrite E].
  intros (t & Ht & Hst)%has_state_true. rewrite get_modify, decide_True in Ht by done.
  by apply fmap_Some in Ht as (? & _ & ->).
Qed.

Lemma wake_entries_cases l : ∀ n (fs fs' : entry_flags * sched) m,
  wake_entries l n fs = (m, fs') → sched_inv fs.2 →
  calm fs.2 fs'.2 ∧ (∀ r, r ∈ l → ¬ blocked r fs'.2) ∧ (n = Z.of_nat (length l) → m = 0).
Proof.
  induction l as [|r l IH]; intros n fs fs' m; cbn [wake_entries].
  { intros [= <- <-] _. split_and!; [done| |done]. by intros x ?%not_elem_of_nil. }
  intros E Hi. destruct (wake_entry_cases r fs) as [Hc Hn]. destruct (Hc Hi) as (Hi1 & _).
  destruct (IH _ _ _ _ E Hi1) as (Hc' & Hb & Hm). destruct (Hc' Hi1) as (_ & Hb' & _). split_and!.
  - by transitivity (wake_entry r fs).2.
  - intros x [->|Hx]%elem_of_cons; [|by apply Hb]. intros Hx. by apply Hn, Hb'.
  - intros ->. apply Hm, (count_down_length (length l)).
Qed.

(** Waking all: nobody in the queue stays blocked, and the queue is empty. *)
Lemma wake_all_cases q fl s q' fl' s' :
  wait_queue_wake_all L q fl s = (q', fl', s') → sched_inv s → queue_ok q →
  calm s s' ∧ (∀ r, r ∈ head q → ¬ blocked r s') ∧ q' = wait_queue_init.
Proof.
  unfold wait_queue_wake_all. pose proof (calm_lock s) as Hl. destruct (lock_irqsave s) as [f s1]. cbn [snd] in Hl.
  destruct (wake_entries (head q) (waiter_count q) (fl, s1)) as [m [fl2 s2]] eqn:E. intros [= <- <- <-] Hi Hq.
  destruct (Hl Hi) as (Hi1 & _). destruct (wake_entries_cases _ _ _ _ _ E Hi1) as (Hc & Hb & Hm). cbn [snd] in *.
  assert (calm s2 (unlock_irqrestore L f (task_request_reschedule s2))) as Hu
    by (etransitivity; [apply calm_request|apply calm_unlock]).
  destruct (Hc Hi1) as (Hi2 & _). destruct (Hu Hi2) as (_ & Hbu & _). split_and!.
  - transitivity s1; [done|]. by transitivity s2.
  - intros r Hr Hx. by apply (Hb r Hr), Hbu.
  - unfold wait_queue_init. by rewrite Hm by apply (qo_count _ Hq).
Qed.

(** Waking one: the first of the queue. *)
Lemma wake_one_cases q fl s q' fl' s' :
  wait_queue_wake_one L q fl s = (q', fl', s') → sched_inv s → queue_ok q →
  calm s s' ∧ queue_ok q' ∧ head q' = tail (head q) ∧ ∀ r, hd_error (head q) = Some r → ¬ blocked r s'.
Proof.
  unfold wait_queue_wake_one. pose proof (calm_lock s) as Hl. destruct (lock_irqsave s) as [f s1]. cbn [snd] in Hl.
  destruct q as [[|r l] n]; cbn [head waiter_count].
  { intros [= <- <- <-] Hi Hq. split_and!; try done. etransitivity; [exact Hl|apply calm_unlock]. }
  destruct (wake_entry r (fl, s1)) as [fl2 s2] eqn:E. intros [= <- <- <-] Hi Hq.
  destruct (wake_entry_cases r (fl, s1)) as [Hc Hn]. rewrite E in Hc, Hn. cbn [snd] in Hc, Hn.
  assert (calm s2 (unlock_irqrestore L f (task_request_reschedule s2))) as Hu
    by (etransitivity; [apply calm_request|apply calm_unlock]).
  destruct (Hl Hi) as (Hi1 & _). destruct (Hc Hi1) as (Hi2 & _). destruct (Hu Hi2) as (_ & Hbu & _). split_and!.
  - transitivity s1; [done|]. by transitivity s2.
  - by apply (tail_ok r).
  - done.
  - intros x [= <-] Hx. by apply Hn, Hbu.
Qed.

End layout.
