(* ===== verification/WaitRun.v ===== *)
(** * Runs of threads that wait on events (src/kernel/wait.c)

    Threads, signals, resets, creation and destruction of events, and anything
    else the scheduler does, in any order: the invariant of the reachable states,
    and what it says of manual-reset and of auto-reset events. *)

From Stdlib Require Import ZArith Lia.
From stdpp Require Import gmap.
From S2P Require Import Prelude Object Handle Task TaskSpec TaskRun Wait WaitSpec.
#[local] Open Scope Z_scope.

Implicit Types s : sched.
Implicit Types r : task_ref.
Implicit Types w : world.

(** ** The invariant *)

Definition inside (pc : wait_pc) : Prop := match pc with Returned _ => False | _ => True end.
(** Positions at which the thread's entry may be in the queue. *)
Definition linkable (pc : wait_pc) : Prop :=
  match pc with Begin _ | Polling _ | Returned _ => False | _ => True end.
Definition parked (pc : wait_pc) : Prop := match pc with Parked _ => True | _ => False end.

Definition event_at (a : Z) w : option kos_event_object := events (objs w) !! a.

Record wait_inv w : Prop := {
  wi_sched : sched_inv (sch w);
  wi_idle r x : pcs w !! r = Some x → r ≠ Idle;
  wi_queue a e : event_at a w = Some e → queue_ok (wq e);
  wi_linked a e r : event_at a w = Some e → r ∈ head (wq e) → ∃ pc, pcs w !! r = Some (a, pc) ∧ linkable pc;
  wi_blocked r a pc e : pcs w !! r = Some (a, pc) → inside pc → blocked r (sch w) → event_at a w = Some e →
    r ∈ head (wq e) ∧ (manual_reset e = true → signaled e = false);
  wi_current r a pc : pcs w !! r = Some (a, pc) → inside pc → ¬ parked pc → current_task (sch w) = Some r →
    ¬ blocked r (sch w);
}.

(** Other code runs: it may block its own threads, but no thread that is inside a
    wait, and a thread that gets the processor in a wait is not blocked. *)
Definition undisturbed w s' : Prop :=
  sched_inv s' ∧ ∀ r a pc, pcs w !! r = Some (a, pc) → inside pc →
    (blocked r s' → blocked r (sch w)) ∧
    (current_task s' = Some r → current_task (sch w) = Some r ∨ ¬ blocked r s').

Lemma calm_undisturbed w s' : sched_inv (sch w) → calm (sch w) s' → undisturbed w s'.
Proof. intros Hi Hc. destruct (Hc Hi) as (? & ? & ?). split; [done|]. intros r a pc _ _. auto. Qed.

(** Such code may also change events: a queue may lose threads that are not
    blocked any more. *)
Lemma wait_inv_elsewhere w w' :
  wait_inv w → undisturbed w (sch w') → pcs w' = pcs w →
  (∀ a e', event_at a w' = Some e' → queue_ok (wq e') ∧
     (∀ r, r ∈ head (wq e') → ∃ pc, pcs w !! r = Some (a, pc) ∧ linkable pc) ∧
     (∀ r pc, pcs w !! r = Some (a, pc) → inside pc → blocked r (sch w') →
        r ∈ head (wq e') ∧ (manual_reset e' = true → signaled e' = false))) →
  wait_inv w'.
Proof.
  intros [H1 H2 H3 H4 H5 H6] [Hi Hc] Hp He. split; rewrite ?Hp; try done.
  - intros a e' Ha. by apply (He a).
  - intros a e' r Ha. by apply (He a).
  - intros r a pc e' Hr Hin Hbl Ha. by apply (proj2 (proj2 (He a e' Ha)) r pc).
  - intros r a pc Hr Hin Hpk Hcur Hbl. destruct (Hc r a pc Hr Hin) as [Hb Hg]. destruct (Hg Hcur) as [Hc'|]; [|done].
    by apply (H6 r a pc Hr Hin Hpk Hc'), Hb.
Qed.

(** The thread [r] moves: what it may do to its event, to the scheduler and to
    itself. *)
Lemma wait_inv_move r a pc pc' w w' :
  wait_inv w → pcs w !! r = Some (a, pc) → pcs w' = <[r := (a, pc')]> (pcs w) → inside pc →
  sched_inv (sch w') → (∀ x, x ≠ r → blocked x (sch w') → blocked x (sch w)) →
  (∀ x, x ≠ r → current_task (sch w') = Some x → current_task (sch w) = Some x ∨ ¬ blocked x (sch w')) →
  (∀ a' e', event_at a' w' = Some e' → ∃ e, event_at a' w = Some e ∧ queue_ok (wq e') ∧
     (∀ x, x ≠ r → x ∈ head (wq e') ↔ x ∈ head (wq e)) ∧
     (r ∈ head (wq e') → a' = a ∧ linkable pc') ∧
     manual_reset e' = manual_reset e ∧ (signaled e' = true → signaled e = true)) →
  (inside pc' → blocked r (sch w') → ∀ e', event_at a w' = Some e' →
     r ∈ head (wq e') ∧ (manual_reset e' = true → signaled e' = false)) →
  (inside pc' → ¬ parked pc' → current_task (sch w') = Some r → ¬ blocked r (sch w')) →
  wait_inv w'.
Proof.
  intros [H1 H2 H3 H4 H5 H6] Hr Hp Hin Hi Hb Hg He Hbr Hcr. split; rewrite ?Hp; try done.
  - intros x y. rewrite lookup_insert. case_decide; [|apply H2]. subst x. intros _. by apply (H2 r (a, pc)).
  - intros a' e' Ha. by destruct (He a' e' Ha) as (e & _ & ? & _).
  - intros a' e' x Ha Hx. rewrite lookup_insert. destruct (He a' e' Ha) as (e & Ha' & _ & Hothers & Hself & _).
    case_decide as Hd; [subst x|apply (H4 a' e); [done|by apply Hothers]].
    destruct (Hself Hx) as [-> ?]. by exists pc'.
  - intros x a' pc1 e'. rewrite lookup_insert. case_decide as Hd.
    + subst x. intros [= <- <-] Hin' Hbl Ha. by apply Hbr.
    + intros Hx Hin' Hbl Ha. destruct (He a' e' Ha) as (e & Ha' & _ & Hothers & _ & Hm & Hs).
      destruct (H5 x a' pc1 e Hx Hin' (Hb x (not_eq_sym Hd) Hbl) Ha') as [Hl Hsig].
      split; [by apply Hothers|]. rewrite Hm. intros Hman. destruct (signaled e') eqn:E; [|done].
      by rewrite (Hs eq_refl) in Hsig; apply Hsig in Hman.
  - intros x a' pc1. rewrite lookup_insert. case_decide as Hd.
    + subst x. intros [= <- <-]. apply Hcr.
    + intros Hx Hin' Hpk Hcur Hbl. destruct (Hg x (not_eq_sym Hd) Hcur) as [Hc'|]; [|done].
      by apply (H6 x a' pc1 Hx Hin' Hpk Hc'), Hb.
Qed.

Section layout.
Context (L : task_layout).

(** A calm move of the current thread, which was not blocked; its event keeps the
    other threads and at most loses [r] and its signal. *)
Lemma wait_inv_calm_move r a pc pc' w w' :
  wait_inv w → pcs w !! r = Some (a, pc) → pcs w' = <[r := (a, pc')]> (pcs w) → inside pc →
  ¬ blocked r (sch w) → calm (sch w) (sch w') →
  (∀ a' e', event_at a' w' = Some e' → ∃ e, event_at a' w = Some e ∧
     (wq e' = wq e ∨ a' = a ∧ wq e' = wait_queue_remove r (wq e)) ∧
     manual_reset e' = manual_reset e ∧ (signaled e' = true → signaled e = true)) →
  (linkable pc' ∨ ∀ e', event_at a w' = Some e' → r ∉ head (wq e')) → wait_inv w'.
Proof.
  intros Hw Hr Hp Hin Hn Hc He Hin'. pose proof Hw as [H1 H2 H3 H4 H5 H6]. destruct (Hc H1) as (Hi & Hb & Hg).
  apply (wait_inv_move r a pc pc' w w'); try done.
  - intros x _. apply Hb.
  - intros x _. apply Hg.
  - intros a' e' Ha. destruct (He a' e' Ha) as (e & Ha' & Hq & Hm & Hs). exists e.
    assert (Hself : r ∈ head (wq e) → a' = a).
    { intros Hx. destruct (H4 a' e r Ha' Hx) as (pc1 & E & _). congruence. }
    destruct Hq as [Hq|[-> Hq]]; rewrite Hq.
    + split_and!; try done; [by apply (H3 a')|]. intros Hx. pose proof (Hself Hx) as ->. split; [done|].
      destruct Hin' as [|Hno]; [done|]. destruct (Hno e' Ha). by rewrite Hq.
    + destruct (remove_ok r (wq e) (H3 a e Ha')) as [Hok Hmem]. split_and!; try done.
      * intros x Hx. rewrite Hmem. tauto.
      * intros Hx%Hmem. by destruct Hx.
  - intros _ Hbl. by destruct Hn; apply Hb.
  - intros _ _ _ Hbl. by apply Hn, Hb.
Qed.

(** ** The thread *)

Lemma event_at_put a e w a' : event_at a' (put_event a e w) = if decide (a = a') then Some e else event_at a' w.
Proof. unfold event_at, put_event. cbn [objs with_events events]. by rewrite lookup_insert. Qed.

(** The events of a move that touches only event [a]. *)
Lemma event_at_move r a pc s fl e w a' e' :
  event_at a' (put_event a e (goto r a pc s (World (sch w) (objs w) fl (pcs w)))) = Some e' →
  (a' = a ∧ e' = e) ∨ (a' ≠ a ∧ event_at a' w = Some e').
Proof. rewrite event_at_put. case_decide; [intros [= <-]; by left|by right]. Qed.

Lemma get_thread s r : sched_inv s → current_task s = Some r → a_thread r ∧ ∃ t, get r s = Some t ∧ live (state t).
Proof.
  intros (c & Hc & Ht & _) Hr. assert (c = r) as -> by congruence. destruct (ti_cur _ _ Ht) as (t & Hg & Hl).
  split; [|by exists t]. destruct r as [i|]; simpl; [|done]. apply lookup_lt_Some in Hg. by rewrite (ti_size _ _ Ht) in Hg.
Qed.

(** Blocking the current thread inside the section of the loop. *)
Lemma loop_blocks r limit s f :
  sched_inv s → current_task s = Some r →
  let s1 := match limit with Some d => task_sleep_enqueue L (Some r) d s | None => s end in
  let s' := unlock_irqrestore L f (task_block (Some r) s1) in
  sched_inv s' ∧ (∀ x, x ≠ r → blocked x s' → blocked x s) ∧
  (∀ x, x ≠ r → current_task s' = Some x → current_task s = Some x ∨ ¬ blocked x s').
Proof.
  intros Hi Hr s1 s'. destruct (get_thread s r Hi Hr) as (_ & t & Ht & Hl).
  assert (calm s s1) as H1. { unfold s1. destruct limit; [by eapply calm_enqueue|done]. }
  destruct (H1 Hi) as (Hi1 & Hb1 & Hg1). set (s2 := task_block (Some r) s1).
  assert (sched_inv s2) as Hi2 by (by apply task_block_inv).
  assert (∀ x, x ≠ r → blocked x s2 → blocked x s1) as Hb2.
  { intros x Hx. unfold s2, task_block. destruct (negb _); [done|]. cbn. apply blocked_get. rewrite get_modify.
    by rewrite decide_False. }
  assert (current_task s2 = current_task s1) as Hc2.
  { unfold s2, task_block. destruct (negb _); [done|]. cbn. by fields. }
  destruct (calm_unlock L f s2 Hi2) as (Hi' & Hb' & Hg'). fold s' in Hi', Hb', Hg'. split_and!; [done|auto|].
  intros x Hx Hcx. destruct (Hg' x Hcx) as [Hc|]; [|by right]. rewrite Hc2 in Hc.
  destruct (Hg1 x Hc) as [|Hn]; [by left|right]. auto.
Qed.

Lemma loop_inv now r a limit e w fl :
  wait_inv w → pcs w !! r = Some (a, Loop limit) → current_task (sch w) = Some r → event_at a w = Some e →
  let '(pc', e', s') := wait_loop L now r limit e (sch w) in
  wait_inv (put_event a e' (goto r a pc' s' (World (sch w) (objs w) fl (pcs w)))).
Proof.
  intros Hw Hr Hcur He. pose proof Hw as [H1 H2 H3 H4 H5 H6].
  assert (¬ blocked r (sch w)) as Hnb by exact (H6 r a (Loop limit) Hr I (λ x : False, x) Hcur).
  unfold wait_loop. pose proof (calm_lock (sch w)) as Hl. destruct (lock_off (sch w)) as (Ho & Hc & _).
  destruct (lock_irqsave (sch w)) as [f s1]. cbn [fst snd] in *.
  destruct (event_check_condition L e s1) as [[ok e1] s2] eqn:Ec.
  destruct (check_cases L _ _ _ _ _ Ec) as (Hcc & Hoff & -> & Hq & Hm & Hs). destruct (Hoff Ho) as [Hc2 _].
  assert (calm (sch w) s2) as Hc02 by (by transitivity s1). destruct (Hc02 H1) as (Hi2 & Hb2 & Hg2).
  assert (Hout : ∀ pc', linkable pc' → wait_inv (put_event a (set_wq (wait_queue_remove r (wq e1)) e1)
    (goto r a pc' (unlock_irqrestore L f s2) (World (sch w) (objs w) fl (pcs w))))).
  { intros pc' Hin. eapply (wait_inv_calm_move r a); try done; [|..].
    - transitivity s2; [done|apply calm_unlock].
    - intros a' e' [[-> ->]|[Hne Ha']]%event_at_move; [|exists e'; auto].
      exists e. cbn [set_wq wq manual_reset signaled]. rewrite Hq, Hm, Hs. split_and!; try done; [by right|].
      by destruct (manual_reset e).
    - by left. }
  destruct (signaled e) eqn:Esig; [by apply Hout; destruct limit|].
  destruct (match limit with Some d => d <=? now | None => false end); [by apply Hout|].
  assert (current_task s2 = Some r) as Hr2 by congruence.
  destruct (loop_blocks r limit s2 f Hi2 Hr2) as (Hi' & Hb' & Hg'). cbv zeta in Hi', Hb', Hg'.
  destruct (get_thread s2 r Hi2 Hr2) as (Hthr & _).
  set (s' := unlock_irqrestore L f _) in *.
  set (q := if bool_decide (r ∈ head (wq e1)) then wq e1 else wait_queue_add r (wq e1)).
  assert (queue_ok q ∧ r ∈ head q ∧ ∀ x, x ≠ r → x ∈ head q ↔ x ∈ head (wq e)) as (Hqok & Hrq & Hoth).
  { unfold q. rewrite Hq. case_bool_decide as Hin.
    - split_and!; [by apply (H3 a)|done|done].
    - split_and!; [by apply add_ok; [apply (H3 a)|..]|cbn [wait_queue_add head]; set_solver|].
      intros x Hx. cbn [wait_queue_add head]. set_solver. }
  clearbody q. apply (wait_inv_move r a (Loop limit) (Parked limit) w); try done.
  - intros x Hx Hbl. apply Hb2. by apply Hb'.
  - intros x Hx Hcx. destruct (Hg' x Hx Hcx) as [Hx2|]; [|by right]. left. congruence.
  - intros a' e' [[-> ->]|[Hne Ha']]%event_at_move.
    + exists e. cbn [set_wq wq manual_reset signaled]. rewrite Hm, Hs, Esig. split_and!; try done.
      by destruct (manual_reset e).
    + exists e'. split_and!; try done; [by apply (H3 a')|]. intros Hx. destruct (H4 a' e' r Ha' Hx) as (? & ? & _). congruence.
  - intros _ _ e'. rewrite event_at_put, decide_True by done. intros [= <-]. cbn [set_wq wq manual_reset signaled].
    split; [done|]. intros _. rewrite Hs. by destruct (manual_reset e).
Qed.

(** A step that only looks at the condition, possibly twice. *)
Lemma look_inv r a pc pc' e e' s' fl w :
  wait_inv w → pcs w !! r = Some (a, pc) → inside pc → ¬ parked pc → current_task (sch w) = Some r →
  event_at a w = Some e → calm (sch w) s' → wq e' = wq e → manual_reset e' = manual_reset e →
  (signaled e' = true → signaled e = true) → (linkable pc' ∨ r ∉ head (wq e)) →
  wait_inv (put_event a e' (goto r a pc' s' (World (sch w) (objs w) fl (pcs w)))).
Proof.
  intros Hw Hr Hin Hpk Hcur He Hc Hq Hm Hs Hin'.
  eapply (wait_inv_calm_move r a); try done.
  - by apply (wi_current _ Hw r a pc).
  - intros a' e1 [[-> ->]|[_ Ha']]%event_at_move; [exists e; auto|exists e1; auto].
  - destruct Hin' as [|Hno]; [by left|right]. intros e1. rewrite event_at_put, decide_True by done.
    intros [= <-]. by rewrite Hq.
Qed.

Lemma begin_cases now ticks timeout e s pc' e' s' :
  wait_begin L now ticks timeout e s = (pc', e', s') →
  calm s s' ∧ wq e' = wq e ∧ manual_reset e' = manual_reset e ∧ (signaled e' = true → signaled e = true) ∧
  (pc' = Returned true → signaled e = true) ∧ pc' ≠ Returned false ∧ ¬ parked pc'.
Proof.
  unfold wait_begin. destruct (event_check_condition L e s) as [[ok e1] s1] eqn:Ec.
  destruct (check_cases L _ _ _ _ _ Ec) as (Hcc & _ & -> & Hq & Hm & Hs).
  assert (signaled e1 = true → signaled e = true) as Hs' by (rewrite Hs; by destruct (manual_reset e)).
  destruct (signaled e) eqn:E; [intros [= <- <- <-]; by split_and!; auto|].
  destruct timeout; intros [= <- <- <-]; split_and!; try done;
    destruct (match task_current s1 with Some _ => task_is_multitasking_active s1 | None => false end); try done; auto.
Qed.

Lemma polling_cases now limit e s pc' e' s' :
  wait_polling L now limit e s = (pc', e', s') →
  calm s s' ∧ wq e' = wq e ∧ manual_reset e' = manual_reset e ∧ (signaled e' = true → signaled e = true) ∧
  (pc' = Returned true → signaled e = true) ∧ ¬ parked pc'.
Proof.
  unfold wait_polling. destruct (event_check_condition L e s) as [[ok e1] s1] eqn:Ec.
  destruct (check_cases L _ _ _ _ _ Ec) as (Hcc & _ & -> & Hq & Hm & Hs).
  assert (signaled e1 = true → signaled e = true) as Hs' by (rewrite Hs; by destruct (manual_reset e)).
  destruct limit as [[start ticks]|].
  - destruct (signaled e) eqn:E.
    + destruct (event_check_condition L e1 s1) as [[ok2 e2] s2] eqn:Ec2. intros [= <- <- <-].
      destruct (check_cases L _ _ _ _ _ Ec2) as (Hcc2 & _ & _ & Hq2 & Hm2 & _).
      split_and!; try done; try congruence; [by transitivity s1|exact (λ x : False, x)].
    + intros [= <- <- <-]. split_and!; try done; destruct (_ >=? _); first [done|exact (λ x : False, x)].
  - intros [= <- <- <-]. split_and!; try done; destruct (signaled e); first [done|exact (λ x : False, x)].
Qed.

Lemma unlinked_absent w r a pc e :
  wait_inv w → pcs w !! r = Some (a, pc) → ¬ linkable pc → event_at a w = Some e → r ∉ head (wq e).
Proof. intros Hw Hr Hn He Hx. destruct (wi_linked _ Hw a e r He Hx) as (pc1 & E & Hl). congruence. Qed.

(** The scheduler's part of a step, with no event touched. *)
Lemma quiet_move r a pc pc' s' w :
  wait_inv w → pcs w !! r = Some (a, pc) → inside pc → linkable pc' → calm (sch w) s' →
  (¬ blocked r (sch w) ∨ current_task s' ≠ Some r ∨ ¬ blocked r s') →
  wait_inv (goto r a pc' s' w).
Proof.
  intros Hw Hr Hin Hl Hc Hn. pose proof Hw as [H1 H2 H3 H4 H5 H6]. destruct (Hc H1) as (Hi & Hb & Hg).
  apply (wait_inv_move r a pc pc' w); try done.
  - intros x _. apply Hb.
  - intros x _. apply Hg.
  - intros a' e' Ha. exists e'. split_and!; try done; [by apply (H3 a')|].
    intros Hx. destruct (H4 a' e' r Ha Hx) as (? & ? & _). split; [congruence|done].
  - intros _ Hbl e' He. by apply (H5 r a pc e' Hr Hin (Hb r Hbl)).
  - intros _ _ Hcur Hbl. destruct Hn as [Hn|[Hn|Hn]]; [|done..]. by apply Hn, Hb.
Qed.

Lemma thread_step now ticks r w w' :
  wait_inv w → current_task (sch w) = Some r → wait_step L now ticks r w = Some w' → wait_inv w'.
Proof.
  intros Hw Hcur. unfold wait_step. destruct (pcs w !! r) as [[a pc]|] eqn:Hr; [|by intros [= <-]].
  destruct pc as [timeout|limit|limit|limit|limit|b|b|b]; cbv zeta; fold (event_at a w).
  - destruct (event_at a w) as [e|] eqn:He; [|done].
    destruct (wait_begin L now ticks timeout e (sch w)) as [[pc' e'] s'] eqn:E. intros [= <-].
    destruct (begin_cases _ _ _ _ _ _ _ _ E) as (? & ? & ? & ? & _). eapply look_inv; try done; [exact (λ x : False, x)|right].
    by apply (unlinked_absent w r a _ e Hw Hr (λ x : False, x) He).
  - destruct (event_at a w) as [e|] eqn:He; [|done].
    destruct (wait_polling L now limit e (sch w)) as [[pc' e'] s'] eqn:E. intros [= <-].
    destruct (polling_cases _ _ _ _ _ _ _ E) as (? & ? & ? & ? & _). eapply look_inv; try done; [exact (λ x : False, x)|right].
    by apply (unlinked_absent w r a _ e Hw Hr (λ x : False, x) He).
  - destruct (event_at a w) as [e|] eqn:He; [|done]. pose proof (loop_inv now r a limit e w (flags_of w) Hw Hr Hcur He) as H.
    destruct (wait_loop L now r limit e (sch w)) as [[pc' e'] s']. by intros [= <-].
  - intros [= <-]. apply (quiet_move r a (Parked limit)); try done; [by destruct limit|apply calm_schedule|].
    destruct (decide (current_task (schedule L (sch w)) = Some r)) as [E|]; [|by right; left]. right. right.
    apply schedule_runs; [apply Hw|done|]. by apply (wi_idle _ Hw r _ Hr).
  - intros [= <-]. apply (quiet_move r a (Resumed limit)); try done; [apply calm_dequeue|left].
    by apply (wi_current _ Hw r a (Resumed limit) Hr I (λ x : False, x)).
  - intros [= <-]. apply (quiet_move r a (Leaving b)); try done; [apply calm_dequeue|left].
    by apply (wi_current _ Hw r a (Leaving b) Hr I (λ x : False, x)).
  - destruct (event_at a w) as [e|] eqn:He; [|done]. unfold wait_remove.
    pose proof (calm_lock (sch w)) as Hl. destruct (lock_irqsave (sch w)) as [f s1]. cbn [snd] in Hl. intros [= <-].
    eapply (wait_inv_calm_move r a); try done.
    + by apply (wi_current _ Hw r a (Removing b) Hr I (λ x : False, x)).
    + transitivity s1; [done|apply calm_unlock].
    + intros a' e1 [[-> ->]|[_ Ha']]%event_at_move; [exists e; by auto|exists e1; by auto].
    + right. intros e1. rewrite event_at_put, decide_True by done. intros [= <-]. cbn [set_wq wq].
      intros Hx%(remove_ok r (wq e) (wi_queue _ Hw a e He)). by destruct Hx.
  - by intros [= <-].
Qed.

(** ** The other actions *)

Lemma signal_cases e fl s e' fl' s' :
  signal_event L e fl s = (e', fl', s') → sched_inv s → queue_ok (wq e) →
  calm s s' ∧ queue_ok (wq e') ∧ manual_reset e' = manual_reset e ∧ signaled e' = manual_reset e ∧
  head (wq e') = (if manual_reset e then [] else tail (head (wq e))) ∧
  ∀ r, r ∈ head (wq e) → r ∉ head (wq e') → ¬ blocked r s'.
Proof.
  unfold signal_event. pose proof (calm_lock s) as Hl. destruct (lock_irqsave s) as [f s1]. cbn [snd] in Hl.
  cbn [set_signaled manual_reset wq]. intros E Hi Hq. destruct (Hl Hi) as (Hi1 & _).
  assert (Hu : ∀ s2, calm s1 s2 → calm s (unlock_irqrestore L f s2) ∧
    ∀ r, ¬ blocked r s2 → ¬ blocked r (unlock_irqrestore L f s2)).
  { intros s2 H2. destruct (H2 Hi1) as (Hi2 & _). split.
    - transitivity s1; [done|]. transitivity s2; [done|apply calm_unlock].
    - intros r Hn Hb. apply Hn. by apply (calm_unlock L f s2 Hi2). }
  destruct (manual_reset e) eqn:Em.
  - destruct (wait_queue_wake_all L (wq e) fl s1) as [[q fl2] s2] eqn:Ew. injection E as <- <- <-.
    destruct (wake_all_cases L _ _ _ _ _ _ Ew Hi1 Hq) as (Hc & Hb & ->). destruct (Hu s2 Hc) as [Hc' Hn].
    split_and!; try done; [apply empty_ok|]. intros r Hr _. by apply Hn, Hb.
  - destruct (wait_queue_wake_one L (wq e) fl s1) as [[q fl2] s2] eqn:Ew. injection E as <- <- <-.
    destruct (wake_one_cases L _ _ _ _ _ _ Ew Hi1 Hq) as (Hc & Hqok & Hh & Hb). destruct (Hu s2 Hc) as [Hc' Hn].
    split_and!; try done. intros r Hr Hnot. apply Hn, Hb. cbn [set_wq set_signaled wq] in Hnot. rewrite Hh in Hnot.
    destruct (head (wq e)) as [|x l]; [by apply not_elem_of_nil in Hr|].
    apply elem_of_cons in Hr as [->|Hr]; [done|]. by destruct Hnot.
Qed.

Lemma lookup_event_at p h right w a e : lookup_event p h right w = Some (a, e) → event_at a w = Some e.
Proof.
  unfold lookup_event, event_at. destruct (_ =? 0); [done|]. destruct (events (objs w) !! _) eqn:E; [|done].
  by intros [= <- <-].
Qed.

(** An event changes while other code runs. *)
Lemma event_change_inv a e e' s' fl w :
  wait_inv w → event_at a w = Some e → calm (sch w) s' → queue_ok (wq e') →
  (∀ r, r ∈ head (wq e') → r ∈ head (wq e)) →
  (∀ r, r ∈ head (wq e) → r ∉ head (wq e') → ¬ blocked r s') →
  (manual_reset e' = true → signaled e' = true →
     head (wq e') = [] ∨ (manual_reset e = true ∧ signaled e = true)) →
  wait_inv (put_event a e' (World s' (objs w) fl (pcs w))).
Proof.
  intros Hw He Hc Hq Hsub Hwoken Hsig. pose proof Hw as [H1 H2 H3 H4 H5 H6]. destruct (Hc H1) as (Hi & Hb & Hg).
  apply (wait_inv_elsewhere w); [done|by apply calm_undisturbed|done|].
  intros a' e1. rewrite event_at_put. case_decide as Ha.
  - subst a'. intros [= <-]. split_and!; [done|intros r Hr; by apply (H4 a e), Hsub|].
    intros r pc Hr Hin Hbl. destruct (H5 r a pc e Hr Hin (Hb r Hbl) He) as [Hx Hns].
    destruct (decide (r ∈ head (wq e'))) as [Hin'|Hno]; [|by destruct (Hwoken r Hx Hno)].
    split; [done|]. intros Hm. destruct (signaled e') eqn:E; [|done].
    destruct (Hsig Hm eq_refl) as [Hnil|[Hm' Hs']]; [|by rewrite Hns in Hs'].
    rewrite Hnil in Hin'. by apply not_elem_of_nil in Hin'.
  - intros Ha'. split_and!; [by apply (H3 a')|intros r; by apply (H4 a')|].
    intros r pc Hr Hin Hbl. by apply (H5 r a' pc e1 Hr Hin (Hb r Hbl)).
Qed.

(** What [event_create] leaves of the events. *)
Lemma create_events p m i ptr (k : wait_kernel) a e :
  events (event_create p m i ptr k).2 !! a = Some e →
  events k !! a = Some e ∨ (a = ptr ∧ e = Event wait_queue_init m i).
Proof.
  unfold event_create. destruct p as [p|]; [|by left]. destruct (ptr =? 0); [by left|].
  destruct (handle_create _ _ _ _) as [h kk]. cbn [snd]. unfold drop_new. cbn [events wait_objects ker].
  destruct (match headers _ !! ptr with Some _ => _ | None => _ end); cbn [events].
  - rewrite lookup_delete_Some, lookup_insert. intros [Hne Ha]. rewrite decide_False in Ha by done. by left.
  - rewrite lookup_insert. case_decide; [|by left]. intros [= <-]. by right.
Qed.

Inductive action :=
  | RunThread (r : task_ref) (now ticks : Z)
  | Signal (proc : option Handle.process) (handle : Z)
  | Reset (proc : option Handle.process) (handle : Z)
  | WaitFor (r : task_ref) (proc : option Handle.process) (handle timeout_ms : Z)
  | Create (proc : option Handle.process) (manual initial : bool) (ptr : Z)
  | Destroy (a : Z)
  | Elsewhere (s : sched).

Definition act (x : action) (w : world) : option world :=
  match x with
  | RunThread r now ticks => wait_step L now ticks r w
  | Signal p h => Some (event_signal L p h w).2
  | Reset p h => Some (event_reset L p h w).2
  | WaitFor r p h ms => Some (default w (event_wait L r p h ms w))
  | Create p m i ptr => Some (World (sch w) (event_create p m i ptr (objs w)).2 (flags_of w) (pcs w))
  | Destroy a => Some (event_destructor L a w)
  | Elsewhere s => Some (World s (objs w) (flags_of w) (pcs w))
  end.

(** A thread runs when it is current; it waits in one call at a time; a new event
    does not take the address of one that a thread still waits on; other code does
    not block a thread inside a wait. *)
Definition allowed (x : action) (w : world) : Prop :=
  match x with
  | RunThread r _ _ => current_task (sch w) = Some r
  | WaitFor r _ _ _ =>
      r ≠ Idle ∧ ¬ blocked r (sch w) ∧ ∀ a pc, pcs w !! r = Some (a, pc) → ¬ inside pc
  | Create _ _ _ ptr => event_at ptr w = None ∧ ∀ r pc, pcs w !! r ≠ Some (ptr, pc)
  | Elsewhere s => undisturbed w s
  | _ => True
  end.

Definition step (w w' : world) : Prop := ∃ x, allowed x w ∧ act x w = Some w'.

Definition initial w : Prop := sched_inv (sch w) ∧ pcs w = ∅ ∧ events (objs w) = ∅.

(** The call of [event_wait], by a thread outside any wait. *)
Lemma call_inv r a pc w :
  wait_inv w → r ≠ Idle → ¬ blocked r (sch w) → (∀ a pc, pcs w !! r = Some (a, pc) → ¬ inside pc) →
  ¬ linkable pc → wait_inv (goto r a pc (sch w) w).
Proof.
  intros [H1 H2 H3 H4 H5 H6] Hidle Hn Hout Hpc.
  assert (∀ a' e, event_at a' w = Some e → r ∉ head (wq e)) as Habs.
  { intros a' e He Hx. destruct (H4 a' e r He Hx) as (pc1 & E & Hl). apply (Hout _ _ E). by destruct pc1. }
  split; cbn [goto sch pcs]; try done.
  - intros x y. rewrite lookup_insert. case_decide; [by subst x|apply H2].
  - intros a' e x He Hx. rewrite lookup_insert. case_decide; [|by apply (H4 a' e)]. subst x. by destruct (Habs a' e He).
  - intros x a' pc1 e. rewrite lookup_insert. case_decide; [by subst x|]. apply H5.
  - intros x a' pc1. rewrite lookup_insert. case_decide; [by subst x|]. apply H6.
Qed.

Lemma wait_step_inv w w' : wait_inv w → step w w' → wait_inv w'.
Proof.
  intros Hw (x & Hal & Hact). pose proof Hw as [H1 H2 H3 H4 H5 H6].
  destruct x as [r now ticks|p h|p h|r p h ms|p m i ptr|a|s]; cbn [act allowed] in *.
  - by eapply thread_step.
  - injection Hact as <-. unfold event_signal. destruct (lookup_event p h _ w) as [[a e]|] eqn:El; [|done].
    apply lookup_event_at in El. destruct (signal_event L e (flags_of w) (sch w)) as [[e' fl] s'] eqn:Es.
    destruct (signal_cases _ _ _ _ _ _ Es H1 (H3 a e El)) as (Hc & Hq & Hm & Hs & Hh & Hb). cbn [snd].
    apply (event_change_inv a e); try done; rewrite Hh.
    + intros r. destruct (manual_reset e); [by intros ?%not_elem_of_nil|]. destruct (head (wq e)); [done|by right].
    + rewrite Hm. intros ->. by left.
  - injection Hact as <-. unfold event_reset. destruct (lookup_event p h _ w) as [[a e]|] eqn:El; [|done].
    apply lookup_event_at in El. unfold reset_event. pose proof (calm_lock (sch w)) as Hl.
    destruct (lock_irqsave (sch w)) as [f s1]. cbn [snd] in *.
    apply (event_change_inv a e); try done; [transitivity s1; [done|apply calm_unlock]|exact (H3 a e El)].
  - injection Hact as <-. unfold event_wait. destruct (lookup_event p h _ w) as [[a e]|] eqn:El; [|done].
    apply lookup_event_at in El. destruct Hal as (Hidle & Hn & Hout).
    destruct (ms =? 0).
    + destruct (event_check_condition L e (sch w)) as [[ok e'] s'] eqn:Ec. cbn [from_option id].
      destruct (check_cases L _ _ _ _ _ Ec) as (Hc & _ & _ & Hq & Hm & Hs).
      pose proof (call_inv r a (Returned ok) w Hw Hidle Hn Hout (λ x : False, x)) as Hw'.
      refine (event_change_inv a e e' s' (flags_of w) _ Hw' El Hc _ _ _ _); rewrite Hq; [exact (H3 a e El)|done|done|].
      intros Hman Hsig. rewrite Hs in Hsig. rewrite Hm in Hman. rewrite Hman in Hsig. by right.
    + destruct (ms =? UINT64_MAX); cbn [from_option id].
      * exact (call_inv r a (Begin None) w Hw Hidle Hn Hout (λ x : False, x)).
      * exact (call_inv r a (Begin (Some ms)) w Hw Hidle Hn Hout (λ x : False, x)).
  - injection Hact as <-. destruct Hal as [Hfree Hnone]. apply (wait_inv_elsewhere w); try done.
    { by apply calm_undisturbed. }
    intros a e [Ha|[-> ->]]%create_events.
    + split_and!; [by apply (H3 a)|intros r; by apply (H4 a)|]. intros r pc Hr Hin Hbl. by apply (H5 r a pc).
    + split_and!; [apply empty_ok|by intros r ?%not_elem_of_nil|]. intros r pc Hr. by destruct (Hnone r pc).
  - injection Hact as <-. unfold event_destructor. fold (event_at a w). destruct (event_at a w) as [e|] eqn:He; [|done].
    destruct (wait_queue_wake_all L (wq e) (flags_of w) (sch w)) as [[q fl] s'] eqn:Ew.
    destruct (wake_all_cases L _ _ _ _ _ _ Ew H1 (H3 a e He)) as (Hc & _). destruct (Hc H1) as (_ & Hb & _).
    apply (wait_inv_elsewhere w); try done; [by apply calm_undisturbed|].
    intros a' e'. unfold event_at. cbn [objs with_events events]. rewrite lookup_delete_Some. intros [_ Ha].
    split_and!; [by apply (H3 a')|intros r; by apply (H4 a')|]. intros r pc Hr Hin Hbl. by apply (H5 r a' pc); auto.
  - injection Hact as <-. apply (wait_inv_elsewhere w); try done.
    intros a e Ha. split_and!; [by apply (H3 a)|intros r; by apply (H4 a)|].
    intros r pc Hr Hin Hbl. apply (H5 r a pc e Hr Hin); [|done]. by apply (proj2 Hal r a pc).
Qed.

Lemma lobby_inv w : initial w → wait_inv w.
Proof.
  intros (Hi & Hp & He). split; unfold event_at; rewrite ?Hp, ?He; try done.
Qed.

Lemma reachable_inv w0 w : initial w0 → rtc step w0 w → wait_inv w.
Proof.
  intros H0%lobby_inv Hrun. induction Hrun as [|x y z Hxy _ IH]; [done|]. apply IH. by eapply wait_step_inv.
Qed.

(** A waiter at the top of its loop whose event is signaled. *)
Lemma loop_signaled now ticks limit r a e w :
  queue_ok (wq e) → pcs w !! r = Some (a, Loop limit) → event_at a w = Some e → signaled e = true →
  ∃ w' e', wait_step L now ticks r w = Some w' ∧
    pcs w' !! r = Some (a, match limit with Some _ => Leaving true | None => Removing true end) ∧
    event_at a w' = Some e' ∧ r ∉ head (wq e').
Proof.
  intros Hq Hr He Hs. unfold wait_step. rewrite Hr. fold (event_at a w). rewrite He. unfold wait_loop.
  destruct (lock_irqsave (sch w)) as [f s1]. destruct (event_check_condition L e s1) as [[ok e1] s2] eqn:Ec.
  destruct (check_cases L _ _ _ _ _ Ec) as (_ & _ & -> & Hq1 & _). rewrite Hs.
  cbv beta iota. eexists _, _. split; [done|]. cbn [put_event goto pcs].
  split; [apply lookup_insert_eq|]. unfold event_at. cbn [objs with_events events]. split; [apply lookup_insert_eq|].
  cbn [set_wq wq]. rewrite Hq1. intros Hx%(remove_ok r (wq e) Hq). by destruct Hx.
Qed.

(** C12: no wake-up is lost.  However threads, signals, resets and the rest of the
    kernel interleave, while a manual-reset event is signaled no thread that waits
    on it is blocked, and a waiter that gets the processor leaves the loop with
    success; the queue of every event holds each of its waiters at most once, in
    order, and [waiter_count] is its length; a blocked waiter is always in it. *)
Theorem event_no_lost_wakeup w0 w a e :
  initial w0 → rtc step w0 w → event_at a w = Some e →
  (NoDup (head (wq e)) ∧ waiter_count (wq e) = Z.of_nat (length (head (wq e)))) ∧
  ∀ r pc, pcs w !! r = Some (a, pc) → inside pc →
    (blocked r (sch w) → r ∈ head (wq e)) ∧
    (manual_reset e = true → signaled e = true →
       ¬ blocked r (sch w) ∧
       ∀ now ticks limit, pc = Loop limit → current_task (sch w) = Some r →
         ∃ w', wait_step L now ticks r w = Some w' ∧
           pcs w' !! r = Some (a, match limit with Some _ => Leaving true | None => Removing true end) ∧
           ¬ blocked r (sch w')).
Proof.
  intros H0 Hrun He. pose proof (reachable_inv w0 w H0 Hrun) as Hw. pose proof Hw as [H1 H2 H3 H4 H5 H6].
  split; [split; apply (H3 a e He)|]. intros r pc Hr Hin. split; [intros Hb; by apply (H5 r a pc e)|].
  intros Hm Hs. assert (¬ blocked r (sch w)) as Hn.
  { intros Hb. destruct (H5 r a pc e Hr Hin Hb He) as [_ Hns]. by rewrite Hns in Hs. }
  split; [done|]. intros now ticks limit -> Hcur.
  pose proof (loop_signaled now ticks limit r a e w (H3 a e He) Hr He Hs) as (w' & e' & E & Hr' & He' & Hx).
  exists w'. split_and!; [done|done|]. intros Hb. apply Hx.
  apply (wi_blocked w' (thread_step _ _ _ _ _ Hw Hcur E) r a _ e' Hr'); [by destruct limit|done|done].
Qed.

(** ** Auto-reset events

    [event_signal] sets an auto-reset event, wakes the first waiter and clears the
    event again, all under the event's lock; the waiter looks at the event when it
    runs, and finds it clear. *)

(** Positions that are not on the way to a successful return. *)
Definition unsuccessful (pc : wait_pc) : Prop :=
  match pc with Leaving true | Removing true | Returned true => False | _ => True end.

Definition never_signaled w : Prop :=
  ∀ a e, event_at a w = Some e → manual_reset e = false →
    signaled e = false ∧ ∀ r pc, pcs w !! r = Some (a, pc) → unsuccessful pc.

(** The event of the moving thread. *)
Lemma never_move w w' r a pc' :
  never_signaled w → pcs w' = <[r := (a, pc')]> (pcs w) →
  (∀ a' e', event_at a' w' = Some e' → ∃ e, event_at a' w = Some e ∧ manual_reset e' = manual_reset e ∧
     (signaled e' = true → signaled e = true)) →
  (∀ e, event_at a w = Some e → manual_reset e = false → unsuccessful pc') → never_signaled w'.
Proof.
  intros Hn Hp He Hpc a' e' Ha' Hm'. destruct (He a' e' Ha') as (e & Ha & Hm & Hs). rewrite Hm in Hm'.
  destruct (Hn a' e Ha Hm') as [Hsig Hpcs]. split.
  - destruct (signaled e'); [|done]. by rewrite Hs in Hsig.
  - intros x pc. rewrite Hp, lookup_insert. case_decide; [|by apply Hpcs]. intros [= <- <-]. by apply (Hpc e).
Qed.

Lemma never_thread now ticks r w w' :
  never_signaled w → wait_step L now ticks r w = Some w' → never_signaled w'.
Proof.
  intros Hn. unfold wait_step. destruct (pcs w !! r) as [[a pc]|] eqn:Hr; [|by intros [= <-]].
  assert (Hquiet : ∀ s' pc', (∀ e, event_at a w = Some e → manual_reset e = false → unsuccessful pc') →
    never_signaled (goto r a pc' s' w)).
  { intros s' pc' Hpc. apply (never_move w _ r a pc'); try done. intros a' e' Ha. by exists e'. }
  assert (Hput : ∀ s' pc' e e' fl, event_at a w = Some e → manual_reset e' = manual_reset e →
    (signaled e' = true → signaled e = true) → (manual_reset e = false → unsuccessful pc') →
    never_signaled (put_event a e' (goto r a pc' s' (World (sch w) (objs w) fl (pcs w))))).
  { intros s' pc' e e' fl He Hm Hs Hpc. apply (never_move w _ r a pc'); try done.
    - intros a' e1 [[-> ->]|[_ Ha]]%event_at_move; [by exists e|by exists e1].
    - intros e0 He0. assert (e0 = e) as -> by congruence. done. }
  assert (Hsig : ∀ e, event_at a w = Some e → manual_reset e = false → signaled e = false)
    by (intros e He Hm; by apply (Hn a e He Hm)).
  assert (Hnow : ∀ e, event_at a w = Some e → manual_reset e = false → unsuccessful pc)
    by (intros e He Hm; by apply (Hn a e He Hm) in Hr).
  destruct pc as [timeout|limit|limit|limit|limit|b|b|b]; cbv zeta; fold (event_at a w).
  - destruct (event_at a w) as [e|] eqn:He; [|done].
    destruct (wait_begin L now ticks timeout e (sch w)) as [[pc' e'] s'] eqn:E. intros [= <-].
    destruct (begin_cases _ _ _ _ _ _ _ _ E) as (_ & _ & Hm & Hs & Hret & _). apply (Hput _ _ e); try done.
    intros Hma. revert E. unfold wait_begin. destruct (event_check_condition L e (sch w)) as [[ok e1] s1] eqn:Ec.
    destruct (check_cases L _ _ _ _ _ Ec) as (_ & _ & -> & _). rewrite (Hsig e eq_refl Hma).
    destruct timeout; destruct (match task_current _ with Some _ => _ | None => _ end); by intros [= <- _ _].
  - destruct (event_at a w) as [e|] eqn:He; [|done].
    destruct (wait_polling L now limit e (sch w)) as [[pc' e'] s'] eqn:E. intros [= <-].
    destruct (polling_cases _ _ _ _ _ _ _ E) as (_ & _ & Hm & Hs & Hret & _). apply (Hput _ _ e); try done.
    intros Hma. revert E. unfold wait_polling. destruct (event_check_condition L e (sch w)) as [[ok e1] s1] eqn:Ec.
    destruct (check_cases L _ _ _ _ _ Ec) as (_ & _ & -> & _). rewrite (Hsig e eq_refl Hma).
    destruct limit as [[? ?]|]; intros [= <- _ _]; [by destruct (_ >=? _)|done].
  - destruct (event_at a w) as [e|] eqn:He; [|done]. unfold wait_loop.
    destruct (lock_irqsave (sch w)) as [f s1]. destruct (event_check_condition L e s1) as [[ok e1] s2] eqn:Ec.
    destruct (check_cases L _ _ _ _ _ Ec) as (_ & _ & -> & Hq & Hm & Hs).
    assert (signaled e1 = true → signaled e = true) as Hs1 by (rewrite Hs; by destruct (manual_reset e)).
    destruct (signaled e) eqn:Esig.
    { intros [= <-]. apply (Hput _ _ e); try done. intros Hma. by rewrite (Hsig e eq_refl Hma) in Esig. }
    destruct (match limit with Some d => d <=? now | None => false end); intros [= <-]; apply (Hput _ _ e);
      rewrite ?Esig; done.
  - intros [= <-]. apply Hquiet. by destruct limit.
  - intros [= <-]. by apply Hquiet.
  - intros [= <-]. apply Hquiet. intros e He Hm. specialize (Hnow e He Hm). by destruct b.
  - destruct (event_at a w) as [e|] eqn:He; [|done]. unfold wait_remove. destruct (lock_irqsave (sch w)) as [f s1].
    intros [= <-]. apply (Hput _ _ e); try done. intros Hm. specialize (Hnow e eq_refl Hm). by destruct b.
  - by intros [= <-].
Qed.

Lemma never_step x w w' :
  (∀ p ptr, x ≠ Create p false true ptr) → sched_inv (sch w) → wait_inv w →
  never_signaled w → allowed x w → act x w = Some w' → never_signaled w'.
Proof.
  intros Hx Hi Hw Hn Hal Hact. destruct x as [r now ticks|p h|p h|r p h ms|p m i ptr|a|s]; cbn [act allowed] in *.
  - by eapply never_thread.
  - injection Hact as <-. unfold event_signal. destruct (lookup_event p h _ w) as [[a e]|] eqn:El; [|done].
    apply lookup_event_at in El. destruct (signal_event L e (flags_of w) (sch w)) as [[e' fl] s'] eqn:Es.
    destruct (signal_cases _ _ _ _ _ _ Es Hi (wi_queue _ Hw a e El)) as (_ & _ & Hm & Hs & _). cbn [snd].
    intros a' e1. rewrite event_at_put. case_decide as Ha; [|apply Hn]. subst a'. intros [= <-] Hma.
    split; [congruence|]. apply (Hn a e El). congruence.
  - injection Hact as <-. unfold event_reset. destruct (lookup_event p h _ w) as [[a e]|] eqn:El; [|done].
    apply lookup_event_at in El. unfold reset_event. destruct (lock_irqsave (sch w)) as [f s1]. cbn [snd].
    intros a' e1. rewrite event_at_put. case_decide as Ha; [|apply Hn]. subst a'. intros [= <-] Hma.
    split; [done|]. by apply (Hn a e El).
  - injection Hact as <-. unfold event_wait. destruct (lookup_event p h _ w) as [[a e]|] eqn:El; [|done].
    apply lookup_event_at in El. destruct (ms =? 0).
    + destruct (event_check_condition L e (sch w)) as [[ok e'] s'] eqn:Ec. cbn [from_option id].
      destruct (check_cases L _ _ _ _ _ Ec) as (_ & _ & -> & _ & Hm & Hs).
      apply (never_move w _ r a (Returned (signaled e))); try done.
      * intros a' e1. rewrite event_at_put. case_decide as Ha; [|by exists e1]. subst a'. intros [= <-].
        exists e. split_and!; try done. rewrite Hs. by destruct (manual_reset e).
      * intros e0 He0 Hma. assert (e0 = e) as -> by congruence. by rewrite (proj1 (Hn a e El Hma)).
    + destruct (ms =? UINT64_MAX); cbn [from_option id]; (eapply (never_move w); [done|done| |done]); intros a' e1 Ha; by exists e1.
  - injection Hact as <-. intros a e [Ha|[-> ->]]%create_events; [by apply Hn|]. cbn. intros ->. split.
    + destruct i; [|done]. by destruct (Hx p ptr).
    + intros r pc Hr. by destruct (proj2 Hal r pc).
  - injection Hact as <-. unfold event_destructor. fold (event_at a w). destruct (event_at a w) as [e|] eqn:He; [|done].
    destruct (wait_queue_wake_all L (wq e) (flags_of w) (sch w)) as [[q fl] s'] eqn:Ew.
    intros a' e'. unfold event_at. cbn [objs with_events events pcs]. rewrite lookup_delete_Some. intros [_ Ha]. by apply Hn.
  - by injection Hact as <-.
Qed.

(** Auto-reset events that are created clear never release anybody: in every
    reachable state such an event is clear and no thread has returned from
    [event_wait] on it with success. *)
Theorem auto_reset_never_signaled w0 w :
  initial w0 → rtc (λ w w', ∃ x, (∀ p ptr, x ≠ Create p false true ptr) ∧ allowed x w ∧ act x w = Some w') w0 w →
  never_signaled w.
Proof.
  intros H0 Hrun. pose proof (lobby_inv w0 H0) as Hw. assert (never_signaled w0) as Hn.
  { intros a e. unfold event_at. destruct H0 as (_ & _ & ->). by rewrite lookup_empty. }
  clear H0. induction Hrun as [|w1 w2 w3 (x & Hx & Hal & Hact) _ IH]; [done|].
  apply IH; [by apply (wait_step_inv w1); [|exists x]|]. by apply (never_step x w1); [|apply Hw|..].
Qed.

End layout.

(** A timer tick is code that blocks nobody. *)
Lemma calm_tick now s : (∀ r t, get r s = Some t → 0 ≤ quantum_remaining t) → calm s (task_timer_tick now s).
Proof.
  intros Hq Hi. pose proof Hi as (c & Hc & Ht & _).
  destruct (task_timer_tick_cases now s c Hi Hc Hq) as (Hi' & Hc' & _ & Hg & _). split_and!; [done| |].
  - intros r (t' & Ht' & Hst)%has_state_true. apply has_state_true.
    destruct (get r s) as [t|] eqn:Er.
    + destruct (Hg r t Er) as (t2 & Ht2 & Hcase). assert (t2 = t') as -> by congruence.
      exists t. split; [done|]. destruct (decide _); destruct Hcase as [Hst' _]; congruence.
    + destruct Hi' as (c' & _ & Htab' & _). destruct r as [i|]; [|done]. simpl in Er, Ht'.
      apply lookup_lt_Some in Ht'. apply lookup_ge_None in Er.
      rewrite (ti_size _ _ Htab') in Ht'. rewrite (ti_size _ _ Ht) in Er. lia.
  - intros r Hr. left. congruence.
Qed.

(** ** A concrete run

    The bootstrap thread waits on a new manual-reset event and is switched out;
    then the event is signaled. *)

Definition allowed_b (x : action) (w : world) : bool :=
  match x with
  | RunThread r _ _ => bool_decide (current_task (sch w) = Some r)
  | WaitFor r _ _ _ =>
      bool_decide (r ≠ Idle) && negb (has_state r THREAD_STATE_BLOCKED (sch w)) &&
      match pcs w !! r with None | Some (_, Returned _) => true | _ => false end
  | Create _ _ _ ptr =>
      match event_at ptr w with None => true | Some _ => false end &&
      forallb (λ x, negb (fst (snd x) =? ptr)) (map_to_list (pcs w))
  | Elsewhere _ => false
  | _ => true
  end.

Lemma allowed_b_sound x w : allowed_b x w = true → allowed x w.
Proof.
  destruct x as [r now ticks|p h|p h|r p h ms|p m i ptr|a|s]; cbn [allowed_b allowed]; try done.
  - by intros ?%bool_decide_eq_true.
  - rewrite !andb_true_iff, bool_decide_eq_true, negb_true_iff. intros [[? Hb] Hp]. split_and!; [done| |].
    + unfold blocked. by rewrite Hb.
    + intros a pc Hr. rewrite Hr in Hp. destruct pc; try done; exact (λ x : False, x).
  - rewrite andb_true_iff, forallb_forall. intros [He Hp]. split; [by destruct (event_at ptr w)|].
    intros r pc Hr. specialize (Hp (r, (ptr, pc))). cbn [fst snd] in Hp. rewrite Z.eqb_refl in Hp.
    assert (In (r, (ptr, pc)) (map_to_list (pcs w))) as Hin by (by apply list_elem_of_In, elem_of_map_to_list).
    by apply Hp in Hin.
Qed.

Fixpoint play (L : task_layout) (xs : list action) (w : world) : option world :=
  match xs with
  | [] => Some w
  | x :: xs => if allowed_b x w then match act L x w with Some w => play L xs w | None => None end else None
  end.

Lemma play_runs L xs : ∀ w w', play L xs w = Some w' → rtc (step L) w w'.
Proof.
  induction xs as [|x xs IH]; intros w w'; cbn [play]; [by intros [= <-]|].
  destruct (allowed_b x w) eqn:Ea; [|done]. destruct (act L x w) as [w1|] eqn:E; [|done]. intros Hp.
  eapply rtc_l; [|by apply IH]. exists x. split; [by apply allowed_b_sound|done].
Qed.

Definition lobby : world :=
  World (task_initialize demo_layout demo_boot).2
    (WaitKernel (Kernel {[100 := HandleTable (replicate 64 empty_entry) 0]} (ObjectStore ∅ [])) ∅ ∅) ∅ ∅.

Lemma lobby_initial : initial lobby.
Proof. split; [|done]. by apply (task_initialize_inv demo_layout demo_boot). Qed.

Definition waiter : option Handle.process := Some (Process 100).

Definition waiting_script (manual : bool) (timeout : Z) : list action :=
  [Create waiter manual false 8192; WaitFor (Slot 0) waiter 65536 timeout;
   RunThread (Slot 0) 0 0; RunThread (Slot 0) 0 0; RunThread (Slot 0) 0 0].

Definition waiting_world (manual : bool) (timeout : Z) : world :=
  default lobby (play demo_layout (waiting_script manual timeout) lobby).
Definition signaled_world (manual : bool) (timeout : Z) : world :=
  default lobby (play demo_layout [Signal waiter 65536] (waiting_world manual timeout)).

Lemma signaled_world_reached : rtc (step demo_layout) lobby (signaled_world true UINT64_MAX).
Proof.
  transitivity (waiting_world true UINT64_MAX).
  - apply (play_runs _ (waiting_script true UINT64_MAX)). vm_compute. reflexivity.
  - apply (play_runs _ [Signal waiter 65536]). vm_compute. reflexivity.
Qed.

Lemma event_no_lost_wakeup_witness :
  has_state (Slot 0) THREAD_STATE_BLOCKED (sch (waiting_world true UINT64_MAX)) = true ∧
  ¬ blocked (Slot 0) (sch (signaled_world true UINT64_MAX)).
Proof.
  split; [vm_compute; reflexivity|].
  assert (∃ e, event_at 8192 (signaled_world true UINT64_MAX) = Some e ∧ manual_reset e = true ∧ signaled e = true) as
    (e & He & Hm & Hs) by (eexists; vm_compute; split; [reflexivity|done]).
  destruct (event_no_lost_wakeup demo_layout lobby _ 8192 e lobby_initial signaled_world_reached He) as [_ H].
  apply (H (Slot 0) (Loop None)); [vm_compute; reflexivity|done|done|done].
Defined.

(** The same run on an auto-reset event: the signal wakes the waiter, which finds
    the event clear and blocks again. *)
Theorem auto_reset_waiter_blocks_again :
  let w := signaled_world false UINT64_MAX in
  has_state (Slot 0) THREAD_STATE_BLOCKED (sch (waiting_world false UINT64_MAX)) = true ∧
  current_task (sch w) = Some (Slot 0) ∧
  match wait_step demo_layout 0 0 (Slot 0) w with
  | Some w1 => has_state (Slot 0) THREAD_STATE_BLOCKED (sch w1) = true ∧ pcs w1 !! Slot 0 = Some (8192, Parked None)
  | None => False
  end.
Proof. vm_compute. done. Qed.

(** Destroying an event while a thread waits on it: the thread touches the freed
    event when it runs again. *)
Theorem waiter_uses_freed_event :
  let w := event_destructor demo_layout 8192 (waiting_world true UINT64_MAX) in
  current_task (sch w) = Some (Slot 0) ∧ wait_step demo_layout 0 0 (Slot 0) w = None.
Proof. vm_compute. done. Qed.
