(* ===== verification/Process.v ===== *)
(** * Processes and threads (src/kernel/process.c, src/include/kos/process.h)

    The process table, the process tree, thread creation and exit, the reaper,
    waiting and exec, above the scheduler of Task.v.  A [struct process *] is a
    number: [i + 1] for [processes[i]], 33 and 34 for [idle_process] and
    [kernel_process], 0 for NULL (as in the [process] field of a task); the
    [pml4_physical] fields are the map of that name in the scheduler state.  The
    lists are sequences: a node is in a list when the process or thread is in
    the sequence, and deleting a node takes it out of the list that holds it.
    Handle tables, address spaces and kernel stacks are resources of other
    components: their creation is an argument (the pointer the call returned),
    and the sets of live ones are part of the state, so that giving one back
    twice is visible as [misuse].  A waiter in [exit_wq] is the thread to wake. *)

From Stdlib Require Import ZArith Lia.
From stdpp Require Import gmap.
From S2P Require Import Prelude Task.
#[local] Open Scope Z_scope.

(** ** Data *)

Definition PROCESS_NAME_MAX : nat := 32.
Definition PROCESS_MAX_COUNT : nat := 32.

Inductive process_state :=
  | PROCESS_STATE_UNUSED | PROCESS_STATE_ACTIVE | PROCESS_STATE_ZOMBIE | PROCESS_STATE_DEAD.

#[export] Instance process_state_eq_dec : EqDecision process_state.
Proof. solve_decision. Defined.

Record proc := Proc {
  pid : Z;
  name : list Z;
  ppid : Z;
  pstate : process_state;
  pexit_code : Z;
  threads : list task_ref;
  thread_count : Z;
  children : list Z;
  handles : Z;
  exit_wq : list task_ref;
}.

Definition idle_process : Z := 33.
Definition kernel_process : Z := 34.

Record pworld := PWorld {
  sch : sched;
  processes : gmap Z proc;
  process_list : list Z;
  next_pid : Z;
  active_process_count : Z;
  reaper_queue : list task_ref;
  reaper_reaped_total : Z;
  process_initialized : bool;
  live_tables : gset Z;
  live_spaces : gset Z;
  live_stacks : gset Z;
  misuse : bool;
}.

(** ** Field updates *)

Definition set_pstate (st : process_state) (p : proc) : proc :=
  Proc (pid p) (name p) (ppid p) st (pexit_code p) (threads p) (thread_count p) (children p) (handles p) (exit_wq p).
Definition set_pexit (c : Z) (p : proc) : proc :=
  Proc (pid p) (name p) (ppid p) (pstate p) c (threads p) (thread_count p) (children p) (handles p) (exit_wq p).
Definition set_threads (l : list task_ref) (n : Z) (p : proc) : proc :=
  Proc (pid p) (name p) (ppid p) (pstate p) (pexit_code p) l n (children p) (handles p) (exit_wq p).
Definition set_children (l : list Z) (p : proc) : proc :=
  Proc (pid p) (name p) (ppid p) (pstate p) (pexit_code p) (threads p) (thread_count p) l (handles p) (exit_wq p).
Definition set_ppid (n : Z) (p : proc) : proc :=
  Proc (pid p) (name p) n (pstate p) (pexit_code p) (threads p) (thread_count p) (children p) (handles p) (exit_wq p).
Definition set_handles (h : Z) (p : proc) : proc :=
  Proc (pid p) (name p) (ppid p) (pstate p) (pexit_code p) (threads p) (thread_count p) (children p) h (exit_wq p).
Definition set_exit_wq (l : list task_ref) (p : proc) : proc :=
  Proc (pid p) (name p) (ppid p) (pstate p) (pexit_code p) (threads p) (thread_count p) (children p) (handles p) l.
Definition set_name (l : list Z) (p : proc) : proc :=
  Proc (pid p) l (ppid p) (pstate p) (pexit_code p) (threads p) (thread_count p) (children p) (handles p) (exit_wq p).

Definition with_sch (x : sched) (w : pworld) : pworld :=
  PWorld x (processes w) (process_list w) (next_pid w) (active_process_count w) (reaper_queue w) (reaper_reaped_total w)
    (process_initialized w) (live_tables w) (live_spaces w) (live_stacks w) (misuse w).
Definition with_processes (m : gmap Z proc) (w : pworld) : pworld :=
  PWorld (sch w) m (process_list w) (next_pid w) (active_process_count w) (reaper_queue w) (reaper_reaped_total w)
    (process_initialized w) (live_tables w) (live_spaces w) (live_stacks w) (misuse w).
Definition with_list (l : list Z) (n : Z) (w : pworld) : pworld :=
  PWorld (sch w) (processes w) l (next_pid w) n (reaper_queue w) (reaper_reaped_total w)
    (process_initialized w) (live_tables w) (live_spaces w) (live_stacks w) (misuse w).
Definition with_next_pid (n : Z) (w : pworld) : pworld :=
  PWorld (sch w) (processes w) (process_list w) n (active_process_count w) (reaper_queue w) (reaper_reaped_total w)
    (process_initialized w) (live_tables w) (live_spaces w) (live_stacks w) (misuse w).
Definition with_reaper (q : list task_ref) (n : Z) (w : pworld) : pworld :=
  PWorld (sch w) (processes w) (process_list w) (next_pid w) (active_process_count w) q n
    (process_initialized w) (live_tables w) (live_spaces w) (live_stacks w) (misuse w).
Definition with_live (t sp st : gset Z) (bad : bool) (w : pworld) : pworld :=
  PWorld (sch w) (processes w) (process_list w) (next_pid w) (active_process_count w) (reaper_queue w) (reaper_reaped_total w)
    (process_initialized w) t sp st bad.

Definition upd (p : Z) (f : proc → proc) (w : pworld) : pworld := with_processes (alter f p (processes w)) w.
Definition on_sch (f : sched → sched) (w : pworld) : pworld := with_sch (f (sch w)) w.

(** ** Calls into other components *)

(** [handle_table_destroy], [vmm_destroy_address_space] and [kfree] of a stack. *)
Definition handle_table_destroy (h : Z) (w : pworld) : pworld :=
  with_live (live_tables w ∖ {[h]}) (live_spaces w) (live_stacks w) (misuse w || negb (bool_decide (h ∈ live_tables w))) w.

Definition vmm_destroy_address_space (v : Z) (w : pworld) : pworld :=
  let w := if Z.land (cr3 (sch w)) 0x000ffffffffff000 =? v
           then on_sch (with_cr3 (get0 (pml4_physical (sch w)) kernel_process)) w else w in
  with_live (live_tables w) (live_spaces w ∖ {[v]}) (live_stacks w) (misuse w || negb (bool_decide (v ∈ live_spaces w))) w.

Definition kfree_stack (a : Z) (w : pworld) : pworld :=
  with_live (live_tables w) (live_spaces w) (live_stacks w ∖ {[a]}) (misuse w || negb (bool_decide (a ∈ live_stacks w))) w.

(** What the creating calls returned becomes live; 0 is a failed call. *)
Definition gain_table (h : Z) (w : pworld) : pworld :=
  if h =? 0 then w else with_live (live_tables w ∪ {[h]}) (live_spaces w) (live_stacks w) (misuse w) w.
Definition gain_space (v : Z) (w : pworld) : pworld :=
  if v =? 0 then w else with_live (live_tables w) (live_spaces w ∪ {[v]}) (live_stacks w) (misuse w) w.
Definition gain_stack (a : Z) (w : pworld) : pworld :=
  if a =? 0 then w else with_live (live_tables w) (live_spaces w) (live_stacks w ∪ {[a]}) (misuse w) w.

(** [wait_queue_wake_all(&proc->exit_wq)]. *)
Definition wake_exit_wq (p : Z) (w : pworld) : pworld :=
  match processes w !! p with
  | None => w
  | Some P =>
      let w := on_sch (λ s, task_request_reschedule (foldl (λ s r, task_unblock (Some r) s) s (exit_wq P))) w in
      upd p (set_exit_wq []) w
  end.

(** The body of [task_sleep_dequeue], under its lock. *)
Definition sleep_dequeue (r : task_ref) (w : pworld) : pworld :=
  on_sch (λ s, modify r (set_target 0) (sleep_queue_unlink r s)) w.

Definition set_stack (a n : Z) (t : task) : task :=
  Task (context t) (entry t) (argument t) a n (state t) (tid t) (process t) (exit_code t)
    (sleep_target_tick t) (preempt_count t) (reschedule_pending t) (quantum_remaining t).
Definition set_exit_code (c : Z) (t : task) : task :=
  Task (context t) (entry t) (argument t) (stack t) (stack_size t) (state t) (tid t) (process t) c
    (sleep_target_tick t) (preempt_count t) (reschedule_pending t) (quantum_remaining t).
Definition set_process (p : Z) (t : task) : task :=
  Task (context t) (entry t) (argument t) (stack t) (stack_size t) (state t) (tid t) p (exit_code t)
    (sleep_target_tick t) (preempt_count t) (reschedule_pending t) (quantum_remaining t).

Definition set_pml4 (p v : Z) (s : sched) : sched :=
  Sched (tasks s) (idle_task s) (current_task s) (next_task_id s) (initialized s) (reschedule_requested s) (sleep_queue s)
    (sleeping_task_count s) (reaper_thread s) (percpu_current s) (<[p := v]> (pml4_physical s)) (cpu s) (cr3 s) (rsp0 s).

Definition set_reaper (r : option task_ref) (s : sched) : sched :=
  Sched (tasks s) (idle_task s) (current_task s) (next_task_id s) (initialized s) (reschedule_requested s) (sleep_queue s)
    (sleeping_task_count s) r (percpu_current s) (pml4_physical s) (cpu s) (cr3 s) (rsp0 s).

(** [cpu_read_cr3() & ~0xFFF]. *)
Definition cr3_base (s : sched) : Z := Z.land (cr3 s) (not64 0xfff).

(** ** Queries *)

Definition thread_current (w : pworld) : option task_ref := task_current (sch w).

(** [cur->process], 0 when there is no current thread. *)
Definition current_process (w : pworld) : Z :=
  match thread_current w with
  | Some c => match get c (sch w) with Some t => process t | None => 0 end
  | None => 0
  end.

Definition process_get_current (w : pworld) : Z :=
  let p := current_process w in if p =? 0 then kernel_process else p.

Definition thread_get_state (r : option task_ref) (w : pworld) : thread_state :=
  match r with
  | None => THREAD_STATE_UNUSED
  | Some r => match get r (sch w) with Some t => state t | None => THREAD_STATE_UNUSED end
  end.

(** The walk over [process_list]. *)
Fixpoint find_pid (n : Z) (l : list Z) (m : gmap Z proc) : Z :=
  match l with
  | [] => 0
  | p :: l => match m !! p with Some P => if pid P =? n then p else find_pid n l m | None => find_pid n l m end
  end.

Definition process_find_by_pid (n : Z) (w : pworld) : Z :=
  if n =? 0 then idle_process else if n =? 1 then kernel_process else find_pid n (process_list w) (processes w).

Definition process_count (w : pworld) : Z := active_process_count w.
Definition reaper_reaped_count (w : pworld) : Z := reaper_reaped_total w.

(** ** Creation *)

Definition is_free (P : proc) : bool :=
  bool_decide (pstate P = PROCESS_STATE_UNUSED) || bool_decide (pstate P = PROCESS_STATE_DEAD).

(** The first free entry of [processes]; 0 for none. *)
Fixpoint find_free_process (m : gmap Z proc) (n : nat) (p : Z) : Z :=
  match n with
  | O => 0
  | S n =>
      match m !! p with
      | Some P => if is_free P then p else find_free_process m n (p + 1)
      | None => 0
      end
  end.

Definition copy_name (nm : list Z) : list Z := take (PROCESS_NAME_MAX - 1) nm.

Section layout.
Context (L : task_layout).

(** [nm] is the name, [None] for NULL; [ht] what [handle_table_create] returned. *)
Definition process_create (nm : option (list Z)) (ht : Z) (w : pworld) : Z * pworld :=
  match nm with
  | None => (0, w)
  | Some nm =>
      let p := find_free_process (processes w) PROCESS_MAX_COUNT 1 in
      if p =? 0 then (0, w)
      else
        let n := next_pid w in
        let w := with_next_pid (u64 (n + 1)) w in
        let cur := process_get_current w in
        let parent_pid := match processes w !! cur with Some C => pid C | None => 0 end in
        let w := gain_table ht w in
        let w := upd p (λ P, Proc n (copy_name nm) parent_pid PROCESS_STATE_ACTIVE 0 [] 0 [] ht []) w in
        let w := on_sch (set_pml4 p (cr3_base (sch w))) w in
        let w := with_list (process_list w ++ [p]) (u64 (active_process_count w + 1)) w in
        (p, upd cur (λ C, set_children (children C ++ [p]) C) w)
  end.

(** [stk] is what [kmalloc] returned. *)
Definition thread_create (p ent arg stk : Z) (w : pworld) : option task_ref * pworld :=
  let p := if p =? 0 then kernel_process else p in
  if ent =? 0 then (None, w)
  else
    match task_allocate_slot (sch w) with
    | None => (None, w)
    | Some _ =>
        let '(r, s) := install_thread L p ent arg stk (sch w) in
        let w := gain_stack stk (with_sch s w) in
        match r with
        | None => (None, w)
        | Some r => (Some r, upd p (λ P, set_threads (threads P ++ [r]) (u32 (thread_count P + 1)) P) w)
        end
    end.

(** ** Destruction *)

(** [list_del_init(&p->sibling_node)]: out of the children list that has it. *)
Definition unlink_sibling (p : Z) (w : pworld) : pworld :=
  with_processes ((λ P, set_children (filter (λ c, c ≠ p) (children P)) P) <$> processes w) w.

(** A child goes to the kernel process. *)
Definition reparent (w : pworld) (c : Z) : pworld :=
  let w := unlink_sibling c w in
  let w := upd c (set_ppid 1) w in
  upd kernel_process (λ K, set_children (children K ++ [c]) K) w.

(** [list_del_init] on a thread's [process_node] and [reaper_node]. *)
Definition unlink_thread (r : task_ref) (w : pworld) : pworld :=
  with_processes ((λ P, set_threads (filter (λ e, e ≠ r) (threads P)) (thread_count P) P) <$> processes w) w.

Definition unqueue (r : task_ref) (w : pworld) : pworld :=
  with_reaper (filter (λ e, e ≠ r) (reaper_queue w)) (reaper_reaped_total w) w.

(** One thread of a process that is destroyed. *)
Definition drop_thread (w : pworld) (r : task_ref) : pworld :=
  let w := unlink_thread r w in
  let w := sleep_dequeue r w in
  let w := unqueue r w in
  if bool_decide (thread_current w = Some r) then w
  else
    match get r (sch w) with
    | None => w
    | Some t =>
        let w := if negb (bool_decide (r = Idle)) && negb (stack t =? 0) && (stack_size t >? 0)
                 then on_sch (modify r (set_stack 0 0)) (kfree_stack (stack t) w) else w in
        on_sch (task_free_slot (Some r)) w
    end.

(** Section 4 of [process_destroy]: the entry of the table. *)
Definition mark_dead (p : Z) (w : pworld) : pworld :=
  match processes w !! p with
  | None => w
  | Some P =>
      if bool_decide (pstate P = PROCESS_STATE_DEAD) then w
      else
        let w := upd p (set_pstate PROCESS_STATE_DEAD) w in
        with_list (filter (λ q, q ≠ p) (process_list w))
          (if active_process_count w >? 2 then active_process_count w - 1 else active_process_count w) w
  end.

(** [ht = proc->handles; proc->handles = NULL; ... handle_table_destroy(ht)]. *)
Definition drop_handles (p : Z) (w : pworld) : pworld :=
  match processes w !! p with
  | None => w
  | Some P =>
      let w := upd p (set_handles 0) w in
      if handles P =? 0 then w else handle_table_destroy (handles P) w
  end.

Definition drop_space (p : Z) (w : pworld) : pworld :=
  let v := get0 (pml4_physical (sch w)) p in
  let w := on_sch (set_pml4 p 0) w in
  if negb (v =? 0) && negb (v =? get0 (pml4_physical (sch w)) kernel_process) then vmm_destroy_address_space v w else w.

Definition process_destroy (p : Z) (w : pworld) : pworld :=
  match processes w !! p with
  | None => w
  | Some P =>
      if pid P <=? 1 then w
      else
        let w := foldl reparent w (children P) in
        let w := unlink_sibling p w in
        let w := foldl drop_thread w (threads P) in
        let w := upd p (λ P, set_threads (threads P) 0 P) w in
        let w := mark_dead p w in
        let w := drop_handles p w in
        let w := drop_space p w in
        wake_exit_wq p w
  end.

(** [parent == NULL || parent->state == PROCESS_STATE_DEAD]. *)
Definition parent_gone (n : Z) (w : pworld) : bool :=
  let q := process_find_by_pid n w in
  if q =? 0 then true
  else match processes w !! q with Some Q => bool_decide (pstate Q = PROCESS_STATE_DEAD) | None => true end.

(** ** Exit *)

(** Appends to the reaper's queue and wakes it. *)
Definition enqueue_reaper (r : task_ref) (w : pworld) : pworld :=
  let w := with_reaper (reaper_queue w ++ [r]) (reaper_reaped_total w) w in
  on_sch (λ s, task_unblock (reaper_thread s) s) w.

(** The three steps of [thread_exit] before [schedule]; the thread may be
    interrupted between them. *)
Definition exit_mark (c : task_ref) (code : Z) (w : pworld) : pworld :=
  on_sch (modify c (λ t, set_state THREAD_STATE_ZOMBIE (set_exit_code code t))) w.

Definition exit_process_part (p code : Z) (w : pworld) : pworld :=
  if (p =? 0) || (p =? kernel_process) || (p =? idle_process) then w
  else
    match processes w !! p with
    | None => w
    | Some P =>
        if bool_decide (pstate P = PROCESS_STATE_ACTIVE)
        then wake_exit_wq p (upd p (λ P, set_pstate PROCESS_STATE_ZOMBIE (set_pexit code P)) w) else w
    end.

(** Idle and bootstrap threads halt instead: the state does not change any more. *)
Definition may_exit (c : task_ref) (w : pworld) : bool :=
  match c with
  | Idle => false
  | Slot _ => match get c (sch w) with Some t => negb (tid t =? 0) && negb (tid t =? 1) | None => false end
  end.

Definition thread_exit (code : Z) (w : pworld) : pworld :=
  match thread_current w with
  | None => w
  | Some c =>
      if negb (may_exit c w) then w
      else
        let w := exit_mark c code w in
        let p := match get c (sch w) with Some t => process t | None => 0 end in
        let w := exit_process_part p code w in
        let w := enqueue_reaper c w in
        on_sch (schedule L) w
  end.

(** One thread of a process that exits. *)
Definition kill_thread (code : Z) (w : pworld) (r : task_ref) : pworld :=
  if bool_decide (thread_current w = Some r) then w
  else
    match get r (sch w) with
    | None => w
    | Some t =>
        if bool_decide (state t = THREAD_STATE_ZOMBIE) || bool_decide (state t = THREAD_STATE_DEAD) then w
        else
          let w := exit_mark r code w in
          let w := sleep_dequeue r w in
          enqueue_reaper r w
    end.

Definition process_exit (p code : Z) (w : pworld) : pworld :=
  match processes w !! p with
  | None => w
  | Some P =>
      if pid P <=? 1 then w
      else if bool_decide (pstate P = PROCESS_STATE_ZOMBIE) || bool_decide (pstate P = PROCESS_STATE_DEAD) then w
      else
        let cur := thread_current w in
        let w := upd p (λ P, set_pstate PROCESS_STATE_ZOMBIE (set_pexit code P)) w in
        let w := upd p (set_handles 0) w in
        let w := foldl (kill_thread code) w (threads P) in
        let w := if handles P =? 0 then w else handle_table_destroy (handles P) w in
        let w := wake_exit_wq p w in
        let w := if (thread_count P =? 0) && parent_gone (ppid P) w then process_destroy p w else w in
        match cur with
        | Some c => match get c (sch w) with
                    | Some t => if process t =? p then thread_exit code w else w
                    | None => w
                    end
        | None => w
        end
  end.

(** ** Reaper *)

(** One round of [reaper_thread_entry]. *)
Definition reap (z : task_ref) (w : pworld) : pworld :=
  let w := on_sch (modify z (set_state THREAD_STATE_DEAD)) w in
  match get z (sch w) with
  | None => w
  | Some t =>
      let w := if negb (stack t =? 0) && (stack_size t >? 0)
               then on_sch (modify z (set_stack 0 (stack_size t))) (kfree_stack (stack t) w) else w in
      let w :=
        match processes w !! process t with
        | None => w
        | Some P =>
            let n := if thread_count P >? 0 then thread_count P - 1 else thread_count P in
            let w := upd (process t) (λ P, set_threads (threads P) n P) (unlink_thread z w) in
            if bool_decide (pstate P = PROCESS_STATE_ZOMBIE) && (n =? 0) && parent_gone (ppid P) w
            then process_destroy (process t) w else w
        end in
      with_reaper (reaper_queue w) (u64 (reaper_reaped_total w + 1)) w
  end.

Definition reaper_round (w : pworld) : pworld :=
  match reaper_queue w with
  | z :: q => reap z (with_reaper q (reaper_reaped_total w) w)
  | [] =>
      let w := match reaper_thread (sch w) with
               | Some r => on_sch (modify r (set_state THREAD_STATE_BLOCKED)) w
               | None => w
               end in
      on_sch (schedule L) w
  end.

(** ** Waiting *)

Definition process_exit_condition (p : Z) (w : pworld) : bool :=
  if p =? 0 then true
  else match processes w !! p with
       | Some P => bool_decide (pstate P = PROCESS_STATE_ZOMBIE) || bool_decide (pstate P = PROCESS_STATE_DEAD)
       | None => false
       end.

(** The part of [process_wait] after the wait: the exit code, when it returns true. *)
Definition collect (p : Z) (exited : bool) (w : pworld) : option Z * pworld :=
  if negb exited then (None, w)
  else
    match processes w !! p with
    | None => (None, w)
    | Some P => (Some (pexit_code P), process_destroy p (unlink_sibling p w))
    end.

(** [waited] is what [wait_event_timeout] returned, with the world in which it returned. *)
Definition process_wait (p timeout_ms : Z) (waited : bool) (w : pworld) : option Z * pworld :=
  if p =? 0 then (None, w)
  else if (timeout_ms =? 0) || (timeout_ms =? W64 - 1) then collect p (process_exit_condition p w) w
  else collect p waited w.

(** ** Exec *)

Inductive exec_result := ExecFailed | Entered (entry_point user_rsp : Z).

(** The part of the path after the last separator. *)
Definition basename (path : list Z) : list Z :=
  foldl (λ acc c, if (c =? 47) || (c =? 92) then [] else acc ++ [c]) [] path.

(** [v] is the address space [vmm_create_address_space] returned (0: none),
    [image] the entry point [elf_load_binary] found, [rsp] the stack pointer of
    [process_setup_user_stack]. *)
Definition process_exec (path : option (list Z)) (v : Z) (image rsp : option Z) (w : pworld) : exec_result * pworld :=
  match path with
  | None => (ExecFailed, w)
  | Some path =>
      let p := process_get_current w in
      if v =? 0 then (ExecFailed, w)
      else
        let w := gain_space v w in
        match image with
        | None => (ExecFailed, vmm_destroy_address_space v w)
        | Some ent =>
            match rsp with
            | None => (ExecFailed, vmm_destroy_address_space v w)
            | Some sp =>
                let old := get0 (pml4_physical (sch w)) p in
                let w := if negb (old =? 0) && negb (old =? get0 (pml4_physical (sch w)) kernel_process)
                         then vmm_destroy_address_space old w else w in
                let w := on_sch (set_pml4 p v) w in
                let w := upd p (set_name (copy_name (basename path))) w in
                let w := match thread_current w with
                         | Some c => match get c (sch w) with
                                     | Some t => if stack t =? 0 then w
                                                 else on_sch (with_rsp0 (Z.land (u64 (stack t + stack_size t)) (not64 15))) w
                                     | None => w
                                     end
                         | None => w
                         end in
                (Entered ent sp, on_sch (with_cr3 v) w)
            end
        end
  end.

(** ** Initialisation *)

Definition empty_process : proc := Proc 0 [] 0 PROCESS_STATE_UNUSED 0 [] 0 [] 0 [].

Definition reset_process (P : proc) : proc :=
  Proc 0 (name P) (ppid P) PROCESS_STATE_UNUSED (pexit_code P) [] 0 [] 0 [].

(** [hi] and [hk] are the handle tables of the two fixed processes, [stk] the stack
    of the reaper; up to the call of the self-test. *)
Definition process_subsystem_init (hi hk stk reaper_entry : Z) (w : pworld) : pworld :=
  if process_initialized w then w
  else
    let w := with_reaper [] 0 w in
    let m := map_imap (λ p P, Some (if p <=? 32 then reset_process P else P)) (processes w) in
    let m := <[idle_process := Proc 0 [105; 100; 108; 101] 0 PROCESS_STATE_ACTIVE 0 [Idle] 1 [] hi []]> m in
    let cur := task_current (sch w) in
    let kt := match cur with Some c => [c] | None => [] end in
    let m := <[kernel_process := Proc 1 [107; 101; 114; 110; 101; 108] 0 PROCESS_STATE_ACTIVE 0 kt 1 [] hk []]> m in
    let w := with_list [idle_process; kernel_process] 2 (with_processes m w) in
    let w := gain_table hk (gain_table hi w) in
    let w := on_sch (λ s, set_pml4 kernel_process (cr3_base s) (set_pml4 idle_process (cr3_base s) s)) w in
    let w := on_sch (modify Idle (set_process idle_process)) w in
    let w := match cur with Some c => on_sch (modify c (set_process kernel_process)) w | None => w end in
    let '(r, w) := thread_create kernel_process reaper_entry 0 stk w in
    let w := on_sch (set_reaper r) w in
    let w := match r with Some r => on_sch (modify r (set_state THREAD_STATE_BLOCKED)) w | None => w end in
    PWorld (sch w) (processes w) (process_list w) (next_pid w) (active_process_count w) (reaper_queue w)
      (reaper_reaped_total w) true (live_tables w) (live_spaces w) (live_stacks w) (misuse w).

End layout.
