(* ===== verification/ProcessSpec.v ===== *)
(** * What the process subsystem guarantees (src/kernel/process.c)

    [proc_inv] ties the process table, the process tree, the threads of the
    scheduler, the reaper's queue and the resources together; every operation
    keeps it, so in every reachable state each thread belongs to exactly one
    process that is listed, each child is listed under its parent, and handle
    tables, address spaces and stacks are given back exactly once. *)

From Stdlib Require Import ZArith Lia.
From stdpp Require Import gmap.
From S2P Require Import Prelude Task TaskSpec Process.
#[local] Open Scope Z_scope.

Implicit Types w : pworld.
Implicit Types s : sched.
Implicit Types r : task_ref.

(** ** Removal from a list *)

Lemma filter_not_in `{EqDecision A} (x : A) (l : list A) : x ∉ l → filter (λ e, e ≠ x) l = l.
Proof.
  induction l as [|a l IH]; intros H; [done|]. rewrite not_elem_of_cons in H. destruct H as [Ha Hl].
  rewrite filter_cons_True by congruence. by rewrite IH.
Qed.

Lemma length_filter_in `{EqDecision A} (x : A) (l : list A) : NoDup l → x ∈ l → length l = S (length (filter (λ e, e ≠ x) l)).
Proof.
  induction 1 as [|a l Ha Hl IH]; intros H; [by apply not_elem_of_nil in H|].
  destruct (decide (a = x)) as [->|Hne].
  - rewrite filter_cons_False by (by intros []). by rewrite filter_not_in.
  - apply elem_of_cons in H as [->|H]; [done|]. rewrite filter_cons_True by done. simpl. by rewrite <- IH.
Qed.

(** ** Scheduler changes that a process cannot see *)

Inductive thread_class := Unused | Dead | Zombie | Alive.

Definition class (st : thread_state) : thread_class :=
  match st with
  | THREAD_STATE_UNUSED => Unused
  | THREAD_STATE_DEAD => Dead
  | THREAD_STATE_ZOMBIE => Zombie
  | _ => Alive
  end.

(** The slot is taken. *)
Definition taken (t : task) : Prop := class (state t) = Zombie ∨ class (state t) = Alive.

Definition same_task (t t' : task) : Prop :=
  process t' = process t ∧ stack t' = stack t ∧ stack_size t' = stack_size t ∧ tid t' = tid t ∧ class (state t') = class (state t).

Definition frame s s' : Prop :=
  (∀ r, option_relation same_task (λ _, False) (λ _, False) (get r s) (get r s')) ∧
  length (tasks s') = length (tasks s) ∧ pml4_physical s' = pml4_physical s.

Lemma frame_refl s : frame s s.
Proof. split; [|done]. intros r. by destruct (get r s). Qed.

Lemma frame_trans s1 s2 s3 : frame s1 s2 → frame s2 s3 → frame s1 s3.
Proof.
  intros (A1 & A2 & A3) (B1 & B2 & B3). split; [|split; congruence]. intros r. specialize (A1 r). specialize (B1 r).
  destruct (get r s1) as [t1|], (get r s2) as [t2|], (get r s3) as [t3|]; try done.
  destruct A1 as (? & ? & ? & ? & ?), B1 as (? & ? & ? & ? & ?). unfold same_task. split_and!; congruence.
Qed.

Lemma frame_modify r f s : (∀ t, get r s = Some t → same_task t (f t)) → frame s (modify r f s).
Proof.
  intros Hf. split; [|by fields]. intros r'. rewrite get_modify.
  destruct (decide (r' = r)) as [->|]; [|by destruct (get r' s)].
  destruct (get r s) as [t|] eqn:E; [|done]. by apply Hf.
Qed.

(** Changes outside the task table. *)
Lemma frame_outside s s' :
  tasks s' = tasks s → idle_task s' = idle_task s → pml4_physical s' = pml4_physical s → frame s s'.
Proof.
  intros H1 H2 H3. split; [|by rewrite H1]. intros r.
  assert (get r s' = get r s) as -> by (destruct r; simpl; congruence). by destruct (get r s).
Qed.

Lemma frame_unblock o s : frame s (task_unblock o s).
Proof.
  destruct o as [r|]; [|apply frame_refl]. simpl. destruct (has_state r THREAD_STATE_BLOCKED s) eqn:E; [|apply frame_refl].
  apply has_state_true in E as (t & Ht & Hs). apply frame_modify. intros t' Ht'. rewrite Ht in Ht'. injection Ht' as <-.
  unfold same_task. simpl. by rewrite Hs.
Qed.

Lemma frame_request s : frame s (task_request_reschedule s).
Proof.
  unfold task_request_reschedule. destruct (current_task _) as [c|]; [|by apply frame_outside].
  eapply frame_trans; [|apply frame_modify]; [by apply frame_outside|].
  intros t _. by destruct (preempt_count t >? 0).
Qed.

Lemma frame_dequeue r s : frame s (modify r (set_target 0) (sleep_queue_unlink r s)).
Proof.
  eapply frame_trans; [|by apply frame_modify]. unfold sleep_queue_unlink. case_bool_decide; by apply frame_outside.
Qed.

Lemma frame_class s s' r t : frame s s' → get r s = Some t → ∃ t', get r s' = Some t' ∧ same_task t t'.
Proof. intros (H & _) Ht. specialize (H r). rewrite Ht in H. destruct (get r s') as [t'|]; [by exists t'|done]. Qed.

Lemma frame_class_back s s' r t' : frame s s' → get r s' = Some t' → ∃ t, get r s = Some t ∧ same_task t t'.
Proof. intros (H & _) Ht. specialize (H r). rewrite Ht in H. destruct (get r s) as [t|]; [by exists t|done]. Qed.

Lemma frame_switch L n flags s :
  (∀ t, get n s = Some t → class (state t) = Alive) → frame s (switch_to L n flags s).
Proof.
  intros Hn. unfold switch_to.
  set (s1 := match current_task s with Some p => _ | None => s end).
  assert (frame s s1) as F1.
  { unfold s1. destruct (current_task s) as [p|]; [|apply frame_refl].
    destruct (has_state p THREAD_STATE_RUNNING s) eqn:E; [|apply frame_refl].
    apply has_state_true in E as (t & Ht & Hs). apply frame_modify. intros t' Ht'. rewrite Ht in Ht'. injection Ht' as <-.
    unfold same_task. simpl. by rewrite Hs. }
  clearbody s1. set (s2 := modify n (set_state THREAD_STATE_RUNNING) s1).
  assert (frame s s2) as F2.
  { eapply frame_trans; [exact F1|]. apply frame_modify. intros t Ht.
    destruct (frame_class_back _ _ _ _ F1 Ht) as (t0 & Ht0 & (? & ? & ? & ? & Hcl)). unfold same_task. simpl.
    split_and!; try done. by rewrite Hcl, (Hn _ Ht0). }
  clearbody s2. set (s3 := with_current n _).
  assert (frame s s3) as F3.
  { eapply frame_trans; [exact F2|]. eapply (frame_trans _ (modify n (set_quantum TASK_DEFAULT_QUANTUM) s2)); [by apply frame_modify|].
    by apply frame_outside. }
  clearbody s3. destruct (get n s3) as [t|]; [|done].
  match goal with |- frame s (match _ with Some p => _ | None => ?x end) => set (s4 := x) end.
  assert (frame s s4) as F4.
  { eapply frame_trans; [exact F3|]. unfold s4. destruct (_ && _); destruct (negb _); by apply frame_outside. }
  clearbody s4. destruct (current_task s) as [p|]; [|done]. unfold task_switch.
  set (s5 := modify p _ s4). assert (frame s s5) as F5 by (eapply frame_trans; [exact F4|]; by apply frame_modify).
  clearbody s5. set (s6 := modify p _ s5). assert (frame s s6) as F6 by (eapply frame_trans; [exact F5|]; by apply frame_modify).
  clearbody s6. destruct (get n s6) as [t'|]; [|done]. eapply frame_trans; [exact F6|]. by apply frame_outside.
Qed.

Lemma frame_restore flags s : frame s (cpu_interrupt_restore flags s).
Proof. unfold cpu_interrupt_restore. destruct (negb _); by apply frame_outside. Qed.

Lemma frame_schedule L s : class (state (idle_task s)) = Alive → frame s (schedule L s).
Proof.
  intros Hi. unfold schedule. destruct (initialized s); [|apply frame_refl]. cbn [negb cpu_interrupt_save_disable].
  set (s0 := with_cpu _ s). set (s1 := with_requested false s0).
  assert (frame s s1) as F1 by (by apply frame_outside).
  assert (∀ t, get Idle s1 = Some t → class (state t) = Alive) as HI by (intros t [= <-]; done).
  assert (∀ n, task_find_next_ready s0 = Some n → ∀ t, get n s1 = Some t → class (state t) = Alive) as HN.
  { intros n Hf t Ht. apply find_ready_Some in Hf as (d & _ & _ & Hr & _).
    apply has_state_true in Hr as (t' & Ht' & Hs).
    assert (get n s1 = get n s0) as E by (by destruct n). rewrite E, Ht' in Ht. injection Ht as <-. by rewrite Hs. }
  destruct (task_find_next_ready s0) as [n|] eqn:Hf.
  - specialize (HN n eq_refl). case_bool_decide; eapply frame_trans; [exact F1|apply frame_restore|exact F1|by apply frame_switch].
  - destruct (current_task s1) as [[i|]|].
    + destruct (has_state _ _ s1); eapply frame_trans; [exact F1|apply frame_restore|exact F1|by apply frame_switch].
    + eapply frame_trans; [exact F1|apply frame_restore].
    + eapply frame_trans; [exact F1|by apply frame_switch].
Qed.

(** ** Invariant *)

Definition fixed_process (p : Z) : Prop := p = idle_process ∨ p = kernel_process.
Definition slot_process (p : Z) : Prop := 1 ≤ p ≤ 32.

Definition in_use_state (st : process_state) : Prop := st = PROCESS_STATE_ACTIVE ∨ st = PROCESS_STATE_ZOMBIE.

(** The table and the list of processes. *)
Record table_ok w : Prop := {
  to_dom p : is_Some (processes w !! p) ↔ slot_process p ∨ fixed_process p;
  to_idle P : processes w !! idle_process = Some P → pid P = 0 ∧ pstate P = PROCESS_STATE_ACTIVE;
  to_kernel P : processes w !! kernel_process = Some P → pid P = 1 ∧ pstate P = PROCESS_STATE_ACTIVE;
  to_nodup : NoDup (process_list w);
  to_list p : p ∈ process_list w ↔ ∃ P, processes w !! p = Some P ∧ in_use_state (pstate P);
  to_pid p P : processes w !! p = Some P → slot_process p → p ∈ process_list w → 2 ≤ pid P < next_pid w;
  to_inj p q P Q : processes w !! p = Some P → processes w !! q = Some Q → p ∈ process_list w → q ∈ process_list w →
    pid P = pid Q → p = q;
  to_count : active_process_count w = Z.of_nat (length (process_list w));
  to_next : 2 ≤ next_pid w < W64;
  to_unused p P : processes w !! p = Some P → pstate P = PROCESS_STATE_UNUSED → pid P = 0;
}.

(** The tree: a child is listed and knows its parent. *)
Record tree_ok w : Prop := {
  tr_child p P c : processes w !! p = Some P → c ∈ children P →
    p ∈ process_list w ∧ slot_process c ∧ c ∈ process_list w ∧ ∃ C, processes w !! c = Some C ∧ ppid C = pid P;
  tr_nodup p P : processes w !! p = Some P → NoDup (children P);
}.

(** The threads; [x] is a process whose threads are being dropped. *)
Record threads_ok (x : Z) w : Prop := {
  th_size : length (tasks (sch w)) = TASK_MAX_COUNT;
  th_idle : class (state (idle_task (sch w))) = Alive;
  th_member p P r : processes w !! p = Some P → r ∈ threads P →
    p ∈ process_list w ∧ ∃ t, get r (sch w) = Some t ∧ process t = p ∧ taken t;
  th_slots p P r : processes w !! p = Some P → slot_process p → r ∈ threads P → ∃ i, r = Slot (S i);
  th_nodup p P : processes w !! p = Some P → NoDup (threads P);
  th_count p P : processes w !! p = Some P → p ≠ x → thread_count P = Z.of_nat (length (threads P));
  th_owner r t : get r (sch w) = Some t → taken t → process t ≠ 0 → ∃ P, processes w !! process t = Some P ∧ r ∈ threads P;
  th_queue_nodup : NoDup (reaper_queue w);
  th_queue r : r ∈ reaper_queue w → ∃ t, get r (sch w) = Some t ∧ class (state t) = Zombie;
}.

(** The resources: every handle table, private address space and kernel stack
    that something refers to is live and has no second owner. *)
Definition kernel_space w : Z := get0 (pml4_physical (sch w)) kernel_process.
Definition space_of w (p : Z) : Z := get0 (pml4_physical (sch w)) p.

Record resources_ok w : Prop := {
  re_tables p P : processes w !! p = Some P → handles P ≠ 0 → handles P ∈ live_tables w;
  re_tables_inj p q P Q : processes w !! p = Some P → processes w !! q = Some Q → handles P ≠ 0 → handles P = handles Q → p = q;
  re_spaces p : space_of w p = 0 ∨ space_of w p = kernel_space w ∨
    (space_of w p ∈ live_spaces w ∧ ∀ q, space_of w q = space_of w p → q = p);
  re_kernel : kernel_space w ∉ live_spaces w ∧ 0 ∉ live_spaces w;
  re_stacks i t : get (Slot i) (sch w) = Some t → taken t → stack t ≠ 0 → stack t ∈ live_stacks w;
  re_stacks_inj i j t u : get (Slot i) (sch w) = Some t → get (Slot j) (sch w) = Some u → taken t → taken u →
    stack t ≠ 0 → stack t = stack u → i = j;
  re_misuse : misuse w = false;
}.

Record proc_inv_but (x : Z) w : Prop := {
  pi_table : table_ok w;
  pi_tree : tree_ok w;
  pi_threads : threads_ok x w;
  pi_resources : resources_ok w;
}.

(** 0 is no process. *)
Definition proc_inv w : Prop := proc_inv_but 0 w.

(** ** Scheduler steps *)

Lemma taken_same t t' : same_task t t' → taken t ↔ taken t'.
Proof. intros (_ & _ & _ & _ & H). unfold taken. by rewrite H. Qed.

Lemma threads_ok_frame x w s : frame (sch w) s → threads_ok x w → threads_ok x (with_sch s w).
Proof.
  intros F [H1 H2 H3 H4 H5 H6 H7 H8 H9]. split; cbn [sch processes process_list reaper_queue with_sch]; try done.
  - by rewrite (proj1 (proj2 F)).
  - destruct (frame_class _ _ Idle _ F eq_refl) as (t & [= <-] & (_ & _ & _ & _ & H)). by rewrite H.
  - intros p P r HP Hr. destruct (H3 p P r HP Hr) as (Hl & t & Ht & Hp & Htk). split; [done|].
    destruct (frame_class _ _ _ _ F Ht) as (t' & Ht' & Hs). exists t'. split; [done|]. rewrite <- (taken_same _ _ Hs).
    split; [|done]. rewrite <- Hp. apply Hs.
  - intros r t' Ht' Htk Hp. destruct (frame_class_back _ _ _ _ F Ht') as (t & Ht & Hs).
    rewrite <- (taken_same _ _ Hs) in Htk. assert (process t' = process t) as E by apply Hs. rewrite E in *. by apply (H7 r t).
  - intros r Hr. destruct (H9 r Hr) as (t & Ht & Hc). destruct (frame_class _ _ _ _ F Ht) as (t' & Ht' & Hs).
    exists t'. split; [done|]. rewrite <- Hc. apply Hs.
Qed.

Lemma resources_ok_frame w s : frame (sch w) s → resources_ok w → resources_ok (with_sch s w).
Proof.
  intros F [H1 H2 H3 H4 H5 H6 H7]. pose proof (proj2 (proj2 F)) as Hm.
  split; cbn [sch processes live_tables live_spaces live_stacks misuse with_sch]; try done.
  - intros p. unfold space_of, kernel_space. cbn. rewrite Hm. apply (H3 p).
  - unfold kernel_space. cbn. by rewrite Hm.
  - intros i t' Ht' Htk Hst. destruct (frame_class_back _ _ _ _ F Ht') as (t & Ht & Hs). rewrite <- (taken_same _ _ Hs) in Htk.
    destruct Hs as (_ & E & _). rewrite E in *. by eapply H5.
  - intros i j t' u' Ht' Hu' Htk Huk Hst Heq. destruct (frame_class_back _ _ _ _ F Ht') as (t & Ht & Hs).
    destruct (frame_class_back _ _ _ _ F Hu') as (u & Hu & Hsu). rewrite <- (taken_same _ _ Hs) in Htk. rewrite <- (taken_same _ _ Hsu) in Huk.
    destruct Hs as (_ & E & _), Hsu as (_ & Eu & _). rewrite E, Eu in *. by eapply H6.
Qed.

Lemma proc_inv_frame x w s : frame (sch w) s → proc_inv_but x w → proc_inv_but x (with_sch s w).
Proof.
  intros F [[A1 A2 A3 A4 A5 A6 A7 A8 A9 A10] [B1 B2] H3 H4]. split; [by split|by split|by apply threads_ok_frame|by apply resources_ok_frame].
Qed.

(** ** Stores into processes *)

Lemma lookup_upd p f w q : processes (upd p f w) !! q = if decide (q = p) then f <$> processes w !! q else processes w !! q.
Proof.
  unfold upd. cbn. destruct (decide (q = p)) as [->|]; [apply lookup_alter_eq|by apply lookup_alter_ne].
Qed.

(** Two tables with the same view of every process. *)
Definition agrees {A} (v : proc → A) (m m' : gmap Z proc) : Prop := ∀ p, v <$> m' !! p = v <$> m !! p.

Lemma agrees_lookup {A} (v : proc → A) m m' p P' :
  agrees v m m' → m' !! p = Some P' → ∃ P, m !! p = Some P ∧ v P = v P'.
Proof. intros H HP. specialize (H p). rewrite HP in H. destruct (m !! p) as [P|]; [|done]. injection H as H. by exists P. Qed.

Lemma agrees_lookup_back {A} (v : proc → A) m m' p P :
  agrees v m m' → m !! p = Some P → ∃ P', m' !! p = Some P' ∧ v P = v P'.
Proof. intros H HP. specialize (H p). rewrite HP in H. destruct (m' !! p) as [P'|]; [|done]. injection H as H. by exists P'. Qed.

Lemma agrees_upd {A} (v : proc → A) p f w : (∀ P, v (f P) = v P) → agrees v (processes w) (processes (upd p f w)).
Proof.
  intros Hf q. rewrite lookup_upd. case_decide as E; [|done]. subst q. destruct (processes w !! p); [|done]. cbn. by rewrite Hf.
Qed.

Lemma agrees_fmap {A} (v : proc → A) f m : (∀ P, v (f P) = v P) → agrees v m (f <$> m).
Proof. intros Hf q. rewrite lookup_fmap. destruct (m !! q); [|done]. cbn. by rewrite Hf. Qed.

Lemma table_ok_agrees w m : agrees (λ P, (pid P, pstate P)) (processes w) m → table_ok w → table_ok (with_processes m w).
Proof.
  intros Ha [H1 H2 H3 H4 H5 H6 H7 H8 H9 H10]. split; cbn [processes process_list next_pid active_process_count with_processes]; try done.
  - intros p. rewrite <- H1. specialize (Ha p). destruct (m !! p), (processes w !! p); try done; split; intros [? ?]; done.
  - intros P' HP'. destruct (agrees_lookup _ _ _ _ _ Ha HP') as (P & HP & [= <- <-]). by apply H2.
  - intros P' HP'. destruct (agrees_lookup _ _ _ _ _ Ha HP') as (P & HP & [= <- <-]). by apply H3.
  - intros p. rewrite H5. split.
    + intros (P & HP & Hu). destruct (agrees_lookup_back _ _ _ _ _ Ha HP) as (P' & HP' & [= E1 E2]). exists P'. by rewrite <- E2.
    + intros (P' & HP' & Hu). destruct (agrees_lookup _ _ _ _ _ Ha HP') as (P & HP & [= E1 E2]). exists P. by rewrite E2.
  - intros p P' HP' Hs Hl. destruct (agrees_lookup _ _ _ _ _ Ha HP') as (P & HP & [= E1 E2]). rewrite <- E1. by apply (H6 p).
  - intros p q P' Q' HP' HQ' Hp Hq. destruct (agrees_lookup _ _ _ _ _ Ha HP') as (P & HP & [= E1 E2]).
    destruct (agrees_lookup _ _ _ _ _ Ha HQ') as (Q & HQ & [= F1 F2]). rewrite <- E1, <- F1. by apply H7.
  - intros p P' HP'. destruct (agrees_lookup _ _ _ _ _ Ha HP') as (P & HP & [= E1 E2]). rewrite <- E1, <- E2. by apply (H10 p).
Qed.

Lemma tree_ok_agrees w m : agrees (λ P, (pid P, ppid P, children P)) (processes w) m → tree_ok w → tree_ok (with_processes m w).
Proof.
  intros Ha [H1 H2]. split; cbn [processes process_list with_processes].
  - intros p P' c HP' Hc. destruct (agrees_lookup _ _ _ _ _ Ha HP') as (P & HP & [= E1 E2 E3]). rewrite <- E3 in Hc.
    destruct (H1 p P c HP Hc) as (? & ? & ? & C & HC & HCP). split_and!; try done.
    destruct (agrees_lookup_back _ _ _ _ _ Ha HC) as (C' & HC' & [= F1 F2 F3]). exists C'. split; [done|congruence].
  - intros p P' HP'. destruct (agrees_lookup _ _ _ _ _ Ha HP') as (P & HP & [= E1 E2 E3]). rewrite <- E3. by eapply H2.
Qed.

Lemma threads_ok_agrees x w m : agrees (λ P, (threads P, thread_count P)) (processes w) m → threads_ok x w → threads_ok x (with_processes m w).
Proof.
  intros Ha [H1 H2 H3 H4 H5 H6 H7 H8 H9]. split; cbn [sch processes process_list reaper_queue with_processes]; try done.
  - intros p P' r HP' Hr. destruct (agrees_lookup _ _ _ _ _ Ha HP') as (P & HP & [= E1 E2]). rewrite <- E1 in Hr. by apply (H3 p P).
  - intros p P' r HP' Hs Hr. destruct (agrees_lookup _ _ _ _ _ Ha HP') as (P & HP & [= E1 E2]). rewrite <- E1 in Hr. by eapply H4.
  - intros p P' HP'. destruct (agrees_lookup _ _ _ _ _ Ha HP') as (P & HP & [= E1 E2]). rewrite <- E1. by eapply H5.
  - intros p P' HP' Hx. destruct (agrees_lookup _ _ _ _ _ Ha HP') as (P & HP & [= E1 E2]). rewrite <- E1, <- E2. by eapply H6.
  - intros r t Ht Htk Hp. destruct (H7 r t Ht Htk Hp) as (P & HP & Hr).
    destruct (agrees_lookup_back _ _ _ _ _ Ha HP) as (P' & HP' & [= E1 E2]). exists P'. split; [done|congruence].
Qed.

Lemma resources_ok_agrees w m : agrees handles (processes w) m → resources_ok w → resources_ok (with_processes m w).
Proof.
  intros Ha [H1 H2 H3 H4 H5 H6 H7]. split; cbn [sch processes live_tables live_spaces live_stacks misuse with_processes]; try done.
  - intros p P' HP' Hh. destruct (agrees_lookup _ _ _ _ _ Ha HP') as (P & HP & E). rewrite <- E in *. by eapply H1.
  - intros p q P' Q' HP' HQ' Hh. destruct (agrees_lookup _ _ _ _ _ Ha HP') as (P & HP & E).
    destruct (agrees_lookup _ _ _ _ _ Ha HQ') as (Q & HQ & F). rewrite <- E, <- F in *. by eapply H2.
Qed.

(** ** The tree *)

Lemma tree_ok_unlink c w : table_ok w → tree_ok w → tree_ok (unlink_sibling c w).
Proof.
  intros HT [H1 H2]. unfold unlink_sibling. split; cbn [processes process_list with_processes].
  - intros p P' q HP' Hq. rewrite lookup_fmap in HP'. destruct (processes w !! p) as [P|] eqn:HP; [|done]. injection HP' as <-.
    cbn in Hq. apply list_elem_of_filter in Hq as [Hqc Hq]. destruct (H1 p P q HP Hq) as (? & ? & ? & Q & HQ & HQP).
    split_and!; try done. exists (set_children (filter (λ d, d ≠ c) (children Q)) Q). rewrite lookup_fmap, HQ. done.
  - intros p P' HP'. rewrite lookup_fmap in HP'. destruct (processes w !! p) as [P|] eqn:HP; [|done]. injection HP' as <-.
    cbn. apply NoDup_filter. by eapply H2.
Qed.

Lemma proc_inv_unlink x c w : proc_inv_but x w → proc_inv_but x (unlink_sibling c w).
Proof.
  intros [H1 H2 H3 H4]. split; [|by apply tree_ok_unlink|..]; unfold unlink_sibling.
  - apply table_ok_agrees; [|done]. by apply agrees_fmap.
  - apply threads_ok_agrees; [|done]. by apply agrees_fmap.
  - apply resources_ok_agrees; [|done]. by apply agrees_fmap.
Qed.

(** Nobody has [c] as a child. *)
Definition orphan (c : Z) w : Prop := ∀ p P, processes w !! p = Some P → c ∉ children P.

Lemma unlink_orphan c w : orphan c (unlink_sibling c w).
Proof.
  intros p P' HP'. unfold unlink_sibling in HP'. cbn in HP'. rewrite lookup_fmap in HP'.
  destruct (processes w !! p) as [P|]; [|done]. injection HP' as <-. cbn. intros [? _]%list_elem_of_filter. done.
Qed.

(** Making an orphan a child of a listed process. *)
Lemma tree_ok_adopt q c w Q :
  table_ok w → tree_ok w → orphan c w → processes w !! q = Some Q → q ∈ process_list w → slot_process c → c ∈ process_list w →
  tree_ok (upd q (λ Q, set_children (children Q ++ [c]) Q) (upd c (set_ppid (pid Q)) w)).
Proof.
  intros HT [H1 H2] Ho HQ Hq Hc Hcl. set (w1 := upd c (set_ppid (pid Q)) w). set (f := λ Q, set_children (children Q ++ [c]) Q).
  assert (Hlook : ∀ p P', processes (upd q f w1) !! p = Some P' →
    ∃ P, processes w !! p = Some P ∧ pid P' = pid P ∧ children P' = (if decide (p = q) then children P ++ [c] else children P) ∧
         ppid P' = if decide (p = c) then pid Q else ppid P).
  { intros p P'. rewrite lookup_upd. unfold w1. rewrite lookup_upd.
    destruct (decide (p = q)), (decide (p = c)); destruct (processes w !! p) as [P|]; cbn; intros [= <-]; exists P; done. }
  assert (Hback : ∀ p P, processes w !! p = Some P → ∃ P', processes (upd q f w1) !! p = Some P').
  { intros p P HP. rewrite lookup_upd. unfold w1. rewrite lookup_upd.
    destruct (decide (p = q)), (decide (p = c)); rewrite HP; by eexists. }
  split; cbn [processes process_list].
  - intros p P' d HP' Hd. destruct (Hlook p P' HP') as (P & HP & E1 & E2 & _). rewrite E2 in Hd. rewrite E1.
    change (process_list (upd q f w1)) with (process_list w).
    assert (d ∈ children P ∨ (p = q ∧ d = c)) as [Hd'|[-> ->]].
    { case_decide; [|by left]. apply elem_of_app in Hd as [Hd| ->%list_elem_of_singleton]; [by left|by right]. }
    + destruct (H1 p P d HP Hd') as (? & ? & ? & D & HD & HDP). split_and!; try done.
      destruct (Hback d D HD) as (D' & HD'). exists D'. split; [done|]. destruct (Hlook d D' HD') as (D0 & HD0 & _ & _ & E).
      rewrite HD in HD0. injection HD0 as <-. rewrite E. case_decide as Hdc; [|done]. subst d. by destruct (Ho p P HP).
    + rewrite HQ in HP. injection HP as <-. split_and!; try done. destruct (to_list _ HT c) as [Hx _]. destruct (Hx Hcl) as (C & HC & _).
      destruct (Hback c C HC) as (C' & HC'). exists C'. split; [done|]. destruct (Hlook c C' HC') as (C0 & _ & _ & _ & E).
      by rewrite decide_True in E.
  - intros p P' HP'. destruct (Hlook p P' HP') as (P & HP & _ & E2 & _). rewrite E2. case_decide; [|by eapply H2].
    apply NoDup_app. split; [by eapply H2|]. split; [|apply NoDup_singleton].
    intros d Hd ->%list_elem_of_singleton. by destruct (Ho p P HP).
Qed.

Lemma kernel_listed w : table_ok w → ∃ K, processes w !! kernel_process = Some K ∧ pid K = 1 ∧ kernel_process ∈ process_list w.
Proof.
  intros HT. destruct (proj2 (to_dom _ HT kernel_process)) as [K HK]; [by right; right|]. exists K.
  destruct (to_kernel _ HT K HK) as [Hp Hs]. split_and!; try done. apply (to_list _ HT). exists K. split; [done|by left].
Qed.

Lemma idle_listed w : table_ok w → idle_process ∈ process_list w.
Proof.
  intros HT. destruct (proj2 (to_dom _ HT idle_process)) as [K HK]; [by right; left|].
  destruct (to_idle _ HT K HK) as [Hp Hs]. apply (to_list _ HT). exists K. split; [done|by left].
Qed.

Lemma proc_inv_reparent x c w : proc_inv_but x w → slot_process c → c ∈ process_list w → proc_inv_but x (reparent w c).
Proof.
  intros Hi Hc Hcl. pose proof (proc_inv_unlink x c w Hi) as [H1 H2 H3 H4]. unfold reparent.
  set (w1 := unlink_sibling c w) in *. destruct (kernel_listed w1 H1) as (K & HK & Hpid & Hkl).
  rewrite <- Hpid. split.
  - apply table_ok_agrees; [by apply agrees_upd|]. apply table_ok_agrees; [by apply agrees_upd|done].
  - apply tree_ok_adopt; try done. apply unlink_orphan.
  - apply threads_ok_agrees; [by apply agrees_upd|]. apply threads_ok_agrees; [by apply agrees_upd|done].
  - apply resources_ok_agrees; [by apply agrees_upd|]. apply resources_ok_agrees; [by apply agrees_upd|done].
Qed.

(** What re-linking the tree leaves alone. *)
Definition core (P : proc) : Z * process_state * Z * list task_ref * Z * Z * list task_ref :=
  (pid P, pstate P, pexit_code P, threads P, thread_count P, handles P, exit_wq P).

Definition outside w := (sch w, process_list w, next_pid w, active_process_count w, reaper_queue w,
  (live_tables w, live_spaces w, live_stacks w, misuse w)).

Definition tree_only w w' : Prop := outside w' = outside w ∧ agrees core (processes w) (processes w').

Lemma tree_only_trans w1 w2 w3 : tree_only w1 w2 → tree_only w2 w3 → tree_only w1 w3.
Proof. intros [A1 A2] [B1 B2]. split; [congruence|]. intros p. by rewrite (B2 p), (A2 p). Qed.

Lemma tree_only_unlink c w : tree_only w (unlink_sibling c w).
Proof. split; [done|]. by apply agrees_fmap. Qed.

Lemma tree_only_reparent w c : tree_only w (reparent w c).
Proof.
  eapply tree_only_trans; [apply (tree_only_unlink c)|]. eapply (tree_only_trans _ (upd c (set_ppid 1) (unlink_sibling c w))).
  - split; [done|]. by apply agrees_upd.
  - split; [done|]. by apply agrees_upd.
Qed.

Lemma children_unlink c w p P :
  processes w !! p = Some P → ∃ P', processes (unlink_sibling c w) !! p = Some P' ∧ children P' = filter (λ d, d ≠ c) (children P).
Proof. intros HP. unfold unlink_sibling. cbn. rewrite lookup_fmap, HP. by eexists. Qed.

Lemma children_reparent c w p P :
  processes w !! p = Some P → p ≠ kernel_process →
  ∃ P', processes (reparent w c) !! p = Some P' ∧ children P' = filter (λ d, d ≠ c) (children P).
Proof.
  intros HP Hk. unfold reparent. rewrite lookup_upd, decide_False by done. rewrite lookup_upd.
  destruct (children_unlink c w p P HP) as (P' & -> & E). case_decide; by eexists.
Qed.

Lemma reparent_all x p l : ∀ w P,
  proc_inv_but x w → processes w !! p = Some P → p ≠ kernel_process → (∀ c, c ∈ l → slot_process c ∧ c ∈ process_list w) →
  let w' := foldl reparent w l in
  proc_inv_but x w' ∧ tree_only w w' ∧
  ∃ P', processes w' !! p = Some P' ∧ ∀ c, c ∈ children P' → c ∈ children P ∧ c ∉ l.
Proof.
  induction l as [|c l IH]; intros w P Hi HP Hk Hl; cbn [foldl].
  - split; [done|]. split; [done|]. exists P. split; [done|]. intros c Hc. split; [done|]. apply not_elem_of_nil.
  - destruct (Hl c ltac:(by left)) as [Hc Hcl]. destruct (children_reparent c w p P HP Hk) as (P1 & HP1 & E1).
    pose proof (tree_only_reparent w c) as Ht. assert (process_list (reparent w c) = process_list w) as El by done.
    destruct (IH (reparent w c) P1) as (HA & HB & P2 & HP2 & HC); [by apply proc_inv_reparent|done|done|..].
    { intros d Hd. rewrite El. apply Hl. by right. }
    split; [done|]. split; [by eapply tree_only_trans|]. exists P2. split; [done|]. intros d Hd.
    destruct (HC d Hd) as [Hd1 Hd2]. rewrite E1 in Hd1. apply list_elem_of_filter in Hd1 as [Hne Hd1].
    split; [done|]. intros [-> | ?]%elem_of_cons; done.
Qed.

(** ** Retiring a thread *)

(** Only the slot of [r] changes, and it is free afterwards. *)
Definition retired r s s' : Prop :=
  (∀ r', r' ≠ r → get r' s' = get r' s) ∧ (∃ t, get r s' = Some t ∧ ¬ taken t) ∧
  length (tasks s') = length (tasks s) ∧ pml4_physical s' = pml4_physical s.

Lemma retired_other r s s' r' t' :
  retired r s s' → get r' s' = Some t' → taken t' → r' ≠ r ∧ get r' s = Some t'.
Proof.
  intros (H1 & (t & Ht & Hn) & _) Hg Htk. destruct (decide (r' = r)) as [->|Hne]; [by rewrite Ht in Hg; injection Hg as <-|].
  split; [done|]. by rewrite <- H1.
Qed.

Lemma threads_ok_retire x w w' r :
  threads_ok x w → retired r (sch w) (sch w') → r ≠ Idle → process_list w' = process_list w →
  agrees (λ P, filter (λ e, e ≠ r) (threads P)) (processes w) (processes w') →
  (∀ p P', processes w' !! p = Some P' → r ∉ threads P') →
  (∀ p P', processes w' !! p = Some P' → p ≠ x → thread_count P' = Z.of_nat (length (threads P'))) →
  NoDup (reaper_queue w') → (∀ q, q ∈ reaper_queue w' → q ∈ reaper_queue w ∧ q ≠ r) → threads_ok x w'.
Proof.
  intros [H1 H2 H3 H4 H5 H6 H7 H8 H9] Hr Hri Hl Ha Hno Hcnt Hnd Hq.
  assert (Hthr : ∀ p P', processes w' !! p = Some P' → ∃ P, processes w !! p = Some P ∧ threads P' = filter (λ e, e ≠ r) (threads P)).
  { intros p P' HP'. destruct (agrees_lookup _ _ _ _ _ Ha HP') as (P & HP & E). exists P. split; [done|]. rewrite E.
    symmetry. apply filter_not_in. by eapply Hno. }
  destruct Hr as (R1 & R2 & R3 & R4). split; try done.
  - by rewrite R3.
  - specialize (R1 Idle ltac:(done)). injection R1 as ->. done.
  - intros p P' e HP' He. destruct (Hthr p P' HP') as (P & HP & E). rewrite E in He. apply list_elem_of_filter in He as [Hne He].
    rewrite Hl. destruct (H3 p P e HP He) as (? & t & Ht & ?). split; [done|]. exists t. by rewrite R1.
  - intros p P' e HP' Hs He. destruct (Hthr p P' HP') as (P & HP & E). rewrite E in He. apply list_elem_of_filter in He as [_ He]. by eapply H4.
  - intros p P' HP'. destruct (Hthr p P' HP') as (P & HP & E). rewrite E. apply NoDup_filter. by eapply H5.
  - intros e t Ht Htk Hp. destruct (retired_other r (sch w) (sch w') e t) as [Hne Ht0]; [done..|].
    destruct (H7 e t Ht0 Htk Hp) as (P & HP & He). destruct (agrees_lookup_back _ _ _ _ _ Ha HP) as (P' & HP' & E).
    exists P'. split; [done|]. destruct (Hthr _ _ HP') as (P0 & HP0 & E0). rewrite HP in HP0. injection HP0 as <-.
    rewrite E0. by apply list_elem_of_filter.
  - intros e He. destruct (Hq e He) as [He0 Hne]. destruct (H9 e He0) as (t & Ht & Hz). exists t. by rewrite R1.
Qed.

(** Its stack may be given back. *)
Lemma resources_ok_retire w w' r t :
  resources_ok w → retired r (sch w) (sch w') → get r (sch w) = Some t → r ≠ Idle →
  agrees handles (processes w) (processes w') → live_tables w' = live_tables w → live_spaces w' = live_spaces w →
  (live_stacks w' = live_stacks w ∧ misuse w' = misuse w ∨
   (taken t ∧ stack t ≠ 0) ∧ live_stacks w' = live_stacks w ∖ {[stack t]} ∧ misuse w' = misuse w || negb (bool_decide (stack t ∈ live_stacks w))) →
  resources_ok w'.
Proof.
  intros [H1 H2 H3 H4 H5 H6 H7] Hr Ht Hri Ha Hlt Hls Hst.
  assert (Hm : pml4_physical (sch w') = pml4_physical (sch w)) by apply Hr.
  destruct r as [k|]; [|done]. clear Hri.
  split.
  - intros p P' HP' Hh. destruct (agrees_lookup _ _ _ _ _ Ha HP') as (P & HP & E). rewrite <- E, Hlt in *. by eapply H1.
  - intros p q P' Q' HP' HQ' Hh. destruct (agrees_lookup _ _ _ _ _ Ha HP') as (P & HP & E).
    destruct (agrees_lookup _ _ _ _ _ Ha HQ') as (Q & HQ & F). rewrite <- E, <- F in *. by eapply H2.
  - intros p. unfold space_of, kernel_space. rewrite Hm, Hls. apply (H3 p).
  - unfold kernel_space. by rewrite Hm, Hls.
  - intros i u Hu Hutk Hus. destruct (retired_other _ _ _ _ _ Hr Hu Hutk) as [Hne Hu0]. pose proof (H5 i u Hu0 Hutk Hus) as Hin.
    destruct Hst as [[-> _]|([Htk Hnz] & -> & _)]; [done|]. apply elem_of_difference. split; [done|]. intros E%elem_of_singleton.
    apply Hne. f_equal. by eapply (H6 i k u t).
  - intros i j u v Hu Hv Hutk Hvtk. destruct (retired_other _ _ _ _ _ Hr Hu Hutk) as [_ Hu0].
    destruct (retired_other _ _ _ _ _ Hr Hv Hvtk) as [_ Hv0]. by eapply H6.
  - destruct Hst as [[_ ->]|([Htk Hnz] & _ & ->)]; [done|]. rewrite H7, bool_decide_eq_true_2; [done|]. by eapply H5.
Qed.

Lemma get_unlink r s r' : get r' (sleep_queue_unlink r s) = get r' s.
Proof. unfold sleep_queue_unlink. case_bool_decide; by destruct r'. Qed.

(** The stores of [drop_thread] on the slot of [r]. *)
Lemma retired_drop i s (free : bool) :
  is_Some (get (Slot (S i)) s) →
  let s1 := modify (Slot (S i)) (set_target 0) (sleep_queue_unlink (Slot (S i)) s) in
  let s2 := if free then modify (Slot (S i)) (set_stack 0 0) s1 else s1 in
  retired (Slot (S i)) s (task_free_slot (Some (Slot (S i))) s2).
Proof.
  intros [t Ht]. cbv zeta. unfold task_free_slot.
  assert (H1 : ∀ r', r' ≠ Slot (S i) → get r' (modify (Slot (S i)) (set_target 0) (sleep_queue_unlink (Slot (S i)) s)) = get r' s).
  { intros r' Hne. by rewrite get_modify, decide_False, get_unlink. }
  assert (length (tasks (sleep_queue_unlink (Slot (S i)) s)) = length (tasks s) ∧
          pml4_physical (sleep_queue_unlink (Slot (S i)) s) = pml4_physical s) as [E1 E2].
  { unfold sleep_queue_unlink. by case_bool_decide. }
  destruct free; (split; [|split; [|split]]).
  - intros r' Hne. rewrite !get_modify, !(decide_False (P := r' = Slot (S i))) by done. apply get_unlink.
  - rewrite !get_modify, !decide_True, get_unlink, Ht by done. eexists. split; [done|]. by intros [?|?].
  - fields. done.
  - fields. done.
  - intros r' Hne. rewrite !get_modify, !(decide_False (P := r' = Slot (S i))) by done. apply get_unlink.
  - rewrite !get_modify, !decide_True, get_unlink, Ht by done. eexists. split; [done|]. by intros [?|?].
  - fields. done.
  - fields. done.
Qed.

(** What a destruction in progress leaves alone. *)
Definition rest (P : proc) : Z * Z * process_state * Z * list Z * Z * list task_ref :=
  (pid P, ppid P, pstate P, pexit_code P, children P, handles P, exit_wq P).

Definition threads_only w w' : Prop :=
  (process_list w', next_pid w', active_process_count w', live_tables w', live_spaces w') =
  (process_list w, next_pid w, active_process_count w, live_tables w, live_spaces w) ∧
  thread_current w' = thread_current w ∧ pml4_physical (sch w') = pml4_physical (sch w) ∧ agrees rest (processes w) (processes w').

Lemma threads_only_trans w1 w2 w3 : threads_only w1 w2 → threads_only w2 w3 → threads_only w1 w3.
Proof.
  intros (A1 & A2 & A3 & A4) (B1 & B2 & B3 & B4). split_and!; try congruence.
Qed.

Lemma agrees_view {A B} (v : proc → A) (u : proc → B) m m' :
  (∀ P P', v P = v P' → u P = u P') → agrees v m m' → agrees u m m'.
Proof.
  intros Hv Ha p. specialize (Ha p). destruct (m !! p) as [P|], (m' !! p) as [P'|]; try done.
  injection Ha as Ha. cbn. f_equal. by apply Hv.
Qed.

Lemma table_tree_threads_only w w' : threads_only w w' → table_ok w → tree_ok w → table_ok w' ∧ tree_ok w'.
Proof.
  intros (E & _ & _ & Ha) H1 H2. injection E as E1 E2 E3 E4 E5.
  assert (agrees (λ P, (pid P, pstate P)) (processes w) (processes w')) as Ha1
    by (eapply agrees_view; [|exact Ha]; intros P P' [= ? ? ? ? ? ? ?]; congruence).
  assert (agrees (λ P, (pid P, ppid P, children P)) (processes w) (processes w')) as Ha2
    by (eapply agrees_view; [|exact Ha]; intros P P' [= ? ? ? ? ? ? ?]; congruence).
  pose proof (table_ok_agrees w _ Ha1 H1) as [A1 A2 A3 A4 A5 A6 A7 A8 A9 A10]. pose proof (tree_ok_agrees w _ Ha2 H2) as [B1 B2].
  cbn [processes process_list next_pid active_process_count with_processes] in *.
  rewrite <- E1 in *. rewrite <- E2 in *. rewrite <- E3 in *. split; by split.
Qed.

Lemma thread_current_sch w w' :
  initialized (sch w') = initialized (sch w) → percpu_current (sch w') = percpu_current (sch w) →
  current_task (sch w') = current_task (sch w) → thread_current w' = thread_current w.
Proof. intros E1 E2 E3. unfold thread_current, task_current. by rewrite E1, E2, E3. Qed.

Lemma unlink_thread_agrees r w :
  agrees (λ P, filter (λ e, e ≠ r) (threads P)) (processes w) (processes (unlink_thread r w)) ∧
  ∀ p P', processes (unlink_thread r w) !! p = Some P' → r ∉ threads P'.
Proof.
  unfold unlink_thread. cbn. split.
  - apply agrees_fmap. intros P. cbn. rewrite list_filter_filter. apply list_filter_iff. intros e. tauto.
  - intros p P' HP'. rewrite lookup_fmap in HP'. destruct (processes w !! p) as [P|]; [|done]. injection HP' as <-.
    cbn. intros [? _]%list_elem_of_filter. done.
Qed.

(** A thread is in one process only. *)
Lemma thread_owner x w p q P Q r :
  threads_ok x w → processes w !! p = Some P → processes w !! q = Some Q → r ∈ threads P → r ∈ threads Q → p = q.
Proof.
  intros HT HP HQ Hr Hr'. destruct (th_member _ _ HT p P r HP Hr) as (_ & t & Ht & <- & _).
  destruct (th_member _ _ HT q Q r HQ Hr') as (_ & t' & Ht' & <- & _). congruence.
Qed.

Lemma unlink_thread_count x w r y P :
  threads_ok x w → processes w !! y = Some P → r ∈ threads P →
  ∀ p P', processes (unlink_thread r w) !! p = Some P' → p ≠ x → p ≠ y → thread_count P' = Z.of_nat (length (threads P')).
Proof.
  intros HT HY Hr p P' HP' Hx Hy. unfold unlink_thread in HP'. cbn in HP'. rewrite lookup_fmap in HP'.
  destruct (processes w !! p) as [Q|] eqn:HQ; [|done]. injection HP' as <-. cbn. rewrite filter_not_in; [by eapply th_count|].
  intros Hr'. by destruct (thread_owner x w p y Q P r HT HQ HY Hr' Hr).
Qed.

Lemma drop_thread_inv x w P r :
  proc_inv_but x w → slot_process x → processes w !! x = Some P → r ∈ threads P → thread_current w ≠ Some r →
  let w' := drop_thread w r in
  proc_inv_but x w' ∧ threads_only w w' ∧ ∃ P', processes w' !! x = Some P' ∧ threads P' = filter (λ e, e ≠ r) (threads P).
Proof.
  intros [H1 H2 H3 H4] Hx HP Hr Hcur. destruct (th_slots _ _ H3 x P r HP Hx Hr) as [i ->]. set (r := Slot (S i)) in *.
  destruct (th_member _ _ H3 x P r HP Hr) as (Hxl & t & Ht & Htp & Htk). cbv zeta. unfold drop_thread.
  set (w3 := unqueue r (sleep_dequeue r (unlink_thread r w))).
  set (s1 := modify r (set_target 0) (sleep_queue_unlink r (sch w))).
  assert (sch w3 = s1) as Es by done.
  assert (initialized s1 = initialized (sch w) ∧ percpu_current s1 = percpu_current (sch w) ∧ current_task s1 = current_task (sch w)) as (Ei & Ep & Ec).
  { unfold s1. fields. unfold sleep_queue_unlink. by case_bool_decide. }
  assert (thread_current w3 = thread_current w) as Etc by (by apply thread_current_sch).
  rewrite Etc, bool_decide_eq_false_2 by done. rewrite Es.
  assert (get r s1 = Some (set_target 0 t)) as Hg1 by (unfold s1; by rewrite get_modify, decide_True, get_unlink, Ht).
  rewrite Hg1. rewrite (bool_decide_eq_false_2 (r = Idle)) by done. cbn [negb andb stack stack_size set_target].
  set (free := negb (stack t =? 0) && (stack_size t >? 0)).
  set (s2 := if free then modify r (set_stack 0 0) s1 else s1).
  assert (retired r (sch w) (task_free_slot (Some r) s2)) as Hret by (apply retired_drop; by eexists).
  destruct (unlink_thread_agrees r w) as [Hag Hno].
  match goal with |- proc_inv_but x ?ww ∧ _ ∧ _ => set (w' := ww) end.
  assert (sch w' = task_free_slot (Some r) s2) as Esch by (unfold w', s2; by destruct free).
  assert (processes w' = processes (unlink_thread r w)) as Eproc by (unfold w'; by destruct free).
  assert (reaper_queue w' = filter (λ e, e ≠ r) (reaper_queue w)) as Eq by (unfold w'; by destruct free).
  assert (agrees handles (processes w) (processes w')) as Hah by (rewrite Eproc; by apply agrees_fmap).
  assert (threads_only w w') as Hto.
  { split_and!.
    - unfold w'. by destruct free.
    - apply thread_current_sch; rewrite Esch; unfold s2, r; simpl; destruct free; fields; done.
    - rewrite Esch. apply Hret.
    - rewrite Eproc. by apply agrees_fmap. }
  destruct (table_tree_threads_only w w' Hto H1 H2) as [H1' H2'].
  split; [split; [done|done|..]|split; [done|]].
  - apply (threads_ok_retire x w w' r); rewrite ?Esch, ?Eproc, ?Eq; try done.
    + by injection (proj1 Hto).
    + intros p P' HP' Hpx. by eapply unlink_thread_count.
    + apply NoDup_filter, H3.
    + intros q Hq. apply list_elem_of_filter in Hq as [? ?]. done.
  - eapply (resources_ok_retire w w' r t); rewrite ?Esch; try done; [unfold w'; by destruct free..|].
    unfold w'. destruct free eqn:Ef; [right|left; done]. split; [split; [done|]|done].
    unfold free in Ef. apply andb_prop in Ef as [Ef _]. apply negb_true_iff in Ef. by apply Z.eqb_neq in Ef.
  - rewrite Eproc. unfold unlink_thread. cbn. rewrite lookup_fmap, HP. by eexists.
Qed.

Lemma drop_all_inv x l : ∀ w P,
  proc_inv_but x w → slot_process x → processes w !! x = Some P → l ⊆ threads P → NoDup l →
  (∀ r, r ∈ l → thread_current w ≠ Some r) →
  let w' := foldl drop_thread w l in
  proc_inv_but x w' ∧ threads_only w w' ∧ ∃ P', processes w' !! x = Some P' ∧ ∀ r, r ∈ threads P' → r ∈ threads P ∧ r ∉ l.
Proof.
  induction l as [|r l IH]; intros w P Hi Hx HP Hl Hnd Hc; cbn [foldl].
  - split; [done|]. split; [split_and!; done|]. exists P. split; [done|]. intros r Hr. split; [done|apply not_elem_of_nil].
  - apply NoDup_cons in Hnd as [Hrl Hnd].
    destruct (drop_thread_inv x w P r) as (Hi1 & Ht1 & P1 & HP1 & E1); [done|done|done|by apply Hl; left|by apply Hc; left|].
    destruct (IH (drop_thread w r) P1) as (Hi2 & Ht2 & P2 & HP2 & E2); try done.
    { intros e He. rewrite E1. apply list_elem_of_filter. split; [by intros ->|]. apply Hl. by right. }
    { intros e He. rewrite (proj1 (proj2 Ht1)). apply Hc. by right. }
    split; [done|]. split; [by eapply threads_only_trans|]. exists P2. split; [done|]. intros e He.
    destruct (E2 e He) as [He1 He2]. rewrite E1 in He1. apply list_elem_of_filter in He1 as [? ?].
    split; [done|]. by intros [-> | ?]%elem_of_cons.
Qed.

(** ** Destruction *)

Lemma proc_inv_cleared x w P :
  proc_inv_but x w → processes w !! x = Some P → threads P = [] → proc_inv (upd x (λ P, set_threads (threads P) 0 P) w).
Proof.
  intros [H1 H2 H3 H4] HP Ht. split.
  - apply table_ok_agrees; [by apply agrees_upd|done].
  - apply tree_ok_agrees; [by apply agrees_upd|done].
  - assert (agrees threads (processes w) (processes (upd x (λ P, set_threads (threads P) 0 P) w))) as Ha by (by apply agrees_upd).
    destruct H3 as [T1 T2 T3 T4 T5 T6 T7 T8 T9]. split; try done.
    + intros p P' r HP' Hr. destruct (agrees_lookup _ _ _ _ _ Ha HP') as (Q & HQ & E). rewrite <- E in Hr. by apply (T3 p Q).
    + intros p P' r HP' Hs Hr. destruct (agrees_lookup _ _ _ _ _ Ha HP') as (Q & HQ & E). rewrite <- E in Hr. by eapply T4.
    + intros p P' HP'. destruct (agrees_lookup _ _ _ _ _ Ha HP') as (Q & HQ & E). rewrite <- E. by eapply T5.
    + intros p P' HP' _. rewrite lookup_upd in HP'. case_decide as Hd.
      * subst p. rewrite HP in HP'. injection HP' as <-. cbn. by rewrite Ht.
      * by eapply T6.
    + intros r t Hr Htk Hp. destruct (T7 r t Hr Htk Hp) as (Q & HQ & Hin).
      destruct (agrees_lookup_back _ _ _ _ _ Ha HQ) as (Q' & HQ' & E). exists Q'. by rewrite <- E.
  - apply resources_ok_agrees; [by apply agrees_upd|done].
Qed.

(** Taking [x] out of the process list. *)
Lemma elem_of_remove (x p : Z) (l : list Z) : p ∈ filter (λ q, q ≠ x) l ↔ p ≠ x ∧ p ∈ l.
Proof. by rewrite list_elem_of_filter. Qed.

Lemma fixed_listed w x : table_ok w → slot_process x → (2 ≤ length (filter (λ q, q ≠ x) (process_list w)))%nat.
Proof.
  intros HT Hx. change 2%nat with (length [idle_process; kernel_process]). apply submseteq_length. apply NoDup_submseteq.
  - repeat constructor; set_solver.
  - intros p Hp. apply elem_of_remove. unfold slot_process in Hx.
    apply elem_of_cons in Hp as [-> | ->%list_elem_of_singleton]; split.
    + unfold idle_process. lia.
    + by apply idle_listed.
    + unfold kernel_process. lia.
    + by destruct (kernel_listed w HT) as (K & _ & _ & ?).
Qed.

Lemma mark_dead_table x w P n :
  table_ok w → slot_process x → processes w !! x = Some P → x ∈ process_list w →
  n = active_process_count w - 1 →
  table_ok (with_list (filter (λ q, q ≠ x) (process_list w)) n (upd x (set_pstate PROCESS_STATE_DEAD) w)).
Proof.
  intros HT Hx HP Hxl Hn. pose proof (fixed_listed w x HT Hx) as H2.
  pose proof (length_filter_in x _ (to_nodup _ HT) Hxl) as Hlen. destruct HT as [A1 A2 A3 A4 A5 A6 A7 A8 A9 A10].
  set (w1 := upd x (set_pstate PROCESS_STATE_DEAD) w).
  assert (Hlook : ∀ p P', processes w1 !! p = Some P' → ∃ Q, processes w !! p = Some Q ∧ pid P' = pid Q ∧
    pstate P' = if decide (p = x) then PROCESS_STATE_DEAD else pstate Q).
  { intros p P'. unfold w1. rewrite lookup_upd. destruct (decide (p = x)); (destruct (processes w !! p) as [Q|]; [|done]); intros [= <-]; by exists Q. }
  assert (x ≠ idle_process ∧ x ≠ kernel_process) as [Hxi Hxk] by (unfold slot_process, idle_process, kernel_process in *; lia).
  split; cbn [processes process_list next_pid active_process_count with_list]; try done.
  - intros p. rewrite <- A1. unfold w1. rewrite lookup_upd. case_decide; [|done]. by rewrite fmap_is_Some.
  - intros P' HP'. destruct (Hlook _ _ HP') as (Q & HQ & -> & Es). rewrite decide_False in Es by done. rewrite Es. by apply A2.
  - intros P' HP'. destruct (Hlook _ _ HP') as (Q & HQ & -> & Es). rewrite decide_False in Es by done. rewrite Es. by apply A3.
  - apply NoDup_filter, A4.
  - intros p. rewrite elem_of_remove, A5. unfold w1. rewrite lookup_upd. case_decide as Hd.
    + subst p. split; [by intros [? _]|]. intros (P' & HP' & Hu). rewrite HP in HP'. injection HP' as <-. by destruct Hu.
    + split; [by intros [_ ?]|done].
  - intros p P' HP' Hs [_ Hl]%elem_of_remove. destruct (Hlook _ _ HP') as (Q & HQ & -> & _). by apply (A6 p).
  - intros p q P' Q' HP' HQ' [_ Hp]%elem_of_remove [_ Hq]%elem_of_remove. destruct (Hlook _ _ HP') as (P0 & HP0 & -> & _).
    destruct (Hlook _ _ HQ') as (Q0 & HQ0 & -> & _). by apply A7.
  - lia.
  - intros p P' HP' Hs. destruct (Hlook _ _ HP') as (Q & HQ & -> & Es). destruct (decide (p = x)); [congruence|]. apply (A10 p); congruence.
Qed.

(** A process that is in nobody's list, has no children and no threads is taken
    out of the process list. *)
Lemma proc_inv_mark_dead x w P :
  proc_inv w → slot_process x → processes w !! x = Some P → pid P ≠ 0 → threads P = [] → children P = [] → orphan x w →
  proc_inv (mark_dead x w).
Proof.
  intros [HT HR HH HS] Hx HP Hpid Hthr Hch Ho. unfold mark_dead. rewrite HP. case_bool_decide as Hd; [done|].
  assert (x ∈ process_list w) as Hxl.
  { apply (to_list _ HT). exists P. split; [done|]. destruct (pstate P) eqn:E; [|by left|by right|done].
    by destruct (Hpid (to_unused _ HT x P HP E)). }
  set (w1 := upd x (set_pstate PROCESS_STATE_DEAD) w). change (process_list w1) with (process_list w).
  change (active_process_count w1) with (active_process_count w).
  assert (tree_ok w1) as HR1 by (apply tree_ok_agrees; [by apply agrees_upd|done]).
  assert (threads_ok 0 w1) as HH1 by (apply threads_ok_agrees; [by apply agrees_upd|done]).
  assert (resources_ok w1) as HS1 by (apply resources_ok_agrees; [by apply agrees_upd|done]).
  assert (processes w1 !! x = Some (set_pstate PROCESS_STATE_DEAD P)) as HP1 by (unfold w1; by rewrite lookup_upd, decide_True, HP).
  assert (orphan x w1) as Ho1.
  { intros p P' HP'. unfold w1 in HP'. rewrite lookup_upd in HP'. case_decide; [|by eapply Ho].
    subst p. rewrite HP in HP'. injection HP' as <-. cbn. rewrite Hch. apply not_elem_of_nil. }
  split.
  - eapply mark_dead_table; try done. pose proof (fixed_listed w x HT Hx) as H2.
    pose proof (length_filter_in x _ (to_nodup _ HT) Hxl). rewrite (to_count _ HT), Z.gtb_ltb.
    destruct (Z.ltb_spec 2 (Z.of_nat (length (process_list w)))); lia.
  - destruct HR1 as [B1 B2]. split; [|done]. intros p P' c HP' Hc. destruct (B1 p P' c HP' Hc) as (? & ? & ? & ?).
    cbn. rewrite !elem_of_remove. split_and!; try done; [|intros ->; by apply (Ho1 p P')].
    intros ->. change (processes w1 !! x = Some P') in HP'. rewrite HP1 in HP'. injection HP' as <-. cbn in Hc. rewrite Hch in Hc. by apply not_elem_of_nil in Hc.
  - destruct HH1 as [T1 T2 T3 T4 T5 T6 T7 T8 T9]. split; try done. intros p P' r HP' Hr. destruct (T3 p P' r HP' Hr) as [? ?].
    cbn. rewrite elem_of_remove. split; [|done]. split; [|done]. intros ->. change (processes w1 !! x = Some P') in HP'. rewrite HP1 in HP'. injection HP' as <-.
    cbn in Hr. rewrite Hthr in Hr. by apply not_elem_of_nil in Hr.
  - destruct HS1. by split.
Qed.

(** ** Resources *)

(** A handle table that no process refers to any more. *)
Lemma resources_ok_table w h :
  resources_ok w → h ∈ live_tables w → (∀ p P, processes w !! p = Some P → handles P ≠ h) → resources_ok (handle_table_destroy h w).
Proof.
  intros [R1 R2 R3 R4 R5 R6 R7] Hh Hno. split; try done.
  - intros p P HP Hnz. cbn. apply elem_of_difference. split; [by eapply R1|]. intros E%elem_of_singleton. by apply (Hno p P).
  - cbn. by rewrite R7, bool_decide_eq_true_2.
Qed.

Lemma proc_inv_set_handles p w P h :
  proc_inv w → processes w !! p = Some P → h = handles P →
  proc_inv (upd p (set_handles 0) w) ∧
  (h ≠ 0 → h ∈ live_tables w ∧ ∀ q Q, processes (upd p (set_handles 0) w) !! q = Some Q → handles Q ≠ h).
Proof.
  intros [HT HR HH [R1 R2 R3 R4 R5 R6 R7]] HP ->. split; [split|].
  - apply table_ok_agrees; [by apply agrees_upd|done].
  - apply tree_ok_agrees; [by apply agrees_upd|done].
  - apply threads_ok_agrees; [by apply agrees_upd|done].
  - split; try done.
    + intros q Q HQ Hnz. rewrite lookup_upd in HQ. case_decide; [|by eapply R1].
      destruct (processes w !! q); [|done]. by injection HQ as <-.
    + intros q q' Q Q' HQ HQ' Hnz E. rewrite lookup_upd in HQ, HQ'.
      destruct (decide (q = p)); [destruct (processes w !! q); [|done]; injection HQ as <-; done|].
      destruct (decide (q' = p)); [destruct (processes w !! q'); [|done]; injection HQ' as <-; done|]. by eapply R2.
  - intros Hnz. split; [by eapply R1|]. intros q Q HQ E. rewrite lookup_upd in HQ. case_decide as Hd.
    + destruct (processes w !! q); [|done]. injection HQ as <-. by cbn in E.
    + apply Hd. by eapply R2; [exact HQ|exact HP|congruence|].
Qed.

Lemma proc_inv_drop_handles p w : proc_inv w → proc_inv (drop_handles p w).
Proof.
  intros Hi. unfold drop_handles. destruct (processes w !! p) as [P|] eqn:HP; [|done].
  destruct (proc_inv_set_handles p w P (handles P) Hi HP eq_refl) as [[HT HR HH HS] Hh].
  destruct (Z.eqb_spec (handles P) 0) as [|Hnz]; [done|]. destruct (Hh Hnz) as [Hin Hno].
  split; [destruct HT; by split|destruct HR; by split|destruct HH; by split|by apply resources_ok_table].
Qed.

(** The address space of a process changes. *)
Lemma space_of_set w p v q : get0 (pml4_physical (set_pml4 p v (sch w))) q = if decide (q = p) then v else space_of w q.
Proof.
  unfold space_of, get0. cbn. case_decide as E; [subst q; by rewrite lookup_insert_eq|by rewrite lookup_insert_ne].
Qed.

Lemma proc_inv_set_pml4 x w p v (sp : gset Z) (bad : bool) :
  proc_inv_but x w → p ≠ kernel_process → bad = false → kernel_space w ∉ sp → 0 ∉ sp →
  (v = 0 ∨ v = kernel_space w ∨ (v ∈ sp ∧ ∀ q, q ≠ p → space_of w q ≠ v)) →
  (∀ q, q ≠ p → space_of w q ∈ live_spaces w → space_of w q ∈ sp) →
  proc_inv_but x (with_live (live_tables w) sp (live_stacks w) bad (on_sch (set_pml4 p v) w)).
Proof.
  intros [HT HR HH [R1 R2 R3 R4 R5 R6 R7]] Hp -> Hk H0 Hv Hq. split; [destruct HT; by split|destruct HR; by split|destruct HH; by split|].
  assert (Hsp : ∀ q, space_of (with_live (live_tables w) sp (live_stacks w) false (on_sch (set_pml4 p v) w)) q =
                     if decide (q = p) then v else space_of w q) by (intros q; apply space_of_set).
  assert (Hks : kernel_space (with_live (live_tables w) sp (live_stacks w) false (on_sch (set_pml4 p v) w)) = kernel_space w).
  { unfold kernel_space. change (space_of (with_live (live_tables w) sp (live_stacks w) false (on_sch (set_pml4 p v) w)) kernel_process = space_of w kernel_process).
    by rewrite Hsp, decide_False. }
  split; try done.
  - intros q. rewrite Hks, !Hsp. cbn [live_spaces with_live]. case_decide as Hd.
    + subst q. destruct Hv as [Hv|[Hv|[Hv1 Hv2]]]; [by left|by right; left|]. right. right. split; [done|].
      intros q E. rewrite Hsp in E. case_decide; [done|]. by destruct (Hv2 q).
    + destruct (R3 q) as [E|[E|[E1 E2]]]; [by left|by right; left|]. right. right. split; [by apply Hq|].
      intros q' E. rewrite Hsp in E. case_decide as Hd'; [|by apply E2]. subst q'. exfalso.
      destruct Hv as [Hv|[Hv|[Hv1 Hv2]]].
      * apply (proj2 R4). rewrite <- Hv, E. done.
      * apply (proj1 R4). rewrite <- Hv, E. done.
      * by apply (Hv2 q Hd).
  - by rewrite Hks.
Qed.

Lemma proc_inv_same_space x w sp bad :
  sp = live_spaces w → bad = misuse w → proc_inv_but x (with_live (live_tables w) sp (live_stacks w) bad w) → proc_inv_but x w.
Proof. intros -> ->. by destruct w. Qed.

Lemma proc_inv_cr3 x w v : proc_inv_but x w → proc_inv_but x (on_sch (with_cr3 v) w).
Proof. intros Hi. apply proc_inv_frame; [by apply frame_outside|done]. Qed.

Lemma proc_inv_drop_space x p w : proc_inv_but x w → p ≠ kernel_process → proc_inv_but x (drop_space p w).
Proof.
  intros Hi Hp. unfold drop_space. set (v := get0 (pml4_physical (sch w)) p).
  assert (get0 (pml4_physical (sch (on_sch (set_pml4 p 0) w))) kernel_process = kernel_space w) as ->
    by (change (get0 (pml4_physical (set_pml4 p 0 (sch w))) kernel_process = kernel_space w); by rewrite space_of_set, decide_False).
  pose proof (pi_resources _ _ Hi) as [R1 R2 R3 R4 R5 R6 R7].
  destruct (Z.eqb_spec v 0) as [H0|H0]; [|destruct (Z.eqb_spec v (kernel_space w)) as [Hk|Hk]]; cbn [negb andb].
  - apply (proc_inv_same_space _ _ (live_spaces w) (misuse w)); [done..|]. apply (proc_inv_set_pml4 x w p 0); try done; [apply R4|apply R4|by left].
  - apply (proc_inv_same_space _ _ (live_spaces w) (misuse w)); [done..|]. apply (proc_inv_set_pml4 x w p 0); try done; [apply R4|apply R4|by left].
  - destruct (R3 p) as [E|[E|[E1 E2]]]; [by destruct H0|by destruct Hk|]. change (space_of w p) with v in *.
    unfold vmm_destroy_address_space.
    assert (proc_inv_but x (with_live (live_tables w) (live_spaces w ∖ {[v]}) (live_stacks w) (misuse w || negb (bool_decide (v ∈ live_spaces w)))
                              (on_sch (set_pml4 p 0) w))) as Hm.
    { apply (proc_inv_set_pml4 x w p 0); try done; [by rewrite R7, bool_decide_eq_true_2|set_solver|set_solver|by left|].
      intros q Hq Hin. apply elem_of_difference. split; [done|]. intros E%elem_of_singleton. by apply Hq, E2. }
    destruct (_ =? v); [|done].
    apply (proc_inv_cr3 x _ (get0 (pml4_physical (sch (on_sch (set_pml4 p 0) w))) kernel_process)) in Hm. done.
Qed.

(** ** Waking *)

Lemma frame_wake l : ∀ s, frame s (foldl (λ s r, task_unblock (Some r) s) s l).
Proof.
  induction l as [|r l IH]; intros s; cbn [foldl]; [apply frame_refl|]. eapply frame_trans; [apply (frame_unblock (Some r))|apply IH].
Qed.

Lemma proc_inv_wake x p w : proc_inv_but x w → proc_inv_but x (wake_exit_wq p w).
Proof.
  intros Hi. unfold wake_exit_wq. destruct (processes w !! p) as [P|]; [|done].
  set (w1 := on_sch _ w). assert (proc_inv_but x w1) as [HT HR HH HS].
  { apply proc_inv_frame; [|done]. eapply frame_trans; [apply frame_wake|apply frame_request]. }
  split.
  - apply table_ok_agrees; [by apply agrees_upd|done].
  - apply tree_ok_agrees; [by apply agrees_upd|done].
  - apply threads_ok_agrees; [by apply agrees_upd|done].
  - apply resources_ok_agrees; [by apply agrees_upd|done].
Qed.

(** ** [process_destroy] *)

Lemma proc_inv_weaken x w : proc_inv w → proc_inv_but x w.
Proof.
  intros [H1 H2 [T1 T2 T3 T4 T5 T6 T7 T8 T9] H4]. split; try done. split; try done.
  intros p P HP _. eapply T6; [done|]. intros ->. destruct (proj1 (to_dom _ H1 0)) as [H|[H|H]]; [by eexists|unfold slot_process in H; lia|done..].
Qed.

Lemma slot_pid w p P : table_ok w → processes w !! p = Some P → 2 ≤ pid P → slot_process p.
Proof.
  intros HT HP Hpid. destruct (proj1 (to_dom _ HT p)) as [?|[->| ->]]; [by eexists|done|..].
  - destruct (to_idle _ HT P HP). lia.
  - destruct (to_kernel _ HT P HP). lia.
Qed.

(** What outlives the process: identity, state and exit code of every process. *)
Definition ident (P : proc) : Z * process_state * Z := (pid P, pstate P, pexit_code P).

Lemma ident_mark_dead p w q :
  q ≠ p → ident <$> processes (mark_dead p w) !! q = ident <$> processes w !! q.
Proof.
  intros Hq. unfold mark_dead. destruct (processes w !! p) as [P|]; [|done]. case_bool_decide; [done|].
  cbn [processes with_list]. by rewrite lookup_upd, decide_False.
Qed.

Lemma ident_tail p w q :
  ident <$> processes (wake_exit_wq p (drop_space p (drop_handles p w))) !! q = ident <$> processes w !! q.
Proof.
  assert (∀ w, agrees ident (processes w) (processes (drop_handles p w))) as H1.
  { intros w0. unfold drop_handles. destruct (processes w0 !! p) as [P|]; [|done].
    destruct (handles P =? 0); by apply agrees_upd. }
  assert (∀ w, processes (drop_space p w) = processes w) as H2.
  { intros w0. unfold drop_space. destruct (_ && _); [|done]. unfold vmm_destroy_address_space. by destruct (_ =? _). }
  assert (∀ w, agrees ident (processes w) (processes (wake_exit_wq p w))) as H3.
  { intros w0. unfold wake_exit_wq. destruct (processes w0 !! p) as [P|]; [|done]. exact (agrees_upd ident p (set_exit_wq []) w0 (λ _, eq_refl)). }
  rewrite (H3 _ q), H2. apply H1.
Qed.

Lemma lookup_wake p w q :
  processes (wake_exit_wq p w) !! q = if decide (q = p) then set_exit_wq [] <$> processes w !! q else processes w !! q.
Proof.
  unfold wake_exit_wq. destruct (processes w !! p) as [P|] eqn:HP.
  - by rewrite lookup_upd.
  - case_decide; [|done]. subst q. by rewrite HP.
Qed.

Lemma processes_drop_space p w : processes (drop_space p w) = processes w.
Proof. unfold drop_space. destruct (_ && _); [|done]. unfold vmm_destroy_address_space. by destruct (_ =? _). Qed.

Lemma lookup_drop_handles p w q :
  processes (drop_handles p w) !! q = if decide (q = p) then set_handles 0 <$> processes w !! q else processes w !! q.
Proof.
  unfold drop_handles. destruct (processes w !! p) as [P|] eqn:HP.
  - destruct (handles P =? 0); by rewrite <- (lookup_upd p (set_handles 0) w).
  - case_decide; [|done]. subst q. by rewrite HP.
Qed.

(** The world before the entry is marked dead: no children, no threads. *)
Lemma destroy_emptied p w P :
  proc_inv w → processes w !! p = Some P → 2 ≤ pid P → (∀ r, r ∈ threads P → thread_current w ≠ Some r) →
  let w1 := upd p (λ P, set_threads (threads P) 0 P) (foldl drop_thread (unlink_sibling p (foldl reparent w (children P))) (threads P)) in
  proc_inv w1 ∧ orphan p w1 ∧ agrees ident (processes w) (processes w1) ∧ thread_current w1 = thread_current w ∧
  ∃ P', processes w1 !! p = Some P' ∧ threads P' = [] ∧ children P' = [] ∧ ident P' = ident P.
Proof.
  intros Hi HP Hpid Hcur. pose proof (slot_pid w p P (pi_table _ _ Hi) HP Hpid) as Hsl.
  assert (p ≠ kernel_process) as Hk by (unfold slot_process, kernel_process in *; lia).
  destruct (reparent_all p p (children P) w P) as (Hi1 & Ht1 & P1 & HP1 & Hc1); [by apply proc_inv_weaken|done|done|..].
  { intros c Hc. destruct (tr_child _ (pi_tree _ _ Hi) p P c HP Hc) as (_ & ? & ? & _). done. }
  set (w1 := foldl reparent w (children P)) in *.
  assert (children P1 = []) as Ech.
  { destruct (children P1) as [|c l] eqn:E; [done|]. destruct (Hc1 c ltac:(by left)). done. }
  pose proof (proc_inv_unlink p p w1 Hi1) as Hi2. destruct (children_unlink p w1 p P1 HP1) as (P2 & HP2 & Ech2).
  set (w2 := unlink_sibling p w1) in *. rewrite Ech in Ech2. change (children P2 = []) in Ech2.
  assert (tree_only w w2) as Ht2 by (eapply tree_only_trans; [exact Ht1|apply tree_only_unlink]).
  destruct (agrees_lookup _ _ _ _ _ (proj2 Ht2) HP2) as (P0 & HP0 & Ecore). rewrite HP in HP0. injection HP0 as <-.
  injection Ecore as C1 C2 C3 C4 C5 C6 C7.
  assert (thread_current w2 = thread_current w) as Etc by (exact (f_equal (λ o, task_current o.1.1.1.1.1) (proj1 Ht2))).
  destruct (drop_all_inv p (threads P) w2 P2) as (Hi3 & Ht3 & P3 & HP3 & Hth3); try done.
  { by rewrite C4. } { by eapply (th_nodup _ _ (pi_threads _ _ Hi)). } { intros r Hr. rewrite Etc. by apply Hcur. }
  set (w3 := foldl drop_thread w2 (threads P)) in *.
  assert (threads P3 = []) as Eth.
  { destruct (threads P3) as [|r l] eqn:E; [done|]. destruct (Hth3 r ltac:(by left)) as [H1 H2]. rewrite <- C4 in H1. done. }
  assert (agrees ident (processes w) (processes w3)) as Hid.
  { intros q. destruct Ht3 as (_ & _ & _ & Ha). transitivity (ident <$> processes w2 !! q).
    - apply (agrees_view rest ident); [|done]. intros Q Q' [= ? ? ? ? ? ? ?]. unfold ident. congruence.
    - apply (agrees_view core ident); [|apply Ht2]. intros Q Q' [= ? ? ? ? ? ? ?]. unfold ident. congruence. }
  cbv zeta. split; [by eapply proc_inv_cleared|].
  assert (orphan p w3) as Ho.
  { intros q Q HQ. destruct (agrees_lookup _ _ _ _ _ (proj2 (proj2 (proj2 Ht3))) HQ) as (Q2 & HQ2 & E).
    injection E as _ _ _ _ E5 _ _. rewrite <- E5. eapply (unlink_orphan p w1). exact HQ2. }
  split; [|split; [|split]].
  - intros q Q HQ. rewrite lookup_upd in HQ. case_decide as Hd; [|by eapply Ho]. destruct (processes w3 !! q) as [Q3|] eqn:E; [|done].
    injection HQ as <-. cbn. by eapply Ho.
  - intros q. rewrite <- Hid. by apply (agrees_upd ident p (λ P, set_threads (threads P) 0 P) w3).
  - rewrite <- Etc. apply Ht3.
  - rewrite lookup_upd, decide_True, HP3 by done. eexists. split; [done|]. cbn. split; [done|].
    destruct (agrees_lookup _ _ _ _ _ (proj2 (proj2 (proj2 Ht3))) HP3) as (Q2 & HQ2 & E). rewrite HP2 in HQ2. injection HQ2 as <-.
    injection E as E1 E2 E3 E4 E5 E6 E7. split; [congruence|]. unfold ident. cbn. congruence.
Qed.

Lemma thread_current_wake p w : thread_current (wake_exit_wq p w) = thread_current w.
Proof.
  unfold wake_exit_wq. destruct (processes w !! p) as [P|]; [|done].
  set (s1 := foldl (λ s r, task_unblock (Some r) s) (sch w) (exit_wq P)).
  assert (initialized s1 = initialized (sch w) ∧ percpu_current s1 = percpu_current (sch w) ∧ current_task s1 = current_task (sch w)) as (E1 & E2 & E3).
  { unfold s1. generalize (sch w). induction (exit_wq P) as [|r l IH]; intros s; [done|]. cbn [foldl].
    destruct (IH (task_unblock (Some r) s)) as (-> & -> & ->). unfold task_unblock. destruct (has_state _ _ _); [|done]. fields. done. }
  change (task_current (task_request_reschedule s1) = task_current (sch w)).
  transitivity (task_current s1); [|unfold task_current; by rewrite E1, E2, E3].
  unfold task_request_reschedule. clearbody s1. destruct (current_task (with_requested true s1)) as [c|]; [|done].
  unfold task_current. by fields.
Qed.

Lemma space_of_wake p w q : space_of (wake_exit_wq p w) q = space_of w q.
Proof.
  unfold wake_exit_wq. destruct (processes w !! p) as [P|]; [|done].
  pose proof (frame_trans _ _ _ (frame_wake (exit_wq P) (sch w)) (frame_request _)) as (_ & _ & E).
  exact (f_equal (λ m, get0 m q) E).
Qed.

Lemma space_of_dropped p w : space_of (drop_space p w) p = 0.
Proof.
  assert (get0 (pml4_physical (set_pml4 p 0 (sch w))) p = 0) as Hz by (by rewrite space_of_set, decide_True).
  unfold drop_space. destruct (_ && _); [unfold vmm_destroy_address_space; destruct (_ =? _); exact Hz|exact Hz].
Qed.

Lemma process_destroy_inv p w P :
  proc_inv w → processes w !! p = Some P → 2 ≤ pid P → (∀ r, r ∈ threads P → thread_current w ≠ Some r) →
  proc_inv (process_destroy p w) ∧ thread_current (process_destroy p w) = thread_current w ∧
  (∀ q, q ≠ p → ident <$> processes (process_destroy p w) !! q = ident <$> processes w !! q) ∧
  ∃ P', processes (process_destroy p w) !! p = Some P' ∧
    (pid P', pstate P', pexit_code P', threads P', children P', handles P') = (pid P, PROCESS_STATE_DEAD, pexit_code P, [], [], 0) ∧
    space_of (process_destroy p w) p = 0 ∧ orphan p (process_destroy p w).
Proof.
  intros Hi HP Hpid Hcur. destruct (destroy_emptied p w P Hi HP Hpid Hcur) as (Hi1 & Ho1 & Hid & Htc & P1 & HP1 & Eth & Ech & Eid).
  unfold process_destroy. rewrite HP. destruct (Z.leb_spec (pid P) 1); [lia|].
  set (w1 := upd p _ _) in *. injection Eid as I1 I2 I3.
  pose proof (slot_pid w1 p P1 (pi_table _ _ Hi1) HP1 ltac:(lia)) as Hsl.
  assert (p ≠ kernel_process) as Hk by (unfold slot_process, kernel_process in *; lia).
  pose proof (proc_inv_mark_dead p w1 P1 Hi1 Hsl HP1 ltac:(lia) Eth Ech Ho1) as Hi2.
  assert (∃ P2, processes (mark_dead p w1) !! p = Some P2 ∧
    (pid P2, pstate P2, pexit_code P2, threads P2, children P2) = (pid P, PROCESS_STATE_DEAD, pexit_code P, [], [])) as (P2 & HP2 & E2).
  { unfold mark_dead. rewrite HP1. case_bool_decide as Hd; [exists P1; split; [done|congruence]|].
    cbn [processes with_list]. rewrite lookup_upd, decide_True, HP1 by done. eexists. split; [done|]. cbn. congruence. }
  assert (orphan p (mark_dead p w1)) as Ho2.
  { intros q Q HQ. unfold mark_dead in HQ. rewrite HP1 in HQ. case_bool_decide; [by eapply Ho1|]. cbn [processes with_list] in HQ.
    rewrite lookup_upd in HQ. case_decide; [|by eapply Ho1]. destruct (processes w1 !! q) eqn:E; [|done]. injection HQ as <-. cbn. by eapply Ho1. }
  set (w2 := mark_dead p w1) in *. split; [|split; [|split]].
  - apply proc_inv_wake, proc_inv_drop_space; [|done]. by apply proc_inv_drop_handles.
  - rewrite thread_current_wake. transitivity (thread_current w1); [|done].
    assert (thread_current w2 = thread_current w1) as <-.
    { unfold w2, mark_dead. rewrite HP1. by case_bool_decide. }
    transitivity (thread_current (drop_handles p w2)).
    + unfold drop_space. destruct (_ && _); [|done]. unfold vmm_destroy_address_space. by destruct (_ =? _).
    + unfold drop_handles. rewrite HP2. by destruct (handles P2 =? 0).
  - intros q Hq. rewrite ident_tail. unfold w2. rewrite ident_mark_dead by done. apply Hid.
  - rewrite lookup_wake, decide_True, processes_drop_space, lookup_drop_handles, decide_True, HP2 by done.
    eexists. split; [done|]. cbn. split; [congruence|]. split.
    + rewrite space_of_wake. apply space_of_dropped.
    + intros q Q HQ. rewrite lookup_wake, processes_drop_space, lookup_drop_handles in HQ.
      destruct (decide (q = p)); [destruct (processes w2 !! q) as [Q2|] eqn:EQ; [|done]; injection HQ as <-; cbn|]; by eapply Ho2.
Qed.
