(* ===== verification/ProcessRun.v ===== *)
(** * The process operations keep the invariant (src/kernel/process.c)

    [process_create], [thread_create], [process_exit], [thread_exit], the reaper,
    [process_wait] and [process_exec] keep [proc_inv] when their callers keep to
    what the code relies on: a live caller, fresh results of the allocating
    calls, creation on the kernel's address space. *)

From Stdlib Require Import ZArith Lia.
From stdpp Require Import gmap.
From S2P Require Import Prelude Task TaskSpec TaskRun Process ProcessSpec.
#[local] Open Scope Z_scope.

Implicit Types w : pworld.
Implicit Types s : sched.
Implicit Types r : task_ref.

(** The thread that makes a call is alive. *)
Definition caller_alive w : Prop :=
  ∃ c t, thread_current w = Some c ∧ get c (sch w) = Some t ∧ class (state t) = Alive.

Lemma current_listed x w : proc_inv_but x w → caller_alive w → process_get_current w ∈ process_list w.
Proof.
  intros [HT _ HH _] (c & t & Hc & Ht & Ha). unfold process_get_current, current_process. rewrite Hc, Ht.
  destruct (Z.eqb_spec (process t) 0) as [|Hp]; [by destruct (kernel_listed w HT) as (K & _ & _ & ?)|].
  destruct (th_owner _ _ HH c t Ht) as (P & HP & Hin); [by right|done|]. by destruct (th_member _ _ HH _ _ _ HP Hin).
Qed.

(** ** Creation *)

Lemma find_free_process_spec m n : ∀ p q,
  find_free_process m n p = q → 1 ≤ p → q = 0 ∨ (p ≤ q < p + Z.of_nat n ∧ ∃ P, m !! q = Some P ∧ is_free P = true).
Proof.
  induction n as [|n IH]; intros p q; cbn [find_free_process]; [by left|]. intros H Hp.
  destruct (m !! p) as [P|] eqn:E; [|by left]. destruct (is_free P) eqn:Ef.
  - subst q. right. split; [lia|]. by exists P.
  - destruct (IH (p + 1) q H) as [?|[? ?]]; [lia|by left|right; split; [lia|done]].
Qed.

Lemma free_not_listed w p P : table_ok w → processes w !! p = Some P → is_free P = true → p ∉ process_list w.
Proof.
  intros HT HP Hf Hl. apply (to_list _ HT) in Hl as (Q & HQ & Hu). rewrite HP in HQ. injection HQ as <-.
  unfold is_free in Hf. apply orb_prop in Hf as [Hf|Hf]; apply bool_decide_eq_true in Hf; destruct Hu; congruence.
Qed.

(** The world of [process_create] before the child is linked to its parent. *)
Definition created (p n ht : Z) (nm : list Z) (parent_pid v : Z) w : pworld :=
  let w := with_next_pid (u64 (n + 1)) w in
  let w := gain_table ht w in
  let w := upd p (λ P, Proc n (copy_name nm) parent_pid PROCESS_STATE_ACTIVE 0 [] 0 [] ht []) w in
  let w := on_sch (set_pml4 p v) w in
  with_list (process_list w ++ [p]) (u64 (active_process_count w + 1)) w.

Section created.
Context (p ht : Z) (nm : list Z) (pp : Z) (w : pworld) (P0 : proc).
Context (Hi : proc_inv w) (Hslot : slot_process p) (HP0 : processes w !! p = Some P0) (Hfree : is_free P0 = true)
  (Hht : ht = 0 ∨ ht ∉ live_tables w) (Hpid : next_pid w + 1 < W64).
Let w' := created p (next_pid w) ht nm pp (kernel_space w) w.
Let NP := Proc (next_pid w) (copy_name nm) pp PROCESS_STATE_ACTIVE 0 [] 0 [] ht [].

#[local] Lemma created_lookup q : processes w' !! q = if decide (q = p) then Some NP else processes w !! q.
Proof.
  unfold w', created. cbn [processes with_list on_sch with_sch]. rewrite lookup_upd.
  destruct (decide (q = p)) as [->|]; unfold gain_table; destruct (ht =? 0); cbn; rewrite ?HP0; done.
Qed.

#[local] Lemma created_list : process_list w' = process_list w ++ [p].
Proof. unfold w', created, gain_table. by destruct (ht =? 0). Qed.

#[local] Lemma created_fresh : p ∉ process_list w.
Proof. eapply free_not_listed; [apply Hi|done|done]. Qed.

#[local] Lemma created_elem q : q ∈ process_list w' ↔ q ∈ process_list w ∨ q = p.
Proof. rewrite created_list, elem_of_app, list_elem_of_singleton. done. Qed.

#[local] Lemma created_table : table_ok w'.
Proof.
  pose proof created_fresh as Hnew. destruct (pi_table _ _ Hi) as [A1 A2 A3 A4 A5 A6 A7 A8 A9 A10].
  assert (next_pid w' = next_pid w + 1) as En.
  { unfold w', created, gain_table. destruct (ht =? 0); cbn; apply u64_small; unfold is_u64; lia. }
  assert (active_process_count w' = Z.of_nat (length (process_list w'))) as Ec.
  { rewrite created_list, length_app. unfold w', created, gain_table.
    assert (Z.of_nat (length (process_list w)) ≤ 34) as Hb.
    { assert (length (process_list w) ≤ length (seqZ 1 34))%nat as Hle; [|rewrite length_seqZ in Hle; lia].
      apply submseteq_length, NoDup_submseteq; [done|]. intros q Hq. apply A5 in Hq as (Q & HQ & _). apply elem_of_seqZ.
      destruct (proj1 (A1 q)) as [H|[H|H]]; [by eexists|unfold slot_process in H; lia|subst q; unfold idle_process; lia|subst q; unfold kernel_process; lia]. }
    destruct (ht =? 0); cbn; rewrite A8, u64_small; unfold is_u64, W64; simpl; lia. }
  split; try done.
  - intros q. rewrite created_lookup, <- A1. case_decide as Hd; [|done]. subst q. rewrite HP0. split; intros _; by eexists.
  - intros P. rewrite created_lookup, decide_False by (unfold slot_process, idle_process in *; lia). apply A2.
  - intros P. rewrite created_lookup, decide_False by (unfold slot_process, kernel_process in *; lia). apply A3.
  - rewrite created_list. apply NoDup_app. split; [done|]. split; [|apply NoDup_singleton]. by intros q Hq ->%list_elem_of_singleton.
  - intros q. rewrite created_elem, created_lookup, A5. case_decide as Hd.
    + subst q. split; [intros _; exists NP; split; [done|by left]|by right].
    + split; [intros [?|?]; done|by left].
  - intros q Q. rewrite created_elem, created_lookup, En. case_decide as Hd; [intros [= <-] _ _; cbn; lia|].
    intros HQ Hs [Hl|?]; [|done]. destruct (A6 q Q HQ Hs Hl). lia.
  - assert (Hlow : ∀ q Q, q ≠ p → processes w !! q = Some Q → q ∈ process_list w → pid Q < next_pid w).
    { intros q Q Hq HQ Hl. destruct (proj1 (A1 q)) as [Hs|[->| ->]]; [by eexists|by apply (A6 q)|..].
      - destruct (A2 Q HQ). lia.
      - destruct (A3 Q HQ). lia. }
    intros q q' Q Q'. rewrite !created_elem, !created_lookup.
    destruct (decide (q = p)) as [->|Hq], (decide (q' = p)) as [->|Hq']; intros HQ HQ' Hl Hl' E; try done.
    + injection HQ as <-. cbn in E. destruct Hl' as [Hl'|?]; [|done]. specialize (Hlow q' Q' Hq' HQ' Hl'). lia.
    + injection HQ' as <-. cbn in E. destruct Hl as [Hl|?]; [|done]. specialize (Hlow q Q Hq HQ Hl). lia.
    + destruct Hl as [Hl|?], Hl' as [Hl'|?]; try done. by apply (A7 q q' Q Q').
  - rewrite En. lia.
  - intros q Q. rewrite created_lookup. case_decide; [by intros [= <-]|apply A10].
Qed.

#[local] Lemma created_tree : tree_ok w' ∧ orphan p w'.
Proof.
  pose proof created_fresh as Hnew. destruct (pi_tree _ _ Hi) as [B1 B2]. split; [split|].
  - intros q Q c. rewrite created_lookup, !created_elem. case_decide; [intros [= <-] Hc; by apply not_elem_of_nil in Hc|].
    intros HQ Hc. destruct (B1 q Q c HQ Hc) as (? & ? & Hcl & C & HC & HCP). split_and!; [by left|done|by left|].
    exists C. split; [|done]. rewrite created_lookup, decide_False; [done|]. by intros ->.
  - intros q Q. rewrite created_lookup. case_decide; [intros [= <-]; apply NoDup_nil_2|apply B2].
  - intros q Q. rewrite created_lookup. case_decide; [intros [= <-]; apply not_elem_of_nil|]. intros HQ Hc.
    by destruct (B1 q Q p HQ Hc) as (_ & _ & ? & _).
Qed.

#[local] Lemma created_threads : threads_ok 0 w'.
Proof.
  pose proof created_fresh as Hnew.
  assert (Hsch : ∀ r, get r (sch w') = get r (sch w)) by (intros r; unfold w', created, gain_table; by destruct (ht =? 0), r).
  assert (tasks (sch w') = tasks (sch w) ∧ idle_task (sch w') = idle_task (sch w) ∧ reaper_queue w' = reaper_queue w) as (E1 & E2 & E3)
    by (unfold w', created, gain_table; by destruct (ht =? 0)).
  destruct (pi_threads _ _ Hi) as [T1 T2 T3 T4 T5 T6 T7 T8 T9]. split; rewrite ?E1, ?E2, ?E3; try done.
  - intros q Q r. rewrite created_lookup, created_elem, Hsch. case_decide; [intros [= <-] Hc; by apply not_elem_of_nil in Hc|].
    intros HQ Hr. destruct (T3 q Q r HQ Hr). split; [by left|done].
  - intros q Q r. rewrite created_lookup. case_decide; [intros [= <-] _ Hc; by apply not_elem_of_nil in Hc|apply T4].
  - intros q Q. rewrite created_lookup. case_decide; [intros [= <-]; apply NoDup_nil_2|apply T5].
  - intros q Q. rewrite created_lookup. case_decide; [by intros [= <-]|apply T6].
  - intros r t. rewrite Hsch. intros Ht Htk Hp. destruct (T7 r t Ht Htk Hp) as (Q & HQ & Hr). exists Q. split; [|done].
    rewrite created_lookup, decide_False; [done|]. intros E. apply Hnew. rewrite <- E. by destruct (T3 _ _ _ HQ Hr).
  - intros r. rewrite Hsch. apply T9.
Qed.

#[local] Lemma created_resources : resources_ok w'.
Proof.
  pose proof (pi_resources _ _ Hi) as [R1 R2 R3 R4 R5 R6 R7].
  assert (Hlt : live_tables w' = if decide (ht = 0) then live_tables w else live_tables w ∪ {[ht]}).
  { unfold w', created, gain_table. destruct (Z.eqb_spec ht 0); case_decide; done. }
  assert (live_spaces w' = live_spaces w ∧ live_stacks w' = live_stacks w ∧ misuse w' = misuse w) as (E1 & E2 & E3)
    by (unfold w', created, gain_table; by destruct (ht =? 0)).
  assert (Hsch : ∀ r, get r (sch w') = get r (sch w)) by (intros r; unfold w', created, gain_table; by destruct (ht =? 0), r).
  assert (Hsp : ∀ q, space_of w' q = if decide (q = p) then kernel_space w else space_of w q).
  { intros q. rewrite <- space_of_set. unfold w', created, gain_table. by destruct (ht =? 0). }
  assert (Hks : kernel_space w' = kernel_space w).
  { change (space_of w' kernel_process = kernel_space w). rewrite Hsp. unfold slot_process, kernel_process in *. rewrite decide_False by lia. done. }
  assert (Hsub : ∀ h, h ∈ live_tables w → h ∈ live_tables w') by (intros h Hh; rewrite Hlt; case_decide; set_solver).
  split; rewrite ?E1, ?E2, ?E3, ?Hks; try done.
  - intros q Q. rewrite created_lookup. intros HQ Hnz. case_decide as Hd; [|by eapply Hsub, R1].
    injection HQ as <-. cbn in *. rewrite Hlt, decide_False by done. set_solver.
  - intros q q' Q Q'. rewrite !created_lookup.
    assert (Hno : ∀ q Q, processes w !! q = Some Q → handles Q ≠ 0 → handles Q ≠ ht).
    { intros q0 Q0 HQ0 Hnz E. destruct Hht as [H0|Hn]; [congruence|]. apply Hn. rewrite <- E. by eapply R1. }
    destruct (decide (q = p)) as [->|], (decide (q' = p)) as [->|]; intros HQ HQ' Hnz E; try done.
    + injection HQ as <-. cbn in *. exfalso. apply (Hno q' Q' HQ'); congruence.
    + injection HQ' as <-. cbn in *. exfalso. by apply (Hno q Q HQ).
    + by eapply R2.
  - intros q. rewrite ?Hks, !Hsp. destruct (decide (q = p)); [right; left; reflexivity|]. destruct (R3 q) as [?|[?|[H1 H2]]]; [by left|by right; left|].
    right. right. split; [done|]. intros q' E. rewrite Hsp in E. case_decide; [|by apply H2].
    exfalso. apply (proj1 R4). by rewrite E.
  - intros i t. rewrite Hsch. apply R5.
  - intros i j t u. rewrite !Hsch. apply R6.
Qed.

Lemma created_inv : proc_inv w' ∧ orphan p w' ∧ p ∈ process_list w' ∧ processes w' !! p = Some NP ∧
  (∀ q, q ≠ p → processes w' !! q = processes w !! q).
Proof.
  destruct created_tree as [? ?]. split_and!; try done.
  - split; [apply created_table|done|apply created_threads|apply created_resources].
  - apply created_elem. by right.
  - by rewrite created_lookup, decide_True.
  - intros q Hq. by rewrite created_lookup, decide_False.
Qed.
End created.

Lemma upd_id p f w : (∀ P, processes w !! p = Some P → f P = P) → upd p f w = w.
Proof.
  intros Hf. unfold upd. destruct w as [a m b c d e g h i j k l]. unfold with_processes. cbn in *. f_equal.
  apply map_eq. intros q. destruct (decide (q = p)) as [->|]; [|by rewrite lookup_alter_ne].
  rewrite lookup_alter_eq. destruct (m !! p) as [P|] eqn:E; [|done]. cbn. by rewrite (Hf P).
Qed.

(** Linking an orphan to its parent keeps everything else. *)
Lemma proc_inv_adopt q c w Q C :
  proc_inv w → orphan c w → processes w !! q = Some Q → q ∈ process_list w → slot_process c → c ∈ process_list w →
  processes w !! c = Some C → ppid C = pid Q → proc_inv (upd q (λ Q, set_children (children Q ++ [c]) Q) w).
Proof.
  intros [HT HR HH HS] Ho HQ Hq Hc Hcl HC Hpp. split.
  - apply table_ok_agrees; [by apply agrees_upd|done].
  - pose proof (tree_ok_adopt q c w Q HT HR Ho HQ Hq Hc Hcl) as H. rewrite (upd_id c) in H; [done|].
    intros C' HC'. rewrite HC in HC'. injection HC' as <-. rewrite <- Hpp. by destruct C.
  - apply threads_ok_agrees; [by apply agrees_upd|done].
  - apply resources_ok_agrees; [by apply agrees_upd|done].
Qed.

(** What creation needs: a live caller on the kernel's address space, a fresh
    handle table and a process number below 2^64. *)
Record create_ok (ht : Z) w : Prop := {
  co_caller : caller_alive w;
  co_space : cr3_base (sch w) = kernel_space w;
  co_table : ht = 0 ∨ ht ∉ live_tables w;
  co_pid : next_pid w + 1 < W64;
}.

Lemma process_create_inv nm ht w :
  proc_inv w → create_ok ht w →
  let '(p, w') := process_create (Some nm) ht w in
  proc_inv w' ∧
  (p = 0 ∧ w' = w ∨
   slot_process p ∧ (∃ P0, processes w !! p = Some P0 ∧ is_free P0 = true) ∧ p ∈ process_list w' ∧
   ∃ P C, processes w' !! p = Some P ∧ processes w !! process_get_current w = Some C ∧
     (pid P, ppid P, pstate P, handles P, threads P) = (next_pid w, pid C, PROCESS_STATE_ACTIVE, ht, [])).
Proof.
  intros Hi [Hca Hsp Hht Hpid]. unfold process_create. set (p := find_free_process (processes w) PROCESS_MAX_COUNT 1).
  destruct (find_free_process_spec (processes w) PROCESS_MAX_COUNT 1 p eq_refl ltac:(lia)) as [->|[Hp (P0 & HP0 & Hf)]].
  { split; [done|by left]. }
  destruct (Z.eqb_spec p 0); [lia|]. change (Z.of_nat PROCESS_MAX_COUNT) with 32 in Hp.
  assert (slot_process p) as Hslot by (unfold slot_process; lia). clearbody p.
  set (cur := process_get_current w). pose proof (current_listed 0 w Hi Hca) as Hcl. fold cur in Hcl.
  destruct (proj1 (to_list _ (pi_table _ _ Hi) cur) Hcl) as (C & HC & _).
  change (process_get_current (with_next_pid (u64 (next_pid w + 1)) w)) with cur.
  change (processes (with_next_pid (u64 (next_pid w + 1)) w)) with (processes w). rewrite HC.
  destruct (created_inv p ht nm (pid C) w P0 Hi Hslot HP0 Hf Hht Hpid) as (Hi1 & Ho & Hl & HN & Hother).
  assert (cur ≠ p) as Hne by (intros ->; by destruct (free_not_listed w p P0 (pi_table _ _ Hi) HP0 Hf)).
  set (w1 := created p (next_pid w) ht nm (pid C) (kernel_space w) w) in *.
  match goal with |- proc_inv (upd cur _ ?ww) ∧ _ => assert (ww = w1) as -> end.
  { unfold w1, created, gain_table. rewrite <- Hsp. by destruct (ht =? 0). }
  split.
  - eapply (proc_inv_adopt cur p w1 C); try done; [by rewrite Hother|].
    unfold w1, created, gain_table. destruct (ht =? 0); cbn; apply elem_of_app; by left.
  - right. split_and!; try done; [by exists P0|]. rewrite lookup_upd, decide_False by done. rewrite HN. eexists. by exists C.
Qed.

(** ** Threads *)

Lemma not_live_not_taken t : ¬ live (state t) → ¬ taken t.
Proof. intros Hd [H|H]; apply Hd; split; intros E; by rewrite E in H. Qed.

Lemma find_free_slot_pos l : ∀ i r, find_free_slot l i = Some r → ∃ k, r = Slot (S k).
Proof.
  induction l as [|t l IH]; intros i r; cbn [find_free_slot]; [done|]. destruct (_ && _) eqn:E; [|apply IH].
  intros [= <-]. apply andb_prop in E as [E _]. apply Nat.leb_le in E. destruct i as [|i]; [lia|]. by exists i.
Qed.

Lemma allocated_slot x w r :
  threads_ok x w → task_allocate_slot (sch w) = Some r →
  ∃ k t, r = Slot (S k) ∧ get r (sch w) = Some t ∧ ¬ taken t ∧ (∀ p P, processes w !! p = Some P → r ∉ threads P) ∧ r ∉ reaper_queue w.
Proof.
  intros HH Er. unfold task_allocate_slot in Er. destruct (find_free_slot_pos _ _ _ Er) as [k Ek].
  destruct (find_free_slot_Some _ _ _ Er) as (j & t & Ej & Hj & Hd). exists k, t. rewrite Ek in Ej. injection Ej as <-.
  pose proof (not_live_not_taken t Hd) as Hn. subst r. assert (get (Slot (S k)) (sch w) = Some t) as Hg by done. split_and!; try done.
  - intros p P HP Hr. destruct (th_member _ _ HH p P _ HP Hr) as (_ & t' & Ht' & _ & Htk). rewrite Hg in Ht'. injection Ht' as <-. done.
  - intros Hq. destruct (th_queue _ _ HH _ Hq) as (t' & Ht' & Hz). rewrite Hg in Ht'. injection Ht' as <-. apply Hn. by left.
Qed.

(** Freeing a slot that nothing refers to. *)
Lemma proc_inv_free_slot w k t :
  proc_inv w → get (Slot (S k)) (sch w) = Some t → ¬ taken t → (∀ p P, processes w !! p = Some P → Slot (S k) ∉ threads P) →
  Slot (S k) ∉ reaper_queue w → proc_inv (with_sch (task_free_slot (Some (Slot (S k))) (sch w)) w).
Proof.
  intros [HT HR HH HS] Ht Hn Hno Hq. set (r := Slot (S k)) in *.
  assert (retired r (sch w) (task_free_slot (Some r) (sch w))) as Hret.
  { unfold r. cbn [task_free_slot]. fold r. split; [|split; [|split]].
    - intros r' Hne. by rewrite get_modify, decide_False.
    - rewrite get_modify, decide_True, Ht by done. eexists. split; [done|]. by intros [?|?].
    - by fields.
    - by fields. }
  split; [destruct HT; by split|destruct HR; by split|..].
  - apply (threads_ok_retire 0 w _ r); try done; [apply HH..|]. intros q Hq'. split; [done|]. by intros ->.
  - eapply (resources_ok_retire w _ r t); try done. by left.
Qed.

Lemma length_threads x w p P : threads_ok x w → processes w !! p = Some P → (length (threads P) ≤ 65)%nat.
Proof.
  intros HH HP. change 65%nat with (length (Idle :: (Slot <$> seq 0 64))). apply submseteq_length, NoDup_submseteq; [by eapply th_nodup|].
  intros r Hr. destruct (th_member _ _ HH p P r HP Hr) as (_ & t & Ht & _). destruct r as [i|]; [right|by left].
  apply list_elem_of_fmap. exists i. split; [done|]. apply elem_of_seq. pose proof (th_size _ _ HH) as E. unfold TASK_MAX_COUNT in E.
  apply lookup_lt_Some in Ht. lia.
Qed.

(** A new thread in a free slot. *)
Lemma proc_inv_new_thread w q P k t T s :
  proc_inv w → processes w !! q = Some P → q ∈ process_list w → q ≠ 0 → get (Slot (S k)) (sch w) = Some t → ¬ taken t →
  (∀ p P, processes w !! p = Some P → Slot (S k) ∉ threads P) → Slot (S k) ∉ reaper_queue w →
  (∀ r, get r s = if decide (r = Slot (S k)) then Some T else get r (sch w)) → length (tasks s) = length (tasks (sch w)) →
  pml4_physical s = pml4_physical (sch w) →
  class (state T) = Alive → process T = q → stack T ≠ 0 → stack T ∉ live_stacks w →
  proc_inv (upd q (λ P, set_threads (threads P ++ [Slot (S k)]) (u32 (thread_count P + 1)) P) (gain_stack (stack T) (with_sch s w))).
Proof.
  intros [HT HR HH HS] HP Hl Hq0 Ht Hn Hno Hq Hs Hlen Hpm HA HTp Hst Hfresh. set (r := Slot (S k)) in *.
  unfold gain_stack. rewrite (proj2 (Z.eqb_neq _ _) Hst). set (w1 := with_live _ _ _ _ _).
  set (f := λ P, set_threads (threads P ++ [r]) (u32 (thread_count P + 1)) P).
  assert (Hlook : ∀ p P', processes (upd q f w1) !! p = Some P' →
    ∃ Q, processes w !! p = Some Q ∧ threads P' = (if decide (p = q) then threads Q ++ [r] else threads Q) ∧
         thread_count P' = (if decide (p = q) then u32 (thread_count Q + 1) else thread_count Q)).
  { intros p P'. rewrite lookup_upd. change (processes w1) with (processes w).
    destruct (decide (p = q)); (destruct (processes w !! p) as [Q|]; [|done]); intros [= <-]; by exists Q. }
  split.
  - apply table_ok_agrees; [by apply agrees_upd|destruct HT; by split].
  - apply tree_ok_agrees; [by apply agrees_upd|destruct HR; by split].
  - pose proof HH as [T1 T2 T3 T4 T5 T6 T7 T8 T9]. split; cbn [sch upd with_processes w1 with_live with_sch process_list reaper_queue].
    + by rewrite Hlen.
    + pose proof (Hs Idle) as E. rewrite decide_False in E by done. by injection E as ->.
    + intros p P' e HP' He. destruct (Hlook p P' HP') as (Q & HQ & E & _). rewrite E in He. rewrite Hs.
      assert (e ∈ threads Q ∨ (p = q ∧ e = r)) as [He'|[-> ->]].
      { case_decide; [|by left]. apply elem_of_app in He as [?| ->%list_elem_of_singleton]; [by left|by right]. }
      * rewrite decide_False by (intros ->; by apply (Hno p Q)). by eapply T3.
      * rewrite decide_True by done. split; [done|]. exists T. split_and!; [done|done|by right].
    + intros p P' e HP' Hsl He. destruct (Hlook p P' HP') as (Q & HQ & E & _). rewrite E in He.
      case_decide; [|by eapply T4]. apply elem_of_app in He as [?| ->%list_elem_of_singleton]; [by eapply T4|by exists k].
    + intros p P' HP'. destruct (Hlook p P' HP') as (Q & HQ & E & _). rewrite E. case_decide; [|by eapply T5].
      apply NoDup_app. split; [by eapply T5|]. split; [|apply NoDup_singleton]. intros e He ->%list_elem_of_singleton. by eapply Hno.
    + intros p P' HP' Hx. destruct (Hlook p P' HP') as (Q & HQ & -> & ->). case_decide; [|by eapply T6].
      pose proof (length_threads 0 w p Q HH HQ). rewrite (T6 p Q HQ Hx), length_app, u32_small by (unfold is_u32; lia). simpl. lia.
    + intros e u Hu Htk Hp. rewrite Hs in Hu. case_decide as Hd.
      * injection Hu as <-. subst e. rewrite HTp. exists (f P). rewrite lookup_upd, decide_True by done.
        change (processes w1) with (processes w). rewrite HP. split; [done|]. cbn. apply elem_of_app. right. by apply list_elem_of_singleton.
      * destruct (T7 e u Hu Htk Hp) as (Q & HQ & Hin). rewrite lookup_upd. change (processes w1) with (processes w). rewrite HQ.
        case_decide; [exists (f Q); split; [done|]; cbn; apply elem_of_app; by left|by exists Q].
    + done.
    + intros e He. rewrite Hs. case_decide as Hd; [by subst e|by apply T9].
  - apply resources_ok_agrees; [by apply agrees_upd|]. destruct HS as [R1 R2 R3 R4 R5 R6 R7].
    split; cbn [sch w1 with_live with_sch processes live_tables live_spaces live_stacks misuse]; try done.
    + intros p. unfold space_of, kernel_space. cbn. rewrite Hpm. apply R3.
    + unfold kernel_space. cbn. by rewrite Hpm.
    + intros i u Hu Htk Hus. rewrite Hs in Hu. case_decide; [injection Hu as <-; set_solver|]. apply elem_of_union_l. by eapply R5.
    + intros i j u v Hu Hv Htk Hvk Hnz E. rewrite Hs in Hu, Hv.
      destruct (decide (Slot i = r)) as [E1|E1], (decide (Slot j = r)) as [E2|E2].
      * congruence.
      * injection Hu as <-. exfalso. apply Hfresh. rewrite E. eapply (R5 j); [done|done|congruence].
      * injection Hv as <-. exfalso. apply Hfresh. rewrite <- E. by eapply (R5 i).
      * by eapply R6.
Qed.

Lemma thread_create_inv L p ent arg stk w P :
  proc_inv w → processes w !! (if p =? 0 then kernel_process else p) = Some P → (if p =? 0 then kernel_process else p) ∈ process_list w →
  stk = 0 ∨ stk ∉ live_stacks w → proc_inv (thread_create L p ent arg stk w).2.
Proof.
  intros Hi HP Hl Hstk. unfold thread_create. set (q := if p =? 0 then kernel_process else p) in *.
  assert (q ≠ 0) as Hq0 by (unfold q; destruct (Z.eqb_spec p 0); done). clearbody q. clear p.
  destruct (Z.eqb_spec ent 0) as [|He]; [done|]. destruct (task_allocate_slot (sch w)) as [r|] eqn:Er; [|done].
  destruct (allocated_slot 0 w r (pi_threads _ _ Hi) Er) as (k & t & -> & Ht & Hn & Hno & Hq).
  unfold install_thread. rewrite Er. destruct (Z.eqb_spec ent 0); [done|].
  destruct (Z.eqb_spec stk 0) as [->|Hnz].
  - unfold gain_stack. cbn [Z.eqb snd]. by eapply proc_inv_free_slot.
  - destruct Hstk as [?|Hfresh]; [done|]. cbn [task_next_id]. cbv zeta. cbn [snd].
    set (T := Task _ ent arg stk _ _ _ q _ _ _ _ _). set (s := put (Slot (S k)) T _).
    change (gain_stack stk) with (gain_stack (stack T)).
    apply (proc_inv_new_thread w q P k t T s); try done.
    + intros r. unfold s. rewrite get_put by (by eexists). done.
    + unfold s. cbn. by rewrite length_insert.
Qed.

(** ** Exit *)

(** A store into one task that keeps its process, its stack and its slot. *)
Lemma proc_inv_modify x w c f :
  proc_inv_but x w → c ≠ Idle →
  (∀ t, get c (sch w) = Some t → process (f t) = process t ∧ stack (f t) = stack t ∧ (taken (f t) ↔ taken t) ∧
        (class (state t) = Zombie → class (state (f t)) = Zombie)) →
  proc_inv_but x (on_sch (modify c f) w).
Proof.
  intros [HT HR [T1 T2 T3 T4 T5 T6 T7 T8 T9] [R1 R2 R3 R4 R5 R6 R7]] Hc Hf.
  assert (Hg : ∀ r t', get r (modify c f (sch w)) = Some t' →
    ∃ t, get r (sch w) = Some t ∧ process t' = process t ∧ stack t' = stack t ∧ (taken t' ↔ taken t)).
  { intros r t'. rewrite get_modify. case_decide as Hd; [|intros H; by exists t']. subst r.
    destruct (get c (sch w)) as [t|] eqn:E; [|done]. intros [= <-]. exists t. destruct (Hf t eq_refl) as (? & ? & ? & _). done. }
  assert (Hb : ∀ r t, get r (sch w) = Some t →
    ∃ t', get r (modify c f (sch w)) = Some t' ∧ process t' = process t ∧ (taken t' ↔ taken t) ∧ (class (state t) = Zombie → class (state t') = Zombie)).
  { intros r t Ht. rewrite get_modify. case_decide as Hd; [|by exists t]. subst r. rewrite Ht. exists (f t).
    destruct (Hf t Ht) as (? & ? & ? & ?). done. }
  assert (Hm : pml4_physical (modify c f (sch w)) = pml4_physical (sch w)) by (by fields).
  split; [destruct HT; by split|destruct HR; by split|split; cbn [sch on_sch with_sch processes process_list reaper_queue]; try done|].
  - by fields.
  - pose proof (get_modify c f (sch w) Idle) as E. rewrite decide_False in E by congruence. by injection E as ->.
  - intros p P r HP Hr. destruct (T3 p P r HP Hr) as (? & t & Ht & Hp & Htk). split; [done|].
    destruct (Hb r t Ht) as (t' & Ht' & E1 & E2 & _). exists t'. split; [done|]. split; [congruence|tauto].
  - intros r t' Ht' Htk Hp. destruct (Hg r t' Ht') as (t & Ht & E1 & _ & E3). rewrite E1 in *. apply (T7 r t Ht); [tauto|done].
  - intros r Hr. destruct (T9 r Hr) as (t & Ht & Hz). destruct (Hb r t Ht) as (t' & Ht' & _ & _ & E). exists t'. split; [done|by apply E].
  - split; cbn [sch on_sch with_sch processes live_tables live_spaces live_stacks misuse]; try done.
    + intros p. unfold space_of, kernel_space. cbn. rewrite Hm. apply R3.
    + unfold kernel_space. cbn. by rewrite Hm.
    + intros i t' Ht' Htk Hs. destruct (Hg _ t' Ht') as (t & Ht & _ & E2 & E3). rewrite E2 in *. eapply (R5 i t); [done|tauto|done].
    + intros i j t' u' Ht' Hu' Htk Huk Hs E. destruct (Hg _ t' Ht') as (t & Ht & _ & E2 & E3). destruct (Hg _ u' Hu') as (u & Hu & _ & F2 & F3).
      rewrite E2, F2 in *. eapply (R6 i j t u); tauto.
Qed.

Lemma proc_inv_exit_mark x w c code :
  proc_inv_but x w → c ≠ Idle → (∀ t, get c (sch w) = Some t → taken t) → proc_inv_but x (exit_mark c code w).
Proof.
  intros Hi Hc Ht. apply proc_inv_modify; [done|done|]. intros t Hg. cbn. split_and!; try done.
  split; intros _; [by apply Ht|by left].
Qed.

Lemma proc_inv_enqueue x w r t :
  proc_inv_but x w → get r (sch w) = Some t → class (state t) = Zombie → r ∉ reaper_queue w → proc_inv_but x (enqueue_reaper r w).
Proof.
  intros [HT HR [T1 T2 T3 T4 T5 T6 T7 T8 T9] HS] Ht Hz Hq. unfold enqueue_reaper. apply proc_inv_frame; [apply frame_unblock|].
  split; [destruct HT; by split|destruct HR; by split|split; try done|destruct HS; by split].
  - cbn. apply NoDup_app. split; [done|]. split; [|apply NoDup_singleton]. by intros e He ->%list_elem_of_singleton.
  - cbn. intros e [He| ->%list_elem_of_singleton]%elem_of_app; [by apply T9|by exists t].
Qed.

Lemma proc_inv_set_zombie x w p P code :
  proc_inv_but x w → processes w !! p = Some P → slot_process p → pstate P = PROCESS_STATE_ACTIVE →
  proc_inv_but x (upd p (λ P, set_pstate PROCESS_STATE_ZOMBIE (set_pexit code P)) w).
Proof.
  intros [[A1 A2 A3 A4 A5 A6 A7 A8 A9 A10] HR HH HS] HP Hsl Hst.
  set (f := λ P, set_pstate PROCESS_STATE_ZOMBIE (set_pexit code P)).
  assert (agrees pid (processes w) (processes (upd p f w))) as Ha by (by apply agrees_upd).
  split.
  - split; cbn [process_list next_pid active_process_count upd with_processes]; try done.
    + intros q. rewrite lookup_upd. rewrite <- A1. case_decide; [by rewrite fmap_is_Some|done].
    + intros Q. rewrite lookup_upd, decide_False by (unfold slot_process, idle_process in *; lia). apply A2.
    + intros Q. rewrite lookup_upd, decide_False by (unfold slot_process, kernel_process in *; lia). apply A3.
    + intros q. rewrite lookup_upd, A5. case_decide as Hd; [|done]. subst q. rewrite HP. split; intros _.
      * exists (f P). split; [done|by right].
      * exists P. split; [done|by left].
    + intros q Q HQ. destruct (agrees_lookup _ _ _ _ _ Ha HQ) as (Q0 & HQ0 & E). rewrite <- E. by apply A6.
    + intros q q' Q Q' HQ HQ'. destruct (agrees_lookup _ _ _ _ _ Ha HQ) as (Q0 & HQ0 & E).
      destruct (agrees_lookup _ _ _ _ _ Ha HQ') as (Q1 & HQ1 & E'). rewrite <- E, <- E'. by apply A7.
    + intros q Q. rewrite lookup_upd. case_decide as Hd; [|apply A10]. destruct (processes w !! q); [|done]. by intros [= <-].
  - apply tree_ok_agrees; [by apply agrees_upd|done].
  - apply threads_ok_agrees; [by apply agrees_upd|done].
  - apply resources_ok_agrees; [by apply agrees_upd|done].
Qed.

Lemma slot_of_dom w p P : table_ok w → processes w !! p = Some P → p ≠ kernel_process → p ≠ idle_process → slot_process p.
Proof. intros HT HP Hk Hi. destruct (proj1 (to_dom _ HT p)) as [?|[?|?]]; [by eexists|done..]. Qed.

Lemma exit_process_part_inv x w p code : proc_inv_but x w → proc_inv_but x (exit_process_part p code w).
Proof.
  intros Hi. unfold exit_process_part. destruct (Z.eqb_spec p 0); [done|]. destruct (Z.eqb_spec p kernel_process) as [|Hk]; [done|].
  destruct (Z.eqb_spec p idle_process) as [|Hid]; [done|]. cbn [orb]. destruct (processes w !! p) as [P|] eqn:HP; [|done].
  case_bool_decide as Hst; [|done]. apply proc_inv_wake. eapply proc_inv_set_zombie; try done. eapply slot_of_dom; [apply Hi|done..].
Qed.

Lemma exit_process_part_sch p code w r :
  option_relation same_task (λ _, False) (λ _, False) (get r (sch w)) (get r (sch (exit_process_part p code w))) ∧
  reaper_queue (exit_process_part p code w) = reaper_queue w.
Proof.
  assert (∀ w0 : pworld, option_relation same_task (λ _, False) (λ _, False) (get r (sch w0)) (get r (sch w0))) as Hrefl
    by (intros w0; by destruct (get r (sch w0))).
  unfold exit_process_part. destruct (_ || _); [done|]. destruct (processes w !! p) as [P|] eqn:HP; [|done]. case_bool_decide; [|done].
  unfold wake_exit_wq. rewrite lookup_upd, decide_True, HP by done. cbn [fmap option_fmap option_map]. split; [|done].
  pose proof (frame_trans _ _ _ (frame_wake (exit_wq P) (sch w)) (frame_request _)) as (F & _). exact (F r).
Qed.

Lemma zombie_not_queued x w c t : threads_ok x w → get c (sch w) = Some t → class (state t) = Alive → c ∉ reaper_queue w.
Proof. intros HH Ht Ha Hq. destruct (th_queue _ _ HH c Hq) as (t' & Ht' & Hz). congruence. Qed.

Lemma thread_exit_inv L code x w : proc_inv_but x w → caller_alive w → proc_inv_but x (thread_exit L code w).
Proof.
  intros Hi (c & t & Hc & Ht & Ha). unfold thread_exit. rewrite Hc. destruct (may_exit c w) eqn:Hm; [|done]. cbn [negb].
  assert (c ≠ Idle) as Hne by (intros ->; done). pose proof (zombie_not_queued x w c t (pi_threads _ _ Hi) Ht Ha) as Hq.
  assert (proc_inv_but x (exit_mark c code w)) as Hi1.
  { apply proc_inv_exit_mark; [done|done|]. intros t' Ht'. rewrite Ht in Ht'. injection Ht' as <-. by right. }
  set (w1 := exit_mark c code w) in *. set (p := match get c (sch w1) with Some t => process t | None => 0 end). clearbody p.
  pose proof (exit_process_part_inv x w1 p code Hi1) as Hi2. destruct (exit_process_part_sch p code w1 c) as [Hsch Hqq].
  set (w2 := exit_process_part p code w1) in *.
  assert (get c (sch w1) = Some (set_state THREAD_STATE_ZOMBIE (set_exit_code code t))) as Hg1.
  { unfold w1, exit_mark. cbn. by rewrite get_modify, decide_True, Ht. }
  rewrite Hg1 in Hsch. destruct (get c (sch w2)) as [t2|] eqn:Hg2; [|done]. destruct Hsch as (_ & _ & _ & _ & Hcl).
  assert (proc_inv_but x (enqueue_reaper c w2)) as Hi3.
  { eapply proc_inv_enqueue; try done. rewrite Hqq. exact Hq. }
  apply proc_inv_frame; [|done]. apply frame_schedule, Hi3.
Qed.

(** What killing the other threads of a process leaves alone. *)
Definition kills_only w w' : Prop :=
  (processes w', process_list w', live_tables w', live_spaces w', live_stacks w', misuse w') =
  (processes w, process_list w, live_tables w, live_spaces w, live_stacks w, misuse w) ∧ (caller_alive w → caller_alive w') ∧ thread_current w' = thread_current w.

Lemma thread_current_modify r f w : thread_current (on_sch (modify r f) w) = thread_current w.
Proof. apply thread_current_sch; cbn; by fields. Qed.

Lemma unblock_current o s : task_current (task_unblock o s) = task_current s.
Proof.
  destruct o as [r|]; [|done]. cbn. destruct (has_state _ _ _); [|done]. unfold task_current. by fields.
Qed.

Lemma dequeue_current r s : task_current (modify r (set_target 0) (sleep_queue_unlink r s)) = task_current s.
Proof. unfold task_current. fields. unfold sleep_queue_unlink. by case_bool_decide. Qed.

Lemma caller_alive_frame w s : frame (sch w) s → task_current s = thread_current w → caller_alive w → caller_alive (with_sch s w).
Proof.
  intros F Hc (c & t & Hcc & Ht & Ha). destruct (frame_class _ _ _ _ F Ht) as (t' & Ht' & Hs). exists c, t'.
  split; [unfold thread_current; cbn; by rewrite Hc|]. split; [done|]. rewrite <- Ha. apply Hs.
Qed.

Lemma kill_thread_inv code x w p P r :
  proc_inv_but x w → processes w !! p = Some P → slot_process p → r ∈ threads P →
  proc_inv_but x (kill_thread code w r) ∧ kills_only w (kill_thread code w r).
Proof.
  intros Hi HP Hsl Hr. unfold kill_thread. case_bool_decide as Hcur; [done|].
  destruct (th_slots _ _ (pi_threads _ _ Hi) p P r HP Hsl Hr) as [i Ei].
  destruct (th_member _ _ (pi_threads _ _ Hi) p P r HP Hr) as (_ & t & Ht & _ & Htk). rewrite Ht.
  destruct (bool_decide (state t = THREAD_STATE_ZOMBIE) || bool_decide (state t = THREAD_STATE_DEAD)) eqn:Ed; [done|].
  apply orb_false_iff in Ed as [Ez Ed]. apply bool_decide_eq_false in Ez, Ed.
  assert (class (state t) = Alive) as Ha.
  { destruct Htk as [H|H]; [|done]. by destruct (state t). }
  assert (r ≠ Idle) as Hri by (by rewrite Ei).
  pose proof (zombie_not_queued x w r t (pi_threads _ _ Hi) Ht Ha) as Hq.
  assert (proc_inv_but x (exit_mark r code w)) as Hi1.
  { apply proc_inv_exit_mark; [done|done|]. intros t' Ht'. rewrite Ht in Ht'. injection Ht' as <-. by right. }
  set (w1 := exit_mark r code w) in *.
  assert (get r (sch w1) = Some (set_state THREAD_STATE_ZOMBIE (set_exit_code code t))) as Hg1.
  { unfold w1, exit_mark. cbn. by rewrite get_modify, decide_True, Ht. }
  pose proof (frame_dequeue r (sch w1)) as F2.
  assert (proc_inv_but x (sleep_dequeue r w1)) as Hi2 by (by apply proc_inv_frame).
  set (w2 := sleep_dequeue r w1) in *. destruct (frame_class _ _ _ _ F2 Hg1) as (t2 & Hg2 & (_ & _ & _ & _ & Hcl)).
  assert (thread_current w1 = thread_current w) as Etc1 by (unfold w1, exit_mark; by rewrite thread_current_modify).
  assert (thread_current w2 = thread_current w1) as Etc2 by apply dequeue_current.
  split; [by eapply (proc_inv_enqueue x w2 r t2)|]. split; [done|].
  split; [|rewrite <- Etc1, <- Etc2; apply unblock_current]. intros (c & u & Hc & Hu & Hua).
  assert (c ≠ r) as Hcr by (intros ->; done).
  assert (caller_alive w1) as H1.
  { exists c, u. split; [by rewrite Etc1|]. split; [|done].
    unfold w1, exit_mark. cbn. by rewrite get_modify, decide_False. }
  assert (caller_alive w2) as H2.
  { by apply caller_alive_frame. }
  apply (caller_alive_frame (with_reaper (reaper_queue w2 ++ [r]) (reaper_reaped_total w2) w2)); [apply frame_unblock|apply unblock_current|done].
Qed.

Lemma kill_all_inv code x p P l : ∀ w,
  proc_inv_but x w → processes w !! p = Some P → slot_process p → l ⊆ threads P →
  proc_inv_but x (foldl (kill_thread code) w l) ∧ kills_only w (foldl (kill_thread code) w l).
Proof.
  induction l as [|r l IH]; intros w Hi HP Hsl Hl; cbn [foldl]; [done|].
  destruct (kill_thread_inv code x w p P r Hi HP Hsl) as [Hi1 (E1 & C1 & D1)]; [apply Hl; by left|].
  assert (processes (kill_thread code w r) = processes w) as Ep by (by injection E1).
  destruct (IH (kill_thread code w r) Hi1) as [Hi2 (E2 & C2 & D2)]; [by rewrite Ep|done|intros e He; apply Hl; by right|].
  split; [done|]. split; [by rewrite E2|]. split; [auto|congruence].
Qed.

(** Destroying a process without threads does not touch any thread. *)
Lemma destroy_no_threads p w P r :
  processes w !! p = Some P → threads P = [] →
  option_relation same_task (λ _, False) (λ _, False) (get r (sch w)) (get r (sch (process_destroy p w))).
Proof.
  intros HP Hth. assert (∀ s, option_relation same_task (λ _, False) (λ _, False) (get r s) (get r s)) as Hrefl
    by (intros s; by destruct (get r s)).
  unfold process_destroy. rewrite HP. destruct (pid P <=? 1); [done|]. rewrite Hth. cbn [foldl].
  set (w1 := foldl reparent w (children P)).
  assert (sch w1 = sch w) as E1.
  { unfold w1. generalize w. induction (children P) as [|c l IH]; intros w0; [done|]. cbn [foldl]. by rewrite IH. }
  set (w2 := upd p _ (unlink_sibling p w1)). assert (sch w2 = sch w) as E2 by done. clearbody w2.
  assert (sch (mark_dead p w2) = sch w2) as E3.
  { unfold mark_dead. destruct (processes w2 !! p); [|done]. by case_bool_decide. }
  set (w3 := mark_dead p w2) in *. clearbody w3.
  assert (sch (drop_handles p w3) = sch w3) as E4.
  { unfold drop_handles. destruct (processes w3 !! p) as [Q|]; [|done]. by destruct (handles Q =? 0). }
  set (w4 := drop_handles p w3) in *. clearbody w4.
  assert (get r (sch (drop_space p w4)) = get r (sch w)) as E5.
  { rewrite <- E2, <- E3, <- E4. unfold drop_space. destruct (_ && _); [|by destruct r].
    unfold vmm_destroy_address_space. destruct (_ =? _); by destruct r. }
  unfold wake_exit_wq. destruct (processes (drop_space p w4) !! p) as [Q|]; [|rewrite <- E5; apply Hrefl].
  pose proof (frame_trans _ _ _ (frame_wake (exit_wq Q) (sch (drop_space p w4))) (frame_request _)) as (F & _).
  specialize (F r). rewrite E5 in F. exact F.
Qed.

Lemma caller_alive_wake p w : caller_alive w → caller_alive (wake_exit_wq p w).
Proof.
  intros (c & t & Hc & Ht & Ha). pose proof (thread_current_wake p w) as Htc. unfold wake_exit_wq in *.
  destruct (processes w !! p) as [Q|]; [|by exists c, t].
  pose proof (frame_trans _ _ _ (frame_wake (exit_wq Q) (sch w)) (frame_request _)) as F.
  destruct (frame_class _ _ _ _ F Ht) as (t' & Ht' & Hs). exists c, t'. split; [by rewrite Htc|]. split; [done|]. rewrite <- Ha. apply Hs.
Qed.

(** The world of [process_exit] before the caller itself exits. *)
Lemma process_exit_body code w p P :
  proc_inv w → caller_alive w → processes w !! p = Some P → slot_process p → pstate P = PROCESS_STATE_ACTIVE →
  let w1 := upd p (λ P, set_pstate PROCESS_STATE_ZOMBIE (set_pexit code P)) w in
  let w2 := upd p (set_handles 0) w1 in
  let w3 := foldl (kill_thread code) w2 (threads P) in
  let w4 := if handles P =? 0 then w3 else handle_table_destroy (handles P) w3 in
  let w5 := wake_exit_wq p w4 in
  proc_inv w5 ∧ (caller_alive w5 ∧ thread_current w5 = thread_current w) ∧ processes w5 !! p = Some (set_exit_wq [] (set_handles 0 (set_pstate PROCESS_STATE_ZOMBIE (set_pexit code P)))) ∧
  ∀ q, q ≠ p → processes w5 !! q = processes w !! q.
Proof.
  intros Hi Hca HP Hsl Hst. cbv zeta. set (w1 := upd p _ w). pose proof (proc_inv_set_zombie 0 w p P code Hi HP Hsl Hst) as Hi1.
  fold w1 in Hi1. assert (processes w1 !! p = Some (set_pstate PROCESS_STATE_ZOMBIE (set_pexit code P))) as HP1.
  { unfold w1. by rewrite lookup_upd, decide_True, HP. }
  destruct (proc_inv_set_handles p w1 _ (handles P) Hi1 HP1 eq_refl) as [Hi2 Hh]. set (w2 := upd p (set_handles 0) w1) in *.
  set (P2 := set_handles 0 (set_pstate PROCESS_STATE_ZOMBIE (set_pexit code P))).
  assert (processes w2 !! p = Some P2) as HP2 by (unfold w2; by rewrite lookup_upd, decide_True, HP1).
  destruct (kill_all_inv code 0 p P2 (threads P) w2 Hi2 HP2 Hsl) as [Hi3 (E3 & C3 & D3)]; [done|].
  set (w3 := foldl (kill_thread code) w2 (threads P)) in *. injection E3 as Ep El Et Es Ek Em.
  assert (caller_alive w3) as Hca3 by (by apply C3).
  set (w4 := if handles P =? 0 then w3 else handle_table_destroy (handles P) w3).
  assert (proc_inv w4 ∧ (caller_alive w4 ∧ thread_current w4 = thread_current w) ∧ processes w4 = processes w2) as (Hi4 & [Hca4 Etc4] & Ep4).
  { unfold w4. destruct (Z.eqb_spec (handles P) 0) as [|Hnz]; [done|]. destruct (Hh Hnz) as [Hin Hno].
    split; [|done]. destruct Hi3 as [HT HR HH HS]. split; [destruct HT; by split|destruct HR; by split|destruct HH; by split|].
    apply resources_ok_table; [done|by rewrite Et|]. rewrite Ep. exact Hno. }
  split; [by apply proc_inv_wake|]. split; [|split].
  - split; [by apply caller_alive_wake|]. by rewrite thread_current_wake.
  - by rewrite lookup_wake, decide_True, Ep4, HP2.
  - intros q Hq. rewrite lookup_wake, decide_False, Ep4 by done. unfold w2, w1. by rewrite !lookup_upd, !decide_False.
Qed.

Lemma process_exit_inv L code w p :
  proc_inv w → caller_alive w → proc_inv (process_exit L p code w).
Proof.
  intros Hi Hca. unfold process_exit. destruct (processes w !! p) as [P|] eqn:HP; [|done]. destruct (Z.leb_spec (pid P) 1); [done|].
  destruct (bool_decide (pstate P = PROCESS_STATE_ZOMBIE) || bool_decide (pstate P = PROCESS_STATE_DEAD)) eqn:Est; [done|].
  apply orb_false_iff in Est as [Ez Ed]. apply bool_decide_eq_false in Ez, Ed.
  pose proof (slot_pid w p P (pi_table _ _ Hi) HP ltac:(lia)) as Hsl.
  assert (pstate P = PROCESS_STATE_ACTIVE) as Hst.
  { destruct (pstate P) eqn:E; try done. pose proof (to_unused _ (pi_table _ _ Hi) p P HP E). lia. }
  destruct (process_exit_body code w p P Hi Hca HP Hsl Hst) as (Hi5 & [Hca5 Etc5] & HP5 & _). cbv zeta in *.
  set (w5 := wake_exit_wq p _) in *.
  set (w6 := if (thread_count P =? 0) && parent_gone (ppid P) w5 then process_destroy p w5 else w5).
  assert (proc_inv w6 ∧ ((w6 = w5) ∨ (threads P = [] ∧ w6 = process_destroy p w5))) as [Hi6 Hcase].
  { unfold w6. destruct (Z.eqb_spec (thread_count P) 0) as [H0|]; [|split; [done|by left]]. destruct (parent_gone _ _); [|split; [done|by left]].
    cbn [andb]. assert (threads P = []) as Hth.
    { rewrite (th_count _ _ (pi_threads _ _ Hi) p P HP) in H0 by (unfold slot_process in Hsl; lia).
      destruct (threads P); [done|simpl in H0; lia]. }
    split; [|by right]. eapply (process_destroy_inv p w5); [done|exact HP5|cbn; lia|].
    intros r Hr. change (r ∈ threads P) in Hr. rewrite Hth in Hr. by apply not_elem_of_nil in Hr. }
  clearbody w6. destruct Hca as (c & t0 & Hc & Ht0 & Ha0). rewrite Hc.
  destruct (get c (sch w6)) as [t|] eqn:Ht; [|done]. destruct (Z.eqb_spec (process t) p) as [Hp|]; [|done].
  destruct Hcase as [->|[Hth ->]]; [by apply thread_exit_inv|]. exfalso.
  pose proof (destroy_no_threads p w5 _ c HP5 Hth) as Hr. rewrite Ht in Hr.
  destruct (get c (sch w5)) as [t5|] eqn:Ht5; [|done]. destruct Hr as (E1 & _ & _ & _ & E5).
  destruct Hca5 as (c' & t' & Hc' & Ht' & Ha'). rewrite Etc5, Hc in Hc'. injection Hc' as <-. rewrite Ht5 in Ht'. injection Ht' as <-.
  destruct (th_owner _ _ (pi_threads _ _ Hi5) c t5 Ht5) as (Q & HQ & Hin); [by right|unfold slot_process in Hsl; lia|].
  replace (process t5) with p in HQ by congruence. rewrite HP5 in HQ. injection HQ as <-. change (c ∈ threads P) in Hin.
  rewrite Hth in Hin. by apply not_elem_of_nil in Hin.
Qed.

(** ** The reaper *)

Lemma retired_reap z s t (free : bool) :
  get z s = Some t →
  let s1 := modify z (set_state THREAD_STATE_DEAD) s in
  retired z s (if free then modify z (set_stack 0 (stack_size t)) s1 else s1).
Proof.
  intros Ht. cbv zeta. destruct free; (split; [|split; [|split]]).
  - intros r' Hne. by rewrite !get_modify, !(decide_False (P := r' = z)).
  - rewrite !get_modify, !decide_True, Ht by done. eexists. split; [done|]. by intros [?|?].
  - by fields.
  - by fields.
  - intros r' Hne. by rewrite !get_modify, !(decide_False (P := r' = z)).
  - rewrite !get_modify, !decide_True, Ht by done. eexists. split; [done|]. by intros [?|?].
  - by fields.
  - by fields.
Qed.

(** The reaped thread leaves its process; [w'] is the world before the process
    itself may be destroyed. *)
Lemma reap_retire w w' z t q (free : bool) :
  proc_inv w → reaper_queue w = z :: q → get z (sch w) = Some t → z ≠ Idle →
  sch w' = (if free then modify z (set_stack 0 (stack_size t)) else id) (modify z (set_state THREAD_STATE_DEAD) (sch w)) →
  (free = true → stack t ≠ 0) →
  (live_stacks w', misuse w') = (if free then (live_stacks w ∖ {[stack t]}, misuse w || negb (bool_decide (stack t ∈ live_stacks w))) else (live_stacks w, misuse w)) →
  (process_list w', next_pid w', active_process_count w', reaper_queue w', live_tables w', live_spaces w') =
  (process_list w, next_pid w, active_process_count w, q, live_tables w, live_spaces w) →
  agrees (λ P, (pid P, ppid P, pstate P, children P, handles P, filter (λ e, e ≠ z) (threads P))) (processes w) (processes w') →
  (∀ p P', processes w' !! p = Some P' → z ∉ threads P') →
  (∀ p P', processes w' !! p = Some P' → p ≠ 0 → thread_count P' = Z.of_nat (length (threads P'))) →
  proc_inv w'.
Proof.
  intros [HT HR HH HS] Hq Ht Hz Hsch Hfree Hst Eo Ha Hno Hcnt. injection Eo as O1 O2 O3 O4 O5 O6.
  assert (taken t) as Htk.
  { destruct (th_queue _ _ HH z) as (t' & Ht' & Hzz); [rewrite Hq; by left|]. rewrite Ht in Ht'. injection Ht' as <-. by left. }
  assert (retired z (sch w) (sch w')) as Hret.
  { rewrite Hsch. pose proof (retired_reap z (sch w) t free Ht) as H. by destruct free. }
  assert (NoDup (z :: q)) as [Hzq Hqn]%NoDup_cons by (rewrite <- Hq; apply HH).
  assert (agrees (λ P, (pid P, pstate P)) (processes w) (processes w')) as Ha1 by (eapply agrees_view; [|exact Ha]; intros P P' [= ? ? ? ? ? ?]; congruence).
  assert (agrees (λ P, (pid P, ppid P, children P)) (processes w) (processes w')) as Ha2 by (eapply agrees_view; [|exact Ha]; intros P P' [= ? ? ? ? ? ?]; congruence).
  split.
  - pose proof (table_ok_agrees w _ Ha1 HT) as []. split; rewrite ?O1, ?O2, ?O3; done.
  - pose proof (tree_ok_agrees w _ Ha2 HR) as []. split; rewrite ?O1; done.
  - apply (threads_ok_retire 0 w w' z); try done; [|by rewrite O4|].
    + eapply agrees_view; [|exact Ha]. intros P P' [= ? ? ? ? ? ?]. congruence.
    + intros e He. rewrite O4 in He. rewrite Hq. split; [by right|]. by intros ->.
  - apply (resources_ok_retire w w' z t); try done.
    + eapply agrees_view; [|exact Ha]. intros P P' [= ? ? ? ? ? ?]. congruence.
    + destruct free; injection Hst as S1 S2; [right|left; done]. split; [split; [done|by apply Hfree]|done].
Qed.

Lemma unlink_thread_lookup z w p :
  processes (unlink_thread z w) !! p = (λ P, set_threads (filter (λ e, e ≠ z) (threads P)) (thread_count P) P) <$> processes w !! p.
Proof. unfold unlink_thread. cbn. apply lookup_fmap. Qed.

Lemma agrees_unlink_thread z w p n :
  agrees (λ P, (pid P, ppid P, pstate P, children P, handles P, filter (λ e, e ≠ z) (threads P))) (processes w)
    (processes (upd p (λ P, set_threads (threads P) n P) (unlink_thread z w))).
Proof.
  intros q. rewrite lookup_upd, unlink_thread_lookup. case_decide; (destruct (processes w !! q) as [Q|]; [|done]); cbn;
    rewrite list_filter_filter; do 2 f_equal; apply list_filter_iff; tauto.
Qed.

(** The count of the process that loses the thread. *)
Lemma reap_count w z p P n :
  threads_ok 0 w → processes w !! p = Some P → z ∈ threads P → n = thread_count P - 1 →
  ∀ q Q, processes (upd p (λ P, set_threads (threads P) n P) (unlink_thread z w)) !! q = Some Q → q ≠ 0 →
         thread_count Q = Z.of_nat (length (threads Q)).
Proof.
  intros HH HP Hz -> q Q. rewrite lookup_upd. case_decide as Hd.
  - subst q. rewrite unlink_thread_lookup, HP. intros [= <-] Hp0. cbn.
    pose proof (length_filter_in z (threads P) (th_nodup _ _ HH p P HP) Hz). rewrite (th_count _ _ HH p P HP Hp0). lia.
  - intros HQ Hq. by eapply unlink_thread_count.
Qed.

Lemma reap_inv w z q :
  proc_inv w → reaper_queue w = z :: q → z ≠ Idle → proc_inv (reap z (with_reaper q (reaper_reaped_total w) w)).
Proof.
  intros Hi Hq Hz. pose proof (pi_threads _ _ Hi) as HH.
  destruct (th_queue _ _ HH z) as (t & Ht & Hzz); [rewrite Hq; by left|]. assert (taken t) as Htk by (by left).
  unfold reap. set (w0 := with_reaper q (reaper_reaped_total w) w). set (w1 := on_sch (modify z (set_state THREAD_STATE_DEAD)) w0).
  assert (get z (sch w1) = Some (set_state THREAD_STATE_DEAD t)) as Ht1 by (cbn; by rewrite get_modify, decide_True, Ht).
  rewrite Ht1. cbn [stack stack_size process set_state].
  set (free := negb (stack t =? 0) && (stack_size t >? 0)).
  assert (free = true → stack t ≠ 0) as Hfree.
  { unfold free. intros [E _]%andb_prop. apply negb_true_iff in E. by apply Z.eqb_neq in E. }
  set (w2 := if free then on_sch (modify z (set_stack 0 (stack_size t))) (kfree_stack (stack t) w1) else w1).
  assert (processes w2 = processes w) as Ep by (unfold w2; by destruct free).
  assert (sch w2 = (if free then modify z (set_stack 0 (stack_size t)) else id) (modify z (set_state THREAD_STATE_DEAD) (sch w))) as Es
    by (unfold w2; by destruct free).
  assert ((live_stacks w2, misuse w2) = (if free then (live_stacks w ∖ {[stack t]}, misuse w || negb (bool_decide (stack t ∈ live_stacks w))) else (live_stacks w, misuse w))) as El
    by (unfold w2; by destruct free).
  assert ((process_list w2, next_pid w2, active_process_count w2, reaper_queue w2, live_tables w2, live_spaces w2) =
    (process_list w, next_pid w, active_process_count w, q, live_tables w, live_spaces w)) as Eo by (unfold w2; by destruct free).
  clearbody w2. set (w5 := match processes w2 !! process t with Some P => _ | None => w2 end).
  assert (proc_inv w5) as [HT5 HR5 HH5 HS5]; [|split; [destruct HT5; by split|destruct HR5; by split|destruct HH5; by split|destruct HS5; by split]].
  unfold w5. rewrite Ep. destruct (processes w !! process t) as [P|] eqn:HP.
  - assert (process t ≠ 0) as Hp0.
    { intros E. destruct (proj1 (to_dom _ (pi_table _ _ Hi) (process t))) as [H|[H|H]]; [by eexists|..]; unfold slot_process, idle_process, kernel_process in H; lia. }
    destruct (th_owner _ _ HH z t Ht Htk Hp0) as (P' & HP' & Hin). rewrite HP in HP'. injection HP' as <-.
    pose proof (length_filter_in z (threads P) (th_nodup _ _ HH _ P HP) Hin) as Hlen.
    pose proof (th_count _ _ HH _ P HP Hp0) as Hcnt. rewrite Z.gtb_ltb. destruct (Z.ltb_spec 0 (thread_count P)) as [Hpos|]; [|lia].
    set (w3 := upd (process t) (λ P0, set_threads (threads P0) (thread_count P - 1) P0) (unlink_thread z w2)).
    assert (processes w3 = processes (upd (process t) (λ P0, set_threads (threads P0) (thread_count P - 1) P0) (unlink_thread z w))) as Ep3
      by (unfold w3, upd, unlink_thread; cbn; by rewrite Ep).
    assert (proc_inv w3) as Hi3.
    { apply (reap_retire w w3 z t q free Hi Hq Ht Hz Es Hfree El Eo); rewrite Ep3.
      - apply agrees_unlink_thread.
      - intros p Q. rewrite lookup_upd, unlink_thread_lookup. destruct (decide (p = process t)); (destruct (processes w !! p) as [Q0|]; cbn; [|done]); intros [= <-] Hin2; cbn in Hin2; by apply list_elem_of_filter in Hin2 as [? _].
      - by eapply reap_count. }
    destruct (bool_decide (pstate P = PROCESS_STATE_ZOMBIE)) eqn:Ez; [|done]. destruct (Z.eqb_spec (thread_count P - 1) 0) as [Hn0|]; [|done].
    destruct (parent_gone _ _); [|done]. cbn [andb].
    set (P3 := set_threads (filter (λ e, e ≠ z) (threads P)) (thread_count P - 1) P).
    assert (processes w3 !! process t = Some P3) as HP3.
    { rewrite Ep3, lookup_upd, decide_True, unlink_thread_lookup, HP by done. done. }
    destruct (Z.leb_spec (pid P) 1) as [Hle|Hgt].
    + unfold process_destroy. rewrite HP3. change (pid P3) with (pid P). by rewrite (proj2 (Z.leb_le _ _) Hle).
    + eapply (process_destroy_inv _ w3 P3); [done|done|change (pid P3) with (pid P); lia|].
      intros r Hr. change (r ∈ filter (λ e, e ≠ z) (threads P)) in Hr.
      destruct (filter (λ e, e ≠ z) (threads P)); [by apply not_elem_of_nil in Hr|simpl in Hlen; lia].
  - apply (reap_retire w w2 z t q free Hi Hq Ht Hz Es Hfree El Eo); rewrite Ep.
    + done.
    + intros p Q HQ Hin. destruct (th_member _ _ HH p Q z HQ Hin) as (_ & t' & Ht' & E & _). rewrite Ht in Ht'. injection Ht' as <-. congruence.
    + apply HH.
Qed.

Lemma reaper_round_inv L w :
  proc_inv w → caller_alive w → reaper_thread (sch w) = thread_current w → proc_inv (reaper_round L w).
Proof.
  intros Hi (c & t & Hc & Ht & Ha) Hrt. unfold reaper_round. destruct (reaper_queue w) as [|z q] eqn:Hq.
  - set (w1 := match reaper_thread (sch w) with Some r => _ | None => w end).
    assert (proc_inv w1) as Hi1; [|apply proc_inv_frame; [apply frame_schedule, Hi1|done]].
    unfold w1. rewrite Hrt, Hc. apply proc_inv_frame; [|done]. apply frame_modify. intros t' Ht'. rewrite Ht in Ht'. injection Ht' as <-. done.
  - apply reap_inv; [done|done|]. intros ->. destruct (th_queue _ _ (pi_threads _ _ Hi) Idle) as (t' & [= <-] & Hz); [rewrite Hq; by left|].
    by rewrite (th_idle _ _ (pi_threads _ _ Hi)) in Hz.
Qed.

(** ** Waiting and exec *)

(** The caller has no thread in the process. *)
Definition not_own (p : Z) w : Prop := ∀ P r, processes w !! p = Some P → r ∈ threads P → thread_current w ≠ Some r.

Lemma destroy_call_inv p w : proc_inv w → not_own p w → proc_inv (process_destroy p w).
Proof.
  intros Hi Hno. destruct (processes w !! p) as [P|] eqn:HP; [|unfold process_destroy; by rewrite HP].
  destruct (Z.leb_spec (pid P) 1) as [Hle|].
  - unfold process_destroy. by rewrite HP, (proj2 (Z.leb_le _ _) Hle).
  - eapply (process_destroy_inv p w P); [done|done|lia|]. intros r. by apply Hno.
Qed.

Lemma collect_inv p b w : proc_inv w → not_own p w → proc_inv (collect p b w).2.
Proof.
  intros Hi Hno. unfold collect. destruct b; [|done]. cbn [negb]. destruct (processes w !! p) as [P|] eqn:HP; [|done]. cbn [snd].
  apply destroy_call_inv; [by apply proc_inv_unlink|]. intros P' r HP' Hr.
  destruct (agrees_lookup _ _ _ _ _ (proj2 (tree_only_unlink p w)) HP') as (Q & HQ & E). injection E as _ _ _ E4 _ _ _.
  rewrite <- E4 in Hr. exact (Hno Q r HQ Hr).
Qed.

Lemma process_wait_inv p ms b w : proc_inv w → not_own p w → proc_inv (process_wait p ms b w).2.
Proof. intros Hi Hno. unfold process_wait. destruct (p =? 0); [done|]. destruct (_ || _); by apply collect_inv. Qed.

(** Exec: a fresh address space, and a process of its own. *)
Record exec_ok (v : Z) w : Prop := {
  eo_caller : caller_alive w;
  eo_process : process_get_current w ≠ kernel_process;
  eo_fresh : v = 0 ∨ (v ∉ live_spaces w ∧ v ≠ kernel_space w);
}.

Lemma fresh_space_unused w v q : resources_ok w → v ≠ 0 → v ∉ live_spaces w → v ≠ kernel_space w → space_of w q ≠ v.
Proof. intros [R1 R2 R3 R4 R5 R6 R7] H0 Hl Hk E. destruct (R3 q) as [?|[?|[? _]]]; congruence. Qed.

(** Destroying an address space that was just created. *)
Lemma proc_inv_gain_lose x w v :
  proc_inv_but x w → v ≠ 0 → v ∉ live_spaces w → v ≠ kernel_space w → proc_inv_but x (vmm_destroy_address_space v (gain_space v w)).
Proof.
  intros [HT HR HH HS] H0 Hv Hk. unfold gain_space. rewrite (proj2 (Z.eqb_neq _ _) H0). unfold vmm_destroy_address_space.
  set (w1 := with_live _ _ _ _ w).
  assert (proc_inv_but x (with_live (live_tables w1) (live_spaces w1 ∖ {[v]}) (live_stacks w1) (misuse w1 || negb (bool_decide (v ∈ live_spaces w1))) w1)) as Hi.
  { split; [destruct HT; by split|destruct HR; by split|destruct HH; by split|]. destruct HS as [R1 R2 R3 R4 R5 R6 R7].
    assert ((live_spaces w ∪ {[v]}) ∖ {[v]} = live_spaces w) as E by set_solver.
    split; try done; cbn [live_spaces with_live w1]; rewrite ?E; try done.
    cbn. rewrite R7, bool_decide_eq_true_2; [done|set_solver]. }
  destruct (_ =? v); [|done].
  apply (proc_inv_cr3 x _ (get0 (pml4_physical (sch w1)) kernel_process)) in Hi. done.
Qed.

Lemma frame_rsp0 v s : frame s (with_rsp0 v s).
Proof. by apply frame_outside. Qed.

Lemma process_exec_inv path v image rsp w : proc_inv w → exec_ok v w → proc_inv (process_exec path v image rsp w).2.
Proof.
  intros Hi [Hca Hnk Hfr]. unfold process_exec. destruct path as [path|]; [|done]. destruct (Z.eqb_spec v 0) as [|H0]; [done|].
  destruct Hfr as [?|[Hv Hk]]; [done|]. pose proof (proc_inv_gain_lose 0 w v Hi H0 Hv Hk) as Hfail.
  destruct image as [ent|]; [|done]. destruct rsp as [sp|]; [|done]. cbn [snd]. clear Hfail.
  set (p := process_get_current w) in *. change (space_of (gain_space v w) p) with (get0 (pml4_physical (sch (gain_space v w))) p).
  pose proof (pi_resources _ _ Hi) as HS. pose proof (fresh_space_unused w v) as Hun.
  assert (gain_space v w = with_live (live_tables w) (live_spaces w ∪ {[v]}) (live_stacks w) (misuse w) w) as Eg
    by (unfold gain_space; by rewrite (proj2 (Z.eqb_neq _ _) H0)).
  assert (sch (gain_space v w) = sch w) as Es by (by rewrite Eg). rewrite Es.
  change (get0 (pml4_physical (sch w)) p) with (space_of w p). change (get0 (pml4_physical (sch w)) kernel_process) with (kernel_space w).
  set (w1 := if negb (space_of w p =? 0) && negb (space_of w p =? kernel_space w) then _ else gain_space v w).
  assert (proc_inv (on_sch (set_pml4 p v) w1)) as Hi1.
  { destruct HS as [R1 R2 R3 R4 R5 R6 R7].
    assert (∀ sp, sp = live_spaces w ∪ {[v]} ∨ (sp = (live_spaces w ∪ {[v]}) ∖ {[space_of w p]} ∧ space_of w p ≠ v ∧ ∀ q, space_of w q = space_of w p → q = p) →
      proc_inv (with_live (live_tables w) sp (live_stacks w) false (on_sch (set_pml4 p v) w))) as Hgen.
    { intros sp0 Hsp. apply (proc_inv_set_pml4 0 w p v); try done.
      - destruct Hsp as [->|(-> & _)]; set_solver.
      - destruct Hsp as [->|(-> & _)]; set_solver.
      - right. right. split; [destruct Hsp as [->|(-> & ? & _)]; set_solver|]. intros q _. by apply Hun.
      - intros q Hq Hin. destruct Hsp as [->|(-> & _ & Hinj)]; [set_solver|]. apply elem_of_difference. split; [set_solver|].
        intros E%elem_of_singleton. by apply Hq, Hinj. }
    unfold w1. destruct (Z.eqb_spec (space_of w p) 0) as [Hz|Hz]; [|destruct (Z.eqb_spec (space_of w p) (kernel_space w)) as [Hkk|Hkk]]; cbn [negb andb].
    - rewrite Eg. rewrite <- R7 in Hgen. apply (Hgen _ (or_introl eq_refl)).
    - rewrite Eg. rewrite <- R7 in Hgen. apply (Hgen _ (or_introl eq_refl)).
    - destruct (R3 p) as [?|[?|[Hin Hinj]]]; [done|done|]. assert (space_of w p ≠ v) as Hne by (by apply Hun).
      specialize (Hgen _ (or_intror (conj eq_refl (conj Hne Hinj)))). unfold vmm_destroy_address_space. rewrite Eg.
      assert (misuse w || negb (bool_decide (space_of w p ∈ live_spaces w ∪ {[v]})) = false) as Em
        by (rewrite R7, bool_decide_eq_true_2; [done|set_solver]).
      destruct (_ =? space_of w p).
      + apply (proc_inv_cr3 0 _ (kernel_space w)) in Hgen. cbn [live_spaces misuse with_live live_tables live_stacks on_sch with_sch] in *. rewrite Em. exact Hgen.
      + cbn [live_spaces misuse with_live live_tables live_stacks] in *. rewrite Em. exact Hgen. }
  clearbody w1. set (w2 := upd p (set_name (copy_name (basename path))) (on_sch (set_pml4 p v) w1)).
  assert (proc_inv w2) as Hi2.
  { destruct Hi1 as [HT HR HH HS']. split.
    - apply table_ok_agrees; [by apply agrees_upd|done].
    - apply tree_ok_agrees; [by apply agrees_upd|done].
    - apply threads_ok_agrees; [by apply agrees_upd|done].
    - apply resources_ok_agrees; [by apply agrees_upd|done]. }
  clearbody w2. apply proc_inv_cr3. destruct (thread_current w2) as [c|]; [|done]. destruct (get c (sch w2)) as [t|]; [|done].
  destruct (stack t =? 0); [done|]. apply proc_inv_frame; [apply frame_rsp0|done].
Qed.
