(* ===== verification/ProcessLife.v ===== *)
(** * Processes in every reachable state (src/kernel/process.c)

    Initialisation establishes [proc_inv] and every sequence of operations keeps
    it; the life of a process from [process_exit] to [process_wait]; a thread
    that is preempted at the wrong place in [thread_exit]. *)

From Stdlib Require Import ZArith Lia.
From stdpp Require Import gmap.
From S2P Require Import Prelude Task TaskSpec TaskRun Process ProcessSpec ProcessRun.
#[local] Open Scope Z_scope.

Implicit Types w : pworld.
Implicit Types s : sched.
Implicit Types r : task_ref.

(** ** Initialisation *)

(** The world when [task_initialize] calls [process_subsystem_init]: the bootstrap
    thread runs, no other slot is taken, and nothing is owned by a process. *)
Record boot_ok w : Prop := {
  bo_fresh : process_initialized w = false;
  bo_size : length (tasks (sch w)) = TASK_MAX_COUNT;
  bo_idle : class (state (idle_task (sch w))) = Alive;
  bo_boot : ∃ t, get (Slot 0) (sch w) = Some t ∧ class (state t) = Alive ∧ stack t = 0;
  bo_slots i t : get (Slot (S i)) (sch w) = Some t → ¬ taken t;
  bo_current : thread_current w = Some (Slot 0);
  bo_dom p : is_Some (processes w !! p) ↔ slot_process p ∨ fixed_process p;
  bo_spaces p : space_of w p = 0;
  bo_next : next_pid w = 2;
  bo_none : live_spaces w = ∅ ∧ misuse w = false;
}.

(** The world of [process_subsystem_init] before the reaper is created. *)
Definition fixed_only (hi hk : Z) w : pworld :=
  let m := map_imap (λ p P, Some (if p <=? 32 then reset_process P else P)) (processes w) in
  let m := <[idle_process := Proc 0 [105; 100; 108; 101] 0 PROCESS_STATE_ACTIVE 0 [Idle] 1 [] hi []]> m in
  let m := <[kernel_process := Proc 1 [107; 101; 114; 110; 101; 108] 0 PROCESS_STATE_ACTIVE 0 [Slot 0] 1 [] hk []]> m in
  let w := with_list [idle_process; kernel_process] 2 (with_processes m (with_reaper [] 0 w)) in
  let w := gain_table hk (gain_table hi w) in
  let w := on_sch (λ s, set_pml4 kernel_process (cr3_base s) (set_pml4 idle_process (cr3_base s) s)) w in
  on_sch (modify (Slot 0) (set_process kernel_process)) (on_sch (modify Idle (set_process idle_process)) w).

(** Settles tests on concrete threads. *)
Ltac decides := repeat first [rewrite decide_True by done|rewrite decide_False by done].

Section init.
Context (w : pworld) (hi hk : Z) (Hb : boot_ok w) (Hd : hi = 0 ∨ hi ≠ hk).
Let w' := fixed_only hi hk w.

#[local] Lemma fixed_lookup p :
  processes w' !! p =
    if decide (p = kernel_process) then Some (Proc 1 [107; 101; 114; 110; 101; 108] 0 PROCESS_STATE_ACTIVE 0 [Slot 0] 1 [] hk [])
    else if decide (p = idle_process) then Some (Proc 0 [105; 100; 108; 101] 0 PROCESS_STATE_ACTIVE 0 [Idle] 1 [] hi [])
    else reset_process <$> processes w !! p.
Proof.
  assert (processes w' = <[kernel_process := Proc 1 [107; 101; 114; 110; 101; 108] 0 PROCESS_STATE_ACTIVE 0 [Slot 0] 1 [] hk []]>
    (<[idle_process := Proc 0 [105; 100; 108; 101] 0 PROCESS_STATE_ACTIVE 0 [Idle] 1 [] hi []]>
      (map_imap (λ p P, Some (if p <=? 32 then reset_process P else P)) (processes w)))) as ->.
  { unfold w', fixed_only, gain_table. by destruct (hk =? 0), (hi =? 0). }
  destruct (decide (p = kernel_process)) as [->|Hk]; [by rewrite lookup_insert_eq|]. rewrite lookup_insert_ne by done.
  destruct (decide (p = idle_process)) as [->|Hi]; [by rewrite lookup_insert_eq|]. rewrite lookup_insert_ne by done.
  rewrite map_lookup_imap. destruct (processes w !! p) as [P|] eqn:E; [|done]. cbn.
  destruct (proj1 (bo_dom _ Hb p)) as [H|[H|H]]; [by eexists|..|done|done]. unfold slot_process in H. by rewrite (proj2 (Z.leb_le _ _)) by lia.
Qed.

#[local] Lemma fixed_cases p P :
  processes w' !! p = Some P →
  (p = kernel_process ∧ pid P = 1 ∧ pstate P = PROCESS_STATE_ACTIVE ∧ threads P = [Slot 0] ∧ thread_count P = 1 ∧ children P = [] ∧ handles P = hk) ∨
  (p = idle_process ∧ pid P = 0 ∧ pstate P = PROCESS_STATE_ACTIVE ∧ threads P = [Idle] ∧ thread_count P = 1 ∧ children P = [] ∧ handles P = hi) ∨
  (slot_process p ∧ pid P = 0 ∧ pstate P = PROCESS_STATE_UNUSED ∧ threads P = [] ∧ thread_count P = 0 ∧ children P = [] ∧ handles P = 0).
Proof.
  rewrite fixed_lookup. case_decide as Hk; [intros [= <-]; by left|]. case_decide as Hi; [intros [= <-]; by right; left|].
  destruct (processes w !! p) as [Q|] eqn:E; [|done]. intros [= <-]. right. right. split; [|done].
  by destruct (proj1 (bo_dom _ Hb p)) as [H|[H|H]]; [by eexists|..].
Qed.

#[local] Lemma fixed_get r t' :
  get r (sch w') = Some t' →
  ∃ t, get r (sch w) = Some t ∧ stack t' = stack t ∧ state t' = state t ∧
       process t' = (if decide (r = Slot 0) then kernel_process else if decide (r = Idle) then idle_process else process t).
Proof.
  assert (∃ s0, sch w' = modify (Slot 0) (set_process kernel_process) (modify Idle (set_process idle_process) s0) ∧ ∀ r, get r s0 = get r (sch w)) as (s0 & -> & Hs0).
  { unfold w', fixed_only, gain_table. destruct (hk =? 0), (hi =? 0); eexists; (split; [reflexivity|]); intros r0; by destruct r0. }
  rewrite !get_modify, Hs0. destruct r as [[|i]|].
  - decides. destruct (get (Slot 0) (sch w)) as [t|]; [|done]. intros [= <-]. by exists t.
  - decides. intros H. by exists t'.
  - decides. intros [= <-]. by exists (idle_task (sch w)).
Qed.

#[local] Lemma fixed_space p : space_of w' p = if decide (p = kernel_process ∨ p = idle_process) then cr3_base (sch w) else 0.
Proof.
  assert (pml4_physical (sch w') = <[kernel_process := cr3_base (sch w)]> (<[idle_process := cr3_base (sch w)]> (pml4_physical (sch w)))) as E.
  { unfold w', fixed_only, gain_table. destruct (hk =? 0), (hi =? 0); cbn; by fields. }
  unfold space_of. rewrite E. unfold get0. pose proof (bo_spaces _ Hb p) as H0. unfold space_of, get0 in H0.
  destruct (decide (p = kernel_process)) as [->|Hk]; [rewrite lookup_insert_eq, decide_True by (by left); done|]. rewrite lookup_insert_ne by done.
  destruct (decide (p = idle_process)) as [->|Hi]; [rewrite lookup_insert_eq, decide_True by (by right); done|]. rewrite lookup_insert_ne by done.
  rewrite decide_False by tauto. exact H0.
Qed.

#[local] Lemma fixed_fields :
  process_list w' = [idle_process; kernel_process] ∧ active_process_count w' = 2 ∧ next_pid w' = 2 ∧ reaper_queue w' = [] ∧
  (hi ≠ 0 → hi ∈ live_tables w') ∧ (hk ≠ 0 → hk ∈ live_tables w') ∧ live_spaces w' = ∅ ∧ misuse w' = false ∧
  length (tasks (sch w')) = TASK_MAX_COUNT ∧ class (state (idle_task (sch w'))) = Alive.
Proof.
  destruct (bo_none _ Hb) as [N1 N2]. split_and!.
  - unfold w', fixed_only, gain_table. by destruct (hk =? 0), (hi =? 0).
  - unfold w', fixed_only, gain_table. by destruct (hk =? 0), (hi =? 0).
  - unfold w', fixed_only, gain_table. rewrite <- (bo_next _ Hb). by destruct (hk =? 0), (hi =? 0).
  - unfold w', fixed_only, gain_table. by destruct (hk =? 0), (hi =? 0).
  - intros H. unfold w', fixed_only, gain_table. rewrite (proj2 (Z.eqb_neq _ _) H). destruct (hk =? 0); cbn; set_solver.
  - intros H. unfold w', fixed_only, gain_table. rewrite (proj2 (Z.eqb_neq _ _) H). destruct (hi =? 0); cbn; set_solver.
  - unfold w', fixed_only, gain_table. rewrite <- N1. by destruct (hk =? 0), (hi =? 0).
  - unfold w', fixed_only, gain_table. rewrite <- N2. by destruct (hk =? 0), (hi =? 0).
  - rewrite <- (bo_size _ Hb). unfold w', fixed_only, gain_table. destruct (hk =? 0), (hi =? 0); cbn; by fields.
  - destruct (fixed_get Idle (idle_task (sch w')) eq_refl) as (t & [= <-] & _ & -> & _). apply (bo_idle _ Hb).
Qed.

#[local] Lemma fixed_listed_cases p : p ∈ process_list w' ↔ p = idle_process ∨ p = kernel_process.
Proof. destruct fixed_fields as (-> & _). rewrite elem_of_cons, list_elem_of_singleton. done. Qed.

#[local] Lemma fixed_table : table_ok w'.
Proof.
  destruct fixed_fields as (F1 & F2 & F3 & _). split; rewrite ?F2, ?F3; try done.
  - intros p. rewrite fixed_lookup, <- (bo_dom _ Hb). case_decide as Hk; [|case_decide as Hi; [|by rewrite fmap_is_Some]]; subst p.
    + split; intros _; [apply (bo_dom _ Hb); by right; right|by eexists].
    + split; intros _; [apply (bo_dom _ Hb); by right; left|by eexists].
  - intros P HP. destruct (fixed_cases _ _ HP) as [(? & _)|[(_ & ? & ? & _)|(H & _)]]; [done|done|unfold slot_process, idle_process in H; lia].
  - intros P HP. destruct (fixed_cases _ _ HP) as [(_ & ? & ? & _)|[(? & _)|(H & _)]]; [done|done|unfold slot_process, kernel_process in H; lia].
  - rewrite F1. by apply (bool_decide_unpack _).
  - intros p. rewrite fixed_listed_cases. split.
    + intros Hp. assert (∃ P, processes w' !! p = Some P ∧ pstate P = PROCESS_STATE_ACTIVE) as (P & HP & Hs).
      { rewrite fixed_lookup. destruct Hp as [->| ->]; [rewrite decide_False, decide_True by done|rewrite decide_True by done]; by eexists. }
      exists P. split; [done|by left].
    + intros (P & HP & Hu). destruct (fixed_cases _ _ HP) as [(-> & _)|[(-> & _)|(_ & _ & E & _)]]; [by right|by left|].
      rewrite E in Hu. by destruct Hu.
  - intros p P HP Hs Hl. rewrite fixed_listed_cases in Hl. unfold slot_process, idle_process, kernel_process in *. lia.
  - intros p q P Q HP HQ Hp Hq E. rewrite fixed_listed_cases in Hp, Hq. unfold idle_process, kernel_process in *.
    destruct (fixed_cases _ _ HP) as [(-> & E1 & _)|[(-> & E1 & _)|(Hs & _)]]; [| |unfold slot_process in Hs; lia];
    (destruct (fixed_cases _ _ HQ) as [(-> & G1 & _)|[(-> & G1 & _)|(Hs & _)]]; [| |unfold slot_process in Hs; lia]); done || lia.
  - by rewrite F1.
  - intros p P HP Hs. destruct (fixed_cases _ _ HP) as [(_ & _ & E & _)|[(_ & _ & E & _)|(_ & E & _)]]; [congruence|congruence|done].
Qed.

#[local] Lemma fixed_taken r t' : get r (sch w') = Some t' → taken t' → (r = Slot 0 ∧ process t' = kernel_process) ∨ (r = Idle ∧ process t' = idle_process).
Proof.
  intros Ht' Htk. destruct (fixed_get r t' Ht') as (t & Ht & _ & Est & Hp). destruct r as [[|i]|].
  - left. rewrite decide_True in Hp by done. done.
  - destruct (bo_slots _ Hb i t Ht). unfold taken in *. by rewrite <- Est.
  - right. rewrite decide_False, decide_True in Hp by done. done.
Qed.

#[local] Lemma fixed_alive r : r = Slot 0 ∨ r = Idle → ∃ t', get r (sch w') = Some t' ∧ class (state t') = Alive.
Proof.
  destruct fixed_fields as (_ & _ & _ & _ & _ & _ & _ & _ & F9 & F10). intros [->| ->]; [|by eexists].
  destruct (lookup_lt_is_Some_2 (tasks (sch w')) 0) as [t' Ht']; [rewrite F9; unfold TASK_MAX_COUNT; lia|]. exists t'. split; [done|].
  destruct (fixed_get (Slot 0) t' Ht') as (t & Ht & _ & -> & _). destruct (bo_boot _ Hb) as (t0 & Ht0 & Ha & _). congruence.
Qed.

#[local] Lemma fixed_threads : threads_ok 0 w'.
Proof.
  destruct fixed_fields as (F1 & F2 & F3 & F4 & F5 & F6 & F7 & F8 & F9 & F10). split; rewrite ?F4; try done.
  - intros p P r HP Hr. rewrite fixed_listed_cases.
    assert ((p = kernel_process ∧ r = Slot 0) ∨ (p = idle_process ∧ r = Idle)) as Hpr.
    { destruct (fixed_cases _ _ HP) as [(-> & _ & _ & E & _)|[(-> & _ & _ & E & _)|(_ & _ & _ & E & _)]]; rewrite E in Hr.
      - left. split; [done|by apply list_elem_of_singleton].
      - right. split; [done|by apply list_elem_of_singleton].
      - by apply not_elem_of_nil in Hr. }
    split; [destruct Hpr as [[-> _]|[-> _]]; [by right|by left]|].
    destruct (fixed_alive r) as (t' & Ht' & Ha); [destruct Hpr as [[_ ->]|[_ ->]]; [by left|by right]|].
    assert (taken t') as Htk by (by right). exists t'. split; [done|]. split; [|done].
    destruct (fixed_taken r t' Ht' Htk) as [[-> ->]|[-> ->]]; destruct Hpr as [[-> ?]|[-> ?]]; done.
  - intros p P r HP Hs Hr. destruct (fixed_cases _ _ HP) as [(-> & _)|[(-> & _)|(_ & _ & _ & E & _)]];
      [unfold slot_process, kernel_process in Hs; lia|unfold slot_process, idle_process in Hs; lia|]. rewrite E in Hr. by apply not_elem_of_nil in Hr.
  - intros p P HP. destruct (fixed_cases _ _ HP) as [E|[E|E]]; destruct E as (_ & _ & _ & -> & _); [apply NoDup_singleton|apply NoDup_singleton|apply NoDup_nil_2].
  - intros p P HP _. destruct (fixed_cases _ _ HP) as [E|[E|E]]; destruct E as (_ & _ & _ & -> & -> & _); done.
  - intros r t' Ht' Htk Hp. destruct (fixed_taken r t' Ht' Htk) as [[-> ->]|[-> ->]]; rewrite fixed_lookup.
    + rewrite decide_True by done. eexists. split; [done|]. by apply list_elem_of_singleton.
    + rewrite decide_False, decide_True by done. eexists. split; [done|]. by apply list_elem_of_singleton.
  - apply NoDup_nil_2.
  - intros r Hr. by apply not_elem_of_nil in Hr.
Qed.

#[local] Lemma fixed_resources : resources_ok w'.
Proof.
  destruct fixed_fields as (F1 & F2 & F3 & F4 & F5 & F6 & F7 & F8 & F9 & F10).
  assert (kernel_space w' = cr3_base (sch w)) as Ek.
  { change (space_of w' kernel_process = cr3_base (sch w)). by rewrite fixed_space, decide_True by (by left). }
  assert (∀ i t', get (Slot i) (sch w') = Some t' → taken t' → stack t' = 0) as Hstk.
  { intros i t' Ht' Htk. destruct (fixed_taken _ _ Ht' Htk) as [[Ei _]|[Ei _]]; [|done]. destruct (fixed_get _ _ Ht') as (t & Ht & -> & _).
    rewrite Ei in Ht. destruct (bo_boot _ Hb) as (t0 & Ht0 & _ & Hs). congruence. }
  split; rewrite ?F7, ?F8, ?Ek; try done.
  - intros p P HP Hnz. destruct (fixed_cases _ _ HP) as [E|[E|E]]; destruct E as (_ & _ & _ & _ & _ & _ & E); rewrite E in *; auto. done.
  - intros p q P Q HP HQ Hnz E.
    destruct (fixed_cases _ _ HP) as [(-> & _ & _ & _ & _ & _ & E1)|[(-> & _ & _ & _ & _ & _ & E1)|(_ & _ & _ & _ & _ & _ & E1)]];
    destruct (fixed_cases _ _ HQ) as [(-> & _ & _ & _ & _ & _ & G1)|[(-> & _ & _ & _ & _ & _ & G1)|(_ & _ & _ & _ & _ & _ & G1)]];
      try done; destruct Hd; congruence.
  - intros p. rewrite ?Ek, fixed_space. case_decide; [by right; left|by left].
  - intros i t' Ht' Htk Hs. by destruct Hs; eapply Hstk.
  - intros i j t' u' Ht' Hu' Htk _ Hs. by destruct Hs; eapply Hstk.
Qed.

Lemma fixed_only_inv : proc_inv w'.
Proof.
  split; [apply fixed_table| |apply fixed_threads|apply fixed_resources]. split.
  - intros p P c HP Hc. destruct (fixed_cases _ _ HP) as [E|[E|E]]; destruct E as (_ & _ & _ & _ & _ & E & _); rewrite E in Hc; by apply not_elem_of_nil in Hc.
  - intros p P HP. destruct (fixed_cases _ _ HP) as [E|[E|E]]; destruct E as (_ & _ & _ & _ & _ & -> & _); apply NoDup_nil_2.
Qed.
End init.

Lemma thread_create_alive L p ent arg stk w r w' :
  thread_create L p ent arg stk w = (Some r, w') → ∃ t, get r (sch w') = Some t ∧ class (state t) = Alive.
Proof.
  unfold thread_create. destruct (ent =? 0) eqn:He; [done|]. destruct (task_allocate_slot (sch w)) as [k|] eqn:Ek; [|done].
  unfold install_thread. rewrite He, Ek. destruct (stk =? 0) eqn:Es; [done|]. cbn [task_next_id]. cbv zeta. intros [= <- <-].
  unfold gain_stack. rewrite Es. cbn [sch upd with_processes with_live with_sch].
  unfold task_allocate_slot in Ek. destruct (find_free_slot_Some _ _ _ Ek) as (j & t0 & -> & Hj & _).
  rewrite get_put by (by eexists). rewrite decide_True by done. by eexists.
Qed.

Lemma process_subsystem_init_inv L hi hk stk ent w :
  boot_ok w → hi = 0 ∨ hi ≠ hk → stk = 0 ∨ stk ∉ live_stacks w → proc_inv (process_subsystem_init L hi hk stk ent w).
Proof.
  intros Hb Hd Hs. pose proof (fixed_only_inv w hi hk Hb Hd) as Hi. unfold process_subsystem_init. rewrite (bo_fresh _ Hb). cbv zeta.
  pose proof (bo_current _ Hb) as Hc. unfold thread_current in Hc. cbn [sch with_reaper]. rewrite Hc.
  change (processes (with_reaper [] 0 w)) with (processes w).
  match goal with |- context [thread_create L kernel_process ent 0 stk ?ww] => change ww with (fixed_only hi hk w) end.
  set (w1 := fixed_only hi hk w) in *.
  assert (live_stacks w1 = live_stacks w) as El by (unfold w1, fixed_only, gain_table; by destruct (hk =? 0), (hi =? 0)).
  destruct (kernel_listed w1 (pi_table _ _ Hi)) as (K & HK & _ & Hkl).
  assert (proc_inv (thread_create L kernel_process ent 0 stk w1).2) as Hi2 by (apply (thread_create_inv L kernel_process ent 0 stk w1 K); rewrite ?El; done).
  destruct (thread_create L kernel_process ent 0 stk w1) as [r w2] eqn:Et. cbn [snd] in Hi2.
  assert (proc_inv (on_sch (set_reaper r) w2)) as Hi3 by (apply proc_inv_frame; [by apply frame_outside|done]).
  set (w3 := on_sch (set_reaper r) w2) in *.
  assert (proc_inv (match r with Some r => on_sch (modify r (set_state THREAD_STATE_BLOCKED)) w3 | None => w3 end)) as [HT HR HH HS].
  { destruct r as [r|]; [|done]. destruct (thread_create_alive _ _ _ _ _ _ _ _ Et) as (t & Ht & Ha).
    apply proc_inv_frame; [|done]. apply frame_modify. intros t' Ht'.
    assert (get r (sch w3) = get r (sch w2)) as E by (by destruct r). rewrite E, Ht in Ht'. injection Ht' as <-. done. }
  split; [destruct HT; by split|destruct HR; by split|destruct HH; by split|destruct HS; by split].
Qed.

(** ** Reachable states *)

Section steps.
Context (L : task_layout).

(** A call of one of the operations by the running thread, or activity of the
    scheduler that a process cannot see. *)
Inductive proc_step : pworld → pworld → Prop :=
  | step_create nm ht w : create_ok ht w → proc_step w (process_create (Some nm) ht w).2
  | step_thread p ent arg stk w :
      p = 0 ∨ p ∈ process_list w → stk = 0 ∨ stk ∉ live_stacks w → proc_step w (thread_create L p ent arg stk w).2
  | step_exit p code w : caller_alive w → proc_step w (process_exit L p code w)
  | step_thread_exit code w : caller_alive w → proc_step w (thread_exit L code w)
  | step_reaper w : caller_alive w → reaper_thread (sch w) = thread_current w → proc_step w (reaper_round L w)
  | step_wait p ms waited w :
      not_own p w → (waited = true → process_exit_condition p w = true) → proc_step w (process_wait p ms waited w).2
  | step_destroy p w : not_own p w → proc_step w (process_destroy p w)
  | step_exec path v image rsp w : exec_ok v w → proc_step w (process_exec path v image rsp w).2
  | step_sched s w : frame (sch w) s → proc_step w (with_sch s w).

Lemma proc_step_inv w w' : proc_inv w → proc_step w w' → proc_inv w'.
Proof.
  intros Hi Hstep. destruct Hstep as [nm ht w Hc|p ent arg stk w Hp Hs|p code w Hc|code w Hc|w Hc Hr|p ms b w Hn _|p w Hn|path v image rsp w He|s w F].
  - pose proof (process_create_inv nm ht w Hi Hc) as H. destruct (process_create (Some nm) ht w). apply H.
  - assert ((if p =? 0 then kernel_process else p) ∈ process_list w) as Hl.
    { destruct (kernel_listed w (pi_table _ _ Hi)) as (K & _ & _ & Hk). destruct (Z.eqb_spec p 0); [done|]. by destruct Hp. }
    destruct (proj1 (to_list _ (pi_table _ _ Hi) _) Hl) as (P & HP & _). by apply (thread_create_inv L p ent arg stk w P).
  - by apply process_exit_inv.
  - by apply thread_exit_inv.
  - by apply reaper_round_inv.
  - by apply process_wait_inv.
  - by apply destroy_call_inv.
  - by apply process_exec_inv.
  - by apply proc_inv_frame.
Qed.


(** ** From exit to wait *)

Lemma find_pid_spec w n q Q l :
  (∀ p, p ∈ l → p ∈ process_list w) → table_ok w → q ∈ l → processes w !! q = Some Q → pid Q = n → find_pid n l (processes w) = q.
Proof.
  intros Hsub HT. induction l as [|p l IH]; intros Hq HQ Hn; [by apply not_elem_of_nil in Hq|]. cbn [find_pid].
  destruct (proj1 (to_list _ HT p) (Hsub p ltac:(by left))) as (P & HP & _). rewrite HP.
  destruct (Z.eqb_spec (pid P) n) as [E|E].
  - eapply (to_inj _ HT); [done|done|apply Hsub; by left|by apply Hsub|congruence].
  - apply elem_of_cons in Hq as [->|Hq]; [congruence|]. apply IH; [intros e He; apply Hsub; by right|done|done|done].
Qed.

(** The parent is there. *)
Lemma parent_present n w q Q :
  table_ok w → q ∈ process_list w → processes w !! q = Some Q → pid Q = n → parent_gone n w = false.
Proof.
  intros HT Hq HQ Hn. unfold parent_gone, process_find_by_pid.
  destruct (proj1 (to_list _ HT q) Hq) as (Q' & HQ' & Hu). rewrite HQ in HQ'. injection HQ' as <-.
  assert (q ≠ 0 ∧ (n = 0 → q = idle_process) ∧ (n = 1 → q = kernel_process)) as (Hq0 & Hid & Hke).
  { destruct (proj1 (to_dom _ HT q)) as [H|[->| ->]]; [by eexists|..].
    - pose proof (to_pid _ HT q Q HQ H Hq). unfold slot_process in H. lia.
    - destruct (to_idle _ HT Q HQ). split_and!; [done|done|lia].
    - destruct (to_kernel _ HT Q HQ). split_and!; [done|lia|done]. }
  assert ((if n =? 0 then idle_process else if n =? 1 then kernel_process else find_pid n (process_list w) (processes w)) = q) as ->.
  { destruct (Z.eqb_spec n 0); [by rewrite Hid|]. destruct (Z.eqb_spec n 1); [by rewrite Hke|]. by eapply find_pid_spec. }
  rewrite (proj2 (Z.eqb_neq _ _) Hq0), HQ. apply bool_decide_eq_false_2. destruct Hu as [->| ->]; done.
Qed.

(** *** What is released *)

(** Nothing of tables and address spaces is released on the way from [w] to [w']. *)
Definition keeps w w' : Prop :=
  (live_tables w', live_spaces w', pml4_physical (sch w')) = (live_tables w, live_spaces w, pml4_physical (sch w)) ∧
  agrees handles (processes w) (processes w').

Lemma keeps_trans w1 w2 w3 : keeps w1 w2 → keeps w2 w3 → keeps w1 w3.
Proof. intros [A1 A2] [B1 B2]. split; [congruence|]. intros p. by rewrite (B2 p), (A2 p). Qed.

Lemma keeps_foldl {A} (f : pworld → A → pworld) l : (∀ w a, keeps w (f w a)) → ∀ w, keeps w (foldl f w l).
Proof. intros Hf. induction l as [|a l IH]; intros w; [by split|]. cbn [foldl]. eapply keeps_trans; [apply Hf|apply IH]. Qed.

Lemma keeps_unlink p w : keeps w (unlink_sibling p w).
Proof. split; [done|]. by apply agrees_fmap. Qed.

Lemma keeps_upd p f w : (∀ P, handles (f P) = handles P) → keeps w (upd p f w).
Proof. intros Hf. split; [done|]. by apply agrees_upd. Qed.

Lemma keeps_reparent w c : keeps w (reparent w c).
Proof.
  unfold reparent. eapply keeps_trans; [apply (keeps_unlink c)|]. eapply keeps_trans; [|by apply keeps_upd].
  by apply keeps_upd.
Qed.

(** A thread that is dropped loses its kernel stack and nothing else is lost. *)
Lemma drop_thread_keeps w r : keeps w (drop_thread w r).
Proof.
  unfold drop_thread. set (w1 := unqueue r _).
  assert (keeps w w1) as H1.
  { split; [|by apply agrees_fmap]. unfold w1. cbn. fields. unfold sleep_queue_unlink. by case_bool_decide. }
  case_bool_decide; [done|]. destruct (get r (sch w1)) as [t|]; [|done]. eapply keeps_trans; [exact H1|].
  destruct (_ && _); (split; [|done]); destruct r as [[|i]|]; cbn; by fields.
Qed.

Definition same_stack (o o' : option task) : Prop :=
  (λ t, (stack t, stack_size t)) <$> o' = (λ t, (stack t, stack_size t)) <$> o.

Lemma drop_thread_stacks w r :
  live_stacks (drop_thread w r) ⊆ live_stacks w ∧ thread_current (drop_thread w r) = thread_current w ∧
  (∀ r', r' ≠ r → same_stack (get r' (sch w)) (get r' (sch (drop_thread w r)))) ∧
  (∀ t, get r (sch w) = Some t → thread_current w ≠ Some r → r ≠ Idle → stack t ≠ 0 → 0 < stack_size t →
     stack t ∉ live_stacks (drop_thread w r)).
Proof.
  unfold drop_thread. set (w1 := unqueue r _).
  assert (thread_current w1 = thread_current w) as Hc.
  { apply thread_current_sch; unfold w1; cbn; fields; unfold sleep_queue_unlink; by case_bool_decide. }
  assert (live_stacks w1 = live_stacks w) as Hl by done.
  assert (∀ r', same_stack (get r' (sch w)) (get r' (sch w1))) as Hg.
  { intros r'. unfold same_stack, w1. cbn. rewrite get_modify, get_unlink. case_decide; [|done]. by destruct (get r' (sch w)). }
  clearbody w1. rewrite Hc. case_bool_decide as Hcur; [rewrite Hl; split_and!; [done|done|by intros r' _|done]|].
  assert (∀ t, get r (sch w) = Some t → ∃ t1, get r (sch w1) = Some t1 ∧ stack t1 = stack t ∧ stack_size t1 = stack_size t) as Hgr.
  { intros t Ht. specialize (Hg r). unfold same_stack in Hg. rewrite Ht in Hg. destruct (get r (sch w1)) as [t1|]; [|done].
    injection Hg as E1 E2. by exists t1. }
  destruct (get r (sch w1)) as [t1|] eqn:Et1.
  2:{ rewrite Hl. split_and!; [done|done|by intros r' _|]. intros t Ht. by destruct (Hgr t Ht) as (? & ? & _). }
  assert (∀ w2 : pworld, thread_current (on_sch (task_free_slot (Some r)) w2) = thread_current w2 ∧
    live_stacks (on_sch (task_free_slot (Some r)) w2) = live_stacks w2 ∧
    ∀ r', r' ≠ r → get r' (sch (on_sch (task_free_slot (Some r)) w2)) = get r' (sch w2)) as Hfree.
  { intros w2. split_and!; [apply thread_current_sch; destruct r as [[|i]|]; cbn; by fields|done|].
    intros r' Hne. destruct r as [[|i]|]; cbn [on_sch with_sch sch task_free_slot]; [done| |done]. by rewrite get_modify, decide_False. }
  destruct (negb (bool_decide (r = Idle)) && negb (stack t1 =? 0) && (stack_size t1 >? 0)) eqn:E.
  - set (w2 := on_sch (modify r (set_stack 0 0)) (kfree_stack (stack t1) w1)). destruct (Hfree w2) as (-> & -> & Hf).
    assert (live_stacks w2 = live_stacks w1 ∖ {[stack t1]}) as -> by done. rewrite Hl. split_and!.
    + set_solver.
    + rewrite <- Hc. exact (thread_current_modify r (set_stack 0 0) (kfree_stack (stack t1) w1)).
    + intros r' Hne. rewrite (Hf r' Hne). unfold w2. cbn. rewrite get_modify, decide_False by done. apply Hg.
    + intros t Ht _ _ _ _. destruct (Hgr t Ht) as (? & [= <-] & <- & _). set_solver.
  - destruct (Hfree w1) as (-> & -> & Hf). rewrite Hl. split_and!; [done|done|intros r' Hne; rewrite (Hf r' Hne); apply Hg|].
    intros t Ht _ Hi Hs Hz. destruct (Hgr t Ht) as (? & [= <-] & E1 & E2). rewrite E1, E2 in E.
    rewrite (bool_decide_eq_false_2 (r = Idle)), (proj2 (Z.eqb_neq _ _) Hs) in E by done. cbn [negb andb] in E.
    rewrite Z.gtb_ltb in E. apply Z.ltb_ge in E. lia.
Qed.

Lemma drop_all_stacks l : ∀ w,
  NoDup l → (∀ r, r ∈ l → thread_current w ≠ Some r ∧ r ≠ Idle) →
  let w' := foldl drop_thread w l in
  live_stacks w' ⊆ live_stacks w ∧
  (∀ r t, r ∈ l → get r (sch w) = Some t → stack t ≠ 0 → 0 < stack_size t → stack t ∉ live_stacks w').
Proof.
  induction l as [|a l IH]; intros w Hnd Hl; cbn [foldl]; cbv zeta; [split; [done|]; by intros r t ?%not_elem_of_nil|].
  destruct (drop_thread_stacks w a) as (D1 & D2 & D3 & D4). apply NoDup_cons in Hnd as [Ha Hnd].
  destruct (IH (drop_thread w a) Hnd) as [I1 I2]; [intros r Hr; rewrite D2; apply Hl; by right|]. split; [by etrans|].
  intros r t Hr Ht Hs Hz. destruct (decide (r = a)) as [->|Hne].
  - intros Hin. destruct (Hl a ltac:(by left)). exact (D4 t Ht ltac:(done) ltac:(done) Hs Hz (I1 _ Hin)).
  - assert (r ∈ l) as Hrl by (by apply elem_of_cons in Hr as [?|?]).
    specialize (D3 r Hne). unfold same_stack in D3. rewrite Ht in D3.
    destruct (get r (sch (drop_thread w a))) as [t'|] eqn:Et'; [|done]. injection D3 as E1 E2.
    rewrite <- E1. apply (I2 r t'); [done|done|congruence|lia].
Qed.

(** A set without the handle table [h]; 0 is no table. *)
Definition without (h : Z) (tables : gset Z) : gset Z := if h =? 0 then tables else tables ∖ {[h]}.

Lemma drop_handles_live p w P :
  processes w !! p = Some P →
  live_tables (drop_handles p w) = without (handles P) (live_tables w) ∧
  (live_spaces (drop_handles p w), live_stacks (drop_handles p w), sch (drop_handles p w)) = (live_spaces w, live_stacks w, sch w).
Proof. intros HP. unfold drop_handles, without. rewrite HP. by destruct (handles P =? 0). Qed.

Lemma wake_live p w :
  (live_tables (wake_exit_wq p w), live_spaces (wake_exit_wq p w), live_stacks (wake_exit_wq p w)) =
  (live_tables w, live_spaces w, live_stacks w).
Proof. unfold wake_exit_wq. by destruct (processes w !! p). Qed.

Lemma drop_space_live p w :
  p ≠ kernel_process → 0 ∉ live_spaces w ∧ kernel_space w ∉ live_spaces w →
  (live_tables (drop_space p w), live_stacks (drop_space p w)) = (live_tables w, live_stacks w) ∧
  live_spaces (drop_space p w) = live_spaces w ∖ {[space_of w p]}.
Proof.
  intros Hp [H0 Hk]. unfold drop_space. cbn [sch on_sch with_sch].
  assert (get0 (pml4_physical (set_pml4 p 0 (sch w))) kernel_process = kernel_space w) as ->.
  { unfold kernel_space, space_of, get0. cbn. by rewrite lookup_insert_ne. }
  fold (space_of w p). destruct (Z.eqb_spec (space_of w p) 0) as [E|E]; cbn [negb andb].
  { split; [done|]. rewrite E, difference_disjoint_L; [done|]. by apply disjoint_singleton_r. }
  destruct (Z.eqb_spec (space_of w p) (kernel_space w)) as [E'|E']; cbn [negb].
  { split; [done|]. rewrite E', difference_disjoint_L; [done|]. by apply disjoint_singleton_r. }
  unfold vmm_destroy_address_space. by destruct (_ =? _).
Qed.

(** [process_destroy] releases the handle table, the address space and the
    kernel stacks of the process, and no other table or address space. *)
Lemma process_destroy_releases p w P :
  proc_inv w → processes w !! p = Some P → 2 ≤ pid P → (∀ r, r ∈ threads P → thread_current w ≠ Some r) →
  let w' := process_destroy p w in
  live_tables w' = without (handles P) (live_tables w) ∧ live_spaces w' = live_spaces w ∖ {[space_of w p]} ∧
  live_stacks w' ⊆ live_stacks w ∧
  (∀ r t, r ∈ threads P → get r (sch w) = Some t → stack t ≠ 0 → 0 < stack_size t → stack t ∉ live_stacks w').
Proof.
  intros Hi HP Hpid Hcur. pose proof (slot_pid w p P (pi_table _ _ Hi) HP Hpid) as Hsl.
  assert (p ≠ kernel_process) as Hk by (unfold slot_process, kernel_process in *; lia).
  cbv zeta. unfold process_destroy. rewrite HP. destruct (Z.leb_spec (pid P) 1); [lia|].
  set (w1 := unlink_sibling p (foldl reparent w (children P))).
  assert (keeps w w1) as K1.
  { eapply keeps_trans; [apply (keeps_foldl reparent); apply keeps_reparent|apply keeps_unlink]. }
  assert (tree_only w w1) as T1.
  { eapply tree_only_trans; [|apply tree_only_unlink]. clear. generalize (children P) as l. intros l. revert w.
    induction l as [|c l IH]; intros w; [by split|]. cbn [foldl]. eapply tree_only_trans; [apply tree_only_reparent|apply IH]. }
  assert (sch w1 = sch w ∧ live_stacks w1 = live_stacks w) as [Es1 El1] by (destruct T1 as [T1 _]; injection T1; done).
  destruct (drop_all_stacks (threads P) w1) as [S1 S2]; [by eapply (th_nodup _ _ (pi_threads _ _ Hi))|..].
  { intros r Hr. split; [unfold thread_current; rewrite Es1; by apply Hcur|].
    by destruct (th_slots _ _ (pi_threads _ _ Hi) p P r HP Hsl Hr) as [i ->]. }
  set (w2 := foldl drop_thread w1 (threads P)) in *.
  assert (keeps w w2) as K2 by (eapply keeps_trans; [exact K1|apply keeps_foldl, drop_thread_keeps]).
  set (w3 := mark_dead p (upd p (λ P, set_threads (threads P) 0 P) w2)).
  assert (keeps w w3 ∧ live_stacks w3 = live_stacks w2) as [K3 El3].
  { unfold w3, mark_dead. destruct (processes (upd p _ w2) !! p) as [Q|]; [case_bool_decide|]; (split; [|done]);
      (eapply keeps_trans; [exact K2|]); try (by apply keeps_upd).
    eapply keeps_trans; [by apply (keeps_upd p (λ P, set_threads (threads P) 0 P))|]. split; [done|]. by apply (agrees_upd handles). }
  destruct K3 as [E3 A3]. injection E3 as E31 E32 E33.
  destruct (agrees_lookup_back _ _ _ _ _ A3 HP) as (P3 & HP3 & Eh).
  destruct (drop_handles_live p w3 P3 HP3) as [D1 D2]. injection D2 as D21 D22 D23.
  destruct (drop_space_live p (drop_handles p w3) Hk) as [G1 G2].
  { unfold kernel_space, space_of. rewrite D21, D23, E32, E33. destruct (re_kernel _ (pi_resources _ _ Hi)). done. }
  injection G1 as G11 G12. pose proof (wake_live p (drop_space p (drop_handles p w3))) as W. injection W as W1 W2 W3.
  rewrite W1, W2, W3, G11, G12, G2, D1, D21, D22, El3, Eh, E31, E32. split_and!; [done| |by rewrite <- El1|].
  - unfold space_of. by rewrite D23, E33.
  - intros r t Hr Ht. apply (S2 r t Hr). by rewrite Es1.
Qed.

(** *** Exit *)

Lemma thread_exit_processes code w p P :
  processes w !! p = Some P → pstate P ≠ PROCESS_STATE_ACTIVE →
  (∀ c t, thread_current w = Some c → get c (sch w) = Some t → process t = p) →
  processes (thread_exit L code w) = processes w ∧
  (live_tables (thread_exit L code w), live_spaces (thread_exit L code w), live_stacks (thread_exit L code w)) =
  (live_tables w, live_spaces w, live_stacks w).
Proof.
  intros HP Hst Hown. unfold thread_exit. destruct (thread_current w) as [c|] eqn:Hc; [|done].
  destruct (negb (may_exit c w)) eqn:Hm; [done|]. cbv zeta.
  assert (exit_process_part (match get c (sch (exit_mark c code w)) with Some t => process t | None => 0 end) code (exit_mark c code w)
    = exit_mark c code w) as ->; [|done].
  unfold exit_mark. cbn [sch on_sch with_sch]. rewrite get_modify, decide_True by done.
  destruct (get c (sch w)) as [t|] eqn:Ht; cbn [fmap option_fmap option_map]; [|done].
  change (process (set_state THREAD_STATE_ZOMBIE (set_exit_code code t))) with (process t). rewrite (Hown c t eq_refl Ht).
  unfold exit_process_part. destruct (_ || _); [done|]. cbn [processes on_sch with_sch]. rewrite HP.
  by rewrite bool_decide_eq_false_2.
Qed.

Lemma process_exit_live code w p P :
  proc_inv w → caller_alive w → processes w !! p = Some P → slot_process p → pstate P = PROCESS_STATE_ACTIVE →
  let w1 := upd p (λ P, set_pstate PROCESS_STATE_ZOMBIE (set_pexit code P)) w in
  let w2 := upd p (set_handles 0) w1 in
  let w3 := foldl (kill_thread code) w2 (threads P) in
  let w4 := if handles P =? 0 then w3 else handle_table_destroy (handles P) w3 in
  let w5 := wake_exit_wq p w4 in
  (live_tables w5, live_spaces w5, live_stacks w5) = (without (handles P) (live_tables w), live_spaces w, live_stacks w).
Proof.
  intros Hi Hca HP Hsl Hst. cbv zeta. rewrite wake_live. set (w1 := upd p _ w).
  assert (processes w1 !! p = Some (set_pstate PROCESS_STATE_ZOMBIE (set_pexit code P))) as HP1.
  { unfold w1. by rewrite lookup_upd, decide_True, HP. }
  pose proof (proc_inv_set_zombie 0 w p P code Hi HP Hsl Hst) as Hi1. fold w1 in Hi1.
  destruct (proc_inv_set_handles p w1 _ (handles P) Hi1 HP1 eq_refl) as [Hi2 _]. set (w2 := upd p (set_handles 0) w1) in *.
  assert (processes w2 !! p = Some (set_handles 0 (set_pstate PROCESS_STATE_ZOMBIE (set_pexit code P)))) as HP2
    by (unfold w2; by rewrite lookup_upd, decide_True, HP1).
  destruct (kill_all_inv code 0 p _ (threads P) w2 Hi2 HP2 Hsl) as [_ (E & _)]; [done|].
  injection E as _ _ E1 E2 E3 _. unfold without. destruct (handles P =? 0); [congruence|].
  unfold handle_table_destroy. cbn [live_tables live_spaces live_stacks with_live]. congruence.
Qed.

(** [process_exit] of a process whose parent is there, by itself or by another. *)
Lemma process_exit_zombie w p P q Q code :
  proc_inv w → caller_alive w → processes w !! p = Some P → slot_process p → pstate P = PROCESS_STATE_ACTIVE →
  q ∈ process_list w → q ≠ p → processes w !! q = Some Q → pid Q = ppid P →
  let w1 := process_exit L p code w in
  processes w1 !! p = Some (set_exit_wq [] (set_handles 0 (set_pstate PROCESS_STATE_ZOMBIE (set_pexit code P)))) ∧
  (live_tables w1, live_spaces w1, live_stacks w1) = (without (handles P) (live_tables w), live_spaces w, live_stacks w).
Proof.
  intros Hi Hca HP Hsl Hst Hq Hqp HQ Hpp. pose proof (process_exit_live code w p P Hi Hca HP Hsl Hst) as Hl.
  destruct (process_exit_body code w p P Hi Hca HP Hsl Hst) as (Hi5 & [Hca5 Etc5] & HP5 & Hother). cbv zeta in *.
  set (w5 := wake_exit_wq p _) in *.
  assert (p ∈ process_list w) as Hpl by (apply (to_list _ (pi_table _ _ Hi)); exists P; split; [done|by left]).
  pose proof (to_pid _ (pi_table _ _ Hi) p P HP Hsl Hpl) as Hpid.
  assert (parent_gone (ppid P) w5 = false) as Hgone.
  { apply (parent_present (ppid P) w5 q Q (pi_table _ _ Hi5)); [|by rewrite Hother|done].
    apply (to_list _ (pi_table _ _ Hi5)). rewrite Hother by done. by apply (to_list _ (pi_table _ _ Hi)). }
  unfold process_exit. rewrite HP. destruct (Z.leb_spec (pid P) 1); [lia|]. rewrite Hst. cbn [orb bool_decide decide_rel].
  rewrite !bool_decide_eq_false_2 by done. cbn [orb]. fold w5. rewrite Hgone, andb_false_r.
  destruct Hca5 as (c & t & Hc & Ht & Ha). rewrite Etc5 in Hc. rewrite Hc, Ht. destruct (Z.eqb_spec (process t) p) as [E|]; [|done].
  destruct (thread_exit_processes code w5 p _ HP5) as [-> ->]; [done| |done].
  intros c' t' Hc' Ht'. rewrite Etc5, Hc in Hc'. injection Hc' as <-. congruence.
Qed.

(** *** Wait *)

(** [process_wait] on a zombie, whatever the time-out: the wait sees the exit. *)
Lemma process_wait_zombie w p P ms :
  proc_inv w → not_own p w → slot_process p → processes w !! p = Some P → pstate P = PROCESS_STATE_ZOMBIE →
  let '(result, w2) := process_wait p ms (process_exit_condition p w) w in
  result = Some (pexit_code P) ∧ proc_inv w2 ∧ p ∉ process_list w2 ∧ orphan p w2 ∧
  (∃ P2, processes w2 !! p = Some P2 ∧ (pstate P2, threads P2, children P2) = (PROCESS_STATE_DEAD, [], [])) ∧
  (∀ r t, get r (sch w2) = Some t → taken t → process t ≠ p) ∧
  live_tables w2 = without (handles P) (live_tables w) ∧ live_spaces w2 = live_spaces w ∖ {[space_of w p]} ∧
  (∀ r t, r ∈ threads P → get r (sch w) = Some t → stack t ≠ 0 → 0 < stack_size t → stack t ∉ live_stacks w2).
Proof.
  intros Hi Hno Hsl HP Hst. assert (p ≠ 0) as Hp0 by (unfold slot_process in Hsl; lia).
  assert (p ∈ process_list w) as Hl by (apply (to_list _ (pi_table _ _ Hi)); exists P; split; [done|by right]).
  assert (process_exit_condition p w = true) as Hcond.
  { unfold process_exit_condition. rewrite (proj2 (Z.eqb_neq _ _) Hp0), HP, Hst. done. }
  assert (process_wait p ms (process_exit_condition p w) w = (Some (pexit_code P), process_destroy p (unlink_sibling p w))) as ->.
  { unfold process_wait. rewrite (proj2 (Z.eqb_neq _ _) Hp0), Hcond. destruct (_ || _); unfold collect; cbn [negb]; by rewrite HP. }
  destruct (agrees_lookup_back _ _ _ _ _ (proj2 (tree_only_unlink p w)) HP) as (P2 & HP2 & E). injection E as E1 E2 E3 E4 E5 E6 E7.
  pose proof (to_pid _ (pi_table _ _ Hi) p P HP Hsl Hl) as Hpid.
  assert (proc_inv (unlink_sibling p w)) as Hi1 by (by apply proc_inv_unlink).
  assert (∀ r, r ∈ threads P2 → thread_current (unlink_sibling p w) ≠ Some r) as Hcur.
  { intros r Hr. rewrite <- E4 in Hr. by apply (Hno P). }
  destruct (process_destroy_inv p (unlink_sibling p w) P2 Hi1 HP2 ltac:(rewrite <- E1; apply Hpid) Hcur)
    as (Hi3 & _ & _ & P3 & HP3 & EP & Hsp & Ho).
  destruct (process_destroy_releases p (unlink_sibling p w) P2 Hi1 HP2 ltac:(rewrite <- E1; apply Hpid) Hcur) as (R1 & R2 & _ & R4).
  set (w3 := process_destroy p (unlink_sibling p w)) in *. injection EP as P31 P32 P33 P34 P35 P36.
  split_and!; try done.
  - intros Hl3. apply (to_list _ (pi_table _ _ Hi3)) in Hl3 as (P' & HP' & Hu). rewrite HP3 in HP'. injection HP' as <-.
    rewrite P32 in Hu. by destruct Hu.
  - exists P3. split; [done|congruence].
  - intros r t Ht Htk Hp. destruct (th_owner _ _ (pi_threads _ _ Hi3) r t Ht Htk) as (P' & HP' & Hin); [congruence|].
    rewrite Hp, HP3 in HP'. injection HP' as <-. rewrite P34 in Hin. by apply not_elem_of_nil in Hin.
  - rewrite R1. by rewrite <- E6.
  - intros r t Hr. apply R4. by rewrite <- E4.
Qed.

(** C14: exit and wait.  While a process is active, [process_wait] with no timeout
    reports nothing and changes nothing.  [process_exit], by the process or by
    another, leaves a process whose parent is there a listed zombie with the
    exit code, and destroys its handle table and nothing else.  [process_wait]
    by another process on a zombie, at once or in any later state and with any
    timeout, returns the code; then the process is dead and unlisted, has no
    children and no threads left in any slot, is nobody's child, and what it
    still owned has been given back: its handle table and its address space,
    and no other table or space, and the kernel stacks of its threads. *)
Theorem exit_then_wait w p P q Q code waited :
  proc_inv w → caller_alive w → processes w !! p = Some P → slot_process p → pstate P = PROCESS_STATE_ACTIVE →
  q ∈ process_list w → q ≠ p → processes w !! q = Some Q → pid Q = ppid P →
  process_wait p 0 waited w = (None, w) ∧
  (let w1 := process_exit L p code w in
   proc_inv w1 ∧ p ∈ process_list w1 ∧
   (∃ P1, processes w1 !! p = Some P1 ∧ (pstate P1, pexit_code P1, handles P1) = (PROCESS_STATE_ZOMBIE, code, 0)) ∧
   live_tables w1 = without (handles P) (live_tables w) ∧
   (live_spaces w1, live_stacks w1) = (live_spaces w, live_stacks w)) ∧
  ∀ w1 P1 ms, proc_inv w1 → not_own p w1 → processes w1 !! p = Some P1 → pstate P1 = PROCESS_STATE_ZOMBIE →
  let '(result, w2) := process_wait p ms (process_exit_condition p w1) w1 in
  result = Some (pexit_code P1) ∧ proc_inv w2 ∧ p ∉ process_list w2 ∧ orphan p w2 ∧
  (∃ P2, processes w2 !! p = Some P2 ∧ (pstate P2, threads P2, children P2) = (PROCESS_STATE_DEAD, [], [])) ∧
  (∀ r t, get r (sch w2) = Some t → taken t → process t ≠ p) ∧
  live_tables w2 = without (handles P1) (live_tables w1) ∧ live_spaces w2 = live_spaces w1 ∖ {[space_of w1 p]} ∧
  (∀ r t, r ∈ threads P1 → get r (sch w1) = Some t → stack t ≠ 0 → 0 < stack_size t → stack t ∉ live_stacks w2).
Proof.
  intros Hi Hca HP Hsl Hst Hq Hqp HQ Hpp. assert (p ≠ 0) as Hp0 by (unfold slot_process in Hsl; lia).
  cbv zeta. split_and!.
  - unfold process_wait, collect, process_exit_condition. by rewrite (proj2 (Z.eqb_neq _ _) Hp0), HP, Hst.
  - by apply process_exit_inv.
  - destruct (process_exit_zombie w p P q Q code Hi Hca HP Hsl Hst Hq Hqp HQ Hpp) as [HP1 _].
    apply (to_list _ (pi_table _ _ (process_exit_inv L code w p Hi Hca))). eexists. split; [exact HP1|by right].
  - destruct (process_exit_zombie w p P q Q code Hi Hca HP Hsl Hst Hq Hqp HQ Hpp) as [HP1 _]. eexists. split; [exact HP1|done].
  - destruct (process_exit_zombie w p P q Q code Hi Hca HP Hsl Hst Hq Hqp HQ Hpp) as [_ E]. by injection E.
  - destruct (process_exit_zombie w p P q Q code Hi Hca HP Hsl Hst Hq Hqp HQ Hpp) as [_ E]. injection E as E1 E2 E3. congruence.
  - intros w1 P1 ms Hi1 Hno HP1 Hz. by apply process_wait_zombie.
Qed.

(** ** A thread that is lost

    [thread_exit] marks the thread a zombie before it puts it on the reaper's
    queue, with interrupts on.  If the timer switches to another thread in
    between, the zombie is never chosen again: whatever the scheduler does, it stays
    a zombie that is not queued, and the process stays as it is. *)
Lemma preempted_exit_is_lost w c t code s :
  proc_inv w → thread_current w = Some c → get c (sch w) = Some t → class (state t) = Alive → c ≠ Idle →
  let w1 := on_sch (schedule L) (exit_mark c code w) in
  frame (sch w1) s →
  let w2 := with_sch s w1 in
  c ∉ reaper_queue w2 ∧ processes w2 = processes w ∧ ∃ t2, get c (sch w2) = Some t2 ∧ state t2 = THREAD_STATE_ZOMBIE.
Proof.
  intros Hi Hc Ht Ha Hne w1 F w2. split; [exact (zombie_not_queued 0 w c t (pi_threads _ _ Hi) Ht Ha)|]. split; [done|].
  assert (get c (sch (exit_mark c code w)) = Some (set_state THREAD_STATE_ZOMBIE (set_exit_code code t))) as Hg.
  { unfold exit_mark. cbn. by rewrite get_modify, decide_True, Ht. }
  assert (frame (sch (exit_mark c code w)) (sch w1)) as F1.
  { apply frame_schedule. unfold exit_mark. pose proof (get_modify c (λ t, set_state THREAD_STATE_ZOMBIE (set_exit_code code t)) (sch w) Idle) as E.
    rewrite decide_False in E by congruence. injection E as E. cbn. rewrite E. apply Hi. }
  destruct (frame_class _ _ _ _ (frame_trans _ _ _ F1 F) Hg) as (t2 & Ht2 & (_ & _ & _ & _ & Hcl)). exists t2. split; [done|].
  cbn in Hcl. by destruct (state t2).
Qed.
End steps.

(** ** Examples *)

Definition boot_task : task := Task zero_context 0 0 0 16384 THREAD_STATE_RUNNING 1 0 0 0 0 false 20.
Definition boot_idle : task := Task zero_context 0 0 65536 16384 THREAD_STATE_RUNNABLE 0 0 0 0 0 false 20.

Definition boot_sched : sched :=
  Sched (boot_task :: replicate 63 unused_task) boot_idle (Some (Slot 0)) 2 true false [] 0 None None ∅ zero_context 0x1000 0.

Definition boot_world : pworld :=
  PWorld boot_sched (list_to_map ((λ p, (p, empty_process)) <$> seqZ 1 34)) [] 2 0 [] 0 false ∅ ∅ ∅ false.

Lemma boot_processes p : is_Some (processes boot_world !! p) ↔ slot_process p ∨ fixed_process p.
Proof.
  unfold boot_world. cbn [processes]. unfold slot_process, fixed_process, idle_process, kernel_process.
  assert (is_Some (list_to_map (M := gmap Z proc) ((λ p, (p, empty_process)) <$> seqZ 1 34) !! p) ↔ p ∈ seqZ 1 34) as ->.
  { split.
    - intros [P HP]. apply elem_of_list_to_map_2 in HP. apply list_elem_of_fmap in HP as (q & [= -> ->] & Hq). done.
    - intros Hp. exists empty_process. apply elem_of_list_to_map_1.
      + rewrite <- list_fmap_compose. cbn. rewrite list_fmap_id. apply NoDup_seqZ.
      + apply list_elem_of_fmap. by exists p. }
  rewrite elem_of_seqZ. lia.
Qed.

Lemma boot_world_ok : boot_ok boot_world.
Proof.
  split; try done.
  - exists boot_task. done.
  - intros i t Ht. change (replicate 63 unused_task !! i = Some t) in Ht. apply lookup_replicate in Ht as [-> _]. by intros [?|?].
  - apply boot_processes.
Qed.

(** After initialisation and the creation of a process. *)
Definition sample_world : pworld := process_subsystem_init demo_layout 100 200 300000 4096 boot_world.

Lemma sample_create_ok : create_ok 400 sample_world.
Proof.
  split.
  - exists (Slot 0). eexists. split; [reflexivity|]. split; reflexivity.
  - reflexivity.
  - right. by apply (bool_decide_unpack _).
  - done.
Qed.

Definition sample_child : pworld := (process_create (Some [105]) 400 sample_world).2.

#[local] Strategy 1000 [process_subsystem_init process_create].

Lemma sample_step : proc_step demo_layout sample_world sample_child.
Proof. exact (step_create demo_layout [105] 400 sample_world sample_create_ok). Qed.

Lemma sample_tables : 100 = 0 ∨ 100 ≠ 200.
Proof. right. lia. Qed.

Lemma sample_stack : 300000 = 0 ∨ 300000 ∉ live_stacks boot_world.
Proof. right. set_solver. Qed.


Lemma sample_child_inv : proc_inv sample_child.
Proof.
  exact (proc_step_inv demo_layout _ _
    (process_subsystem_init_inv demo_layout 100 200 300000 4096 boot_world boot_world_ok sample_tables sample_stack)
    sample_step).
Qed.

Lemma sample_caller : caller_alive sample_child.
Proof. exists (Slot 0). eexists. vm_compute. repeat split; reflexivity. Qed.

Lemma sample_kernel_listed : kernel_process ∈ process_list sample_child.
Proof. apply (bool_decide_unpack _). vm_compute. exact I. Qed.

(** What the witness needs of the sample world, by evaluation. *)
Lemma sample_entry :
  ∃ P K, processes sample_child !! 1 = Some P ∧ processes sample_child !! kernel_process = Some K ∧
    pstate P = PROCESS_STATE_ACTIVE ∧ pid K = ppid P ∧ handles P = 400.
Proof. do 2 eexists. vm_compute. repeat split; reflexivity. Qed.

Lemma sample_exit_not_own : not_own 1 (process_exit demo_layout 1 42 sample_child).
Proof.
  assert (threads <$> processes (process_exit demo_layout 1 42 sample_child) !! 1 = Some []) as Ht
    by (vm_compute; reflexivity).
  revert Ht. generalize (process_exit demo_layout 1 42 sample_child). intros w Ht P r HP Hr.
  rewrite HP in Ht. injection Ht as Ht. rewrite Ht in Hr. by apply not_elem_of_nil in Hr.
Qed.

(** The process exits and the kernel process waits for it: the exit code 42 comes
    back and the handle table 400 is gone. *)
Lemma exit_then_wait_witness :
  let w1 := process_exit demo_layout 1 42 sample_child in
  400 ∉ live_tables w1 ∧ (process_wait 1 0 (process_exit_condition 1 w1) w1).1 = Some 42.
Proof.
  destruct sample_entry as (P & K & HP & HK & Hst & Hpp & Hh).
  pose proof (exit_then_wait demo_layout sample_child 1 P kernel_process K 42 false sample_child_inv sample_caller HP
    ltac:(unfold slot_process; lia) Hst sample_kernel_listed ltac:(unfold kernel_process; lia) HK Hpp) as H.
  pose proof sample_exit_not_own as Hno. revert H Hno. cbv zeta.
  generalize (process_exit demo_layout 1 42 sample_child). intros w1 H Hno.
  destruct H as (_ & (Hi1 & _ & (P1 & HP1 & E1) & Hl & _) & Hw). injection E1 as E11 E12 _. split.
  - rewrite Hl, Hh. unfold without. rewrite (proj2 (Z.eqb_neq 400 0)) by lia.
    intros [_ Hn]%elem_of_difference. apply Hn. by apply elem_of_singleton.
  - specialize (Hw w1 P1 0 Hi1 Hno HP1 E11). rewrite E12 in Hw. destruct (process_wait 1 0 _ w1) as [r w2]. apply Hw.
Defined.

(** A process that has its own address space creates another one: the child
    gets the same address space, and destroying the child releases the
    address space of its parent, which goes on using it. *)
Lemma child_releases_parents_space :
  let w := (thread_create demo_layout 1 4096 0 500000 sample_child).2 in
  let w := on_sch (with_current (Slot 2)) (on_sch (modify (Slot 2) (set_state THREAD_STATE_RUNNING)) w) in
  let w := (process_exec (Some [97]) 0x5000 (Some 0x400000) (Some 0x7000) w).2 in
  let '(child, w1) := process_create (Some [98]) 600 w in
  (process_get_current w, child, space_of w1 1, space_of w1 child) = (1, 2, 0x5000, 0x5000) ∧
  (let w2 := process_destroy child w1 in
   space_of w2 1 = 0x5000 ∧ bool_decide (0x5000 ∈ live_spaces w2) = false).
Proof. vm_compute. done. Qed.
