(* ===== verification/Mutex.v ===== *)
(** * Sleeping mutex (src/kernel/mutex.c)

    The mutex and the threads that use it, as a transition system: a thread's
    position in [mutex_lock], [mutex_try_lock] or [mutex_unlock] is its program
    counter, and one step is one access to the shared fields outside [wait_lock]
    or one whole section under it (interrupts and preemption are off inside, so
    on the one processor nothing comes in between).  A waiter's stack node is its
    thread identifier in [wait_list]; its [granted] flag is membership in a set,
    and so is the scheduler state BLOCKED that [task_block] and [task_unblock]
    set and clear. *)

From S2P Require Import Prelude.
From Stdlib Require Import ZArith Lia.
From stdpp Require Import gmap.
#[local] Open Scope Z_scope.

(** ** Data *)

Record kos_mutex := Mutex {
  state : Z;
  owner_tid : Z;
  wait_list : list Z;
  waiters_count : Z;
}.

(** Where a thread is.  [Free] and [Held] are outside the functions, without and
    with the lock; [Rejected] is a return from [mutex_lock] without the lock. *)
Inductive counter :=
  | Free | Held | Rejected
  | LockCount | LockCas | LockOwner | LockRecursion | LockActive | LockBoot (spins : Z) | LockSlow | LockWait
  | TryOwner | TryCount | TryCas | TrySetOwner
  | UnlockState | UnlockOwner | UnlockCount | UnlockClearOwner | UnlockClearState | UnlockRecheck
  | UnlockSlow | UnlockSlowReleased.

#[export] Instance counter_eq_dec : EqDecision counter.
Proof. solve_decision. Defined.

Record config := Config {
  mutex : kos_mutex;
  counters : gmap Z counter;
  granted : gset Z;
  blocked : gset Z;           (** [task->state == THREAD_STATE_BLOCKED] *)
  multitasking : bool;        (** [task_is_multitasking_active()] *)
}.

Definition counter_of (t : Z) (c : config) : counter := default Free (counters c !! t).

(** ** Operations *)

Definition mutex_init : kos_mutex := Mutex 0 0 [] 0.

Definition goto (t : Z) (p : counter) (c : config) : config :=
  Config (mutex c) (<[t := p]> (counters c)) (granted c) (blocked c) (multitasking c).
Definition with_mutex (m : kos_mutex) (c : config) : config :=
  Config m (counters c) (granted c) (blocked c) (multitasking c).
Definition with_granted (g : gset Z) (c : config) : config :=
  Config (mutex c) (counters c) g (blocked c) (multitasking c).
Definition with_blocked (b : gset Z) (c : config) : config :=
  Config (mutex c) (counters c) (granted c) b (multitasking c).

(** The scheduler's calls: a BLOCKED task is not picked by [schedule]. *)
Definition task_block (t : Z) (c : config) : config := with_blocked ({[t]} ∪ blocked c) c.
Definition task_unblock (t : Z) (c : config) : config := with_blocked (blocked c ∖ {[t]}) c.

Definition set_state (v : Z) (m : kos_mutex) : kos_mutex :=
  Mutex v (owner_tid m) (wait_list m) (waiters_count m).
Definition set_owner (v : Z) (m : kos_mutex) : kos_mutex :=
  Mutex (state m) v (wait_list m) (waiters_count m).

(** [__atomic_compare_exchange_n(&mutex->state, 0, 1)] and the branch on it. *)
Definition compare_exchange (t : Z) (won lost : counter) (c : config) : config :=
  if state (mutex c) =? 0 then goto t won (with_mutex (set_state 1 (mutex c)) c) else goto t lost c.

(** The section of [mutex_lock] that queues and blocks the caller. *)
Definition lock_slow (t : Z) (c : config) : config :=
  let m := mutex c in
  if (state m =? 0) && bool_decide (wait_list m = []) then
    goto t Held (with_mutex (set_owner t (set_state 1 m)) c)
  else
    goto t LockWait (task_block t (with_granted (granted c ∖ {[t]})
      (with_mutex (Mutex (state m) (owner_tid m) (wait_list m ++ [t]) (u32 (waiters_count m + 1))) c))).

Definition is_first (t : Z) (l : list Z) : bool :=
  match l with [] => true | x :: _ => x =? t end.

Definition decrement (n : Z) : Z := if n >? 0 then n - 1 else n.

(** The section of [mutex_lock] after each [schedule], up to the next one. *)
Definition lock_resume (t : Z) (c : config) : config :=
  let m := mutex c in
  if bool_decide (t ∈ granted c) then goto t Held c
  else if (state m =? 0) && is_first t (wait_list m) then
    goto t Held (with_granted ({[t]} ∪ granted c)
      (with_mutex (Mutex 1 t (filter (λ x, x ≠ t) (wait_list m)) (decrement (waiters_count m))) c))
  else task_block t c.

(** The section of [mutex_unlock] that hands the lock over. *)
Definition unlock_slow (t : Z) (c : config) : config :=
  let m := mutex c in
  match wait_list m with
  | [] => goto t Free (with_mutex (Mutex 0 0 [] 0) c)
  | next :: rest =>
      goto t Free (task_unblock next (with_granted ({[next]} ∪ granted c)
        (with_mutex (Mutex 1 next rest (decrement (waiters_count m))) c)))
  end.

(** One step of thread [t] inside [mutex_lock]. *)
Definition mutex_lock (t : Z) (c : config) : config :=
  let m := mutex c in
  match counter_of t c with
  | LockCount => goto t (if waiters_count m =? 0 then LockCas else LockRecursion) c
  | LockCas => compare_exchange t LockOwner LockRecursion c
  | LockOwner => goto t Held (with_mutex (set_owner t m) c)
  | LockRecursion => goto t (if (owner_tid m =? t) && negb (t =? 0) then Rejected else LockActive) c
  | LockActive => goto t (if multitasking c then LockSlow else LockBoot 10000) c
  | LockBoot spins => compare_exchange t LockOwner (if 0 <? spins then LockBoot (spins - 1) else Rejected) c
  | LockSlow => lock_slow t c
  | LockWait => lock_resume t c
  | _ => c
  end.

(** One step of thread [t] inside [mutex_try_lock]. *)
Definition mutex_try_lock (t : Z) (c : config) : config :=
  let m := mutex c in
  match counter_of t c with
  | TryOwner => goto t (if (owner_tid m =? t) && negb (t =? 0) then Free else TryCount) c
  | TryCount => goto t (if negb (waiters_count m =? 0) then Free else TryCas) c
  | TryCas => compare_exchange t TrySetOwner Free c
  | TrySetOwner => goto t Held (with_mutex (set_owner t m) c)
  | _ => c
  end.

(** One step of thread [t] inside [mutex_unlock]. *)
Definition mutex_unlock (t : Z) (c : config) : config :=
  let m := mutex c in
  match counter_of t c with
  | UnlockState => goto t (if state m =? 0 then Free else UnlockOwner) c
  | UnlockOwner =>
      goto t (if negb (owner_tid m =? t) && negb (owner_tid m =? 0) && negb (t =? 0) then Free else UnlockCount) c
  | UnlockCount => goto t (if waiters_count m =? 0 then UnlockClearOwner else UnlockSlow) c
  | UnlockClearOwner => goto t UnlockClearState (with_mutex (set_owner 0 m) c)
  | UnlockClearState => goto t UnlockRecheck (with_mutex (set_state 0 m) c)
  | UnlockRecheck => goto t (if waiters_count m =? 0 then Free else UnlockSlowReleased) c
  | UnlockSlow | UnlockSlowReleased => unlock_slow t c
  | _ => c
  end.

(** A thread that is BLOCKED is in [schedule] and stays there. *)
Definition run (t : Z) (c : config) : config :=
  if bool_decide (t ∈ blocked c) then c else
  match counter_of t c with
  | Free | Held | Rejected => c
  | TryOwner | TryCount | TryCas | TrySetOwner => mutex_try_lock t c
  | LockCount | LockCas | LockOwner | LockRecursion | LockActive | LockBoot _ | LockSlow | LockWait => mutex_lock t c
  | _ => mutex_unlock t c
  end.

(** The calls: a thread without the lock locks or tries to, the holder unlocks.
    Other kernel code may call [task_unblock] on any thread, and the boot thread,
    whose identifier is 1, starts multitasking ([task_initialize]). *)
Inductive action :=
  | CallLock (t : Z) | CallTryLock (t : Z) | CallUnlock (t : Z) | Run (t : Z)
  | Wake (waker t : Z) | Activate.

Definition actor (a : action) : Z :=
  match a with
  | CallLock t | CallTryLock t | CallUnlock t | Run t | Wake t _ => t
  | Activate => 1
  end.

Definition act (a : action) (c : config) : config :=
  match a with
  | CallLock t => if bool_decide (counter_of t c = Free) then goto t LockCount c else c
  | CallTryLock t => if bool_decide (counter_of t c = Free) then goto t TryOwner c else c
  | CallUnlock t => if bool_decide (counter_of t c = Held) then goto t UnlockState c else c
  | Run t => run t c
  | Wake _ t => task_unblock t c
  | Activate => Config (mutex c) (counters c) (granted c) (blocked c) true
  end.

Definition mutex_is_locked (m : kos_mutex) : bool := negb (state m =? 0).
Definition mutex_get_owner (m : kos_mutex) : Z := owner_tid m.
Definition mutex_waiters_count (m : kos_mutex) : Z := waiters_count m.
