(* ===== verification/MutexSpec.v ===== *)
(** * What the mutex guarantees (src/kernel/mutex.c)

    Mutual exclusion and a consistent wait queue, for the runs in which
    [mutex_unlock] is not interrupted between the store that frees the mutex and
    its end; and a run with such an interruption in which two threads hold the
    mutex. *)

From Stdlib Require Import ZArith Lia.
From stdpp Require Import gmap.
From S2P Require Import Prelude Mutex.
#[local] Open Scope Z_scope.

Implicit Types c : config.
Implicit Types t : Z.

(** ** Owners *)

(** Positions at which a thread owns the mutex. *)
Definition owning (p : counter) : bool :=
  match p with
  | Held | LockOwner | TrySetOwner
  | UnlockState | UnlockOwner | UnlockCount | UnlockClearOwner | UnlockClearState | UnlockSlow => true
  | _ => false
  end.

(** The tail of [mutex_unlock], after the mutex was freed. *)
Definition releasing (p : counter) : bool :=
  match p with UnlockRecheck | UnlockSlowReleased => true | _ => false end.

(** A thread owns the mutex, or has been granted it while it waits. *)
Definition holds t c : Prop :=
  owning (counter_of t c) = true ∨ (counter_of t c = LockWait ∧ t ∈ granted c).

(** Positions at which the owner has not yet stored, or has cleared, its name. *)
Definition unnamed (p : counter) : bool :=
  match p with LockOwner | TrySetOwner | UnlockClearState => true | _ => false end.

Definition tid_ok t : Prop := 0 < t < 4294967296.

(** Positions the boot thread is at before multitasking starts. *)
Definition uncontended (p : counter) : bool :=
  match p with
  | Rejected | LockRecursion | LockActive | LockBoot _ | LockSlow | LockWait => false
  | _ => true
  end.

Record mutex_inv (h : option Z) c : Prop := {
  mi_boot : multitasking c = false → ∀ t, counter_of t c ≠ Free → t = 1 ∧ uncontended (counter_of t c) = true;
  mi_holder t : holds t c ↔ h = Some t;
  mi_state : state (mutex c) = match h with Some _ => 1 | None => 0 end;
  mi_owner : owner_tid (mutex c) =
    match h with Some t => if unnamed (counter_of t c) then 0 else t | None => 0 end;
  mi_nodup : NoDup (wait_list (mutex c));
  mi_waiting t : t ∈ wait_list (mutex c) ↔ counter_of t c = LockWait ∧ t ∉ granted c;
  mi_count : waiters_count (mutex c) = Z.of_nat (length (wait_list (mutex c)));
  mi_tids t : counter_of t c ≠ Free → tid_ok t;
  mi_window t : releasing (counter_of t c) = true → h = None;
  mi_released t : counter_of t c = UnlockSlowReleased → wait_list (mutex c) ≠ [];
  mi_queue : wait_list (mutex c) ≠ [] → h = None → ∃ t, releasing (counter_of t c) = true;
  mi_lawful t : counter_of t c ≠ Rejected ∧ ∀ n, counter_of t c ≠ LockBoot n;
  mi_blocked t : t ∈ blocked c → counter_of t c = LockWait ∧ t ∉ granted c;
}.

(** A step in a run without interruption of a release: when some thread is in
    the tail of [mutex_unlock], it is the one that moves.  Before multitasking
    starts only the boot thread runs. *)
Definition undisturbed (a : action) c : Prop :=
  tid_ok (actor a) ∧ (∀ t, releasing (counter_of t c) = true → t = actor a) ∧
  (multitasking c = false → actor a = 1).

Lemma counter_of_goto t p c t' :
  counter_of t' (goto t p c) = if decide (t' = t) then p else counter_of t' c.
Proof.
  unfold counter_of, goto. simpl. destruct (decide (t' = t)) as [->|Hne].
  - by rewrite lookup_insert_eq.
  - by rewrite lookup_insert_ne.
Qed.

(** One more waiter fits into the 32-bit counter. *)
Lemma waiters_bound h c t :
  mutex_inv h c → tid_ok t → t ∉ wait_list (mutex c) → Z.of_nat (length (wait_list (mutex c))) + 1 < 4294967296.
Proof.
  intros Hi Ht Hn. assert (length (t :: wait_list (mutex c)) ≤ length (seqZ 1 4294967295))%nat as Hl.
  { apply submseteq_length, NoDup_submseteq; [constructor; [done|apply (mi_nodup _ _ Hi)]|].
    intros x [->|Hx]%elem_of_cons; apply elem_of_seqZ; [unfold tid_ok in Ht; lia|].
    apply (mi_waiting _ _ Hi) in Hx as [Hx _]. destruct (mi_tids _ _ Hi x); [by rewrite Hx|lia]. }
  rewrite length_seqZ in Hl. simpl in Hl. lia.
Qed.

(** ** Moves that leave the mutex alone *)

Lemma holds_goto t p c t' :
  holds t' (goto t p c) ↔
  if decide (t' = t) then owning p = true ∨ (p = LockWait ∧ t ∈ granted c) else holds t' c.
Proof. unfold holds. rewrite counter_of_goto. by destruct (decide (t' = t)) as [->|]. Qed.

(** A move between positions that neither acquires nor waits nor releases. *)
Definition plain (p : counter) : bool :=
  match p with
  | LockWait | Rejected | LockBoot _ | UnlockRecheck | UnlockSlowReleased => false
  | _ => true
  end.

Lemma inv_goto h c t p :
  mutex_inv h c → tid_ok t → plain p = true → plain (counter_of t c) = true →
  owning p = owning (counter_of t c) → unnamed p = unnamed (counter_of t c) →
  (multitasking c = false → t = 1 ∧ uncontended p = true) → mutex_inv h (goto t p c).
Proof.
  intros [H1 H2 H3 H4 H5 H6 H7 H8 H9 H10 H11 H12 H13] Ht Hp Hq Eo Eu Hb.
  assert (Hnw : p ≠ LockWait ∧ counter_of t c ≠ LockWait) by (by destruct p, (counter_of t c)).
  assert (Hnr : releasing p = false ∧ releasing (counter_of t c) = false) by (by destruct p, (counter_of t c)).
  destruct Hnw as [Hp1 Hq1], Hnr as [Hp2 Hq2].
  split; try done.
  - intros Hm t'. rewrite counter_of_goto. destruct (decide (t' = t)) as [->|]; [by intros _; apply Hb|by apply H1].
  - intros t'. rewrite holds_goto, <- H2. destruct (decide (t' = t)) as [->|]; [|done].
    unfold holds. rewrite Eo. tauto.
  - simpl. rewrite H4. destruct h as [t'|]; [|done]. rewrite counter_of_goto.
    destruct (decide (t' = t)) as [->|]; [by rewrite Eu|done].
  - intros t'. simpl. rewrite H6, counter_of_goto. destruct (decide (t' = t)) as [->|]; [tauto|done].
  - intros t'. rewrite counter_of_goto. destruct (decide (t' = t)) as [->|]; [done|apply H8].
  - intros t'. rewrite counter_of_goto. destruct (decide (t' = t)) as [->|]; [congruence|apply H9].
  - intros t'. rewrite counter_of_goto. destruct (decide (t' = t)) as [->|]; [by intros ->|apply H10].
  - intros Hl Hh. destruct (H11 Hl Hh) as [t' Ht']. exists t'. rewrite counter_of_goto.
    destruct (decide (t' = t)) as [->|]; [congruence|done].
  - intros t'. rewrite counter_of_goto. destruct (decide (t' = t)) as [->|]; [|apply H12].
    by destruct p.
  - intros t' Ht'. rewrite counter_of_goto. destruct (decide (t' = t)) as [->|]; [|by apply H13].
    by apply H13 in Ht' as [? _].
Qed.

(** ** Acquiring, naming, releasing *)

(** The mutex after a section that only [t] and the thread it grants notice. *)
Lemma inv_change h h' c t p m g b :
  mutex_inv h c → tid_ok t →
  (∀ t', t' ≠ t → (owning (counter_of t' c) = true ∨ (counter_of t' c = LockWait ∧ t' ∈ g)) ↔ h' = Some t') →
  (owning p = true ∨ (p = LockWait ∧ t ∈ g) ↔ h' = Some t) →
  state m = match h' with Some _ => 1 | None => 0 end →
  owner_tid m = match h' with
                | Some t' => if unnamed (if decide (t' = t) then p else counter_of t' c) then 0 else t'
                | None => 0
                end →
  NoDup (wait_list m) →
  (∀ t', t' ≠ t → t' ∈ wait_list m ↔ counter_of t' c = LockWait ∧ t' ∉ g) →
  (t ∈ wait_list m ↔ p = LockWait ∧ t ∉ g) →
  waiters_count m = Z.of_nat (length (wait_list m)) →
  (∀ t', releasing (counter_of t' c) = true → t' = t) →
  (releasing p = true → h' = None) → (p = UnlockSlowReleased → wait_list m ≠ []) →
  (wait_list m ≠ [] → h' = None → releasing p = true) →
  p ≠ Rejected → (∀ n, p ≠ LockBoot n) →
  (multitasking c = false → t = 1 ∧ uncontended p = true) →
  (∀ t', t' ≠ t → t' ∈ b → t' ∈ blocked c ∧ t' ∉ g) → (t ∈ b → p = LockWait ∧ t ∉ g) →
  mutex_inv h' (goto t p (with_blocked b (with_granted g (with_mutex m c)))).
Proof.
  intros [H1 H2 H3 H4 H5 H6 H7 H8 H9 H10 H11 H12 H13] Ht P1 P2 P3 P4 P5 P6 P7 P8 P9 P10 P11 P12 P13 P14 P15 P16 P17.
  assert (Hc : ∀ t', counter_of t' (goto t p (with_blocked b (with_granted g (with_mutex m c))))
    = if decide (t' = t) then p else counter_of t' c) by (intros; by rewrite counter_of_goto).
  split; try done.
  - intros Hm t'. rewrite Hc. destruct (decide (t' = t)) as [->|]; [by intros _; apply P15|by apply H1].
  - intros t'. unfold holds. rewrite Hc. destruct (decide (t' = t)) as [->|]; [apply P2|by apply P1].
  - simpl. rewrite P4. destruct h' as [t'|]; [|done]. by rewrite Hc.
  - intros t'. simpl. rewrite Hc. destruct (decide (t' = t)) as [->|]; [apply P7|by apply P6].
  - intros t'. rewrite Hc. destruct (decide (t' = t)) as [->|]; [done|apply H8].
  - intros t'. rewrite Hc. destruct (decide (t' = t)) as [->|Hne]; [done|by intros ?%P9].
  - intros t'. rewrite Hc. destruct (decide (t' = t)) as [->|Hne]; [done|].
    intros Hr. destruct Hne. apply P9. by rewrite Hr.
  - intros Hl Hh. exists t. rewrite Hc, decide_True by done. by apply P12.
  - intros t'. rewrite Hc. destruct (decide (t' = t)) as [->|]; [done|apply H12].
  - intros t' Ht'. rewrite Hc. simpl in Ht' |- *. destruct (decide (t' = t)) as [->|Hne]; [by apply P17|].
    destruct (P16 t' Hne Ht') as [Hbl ?]. split; [by apply H13|done].
Qed.

(** Before multitasking starts, a thread that is not an owner finds the mutex
    free and nobody waiting. *)
Lemma boot_free h c t :
  mutex_inv h c → multitasking c = false → counter_of t c ≠ Free → owning (counter_of t c) = false →
  h = None ∧ wait_list (mutex c) = [].
Proof.
  intros Hi Hm Hf Ho. pose proof (mi_boot _ _ Hi Hm) as Hb. destruct (Hb t Hf) as [Ht Hu].
  assert (∀ t', counter_of t' c ≠ Free → t' = t) as Hone by (intros t' [-> _]%Hb; congruence).
  split.
  - destruct h as [t0|]; [exfalso|done]. assert (holds t0 c) as Hh by (by apply (mi_holder _ _ Hi)).
    assert (t0 = t) as -> by (apply Hone; destruct Hh as [Hh|[Hh _]]; intros E; by rewrite E in Hh).
    destruct Hh as [Hh|[Hh _]]; [congruence|by rewrite Hh in Hu].
  - destruct (wait_list (mutex c)) as [|w l] eqn:El; [done|exfalso].
    assert (w ∈ wait_list (mutex c)) as Hw by (rewrite El; left). apply (mi_waiting _ _ Hi) in Hw as [Hw _].
    assert (w = t) as -> by (apply Hone; by rewrite Hw). by rewrite Hw in Hu.
Qed.

(** A thread whose position is not that of a waiter is not blocked. *)
Lemma not_blocked h c t : mutex_inv h c → counter_of t c ≠ LockWait → t ∉ blocked c.
Proof. intros Hi Hn Hb. by apply (mi_blocked _ _ Hi) in Hb as [? _]. Qed.

(** ** The sections *)

(** A thread that is neither releasing nor disturbed sees a free mutex only
    with an empty queue. *)
Lemma free_queue_empty h c t :
  mutex_inv h c → (∀ t', releasing (counter_of t' c) = true → t' = t) → releasing (counter_of t c) = false →
  h = None → wait_list (mutex c) = [].
Proof.
  intros Hi Hu Hr Hh. destruct (decide (wait_list (mutex c) = [])) as [|Hl]; [done|].
  destruct (mi_queue _ _ Hi Hl Hh) as [t' Ht']. pose proof (Hu t' Ht') as ->. congruence.
Qed.

Lemma holder_counter h c t : mutex_inv h c → owning (counter_of t c) = true → h = Some t.
Proof. intros Hi Ho. apply (mi_holder _ _ Hi). by left. Qed.

Lemma compare_exchange_inv h c t won lost :
  mutex_inv h c → undisturbed (Run t) c → plain (counter_of t c) = true → owning (counter_of t c) = false →
  owning won = true → unnamed won = true → plain won = true →
  owning lost = false → unnamed lost = false → plain lost = true → counter_of t c ≠ Free →
  ∃ h', mutex_inv h' (compare_exchange t won lost c).
Proof.
  intros Hi (Ht & Hu & Hb) Hq Ho W1 W2 W3 L1 L2 L3 Hf. simpl in Ht, Hu, Hb. unfold compare_exchange.
  assert (Huq : unnamed (counter_of t c) = false) by (by destruct (counter_of t c)).
  assert (Hrq : releasing (counter_of t c) = false) by (by destruct (counter_of t c)).
  assert (Hwq : counter_of t c ≠ LockWait) by (by destruct (counter_of t c)).
  rewrite (mi_state _ _ Hi). destruct h as [t0|]; cbn [Z.eqb].
  - exists (Some t0). apply inv_goto; try done; [congruence..|].
    intros Hm. by destruct (boot_free _ _ t Hi Hm Hf Ho).
  - exists (Some t). pose proof (free_queue_empty None c t Hi Hu Hrq eq_refl) as Hl.
    apply (inv_change None (Some t) c t won (set_state 1 (mutex c)) (granted c) (blocked c)); try done; simpl.
    + intros t' Hne. split; [|congruence]. intros Hh. apply (mi_holder _ _ Hi) in Hh. done.
    + tauto.
    + rewrite decide_True, W2 by done. apply (mi_owner _ _ Hi).
    + apply (mi_nodup _ _ Hi).
    + intros t' _. apply (mi_waiting _ _ Hi).
    + rewrite Hl. split; [by intros ?%not_elem_of_nil|]. intros [-> _]. done.
    + apply (mi_count _ _ Hi).
    + by destruct won.
    + by intros ->.
    + by intros ->.
    + intros n ->. done.
    + intros Hm. split; [by apply Hb|by destruct won].
    + intros t' _ Hbl. split; [done|by apply (mi_blocked _ _ Hi)].
    + intros Hbl. by apply (not_blocked _ _ t Hi) in Hbl.
Qed.

Lemma set_owner_inv h c t p v :
  mutex_inv h c → undisturbed (Run t) c → plain (counter_of t c) = true → owning (counter_of t c) = true →
  owning p = true → plain p = true → v = (if unnamed p then 0 else t) →
  mutex_inv h (goto t p (with_mutex (set_owner v (mutex c)) c)).
Proof.
  intros Hi (Ht & Hu & Hb) Hq Ho P1 P2 ->. simpl in Ht, Hu, Hb. pose proof (holder_counter h c t Hi Ho) as ->.
  assert (counter_of t c ≠ LockWait ∧ p ≠ LockWait) as [Hwq Hwp] by (by destruct (counter_of t c), p).
  apply (inv_change (Some t) (Some t) c t p (set_owner _ (mutex c)) (granted c) (blocked c)); try done; simpl.
  - intros t' Hne. apply (mi_holder _ _ Hi).
  - tauto.
  - apply (mi_state _ _ Hi).
  - by rewrite decide_True.
  - apply (mi_nodup _ _ Hi).
  - intros t' _. apply (mi_waiting _ _ Hi).
  - rewrite (mi_waiting _ _ Hi). tauto.
  - apply (mi_count _ _ Hi).
  - by destruct p.
  - by intros ->.
  - by intros ->.
  - intros n ->. done.
  - intros Hm. split; [by apply Hb|by destruct p].
  - intros t' _ Hbl. split; [done|by apply (mi_blocked _ _ Hi)].
  - intros Hbl. by apply (not_blocked _ _ t Hi) in Hbl.
Qed.

Lemma lock_slow_inv h c t :
  mutex_inv h c → undisturbed (Run t) c → counter_of t c = LockSlow → ∃ h', mutex_inv h' (lock_slow t c).
Proof.
  intros Hi (Ht & Hu & Hb) Hq. simpl in Ht, Hu, Hb. unfold lock_slow. rewrite (mi_state _ _ Hi).
  assert (Hnt : h ≠ Some t).
  { intros Hh. apply (mi_holder _ _ Hi) in Hh. destruct Hh as [Hh|[Hh _]]; by rewrite Hq in Hh. }
  assert (Hrq : releasing (counter_of t c) = false) by (by rewrite Hq).
  assert (multitasking c = false → False) as Hact.
  { intros Hm. destruct (mi_boot _ _ Hi Hm t) as [_ Hx]; [|]; by rewrite Hq in *. }
  destruct h as [t0|]; cbn [Z.eqb andb].
  - exists (Some t0). pose proof (mi_count _ _ Hi) as Hcnt.
    assert (t ∉ wait_list (mutex c)) as Hnl by (rewrite (mi_waiting _ _ Hi), Hq; by intros [? _]).
    apply (inv_change (Some t0) (Some t0) c t LockWait _ (granted c ∖ {[t]}) ({[t]} ∪ blocked c)); try done; simpl.
    + intros t' Hne. rewrite <- (mi_holder _ _ Hi). unfold holds. set_solver.
    + split; [|congruence]. intros [?|[_ ?]]; [done|set_solver].
    + rewrite decide_False by congruence. apply (mi_owner _ _ Hi).
    + apply NoDup_app. split_and!; [apply (mi_nodup _ _ Hi)| |apply NoDup_singleton]. set_solver.
    + intros t' Hne. rewrite elem_of_app, (mi_waiting _ _ Hi). set_solver.
    + set_solver.
    + rewrite length_app, Hcnt. pose proof (waiters_bound _ _ t Hi Ht Hnl). rewrite u32_small by (split; lia). simpl. lia.
    + intros t' Hne [?%elem_of_singleton|Hbl]%elem_of_union; [done|]. split; [done|].
      apply (mi_blocked _ _ Hi) in Hbl as [_ ?]. set_solver.
    + intros _. set_solver.
  - rewrite (free_queue_empty None c t Hi Hu Hrq eq_refl), bool_decide_true by done. exists (Some t).
    apply (inv_change None (Some t) c t Held _ (granted c) (blocked c)); try done; simpl.
    + intros t' Hne. split; [|congruence]. intros Hh. apply (mi_holder _ _ Hi) in Hh. done.
    + tauto.
    + by rewrite decide_True.
    + apply (mi_nodup _ _ Hi).
    + intros t' _. apply (mi_waiting _ _ Hi).
    + rewrite (mi_waiting _ _ Hi), Hq. split; by intros [? _].
    + apply (mi_count _ _ Hi).
    + intros t' _ Hbl. split; [done|by apply (mi_blocked _ _ Hi)].
    + intros Hbl. apply (mi_blocked _ _ Hi) in Hbl as [Hbl _]. by rewrite Hq in Hbl.
Qed.

(** A waiter that was woken for nothing blocks again. *)
Lemma block_keeps_inv h c t :
  mutex_inv h c → counter_of t c = LockWait → t ∉ granted c → mutex_inv h (task_block t c).
Proof.
  intros [H1 H2 H3 H4 H5 H6 H7 H8 H9 H10 H11 H12 H13] Hq Hg. split; try done.
  intros t' [->%elem_of_singleton|Hbl]%elem_of_union; [done|by apply H13].
Qed.

Lemma unblock_keeps_inv h c t : mutex_inv h c → mutex_inv h (task_unblock t c).
Proof.
  intros [H1 H2 H3 H4 H5 H6 H7 H8 H9 H10 H11 H12 H13]. split; try done.
  intros t' [Hbl _]%elem_of_difference. by apply H13.
Qed.

Lemma lock_resume_inv h c t :
  mutex_inv h c → undisturbed (Run t) c → counter_of t c = LockWait → t ∉ blocked c → mutex_inv h (lock_resume t c).
Proof.
  intros Hi (Ht & Hu & Hb) Hq Hbk. simpl in Ht, Hu, Hb. unfold lock_resume. case_bool_decide as Hg.
  - assert (h = Some t) as -> by (apply (mi_holder _ _ Hi); by right).
    apply (inv_change (Some t) (Some t) c t Held (mutex c) (granted c) (blocked c)); try done; simpl.
    + intros t' _. apply (mi_holder _ _ Hi).
    + tauto.
    + apply (mi_state _ _ Hi).
    + rewrite decide_True by done. rewrite (mi_owner _ _ Hi), Hq. done.
    + apply (mi_nodup _ _ Hi).
    + intros t' _. apply (mi_waiting _ _ Hi).
    + rewrite (mi_waiting _ _ Hi), Hq. split; [tauto|by intros [? _]].
    + apply (mi_count _ _ Hi).
    + intros Hm. destruct (mi_boot _ _ Hi Hm t) as [_ Hx]; by rewrite Hq in *.
    + intros t' _ Hbl. split; [done|by apply (mi_blocked _ _ Hi)].
  - rewrite (mi_state _ _ Hi). destruct h as [t0|]; cbn [Z.eqb andb]; [by apply block_keeps_inv|].
    assert (t ∈ wait_list (mutex c)) as Hl by (by apply (mi_waiting _ _ Hi)).
    rewrite (free_queue_empty None c t Hi Hu) in Hl; [by apply not_elem_of_nil in Hl|by rewrite Hq|done].
Qed.

Lemma unlock_slow_inv h c t :
  mutex_inv h c → undisturbed (Run t) c → counter_of t c = UnlockSlow ∨ counter_of t c = UnlockSlowReleased →
  ∃ h', mutex_inv h' (unlock_slow t c) ∧ h' = match wait_list (mutex c) with [] => None | next :: _ => Some next end.
Proof.
  intros Hi (Ht & Hu & Hb) Hq. simpl in Ht, Hu, Hb. unfold unlock_slow.
  assert (Hoth : ∀ t', t' ≠ t → ¬ holds t' c).
  { intros t' Hne Hh. destruct Hq as [Hq|Hq].
    - assert (holds t c) as Hh' by (left; by rewrite Hq). apply (mi_holder _ _ Hi) in Hh, Hh'. congruence.
    - assert (h = None) as -> by (apply (mi_window _ _ Hi t); by rewrite Hq).
      by apply (mi_holder _ _ Hi) in Hh. }
  assert (Hwq : counter_of t c ≠ LockWait) by (destruct Hq; congruence).
  pose proof (mi_nodup _ _ Hi) as Hnd. pose proof (mi_waiting _ _ Hi) as Hw. pose proof (mi_count _ _ Hi) as Hcnt.
  destruct (wait_list (mutex c)) as [|next rest] eqn:El; eexists; (split; [|done]).
  - apply (inv_change h None c t Free _ (granted c) (blocked c)); try done; simpl.
    + intros t' Hne. split; [|done]. intros Hh. by destruct (Hoth t' Hne).
    + split; [|done]. by intros [?|[? _]].
    + split; [by intros ?%not_elem_of_nil|by intros [? _]].
    + auto.
    + intros t' _ Hbl. split; [done|by apply (mi_blocked _ _ Hi)].
    + intros Hbl. by apply (not_blocked _ _ t Hi) in Hbl.
  - assert (next ≠ t ∧ counter_of next c = LockWait) as [Hnt Hnw].
    { assert (next ∈ next :: rest) as Hin by left. apply Hw in Hin as [Hin _]. split; [|done].
      intros ->. done. }
    apply NoDup_cons in Hnd as [Hnr Hnd].
    apply (inv_change h (Some next) c t Free _ ({[next]} ∪ granted c) (blocked c ∖ {[next]})); try done; simpl.
    + intros t' Hne. split.
      * intros [Ho|[Hlw Hg]]; [by destruct (Hoth t' Hne); left|].
        apply elem_of_union in Hg as [?%elem_of_singleton|Hg]; [congruence|].
        by destruct (Hoth t' Hne); right.
      * intros [= <-]. right. set_solver.
    + split; [by intros [?|[? _]]|congruence].
    + rewrite decide_False by done. by rewrite Hnw.
    + intros t' Hne. specialize (Hw t'). rewrite elem_of_cons in Hw. split.
      * intros Hin. destruct (proj1 Hw (or_intror Hin)) as [? ?]. split; [done|].
        rewrite elem_of_union, elem_of_singleton. intros [->|?]; done.
      * intros [? Hg]. rewrite elem_of_union, elem_of_singleton in Hg.
        destruct (proj2 Hw) as [->|?]; [split; [done|tauto]|tauto|done].
    + split; [|by intros [? _]]. intros Hin. destruct (Hw t) as [Hw1 _]. destruct Hw1 as [? _]; [by right|done].
    + rewrite Hcnt. unfold decrement. simpl. zcase; lia.
    + auto.
    + intros t' _ [Hbl Hn]%elem_of_difference. split; [done|].
      apply (mi_blocked _ _ Hi) in Hbl as [_ ?]. by intros [?|?]%elem_of_union.
    + intros [Hbl _]%elem_of_difference. by apply (not_blocked _ _ t Hi) in Hbl.
Qed.

(** ** Steps *)

Lemma plain_step t c h p :
  mutex_inv h c → undisturbed (Run t) c → plain (counter_of t c) = true → plain p = true →
  owning p = owning (counter_of t c) → unnamed p = unnamed (counter_of t c) →
  (multitasking c = false → uncontended p = true) →
  ∃ h', mutex_inv h' (goto t p c).
Proof. intros Hi (Ht & _ & Hb) ? ? ? ? Hu. exists h. apply inv_goto; auto. Qed.

(** The last store of the fast release, and the look at [waiters_count] after it. *)
Lemma clear_state_inv c t :
  mutex_inv (Some t) c → undisturbed (Run t) c → counter_of t c = UnlockClearState →
  mutex_inv None (goto t UnlockRecheck (with_mutex (set_state 0 (mutex c)) c)).
Proof.
  intros Hi (Ht & Hu & Hb) E. simpl in Ht, Hu, Hb.
  apply (inv_change (Some t) None c t UnlockRecheck (set_state 0 (mutex c)) (granted c) (blocked c)); try done; simpl.
  - intros t' Hne. split; [|done]. intros Hh. apply (mi_holder _ _ Hi) in Hh. congruence.
  - split; [|done]. by intros [?|[? _]].
  - rewrite (mi_owner _ _ Hi), E. done.
  - apply (mi_nodup _ _ Hi).
  - intros t' _. apply (mi_waiting _ _ Hi).
  - rewrite (mi_waiting _ _ Hi), E. split; by intros [? _].
  - apply (mi_count _ _ Hi).
  - auto.
  - intros t' _ Hbl. split; [done|by apply (mi_blocked _ _ Hi)].
  - intros Hbl. apply (not_blocked _ _ t Hi) in Hbl; [done|by rewrite E].
Qed.

Lemma recheck_inv c t p :
  mutex_inv None c → undisturbed (Run t) c → counter_of t c = UnlockRecheck →
  p = Free ∧ wait_list (mutex c) = [] ∨ p = UnlockSlowReleased ∧ wait_list (mutex c) ≠ [] →
  mutex_inv None (goto t p c).
Proof.
  intros Hi (Ht & Hu & Hb) E Hp. simpl in Ht, Hu, Hb.
  assert (owning p = false ∧ p ≠ LockWait ∧ uncontended p = true) as (Hp1 & Hp2 & Hp3)
    by (destruct Hp as [[-> _]|[-> _]]; done).
  apply (inv_change None None c t p (mutex c) (granted c) (blocked c)); try done; simpl.
  - intros t' _. apply (mi_holder _ _ Hi).
  - rewrite Hp1. split; [by intros [?|[? _]]|done].
  - apply (mi_state _ _ Hi).
  - apply (mi_owner _ _ Hi).
  - apply (mi_nodup _ _ Hi).
  - intros t' _. apply (mi_waiting _ _ Hi).
  - rewrite (mi_waiting _ _ Hi), E. split; by intros [? _].
  - apply (mi_count _ _ Hi).
  - by destruct Hp as [[-> ?]|[-> ?]].
  - by destruct Hp as [[-> ?]|[-> ?]].
  - by intros ->.
  - intros n ->. done.
  - auto.
  - intros t' _ Hbl. split; [done|by apply (mi_blocked _ _ Hi)].
  - intros Hbl. apply (not_blocked _ _ t Hi) in Hbl; [done|by rewrite E].
Qed.

(** The owner never finds its own name in [mutex_lock]. *)
Lemma no_recursion h c t :
  mutex_inv h c → tid_ok t → owning (counter_of t c) = false → counter_of t c ≠ LockWait →
  owner_tid (mutex c) ≠ t.
Proof.
  intros Hi Ht Ho Hw Eo. rewrite (mi_owner _ _ Hi) in Eo. destruct h as [t0|]; [|unfold tid_ok in Ht; lia].
  destruct (unnamed (counter_of t0 c)); [unfold tid_ok in Ht; lia|]. subst t0.
  assert (holds t c) as [Hh|[Hh _]] by (by apply (mi_holder _ _ Hi)); congruence.
Qed.

Lemma mutex_lock_inv h c t :
  mutex_inv h c → undisturbed (Run t) c → t ∉ blocked c → ∃ h', mutex_inv h' (mutex_lock t c).
Proof.
  intros Hi Hu Hbk. pose proof Hu as (Ht & _ & Hb). simpl in Ht, Hb. unfold mutex_lock.
  destruct (mi_lawful _ _ Hi t) as [Hnr Hnb].
  assert (multitasking c = false → uncontended (counter_of t c) = true) as Hun.
  { intros Hm. destruct (decide (counter_of t c = Free)) as [->|Hf]; [done|by apply (mi_boot _ _ Hi Hm t)]. }
  destruct (counter_of t c) as [| | | | | | | |n| | | | | | | | | | | | | |] eqn:E; try (by exists h); try done.
  - apply (plain_step t c h); rewrite ?E; try done; [by destruct (_ =? 0)..|]. intros Hm.
    destruct (boot_free h c t Hi Hm) as [_ Hl]; [by rewrite E..|]. by rewrite (mi_count _ _ Hi), Hl.
  - apply (compare_exchange_inv h); rewrite ?E; done.
  - exists h. apply set_owner_inv; rewrite ?E; done.
  - rewrite (proj2 (Z.eqb_neq _ _)) by (apply (no_recursion h c t Hi Ht); by rewrite E). cbn [andb].
    apply (plain_step t c h); rewrite ?E; done.
  - destruct (multitasking c) eqn:Em; [|by specialize (Hun eq_refl)].
    apply (plain_step t c h); rewrite ?E, ?Em; done.
  - by destruct (Hnb n).
  - by apply (lock_slow_inv h).
  - exists h. by apply lock_resume_inv.
Qed.

Lemma mutex_try_lock_inv h c t :
  mutex_inv h c → undisturbed (Run t) c → ∃ h', mutex_inv h' (mutex_try_lock t c).
Proof.
  intros Hi Hu. unfold mutex_try_lock. destruct (counter_of t c) eqn:E; try (by exists h).
  - apply (plain_step t c h); rewrite ?E; try done; by destruct (_ && _).
  - apply (plain_step t c h); rewrite ?E; try done; by destruct (negb _).
  - apply (compare_exchange_inv h); rewrite ?E; done.
  - exists h. apply set_owner_inv; rewrite ?E; done.
Qed.

Lemma mutex_unlock_inv h c t :
  mutex_inv h c → undisturbed (Run t) c → ∃ h', mutex_inv h' (mutex_unlock t c).
Proof.
  intros Hi Hu. unfold mutex_unlock. pose proof (holder_counter h c t Hi) as Hh.
  destruct (counter_of t c) eqn:E; try (by exists h).
  - rewrite (mi_state _ _ Hi), (Hh eq_refl). by apply (plain_step t c h); rewrite ?E.
  - specialize (Hh eq_refl). subst h.
    rewrite (mi_owner _ _ Hi), E. cbn [unnamed]. rewrite Z.eqb_refl. by apply (plain_step t c (Some t)); rewrite ?E.
  - apply (plain_step t c h); rewrite ?E; try done; by destruct (_ =? 0).
  - exists h. apply set_owner_inv; rewrite ?E; done.
  - specialize (Hh eq_refl). subst h. exists None. by apply clear_state_inv.
  - assert (h = None) as -> by (apply (mi_window _ _ Hi t); by rewrite E). exists None.
    pose proof (mi_count _ _ Hi) as Hcnt. destruct (Z.eqb_spec (waiters_count (mutex c)) 0) as [H0|H0];
      apply recheck_inv; try done; [left|right]; (split; [done|]).
    + apply nil_length_inv. lia.
    + intros Hl. rewrite Hl in Hcnt. done.
  - destruct (unlock_slow_inv h c t Hi Hu) as (h' & ? & _); [by left|by exists h'].
  - destruct (unlock_slow_inv h c t Hi Hu) as (h' & ? & _); [by right|by exists h'].
Qed.

Lemma act_inv h c a : mutex_inv h c → undisturbed a c → ∃ h', mutex_inv h' (act a c).
Proof.
  intros Hi Hu. assert (undisturbed (Run (actor a)) c) as Hu' by done.
  destruct a as [t|t|t|t|w t|]; simpl in Hu'; cbn [act].
  1-3: (case_bool_decide as E; [|by exists h]); by apply (plain_step t c h); rewrite ?E.
  - unfold run. case_bool_decide; [by exists h|].
    destruct (counter_of t c); solve [by exists h|by apply (mutex_lock_inv h)|by apply (mutex_try_lock_inv h)
      |by apply (mutex_unlock_inv h)].
  - exists h. by apply unblock_keeps_inv.
  - exists h. destruct Hi. by split.
Qed.

(** ** Runs *)

(** A fresh mutex, before or after multitasking has started. *)
Definition idle_mutex (active : bool) : config := Config mutex_init ∅ ∅ ∅ active.

Definition quiet_step c c' : Prop := ∃ a, undisturbed a c ∧ c' = act a c.

Lemma idle_inv active : mutex_inv None (idle_mutex active).
Proof.
  assert (∀ t, counter_of t (idle_mutex active) = Free) as Hc by done.
  split; try done.
  - intros t. unfold holds. rewrite Hc. split; [|done]. by intros [?|[? _]].
  - constructor.
  - intros t. rewrite Hc. split; [by intros ?%not_elem_of_nil|by intros [? _]].
Qed.

Lemma quiet_run_inv active c : rtc quiet_step (idle_mutex active) c → ∃ h, mutex_inv h c.
Proof.
  intros Hrun. assert (∀ x y, rtc quiet_step x y → (∃ h, mutex_inv h x) → ∃ h, mutex_inv h y) as Hind.
  { induction 1 as [|x y z (a & Hu & ->) _ IH]; [done|]. intros [h Hi]. apply IH. by apply (act_inv h). }
  apply (Hind _ _ Hrun). exists None. apply idle_inv.
Qed.

(** C11: in every run, from early boot (where only the boot thread runs) or
    after multitasking has started, in which no thread is interrupted in the tail
    of [mutex_unlock]: at most one thread holds the mutex, no call of [mutex_lock]
    returns without it, [waiters_count] is the length of the queue, and no waiter
    is stranded.  A thread is BLOCKED only while it is queued and not granted;
    while the queue is not empty the mutex is held or a thread is on its way to
    hand it over; and a thread that was granted the mutex is not BLOCKED: its next
    step returns from [mutex_lock] with the mutex. *)
Theorem mutex_exclusion active c :
  rtc quiet_step (idle_mutex active) c →
  (∀ t1 t2, holds t1 c → holds t2 c → t1 = t2) ∧
  (∀ t, counter_of t c ≠ Rejected) ∧
  waiters_count (mutex c) = Z.of_nat (length (wait_list (mutex c))) ∧
  (∀ t, t ∈ blocked c → t ∈ wait_list (mutex c)) ∧
  (wait_list (mutex c) ≠ [] → (∃ t, holds t c) ∨ ∃ t, counter_of t c = UnlockSlowReleased ∨ counter_of t c = UnlockRecheck) ∧
  (∀ t, counter_of t c = LockWait → t ∉ wait_list (mutex c) →
     t ∉ blocked c ∧ counter_of t (act (Run t) c) = Held).
Proof.
  intros [h Hi]%quiet_run_inv. split_and!.
  - intros t1 t2 H1%(mi_holder _ _ Hi) H2%(mi_holder _ _ Hi). congruence.
  - intros t. apply (mi_lawful _ _ Hi).
  - apply (mi_count _ _ Hi).
  - intros t Hb%(mi_blocked _ _ Hi). by apply (mi_waiting _ _ Hi).
  - intros Hl. destruct h as [t|]; [left; exists t; by apply (mi_holder _ _ Hi)|right].
    destruct (mi_queue _ _ Hi Hl eq_refl) as [t Ht]. exists t. destruct (counter_of t c); try done; auto.
  - intros t Hw Hl. assert (t ∈ granted c) as Hg.
    { destruct (decide (t ∈ granted c)) as [|Hg]; [done|]. destruct Hl. by apply (mi_waiting _ _ Hi). }
    assert (t ∉ blocked c) as Hb by (by intros [_ ?]%(mi_blocked _ _ Hi)).
    split; [done|]. cbn [act]. unfold run. rewrite bool_decide_false, Hw by done. unfold mutex_lock.
    rewrite Hw. unfold lock_resume. rewrite bool_decide_true by done. rewrite counter_of_goto. by rewrite decide_True.
Qed.

(** a release with waiters hands the mutex to the thread that has waited
    longest: it holds the mutex at once, which stays locked in between, it is no
    longer BLOCKED, and the others keep their order. *)
Theorem mutex_handover active c t next rest :
  rtc quiet_step (idle_mutex active) c → undisturbed (Run t) c →
  counter_of t c = UnlockSlow ∨ counter_of t c = UnlockSlowReleased →
  wait_list (mutex c) = next :: rest →
  let c' := act (Run t) c in
  holds next c' ∧ state (mutex c') = 1 ∧ owner_tid (mutex c') = next ∧ wait_list (mutex c') = rest ∧
  next ∉ blocked c' ∧ counter_of t c' = Free.
Proof.
  intros [h Hi]%quiet_run_inv Hu Hq Hl c'.
  assert (t ∉ blocked c) as Hb by (apply (not_blocked h c t Hi); by destruct Hq as [-> | ->]).
  assert (c' = unlock_slow t c) as ->.
  { unfold c'. cbn [act]. unfold run, mutex_unlock. rewrite bool_decide_false by done. by destruct Hq as [-> | ->]. }
  destruct (unlock_slow_inv h c t Hi Hu Hq) as (h' & Hi' & Hh'). rewrite Hl in Hh'. subst h'.
  split; [by apply (mi_holder _ _ Hi')|]. unfold unlock_slow. rewrite Hl. simpl. split_and!; try done; [set_solver|].
  unfold counter_of. simpl. by rewrite lookup_insert_eq.
Qed.

(** ** Concrete runs *)

Definition undisturbed_b (a : action) c : bool :=
  (0 <? actor a) && (actor a <? 4294967296) && (multitasking c || (actor a =? 1)) &&
  forallb (λ kp, negb (releasing kp.2) || (kp.1 =? actor a)) (map_to_list (counters c)).

Lemma undisturbed_b_sound a c : undisturbed_b a c = true → undisturbed a c.
Proof.
  unfold undisturbed_b. intros [[[H1%Z.ltb_lt H2%Z.ltb_lt]%andb_prop Hm]%andb_prop H3]%andb_prop.
  split; [done|]. split; [|intros E; rewrite E in Hm; by apply Z.eqb_eq].
  intros t Hr. unfold counter_of in Hr. destruct (counters c !! t) as [p|] eqn:E; [|done]. simpl in Hr.
  apply elem_of_map_to_list in E. rewrite forallb_forall in H3. apply list_elem_of_In in E. specialize (H3 _ E). simpl in H3.
  rewrite Hr in H3. by apply Z.eqb_eq.
Qed.

Fixpoint play (l : list action) c : option config :=
  match l with
  | [] => Some c
  | a :: l => if undisturbed_b a c then play l (act a c) else None
  end.

Lemma play_quiet l : ∀ c c', play l c = Some c' → rtc quiet_step c c'.
Proof.
  induction l as [|a l IH]; intros c c'; simpl; [by intros [= <-]|].
  destruct (undisturbed_b a c) eqn:E; [|done]. intros Hp. eapply rtc_l; [|by apply IH].
  exists a. split; [by apply undisturbed_b_sound|done].
Qed.

(** Thread 1 takes the mutex, threads 2 and 3 queue behind it, thread 1 starts to
    unlock. *)
Definition contention : list action :=
  [CallLock 1; Run 1; Run 1; Run 1; Activate] ++ (CallLock 2 :: replicate 5 (Run 2)) ++ [Wake 3 2; Run 2] ++
  (CallLock 3 :: replicate 5 (Run 3)) ++ [CallUnlock 1; Run 1; Run 1; Run 1].
Definition contended : config := default (idle_mutex false) (play contention (idle_mutex false)).

Lemma contended_quiet : rtc quiet_step (idle_mutex false) contended.
Proof. apply (play_quiet contention). vm_compute. reflexivity. Qed.

Definition handed_over : config := act (Run 1) contended.

Lemma handed_over_quiet : rtc quiet_step (idle_mutex false) handed_over.
Proof. apply (play_quiet (contention ++ [Run 1])). vm_compute. reflexivity. Qed.

(** After the release thread 2 runs and has the mutex, thread 3 is queued. *)
Lemma mutex_exclusion_witness :
  waiters_count (mutex handed_over) = 1 ∧ counter_of 2 (act (Run 2) handed_over) = Held.
Proof.
  destruct (mutex_exclusion false handed_over handed_over_quiet) as (_ & _ & H & _ & _ & H').
  rewrite H. split; [vm_compute; reflexivity|]. apply H'; [vm_compute; reflexivity|].
  replace (wait_list (mutex handed_over)) with [3] by (vm_compute; reflexivity).
  intros ?%list_elem_of_singleton. done.
Defined.

Lemma mutex_handover_witness : owner_tid (mutex (act (Run 1) contended)) = 2.
Proof.
  apply (mutex_handover false contended 1 2 [3] contended_quiet); [|left; vm_compute; reflexivity|vm_compute; reflexivity].
  apply undisturbed_b_sound. vm_compute. reflexivity.
Defined.

(** ** A release that is interrupted

    Thread 1 frees the mutex on the fast path of [mutex_unlock] and is preempted
    before it looks at [waiters_count] again; thread 2 takes the free mutex,
    thread 3 queues behind it; thread 1 goes on, finds a waiter and grants the
    mutex to thread 3 although thread 2 holds it. *)
Definition interrupted_release : list action :=
  [CallLock 1; Run 1; Run 1; Run 1] ++
  [CallUnlock 1; Run 1; Run 1; Run 1; Run 1; Run 1] ++
  [CallLock 2; Run 2; Run 2; Run 2] ++
  (CallLock 3 :: replicate 5 (Run 3)) ++
  [Run 1; Run 1; Run 3].

Theorem two_holders :
  let c := foldl (λ c a, act a c) (idle_mutex true) interrupted_release in
  counter_of 2 c = Held ∧ counter_of 3 c = Held ∧ owner_tid (mutex c) = 3.
Proof. vm_compute. done. Qed.
