(* ===== verification/Inet.v ===== *)
(** * Network byte order and the Internet checksum

    The helpers that every protocol file of src/net repeats: big-endian reads
    and writes of packet fields and the ones'-complement checksum (the bodies of
    [ipv4_checksum] in ipv4.c and [icmp_checksum] in icmp.c are the same text).
    A packet is the list of its bytes; a [uint8_t *] with its size is such a
    list, and [byte_at] is the read [data[i]], which every caller performs below
    the size it has checked. *)

From Stdlib Require Import ZArith Lia.
From stdpp Require Import gmap.
From S2P Require Import Prelude.

#[local] Open Scope Z_scope.

(** ** Fields of a packet *)

Definition byte_at (data : list Z) (i : Z) : Z := default 0 (data !! Z.to_nat i).

Definition read_u16_be (data : list Z) (i : Z) : Z :=
  Z.lor (Z.shiftl (byte_at data i) 8) (byte_at data (i + 1)).

Definition read_u32_be (data : list Z) (i : Z) : Z :=
  Z.lor (Z.lor (Z.lor (Z.shiftl (byte_at data i) 24) (Z.shiftl (byte_at data (i + 1)) 16))
    (Z.shiftl (byte_at data (i + 2)) 8)) (byte_at data (i + 3)).

(** The bytes that [write_u16_be] and [write_u32_be] store. *)
Definition write_u16_be (value : Z) : list Z := [u8 (Z.shiftr value 8); u8 value].

Definition write_u32_be (value : Z) : list Z :=
  [u8 (Z.shiftr value 24); u8 (Z.shiftr value 16); u8 (Z.shiftr value 8); u8 value].

(** ** The checksum *)

(** The 32-bit sum of the big-endian 16-bit words, an odd last byte padded on
    the right. *)
Fixpoint checksum_sum (sum : Z) (data : list Z) : Z :=
  match data with
  | a :: b :: rest => checksum_sum (u32 (sum + Z.lor (Z.shiftl a 8) b)) rest
  | [a] => u32 (sum + Z.shiftl a 8)
  | [] => sum
  end.

(** [while ((sum >> 16) != 0) sum = (sum & 0xffff) + (sum >> 16);] *)
Fixpoint checksum_fold (fuel : nat) (sum : Z) : option Z :=
  match fuel with
  | O => None
  | S fuel =>
      if Z.shiftr sum 16 =? 0 then Some sum
      else checksum_fold fuel (u32 (Z.land sum 65535 + Z.shiftr sum 16))
  end.

(** Three rounds are enough for every 32-bit sum ([checksum_fold_total]). *)
Definition inet_checksum (data : list Z) : Z :=
  u16 (not32 (default 0 (checksum_fold 3 (checksum_sum 0 data)))).

(** Proves that a list is made of bytes. *)
Ltac bytes :=
  rewrite ?Forall_app; repeat split; auto with kos;
  repeat (apply Forall_cons; split); auto with kos;
  try done; try (unfold is_u8 in *; lia).

(** ** Lemmas on fields *)

Lemma shiftl8_lor a b : is_u8 b → Z.lor (Z.shiftl a 8) b = 256 * a + b.
Proof.
  intros Hb. rewrite Z.shiftl_mul_pow2, lor_mul_pow2 by (done || lia). lia.
Qed.

Lemma is_u8_u8 z : is_u8 (u8 z).
Proof. unfold is_u8, u8. apply Z.mod_pos_bound. lia. Qed.

#[export] Hint Resolve is_u8_u8 Forall_nil_2 : kos.

Lemma byte_at_app_l (l k : list Z) i :
  0 ≤ i < Z.of_nat (length l) → byte_at (l ++ k) i = byte_at l i.
Proof. intros Hi. unfold byte_at. rewrite lookup_app_l by lia. done. Qed.

Lemma byte_at_app_r (l k : list Z) i :
  Z.of_nat (length l) ≤ i → byte_at (l ++ k) i = byte_at k (i - Z.of_nat (length l)).
Proof.
  intros Hi. unfold byte_at. rewrite lookup_app_r by lia. do 2 f_equal. lia.
Qed.

Lemma byte_at_pre (pre k : list Z) i :
  0 ≤ i → byte_at (pre ++ k) (Z.of_nat (length pre) + i) = byte_at k i.
Proof. intros Hi. rewrite byte_at_app_r by lia. f_equal. lia. Qed.

Lemma byte_at_pre0 (pre k : list Z) : byte_at (pre ++ k) (Z.of_nat (length pre)) = byte_at k 0.
Proof. rewrite byte_at_app_r by lia. f_equal. lia. Qed.

Lemma byte_at_u8 (data : list Z) i : Forall is_u8 data → is_u8 (byte_at data i).
Proof.
  intros Hd. unfold byte_at. destruct (data !! Z.to_nat i) as [x|] eqn:E; simpl.
  - by eapply Forall_lookup_1 in E.
  - unfold is_u8; lia.
Qed.

(** Writing a field and reading it back. *)
Lemma read_write_u16 (v : Z) (pre post : list Z) i :
  0 ≤ v < 65536 → Z.of_nat (length pre) = i →
  read_u16_be (pre ++ write_u16_be v ++ post) i = v.
Proof.
  intros Hv <-. unfold read_u16_be. rewrite (byte_at_pre _ _ 1), byte_at_pre0 by lia.
  unfold write_u16_be, byte_at. change (Z.to_nat 0) with 0%nat. change (Z.to_nat 1) with 1%nat.
  cbn [app lookup list_lookup default]. unfold id.
  rewrite shiftl8_lor by apply is_u8_u8. unfold u8. rewrite Z.shiftr_div_pow2 by lia.
  change (2 ^ 8) with 256. zsolve.
Qed.

Lemma read_write_u32 (v : Z) (pre post : list Z) i :
  is_u32 v → Z.of_nat (length pre) = i →
  read_u32_be (pre ++ write_u32_be v ++ post) i = v.
Proof.
  intros Hv <-. unfold read_u32_be. 
  rewrite (byte_at_pre _ _ 1), (byte_at_pre _ _ 2), (byte_at_pre _ _ 3), byte_at_pre0 by lia.
  unfold write_u32_be, byte_at. change (Z.to_nat 0) with 0%nat. change (Z.to_nat 1) with 1%nat.
  change (Z.to_nat 2) with 2%nat. change (Z.to_nat 3) with 3%nat.
  cbn [app lookup list_lookup default]. unfold id.
  unfold u8. rewrite !Z.shiftr_div_pow2 by lia.
  change (2 ^ 24) with 16777216. change (2 ^ 16) with 65536. change (2 ^ 8) with 256.
  unfold is_u32 in Hv.
  set (a := v / 16777216 mod 256). set (b := v / 65536 mod 256). set (c := v / 256 mod 256).
  set (d := v mod 256).
  assert (Hb : is_u8 b) by (apply Z.mod_pos_bound; lia).
  assert (Hc : is_u8 c) by (apply Z.mod_pos_bound; lia).
  assert (Hd : is_u8 d) by (apply Z.mod_pos_bound; lia).
  rewrite !Z.shiftl_mul_pow2 by lia. change (2 ^ 24) with (65536 * 2 ^ 8).
  unfold is_u8 in *.
  replace (a * (65536 * 2 ^ 8)) with ((a * 2 ^ 8) * 2 ^ 16) by (change (2^16) with 65536; lia).
  assert (Z.lor (a * 2 ^ 8 * 2 ^ 16) (b * 2 ^ 16) = (a * 2 ^ 8 + b) * 2 ^ 16) as ->.
  { rewrite <- !(Z.shiftl_mul_pow2 _ 16) by lia. rewrite <- Z.shiftl_lor. f_equal.
    apply lor_mul_pow2; [lia|]. change (2 ^ 8) with 256; lia. }
  rewrite lor_mul_pow2 by (change (2 ^ 8) with 256; change (2 ^ 16) with 65536; lia).
  replace ((a * 2 ^ 8 + b) * 2 ^ 16 + c * 2 ^ 8) with (((a * 2 ^ 8 + b) * 2 ^ 8 + c) * 2 ^ 8)
    by (change (2 ^ 16) with 65536; change (2 ^ 8) with 256; lia).
  rewrite lor_mul_pow2 by (change (2 ^ 8) with 256; lia).
  change (2 ^ 8) with 256. subst a b c d. zsolve.
Qed.

(** ** What the checksum computes *)

(** The mathematical sum of the 16-bit words. *)
Fixpoint word_sum (data : list Z) : Z :=
  match data with
  | a :: b :: rest => 256 * a + b + word_sum rest
  | [a] => 256 * a
  | [] => 0
  end.

Lemma pair_ind (P : list Z → Prop) :
  P [] → (∀ a, P [a]) → (∀ a b l, P l → P (a :: b :: l)) → ∀ l, P l.
Proof.
  intros H0 H1 H2. fix IH 1. intros [|a [|b l]]; [done|apply H1|apply H2, IH].
Qed.

Lemma word_sum_bounds data :
  Forall is_u8 data → 0 ≤ word_sum data ≤ 65535 * ((Z.of_nat (length data) + 1) / 2).
Proof.
  induction data as [|a|a b l IH] using pair_ind; intros Hd; [done| |].
  - apply Forall_cons in Hd as [Ha _]. cbn [word_sum length]. unfold is_u8 in Ha.
    change ((Z.of_nat 1 + 1) / 2) with 1. lia.
  - apply Forall_cons in Hd as [Ha Hd]. apply Forall_cons in Hd as [Hb Hd].
    specialize (IH Hd). cbn [word_sum length]. unfold is_u8 in *.
    replace (Z.of_nat (S (S (length l))) + 1) with (Z.of_nat (length l) + 1 + 1 * 2) by lia.
    rewrite Z.div_add by lia. lia.
Qed.

Lemma word_sum_app l k :
  Nat.Even (length l) → word_sum (l ++ k) = word_sum l + word_sum k.
Proof.
  induction l as [|a|a b l IH] using pair_ind; intros He; [done| |].
  - destruct He as [n Hn]. cbn in Hn. lia.
  - cbn [app word_sum]. rewrite IH; [lia|]. destruct He as [n Hn]. cbn [length] in Hn.
    exists (n - 1)%nat. lia.
Qed.

(** Below 128 KiB the 32-bit accumulator does not overflow. *)
Lemma checksum_sum_eq data s :
  Forall is_u8 data → 0 ≤ s →
  s + 65535 * ((Z.of_nat (length data) + 1) / 2) < 4294967296 →
  checksum_sum s data = s + word_sum data.
Proof.
  revert s. induction data as [|a|a b l IH] using pair_ind; intros s Hd Hs Hl; cbn [checksum_sum word_sum].
  - lia.
  - apply Forall_cons in Hd as [Ha _]. rewrite Z.shiftl_mul_pow2 by lia. change (2 ^ 8) with 256.
    cbn [length] in Hl. change ((Z.of_nat 1 + 1) / 2) with 1 in Hl. unfold is_u8 in Ha.
    rewrite u32_small by (unfold is_u32; lia). lia.
  - apply Forall_cons in Hd as [Ha Hd]. apply Forall_cons in Hd as [Hb Hd].
    rewrite shiftl8_lor by done. unfold is_u8 in *. cbn [length] in Hl.
    replace (Z.of_nat (S (S (length l))) + 1) with (Z.of_nat (length l) + 1 + 1 * 2) in Hl by lia.
    rewrite Z.div_add in Hl by lia.
    assert (0 ≤ (Z.of_nat (length l) + 1) / 2) by (apply Z.div_pos; lia).
    rewrite u32_small by (unfold is_u32; lia). rewrite IH by (done || lia). lia.
Qed.

Lemma fold_step s :
  is_u32 s → u32 (Z.land s 65535 + Z.shiftr s 16) = s mod 65536 + s / 65536.
Proof.
  intros Hs. rewrite (land_low_mask s 16) by (done || lia). rewrite Z.shiftr_div_pow2 by lia.
  change (2 ^ 16) with 65536. apply u32_small. unfold is_u32 in *. zsolve.
Qed.

(** Three rounds of the folding loop reach a 16-bit value congruent to the sum
    modulo 65535, and nonzero exactly when the sum is. *)
Lemma checksum_fold_total s :
  is_u32 s → ∃ f, checksum_fold 3 s = Some f ∧ 0 ≤ f < 65536 ∧
    (∃ k, s = f + 65535 * k) ∧ (f = 0 ↔ s = 0).
Proof.
  intros Hs.
  assert (Hstep : ∀ n t, is_u32 t → checksum_fold (S n) t
            = if t <? 65536 then Some t else checksum_fold n (t mod 65536 + t / 65536)).
  { intros n t Ht. cbn [checksum_fold]. rewrite fold_step by done. rewrite Z.shiftr_div_pow2 by lia.
    change (2 ^ 16) with 65536. unfold is_u32 in Ht.
    destruct (Z.eqb_spec (t / 65536) 0), (Z.ltb_spec t 65536); try done; zsolve. }
  unfold is_u32 in Hs. rewrite Hstep by done. destruct (Z.ltb_spec s 65536).
  { exists s. split_and!; [done|lia|lia|by exists 0; lia|done]. }
  set (s1 := s mod 65536 + s / 65536) in *.
  assert (H1 : 1 ≤ s1 ≤ 131070) by (unfold s1; zsolve).
  assert (K1 : s = s1 + 65535 * (s / 65536)) by (unfold s1; zsolve).
  rewrite Hstep by (unfold is_u32; lia). destruct (Z.ltb_spec s1 65536).
  { exists s1. split_and!; [done|lia|lia|by eexists|lia]. }
  set (s2 := s1 mod 65536 + s1 / 65536) in *.
  assert (H2 : 1 ≤ s2 ≤ 65535) by (unfold s2; zsolve).
  assert (K2 : s1 = s2 + 65535 * (s1 / 65536)) by (unfold s2; zsolve).
  rewrite Hstep by (unfold is_u32; lia). destruct (Z.ltb_spec s2 65536); [|lia].
  exists s2. split_and!; [done|lia|lia| |lia].
  exists (s1 / 65536 + s / 65536). lia.
Qed.

Lemma length_words (data : list Z) : Z.of_nat (length data) ≤ 131072 →
  65535 * ((Z.of_nat (length data) + 1) / 2) < 4294967296.
Proof. intros. zsolve. Qed.

Lemma inet_checksum_eq data :
  Forall is_u8 data → Z.of_nat (length data) ≤ 131072 →
  ∃ f k, inet_checksum data = 65535 - f ∧ 0 ≤ f < 65536 ∧ word_sum data = f + 65535 * k ∧
    (f = 0 ↔ word_sum data = 0).
Proof.
  intros Hd Hl. unfold inet_checksum. pose proof (length_words data Hl) as Hw.
  pose proof (word_sum_bounds data Hd) as Hb.
  rewrite checksum_sum_eq by (done || lia). rewrite Z.add_0_l.
  destruct (checksum_fold_total (word_sum data)) as (f & -> & Hf & [k Hk] & H0);
    [unfold is_u32; lia|].
  exists f, k. split; [|done]. cbn [default]. unfold id, u16, not32, u32, Z.lnot, Z.pred. zsolve.
Qed.

Lemma inet_checksum_range data :
  Forall is_u8 data → Z.of_nat (length data) ≤ 131072 → 0 ≤ inet_checksum data < 65536.
Proof. intros Hd Hl. destruct (inet_checksum_eq data Hd Hl) as (f & k & -> & ? & _). lia. Qed.

(** A packet verifies when the sum of its words is a positive multiple of 65535. *)
Lemma inet_checksum_zero data :
  Forall is_u8 data → Z.of_nat (length data) ≤ 131072 →
  inet_checksum data = 0 ↔ 0 < word_sum data ∧ ∃ k, word_sum data = 65535 * k.
Proof.
  intros Hd Hl. destruct (inet_checksum_eq data Hd Hl) as (f & k & -> & Hf & Hk & H0).
  pose proof (word_sum_bounds data Hd). split.
  - intros Hz. assert (f = 65535) as -> by lia. split; [lia|]. exists (k + 1). lia.
  - intros [Hp [j Hj]]. assert (f ≠ 0) by (intros ?%H0; lia). lia.
Qed.

Lemma write_u16_be_u8 v : Forall is_u8 (write_u16_be v).
Proof. repeat constructor; apply Z.mod_pos_bound; lia. Qed.

Lemma write_u32_be_u8 v : Forall is_u8 (write_u32_be v).
Proof. repeat constructor; apply Z.mod_pos_bound; lia. Qed.

#[export] Hint Resolve write_u16_be_u8 write_u32_be_u8 : kos.

Lemma word_sum_write_u16 v post :
  0 ≤ v < 65536 → word_sum (write_u16_be v ++ post) = v + word_sum post.
Proof.
  intros Hv. cbn [write_u16_be app word_sum]. unfold u8. rewrite Z.shiftr_div_pow2 by lia.
  change (2 ^ 8) with 256. zsolve.
Qed.

(** Storing the checksum of a packet whose field is zero makes it verify. *)
Lemma inet_checksum_fill pre post :
  Forall is_u8 pre → Forall is_u8 post → Nat.Even (length pre) →
  Z.of_nat (length pre) + 2 + Z.of_nat (length post) ≤ 131072 →
  inet_checksum (pre ++ write_u16_be (inet_checksum (pre ++ [0; 0] ++ post)) ++ post) = 0.
Proof.
  intros Hpre Hpost He Hl. set (d := pre ++ [0; 0] ++ post).
  assert (Hd : Forall is_u8 d).
  { repeat (apply Forall_app; split); try done. repeat constructor; lia. }
  assert (Z.of_nat (length d) ≤ 131072) by (unfold d; rewrite !length_app; cbn [length]; lia).
  destruct (inet_checksum_eq d Hd) as (f & k & -> & Hf & Hk & H0); [done|].
  apply inet_checksum_zero.
  - repeat (apply Forall_app; split); auto with kos.
  - rewrite !length_app. cbn [write_u16_be length]. lia.
  - rewrite word_sum_app, word_sum_write_u16 by (done || lia).
    assert (word_sum d = word_sum pre + word_sum post) as Hs.
    { unfold d. rewrite word_sum_app by done. cbn [app word_sum]. lia. }
    pose proof (word_sum_bounds d Hd) as Hb. split; [|exists (k + 1); lia].
    destruct (Z.eq_dec f 0) as [->|]; [lia|]. assert (word_sum d ≠ 0) by (intros ?%H0; lia). lia.
Qed.

(** Two packets that verify and differ in a single aligned word differ by
    exchanging the two representations of zero. *)
Lemma inet_checksum_detects pre post v w :
  Forall is_u8 pre → Forall is_u8 post → Nat.Even (length pre) →
  Z.of_nat (length pre) + 2 + Z.of_nat (length post) ≤ 131072 →
  0 ≤ v < 65536 → 0 ≤ w < 65536 → v ≠ w →
  inet_checksum (pre ++ write_u16_be v ++ post) = 0 →
  inet_checksum (pre ++ write_u16_be w ++ post) = 0 →
  (v = 0 ∧ w = 65535) ∨ (v = 65535 ∧ w = 0).
Proof.
  intros Hpre Hpost He Hl Hv Hw Hne Hcv Hcw.
  assert (Hgen : ∀ x, 0 ≤ x < 65536 → inet_checksum (pre ++ write_u16_be x ++ post) = 0 →
            ∃ k, word_sum pre + x + word_sum post = 65535 * k).
  { intros x Hx Hc. apply inet_checksum_zero in Hc as [_ [k Hk]].
    - exists k. rewrite word_sum_app, word_sum_write_u16 in Hk by done. lia.
    - repeat (apply Forall_app; split); auto with kos.
    - rewrite !length_app. cbn [write_u16_be length]. lia. }
  destruct (Hgen v Hv Hcv) as [kv ?], (Hgen w Hw Hcw) as [kw ?]. lia.
Qed.

Example checksum_rfc791 :
  inet_checksum [69; 0; 0; 115; 0; 0; 64; 0; 64; 17; 184; 97; 192; 168; 0; 1; 192; 168; 0; 199] = 0.
Proof. reflexivity. Qed.
