(* ===== verification/NetState.v ===== *)
(** * State of the network stack

    The static variables of src/net/ethernet.c, arp.c, ipv4.c and icmp.c, with
    the data types of src/include/kos/net.h, as one record that the layers pass
    along.  [tick] is what [timer_ticks()] returns; only [task_sleep] and
    [cpu_wait_for_interrupt] let it move.  A call into a layer above IPv4 is
    recorded in [upcalls], in the order of the calls: the handlers of UDP and TCP
    are not part of this model, and that of ICMP (file Icmp) is run on the
    recorded call. *)

From Stdlib Require Import ZArith Lia.
From stdpp Require Import gmap.
From S2P Require Import Prelude.

#[local] Open Scope Z_scope.

(** ** Constants of net.h *)

Definition NET_ETHERNET_ADDRESS_SIZE : Z := 6.
Definition NET_ETHERNET_FRAME_MAX : Z := 1514.
Definition NET_ARP_CACHE_MAX : nat := 16.
Definition NET_ARP_DEFAULT_TIMEOUT_TICKS : Z := 300.
Definition NET_QEMU_STATIC_ADDRESS : Z := 0x0a00020f.
Definition NET_QEMU_GATEWAY_ADDRESS : Z := 0x0a000202.
Definition NET_QEMU_DNS_ADDRESS : Z := 0x0a000203.

Inductive net_configuration_source := NET_CONFIGURATION_STATIC | NET_CONFIGURATION_DHCP.

Inductive net_dhcp_state :=
  NET_DHCP_IDLE | NET_DHCP_DISCOVERING | NET_DHCP_REQUESTING | NET_DHCP_BOUND | NET_DHCP_FAILED.

#[export] Instance net_dhcp_state_eq_dec : EqDecision net_dhcp_state.
Proof. solve_decision. Defined.

(** ** Ethernet *)

(** The part of [struct net_device] that ethernet.c reads: the flags say whether
    [ops] and its entries are present. *)
Record net_device := mk_device {
  mac_address : list Z;
  dev_ops : bool;
  ops_transmit : bool;
  ops_receive : bool;
  ops_poll : bool
}.

(** [wire] is the list of frames the driver accepted, [rx] the frames it holds
    for the next [receive] calls. *)
Record ethernet := mk_ethernet {
  default_device : option net_device;
  frames_sent : Z;
  frames_received : Z;
  frames_dropped : Z;
  wire : list (list Z);
  rx : list (list Z)
}.

(** ** ARP *)

Record net_arp_cache_entry := mk_arp_entry {
  arp_valid : bool;
  arp_ipv4_address : Z;
  arp_mac_address : list Z;
  learned_at_tick : Z;
  expires_at_tick : Z
}.

Record arp := mk_arp {
  arp_cache : list net_arp_cache_entry;
  arp_requests : Z;
  arp_replies : Z
}.

(** ** IPv4 *)

Record net_interface_info := mk_interface {
  available : bool;
  if_mac_address : list Z;
  ipv4_address : Z;
  subnet_mask : Z;
  gateway : Z;
  dns_server : Z;
  configuration_source : net_configuration_source;
  dhcp_state : net_dhcp_state;
  dhcp_lease_seconds : Z;
  ipv4_packets_received : Z;
  ipv4_packets_dropped : Z
}.

Record ipv4_reasm_slot := mk_slot {
  active : bool;
  src_ip : Z;
  dst_ip : Z;
  slot_id : Z;
  slot_protocol : Z;
  created_tick : Z;
  total_size : Z;
  received_bytes : Z;
  buffer : gmap Z Z;
  block_present : gset Z
}.

Record ipv4 := mk_ipv4 {
  interface : net_interface_info;
  reasm_slots : list ipv4_reasm_slot;
  next_identification : Z
}.

(** ** ICMP *)

Record icmp_ping_waiter := mk_waiter {
  waiting : bool;
  reply_received : bool;
  ping_destination : Z;
  sequence : Z;
  sent_at_tick : Z;
  round_trip_ticks : Z
}.

Record icmp := mk_icmp {
  ping_waiter : icmp_ping_waiter;
  echo_requests_sent : Z;
  echo_replies_received : Z;
  dest_unreach_sent : Z;
  time_exceeded_sent : Z
}.

(** ** The stack *)

Inductive upcall :=
  | net_icmp_receive_call (source : Z) (packet : list Z)
  | net_udp_receive_call (source destination : Z) (packet : list Z)
  | net_tcp_receive_call (source destination : Z) (packet : list Z)
  | net_icmp_send_time_exceeded_call (destination code : Z) (orig : list Z).

Record net := mk_net {
  tick : Z;
  n_eth : ethernet;
  n_arp : arp;
  n_ip : ipv4;
  n_icmp : icmp;
  upcalls : list upcall
}.

Definition set_eth (e : ethernet) (n : net) : net :=
  mk_net (tick n) e (n_arp n) (n_ip n) (n_icmp n) (upcalls n).
Definition set_arp (a : arp) (n : net) : net :=
  mk_net (tick n) (n_eth n) a (n_ip n) (n_icmp n) (upcalls n).
Definition set_ip (i : ipv4) (n : net) : net :=
  mk_net (tick n) (n_eth n) (n_arp n) i (n_icmp n) (upcalls n).
Definition set_icmp (i : icmp) (n : net) : net :=
  mk_net (tick n) (n_eth n) (n_arp n) (n_ip n) i (upcalls n).
Definition call_up (u : upcall) (n : net) : net :=
  mk_net (tick n) (n_eth n) (n_arp n) (n_ip n) (n_icmp n) (upcalls n ++ [u]).
Definition set_tick (t : Z) (n : net) : net :=
  mk_net t (n_eth n) (n_arp n) (n_ip n) (n_icmp n) (upcalls n).

Definition set_interface (i : net_interface_info) (n : net) : net :=
  set_ip (mk_ipv4 i (reasm_slots (n_ip n)) (next_identification (n_ip n))) n.
Definition set_slots (s : list ipv4_reasm_slot) (n : net) : net :=
  set_ip (mk_ipv4 (interface (n_ip n)) s (next_identification (n_ip n))) n.
