(* ===== verification/Ethernet.v ===== *)
(** * Ethernet framing (src/net/ethernet.c)

    Sending a frame through the default device and demultiplexing the received
    ones.  The device driver is a parameter: [transmit sent frame] is the answer
    of [dev->ops->transmit] when the frames [sent] have already been accepted. *)

From Stdlib Require Import ZArith Lia.
From stdpp Require Import gmap.
From S2P Require Import Prelude Inet NetState.

#[local] Open Scope Z_scope.

Definition ETHERNET_HEADER_SIZE : Z := 14.
Definition ETHER_TYPE_ARP : Z := 0x0806.
Definition ETHER_TYPE_IPV4 : Z := 0x0800.
Definition ETHERNET_POLL_BUDGET : nat := 32.

(** The frame [net_ethernet_send] builds. *)
Definition ethernet_frame (destination source : list Z) (ether_type : Z) (payload : list Z) : list Z :=
  destination ++ source ++ write_u16_be ether_type ++ payload.

Section Ethernet.
  Context (transmit : list (list Z) → list Z → bool).

(** [destination] and [payload] are [None] for a NULL pointer. *)
Definition net_ethernet_send (destination : option (list Z)) (ether_type : Z)
    (payload : option (list Z)) (n : net) : net * bool :=
  match destination, payload with
  | Some destination, Some payload =>
      let payload_size := Z.of_nat (length payload) in
      if (payload_size =? 0) || (payload_size >? NET_ETHERNET_FRAME_MAX - ETHERNET_HEADER_SIZE)
      then (n, false)
      else
        let e := n_eth n in
        match default_device e with
        | None => (n, false)
        | Some dev =>
            if negb (dev_ops dev) || negb (ops_transmit dev) then (n, false)
            else
              let frame := ethernet_frame destination (mac_address dev) ether_type payload in
              if transmit (wire e) frame then
                (set_eth (mk_ethernet (default_device e) (u64 (frames_sent e + 1))
                   (frames_received e) (frames_dropped e) (wire e ++ [frame]) (rx e)) n, true)
              else
                (set_eth (mk_ethernet (default_device e) (frames_sent e) (frames_received e)
                   (u64 (frames_dropped e + 1)) (wire e) (rx e)) n, false)
        end
  | _, _ => (n, false)
  end.

(** The receive side: [net_arp_receive], [net_ipv4_receive], the driver's [poll]
    and the two polls of the layers above are parameters of the loop. *)
Context (net_arp_receive net_ipv4_receive : list Z → list Z → net → net)
        (device_poll net_tcp_poll httpd_poll : net → net).

(** One accepted frame. *)
Definition receive_frame (frame : list Z) (n : net) : net :=
  let e := n_eth n in
  if Z.of_nat (length frame) <? ETHERNET_HEADER_SIZE then
    set_eth (mk_ethernet (default_device e) (frames_sent e) (frames_received e)
      (u64 (frames_dropped e + 1)) (wire e) (rx e)) n
  else
    let n := set_eth (mk_ethernet (default_device e) (frames_sent e)
      (u64 (frames_received e + 1)) (frames_dropped e) (wire e) (rx e)) n in
    let ether_type := read_u16_be frame 12 in
    let source := take 6 (drop 6 frame) in
    let payload := drop 14 frame in
    if ether_type =? ETHER_TYPE_ARP then net_arp_receive source payload n
    else if ether_type =? ETHER_TYPE_IPV4 then net_ipv4_receive source payload n
    else n.

(** The driver hands over the frames of [rx] one by one, at most the budget. *)
Fixpoint poll_frames (budget : nat) (n : net) : net :=
  match budget with
  | O => n
  | S budget =>
      let e := n_eth n in
      match rx e with
      | [] => n
      | frame :: rest =>
          poll_frames budget
            (receive_frame frame
              (set_eth (mk_ethernet (default_device e) (frames_sent e) (frames_received e)
                 (frames_dropped e) (wire e) rest) n))
      end
  end.

Definition net_poll (n : net) : net :=
  let n :=
    match default_device (n_eth n) with
    | Some dev =>
        if dev_ops dev then
          let n := if ops_receive dev then poll_frames ETHERNET_POLL_BUDGET n else n in
          if ops_poll dev then device_poll n else n
        else n
    | None => n
    end in
  httpd_poll (net_tcp_poll n).

End Ethernet.

(** ** Lemmas *)

Lemma length_frame d s t p :
  length d = 6%nat → length s = 6%nat → length (ethernet_frame d s t p) = (14 + length p)%nat.
Proof. intros Hd Hs. unfold ethernet_frame. rewrite !length_app, Hd, Hs. cbn [write_u16_be length]. lia. Qed.

(** The fields [net_poll] reads from a frame that [net_ethernet_send] built. *)
Lemma frame_fields d s t p :
  length d = 6%nat → length s = 6%nat → 0 ≤ t < 65536 →
  read_u16_be (ethernet_frame d s t p) 12 = t
  ∧ take 6 (drop 6 (ethernet_frame d s t p)) = s
  ∧ drop 14 (ethernet_frame d s t p) = p.
Proof.
  intros Hd Hs Ht. unfold ethernet_frame. split_and!.
  - rewrite (assoc app d s). apply read_write_u16; [done|]. rewrite length_app. lia.
  - rewrite drop_app_length' by lia. by rewrite take_app_length' by lia.
  - rewrite (assoc app d s). rewrite drop_app. rewrite drop_ge by (rewrite length_app; lia).
    rewrite length_app, Hd, Hs. reflexivity.
Qed.

(** Receiving a frame sent to the IPv4 type calls the IPv4 layer with the
    sender's address and the payload. *)
Lemma receive_frame_ipv4 ra ri d s p n :
  length d = 6%nat → length s = 6%nat →
  receive_frame ra ri (ethernet_frame d s ETHER_TYPE_IPV4 p) n
  = ri s p (set_eth (mk_ethernet (default_device (n_eth n)) (frames_sent (n_eth n))
      (u64 (frames_received (n_eth n) + 1)) (frames_dropped (n_eth n)) (wire (n_eth n)) (rx (n_eth n))) n).
Proof.
  intros Hd Hs. unfold receive_frame. rewrite length_frame by done.
  destruct (Z.ltb_spec (Z.of_nat (14 + length p)) ETHERNET_HEADER_SIZE) as [Hlt|_];
    [unfold ETHERNET_HEADER_SIZE in Hlt; lia|].
  destruct (frame_fields d s ETHER_TYPE_IPV4 p Hd Hs) as (-> & -> & ->); [done|]. done.
Qed.
