(* ===== verification/Ipv4.v ===== *)
(** * IPv4 (src/net/ipv4.c)

    Interface configuration, receive path with fragment reassembly, send path
    with fragmentation.  [net_arp_resolve] (file Arp) is a parameter: it may run
    the whole stack while it waits for a reply.  A critical section of
    [ipv4_lock] is one state-passing function. *)

From Stdlib Require Import ZArith Lia.
From stdpp Require Import gmap.
From S2P Require Import Prelude Inet NetState Ethernet.

#[local] Open Scope Z_scope.

Definition IPV4_HEADER_SIZE : Z := 20.
Definition IPV4_ETHERTYPE : Z := 0x0800.
Definition IPV4_DEFAULT_TTL : Z := 64.
Definition IPV4_MAX_FRAGMENT_PAYLOAD : Z := 1480.
Definition IPV4_REASM_SLOTS : nat := 8.
Definition IPV4_REASM_MAX_SIZE : Z := 65536.
Definition IPV4_REASM_TIMEOUT_TICKS : Z := 3000.

Definition ipv4_checksum (data : list Z) : Z := inet_checksum data.

(** ** Interface *)

(** What [net_interface_info] copies through a non-NULL [info]. *)
Definition net_interface_info_get (n : net) : net_interface_info := interface (n_ip n).

Definition net_has_external_interface (n : net) : bool := available (interface (n_ip n)).

Definition net_ipv4_initialize_interface (mac : option (list Z)) (n : net) : net * bool :=
  match mac with
  | None => (n, false)
  | Some mac =>
      (set_ip (mk_ipv4
         (mk_interface true (take 6 mac) NET_QEMU_STATIC_ADDRESS 0xffffff00 NET_QEMU_GATEWAY_ADDRESS
            NET_QEMU_DNS_ADDRESS NET_CONFIGURATION_STATIC NET_DHCP_IDLE 0 0 0)
         (reasm_slots (n_ip n)) (u16 (tick n))) n, true)
  end.

Definition net_ipv4_configure_dhcp (address mask gw dns lease : Z) (n : net) : net * bool :=
  let i := interface (n_ip n) in
  if negb (available i) || (address =? 0) || (mask =? 0) then (n, false)
  else
    (set_interface (mk_interface (available i) (if_mac_address i) address mask gw dns
       NET_CONFIGURATION_DHCP NET_DHCP_BOUND lease (ipv4_packets_received i)
       (ipv4_packets_dropped i)) n, true).

Definition net_ipv4_set_dhcp_state (state : net_dhcp_state) (n : net) : net :=
  let i := interface (n_ip n) in
  set_interface (mk_interface (available i) (if_mac_address i) (ipv4_address i) (subnet_mask i)
    (gateway i) (dns_server i) (configuration_source i) state (dhcp_lease_seconds i)
    (ipv4_packets_received i) (ipv4_packets_dropped i)) n.

Definition count_dropped (n : net) : net :=
  let i := interface (n_ip n) in
  set_interface (mk_interface (available i) (if_mac_address i) (ipv4_address i) (subnet_mask i)
    (gateway i) (dns_server i) (configuration_source i) (dhcp_state i) (dhcp_lease_seconds i)
    (ipv4_packets_received i) (u64 (ipv4_packets_dropped i + 1))) n.

Definition count_received (n : net) : net :=
  let i := interface (n_ip n) in
  set_interface (mk_interface (available i) (if_mac_address i) (ipv4_address i) (subnet_mask i)
    (gateway i) (dns_server i) (configuration_source i) (dhcp_state i) (dhcp_lease_seconds i)
    (u64 (ipv4_packets_received i + 1)) (ipv4_packets_dropped i)) n.

(** ** Receiving *)

Definition ipv4_dispatch_payload (protocol source destination : Z) (payload : list Z) (n : net) : net :=
  if protocol =? 1 then call_up (net_icmp_receive_call source payload) n
  else if protocol =? 17 then call_up (net_udp_receive_call source destination payload) n
  else if protocol =? 6 then call_up (net_tcp_receive_call source destination payload) n
  else n.

(** *** Reassembly slots *)

Definition deactivate (s : ipv4_reasm_slot) : ipv4_reasm_slot :=
  mk_slot false (src_ip s) (dst_ip s) (slot_id s) (slot_protocol s) (created_tick s)
    (total_size s) (received_bytes s) (buffer s) (block_present s).

Definition slot_expired (now : Z) (s : ipv4_reasm_slot) : bool :=
  u64 (now - created_tick s) >=? IPV4_REASM_TIMEOUT_TICKS.

Definition slot_matches (source destination protocol id : Z) (s : ipv4_reasm_slot) : bool :=
  (src_ip s =? source) && (dst_ip s =? destination) && (slot_id s =? id) && (slot_protocol s =? protocol).

(** The first loop: expired slots met before the match are discarded, each with
    an ICMP error to the sender of its fragments. *)
Fixpoint reasm_scan (now source destination protocol id : Z) (orig_pkt : list Z) (i : nat)
    (slots : list ipv4_reasm_slot) : list ipv4_reasm_slot * list upcall * option nat :=
  match slots with
  | [] => ([], [], None)
  | s :: rest =>
      if active s then
        if slot_expired now s then
          let '(rest', calls, r) := reasm_scan now source destination protocol id orig_pkt (S i) rest in
          (deactivate s :: rest', net_icmp_send_time_exceeded_call (src_ip s) 1 orig_pkt :: calls, r)
        else if slot_matches source destination protocol id s then (s :: rest, [], Some i)
        else
          let '(rest', calls, r) := reasm_scan now source destination protocol id orig_pkt (S i) rest in
          (s :: rest', calls, r)
      else
        let '(rest', calls, r) := reasm_scan now source destination protocol id orig_pkt (S i) rest in
        (s :: rest', calls, r)
  end.

(** The second loop: the first slot that is not active. *)
Fixpoint find_inactive (i : nat) (slots : list ipv4_reasm_slot) : option nat :=
  match slots with
  | [] => None
  | s :: rest => if active s then find_inactive (S i) rest else Some i
  end.

(** A slot claimed for a new datagram keeps the bytes of its buffer. *)
Definition claim_slot (now source destination protocol id : Z) (s : ipv4_reasm_slot) : ipv4_reasm_slot :=
  mk_slot true source destination id protocol now 0 0 (buffer s) ∅.

Fixpoint store_bytes (buf : gmap Z Z) (offset : Z) (payload : list Z) : gmap Z Z :=
  match payload with
  | [] => buf
  | b :: rest => store_bytes (<[offset := b]> buf) (offset + 1) rest
  end.

Fixpoint mark_blocks (present : gset Z) (block : Z) (count : nat) : gset Z :=
  match count with
  | O => present
  | S count =>
      if block <? IPV4_REASM_MAX_SIZE / 8 then mark_blocks ({[block]} ∪ present) (block + 1) count
      else present
  end.

(** The copy of one fragment into its slot. *)
Definition slot_store (frag_offset : Z) (more_fragments : bool) (payload : list Z)
    (s : ipv4_reasm_slot) : ipv4_reasm_slot :=
  let payload_size := Z.of_nat (length payload) in
  mk_slot (active s) (src_ip s) (dst_ip s) (slot_id s) (slot_protocol s) (created_tick s)
    (if more_fragments then total_size s else frag_offset + payload_size)
    (u64 (received_bytes s + payload_size))
    (store_bytes (buffer s) frag_offset payload)
    (mark_blocks (block_present s) (frag_offset / 8) (Z.to_nat ((payload_size + 7) / 8))).

Definition slot_complete (s : ipv4_reasm_slot) : bool :=
  (total_size s >? 0)
  && forallb (λ b, bool_decide (b ∈ block_present s)) (seqZ 0 ((total_size s + 7) / 8)).

(** The first [size] bytes of a buffer. *)
Definition buffer_bytes (buf : gmap Z Z) (size : Z) : list Z := get0 buf <$> seqZ 0 size.

(** The rest of the function, once the slot is known. *)
Definition reasm_deliver (i : nat) (frag_offset : Z) (more_fragments : bool) (payload : list Z)
    (n : net) : net :=
  let slots := reasm_slots (n_ip n) in
  match slots !! i with
  | None => n
  | Some s =>
      if frag_offset + Z.of_nat (length payload) >? IPV4_REASM_MAX_SIZE then
        set_slots (<[i := deactivate s]> slots) n
      else
        let s := slot_store frag_offset more_fragments payload s in
        if slot_complete s then
          set_slots (<[i := deactivate s]> slots)
            (ipv4_dispatch_payload (slot_protocol s) (src_ip s) (dst_ip s)
               (buffer_bytes (buffer s) (total_size s)) n)
        else set_slots (<[i := s]> slots) n
  end.

Definition ipv4_handle_fragment (source destination protocol id frag_offset : Z)
    (more_fragments : bool) (payload orig_pkt : list Z) (n : net) : net :=
  let now := tick n in
  let '(slots, calls, found) :=
    reasm_scan now source destination protocol id orig_pkt 0 (reasm_slots (n_ip n)) in
  let n := set_slots slots (fold_left (λ n u, call_up u n) calls n) in
  match found with
  | Some i => reasm_deliver i frag_offset more_fragments payload n
  | None =>
      match find_inactive 0 slots with
      | None => n
      | Some i =>
          reasm_deliver i frag_offset more_fragments payload
            (set_slots (alter (claim_slot now source destination protocol id) i slots) n)
      end
  end.

Definition net_ipv4_receive (source_mac : list Z) (packet : option (list Z)) (n : net) : net :=
  match packet with
  | None => count_dropped n
  | Some packet =>
      let size := Z.of_nat (length packet) in
      if (size <? IPV4_HEADER_SIZE) || negb (Z.shiftr (byte_at packet 0) 4 =? 4) then count_dropped n
      else
        let header_size := Z.land (byte_at packet 0) 0x0f * 4 in
        let total := read_u16_be packet 2 in
        if (header_size <? IPV4_HEADER_SIZE) || (header_size >? size) || (total <? header_size)
           || (total >? size) || negb (ipv4_checksum (take (Z.to_nat header_size) packet) =? 0)
        then count_dropped n
        else
          let identification := read_u16_be packet 4 in
          let flags_offset := read_u16_be packet 6 in
          let more_fragments := negb (Z.land flags_offset 0x2000 =? 0) in
          let frag_offset := u16 (Z.land flags_offset 0x1fff * 8) in
          let protocol := byte_at packet 9 in
          let source_address := read_u32_be packet 12 in
          let destination := read_u32_be packet 16 in
          let i := interface (n_ip n) in
          let in_dhcp_negotiation :=
            bool_decide (dhcp_state i = NET_DHCP_DISCOVERING)
            || bool_decide (dhcp_state i = NET_DHCP_REQUESTING) in
          if negb (available i)
             || (negb (destination =? ipv4_address i) && negb (destination =? 0xffffffff)
                 && negb (Z.shiftr destination 24 =? 127)
                 && negb (in_dhcp_negotiation && (protocol =? 17)))
          then count_dropped n
          else
            let n := count_received n in
            let payload := take (Z.to_nat (total - header_size)) (drop (Z.to_nat header_size) packet) in
            if negb more_fragments && (frag_offset =? 0)
            then ipv4_dispatch_payload protocol source_address destination payload n
            else ipv4_handle_fragment source_address destination protocol identification frag_offset
                   more_fragments payload packet n
  end.

(** ** Sending *)

(** The twenty header bytes with a given checksum field. *)
Definition ipv4_header (total identification flags_offset protocol checksum source destination : Z)
    : list Z :=
  [0x45; 0] ++ write_u16_be total ++ write_u16_be identification ++ write_u16_be flags_offset
  ++ [IPV4_DEFAULT_TTL; protocol] ++ write_u16_be checksum
  ++ write_u32_be source ++ write_u32_be destination.

(** The packet [ipv4_emit_fragment] builds. *)
Definition ipv4_packet (protocol source destination identification flags_offset : Z)
    (chunk : list Z) : list Z :=
  let total := u16 (IPV4_HEADER_SIZE + Z.of_nat (length chunk)) in
  let zeroed := ipv4_header total identification flags_offset protocol 0 source destination in
  ipv4_header total identification flags_offset protocol (ipv4_checksum zeroed) source destination
  ++ chunk.

Section Send.
  Context (transmit : list (list Z) → list Z → bool)
          (net_arp_resolve : Z → Z → net → net * option (list Z)).

Definition ipv4_emit_fragment (protocol source destination identification flags_offset : Z)
    (destination_mac chunk : list Z) (n : net) : net * bool :=
  net_ethernet_send transmit (Some destination_mac) IPV4_ETHERTYPE
    (Some (ipv4_packet protocol source destination identification flags_offset chunk)) n.

(** The fragment sent at [offset]: its flags word and its bytes. *)
Definition fragment_flags (size offset : Z) : Z :=
  let chunk_len := Z.min (size - offset) IPV4_MAX_FRAGMENT_PAYLOAD in
  let is_last := offset + chunk_len >=? size in
  let frag_offset := u16 (offset / 8) in
  u16 (Z.lor (if is_last then 0 else 0x2000) (Z.land frag_offset 0x1fff)).

Definition fragment_chunk (payload : list Z) (offset : Z) : list Z :=
  let chunk_len := Z.min (Z.of_nat (length payload) - offset) IPV4_MAX_FRAGMENT_PAYLOAD in
  take (Z.to_nat chunk_len) (drop (Z.to_nat offset) payload).

(** The transmission loop.  Every round advances [offset], so a fuel of
    [payload_size - offset] reaches the loop's exit ([fragment_loop_step]). *)
Fixpoint fragment_loop (fuel : nat) (protocol source destination ident : Z) (mac payload : list Z)
    (offset : Z) (n : net) : net * bool :=
  match fuel with
  | O => (n, true)
  | S fuel =>
      let payload_size := Z.of_nat (length payload) in
      if offset <? payload_size then
        let chunk_len := Z.min (payload_size - offset) IPV4_MAX_FRAGMENT_PAYLOAD in
        match ipv4_emit_fragment protocol source destination ident
                (fragment_flags payload_size offset) mac (fragment_chunk payload offset) n with
        | (n, false) => (n, false)
        | (n, true) => fragment_loop fuel protocol source destination ident mac payload
                         (offset + chunk_len) n
        end
      else (n, true)
  end.

Definition net_ipv4_send_from (protocol source destination : Z) (payload : option (list Z))
    (n : net) : net * bool :=
  let i := interface (n_ip n) in
  match payload with
  | None => (n, false)
  | Some payload =>
      let payload_size := Z.of_nat (length payload) in
      if negb (available i) || (payload_size =? 0)
         || (negb (source =? 0) && negb (source =? ipv4_address i))
      then (n, false)
      else if (destination =? ipv4_address i) || (Z.shiftr destination 24 =? 127) then
        let loop_src := if source =? 0 then ipv4_address i else source in
        (ipv4_dispatch_payload protocol loop_src destination payload n, true)
      else
        let '(n, destination_mac) :=
          if destination =? 0xffffffff then (n, Some (replicate 6 0xff))
          else
            let next_hop :=
              if Z.land destination (subnet_mask i) =? Z.land (ipv4_address i) (subnet_mask i)
              then destination else gateway i in
            if next_hop =? 0 then (n, None)
            else net_arp_resolve next_hop NET_ARP_DEFAULT_TIMEOUT_TICKS n in
        match destination_mac with
        | None => (n, false)
        | Some mac =>
            let i := interface (n_ip n) in
            let src := if source =? 0 then ipv4_address i else source in
            let ident := next_identification (n_ip n) in
            let n := set_ip (mk_ipv4 i (reasm_slots (n_ip n)) (u16 (ident + 1))) n in
            if payload_size <=? IPV4_MAX_FRAGMENT_PAYLOAD then
              ipv4_emit_fragment protocol src destination ident 0x4000 mac payload n
            else
              fragment_loop (length payload) protocol src destination ident mac payload 0 n
        end
  end.

Definition net_ipv4_send (protocol destination : Z) (payload : option (list Z)) (n : net) : net * bool :=
  net_ipv4_send_from protocol (ipv4_address (interface (n_ip n))) destination payload n.

End Send.

(** ** Text formats *)

Definition hex_digit (value : Z) : Z := if value <? 10 then 48 + value else 65 + value - 10.

Definition write_decimal (value : Z) : list Z :=
  if value >=? 100 then [48 + value / 100; 48 + (value / 10) mod 10; 48 + value mod 10]
  else if value >=? 10 then [48 + value / 10; 48 + value mod 10]
  else [48 + value].

(** The characters stored, with the terminating NUL. *)
Definition net_format_ipv4 (address : Z) : list Z :=
  let byte i := write_decimal (u8 (Z.shiftr address (24 - i * 8))) in
  byte 0 ++ [46] ++ byte 1 ++ [46] ++ byte 2 ++ [46] ++ byte 3 ++ [0].

Definition net_format_mac (address : list Z) : list Z :=
  let pair i := [hex_digit (Z.shiftr (byte_at address i) 4); hex_digit (Z.land (byte_at address i) 0x0f)] in
  pair 0 ++ [58] ++ pair 1 ++ [58] ++ pair 2 ++ [58] ++ pair 3 ++ [58] ++ pair 4 ++ [58] ++ pair 5 ++ [0].
