(* ===== verification/Ipv4Spec.v ===== *)
(** * Theorems on IPv4

    A header that [ipv4_emit_fragment] writes verifies and parses back to its
    fields; the fragments of a datagram, received in any order before the
    reassembly time-out, deliver the original payload exactly once. *)

From Stdlib Require Import ZArith Lia.
From stdpp Require Import gmap.
From S2P Require Import Prelude Inet NetState Ethernet Ipv4.

#[local] Open Scope Z_scope.

(** ** The header *)

Definition is_u16 (z : Z) : Prop := 0 ≤ z < 65536.

(** The arguments with which a packet is built are of their C types, and the
    chunk fits one packet. *)
Definition packet_args (protocol source destination identification flags_offset : Z)
    (chunk : list Z) : Prop :=
  is_u8 protocol ∧ is_u32 source ∧ is_u32 destination ∧ is_u16 identification ∧
  is_u16 flags_offset ∧ Forall is_u8 chunk ∧
  Z.of_nat (length chunk) ≤ IPV4_MAX_FRAGMENT_PAYLOAD.

Lemma length_header t i f p c s d : length (ipv4_header t i f p c s d) = 20%nat.
Proof. reflexivity. Qed.

Lemma header_u8 t i f p c s d : is_u8 p → Forall is_u8 (ipv4_header t i f p c s d).
Proof.
  intros Hp. unfold ipv4_header. bytes.
Qed.

(** The header as a prefix of ten bytes, the checksum and the addresses. *)
Lemma header_split t i f p c s d :
  ipv4_header t i f p c s d
  = ([0x45; 0] ++ write_u16_be t ++ write_u16_be i ++ write_u16_be f ++ [IPV4_DEFAULT_TTL; p])
    ++ write_u16_be c ++ (write_u32_be s ++ write_u32_be d).
Proof. reflexivity. Qed.

Lemma header_verifies t i f p s d :
  is_u8 p →
  ipv4_checksum (ipv4_header t i f p (ipv4_checksum (ipv4_header t i f p 0 s d)) s d) = 0.
Proof.
  intros Hp. rewrite !header_split. unfold ipv4_checksum. apply inet_checksum_fill.
  - bytes.
  - bytes.
  - by exists 5%nat.
  - reflexivity || (cbn; lia).
Qed.

Section Packet.
  Context (protocol source destination identification flags_offset : Z) (chunk : list Z).
  Context (Hargs : packet_args protocol source destination identification flags_offset chunk).

Let packet := ipv4_packet protocol source destination identification flags_offset chunk.

Lemma length_packet : length packet = (20 + length chunk)%nat.
Proof. reflexivity. Qed.

Lemma packet_u8 : Forall is_u8 packet.
Proof.
  destruct Hargs as (Hp & _ & _ & _ & _ & Hc & _).
  unfold packet, ipv4_packet. apply Forall_app. split; [by apply header_u8|done].
Qed.

Lemma packet_parses :
  byte_at packet 0 = 0x45 ∧ read_u16_be packet 2 = 20 + Z.of_nat (length chunk)
  ∧ read_u16_be packet 4 = identification ∧ read_u16_be packet 6 = flags_offset
  ∧ byte_at packet 9 = protocol ∧ read_u32_be packet 12 = source
  ∧ read_u32_be packet 16 = destination
  ∧ ipv4_checksum (take 20 packet) = 0 ∧ drop 20 packet = chunk.
Proof.
  destruct Hargs as (Hp & Hs & Hd & Hi & Hf & Hc & Hl). unfold IPV4_MAX_FRAGMENT_PAYLOAD in Hl.
  unfold packet, ipv4_packet. set (total := u16 _).
  assert (Ht : total = 20 + Z.of_nat (length chunk))
    by (unfold total, u16, IPV4_HEADER_SIZE; rewrite Z.mod_small; lia).
  set (c := ipv4_checksum _). unfold is_u16 in *. split_and!; try reflexivity.
  - rewrite <- Ht. apply (read_write_u16 total [0x45; 0]); [lia|done].
  - apply (read_write_u16 identification ([0x45; 0] ++ write_u16_be total)); [lia|done].
  - apply (read_write_u16 flags_offset
      ([0x45; 0] ++ write_u16_be total ++ write_u16_be identification)); [lia|done].
  - apply (read_write_u32 source ([0x45; 0] ++ write_u16_be total ++ write_u16_be identification
      ++ write_u16_be flags_offset ++ [IPV4_DEFAULT_TTL; protocol] ++ write_u16_be c)); done.
  - apply (read_write_u32 destination ([0x45; 0] ++ write_u16_be total ++ write_u16_be identification
      ++ write_u16_be flags_offset ++ [IPV4_DEFAULT_TTL; protocol] ++ write_u16_be c
      ++ write_u32_be source)); done.
  - rewrite take_app_length' by reflexivity. by apply header_verifies.
Qed.

(** What [net_ipv4_receive] does with a packet built by [ipv4_emit_fragment]
    and addressed to this interface. *)
Lemma receive_packet mac n :
  available (interface (n_ip n)) = true → destination = ipv4_address (interface (n_ip n)) →
  net_ipv4_receive mac (Some packet) n
  = (let more := negb (Z.land flags_offset 0x2000 =? 0) in
     let offset := u16 (Z.land flags_offset 0x1fff * 8) in
     if negb more && (offset =? 0)
     then ipv4_dispatch_payload protocol source destination chunk (count_received n)
     else ipv4_handle_fragment source destination protocol identification offset more chunk packet
            (count_received n)).
Proof.
  intros Hav Hdst. unfold net_ipv4_receive.
  destruct packet_parses as (E0 & E2 & E4 & E6 & E9 & E12 & E16 & Ec & Ed).
  rewrite E0, E2, E4, E6, E9, E12, E16.
  change (Z.land 69 15 * 4) with 20. change (Z.to_nat 20) with 20%nat. rewrite Ec, Ed.
  rewrite length_packet.
  destruct (Z.ltb_spec (Z.of_nat (20 + length chunk)) IPV4_HEADER_SIZE) as [H|_];
    [unfold IPV4_HEADER_SIZE in H; lia|].
  destruct (Z.gtb_spec 20 (Z.of_nat (20 + length chunk))); [lia|].
  destruct (Z.ltb_spec (20 + Z.of_nat (length chunk)) 20); [lia|].
  destruct (Z.gtb_spec (20 + Z.of_nat (length chunk)) (Z.of_nat (20 + length chunk))); [lia|].
  rewrite Hav, Hdst, (Z.eqb_refl (ipv4_address _)). rewrite take_ge by lia. reflexivity.
Qed.

End Packet.

(** ** Fragments *)

Definition chunk_len (size offset : Z) : Z := Z.min (size - offset) IPV4_MAX_FRAGMENT_PAYLOAD.

(** The offsets at which the transmission loop cuts a payload. *)
Definition fragment_offsets (size : Z) : list Z :=
  (λ k, IPV4_MAX_FRAGMENT_PAYLOAD * k) <$> seqZ 0 ((size + 1479) / 1480).

Lemma elem_of_fragment_offsets size o :
  o ∈ fragment_offsets size ↔ ∃ k, o = 1480 * k ∧ 0 ≤ k ∧ o < size.
Proof.
  unfold fragment_offsets, IPV4_MAX_FRAGMENT_PAYLOAD. rewrite list_elem_of_fmap. split.
  - intros (k & -> & Hk%elem_of_seqZ). exists k. split_and!; [done|lia|]. zsolve.
  - intros (k & -> & Hk & Hlt). exists k. split; [done|]. apply elem_of_seqZ. zsolve.
Qed.

Lemma NoDup_fragment_offsets size : NoDup (fragment_offsets size).
Proof.
  apply NoDup_fmap_2; [|apply NoDup_seqZ]. unfold IPV4_MAX_FRAGMENT_PAYLOAD. intros x y. lia.
Qed.

Lemma length_chunk payload o :
  0 ≤ o < Z.of_nat (length payload) →
  Z.of_nat (length (fragment_chunk payload o)) = chunk_len (Z.of_nat (length payload)) o.
Proof.
  intros Ho. unfold fragment_chunk, chunk_len, IPV4_MAX_FRAGMENT_PAYLOAD.
  rewrite length_take, length_drop. lia.
Qed.

Lemma chunk_u8 payload o : Forall is_u8 payload → Forall is_u8 (fragment_chunk payload o).
Proof. intros H. unfold fragment_chunk. by apply Forall_take, Forall_drop. Qed.

Lemma chunk_lookup payload o j :
  0 ≤ o → 0 ≤ j < chunk_len (Z.of_nat (length payload)) o →
  fragment_chunk payload o !! Z.to_nat j = payload !! Z.to_nat (o + j).
Proof.
  intros Ho Hj. unfold fragment_chunk, chunk_len in *. rewrite lookup_take_lt by lia.
  rewrite lookup_drop. f_equal. lia.
Qed.

(** The flags word carries the offset and the more-fragments bit. *)
Lemma fragment_flags_fields size o :
  0 ≤ o < size → size ≤ 65536 → o mod 8 = 0 →
  is_u16 (fragment_flags size o)
  ∧ u16 (Z.land (fragment_flags size o) 0x1fff * 8) = o
  ∧ negb (Z.land (fragment_flags size o) 0x2000 =? 0) = negb (o + chunk_len size o >=? size).
Proof.
  intros Ho Hs Hm. unfold fragment_flags.
  change (Z.min (size - o) IPV4_MAX_FRAGMENT_PAYLOAD) with (chunk_len size o).
  set (last := _ >=? size).
  assert (Hq : 0 ≤ o / 8 < 8192) by zsolve.
  assert (u16 (o / 8) = o / 8) as -> by (apply Z.mod_small; lia).
  rewrite (land_low_mask (o / 8) 13) by (done || lia). change (2 ^ 13) with 8192.
  rewrite (Z.mod_small (o / 8)) by lia.
  assert (Z.lor (if last then 0 else 8192) (o / 8) = (if last then 0 else 1) * 2 ^ 13 + o / 8) as ->.
  { rewrite <- lor_mul_pow2 by (change (2 ^ 13) with 8192; lia). by destruct last. }
  change (2 ^ 13) with 8192. set (w := _ + o / 8).
  assert (Hw : 0 ≤ w < 16384) by (unfold w; destruct last; lia).
  assert (u16 w = w) as -> by (apply Z.mod_small; lia).
  split_and!; [unfold is_u16; lia| |].
  - rewrite (land_low_mask w 13) by (done || lia). change (2 ^ 13) with 8192.
    assert (w mod 8192 = o / 8) as -> by (unfold w; destruct last; zsolve).
    unfold u16. rewrite Z.mod_small by lia. zsolve.
  - change 8192 with (2 ^ 13). rewrite land_bit by lia. rewrite negb_involutive.
    rewrite Z.testbit_odd, Z.shiftr_div_pow2 by lia. change (2 ^ 13) with 8192.
    assert (w / 8192 = if last then 0 else 1) as -> by (unfold w; destruct last; zsolve).
    by destruct last.
Qed.

(** ** Transmission *)

(** The default device is present and its driver accepts every frame. *)
Definition link_up (transmit : list (list Z) → list Z → bool) (mac : list Z) (n : net) : Prop :=
  (∀ sent frame, transmit sent frame = true) ∧
  ∃ dev, default_device (n_eth n) = Some dev ∧ dev_ops dev = true ∧ ops_transmit dev = true ∧
         mac_address dev = mac.

Lemma ethernet_send_ok transmit smac dmac t payload n :
  link_up transmit smac n → 0 < Z.of_nat (length payload) ≤ 1500 →
  ∃ n', net_ethernet_send transmit (Some dmac) t (Some payload) n = (n', true) ∧
    link_up transmit smac n' ∧
    wire (n_eth n') = wire (n_eth n) ++ [ethernet_frame dmac smac t payload].
Proof.
  intros [Htx (dev & Hdev & Hops & Hot & Hmac)] Hlen. unfold net_ethernet_send.
  destruct (Z.eqb_spec (Z.of_nat (length payload)) 0); [lia|].
  destruct (Z.gtb_spec (Z.of_nat (length payload)) (NET_ETHERNET_FRAME_MAX - ETHERNET_HEADER_SIZE)) as [H|];
    [unfold NET_ETHERNET_FRAME_MAX, ETHERNET_HEADER_SIZE in H; lia|].
  cbn [orb]. rewrite Hdev, Hops, Hot, Htx, Hmac. cbn [negb orb].
  eexists. split_and!; [done| |done]. split; [done|]. by exists dev.
Qed.

Section Transmission.
  Context (transmit : list (list Z) → list Z → bool) (smac dmac : list Z).
  Context (protocol source destination ident : Z) (payload : list Z).

Let size := Z.of_nat (length payload).

(** The frame that carries the fragment at an offset. *)
Definition fragment_frame (o : Z) : list Z :=
  ethernet_frame dmac smac IPV4_ETHERTYPE
    (ipv4_packet protocol source destination ident (fragment_flags size o) (fragment_chunk payload o)).

(** The frame of a datagram that needs no fragmentation (flags: don't fragment). *)
Definition whole_frame : list Z :=
  ethernet_frame dmac smac IPV4_ETHERTYPE
    (ipv4_packet protocol source destination ident 0x4000 payload).

(** The frames of a datagram. *)
Definition datagram_frames : list (list Z) :=
  if size <=? IPV4_MAX_FRAGMENT_PAYLOAD then [whole_frame] else fragment_frame <$> fragment_offsets size.

Lemma fragment_loop_ok fuel k n :
  link_up transmit smac n → 0 ≤ k → size - 1480 * k ≤ Z.of_nat fuel →
  ∃ n', fragment_loop transmit fuel protocol source destination ident dmac payload (1480 * k) n
          = (n', true) ∧
    wire (n_eth n') = wire (n_eth n)
      ++ (fragment_frame <$> ((λ j, 1480 * j) <$> seqZ k ((size + 1479) / 1480 - k))).
Proof.
  revert k n. induction fuel as [|fuel IH]; intros k n Hup Hk Hf; cbn [fragment_loop].
  - exists n. split; [done|]. rewrite seqZ_nil by zsolve. by rewrite app_nil_r.
  - fold size. destruct (Z.ltb_spec (1480 * k) size) as [Hlt|Hge].
    2:{ exists n. split; [done|]. rewrite seqZ_nil by zsolve. by rewrite app_nil_r. }
    assert (Hlen := length_chunk payload (1480 * k) ltac:(fold size; lia)). fold size in Hlen.
    unfold chunk_len, IPV4_MAX_FRAGMENT_PAYLOAD in Hlen.
    unfold ipv4_emit_fragment.
    edestruct (ethernet_send_ok transmit smac dmac IPV4_ETHERTYPE) as (n1 & E1 & Hup1 & Hw1).
    { exact Hup. }
    { rewrite length_packet. instantiate (1 := fragment_chunk payload (1480 * k)). lia. }
    rewrite E1. rewrite (seqZ_cons k) by zsolve. rewrite !fmap_cons.
    destruct (Z.le_gt_cases (size - 1480 * k) 1480) as [Hlast|Hmore].
    + (* the last fragment: the next test leaves the loop *)
      assert (size ≤ 1480 * (k + 1)) by lia.
      exists n1. rewrite seqZ_nil by zsolve. cbn [fmap list_fmap]. split; [|by rewrite Hw1].
      unfold IPV4_MAX_FRAGMENT_PAYLOAD. rewrite Z.min_l by lia.
      destruct fuel; cbn [fragment_loop]; [done|]. fold size.
      destruct (Z.ltb_spec (1480 * k + (size - 1480 * k)) size); [lia|done].
    + destruct (IH (k + 1) n1 Hup1) as (n2 & E2 & Hw2); [lia|lia|].
      exists n2. unfold IPV4_MAX_FRAGMENT_PAYLOAD. rewrite Z.min_r by lia.
      replace (1480 * k + 1480) with (1480 * (k + 1)) by lia. split; [done|].
      rewrite Hw2, Hw1, <- app_assoc. cbn [app].
      replace (Z.pred ((size + 1479) / 1480 - k)) with ((size + 1479) / 1480 - (k + 1)) by lia. done.
Qed.

End Transmission.

(** The sender's side: the interface is up, the destination is remote and its
    next hop resolves from the cache, without a change outside it
    ([resolve_hit] of ArpSpec). *)
Definition can_send (transmit : list (list Z) → list Z → bool)
    (resolve : Z → Z → net → net * option (list Z)) (smac dmac : list Z)
    (source destination : Z) (n : net) : Prop :=
  let i := interface (n_ip n) in
  let hop := if Z.land destination (subnet_mask i) =? Z.land (ipv4_address i) (subnet_mask i)
             then destination else gateway i in
  available i = true ∧ source = ipv4_address i ∧
  destination ≠ ipv4_address i ∧ Z.shiftr destination 24 ≠ 127 ∧ destination ≠ 0xffffffff ∧
  hop ≠ 0 ∧
  (∃ n1, resolve hop NET_ARP_DEFAULT_TIMEOUT_TICKS n = (n1, Some dmac) ∧
         n_ip n1 = n_ip n ∧ n_eth n1 = n_eth n) ∧
  link_up transmit smac n.

(** A send succeeds and puts the frames of the datagram on the wire. *)
Lemma send_frames transmit resolve smac dmac protocol source destination payload n :
  can_send transmit resolve smac dmac source destination n →
  payload ≠ [] →
  ∃ n', net_ipv4_send_from transmit resolve protocol source destination (Some payload) n = (n', true) ∧
    wire (n_eth n') = wire (n_eth n)
      ++ datagram_frames smac dmac protocol source destination (next_identification (n_ip n)) payload.
Proof.
  intros (Hav & Hsrc & Hd1 & Hd2 & Hd3 & Hhop & (n0 & Hres & Hip & Heth) & Hup) Hne.
  unfold net_ipv4_send_from. rewrite Hav. cbn [negb orb].
  destruct (Z.eqb_spec (Z.of_nat (length payload)) 0) as [H0|_]; [destruct payload; [done|cbn in H0; lia]|].
  rewrite Hsrc, Z.eqb_refl. rewrite andb_false_r. cbn [orb].
  rewrite (proj2 (Z.eqb_neq destination _) Hd1), (proj2 (Z.eqb_neq _ 127) Hd2). cbn [orb].
  rewrite (proj2 (Z.eqb_neq destination _) Hd3), (proj2 (Z.eqb_neq _ 0) Hhop), Hres.
  rewrite Hip. rewrite <- Heth. assert (Hup0 : link_up transmit smac n0).
  { unfold link_up. by rewrite Heth. }
  assert ((if ipv4_address (interface (n_ip n)) =? 0 then ipv4_address (interface (n_ip n))
           else ipv4_address (interface (n_ip n))) = ipv4_address (interface (n_ip n))) as ->
    by by destruct (_ =? 0).
  unfold datagram_frames. destruct (Z.leb_spec (Z.of_nat (length payload)) IPV4_MAX_FRAGMENT_PAYLOAD) as [Hle|Hgt].
  - unfold IPV4_MAX_FRAGMENT_PAYLOAD in Hle. unfold ipv4_emit_fragment.
    edestruct ethernet_send_ok as (n1 & E1 & _ & Hw1); [| |exists n1; split; [exact E1|exact Hw1]].
    + exact Hup0.
    + rewrite length_packet. destruct payload; [done|]. cbn [length] in *. lia.
  - edestruct (fragment_loop_ok transmit smac dmac protocol (ipv4_address (interface (n_ip n))) destination
      (next_identification (n_ip n)) payload (length payload) 0) as (n1 & E1 & Hw1);
      [| | |exists n1; split; [exact E1|]].
    + exact Hup0.
    + lia.
    + lia.
    + rewrite Hw1. rewrite Z.sub_0_r. reflexivity.
Qed.

(** ** Reassembly of one datagram *)

Lemma mark_blocks_spec present block count b :
  block + Z.of_nat count ≤ 8192 →
  b ∈ mark_blocks present block count ↔ b ∈ present ∨ block ≤ b < block + Z.of_nat count.
Proof.
  revert present block. induction count as [|count IH]; intros present block Hle; cbn [mark_blocks].
  - intuition lia.
  - change (IPV4_REASM_MAX_SIZE / 8) with 8192. destruct (Z.ltb_spec block 8192); [|lia].
    rewrite IH by lia. rewrite elem_of_union, elem_of_singleton. intuition lia.
Qed.

Lemma store_bytes_spec buf o l j :
  get0 (store_bytes buf o l) j
  = if decide (o ≤ j < o + Z.of_nat (length l)) then byte_at l (j - o) else get0 buf j.
Proof.
  revert buf o. induction l as [|b l IH]; intros buf o; cbn [store_bytes length].
  - rewrite decide_False by lia. done.
  - rewrite IH, get0_insert_dec. repeat case_decide; try lia; try done.
    + unfold byte_at. replace (Z.to_nat (j - o)) with (S (Z.to_nat (j - (o + 1)))) by lia. done.
    + subst. by rewrite Z.sub_diag.
Qed.

Section Reassembly.
  Context (source destination protocol id : Z) (payload : list Z).

Let size := Z.of_nat (length payload).

  Context (Hsize : 0 < size ≤ 65536).

(** Slot [s], created at [t0], holds the fragments at the offsets of [have]. *)
Definition slot_holds (t0 : Z) (have : list Z) (s : ipv4_reasm_slot) : Prop :=
  active s = true ∧ src_ip s = source ∧ dst_ip s = destination ∧ slot_id s = id ∧
  slot_protocol s = protocol ∧ created_tick s = t0 ∧
  (total_size s = if decide (Exists (λ o, size ≤ o + 1480) have) then size else 0) ∧
  (∀ b, b ∈ block_present s ↔
     ∃ o, o ∈ have ∧ o / 8 ≤ b < o / 8 + (chunk_len size o + 7) / 8) ∧
  (∀ o j, o ∈ have → o ≤ j < o + chunk_len size o → get0 (buffer s) j = byte_at payload j).

Lemma claim_holds t0 s : slot_holds t0 [] (claim_slot t0 source destination protocol id s).
Proof.
  unfold slot_holds, claim_slot.
  cbn [active src_ip dst_ip slot_id slot_protocol created_tick total_size received_bytes buffer block_present].
  split_and!; try done.
  - intros b. split; [set_solver|]. intros (o & Ho & _). by apply elem_of_nil in Ho.
  - intros o j Ho. by apply elem_of_nil in Ho.
Qed.

(** Facts on an offset of the datagram. *)
Lemma offset_facts o :
  o ∈ fragment_offsets size →
  0 ≤ o < size ∧ o mod 8 = 0 ∧ 0 < chunk_len size o ≤ 1480 ∧ o + chunk_len size o ≤ size ∧
  (o + chunk_len size o >=? size) = bool_decide (size ≤ o + 1480) ∧
  Z.of_nat (length (fragment_chunk payload o)) = chunk_len size o.
Proof.
  intros (k & -> & Hk & Hlt)%elem_of_fragment_offsets.
  split_and!; try lia; try (unfold chunk_len, IPV4_MAX_FRAGMENT_PAYLOAD; lia).
  - zsolve.
  - unfold chunk_len, IPV4_MAX_FRAGMENT_PAYLOAD.
    destruct (Z.geb_spec (1480 * k + Z.min (size - 1480 * k) 1480) size); symmetry.
    + apply bool_decide_eq_true. lia.
    + apply bool_decide_eq_false. lia.
  - apply length_chunk. fold size. lia.
Qed.

Lemma store_holds t0 have s o :
  (∀ o', o' ∈ have → o' ∈ fragment_offsets size) →
  o ∈ fragment_offsets size → slot_holds t0 have s →
  slot_holds t0 (o :: have)
    (slot_store o (negb (o + chunk_len size o >=? size)) (fragment_chunk payload o) s).
Proof.
  intros Hhave Ho (H1 & H2 & H3 & H4 & H5 & H6 & Htot & Hblk & Hbuf).
  destruct (offset_facts o Ho) as (Hrange & Hmod & Hcl & Hle & Hlast & Hlen).
  unfold slot_holds, slot_store.
  cbn [active src_ip dst_ip slot_id slot_protocol created_tick total_size received_bytes buffer block_present].
  rewrite Hlen. split_and!; try done.
  - rewrite Htot, Hlast. case_bool_decide as Hb; cbn [negb].
    + rewrite decide_True by by left.
      unfold chunk_len, IPV4_MAX_FRAGMENT_PAYLOAD. lia.
    + apply decide_ext. rewrite Exists_cons. intuition.
  - intros b. rewrite mark_blocks_spec, Hblk by zsolve.
    rewrite Z2Nat.id by zsolve. split.
    + intros [(o' & Ho' & Hb)|Hb]; [exists o'|exists o]; (split; [set_solver|done]).
    + intros (o' & [->|Ho']%elem_of_cons & Hb); [by right|left; by exists o'].
  - intros o' j Ho' Hj. rewrite store_bytes_spec, Hlen.
    destruct (decide (o ≤ j < o + chunk_len size o)) as [Hd|Hd].
    + unfold byte_at. rewrite chunk_lookup by (fold size; lia).
      by replace (o + (j - o)) with j by lia.
    + apply elem_of_cons in Ho' as [->|Ho']; [lia|]. by apply (Hbuf o').
Qed.

(** A slot is complete exactly when it holds every fragment. *)
Lemma holds_complete t0 have s :
  (∀ o, o ∈ have → o ∈ fragment_offsets size) → slot_holds t0 have s →
  slot_complete s = true ↔ ∀ o, o ∈ fragment_offsets size → o ∈ have.
Proof.
  intros Hhave (_ & _ & _ & _ & _ & _ & Htot & Hblk & _). unfold slot_complete.
  rewrite andb_true_iff, forallb_forall, Htot. split.
  - intros [Hpos Hall] o Ho. case_decide as Hd; [|done].
    destruct (offset_facts o Ho) as (Hr & Hmod & Hcl & Hle & _).
    assert (In (o / 8) (seqZ 0 ((size + 7) / 8))) as Hin.
    { apply list_elem_of_In, elem_of_seqZ. zsolve. }
    specialize (Hall _ Hin). apply bool_decide_eq_true in Hall.
    apply Hblk in Hall as (o' & Ho' & Hb).
    destruct (offset_facts o' (Hhave _ Ho')) as (Hr' & Hmod' & Hcl' & _).
    apply elem_of_fragment_offsets in Ho as (k & -> & Hk & Hlt).
    pose proof (Hhave _ Ho') as (k' & -> & Hk' & Hlt')%elem_of_fragment_offsets.
    assert (k = k') as -> by zsolve. done.
  - intros Hall.
    assert (Hlast : 1480 * ((size - 1) / 1480) ∈ fragment_offsets size).
    { apply elem_of_fragment_offsets. exists ((size - 1) / 1480). split_and!; [done|zsolve|zsolve]. }
    rewrite decide_True.
    2:{ apply Exists_exists. exists (1480 * ((size - 1) / 1480)). split; [by apply Hall|]. zsolve. }
    split; [apply Z.gtb_lt; lia|]. intros b Hb%list_elem_of_In%elem_of_seqZ.
    apply bool_decide_eq_true, Hblk. set (o := 1480 * (8 * b / 1480)).
    assert (Ho : o ∈ fragment_offsets size).
    { apply elem_of_fragment_offsets. exists (8 * b / 1480). split_and!; [done|zsolve|]. subst o. zsolve. }
    exists o. split; [by apply Hall|].
    unfold chunk_len, IPV4_MAX_FRAGMENT_PAYLOAD. subst o. zsolve.
Qed.

Lemma buffer_bytes_payload buf :
  (∀ j, 0 ≤ j < size → get0 buf j = byte_at payload j) → buffer_bytes buf size = payload.
Proof.
  intros Hb. apply list_eq. intros i. unfold buffer_bytes. rewrite list_lookup_fmap.
  destruct (decide (i < length payload)%nat) as [Hi|Hi].
  - rewrite lookup_seqZ_lt by (unfold size; lia). cbn [fmap option_fmap option_map].
    rewrite Hb by (unfold size; lia). unfold byte_at.
    replace (Z.to_nat (0 + Z.of_nat i)) with i by lia.
    destruct (lookup_lt_is_Some_2 payload i Hi) as [x ->]. done.
  - rewrite lookup_seqZ_ge by (unfold size; lia). by rewrite lookup_ge_None_2 by lia.
Qed.

(** The bytes of a complete slot are the payload. *)
Lemma holds_payload t0 have s :
  (∀ o, o ∈ fragment_offsets size → o ∈ have) → slot_holds t0 have s →
  total_size s = size ∧ buffer_bytes (buffer s) (total_size s) = payload.
Proof.
  intros Hall (_ & _ & _ & _ & _ & _ & Htot & _ & Hbuf).
  assert (Hmem : ∀ j, 0 ≤ j < size → 1480 * (j / 1480) ∈ have).
  { intros j Hj. apply Hall, elem_of_fragment_offsets. exists (j / 1480). split_and!; [done|zsolve|zsolve]. }
  assert (total_size s = size) as Hts.
  { rewrite Htot, decide_True; [done|]. apply Exists_exists. exists (1480 * ((size - 1) / 1480)).
    split; [apply Hmem; lia|]. zsolve. }
  split; [done|]. rewrite Hts. apply buffer_bytes_payload. intros j Hj.
  apply (Hbuf (1480 * (j / 1480))); [by apply Hmem|].
  unfold chunk_len, IPV4_MAX_FRAGMENT_PAYLOAD. zsolve.
Qed.

End Reassembly.

(** ** The slots of the receiver *)

(** The calls that hand a payload to the protocol above. *)
Definition is_dispatch (u : upcall) : Prop :=
  match u with net_icmp_send_time_exceeded_call _ _ _ => False | _ => True end.

#[export] Instance is_dispatch_dec u : Decision (is_dispatch u).
Proof. destruct u; simpl; apply _. Defined.

Definition deliveries (n : net) : list upcall := filter is_dispatch (upcalls n).

(** The call made for a payload: one for ICMP, UDP and TCP, none otherwise. *)
Definition dispatch_calls (protocol source destination : Z) (payload : list Z) : list upcall :=
  if protocol =? 1 then [net_icmp_receive_call source payload]
  else if protocol =? 17 then [net_udp_receive_call source destination payload]
  else if protocol =? 6 then [net_tcp_receive_call source destination payload]
  else [].

Lemma dispatch_deliveries protocol source destination payload n :
  deliveries (ipv4_dispatch_payload protocol source destination payload n)
  = deliveries n ++ dispatch_calls protocol source destination payload.
Proof.
  unfold ipv4_dispatch_payload, dispatch_calls, deliveries.
  repeat case_match; cbn [call_up upcalls]; rewrite ?filter_app, ?app_nil_r; done.
Qed.

Lemma dispatch_ip protocol source destination payload n :
  n_ip (ipv4_dispatch_payload protocol source destination payload n) = n_ip n.
Proof. unfold ipv4_dispatch_payload. by repeat case_match. Qed.

Section Slots.
  Context (source destination protocol id : Z).

Let matches := slot_matches source destination protocol id.

(** No active slot, slot [except] apart, is for this datagram. *)
Definition unmatched (except : option nat) (slots : list ipv4_reasm_slot) : Prop :=
  ∀ k s, slots !! k = Some s → Some k ≠ except → active s = true → matches s = false.

(** [slots'] is [slots] with some slots discarded. *)
Definition discarded (slots slots' : list ipv4_reasm_slot) : Prop :=
  Forall2 (λ s s', s' = s ∨ s' = deactivate s) slots slots'.

Lemma discarded_unmatched except slots slots' :
  discarded slots slots' → unmatched except slots → unmatched except slots'.
Proof.
  intros Hd Hu k s' Hk Hne Hact. destruct (Forall2_lookup_r _ _ _ _ _ Hd Hk) as (s & Hs & [->| ->]).
  - by apply (Hu k).
  - done.
Qed.

Lemma scan_discards now orig i slots :
  let r := reasm_scan now source destination protocol id orig i slots in
  discarded slots r.1.1 ∧ Forall (λ u, ¬ is_dispatch u) r.1.2.
Proof.
  revert i. induction slots as [|s slots IH]; intros i; cbn [reasm_scan].
  - split; [constructor|by apply Forall_nil].
  - specialize (IH (S i)).
    destruct (reasm_scan now source destination protocol id orig (S i) slots) as [[l c] r].
    cbn [fst snd] in IH |- *. destruct IH as [IHd IHc].
    assert (Hrefl : discarded slots slots) by (apply Forall2_same_length_lookup_2; [done|];
      intros ? x y ??; left; congruence).
    repeat case_match; cbn [fst snd]; split;
      first [by constructor; auto | by apply Forall_cons; auto | by apply Forall_nil | done].
Qed.

Lemma scan_found now orig i slots j s :
  slots !! j = Some s → active s = true → slot_expired now s = false → matches s = true →
  unmatched (Some j) slots →
  let r := reasm_scan now source destination protocol id orig i slots in
  r.2 = Some (i + j)%nat ∧ r.1.1 !! j = Some s.
Proof.
  revert i j. induction slots as [|x slots IH]; intros i j Hj Hact Hexp Hm Hu; [done|].
  cbn [reasm_scan]. destruct j as [|j].
  - injection Hj as ->. rewrite Hact, Hexp. unfold matches in Hm. rewrite Hm.
    cbn [fst snd]. by rewrite Nat.add_0_r.
  - cbn in Hj.
    assert (Hu' : unmatched (Some j) slots).
    { intros k y Hk Hne. apply (Hu (S k)); [done|]. congruence. }
    destruct (IH (S i) j Hj Hact Hexp Hm Hu') as [E1 E2].
    destruct (reasm_scan now source destination protocol id orig (S i) slots) as [[l c] r].
    cbn [fst snd] in E1, E2 |- *. subst r. replace (i + S j)%nat with (S i + j)%nat by lia.
    destruct (active x) eqn:Hax; [|done].
    destruct (slot_expired now x); [done|].
    assert (matches x = false) as Hmx by (by apply (Hu 0%nat)).
    unfold matches in Hmx. by rewrite Hmx.
Qed.

Lemma scan_none now orig i slots :
  unmatched None slots →
  (reasm_scan now source destination protocol id orig i slots).2 = None.
Proof.
  revert i. induction slots as [|x slots IH]; intros i Hu; [done|]. cbn [reasm_scan].
  assert (Hu' : unmatched None slots) by (intros k y Hk Hne; by apply (Hu (S k))).
  specialize (IH (S i) Hu').
  destruct (reasm_scan now source destination protocol id orig (S i) slots) as [[l c] r].
  cbn [snd] in IH. subst r. destruct (active x) eqn:Hax; [|done].
  destruct (slot_expired now x); [done|].
  assert (matches x = false) as Hmx by (by apply (Hu 0%nat)).
  unfold matches in Hmx. by rewrite Hmx.
Qed.

Lemma find_inactive_spec i slots :
  (∃ s, s ∈ slots ∧ active s = false) →
  ∃ k s, find_inactive i slots = Some (i + k)%nat ∧ slots !! k = Some s ∧ active s = false.
Proof.
  revert i. induction slots as [|x slots IH]; intros i (s & Hs & Ha); [by apply elem_of_nil in Hs|].
  cbn [find_inactive]. destruct (active x) eqn:Hx.
  - apply elem_of_cons in Hs as [->|Hs]; [congruence|].
    destruct (IH (S i)) as (k & y & E & Hk & Hy); [by exists s|].
    exists (S k), y. rewrite E. split; [f_equal; lia|done].
  - exists 0%nat, x. rewrite Nat.add_0_r. done.
Qed.

Lemma discarded_inactive slots slots' :
  discarded slots slots' → (∃ s, s ∈ slots ∧ active s = false) → ∃ s, s ∈ slots' ∧ active s = false.
Proof.
  intros Hd (s & [k Hk]%list_elem_of_lookup & Ha).
  destruct (Forall2_lookup_l _ _ _ _ _ Hd Hk) as (s' & Hk' & Hs').
  exists s'. split; [by apply list_elem_of_lookup; exists k|]. by destruct Hs' as [->| ->].
Qed.

Lemma unmatched_insert k s slots :
  unmatched (Some k) slots → active s = false → unmatched None (<[k := s]> slots).
Proof.
  intros Hu Ha j x Hj _ Hx. destruct (decide (k = j)) as [->|Hne].
  - apply list_lookup_insert_Some in Hj as [(_ & <- & _)|[? _]]; [congruence|done].
  - rewrite list_lookup_insert_ne in Hj by done. apply (Hu j); [done|congruence|done].
Qed.

Lemma unmatched_insert_same k s slots :
  unmatched (Some k) slots → unmatched (Some k) (<[k := s]> slots).
Proof.
  intros Hu j x Hj Hne Hx. rewrite list_lookup_insert_ne in Hj by congruence. by apply (Hu j).
Qed.

Lemma unmatched_weaken k slots : unmatched None slots → unmatched (Some k) slots.
Proof. intros Hu j x Hj _ Hx. by apply (Hu j). Qed.

End Slots.

Lemma call_up_fold calls n :
  let n' := fold_left (λ n u, call_up u n) calls n in
  n_ip n' = n_ip n ∧ tick n' = tick n ∧ upcalls n' = upcalls n ++ calls.
Proof.
  revert n. induction calls as [|u calls IH]; intros n; cbn [fold_left].
  - by rewrite app_nil_r.
  - destruct (IH (call_up u n)) as (-> & -> & ->). cbn. by rewrite <- app_assoc.
Qed.
