(* ===== verification/Ipv4Reasm.v ===== *)
(** * Fragmentation and reassembly round trip

    Lifts the slot lemmas of Ipv4Spec to the receive path and composes them with
    the send path of the other side. *)

From Stdlib Require Import ZArith Lia.
From stdpp Require Import gmap.
From S2P Require Import Prelude Inet NetState Ethernet Ipv4 Ipv4Spec.

#[local] Open Scope Z_scope.

(** The interface is up and has the address [destination]. *)
Definition listening (destination : Z) (n : net) : Prop :=
  available (interface (n_ip n)) = true ∧ ipv4_address (interface (n_ip n)) = destination.

(** One frame taken from the device at tick [t], through [net_poll]'s
    demultiplexer. *)
Definition receive_at (net_arp_receive : list Z → list Z → net → net) (n : net)
    (arrival : Z * list Z) : net :=
  receive_frame net_arp_receive (λ mac p, net_ipv4_receive mac (Some p)) (snd arrival)
    (set_tick (fst arrival) n).

Section Datagram.
  Context (source destination protocol id : Z) (payload : list Z).

Let size := Z.of_nat (length payload).

  Context (Hsize : 0 < size ≤ 65536).

Let holds := slot_holds source destination protocol id payload.
Let all_in (have : list Z) := ∀ o, o ∈ fragment_offsets size → o ∈ have.

(** The receiver is in the middle of the datagram, with the fragments [have]. *)
Definition receiving (t0 : Z) (have : list Z) (n : net) : Prop :=
  ∃ k s, reasm_slots (n_ip n) !! k = Some s ∧ holds t0 have s ∧
    unmatched source destination protocol id (Some k) (reasm_slots (n_ip n)).

(** The receiver has no slot for the datagram. *)
Definition idle (n : net) : Prop :=
  unmatched source destination protocol id None (reasm_slots (n_ip n)).

(** The outcome of one more fragment, [have] including it: the payload is
    handed up and the slot released, or the slot waits for the rest. *)
Definition step_outcome (t0 : Z) (have : list Z) (n n' : net) : Prop :=
  listening destination n' ∧
  (all_in have → deliveries n' = deliveries n ++ dispatch_calls protocol source destination payload
                 ∧ idle n') ∧
  (¬ all_in have → deliveries n' = deliveries n ∧ receiving t0 have n').

Lemma deliver_outcome t0 have k s o n :
  listening destination n →
  (∀ o', o' ∈ have → o' ∈ fragment_offsets size) → o ∈ fragment_offsets size →
  reasm_slots (n_ip n) !! k = Some s → holds t0 have s →
  unmatched source destination protocol id (Some k) (reasm_slots (n_ip n)) →
  step_outcome t0 (o :: have) n
    (reasm_deliver k o (negb (o + chunk_len size o >=? size)) (fragment_chunk payload o) n).
Proof.
  intros Hlis Hhave Ho Hk Hs Hu. unfold reasm_deliver. rewrite Hk.
  destruct (offset_facts payload o Ho) as (Hr & _ & _ & Hle & _ & Hlen). fold size in Hle, Hlen.
  destruct (Z.gtb_spec (o + Z.of_nat (length (fragment_chunk payload o))) IPV4_REASM_MAX_SIZE) as [H|_];
    [unfold IPV4_REASM_MAX_SIZE in H; lia|].
  pose proof (store_holds source destination protocol id payload Hsize t0 have s o Hhave Ho Hs) as Hs'.
  fold size in Hs'. set (s' := slot_store _ _ _ s) in *.
  assert (Hhave' : ∀ o', o' ∈ o :: have → o' ∈ fragment_offsets size) by set_solver.
  pose proof (holds_complete _ _ _ _ _ Hsize t0 _ s' Hhave' Hs') as Hcomp.
  assert (Hlt : (k < length (reasm_slots (n_ip n)))%nat) by (by eapply lookup_lt_Some).
  destruct (slot_complete s') eqn:Ec.
  - assert (Hall : all_in (o :: have)) by (exact (proj1 Hcomp eq_refl)).
    destruct (holds_payload _ _ _ _ _ Hsize t0 _ s' Hall Hs') as [_ Hbytes].
    destruct Hs' as (_ & Hsrc & Hdst & _ & Hpr & _).
    rewrite Hbytes, Hsrc, Hdst, Hpr. split_and!.
    + unfold listening. cbn [set_slots set_ip n_ip interface]. by rewrite dispatch_ip.
    + intros _. split; [exact (dispatch_deliveries protocol source destination payload n)|].
      unfold idle. cbn [set_slots set_ip n_ip reasm_slots]. by apply unmatched_insert.
    + intros Hn. by destruct Hn.
  - assert (Hn : ¬ all_in (o :: have)) by (intros Ha; by apply Hcomp in Ha).
    split_and!; [done|done|]. intros _. split; [done|]. exists k, s'.
    cbn [set_slots set_ip n_ip reasm_slots]. split_and!; [by rewrite list_lookup_insert_eq|done|].
    by apply unmatched_insert_same.
Qed.

(** Setting the slots after the scan's calls changes neither the interface nor
    the deliveries. *)
Lemma scan_state slots calls n :
  Forall (λ u, ¬ is_dispatch u) calls →
  let n' := set_slots slots (fold_left (λ n u, call_up u n) calls n) in
  reasm_slots (n_ip n') = slots ∧ interface (n_ip n') = interface (n_ip n) ∧
  deliveries n' = deliveries n.
Proof.
  intros Hc. cbn zeta. destruct (call_up_fold calls n) as (Hip & _ & Hup).
  cbn [set_slots set_ip n_ip reasm_slots interface]. split_and!; [done|by rewrite Hip|].
  unfold deliveries. cbn [set_slots set_ip upcalls]. rewrite Hup, filter_app.
  rewrite (filter_none is_dispatch calls); [by rewrite app_nil_r|]. by apply Forall_forall.
Qed.

Lemma outcome_from t0 have n1 n n' :
  deliveries n1 = deliveries n → step_outcome t0 have n1 n' → step_outcome t0 have n n'.
Proof. intros Hd (H1 & H2 & H3). unfold step_outcome. by rewrite <- Hd. Qed.

(** A fragment of a datagram already being received. *)
Lemma handle_next t0 have o orig n :
  listening destination n → receiving t0 have n →
  (∀ o', o' ∈ have → o' ∈ fragment_offsets size) → o ∈ fragment_offsets size →
  u64 (tick n - t0) < IPV4_REASM_TIMEOUT_TICKS →
  step_outcome t0 (o :: have) n
    (ipv4_handle_fragment source destination protocol id o
       (negb (o + chunk_len size o >=? size)) (fragment_chunk payload o) orig n).
Proof.
  intros Hlis (k & s & Hk & Hs & Hu) Hhave Ho Ht. unfold ipv4_handle_fragment.
  pose proof Hs as (Hact & Hsrc & Hdst & Hid & Hpr & Hcr & _).
  assert (Hexp : slot_expired (tick n) s = false).
  { unfold slot_expired. rewrite Hcr. destruct (Z.geb_spec (u64 (tick n - t0)) IPV4_REASM_TIMEOUT_TICKS); [lia|done]. }
  assert (Hm : slot_matches source destination protocol id s = true).
  { unfold slot_matches. by rewrite Hsrc, Hdst, Hid, Hpr, !Z.eqb_refl. }
  pose proof (scan_found source destination protocol id (tick n) orig 0 _ k s Hk Hact Hexp Hm Hu) as Hf.
  pose proof (scan_discards source destination protocol id (tick n) orig 0 (reasm_slots (n_ip n))) as Hd.
  destruct (reasm_scan (tick n) source destination protocol id orig 0 (reasm_slots (n_ip n)))
    as [[slots calls] found]. cbn [fst snd] in Hf, Hd. destruct Hf as [-> Hk']. destruct Hd as [Hd Hc].
  destruct (scan_state slots calls n Hc) as (Esl & Eif & Edl). rewrite Nat.add_0_l.
  apply outcome_from with (1 := Edl). apply deliver_outcome with s; [| | | |done|].
  - unfold listening. by rewrite Eif.
  - done.
  - done.
  - by rewrite Esl.
  - rewrite Esl. by eapply discarded_unmatched.
Qed.

(** The first fragment of a datagram, when a slot is free. *)
Lemma handle_first o orig n :
  listening destination n → idle n → (∃ s, s ∈ reasm_slots (n_ip n) ∧ active s = false) →
  o ∈ fragment_offsets size →
  step_outcome (tick n) [o] n
    (ipv4_handle_fragment source destination protocol id o
       (negb (o + chunk_len size o >=? size)) (fragment_chunk payload o) orig n).
Proof.
  intros Hlis Hidle Hfree Ho. unfold ipv4_handle_fragment.
  pose proof (scan_none source destination protocol id (tick n) orig 0 _ Hidle) as Hf.
  pose proof (scan_discards source destination protocol id (tick n) orig 0 (reasm_slots (n_ip n))) as Hd.
  destruct (reasm_scan (tick n) source destination protocol id orig 0 (reasm_slots (n_ip n)))
    as [[slots calls] found]. cbn [fst snd] in Hf, Hd. subst found. destruct Hd as [Hd Hc].
  destruct (find_inactive_spec 0 slots) as (k & s & -> & Hk & _); [by eapply discarded_inactive|].
  destruct (scan_state slots calls n Hc) as (_ & Eif & Edl). rewrite Nat.add_0_l.
  set (n1 := set_slots slots _) in *.
  assert (Hu : unmatched source destination protocol id (Some k) slots)
    by (eapply unmatched_weaken, discarded_unmatched; done).
  apply outcome_from with (n1 := set_slots (alter (claim_slot (tick n) source destination protocol id) k slots) n1).
  { by unfold deliveries in *; cbn [set_slots set_ip upcalls] in *. }
  apply deliver_outcome with (s := claim_slot (tick n) source destination protocol id s).
  - unfold listening. cbn [set_slots set_ip n_ip interface]. by rewrite Eif.
  - intros o' Ho'. by apply elem_of_nil in Ho'.
  - done.
  - cbn [set_slots set_ip n_ip reasm_slots]. by rewrite list_lookup_alter_eq, Hk.
  - by apply claim_holds.
  - cbn [set_slots set_ip n_ip reasm_slots].
    intros j x Hj Hne. rewrite list_lookup_alter_ne in Hj by congruence. by apply (Hu j).
Qed.

(** *** Frames *)

  Context (smac dmac : list Z) (net_arp_receive : list Z → list Z → net → net).
  Context (Hsmac : length smac = 6%nat) (Hdmac : length dmac = 6%nat).
  Context (Hargs : is_u8 protocol ∧ is_u32 source ∧ is_u32 destination ∧ is_u16 id ∧
                   Forall is_u8 payload).

Let frame := fragment_frame smac dmac protocol source destination id payload.

(** The state in which the handler of an arriving frame runs. *)
Definition arrived (t : Z) (n : net) : net :=
  let e := n_eth n in
  count_received (set_eth (mk_ethernet (default_device e) (frames_sent e)
    (u64 (frames_received e + 1)) (frames_dropped e) (wire e) (rx e)) (set_tick t n)).

Lemma receive_fragment t o n :
  listening destination n → 1480 < size → o ∈ fragment_offsets size →
  receive_at net_arp_receive n (t, frame o)
  = ipv4_handle_fragment source destination protocol id o (negb (o + chunk_len size o >=? size))
      (fragment_chunk payload o)
      (ipv4_packet protocol source destination id (fragment_flags size o) (fragment_chunk payload o))
      (arrived t n).
Proof.
  intros [Hav Haddr] Hbig Ho. unfold receive_at, frame, fragment_frame. cbn [fst snd].
  change IPV4_ETHERTYPE with ETHER_TYPE_IPV4. rewrite receive_frame_ipv4 by done.
  fold size. destruct (offset_facts payload o Ho) as (Hr & Hmod & Hcl & _ & _ & Hlen).
  fold size in Hr, Hcl, Hlen.
  destruct (fragment_flags_fields size o) as (Hfl & Hoff & Hmore); [lia|lia|done|].
  destruct Hargs as (Hp & Hs & Hd & Hi & Hb).
  rewrite receive_packet; [| |done|done].
  2:{ unfold packet_args, IPV4_MAX_FRAGMENT_PAYLOAD. split_and!; try done; [by apply chunk_u8|lia]. }
  cbn zeta. rewrite Hmore, Hoff. rewrite negb_involutive.
  destruct (Z.geb_spec (o + chunk_len size o) size) as [Hge|Hlt]; [|done].
  destruct (Z.eqb_spec o 0) as [->|]; [|done].
  unfold chunk_len, IPV4_MAX_FRAGMENT_PAYLOAD in Hge. lia.
Qed.

Lemma receive_rest t0 ts os have n :
  listening destination n → receiving t0 have n → 1480 < size →
  length ts = length os → Forall (λ t, u64 (t - t0) < IPV4_REASM_TIMEOUT_TICKS) ts →
  os ≠ [] → os ++ have ≡ₚ fragment_offsets size →
  let n' := fold_left (receive_at net_arp_receive) (zip ts (frame <$> os)) n in
  deliveries n' = deliveries n ++ dispatch_calls protocol source destination payload ∧ idle n'.
Proof.
  revert ts have n. induction os as [|o os IH]; intros ts have n Hlis Hrec Hbig Hlen Hts Hne Hperm; [done|].
  destruct ts as [|t ts]; [done|]. apply Forall_cons in Hts as [Ht Hts].
  cbn [fmap list_fmap zip_with fold_left].
  assert (Hmem : ∀ o', o' ∈ o :: os ++ have → o' ∈ fragment_offsets size)
    by (intros o' Ho'; by rewrite <- Hperm).
  rewrite receive_fragment by (done || (apply Hmem; left)).
  destruct (handle_next t0 have o (ipv4_packet protocol source destination id
      (fragment_flags size o) (fragment_chunk payload o)) (arrived t n)) as (Hlis' & Hdone & Hwait);
    [done|done|intros; apply Hmem; set_solver|apply Hmem; left|done|].
  set (n1 := ipv4_handle_fragment _ _ _ _ _ _ _ _ _) in *.
  destruct os as [|o2 os].
  - destruct ts; [|done]. cbn [fmap list_fmap zip_with fold_left].
    apply Hdone. intros o' Ho'. by rewrite <- Hperm in Ho'.
  - destruct Hwait as [Hdel Hrec'].
    { intros Hall. assert (o2 ∈ o :: have) as Hin by (apply Hall, Hmem; set_solver).
      pose proof (NoDup_fragment_offsets size) as Hnd. rewrite <- Hperm in Hnd.
      cbn [app] in Hnd. rewrite !NoDup_cons in Hnd. destruct Hnd as (Hno & Hno2 & _).
      apply elem_of_cons in Hin as [->|Hin]; [apply Hno; left|].
      apply Hno2. apply elem_of_app. by right. }
    change (deliveries n) with (deliveries (arrived t n)). rewrite <- Hdel.
    apply (IH ts (o :: have)); try done.
    + cbn in Hlen |- *. lia.
    + rewrite <- Hperm. symmetry. apply (Permutation_middle (o2 :: os) have o).
Qed.

(** All the fragments, from an idle receiver with a free slot. *)
Lemma receive_all t0 ts os n :
  listening destination n → idle n → (∃ s, s ∈ reasm_slots (n_ip n) ∧ active s = false) →
  1480 < size → length os = S (length ts) →
  Forall (λ t, u64 (t - t0) < IPV4_REASM_TIMEOUT_TICKS) ts →
  os ≡ₚ fragment_offsets size →
  let n' := fold_left (receive_at net_arp_receive) (zip (t0 :: ts) (frame <$> os)) n in
  deliveries n' = deliveries n ++ dispatch_calls protocol source destination payload ∧ idle n'.
Proof.
  intros Hlis Hidle Hfree Hbig Hlen Hts Hperm. destruct os as [|o os]; [done|].
  cbn [fmap list_fmap zip_with fold_left].
  assert (Hmem : ∀ o', o' ∈ o :: os → o' ∈ fragment_offsets size)
    by (intros o' Ho'; by rewrite <- Hperm).
  rewrite receive_fragment by (done || (apply Hmem; left)).
  destruct (handle_first o (ipv4_packet protocol source destination id
      (fragment_flags size o) (fragment_chunk payload o)) (arrived t0 n)) as (Hlis' & _ & Hwait);
    [done|done|done|apply Hmem; left|].
  assert (Hos : ∃ o2, o2 ∈ os ∧ o2 ≠ o).
  { assert (H0 : 0 ∈ o :: os) by (rewrite Hperm; apply elem_of_fragment_offsets; exists 0; lia).
    assert (H1 : 1480 ∈ o :: os) by (rewrite Hperm; apply elem_of_fragment_offsets; exists 1; lia).
    destruct (decide (o = 0)) as [->|]; [exists 1480|exists 0]; set_solver. }
  destruct Hos as (o2 & Ho2 & Hne). destruct Hwait as [Hdel Hrec].
  { intros Hall. assert (o2 ∈ [o]) as Hin by (apply Hall, Hmem; by right). set_solver. }
  set (n1 := ipv4_handle_fragment _ _ _ _ _ _ _ _ _) in *.
  change (deliveries n) with (deliveries (arrived t0 n)). rewrite <- Hdel.
  apply (receive_rest t0 ts os [o]); try done.
  - cbn in Hlen. lia.
  - intros ->. by apply elem_of_nil in Ho2.
  - rewrite <- Hperm. by rewrite (comm app).
Qed.

End Datagram.

(** A datagram that needs no fragmentation. *)
Lemma receive_whole smac dmac protocol source destination id payload net_arp_receive t n :
  length smac = 6%nat → length dmac = 6%nat →
  packet_args protocol source destination id 0x4000 payload →
  listening destination n →
  let n' := receive_at net_arp_receive n
              (t, whole_frame smac dmac protocol source destination id payload) in
  deliveries n' = deliveries n ++ dispatch_calls protocol source destination payload
  ∧ reasm_slots (n_ip n') = reasm_slots (n_ip n).
Proof.
  intros Hs Hd Hargs [Hav Haddr]. unfold receive_at, whole_frame. cbn [fst snd].
  change IPV4_ETHERTYPE with ETHER_TYPE_IPV4. rewrite receive_frame_ipv4 by done.
  rewrite receive_packet by done. cbn zeta.
  change (negb (negb (Z.land 16384 8192 =? 0)) && (u16 (Z.land 16384 8191 * 8) =? 0)) with true.
  cbn match. rewrite dispatch_deliveries, dispatch_ip. done.
Qed.

(** C29: A datagram of 1 to 65536 bytes that [net_ipv4_send_from] sends to another
    host goes out as a list of frames such that a host with that address and a
    free reassembly slot, which receives these frames in any order within 30
    seconds of the first, hands exactly the original payload to the protocol
    above, once, and holds no slot for the datagram afterwards. *)
Theorem fragmentation_roundtrip transmit resolve net_arp_receive smac dmac
    protocol source destination payload sender receiver :
  can_send transmit resolve smac dmac source destination sender →
  length smac = 6%nat → length dmac = 6%nat →
  is_u8 protocol → is_u32 source → is_u32 destination →
  is_u16 (next_identification (n_ip sender)) → Forall is_u8 payload →
  0 < Z.of_nat (length payload) ≤ 65536 →
  listening destination receiver →
  idle source destination protocol (next_identification (n_ip sender)) receiver →
  (∃ s, s ∈ reasm_slots (n_ip receiver) ∧ active s = false) →
  ∃ sender' frames,
    net_ipv4_send_from transmit resolve protocol source destination (Some payload) sender
      = (sender', true) ∧
    wire (n_eth sender') = wire (n_eth sender) ++ frames ∧
    ∀ t0 ts arrivals,
      arrivals ≡ₚ frames → length arrivals = S (length ts) →
      Forall (λ t, u64 (t - t0) < IPV4_REASM_TIMEOUT_TICKS) ts →
      let receiver' := fold_left (receive_at net_arp_receive) (zip (t0 :: ts) arrivals) receiver in
      deliveries receiver'
        = deliveries receiver ++ dispatch_calls protocol source destination payload ∧
      idle source destination protocol (next_identification (n_ip sender)) receiver'.
Proof.
  intros Hsend Hsm Hdm Hp Hs Hd Hi Hb Hsize Hlis Hidle Hfree.
  destruct (send_frames transmit resolve smac dmac protocol source destination payload sender Hsend)
    as (sender' & Esend & Hwire); [intros ->; cbn in Hsize; lia|].
  exists sender'. eexists. split_and!; [exact Esend|exact Hwire|].
  intros t0 ts arrivals Hperm Hlen Hts. unfold datagram_frames in Hperm.
  destruct (Z.leb_spec (Z.of_nat (length payload)) IPV4_MAX_FRAGMENT_PAYLOAD) as [Hle|Hgt].
  - symmetry in Hperm. apply Permutation_singleton_l in Hperm. subst arrivals.
    destruct ts; [|done]. cbn [zip_with fold_left].
    destruct (receive_whole smac dmac protocol source destination (next_identification (n_ip sender))
      payload net_arp_receive t0 receiver) as [Hdel Hsl]; [done|done| |done|].
    + refine (conj Hp (conj Hs (conj Hd (conj Hi (conj _ (conj Hb Hle)))))). by split; vm_compute.
    + split; [exact Hdel|]. unfold idle. by rewrite Hsl.
  - apply Permutation_map_inv in Hperm as (os & -> & Hos). symmetry in Hos.
    apply receive_all; try done.
    by rewrite length_map in Hlen.
Qed.

(** *** A datagram of two fragments, the second arriving first *)

Definition host (address : Z) (mac : list Z) : net :=
  mk_net 0 (mk_ethernet (Some (mk_device mac true true true true)) 0 0 0 [] [])
    (mk_arp [] 0 0)
    (mk_ipv4 (mk_interface true mac address 0xffffff00 0x0a000001 0 NET_CONFIGURATION_STATIC
        NET_DHCP_IDLE 0 0 0)
      (replicate 8 (mk_slot false 0 0 0 0 0 0 0 ∅ ∅)) 7)
    (mk_icmp (mk_waiter false false 0 0 0 0) 0 0 0 0) [].

Lemma fragmentation_roundtrip_witness :
  ∃ sender' frames,
    net_ipv4_send_from (λ _ _, true) (λ _ _ n, (n, Some (replicate 6 2))) 17 0x0a000002 0x0a000003
      (Some (replicate 1600 9)) (host 0x0a000002 (replicate 6 1)) = (sender', true) ∧
    wire (n_eth sender') = [] ++ frames ∧
    ∀ t0 ts arrivals,
      arrivals ≡ₚ frames → length arrivals = S (length ts) →
      Forall (λ t, u64 (t - t0) < IPV4_REASM_TIMEOUT_TICKS) ts →
      let receiver' := fold_left (receive_at (λ _ _ n, n)) (zip (t0 :: ts) arrivals)
                         (host 0x0a000003 (replicate 6 2)) in
      deliveries receiver' = [] ++ [net_udp_receive_call 0x0a000002 0x0a000003 (replicate 1600 9)] ∧
      idle 0x0a000002 0x0a000003 17 7 receiver'.
Proof.
  apply (fragmentation_roundtrip (λ _ _, true) (λ _ _ n, (n, Some (replicate 6 2))) (λ _ _ n, n)
    (replicate 6 1) (replicate 6 2) 17 0x0a000002 0x0a000003 (replicate 1600 9)
    (host 0x0a000002 (replicate 6 1)) (host 0x0a000003 (replicate 6 2))).
  - unfold can_send. cbn zeta. split_and!; try reflexivity; try (vm_compute; discriminate); [by eexists|].
    split; [done|]. by eexists.
  - reflexivity.
  - reflexivity.
  - vm_compute; split; congruence.
  - vm_compute; split; congruence.
  - vm_compute; split; congruence.
  - vm_compute; split; congruence.
  - apply Forall_replicate. vm_compute; split; congruence.
  - rewrite length_replicate. lia.
  - split; reflexivity.
  - intros k s Hk _ Hact. apply lookup_replicate in Hk as [-> _]. done.
  - exists (mk_slot false 0 0 0 0 0 0 0 ∅ ∅). split; [left|done].
Defined.
