(* ===== verification/Arp.v ===== *)
(** * ARP (src/net/arp.c)

    The cache of sixteen entries, the request and reply packets and the
    resolution loop.  A critical section of [arp_lock] is one function of the
    cache and of [now], the value of [timer_ticks()] read in it. *)

From Stdlib Require Import ZArith Lia.
From stdpp Require Import gmap.
From S2P Require Import Prelude Inet NetState Ethernet Ipv4.

#[local] Open Scope Z_scope.

Definition ARP_PACKET_SIZE : Z := 28.
Definition ARP_HARDWARE_ETHERNET : Z := 1.
Definition ARP_PROTOCOL_IPV4 : Z := 0x0800.
Definition ARP_OPERATION_REQUEST : Z := 1.
Definition ARP_OPERATION_REPLY : Z := 2.
Definition ARP_ETHERTYPE : Z := 0x0806.
Definition ARP_ENTRY_TTL_TICKS : Z := 6000.

Abbreviation entry := net_arp_cache_entry.

(** [for] loop of [mac_equal] over the six bytes. *)
Definition mac_equal (left right : list Z) : bool :=
  forallb (λ i, byte_at left i =? byte_at right i) (seqZ 0 NET_ETHERNET_ADDRESS_SIZE).

(** ** The cache *)

Definition entry_expired (now : Z) (e : entry) : bool :=
  (expires_at_tick e >? 0) && (now >=? expires_at_tick e).

Definition invalidate (e : entry) : entry :=
  mk_arp_entry false (arp_ipv4_address e) (arp_mac_address e) (learned_at_tick e) (expires_at_tick e).

(** An entry after the expiry test that every loop starts with. *)
Definition expire (now : Z) (e : entry) : entry :=
  if arp_valid e && entry_expired now e then invalidate e else e.

Definition arp_prune (now : Z) (cache : list entry) : list entry := expire now <$> cache.

(** The scan stops at the first live entry of the address. *)
Fixpoint arp_scan (now address : Z) (cache : list entry) : list entry * option (list Z) :=
  match cache with
  | [] => ([], None)
  | e :: rest =>
      if arp_valid e then
        if entry_expired now e then
          let '(rest, r) := arp_scan now address rest in (invalidate e :: rest, r)
        else if arp_ipv4_address e =? address then (e :: rest, Some (arp_mac_address e))
        else let '(rest, r) := arp_scan now address rest in (e :: rest, r)
      else let '(rest, r) := arp_scan now address rest in (e :: rest, r)
  end.

(** The slot search of [arp_remember]: the first slot that is free or already
    of this address, else the one learned first.  [slot] and [oldest] are the
    loop's variables, [i] its index. *)
Fixpoint arp_choose (now address : Z) (i slot : nat) (oldest : Z) (cache : list entry)
    : list entry * nat :=
  match cache with
  | [] => ([], slot)
  | e :: rest =>
      let e := expire now e in
      if arp_valid e && (arp_ipv4_address e =? address) then (e :: rest, i)
      else if negb (arp_valid e) then (e :: rest, i)
      else
        let '(slot, oldest) :=
          if learned_at_tick e <? oldest then (i, learned_at_tick e) else (slot, oldest) in
        let '(rest, r) := arp_choose now address (S i) slot oldest rest in (e :: rest, r)
  end.

Definition new_entry (now address : Z) (mac : list Z) : entry :=
  mk_arp_entry true address (take 6 mac) now (u64 (now + ARP_ENTRY_TTL_TICKS)).

Definition arp_store (now address : Z) (mac : list Z) (cache : list entry) : list entry :=
  let '(cache, slot) := arp_choose now address 0 0 UINT64_MAX cache in
  <[slot := new_entry now address mac]> cache.

(** [net_arp_cache_count] and [net_arp_cache_at] also drop what has expired;
    the latter stops at the entry it returns. *)
Definition arp_count (now : Z) (cache : list entry) : list entry * Z :=
  let cache := arp_prune now cache in
  (cache, Z.of_nat (length (filter (λ e, arp_valid e = true) cache))).

Fixpoint arp_at (now index seen : Z) (cache : list entry) : list entry * option entry :=
  match cache with
  | [] => ([], None)
  | e :: rest =>
      if arp_valid e then
        if entry_expired now e then
          let '(rest, r) := arp_at now index seen rest in (invalidate e :: rest, r)
        else if seen =? index then (e :: rest, Some e)
        else let '(rest, r) := arp_at now index (u64 (seen + 1)) rest in (e :: rest, r)
      else let '(rest, r) := arp_at now index seen rest in (e :: rest, r)
  end.

(** ** The same on the stack's state *)

Definition set_cache (cache : list entry) (n : net) : net :=
  set_arp (mk_arp cache (arp_requests (n_arp n)) (arp_replies (n_arp n))) n.

Definition net_arp_cache_prune (n : net) : net :=
  set_cache (arp_prune (tick n) (arp_cache (n_arp n))) n.

Definition arp_lookup (address : Z) (n : net) : net * option (list Z) :=
  let '(cache, r) := arp_scan (tick n) address (arp_cache (n_arp n)) in (set_cache cache n, r).

Definition arp_remember (address : Z) (mac : list Z) (n : net) : net :=
  set_cache (arp_store (tick n) address mac (arp_cache (n_arp n))) n.

Definition net_arp_cache_count (n : net) : net * Z :=
  let '(cache, c) := arp_count (tick n) (arp_cache (n_arp n)) in (set_cache cache n, c).

(** [None] for the result stands for [false]. *)
Definition net_arp_cache_at (index : Z) (n : net) : net * option entry :=
  let '(cache, r) := arp_at (tick n) index 0 (arp_cache (n_arp n)) in (set_cache cache n, r).

(** ** Packets *)

Definition arp_packet (operation : Z) (sender_mac : list Z) (sender_address : Z)
    (target_mac : list Z) (target_address : Z) : list Z :=
  write_u16_be ARP_HARDWARE_ETHERNET ++ write_u16_be ARP_PROTOCOL_IPV4
  ++ [NET_ETHERNET_ADDRESS_SIZE; 4] ++ write_u16_be operation
  ++ sender_mac ++ write_u32_be sender_address ++ target_mac ++ write_u32_be target_address.

Section Arp.
  Context (transmit : list (list Z) → list Z → bool).

Definition arp_send (operation : Z) (destination_mac : list Z) (target_address : Z)
    (target_mac : list Z) (n : net) : net * bool :=
  let i := interface (n_ip n) in
  if negb (available i) then (n, false)
  else
    net_ethernet_send transmit (Some destination_mac) ARP_ETHERTYPE
      (Some (arp_packet operation (if_mac_address i) (ipv4_address i) target_mac target_address)) n.

Definition arp_send_request (target_address : Z) (n : net) : net * bool :=
  match arp_send ARP_OPERATION_REQUEST (replicate 6 0xff) target_address (replicate 6 0) n with
  | (n, false) => (n, false)
  | (n, true) =>
      (set_arp (mk_arp (arp_cache (n_arp n)) (u64 (arp_requests (n_arp n) + 1))
         (arp_replies (n_arp n))) n, true)
  end.

(** [None] is a NULL pointer. *)
Definition net_arp_receive (source payload : option (list Z)) (n : net) : net :=
  match source, payload with
  | Some source, Some payload =>
      if (Z.of_nat (length payload) <? ARP_PACKET_SIZE)
         || negb (read_u16_be payload 0 =? ARP_HARDWARE_ETHERNET)
         || negb (read_u16_be payload 2 =? ARP_PROTOCOL_IPV4)
         || negb (byte_at payload 4 =? NET_ETHERNET_ADDRESS_SIZE)
         || negb (byte_at payload 5 =? 4)
      then n
      else
        let operation := read_u16_be payload 6 in
        let sender_mac := take 6 (drop 8 payload) in
        let sender_address := read_u32_be payload 14 in
        let target_address := read_u32_be payload 24 in
        if negb (mac_equal source sender_mac) || (sender_address =? 0) then n
        else
          let n := arp_remember sender_address sender_mac n in
          let n :=
            if operation =? ARP_OPERATION_REPLY then
              set_arp (mk_arp (arp_cache (n_arp n)) (arp_requests (n_arp n))
                 (u64 (arp_replies (n_arp n) + 1))) n
            else n in
          let i := interface (n_ip n) in
          if (operation =? ARP_OPERATION_REQUEST) && available i && (target_address =? ipv4_address i)
          then (arp_send ARP_OPERATION_REPLY sender_mac sender_address sender_mac n).1
          else n
  | _, _ => n
  end.

(** ** Resolution

    [net_poll] runs the receive side of the stack, [wait] is the
    [task_sleep(1)] or [cpu_wait_for_interrupt()] that ends a round. *)

Context (net_poll wait : net → net).

(** The inner loop; [None] when the fuel runs out. *)
Fixpoint resolve_wait (fuel : nat) (address start per_attempt : Z) (n : net)
    : option (net * option (list Z)) :=
  match fuel with
  | O => None
  | S fuel =>
      if u64 (tick n - start) <? per_attempt then
        let n := net_poll n in
        match arp_lookup address n with
        | (n, Some mac) => Some (n, Some mac)
        | (n, None) => resolve_wait fuel address start per_attempt (wait n)
        end
      else Some (n, None)
  end.

Fixpoint resolve_attempts (attempts fuel : nat) (address per_attempt : Z) (n : net)
    : option (net * option (list Z)) :=
  match attempts with
  | O => Some (n, None)
  | S attempts =>
      match arp_send_request address n with
      | (n, false) => resolve_attempts attempts fuel address per_attempt n
      | (n, true) =>
          match resolve_wait fuel address (tick n) per_attempt n with
          | Some (n, None) => resolve_attempts attempts fuel address per_attempt n
          | r => r
          end
      end
  end.

Definition net_arp_resolve (fuel : nat) (address timeout_ticks : Z) (n : net)
    : option (net * option (list Z)) :=
  if address =? 0 then Some (n, None)
  else
    match arp_lookup address n with
    | (n, Some mac) => Some (n, Some mac)
    | (n, None) =>
        let per_attempt := timeout_ticks / 3 in
        let per_attempt := if per_attempt =? 0 then 1 else per_attempt in
        resolve_attempts 3 fuel address per_attempt n
    end.

End Arp.
