(* ===== verification/ArpSpec.v ===== *)
(** * Theorems on the ARP cache

    The cache refines the map from an address to the binding learned last: what
    a lookup answers is that binding, younger than its time to live, although
    the cache may hold older entries for the same address in later slots. *)

From Stdlib Require Import ZArith Lia.
From stdpp Require Import gmap.
From S2P Require Import Prelude Inet NetState Ethernet Ipv4 Arp.

#[local] Open Scope Z_scope.

(** The bindings learned last, with the tick they were learned at. *)
Abbreviation bindings := (gmap Z (list Z * Z)).

Definition current (latest : bindings) (e : entry) : Prop :=
  latest !! arp_ipv4_address e = Some (arp_mac_address e, learned_at_tick e).

Definition live (now : Z) (e : entry) : Prop := arp_valid e = true ∧ now < expires_at_tick e.

(** ** The invariant *)

Record cache_inv (now : Z) (latest : bindings) (cache : list entry) : Prop := {
  inv_times : ∀ k e, cache !! k = Some e → arp_valid e = true →
    0 ≤ learned_at_tick e ≤ now ∧ expires_at_tick e = learned_at_tick e + ARP_ENTRY_TTL_TICKS;
  inv_current : ∀ k e, cache !! k = Some e → live now e →
    current latest e ∨
    ∃ i e', (i < k)%nat ∧ cache !! i = Some e' ∧ arp_valid e' = true ∧
      arp_ipv4_address e' = arp_ipv4_address e ∧ learned_at_tick e < learned_at_tick e';
  inv_fresh : ∀ k e, cache !! k = Some e → arp_valid e = true → learned_at_tick e = now →
    ∀ i, (i < k)%nat → ∃ e', cache !! i = Some e' ∧ live now e' ∧
      arp_ipv4_address e' ≠ arp_ipv4_address e
}.

Lemma cache_inv_later now now' latest cache :
  now ≤ now' → cache_inv now latest cache → cache_inv now' latest cache.
Proof.
  intros Hle [Ht Hc Hf]. destruct (Z.eq_dec now now') as [<-|Hne]; [done|]. split.
  - intros k e Hk Hv. destruct (Ht k e Hk Hv). split; [lia|done].
  - intros k e Hk [Hv Hx]. apply (Hc k); [done|]. split; [done|lia].
  - intros k e Hk Hv Hn. destruct (Ht k e Hk Hv). lia.
Qed.

(** [cache'] is [cache] with some expired entries dropped. *)
Definition aged (now : Z) (cache cache' : list entry) : Prop :=
  Forall2 (λ e e', e' = e ∨ (e' = invalidate e ∧ entry_expired now e = true)) cache cache'.

Lemma aged_refl now cache : aged now cache cache.
Proof. induction cache; constructor; auto. Qed.

Lemma entry_expired_spec now e : entry_expired now e = true → ¬ live now e.
Proof.
  unfold entry_expired, live. intros [_ H%Z.geb_le]%andb_prop [_ ?]. lia.
Qed.

Lemma not_expired_live now latest cache k e :
  cache_inv now latest cache → cache !! k = Some e → arp_valid e = true →
  entry_expired now e = false → live now e.
Proof.
  intros Hi Hk Hv He. split; [done|]. destruct (inv_times _ _ _ Hi k e Hk Hv) as [Hl Hx].
  unfold entry_expired, ARP_ENTRY_TTL_TICKS in *. rewrite Hx in He |- *.
  destruct (Z.gtb_spec (learned_at_tick e + 6000) 0); [|lia]. cbn [andb] in He.
  destruct (Z.geb_spec now (learned_at_tick e + 6000)); [done|lia].
Qed.

Lemma aged_live now cache cache' k e :
  aged now cache cache' → cache !! k = Some e → live now e → cache' !! k = Some e.
Proof.
  intros Ha Hk Hl. destruct (Forall2_lookup_l _ _ _ _ _ Ha Hk) as (e' & Hk' & [->|[-> He]]); [done|].
  by apply entry_expired_spec in He.
Qed.

Lemma aged_valid now cache cache' k e' :
  aged now cache cache' → cache' !! k = Some e' → arp_valid e' = true → cache !! k = Some e'.
Proof.
  intros Ha Hk Hv. by destruct (Forall2_lookup_r _ _ _ _ _ Ha Hk) as (e & Hk' & [->|[-> _]]).
Qed.

Lemma aged_inv now latest cache cache' :
  aged now cache cache' → cache_inv now latest cache → cache_inv now latest cache'.
Proof.
  intros Ha Hi. pose proof Hi as [Ht Hc Hf]. split.
  - intros k e Hk Hv. apply (Ht k); [|done]. by eapply aged_valid.
  - intros k e Hk [Hv Hx]. pose proof (aged_valid _ _ _ _ _ Ha Hk Hv) as Hk0.
    destruct (Hc k e Hk0 (conj Hv Hx)) as [|(i & e' & Hlt & Hi' & Hv' & Hip & Hl)]; [by left|].
    right. exists i, e'. split_and!; try done. apply (aged_live _ _ _ _ _ Ha Hi').
    destruct (Ht i e' Hi' Hv') as [_ E']. destruct (Ht k e Hk0 Hv) as [_ E].
    split; [done|lia].
  - intros k e Hk Hv Hn i Hlt. pose proof (aged_valid _ _ _ _ _ Ha Hk Hv) as Hk0.
    destruct (Hf k e Hk0 Hv Hn i Hlt) as (e' & He' & Hl & Hne). exists e'. split; [|done].
    by apply (aged_live _ _ _ _ _ Ha He').
Qed.

(** ** The loops *)

Lemma expire_cases now e :
  expire now e = e ∨ (expire now e = invalidate e ∧ entry_expired now e = true).
Proof.
  unfold expire. destruct (arp_valid e), (entry_expired now e) eqn:E; cbn; auto.
Qed.

Lemma prune_aged now cache : aged now cache (arp_prune now cache).
Proof.
  induction cache as [|e cache IH]; cbn; constructor; [|done]. apply expire_cases.
Qed.

Lemma scan_aged now address cache : aged now cache (arp_scan now address cache).1.
Proof.
  induction cache as [|e cache IH]; cbn [arp_scan]; [constructor|].
  destruct (arp_scan now address cache) as [rest r]. cbn [fst] in IH |- *.
  pose proof (aged_refl now cache).
  repeat case_match; cbn [fst]; constructor; auto.
Qed.

Lemma at_aged now index seen cache : aged now cache (arp_at now index seen cache).1.
Proof.
  revert seen. induction cache as [|e cache IH]; intros seen; cbn [arp_at]; [constructor|].
  pose proof (aged_refl now cache). pose proof (IH seen) as IH1. pose proof (IH (u64 (seen + 1))) as IH2.
  destruct (arp_at now index seen cache), (arp_at now index (u64 (seen + 1)) cache).
  repeat case_match; cbn [fst] in *; constructor; auto.
Qed.

(** What a scan answers is the first live entry of the address. *)
Lemma scan_some now address cache mac :
  (arp_scan now address cache).2 = Some mac →
  ∃ k e, cache !! k = Some e ∧ arp_valid e = true ∧ entry_expired now e = false ∧
    arp_ipv4_address e = address ∧ arp_mac_address e = mac ∧
    ∀ i e', (i < k)%nat → cache !! i = Some e' → arp_ipv4_address e' = address → ¬ live now e'.
Proof.
  induction cache as [|x cache IH]; cbn [arp_scan]; [done|].
  destruct (arp_scan now address cache) as [rest r] eqn:E. cbn [snd] in IH.
  assert (Hskip : r = Some mac → (arp_ipv4_address x = address → ¬ live now x) →
    ∃ k e, (x :: cache) !! k = Some e ∧ arp_valid e = true ∧ entry_expired now e = false ∧
      arp_ipv4_address e = address ∧ arp_mac_address e = mac ∧
      ∀ i e', (i < k)%nat → (x :: cache) !! i = Some e' → arp_ipv4_address e' = address → ¬ live now e').
  { intros Hr Hx. destruct (IH Hr) as (k & e & Hk & Hv & Hn & Hip & Hmac & Hfirst).
    exists (S k), e. split_and!; try done. intros [|i] e' Hlt Hi; [by injection Hi as ->|].
    apply (Hfirst i); [lia|done]. }
  destruct (arp_valid x) eqn:Hv.
  - destruct (entry_expired now x) eqn:He; cbn [snd].
    { intros Hr. apply Hskip; [done|]. intros _. by apply entry_expired_spec. }
    destruct (Z.eqb_spec (arp_ipv4_address x) address) as [Hip|Hip]; cbn [snd].
    + intros [= <-]. exists 0%nat, x. split_and!; try done. lia.
    + intros Hr. by apply Hskip.
  - cbn [snd]. intros Hr. apply Hskip; [done|]. intros _ [? _]. congruence.
Qed.

Lemma scan_first now address cache k e :
  cache !! k = Some e → arp_valid e = true → entry_expired now e = false →
  arp_ipv4_address e = address →
  (∀ i e', (i < k)%nat → cache !! i = Some e' → arp_valid e' = true → arp_ipv4_address e' ≠ address) →
  (arp_scan now address cache).2 = Some (arp_mac_address e).
Proof.
  revert k. induction cache as [|x cache IH]; intros k Hk Hv He Hip Hfirst; [done|].
  cbn [arp_scan]. destruct k as [|k].
  - injection Hk as ->. rewrite Hv, He, Hip, Z.eqb_refl. done.
  - cbn in Hk. specialize (IH k Hk Hv He Hip).
    destruct (arp_scan now address cache) as [rest r]. cbn [snd] in IH |- *.
    assert (Hr : r = Some (arp_mac_address e)).
    { apply IH. intros i e' Hlt Hi. apply (Hfirst (S i)); [lia|done]. }
    destruct (arp_valid x) eqn:Hvx; [|done]. destruct (entry_expired now x); [done|].
    destruct (Z.eqb_spec (arp_ipv4_address x) address) as [Hx|]; [|done].
    by destruct (Hfirst 0%nat x ltac:(lia) eq_refl Hvx).
Qed.

(** ** The slot of a new entry *)

(** A slot that [arp_remember] passes over. *)
Definition occupied (now address : Z) (e : entry) : Prop :=
  arp_valid e = true ∧ entry_expired now e = false ∧ arp_ipv4_address e ≠ address.

(** The loop stops at slot [j], free or of this address, or sees only other
    entries and selects one learned first. *)
Definition stops_at (now address : Z) (cache : list entry) (j : nat) : Prop :=
  ∃ e, cache !! j = Some e ∧ (arp_valid e = true → arp_ipv4_address e = address) ∧
    ∀ k e', (k < j)%nat → cache !! k = Some e' → occupied now address e'.

Definition evicts (now address : Z) (cache : list entry) (j : nat) (oldest : Z) : Prop :=
  ∃ e, cache !! j = Some e ∧ learned_at_tick e < oldest ∧
    (∀ k e', cache !! k = Some e' → occupied now address e' ∧ learned_at_tick e ≤ learned_at_tick e').

Lemma choose_spec now address i slot oldest cache :
  let r := arp_choose now address i slot oldest cache in
  aged now cache r.1 ∧
  ((∃ j, r.2 = (i + j)%nat ∧ stops_at now address r.1 j) ∨
   (∃ j, r.2 = (i + j)%nat ∧ evicts now address r.1 j oldest) ∨
   (r.2 = slot ∧ ∀ k e', r.1 !! k = Some e' →
      occupied now address e' ∧ oldest ≤ learned_at_tick e')).
Proof.
  revert i slot oldest. induction cache as [|x cache IH]; intros i slot oldest; cbn [arp_choose].
  { split; [constructor|]. right. right. split; [done|]. by intros [|k] e'. }
  pose proof (expire_cases now x) as Hx. set (y := expire now x) in *.
  assert (Hhere : (arp_valid y = true → arp_ipv4_address y = address) →
    let r := (y :: cache, i) in
    aged now (x :: cache) r.1 ∧
    ((∃ j, r.2 = (i + j)%nat ∧ stops_at now address r.1 j) ∨
     (∃ j, r.2 = (i + j)%nat ∧ evicts now address r.1 j oldest) ∨
     (r.2 = slot ∧ ∀ k e', r.1 !! k = Some e' →
        occupied now address e' ∧ oldest ≤ learned_at_tick e'))).
  { intros Hy. cbn [fst snd]. split; [constructor; [done|apply aged_refl]|].
    left. exists 0%nat. split; [lia|]. exists y. split_and!; [done|done|lia]. }
  destruct (arp_valid y) eqn:Hv; cbn [andb negb]; [|by apply Hhere].
  destruct (Z.eqb_spec (arp_ipv4_address y) address) as [Hip|Hip]; [by apply Hhere|]. clear Hhere.
  assert (Hocc : occupied now address y).
  { split_and!; [done| |done]. unfold y, expire in *.
    destruct (arp_valid x) eqn:Hvx, (entry_expired now x) eqn:Hex; cbn in *; congruence. }
  assert (Hcons : ∀ l (P : entry → Prop), P y → (∀ k e', l !! k = Some e' → P e') →
            ∀ k e', (y :: l) !! k = Some e' → P e').
  { intros l P Hy Hl [|k] e' Hk; [by injection Hk as <-|by apply (Hl k)]. }
  assert (Hstop : ∀ l j, stops_at now address l j → stops_at now address (y :: l) (S j)).
  { intros l j (e & Hj & He & Hb). exists e. split_and!; [done|done|].
    intros [|k] e' Hlt Hk; [by injection Hk as <-|]. apply (Hb k); [lia|done]. }
  destruct (Z.ltb_spec (learned_at_tick y) oldest) as [Hlt|Hge].
  - specialize (IH (S i) i (learned_at_tick y)).
    destruct (arp_choose now address (S i) i (learned_at_tick y) cache) as [l r]. cbn [fst snd] in IH |- *.
    destruct IH as [Ha IH]. split; [by constructor|].
    destruct IH as [(j & -> & Hs)|[(j & -> & e & Hj & Hl & Hb)|[-> Hb]]].
    + left. exists (S j). split; [lia|]. by apply Hstop.
    + right. left. exists (S j). split; [lia|]. exists e. split_and!; [done|lia|].
      apply Hcons; [split; [done|lia]|done].
    + right. left. exists 0%nat. split; [lia|]. exists y. split_and!; [done|done|].
      apply Hcons; [split; [done|lia]|done].
  - specialize (IH (S i) slot oldest).
    destruct (arp_choose now address (S i) slot oldest cache) as [l r]. cbn [fst snd] in IH |- *.
    destruct IH as [Ha IH]. split; [by constructor|].
    destruct IH as [(j & -> & Hs)|[(j & -> & e & Hj & Hl & Hb)|[-> Hb]]].
    + left. exists (S j). split; [lia|]. by apply Hstop.
    + right. left. exists (S j). split; [lia|]. exists e. split_and!; [done|lia|].
      apply Hcons; [split; [done|lia]|done].
    + right. right. split; [done|]. apply Hcons; [split; [done|lia]|done].
Qed.

(** On a nonempty cache with times below [2^64 - 1] the chosen slot exists. *)
Lemma store_choice now address latest cache :
  cache_inv now latest cache → (0 < length cache)%nat → now < UINT64_MAX →
  let r := arp_choose now address 0 0 UINT64_MAX cache in
  aged now cache r.1 ∧
  (stops_at now address r.1 r.2 ∨ evicts now address r.1 r.2 UINT64_MAX).
Proof.
  intros Hinv Hlen Hnow. cbn zeta.
  destruct (choose_spec now address 0 0 UINT64_MAX cache) as [Ha H].
  split; [done|]. destruct H as [(j & -> & Hs)|[(j & -> & He)|[_ Hb]]]; [by left|by right|].
  pose proof (Forall2_length _ _ _ Ha) as Hl.
  destruct (lookup_lt_is_Some_2 (arp_choose now address 0 0 UINT64_MAX cache).1 0) as [e He]; [lia|].
  destruct (Hb _ _ He) as [(Hv & _) Hle].
  destruct (inv_times _ _ _ (aged_inv _ _ _ _ Ha Hinv) _ _ He Hv). lia.
Qed.

(** ** Learning a binding *)

Section Learn.
  Context (now address : Z) (mac : list Z) (latest : bindings) (cache : list entry) (slot : nat).
  Context (Hinv : cache_inv now latest cache) (Hnow : 0 ≤ now) (Hbig : now + 6000 < W64).

Let new := new_entry now address mac.
Let latest' := <[address := (take 6 mac, now)]> latest.

Lemma new_current : current latest' new ∧ live now new ∧ expires_at_tick new = now + 6000.
Proof.
  assert (expires_at_tick new = now + 6000) as Hx.
  { unfold new, new_entry, ARP_ENTRY_TTL_TICKS. cbn. apply u64_small. unfold is_u64. lia. }
  split_and!; [|split; [done|lia]|done]. unfold current, latest'. cbn. by rewrite lookup_insert_eq.
Qed.

Context (Hslot : (slot < length cache)%nat).
Context (Hbefore : ∀ k e, (k < slot)%nat → cache !! k = Some e → occupied now address e).

(** The entry that is overwritten shadows no entry of another address. *)
Context (Hkeep : ∀ e, cache !! slot = Some e → arp_valid e = true →
  arp_ipv4_address e = address ∨
  (∀ k e', cache !! k = Some e' → occupied now address e' ∧ learned_at_tick e ≤ learned_at_tick e')).

Lemma learn_lookup k e :
  <[slot := new]> cache !! k = Some e → (k = slot ∧ e = new) ∨ (k ≠ slot ∧ cache !! k = Some e).
Proof.
  intros Hk. destruct (decide (slot = k)) as [<-|Hne].
  - rewrite list_lookup_insert_eq in Hk by done. left. split; [done|congruence].
  - rewrite list_lookup_insert_ne in Hk by done. by right.
Qed.

Lemma learn_inv : cache_inv now latest' (<[slot := new]> cache).
Proof.
  destruct new_current as (Hcur & Hlive & Hexp). split.
  - intros k e Hk Hv. apply learn_lookup in Hk as [[-> ->]|[_ Hk]].
    + rewrite Hexp. unfold new, new_entry, ARP_ENTRY_TTL_TICKS. cbn. lia.
    + by apply (inv_times _ _ _ Hinv k).
  - intros k e Hk Hl. apply learn_lookup in Hk as [[-> ->]|[Hne Hk]]; [by left|].
    pose proof Hl as [Hv _].
    destruct (decide (arp_ipv4_address e = address)) as [Hip|Hip].
    + (* an older entry of the same address is shadowed by the new one *)
      right. exists slot, new.
      assert (Hlt : (slot < k)%nat).
      { destruct (decide (k < slot)%nat) as [Hk'|]; [|lia]. by destruct (Hbefore k e Hk' Hk) as (_ & _ & ?). }
      rewrite list_lookup_insert_eq by done. split_and!; try done.
      change (learned_at_tick new) with now.
      destruct (inv_times _ _ _ Hinv k e Hk Hv) as [Ht _].
      destruct (Z.eq_dec (learned_at_tick e) now) as [Hn|]; [|lia]. exfalso.
      destruct (inv_fresh _ _ _ Hinv k e Hk Hv Hn slot Hlt) as (e' & He' & [Hv' _] & Hne').
      destruct (Hkeep e' He' Hv') as [Ha|Hall]; [congruence|].
      by destruct (Hall k e Hk) as [(_ & _ & ?) _].
    + destruct (inv_current _ _ _ Hinv k e Hk Hl) as [Hc|(i & e' & Hi & He' & Hv' & Hip' & Hlt)].
      * left. unfold current, latest' in *. by rewrite lookup_insert_ne.
      * right. exists i, e'. split_and!; try done. rewrite list_lookup_insert_ne; [done|].
        intros ->. destruct (Hkeep e' He' Hv') as [Ha|Hall]; [congruence|].
        destruct (Hall k e Hk) as [_ ?]. lia.
  - intros k e Hk Hv Hn i Hlt. apply learn_lookup in Hk as [[-> ->]|[Hne Hk]].
    + destruct (lookup_lt_is_Some_2 cache i) as [e' He']; [lia|].
      destruct (Hbefore i e' Hlt He') as (Hv' & Hx & Hip). exists e'.
      rewrite list_lookup_insert_ne by lia. split_and!; [done|by eapply not_expired_live|done].
    + destruct (inv_fresh _ _ _ Hinv k e Hk Hv Hn i Hlt) as (e' & He' & Hl' & Hip').
      destruct (decide (slot = i)) as [<-|Hni].
      * exists new. rewrite list_lookup_insert_eq by done. split_and!; [done|done|].
        change (arp_ipv4_address new) with address. intros Heq.
        destruct (Hkeep e' He' (proj1 Hl')) as [Ha|Hall]; [congruence|].
        destruct (Hall k e Hk) as [(_ & _ & ?) _]. congruence.
      * exists e'. by rewrite list_lookup_insert_ne.
Qed.

End Learn.

Lemma store_inv now address mac latest cache :
  cache_inv now latest cache → (0 < length cache)%nat → 0 ≤ now → now + 6000 < W64 →
  cache_inv now (<[address := (take 6 mac, now)]> latest) (arp_store now address mac cache)
  ∧ length (arp_store now address mac cache) = length cache
  ∧ ∀ now', now ≤ now' < now + 6000 →
      (arp_scan now' address (arp_store now address mac cache)).2 = Some (take 6 mac).
Proof.
  intros Hinv Hlen H0 Hbig.
  destruct (store_choice now address latest cache) as [Ha Hs];
    [done|done|unfold UINT64_MAX; unfold W64 in Hbig; lia|].
  unfold arp_store. destruct (arp_choose now address 0 0 UINT64_MAX cache) as [c slot].
  cbn [fst snd] in Ha, Hs. pose proof (Forall2_length _ _ _ Ha) as Hl.
  pose proof (aged_inv _ _ _ _ Ha Hinv) as Hinv'.
  assert (Hfacts : (slot < length c)%nat ∧
    (∀ k e, (k < slot)%nat → c !! k = Some e → occupied now address e) ∧
    (∀ e, c !! slot = Some e → arp_valid e = true → arp_ipv4_address e = address ∨
      (∀ k e', c !! k = Some e' → occupied now address e' ∧ learned_at_tick e ≤ learned_at_tick e'))).
  { destruct Hs as [(e & He & Hip & Hb)|(e & He & _ & Hb)];
      (split; [by eapply lookup_lt_Some|split]).
    - done.
    - intros e' He' Hv. assert (e' = e) as -> by congruence. left. by apply Hip.
    - intros k e' _ Hk. by destruct (Hb k e' Hk).
    - intros e' He' _. right. assert (e' = e) as -> by congruence. done. }
  destruct Hfacts as (Hslot & Hbefore & Hkeep).
  split_and!.
  - by apply learn_inv.
  - by rewrite length_insert.
  - intros now' Hnow'. destruct (new_current now address mac latest) as (_ & _ & Hexp); [done..|].
    change (take 6 mac) with (arp_mac_address (new_entry now address mac)).
    apply scan_first with slot; try done.
    + by rewrite list_lookup_insert_eq.
    + unfold entry_expired. rewrite Hexp.
      destruct (Z.geb_spec now' (now + 6000)); [lia|]. apply andb_false_r.
    + intros i e' Hi He' _. rewrite list_lookup_insert_ne in He' by lia.
      by destruct (Hbefore i e' Hi He') as (_ & _ & ?).
Qed.

(** ** Sequences of operations *)

Inductive arp_op :=
  | Learn (address : Z) (mac : list Z)
  | Query (address : Z)
  | Prune
  | Count
  | At (index : Z).

(** The cache after an operation at tick [fst op]. *)
Definition arp_step (cache : list entry) (op : Z * arp_op) : list entry :=
  match op with
  | (now, Learn address mac) => arp_store now address mac cache
  | (now, Query address) => (arp_scan now address cache).1
  | (now, Prune) => arp_prune now cache
  | (now, Count) => (arp_count now cache).1
  | (now, At index) => (arp_at now index 0 cache).1
  end.

(** The specification: the map of the bindings learned last. *)
Definition latest_step (latest : bindings) (op : Z * arp_op) : bindings :=
  match op with
  | (now, Learn address mac) => <[address := (take 6 mac, now)]> latest
  | _ => latest
  end.

(** The zero-initialised cache. *)
Definition arp_initial : list entry := replicate NET_ARP_CACHE_MAX (mk_arp_entry false 0 [] 0 0).

(** Ticks of successive operations, none before the previous one and none within
    a minute of the end of the 64-bit counter. *)
Fixpoint ticks_from (now : Z) (ops : list (Z * arp_op)) (last : Z) : Prop :=
  match ops with
  | [] => now ≤ last ∧ last + 6000 < W64
  | (t, _) :: ops => now ≤ t ∧ t + 6000 < W64 ∧ ticks_from t ops last
  end.

Lemma step_inv now t op latest cache :
  cache_inv now latest cache → (0 < length cache)%nat → 0 ≤ now ≤ t → t + 6000 < W64 →
  cache_inv t (latest_step latest (t, op)) (arp_step cache (t, op))
  ∧ (0 < length (arp_step cache (t, op)))%nat.
Proof.
  intros Hinv Hlen Hle Hbig. apply (cache_inv_later _ t) in Hinv; [|lia].
  assert (Hag : ∀ c, aged t cache c → cache_inv t latest c ∧ (0 < length c)%nat).
  { intros c Ha. split; [by eapply aged_inv|]. by rewrite <- (Forall2_length _ _ _ Ha). }
  destruct op; cbn [arp_step latest_step].
  - destruct (store_inv t address mac latest cache) as (? & -> & _); [done|done|lia|done|done].
  - apply Hag, scan_aged.
  - apply Hag, prune_aged.
  - apply Hag, prune_aged.
  - apply Hag, at_aged.
Qed.

Lemma arp_run_inv now ops last latest cache :
  cache_inv now latest cache → (0 < length cache)%nat → 0 ≤ now → ticks_from now ops last →
  cache_inv last (fold_left latest_step ops latest) (fold_left arp_step ops cache)
  ∧ (0 < length (fold_left arp_step ops cache))%nat ∧ 0 ≤ last ∧ last + 6000 < W64.
Proof.
  revert now latest cache. induction ops as [|[t op] ops IH]; intros now latest cache Hi Hl H0 Ht.
  - destruct Ht. split; [by eapply cache_inv_later|]. cbn [fold_left]. lia.
  - destruct Ht as (Hle & Hbig & Ht). cbn [fold_left].
    destruct (step_inv now t op latest cache) as [Hi' Hl']; [done|done|lia|done|].
    apply (IH t); [done|done|lia|done].
Qed.

Lemma initial_inv : cache_inv 0 ∅ arp_initial.
Proof.
  split; intros k e Hk; apply lookup_replicate in Hk as [-> _]; [done|by intros [? _]|done].
Qed.

(** After any sequence of cache operations, an address that [arp_lookup]
    resolves is answered with the hardware address of the most recent
    [arp_remember] for it, made less than sixty seconds ago; and for sixty
    seconds after [arp_remember] the address does resolve to what was remembered. *)
Theorem arp_lookup_current ops now address mac :
  ticks_from 0 ops now →
  ((arp_scan now address (fold_left arp_step ops arp_initial)).2 = Some mac →
   ∃ t, fold_left latest_step ops ∅ !! address = Some (mac, t) ∧ t ≤ now < t + ARP_ENTRY_TTL_TICKS) ∧
  (∀ later, now ≤ later < now + ARP_ENTRY_TTL_TICKS →
   (arp_scan later address
      (arp_step (fold_left arp_step ops arp_initial) (now, Learn address mac))).2 = Some (take 6 mac)).
Proof.
  intros Ht. destruct (arp_run_inv 0 ops now ∅ arp_initial) as (Hinv & Hlen & H0 & Hbig);
    [apply initial_inv|unfold arp_initial; rewrite length_replicate; unfold NET_ARP_CACHE_MAX; lia|lia|done|].
  set (cache := fold_left arp_step ops arp_initial) in *. split.
  - intros (k & e & Hk & Hv & Hx & Hip & <- & Hfirst)%scan_some.
    pose proof (not_expired_live _ _ _ _ _ Hinv Hk Hv Hx) as Hl.
    destruct (inv_times _ _ _ Hinv k e Hk Hv) as [Hlt Hexp].
    exists (learned_at_tick e). split; [|destruct Hl; lia].
    destruct (inv_current _ _ _ Hinv k e Hk Hl) as [Hc|(i & e' & Hi & He' & Hv' & Hip' & Hlt')].
    + unfold current in Hc. by rewrite Hip in Hc.
    + exfalso. apply (Hfirst i e'); [done|done|congruence|].
      destruct (inv_times _ _ _ Hinv i e' He' Hv') as [_ Hexp']. destruct Hl. split; [done|lia].
  - intros later Hlater. cbn [arp_step].
    destruct (store_inv now address mac _ cache Hinv Hlen H0 Hbig) as (_ & _ & Hsc). by apply Hsc.
Qed.

Lemma arp_lookup_current_witness :
  ticks_from 0 [(5, Learn 1 [1;1;1;1;1;1]); (6, Learn 2 [2;2;2;2;2;2]); (9, Learn 1 [3;3;3;3;3;3])] 10 ∧
  ∃ t, fold_left latest_step
         [(5, Learn 1 [1;1;1;1;1;1]); (6, Learn 2 [2;2;2;2;2;2]); (9, Learn 1 [3;3;3;3;3;3])] ∅ !! 1
       = Some ([3;3;3;3;3;3], t) ∧ t ≤ 10 < t + ARP_ENTRY_TTL_TICKS.
Proof.
  assert (ticks_from 0 [(5, Learn 1 [1;1;1;1;1;1]); (6, Learn 2 [2;2;2;2;2;2]);
            (9, Learn 1 [3;3;3;3;3;3])] 10) as H by (vm_compute; repeat split; congruence).
  split; [exact H|]. apply (arp_lookup_current _ 10 1 _ H). vm_compute. reflexivity.
Defined.

(** ** Resolution terminates *)

Lemma lookup_tick address n : tick (arp_lookup address n).1 = tick n.
Proof. unfold arp_lookup. by destruct (arp_scan (tick n) address (arp_cache (n_arp n))). Qed.

Lemma send_request_tick transmit address n : tick (arp_send_request transmit address n).1 = tick n.
Proof.
  unfold arp_send_request, arp_send, net_ethernet_send. by repeat case_match; simplify_eq.
Qed.

Section Resolve.
  Context (transmit : list (list Z) → list Z → bool) (net_poll wait : net → net).
  Context (Hpoll : ∀ n, tick n ≤ tick (net_poll n) ≤ tick n + 4294967296).
  Context (Hwait : ∀ n, tick n < tick (wait n) ≤ tick n + 4294967296).

Lemma resolve_wait_terminates fuel address start per_attempt n :
  0 < per_attempt ≤ 2 ^ 63 → start ≤ tick n < start + per_attempt + 2 ^ 34 →
  per_attempt - (tick n - start) < Z.of_nat fuel → (0 < fuel)%nat →
  ∃ r, resolve_wait net_poll wait fuel address start per_attempt n = Some r.
Proof.
  intros Hper. change (2 ^ 63) with 9223372036854775808 in Hper. change (2 ^ 34) with 17179869184.
  revert n. induction fuel as [|fuel IH]; intros n Hn Hf Hpos; [lia|]. cbn [resolve_wait].
  assert (u64 (tick n - start) = tick n - start) as -> by (apply u64_small; unfold is_u64, W64; lia).
  destruct (Z.ltb_spec (tick n - start) per_attempt) as [Hlt|]; [|by eexists].
  pose proof (lookup_tick address (net_poll n)) as Ht.
  destruct (arp_lookup address (net_poll n)) as [n1 [mac|]]; [by eexists|]. cbn [fst] in Ht.
  pose proof (Hpoll n). pose proof (Hwait n1). apply IH; lia.
Qed.

Lemma resolve_attempts_terminates attempts fuel address per_attempt n :
  0 < per_attempt ≤ 2 ^ 63 → per_attempt < Z.of_nat fuel →
  ∃ r, resolve_attempts transmit net_poll wait attempts fuel address per_attempt n = Some r.
Proof.
  intros Hper Hf. revert n. induction attempts as [|attempts IH]; intros n; cbn [resolve_attempts].
  { by eexists. }
  destruct (arp_send_request transmit address n) as [n1 [|]]; [|apply IH].
  destruct (resolve_wait_terminates fuel address (tick n1) per_attempt n1) as [[n2 [mac|]] ->];
    [done|lia|lia|lia|by eexists|apply IH].
Qed.

(** [net_arp_resolve] returns whatever the network does: if polling never
    turns the clock back and each wait lasts at least one tick, every attempt
    ends after at most [timeout / 3] rounds (one when the timeout is below
    three ticks), so the given fuel is enough. *)
Theorem net_arp_resolve_terminates address timeout n :
  0 ≤ timeout < 2 ^ 63 →
  ∃ r, net_arp_resolve transmit net_poll wait (Z.to_nat (timeout / 3 + 2)) address timeout n = Some r.
Proof.
  intros Ht. change (2 ^ 63) with 9223372036854775808 in Ht. unfold net_arp_resolve.
  destruct (address =? 0); [by eexists|].
  destruct (arp_lookup address n) as [n1 [mac|]]; [by eexists|].
  apply resolve_attempts_terminates.
  - change (2 ^ 63) with 9223372036854775808. destruct (Z.eqb_spec (timeout / 3) 0); zsolve.
  - destruct (Z.eqb_spec (timeout / 3) 0); zsolve.
Qed.

End Resolve.

Lemma net_arp_resolve_terminates_witness :
  ∃ r, net_arp_resolve (λ _ _, true) (λ n, n) (λ n, set_tick (tick n + 1) n)
         (Z.to_nat (NET_ARP_DEFAULT_TIMEOUT_TICKS / 3 + 2)) 0x0a000202 NET_ARP_DEFAULT_TIMEOUT_TICKS
         (mk_net 0 (mk_ethernet (Some (mk_device (replicate 6 1) true true true true)) 0 0 0 [] [])
            (mk_arp arp_initial 0 0)
            (mk_ipv4 (mk_interface true (replicate 6 1) 0x0a00020f 0xffffff00 0x0a000202 0
               NET_CONFIGURATION_STATIC NET_DHCP_IDLE 0 0 0) [] 0)
            (mk_icmp (mk_waiter false false 0 0 0 0) 0 0 0 0) []) = Some r.
Proof.
  apply (net_arp_resolve_terminates (λ _ _, true) (λ n, n) (λ n, set_tick (tick n + 1) n)).
  - intros n. lia.
  - intros n. cbn. lia.
  - vm_compute. split; congruence.
Defined.

(** A live cache entry answers at once and leaves the rest of the stack alone,
    as the send path of Ipv4 assumes of a resolved next hop. *)
Lemma resolve_hit transmit net_poll wait fuel address timeout n cache mac :
  address ≠ 0 → arp_scan (tick n) address (arp_cache (n_arp n)) = (cache, Some mac) →
  net_arp_resolve transmit net_poll wait fuel address timeout n = Some (set_cache cache n, Some mac).
Proof.
  intros Ha Hs. unfold net_arp_resolve, arp_lookup. rewrite Hs.
  by rewrite (proj2 (Z.eqb_neq address 0) Ha).
Qed.
