(* ===== verification/Icmp.v ===== *)
(** * ICMP (src/net/icmp.c)

    Echo requests and replies, the two error messages, and the ping loop.  The
    handler runs on the calls that the IPv4 layer recorded. *)

From Stdlib Require Import ZArith Lia.
From stdpp Require Import gmap.
From S2P Require Import Prelude Inet NetState Ethernet Ipv4 Ipv4Spec.

#[local] Open Scope Z_scope.

Definition ICMP_PROTOCOL : Z := 1.
Definition ICMP_ECHO_REPLY : Z := 0.
Definition ICMP_DEST_UNREACHABLE : Z := 3.
Definition ICMP_ECHO_REQUEST : Z := 8.
Definition ICMP_TIME_EXCEEDED : Z := 11.
Definition ICMP_HEADER_SIZE : Z := 8.
Definition ICMP_PING_PAYLOAD_SIZE : Z := 16.
Definition ICMP_IDENTIFIER : Z := 0x4b4f.

Definition icmp_checksum (data : list Z) : Z := inet_checksum data.

(** The eight bytes [write_u64_be] stores. *)
Definition write_u64_be (value : Z) : list Z :=
  (λ index, u8 (Z.shiftr value (56 - index * 8))) <$> seqZ 0 8.

(** A message with its checksum field, bytes 2 and 3, filled in. *)
Definition with_checksum (type code : Z) (rest : list Z) : list Z :=
  [type; code] ++ write_u16_be (icmp_checksum ([type; code] ++ [0; 0] ++ rest)) ++ rest.

(** The reply: the request with type and code cleared and a new checksum. *)
Definition echo_reply (request : list Z) : list Z := with_checksum ICMP_ECHO_REPLY 0 (drop 4 request).

(** The error messages carry at most 28 bytes of the packet they are about. *)
Definition icmp_error (type code : Z) (orig : list Z) : list Z :=
  with_checksum type code ([0; 0; 0; 0] ++ take 28 orig).

(** The ping request, with the tick it is sent at. *)
Definition echo_request (sequence sent_at : Z) : list Z :=
  with_checksum ICMP_ECHO_REQUEST 0
    (write_u16_be ICMP_IDENTIFIER ++ write_u16_be sequence ++ [75; 79; 83; 80]
     ++ write_u64_be sent_at ++ [0; 0; 0; 0]).

Section Icmp.
  Context (transmit : list (list Z) → list Z → bool)
          (net_arp_resolve : Z → Z → net → net * option (list Z)).

Let send := net_ipv4_send transmit net_arp_resolve.

Definition icmp_send_echo_reply (destination : Z) (request : list Z) (n : net) : net * bool :=
  let size := Z.of_nat (length request) in
  if (size <? ICMP_HEADER_SIZE) || (size >? NET_ETHERNET_FRAME_MAX - 14 - 20) then (n, false)
  else send ICMP_PROTOCOL destination (Some (echo_reply request)) n.

Definition set_counters (f : icmp → icmp) (n : net) : net := set_icmp (f (n_icmp n)) n.

(** [None] is a NULL header pointer. *)
Definition net_icmp_send_dest_unreachable (destination code : Z) (orig : option (list Z)) (n : net)
    : net * bool :=
  match orig with
  | None => (n, false)
  | Some orig =>
      if (destination =? 0) || (Z.of_nat (length orig) =? 0) then (n, false)
      else
        send ICMP_PROTOCOL destination (Some (icmp_error ICMP_DEST_UNREACHABLE code orig))
          (set_counters (λ i, mk_icmp (ping_waiter i) (echo_requests_sent i) (echo_replies_received i)
             (u64 (dest_unreach_sent i + 1)) (time_exceeded_sent i)) n)
  end.

Definition net_icmp_send_time_exceeded (destination code : Z) (orig : option (list Z)) (n : net)
    : net * bool :=
  match orig with
  | None => (n, false)
  | Some orig =>
      if (destination =? 0) || (Z.of_nat (length orig) <? 20) then (n, false)
      else
        send ICMP_PROTOCOL destination (Some (icmp_error ICMP_TIME_EXCEEDED code orig))
          (set_counters (λ i, mk_icmp (ping_waiter i) (echo_requests_sent i) (echo_replies_received i)
             (dest_unreach_sent i) (u64 (time_exceeded_sent i + 1))) n)
  end.

Definition set_waiter (w : icmp_ping_waiter) (n : net) : net :=
  set_counters (λ i, mk_icmp w (echo_requests_sent i) (echo_replies_received i)
    (dest_unreach_sent i) (time_exceeded_sent i)) n.

(** The two warnings that are only logged leave the state unchanged. *)
Definition net_icmp_receive (source : Z) (packet : option (list Z)) (n : net) : net :=
  match packet with
  | None => n
  | Some packet =>
      if (Z.of_nat (length packet) <? ICMP_HEADER_SIZE) || negb (icmp_checksum packet =? 0) then n
      else
        let type := byte_at packet 0 in
        let code := byte_at packet 1 in
        if (type =? ICMP_ECHO_REQUEST) && (code =? 0) then (icmp_send_echo_reply source packet n).1
        else if (type =? ICMP_ECHO_REPLY) && (code =? 0) then
          let w := ping_waiter (n_icmp n) in
          if (read_u16_be packet 4 =? ICMP_IDENTIFIER) && waiting w && (source =? ping_destination w)
             && (read_u16_be packet 6 =? sequence w)
          then
            set_counters (λ i, mk_icmp
              (mk_waiter (waiting w) true (ping_destination w) (sequence w) (sent_at_tick w)
                 (u64 (tick n - sent_at_tick w)))
              (echo_requests_sent i) (u64 (echo_replies_received i + 1))
              (dest_unreach_sent i) (time_exceeded_sent i)) n
          else n
        else n
  end.

(** ** Ping *)

Context (net_poll wait : net → net).

Definition stop_waiting (n : net) : net :=
  let w := ping_waiter (n_icmp n) in
  set_waiter (mk_waiter false (reply_received w) (ping_destination w) (sequence w)
    (sent_at_tick w) (round_trip_ticks w)) n.

(** The wait loop; [None] when the fuel runs out.  The result is the round trip
    time stored through the caller's pointer. *)
Fixpoint ping_wait (fuel : nat) (started_at timeout : Z) (n : net) : option (net * option Z) :=
  match fuel with
  | O => None
  | S fuel =>
      if u64 (tick n - started_at) <? timeout then
        let n := net_poll n in
        let w := ping_waiter (n_icmp n) in
        if reply_received w then Some (stop_waiting n, Some (round_trip_ticks w))
        else ping_wait fuel started_at timeout (wait n)
      else Some (stop_waiting n, None)
  end.

Definition net_icmp_ping (fuel : nat) (destination seq timeout : Z) (n : net)
    : option (net * option Z) :=
  if (destination =? 0) || waiting (ping_waiter (n_icmp n)) then Some (n, None)
  else
    let sent_at := tick n in
    let n := set_waiter (mk_waiter true false destination seq sent_at 0) n in
    match send ICMP_PROTOCOL destination (Some (echo_request seq sent_at)) n with
    | (n, false) => Some (stop_waiting n, None)
    | (n, true) =>
        let n := set_counters (λ i, mk_icmp (ping_waiter i) (u64 (echo_requests_sent i + 1))
                   (echo_replies_received i) (dest_unreach_sent i) (time_exceeded_sent i)) n in
        ping_wait fuel (tick n) timeout n
    end.

End Icmp.

(** ** Messages verify *)

Lemma with_checksum_verifies type code rest :
  is_u8 type → is_u8 code → Forall is_u8 rest → Z.of_nat (length rest) ≤ 65536 →
  icmp_checksum (with_checksum type code rest) = 0.
Proof.
  intros Ht Hc Hr Hl. apply (inet_checksum_fill [type; code] rest).
  - bytes.
  - done.
  - by exists 1%nat.
  - cbn [length]. lia.
Qed.

(** A valid echo request from another host, received on a link that is up, is
    answered with one frame to it: the same identifier, sequence number and data
    with type "reply", and a checksum that verifies. *)
Lemma echo_answered transmit resolve smac dmac source request n :
  can_send transmit resolve smac dmac (ipv4_address (interface (n_ip n))) source n →
  Forall is_u8 request → 8 ≤ Z.of_nat (length request) ≤ 1480 →
  icmp_checksum request = 0 → byte_at request 0 = ICMP_ECHO_REQUEST → byte_at request 1 = 0 →
  let n' := net_icmp_receive transmit resolve source (Some request) n in
  ∃ reply,
    wire (n_eth n') = wire (n_eth n)
      ++ [whole_frame smac dmac ICMP_PROTOCOL (ipv4_address (interface (n_ip n))) source
            (next_identification (n_ip n)) reply] ∧
    byte_at reply 0 = ICMP_ECHO_REPLY ∧ drop 4 reply = drop 4 request ∧ icmp_checksum reply = 0.
Proof.
  intros Hsend Hb Hlen Hck H0 H1. unfold net_icmp_receive. rewrite Hck, H0, H1.
  destruct (Z.ltb_spec (Z.of_nat (length request)) ICMP_HEADER_SIZE) as [H|_];
    [unfold ICMP_HEADER_SIZE in H; lia|].
  cbn [orb negb Z.eqb andb]. unfold icmp_send_echo_reply.
  change (ICMP_ECHO_REQUEST =? ICMP_ECHO_REQUEST) with true. cbn [andb].
  destruct (Z.ltb_spec (Z.of_nat (length request)) ICMP_HEADER_SIZE) as [H|_];
    [unfold ICMP_HEADER_SIZE in H; lia|].
  destruct (Z.gtb_spec (Z.of_nat (length request)) (NET_ETHERNET_FRAME_MAX - 14 - 20)) as [H|_];
    [unfold NET_ETHERNET_FRAME_MAX in H; lia|]. cbn [orb].
  destruct (send_frames transmit resolve smac dmac ICMP_PROTOCOL
    (ipv4_address (interface (n_ip n))) source (echo_reply request) n Hsend) as (n' & E & Hw); [done|].
  exists (echo_reply request). unfold net_ipv4_send. rewrite E. cbn [fst]. split_and!.
  - rewrite Hw. unfold datagram_frames. assert (Z.of_nat (length (echo_reply request)) ≤ 1480) as Hle.
    { unfold echo_reply, with_checksum. rewrite !length_app, length_drop. cbn [length write_u16_be]. lia. }
    destruct (Z.leb_spec (Z.of_nat (length (echo_reply request))) IPV4_MAX_FRAGMENT_PAYLOAD) as [_|H];
      [done|unfold IPV4_MAX_FRAGMENT_PAYLOAD in H; lia].
  - done.
  - done.
  - apply with_checksum_verifies; [done|done|by apply Forall_drop|]. rewrite length_drop. lia.
Qed.

(** The self-test of the source. *)
Example net_icmp_self_test : icmp_checksum [8; 0; 0xac; 0xaf; 0x4b; 0x4f; 0; 1] = 0.
Proof. reflexivity. Qed.
