(* ===== verification/Tcp.v ===== *)
(** * TCP (src/net/tcp.c)

    The eight sockets, the handler of received segments, the retransmission
    timer and the blocking calls.  The fields of [struct tcp_socket] are grouped
    into small records; the prefix of [pending_packet] that is in use is a list,
    so that [pending_packet_size] is its length, and the ring buffer is a map
    from index to byte.  A critical section of [tcp_lock] is one function of the
    state.  [net_ipv4_send_from], [net_poll] and the wait for an interrupt are
    parameters: they may run any part of the stack, this file included (a
    segment to the own address is received inside the call that sends it). *)

From Stdlib Require Import ZArith Lia.
From stdpp Require Import gmap.
From S2P Require Import Prelude Inet NetState.

#[local] Open Scope Z_scope.

(** ** Constants *)

Definition TCP_FLAG_FIN : Z := 0x01.
Definition TCP_FLAG_SYN : Z := 0x02.
Definition TCP_FLAG_RST : Z := 0x04.
Definition TCP_FLAG_PSH : Z := 0x08.
Definition TCP_FLAG_ACK : Z := 0x10.
Definition TCP_HEADER_MIN_SIZE : Z := 20.
Definition TCP_OPT_END : Z := 0.
Definition TCP_OPT_NOP : Z := 1.
Definition TCP_OPT_MSS : Z := 2.
Definition TCP_RX_BUFFER_CAPACITY : Z := 8192.
Definition TCP_MAX_RETRIES : Z := 5.
Definition TCP_EPHEMERAL_PORT_START : Z := 49152.
Definition TCP_EPHEMERAL_PORT_END : Z := 65535.
Definition NET_TCP_SOCKET_MAX : nat := 8.
Definition NET_TCP_DEFAULT_MSS : Z := 1460.
Definition NET_TCP_DEFAULT_WINDOW : Z := 8192.
Definition NET_TCP_RTO_TICKS : Z := 200.

(** [(flags & mask) != 0] *)
Definition has (flags mask : Z) : bool := negb (Z.land flags mask =? 0).

(** ** Data *)

Inductive tcp_state :=
  | TCP_STATE_CLOSED | TCP_STATE_LISTEN | TCP_STATE_SYN_SENT | TCP_STATE_SYN_RECEIVED
  | TCP_STATE_ESTABLISHED | TCP_STATE_FIN_WAIT_1 | TCP_STATE_FIN_WAIT_2 | TCP_STATE_CLOSE_WAIT
  | TCP_STATE_LAST_ACK | TCP_STATE_TIME_WAIT.

#[export] Instance tcp_state_eq_dec : EqDecision tcp_state.
Proof. solve_decision. Defined.

Record endpoints := mk_endpoints { local_ip : Z; local_port : Z; remote_ip : Z; remote_port : Z }.
Record listener := mk_listener { backlog : Z; accepted_queue : list Z; accepted_count : Z }.
Record send_seq := mk_snd { snd_una : Z; snd_nxt : Z; snd_isn : Z; snd_wnd : Z }.
Record recv_seq := mk_rcv { rcv_nxt : Z; rcv_isn : Z; rcv_wnd : Z }.
Record congestion := mk_cong { cwnd : Z; ssthresh : Z }.
Record rtt_state := mk_rtt {
  srtt : Z; rttvar : Z; rtt_seq : Z; rtt_sent_tick : Z; rtt_measuring : bool
}.
Record retransmission := mk_retx {
  retransmit_pending : bool; last_sent_tick : Z; rto_ticks : Z; retry_count : Z;
  pending_packet : list Z
}.
Record ring := mk_ring { rx_buffer : gmap Z Z; rx_head : Z; rx_tail : Z; rx_count : Z }.

Record tcp_socket := mk_socket {
  in_use : bool;
  is_listening : bool;
  state : tcp_state;
  ends : endpoints;
  parent_socket : Z;
  listening : listener;
  snd : send_seq;
  rcv : recv_seq;
  mss : Z;
  cong : congestion;
  rtt : rtt_state;
  time_wait_start : Z;
  retx : retransmission;
  rx : ring;
  fin_received : bool
}.

Record tcp := mk_tcp {
  tcp_sockets : list tcp_socket;
  next_tcp_port : Z;
  segments_sent : Z;
  segments_received : Z;
  retransmissions : Z
}.

(** The TCP layer and the layers below it. *)
Record stack := mk_stack { st_tcp : tcp; st_net : net }.

Definition timer_ticks (st : stack) : Z := tick (st_net st).

(** An object initialised by [(struct tcp_socket){ ... }] is zero elsewhere. *)
Definition empty_ring : ring := mk_ring ∅ 0 0 0.
Definition zero_listener : listener := mk_listener 0 (replicate NET_TCP_SOCKET_MAX 0) 0.
Definition tcp_socket_zero : tcp_socket :=
  mk_socket false false TCP_STATE_CLOSED (mk_endpoints 0 0 0 0) 0 zero_listener (mk_snd 0 0 0 0)
    (mk_rcv 0 0 0) 0 (mk_cong 0 0) (mk_rtt 0 0 0 0 false) 0 (mk_retx false 0 0 0 []) empty_ring false.

Definition set_in_use (b : bool) (s : tcp_socket) : tcp_socket :=
  mk_socket b (is_listening s) (state s) (ends s) (parent_socket s) (listening s) (snd s) (rcv s)
    (mss s) (cong s) (rtt s) (time_wait_start s) (retx s) (rx s) (fin_received s).
Definition set_is_listening (b : bool) (s : tcp_socket) : tcp_socket :=
  mk_socket (in_use s) b (state s) (ends s) (parent_socket s) (listening s) (snd s) (rcv s)
    (mss s) (cong s) (rtt s) (time_wait_start s) (retx s) (rx s) (fin_received s).
Definition set_state (x : tcp_state) (s : tcp_socket) : tcp_socket :=
  mk_socket (in_use s) (is_listening s) x (ends s) (parent_socket s) (listening s) (snd s) (rcv s)
    (mss s) (cong s) (rtt s) (time_wait_start s) (retx s) (rx s) (fin_received s).
Definition set_listening (l : listener) (s : tcp_socket) : tcp_socket :=
  mk_socket (in_use s) (is_listening s) (state s) (ends s) (parent_socket s) l (snd s) (rcv s)
    (mss s) (cong s) (rtt s) (time_wait_start s) (retx s) (rx s) (fin_received s).
Definition set_snd (x : send_seq) (s : tcp_socket) : tcp_socket :=
  mk_socket (in_use s) (is_listening s) (state s) (ends s) (parent_socket s) (listening s) x (rcv s)
    (mss s) (cong s) (rtt s) (time_wait_start s) (retx s) (rx s) (fin_received s).
Definition set_rcv (x : recv_seq) (s : tcp_socket) : tcp_socket :=
  mk_socket (in_use s) (is_listening s) (state s) (ends s) (parent_socket s) (listening s) (snd s) x
    (mss s) (cong s) (rtt s) (time_wait_start s) (retx s) (rx s) (fin_received s).
Definition set_mss (x : Z) (s : tcp_socket) : tcp_socket :=
  mk_socket (in_use s) (is_listening s) (state s) (ends s) (parent_socket s) (listening s) (snd s) (rcv s)
    x (cong s) (rtt s) (time_wait_start s) (retx s) (rx s) (fin_received s).
Definition set_cong (x : congestion) (s : tcp_socket) : tcp_socket :=
  mk_socket (in_use s) (is_listening s) (state s) (ends s) (parent_socket s) (listening s) (snd s) (rcv s)
    (mss s) x (rtt s) (time_wait_start s) (retx s) (rx s) (fin_received s).
Definition set_rtt (x : rtt_state) (s : tcp_socket) : tcp_socket :=
  mk_socket (in_use s) (is_listening s) (state s) (ends s) (parent_socket s) (listening s) (snd s) (rcv s)
    (mss s) (cong s) x (time_wait_start s) (retx s) (rx s) (fin_received s).
Definition set_time_wait_start (x : Z) (s : tcp_socket) : tcp_socket :=
  mk_socket (in_use s) (is_listening s) (state s) (ends s) (parent_socket s) (listening s) (snd s) (rcv s)
    (mss s) (cong s) (rtt s) x (retx s) (rx s) (fin_received s).
Definition set_retx (x : retransmission) (s : tcp_socket) : tcp_socket :=
  mk_socket (in_use s) (is_listening s) (state s) (ends s) (parent_socket s) (listening s) (snd s) (rcv s)
    (mss s) (cong s) (rtt s) (time_wait_start s) x (rx s) (fin_received s).
Definition set_rx (x : ring) (s : tcp_socket) : tcp_socket :=
  mk_socket (in_use s) (is_listening s) (state s) (ends s) (parent_socket s) (listening s) (snd s) (rcv s)
    (mss s) (cong s) (rtt s) (time_wait_start s) (retx s) x (fin_received s).
Definition set_fin_received (b : bool) (s : tcp_socket) : tcp_socket :=
  mk_socket (in_use s) (is_listening s) (state s) (ends s) (parent_socket s) (listening s) (snd s) (rcv s)
    (mss s) (cong s) (rtt s) (time_wait_start s) (retx s) (rx s) b.

(** Single fields of the groups. *)
Definition set_snd_una (v : Z) (s : tcp_socket) : tcp_socket :=
  set_snd (mk_snd v (snd_nxt (snd s)) (snd_isn (snd s)) (snd_wnd (snd s))) s.
Definition set_snd_nxt (v : Z) (s : tcp_socket) : tcp_socket :=
  set_snd (mk_snd (snd_una (snd s)) v (snd_isn (snd s)) (snd_wnd (snd s))) s.
Definition set_snd_wnd (v : Z) (s : tcp_socket) : tcp_socket :=
  set_snd (mk_snd (snd_una (snd s)) (snd_nxt (snd s)) (snd_isn (snd s)) v) s.
Definition set_rcv_nxt (v : Z) (s : tcp_socket) : tcp_socket :=
  set_rcv (mk_rcv v (rcv_isn (rcv s)) (rcv_wnd (rcv s))) s.
Definition set_retransmit_pending (b : bool) (s : tcp_socket) : tcp_socket :=
  set_retx (mk_retx b (last_sent_tick (retx s)) (rto_ticks (retx s)) (retry_count (retx s))
    (pending_packet (retx s))) s.

Definition set_sockets (l : list tcp_socket) (st : stack) : stack :=
  let t := st_tcp st in
  mk_stack (mk_tcp l (next_tcp_port t) (segments_sent t) (segments_received t) (retransmissions t)) (st_net st).
Definition set_next_port (p : Z) (st : stack) : stack :=
  let t := st_tcp st in
  mk_stack (mk_tcp (tcp_sockets t) p (segments_sent t) (segments_received t) (retransmissions t)) (st_net st).
Definition count_sent (st : stack) : stack :=
  let t := st_tcp st in
  mk_stack (mk_tcp (tcp_sockets t) (next_tcp_port t) (u64 (segments_sent t + 1)) (segments_received t)
    (retransmissions t)) (st_net st).
Definition count_received (st : stack) : stack :=
  let t := st_tcp st in
  mk_stack (mk_tcp (tcp_sockets t) (next_tcp_port t) (segments_sent t) (u64 (segments_received t + 1))
    (retransmissions t)) (st_net st).
Definition count_retransmission (st : stack) : stack :=
  let t := st_tcp st in
  mk_stack (mk_tcp (tcp_sockets t) (next_tcp_port t) (segments_sent t) (segments_received t)
    (u64 (retransmissions t + 1))) (st_net st).

Definition sock (i : nat) (st : stack) : tcp_socket :=
  default tcp_socket_zero (tcp_sockets (st_tcp st) !! i).
Definition put_sock (i : nat) (s : tcp_socket) (st : stack) : stack :=
  set_sockets (<[i := s]> (tcp_sockets (st_tcp st))) st.
Definition update_sock (i : nat) (f : tcp_socket → tcp_socket) (st : stack) : stack :=
  put_sock i (f (sock i st)) st.

(** ** Segments *)

(** The sum starts with the pseudo header. *)
Definition tcp_checksum (source_ip dest_ip : Z) (segment : list Z) : Z :=
  let sum := u32 (Z.land (Z.shiftr source_ip 16) 0xffff + Z.land source_ip 0xffff
                + Z.land (Z.shiftr dest_ip 16) 0xffff + Z.land dest_ip 0xffff
                + 6 + u16 (Z.of_nat (length segment))) in
  let result := u16 (not32 (default 0 (checksum_fold 3 (checksum_sum sum segment)))) in
  if result =? 0 then 0xffff else result.

(** The header without options, with the given data offset (in words). *)
Definition tcp_header (src_port dst_port seq ack words flags window checksum : Z) : list Z :=
  write_u16_be src_port ++ write_u16_be dst_port ++ write_u32_be seq ++ write_u32_be ack
    ++ [u8 (Z.shiftl words 4); flags] ++ write_u16_be window ++ write_u16_be checksum ++ write_u16_be 0.

(** Build with checksum zero, then store the checksum. *)
Definition tcp_segment (src_ip src_port dst_ip dst_port seq ack words flags window : Z)
    (body : list Z) : list Z :=
  let checksum := tcp_checksum src_ip dst_ip
    (tcp_header src_port dst_port seq ack words flags window 0 ++ body) in
  tcp_header src_port dst_port seq ack words flags window checksum ++ body.

Definition mss_option : list Z :=
  [TCP_OPT_MSS; 4; u8 (Z.shiftr NET_TCP_DEFAULT_MSS 8); u8 NET_TCP_DEFAULT_MSS].

(** [(uint16_t)(TCP_RX_BUFFER_CAPACITY - s->rx_count)] *)
Definition receive_window (s : tcp_socket) : Z := u16 (TCP_RX_BUFFER_CAPACITY - rx_count (rx s)).

(** Copying [data] into the ring at [rx_tail]. *)
Fixpoint ring_push (data : list Z) (r : ring) : ring :=
  match data with
  | [] => r
  | b :: data =>
      ring_push data (mk_ring (<[rx_tail r := b]> (rx_buffer r)) (rx_head r)
        ((rx_tail r + 1) mod TCP_RX_BUFFER_CAPACITY) (rx_count r))
  end.

(** Copying [n] bytes out of the ring at [rx_head]. *)
Fixpoint ring_pop (n : nat) (r : ring) : list Z * ring :=
  match n with
  | O => ([], r)
  | S n =>
      let '(data, r') := ring_pop n (mk_ring (rx_buffer r)
        ((rx_head r + 1) mod TCP_RX_BUFFER_CAPACITY) (rx_tail r) (rx_count r)) in
      (get0 (rx_buffer r) (rx_head r) :: data, r')
  end.

(** ** Searches of the socket table *)

Fixpoint find_index (p : tcp_socket → bool) (i : nat) (l : list tcp_socket) : option nat :=
  match l with
  | [] => None
  | s :: l => if p s then Some i else find_index p (S i) l
  end.

Definition find_socket (p : tcp_socket → bool) (st : stack) : option nat :=
  find_index p 0 (tcp_sockets (st_tcp st)).

Definition port_in_use (port : Z) (st : stack) : bool :=
  bool_decide (Exists (λ s, in_use s = true ∧ local_port (ends s) = port) (tcp_sockets (st_tcp st))).

Fixpoint allocate_port_loop (attempts : nat) (st : stack) : stack * Z :=
  match attempts with
  | O => (st, 0)
  | S attempts =>
      let port := next_tcp_port (st_tcp st) in
      let next := u16 (port + 1) in
      let st := set_next_port (if next >? TCP_EPHEMERAL_PORT_END then TCP_EPHEMERAL_PORT_START else next) st in
      if port_in_use port st then allocate_port_loop attempts st else (st, port)
  end.

Definition allocate_tcp_port_locked (st : stack) : stack * Z := allocate_port_loop (Z.to_nat 16384) st.

(** Is the socket the connection to [source], [src_port]? *)
Definition connection_matches (source src_port dst_port : Z) (s : tcp_socket) : bool :=
  in_use s && negb (is_listening s) && (local_port (ends s) =? dst_port)
    && (remote_port (ends s) =? src_port)
    && ((remote_ip (ends s) =? source) || (remote_ip (ends s) =? 0)).

Definition listener_matches (dst_port : Z) (s : tcp_socket) : bool :=
  in_use s && is_listening s && (local_port (ends s) =? dst_port).

(** ** Options *)

(** The scan for the MSS option; each round moves [opt_offset] forward. *)
Fixpoint parse_mss (fuel : nat) (packet : list Z) (data_offset opt_offset mss : Z) : Z :=
  match fuel with
  | O => mss
  | S fuel =>
      if negb (opt_offset <? data_offset) then mss
      else
        let kind := byte_at packet opt_offset in
        if kind =? TCP_OPT_END then mss
        else if kind =? TCP_OPT_NOP then parse_mss fuel packet data_offset (opt_offset + 1) mss
        else if opt_offset + 1 >=? data_offset then mss
        else
          let len := byte_at packet (opt_offset + 1) in
          if (opt_offset + len >? data_offset) || (len <? 2) then mss
          else
            let mss :=
              if (kind =? TCP_OPT_MSS) && (len =? 4) then
                let peer_mss := read_u16_be packet (opt_offset + 2) in
                if (peer_mss >? 0) && (peer_mss <? mss) then peer_mss else mss
              else mss in
            parse_mss fuel packet data_offset (opt_offset + len) mss
  end.

(** A header has at most 60 bytes. *)
Definition peer_mss (packet : list Z) (data_offset mss : Z) : Z :=
  if data_offset >? TCP_HEADER_MIN_SIZE then parse_mss 60 packet data_offset TCP_HEADER_MIN_SIZE mss
  else mss.

(** ** The round-trip estimate and the congestion window *)

(** A measured round trip of [m] ticks; [hz] is [timer_frequency_hz()]. *)
Definition rtt_sample (hz m : Z) (s : tcp_socket) : tcp_socket :=
  let r := rtt s in
  let '(srtt', rttvar') :=
    if srtt r =? 0 then (m, m / 2)
    else
      let delta := s32 (s32 m - s32 (srtt r)) in
      let delta := if delta <? 0 then s32 (- delta) else delta in
      (u32 (7 * srtt r + m) / 8, u32 (3 * rttvar r + u32 delta) / 4) in
  let rto := u32 (srtt' + 4 * rttvar') in
  let rto := if rto <? 2 then 2 else rto in
  let rto := if rto >? u64 (hz * 60) then u32 (u32 hz * 60) else rto in
  let s := set_rtt (mk_rtt srtt' rttvar' (rtt_seq r) (rtt_sent_tick r) false) s in
  let x := retx s in
  set_retx (mk_retx (retransmit_pending x) (last_sent_tick x) rto (retry_count x) (pending_packet x)) s.

Definition grow_cwnd (s : tcp_socket) : tcp_socket :=
  let c := cong s in
  let grown :=
    if cwnd c <? ssthresh c then cwnd c + mss s
    else cwnd c + mss s * mss s / (if cwnd c >? 0 then cwnd c else 1) in
  set_cong (mk_cong (u32 grown) (ssthresh c)) s.

(** ** Received segments *)

(** The header fields of a received segment. *)
Record segment := mk_segment {
  seg_source : Z; seg_destination : Z;
  seg_src_port : Z; seg_dst_port : Z; seg_seq : Z; seg_ack : Z;
  seg_data_offset : Z; seg_flags : Z; seg_window : Z; seg_packet : list Z
}.

Section Stack.
  Context (net_ipv4_send_from : Z → Z → Z → list Z → stack → stack * bool).
  Context (net_poll cpu_wait_for_interrupt : stack → stack).
  Context (timer_frequency_hz : Z).

Definition tcp_transmit_segment (src_ip src_port dst_ip dst_port seq ack flags window : Z)
    (options payload : list Z) (st : stack) : stack * bool :=
  let options_len := Z.of_nat (length options) in
  let words := u8 ((TCP_HEADER_MIN_SIZE + options_len) / 4) in
  let total := TCP_HEADER_MIN_SIZE + options_len + Z.of_nat (length payload) in
  if total >? NET_ETHERNET_FRAME_MAX then (st, false)
  else
    let packet := tcp_segment src_ip src_port dst_ip dst_port seq ack words flags window (options ++ payload) in
    net_ipv4_send_from 6 src_ip dst_ip packet (count_sent st).

(** An empty ACK with the socket's current numbers. *)
Definition tcp_send_ack (s : tcp_socket) (st : stack) : stack :=
  let e := ends s in
  (tcp_transmit_segment (local_ip e) (local_port e) (remote_ip e) (remote_port e)
    (snd_nxt (snd s)) (rcv_nxt (rcv s)) TCP_FLAG_ACK (receive_window s) [] [] st).1.

Definition tcp_send_rst (src_ip src_port dst_ip dst_port seq ack : Z) (st : stack) : stack :=
  (tcp_transmit_segment src_ip src_port dst_ip dst_port seq ack
    (Z.lor TCP_FLAG_RST TCP_FLAG_ACK) 0 [] [] st).1.

(** Bytes 16 and 17 are zero while the checksum is computed.  The copy for this
    is an array of [NET_ETHERNET_FRAME_MAX] bytes: a longer segment (which only
    IP reassembly can deliver) overruns it. *)
Definition parse_segment (source destination : Z) (packet : list Z) : option segment :=
  let size := Z.of_nat (length packet) in
  if size <? TCP_HEADER_MIN_SIZE then None
  else
    let data_offset := u8 (Z.shiftr (byte_at packet 12) 4 * 4) in
    if (data_offset <? TCP_HEADER_MIN_SIZE) || (data_offset >? size) then None
    else
      let temp := <[16%nat := 0]> (<[17%nat := 0]> packet) in
      if negb (tcp_checksum source destination temp =? read_u16_be packet 16) then None
      else Some (mk_segment source destination (read_u16_be packet 0) (read_u16_be packet 2)
        (read_u32_be packet 4) (read_u32_be packet 8) data_offset (byte_at packet 13)
        (read_u16_be packet 14) packet).

(** The connection that a SYN to a listener creates. *)
Definition child_socket (now : Z) (ls child_slot : nat) (g : segment) : tcp_socket :=
  let isn := u32 (now * 1103515245 + 12345 + Z.of_nat child_slot * 1000) in
  mk_socket true false TCP_STATE_SYN_RECEIVED
    (mk_endpoints (seg_destination g) (seg_dst_port g) (seg_source g) (seg_src_port g)) (Z.of_nat ls)
    zero_listener (mk_snd isn (u32 (isn + 1)) isn (seg_window g))
    (mk_rcv (u32 (seg_seq g + 1)) (seg_seq g) TCP_RX_BUFFER_CAPACITY)
    (peer_mss (seg_packet g) (seg_data_offset g) NET_TCP_DEFAULT_MSS) (mk_cong 0 0) (mk_rtt 0 0 0 0 false)
    0 (mk_retx false 0 NET_TCP_RTO_TICKS 0 []) empty_ring false.

(** The segment is for the listener in slot [ls]. *)
Definition on_listener (ls : nat) (g : segment) (st : stack) : stack :=
  if has (seg_flags g) TCP_FLAG_SYN && negb (has (seg_flags g) TCP_FLAG_ACK)
     && negb (has (seg_flags g) TCP_FLAG_RST) then
    match find_socket (λ s, negb (in_use s)) st with
    | Some child_slot =>
        let l := listening (sock ls st) in
        if accepted_count l <? backlog l then
          let cs := child_socket (timer_ticks st) ls child_slot g in
          let st := count_sent (put_sock child_slot cs st) in
          (tcp_transmit_segment (seg_destination g) (seg_dst_port g) (seg_source g) (seg_src_port g)
            (snd_isn (snd cs)) (rcv_nxt (rcv cs)) (Z.lor TCP_FLAG_SYN TCP_FLAG_ACK) (rcv_wnd (rcv cs))
            mss_option [] st).1
        else st
    | None => st
    end
  else st.

Definition on_syn_sent (i : nat) (g : segment) (st : stack) : stack :=
  let s := sock i st in
  if Z.land (seg_flags g) (Z.lor TCP_FLAG_SYN TCP_FLAG_ACK) =? Z.lor TCP_FLAG_SYN TCP_FLAG_ACK then
    if seg_ack g =? snd_nxt (snd s) then
      let s := set_rcv (mk_rcv (u32 (seg_seq g + 1)) (seg_seq g) (rcv_wnd (rcv s))) s in
      let s := set_snd_wnd (seg_window g) (set_snd_una (seg_ack g) s) in
      let s := set_retransmit_pending false s in
      let s := set_mss (peer_mss (seg_packet g) (seg_data_offset g) (mss s)) s in
      let s := set_state TCP_STATE_ESTABLISHED s in
      tcp_send_ack s (put_sock i s st)
    else st
  else st.

(** [parent->accepted_queue[parent->accepted_count++] = child_idx] *)
Definition enqueue_accepted (child : nat) (p : tcp_socket) : tcp_socket :=
  let l := listening p in
  set_listening (mk_listener (backlog l)
    (<[Z.to_nat (accepted_count l) := Z.of_nat child]> (accepted_queue l))
    (u8 (accepted_count l + 1))) p.

Definition on_syn_received (i : nat) (g : segment) (st : stack) : stack :=
  let s := sock i st in
  if has (seg_flags g) TCP_FLAG_ACK && (seg_ack g =? snd_nxt (snd s)) then
    let st := put_sock i (set_state TCP_STATE_ESTABLISHED (set_snd_una (seg_ack g) s)) st in
    let p_idx := parent_socket s in
    if (0 <=? p_idx) && (p_idx <? Z.of_nat NET_TCP_SOCKET_MAX) then
      let parent := sock (Z.to_nat p_idx) st in
      if in_use parent && is_listening parent
         && (accepted_count (listening parent) <? backlog (listening parent)) then
        put_sock (Z.to_nat p_idx) (enqueue_accepted i parent) st
      else st
    else st
  else st.

(** The acknowledgement of a segment, in ESTABLISHED. *)
Definition take_ack (now : Z) (g : segment) (s : tcp_socket) : tcp_socket :=
  if has (seg_flags g) TCP_FLAG_ACK then
    let s :=
      if (seg_ack g >? snd_una (snd s)) && (seg_ack g <=? snd_nxt (snd s)) then
        let s :=
          if rtt_measuring (rtt s) && (seg_ack g >=? rtt_seq (rtt s)) then
            rtt_sample timer_frequency_hz (u32 (now - rtt_sent_tick (rtt s))) s
          else s in
        set_retransmit_pending false (set_snd_una (seg_ack g) (grow_cwnd s))
      else s in
    set_snd_wnd (seg_window g) s
  else s.

(** The payload of a segment, in ESTABLISHED; the flag is [need_ack]. *)
Definition take_payload (g : segment) (s : tcp_socket) : tcp_socket * bool :=
  let payload := drop (Z.to_nat (seg_data_offset g)) (seg_packet g) in
  let payload_len := Z.of_nat (length payload) in
  if payload_len >? 0 then
    if seg_seq g =? rcv_nxt (rcv s) then
      let free_space := TCP_RX_BUFFER_CAPACITY - rx_count (rx s) in
      let copy_bytes := if payload_len <? free_space then payload_len else free_space in
      let r := ring_push (take (Z.to_nat copy_bytes) payload) (rx s) in
      let r := mk_ring (rx_buffer r) (rx_head r) (rx_tail r) (rx_count r + copy_bytes) in
      (set_rcv_nxt (u32 (rcv_nxt (rcv s) + copy_bytes)) (set_rx r s), true)
    else (s, seg_seq g <? rcv_nxt (rcv s))
  else (s, false).

(** The FIN flag, in ESTABLISHED. *)
Definition take_fin (g : segment) (sn : tcp_socket * bool) : tcp_socket * bool :=
  let '(s, need_ack) := sn in
  if has (seg_flags g) TCP_FLAG_FIN then
    (set_state TCP_STATE_CLOSE_WAIT (set_fin_received true (set_rcv_nxt (u32 (rcv_nxt (rcv s) + 1)) s)), true)
  else (s, need_ack).

Definition ack_if (need_ack : bool) (s : tcp_socket) (st : stack) : stack :=
  if need_ack then tcp_send_ack s st else st.

Definition on_established (i : nat) (g : segment) (st : stack) : stack :=
  let '(s, need_ack) := take_fin g (take_payload g (take_ack (timer_ticks st) g (sock i st))) in
  ack_if need_ack s (put_sock i s st).

Definition on_close_wait (i : nat) (g : segment) (st : stack) : stack :=
  let s := sock i st in
  if has (seg_flags g) TCP_FLAG_ACK then
    let s :=
      if (seg_ack g >? snd_una (snd s)) && (seg_ack g <=? snd_nxt (snd s)) then
        set_retransmit_pending false (set_snd_una (seg_ack g) s)
      else s in
    put_sock i (set_snd_wnd (seg_window g) s) st
  else st.

Definition on_last_ack (i : nat) (g : segment) (st : stack) : stack :=
  let s := sock i st in
  if has (seg_flags g) TCP_FLAG_ACK && (seg_ack g >=? snd_nxt (snd s)) then
    put_sock i (set_in_use false (set_state TCP_STATE_CLOSED s)) st
  else st.

Definition on_fin_wait_1 (i : nat) (g : segment) (st : stack) : stack :=
  let s := sock i st in
  let s := if has (seg_flags g) TCP_FLAG_ACK && (seg_ack g >=? snd_nxt (snd s))
           then set_state TCP_STATE_FIN_WAIT_2 s else s in
  let '(s, need_ack) :=
    if has (seg_flags g) TCP_FLAG_FIN
    then (set_state TCP_STATE_CLOSED (set_rcv_nxt (u32 (rcv_nxt (rcv s) + 1)) s), true)
    else (s, false) in
  ack_if need_ack s (put_sock i s st).

Definition on_fin_wait_2 (i : nat) (g : segment) (st : stack) : stack :=
  let s := sock i st in
  let '(s, need_ack) :=
    if has (seg_flags g) TCP_FLAG_FIN
    then (set_time_wait_start (timer_ticks st)
            (set_state TCP_STATE_TIME_WAIT (set_rcv_nxt (u32 (rcv_nxt (rcv s) + 1)) s)), true)
    else (s, false) in
  ack_if need_ack s (put_sock i s st).

(** A segment for the connection in slot [i]. *)
Definition on_connection (i : nat) (g : segment) (st : stack) : stack :=
  if has (seg_flags g) TCP_FLAG_RST then
    update_sock i (λ s, set_retransmit_pending false (set_state TCP_STATE_CLOSED s)) st
  else
    match state (sock i st) with
    | TCP_STATE_SYN_SENT => on_syn_sent i g st
    | TCP_STATE_SYN_RECEIVED => on_syn_received i g st
    | TCP_STATE_ESTABLISHED => on_established i g st
    | TCP_STATE_CLOSE_WAIT => on_close_wait i g st
    | TCP_STATE_LAST_ACK => on_last_ack i g st
    | TCP_STATE_FIN_WAIT_1 => on_fin_wait_1 i g st
    | TCP_STATE_FIN_WAIT_2 => on_fin_wait_2 i g st
    | _ => st
    end.

Definition net_tcp_receive (source destination : Z) (packet : list Z) (st : stack) : stack :=
  match parse_segment source destination packet with
  | None => st
  | Some g =>
      let st := count_received st in
      match find_socket (connection_matches source (seg_src_port g) (seg_dst_port g)) st with
      | Some i => on_connection i g st
      | None =>
          match find_socket (listener_matches (seg_dst_port g)) st with
          | Some ls => on_listener ls g st
          | None =>
              if negb (has (seg_flags g) TCP_FLAG_RST) then
                tcp_send_rst destination (seg_dst_port g) source (seg_src_port g)
                  (seg_ack g) (u32 (seg_seq g + 1)) st
              else st
          end
      end
  end.

(** ** Timers *)

(** What a retransmission changes in its socket. *)
Definition back_off (now : Z) (s : tcp_socket) : tcp_socket :=
  let x := retx s in
  let s := set_retx (mk_retx (retransmit_pending x) now (u32 (rto_ticks x * 2)) (retry_count x + 1)
    (pending_packet x)) s in
  let r := rtt s in
  let s := set_rtt (mk_rtt (srtt r) (rttvar r) (rtt_seq r) (rtt_sent_tick r) false) s in
  let half := cwnd (cong s) / 2 in
  set_cong (mk_cong (mss s) (if half <? 2 * mss s then 2 * mss s else half)) s.

Definition poll_socket (i : nat) (st : stack) : stack :=
  let s := sock i st in
  let now := timer_ticks st in
  if in_use s && bool_decide (state s = TCP_STATE_TIME_WAIT) then
    if u64 (now - time_wait_start s) >=? NET_TCP_RTO_TICKS * 2
    then put_sock i (set_in_use false (set_state TCP_STATE_CLOSED s)) st else st
  else if in_use s && retransmit_pending (retx s) then
    if u64 (now - last_sent_tick (retx s)) >=? rto_ticks (retx s) then
      if retry_count (retx s) <? TCP_MAX_RETRIES then
        let st := put_sock i (back_off now s) (count_sent (count_retransmission st)) in
        (net_ipv4_send_from 6 (local_ip (ends s)) (remote_ip (ends s)) (pending_packet (retx s)) st).1
      else put_sock i (set_retransmit_pending false (set_state TCP_STATE_CLOSED s)) st
    else st
  else st.

Definition net_tcp_poll (st : stack) : stack :=
  fold_left (λ st i, poll_socket i st) (seq 0 NET_TCP_SOCKET_MAX) st.

(** ** Waiting

    [while (timer_ticks() - start < timeout) { net_poll(); if (check) break;
    cpu_wait_for_interrupt(); }]: [check] is the critical section in the loop and
    says whether the loop ends; the result is [None] on timeout. *)

Fixpoint wait_loop {A} (fuel : nat) (start timeout : Z) (check : stack → stack * option A)
    (st : stack) : option (stack * option A) :=
  match fuel with
  | O => None
  | S fuel =>
      if u64 (timer_ticks st - start) <? timeout then
        match check (net_poll st) with
        | (st, Some a) => Some (st, Some a)
        | (st, None) => wait_loop fuel start timeout check (cpu_wait_for_interrupt st)
        end
      else Some (st, None)
  end.

(** ** Opening a connection *)

Definition connecting_socket (now local_ip local_port address port : Z) : tcp_socket :=
  let isn := Z.lxor (u32 (u32 now * 65536)) 0x4b4f5354 in
  let pending := tcp_segment local_ip local_port address port isn 0 6 TCP_FLAG_SYN
    TCP_RX_BUFFER_CAPACITY mss_option in
  mk_socket true false TCP_STATE_SYN_SENT (mk_endpoints local_ip local_port address port) 0
    zero_listener (mk_snd isn (u32 (isn + 1)) isn NET_TCP_DEFAULT_WINDOW) (mk_rcv 0 0 TCP_RX_BUFFER_CAPACITY)
    NET_TCP_DEFAULT_MSS (mk_cong (2 * NET_TCP_DEFAULT_MSS) 65535) (mk_rtt 0 0 isn now true)
    0 (mk_retx true now NET_TCP_RTO_TICKS 0 pending) empty_ring false.

(** The critical section that claims a socket, and the first SYN. *)
Definition connect_start (address port : Z) (st : stack) : stack * option nat :=
  let info := interface (n_ip (st_net st)) in
  if (address =? 0) || (port =? 0) || negb (available info) then (st, None)
  else
    match find_socket (λ s, negb (in_use s)) st with
    | None => (st, None)
    | Some i =>
        let '(st, local_port) := allocate_tcp_port_locked st in
        if local_port =? 0 then (st, None)
        else
          let s := connecting_socket (timer_ticks st) (ipv4_address info) local_port address port in
          let st := count_sent (put_sock i s st) in
          ((net_ipv4_send_from 6 (local_ip (ends s)) (remote_ip (ends s))
              (pending_packet (retx s)) st).1, Some i)
    end.

Definition connect_check (i : nat) (st : stack) : stack * option Z :=
  match state (sock i st) with
  | TCP_STATE_ESTABLISHED => (st, Some (Z.of_nat i))
  | TCP_STATE_CLOSED => (update_sock i (set_in_use false) st, Some (-1))
  | _ => (st, None)
  end.

Definition tcp_connect (fuel : nat) (address port : Z) (st : stack) : option (stack * Z) :=
  match connect_start address port st with
  | (st, None) => Some (st, -1)
  | (st, Some i) =>
      if bool_decide (state (sock i st) = TCP_STATE_ESTABLISHED) then Some (st, Z.of_nat i)
      else
        match wait_loop fuel (timer_ticks st) (u64 (timer_frequency_hz * 5)) (connect_check i) st with
        | None => None
        | Some (st, Some r) => Some (st, r)
        | Some (st, None) =>
            Some (update_sock i (λ s, set_in_use false (set_state TCP_STATE_CLOSED s)) st, -1)
        end
  end.

(** ** Sending *)

Definition may_transfer (s : tcp_socket) : bool :=
  bool_decide (state s = TCP_STATE_ESTABLISHED) || bool_decide (state s = TCP_STATE_CLOSE_WAIT).

(** How many of the [left] bytes go into the next segment. *)
Definition next_chunk (s : tcp_socket) (left : Z) : Z :=
  let chunk_size := if left >? mss s then mss s else left in
  let eff_wnd := if snd_wnd (snd s) <? cwnd (cong s) then snd_wnd (snd s) else cwnd (cong s) in
  if (eff_wnd <? chunk_size) && (eff_wnd >? 0) then eff_wnd else chunk_size.

(** The segment with [chunk], recorded for retransmission. *)
Definition queue_chunk (now : Z) (chunk : list Z) (s : tcp_socket) : tcp_socket :=
  let e := ends s in
  let seq := snd_nxt (snd s) in
  let size := Z.of_nat (length chunk) in
  let packet := tcp_segment (local_ip e) (local_port e) (remote_ip e) (remote_port e) seq (rcv_nxt (rcv s))
    5 (Z.lor TCP_FLAG_ACK TCP_FLAG_PSH) (receive_window s) chunk in
  let rto := if srtt (rtt s) =? 0 then NET_TCP_RTO_TICKS else rto_ticks (retx s) in
  let s := set_retx (mk_retx true now rto 0 packet) s in
  let r := rtt s in
  let s := if rtt_measuring r then s
           else set_rtt (mk_rtt (srtt r) (rttvar r) (u32 (seq + size)) now true) s in
  set_snd_nxt (u32 (seq + size)) s.

(** The sum [seq + chunk_size] has 64 bits. *)
Definition chunk_acked (seq size : Z) (s : tcp_socket) : bool := snd_una (snd s) >=? seq + size.

Definition send_check (i : nat) (seq size : Z) (st : stack) : stack * option bool :=
  let s := sock i st in
  if chunk_acked seq size s then (put_sock i (set_retransmit_pending false s) st, Some true)
  else if bool_decide (state s = TCP_STATE_ESTABLISHED) then (st, None) else (st, Some false).

Definition sent_or_error (total_sent : Z) : Z := if total_sent >? 0 then s32 total_sent else -1.

(** One round: [Some true] when the chunk was acknowledged. *)
Definition send_chunk (fuel : nat) (i : nat) (chunk : list Z) (st : stack) : option (stack * bool) :=
  let seq := snd_nxt (snd (sock i st)) in
  let size := Z.of_nat (length chunk) in
  let s := queue_chunk (timer_ticks st) chunk (sock i st) in
  let st := count_sent (put_sock i s st) in
  let st := (net_ipv4_send_from 6 (local_ip (ends s)) (remote_ip (ends s)) (pending_packet (retx s)) st).1 in
  if chunk_acked seq size (sock i st) then Some (update_sock i (set_retransmit_pending false) st, true)
  else
    match wait_loop fuel (timer_ticks st) (u64 (timer_frequency_hz * 5)) (send_check i seq size) st with
    | None => None
    | Some (st, Some true) => Some (st, true)
    | Some (st, _) => Some (update_sock i (set_retransmit_pending false) st, false)
    end.

(** [rounds] bounds the number of segments. *)
Fixpoint send_loop (rounds fuel : nat) (i : nat) (data : list Z) (total_sent : Z) (st : stack)
    : option (stack * Z) :=
  match data with
  | [] => Some (st, s32 total_sent)
  | _ =>
      match rounds with
      | O => None
      | S rounds =>
          let s := sock i st in
          if negb (in_use s) || negb (may_transfer s) then Some (st, sent_or_error total_sent)
          else
            let size := next_chunk s (Z.of_nat (length data)) in
            match send_chunk fuel i (take (Z.to_nat size) data) st with
            | None => None
            | Some (st, false) => Some (st, sent_or_error total_sent)
            | Some (st, true) => send_loop rounds fuel i (drop (Z.to_nat size) data) (total_sent + size) st
            end
      end
  end.

Definition valid_id (socket_id : Z) : bool :=
  (0 <=? socket_id) && (socket_id <? Z.of_nat NET_TCP_SOCKET_MAX).

Definition tcp_send (fuel : nat) (socket_id : Z) (data : list Z) (st : stack) : option (stack * Z) :=
  if negb (valid_id socket_id) || bool_decide (data = []) then Some (st, -1)
  else send_loop (length data) fuel (Z.to_nat socket_id) data 0 st.

(** ** Receiving *)

(** Nothing more will arrive. *)
Definition at_end (s : tcp_socket) : bool := negb (may_transfer s) || fin_received s.

Definition receive_check (i : nat) (st : stack) : stack * option unit :=
  let s := sock i st in
  (st, if (rx_count (rx s) >? 0) || at_end s then Some tt else None).

(** The last critical section of [tcp_receive] and the window update. *)
Definition receive_take (i : nat) (capacity : Z) (st : stack) : stack * (Z * list Z) :=
  let s := sock i st in
  if negb (in_use s) then (st, (-1, []))
  else
    let count := rx_count (rx s) in
    let bytes_to_read := if capacity <? count then capacity else count in
    let '(data, r) := ring_pop (Z.to_nat bytes_to_read) (rx s) in
    let s := set_rx (mk_ring (rx_buffer r) (rx_head r) (rx_tail r) (rx_count r - bytes_to_read)) s in
    let st := put_sock i s st in
    (ack_if ((bytes_to_read >? 0) && may_transfer s) s st, (s32 bytes_to_read, data)).

Definition tcp_receive (fuel : nat) (socket_id capacity : Z) (st : stack)
    : option (stack * (Z * list Z)) :=
  if negb (valid_id socket_id) || (capacity =? 0) then Some (st, (-1, []))
  else
    let i := Z.to_nat socket_id in
    let s := sock i st in
    if negb (in_use s) then Some (st, (-1, []))
    else if rx_count (rx s) =? 0 then
      if at_end s then Some (st, (0, []))
      else
        match wait_loop fuel (timer_ticks st) (u64 (timer_frequency_hz * 5)) (receive_check i) st with
        | None => None
        | Some (st, _) => Some (receive_take i capacity st)
        end
    else Some (receive_take i capacity st).

(** ** Closing *)

Definition release (i : nat) (st : stack) : stack :=
  update_sock i (λ s, set_retransmit_pending false (set_in_use false (set_state TCP_STATE_CLOSED s))) st.

(** Send a FIN from the state [next]. *)
Definition send_fin (i : nat) (next : tcp_state) (st : stack) : stack :=
  let s := sock i st in
  let e := ends s in
  let st := put_sock i (set_snd_nxt (u32 (snd_nxt (snd s) + 1)) (set_state next s)) st in
  (tcp_transmit_segment (local_ip e) (local_port e) (remote_ip e) (remote_port e)
    (snd_nxt (snd s)) (rcv_nxt (rcv s)) (Z.lor TCP_FLAG_FIN TCP_FLAG_ACK) (receive_window s) [] [] st).1.

Definition close_check (i : nat) (ends : list tcp_state) (st : stack) : stack * option unit :=
  (st, if bool_decide (state (sock i st) ∈ ends) then Some tt else None).

Definition tcp_close (fuel : nat) (socket_id : Z) (st : stack) : option stack :=
  if negb (valid_id socket_id) then Some st
  else
    let i := Z.to_nat socket_id in
    let s := sock i st in
    if negb (in_use s) then Some st
    else if is_listening s then
      Some (put_sock i (set_in_use false (set_state TCP_STATE_CLOSED (set_is_listening false s))) st)
    else
      match state s with
      | TCP_STATE_CLOSE_WAIT =>
          let st := send_fin i TCP_STATE_LAST_ACK st in
          match wait_loop fuel (timer_ticks st) timer_frequency_hz (close_check i [TCP_STATE_CLOSED]) st with
          | None => None
          | Some (st, _) => Some (release i st)
          end
      | TCP_STATE_ESTABLISHED =>
          let st := send_fin i TCP_STATE_FIN_WAIT_1 st in
          match wait_loop fuel (timer_ticks st) (u64 (timer_frequency_hz * 2))
                  (close_check i [TCP_STATE_CLOSED; TCP_STATE_FIN_WAIT_2]) st with
          | None => None
          | Some (st, _) => Some (release i st)
          end
      | _ => Some (release i st)
      end.

End Stack.

(** ** Listening *)

Definition tcp_listen (port backlog : Z) (st : stack) : stack * Z :=
  if port =? 0 then (st, -1)
  else if port_in_use port st then (st, -1)
  else
    match find_socket (λ s, negb (in_use s)) st with
    | None => (st, -1)
    | Some i =>
        let backlog := if (backlog >? 0) && (backlog <=? Z.of_nat NET_TCP_SOCKET_MAX) then backlog else 4 in
        let s := mk_socket true true TCP_STATE_LISTEN (mk_endpoints 0 port 0 0) 0
          (mk_listener backlog (replicate NET_TCP_SOCKET_MAX (-1)) 0) (mk_snd 0 0 0 0) (mk_rcv 0 0 0) 0
          (mk_cong 0 0) (mk_rtt 0 0 0 0 false) 0 (mk_retx false 0 0 0 []) empty_ring false in
        (put_sock i s st, Z.of_nat i)
    end.

(** A queued connection is handed out once it has data, has seen a FIN or is no
    longer ESTABLISHED. *)
Definition acceptable (candidate : Z) (st : stack) : bool :=
  valid_id candidate &&
  (let c := sock (Z.to_nat candidate) st in
   in_use c && ((rx_count (rx c) >? 0) || fin_received c
                || negb (bool_decide (state c = TCP_STATE_ESTABLISHED)))).

Fixpoint find_accepted (n i : nat) (queue : list Z) (st : stack) : option nat :=
  match n with
  | O => None
  | S n =>
      if acceptable (default 0 (queue !! i)) st then Some i else find_accepted n (S i) queue st
  end.

(** [for (i = found; i < count - 1; ++i) queue[i] = queue[i + 1];] *)
Fixpoint shift_queue (n i : nat) (queue : list Z) : list Z :=
  match n with
  | O => queue
  | S n => shift_queue n (S i) (<[i := default 0 (queue !! S i)]> queue)
  end.

Definition tcp_accept (listen_socket : Z) (st : stack) : stack * (Z * option (Z * Z)) :=
  if negb (valid_id listen_socket) then (st, (-1, None))
  else
    let i := Z.to_nat listen_socket in
    let ls := sock i st in
    let l := listening ls in
    if negb (in_use ls) || negb (is_listening ls) || negb (bool_decide (state ls = TCP_STATE_LISTEN))
       || (accepted_count l =? 0) then (st, (-1, None))
    else
      let count := Z.to_nat (accepted_count l) in
      match find_accepted count 0 (accepted_queue l) st with
      | None => (st, (-1, None))
      | Some found =>
          let child_sock := default 0 (accepted_queue l !! found) in
          let queue := shift_queue (count - 1 - found) found (accepted_queue l) in
          let queue := <[(count - 1)%nat := -1]> queue in
          let ls := set_listening (mk_listener (backlog l) queue (u8 (accepted_count l - 1))) ls in
          let st := put_sock i ls st in
          let c := ends (sock (Z.to_nat child_sock) st) in
          (st, (child_sock, Some (remote_ip c, remote_port c)))
      end.

(** ** Inspection *)

Record net_tcp_socket_info := mk_info {
  info_state : tcp_state; info_ends : endpoints; rx_buffered_bytes : Z; tx_buffered_bytes : Z
}.

Definition socket_info (s : tcp_socket) : net_tcp_socket_info :=
  mk_info (state s) (ends s) (rx_count (rx s))
    (if retransmit_pending (retx s) then Z.of_nat (length (pending_packet (retx s))) else 0).

Definition net_tcp_get_sockets (max_count : nat) (st : stack) : list net_tcp_socket_info :=
  take max_count (socket_info <$> filter (λ s, in_use s = true) (tcp_sockets (st_tcp st))).
