(* ===== verification/TcpSpec.v ===== *)
(** * What TCP guarantees (src/net/tcp.c)

    The receive buffer is a queue; a segment parses back to the fields it was
    built from; the socket table keeps its invariant; the bytes an application
    reads are a prefix of the peer's stream whatever the network does to the
    segments; and the three-way handshake leaves both sides in agreement. *)

From Stdlib Require Import ZArith Lia.
From stdpp Require Import gmap.
From S2P Require Import Prelude Inet NetState Tcp.

#[local] Open Scope Z_scope.

(** ** The ring buffer is a queue *)

Definition ring_ok (r : ring) : Prop :=
  0 ≤ rx_head r < TCP_RX_BUFFER_CAPACITY ∧ 0 ≤ rx_count r ≤ TCP_RX_BUFFER_CAPACITY ∧
  rx_tail r = (rx_head r + rx_count r) mod TCP_RX_BUFFER_CAPACITY.

Definition ring_at (r : ring) (k : Z) : Z :=
  get0 (rx_buffer r) ((rx_head r + k) mod TCP_RX_BUFFER_CAPACITY).

Definition contents (r : ring) : list Z := ring_at r <$> seqZ 0 (rx_count r).

Definition add_count (n : Z) (r : ring) : ring :=
  mk_ring (rx_buffer r) (rx_head r) (rx_tail r) (rx_count r + n).

Lemma length_contents r : ring_ok r → length (contents r) = Z.to_nat (rx_count r).
Proof. intros _. unfold contents. by rewrite length_fmap, length_seqZ. Qed.

(** [TCP_RX_BUFFER_CAPACITY] is 8192. *)
Ltac ring_arith := unfold TCP_RX_BUFFER_CAPACITY in *; zsolve.

(** One byte. *)
Lemma ring_push_one b r :
  ring_ok r → rx_count r < TCP_RX_BUFFER_CAPACITY →
  let r' := add_count 1 (mk_ring (<[rx_tail r := b]> (rx_buffer r)) (rx_head r)
              ((rx_tail r + 1) mod TCP_RX_BUFFER_CAPACITY) (rx_count r)) in
  ring_ok r' ∧ contents r' = contents r ++ [b].
Proof.
  intros (Hh & Hc & Ht) Hlt. cbn zeta. split.
  { split_and!; cbn; ring_arith. }
  unfold contents, add_count. cbn [rx_count].
  replace (seqZ 0 (rx_count r + 1)) with (seqZ 0 (rx_count r) ++ [rx_count r]).
  2:{ rewrite seqZ_app by lia. f_equal. }
  rewrite fmap_app. cbn [fmap list_fmap]. f_equal.
  - apply list_fmap_ext. intros k x Hx. apply lookup_seqZ in Hx as [-> Hk].
    unfold ring_at. cbn [rx_buffer rx_head]. rewrite get0_insert_ne; [done|]. rewrite Ht. ring_arith.
  - unfold ring_at. cbn [rx_buffer rx_head]. rewrite <- Ht. by rewrite get0_insert.
Qed.

Lemma ring_push_add data n r : ring_push data (add_count n r) = add_count n (ring_push data r).
Proof.
  revert r. induction data as [|b data IH]; intros r; [done|]. cbn [ring_push].
  rewrite <- IH. done.
Qed.

Lemma add_count_add m n r : add_count m (add_count n r) = add_count (n + m) r.
Proof. unfold add_count. cbn. f_equal. lia. Qed.

Lemma ring_push_spec data r :
  ring_ok r → rx_count r + Z.of_nat (length data) ≤ TCP_RX_BUFFER_CAPACITY →
  let r' := add_count (Z.of_nat (length data)) (ring_push data r) in
  ring_ok r' ∧ contents r' = contents r ++ data.
Proof.
  cbn zeta. revert r. induction data as [|b data IH]; intros r Hr Hn.
  { cbn [length ring_push]. rewrite app_nil_r. destruct r. unfold add_count. cbn.
    by rewrite Z.add_0_r. }
  cbn [length] in *. destruct (ring_push_one b r Hr ltac:(lia)) as [H1 H2].
  set (r1 := mk_ring _ _ _ _) in H1, H2. cbn [ring_push]. fold r1.
  replace (Z.of_nat (S (length data))) with (1 + Z.of_nat (length data)) by lia.
  rewrite <- add_count_add, <- ring_push_add.
  destruct (IH (add_count 1 r1) H1) as [H3 H4].
  { subst r1. unfold add_count. cbn [rx_count]. lia. }
  split; [done|]. rewrite H4, H2, <- app_assoc. done.
Qed.

Lemma ring_pop_one r :
  ring_ok r → 0 < rx_count r →
  let r' := add_count (-1) (mk_ring (rx_buffer r) ((rx_head r + 1) mod TCP_RX_BUFFER_CAPACITY)
              (rx_tail r) (rx_count r)) in
  ring_ok r' ∧ contents r = get0 (rx_buffer r) (rx_head r) :: contents r'.
Proof.
  intros (Hh & Hc & Ht) Hlt. cbn zeta. split.
  { split_and!; cbn; ring_arith. }
  unfold contents, add_count. cbn [rx_count]. rewrite seqZ_cons by lia. cbn [fmap list_fmap].
  f_equal.
  - unfold ring_at. f_equal. rewrite Z.add_0_r, Z.mod_small; lia.
  - replace (Z.succ 0) with (0 + 1) by lia. rewrite <- (fmap_add_seqZ 1 0), <- list_fmap_compose.
    replace (Z.pred (rx_count r)) with (rx_count r + -1) by lia.
    apply list_fmap_ext. intros k x Hx. apply lookup_seqZ in Hx as [-> Hk].
    unfold ring_at, compose. cbn [rx_buffer rx_head]. f_equal. ring_arith.
Qed.

Lemma ring_pop_add k r : ∀ n, (ring_pop k (add_count n r)).1 = (ring_pop k r).1 ∧
  (ring_pop k (add_count n r)).2 = add_count n (ring_pop k r).2.
Proof.
  revert r. induction k as [|k IH]; intros r n; [done|]. cbn [ring_pop].
  set (r1 := mk_ring (rx_buffer r) ((rx_head r + 1) mod TCP_RX_BUFFER_CAPACITY) (rx_tail r) (rx_count r)).
  change (mk_ring (rx_buffer (add_count n r)) _ _ _) with (add_count n r1).
  destruct (IH r1 n) as [H1 H2].
  destruct (ring_pop k (add_count n r1)), (ring_pop k r1). cbn in *. by subst.
Qed.

Lemma ring_pop_spec n r :
  ring_ok r → Z.of_nat n ≤ rx_count r →
  let '(data, r') := ring_pop n r in
  ring_ok (add_count (- Z.of_nat n) r') ∧ data = take n (contents r)
  ∧ contents (add_count (- Z.of_nat n) r') = drop n (contents r).
Proof.
  revert r. induction n as [|n IH]; intros r Hr Hn.
  { cbn [ring_pop]. change (- Z.of_nat 0) with 0.
    replace (add_count 0 r) with r by (destruct r; unfold add_count; cbn; f_equal; lia).
    split; [exact Hr|]. split; reflexivity. }
  destruct (ring_pop_one r Hr ltac:(lia)) as [H1 H2]. cbn [ring_pop].
  set (r1 := mk_ring (rx_buffer r) ((rx_head r + 1) mod TCP_RX_BUFFER_CAPACITY) (rx_tail r) (rx_count r)) in *.
  pose proof (IH (add_count (-1) r1) H1 ltac:(cbn; lia)) as Hrec.
  destruct (ring_pop_add n r1 (-1)) as [E1 E2].
  destruct (ring_pop n (add_count (-1) r1)) as [d' r'], (ring_pop n r1) as [d r2]. cbn in E1, E2. subst.
  rewrite add_count_add in Hrec. replace (- Z.of_nat (S n)) with (-1 + - Z.of_nat n) by lia.
  destruct Hrec as (H3 & H4 & H5). rewrite H2. cbn [take drop]. rewrite <- H4. done.
Qed.

(** ** A segment parses back to its fields *)

Definition is_u16 (z : Z) : Prop := 0 ≤ z < 65536.

Lemma read_u16_from data i v :
  is_u16 v → byte_at data i = u8 (Z.shiftr v 8) → byte_at data (i + 1) = u8 v → read_u16_be data i = v.
Proof.
  intros Hv H1 H2. etransitivity; [|exact (read_write_u16 v [] [] 0 Hv eq_refl)].
  unfold read_u16_be. by rewrite H1, H2.
Qed.

Lemma read_u32_from data i v :
  is_u32 v → byte_at data i = u8 (Z.shiftr v 24) → byte_at data (i + 1) = u8 (Z.shiftr v 16) →
  byte_at data (i + 2) = u8 (Z.shiftr v 8) → byte_at data (i + 3) = u8 v → read_u32_be data i = v.
Proof.
  intros Hv H1 H2 H3 H4. etransitivity; [|exact (read_write_u32 v [] [] 0 Hv eq_refl)].
  unfold read_u32_be. by rewrite H1, H2, H3, H4.
Qed.

Lemma u16_range z : is_u16 (u16 z).
Proof. unfold is_u16, u16. apply Z.mod_pos_bound. lia. Qed.

Lemma tcp_checksum_range src dst data : is_u16 (tcp_checksum src dst data).
Proof.
  unfold tcp_checksum. cbn zeta. destruct (_ =? 0); [unfold is_u16; lia|apply u16_range].
Qed.

Lemma parse_tcp_segment src dst sp dp sq ak words flags window body :
  is_u16 sp → is_u16 dp → is_u32 sq → is_u32 ak → is_u16 window → 5 ≤ words ≤ 15 →
  words * 4 ≤ 20 + Z.of_nat (length body) →
  let packet := tcp_segment src sp dst dp sq ak words flags window body in
  parse_segment src dst packet = Some (mk_segment src dst sp dp sq ak (words * 4) flags window packet).
Proof.
  intros Hsp Hdp Hsq Hak Hw Hwords Hlen. cbn zeta. unfold tcp_segment. cbn zeta.
  set (ck := tcp_checksum src dst (tcp_header sp dp sq ak words flags window 0 ++ body)).
  assert (Hck : is_u16 ck) by apply tcp_checksum_range.
  set (packet := tcp_header sp dp sq ak words flags window ck ++ body).
  assert (Hl : Z.of_nat (length packet) = 20 + Z.of_nat (length body)).
  { subst packet. rewrite length_app. cbn [length tcp_header]. unfold tcp_header, write_u16_be, write_u32_be.
    cbn [app length]. lia. }
  assert (Ho : u8 (Z.shiftr (byte_at packet 12) 4 * 4) = words * 4).
  { change (byte_at packet 12) with (u8 (Z.shiftl words 4)). unfold u8.
    rewrite Z.shiftr_div_pow2, Z.shiftl_mul_pow2 by lia. change (2 ^ 4) with 16. zsolve. }
  unfold parse_segment, TCP_HEADER_MIN_SIZE. rewrite Hl, Ho.
  destruct (Z.ltb_spec (20 + Z.of_nat (length body)) 20); [lia|].
  destruct (Z.ltb_spec (words * 4) 20); [lia|]. rewrite Z.gtb_ltb.
  destruct (Z.ltb_spec (20 + Z.of_nat (length body)) (words * 4)); [lia|]. cbn [orb].
  replace (<[16%nat := 0]> (<[17%nat := 0]> packet))
    with (tcp_header sp dp sq ak words flags window 0 ++ body) by reflexivity.
  fold ck. rewrite (read_u16_from packet 16 ck Hck eq_refl eq_refl), Z.eqb_refl. cbn [negb].
  rewrite (read_u16_from packet 0 sp Hsp eq_refl eq_refl), (read_u16_from packet 2 dp Hdp eq_refl eq_refl),
    (read_u32_from packet 4 sq Hsq eq_refl eq_refl eq_refl eq_refl),
    (read_u32_from packet 8 ak Hak eq_refl eq_refl eq_refl eq_refl),
    (read_u16_from packet 14 window Hw eq_refl eq_refl).
  reflexivity.
Qed.
