(* ===== verification/TcpInv.v ===== *)
(** * The invariant of the TCP socket table (src/net/tcp.c)

    What holds of every socket between two critical sections, and that every
    operation keeps it, given that the layers below do: a segment that is sent
    may come back through [net_tcp_receive] before the call returns. *)

From Stdlib Require Import ZArith Lia.
From stdpp Require Import gmap.
From S2P Require Import Prelude Inet NetState Tcp TcpSpec.

#[local] Open Scope Z_scope.

(** The largest segment that is ever built: a full MSS without options. *)
Definition TCP_SEGMENT_MAX : Z := 1480.

Record sock_ok (s : tcp_socket) : Prop := mk_sock_ok {
  ok_ring : ring_ok (rx s);
  ok_una : is_u32 (snd_una (snd s));
  ok_nxt : is_u32 (snd_nxt (snd s));
  ok_rcv : is_u32 (rcv_nxt (rcv s));
  ok_wnd : is_u16 (snd_wnd (snd s));
  ok_cwnd : is_u32 (cwnd (cong s));
  ok_mss : 0 ≤ mss s ≤ NET_TCP_DEFAULT_MSS;
  ok_mss_pos : in_use s = true → is_listening s = false → 0 < mss s;
  ok_pending : Z.of_nat (length (pending_packet (retx s))) ≤ TCP_SEGMENT_MAX ∧
    Forall is_u8 (pending_packet (retx s));
  ok_retry : 0 ≤ retry_count (retx s) ≤ TCP_MAX_RETRIES;
  ok_queue_len : length (accepted_queue (listening s)) = NET_TCP_SOCKET_MAX;
  ok_count : 0 ≤ accepted_count (listening s) ≤ backlog (listening s);
  ok_backlog : backlog (listening s) ≤ Z.of_nat NET_TCP_SOCKET_MAX;
  ok_queue : ∀ k c, Z.of_nat k < accepted_count (listening s) →
    accepted_queue (listening s) !! k = Some c → valid_id c = true;
  ok_listen : in_use s = true → is_listening s = true →
    state s = TCP_STATE_LISTEN ∧ retransmit_pending (retx s) = false
}.

Definition tcp_inv (st : stack) : Prop :=
  length (tcp_sockets (st_tcp st)) = NET_TCP_SOCKET_MAX ∧ Forall sock_ok (tcp_sockets (st_tcp st))
  ∧ is_u16 (next_tcp_port (st_tcp st)).

(** Fields of updated sockets; what is left are the facts on the changed ones. *)
Ltac sock_fields := cbn [in_use is_listening state ends parent_socket listening snd rcv mss cong rtt
  time_wait_start retx rx fin_received snd_una snd_nxt snd_isn snd_wnd rcv_nxt rcv_isn rcv_wnd cwnd ssthresh
  retransmit_pending last_sent_tick rto_ticks retry_count pending_packet backlog accepted_queue accepted_count
  set_in_use set_is_listening set_state set_listening set_snd set_rcv set_mss set_cong set_rtt
  set_time_wait_start set_retx set_rx set_fin_received set_snd_una set_snd_nxt set_snd_wnd set_rcv_nxt
  set_retransmit_pending] in *.
Ltac sock_step := intros [????? ????? ?????]; constructor; sock_fields; try assumption; try done; auto.

Lemma empty_ring_ok : ring_ok empty_ring.
Proof. unfold ring_ok, TCP_RX_BUFFER_CAPACITY. cbn. repeat split; lia. Qed.

Lemma zero_ok : sock_ok tcp_socket_zero.
Proof.
  constructor; cbn; unfold is_u32, is_u16, NET_TCP_DEFAULT_MSS, TCP_SEGMENT_MAX, TCP_MAX_RETRIES;
    try done; try lia.
Qed.


#[export] Hint Resolve empty_ring_ok zero_ok u16_range : kos.

Lemma ok_in_use_false s : sock_ok s → sock_ok (set_in_use false s).
Proof. sock_step. Qed.

Lemma ok_closed s : sock_ok s → sock_ok (set_in_use false (set_state TCP_STATE_CLOSED s)).
Proof. sock_step. Qed.

Lemma ok_state x s : is_listening s = false → sock_ok s → sock_ok (set_state x s).
Proof. intros Hl. sock_step. congruence. Qed.

Lemma ok_una_set v s : is_u32 v → sock_ok s → sock_ok (set_snd_una v s).
Proof. intros Hv. sock_step. Qed.

Lemma ok_nxt_set v s : is_u32 v → sock_ok s → sock_ok (set_snd_nxt v s).
Proof. intros Hv. sock_step. Qed.

Lemma ok_wnd_set v s : is_u16 v → sock_ok s → sock_ok (set_snd_wnd v s).
Proof. intros Hv. sock_step. Qed.

Lemma ok_rcv_set v s : is_u32 v → sock_ok s → sock_ok (set_rcv_nxt v s).
Proof. intros Hv. sock_step. Qed.

Lemma ok_rcv_group r s : is_u32 (rcv_nxt r) → sock_ok s → sock_ok (set_rcv r s).
Proof. intros Hv. sock_step. Qed.

Lemma ok_rx_set r s : ring_ok r → sock_ok s → sock_ok (set_rx r s).
Proof. intros Hv. sock_step. Qed.

Lemma ok_rtt_set r s : sock_ok s → sock_ok (set_rtt r s).
Proof. sock_step. Qed.

Lemma ok_cong_set c s : is_u32 (cwnd c) → sock_ok s → sock_ok (set_cong c s).
Proof. intros Hc. sock_step. Qed.

Lemma ok_time_wait_set t s : sock_ok s → sock_ok (set_time_wait_start t s).
Proof. sock_step. Qed.

Lemma ok_fin_set b s : sock_ok s → sock_ok (set_fin_received b s).
Proof. sock_step. Qed.

Lemma ok_pending_flag s : sock_ok s → sock_ok (set_retransmit_pending false s).
Proof. sock_step. intros. split; [|done]. by apply ok_listen0. Qed.

Lemma ok_retx_set x s :
  Z.of_nat (length (pending_packet x)) ≤ TCP_SEGMENT_MAX → Forall is_u8 (pending_packet x) →
  0 ≤ retry_count x ≤ TCP_MAX_RETRIES →
  is_listening s = false ∨ retransmit_pending x = retransmit_pending (retx s) →
  sock_ok s → sock_ok (set_retx x s).
Proof.
  intros H1 Hb H2 H3. sock_step. intros Hu Hl. destruct (ok_listen0 Hu Hl) as [? <-].
  destruct H3; [congruence|done].
Qed.

Lemma ok_mss_set m s : 0 < m ≤ mss s ∨ m = mss s → sock_ok s → sock_ok (set_mss m s).
Proof. intros Hm. sock_step; [lia|]. intros. destruct Hm as [?| ->]; [lia|auto]. Qed.

#[export] Hint Resolve ok_in_use_false ok_state ok_una_set ok_nxt_set ok_wnd_set ok_rcv_set ok_rcv_group
  ok_rx_set ok_rtt_set ok_cong_set ok_time_wait_set ok_fin_set ok_pending_flag ok_retx_set : kos.

(** ** The table *)

Lemma sock_inv i st : tcp_inv st → sock_ok (sock i st).
Proof.
  intros (_ & Hf & _). unfold sock. destruct (tcp_sockets (st_tcp st) !! i) as [s|] eqn:E; [|apply zero_ok].
  by eapply Forall_lookup_1.
Qed.

Lemma put_inv i s st : tcp_inv st → sock_ok s → tcp_inv (put_sock i s st).
Proof.
  intros (Hl & Hf & Hp) Hs. split_and!; cbn; [by rewrite length_insert|by apply Forall_insert|done].
Qed.

Lemma update_inv i f st : tcp_inv st → (∀ s, sock_ok s → sock_ok (f s)) → tcp_inv (update_sock i f st).
Proof. intros Hi Hf. apply put_inv; [done|]. apply Hf, sock_inv, Hi. Qed.

Lemma count_sent_inv st : tcp_inv st → tcp_inv (count_sent st).
Proof. done. Qed.

Lemma count_received_inv st : tcp_inv st → tcp_inv (count_received st).
Proof. done. Qed.

Lemma count_retransmission_inv st : tcp_inv st → tcp_inv (count_retransmission st).
Proof. done. Qed.

Lemma next_port_inv p st : is_u16 p → tcp_inv st → tcp_inv (set_next_port p st).
Proof. intros Hp (? & ? & _). done. Qed.

#[export] Hint Resolve sock_inv put_inv update_inv count_sent_inv count_received_inv
  count_retransmission_inv next_port_inv : kos.

(** ** Operations that send nothing *)

Lemma find_index_lookup p i l k :
  find_index p i l = Some k → ∃ s, l !! (k - i)%nat = Some s ∧ (i ≤ k)%nat ∧ p s = true.
Proof.
  revert i. induction l as [|s l IH]; intros i; [done|]. cbn [find_index].
  destruct (p s) eqn:Hp.
  - intros [= ->]. exists s. by rewrite Nat.sub_diag.
  - intros (s' & Hl & Hle & Hs)%IH. exists s'.
    replace (k - i)%nat with (S (k - S i)) by lia. split_and!; [done|lia|done].
Qed.

Lemma find_socket_lookup p st k :
  find_socket p st = Some k → tcp_sockets (st_tcp st) !! k = Some (sock k st) ∧ p (sock k st) = true.
Proof.
  intros (s & Hl & _ & Hp)%find_index_lookup. rewrite Nat.sub_0_r in Hl. unfold sock. by rewrite Hl.
Qed.

Lemma allocate_port_inv n st : tcp_inv st → tcp_inv (allocate_port_loop n st).1.
Proof.
  revert st. induction n as [|n IH]; intros st Hi; [done|]. cbn [allocate_port_loop].
  set (st1 := set_next_port _ st).
  assert (H1 : tcp_inv st1).
  { apply next_port_inv; [|done]. destruct (_ >? _); [unfold is_u16, TCP_EPHEMERAL_PORT_START; lia|].
    apply u16_range. }
  destruct (port_in_use _ st1); [by apply IH|done].
Qed.

Lemma allocate_port_range n st : tcp_inv st → is_u16 (allocate_port_loop n st).2.
Proof.
  revert st. induction n as [|n IH]; intros st Hi; [unfold is_u16; cbn; lia|].
  pose proof (allocate_port_inv 1 st Hi) as H1. cbn [allocate_port_loop] in *.
  destruct (port_in_use _ _); [by apply IH|]. by destruct Hi as (_ & _ & ?).
Qed.

Lemma listen_inv port backlog st : tcp_inv st → tcp_inv (tcp_listen port backlog st).1.
Proof.
  intros Hi. unfold tcp_listen. destruct (port =? 0); [done|]. destruct (port_in_use port st); [done|].
  destruct (find_socket _ st) as [i|]; [|done]. apply put_inv; [done|].
  set (b := if (backlog >? 0) && (backlog <=? Z.of_nat NET_TCP_SOCKET_MAX) then backlog else 4).
  assert (Hb : 0 < b ≤ 8).
  { subst b. change (Z.of_nat NET_TCP_SOCKET_MAX) with 8. rewrite Z.gtb_ltb.
    destruct (Z.ltb_spec 0 backlog), (Z.leb_spec backlog 8); cbn; lia. }
  constructor; cbn; unfold is_u32, is_u16, NET_TCP_DEFAULT_MSS, TCP_SEGMENT_MAX, TCP_MAX_RETRIES;
    change (Z.of_nat NET_TCP_SOCKET_MAX) with 8; try done; lia.
Qed.

(** Enqueueing a child keeps the queue of a listener in range. *)
Lemma enqueue_ok child s :
  (child < NET_TCP_SOCKET_MAX)%nat → accepted_count (listening s) < backlog (listening s) →
  sock_ok s → sock_ok (enqueue_accepted child s).
Proof.
  intros Hc Hlt [?????????? Hlen Hcnt Hbl Hq ?]. unfold enqueue_accepted.
  change (Z.of_nat NET_TCP_SOCKET_MAX) with 8 in *.
  assert (E : u8 (accepted_count (listening s) + 1) = accepted_count (listening s) + 1).
  { unfold u8. apply Z.mod_small. lia. }
  rewrite E. constructor; sock_fields; try done; [by rewrite length_insert|lia|].
  intros k c Hk. destruct (decide (k = Z.to_nat (accepted_count (listening s)))) as [->|Hne].
  - rewrite list_lookup_insert_eq by (rewrite Hlen; unfold NET_TCP_SOCKET_MAX; lia). intros [= <-].
    unfold valid_id, NET_TCP_SOCKET_MAX in *. apply andb_true_intro.
    split; [apply Z.leb_le|apply Z.ltb_lt]; lia.
  - rewrite list_lookup_insert_ne by done. apply Hq. lia.
Qed.

Lemma length_shift n i q : length (shift_queue n i q) = length q.
Proof.
  revert i q. induction n as [|n IH]; intros i q; [done|]. cbn [shift_queue].
  by rewrite IH, length_insert.
Qed.

(** After the shift from [i] over [n] places, place [k] holds what [k + 1] held. *)
Lemma lookup_shift n i q k :
  (i + n < length q)%nat →
  shift_queue n i q !! k = if decide (i ≤ k < i + n)%nat then q !! S k else q !! k.
Proof.
  revert i q. induction n as [|n IH]; intros i q Hl; cbn [shift_queue].
  { rewrite decide_False by lia. done. }
  rewrite IH by (rewrite length_insert; lia). repeat case_decide; try lia.
  - rewrite list_lookup_insert_ne by lia. done.
  - assert (k = i) as -> by lia.
    rewrite list_lookup_insert_eq by lia. destruct (lookup_lt_is_Some_2 q (S i)) as [x ->]; [lia|done].
  - rewrite list_lookup_insert_ne by lia. done.
Qed.

Lemma find_accepted_bound n i q st k : find_accepted n i q st = Some k → (i ≤ k < i + n)%nat.
Proof.
  revert i. induction n as [|n IH]; intros i; [done|]. cbn [find_accepted].
  destruct (acceptable _ st); [intros [= ->]; lia|intros ?%IH; lia].
Qed.

Lemma accept_inv id st : tcp_inv st → tcp_inv (tcp_accept id st).1.
Proof.
  intros Hi. unfold tcp_accept. destruct (negb (valid_id id)); [done|].
  pose proof (sock_inv (Z.to_nat id) st Hi) as Hs. set (ls := sock (Z.to_nat id) st) in *.
  destruct (_ || _ || _ || _) eqn:E; [done|].
  destruct (find_accepted _ 0 _ st) as [found|] eqn:Hf; [|done]. cbn [fst].
  apply find_accepted_bound in Hf.
  apply put_inv; [done|]. destruct Hs as [?????????? Hlen Hcnt Hbl Hq ?].
  change (Z.of_nat NET_TCP_SOCKET_MAX) with 8 in *.
  set (count := accepted_count (listening ls)) in *.
  assert (Hu : u8 (count - 1) = count - 1) by (unfold u8; apply Z.mod_small; lia).
  rewrite Hu. constructor; sock_fields; try done; [by rewrite length_insert, length_shift|lia|].
  intros k c Hk. rewrite list_lookup_insert_ne by lia.
  rewrite lookup_shift by (rewrite Hlen; unfold NET_TCP_SOCKET_MAX; lia).
  destruct (decide (found <= k < found + (Z.to_nat count - 1 - found))%nat); apply Hq; lia.
Qed.

(** ** Operations that use the layers below *)

Section Operations.
  Context (net_ipv4_send_from : Z → Z → Z → list Z → stack → stack * bool).
  Context (net_poll cpu_wait_for_interrupt : stack → stack).
  Context (timer_frequency_hz : Z).

  (** The layers below keep the invariant of this one when they are given a
      segment of bytes that fits into one IP packet. *)
  Context (Hsend : ∀ p src dst packet st, Z.of_nat (length packet) ≤ TCP_SEGMENT_MAX →
    Forall is_u8 packet → tcp_inv st →
    tcp_inv (net_ipv4_send_from p src dst packet st).1).
  Context (Hpoll : ∀ st, tcp_inv st → tcp_inv (net_poll st)).
  Context (Hwait : ∀ st, tcp_inv st → tcp_inv (cpu_wait_for_interrupt st)).

Lemma length_segment src sp dst dp sq ak words flags window body :
  length (tcp_segment src sp dst dp sq ak words flags window body) = (20 + length body)%nat.
Proof. unfold tcp_segment, tcp_header. cbn zeta. rewrite !length_app. cbn [length write_u16_be write_u32_be]. lia. Qed.

Lemma segment_bytes src sp dst dp sq ak words flags window body :
  is_u8 flags → Forall is_u8 body →
  Forall is_u8 (tcp_segment src sp dst dp sq ak words flags window body).
Proof. intros Hf Hb. unfold tcp_segment, tcp_header, write_u16_be, write_u32_be. cbn zeta. bytes. Qed.

Lemma transmit_inv src sp dst dp sq ak flags window options payload st :
  Z.of_nat (length options + length payload) ≤ 1460 → is_u8 flags →
  Forall is_u8 options → Forall is_u8 payload → tcp_inv st →
  tcp_inv (tcp_transmit_segment net_ipv4_send_from src sp dst dp sq ak flags window options payload st).1.
Proof.
  intros Hl Hf Ho Hp Hi. unfold tcp_transmit_segment. cbn zeta. destruct (_ >? _); [done|].
  apply Hsend; [|by apply segment_bytes; [|apply Forall_app]|by apply count_sent_inv]. rewrite length_segment, length_app.
  unfold TCP_SEGMENT_MAX. lia.
Qed.

Lemma ack_inv s st : tcp_inv st → tcp_inv (tcp_send_ack net_ipv4_send_from s st).
Proof. intros Hi. by apply transmit_inv; [| |apply Forall_nil|apply Forall_nil|]. Qed.

Lemma ack_if_inv b s st : tcp_inv st → tcp_inv (ack_if net_ipv4_send_from b s st).
Proof. intros Hi. destruct b; [by apply ack_inv|done]. Qed.

(** *** Received segments *)

(** The fields of a parsed segment of bytes are in range. *)
Record seg_ok (g : segment) : Prop := mk_seg_ok {
  seg_seq_u32 : is_u32 (seg_seq g);
  seg_ack_u32 : is_u32 (seg_ack g);
  seg_window_u16 : is_u16 (seg_window g);
  seg_offset_size : 20 ≤ seg_data_offset g ≤ Z.of_nat (length (seg_packet g))
}.

Lemma read_u16_range data i : Forall is_u8 data → is_u16 (read_u16_be data i).
Proof.
  intros Hd. unfold read_u16_be. rewrite shiftl8_lor by (by apply byte_at_u8).
  pose proof (byte_at_u8 data i Hd). pose proof (byte_at_u8 data (i + 1) Hd).
  unfold is_u8, is_u16 in *. lia.
Qed.

Lemma read_u32_halves data i :
  read_u32_be data i = Z.lor (Z.shiftl (read_u16_be data i) 16) (read_u16_be data (i + 2)).
Proof.
  unfold read_u32_be, read_u16_be. rewrite Z.shiftl_lor, Z.shiftl_shiftl by lia.
  replace (i + 2 + 1) with (i + 3) by lia. change (8 + 16) with 24. by rewrite !Z.lor_assoc.
Qed.

Lemma read_u32_range data i : Forall is_u8 data → is_u32 (read_u32_be data i).
Proof.
  intros Hd. rewrite read_u32_halves.
  pose proof (read_u16_range data i Hd) as H1. pose proof (read_u16_range data (i + 2) Hd) as H2.
  unfold is_u16, is_u32 in *. rewrite Z.shiftl_mul_pow2, lor_mul_pow2 by (done || lia).
  change (2 ^ 16) with 65536. lia.
Qed.

Lemma parse_ok source destination packet g :
  Forall is_u8 packet → parse_segment source destination packet = Some g → seg_ok g.
Proof.
  intros Hb. unfold parse_segment. cbn zeta. unfold TCP_HEADER_MIN_SIZE.
  destruct (Z.ltb_spec (Z.of_nat (length packet)) 20); [done|].
  set (o := u8 _). rewrite Z.gtb_ltb.
  destruct (Z.ltb_spec o 20), (Z.ltb_spec (Z.of_nat (length packet)) o); try done. cbn [orb].
  destruct (negb _); [done|]. intros [= <-].
  constructor; cbn; [by apply read_u32_range|by apply read_u32_range|by apply read_u16_range|lia].
Qed.

Lemma parse_mss_range fuel packet d o m :
  0 < parse_mss fuel packet d o m ≤ m ∨ parse_mss fuel packet d o m = m.
Proof.
  revert o m. induction fuel as [|fuel IH]; intros o m; [by right|]. cbn [parse_mss].
  destruct (negb _); [by right|]. cbn zeta. destruct (_ =? TCP_OPT_END); [by right|].
  destruct (_ =? TCP_OPT_NOP); [apply IH|]. destruct (_ >=? _); [by right|].
  destruct (_ || _); [by right|]. destruct (_ && _); [|apply IH].
  rewrite Z.gtb_ltb. set (p := read_u16_be packet (o + 2)).
  destruct (Z.ltb_spec 0 p), (Z.ltb_spec p m); cbn [andb]; try apply IH.
  destruct (IH (o + byte_at packet (o + 1)) p) as [?| ->]; left; lia.
Qed.

Lemma peer_mss_range packet d m : 0 < peer_mss packet d m ≤ m ∨ peer_mss packet d m = m.
Proof. unfold peer_mss. destruct (_ >? _); [apply parse_mss_range|by right]. Qed.

Lemma child_ok now ls slot g : seg_ok g → sock_ok (child_socket now ls slot g).
Proof.
  intros Hg. unfold child_socket. cbn zeta.
  constructor; sock_fields; try (cbn; lia); auto with kos; try done; try apply Hg.
  all: destruct (peer_mss_range (seg_packet g) (seg_data_offset g) NET_TCP_DEFAULT_MSS) as [?| ->];
    unfold NET_TCP_DEFAULT_MSS in *; lia.
Qed.

Lemma on_listener_inv ls g st : seg_ok g → tcp_inv st → tcp_inv (on_listener net_ipv4_send_from ls g st).
Proof.
  intros Hg Hi. unfold on_listener. destruct (_ && _); [|done].
  destruct (find_socket _ st) as [c|]; [|done]. cbn zeta. destruct (_ <? _); [|done].
  apply transmit_inv; [by vm_compute|by vm_compute|bytes|bytes|].
  apply count_sent_inv, put_inv; [done|by apply child_ok].
Qed.

Lemma on_syn_sent_inv i g st :
  seg_ok g → is_listening (sock i st) = false → tcp_inv st →
  tcp_inv (on_syn_sent net_ipv4_send_from i g st).
Proof.
  intros Hg Hl Hi. unfold on_syn_sent. cbn zeta. destruct (_ =? _); [|done]. destruct (_ =? _); [|done].
  apply ack_inv, put_inv; [done|]. apply ok_state; [done|]. apply ok_mss_set; [apply peer_mss_range|].
  apply ok_pending_flag, ok_wnd_set; [apply Hg|]. apply ok_una_set; [apply Hg|].
  apply ok_rcv_group; [apply u32_range|by apply sock_inv].
Qed.

Lemma on_syn_received_inv i g st :
  seg_ok g → (i < NET_TCP_SOCKET_MAX)%nat → is_listening (sock i st) = false → tcp_inv st →
  tcp_inv (on_syn_received i g st).
Proof.
  intros Hg Hlt Hl Hi. unfold on_syn_received. cbn zeta. destruct (_ && _); [|done].
  set (st1 := put_sock i _ st).
  assert (H1 : tcp_inv st1).
  { apply put_inv; [done|]. apply ok_state; [done|]. apply ok_una_set; [apply Hg|by apply sock_inv]. }
  destruct (_ && _); [|done]. destruct (_ && _ && _) eqn:E; [|done].
  apply put_inv; [done|]. apply enqueue_ok; [done| |by apply sock_inv].
  apply andb_prop in E as [_ E]. by apply Z.ltb_lt.
Qed.

Lemma rtt_sample_ok hz m s : sock_ok s → sock_ok (rtt_sample hz m s).
Proof.
  intros Hs. unfold rtt_sample. cbn zeta. destruct (if srtt (rtt s) =? 0 then _ else _) as [a b].
  cbn zeta. apply ok_retx_set; [apply Hs|apply Hs|apply Hs|by right|by apply ok_rtt_set].
Qed.

Lemma grow_cwnd_ok s : sock_ok s → sock_ok (grow_cwnd s).
Proof. intros Hs. apply ok_cong_set; [apply u32_range|done]. Qed.

Lemma take_ack_ok now g s : seg_ok g → sock_ok s → sock_ok (take_ack timer_frequency_hz now g s).
Proof.
  intros Hg Hs. unfold take_ack. destruct (has _ _); [|done]. cbn zeta.
  apply ok_wnd_set; [apply Hg|]. destruct (_ && _); [|done].
  apply ok_pending_flag, ok_una_set, grow_cwnd_ok; [apply Hg|].
  destruct (_ && _); [by apply rtt_sample_ok|done].
Qed.

Lemma take_payload_ok g s : sock_ok s → sock_ok (take_payload g s).1.
Proof.
  intros Hs. unfold take_payload. cbn zeta. set (p := drop _ _).
  destruct (_ >? _); [|done]. destruct (_ =? _); [|done].
  set (n := if _ <? _ then _ else _).
  apply ok_rcv_set; [apply u32_range|]. apply ok_rx_set; [|done].
  assert (Hn : 0 ≤ n ≤ Z.of_nat (length p) ∧ n ≤ TCP_RX_BUFFER_CAPACITY - rx_count (rx s)).
  { subst n. destruct (ok_ring s Hs) as (_ & Hc & _). destruct (Z.ltb_spec (Z.of_nat (length p))
      (TCP_RX_BUFFER_CAPACITY - rx_count (rx s))); lia. }
  pose proof (ring_push_spec (take (Z.to_nat n) p) (rx s) (ok_ring s Hs)) as Hr.
  rewrite length_take_le in Hr by lia. rewrite Z2Nat.id in Hr by lia. destruct Hr as [Hr _]; [lia|exact Hr].
Qed.

Lemma take_fin_ok g sn :
  is_listening sn.1 = false → sock_ok sn.1 → sock_ok (take_fin g sn).1.
Proof.
  destruct sn as [s b]. cbn [fst]. intros Hl Hs. unfold take_fin. destruct (has _ _); [|done].
  cbn [fst]. apply ok_state; [done|]. apply ok_fin_set, ok_rcv_set; [apply u32_range|done].
Qed.

(** The steps of an established connection do not make it a listener. *)
Lemma take_ack_listening hz now g s : is_listening (take_ack hz now g s) = is_listening s.
Proof. unfold take_ack, rtt_sample, grow_cwnd. repeat case_match; done. Qed.

Lemma take_payload_listening g s : is_listening (take_payload g s).1 = is_listening s.
Proof. unfold take_payload. repeat case_match; done. Qed.

Lemma on_established_inv i g st :
  seg_ok g → is_listening (sock i st) = false → tcp_inv st →
  tcp_inv (on_established net_ipv4_send_from timer_frequency_hz i g st).
Proof.
  intros Hg Hl Hi. unfold on_established.
  pose proof (take_fin_ok g (take_payload g (take_ack timer_frequency_hz (timer_ticks st) g (sock i st)))) as Hok.
  rewrite take_payload_listening, take_ack_listening in Hok.
  specialize (Hok Hl (take_payload_ok g _ (take_ack_ok _ g _ Hg (sock_inv i st Hi)))).
  destruct (take_fin _ _) as [s b]. by apply ack_if_inv, put_inv.
Qed.

Lemma on_close_wait_inv i g st : seg_ok g → tcp_inv st → tcp_inv (on_close_wait i g st).
Proof.
  intros Hg Hi. unfold on_close_wait. destruct (has _ _); [|done]. cbn zeta. apply put_inv; [done|].
  apply ok_wnd_set; [apply Hg|]. destruct (_ && _); [|by apply sock_inv].
  apply ok_pending_flag, ok_una_set; [apply Hg|by apply sock_inv].
Qed.

Lemma on_last_ack_inv i g st :
  is_listening (sock i st) = false → tcp_inv st → tcp_inv (on_last_ack i g st).
Proof.
  intros Hl Hi. unfold on_last_ack. cbn zeta. destruct (_ && _); [|done].
  apply put_inv; [done|]. apply ok_in_use_false, ok_state; [done|by apply sock_inv].
Qed.

Lemma on_fin_wait_1_inv i g st :
  is_listening (sock i st) = false → tcp_inv st → tcp_inv (on_fin_wait_1 net_ipv4_send_from i g st).
Proof.
  intros Hl Hi. unfold on_fin_wait_1. cbn zeta. set (s := if _ && _ then _ else _).
  assert (Hs : sock_ok s ∧ is_listening s = false).
  { subst s. destruct (_ && _); split; try done; [apply ok_state; [done|]|]; by apply sock_inv. }
  destruct Hs as [Hs Hsl]. clearbody s. destruct (has _ _); [|by apply ack_if_inv, put_inv].
  apply ack_if_inv, put_inv; [done|]. apply ok_state; [done|]. apply ok_rcv_set; [apply u32_range|done].
Qed.

Lemma on_fin_wait_2_inv i g st :
  is_listening (sock i st) = false → tcp_inv st → tcp_inv (on_fin_wait_2 net_ipv4_send_from i g st).
Proof.
  intros Hl Hi. unfold on_fin_wait_2. cbn zeta.
  destruct (has _ _); apply ack_if_inv, put_inv; try done; [|by apply sock_inv].
  apply ok_time_wait_set, ok_state; [done|]. apply ok_rcv_set; [apply u32_range|by apply sock_inv].
Qed.

Lemma receive_inv source destination packet st :
  Forall is_u8 packet → tcp_inv st →
  tcp_inv (net_tcp_receive net_ipv4_send_from timer_frequency_hz source destination packet st).
Proof.
  intros Hb Hi. unfold net_tcp_receive.
  destruct (parse_segment source destination packet) as [g|] eqn:Hp; [|done].
  apply parse_ok in Hp as Hg; [|done]. apply count_received_inv in Hi.
  set (st1 := count_received st) in *. destruct (find_socket _ st1) as [i|] eqn:Hf.
  - apply find_socket_lookup in Hf as [Hl Hm]. unfold connection_matches in Hm.
    assert (Hn : is_listening (sock i st1) = false) by (destruct (is_listening _); [by destruct (in_use _)|done]).
    assert (Hlt : (i < NET_TCP_SOCKET_MAX)%nat).
    { destruct Hi as [<- _]. by apply lookup_lt_Some in Hl. }
    unfold on_connection. destruct (has _ _).
    + apply put_inv; [done|]. apply ok_pending_flag, ok_state; [done|by apply sock_inv].
    + destruct (state _); try done; auto using on_syn_sent_inv, on_syn_received_inv, on_established_inv,
        on_close_wait_inv, on_last_ack_inv, on_fin_wait_1_inv, on_fin_wait_2_inv.
  - destruct (find_socket (listener_matches _) st1) as [ls|]; [by apply on_listener_inv|].
    destruct (negb _); [by apply transmit_inv; [| |apply Forall_nil|apply Forall_nil|]|done].
Qed.

(** *** Timers and blocking calls *)

Lemma back_off_ok now s : retry_count (retx s) < TCP_MAX_RETRIES → sock_ok s → sock_ok (back_off now s).
Proof.
  intros Hr Hs. unfold back_off. cbn zeta. apply ok_cong_set.
  { pose proof (ok_mss s Hs). sock_fields. unfold is_u32, NET_TCP_DEFAULT_MSS in *. lia. }
  apply ok_rtt_set, ok_retx_set; [apply Hs|apply Hs| |by right|done]. pose proof (ok_retry s Hs). cbn. lia.
Qed.

Lemma not_listening s : sock_ok s → in_use s = true → state s ≠ TCP_STATE_LISTEN → is_listening s = false.
Proof.
  intros Hs Hu Hn. destruct (is_listening s) eqn:E; [|done]. by apply (ok_listen s Hs Hu) in E as [? _].
Qed.

Lemma poll_socket_inv i st : tcp_inv st → tcp_inv (poll_socket net_ipv4_send_from i st).
Proof.
  intros Hi. pose proof (sock_inv i st Hi) as Hs. unfold poll_socket. cbn zeta.
  destruct (in_use (sock i st)) eqn:Hu; cbn [andb]; [|done].
  destruct (bool_decide_reflect (state (sock i st) = TCP_STATE_TIME_WAIT)) as [Ht|].
  - destruct (_ >=? _); [|done]. apply put_inv; [done|]. apply ok_in_use_false, ok_state; [|done].
    apply not_listening; [done|done|congruence].
  - destruct (retransmit_pending _) eqn:Hr; [|done].
    assert (Hl : is_listening (sock i st) = false).
    { destruct (is_listening _) eqn:E; [|done]. apply (ok_listen _ Hs Hu) in E as [_ ?]. congruence. }
    destruct (_ >=? _); [|done]. destruct (Z.ltb_spec (retry_count (retx (sock i st))) TCP_MAX_RETRIES).
    + apply Hsend; [apply Hs|apply Hs|]. apply put_inv; [by apply count_sent_inv|by apply back_off_ok].
    + apply put_inv; [done|]. apply ok_pending_flag, ok_state; done.
Qed.

Lemma tcp_poll_inv st : tcp_inv st → tcp_inv (net_tcp_poll net_ipv4_send_from st).
Proof.
  unfold net_tcp_poll. generalize (seq 0 NET_TCP_SOCKET_MAX). intros l. revert st.
  induction l as [|i l IH]; intros st Hi; [done|]. cbn [fold_left]. by apply IH, poll_socket_inv.
Qed.

Lemma wait_loop_inv {A} fuel start timeout (check : stack → stack * option A) st st' r :
  (∀ st, tcp_inv st → tcp_inv (check st).1) → tcp_inv st →
  wait_loop net_poll cpu_wait_for_interrupt fuel start timeout check st = Some (st', r) → tcp_inv st'.
Proof.
  intros Hc. revert st. induction fuel as [|fuel IH]; intros st Hi; [done|]. cbn [wait_loop].
  destruct (_ <? _); [|by intros [= <- <-]].
  specialize (Hc (net_poll st) (Hpoll st Hi)). destruct (check (net_poll st)) as [st1 [a|]]; cbn [fst] in Hc.
  - by intros [= <- <-].
  - apply IH. by apply Hwait.
Qed.

Lemma connecting_ok now lip lp address port : sock_ok (connecting_socket now lip lp address port).
Proof.
  unfold connecting_socket. cbn zeta.
  constructor; sock_fields; auto with kos; try done.
  - apply lxor_u32; [apply u32_range|unfold is_u32; lia].
  - rewrite length_segment. split; [by vm_compute|]. apply segment_bytes; [by vm_compute|bytes].
  - intros k c Hk. change (accepted_count zero_listener) with 0 in Hk. lia.
Qed.

Lemma connect_check_inv i st : tcp_inv st → tcp_inv (connect_check i st).1.
Proof.
  intros Hi. unfold connect_check. destruct (state _); cbn [fst]; try done.
  apply update_inv; [done|]. apply ok_in_use_false.
Qed.

Lemma connect_start_inv address port st :
  tcp_inv st → tcp_inv (connect_start net_ipv4_send_from address port st).1.
Proof.
  intros Hi. unfold connect_start. cbn zeta. destruct (_ || _ || _); [done|].
  destruct (find_socket _ st) as [i|]; [|done]. unfold allocate_tcp_port_locked.
  pose proof (allocate_port_inv (Z.to_nat 16384) st Hi) as H1.
  destruct (allocate_port_loop _ st) as [st1 lp]. cbn [fst] in H1. destruct (lp =? 0); [done|]. cbn [fst].
  pose proof (connecting_ok (timer_ticks st1) (ipv4_address (interface (n_ip (st_net st)))) lp address port) as Hok.
  apply Hsend; [apply Hok|apply Hok|]. by apply count_sent_inv, put_inv.
Qed.

Lemma connect_inv fuel address port st st' r :
  tcp_inv st →
  tcp_connect net_ipv4_send_from net_poll cpu_wait_for_interrupt timer_frequency_hz fuel address port st
    = Some (st', r) → tcp_inv st'.
Proof.
  intros Hi. unfold tcp_connect. pose proof (connect_start_inv address port st Hi) as H1.
  destruct (connect_start _ address port st) as [st1 [i|]]; cbn [fst] in H1; [|by intros [= <- <-]].
  destruct (bool_decide _); [by intros [= <- <-]|].
  destruct (wait_loop _ _ _ _ _ _ st1) as [[st2 o]|] eqn:Hw; [|done].
  apply wait_loop_inv in Hw; [|apply connect_check_inv|done].
  destruct o as [z|]; intros [= <- <-]; [done|]. apply update_inv; [done|]. apply ok_closed.
Qed.

Lemma next_chunk_range s left :
  sock_ok s → in_use s = true → is_listening s = false → 0 < left →
  0 < next_chunk s left ≤ left ∧ next_chunk s left ≤ mss s.
Proof.
  intros Hs Hu Hl Hleft. pose proof (ok_mss_pos s Hs Hu Hl). unfold next_chunk. cbn zeta.
  set (w := if _ <? _ then _ else _). rewrite !Z.gtb_ltb.
  destruct (Z.ltb_spec (mss s) left); cbn zeta.
  - destruct (Z.ltb_spec w (mss s)), (Z.ltb_spec 0 w); cbn [andb]; lia.
  - destruct (Z.ltb_spec w left), (Z.ltb_spec 0 w); cbn [andb]; lia.
Qed.

Lemma queue_chunk_ok now chunk s :
  Z.of_nat (length chunk) ≤ NET_TCP_DEFAULT_MSS → Forall is_u8 chunk → is_listening s = false → sock_ok s →
  sock_ok (queue_chunk now chunk s).
Proof.
  intros Hc Hb Hl Hs. unfold queue_chunk. cbn zeta. apply ok_nxt_set; [apply u32_range|].
  set (s1 := set_retx _ s).
  assert (Hs1 : sock_ok s1).
  { apply ok_retx_set; [|by apply segment_bytes; [by vm_compute|]|by cbn; unfold TCP_MAX_RETRIES; lia|by left|done].
    cbn [pending_packet].
    rewrite length_segment. unfold TCP_SEGMENT_MAX, NET_TCP_DEFAULT_MSS in *. lia. }
  destruct (rtt_measuring _); [done|by apply ok_rtt_set].
Qed.

Lemma send_check_inv i sq size st : tcp_inv st → tcp_inv (send_check i sq size st).1.
Proof.
  intros Hi. unfold send_check. cbn zeta. destruct (chunk_acked _ _ _); cbn [fst].
  - by apply put_inv; [|apply ok_pending_flag, sock_inv].
  - by destruct (bool_decide _).
Qed.

Lemma send_chunk_inv fuel i chunk st st' b :
  Z.of_nat (length chunk) ≤ NET_TCP_DEFAULT_MSS → Forall is_u8 chunk → is_listening (sock i st) = false →
  tcp_inv st →
  send_chunk net_ipv4_send_from net_poll cpu_wait_for_interrupt timer_frequency_hz fuel i chunk st
    = Some (st', b) → tcp_inv st'.
Proof.
  intros Hc Hb Hl Hi. unfold send_chunk. cbn zeta.
  pose proof (queue_chunk_ok (timer_ticks st) chunk (sock i st) Hc Hb Hl (sock_inv i st Hi)) as Hq.
  set (s := queue_chunk _ _ _) in *. set (st1 := (net_ipv4_send_from _ _ _ _ _).1).
  assert (H1 : tcp_inv st1) by (apply Hsend; [apply Hq|apply Hq|by apply count_sent_inv, put_inv]).
  clearbody st1 s. destruct (chunk_acked _ _ _).
  { intros [= <- <-]. apply update_inv; [done|]. apply ok_pending_flag. }
  destruct (wait_loop _ _ _ _ _ _ st1) as [[st2 o]|] eqn:Hw; [|done].
  apply wait_loop_inv in Hw; [|intros; by apply send_check_inv|done].
  destruct o as [[|]|]; intros [= <- <-]; try done;
    (apply update_inv; [done|apply ok_pending_flag]).
Qed.

Lemma send_loop_inv rounds fuel i data sent st st' r :
  Forall is_u8 data → tcp_inv st →
  send_loop net_ipv4_send_from net_poll cpu_wait_for_interrupt timer_frequency_hz rounds fuel i data sent st
    = Some (st', r) → tcp_inv st'.
Proof.
  revert data sent st. induction rounds as [|rounds IH]; intros [|b data] sent st Hb Hi;
    cbn [send_loop]; try (by intros [= <- <-]).
  destruct (negb (in_use (sock i st)) || negb (may_transfer (sock i st))) eqn:E; [by intros [= <- <-]|].
  apply orb_false_elim in E as [Hu%negb_false_iff Ht%negb_false_iff].
  pose proof (sock_inv i st Hi) as Hs.
  assert (Hl : is_listening (sock i st) = false).
  { apply not_listening; [done|done|]. intros Es. unfold may_transfer in Ht. by rewrite Es in Ht. }
  pose proof (next_chunk_range (sock i st) (Z.of_nat (length (b :: data))) Hs Hu Hl ltac:(cbn; lia)) as Hn.
  cbn zeta. set (size := next_chunk _ _) in *.
  destruct (send_chunk _ _ _ _ fuel i _ st) as [[st1 [|]]|] eqn:Hsd; [| |done].
  - apply IH; [by apply Forall_drop|]. apply send_chunk_inv in Hsd; try done; [|by apply Forall_take].
    rewrite length_take_le by lia. pose proof (ok_mss _ Hs). lia.
  - intros [= <- <-]. apply send_chunk_inv in Hsd; try done; [|by apply Forall_take].
    rewrite length_take_le by lia. pose proof (ok_mss _ Hs). lia.
Qed.

Lemma receive_take_inv i capacity st :
  0 ≤ capacity → tcp_inv st → tcp_inv (receive_take net_ipv4_send_from i capacity st).1.
Proof.
  intros Hc Hi. unfold receive_take. cbn zeta. destruct (negb _); [done|].
  pose proof (sock_inv i st Hi) as Hs. destruct (ok_ring _ Hs) as (_ & Hcnt & _).
  set (n := if _ <? _ then _ else _).
  assert (Hn : 0 ≤ n ≤ rx_count (rx (sock i st))).
  { subst n. destruct (Z.ltb_spec capacity (rx_count (rx (sock i st)))); lia. }
  pose proof (ring_pop_spec (Z.to_nat n) _ (ok_ring _ Hs) ltac:(lia)) as Hp.
  destruct (ring_pop _ _) as [data r]. cbn [fst]. destruct Hp as (Hr & _ & _).
  rewrite Z2Nat.id in Hr by lia. apply ack_if_inv, put_inv; [done|]. by apply ok_rx_set.
Qed.

Lemma tcp_receive_inv fuel id capacity st st' r :
  0 ≤ capacity → tcp_inv st →
  tcp_receive net_ipv4_send_from net_poll cpu_wait_for_interrupt timer_frequency_hz fuel id capacity st
    = Some (st', r) → tcp_inv st'.
Proof.
  intros Hc Hi. unfold tcp_receive. cbn zeta. destruct (_ || _); [by intros [= <- <-]|].
  destruct (negb _); [by intros [= <- <-]|].
  assert (Ht : ∀ st st', tcp_inv st →
    Some (receive_take net_ipv4_send_from (Z.to_nat id) capacity st) = Some (st', r) → tcp_inv st').
  { intros st1 st2 H1 [= H2]. pose proof (receive_take_inv (Z.to_nat id) capacity st1 Hc H1) as H3.
    by rewrite H2 in H3. }
  destruct (_ =? 0); [|by apply Ht]. destruct (at_end _); [by intros [= <- <-]|].
  destruct (wait_loop _ _ _ _ _ _ st) as [[st1 o]|] eqn:Hw; [|done]. apply Ht.
  by eapply wait_loop_inv in Hw.
Qed.

Lemma send_fin_inv i next st :
  tcp_inv st → is_listening (sock i st) = false → tcp_inv (send_fin net_ipv4_send_from i next st).
Proof.
  intros Hi Hl. unfold send_fin. cbn zeta. apply transmit_inv; [done|by vm_compute|by apply Forall_nil|by apply Forall_nil|].
  apply put_inv; [done|]. apply ok_nxt_set; [apply u32_range|]. apply ok_state; [done|by apply sock_inv].
Qed.

Lemma release_inv i st : tcp_inv st → tcp_inv (release i st).
Proof. intros Hi. apply update_inv; [done|]. intros s Hs. by apply ok_pending_flag, ok_closed. Qed.

Lemma close_inv fuel id st st' :
  tcp_inv st →
  tcp_close net_ipv4_send_from net_poll cpu_wait_for_interrupt timer_frequency_hz fuel id st = Some st' →
  tcp_inv st'.
Proof.
  intros Hi. unfold tcp_close. cbn zeta. destruct (negb _); [by intros [= <-]|].
  set (i := Z.to_nat id). destruct (negb (in_use (sock i st))) eqn:Hu; [by intros [= <-]|].
  destruct (is_listening (sock i st)) eqn:Hl.
  { intros [= <-]. apply put_inv; [done|]. pose proof (sock_inv i st Hi) as Hs. clear Hu Hl.
    revert Hs. generalize (sock i st). intros s. sock_step. }
  destruct (state (sock i st)) eqn:Hst; try (intros [= <-]; by apply release_inv).
  all: destruct (wait_loop _ _ _ _ _ _ _) as [[st1 o]|] eqn:Hw; [|done]; intros [= <-];
    apply release_inv; eapply wait_loop_inv in Hw; [done|by intros|by apply send_fin_inv].
Qed.


End Operations.

(** ** Loopback

    A segment to the own address: [net_ipv4_send_from] calls [net_tcp_receive]
    before it returns.  [n] bounds the depth of the nesting (beyond it, segments
    are dropped). *)

Fixpoint loopback (hz : Z) (n : nat) (protocol source destination : Z) (packet : list Z) (st : stack)
    : stack * bool :=
  match n with
  | O => (st, false)
  | S n => (net_tcp_receive (loopback hz n) hz source destination packet st, true)
  end.

Lemma loopback_inv hz n p src dst packet st :
  Z.of_nat (length packet) ≤ TCP_SEGMENT_MAX → Forall is_u8 packet → tcp_inv st →
  tcp_inv (loopback hz n p src dst packet st).1.
Proof.
  revert p src dst packet st. induction n as [|n IH]; intros p src dst packet st Hl Hb Hi; [done|].
  cbn [loopback fst]. apply receive_inv; [|done|done]. intros. by apply IH.
Qed.

(** ** A machine that talks to itself *)

Definition tcp_boot : tcp :=
  mk_tcp (replicate NET_TCP_SOCKET_MAX tcp_socket_zero) TCP_EPHEMERAL_PORT_START 0 0 0.

Definition boot_net : net :=
  mk_net 7 (mk_ethernet None 0 0 0 [] []) (mk_arp [] 0 0)
    (mk_ipv4 (mk_interface true (replicate 6 1) 0x0a00020f 0xffffff00 0x0a000202 0
       NET_CONFIGURATION_STATIC NET_DHCP_IDLE 0 0 0) [] 0)
    (mk_icmp (mk_waiter false false 0 0 0 0) 0 0 0 0) [].

Definition next_tick (st : stack) : stack :=
  mk_stack (st_tcp st) (set_tick (tick (st_net st) + 1) (st_net st)).

Definition boot : stack := mk_stack tcp_boot boot_net.

Lemma boot_inv : tcp_inv boot.
Proof.
  split; [done|]. split; [|unfold is_u16; cbn; unfold TCP_EPHEMERAL_PORT_START; lia].
  apply Forall_replicate, zero_ok.
Qed.

