(* ===== verification/TcpStream.v ===== *)
(** * TCP delivers a prefix of the peer's stream (src/net/tcp.c)

    One established connection over a network that loses, repeats, reorders and
    delays segments: every segment for it that carries data carries a piece of
    the peer's stream at the place its sequence number says, and apart from that
    anything may arrive.  The bytes the application has read and the bytes in
    the receive buffer are at all times a prefix of the stream. *)

From Stdlib Require Import ZArith Lia.
From stdpp Require Import gmap.
From S2P Require Import Prelude Inet NetState Tcp TcpSpec TcpInv.

#[local] Open Scope Z_scope.

Section Stream.
  Context (net_ipv4_send_from : Z → Z → Z → list Z → stack → stack * bool).
  Context (timer_frequency_hz : Z).

  (** The peer is another machine: sending leaves the own sockets alone. *)
  Context (Hremote : ∀ p src dst packet st, st_tcp (net_ipv4_send_from p src dst packet st).1 = st_tcp st).

  (** The connection in slot [i], the peer's stream and the sequence number of
      its first byte. *)
  Context (i : nat) (e : endpoints) (first : Z) (stream : list Z).
  Context (Hfirst : is_u32 first) (Hshort : Z.of_nat (length stream) < 4294967296).

(** What can happen to the connection: a segment arrives, the timer runs, or the
    application reads. *)
Inductive event :=
  | Arrive (source destination : Z) (packet : list Z)
  | Tick
  | Read (capacity : Z).

(** The new state and the bytes given to the application. *)
Definition handle_event (ev : event) (st : stack) : stack * list Z :=
  match ev with
  | Arrive source destination packet =>
      (net_tcp_receive net_ipv4_send_from timer_frequency_hz source destination packet st, [])
  | Tick => (net_tcp_poll net_ipv4_send_from st, [])
  | Read capacity =>
      let '(st, (_, data)) := receive_take net_ipv4_send_from i capacity st in (st, data)
  end.

Fixpoint run_events (evs : list event) (st : stack) : stack * list Z :=
  match evs with
  | [] => (st, [])
  | ev :: evs =>
      let '(st, out) := handle_event ev st in
      let '(st, more) := run_events evs st in (st, out ++ more)
  end.

(** The segment is for the connection. *)
Definition for_connection (source : Z) (g : segment) : Prop :=
  local_port e = seg_dst_port g ∧ remote_port e = seg_src_port g ∧ (remote_ip e = source ∨ remote_ip e = 0).

(** The peer's segments: the payload is the piece of the stream that starts at
    [offset], and the sequence number says so. *)
Definition honest (ev : event) : Prop :=
  match ev with
  | Arrive source destination packet =>
      Forall is_u8 packet ∧ Z.of_nat (length packet) ≤ NET_ETHERNET_FRAME_MAX ∧
      ∀ g, parse_segment source destination packet = Some g → for_connection source g →
        let payload := drop (Z.to_nat (seg_data_offset g)) packet in
        payload = [] ∨ ∃ offset, (offset + length payload ≤ length stream)%nat ∧
          seg_seq g = u32 (first + Z.of_nat offset) ∧ payload = take (length payload) (drop offset stream)
  | Tick => True
  | Read capacity => 0 ≤ capacity
  end.

(** ** The state of the connection *)

Record connection (s : tcp_socket) (out : list Z) : Prop := mk_connection {
  c_in_use : in_use s = true;
  c_listening : is_listening s = false;
  c_ends : ends s = e;
  c_ring : ring_ok (rx s);
  c_state : state s = TCP_STATE_ESTABLISHED ∨ state s = TCP_STATE_CLOSE_WAIT ∨ state s = TCP_STATE_CLOSED;
  c_prefix : ∃ n, (n ≤ length stream)%nat ∧ out ++ contents (rx s) = take n stream ∧
    (state s = TCP_STATE_ESTABLISHED → rcv_nxt (rcv s) = u32 (first + Z.of_nat n))
}.

(** A change that neither touches the receive side nor revives the connection. *)
Definition calm (s s' : tcp_socket) : Prop :=
  in_use s' = in_use s ∧ is_listening s' = is_listening s ∧ ends s' = ends s ∧ rx s' = rx s ∧
  (state s' = state s ∧ rcv_nxt (rcv s') = rcv_nxt (rcv s)
   ∨ state s' = TCP_STATE_CLOSE_WAIT ∨ state s' = TCP_STATE_CLOSED).

Lemma calm_connection s s' out : calm s s' → connection s out → connection s' out.
Proof.
  intros (H1 & H2 & H3 & H4 & H5) [C1 C2 C3 C4 C5 (n & Hn & Hp & Hr)].
  constructor; try congruence.
  - destruct H5 as [[-> _]|?]; [done|by right].
  - exists n. rewrite H4. split_and!; [done|done|]. destruct H5 as [[-> ->]|[Hs|Hs]]; [done| |]; congruence.
Qed.

Lemma calm_refl s : calm s s.
Proof. unfold calm. split_and!; auto. Qed.

(** *** Slots *)

Lemma sock_put_ne j s st : j ≠ i → sock i (put_sock j s st) = sock i st.
Proof. intros Hne. unfold sock, put_sock, set_sockets. cbn. by rewrite list_lookup_insert_ne. Qed.

Lemma sock_put_eq s st : (i < length (tcp_sockets (st_tcp st)))%nat → sock i (put_sock i s st) = s.
Proof. intros Hl. unfold sock, put_sock, set_sockets. cbn. by rewrite list_lookup_insert_eq. Qed.

Lemma sock_remote p src dst packet st : sock i (net_ipv4_send_from p src dst packet st).1 = sock i st.
Proof. unfold sock. by rewrite Hremote. Qed.

Lemma sock_transmit src sp dst dp sq ak flags window options payload st :
  sock i (tcp_transmit_segment net_ipv4_send_from src sp dst dp sq ak flags window options payload st).1
  = sock i st.
Proof. unfold tcp_transmit_segment. cbn zeta. destruct (_ >? _); [done|]. by rewrite sock_remote. Qed.

Lemma sock_ack s st : sock i (tcp_send_ack net_ipv4_send_from s st) = sock i st.
Proof. apply sock_transmit. Qed.

Lemma sock_ack_if b s st : sock i (ack_if net_ipv4_send_from b s st) = sock i st.
Proof. destruct b; [apply sock_ack|done]. Qed.

(** *** Segments for other sockets *)

Lemma on_syn_received_other j g st :
  j ≠ i → is_listening (sock i st) = false → sock i (on_syn_received j g st) = sock i st.
Proof.
  intros Hne Hl. unfold on_syn_received. cbn zeta. destruct (_ && _); [|done].
  set (st1 := put_sock j _ st). assert (H1 : sock i st1 = sock i st) by by apply sock_put_ne.
  destruct (_ && _); [|done]. destruct (_ && _ && _) eqn:E; [|done].
  rewrite sock_put_ne; [done|]. intros Heq. rewrite Heq, H1, Hl, andb_false_r in E. done.
Qed.

Lemma on_connection_other j g st :
  j ≠ i → is_listening (sock i st) = false →
  sock i (on_connection net_ipv4_send_from timer_frequency_hz j g st) = sock i st.
Proof.
  intros Hne Hl. unfold on_connection. destruct (has _ TCP_FLAG_RST); [by apply sock_put_ne|].
  destruct (state _); try done.
  - unfold on_syn_sent. cbn zeta. destruct (_ =? _); [|done]. destruct (_ =? _); [|done].
    rewrite sock_ack. by apply sock_put_ne.
  - by apply on_syn_received_other.
  - unfold on_established. destruct (take_fin _ _) as [s b]. rewrite sock_ack_if. by apply sock_put_ne.
  - unfold on_fin_wait_1. cbn zeta. destruct (if has _ TCP_FLAG_FIN then _ else _) as [s b].
    rewrite sock_ack_if. by apply sock_put_ne.
  - unfold on_fin_wait_2. cbn zeta. destruct (if has _ TCP_FLAG_FIN then _ else _) as [s b].
    rewrite sock_ack_if. by apply sock_put_ne.
  - unfold on_close_wait. destruct (has _ _); [by apply sock_put_ne|done].
  - unfold on_last_ack. cbn zeta. destruct (_ && _); [by apply sock_put_ne|done].
Qed.

Lemma on_listener_other ls g st :
  in_use (sock i st) = true → sock i (on_listener net_ipv4_send_from ls g st) = sock i st.
Proof.
  intros Hu. unfold on_listener. destruct (_ && _); [|done].
  destruct (find_socket _ st) as [c|] eqn:Hf; [|done]. cbn zeta. destruct (_ <? _); [|done].
  rewrite sock_transmit. change (sock i (put_sock c (child_socket (timer_ticks st) ls c g) st) = sock i st).
  apply sock_put_ne. intros ->. apply find_socket_lookup in Hf as [_ Hf]. by rewrite Hu in Hf.
Qed.

(** *** Segments for the connection *)

Lemma take_ack_calm now g s : calm s (take_ack timer_frequency_hz now g s).
Proof.
  unfold take_ack, rtt_sample, grow_cwnd, calm. repeat case_match; simplify_eq; sock_fields; split_and!; auto.
Qed.

Lemma take_fin_calm g sn out : connection sn.1 out → connection (take_fin g sn).1 out.
Proof.
  destruct sn as [s b]. cbn [fst]. unfold take_fin. destruct (has _ _); [|done].
  apply calm_connection. unfold calm. sock_fields. split_and!; auto.
Qed.

(** Sequence numbers tell the places of a stream below 4 GiB apart. *)
Lemma offset_unique a b :
  (a ≤ length stream)%nat → (b ≤ length stream)%nat →
  u32 (first + Z.of_nat a) = u32 (first + Z.of_nat b) → a = b.
Proof. unfold u32, is_u32 in *. intros. zsolve. Qed.

Lemma take_payload_connection g s out :
  let payload := drop (Z.to_nat (seg_data_offset g)) (seg_packet g) in
  (payload = [] ∨ ∃ offset, (offset + length payload ≤ length stream)%nat ∧
    seg_seq g = u32 (first + Z.of_nat offset) ∧ payload = take (length payload) (drop offset stream)) →
  state s = TCP_STATE_ESTABLISHED → connection s out → connection (take_payload g s).1 out.
Proof.
  cbn zeta. intros Hh He Hc. unfold take_payload. cbn zeta. set (p := drop _ _) in *.
  rewrite Z.gtb_ltb. destruct (Z.ltb_spec 0 (Z.of_nat (length p))) as [Hp|]; [|done].
  destruct (Z.eqb_spec (seg_seq g) (rcv_nxt (rcv s))) as [Hs|]; [|done]. cbn [fst].
  destruct Hc as [C1 C2 C3 C4 C5 (n & Hn & Hpre & Hr)]. specialize (Hr He).
  destruct Hh as [Hnil|(off & Hoff & Hseq & Hpay)]; [rewrite Hnil in Hp; cbn in Hp; lia|].
  assert (off = n) as -> by (apply offset_unique; [lia|done|congruence]).
  set (k := if _ <? _ then _ else _).
  assert (Hk : 0 ≤ k ≤ Z.of_nat (length p) ∧ rx_count (rx s) + k ≤ TCP_RX_BUFFER_CAPACITY).
  { subst k. destruct C4 as (_ & Hcnt & _).
    destruct (Z.ltb_spec (Z.of_nat (length p)) (TCP_RX_BUFFER_CAPACITY - rx_count (rx s))); lia. }
  pose proof (ring_push_spec (take (Z.to_nat k) p) (rx s) C4) as Hpush.
  rewrite length_take_le, Z2Nat.id in Hpush by lia. destruct Hpush as [Hok Hcont]; [lia|].
  unfold add_count in Hok, Hcont.
  constructor; sock_fields; try done. exists (n + Z.to_nat k)%nat. split_and!.
  - lia.
  - rewrite Hcont, app_assoc, Hpre, Hpay, take_take, Nat.min_l by lia. by rewrite take_take_drop.
  - intros _. rewrite Hr. unfold u32. rewrite Zplus_mod_idemp_l. f_equal. lia.
Qed.

Lemma on_established_connection g st out :
  (i < length (tcp_sockets (st_tcp st)))%nat →
  (let payload := drop (Z.to_nat (seg_data_offset g)) (seg_packet g) in
   payload = [] ∨ ∃ offset, (offset + length payload ≤ length stream)%nat ∧
     seg_seq g = u32 (first + Z.of_nat offset) ∧ payload = take (length payload) (drop offset stream)) →
  state (sock i st) = TCP_STATE_ESTABLISHED → connection (sock i st) out →
  connection (sock i (on_established net_ipv4_send_from timer_frequency_hz i g st)) out.
Proof.
  intros Hlt Hh He Hc. unfold on_established.
  pose proof (take_ack_calm (timer_ticks st) g (sock i st)) as Hcalm.
  assert (Ha : state (take_ack timer_frequency_hz (timer_ticks st) g (sock i st)) = TCP_STATE_ESTABLISHED).
  { rewrite <- He. unfold take_ack, rtt_sample, grow_cwnd. by repeat case_match; simplify_eq. }
  pose proof (take_fin_calm g _ out
    (take_payload_connection g _ out Hh Ha (calm_connection _ _ out Hcalm Hc))) as Hf.
  destruct (take_fin _ _) as [s b]. rewrite sock_ack_if, sock_put_eq; done.
Qed.

Lemma on_connection_self g st out :
  (i < length (tcp_sockets (st_tcp st)))%nat →
  (let payload := drop (Z.to_nat (seg_data_offset g)) (seg_packet g) in
   payload = [] ∨ ∃ offset, (offset + length payload ≤ length stream)%nat ∧
     seg_seq g = u32 (first + Z.of_nat offset) ∧ payload = take (length payload) (drop offset stream)) →
  connection (sock i st) out →
  connection (sock i (on_connection net_ipv4_send_from timer_frequency_hz i g st)) out.
Proof.
  intros Hlt Hh Hc. unfold on_connection. destruct (has _ TCP_FLAG_RST).
  { unfold update_sock. rewrite sock_put_eq by done. eapply calm_connection; [|done].
    unfold calm. sock_fields. split_and!; auto. }
  destruct (c_state _ _ Hc) as [He|[He|He]]; rewrite He; [by apply on_established_connection| |done].
  unfold on_close_wait. destruct (has _ _); [|done]. cbn zeta. rewrite sock_put_eq by done.
  eapply calm_connection; [|done]. destruct (_ && _); unfold calm; sock_fields; split_and!; auto.
Qed.

(** *** Events *)

Lemma arrive_connection source destination packet st out :
  tcp_inv st → (i < NET_TCP_SOCKET_MAX)%nat → honest (Arrive source destination packet) →
  connection (sock i st) out →
  connection (sock i (net_tcp_receive net_ipv4_send_from timer_frequency_hz source destination packet st)) out.
Proof.
  intros (Hlen & _) Hlt (_ & _ & Hh) Hc. unfold net_tcp_receive.
  destruct (parse_segment source destination packet) as [g|] eqn:Hp; [|done]. cbn zeta.
  assert (Hpk : seg_packet g = packet).
  { clear -Hp. unfold parse_segment in Hp. cbn zeta in Hp. by repeat case_match; simplify_eq. }
  specialize (Hh g eq_refl). rewrite <- Hpk in Hh.
  change (sock i st) with (sock i (count_received st)) in Hc.
  assert (Hl1 : length (tcp_sockets (st_tcp (count_received st))) = NET_TCP_SOCKET_MAX) by done.
  set (st1 := count_received st) in *. clearbody st1.
  destruct (find_socket (connection_matches _ _ _) st1) as [j|] eqn:Hf.
  - destruct (decide (j = i)) as [->|Hne]; [|rewrite on_connection_other; [done|done|apply Hc]].
    apply on_connection_self; [lia| |done]. apply Hh. apply find_socket_lookup in Hf as [_ Hm].
    unfold connection_matches in Hm. rewrite (c_ends _ _ Hc) in Hm. unfold for_connection.
    repeat (apply andb_prop in Hm as [Hm ?]). split_and!; [by apply Z.eqb_eq|by apply Z.eqb_eq|].
    destruct (Z.eqb_spec (remote_ip e) source); [by left|]. right. by apply Z.eqb_eq.
  - destruct (find_socket (listener_matches _) st1) as [ls|].
    + rewrite on_listener_other; [done|apply Hc].
    + destruct (negb _); [|done]. unfold tcp_send_rst. by rewrite sock_transmit.
Qed.

Lemma poll_connection j st out :
  tcp_inv st → (i < NET_TCP_SOCKET_MAX)%nat → connection (sock i st) out →
  connection (sock i (poll_socket net_ipv4_send_from j st)) out.
Proof.
  intros (Hlen & _) Hlt Hc. destruct (decide (j = i)) as [->|Hne].
  - assert (Hti : state (sock i st) ≠ TCP_STATE_TIME_WAIT).
    { destruct (c_state _ _ Hc) as [->|[-> | ->]]; done. }
    unfold poll_socket. cbn zeta. rewrite (c_in_use _ _ Hc), bool_decide_false by done. cbn [andb].
    destruct (retransmit_pending _); [|done]. destruct (_ >=? _); [|done]. destruct (_ <? _).
    + rewrite sock_remote. change (sock i (put_sock i ?s (count_sent (count_retransmission st))))
        with (sock i (put_sock i s st)).
      rewrite sock_put_eq by lia. eapply calm_connection; [|done].
      unfold back_off, calm. sock_fields. split_and!; auto.
    + rewrite sock_put_eq by lia. eapply calm_connection; [|done]. unfold calm. sock_fields. split_and!; auto.
  - assert (sock i (poll_socket net_ipv4_send_from j st) = sock i st) as ->; [|done].
    unfold poll_socket. cbn zeta. destruct (_ && _).
    + destruct (_ >=? _); [by apply sock_put_ne|done].
    + destruct (_ && _); [|done]. destruct (_ >=? _); [|done]. destruct (_ <? _); [|by apply sock_put_ne].
      rewrite sock_remote. change (sock i (put_sock j ?s (count_sent (count_retransmission st))))
        with (sock i (put_sock j s st)). by apply sock_put_ne.
Qed.

Lemma read_connection capacity st out :
  tcp_inv st → (i < NET_TCP_SOCKET_MAX)%nat → 0 ≤ capacity → connection (sock i st) out →
  let '(st', (_, data)) := receive_take net_ipv4_send_from i capacity st in
  connection (sock i st') (out ++ data).
Proof.
  intros (Hlen & _) Hlt Hcap Hc. unfold receive_take. cbn zeta. rewrite (c_in_use _ _ Hc). cbn [negb].
  set (k := if _ <? _ then _ else _).
  pose proof (c_ring _ _ Hc) as Hr. destruct Hr as (_ & Hcnt & _).
  assert (Hk : 0 ≤ k ≤ rx_count (rx (sock i st))).
  { subst k. destruct (Z.ltb_spec capacity (rx_count (rx (sock i st)))); lia. }
  pose proof (ring_pop_spec (Z.to_nat k) _ (c_ring _ _ Hc) ltac:(lia)) as Hp.
  destruct (ring_pop _ _) as [data r]. rewrite Z2Nat.id in Hp by lia. destruct Hp as (Hr' & -> & Hcont).
  rewrite sock_ack_if, sock_put_eq by lia.
  destruct Hc as [C1 C2 C3 C4 C5 (n & Hn & Hpre & Hrn)].
  unfold add_count in Hr', Hcont. rewrite Z.add_opp_r in Hr', Hcont.
  constructor; sock_fields; try done. exists n. split_and!; [done| |done].
  rewrite Hcont, <- app_assoc, take_drop. done.
Qed.

Lemma remote_inv p src dst packet st :
  Z.of_nat (length packet) ≤ TCP_SEGMENT_MAX → Forall is_u8 packet → tcp_inv st →
  tcp_inv (net_ipv4_send_from p src dst packet st).1.
Proof. intros _ _. unfold tcp_inv. by rewrite Hremote. Qed.

Lemma event_connection ev st out :
  tcp_inv st → (i < NET_TCP_SOCKET_MAX)%nat → honest ev → connection (sock i st) out →
  let '(st', data) := handle_event ev st in tcp_inv st' ∧ connection (sock i st') (out ++ data).
Proof.
  intros Hi Hlt Hh Hc. destruct ev as [source destination packet| |capacity]; cbn [handle_event].
  - rewrite app_nil_r. split; [|by apply arrive_connection].
    apply receive_inv; [apply remote_inv|apply Hh|done].
  - rewrite app_nil_r. unfold net_tcp_poll. generalize (seq 0 NET_TCP_SOCKET_MAX). intros l.
    revert st Hi Hc. induction l as [|j l IH]; intros st Hi Hc; [done|]. cbn [fold_left].
    apply IH; [by apply poll_socket_inv, Hi; apply remote_inv|by apply poll_connection].
  - pose proof (read_connection capacity st out Hi Hlt Hh Hc) as Hr.
    pose proof (receive_take_inv net_ipv4_send_from remote_inv i capacity st Hh Hi) as Hinv.
    by destruct (receive_take _ i capacity st) as [st' [z data]].
Qed.

Lemma run_connection evs st out :
  tcp_inv st → (i < NET_TCP_SOCKET_MAX)%nat → Forall honest evs → connection (sock i st) out →
  let '(st', data) := run_events evs st in connection (sock i st') (out ++ data).
Proof.
  intros Hi Hlt Hh. revert st out Hi. induction Hh as [|ev evs He _ IH]; intros st out Hi Hc; cbn [run_events].
  { by rewrite app_nil_r. }
  pose proof (event_connection ev st out Hi Hlt He Hc) as Hev.
  destruct (handle_event ev st) as [st1 d1]. destruct Hev as [H1 H2].
  specialize (IH st1 _ H1 H2). destruct (run_events evs st1) as [st2 d2]. by rewrite app_assoc.
Qed.

(** C33: On an established connection whose next expected byte is the first of the
    peer's stream, and for every sequence of arrivals (lost, repeated, reordered,
    for other sockets, with any flags), timer runs and reads: what the
    application has read followed by what is buffered is a prefix of the stream,
    and while the connection is established the next acknowledgement names
    exactly the end of that prefix. *)
Theorem tcp_stream_prefix evs st :
  (i < NET_TCP_SOCKET_MAX)%nat → tcp_inv st → in_use (sock i st) = true → is_listening (sock i st) = false →
  ends (sock i st) = e → state (sock i st) = TCP_STATE_ESTABLISHED →
  rx_count (rx (sock i st)) = 0 → rcv_nxt (rcv (sock i st)) = first → Forall honest evs →
  let '(st', read) := run_events evs st in
  ∃ n, (n ≤ length stream)%nat ∧ read ++ contents (rx (sock i st')) = take n stream ∧
    (state (sock i st') = TCP_STATE_ESTABLISHED → rcv_nxt (rcv (sock i st')) = u32 (first + Z.of_nat n)).
Proof.
  intros Hlt Hi Hu Hl He Hs Hrx Hnxt Hh.
  assert (Hc : connection (sock i st) []).
  { constructor; try done; [by apply sock_inv|by left|].
    exists 0%nat. split_and!; [lia|unfold contents; by rewrite Hrx|].
    intros _. rewrite Hnxt, Z.add_0_r. unfold u32. by rewrite Z.mod_small. }
  pose proof (run_connection evs st [] Hi Hlt Hh Hc) as Hr.
  destruct (run_events evs st) as [st' data]. apply (c_prefix _ _ Hr).
Qed.

End Stream.

(** ** An example

    The second segment overtakes the first, which then arrives twice. *)

Definition example_ends : endpoints := mk_endpoints 0x0a00020f 49152 0x0a000202 80.
Definition example_stream : list Z := [10; 20; 30; 40; 50].

Definition example_socket : tcp_socket :=
  set_state TCP_STATE_ESTABLISHED
    (set_rcv_nxt 4294967294 (connecting_socket 7 0x0a00020f 49152 0x0a000202 80)).

Definition example_segment (offset : nat) (size : nat) : event :=
  Arrive 0x0a000202 0x0a00020f
    (tcp_segment 0x0a000202 80 0x0a00020f 49152 (u32 (4294967294 + Z.of_nat offset)) 0 5 TCP_FLAG_PSH 8192
       (take size (drop offset example_stream))).

Definition example_events : list event :=
  [example_segment 2 2; example_segment 0 2; Tick; example_segment 0 2; example_segment 2 2; Read 3].

Definition send_nothing (p source destination : Z) (packet : list Z) (st : stack) : stack * bool := (st, true).

Lemma example_honest offset size :
  (offset + size ≤ length example_stream)%nat →
  honest example_ends 4294967294 example_stream (example_segment offset size).
Proof.
  intros Hsz. assert (Hb : Forall is_u8 example_stream) by (by vm_compute; repeat constructor).
  assert (Hlen : length (take size (drop offset example_stream)) = size).
  { rewrite length_take, length_drop. lia. }
  assert (Hl5 : length example_stream = 5%nat) by done.
  cbn [honest example_segment]. split_and!.
  - apply segment_bytes; [by vm_compute|]. by apply Forall_take, Forall_drop.
  - rewrite length_segment, Hlen. unfold NET_ETHERNET_FRAME_MAX. lia.
  - intros g Hp _. rewrite parse_tcp_segment in Hp;
      try (unfold is_u16, is_u32; lia); [|by apply u32_range]. simplify_eq.
    right. exists offset. cbn [seg_data_offset seg_seq]. 
    change (Z.to_nat (5 * 4)) with 20%nat.
    assert (∀ a b c d f h k w (l : list Z), drop 20 (tcp_segment a b c d f h 5 k w l) = l) as -> by done.
    rewrite Hlen. done.
Qed.

Lemma tcp_stream_prefix_witness :
  let st := put_sock 0 example_socket boot in
  let '(st', read) := run_events send_nothing 100 0 example_events st in
  read = [10; 20; 30] ∧ contents (rx (sock 0 st')) = [40] ∧
  ∃ n, (n ≤ length example_stream)%nat ∧ read ++ contents (rx (sock 0 st')) = take n example_stream ∧
    (state (sock 0 st') = TCP_STATE_ESTABLISHED → rcv_nxt (rcv (sock 0 st')) = u32 (4294967294 + Z.of_nat n)).
Proof.
  cbn zeta.
  pose proof (tcp_stream_prefix send_nothing 100 (λ _ _ _ _ _, eq_refl) 0 example_ends 4294967294 example_stream
    ltac:(unfold is_u32; lia) ltac:(cbn; lia) example_events (put_sock 0 example_socket boot)) as Hp.
  assert (Hrun : ∃ st', run_events send_nothing 100 0 example_events (put_sock 0 example_socket boot)
    = (st', [10; 20; 30]) ∧ contents (rx (sock 0 st')) = [40]).
  { eexists. split; vm_compute; reflexivity. }
  destruct Hrun as (st' & Hrun & Hc). rewrite Hrun in Hp |- *. split; [reflexivity|]. split; [exact Hc|].
  apply Hp; try reflexivity.
  - unfold NET_TCP_SOCKET_MAX. lia.
  - apply put_inv; [apply boot_inv|]. unfold example_socket.
    apply ok_state; [reflexivity|]. apply ok_rcv_set; [unfold is_u32; lia|]. apply connecting_ok.
  - unfold example_events. repeat apply Forall_cons_2; try (apply example_honest; cbn; lia); cbn; try lia; auto.
Defined.
