(* ===== verification/TcpHandshake.v ===== *)
(** * The three-way handshake (src/net/tcp.c)

    Two machines, each with its own socket table.  What a machine hands to its
    IP layer is recorded as the call that the other machine's IP layer makes when
    the packet arrives; the three segments of a connection setup, delivered in
    order, leave both sides established and in agreement. *)

From Stdlib Require Import ZArith Lia.
From stdpp Require Import gmap.
From S2P Require Import Prelude Inet NetState Tcp TcpSpec TcpInv.

#[local] Open Scope Z_scope.

(** Hand a packet to the wire. *)
Definition to_wire (p source destination : Z) (packet : list Z) (st : stack) : stack * bool :=
  (mk_stack (st_tcp st) (call_up (net_tcp_receive_call source destination packet) (st_net st)), true).

(** Run the call that a machine recorded last on the other machine. *)
Definition deliver_last (hz : Z) (from to : stack) : stack :=
  match last (upcalls (st_net from)) with
  | Some (net_tcp_receive_call source destination packet) =>
      net_tcp_receive to_wire hz source destination packet to
  | _ => to
  end.

Lemma deliver_to_wire hz p source destination packet st to :
  deliver_last hz (to_wire p source destination packet st).1 to
  = net_tcp_receive to_wire hz source destination packet to.
Proof. unfold deliver_last, to_wire. cbn. by rewrite last_snoc. Qed.

(** ** Searching the table *)

Lemma find_index_unique p i l k s :
  l !! k = Some s → p s = true → (∀ j s', l !! j = Some s' → j ≠ k → p s' = false) →
  find_index p i l = Some (i + k)%nat.
Proof.
  revert i k. induction l as [|x l IH]; intros i k Hk Hp Ho; [done|]. cbn [find_index].
  destruct k as [|k].
  - injection Hk as ->. rewrite Hp. f_equal. lia.
  - rewrite (Ho 0%nat x eq_refl ltac:(lia)). rewrite (IH (S i) k Hk Hp); [f_equal; lia|].
    intros j s' Hj Hne. apply (Ho (S j) s' Hj). lia.
Qed.

Lemma find_index_none p i l : find_index p i l = None ↔ Forall (λ s, p s = false) l.
Proof.
  revert i. induction l as [|x l IH]; intros i; cbn [find_index]; [by split|].
  rewrite Forall_cons. destruct (p x); [by split; [|intros [? _]]|]. rewrite IH. naive_solver.
Qed.

(** The socket just stored in slot [k] is the only one that matches. *)
Lemma find_socket_put p k s st :
  (k < length (tcp_sockets (st_tcp st)))%nat → p s = true →
  (∀ j s', tcp_sockets (st_tcp st) !! j = Some s' → j ≠ k → p s' = false) →
  find_socket p (put_sock k s st) = Some k.
Proof.
  intros Hk Hp Ho. unfold find_socket. apply (find_index_unique p 0 _ k s); [|done|].
  - cbn. by apply list_lookup_insert_eq.
  - intros j s' Hj Hne. cbn in Hj. rewrite list_lookup_insert_ne in Hj by done. by eapply Ho.
Qed.

Lemma sock_put i j s st :
  (j < length (tcp_sockets (st_tcp st)))%nat →
  sock i (put_sock j s st) = if decide (i = j) then s else sock i st.
Proof.
  intros Hj. unfold sock, put_sock, set_sockets. cbn. case_decide as Hd.
  - subst. by rewrite list_lookup_insert_eq.
  - by rewrite list_lookup_insert_ne.
Qed.

(** A port that the allocator returns is free. *)
Lemma allocate_port_free n st :
  let '(st', port) := allocate_port_loop n st in
  tcp_sockets (st_tcp st') = tcp_sockets (st_tcp st) ∧ st_net st' = st_net st ∧
  (port = 0 ∨ port_in_use port st = false).
Proof.
  revert st. induction n as [|n IH]; intros st; [cbn; auto|]. cbn [allocate_port_loop].
  set (st1 := set_next_port _ st).
  assert (H1 : tcp_sockets (st_tcp st1) = tcp_sockets (st_tcp st)) by done.
  assert (H2 : st_net st1 = st_net st) by done.
  destruct (port_in_use (next_tcp_port (st_tcp st)) st1) eqn:E; [|by auto].
  specialize (IH st1). destruct (allocate_port_loop n st1) as [st2 port].
  destruct IH as (-> & -> & IH). by rewrite H1, H2.
Qed.

Lemma port_free_other port st s j :
  port_in_use port st = false → tcp_sockets (st_tcp st) !! j = Some s → in_use s = true →
  local_port (ends s) ≠ port.
Proof.
  unfold port_in_use. rewrite bool_decide_eq_false. intros Hn Hj Hu Hp. apply Hn, Exists_exists.
  exists s. split; [by eapply list_elem_of_lookup_2|done].
Qed.

(** ** The client opens *)

Record opened (st st' : stack) (i : nat) (address port : Z) : Prop := mk_opened {
  op_slot : (i < length (tcp_sockets (st_tcp st)))%nat;
  op_state : ∃ lp st0, is_u16 lp ∧ lp ≠ 0 ∧
    let s := connecting_socket (timer_ticks st) (ipv4_address (interface (n_ip (st_net st)))) lp address port in
    tcp_sockets (st_tcp st0) = tcp_sockets (st_tcp st) ∧
    (∀ j s', tcp_sockets (st_tcp st) !! j = Some s' → in_use s' = true → local_port (ends s') ≠ lp) ∧
    st' = (to_wire 6 (local_ip (ends s)) (remote_ip (ends s)) (pending_packet (retx s))
             (count_sent (put_sock i s st0))).1
}.

Lemma connect_start_opened address port st st' i :
  tcp_inv st → connect_start to_wire address port st = (st', Some i) → opened st st' i address port.
Proof.
  intros Hi. unfold connect_start. cbn zeta. destruct (_ || _ || _); [done|].
  destruct (find_socket _ st) as [k|] eqn:Hf; [|done]. unfold allocate_tcp_port_locked.
  pose proof (allocate_port_free (Z.to_nat 16384) st) as Ha.
  pose proof (allocate_port_range (Z.to_nat 16384) st Hi) as Hr.
  destruct (allocate_port_loop _ st) as [st0 lp]. destruct Ha as (H1 & H2 & H3). cbn [Datatypes.snd] in Hr.
  destruct (Z.eqb_spec lp 0) as [|Hlp]; [done|]. intros [= <- <-].
  apply find_socket_lookup in Hf as [Hk _]. constructor; [by apply lookup_lt_Some in Hk|].
  exists lp, st0. split; [done|]. split; [done|]. cbn zeta. split; [done|]. split.
  - intros j s' Hj Hu. destruct H3; [done|]. by eapply port_free_other.
  - unfold timer_ticks. rewrite <- H2. reflexivity.
Qed.

(** ** The segments *)

(** A SYN for a listener, when no connection matches. *)
Lemma receive_syn hz source destination sp dp sq b ls c :
  let syn := tcp_segment source sp destination dp sq 0 6 TCP_FLAG_SYN TCP_RX_BUFFER_CAPACITY mss_option in
  is_u16 sp → is_u16 dp → is_u32 sq →
  find_socket (connection_matches source sp dp) b = None →
  find_socket (listener_matches dp) b = Some ls →
  find_socket (λ s, negb (in_use s)) b = Some c →
  accepted_count (listening (sock ls b)) < backlog (listening (sock ls b)) →
  let cs := child_socket (timer_ticks b) ls c
    (mk_segment source destination sp dp sq 0 24 TCP_FLAG_SYN TCP_RX_BUFFER_CAPACITY syn) in
  ∃ b0, st_tcp b0 = st_tcp (count_sent (count_sent (put_sock c cs (count_received b)))) ∧
    net_tcp_receive to_wire hz source destination syn b
    = (to_wire 6 destination source
         (tcp_segment destination dp source sp (snd_isn (snd cs)) (rcv_nxt (rcv cs)) 6
            (Z.lor TCP_FLAG_SYN TCP_FLAG_ACK) TCP_RX_BUFFER_CAPACITY mss_option) b0).1.
Proof.
  cbn zeta. intros Hsp Hdp Hsq Hn Hl Hc Hq. set (syn := tcp_segment _ _ _ _ _ _ _ _ _ _).
  unfold net_tcp_receive. pose proof (parse_tcp_segment source destination sp dp sq 0 6 TCP_FLAG_SYN
    TCP_RX_BUFFER_CAPACITY mss_option Hsp Hdp Hsq) as Hp. cbn zeta in Hp. fold syn in Hp.
  rewrite Hp by (unfold is_u16, is_u32, TCP_RX_BUFFER_CAPACITY; cbn; lia). cbn [seg_src_port seg_dst_port].
  change (find_socket (connection_matches source sp dp) (count_received b))
    with (find_socket (connection_matches source sp dp) b). rewrite Hn.
  change (find_socket (listener_matches dp) (count_received b)) with (find_socket (listener_matches dp) b).
  rewrite Hl. unfold on_listener. cbn [seg_flags].
  change (has TCP_FLAG_SYN TCP_FLAG_SYN && negb (has TCP_FLAG_SYN TCP_FLAG_ACK)
          && negb (has TCP_FLAG_SYN TCP_FLAG_RST)) with true. cbn match.
  change (find_socket (λ s, negb (in_use s)) (count_received b)) with (find_socket (λ s, negb (in_use s)) b).
  rewrite Hc. cbn zeta. change (sock ls (count_received b)) with (sock ls b).
  destruct (Z.ltb_spec (accepted_count (listening (sock ls b))) (backlog (listening (sock ls b)))); [|lia].
  exists (count_sent (count_sent (put_sock c (child_socket (timer_ticks b) ls c
    (mk_segment source destination sp dp sq 0 24 TCP_FLAG_SYN TCP_RX_BUFFER_CAPACITY syn)) (count_received b)))).
  split; [done|]. unfold tcp_transmit_segment. cbn zeta.
  change (_ >? NET_ETHERNET_FRAME_MAX) with false. cbn match. rewrite app_nil_r. reflexivity.
Qed.

Lemma peer_mss_default src sp dst dp sq ak flags window :
  peer_mss (tcp_segment src sp dst dp sq ak 6 flags window mss_option) 24 NET_TCP_DEFAULT_MSS
  = NET_TCP_DEFAULT_MSS.
Proof. reflexivity. Qed.

(** The answer to the client's SYN. *)
Lemma receive_syn_ack hz source destination sp dp sq ak a i :
  let syn_ack := tcp_segment source sp destination dp sq ak 6 (Z.lor TCP_FLAG_SYN TCP_FLAG_ACK)
    TCP_RX_BUFFER_CAPACITY mss_option in
  is_u16 sp → is_u16 dp → is_u32 sq → is_u32 ak →
  find_socket (connection_matches source sp dp) a = Some i →
  state (sock i a) = TCP_STATE_SYN_SENT → snd_nxt (snd (sock i a)) = ak →
  mss (sock i a) = NET_TCP_DEFAULT_MSS →
  ∃ s a0,
    st_tcp a0 = st_tcp (count_sent (put_sock i s (count_received a)))
    ∧ state s = TCP_STATE_ESTABLISHED ∧ ends s = ends (sock i a) ∧ mss s = NET_TCP_DEFAULT_MSS
    ∧ snd_una (snd s) = ak ∧ snd_nxt (snd s) = ak ∧ rcv_nxt (rcv s) = u32 (sq + 1)
    ∧ retransmit_pending (retx s) = false ∧ rx s = rx (sock i a)
    ∧ net_tcp_receive to_wire hz source destination syn_ack a
      = (to_wire 6 (local_ip (ends s)) (remote_ip (ends s))
           (tcp_segment (local_ip (ends s)) (local_port (ends s)) (remote_ip (ends s)) (remote_port (ends s))
              ak (u32 (sq + 1)) 5 TCP_FLAG_ACK (receive_window s) []) a0).1.
Proof.
  cbn zeta. intros Hsp Hdp Hsq Hak Hf Hst Hnx Hm. set (packet := tcp_segment _ _ _ _ _ _ _ _ _ _).
  unfold net_tcp_receive. pose proof (parse_tcp_segment source destination sp dp sq ak 6
    (Z.lor TCP_FLAG_SYN TCP_FLAG_ACK) TCP_RX_BUFFER_CAPACITY mss_option Hsp Hdp Hsq Hak) as Hp.
  cbn zeta in Hp. fold packet in Hp.
  rewrite Hp by (unfold is_u16, TCP_RX_BUFFER_CAPACITY; cbn; lia). cbn [seg_src_port seg_dst_port].
  change (find_socket (connection_matches source sp dp) (count_received a))
    with (find_socket (connection_matches source sp dp) a). rewrite Hf.
  unfold on_connection. cbn [seg_flags].
  change (has (Z.lor TCP_FLAG_SYN TCP_FLAG_ACK) TCP_FLAG_RST) with false. cbn match.
  change (sock i (count_received a)) with (sock i a). rewrite Hst. unfold on_syn_sent. cbn [seg_flags].
  change (Z.land (Z.lor TCP_FLAG_SYN TCP_FLAG_ACK) (Z.lor TCP_FLAG_SYN TCP_FLAG_ACK)
          =? Z.lor TCP_FLAG_SYN TCP_FLAG_ACK) with true. cbn match.
  change (sock i (count_received a)) with (sock i a). cbn [seg_ack seg_seq seg_window seg_packet seg_data_offset].
  rewrite Hnx, Z.eqb_refl. cbn zeta. set (s := set_state TCP_STATE_ESTABLISHED _).
  exists s, (count_sent (put_sock i s (count_received a))). split; [done|].
  assert (Hs : mss s = NET_TCP_DEFAULT_MSS).
  { subst s. sock_fields. rewrite Hm. apply peer_mss_default. }
  do 2 (split; [done|]). split; [done|]. split; [done|]. split; [done|]. do 3 (split; [done|]).
  unfold tcp_send_ack, tcp_transmit_segment. cbn zeta. change (_ >? NET_ETHERNET_FRAME_MAX) with false.
  cbn match. change (snd_nxt (snd s)) with (snd_nxt (snd (sock i a))). rewrite Hnx. reflexivity.
Qed.

(** The client's ACK of the SYN of a pending connection. *)
Lemma receive_final_ack hz source destination sp dp sq ak window b c :
  let ack := tcp_segment source sp destination dp sq ak 5 TCP_FLAG_ACK window [] in
  is_u16 sp → is_u16 dp → is_u32 sq → is_u32 ak → is_u16 window →
  find_socket (connection_matches source sp dp) b = Some c →
  state (sock c b) = TCP_STATE_SYN_RECEIVED → snd_nxt (snd (sock c b)) = ak →
  ∃ g, seg_ack g = ak ∧ seg_flags g = TCP_FLAG_ACK ∧
    net_tcp_receive to_wire hz source destination ack b = on_syn_received c g (count_received b).
Proof.
  cbn zeta. intros Hsp Hdp Hsq Hak Hw Hf Hst Hnx. set (packet := tcp_segment _ _ _ _ _ _ _ _ _ _).
  unfold net_tcp_receive. pose proof (parse_tcp_segment source destination sp dp sq ak 5
    TCP_FLAG_ACK window [] Hsp Hdp Hsq Hak Hw) as Hp. cbn zeta in Hp. fold packet in Hp.
  rewrite Hp by (cbn; lia). cbn [seg_src_port seg_dst_port].
  change (find_socket (connection_matches source sp dp) (count_received b))
    with (find_socket (connection_matches source sp dp) b). rewrite Hf.
  eexists. split; [|split; [|unfold on_connection; cbn [seg_flags];
    change (has TCP_FLAG_ACK TCP_FLAG_RST) with false; cbn match;
    change (sock c (count_received b)) with (sock c b); rewrite Hst; reflexivity]]; reflexivity.
Qed.

Lemma on_syn_received_spec c g b ls :
  (c < length (tcp_sockets (st_tcp b)))%nat → (ls < length (tcp_sockets (st_tcp b)))%nat →
  length (tcp_sockets (st_tcp b)) = NET_TCP_SOCKET_MAX → c ≠ ls →
  seg_flags g = TCP_FLAG_ACK → seg_ack g = snd_nxt (snd (sock c b)) → parent_socket (sock c b) = Z.of_nat ls →
  in_use (sock ls b) = true → is_listening (sock ls b) = true →
  accepted_count (listening (sock ls b)) < backlog (listening (sock ls b)) →
  sock c (on_syn_received c g b) = set_state TCP_STATE_ESTABLISHED (set_snd_una (seg_ack g) (sock c b))
  ∧ sock ls (on_syn_received c g b) = enqueue_accepted c (sock ls b).
Proof.
  intros Hc Hls Hlen Hne Hf Ha Hpar Hu Hl Hq. unfold on_syn_received. cbn zeta. rewrite Hf, Ha, Z.eqb_refl.
  change (has TCP_FLAG_ACK TCP_FLAG_ACK) with true. cbn [andb]. rewrite Hpar, Nat2Z.id.
  rewrite Hlen in Hls. change (Z.of_nat NET_TCP_SOCKET_MAX) with 8.
  destruct (Z.leb_spec 0 (Z.of_nat ls)); [|lia].
  destruct (Z.ltb_spec (Z.of_nat ls) 8); [|unfold NET_TCP_SOCKET_MAX in Hls; lia]. cbn [andb].
  rewrite (sock_put ls c) by done. rewrite decide_False by done. rewrite Hu, Hl. cbn [andb].
  destruct (Z.ltb_spec (accepted_count (listening (sock ls b))) (backlog (listening (sock ls b)))); [|lia].
  assert (Hl2 : ∀ s, length (tcp_sockets (st_tcp (put_sock c s b))) = NET_TCP_SOCKET_MAX).
  { intros s. cbn. by rewrite length_insert. }
  rewrite !sock_put by (rewrite ?Hl2; lia). split; repeat case_decide; done.
Qed.

(** ** The two sides *)

Lemma find_socket_sockets p st st' :
  tcp_sockets (st_tcp st) = tcp_sockets (st_tcp st') → find_socket p st = find_socket p st'.
Proof. intros H. unfold find_socket. by rewrite H. Qed.

(** After its first SYN the client has one socket on its new port. *)
Lemma client_waits a a1 i address port :
  opened a a1 i address port →
  ∃ lp, is_u16 lp ∧
    let s := connecting_socket (timer_ticks a) (ipv4_address (interface (n_ip (st_net a)))) lp address port in
    sock i a1 = s ∧ (i < length (tcp_sockets (st_tcp a1)))%nat ∧
    find_socket (connection_matches (remote_ip (ends s)) port lp) a1 = Some i ∧
    ∀ hz to, deliver_last hz a1 to
      = net_tcp_receive to_wire hz (local_ip (ends s)) (remote_ip (ends s)) (pending_packet (retx s)) to.
Proof.
  intros [Hi (lp & a0 & Hlp & _ & Hop)]. cbn zeta in Hop. destruct Hop as (Hsocks & Hother & ->).
  exists lp. split; [done|]. cbn zeta. set (s := connecting_socket _ _ _ _ _).
  assert (Hi0 : (i < length (tcp_sockets (st_tcp a0)))%nat) by (by rewrite Hsocks).
  split; [|split; [|split]].
  - change (sock i (put_sock i s a0) = s). by rewrite sock_put, decide_True.
  - cbn. by rewrite length_insert.
  - rewrite (find_socket_sockets _ _ (put_sock i s a0)) by done. apply find_socket_put; [done| |].
    + unfold connection_matches. cbn. by rewrite !Z.eqb_refl.
    + intros j s' Hj _. rewrite Hsocks in Hj. unfold connection_matches.
      destruct (in_use s') eqn:Hu; [|done]. pose proof (Hother j s' Hj Hu) as Hp.
      apply Z.eqb_neq in Hp. rewrite Hp. by rewrite !andb_false_r.
  - intros hz to. apply deliver_to_wire.
Qed.

(** The server's side of a connection that waits for the last ACK. *)
Lemma server_completes hz sp dp sq window b b1 ls c cs :
  tcp_inv b → is_u16 sp → is_u16 dp → is_u32 sq → is_u16 window → is_u32 (snd_nxt (snd cs)) →
  find_socket (connection_matches (remote_ip (ends cs)) sp dp) b = None →
  find_socket (listener_matches dp) b = Some ls → find_socket (λ s, negb (in_use s)) b = Some c →
  accepted_count (listening (sock ls b)) < backlog (listening (sock ls b)) →
  tcp_sockets (st_tcp b1) = <[c := cs]> (tcp_sockets (st_tcp b)) →
  connection_matches (remote_ip (ends cs)) sp dp cs = true →
  state cs = TCP_STATE_SYN_RECEIVED → parent_socket cs = Z.of_nat ls →
  let b2 := net_tcp_receive to_wire hz (remote_ip (ends cs)) (local_ip (ends cs))
    (tcp_segment (remote_ip (ends cs)) sp (local_ip (ends cs)) dp sq (snd_nxt (snd cs)) 5 TCP_FLAG_ACK window [])
    b1 in
  sock c b2 = set_state TCP_STATE_ESTABLISHED (set_snd_una (snd_nxt (snd cs)) cs)
  ∧ sock ls b2 = enqueue_accepted c (sock ls b).
Proof.
  intros [Hlen _] Hsp Hdp Hsq Hw Hnx Hnone Hls Hfree Hq Hb1 Hm Hst Hpar. cbn zeta.
  apply find_socket_lookup in Hfree as [Hc Hcu%negb_true_iff].
  apply find_socket_lookup in Hls as [Hl Hlu]. unfold listener_matches in Hlu.
  repeat (apply andb_prop in Hlu as [Hlu ?]).
  assert (Hne : c ≠ ls) by (intros ->; congruence).
  apply lookup_lt_Some in Hc, Hl.
  assert (Hsc : sock c b1 = cs) by (unfold sock; by rewrite Hb1, list_lookup_insert_eq).
  assert (Hsl : sock ls b1 = sock ls b) by (unfold sock; by rewrite Hb1, list_lookup_insert_ne).
  destruct (receive_final_ack hz (remote_ip (ends cs)) (local_ip (ends cs)) sp dp sq (snd_nxt (snd cs))
    window b1 c) as (g & G1 & G2 & ->); try done; [|by rewrite Hsc|by rewrite Hsc|].
  { unfold find_socket. rewrite Hb1. apply (find_index_unique _ 0 _ c cs);
      [by apply list_lookup_insert_eq|done|].
    intros j s' Hj Hjc. rewrite list_lookup_insert_ne in Hj by done.
    unfold find_socket in Hnone. rewrite find_index_none in Hnone. by eapply Forall_lookup_1 in Hnone. }
  destruct (on_syn_received_spec c g (count_received b1) ls) as [-> ->]; cbn [count_received st_tcp tcp_sockets];
    rewrite ?Hb1, ?length_insert; try done;
    change (sock c (count_received b1)) with (sock c b1); change (sock ls (count_received b1)) with (sock ls b1);
    rewrite ?Hsc, ?Hsl; try done. by rewrite G1.
Qed.

Definition agree (s cs : tcp_socket) : Prop :=
  state s = TCP_STATE_ESTABLISHED ∧ state cs = TCP_STATE_ESTABLISHED
  ∧ local_ip (ends s) = remote_ip (ends cs) ∧ local_port (ends s) = remote_port (ends cs)
  ∧ remote_ip (ends s) = local_ip (ends cs) ∧ remote_port (ends s) = local_port (ends cs)
  ∧ snd_nxt (snd s) = rcv_nxt (rcv cs) ∧ snd_una (snd s) = snd_nxt (snd s)
  ∧ snd_nxt (snd cs) = rcv_nxt (rcv s) ∧ snd_una (snd cs) = snd_nxt (snd cs)
  ∧ mss s = mss cs ∧ retransmit_pending (retx s) = false ∧ contents (rx s) = [] ∧ contents (rx cs) = [].

(** C32: A client that starts to connect to a port on which a listener with room in
    its queue waits, and whose three segments are exchanged in order, ends up
    established, and so does the server's new socket: each side's next sequence
    number is what the other expects, everything sent is acknowledged, nothing
    is left to retransmit, the endpoints mirror each other, and the listener's
    queue has the new connection at its end. *)
Theorem tcp_handshake hz address port a b a1 i ls c :
  tcp_inv a → tcp_inv b → is_u16 port →
  connect_start to_wire address port a = (a1, Some i) →
  find_socket (connection_matches (local_ip (ends (sock i a1))) (local_port (ends (sock i a1))) port) b = None →
  find_socket (listener_matches port) b = Some ls →
  find_socket (λ s, negb (in_use s)) b = Some c →
  accepted_count (listening (sock ls b)) < backlog (listening (sock ls b)) →
  let b1 := deliver_last hz a1 b in
  let a2 := deliver_last hz b1 a1 in
  let b2 := deliver_last hz a2 b1 in
  agree (sock i a2) (sock c b2) ∧ sock ls b2 = enqueue_accepted c (sock ls b).
Proof.
  intros Ha Hb Hport Hcs Hnone Hlisten Hfree Hq. cbn zeta.
  apply connect_start_opened in Hcs as Hop; [|done].
  apply client_waits in Hop as (lp & Hlp & Hsa & Hi & Hfind & Hdel).
  pose proof (connecting_ok (timer_ticks a) (ipv4_address (interface (n_ip (st_net a)))) lp address port) as Hcok.
  set (s := connecting_socket _ _ _ _ _) in *. rewrite Hsa in Hnone. rewrite Hdel.
  destruct (receive_syn hz (local_ip (ends s)) (remote_ip (ends s)) lp port (snd_isn (snd s)) b ls c)
    as (b0 & Hb0 & Hrx); [done|done|apply Hcok|done|done|done|done|].
  change (tcp_segment _ _ _ _ _ _ _ TCP_FLAG_SYN _ _) with (pending_packet (retx s)) in *.
  set (cs := child_socket _ _ _ _) in *. rewrite Hrx, deliver_to_wire.
  destruct (receive_syn_ack hz (remote_ip (ends s)) (local_ip (ends s)) port lp (snd_isn (snd cs))
    (rcv_nxt (rcv cs)) a1 i) as (s2 & a3 & Ha3 & S1 & S2 & S3 & S4 & S5 & S6 & S7 & S8 & ->);
    try done; try (rewrite Hsa; done); try apply u32_range.
  rewrite Hsa in S2, S8. rewrite deliver_to_wire, S2.
  destruct (server_completes hz lp port (rcv_nxt (rcv cs)) (receive_window s2) b
    (to_wire 6 (remote_ip (ends s)) (local_ip (ends s))
       (tcp_segment (remote_ip (ends s)) port (local_ip (ends s)) lp (snd_isn (snd cs)) (rcv_nxt (rcv cs)) 6
          (Z.lor TCP_FLAG_SYN TCP_FLAG_ACK) TCP_RX_BUFFER_CAPACITY mss_option) b0).1 ls c cs) as [Hsc Hsl];
    try done; try apply u32_range; try apply u16_range.
  { cbn [to_wire fst st_tcp]. by rewrite Hb0. }
  { unfold connection_matches. cbn. by rewrite !Z.eqb_refl. }
  split; [|exact Hsl].
  match goal with |- agree ?x ?y => assert (x = s2) as -> end.
  { unfold sock. cbn [to_wire fst st_tcp]. rewrite Ha3.
    change (sock i (put_sock i s2 (count_received a1)) = s2). by rewrite sock_put, decide_True. }
  match goal with |- agree ?x ?y => replace y with (set_state TCP_STATE_ESTABLISHED
    (set_snd_una (snd_nxt (snd cs)) cs)) end.
  unfold agree. rewrite S1, S2, S3, S4, S5, S6, S7, S8. sock_fields. split_and!; reflexivity.
Qed.

Lemma tcp_handshake_witness :
  let a1 := (connect_start to_wire 0x0a000202 80 boot).1 in
  let b := (tcp_listen 80 4 boot).1 in
  let b1 := deliver_last 100 a1 b in
  let a2 := deliver_last 100 b1 a1 in
  let b2 := deliver_last 100 a2 b1 in
  agree (sock 0 a2) (sock 1 b2) ∧ sock 0 b2 = enqueue_accepted 1 (sock 0 b).
Proof.
  cbn zeta. apply (tcp_handshake 100 0x0a000202 80 boot (tcp_listen 80 4 boot).1
    (connect_start to_wire 0x0a000202 80 boot).1 0 0 1).
  - apply boot_inv.
  - apply listen_inv, boot_inv.
  - unfold is_u16. lia.
  - vm_compute. reflexivity.
  - vm_compute. reflexivity.
  - vm_compute. reflexivity.
  - vm_compute. reflexivity.
  - vm_compute. reflexivity.
Defined.
