(* ===== verification/TcpReturn.v ===== *)
(** * The blocking TCP calls return (src/net/tcp.c)

    Whatever the network does, [tcp_connect], [tcp_send], [tcp_receive] and
    [tcp_close] come back, and the clock says when: every wait ends one round
    after its deadline at the latest, and every round of [tcp_send] moves at
    least one byte.  A round is [net_poll] and a [hlt], which any interrupt ends:
    it may last no tick at all, so the number of rounds is not bounded in
    advance.  What is assumed is that the timer goes on. *)

From Stdlib Require Import ZArith Lia.
From stdpp Require Import gmap.
From S2P Require Import Prelude Inet NetState Tcp TcpSpec TcpInv.

#[local] Open Scope Z_scope.

(** A loop with fuel comes back: from some fuel on it has one result, and the
    result satisfies [P]. *)
Definition returns {A} (call : nat → option A) (P : A → Prop) : Prop :=
  ∃ n a, P a ∧ ∀ fuel, (n ≤ fuel)%nat → call fuel = Some a.

Lemma returns_now {A} (a : A) (P : A → Prop) : P a → returns (λ _, Some a) P.
Proof. intros H. by exists O, a. Qed.

Lemma returns_impl {A} (call : nat → option A) (P Q : A → Prop) :
  returns call P → (∀ a, P a → Q a) → returns call Q.
Proof. intros (n & a & H & Hc) HPQ. exists n, a. auto. Qed.

Section Return.
  Context (net_ipv4_send_from : Z → Z → Z → list Z → stack → stack * bool).
  Context (net_poll cpu_wait_for_interrupt : stack → stack).
  Context (timer_frequency_hz : Z).

  Context (Hsend : ∀ p src dst packet st, Z.of_nat (length packet) ≤ TCP_SEGMENT_MAX →
    Forall is_u8 packet → tcp_inv st → tcp_inv (net_ipv4_send_from p src dst packet st).1).
  Context (Hpoll : ∀ st, tcp_inv st → tcp_inv (net_poll st)).
  Context (Hwait : ∀ st, tcp_inv st → tcp_inv (cpu_wait_for_interrupt st)).

  (** The clock never goes back, and [D] ticks are enough to send a packet, to
      poll the network, and for some interrupt to end a [hlt]. *)
  Context (D : Z) (HD : 0 ≤ D ≤ 4294967296).
  Context (Hsend_tick : ∀ p src dst packet st,
    timer_ticks st ≤ timer_ticks (net_ipv4_send_from p src dst packet st).1 ≤ timer_ticks st + D).
  Context (Hpoll_tick : ∀ st, timer_ticks st ≤ timer_ticks (net_poll st) ≤ timer_ticks st + D).
  Context (Hwait_tick : ∀ st,
    timer_ticks st ≤ timer_ticks (cpu_wait_for_interrupt st) ≤ timer_ticks st + D).
  Context (Hhz : 0 ≤ timer_frequency_hz < 4294967296).

(** One round of a wait. *)
Definition round (st : stack) : stack := cpu_wait_for_interrupt (net_poll st).

  (** The timer goes on: in enough rounds the clock advances. *)
  Context (Htimer : ∀ st, ∃ n, timer_ticks st < timer_ticks (Nat.iter n round st)).

Abbreviation wait := (wait_loop net_poll cpu_wait_for_interrupt).

(** What the checks of the waits do not do: change the state and go on, or take
    time. *)
Definition harmless {A} (check : stack → stack * option A) : Prop :=
  ∀ st, timer_ticks (check st).1 = timer_ticks st ∧ ((check st).2 = None → (check st).1 = st).

(** The clock when a wait from [start] has returned. *)
Definition before (start limit : Z) {A} (r : stack * A) : Prop := start ≤ timer_ticks r.1 ≤ limit.

Lemma round_tick st : timer_ticks st ≤ timer_ticks (round st) ≤ timer_ticks st + 2 * D.
Proof. unfold round. pose proof (Hpoll_tick st). pose proof (Hwait_tick (net_poll st)). lia. Qed.

(** One round: the loop is over, or it goes on after [round]. *)
Lemma wait_round {A} start timeout (check : stack → stack * option A) st :
  harmless check → 0 ≤ timeout < 2 ^ 40 → start ≤ timer_ticks st ≤ start + timeout + 2 * D →
  (timer_ticks st < start + timeout →
   returns (λ fuel, wait fuel start timeout check (round st)) (before start (start + timeout + 2 * D))) →
  returns (λ fuel, wait fuel start timeout check st) (before start (start + timeout + 2 * D)).
Proof.
  change (2 ^ 40) with 1099511627776. intros Hc Ht Hst Hgo.
  assert (u64 (timer_ticks st - start) = timer_ticks st - start) as Hu
    by (apply u64_small; unfold is_u64, W64; lia).
  destruct (Hc (net_poll st)) as [Hck Hnone]. pose proof (Hpoll_tick st) as Hp.
  destruct (Z.ltb_spec (timer_ticks st - start) timeout) as [Hlt|Hge].
  - destruct (check (net_poll st)) as [st1 [a|]] eqn:E; cbn [fst] in Hck.
    + exists 1%nat, (st1, Some a). split; [unfold before; cbn; lia|].
      intros [|fuel] Hf; [lia|]. cbn [wait_loop]. rewrite Hu, E. by destruct (Z.ltb_spec (timer_ticks st - start) timeout); [|lia].
    + destruct Hgo as (n & r & Hr & Hn); [lia|]. exists (S n), r. split; [done|].
      intros [|fuel] Hf; [lia|]. cbn [wait_loop]. rewrite Hu, E.
      destruct (Z.ltb_spec (timer_ticks st - start) timeout); [|lia].
      cbn [fst snd] in Hnone. rewrite Hnone by done. apply Hn. lia.
  - exists 1%nat, (st, None). split; [unfold before; cbn; lia|].
    intros [|fuel] Hf; [lia|]. cbn [wait_loop]. rewrite Hu. by destruct (Z.ltb_spec (timer_ticks st - start) timeout); [lia|].
Qed.

(** The loop returns from every moment of the wait: by induction on the time that
    is left and, while the clock stands still, on the rounds until it moves. *)
Lemma wait_loop_from {A} start timeout (check : stack → stack * option A) st :
  harmless check → 0 ≤ timeout < 2 ^ 40 → start ≤ timer_ticks st ≤ start + timeout + 2 * D →
  returns (λ fuel, wait fuel start timeout check st) (before start (start + timeout + 2 * D)).
Proof.
  intros Hc Ht. remember (Z.to_nat (start + timeout + 2 * D - timer_ticks st)) as left eqn:El.
  revert st El. induction left as [left IH] using lt_wf_ind. intros st -> Hst.
  destruct (Htimer st) as [n Hn]. revert st Hst IH Hn. induction n as [|n IHn]; intros st Hst IH Hn;
    [cbn in Hn; lia|].
  apply wait_round; [done|done|done|]. intros Hlt. pose proof (round_tick st) as Hr.
  rewrite Nat.iter_succ_r in Hn.
  destruct (Z.eq_dec (timer_ticks (round st)) (timer_ticks st)) as [Heq|Hne].
  - apply IHn; rewrite ?Heq; [lia|exact IH|exact Hn].
  - eapply IH; [|reflexivity|]; lia.
Qed.

Lemma wait_five {A} k (check : stack → stack * option A) st :
  harmless check → 0 ≤ k ≤ 5 →
  returns (λ fuel, wait fuel (timer_ticks st) (u64 (timer_frequency_hz * k)) check st)
    (before (timer_ticks st) (timer_ticks st + timer_frequency_hz * k + 2 * D)).
Proof.
  intros Hc Hk. rewrite u64_small by (unfold is_u64, W64; nia).
  apply wait_loop_from; [done|change (2 ^ 40) with 1099511627776; nia|nia].
Qed.

Lemma connect_check_harmless i : harmless (connect_check i).
Proof. intros st. unfold connect_check. by destruct (state _). Qed.

Lemma send_check_harmless i sq size : harmless (send_check i sq size).
Proof. intros st. unfold send_check. cbn zeta. by repeat case_match. Qed.

Lemma receive_check_harmless i : harmless (receive_check i).
Proof. done. Qed.

Lemma close_check_harmless i ends : harmless (close_check i ends).
Proof. done. Qed.

(** A call that waits once: what it makes of the result of the wait. *)
Ltac after_wait W :=
  let n := fresh "n" in let st2 := fresh "st" in let o := fresh "o" in
  let Hb := fresh "Hb" in let Hn := fresh "Hn" in
  destruct W as (n & [st2 o] & Hb & Hn); unfold before in Hb; cbn [fst] in Hb;
  exists n; match type of o with option bool => destruct o as [[|]|] | _ => destruct o end; eexists; (split; [|intros fuel Hf; rewrite (Hn fuel Hf); reflexivity]).

(** ** The calls *)

(** The moment of return of a call made at [st] that may take [limit] ticks. *)
Definition within {A} (st : stack) (limit : Z) (r : stack * A) : Prop :=
  timer_ticks st ≤ timer_ticks r.1 ≤ timer_ticks st + limit.

Lemma transmit_tick a b c d e f g h opts payload st :
  timer_ticks st ≤ timer_ticks (tcp_transmit_segment net_ipv4_send_from a b c d e f g h opts payload st).1
    ≤ timer_ticks st + D.
Proof.
  unfold tcp_transmit_segment. cbn zeta. destruct (_ >? _); cbn [fst]; [lia|].
  match goal with |- context [net_ipv4_send_from ?p ?s ?d ?pk ?x] => pose proof (Hsend_tick p s d pk x) as H end.
  exact H.
Qed.

Lemma connect_start_tick address port st :
  within st D (connect_start net_ipv4_send_from address port st).
Proof.
  unfold connect_start, within. cbn zeta. destruct (_ || _ || _); [cbn; lia|].
  destruct (find_socket _ st) as [i|]; [|cbn; lia].
  assert (Hport : timer_ticks (allocate_tcp_port_locked st).1 = timer_ticks st).
  { unfold allocate_tcp_port_locked. generalize (Z.to_nat 16384) as attempts. intros attempts.
    clear. revert st. induction attempts as [|attempts IH]; intros st; [done|]. cbn [allocate_port_loop].
    cbn zeta. destruct (port_in_use _ _); [by rewrite IH|done]. }
  destruct (allocate_tcp_port_locked st) as [st1 p]. cbn [fst] in Hport. destruct (p =? 0); [cbn; lia|]. cbn [fst].
  match goal with |- context [net_ipv4_send_from ?p ?s ?d ?pk ?x] => pose proof (Hsend_tick p s d pk x) as H end.
  rewrite <- Hport. exact H.
Qed.

Lemma connect_returns address port st :
  returns (λ fuel, tcp_connect net_ipv4_send_from net_poll cpu_wait_for_interrupt timer_frequency_hz fuel
    address port st) (within st (timer_frequency_hz * 5 + 3 * D)).
Proof.
  unfold tcp_connect, within. pose proof (connect_start_tick address port st) as H1. unfold within in H1.
  destruct (connect_start _ address port st) as [st1 [i|]]; cbn [fst] in H1; [|apply returns_now; cbn; lia].
  destruct (bool_decide _); [apply returns_now; cbn; lia|].
  after_wait (wait_five 5 (connect_check i) st1 (connect_check_harmless i) ltac:(lia)); cbn [fst].
  - lia.
  - change (timer_ticks (update_sock _ _ ?s)) with (timer_ticks s). lia.
Qed.

Lemma send_chunk_returns i chunk st :
  returns (λ fuel, send_chunk net_ipv4_send_from net_poll cpu_wait_for_interrupt timer_frequency_hz fuel i chunk st)
    (within st (timer_frequency_hz * 5 + 3 * D)).
Proof.
  unfold send_chunk, within. cbn zeta. set (st0 := count_sent _).
  match goal with |- context [net_ipv4_send_from ?p ?s ?d ?pk st0] =>
    pose proof (Hsend_tick p s d pk st0) as H1; set (st1 := (net_ipv4_send_from p s d pk st0).1) in * end.
  change (timer_ticks st0) with (timer_ticks st) in H1.
  destruct (chunk_acked _ _ _).
  { apply returns_now. cbn [fst]. change (timer_ticks (update_sock _ _ st1)) with (timer_ticks st1). lia. }
  match goal with |- context [wait_loop _ _ _ _ _ (send_check ?a ?b ?c) _] =>
    after_wait (wait_five 5 (send_check a b c) st1 (send_check_harmless a b c) ltac:(lia)) end; cbn [fst].
  1: lia.
  all: change (timer_ticks (update_sock _ _ ?s)) with (timer_ticks s); lia.
Qed.

(** The value of a successful or partial [tcp_send]. *)
Definition sent_ok (size r : Z) : Prop := r = -1 ∨ 0 < r ≤ size.

Lemma int_cast_small z : 0 ≤ z < 2147483648 → s32 z = z.
Proof. intros Hz. unfold s32, u32. rewrite Z.mod_small by lia. destruct (Z.ltb_spec z 2147483648); lia. Qed.

Lemma sent_or_error_ok z n : 0 ≤ z → 0 ≤ n → z + n < 2147483648 → sent_ok (z + n) (sent_or_error z).
Proof.
  intros Hz Hn Hb. unfold sent_or_error, sent_ok. rewrite Z.gtb_ltb.
  destruct (Z.ltb_spec 0 z); [right; rewrite int_cast_small by lia; lia|by left].
Qed.

(** At most one segment per byte. *)
Lemma send_loop_returns rounds i data sent st :
  Forall is_u8 data → tcp_inv st → (length data ≤ rounds)%nat → 0 ≤ sent →
  sent + Z.of_nat (length data) < 2147483648 → (0 < sent ∨ data ≠ []) →
  returns (λ fuel, send_loop net_ipv4_send_from net_poll cpu_wait_for_interrupt timer_frequency_hz rounds fuel
    i data sent st) (λ r, sent_ok (sent + Z.of_nat (length data)) r.2
    ∧ within st (Z.of_nat (length data) * (timer_frequency_hz * 5 + 3 * D)) r).
Proof.
  unfold within. revert data sent st. induction rounds as [|rounds IH]; intros [|b data] sent st Hb Hi Hr Hs Hbig Hor;
    cbn [send_loop]; [|cbn in Hr; lia| |].
  1, 2: apply returns_now; (split; [|cbn; lia]); right; cbn; rewrite int_cast_small by (cbn in Hbig; lia);
    destruct Hor; [cbn in *; lia|done].
  destruct (negb (in_use (sock i st)) || negb (may_transfer (sock i st))) eqn:E.
  { apply returns_now. split; [apply sent_or_error_ok; lia|cbn [fst]; nia]. }
  apply orb_false_elim in E as [Hu%negb_false_iff Ht%negb_false_iff].
  pose proof (sock_inv i st Hi) as Hok.
  assert (Hl : is_listening (sock i st) = false).
  { apply not_listening; [done|done|]. intros Es. unfold may_transfer in Ht. by rewrite Es in Ht. }
  pose proof (next_chunk_range (sock i st) (Z.of_nat (length (b :: data))) Hok Hu Hl ltac:(cbn; lia)) as Hn.
  cbn zeta. set (size := next_chunk _ _) in *. set (l := b :: data) in *. clearbody l.
  destruct (send_chunk_returns i (take (Z.to_nat size) l) st) as (n & [st1 ok] & Hin & Hsc).
  unfold within in Hin. cbn [fst] in Hin.
  assert (Hi1 : tcp_inv st1).
  { specialize (Hsc n ltac:(lia)). eapply send_chunk_inv in Hsc; try done; [|by apply Forall_take].
    rewrite length_take_le by lia. pose proof (ok_mss _ Hok). lia. }
  destruct ok.
  - destruct (IH (drop (Z.to_nat size) l) (sent + size) st1) as (m & [st2 r] & [Hr2 Ht2] & Hm);
      [by apply Forall_drop|done|rewrite length_drop; lia|lia|rewrite length_drop; lia|left; lia|].
    cbn [fst snd] in Hr2, Ht2. rewrite length_drop in Hr2, Ht2.
    exists (Nat.max n m), (st2, r). split; [|intros fuel Hf; rewrite Hsc by lia; apply Hm; lia].
    split; cbn [fst snd].
    + by replace (sent + size + Z.of_nat (length l - Z.to_nat size)) with (sent + Z.of_nat (length l)) in Hr2 by lia.
    + rewrite Nat2Z.inj_sub, Z2Nat.id in Ht2 by lia. nia.
  - exists n, (st1, sent_or_error sent). split; [|intros fuel Hf; by rewrite Hsc by lia].
    split; [apply sent_or_error_ok; lia|]. cbn [fst]. nia.
Qed.

Lemma send_returns id data st :
  tcp_inv st → Forall is_u8 data → Z.of_nat (length data) < 2147483648 →
  returns (λ fuel, tcp_send net_ipv4_send_from net_poll cpu_wait_for_interrupt timer_frequency_hz fuel id data st)
    (λ r, sent_ok (Z.of_nat (length data)) r.2
    ∧ within st (Z.of_nat (length data) * (timer_frequency_hz * 5 + 3 * D)) r).
Proof.
  intros Hi Hb Hl. unfold tcp_send.
  destruct (negb _); cbn [orb]; [apply returns_now; split; [by left|unfold within; cbn [fst]; nia]|].
  case_bool_decide; [apply returns_now; split; [by left|unfold within; cbn [fst]; nia]|].
  apply (send_loop_returns (length data) (Z.to_nat id) data 0 st); [done|done|lia|lia|lia|by right].
Qed.

Lemma receive_take_tick i capacity st : within st D (receive_take net_ipv4_send_from i capacity st).
Proof.
  unfold receive_take, within. cbn zeta. destruct (negb _); [cbn; lia|].
  destruct (ring_pop _ _) as [data r]. cbn [fst]. unfold ack_if. destruct (_ && _).
  - unfold tcp_send_ack. cbn zeta.
    match goal with |- context [tcp_transmit_segment _ ?a ?b ?c ?d ?e ?f ?g ?h ?o ?p ?s] =>
      exact (transmit_tick a b c d e f g h o p s) end.
  - match goal with |- context [timer_ticks (put_sock ?i ?s st)] =>
      change (timer_ticks (put_sock i s st)) with (timer_ticks st) end. lia.
Qed.

Lemma receive_returns id capacity st :
  returns (λ fuel, tcp_receive net_ipv4_send_from net_poll cpu_wait_for_interrupt timer_frequency_hz fuel
    id capacity st) (within st (timer_frequency_hz * 5 + 3 * D)).
Proof.
  assert (H0 : ∀ r, within st (timer_frequency_hz * 5 + 3 * D) (st, r : Z * list Z)) by (intros; unfold within; cbn; lia).
  unfold tcp_receive. cbn zeta. destruct (_ || _); [by apply returns_now|]. destruct (negb _); [by apply returns_now|].
  destruct (_ =? 0); [destruct (at_end _); [by apply returns_now|]|].
  - after_wait (wait_five 5 (receive_check (Z.to_nat id)) st (receive_check_harmless _) ltac:(lia));
      pose proof (receive_take_tick (Z.to_nat id) capacity st0) as Hr; unfold within in *; lia.
  - apply returns_now. pose proof (receive_take_tick (Z.to_nat id) capacity st) as Hr. unfold within in *. lia.
Qed.

Lemma send_fin_tick i next st :
  timer_ticks st ≤ timer_ticks (send_fin net_ipv4_send_from i next st) ≤ timer_ticks st + D.
Proof.
  unfold send_fin. cbn zeta.
  match goal with |- context [tcp_transmit_segment _ ?a ?b ?c ?d ?e ?f ?g ?h ?o ?p ?s] =>
    exact (transmit_tick a b c d e f g h o p s) end.
Qed.

Lemma close_returns id st :
  returns (λ fuel, tcp_close net_ipv4_send_from net_poll cpu_wait_for_interrupt timer_frequency_hz fuel id st)
    (λ st', within st (timer_frequency_hz * 2 + 3 * D) (st', tt)).
Proof.
  assert (H0 : ∀ st', timer_ticks st' = timer_ticks st → within st (timer_frequency_hz * 2 + 3 * D) (st', tt))
    by (intros st' E; unfold within; cbn [fst]; rewrite E; lia).
  unfold tcp_close. cbn zeta. destruct (negb _); [apply returns_now; by apply H0|].
  destruct (negb _); [apply returns_now; by apply H0|].
  destruct (is_listening _); [apply returns_now; by apply H0|].
  destruct (state _); try (apply returns_now; by apply H0).
  - pose proof (send_fin_tick (Z.to_nat id) TCP_STATE_FIN_WAIT_1 st) as Hf1.
    set (st1 := send_fin _ _ _ _) in *.
    after_wait (wait_five 2 (close_check (Z.to_nat id) [TCP_STATE_CLOSED; TCP_STATE_FIN_WAIT_2]) st1
      (close_check_harmless _ _) ltac:(lia)); unfold within, release; cbn [fst];
      change (timer_ticks (update_sock _ _ ?s)) with (timer_ticks s); lia.
  - pose proof (send_fin_tick (Z.to_nat id) TCP_STATE_LAST_ACK st) as Hf1.
    set (st1 := send_fin _ _ _ _) in *.
    pose proof (wait_five 1 (close_check (Z.to_nat id) [TCP_STATE_CLOSED]) st1
      (close_check_harmless _ _) ltac:(lia)) as W.
    rewrite Z.mul_1_r, u64_small in W by (unfold is_u64, W64; lia).
    after_wait W; unfold within, release; cbn [fst];
      change (timer_ticks (update_sock _ _ ?s)) with (timer_ticks s); lia.
Qed.

(** C30: The blocking calls return, whatever arrives, and in time: with [D] the
    longest that sending a packet, polling or a [hlt] takes, [tcp_connect] and
    [tcp_receive] are back at most five seconds and [3 * D] ticks after the call,
    [tcp_close] two seconds and [3 * D] ticks, and [tcp_send] five seconds and
    [3 * D] ticks per segment (at most one segment per byte), with -1 or the
    number of bytes acknowledged, between one and the number given.  A [hlt] may
    end without a tick, any number of times; assumed is that the layers below keep
    the invariant of the socket table, that the timer goes on ([Htimer]), that the clock does not go back, and that a packet, a poll and a
    [hlt] take at most [D] ticks. *)
Theorem tcp_calls_return st :
  tcp_inv st →
  (∀ address port, returns (λ fuel, tcp_connect net_ipv4_send_from net_poll cpu_wait_for_interrupt
     timer_frequency_hz fuel address port st)
     (λ r, timer_ticks st ≤ timer_ticks r.1 ≤ timer_ticks st + timer_frequency_hz * 5 + 3 * D))
  ∧ (∀ id data, Forall is_u8 data → Z.of_nat (length data) < 2147483648 →
     returns (λ fuel, tcp_send net_ipv4_send_from net_poll cpu_wait_for_interrupt timer_frequency_hz fuel id data st)
     (λ r, (r.2 = -1 ∨ 0 < r.2 ≤ Z.of_nat (length data)) ∧
       timer_ticks st ≤ timer_ticks r.1
         ≤ timer_ticks st + Z.of_nat (length data) * (timer_frequency_hz * 5 + 3 * D)))
  ∧ (∀ id capacity, returns (λ fuel, tcp_receive net_ipv4_send_from net_poll cpu_wait_for_interrupt
     timer_frequency_hz fuel id capacity st)
     (λ r, timer_ticks st ≤ timer_ticks r.1 ≤ timer_ticks st + timer_frequency_hz * 5 + 3 * D))
  ∧ (∀ id, returns (λ fuel, tcp_close net_ipv4_send_from net_poll cpu_wait_for_interrupt
     timer_frequency_hz fuel id st)
     (λ st', timer_ticks st ≤ timer_ticks st' ≤ timer_ticks st + timer_frequency_hz * 2 + 3 * D)).
Proof.
  intros Hi. split; [|split; [|split]]; intros.
  - eapply returns_impl; [apply connect_returns|]. unfold within. intros. lia.
  - by apply send_returns.
  - eapply returns_impl; [apply receive_returns|]. unfold within. intros. lia.
  - eapply returns_impl; [apply close_returns|]. unfold within. cbn [fst]. intros. lia.
Qed.

End Return.

(** ** A network that answers nothing

    Packets are lost.  A [hlt] is ended by the network card as long as it holds a
    frame, and by the timer otherwise. *)

Definition lost (protocol source destination : Z) (packet : list Z) (st : stack) : stack * bool := (st, true).

Definition frame_or_tick (st : stack) : stack :=
  let e := n_eth (st_net st) in
  match NetState.rx e with
  | [] => next_tick st
  | _ :: frames =>
      mk_stack (st_tcp st) (set_eth (mk_ethernet (default_device e) (frames_sent e) (frames_received e)
        (frames_dropped e) (wire e) frames) (st_net st))
  end.

Lemma frame_or_tick_tick st :
  timer_ticks st ≤ timer_ticks (frame_or_tick st) ≤ timer_ticks st + 1.
Proof. unfold frame_or_tick. cbn zeta. destruct (NetState.rx _); unfold timer_ticks; cbn; lia. Qed.

Lemma frame_or_tick_goes_on st :
  ∃ n, timer_ticks st < timer_ticks (Nat.iter n (round (λ st, st) frame_or_tick) st).
Proof.
  exists (S (length (NetState.rx (n_eth (st_net st))))).
  remember (NetState.rx (n_eth (st_net st))) as frames eqn:E. revert st E.
  induction frames as [|f frames IH]; intros st E; rewrite Nat.iter_succ_r; cbn [length].
  - unfold round, frame_or_tick. cbn zeta. rewrite <- E. unfold timer_ticks. cbn. lia.
  - unfold round at 2, frame_or_tick at 2. cbn zeta. rewrite <- E. exact (IH (mk_stack _ (set_eth (mk_ethernet _ _ _ _ _ frames) _)) eq_refl).
Qed.

(** Three frames wait in the card; no one answers the SYN, and [tcp_connect]
    gives up. *)
Definition busy_boot : stack :=
  mk_stack tcp_boot (set_eth (mk_ethernet None 0 0 0 [] [[]; []; []]) boot_net).

Lemma tcp_calls_return_witness :
  returns (λ fuel, tcp_connect lost (λ st, st) frame_or_tick 100 fuel 0x0a00020f 80 busy_boot)
    (λ r, 7 ≤ timer_ticks r.1 ≤ 7 + 100 * 5 + 3 * 1)
  ∧ option_map (λ r, r.2) (tcp_connect lost (λ st, st) frame_or_tick 100 505 0x0a00020f 80 busy_boot) = Some (-1).
Proof.
  split; [|vm_compute; reflexivity].
  apply (tcp_calls_return lost (λ st, st) frame_or_tick 100
    (λ p src dst packet st Hl Hb H, H) (λ st H, H)) with (st := busy_boot).
  - intros st H. unfold frame_or_tick. cbn zeta. by destruct (NetState.rx _).
  - lia.
  - intros. cbn. lia.
  - intros. lia.
  - apply frame_or_tick_tick.
  - lia.
  - apply frame_or_tick_goes_on.
  - apply boot_inv.
Defined.

(** ** Two limits

    [next_tcp_port] has 16 bits, so the test against the end of the ephemeral
    range never fires: after port 65535 the allocator continues with 0, which
    [tcp_connect] takes for a failure, and then with the well-known ports. *)
Example port_allocator_wraps :
  let st := set_next_port 65535 boot in
  let '(st1, p1) := allocate_tcp_port_locked st in
  let '(st2, p2) := allocate_tcp_port_locked st1 in
  let '(st3, p3) := allocate_tcp_port_locked st2 in (p1, p2, p3) = (65535, 0, 1).
Proof. vm_compute. reflexivity. Qed.

(** Acknowledgements are compared as integers, not modulo 2^32: when the numbers
    pass 2^32 an acknowledgement of all data is ignored. *)
Example ack_across_wrap_ignored :
  let s := set_snd (mk_snd 4294967290 4 4294967289 8192) tcp_socket_zero in
  let g := mk_segment 0 0 0 0 0 4 20 TCP_FLAG_ACK 8192 (replicate 20 0) in
  snd_una (snd (take_ack 100 0 g s)) = 4294967290.
Proof. vm_compute. reflexivity. Qed.

(** ... and [tcp_send] waits for a number that 32 bits cannot hold. *)
Example chunk_across_wrap_never_acked (s : tcp_socket) :
  is_u32 (snd_una (snd s)) → chunk_acked 4294967290 10 s = false.
Proof. unfold is_u32, chunk_acked. intros H. rewrite Z.geb_leb. apply Z.leb_gt. lia. Qed.
