(* ===== verification/Bytes.v ===== *)
(** * Little-endian fields

    The processor is little-endian: a field of a packed structure that is laid
    over a buffer is the little-endian value of its bytes.  Shared by the on-disk
    formats (partition tables, FAT32, executables, packages). *)

From Stdlib Require Import ZArith Lia.
From stdpp Require Import gmap.
From S2P Require Import Prelude Inet.
#[local] Open Scope Z_scope.

Fixpoint le_int (l : list Z) : Z :=
  match l with [] => 0 | b :: l => b + 256 * le_int l end.

(** The bytes [off .. off + n) of a buffer. *)
Definition slice (data : list Z) (off : Z) (n : nat) : list Z := take n (drop (Z.to_nat off) data).

Definition u8_at (data : list Z) (off : Z) : Z := le_int (slice data off 1).
Definition u16_at (data : list Z) (off : Z) : Z := le_int (slice data off 2).
Definition u32_at (data : list Z) (off : Z) : Z := le_int (slice data off 4).
Definition u64_at (data : list Z) (off : Z) : Z := le_int (slice data off 8).

(** The [n] bytes that hold a value. *)
Fixpoint le_bytes (n : nat) (v : Z) : list Z :=
  match n with O => [] | S n => v mod 256 :: le_bytes n (v / 256) end.

(** A buffer in which the bytes from [off] on are replaced. *)
Definition splice (data : list Z) (off : Z) (bs : list Z) : list Z :=
  take (Z.to_nat off) data ++ bs ++ drop (Z.to_nat off + length bs) data.

(** The string a buffer holds. *)
Fixpoint cstring (buf : list Z) : list Z :=
  match buf with c :: buf => if c =? 0 then [] else c :: cstring buf | [] => [] end.

(** ** Lemmas *)

Lemma length_le_bytes n : ∀ v, length (le_bytes n v) = n.
Proof. induction n as [|n IH]; intros v; simpl; [done|by rewrite IH]. Qed.

Lemma le_bytes_u8 n : ∀ v, Forall is_u8 (le_bytes n v).
Proof.
  induction n as [|n IH]; intros v; simpl; [constructor|]. constructor; [|done]. apply Z.mod_pos_bound. lia.
Qed.

Lemma le_int_bound l : Forall is_u8 l → 0 ≤ le_int l < 256 ^ Z.of_nat (length l).
Proof.
  induction 1 as [|b l Hb _ IH]; cbn [le_int length]; [done|].
  rewrite Nat2Z.inj_succ, Z.pow_succ_r by lia. unfold is_u8 in Hb. lia.
Qed.

Lemma le_int_bytes n : ∀ v, 0 ≤ v < 256 ^ Z.of_nat n → le_int (le_bytes n v) = v.
Proof.
  induction n as [|n IH]; intros v Hv; cbn [le_bytes le_int].
  - simpl in Hv. lia.
  - rewrite Nat2Z.inj_succ, Z.pow_succ_r in Hv by lia. rewrite IH; [|split; [apply Z.div_pos; lia|apply Z.div_lt_upper_bound; lia]].
    pose proof (Z.div_mod v 256). lia.
Qed.

Lemma le_int_inj l : ∀ k, Forall is_u8 l → Forall is_u8 k → length l = length k → le_int l = le_int k → l = k.
Proof.
  induction l as [|a l IH]; intros [|b k] Hl Hk Hlen; cbn [le_int]; try done.
  apply Forall_cons in Hl as [Ha Hl]. apply Forall_cons in Hk as [Hb Hk]. unfold is_u8 in Ha, Hb. intros E.
  assert (a = b) as -> by lia. f_equal. apply IH; try done; [simpl in Hlen; lia|lia].
Qed.

Lemma slice_u8 data off n : Forall is_u8 data → Forall is_u8 (slice data off n).
Proof. intros H. by apply Forall_take, Forall_drop. Qed.

Lemma length_slice_le data off n : (length (slice data off n) ≤ n)%nat.
Proof. unfold slice. rewrite length_take. lia. Qed.

Lemma slice_le_int_bound data off n : Forall is_u8 data → 0 ≤ le_int (slice data off n) < 256 ^ Z.of_nat n.
Proof.
  intros H. pose proof (le_int_bound _ (slice_u8 data off n H)) as [H0 H1]. split; [done|].
  pose proof (length_slice_le data off n). eapply Z.lt_le_trans; [exact H1|]. apply Z.pow_le_mono_r; lia.
Qed.

Lemma u8_at_range data off : Forall is_u8 data → 0 ≤ u8_at data off < 256.
Proof. apply (slice_le_int_bound data off 1). Qed.
Lemma u16_at_range data off : Forall is_u8 data → 0 ≤ u16_at data off < 65536.
Proof. apply (slice_le_int_bound data off 2). Qed.
Lemma u32_at_range data off : Forall is_u8 data → 0 ≤ u32_at data off < 4294967296.
Proof. apply (slice_le_int_bound data off 4). Qed.
Lemma u64_at_range data off : Forall is_u8 data → 0 ≤ u64_at data off < W64.
Proof. apply (slice_le_int_bound data off 8). Qed.

Lemma length_slice_full data off n :
  0 ≤ off → off + Z.of_nat n ≤ Z.of_nat (length data) → length (slice data off n) = n.
Proof. intros. unfold slice. rewrite length_take, length_drop. lia. Qed.

Lemma length_splice data off bs :
  0 ≤ off → off + Z.of_nat (length bs) ≤ Z.of_nat (length data) → length (splice data off bs) = length data.
Proof. intros. unfold splice. rewrite !length_app, length_take, length_drop. lia. Qed.

Lemma splice_u8 data off bs : Forall is_u8 data → Forall is_u8 bs → Forall is_u8 (splice data off bs).
Proof.
  intros Hd Hb. unfold splice. rewrite !Forall_app. split; [by apply Forall_take|]. split; [done|by apply Forall_drop].
Qed.

(** The bytes of a buffer after a store. *)
Lemma lookup_splice data off bs i :
  0 ≤ off → off + Z.of_nat (length bs) ≤ Z.of_nat (length data) →
  splice data off bs !! i =
    if decide (Z.to_nat off ≤ i < Z.to_nat off + length bs)%nat then bs !! (i - Z.to_nat off)%nat else data !! i.
Proof.
  intros H0 Hl. unfold splice. set (o := Z.to_nat off).
  assert (length (take o data) = o) as Hlen by (rewrite length_take; lia).
  destruct (decide (i < o)%nat) as [Hlt|Hge].
  - rewrite lookup_app_l by lia. rewrite lookup_take_lt by lia. by rewrite decide_False by lia.
  - rewrite lookup_app_r, Hlen by lia. case_decide.
    + by rewrite lookup_app_l by lia.
    + rewrite lookup_app_r by lia. rewrite lookup_drop. f_equal. lia.
Qed.

Lemma lookup_slice data off n i :
  slice data off n !! i = if decide (i < n)%nat then data !! (Z.to_nat off + i)%nat else None.
Proof. unfold slice. case_decide; [by rewrite lookup_take_lt, lookup_drop|by rewrite lookup_take_ge by lia]. Qed.

(** Reading a field back, and reading another one. *)
Lemma slice_splice_same data off bs :
  0 ≤ off → off + Z.of_nat (length bs) ≤ Z.of_nat (length data) → slice (splice data off bs) off (length bs) = bs.
Proof.
  intros H0 Hl. apply list_eq. intros i. rewrite lookup_slice. case_decide.
  - rewrite lookup_splice by done. rewrite decide_True by lia. f_equal. lia.
  - symmetry. apply lookup_ge_None. lia.
Qed.

Lemma slice_splice_other data off bs off' n :
  0 ≤ off → 0 ≤ off' → off + Z.of_nat (length bs) ≤ Z.of_nat (length data) →
  (off' + Z.of_nat n ≤ off ∨ off + Z.of_nat (length bs) ≤ off') → slice (splice data off bs) off' n = slice data off' n.
Proof.
  intros H0 H0' Hl Hd. apply list_eq. intros i. rewrite !lookup_slice. case_decide; [|done].
  rewrite lookup_splice by done. by rewrite decide_False by lia.
Qed.

Lemma cstring_nonzero s : Forall (λ c, c ≠ 0) s → cstring s = s.
Proof. induction 1 as [|c s Hc _ IH]; [done|]. cbn. by rewrite (proj2 (Z.eqb_neq c 0)), IH. Qed.

Lemma cstring_app s t : Forall (λ c, c ≠ 0) s → cstring (s ++ 0 :: t) = s.
Proof. induction 1 as [|c s Hc _ IH]; [done|]. cbn. by rewrite (proj2 (Z.eqb_neq c 0)), IH. Qed.

(** A part of a concatenation. *)
Lemma slice_app a b c off n :
  off = Z.of_nat (length a) → n = length b → slice (a ++ b ++ c) off n = b.
Proof. intros -> ->. unfold slice. rewrite Nat2Z.id, drop_app_length. by rewrite take_app_length. Qed.

Lemma slice_slice data off n off' n' :
  0 ≤ off → 0 ≤ off' → (Z.to_nat off' + n' ≤ n)%nat → slice (slice data off n) off' n' = slice data (off + off') n'.
Proof.
  intros H0 H1 Hn. apply list_eq. intros i. rewrite !lookup_slice. case_decide; [|done].
  rewrite decide_True by lia. f_equal. lia.
Qed.
