(* ===== verification/Format.v ===== *)
(** * String formatter (src/kernel/log.c, section 1)

    [kvsnprintf] writes into a buffer of bytes.  A C string is the list of its
    characters before the terminator, [None] is NULL.  The variable arguments
    are a list; [None] as a result means undefined behaviour of the C code: an
    argument that is missing or of another kind, a width or a precision beyond
    [INT_MAX], or a format that ends inside a conversion (the loop then steps over
    the terminator). *)

From Stdlib Require Import ZArith Lia.
From Stdlib Require Ascii String.
From stdpp Require Import gmap.
From S2P Require Import Prelude.
#[local] Open Scope Z_scope.

(** The characters of a string literal. *)
Definition ascii (s : String.string) : list Z := (λ c, Z.of_N (Ascii.N_of_ascii c)) <$> String.list_ascii_of_string s.

(** [struct format_output]. *)
Record format_output := Output { obuf : option (list Z); osize : Z; written : Z }.

Definition format_putc (c : Z) (out : format_output) : format_output :=
  Output
    (match obuf out with
     | Some buf =>
         Some (if (osize out >? 0) && (u64 (written out + 1) <? osize out) then <[Z.to_nat (written out) := c]> buf else buf)
     | None => None
     end)
    (osize out) (u64 (written out + 1)).

Definition format_puts (s : list Z) (out : format_output) : format_output := foldl (λ out c, format_putc c out) out s.

(** [for (int i = 0; i < n; i++) format_putc(out, c);] *)
Definition format_pad (n c : Z) (out : format_output) : format_output := format_puts (replicate (Z.to_nat n) c) out.

(** An argument: the 64 bits of an integer or a pointer, or a string. *)
Inductive va := VInt (bits : Z) | VStr (s : option (list Z)).

Definition va_bits (args : list va) : option (Z * list va) :=
  match args with VInt v :: args => Some (v, args) | _ => None end.

Definition va_str (args : list va) : option (option (list Z) * list va) :=
  match args with VStr s :: args => Some (s, args) | _ => None end.

(** [int64_t] from its bits. *)
Definition s64 (z : Z) : Z := let z := u64 z in if z <? 2 ^ 63 then z else z - W64.

Definition va_signed (is_long : Z) (v : Z) : Z := if is_long >? 0 then s64 v else s32 v.
Definition va_unsigned (is_long : Z) (v : Z) : Z := if is_long >? 0 then u64 v else u32 v.

(** ** Parts of a conversion *)

(** [left_align] and [zero_pad] as the loop over the flags leaves them. *)
Fixpoint parse_flags (p : list Z) (left_align zero_pad : bool) : bool * bool * list Z :=
  match p with
  | c :: rest =>
      if c =? 45 then parse_flags rest true zero_pad
      else if c =? 48 then parse_flags rest left_align true
      else (left_align, zero_pad, p)
  | [] => (left_align, zero_pad, [])
  end.

Definition is_digit (c : Z) : bool := (48 <=? c) && (c <=? 57).

Fixpoint parse_number (p : list Z) (acc : Z) : Z * list Z :=
  match p with
  | c :: rest => if is_digit c then parse_number rest (acc * 10 + (c - 48)) else (acc, p)
  | [] => (acc, [])
  end.

Definition parse_precision (p : list Z) : Z * list Z :=
  match p with
  | c :: rest => if c =? 46 then parse_number rest 0 else (-1, p)
  | [] => (-1, [])
  end.

Definition parse_length (p : list Z) : Z * list Z :=
  match p with
  | c :: rest =>
      if c =? 108 then
        match rest with
        | d :: rest' => if d =? 108 then (2, rest') else (1, rest)
        | [] => (1, [])
        end
      else if c =? 122 then (1, rest)
      else if c =? 104 then
        match rest with
        | d :: rest' => if d =? 104 then (0, rest') else (0, rest)
        | [] => (0, [])
        end
      else (0, p)
  | [] => (0, [])
  end.

Definition INT_MAX : Z := 2147483647.

Record conversion := Conversion {
  left_align : bool;
  zero_pad : bool;
  width : Z;
  precision : Z;
  is_long : Z;
  spec : Z;
}.

(** What follows a ['%'], up to the conversion specifier. *)
Definition parse_conversion (p : list Z) : option (conversion * list Z) :=
  let '(lft, zero, p) := parse_flags p false false in
  let zero := if lft : bool then false else zero in
  let '(w, p) := parse_number p 0 in
  let '(prec, p) := parse_precision p in
  let '(long, p) := parse_length p in
  match p with
  | [] => None
  | c :: p => if (w <=? INT_MAX) && (prec <=? INT_MAX) then Some (Conversion lft zero w prec long c, p) else None
  end.

(** ** Digits, the lowest one first *)

Fixpoint dec_loop (n : nat) (v : Z) : list Z :=
  match n with
  | O => []
  | S n => if v >? 0 then 48 + v mod 10 :: dec_loop n (v / 10) else []
  end.

Definition dec_digits (v : Z) : list Z := if v =? 0 then [48] else dec_loop 32 v.

Definition hex_char (upper : bool) (d : Z) : Z := if d <? 10 then 48 + d else if upper then 55 + d else 87 + d.

Fixpoint hex_loop (upper : bool) (n : nat) (v : Z) : list Z :=
  match n with
  | O => []
  | S n => if v >? 0 then hex_char upper (Z.land v 0x0f) :: hex_loop upper n (Z.shiftr v 4) else []
  end.

Definition hex_digits (upper : bool) (size : nat) (v : Z) : list Z := if v =? 0 then [48] else hex_loop upper size v.

(** ** The conversions *)

Section conversions.
Context (cv : conversion).

Definition format_char (c : Z) (out : format_output) : format_output :=
  let out := if negb (left_align cv) && (width cv >? 1) then format_pad (width cv - 1) 32 out else out in
  let out := format_putc c out in
  if left_align cv && (width cv >? 1) then format_pad (width cv - 1) 32 out else out.

Definition null_string : list Z := [40; 110; 117; 108; 108; 41].

Definition format_string (s : option (list Z)) (out : format_output) : format_output :=
  let str := default null_string s in
  let len := Z.of_nat (length str) in
  let len := if (precision cv >=? 0) && (len >? precision cv) then precision cv else len in
  let out := if negb (left_align cv) && (width cv >? len) then format_pad (width cv - len) 32 out else out in
  let out := format_puts (take (Z.to_nat len) str) out in
  if left_align cv && (width cv >? len) then format_pad (width cv - len) 32 out else out.

Definition format_signed (val : Z) (out : format_output) : format_output :=
  let negative := val <? 0 in
  let uval := if negative then u64 (u64 (- (val + 1)) + 1) else u64 val in
  let digits := dec_digits uval in
  let total_len := Z.of_nat (length digits) + (if negative then 1 else 0) in
  let minus out := if negative then format_putc 45 out else out in
  let out :=
    if negb (left_align cv) then
      if zero_pad cv then format_pad (width cv - total_len) 48 (minus out)
      else minus (format_pad (width cv - total_len) 32 out)
    else minus out in
  let out := format_puts (rev digits) out in
  if left_align cv && (width cv >? total_len) then format_pad (width cv - total_len) 32 out else out.

Definition format_unsigned (digits : list Z) (out : format_output) : format_output :=
  let total_len := Z.of_nat (length digits) in
  let out := if negb (left_align cv) then format_pad (width cv - total_len) (if zero_pad cv then 48 else 32) out else out in
  let out := format_puts (rev digits) out in
  if left_align cv && (width cv >? total_len) then format_pad (width cv - total_len) 32 out else out.

Definition format_pointer (uval : Z) (out : format_output) : format_output :=
  let digits := hex_digits false 16 uval in
  let total_len := Z.of_nat (length digits) + 2 in
  let out :=
    if negb (left_align cv) && negb (zero_pad cv) && (width cv >? total_len) then format_pad (width cv - total_len) 32 out else out in
  let out := format_putc 120 (format_putc 48 out) in
  let out := if negb (left_align cv) && zero_pad cv && (width cv >? total_len) then format_pad (width cv - total_len) 48 out else out in
  let out := format_puts (rev digits) out in
  if left_align cv && (width cv >? total_len) then format_pad (width cv - total_len) 32 out else out.

(** The branches over the specifier. *)
Definition format_conversion (args : list va) (out : format_output) : option (list va * format_output) :=
  let c := spec cv in
  if c =? 99 then '(v, args) ← va_bits args; Some (args, format_char (u8 v) out)
  else if c =? 115 then '(s, args) ← va_str args; Some (args, format_string s out)
  else if (c =? 100) || (c =? 105) then '(v, args) ← va_bits args; Some (args, format_signed (va_signed (is_long cv) v) out)
  else if c =? 117 then '(v, args) ← va_bits args; Some (args, format_unsigned (dec_digits (va_unsigned (is_long cv) v)) out)
  else if (c =? 120) || (c =? 88) then
    '(v, args) ← va_bits args; Some (args, format_unsigned (hex_digits (c =? 88) 32 (va_unsigned (is_long cv) v)) out)
  else if c =? 112 then '(v, args) ← va_bits args; Some (args, format_pointer (u64 v) out)
  else Some (args, format_putc c (format_putc 37 out)).
End conversions.

(** ** The loop over the format

    Every round takes a character or more: the length of the format is enough. *)
Fixpoint format_loop (n : nat) (p : list Z) (args : list va) (out : format_output) : option format_output :=
  match p, n with
  | [], _ => Some out
  | _ :: _, O => None
  | c :: p, S n =>
      if negb (c =? 37) then format_loop n p args (format_putc c out)
      else
        match p with
        | [] => Some (format_putc 37 out)
        | d :: p' =>
            if d =? 37 then format_loop n p' args (format_putc 37 out)
            else
              '(cv, p) ← parse_conversion p;
              '(args, out) ← format_conversion cv args out;
              format_loop n p args out
        end
  end.

Definition kvsnprintf (buffer : option (list Z)) (size : Z) (format : option (list Z)) (args : list va)
    : option (Z * option (list Z)) :=
  match format with
  | None => Some (0, (λ buf, if size >? 0 then <[0%nat := 0]> buf else buf) <$> buffer)
  | Some format =>
      out ← format_loop (length format) format args (Output buffer size 0);
      Some (s32 (written out),
        (λ buf, if size >? 0 then <[Z.to_nat (if written out <? size then written out else size - 1) := 0]> buf else buf) <$> obuf out)
  end.

Definition ksnprintf := kvsnprintf.
