(* ===== verification/FormatSpec.v ===== *)
(** * String formatter: what it writes

    [Printf] says what formats look like and what they stand for, without the
    code: a format is literal characters, doubled percent signs and conversions,
    and a number is printed in positional notation.  [kvsnprintf] returns the
    length of that text and leaves as much of it in the buffer as fits, with a
    terminator.  [render] is the same for all formats, with the parts of the code
    that parse a conversion and produce digits; the proofs go through it. *)

From Stdlib Require Import ZArith Lia.
From Stdlib Require String.
From stdpp Require Import gmap.
From S2P Require Import Prelude Inet Bytes Format.
#[local] Open Scope Z_scope.

(** ** The text *)

(** A field: the prefix (a sign) and the body, filled up to the width. *)
Definition field (cv : conversion) (zero : bool) (prefix body : list Z) : list Z :=
  let n := Z.to_nat (width cv - Z.of_nat (length prefix + length body)) in
  if left_align cv then prefix ++ body ++ replicate n 32
  else if zero then prefix ++ replicate n 48 ++ body
  else replicate n 32 ++ prefix ++ body.

Definition decimal (v : Z) : list Z := rev (dec_digits v).
Definition hexadecimal (upper : bool) (v : Z) : list Z := rev (hex_digits upper 32 v).

Definition conversion_text (cv : conversion) (args : list va) : option (list Z * list va) :=
  let c := spec cv in
  if c =? 99 then '(v, args) ← va_bits args; Some (field cv false [] [u8 v], args)
  else if c =? 115 then
    '(s, args) ← va_str args;
    let str := default null_string s in
    Some (field cv false [] (if precision cv >=? 0 then take (Z.to_nat (precision cv)) str else str), args)
  else if (c =? 100) || (c =? 105) then
    '(v, args) ← va_bits args;
    let v := va_signed (is_long cv) v in
    Some (field cv (zero_pad cv) (if v <? 0 then [45] else []) (decimal (Z.abs v)), args)
  else if c =? 117 then
    '(v, args) ← va_bits args; Some (field cv (zero_pad cv) [] (decimal (va_unsigned (is_long cv) v)), args)
  else if (c =? 120) || (c =? 88) then
    '(v, args) ← va_bits args; Some (field cv (zero_pad cv) [] (hexadecimal (c =? 88) (va_unsigned (is_long cv) v)), args)
  else if c =? 112 then
    '(v, args) ← va_bits args; Some (field cv (zero_pad cv) [48; 120] (hexadecimal false (u64 v)), args)
  else Some ([37; c], args).

Fixpoint render_loop (n : nat) (p : list Z) (args : list va) : option (list Z) :=
  match p, n with
  | [], _ => Some []
  | _ :: _, O => None
  | c :: p, S n =>
      if negb (c =? 37) then cons c <$> render_loop n p args
      else
        match p with
        | [] => Some [37]
        | d :: p' =>
            if d =? 37 then cons 37 <$> render_loop n p' args
            else
              '(cv, p) ← parse_conversion p;
              '(t, args) ← conversion_text cv args;
              app t <$> render_loop n p args
        end
  end.

Definition render (format : list Z) (args : list va) : option (list Z) := render_loop (length format) format args.

(** ** Output *)

Lemma puts_app s t out : format_puts (s ++ t) out = format_puts t (format_puts s out).
Proof. apply foldl_app. Qed.

Lemma puts_cons c s out : format_puts (c :: s) out = format_puts s (format_putc c out).
Proof. done. Qed.

Lemma pad_nonpos n c out : n ≤ 0 → format_pad n c out = out.
Proof. intros Hn. unfold format_pad. by replace (Z.to_nat n) with 0%nat by lia. Qed.

Lemma pad_gtb (a b : Z) c out : (if a >? b then format_pad (a - b) c out else out) = format_pad (a - b) c out.
Proof. destruct (Z.gtb_spec a b); [done|]. by rewrite pad_nonpos by lia. Qed.

(** Both loops fill the field. *)
Lemma field_output cv zero prefix body out :
  format_puts (field cv zero prefix body) out =
    let n := width cv - Z.of_nat (length prefix + length body) in
    if left_align cv then format_pad n 32 (format_puts body (format_puts prefix out))
    else if zero then format_puts body (format_pad n 48 (format_puts prefix out))
    else format_puts body (format_puts prefix (format_pad n 32 out)).
Proof. unfold field, format_pad. cbv zeta. destruct (left_align cv); [|destruct zero]; by rewrite !puts_app. Qed.

Lemma format_char_field cv c out : format_char cv c out = format_puts (field cv false [] [c]) out.
Proof.
  rewrite field_output. unfold format_char. cbn [length Nat.add]. change (Z.of_nat 1) with 1.
  destruct (left_align cv); cbn [negb andb]; by rewrite pad_gtb.
Qed.

Lemma format_string_field cv s out :
  let str := default null_string s in
  format_string cv s out = format_puts (field cv false [] (if precision cv >=? 0 then take (Z.to_nat (precision cv)) str else str)) out.
Proof.
  cbv zeta. set (str := default null_string s). rewrite field_output. unfold format_string. fold str. cbv zeta. cbn [length Nat.add].
  set (body := if precision cv >=? 0 then take (Z.to_nat (precision cv)) str else str).
  set (len := if (precision cv >=? 0) && (Z.of_nat (length str) >? precision cv) then precision cv else Z.of_nat (length str)).
  assert (len = Z.of_nat (length body) ∧ take (Z.to_nat len) str = body) as [-> ->].
  { unfold len, body. destruct (Z.geb_spec (precision cv) 0); cbn [andb]; [|by rewrite Nat2Z.id, firstn_all].
    rewrite length_take. destruct (Z.gtb_spec (Z.of_nat (length str)) (precision cv)); [split; [lia|done]|].
    rewrite Nat2Z.id, firstn_all, take_ge by lia. split; [lia|done]. }
  destruct (left_align cv); cbn [negb andb]; by rewrite pad_gtb.
Qed.

Lemma format_unsigned_field cv digits out : format_unsigned cv digits out = format_puts (field cv (zero_pad cv) [] (rev digits)) out.
Proof.
  rewrite field_output. unfold format_unsigned. cbv zeta. cbn [length Nat.add format_puts foldl]. rewrite length_rev.
  destruct (left_align cv); cbn [negb andb]; [by rewrite pad_gtb|]. by destruct (zero_pad cv).
Qed.

Lemma format_signed_field cv v out : - 2 ^ 63 ≤ v < 2 ^ 63 →
  format_signed cv v out = format_puts (field cv (zero_pad cv) (if v <? 0 then [45] else []) (decimal (Z.abs v))) out.
Proof.
  intros Hv. rewrite field_output. unfold format_signed, decimal. cbv zeta. rewrite length_rev.
  assert ((if v <? 0 then u64 (u64 (- (v + 1)) + 1) else u64 v) = Z.abs v) as ->.
  { change (2 ^ 63) with 9223372036854775808 in Hv.
    destruct (Z.ltb_spec v 0); rewrite ?(u64_small (- (v + 1))), ?u64_small by (unfold is_u64, W64; lia); lia. }
  destruct (v <? 0); cbn [length Nat.add format_puts foldl].
  - replace (Z.of_nat (length (dec_digits (Z.abs v))) + 1) with (Z.of_nat (S (length (dec_digits (Z.abs v))))) by lia.
    destruct (left_align cv); cbn [negb andb]; [by rewrite pad_gtb|]. by destruct (zero_pad cv).
  - rewrite Z.add_0_r. destruct (left_align cv); cbn [negb andb]; [by rewrite pad_gtb|]. by destruct (zero_pad cv).
Qed.

(** ** Digits *)

Lemma hex_loop_fuel upper n m v : 0 ≤ v < 16 ^ Z.of_nat n → (n ≤ m)%nat → hex_loop upper n v = hex_loop upper m v.
Proof.
  revert m v. induction n as [|n IH]; intros m v Hv Hm.
  - assert (v = 0) as -> by (cbn in Hv; lia). by destruct m.
  - destruct m as [|m]; [lia|]. cbn [hex_loop]. destruct (v >? 0); [|done]. f_equal. apply IH; [|lia].
    rewrite Z.shiftr_div_pow2 by lia. change (2 ^ 4) with 16. rewrite Nat2Z.inj_succ, Z.pow_succ_r in Hv by lia.
    split; [apply Z.div_pos; lia|apply Z.div_lt_upper_bound; lia].
Qed.

Lemma format_pointer_field cv v out : is_u64 v →
  format_pointer cv v out = format_puts (field cv (zero_pad cv) [48; 120] (hexadecimal false v)) out.
Proof.
  intros Hv. assert (hex_digits false 16 v = hex_digits false 32 v) as E.
  { unfold hex_digits. destruct (v =? 0); [done|]. apply hex_loop_fuel; [|lia]. unfold is_u64, W64 in Hv. cbn. lia. }
  rewrite field_output. unfold format_pointer, hexadecimal. cbv zeta. rewrite E, length_rev.
  replace (Z.of_nat (length (hex_digits false 32 v)) + 2) with (Z.of_nat (length [48; 120] + length (hex_digits false 32 v))) by (cbn [length]; lia).
  destruct (left_align cv); cbn [negb andb]; [by rewrite pad_gtb|]. destruct (zero_pad cv); cbn [negb andb]; by rewrite pad_gtb.
Qed.

Lemma s64_range v : - 2 ^ 63 ≤ s64 v < 2 ^ 63.
Proof.
  pose proof (u64_range v) as Hr. unfold s64. cbv zeta. change (2 ^ 63) with 9223372036854775808. unfold is_u64, W64 in *.
  destruct (Z.ltb_spec (u64 v) 9223372036854775808); lia.
Qed.

Lemma s32_range v : - 2147483648 ≤ s32 v < 2147483648.
Proof.
  pose proof (u32_range v) as Hr. unfold s32. cbv zeta. unfold is_u32 in *. destruct (Z.ltb_spec (u32 v) 2147483648); lia.
Qed.

Lemma va_signed_range l v : - 2 ^ 63 ≤ va_signed l v < 2 ^ 63.
Proof.
  unfold va_signed. destruct (l >? 0); [apply s64_range|]. pose proof (s32_range v). change (2 ^ 63) with 9223372036854775808. lia.
Qed.

(** ** The loop *)

Lemma format_conversion_text cv args out :
  format_conversion cv args out = '(t, args) ← conversion_text cv args; Some (args, format_puts t out).
Proof.
  unfold format_conversion, conversion_text. cbv zeta. destruct (spec cv =? 99).
  { destruct (va_bits args) as [[v r]|]; [|done]. cbn. by rewrite format_char_field. }
  destruct (spec cv =? 115).
  { destruct (va_str args) as [[s r]|]; [|done]. cbn. by rewrite format_string_field. }
  destruct ((spec cv =? 100) || (spec cv =? 105)).
  { destruct (va_bits args) as [[v r]|]; [|done]. cbn. by rewrite format_signed_field by apply va_signed_range. }
  destruct (spec cv =? 117).
  { destruct (va_bits args) as [[v r]|]; [|done]. cbn. by rewrite format_unsigned_field. }
  destruct ((spec cv =? 120) || (spec cv =? 88)).
  { destruct (va_bits args) as [[v r]|]; [|done]. cbn. by rewrite format_unsigned_field. }
  destruct (spec cv =? 112); [|done].
  destruct (va_bits args) as [[v r]|]; [|done]. cbn. by rewrite format_pointer_field by apply u64_range.
Qed.

Lemma format_loop_render n p args out : format_loop n p args out = (λ t, format_puts t out) <$> render_loop n p args.
Proof.
  revert p args out. induction n as [|n IH]; intros [|c p] args out; cbn [format_loop render_loop]; try done.
  destruct (c =? 37); cbn [negb]; [|rewrite IH; by destruct (render_loop n p args)].
  destruct p as [|d p']; [done|]. destruct (d =? 37); [rewrite IH; by destruct (render_loop n p' args)|].
  destruct (parse_conversion (d :: p')) as [[cv r]|]; [|done]. cbn. rewrite format_conversion_text.
  destruct (conversion_text cv args) as [[t r']|]; [|done]. cbn. rewrite IH. destruct (render_loop n r r') as [t'|]; [|done]. cbn. f_equal.
  symmetry. apply puts_app.
Qed.

(** ** The buffer *)

Lemma splice_cons buf w c s : 0 ≤ w → w + 1 + Z.of_nat (length s) ≤ Z.of_nat (length buf) →
  splice (<[Z.to_nat w := c]> buf) (w + 1) s = splice buf w (c :: s).
Proof.
  intros Hw Hl. apply list_eq. intros i. rewrite !lookup_splice by (rewrite ?length_insert; cbn [length]; lia). cbn [length].
  destruct (decide (i = Z.to_nat w)) as [->|Hne].
  - rewrite decide_False by lia. rewrite decide_True by lia. rewrite list_lookup_insert_eq by lia. by rewrite Nat.sub_diag.
  - rewrite list_lookup_insert_ne by done. case_decide.
    + rewrite decide_True by lia. replace (i - Z.to_nat w)%nat with (S (i - Z.to_nat (w + 1)))%nat by lia. done.
    + by rewrite decide_False by lia.
Qed.

Lemma splice_nil buf w : splice buf w [] = buf.
Proof. unfold splice. cbn. by rewrite Nat.add_0_r, take_drop. Qed.

Lemma puts_buffer t buf size w :
  0 ≤ w → 0 ≤ size < W64 → size ≤ Z.of_nat (length buf) → w + Z.of_nat (length t) < W64 →
  format_puts t (Output (Some buf) size w) =
    Output (Some (splice buf w (take (Z.to_nat (size - 1 - w)) t))) size (w + Z.of_nat (length t)).
Proof.
  revert buf w. induction t as [|c t IH]; intros buf w Hw Hs Hl Ht.
  { cbn. by rewrite firstn_nil, splice_nil, Z.add_0_r. }
  rewrite puts_cons. unfold format_putc. cbn [obuf osize written]. cbn [length] in Ht.
  rewrite (u64_small (w + 1)) by (unfold is_u64; lia). destruct (Z.ltb_spec (w + 1) size) as [Hin|Hout].
  - rewrite (proj2 (Z.gtb_lt size 0)) by lia. cbn [andb]. rewrite IH by (rewrite ?length_insert; lia).
    f_equal; [|cbn [length]; lia]. f_equal. replace (Z.to_nat (size - 1 - w)) with (S (Z.to_nat (size - 1 - (w + 1)))) by lia.
    rewrite firstn_cons. apply splice_cons; [done|]. rewrite length_take. lia.
  - rewrite andb_false_r. rewrite IH by lia. f_equal; [|cbn [length]; lia]. f_equal.
    replace (Z.to_nat (size - 1 - w)) with 0%nat by lia. replace (Z.to_nat (size - 1 - (w + 1))) with 0%nat by lia.
    by rewrite !take_0, !splice_nil.
Qed.

Lemma puts_null t size w : 0 ≤ w → w + Z.of_nat (length t) < W64 → format_puts t (Output None size w) = Output None size (w + Z.of_nat (length t)).
Proof.
  revert w. induction t as [|c t IH]; intros w Hw Ht; [cbn; by rewrite Z.add_0_r|]. cbn [length] in Ht.
  rewrite puts_cons. unfold format_putc. cbn [obuf osize written]. rewrite (u64_small (w + 1)) by (unfold is_u64; lia).
  rewrite IH by lia. f_equal. cbn [length]. lia.
Qed.

Lemma splice_end buf s : Z.of_nat (length s) < Z.of_nat (length buf) →
  <[length s := 0]> (splice buf 0 s) = splice buf 0 (s ++ [0]).
Proof.
  intros Hl. apply list_eq. intros i. rewrite (lookup_splice buf 0 (s ++ [0])) by (rewrite ?length_app; cbn [length]; lia).
  rewrite length_app. cbn [length]. destruct (decide (i = length s)) as [->|Hne].
  - rewrite list_lookup_insert_eq by (rewrite length_splice; lia). rewrite decide_True by lia.
    rewrite lookup_app_r by lia. by replace (length s - Z.to_nat 0 - length s)%nat with 0%nat by lia.
  - rewrite list_lookup_insert_ne by done. rewrite lookup_splice by lia. case_decide.
    + rewrite decide_True by lia. by rewrite lookup_app_l by lia.
    + by rewrite decide_False by lia.
Qed.

(** What is in the buffer afterwards. *)
Definition filled_buffer (buf : list Z) (size : Z) (text : list Z) : list Z :=
  if size >? 0 then splice buf 0 (take (Z.to_nat (size - 1)) text ++ [0]) else buf.

Lemma kvsnprintf_text buf size format args text :
  0 ≤ size < W64 → size ≤ Z.of_nat (length buf) → render format args = Some text → Z.of_nat (length text) ≤ INT_MAX →
  kvsnprintf (Some buf) size (Some format) args = Some (Z.of_nat (length text), Some (filled_buffer buf size text)).
Proof.
  intros Hs Hl Hr Ht. unfold kvsnprintf, render in *. rewrite format_loop_render, Hr. cbn [fmap option_fmap option_map mbind option_bind].
  unfold INT_MAX in Ht. rewrite puts_buffer by (unfold W64 in *; lia). cbn [written obuf]. rewrite Z.add_0_l, Z.sub_0_r.
  assert (s32 (Z.of_nat (length text)) = Z.of_nat (length text)) as ->.
  { unfold s32. rewrite u32_small by (unfold is_u32; lia). cbv zeta. by rewrite (proj2 (Z.ltb_lt _ _)) by lia. }
  f_equal. f_equal. cbn. f_equal. unfold filled_buffer. destruct (Z.gtb_spec size 0); [|by replace (Z.to_nat (size - 1)) with 0%nat by lia; rewrite take_0, splice_nil].
  rewrite <- splice_end by (rewrite length_take; lia). f_equal. rewrite length_take.
  destruct (Z.ltb_spec (Z.of_nat (length text)) size); lia.
Qed.

(** ** Reading numbers back *)

Definition value (acc : Z) (ds : list Z) : Z := foldl (λ a c, a * 10 + (c - 48)) acc ds.

Lemma parse_number_digits ds rest acc : Forall (λ c, is_digit c = true) ds → match rest with c :: _ => is_digit c = false | [] => True end →
  parse_number (ds ++ rest) acc = (value acc ds, rest).
Proof.
  intros Hd Hr. revert acc. induction Hd as [|c ds Hc _ IH]; intros acc; cbn.
  - destruct rest as [|c rest]; [done|]. cbn. by rewrite Hr.
  - by rewrite Hc, IH.
Qed.

Lemma dec_loop_spec n v : 0 ≤ v < 10 ^ Z.of_nat n → value 0 (rev (dec_loop n v)) = v ∧ Forall (λ c, is_digit c = true) (dec_loop n v).
Proof.
  revert v. induction n as [|n IH]; intros v Hv; [cbn in *; split; [lia|constructor]|].
  rewrite Nat2Z.inj_succ, Z.pow_succ_r in Hv by lia. cbn [dec_loop]. destruct (Z.gtb_spec v 0); [|cbn; split; [lia|constructor]].
  pose proof (Z.mod_pos_bound v 10 ltac:(lia)) as Hm. destruct (IH (v / 10)) as [E Hd].
  { split; [apply Z.div_pos; lia|apply Z.div_lt_upper_bound; lia]. }
  cbn [rev]. unfold value in *. rewrite foldl_app, E. cbn [foldl]. split; [pose proof (Z.div_mod v 10); lia|].
  constructor; [|done]. unfold is_digit. lia.
Qed.

(** The digits of a number are read as the number, whatever zeros come before them. *)
Lemma decimal_spec v : is_u64 v → Forall (λ c, is_digit c = true) (decimal v) ∧ ∀ n, value 0 (replicate n 48 ++ decimal v) = v.
Proof.
  intros Hv. assert (value 0 (decimal v) = v ∧ Forall (λ c, is_digit c = true) (decimal v)) as [E Hd].
  { unfold decimal, dec_digits. destruct (Z.eqb_spec v 0) as [->|]; [split; [done|by repeat constructor]|].
    destruct (dec_loop_spec 32 v) as [E Hd]; [unfold is_u64, W64 in Hv; cbn; lia|]. split; [done|by apply Forall_rev]. }
  split; [done|]. intros n. unfold value in *. rewrite foldl_app. assert (foldl (λ a c, a * 10 + (c - 48)) 0 (replicate n 48) = 0) as ->; [|done].
  induction n as [|n IH]; [done|]. cbn. apply IH.
Qed.

Fixpoint skip_spaces (s : list Z) : list Z :=
  match s with c :: r => if c =? 32 then skip_spaces r else s | [] => [] end.

(** An integer with spaces around it. *)
Definition read_int (s : list Z) : Z :=
  match skip_spaces s with
  | c :: r => if c =? 45 then - (parse_number r 0).1 else (parse_number (c :: r) 0).1
  | [] => 0
  end.

Lemma skip_spaces_pad n s : skip_spaces (replicate n 32 ++ s) = skip_spaces s.
Proof. induction n as [|n IH]; [done|]. cbn. apply IH. Qed.

Lemma read_digits (neg : bool) n ds m : Forall (λ c, is_digit c = true) ds → ds ≠ [] →
  read_int ((if neg then [45] else []) ++ replicate n 48 ++ ds ++ replicate m 32) = (if neg then -1 else 1) * value 0 (replicate n 48 ++ ds).
Proof.
  intros Hd Hne. set (all := replicate n 48 ++ ds).
  assert (Forall (λ c, is_digit c = true) all) as Ha by (apply Forall_app; split; [by apply Forall_replicate|done]).
  assert (parse_number (all ++ replicate m 32) 0 = (value 0 all, replicate m 32)) as Ep by (apply parse_number_digits; [done|by destruct m]).
  assert (replicate n 48 ++ ds ++ replicate m 32 = all ++ replicate m 32) as -> by (unfold all; by rewrite <- app_assoc).
  unfold read_int. destruct neg; cbn [app skip_spaces].
  - rewrite (proj2 (Z.eqb_neq 45 32)) by lia. rewrite Z.eqb_refl, Ep. cbn. lia.
  - destruct all as [|c all'] eqn:E; [by destruct n, ds|]. apply Forall_cons in Ha as [Hc _]. unfold is_digit in Hc. cbn [app skip_spaces].
    rewrite (proj2 (Z.eqb_neq c 32)), (proj2 (Z.eqb_neq c 45)) by lia. change (c :: all' ++ replicate m 32) with ((c :: all') ++ replicate m 32).
    rewrite Ep. cbn [fst]. lia.
Qed.

Lemma read_field cv (neg zero : bool) v : is_u64 v →
  read_int (field cv zero (if neg then [45] else []) (decimal v)) = (if neg then -1 else 1) * v.
Proof.
  intros Hv. destruct (decimal_spec v Hv) as [Hd He]. assert (decimal v ≠ []) as Hne.
  { unfold decimal, dec_digits. destruct (Z.eqb_spec v 0); [done|]. cbn [dec_loop]. unfold is_u64 in Hv.
    rewrite (proj2 (Z.gtb_lt v 0)) by lia. cbn [rev]. by intros [_ ?]%app_nil. }
  unfold field. cbv zeta. set (n := Z.to_nat _). destruct (left_align cv); [|destruct zero].
  - pose proof (read_digits neg 0 (decimal v) n Hd Hne) as E. by rewrite He in E.
  - pose proof (read_digits neg n (decimal v) 0 Hd Hne) as E. rewrite He in E. cbn [replicate] in E. by rewrite app_nil_r in E.
  - unfold read_int. rewrite skip_spaces_pad. pose proof (read_digits neg 0 (decimal v) 0 Hd Hne) as E. rewrite He in E.
    cbn [replicate app] in E. by rewrite app_nil_r in E.
Qed.

Lemma length_dec_loop n k v : 0 ≤ v < 10 ^ Z.of_nat k → (length (dec_loop n v) ≤ k)%nat.
Proof.
  revert k v. induction n as [|n IH]; intros k v Hv; cbn; [lia|]. destruct (Z.gtb_spec v 0); cbn; [|lia].
  destruct k as [|k]; [cbn in Hv; lia|]. rewrite Nat2Z.inj_succ, Z.pow_succ_r in Hv by lia.
  specialize (IH k (v / 10)). enough (length (dec_loop n (v / 10)) ≤ k)%nat by lia. apply IH.
  split; [apply Z.div_pos; lia|apply Z.div_lt_upper_bound; lia].
Qed.

Lemma length_decimal v : is_u64 v → (length (decimal v) ≤ 20)%nat.
Proof.
  intros Hv. unfold decimal, dec_digits. rewrite length_rev. destruct (v =? 0); [cbn; lia|]. apply length_dec_loop. unfold is_u64, W64 in Hv. cbn. lia.
Qed.

Lemma length_field cv zero prefix body :
  Z.of_nat (length (field cv zero prefix body)) = Z.max (width cv) (Z.of_nat (length prefix + length body)).
Proof. unfold field. cbv zeta. destruct (left_align cv); [|destruct zero]; rewrite !length_app, length_replicate; lia. Qed.

(** ** Formats and their meaning *)

Module Printf.

(** Digit [k] of [v] in base [b] is [v / b ^ k mod b]; there are as many digits as
    powers of [b] up to [v], and at least one.  The highest comes first. *)
Definition numeral (b v : Z) : list Z :=
  (λ k, v / b ^ Z.of_nat k mod b) <$>
    reverse (seq 0 (Nat.max 1 (length (filter (λ k, b ^ Z.of_nat k ≤ v) (seq 0 64))))).

Definition digit (upper : bool) (d : Z) : Z :=
  default 0 ((if upper then [48; 49; 50; 51; 52; 53; 54; 55; 56; 57; 65; 66; 67; 68; 69; 70]
              else [48; 49; 50; 51; 52; 53; 54; 55; 56; 57; 97; 98; 99; 100; 101; 102]) !! Z.to_nat d).

Definition number (b : Z) (upper : bool) (v : Z) : list Z := digit upper <$> numeral b v.

(** *** Formats *)

Inductive flag := Minus | Zero.
Inductive modifier := NoModifier | Lhh | Lh | Ll | Lll | Lz.
Inductive specifier := Sc | Ss | Sd | Si | Su | Sx | SX | Sp.

Record directive := Directive {
  flags : list flag;
  min_width : Z;               (** 0: none *)
  max_chars : option Z;        (** the precision *)
  length_modifier : modifier;
  what : specifier;
}.

Inductive piece := Literal (c : Z) | Percent | Convert (d : directive).

Definition flag_char (f : flag) : Z := match f with Minus => 45 | Zero => 48 end.

Definition modifier_chars (m : modifier) : list Z :=
  match m with NoModifier => [] | Lhh => [104; 104] | Lh => [104] | Ll => [108] | Lll => [108; 108] | Lz => [122] end.

Definition specifier_char (x : specifier) : Z :=
  match x with Sc => 99 | Ss => 115 | Sd => 100 | Si => 105 | Su => 117 | Sx => 120 | SX => 88 | Sp => 112 end.

(** How a piece is written in the format. *)
Definition spell (x : piece) : list Z :=
  match x with
  | Literal c => [c]
  | Percent => [37; 37]
  | Convert d =>
      37 :: (flag_char <$> flags d) ++ (if min_width d =? 0 then [] else number 10 false (min_width d)) ++
      match max_chars d with Some n => 46 :: number 10 false n | None => [] end ++
      modifier_chars (length_modifier d) ++ [specifier_char (what d)]
  end.

Definition format_of (l : list piece) : list Z := concat (spell <$> l).

Definition piece_ok (x : piece) : Prop :=
  match x with
  | Literal c => c ≠ 37
  | Percent => True
  | Convert d => 0 ≤ min_width d ≤ INT_MAX ∧ match max_chars d with Some n => 0 ≤ n ≤ INT_MAX | None => True end
  end.

(** *** What they stand for *)

Definition bits (m : modifier) : Z := match m with Ll | Lll | Lz => 64 | _ => 32 end.
Definition unsigned (n v : Z) : Z := v mod 2 ^ n.
Definition signed (n v : Z) : Z := (v + 2 ^ (n - 1)) mod 2 ^ n - 2 ^ (n - 1).

Definition has (f : flag) (d : directive) : bool :=
  existsb (λ g, match f, g with Minus, Minus | Zero, Zero => true | _, _ => false end) (flags d).

(** The field: blanks on the right after a minus flag, zeros behind the sign after
    a zero flag, blanks on the left otherwise. *)
Definition justify (d : directive) (numeric : bool) (sign body : list Z) : list Z :=
  let fill := Z.to_nat (min_width d - Z.of_nat (length (sign ++ body))) in
  if has Minus d then sign ++ body ++ replicate fill 32
  else if numeric && has Zero d then sign ++ replicate fill 48 ++ body
  else replicate fill 32 ++ sign ++ body.

Definition directive_text (d : directive) (arg : va) : option (list Z) :=
  let n := bits (length_modifier d) in
  match what d, arg with
  | Sc, VInt v => Some (justify d false [] [v mod 256])
  | Ss, VStr str =>            (* NULL is printed as (null) *)
      let str := default [40; 110; 117; 108; 108; 41] str in
      Some (justify d false [] match max_chars d with Some k => take (Z.to_nat k) str | None => str end)
  | (Sd | Si), VInt v =>
      let x := signed n v in Some (justify d true (if x <? 0 then [45] else []) (number 10 false (Z.abs x)))
  | Su, VInt v => Some (justify d true [] (number 10 false (unsigned n v)))
  | Sx, VInt v => Some (justify d true [] (number 16 false (unsigned n v)))
  | SX, VInt v => Some (justify d true [] (number 16 true (unsigned n v)))
  | Sp, VInt v => Some (justify d true [48; 120] (number 16 false (unsigned 64 v)))
  | _, _ => None
  end.

(** [None]: the arguments do not fit the format. *)
Fixpoint text_of (l : list piece) (args : list va) : option (list Z) :=
  match l, args with
  | [], _ => Some []
  | Literal c :: l, _ => cons c <$> text_of l args
  | Percent :: l, _ => cons 37 <$> text_of l args
  | Convert d :: l, arg :: args => t ← directive_text d arg; app t <$> text_of l args
  | Convert _ :: _, [] => None
  end.

End Printf.

(** ** The code prints numbers in positional notation *)

(** The loops over digits. *)
Fixpoint low_digits (b : Z) (m : nat) (v : Z) : list Z :=
  match m with O => [] | S m => if v >? 0 then v mod b :: low_digits b m (v / b) else [] end.

Lemma dec_loop_digits m v : dec_loop m v = (λ d, 48 + d) <$> low_digits 10 m v.
Proof. revert v. induction m as [|m IH]; intros v; [done|]. cbn. destruct (v >? 0); [|done]. cbn. by rewrite IH. Qed.

Lemma hex_loop_digits upper m v : hex_loop upper m v = hex_char upper <$> low_digits 16 m v.
Proof.
  revert v. induction m as [|m IH]; intros v; [done|]. cbn [hex_loop low_digits]. destruct (v >? 0); [|done]. cbn [fmap list_fmap].
  rewrite IH. change 15 with (Z.ones 4). rewrite Z.land_ones, Z.shiftr_div_pow2 by lia. done.
Qed.

Lemma low_digits_spec b m v : 2 ≤ b → 0 ≤ v < b ^ Z.of_nat m →
  ∃ n, (n ≤ m)%nat ∧ low_digits b m v = (λ k, v / b ^ Z.of_nat k mod b) <$> seq 0 n ∧ v < b ^ Z.of_nat n ∧
    ∀ k, (k < n)%nat → b ^ Z.of_nat k ≤ v.
Proof.
  intros Hb. revert v. induction m as [|m IH]; intros v Hv.
  { exists 0%nat. cbn in Hv |- *. split_and!; [lia|done|lia|lia]. }
  cbn [low_digits]. destruct (Z.gtb_spec v 0) as [Hpos|Hz]; [|exists 0%nat; cbn; split_and!; [lia|done|lia|lia]].
  rewrite Nat2Z.inj_succ, Z.pow_succ_r in Hv by lia.
  destruct (IH (v / b)) as (n & Hn & E & Hlt & Hge); [split; [apply Z.div_pos; lia|apply Z.div_lt_upper_bound; lia]|].
  exists (S n). split_and!; [lia| | |].
  - cbn [seq fmap list_fmap]. change (b ^ Z.of_nat 0) with 1. rewrite Z.div_1_r, E. f_equal. rewrite <- fmap_S_seq, <- list_fmap_compose.
    apply list_fmap_ext. intros i k _. unfold compose. rewrite Nat2Z.inj_succ, Z.pow_succ_r, Z.div_div by lia. done.
  - rewrite Nat2Z.inj_succ, Z.pow_succ_r by lia. pose proof (Z.div_mod v b ltac:(lia)). pose proof (Z.mod_pos_bound v b ltac:(lia)). nia.
  - intros [|k] Hk; [cbn; lia|]. rewrite Nat2Z.inj_succ, Z.pow_succ_r by lia. specialize (Hge k ltac:(lia)).
    pose proof (Z.div_mod v b ltac:(lia)). pose proof (Z.mod_pos_bound v b ltac:(lia)). nia.
Qed.

Lemma digit_count b v n : 2 ≤ b → (n ≤ 64)%nat → v < b ^ Z.of_nat n → (∀ k, (k < n)%nat → b ^ Z.of_nat k ≤ v) →
  filter (λ k, b ^ Z.of_nat k ≤ v) (seq 0 64) = seq 0 n.
Proof.
  intros Hb Hn Hlt Hge. replace 64%nat with (n + (64 - n))%nat by lia. rewrite seq_app, filter_app, Nat.add_0_l.
  assert (filter (λ k, b ^ Z.of_nat k ≤ v) (seq n (64 - n)) = []) as ->.
  { apply elem_of_nil_inv. intros k [Hle [Hk _]%elem_of_seq]%list_elem_of_filter.
    pose proof (Z.pow_le_mono_r b (Z.of_nat n) (Z.of_nat k) ltac:(lia) ltac:(lia)). lia. }
  rewrite app_nil_r. apply filter_all. intros k [_ Hk]%elem_of_seq. apply Hge. lia.
Qed.

Lemma numeral_low_digits b m v : 2 ≤ b → (m ≤ 64)%nat → 0 < v < b ^ Z.of_nat m → Printf.numeral b v = rev (low_digits b m v).
Proof.
  intros Hb Hm Hv. destruct (low_digits_spec b m v Hb ltac:(lia)) as (n & Hn & -> & Hlt & Hge).
  unfold Printf.numeral. rewrite (digit_count b v n), length_seq by (done || lia).
  assert (n ≠ 0%nat) as Hn0 by (intros ->; cbn in Hlt; lia). replace (Nat.max 1 n) with n by lia.
  rewrite fmap_reverse, rev_alt. done.
Qed.

Lemma numeral_0 b : 1 < b → Printf.numeral b 0 = [0].
Proof.
  intros Hb. unfold Printf.numeral.
  assert (filter (λ k, b ^ Z.of_nat k ≤ 0) (seq 0 64) = []) as ->.
  { apply elem_of_nil_inv. intros k [Hle _]%list_elem_of_filter. pose proof (Z.pow_pos_nonneg b (Z.of_nat k) ltac:(lia) ltac:(lia)). lia. }
  cbn. by rewrite Zmod_0_l.
Qed.

Lemma numeral_range b v : 1 < b → Forall (λ d, 0 ≤ d < b) (Printf.numeral b v).
Proof. intros Hb. apply Forall_fmap, Forall_forall. intros k _. apply Z.mod_pos_bound. lia. Qed.

Lemma number_decimal v : is_u64 v → Printf.number 10 false v = decimal v.
Proof.
  intros Hv. unfold Printf.number, decimal, dec_digits. destruct (Z.eqb_spec v 0) as [->|Hne]; [by rewrite numeral_0|].
  transitivity ((λ d, 48 + d) <$> Printf.numeral 10 v).
  - apply list_fmap_ext. intros i d Hd. apply list_elem_of_lookup_2 in Hd. pose proof (numeral_range 10 v ltac:(lia)) as Hr.
    rewrite Forall_forall in Hr. specialize (Hr d Hd). unfold Printf.digit.
    assert (d = 0 ∨ d = 1 ∨ d = 2 ∨ d = 3 ∨ d = 4 ∨ d = 5 ∨ d = 6 ∨ d = 7 ∨ d = 8 ∨ d = 9) as Hc by lia.
    repeat (destruct Hc as [->|Hc]; [done|]). by subst d.
  - rewrite (numeral_low_digits 10 32) by (unfold is_u64, W64 in Hv; cbn; lia). rewrite dec_loop_digits, !rev_alt.
    apply (fmap_reverse (λ d, 48 + d)).
Qed.

Lemma number_hexadecimal upper v : is_u64 v → Printf.number 16 upper v = hexadecimal upper v.
Proof.
  intros Hv. unfold Printf.number, hexadecimal, hex_digits. destruct (Z.eqb_spec v 0) as [->|Hne]; [rewrite numeral_0 by lia; by destruct upper|].
  transitivity (hex_char upper <$> Printf.numeral 16 v).
  - apply list_fmap_ext. intros i d Hd. apply list_elem_of_lookup_2 in Hd. pose proof (numeral_range 16 v ltac:(lia)) as Hr.
    rewrite Forall_forall in Hr. specialize (Hr d Hd). unfold Printf.digit, hex_char.
    assert (d = 0 ∨ d = 1 ∨ d = 2 ∨ d = 3 ∨ d = 4 ∨ d = 5 ∨ d = 6 ∨ d = 7 ∨ d = 8 ∨ d = 9 ∨ d = 10 ∨ d = 11 ∨ d = 12 ∨ d = 13 ∨ d = 14 ∨ d = 15) as Hc by lia.
    destruct upper; repeat (destruct Hc as [->|Hc]; [done|]); by subst d.
  - rewrite (numeral_low_digits 16 32) by (unfold is_u64, W64 in Hv; cbn; lia). rewrite hex_loop_digits, !rev_alt.
    apply (fmap_reverse (hex_char upper)).
Qed.

(** ** The code reads formats as they are written *)

Definition flags_or (l : list Printf.flag) (f : Printf.flag) : bool :=
  existsb (λ g, match f, g with Printf.Minus, Printf.Minus | Printf.Zero, Printf.Zero => true | _, _ => false end) l.

Lemma parse_flags_spell l rest lft zero :
  match rest with c :: _ => c ≠ 45 ∧ c ≠ 48 | [] => True end →
  parse_flags ((Printf.flag_char <$> l) ++ rest) lft zero = (lft || flags_or l Printf.Minus, zero || flags_or l Printf.Zero, rest).
Proof.
  intros Hr. revert lft zero. induction l as [|f l IH]; intros lft zero.
  - cbn [fmap list_fmap app flags_or existsb]. rewrite !orb_false_r. destruct rest as [|c rest]; [done|]. destruct Hr as [H1 H2].
    cbn. by rewrite (proj2 (Z.eqb_neq _ _) H1), (proj2 (Z.eqb_neq _ _) H2).
  - destruct f; cbn; rewrite IH; unfold flags_or; cbn [existsb]; by rewrite ?orb_true_r, ?orb_true_l, ?orb_false_l.
Qed.

(** The characters that may follow a number. *)
Definition after_number (rest : list Z) : Prop := match rest with c :: _ => is_digit c = false | [] => True end.

Lemma parse_number_spell v rest : 0 ≤ v ≤ INT_MAX → after_number rest → parse_number (Printf.number 10 false v ++ rest) 0 = (v, rest).
Proof.
  intros Hv Hr. assert (is_u64 v) as Hu by (unfold is_u64, W64, INT_MAX in *; lia). rewrite number_decimal by done.
  destruct (decimal_spec v Hu) as [Hd He]. rewrite parse_number_digits by done. by rewrite <- (He 0%nat) at 2.
Qed.

Lemma number_head v : 0 < v ≤ INT_MAX → ∃ c r, Printf.number 10 false v = c :: r ∧ c ≠ 45 ∧ c ≠ 48 ∧ is_digit c = true.
Proof.
  intros Hv. assert (is_u64 v) as Hu by (unfold is_u64, W64, INT_MAX in *; lia).
  assert (0 < v < 10 ^ Z.of_nat 32) as Hv32 by (unfold INT_MAX in Hv; cbn; lia).
  destruct (low_digits_spec 10 32 v ltac:(lia) ltac:(lia)) as (n & Hn & E & Hlt & Hge).
  destruct n as [|n]; [cbn in Hlt; lia|].
  assert (Printf.numeral 10 v = v / 10 ^ Z.of_nat n mod 10 :: rev ((λ k, v / 10 ^ Z.of_nat k mod 10) <$> seq 0 n)) as En.
  { rewrite (numeral_low_digits 10 32) by (done || lia). rewrite E, seq_S, fmap_app, rev_app_distr. done. }
  rewrite number_decimal by done. destruct (decimal_spec v Hu) as [Hd _]. rewrite <- number_decimal in * by done.
  unfold Printf.number in *. rewrite En in *. cbn [fmap list_fmap] in *. eexists _, _. split; [done|]. apply Forall_cons in Hd as [Hd _].
  split_and!; [unfold is_digit in Hd; intros E1; rewrite E1 in Hd; done| |done].
  assert (v / 10 ^ Z.of_nat n mod 10 = v / 10 ^ Z.of_nat n) as ->.
  { apply Z.mod_small. specialize (Hge n ltac:(lia)). rewrite Nat2Z.inj_succ, Z.pow_succ_r in Hlt by lia.
    split; [apply Z.div_pos; lia|apply Z.div_lt_upper_bound; lia]. }
  specialize (Hge n ltac:(lia)). assert (1 ≤ v / 10 ^ Z.of_nat n < 10) as Hq.
  { rewrite Nat2Z.inj_succ, Z.pow_succ_r in Hlt by lia. split; [apply Z.div_le_lower_bound; lia|apply Z.div_lt_upper_bound; lia]. }
  unfold Printf.digit. set (q := v / 10 ^ Z.of_nat n) in *. clearbody q.
  assert (q = 1 ∨ q = 2 ∨ q = 3 ∨ q = 4 ∨ q = 5 ∨ q = 6 ∨ q = 7 ∨ q = 8 ∨ q = 9) as Hc by lia.
  repeat (destruct Hc as [->|Hc]; [done|]). by subst q.
Qed.

(** The record the parser makes of a conversion. *)
Definition parsed (d : Printf.directive) : conversion :=
  let lft := Printf.has Printf.Minus d in
  Conversion lft (if lft then false else Printf.has Printf.Zero d) (Printf.min_width d) (default (-1) (Printf.max_chars d))
    (match Printf.length_modifier d with Printf.Ll | Printf.Lz => 1 | Printf.Lll => 2 | _ => 0 end)
    (Printf.specifier_char (Printf.what d)).

Lemma parse_length_spell m x rest :
  parse_length (Printf.modifier_chars m ++ Printf.specifier_char x :: rest)
  = (match m with Printf.Ll | Printf.Lz => 1 | Printf.Lll => 2 | _ => 0 end, Printf.specifier_char x :: rest).
Proof. by destruct m, x. Qed.

Lemma after_length m x rest :
  ∃ c r, Printf.modifier_chars m ++ Printf.specifier_char x :: rest = c :: r ∧ is_digit c = false ∧ c ≠ 45 ∧ c ≠ 46 ∧ c ≠ 48.
Proof. destruct m; cbn [Printf.modifier_chars app]; [destruct x|..]; eexists _, _; (split; [reflexivity|]); by cbn. Qed.

Lemma parse_directive d rest :
  Printf.piece_ok (Printf.Convert d) →
  parse_conversion (tail (Printf.spell (Printf.Convert d)) ++ rest) = Some (parsed d, rest).
Proof.
  intros [Hw Hp]. cbn [Printf.spell tail]. rewrite <- !app_assoc. cbn [app].
  set (t3 := Printf.modifier_chars (Printf.length_modifier d) ++ Printf.specifier_char (Printf.what d) :: rest).
  destruct (after_length (Printf.length_modifier d) (Printf.what d) rest) as (c3 & r3 & E3 & D3 & M3 & P3 & Z3). fold t3 in E3.
  set (t2 := match Printf.max_chars d with Some n => 46 :: Printf.number 10 false n | None => [] end ++ t3).
  assert (∃ c2 r2, t2 = c2 :: r2 ∧ is_digit c2 = false ∧ c2 ≠ 45 ∧ c2 ≠ 48) as (c2 & r2 & E2 & D2 & M2 & Z2).
  { unfold t2. destruct (Printf.max_chars d); [by eexists _, _|]. rewrite E3. by eexists _, _. }
  assert (parse_precision t2 = (default (-1) (Printf.max_chars d), t3)) as Eprec.
  { unfold t2. destruct (Printf.max_chars d) as [n|]; simpl.
    - unfold parse_precision. cbn [Z.eqb Pos.eqb]. apply parse_number_spell; [done|]. rewrite E3. exact D3.
    - rewrite E3. cbn. by rewrite (proj2 (Z.eqb_neq _ _) P3). }
  assert (parse_flags ((Printf.flag_char <$> Printf.flags d) ++ (if Printf.min_width d =? 0 then [] else Printf.number 10 false (Printf.min_width d)) ++ t2) false false
    = (Printf.has Printf.Minus d, Printf.has Printf.Zero d, (if Printf.min_width d =? 0 then [] else Printf.number 10 false (Printf.min_width d)) ++ t2)) as Eflags.
  { rewrite parse_flags_spell; [done|]. destruct (Z.eqb_spec (Printf.min_width d) 0) as [|Hne]; [rewrite E2; done|].
    destruct (number_head (Printf.min_width d) ltac:(lia)) as (c & r & -> & H1 & H2 & _). done. }
  assert (parse_number ((if Printf.min_width d =? 0 then [] else Printf.number 10 false (Printf.min_width d)) ++ t2) 0 = (Printf.min_width d, t2)) as Ewidth.
  { destruct (Z.eqb_spec (Printf.min_width d) 0) as [->|]; [rewrite E2; cbn [app parse_number]; by rewrite D2|].
    apply parse_number_spell; [done|]. rewrite E2. exact D2. }
  unfold parse_conversion. rewrite Eflags, Ewidth, Eprec. unfold t3 at 1. rewrite parse_length_spell.
  rewrite (proj2 (Z.leb_le _ _)) by lia. rewrite (proj2 (Z.leb_le _ _)); [done|].
  clear -Hp. revert Hp. destruct (Printf.max_chars d); simpl; unfold INT_MAX; lia.
Qed.

(** ** The code prints what they stand for *)

Lemma signed_cases n v : 1 ≤ n →
  Printf.signed n v = if v mod 2 ^ n <? 2 ^ (n - 1) then v mod 2 ^ n else v mod 2 ^ n - 2 ^ n.
Proof.
  intros Hn. unfold Printf.signed. assert (2 ^ n = 2 * 2 ^ (n - 1)) as ->.
  { rewrite <- Z.pow_succ_r by lia. f_equal. lia. }
  pose proof (Z.pow_pos_nonneg 2 (n - 1) ltac:(lia) ltac:(lia)) as Hp. set (m := 2 ^ (n - 1)) in *. clearbody m.
  pose proof (Z.mod_pos_bound v (2 * m) ltac:(lia)). rewrite <- (Zplus_mod_idemp_l v).
  destruct (Z.ltb_spec (v mod (2 * m)) m); [rewrite Z.mod_small by lia; lia|].
  replace (v mod (2 * m) + m) with (v mod (2 * m) - m + 1 * (2 * m)) by lia. rewrite Z.mod_add, Z.mod_small by lia. lia.
Qed.

Lemma signed_code m v :
  va_signed (match m with Printf.Ll | Printf.Lz => 1 | Printf.Lll => 2 | _ => 0 end) v = Printf.signed (Printf.bits m) v.
Proof. rewrite signed_cases by (by destruct m). by destruct m. Qed.

Lemma unsigned_code m v :
  va_unsigned (match m with Printf.Ll | Printf.Lz => 1 | Printf.Lll => 2 | _ => 0 end) v = Printf.unsigned (Printf.bits m) v.
Proof. by destruct m. Qed.

Lemma unsigned_u64 m v : is_u64 (Printf.unsigned (Printf.bits m) v).
Proof.
  unfold Printf.unsigned, is_u64, W64.
  destruct m; cbn [Printf.bits]; pose proof (Z.mod_pos_bound v (2 ^ 32) ltac:(lia)); pose proof (Z.mod_pos_bound v (2 ^ 64) ltac:(lia)); lia.
Qed.

Lemma signed_abs m v : is_u64 (Z.abs (Printf.signed (Printf.bits m) v)).
Proof. rewrite <- signed_code. pose proof (va_signed_range (match m with Printf.Ll | Printf.Lz => 1 | Printf.Lll => 2 | _ => 0 end) v) as Hr.
  change (2 ^ 63) with 9223372036854775808 in Hr. unfold is_u64, W64. lia. Qed.

Lemma field_justify d (numeric : bool) sign body :
  field (parsed d) (if numeric then zero_pad (parsed d) else false) sign body = Printf.justify d numeric sign body.
Proof.
  unfold field, Printf.justify. cbn [parsed left_align zero_pad width]. rewrite length_app.
  destruct (Printf.has Printf.Minus d); [done|]. by destruct numeric, (Printf.has Printf.Zero d).
Qed.

Lemma conversion_directive d arg args t :
  Printf.piece_ok (Printf.Convert d) → Printf.directive_text d arg = Some t → conversion_text (parsed d) (arg :: args) = Some (t, args).
Proof.
  intros [_ Hp] Ht. unfold Printf.directive_text in Ht. unfold conversion_text.
  pose proof (field_justify d false) as Fs. pose proof (field_justify d true) as Fn. cbn [parsed zero_pad] in Fs, Fn.
  destruct (Printf.what d) eqn:Ew, arg as [v|str]; try done; cbn [parsed spec is_long precision zero_pad]; rewrite Ew; cbn [Printf.specifier_char Z.eqb Pos.eqb orb va_bits va_str mbind option_bind];
    injection Ht as <-; f_equal; f_equal; rewrite ?signed_code, ?unsigned_code, ?number_decimal, ?number_hexadecimal by apply unsigned_u64 || apply signed_abs || apply u64_range;
    try (by rewrite <- Fs); try (by rewrite <- Fn).
  rewrite <- Fs. f_equal. destruct (Printf.max_chars d) as [k|]; [|done]. simpl. by rewrite (proj2 (Z.geb_le k 0)) by lia.
Qed.

Lemma render_format l : ∀ n args t,
  Forall Printf.piece_ok l → (length (Printf.format_of l) ≤ n)%nat → Printf.text_of l args = Some t →
  render_loop n (Printf.format_of l) args = Some t.
Proof.
  induction l as [|x l IH]; intros n args t Hok Hn Ht; [cbn in Ht |- *; by destruct n|].
  apply Forall_cons in Hok as [Hx Hok]. unfold Printf.format_of in *. cbn [fmap list_fmap concat] in *. rewrite length_app in Hn.
  destruct x as [c| |d].
  - cbn [Printf.spell length app] in *. destruct n as [|n]; [lia|]. cbn [render_loop]. rewrite (proj2 (Z.eqb_neq _ _) Hx). cbn [negb].
    cbn [Printf.text_of] in Ht. destruct (Printf.text_of l args) as [t'|] eqn:E; [|done]. injection Ht as <-.
    by rewrite (IH n args t' Hok ltac:(lia) E).
  - cbn [Printf.spell length app] in *. destruct n as [|n]; [lia|]. cbn [render_loop Z.eqb Pos.eqb negb].
    cbn [Printf.text_of] in Ht. destruct (Printf.text_of l args) as [t'|] eqn:E; [|done]. injection Ht as <-.
    by rewrite (IH n args t' Hok ltac:(lia) E).
  - destruct args as [|arg args]; [done|]. cbn [Printf.text_of] in Ht. destruct (Printf.directive_text d arg) as [t1|] eqn:E1; [|done].
    cbn in Ht. destruct (Printf.text_of l args) as [t2|] eqn:E2; [|done]. injection Ht as <-.
    pose proof (parse_directive d (concat (Printf.spell <$> l)) Hx) as Hp.
    assert (Printf.spell (Printf.Convert d) = 37 :: tail (Printf.spell (Printf.Convert d))) as Es by done.
    rewrite Es in Hn |- *. set (body := tail (Printf.spell (Printf.Convert d))) in *. clearbody body. cbn [app length] in *.
    destruct n as [|n]; [lia|]. cbn [render_loop Z.eqb Pos.eqb negb].
    assert (∃ c r, body ++ concat (Printf.spell <$> l) = c :: r ∧ c ≠ 37) as (c & r & Eb & Hc).
    { destruct (body ++ concat (Printf.spell <$> l)) as [|c r] eqn:Eb; [done|]. exists c, r. split; [done|]. intros ->.
      unfold parse_conversion in Hp. cbn in Hp. apply (f_equal (λ o, match o with Some (cv, _) => spec cv | None => 0 end)) in Hp. cbn in Hp. by destruct (Printf.what d). }
    rewrite Eb in Hp |- *. rewrite (proj2 (Z.eqb_neq _ _) Hc), Hp. cbn [mbind option_bind]. rewrite (conversion_directive d arg args t1 Hx E1).
    cbn [mbind option_bind]. rewrite (IH n args t2 Hok ltac:(lia) E2). done.
Qed.

(** ** The theorems *)

(** C28: for a format that is written as literal characters, doubled percent signs
    and conversions with flags, width, precision and length modifier ([Printf]), and
    arguments that fit it, with a text of at most INT_MAX characters, [kvsnprintf] returns the length of the text they stand
    for and leaves in the buffer that text, cut to [size - 1] characters, with a
    terminator; nothing behind it changes, and without a buffer the length is all
    it computes.  The precision limits strings; for numbers it is ignored,
    although log.h announces it. *)
Theorem kvsnprintf_spec buf size pieces args text :
  0 ≤ size < W64 → size ≤ Z.of_nat (length buf) → Forall Printf.piece_ok pieces →
  Printf.text_of pieces args = Some text → Z.of_nat (length text) ≤ INT_MAX →
  let kept := take (Z.to_nat (size - 1)) text in
  kvsnprintf (Some buf) size (Some (Printf.format_of pieces)) args
    = Some (Z.of_nat (length text), Some (if size =? 0 then buf else kept ++ [0] ++ drop (length kept + 1) buf)) ∧
  kvsnprintf None 0 (Some (Printf.format_of pieces)) args = Some (Z.of_nat (length text), None).
Proof.
  intros Hs Hl Hok Ht Hmax kept.
  assert (render (Printf.format_of pieces) args = Some text) as Hr by (by apply render_format). split.
  - rewrite (kvsnprintf_text buf size _ args text) by done. f_equal. f_equal. f_equal. unfold filled_buffer.
    destruct (Z.gtb_spec size 0); destruct (Z.eqb_spec size 0); try lia; [|done].
    unfold splice. fold kept. rewrite take_0, length_app. cbn [app length]. rewrite <- app_assoc. done.
  - unfold kvsnprintf. rewrite format_loop_render. unfold render in Hr. rewrite Hr.
    unfold INT_MAX in Hmax. cbn [fmap option_fmap option_map mbind option_bind]. rewrite puts_null by (unfold W64; lia). cbn [written obuf].
    rewrite Z.add_0_l. unfold s32. rewrite u32_small by (unfold is_u32; lia). cbv zeta. by rewrite (proj2 (Z.ltb_lt _ _)) by lia.
Qed.

(** an integer that is printed with [%d] or [%i], with any flags, width and length modifier, into a buffer that is large enough, is read back as the same integer. *)
Theorem kvsnprintf_signed_roundtrip buf size p cv v :
  parse_conversion p = Some (cv, []) → spec cv = 100 ∨ spec cv = 105 →
  Z.max (width cv) 21 < size ≤ Z.of_nat (length buf) → size ≤ INT_MAX →
  ∃ n b, kvsnprintf (Some buf) size (Some (37 :: p)) [VInt v] = Some (n, Some b) ∧ 0 ≤ n < size ∧
    b !! Z.to_nat n = Some 0 ∧ read_int (take (Z.to_nat n) b) = va_signed (is_long cv) v.
Proof.
  intros Hp Hc Hsz Hmax. pose proof (va_signed_range (is_long cv) v) as Hr. change (2 ^ 63) with 9223372036854775808 in Hr.
  set (x := va_signed (is_long cv) v) in *. set (text := field cv (zero_pad cv) (if x <? 0 then [45] else []) (decimal (Z.abs x))).
  assert (is_u64 (Z.abs x)) as Hx by (unfold is_u64, W64; lia).
  assert (Z.of_nat (length text) < size) as Hlt.
  { unfold text. rewrite length_field. pose proof (length_decimal _ Hx). destruct (x <? 0); cbn [length]; lia. }
  assert (render (37 :: p) [VInt v] = Some text) as Er.
  { unfold render. cbn [length render_loop]. rewrite Z.eqb_refl. cbn [negb]. destruct p as [|d p]; [done|].
    destruct (Z.eqb_spec d 37) as [->|_].
    { exfalso. unfold parse_conversion in Hp. cbn in Hp. injection Hp as <- _. cbn in Hc. lia. }
    rewrite Hp. cbn. unfold conversion_text. destruct Hc as [-> | ->]; cbn; unfold text; by rewrite app_nil_r. }
  assert (kvsnprintf (Some buf) size (Some (37 :: p)) [VInt v] = Some (Z.of_nat (length text), Some (filled_buffer buf size text))) as E.
  { apply kvsnprintf_text; [|lia|done|lia]. unfold INT_MAX, W64 in *. lia. }
  exists (Z.of_nat (length text)), (filled_buffer buf size text). split; [done|]. split; [lia|]. unfold filled_buffer.
  rewrite (proj2 (Z.gtb_lt size 0)), take_ge by lia. rewrite Nat2Z.id. unfold splice. rewrite take_0. cbn [app].
  rewrite <- app_assoc, lookup_app_r, Nat.sub_diag by lia. split; [done|]. rewrite take_app_length. unfold text. rewrite read_field by done.
  destruct (Z.ltb_spec x 0); lia.
Qed.

(** ** Examples *)

Import String.StringSyntax.
#[local] Open Scope string_scope.

(** The time stamp of a log line. *)
Definition stamp : list Printf.piece :=
  [Printf.Literal 91; Printf.Convert (Printf.Directive [] 5 None Printf.Ll Printf.Su); Printf.Literal 46;
   Printf.Convert (Printf.Directive [Printf.Zero] 3 None Printf.Ll Printf.Su); Printf.Literal 93; Printf.Literal 32;
   Printf.Convert (Printf.Directive [] 0 (Some 2) Printf.NoModifier Printf.Ss)].

Lemma kvsnprintf_spec_witness :
  Printf.format_of stamp = ascii "[%5lu.%03lu] %.2s" ∧
  kvsnprintf (Some (replicate 16 1)) 16 (Some (Printf.format_of stamp)) [VInt 12; VInt 7; VStr (Some (ascii "upper"))]
    = Some (14, Some (ascii "[   12.007] up" ++ [0; 1])).
Proof.
  split; [vm_compute; reflexivity|].
  destruct (kvsnprintf_spec (replicate 16 1) 16 stamp [VInt 12; VInt 7; VStr (Some (ascii "upper"))] (ascii "[   12.007] up"))
    as [-> _]; [unfold W64; lia|cbn; lia| |vm_compute; reflexivity|vm_compute; done|vm_compute; reflexivity].
  repeat constructor; cbn; unfold INT_MAX; lia.
Defined.

Lemma kvsnprintf_signed_roundtrip_witness :
  ∃ n b, kvsnprintf (Some (replicate 32 1)) 32 (Some (ascii "%-8ld")) [VInt (W64 - 2 ^ 63)] = Some (n, Some b) ∧
    read_int (take (Z.to_nat n) b) = - 2 ^ 63.
Proof.
  destruct (kvsnprintf_signed_roundtrip (replicate 32 1) 32 (ascii "-8ld") (Conversion true false 8 (-1) 1 100) (W64 - 2 ^ 63))
    as (n & b & E & _ & _ & Hr); [reflexivity|by left|cbn; lia|unfold INT_MAX; lia|].
  exists n, b. split; [exact E|]. rewrite Hr. reflexivity.
Defined.

(** A text that does not fit is cut; the length is that of the whole text. *)
Example kvsnprintf_cut : kvsnprintf (Some (replicate 6 1)) 5 (Some (ascii "%d|%x|%p")) [VInt 12345; VInt 255; VInt 4096] = Some (15, Some [49; 50; 51; 52; 0; 1]).
Proof. vm_compute. reflexivity. Qed.
