(* ===== verification/Log.v ===== *)
(** * Kernel log (src/kernel/log.c, sections 2 to 4)

    The ring buffer of 64 KiB with its counters, the prefix of a line, and the
    two paths of a message: under the lock, and around it in an emergency.
    What goes to the serial port and to the console is a list of outputs.  What
    the log asks other parts for (the timer, the task, whether a panic is active,
    whether the console works and whether the lock can be taken without
    waiting) is an environment, with what the stack holds before [line] is filled.  [None]
    is undefined behaviour of the formatter. *)

From Stdlib Require Import ZArith Lia.
From Stdlib Require String.
From stdpp Require Import gmap.
From S2P Require Import Prelude Inet Bytes Format.
Import String.StringSyntax.
#[local] Open Scope string_scope.
#[local] Open Scope Z_scope.

Definition LOG_BUFFER_SIZE : Z := 65536.
Definition LOG_BUFFER_MASK : Z := LOG_BUFFER_SIZE - 1.
Definition LOG_LINE_MAX : Z := 512.

Definition LOG_LEVEL_DEBUG : Z := 0.
Definition LOG_LEVEL_INFO : Z := 1.
Definition LOG_LEVEL_WARN : Z := 2.
Definition LOG_LEVEL_ERROR : Z := 3.
Definition LOG_LEVEL_PANIC : Z := 4.

Record log_ring_buffer := Ring {
  ring_data : list Z;
  ring_head : Z;
  ring_tail : Z;
  dropped_bytes : Z;
  dropped_records : Z;
  total_records : Z;
}.

Inductive log_output := SerialWrite (s : list Z) | SerialEmergency (s : list Z) | ConsoleWrite (s : list Z).

Record log_state := LogState {
  ring_buffer : log_ring_buffer;
  active_log_level : Z;
  log_emergency_mode : bool;
  log_initialized : bool;
  log_outputs : list log_output;
}.

Record log_env := LogEnv {
  timer_is_initialized : bool;
  timer_frequency_hz : Z;
  timer_ticks : Z;
  current_tid : Z;
  panic_is_active : bool;
  console_is_initialized : bool;
  lock_is_free : bool;
  stack_line : list Z;
}.

(** ** The ring buffer *)

(** [data[(head + i) & MASK] = bytes[i]] for every [i]. *)
Fixpoint ring_store (d : list Z) (head : Z) (bytes : list Z) : list Z :=
  match bytes with
  | [] => d
  | c :: bytes => ring_store (<[Z.to_nat (Z.land (u64 head) LOG_BUFFER_MASK) := c]> d) (head + 1) bytes
  end.

Definition ring_byte (d : list Z) (k : Z) : Z := nth (Z.to_nat (Z.land (u64 k) LOG_BUFFER_MASK)) d 0.

(** The loop that moves the tail to the next line; [n] bytes are left. *)
Fixpoint skip_line (n : nat) (r : log_ring_buffer) : log_ring_buffer :=
  match n with
  | O => r
  | S n =>
      if (ring_tail r <? ring_head r) && negb (ring_byte (ring_data r) (ring_tail r) =? 10)
      then skip_line n (Ring (ring_data r) (ring_head r) (u64 (ring_tail r + 1)) (u64 (dropped_bytes r + 1)) (dropped_records r) (total_records r))
      else r
  end.

Definition drop_newline (r : log_ring_buffer) : log_ring_buffer :=
  if (ring_tail r <? ring_head r) && (ring_byte (ring_data r) (ring_tail r) =? 10)
  then Ring (ring_data r) (ring_head r) (u64 (ring_tail r + 1)) (u64 (dropped_bytes r + 1)) (u64 (dropped_records r + 1)) (total_records r)
  else r.

(** Room for the newest bytes. *)
Definition drop_oldest (r : log_ring_buffer) : log_ring_buffer :=
  let used := u64 (ring_head r - ring_tail r) in
  if used >? LOG_BUFFER_SIZE then
    let overflow := used - LOG_BUFFER_SIZE in
    let r := Ring (ring_data r) (ring_head r) (u64 (ring_tail r + overflow)) (u64 (dropped_bytes r + overflow)) (dropped_records r) (total_records r) in
    drop_newline (skip_line (Z.to_nat LOG_BUFFER_SIZE) r)
  else r.

(** The first [len] bytes of [data]. *)
Definition log_ring_buffer_write_locked (data : list Z) (len : Z) (r : log_ring_buffer) : log_ring_buffer :=
  if len =? 0 then r
  else
    let bytes := take (Z.to_nat len) data in
    let bytes := if len >? LOG_BUFFER_SIZE then drop (Z.to_nat (len - LOG_BUFFER_SIZE)) bytes else bytes in
    let len := if len >? LOG_BUFFER_SIZE then LOG_BUFFER_SIZE else len in
    drop_oldest (Ring (ring_store (ring_data r) (ring_head r) bytes) (u64 (ring_head r + len)) (ring_tail r)
      (dropped_bytes r) (dropped_records r) (u64 (total_records r + 1))).

Definition set_ring (r : log_ring_buffer) (s : log_state) : log_state :=
  LogState r (active_log_level s) (log_emergency_mode s) (log_initialized s) (log_outputs s).

Definition log_init (s : log_state) : log_state :=
  LogState (Ring (<[0%nat := 0]> (ring_data (ring_buffer s))) 0 0 0 0 0) LOG_LEVEL_INFO false true (log_outputs s).

Definition log_set_level (level : Z) (s : log_state) : log_state :=
  LogState (ring_buffer s) level (log_emergency_mode s) (log_initialized s) (log_outputs s).

Definition log_get_level (s : log_state) : Z := active_log_level s.

(** The bytes at the positions [k], [k + 1], ... *)
Definition ring_bytes (d : list Z) (k n : Z) : list Z := (λ i, ring_byte d (k + i)) <$> seqZ 0 n.

Definition log_read_ring_buffer (buf : option (list Z)) (max_len : Z) (s : log_state) : Z * option (list Z) :=
  match buf with
  | None => (0, None)
  | Some buf =>
      if max_len =? 0 then (0, Some buf)
      else
        let r := ring_buffer s in
        let available := u64 (ring_head r - ring_tail r) in
        if available =? 0 then (0, Some (splice buf 0 [0]))
        else
          let to_copy := if available <? max_len - 1 then available else max_len - 1 in
          (to_copy, Some (splice buf 0 (ring_bytes (ring_data r) (ring_tail r) to_copy ++ [0])))
  end.

(** The number of bytes, the cursor and the buffer. *)
Definition log_read_from_offset (cursor : option Z) (buf : option (list Z)) (max_len : Z) (s : log_state)
    : Z * option Z * option (list Z) :=
  match cursor, buf with
  | Some cursor, Some buf =>
      if max_len =? 0 then (0, Some cursor, Some buf)
      else
        let r := ring_buffer s in
        let cursor := if cursor <? ring_tail r then ring_tail r else cursor in
        if cursor >=? ring_head r then (0, Some cursor, Some (splice buf 0 [0]))
        else
          let available := ring_head r - cursor in
          let to_copy := if available <? max_len - 1 then available else max_len - 1 in
          (to_copy, Some (u64 (cursor + to_copy)), Some (splice buf 0 (ring_bytes (ring_data r) cursor to_copy ++ [0])))
  | _, _ => (0, cursor, buf)
  end.

Definition log_get_dropped_bytes (s : log_state) : Z := dropped_bytes (ring_buffer s).
Definition log_get_dropped_records (s : log_state) : Z := dropped_records (ring_buffer s).
Definition log_get_total_records (s : log_state) : Z := total_records (ring_buffer s).
Definition log_get_total_written (s : log_state) : Z := ring_head (ring_buffer s).

Definition log_clear_ring_buffer (s : log_state) : log_state :=
  let r := ring_buffer s in
  set_ring (Ring (ring_data r) (ring_head r) (ring_head r) (dropped_bytes r) (dropped_records r) (total_records r)) s.

(** ** Lines *)

Definition log_level_tag (level : Z) : list Z :=
  ascii (if level =? LOG_LEVEL_DEBUG then "[DEBUG]" else if level =? LOG_LEVEL_INFO then "[INFO ]"
         else if level =? LOG_LEVEL_WARN then "[WARN ]" else if level =? LOG_LEVEL_ERROR then "[ERROR]"
         else if level =? LOG_LEVEL_PANIC then "[PANIC]" else "[UNKN ]").

(** Seconds and milliseconds since the timer runs. *)
Definition log_uptime (env : log_env) : Z * Z :=
  if timer_is_initialized env && (timer_frequency_hz env >? 0)
  then (timer_ticks env / timer_frequency_hz env, u64 (timer_ticks env mod timer_frequency_hz env * 1000) / timer_frequency_hz env)
  else (0, 0).

Definition prefix_format : list Z := ascii "[%5lu.%03lu] [TID %lu] %s ".

Definition log_format_prefix (env : log_env) (buf : option (list Z)) (size level : Z) : option (Z * option (list Z)) :=
  match buf with
  | None => Some (0, None)
  | Some b =>
      if size =? 0 then Some (0, buf)
      else
        let '(sec, ms) := log_uptime env in
        match ksnprintf buf size (Some prefix_format)
                [VInt sec; VInt ms; VInt (current_tid env); VStr (Some (log_level_tag level))] with
        | None => None
        | Some (len, buf) =>
            Some (if len <? 0 then (0, (λ b : list Z, <[0%nat := 0]> b) <$> buf) else (if len <? size then len else size - 1, buf))
        end
  end.

(** The line of a message and its length. *)
Definition log_line (env : log_env) (level : Z) (fmt : option (list Z)) (args : list va) : option (list Z * Z) :=
  '(prefix_len, line) ← log_format_prefix env (Some (stack_line env)) LOG_LINE_MAX level;
  let line := default [] line in
  '(msg_len, rest) ← kvsnprintf (Some (drop (Z.to_nat prefix_len) line)) (LOG_LINE_MAX - prefix_len) fmt args;
  let line := take (Z.to_nat prefix_len) line ++ default [] rest in
  let offset := if msg_len >? 0 then Z.min (prefix_len + msg_len) (LOG_LINE_MAX - 1) else prefix_len in
  Some (if offset + 1 <? LOG_LINE_MAX then
          if (offset =? 0) || negb (nth (Z.to_nat (offset - 1)) line 0 =? 10)
          then (<[Z.to_nat (offset + 1) := 0]> (<[Z.to_nat offset := 10]> line), offset + 1)
          else (line, offset)
        else (<[Z.to_nat (LOG_LINE_MAX - 1) := 0]> (<[Z.to_nat (LOG_LINE_MAX - 2) := 10]> line), LOG_LINE_MAX - 1)).

(** The string a buffer holds. *)
Fixpoint c_string (buf : list Z) : list Z :=
  match buf with c :: buf => if c =? 0 then [] else c :: c_string buf | [] => [] end.

Definition emit (o : list log_output) (s : log_state) : log_state :=
  LogState (ring_buffer s) (active_log_level s) (log_emergency_mode s) (log_initialized s) (log_outputs s ++ o).

Definition log_vwrite (env : log_env) (level : Z) (fmt : option (list Z)) (args : list va) (s : log_state) : option log_state :=
  let s := if log_initialized s then s else log_init s in
  let emergency := (level =? LOG_LEVEL_PANIC) || log_emergency_mode s || panic_is_active env in
  if (level <? active_log_level s) && negb emergency then Some s
  else
    '(line, len) ← log_line env level fmt args;
    let write s := set_ring (log_ring_buffer_write_locked line len (ring_buffer s)) s in
    let console := if console_is_initialized env then [ConsoleWrite (c_string line)] else [] in
    Some (if emergency
          then emit (SerialEmergency (c_string line) :: console) (if lock_is_free env then write s else s)
          else emit (SerialWrite (c_string line) :: console) (write s)).

Definition log_write := log_vwrite.

Definition log_enter_emergency_mode (s : log_state) : log_state :=
  LogState (ring_buffer s) (active_log_level s) true (log_initialized s) (log_outputs s).

Definition log_is_in_emergency_mode (s : log_state) : bool := log_emergency_mode s.

Definition log_emergency_putc (c : Z) : log_state → log_state := emit [SerialEmergency [c]].
Definition log_emergency_puts (str : list Z) : log_state → log_state := emit [SerialEmergency str].

(** ** Adapters *)

Definition log_message (level : Z) (env : log_env) (message : option (list Z)) : log_state → option log_state :=
  log_write env level (Some (ascii "%s")) [VStr message].

Definition log_info := log_message LOG_LEVEL_INFO.
Definition log_warn := log_message LOG_LEVEL_WARN.
Definition log_error := log_message LOG_LEVEL_ERROR.
Definition log_debug := log_message LOG_LEVEL_DEBUG.
Definition log_panic := log_message LOG_LEVEL_PANIC.

Definition log_serial (message : list Z) : log_state → log_state := emit [SerialWrite message].

Definition log_info_u64 (env : log_env) (label : option (list Z)) (v : Z) : log_state → option log_state :=
  log_write env LOG_LEVEL_INFO (Some (ascii "%s%lu")) [VStr label; VInt v].
Definition log_info_u64_suffix (env : log_env) (label : option (list Z)) (v : Z) (suffix : option (list Z)) : log_state → option log_state :=
  log_write env LOG_LEVEL_INFO (Some (ascii "%s%lu%s")) [VStr label; VInt v; VStr suffix].
Definition log_info_hex (env : log_env) (label : option (list Z)) (v : Z) : log_state → option log_state :=
  log_write env LOG_LEVEL_INFO (Some (ascii "%s0x%016lX")) [VStr label; VInt v].
