(* ===== verification/LogSpec.v ===== *)
(** * Kernel log: what the ring shows

    The bytes between tail and head are the view of the ring.  A write appends to
    the view; when that does not fit, the oldest bytes go, up to the end of a line.
    Every message is one line of at most 511 bytes, so the view always starts
    at a line and misses little of the newest 64 KiB. *)

From Stdlib Require Import ZArith Lia.
From stdpp Require Import gmap.
From S2P Require Import Prelude Inet Bytes Format FormatSpec Log.
#[local] Open Scope Z_scope.

(** ** The view *)

Definition ring_view (r : log_ring_buffer) : list Z := ring_bytes (ring_data r) (ring_tail r) (ring_head r - ring_tail r).

Record ring_inv (r : log_ring_buffer) : Prop := {
  ri_length : Z.of_nat (length (ring_data r)) = LOG_BUFFER_SIZE;
  ri_tail : 0 ≤ ring_tail r ≤ ring_head r;
  ri_head : ring_head r < W64;
  ri_used : ring_head r - ring_tail r ≤ LOG_BUFFER_SIZE;
  ri_dropped : is_u64 (dropped_bytes r);
}.

(** What comes after the first newline. *)
Fixpoint after_newline (l : list Z) : list Z :=
  match l with [] => [] | c :: l => if c =? 10 then l else after_newline l end.

(** The view after a write. *)
Definition log_append (shown bytes : list Z) : list Z :=
  let all := shown ++ bytes in
  if Z.of_nat (length all) >? LOG_BUFFER_SIZE then after_newline (drop (length all - Z.to_nat LOG_BUFFER_SIZE) all) else all.

Lemma land_mask k : 0 ≤ k < W64 → Z.land (u64 k) LOG_BUFFER_MASK = k mod LOG_BUFFER_SIZE.
Proof.
  intros Hk. rewrite u64_small by done. apply (land_low_mask k 16); [lia|reflexivity].
Qed.

Lemma length_ring_store d head bytes : length (ring_store d head bytes) = length d.
Proof. revert d head. induction bytes as [|c bytes IH]; intros d head; cbn; [done|]. by rewrite IH, length_insert. Qed.

(** The byte at index [j] is the last one that was stored there. *)
Lemma lookup_ring_store d head bytes j :
  0 ≤ head → head + Z.of_nat (length bytes) ≤ W64 → Z.of_nat (length bytes) ≤ LOG_BUFFER_SIZE →
  Z.of_nat (length d) = LOG_BUFFER_SIZE → 0 ≤ j < LOG_BUFFER_SIZE →
  ring_store d head bytes !! Z.to_nat j =
    if (j - head) mod LOG_BUFFER_SIZE <? Z.of_nat (length bytes) then bytes !! Z.to_nat ((j - head) mod LOG_BUFFER_SIZE) else d !! Z.to_nat j.
Proof.
  unfold LOG_BUFFER_SIZE. revert d head. induction bytes as [|c bytes IH]; intros d head Hh Hw Hl Hd Hj; cbn [ring_store length] in *.
  { pose proof (Z.mod_pos_bound (j - head) 65536 ltac:(lia)). rewrite (proj2 (Z.ltb_ge _ _)) by lia. done. }
  rewrite IH by (rewrite ?length_insert; lia). rewrite land_mask by lia. unfold LOG_BUFFER_SIZE.
  pose proof (Z.mod_pos_bound head 65536 ltac:(lia)). destruct (decide ((j - head) mod 65536 = 0)) as [E|E].
  - assert ((j - (head + 1)) mod 65536 = 65535) as -> by zsolve. assert (head mod 65536 = j) as -> by zsolve.
    rewrite E, (proj2 (Z.ltb_ge _ _)), (proj2 (Z.ltb_lt 0 _)) by lia. by rewrite list_lookup_insert_eq by lia.
  - assert ((j - (head + 1)) mod 65536 = (j - head) mod 65536 - 1) as -> by zsolve.
    assert (Z.to_nat (head mod 65536) ≠ Z.to_nat j) as Hne by zsolve.
    destruct (Z.ltb_spec ((j - head) mod 65536) (Z.of_nat (S (length bytes)))).
    + rewrite (proj2 (Z.ltb_lt _ _)) by lia. pose proof (Z.mod_pos_bound (j - head) 65536 ltac:(lia)).
      replace (Z.to_nat ((j - head) mod 65536)) with (S (Z.to_nat ((j - head) mod 65536 - 1))) by lia. done.
    + rewrite (proj2 (Z.ltb_ge _ _)) by lia. by rewrite list_lookup_insert_ne.
Qed.

Lemma ring_byte_store d head bytes k :
  0 ≤ head → head + Z.of_nat (length bytes) < W64 → Z.of_nat (length bytes) ≤ LOG_BUFFER_SIZE → Z.of_nat (length d) = LOG_BUFFER_SIZE →
  0 ≤ k → head + Z.of_nat (length bytes) - LOG_BUFFER_SIZE ≤ k < head + Z.of_nat (length bytes) →
  ring_byte (ring_store d head bytes) k = if k <? head then ring_byte d k else nth (Z.to_nat (k - head)) bytes 0.
Proof.
  intros Hh Hw Hl Hd Hk Hr. unfold ring_byte. rewrite land_mask by lia. rewrite !nth_lookup.
  pose proof (Z.mod_pos_bound k LOG_BUFFER_SIZE ltac:(done)). rewrite lookup_ring_store by lia. unfold LOG_BUFFER_SIZE in *.
  destruct (Z.ltb_spec k head).
  - rewrite (proj2 (Z.ltb_ge _ _)) by zsolve. done.
  - assert ((k mod 65536 - head) mod 65536 = k - head) as -> by zsolve. rewrite (proj2 (Z.ltb_lt _ _)) by lia. done.
Qed.

Lemma length_ring_bytes d k n : 0 ≤ n → Z.of_nat (length (ring_bytes d k n)) = n.
Proof. intros Hn. unfold ring_bytes. rewrite length_fmap, length_seqZ. lia. Qed.

Lemma ring_bytes_cons d k n : 0 < n → ring_bytes d k n = ring_byte d k :: ring_bytes d (k + 1) (n - 1).
Proof.
  intros Hn. unfold ring_bytes. rewrite seqZ_cons by lia. cbn. rewrite Z.add_0_r. f_equal.
  replace (Z.pred n) with (n - 1) by lia. rewrite <- (fmap_add_seqZ 1 0), <- list_fmap_compose. apply list_fmap_ext.
  intros i x _. cbn. f_equal. lia.
Qed.

Lemma lookup_ring_bytes d k n i : 0 ≤ n → ring_bytes d k n !! i = if decide (Z.of_nat i < n) then Some (ring_byte d (k + Z.of_nat i)) else None.
Proof.
  intros Hn. unfold ring_bytes. rewrite list_lookup_fmap. case_decide; [rewrite lookup_seqZ_lt by lia|rewrite lookup_seqZ_ge by lia]; [|done].
  cbn. f_equal.
Qed.

(** The bytes that stay and the new ones. *)
Lemma view_store r bytes start :
  ring_inv r → ring_head r + Z.of_nat (length bytes) < W64 → Z.of_nat (length bytes) ≤ LOG_BUFFER_SIZE →
  ring_tail r ≤ start ≤ ring_head r + Z.of_nat (length bytes) → ring_head r + Z.of_nat (length bytes) - LOG_BUFFER_SIZE ≤ start →
  ring_bytes (ring_store (ring_data r) (ring_head r) bytes) start (ring_head r + Z.of_nat (length bytes) - start) =
    drop (Z.to_nat (start - ring_tail r)) (ring_view r ++ bytes).
Proof.
  intros [Hd Ht Hh Hu _] Hw Hl Hs Hf. apply list_eq. intros i. rewrite lookup_ring_bytes, lookup_drop by lia.
  assert (Z.of_nat (length (ring_view r)) = ring_head r - ring_tail r) as Hv by (apply length_ring_bytes; lia).
  destruct (decide (start + Z.of_nat i < ring_head r)) as [Hlt|Hge].
  - rewrite decide_True by lia. rewrite lookup_app_l by lia. unfold ring_view. rewrite lookup_ring_bytes by lia. rewrite decide_True by lia. f_equal.
    rewrite ring_byte_store by lia. rewrite (proj2 (Z.ltb_lt _ _)) by lia. f_equal. lia.
  - rewrite lookup_app_r by lia. case_decide as Hi.
    + rewrite ring_byte_store by lia. rewrite (proj2 (Z.ltb_ge _ _)) by lia. rewrite nth_lookup.
      replace (Z.to_nat (start + Z.of_nat i - ring_head r)) with (Z.to_nat (start - ring_tail r) + i - length (ring_view r))%nat by lia.
      destruct (lookup_lt_is_Some_2 bytes (Z.to_nat (start - ring_tail r) + i - length (ring_view r))%nat) as [x ->]; [lia|done].
    + symmetry. apply lookup_ge_None. lia.
Qed.

(** ** Dropping the oldest line *)

Fixpoint to_newline (l : list Z) : list Z :=
  match l with [] => [] | c :: l' => if c =? 10 then l else to_newline l' end.

Lemma after_to_newline l : after_newline l = tail (to_newline l).
Proof. induction l as [|c l IH]; cbn; [done|]. by destruct (c =? 10). Qed.

Lemma length_to_newline l : (length (to_newline l) ≤ length l)%nat.
Proof. induction l as [|c l IH]; cbn; [done|]. destruct (c =? 10); cbn; lia. Qed.

(** The tail has moved over [n] bytes of the view. *)
Record moved (n : Z) (r r' : log_ring_buffer) : Prop := {
  mv_data : ring_data r' = ring_data r;
  mv_head : ring_head r' = ring_head r;
  mv_tail : ring_tail r' = ring_tail r + n;
  mv_dropped : dropped_bytes r' = u64 (dropped_bytes r + n);
  mv_total : total_records r' = total_records r;
}.

Lemma moved_refl r : is_u64 (dropped_bytes r) → moved 0 r r.
Proof. intros Hd. split; try done; [lia|]. by rewrite Z.add_0_r, u64_small. Qed.

Lemma moved_trans n m r1 r2 r3 : moved n r1 r2 → moved m r2 r3 → moved (n + m) r1 r3.
Proof.
  intros [H1 H2 H3 H4 H5] [K1 K2 K3 K4 K5]. split; try congruence; [lia|]. rewrite K4, H4. unfold u64.
  rewrite Z.add_mod_idemp_l by done. f_equal. lia.
Qed.

Lemma moved_inv n r r' : ring_inv r → 0 ≤ n ≤ ring_head r - ring_tail r → moved n r r' → ring_inv r'.
Proof.
  intros [H1 H2 H3 H4 H5] Hn [K1 K2 K3 K4 K5]. split; rewrite ?K1, ?K2, ?K3; try lia. rewrite K4. apply u64_range.
Qed.

Lemma skip_line_spec n r : ring_inv r → ring_head r - ring_tail r ≤ Z.of_nat n →
  moved (Z.of_nat (length (ring_view r) - length (to_newline (ring_view r)))) r (skip_line n r) ∧
  ring_view (skip_line n r) = to_newline (ring_view r).
Proof.
  revert r. induction n as [|n IH]; intros r Hi Hn; pose proof Hi as [Hd Ht Hh Hu Hr].
  { unfold ring_view. replace (ring_head r - ring_tail r) with 0 by lia. cbn. split; [by apply moved_refl|]. unfold ring_view.
    by replace (ring_head r - ring_tail r) with 0 by lia. }
  cbn [skip_line]. destruct (Z.ltb_spec (ring_tail r) (ring_head r)) as [Hlt|Hge]; cbn [andb].
  2: { unfold ring_view. replace (ring_head r - ring_tail r) with 0 by lia. cbn. by split; [apply moved_refl|]. }
  assert (ring_view r = ring_byte (ring_data r) (ring_tail r) :: ring_bytes (ring_data r) (ring_tail r + 1) (ring_head r - ring_tail r - 1)) as Ev
    by (apply ring_bytes_cons; lia).
  rewrite Ev. cbn [to_newline]. destruct (ring_byte (ring_data r) (ring_tail r) =? 10) eqn:Ec; cbn [negb].
  { rewrite Nat.sub_diag. split; [by apply moved_refl|done]. }
  rewrite (u64_small (ring_tail r + 1)) by (unfold is_u64; lia). set (r1 := Ring _ _ _ _ _ _).
  assert (moved 1 r r1) as Hm by (by split). assert (ring_inv r1) as Hi1 by (apply (moved_inv 1 r); [done|lia|done]).
  assert (ring_view r1 = ring_bytes (ring_data r) (ring_tail r + 1) (ring_head r - ring_tail r - 1)) as E1.
  { unfold ring_view, r1. cbn [ring_data ring_tail ring_head]. f_equal. lia. }
  destruct (IH r1 Hi1) as [Hm' Hv']; [cbn [r1 ring_head ring_tail]; lia|]. rewrite <- E1. split; [|done].
  pose proof (length_to_newline (ring_view r1)). cbn [length].
  replace (Z.of_nat (S (length (ring_view r1)) - length (to_newline (ring_view r1)))) with (1 + Z.of_nat (length (ring_view r1) - length (to_newline (ring_view r1)))) by lia.
  by apply (moved_trans 1 _ r r1).
Qed.

Lemma to_newline_head l c l' : to_newline l = c :: l' → c = 10.
Proof. induction l as [|x l IH]; cbn; [done|]. destruct (Z.eqb_spec x 10) as [->|]; [by intros [= <- _]|done]. Qed.

Lemma drop_line_spec r : ring_inv r →
  let r' := drop_newline (skip_line (Z.to_nat LOG_BUFFER_SIZE) r) in
  moved (Z.of_nat (length (ring_view r) - length (after_newline (ring_view r)))) r r' ∧ ring_view r' = after_newline (ring_view r).
Proof.
  intros Hi. cbv zeta. pose proof Hi as [Hd Ht Hh Hu Hr]. destruct (skip_line_spec (Z.to_nat LOG_BUFFER_SIZE) r Hi) as [Hm Hv]; [lia|].
  set (r1 := skip_line _ r) in *. assert (Z.of_nat (length (ring_view r)) = ring_head r - ring_tail r) as Hlen by (apply length_ring_bytes; lia).
  assert (ring_inv r1) as Hi1 by (refine (moved_inv _ r _ Hi _ Hm); lia). pose proof Hi1 as [_ Ht1 Hh1 _ Hr1].
  rewrite after_to_newline. unfold drop_newline. destruct (Z.ltb_spec (ring_tail r1) (ring_head r1)) as [Hlt|Hge]; cbn [andb].
  - assert (ring_view r1 = ring_byte (ring_data r1) (ring_tail r1) :: ring_bytes (ring_data r1) (ring_tail r1 + 1) (ring_head r1 - ring_tail r1 - 1)) as Ev
      by (apply ring_bytes_cons; lia).
    rewrite Hv in Ev. pose proof (to_newline_head _ _ _ Ev) as Ec. rewrite Ec, Z.eqb_refl. rewrite (u64_small (ring_tail r1 + 1)) by (unfold is_u64; lia).
    pose proof (length_to_newline (ring_view r)) as Hle. rewrite Ev in Hle, Hm |- *. cbn [tail length] in *. split.
    + set (m := Z.of_nat (length (ring_view r) - S _)) in Hm.
      replace (Z.of_nat (length (ring_view r) - length (ring_bytes (ring_data r1) (ring_tail r1 + 1) (ring_head r1 - ring_tail r1 - 1)))) with (m + 1) by lia.
      apply (moved_trans m 1 r r1); [done|]. by split.
    + unfold ring_view. cbn [ring_data ring_tail ring_head]. f_equal. lia.
  - assert (ring_view r1 = []) as E by (unfold ring_view; by replace (ring_head r1 - ring_tail r1) with 0 by lia).
    rewrite Hv in E. rewrite E in Hm |- *. cbn [tail]. split; [done|]. by rewrite Hv.
Qed.

(** ** Writing *)

Lemma gtb_false a b : a ≤ b → (a >? b) = false.
Proof. intros. rewrite Z.gtb_ltb. by apply Z.ltb_ge. Qed.

Lemma write_locked_spec data len r :
  ring_inv r → 0 ≤ len ≤ Z.of_nat (length data) → len ≤ LOG_BUFFER_SIZE → ring_head r + len < W64 →
  let r' := log_ring_buffer_write_locked data len r in
  ring_inv r' ∧ ring_view r' = log_append (ring_view r) (take (Z.to_nat len) data) ∧ ring_head r' = ring_head r + len ∧
  dropped_bytes r' = u64 (dropped_bytes r + (Z.of_nat (length (ring_view r)) + len - Z.of_nat (length (ring_view r')))).
Proof.
  intros Hi Hl Hs Hw. cbv zeta. pose proof Hi as [Hd Ht Hh Hu Hr]. unfold log_ring_buffer_write_locked.
  assert (Z.of_nat (length (ring_view r)) = ring_head r - ring_tail r) as Hlv by (apply length_ring_bytes; lia).
  destruct (Z.eqb_spec len 0) as [->|Hne].
  { rewrite take_0. unfold log_append. cbv zeta. rewrite app_nil_r, gtb_false by lia. split_and!; try done; [lia|].
    rewrite Z.add_0_r, Z.sub_diag, Z.add_0_r, u64_small by done. done. }
  rewrite (gtb_false len LOG_BUFFER_SIZE) by lia. set (bytes := take (Z.to_nat len) data).
  assert (Z.of_nat (length bytes) = len) as Hb by (unfold bytes; rewrite length_take; lia).
  rewrite (u64_small (ring_head r + len)) by (unfold is_u64; lia). unfold drop_oldest. cbn [ring_data ring_head ring_tail dropped_bytes dropped_records total_records].
  rewrite (u64_small (ring_head r + len - ring_tail r)) by (unfold is_u64, W64, LOG_BUFFER_SIZE in *; lia).
  set (r0 := Ring (ring_store (ring_data r) (ring_head r) bytes) (ring_head r + len) (ring_tail r) (dropped_bytes r) (dropped_records r) (u64 (total_records r + 1))).
  unfold log_append. cbv zeta. rewrite length_app.
  replace (Z.of_nat (length (ring_view r) + length bytes)) with (ring_head r + len - ring_tail r) by lia.
  destruct (Z.gtb_spec (ring_head r + len - ring_tail r) LOG_BUFFER_SIZE) as [Hover|Hfit].
  - set (over := ring_head r + len - ring_tail r - LOG_BUFFER_SIZE). rewrite (u64_small (ring_tail r + over)) by (unfold is_u64, over, LOG_BUFFER_SIZE in *; lia).
    set (r1 := Ring _ _ _ _ _ _).
    assert (ring_inv r1) as Hi1.
    { split; cbn [r1 ring_data ring_head ring_tail dropped_bytes]; rewrite ?length_ring_store; try (unfold over in *; unfold LOG_BUFFER_SIZE in *; lia). apply u64_range. }
    assert (ring_view r1 = drop (Z.to_nat over) (ring_view r ++ bytes)) as E1.
    { unfold ring_view at 1. cbn [r1 ring_data ring_head ring_tail]. rewrite <- Hb at 1. rewrite view_store by (done || (unfold over; lia)). f_equal. lia. }
    destruct (drop_line_spec r1 Hi1) as [Hm Hv]. rewrite E1 in Hv, Hm.
    set (r' := drop_newline _) in *. replace (length (ring_view r) + length bytes - Z.to_nat LOG_BUFFER_SIZE)%nat with (Z.to_nat over) by (unfold over; lia).
    pose proof (length_to_newline (drop (Z.to_nat over) (ring_view r ++ bytes))) as Hle.
    assert (length (after_newline (drop (Z.to_nat over) (ring_view r ++ bytes))) ≤ length (drop (Z.to_nat over) (ring_view r ++ bytes)))%nat as Hle'.
    { rewrite after_to_newline. destruct (to_newline _); cbn in *; lia. }
    rewrite length_drop, length_app in Hle', Hm. split; [|split; [done|split]].
    + refine (moved_inv _ r1 r' Hi1 _ Hm). cbn [r1 ring_head ring_tail]. unfold over in *. unfold LOG_BUFFER_SIZE in *. lia.
    + rewrite (mv_head _ _ _ Hm). done.
    + rewrite (mv_dropped _ _ _ Hm). cbn [r1 dropped_bytes]. unfold u64. rewrite Z.add_mod_idemp_l by done. f_equal. rewrite Hv. unfold over in *. lia.
  - assert (ring_view r0 = ring_view r ++ bytes) as E0.
    { unfold ring_view at 1. cbn [r0 ring_data ring_head ring_tail]. rewrite <- Hb at 1. rewrite view_store by (done || lia). by rewrite Z.sub_diag. }
    split_and!; [|done|done|].
    + split; cbn [r0 ring_data ring_head ring_tail dropped_bytes]; rewrite ?length_ring_store; try lia. done.
    + rewrite E0, length_app. cbn [r0 dropped_bytes]. replace (_ + len - _) with 0 by lia. rewrite Z.add_0_r, u64_small; done.
Qed.

(** ** Lines *)

Definition prefix_args (env : log_env) (level : Z) : list va :=
  [VInt (log_uptime env).1; VInt (log_uptime env).2; VInt (current_tid env); VStr (Some (log_level_tag level))].

Definition prefix_text (env : log_env) (level : Z) : list Z := default [] (render prefix_format (prefix_args env level)).

(** The line of a text: one newline at its end, at most 511 bytes. *)
Definition line_of (text : list Z) : list Z :=
  if (length text <=? 510)%nat then if bool_decide (last text = Some 10) then text else text ++ [10] else take 510 text ++ [10].

Lemma render_prefix env level :
  render prefix_format (prefix_args env level) = Some (prefix_text env level) ∧ (0 < length (prefix_text env level) ≤ 100)%nat.
Proof.
  unfold prefix_text, prefix_args. set (a := (log_uptime env).1). set (b := (log_uptime env).2). set (t := current_tid env).
  assert (∃ cv1 cv2 cv3 cv4, width cv1 = 5 ∧ width cv2 = 3 ∧ width cv3 = 0 ∧ width cv4 = 0 ∧ precision cv4 = -1 ∧
    render prefix_format [VInt a; VInt b; VInt t; VStr (Some (log_level_tag level))] =
      Some ([91] ++ field cv1 false [] (decimal (u64 a)) ++ [46] ++ field cv2 true [] (decimal (u64 b)) ++ [93; 32; 91; 84; 73; 68; 32] ++
            field cv3 false [] (decimal (u64 t)) ++ [93; 32] ++ field cv4 false [] (log_level_tag level) ++ [32]))
    as (cv1 & cv2 & cv3 & cv4 & W1 & W2 & W3 & W4 & _ & ->).
  { exists (Conversion false false 5 (-1) 1 117), (Conversion false true 3 (-1) 1 117), (Conversion false false 0 (-1) 1 117), (Conversion false false 0 (-1) 0 115).
    split_and!; reflexivity. }
  split; [done|]. unfold default, id. rewrite !length_app. cbn [length].
  pose proof (length_field cv1 false [] (decimal (u64 a))) as L1. pose proof (length_field cv2 true [] (decimal (u64 b))) as L2.
  pose proof (length_field cv3 false [] (decimal (u64 t))) as L3. pose proof (length_field cv4 false [] (log_level_tag level)) as L4. cbn [length Nat.add] in *.
  pose proof (length_decimal (u64 a) (u64_range a)). pose proof (length_decimal (u64 b) (u64_range b)). pose proof (length_decimal (u64 t) (u64_range t)).
  assert (length (log_level_tag level) = 7%nat) by (unfold log_level_tag; repeat case_match; reflexivity). lia.
Qed.

Lemma log_format_prefix_text env level : length (stack_line env) = 512%nat →
  log_format_prefix env (Some (stack_line env)) LOG_LINE_MAX level =
    Some (Z.of_nat (length (prefix_text env level)), Some (splice (stack_line env) 0 (prefix_text env level ++ [0]))).
Proof.
  intros Hl. destruct (render_prefix env level) as [Hr Hp]. unfold log_format_prefix. cbn [LOG_LINE_MAX Z.eqb Pos.eqb].
  destruct (log_uptime env) as [sec ms] eqn:Eu. unfold ksnprintf.
  rewrite (kvsnprintf_text (stack_line env) LOG_LINE_MAX prefix_format _ (prefix_text env level)); cycle 1.
  { unfold LOG_LINE_MAX, W64. lia. }
  { unfold LOG_LINE_MAX. lia. }
  { unfold prefix_args in Hr. rewrite Eu in Hr. exact Hr. }
  { unfold INT_MAX. lia. }
  rewrite (proj2 (Z.ltb_ge _ 0)), (proj2 (Z.ltb_lt _ LOG_LINE_MAX)) by (unfold LOG_LINE_MAX; lia). f_equal. f_equal.
  unfold filled_buffer. cbn [LOG_LINE_MAX Z.gtb Z.compare]. rewrite take_ge; [done|]. unfold LOG_LINE_MAX. lia.
Qed.

(** The buffer before the newline is added: the text as far as it fits, and a terminator. *)
Lemma log_buffer env level msg : length (stack_line env) = 512%nat →
  let p := prefix_text env level in
  let line := splice (stack_line env) 0 (p ++ [0]) in
  ∃ rest, take (length p) line ++ filled_buffer (drop (length p) line) (LOG_LINE_MAX - Z.of_nat (length p)) msg = take 511 (p ++ msg) ++ 0 :: rest ∧
    (length (take 511 (p ++ msg)) + S (length rest) = 512)%nat.
Proof.
  intros Hl p. destruct (render_prefix env level) as [_ Hp]. fold p in Hp. clearbody p. intros line.
  assert (length line = 512%nat) as Hll by (unfold line; rewrite length_splice; rewrite ?length_app; cbn; lia).
  assert (take (length p) line = p) as -> by (unfold line, splice; rewrite take_0; cbn [app]; rewrite <- app_assoc; apply take_app_length).
  unfold filled_buffer. rewrite (proj2 (Z.gtb_lt _ _)) by (unfold LOG_LINE_MAX; lia).
  assert (Z.to_nat (LOG_LINE_MAX - Z.of_nat (length p) - 1) = (511 - length p)%nat) as -> by (unfold LOG_LINE_MAX; lia).
  unfold splice. rewrite take_0. cbn [app]. rewrite <- app_assoc. cbn [app]. rewrite app_assoc, <- take_app_ge by lia.
  eexists. split; [done|]. rewrite !length_drop, !length_app, !length_take, ?length_app, Hll. cbn [length]. lia.
Qed.

Lemma length_line_of text : (0 < length (line_of text) ≤ 511)%nat.
Proof.
  unfold line_of. destruct (Nat.leb_spec (length text) 510).
  - case_bool_decide as E; [|rewrite length_app; cbn; lia]. destruct text; [done|cbn in *; lia].
  - rewrite length_app, length_take. cbn [length]. lia.
Qed.

Lemma last_line_of text : last (line_of text) = Some 10.
Proof. unfold line_of. destruct (_ <=? _)%nat; [case_bool_decide; [done|]|]; by rewrite last_snoc. Qed.

(** The newline at the end of the buffer. *)
Lemma finish_line text rest :
  (length (take 511 text) + S (length rest) = 512)%nat →
  let line := take 511 text ++ 0 :: rest in
  let offset := Z.min (Z.of_nat (length text)) (LOG_LINE_MAX - 1) in
  ∃ line', (if offset + 1 <? LOG_LINE_MAX then
              if (offset =? 0) || negb (nth (Z.to_nat (offset - 1)) line 0 =? 10)
              then (<[Z.to_nat (offset + 1) := 0]> (<[Z.to_nat offset := 10]> line), offset + 1)
              else (line, offset)
            else (<[Z.to_nat (LOG_LINE_MAX - 1) := 0]> (<[Z.to_nat (LOG_LINE_MAX - 2) := 10]> line), LOG_LINE_MAX - 1)) =
           (line', Z.of_nat (length (line_of text))) ∧ ∃ rest', line' = line_of text ++ 0 :: rest'.
Proof.
  intros Hlen line offset. unfold line_of, LOG_LINE_MAX in *. destruct (Nat.leb_spec (length text) 510) as [Hs|Hb].
  - assert (offset = Z.of_nat (length text)) as -> by (unfold offset; lia). rewrite (proj2 (Z.ltb_lt _ _)) by lia.
    assert (line = text ++ 0 :: rest) as El by (unfold line; by rewrite take_ge by lia). rewrite take_ge in Hlen by lia.
    assert (((Z.of_nat (length text) =? 0) || negb (nth (Z.to_nat (Z.of_nat (length text) - 1)) line 0 =? 10)) = negb (bool_decide (last text = Some 10))) as ->.
    { destruct text as [|x text _] using rev_ind; [done|]. rewrite length_app. cbn [length]. rewrite (proj2 (Z.eqb_neq _ 0)) by lia. cbn [orb].
      replace (Z.to_nat (Z.of_nat (length text + 1) - 1)) with (length text) by lia. rewrite El, <- app_assoc, app_nth2, Nat.sub_diag by lia. cbn [app nth].
      rewrite last_snoc. f_equal. destruct (Z.eqb_spec x 10); [by rewrite bool_decide_true by congruence|by rewrite bool_decide_false by congruence]. }
    case_bool_decide; cbn [negb]; [exists line; split; [done|by exists rest]|].
    eexists. split; [f_equal; rewrite length_app; cbn; lia|]. destruct rest as [|r0 rest]; [cbn in Hlen; lia|]. exists rest.
    rewrite El. replace (Z.to_nat (Z.of_nat (length text) + 1)) with (length text + 1)%nat by lia. rewrite Nat2Z.id, <- app_assoc.
    rewrite insert_app_r_alt, Nat.sub_diag by lia. cbn [insert list_insert]. rewrite insert_app_r. done.
  - assert (offset = 511) as -> by (unfold offset; lia). cbn [Z.ltb Z.compare Z.add Pos.compare Pos.compare_cont Pos.add].
    eexists. split; [f_equal; rewrite length_app, length_take; cbn [length]; lia|]. exists []. rewrite length_take in Hlen.
    assert (line = take 510 text ++ [nth 510 text 0; 0]) as ->.
    { unfold line. destruct (lookup_lt_is_Some_2 text 510) as [x Hx]; [lia|]. rewrite (take_S_r _ _ x Hx), (nth_lookup_Some _ _ _ _ Hx), <- app_assoc.
      by destruct rest; [|cbn [length] in Hlen; lia]. }
    change (Z.to_nat (512 - 1)) with 511%nat. change (Z.to_nat (512 - 2)) with 510%nat. assert (length (take 510 text) = 510%nat) as Ht by (rewrite length_take; lia).
    rewrite insert_app_r_alt, Ht by lia. cbn [Nat.sub insert list_insert]. rewrite insert_app_r_alt, Ht by lia. by rewrite <- app_assoc.
Qed.

Lemma log_line_spec env level fmt args msg :
  length (stack_line env) = 512%nat → render fmt args = Some msg → Z.of_nat (length msg) ≤ INT_MAX →
  ∃ rest, log_line env level (Some fmt) args =
    Some (line_of (prefix_text env level ++ msg) ++ 0 :: rest, Z.of_nat (length (line_of (prefix_text env level ++ msg)))).
Proof.
  intros Hl Hr Hm. unfold log_line. rewrite log_format_prefix_text by done. cbn [mbind option_bind default].
  destruct (render_prefix env level) as [_ Hp]. destruct (log_buffer env level msg Hl) as (rest & Ebuf & Hrest). cbv zeta in Ebuf.
  set (p := prefix_text env level) in *. rewrite Nat2Z.id. unfold default, id.
  rewrite (kvsnprintf_text _ _ fmt args msg); [|unfold LOG_LINE_MAX, W64; lia| |done|done]; cycle 1.
  { rewrite length_drop, length_splice; rewrite ?length_app; cbn [length]; unfold LOG_LINE_MAX; lia. }
  cbn [mbind option_bind]. unfold default, id. rewrite Ebuf. assert ((if Z.of_nat (length msg) >? 0 then Z.min (Z.of_nat (length p) + Z.of_nat (length msg)) (LOG_LINE_MAX - 1) else Z.of_nat (length p))
    = Z.min (Z.of_nat (length (p ++ msg))) (LOG_LINE_MAX - 1)) as ->.
  { rewrite length_app. unfold LOG_LINE_MAX. destruct (Z.gtb_spec (Z.of_nat (length msg)) 0); lia. }
  destruct (finish_line (p ++ msg) rest Hrest) as (line' & E & rest' & ->). exists rest'. cbv zeta in E. by rewrite E.
Qed.

(** ** Whole lines *)

Definition ends_line (l : list Z) : Prop := l = [] ∨ last l = Some 10.

(** No 511 bytes without a newline. *)
Definition short_lines (l : list Z) : Prop := ∀ k, (k + 511 ≤ length l)%nat → ∃ j, (k ≤ j < k + 511)%nat ∧ l !! j = Some 10.

Lemma short_lines_app l line : ends_line l → short_lines l → last line = Some 10 → (length line ≤ 511)%nat → short_lines (l ++ line).
Proof.
  intros He Hs Hl Hlen k Hk. rewrite length_app in Hk. destruct (decide (k + 511 ≤ length l)%nat) as [Hin|Hout].
  { destruct (Hs k Hin) as (j & Hj & E). exists j. split; [done|]. by rewrite lookup_app_l by lia. }
  destruct (decide (k < length l)%nat) as [Hlt|Hge].
  - exists (length l - 1)%nat. split; [lia|]. rewrite lookup_app_l by lia. destruct He as [->|He]; [cbn in Hlt; lia|].
    rewrite last_lookup in He. by replace (length l - 1)%nat with (pred (length l)) by lia.
  - exists (length l + (length line - 1))%nat. split; [lia|]. rewrite lookup_app_r by lia. rewrite last_lookup in Hl.
    replace (length l + (length line - 1) - length l)%nat with (pred (length line)) by lia. done.
Qed.

Lemma after_newline_drop l j : l !! j = Some 10 → ∃ m, (0 < m ≤ S j)%nat ∧ after_newline l = drop m l ∧ l !! (m - 1)%nat = Some 10.
Proof.
  revert j. induction l as [|c l IH]; intros j Hj; [done|]. cbn [after_newline]. destruct (Z.eqb_spec c 10) as [->|Hne].
  { exists 1%nat. split; [lia|]. split; [by rewrite skipn_cons, drop_0|done]. }
  destruct j as [|j]; [cbn in Hj; congruence|]. destruct (IH j Hj) as (m & Hm & E & Hl). exists (S m). split; [lia|]. split; [by rewrite skipn_cons|].
  destruct m as [|m]; [lia|]. cbn [Nat.sub] in *. rewrite Nat.sub_0_r in *. done.
Qed.

(** [gone] was dropped, [shown] is the view. *)
Record shows (text gone shown : list Z) : Prop := {
  sh_text : text = gone ++ shown;
  sh_line : ends_line gone;
  sh_ends : ends_line text;
  sh_short : short_lines text;
  sh_much : Z.min (Z.of_nat (length text)) (LOG_BUFFER_SIZE - 511) ≤ Z.of_nat (length shown);
}.

Lemma shows_append text gone shown line : shows text gone shown → last line = Some 10 → (length line ≤ 511)%nat →
  ∃ gone', shows (text ++ line) gone' (log_append shown line).
Proof.
  intros [-> Hg He Hs Hm] Hl Hlen. assert (ends_line ((gone ++ shown) ++ line)) as He'.
  { right. destruct line as [|x line _] using rev_ind; [done|]. rewrite last_snoc in Hl. by rewrite app_assoc, last_snoc. }
  pose proof (short_lines_app _ line He Hs Hl Hlen) as Hs'. unfold log_append. cbv zeta. unfold LOG_BUFFER_SIZE in *.
  destruct (Z.gtb_spec (Z.of_nat (length (shown ++ line))) 65536) as [Hover|Hfit].
  - set (o := (length (shown ++ line) - Z.to_nat 65536)%nat). assert (Z.of_nat (length (shown ++ line)) = Z.of_nat o + 65536) as Ho by (unfold o; lia). clearbody o.
    destruct (Hs' (length gone + o)%nat) as (j & Hj & E). { rewrite <- app_assoc, (length_app gone). lia. }
    rewrite <- app_assoc, lookup_app_r in E by lia.
    destruct (after_newline_drop (drop o (shown ++ line)) (j - length gone - o)) as (m & Hm' & Ea & En).
    { rewrite lookup_drop. by replace (o + (j - length gone - o))%nat with (j - length gone)%nat by lia. }
    rewrite lookup_drop in En. rewrite Ea, drop_drop.
    exists (gone ++ take (o + m) (shown ++ line)). split; [| |done|done|].
    + by rewrite <- !app_assoc, take_drop.
    + right. rewrite last_lookup, length_app, length_take. rewrite lookup_app_r by lia. rewrite lookup_take_lt by lia.
      rewrite <- En. f_equal. lia.
    + unfold LOG_BUFFER_SIZE. rewrite length_drop. lia.
  - exists gone. split; [by rewrite <- app_assoc|done|done|done|]. unfold LOG_BUFFER_SIZE. rewrite !length_app in *. lia.
Qed.

(** ** Messages *)

Record message := Message { m_env : log_env; m_level : Z; m_format : list Z; m_args : list va }.

Definition message_ok (m : message) : Prop :=
  length (stack_line (m_env m)) = 512%nat ∧ ∃ text, render (m_format m) (m_args m) = Some text ∧ Z.of_nat (length text) ≤ INT_MAX.

Definition message_line (m : message) : list Z :=
  line_of (prefix_text (m_env m) (m_level m) ++ default [] (render (m_format m) (m_args m))).

Definition send (m : message) : log_state → option log_state := log_vwrite (m_env m) (m_level m) (Some (m_format m)) (m_args m).

Definition in_emergency (s : log_state) (m : message) : bool := (m_level m =? LOG_LEVEL_PANIC) || log_emergency_mode s || panic_is_active (m_env m).

(** The message is not below the level, and in the ring it is recorded unless the lock is held in an emergency. *)
Definition shown (s : log_state) (m : message) : bool := negb ((m_level m <? active_log_level s) && negb (in_emergency s m)).
Definition recorded (s : log_state) (m : message) : bool := shown s m && (negb (in_emergency s m) || lock_is_free (m_env m)).

Definition message_outputs (s : log_state) (m : message) : list log_output :=
  let text := c_string (message_line m) in
  if shown s m
  then (if in_emergency s m then SerialEmergency text else SerialWrite text) ::
       (if console_is_initialized (m_env m) then [ConsoleWrite text] else [])
  else [].

Lemma c_string_app l rest : c_string (l ++ 0 :: rest) = c_string l.
Proof. induction l as [|c l IH]; cbn; [done|]. by rewrite IH. Qed.

(** One message: its line in the ring and on the outputs, or nothing. *)
Lemma send_spec m s :
  log_initialized s = true → ring_inv (ring_buffer s) → ring_head (ring_buffer s) + 511 < W64 → message_ok m →
  ∃ s', send m s = Some s' ∧ log_initialized s' = true ∧ ring_inv (ring_buffer s') ∧
    active_log_level s' = active_log_level s ∧ log_emergency_mode s' = log_emergency_mode s ∧
    ring_head (ring_buffer s') ≤ ring_head (ring_buffer s) + 511 ∧ log_outputs s' = log_outputs s ++ message_outputs s m ∧
    ring_view (ring_buffer s') =
      if recorded s m then log_append (ring_view (ring_buffer s)) (message_line m) else ring_view (ring_buffer s).
Proof.
  intros Hinit Hi Hw (Hstack & msg & Hr & Hm). unfold send, log_vwrite. rewrite Hinit. unfold recorded, message_outputs, shown, message_line.
  fold (in_emergency s m). rewrite Hr. unfold default, id. destruct ((m_level m <? active_log_level s) && negb (in_emergency s m)); cbn [negb andb].
  { exists s. rewrite app_nil_r. split_and!; try done. lia. }
  destruct (log_line_spec (m_env m) (m_level m) (m_format m) (m_args m) msg Hstack Hr Hm) as [rest ->]. cbn [mbind option_bind].
  set (line := line_of _). pose proof (length_line_of (prefix_text (m_env m) (m_level m) ++ msg)) as Hlen. fold line in Hlen.
  destruct (write_locked_spec (line ++ 0 :: rest) (Z.of_nat (length line)) (ring_buffer s) Hi) as (Hi' & Hv & Hh & _).
  { rewrite length_app. lia. }
  { unfold LOG_BUFFER_SIZE. lia. }
  { lia. }
  rewrite Nat2Z.id, take_app_length in Hv. rewrite c_string_app. eexists. split; [done|].
  destruct (in_emergency s m), (lock_is_free (m_env m)), (console_is_initialized (m_env m)); cbn; split_and!; try done; lia.
Qed.

Fixpoint send_all (ms : list message) (s : log_state) : option log_state :=
  match ms with [] => Some s | m :: ms => s ← send m s; send_all ms s end.

(** The lines that reach the ring. *)
Definition recorded_text (s : log_state) (ms : list message) : list Z := concat (message_line <$> filter (λ m, recorded s m = true) ms).

Lemma send_all_spec ms s text gone :
  log_initialized s = true → ring_inv (ring_buffer s) → ring_head (ring_buffer s) + 511 * Z.of_nat (length ms) < W64 →
  Forall message_ok ms → shows text gone (ring_view (ring_buffer s)) →
  ∃ s' gone', send_all ms s = Some s' ∧ ring_inv (ring_buffer s') ∧ shows (text ++ recorded_text s ms) gone' (ring_view (ring_buffer s')) ∧
    log_outputs s' = log_outputs s ++ concat (message_outputs s <$> ms).
Proof.
  revert s text gone. induction ms as [|m ms IH]; intros s text gone Hinit Hi Hw Hok Hs; cbn [send_all].
  { exists s, gone. unfold recorded_text. cbn. by rewrite !app_nil_r. }
  apply Forall_cons in Hok as [Hm Hok]. cbn [length] in Hw.
  destruct (send_spec m s Hinit Hi ltac:(lia) Hm) as (s1 & -> & Hinit1 & Hi1 & El & Ee & Hh & Ho & Hv). cbn [mbind option_bind].
  assert (∀ x, in_emergency s1 x = in_emergency s x) as Eem by (intros x; unfold in_emergency; by rewrite Ee).
  assert (∀ x, shown s1 x = shown s x) as Esh by (intros x; unfold shown; by rewrite Eem, El).
  assert (∀ x, recorded s1 x = recorded s x) as Erec by (intros x; unfold recorded; by rewrite Eem, Esh).
  assert (message_outputs s1 <$> ms = message_outputs s <$> ms) as Eout.
  { apply list_fmap_ext. intros i x _. unfold message_outputs. by rewrite Esh, Eem. }
  assert (recorded_text s1 ms = recorded_text s ms) as Etext.
  { unfold recorded_text. do 2 f_equal. apply list_filter_iff. intros x. by rewrite Erec. }
  assert (∃ gone1, shows (text ++ (if recorded s m then message_line m else [])) gone1 (ring_view (ring_buffer s1))) as [gone1 Hs1].
  { rewrite Hv. destruct (recorded s m); [|exists gone; by rewrite app_nil_r].
    apply (shows_append text gone); [done|apply last_line_of|apply length_line_of]. }
  destruct (IH s1 _ gone1 Hinit1 Hi1 ltac:(lia) Hok Hs1) as (s' & gone' & -> & Hi' & Hs' & Ho'). exists s', gone'. split_and!; [done|done| |].
  - rewrite Etext, <- app_assoc in Hs'. unfold recorded_text in *. rewrite filter_cons. case_decide as E.
    + rewrite E in Hs'. exact Hs'.
    + destruct (recorded s m); [done|exact Hs'].
  - rewrite Ho', Ho, Eout. cbn. by rewrite <- app_assoc.
Qed.

(** ** Readers *)

Lemma drop_ring_bytes d k n c : 0 ≤ c ≤ n → drop (Z.to_nat c) (ring_bytes d k n) = ring_bytes d (k + c) (n - c).
Proof.
  intros Hc. apply list_eq. intros i. rewrite lookup_drop, !lookup_ring_bytes by lia. repeat case_decide; try lia; [|done]. f_equal. f_equal. lia.
Qed.

Lemma take_ring_bytes d k n m : 0 ≤ m ≤ n → take (Z.to_nat m) (ring_bytes d k n) = ring_bytes d k m.
Proof.
  intros Hm. apply list_eq. intros i. destruct (decide (i < Z.to_nat m)%nat).
  - rewrite lookup_take_lt by done. rewrite !lookup_ring_bytes by lia. by rewrite !decide_True by lia.
  - rewrite lookup_take_ge by lia. rewrite lookup_ring_bytes by lia. by rewrite decide_False by lia.
Qed.

(** A read from a cursor copies what the view has from there on, as far as the buffer goes. *)
Lemma read_from_offset_spec cursor buf max_len s :
  ring_inv (ring_buffer s) → 0 ≤ cursor ≤ ring_head (ring_buffer s) → 0 < max_len →
  let r := ring_buffer s in
  let c := Z.max cursor (ring_tail r) in
  let n := Z.min (ring_head r - c) (max_len - 1) in
  log_read_from_offset (Some cursor) (Some buf) max_len s =
    (n, Some (c + n), Some (splice buf 0 (take (Z.to_nat n) (drop (Z.to_nat (c - ring_tail r)) (ring_view r)) ++ [0]))).
Proof.
  intros Hi Hc Hm r c n. pose proof Hi as [Hd Ht Hh Hu _]. unfold log_read_from_offset. rewrite (proj2 (Z.eqb_neq max_len 0)) by lia.
  fold r in Ht, Hh, Hu, Hc |- *. assert ((if cursor <? ring_tail r then ring_tail r else cursor) = c) as -> by (unfold c; destruct (Z.ltb_spec cursor (ring_tail r)); lia).
  unfold ring_view. rewrite drop_ring_bytes, take_ring_bytes by (unfold n, c; lia). replace (ring_tail r + (c - ring_tail r)) with c by lia.
  destruct (Z.geb_spec c (ring_head r)).
  - assert (n = 0) as -> by (unfold n, c in *; lia). by rewrite Z.add_0_r.
  - assert ((if ring_head r - c <? max_len - 1 then ring_head r - c else max_len - 1) = n) as -> by (unfold n; destruct (Z.ltb_spec (ring_head r - c) (max_len - 1)); lia).
    rewrite (u64_small (c + n)) by (unfold is_u64, n, c; lia). done.
Qed.

(** Reads until nothing is left. *)
Fixpoint read_all (n : nat) (cursor : Z) (buf : list Z) (max_len : Z) (s : log_state) : list Z * Z :=
  match n with
  | O => ([], cursor)
  | S n =>
      match log_read_from_offset (Some cursor) (Some buf) max_len s with
      | (k, Some cursor, Some buf) => if k =? 0 then ([], cursor) else let '(rest, cursor) := read_all n cursor buf max_len s in (take (Z.to_nat k) buf ++ rest, cursor)
      | _ => ([], cursor)
      end
  end.

Lemma read_all_spec n cursor buf max_len s :
  let r := ring_buffer s in
  ring_inv r → 0 ≤ cursor ≤ ring_head r → 2 ≤ max_len ≤ Z.of_nat (length buf) → ring_head r - Z.max cursor (ring_tail r) < Z.of_nat n →
  read_all n cursor buf max_len s = (drop (Z.to_nat (Z.max cursor (ring_tail r) - ring_tail r)) (ring_view r), ring_head r).
Proof.
  intros r Hi. pose proof Hi as [Hd Ht Hh Hu _]. assert (Z.of_nat (length (ring_view r)) = ring_head r - ring_tail r) as Hlv by (apply length_ring_bytes; lia).
  revert cursor buf. induction n as [|n IH]; intros cursor buf Hc Hm Hn; [lia|].
  cbn [read_all]. rewrite read_from_offset_spec by (done || lia). fold r. set (c := Z.max cursor (ring_tail r)) in *.
  set (k := Z.min (ring_head r - c) (max_len - 1)). set (rest := drop (Z.to_nat (c - ring_tail r)) (ring_view r)).
  assert (Z.of_nat (length rest) = ring_head r - c) as Hrest by (unfold rest; rewrite length_drop; lia).
  destruct (Z.eqb_spec k 0) as [E|Hk]; cbv beta iota.
  - assert (ring_head r = c) as Ec by (unfold k in E; lia). assert (length rest = 0%nat) as E0 by lia. destruct rest; [|done]. rewrite E. f_equal. lia.
  - set (part := take (Z.to_nat k) rest). assert (Z.of_nat (length part) = k) as Hpart by (unfold part; rewrite length_take; lia).
    rewrite IH; [| |rewrite length_splice; rewrite ?length_app; cbn [length]; unfold k in *; lia|unfold k in *; lia]; [|unfold k in *; lia].
    f_equal. assert (take (Z.to_nat k) (splice buf 0 (part ++ [0])) = part) as ->.
    { unfold splice. rewrite take_0. cbn [app]. rewrite <- app_assoc. apply take_app_length'. lia. }
    assert (Z.max (c + k) (ring_tail r) = c + k) as -> by (unfold k, c in *; lia).
    unfold part, rest. replace (Z.to_nat (c + k - ring_tail r)) with (Z.to_nat (c - ring_tail r) + Z.to_nat k)%nat by (unfold k, c in *; lia).
    rewrite <- drop_drop. apply take_drop.
Qed.

(** ** The theorems *)

(** C27: after [log_init], a sequence of messages leaves in the ring the newest whole lines of the text that was recorded: what was dropped ends at a newline, and at least 65025 bytes are kept once there are so many; each line is the prefix and the message, cut to 511 bytes with one newline at its end, and the serial port and the console get the same lines. *)
Theorem log_messages_spec ms s :
  Z.of_nat (length (ring_data (ring_buffer s))) = LOG_BUFFER_SIZE → 511 * Z.of_nat (length ms) < W64 → Forall message_ok ms →
  ∃ s' gone, send_all ms (log_init s) = Some s' ∧
    recorded_text (log_init s) ms = gone ++ ring_view (ring_buffer s') ∧ ends_line gone ∧
    Z.min (Z.of_nat (length (recorded_text (log_init s) ms))) (LOG_BUFFER_SIZE - 511) ≤ Z.of_nat (length (ring_view (ring_buffer s'))) ∧
    log_outputs s' = log_outputs s ++ concat (message_outputs (log_init s) <$> ms).
Proof.
  intros Hd Hw Hok. destruct (send_all_spec ms (log_init s) [] []) as (s' & gone & E & _ & [Ht Hg _ _ Hm] & Ho); [done| |exact Hw|done| |].
  - split; cbn [log_init ring_buffer ring_data ring_head ring_tail dropped_bytes]; [by rewrite length_insert|lia|unfold W64; lia|unfold LOG_BUFFER_SIZE; lia|unfold is_u64, W64; lia].
  - split; [done|by left|by left| |]; [intros k Hk; cbn [length] in Hk; lia|]. unfold LOG_BUFFER_SIZE. cbn. lia.
  - exists s', gone. by split_and!.
Qed.

(** A reader that calls [log_read_from_offset] with its cursor until it returns 0, with a buffer of two bytes or more, gets everything the ring shows from its position on, once and in order, and ends at the head; one that fell behind goes on at the oldest line. *)
Theorem log_reader_spec n cursor buf max_len s :
  ring_inv (ring_buffer s) → 0 ≤ cursor ≤ ring_head (ring_buffer s) → 2 ≤ max_len ≤ Z.of_nat (length buf) → LOG_BUFFER_SIZE < Z.of_nat n →
  read_all n cursor buf max_len s =
    (drop (Z.to_nat (Z.max cursor (ring_tail (ring_buffer s)) - ring_tail (ring_buffer s))) (ring_view (ring_buffer s)), ring_head (ring_buffer s)).
Proof. intros Hi Hc Hm Hn. pose proof Hi as [_ Ht _ Hu _]. apply read_all_spec; [done|done|done|lia]. Qed.

(** ** Examples *)

Definition demo_env : log_env := LogEnv true 100 12345 7 false true true (replicate 512 1).
Definition demo_log : log_state := LogState (Ring (replicate (Z.to_nat LOG_BUFFER_SIZE) 7) 10 5 0 0 0) LOG_LEVEL_INFO false false [].

Lemma demo_log_length : Z.of_nat (length (ring_data (ring_buffer demo_log))) = LOG_BUFFER_SIZE.
Proof. cbn [demo_log ring_buffer ring_data]. rewrite length_replicate. by rewrite Z2Nat.id. Qed.

Lemma log_messages_spec_witness :
  ∃ s' gone, send_all [Message demo_env LOG_LEVEL_WARN [72; 105] []] (log_init demo_log) = Some s' ∧
    recorded_text (log_init demo_log) [Message demo_env LOG_LEVEL_WARN [72; 105] []] = gone ++ ring_view (ring_buffer s').
Proof.
  destruct (log_messages_spec [Message demo_env LOG_LEVEL_WARN [72; 105] []] demo_log demo_log_length) as (s' & gone & E & Et & _).
  - unfold W64. cbn. lia.
  - constructor; [|constructor]. split; [reflexivity|]. exists [72; 105]. split; [reflexivity|unfold INT_MAX; cbn; lia].
  - exists s', gone. by split.
Defined.

Lemma log_reader_spec_witness :
  (read_all (S (Z.to_nat LOG_BUFFER_SIZE)) 3 [0; 0] 2 demo_log).2 = 10.
Proof.
  rewrite log_reader_spec; [reflexivity| |cbn; lia|cbn; lia|lia].
  split; [exact demo_log_length|cbn; lia|unfold W64; cbn; lia|unfold LOG_BUFFER_SIZE; cbn; lia|unfold is_u64, W64; cbn; lia].
Defined.

(** The line of a message. *)
Example message_line_text : c_string (message_line (Message demo_env LOG_LEVEL_WARN [72; 105] [])) =
  [91; 32; 32; 49; 50; 51; 46; 52; 53; 48; 93; 32; 91; 84; 73; 68; 32; 55; 93; 32; 91; 87; 65; 82; 78; 32; 93; 32; 72; 105; 10].
Proof. vm_compute. reflexivity. Qed.
