(* ===== verification/Partition.v ===== *)
(** * Partition tables (src/fs/partition.c, src/include/kos/partition.h)

    The CRC-32 of the GPT, its GUID format, and the scan of a disk for GPT and MBR
    partitions, which registers a child device for each valid entry.  A buffer is
    the list of its bytes and a packed structure over it is read field by field.
    The entries of a GPT are read at offsets computed from the disk's contents: a
    read outside the buffer is the result [None]. *)

From Stdlib Require Import ZArith Lia.
From stdpp Require Import gmap.
From S2P Require Import Prelude Inet Bytes Block.
#[local] Open Scope Z_scope.

(** ** CRC-32 *)

(** One round of the inner loop. *)
Definition crc_bit (crc : Z) : Z :=
  let mask := u32 (- Z.land crc 1) in Z.lxor (Z.shiftr crc 1) (Z.land 0xEDB88320 mask).

Definition crc_byte (crc byte : Z) : Z := Nat.iter 8 crc_bit (Z.lxor crc byte).

Definition partition_crc32 (data : list Z) : Z :=
  match data with [] => 0 | _ => not32 (fold_left crc_byte data 0xFFFFFFFF) end.

(** ** GUIDs *)

Definition hex_digits : list Z := [48; 49; 50; 51; 52; 53; 54; 55; 56; 57; 65; 66; 67; 68; 69; 70].
Definition hex_digit (n : Z) : Z := default 0 (hex_digits !! Z.to_nat n).

Definition hex_byte (guid : list Z) (i : Z) : list Z :=
  let b := byte_at guid i in [hex_digit (Z.land (Z.shiftr b 4) 15); hex_digit (Z.land b 15)].

Definition partition_format_guid (guid : list Z) : list Z :=
  concat (hex_byte guid <$> [3; 2; 1; 0]) ++ [45] ++ concat (hex_byte guid <$> [5; 4]) ++ [45] ++
  concat (hex_byte guid <$> [7; 6]) ++ [45] ++ concat (hex_byte guid <$> [8; 9]) ++ [45] ++
  concat (hex_byte guid <$> [10; 11; 12; 13; 14; 15]) ++ [0].

Definition guid_is_zero (guid : list Z) : bool := forallb (λ b, b =? 0) guid.

(** ** GPT *)

Definition MBR_BOOT_SIGNATURE : Z := 0xAA55.
Definition MBR_PARTITION_COUNT : nat := 4.
Definition MBR_GPT_PROTECTIVE_TYPE : Z := 0xEE.
Definition MBR_TYPE_EMPTY : Z := 0.

Definition GPT_SIGNATURE : list Z := [69; 70; 73; 32; 80; 65; 82; 84].
Definition GPT_ENTRY_SIZE : Z := 128.

Section scan.
Context {D : Type}.
Implicit Types s : block_state D.

(** [block_read] of a disk, which has no parents to go through. *)
Definition read_disk (p : nat) (lba count : Z) s : option (list Z) :=
  match block_read 1 (Some p) lba count s with Some sectors => Some (concat sectors) | None => None end.

(** The loop over the entries. *)
Fixpoint gpt_loop (entries : list Z) (entry_size : Z) (total : Z) (p : nat) (n : nat) (i valid : Z) s
  : option (Z * block_state D) :=
  match n with
  | O => Some (valid, s)
  | S n =>
      let off := u32 (i * entry_size) in
      if off + GPT_ENTRY_SIZE >? Z.of_nat (length entries) then None
      else
        let starting := u64_at entries (off + 32) in
        let ending := u64_at entries (off + 40) in
        if guid_is_zero (slice entries off 16) then gpt_loop entries entry_size total p n (i + 1) valid s
        else if (starting >? ending) || (ending >=? total) then gpt_loop entries entry_size total p n (i + 1) valid s
        else
          let count := u64 (ending - starting + 1) in
          let valid := u32 (valid + 1) in
          let s := (block_partition_register (Some p) valid starting count 0xEE
                      (Some (slice entries (off + 16) 16)) s).2 in
          gpt_loop entries entry_size total p n (i + 1) valid s
  end.

(** The header as the checks leave it: the number and size of the entries and
    where they are. *)
Definition gpt_header (sector : list Z) : option (Z * Z * Z) :=
  if negb (bool_decide (slice sector 0 8 = GPT_SIGNATURE)) then None
  else
    let header_size := u32_at sector 12 in
    if (header_size <? 92) || (header_size >? 512) then None
    else
      let orig_crc := u32_at sector 16 in
      let calc_crc := partition_crc32 (take (Z.to_nat header_size) (splice sector 16 [0; 0; 0; 0])) in
      if negb (calc_crc =? orig_crc) then None
      else
        let num_entries := u32_at sector 80 in
        let entry_size := u32_at sector 84 in
        let entry_size := if entry_size <? GPT_ENTRY_SIZE then GPT_ENTRY_SIZE else entry_size in
        let num_entries := if num_entries >? 128 then 128 else num_entries in
        Some (num_entries, entry_size, u64_at sector 72).

(** [allocated] is whether [kmalloc] succeeds. *)
Definition partition_scan_gpt (allocated : bool) (p : nat) (dev : block_device D) s
  : option (Z * block_state D) :=
  if total_blocks dev <? 34 then Some (0, s)
  else
    match read_disk p 1 1 s with
    | None => Some (0, s)
    | Some sector =>
        match gpt_header sector with
        | None => Some (0, s)
        | Some (num_entries, entry_size, entries_lba) =>
            let entries_bytes := u32 (num_entries * entry_size) in
            let bs := u32 (block_size dev) in
            let entries_sectors := u32 (entries_bytes + bs - 1) / bs in
            if negb allocated then Some (0, s)
            else
              match read_disk p entries_lba entries_sectors s with
              | None => Some (0, s)
              | Some entries => gpt_loop entries entry_size (total_blocks dev) p (Z.to_nat num_entries) 0 0 s
              end
        end
    end.

(** ** MBR *)

Fixpoint mbr_loop (sector : list Z) (total : Z) (p : nat) (n : nat) (i valid : Z) s : Z * block_state D :=
  match n with
  | O => (valid, s)
  | S n =>
      let e := 446 + 16 * i in
      let ty := u8_at sector (e + 4) in
      let start := u32_at sector (e + 8) in
      let count := u32_at sector (e + 12) in
      if (ty =? MBR_TYPE_EMPTY) || (count =? 0) then mbr_loop sector total p n (i + 1) valid s
      else if u64 (start + count) >? total then mbr_loop sector total p n (i + 1) valid s
      else
        let valid := u32 (valid + 1) in
        let s := (block_partition_register (Some p) valid start count ty None s).2 in
        mbr_loop sector total p n (i + 1) valid s
  end.

Definition partition_scan_mbr (allocated : bool) (p : nat) (dev : block_device D) s
  : option (Z * block_state D) :=
  match read_disk p 0 1 s with
  | None => Some (0, s)
  | Some sector =>
      if negb (u16_at sector 510 =? MBR_BOOT_SIGNATURE) then Some (0, s)
      else
        let mbr s := mbr_loop sector (total_blocks dev) p MBR_PARTITION_COUNT 0 0 s in
        if u8_at sector 450 =? MBR_GPT_PROTECTIVE_TYPE then
          match partition_scan_gpt allocated p dev s with
          | None => None
          | Some (gpt_count, s) => if gpt_count >? 0 then Some (gpt_count, s) else Some (mbr s)
          end
        else Some (mbr s)
  end.

Definition is_partition_type (t : block_device_type) : bool :=
  match t with BLOCK_TYPE_PARTITION => true | _ => false end.

Definition partition_scan (allocated : bool) (p : option nat) s : option (Z * block_state D) :=
  match p with
  | None => Some (0, s)
  | Some p =>
      match device p s with
      | None => Some (0, s)
      | Some dev =>
          if negb (bool_decide (state dev = BLOCK_DEVICE_ONLINE)) || is_partition_type (type dev) then Some (0, s)
          else partition_scan_mbr allocated p dev s
      end
  end.

End scan.

(** The check value of CRC-32, and a GUID in its printed form. *)
Example crc32_check : partition_crc32 [49; 50; 51; 52; 53; 54; 55; 56; 57] = 0xCBF43926.
Proof. reflexivity. Qed.

Example guid_example :
  partition_format_guid [40; 115; 42; 193; 31; 248; 210; 17; 186; 75; 0; 160; 201; 62; 201; 59] =
  [67; 49; 50; 65; 55; 51; 50; 56; 45; 70; 56; 49; 70; 45; 49; 49; 68; 50; 45; 66; 65; 52; 66; 45;
   48; 48; 65; 48; 67; 57; 51; 69; 67; 57; 51; 66; 0].
Proof. reflexivity. Qed.
