(* ===== verification/PartitionSpec.v ===== *)
(** * What the partition scan guarantees (src/fs/partition.c)

    The CRC-32 is that of IEEE 802.3, a division by the generator polynomial, and
    detects every change confined to four consecutive bytes; the scan
    keeps the registry of block devices well formed, touches no registered device,
    and registers the valid entries of the table in order. *)

From Stdlib Require Import ZArith Lia.
From stdpp Require Import gmap.
From S2P Require Import Prelude Inet Bytes Block BlockSpec Partition.
#[local] Open Scope Z_scope.

(** ** The CRC step is linear and one-to-one *)

Lemma land_one c : Z.land c 1 = Z.b2z (Z.odd c).
Proof. change 1 with (Z.ones 1). rewrite Z.land_ones by lia. change (2 ^ 1) with 2. rewrite Zmod_odd. by destruct (Z.odd c). Qed.

Lemma crc_bit_eq c : crc_bit c = Z.lxor (Z.shiftr c 1) (if Z.odd c then 0xEDB88320 else 0).
Proof. unfold crc_bit. rewrite land_one. by destruct (Z.odd c). Qed.

Lemma crc_byte_eq c b : crc_byte c b = Nat.iter 8 crc_bit (Z.lxor c b).
Proof. done. Qed.

#[local] Opaque crc_bit crc_byte.

Lemma odd_lxor a b : Z.odd (Z.lxor a b) = xorb (Z.odd a) (Z.odd b).
Proof. by rewrite <- !Z.bit0_odd, Z.lxor_spec. Qed.

Lemma crc_bit_lxor a b : crc_bit (Z.lxor a b) = Z.lxor (crc_bit a) (crc_bit b).
Proof.
  rewrite !crc_bit_eq, Z.shiftr_lxor, odd_lxor. set (x := Z.shiftr a 1). set (y := Z.shiftr b 1).
  destruct (Z.odd a), (Z.odd b); cbn [xorb]; rewrite ?Z.lxor_0_r; try done.
  - rewrite !Z.lxor_assoc. f_equal. rewrite (Z.lxor_comm _ (Z.lxor y _)), Z.lxor_assoc, Z.lxor_nilpotent. by rewrite Z.lxor_0_r.
  - rewrite !Z.lxor_assoc. f_equal. apply Z.lxor_comm.
  - by rewrite Z.lxor_assoc.
Qed.

Lemma crc_bit_u32 c : is_u32 c → is_u32 (crc_bit c).
Proof.
  intros Hc. rewrite crc_bit_eq. apply lxor_u32; [|by destruct (Z.odd c)].
  unfold is_u32 in *. rewrite Z.shiftr_div_pow2 by lia. change (2 ^ 1) with 2. zsolve.
Qed.

Lemma crc_bit_zero c : is_u32 c → crc_bit c = 0 → c = 0.
Proof.
  intros Hc E. rewrite crc_bit_eq in E. apply Z.lxor_eq in E.
  rewrite Z.shiftr_div_pow2 in E by lia. change (2 ^ 1) with 2 in E. destruct (Z.odd c) eqn:Eo; cbv iota in E.
  - unfold is_u32 in Hc. assert (c / 2 < 2147483648) by (apply Z.div_lt_upper_bound; lia). lia.
  - rewrite <- Z.negb_even, negb_false_iff in Eo.
    apply Z.even_spec in Eo as [k ->]. rewrite Z.mul_comm, Z.div_mul in E; lia.
Qed.

Lemma iter_lxor n a b : Nat.iter n crc_bit (Z.lxor a b) = Z.lxor (Nat.iter n crc_bit a) (Nat.iter n crc_bit b).
Proof. induction n as [|n IH]; simpl; [done|]. by rewrite IH, crc_bit_lxor. Qed.

Lemma iter_u32 n c : is_u32 c → is_u32 (Nat.iter n crc_bit c).
Proof. intros Hc. induction n as [|n IH]; simpl; [done|]. by apply crc_bit_u32. Qed.

Lemma iter_zero n c : is_u32 c → Nat.iter n crc_bit c = 0 → c = 0.
Proof.
  intros Hc. induction n as [|n IH]; simpl; [done|]. intros E. apply IH, crc_bit_zero; [by apply iter_u32|done].
Qed.

Lemma iter_inj n a b : is_u32 a → is_u32 b → Nat.iter n crc_bit a = Nat.iter n crc_bit b → a = b.
Proof.
  intros Ha Hb E. apply Z.lxor_eq, (iter_zero n); [by apply lxor_u32|]. by rewrite iter_lxor, E, Z.lxor_nilpotent.
Qed.

Lemma iter_shift n x : 0 ≤ x → Nat.iter n crc_bit (2 ^ Z.of_nat n * x) = x.
Proof.
  intros Hx. induction n as [|n IH]; [simpl; lia|]. rewrite Nat.iter_succ_r.
  rewrite Nat2Z.inj_succ, Z.pow_succ_r, <- Z.mul_assoc by lia.
  replace (crc_bit (2 * (2 ^ Z.of_nat n * x))) with (2 ^ Z.of_nat n * x); [done|].
  rewrite crc_bit_eq, Z.odd_mul. cbn [Z.odd andb]. rewrite Z.lxor_0_r, Z.shiftr_div_pow2 by lia.
  change (2 ^ 1) with 2. symmetry. rewrite (Z.mul_comm 2). by apply Z.div_mul.
Qed.

(** ** Runs over bytes *)

Lemma fold_left_cons {A B} (f : A → B → A) b l a : fold_left f (b :: l) a = fold_left f l (f a b).
Proof. done. Qed.

Lemma crc_byte_u32 c b : is_u32 c → is_u8 b → is_u32 (crc_byte c b).
Proof. intros Hc Hb. rewrite crc_byte_eq. apply iter_u32, lxor_u32; [done|]. unfold is_u8, is_u32 in *. lia. Qed.

Lemma crc_fold_u32 l : ∀ c, is_u32 c → Forall is_u8 l → is_u32 (fold_left crc_byte l c).
Proof.
  induction l as [|b l IH]; intros c Hc Hl; [done|]. rewrite fold_left_cons. apply Forall_cons in Hl as [Hb Hl].
  apply IH; [by apply crc_byte_u32|done].
Qed.

Lemma crc_fold_inj l : ∀ c d, is_u32 c → is_u32 d → Forall is_u8 l →
  fold_left crc_byte l c = fold_left crc_byte l d → c = d.
Proof.
  induction l as [|b l IH]; intros c d Hc Hd Hl; [done|]. rewrite !fold_left_cons. apply Forall_cons in Hl as [Hb Hl]. intros E.
  apply IH in E; [|by apply crc_byte_u32..|done].
  rewrite !crc_byte_eq in E. apply iter_inj in E; [|apply lxor_u32; [done|unfold is_u8, is_u32 in *; lia]..].
  rewrite <- (Z.lxor_0_r c), <- (Z.lxor_nilpotent b), <- Z.lxor_assoc, E, Z.lxor_assoc, Z.lxor_nilpotent.
  apply Z.lxor_0_r.
Qed.

Lemma lxor_le_cons b l : is_u8 b → Forall is_u8 l → Z.lxor b (256 * le_int l) = le_int (b :: l).
Proof.
  intros Hb Hl. pose proof (le_int_bound l Hl) as [H0 _]. unfold is_u8 in Hb. cbn [le_int].
  rewrite Z.lxor_comm. rewrite Z.lxor_lor.
  - rewrite Z.mul_comm. change 256 with (2 ^ 8). rewrite lor_mul_pow2 by lia. lia.
  - apply Z.bits_inj'. intros k Hk. rewrite Z.land_spec, Z.bits_0. destruct (Z.ltb_spec k 8).
    + rewrite Z.mul_comm. change 256 with (2 ^ 8). rewrite Z.mul_pow2_bits_low by lia. done.
    + rewrite (testbit_high b 8) by lia. apply andb_false_r.
Qed.

(** Up to four bytes are one shift of their little-endian value. *)
Lemma crc_fold_word l : ∀ c, is_u32 c → Forall is_u8 l → (length l ≤ 4)%nat →
  fold_left crc_byte l c = Nat.iter (8 * length l) crc_bit (Z.lxor c (le_int l)).
Proof.
  induction l as [|b l IH]; intros c Hc Hl Hlen; [by rewrite Z.lxor_0_r|]. rewrite fold_left_cons. cbn [length].
  apply Forall_cons in Hl as [Hb Hl]. cbn [length] in Hlen. rewrite IH by (by apply crc_byte_u32 || lia || done).
  pose proof (le_int_bound l Hl) as [H0 _].
  rewrite <- (iter_shift 8 (le_int l)) at 1 by done. rewrite crc_byte_eq, <- iter_lxor, <- Nat.iter_add.
  replace (8 * length l + 8)%nat with (8 * S (length l))%nat by lia. f_equal.
  change (2 ^ Z.of_nat 8) with 256. by rewrite Z.lxor_assoc, lxor_le_cons.
Qed.

Lemma not32_inj a b : is_u32 a → is_u32 b → not32 a = not32 b → a = b.
Proof.
  unfold not32, u32, is_u32, Z.lnot. intros Ha Hb E.
  assert (∀ x, 0 ≤ x < 4294967296 → Z.pred (- x) mod 4294967296 = 4294967295 - x) as H.
  { intros x Hx. symmetry. apply (Z.mod_unique _ _ (-1)); lia. }
  rewrite !H in E by done. lia.
Qed.

(** the CRC-32 that guards the GPT header detects every change that is
    confined to four consecutive bytes, whatever the length of the data and
    wherever the change lies. *)
Theorem crc32_detects_bursts pre a b post :
  Forall is_u8 (pre ++ a ++ post) → Forall is_u8 b → length a = length b → (length a ≤ 4)%nat → a ≠ b →
  partition_crc32 (pre ++ a ++ post) ≠ partition_crc32 (pre ++ b ++ post).
Proof.
  rewrite !Forall_app. intros (Hpre & Ha & Hpost) Hb Hlen H4 Hne E.
  assert (∀ l, l ≠ [] → partition_crc32 l = not32 (fold_left crc_byte l 0xFFFFFFFF)) as Hcrc by (by intros [|]).
  assert (is_u32 0xFFFFFFFF) as Hs by (unfold is_u32; lia).
  pose proof (crc_fold_u32 pre _ Hs Hpre) as Hp.
  assert (a ≠ [] ∧ b ≠ []) as [Hna Hnb] by (destruct a, b; done).
  rewrite !Hcrc in E; [|intros [_ [? _]%app_eq_nil]%app_eq_nil; done..].
  rewrite !fold_left_app in E. set (s := fold_left crc_byte pre _) in *. clearbody s.
  apply not32_inj in E; [|apply crc_fold_u32; [apply crc_fold_u32|]; done..].
  apply crc_fold_inj in E; [|apply crc_fold_u32; done..|done].
  rewrite !crc_fold_word in E by (done || lia). rewrite <- Hlen in E.
  assert (∀ l, Forall is_u8 l → (length l ≤ 4)%nat → is_u32 (le_int l)) as Hword.
  { intros l Hl Hl4. pose proof (le_int_bound l Hl) as [? ?]. unfold is_u32. split; [done|].
    eapply Z.lt_le_trans; [done|]. change 4294967296 with (256 ^ 4). apply Z.pow_le_mono_r; lia. }
  apply iter_inj in E; [|apply lxor_u32; [done|apply Hword; [done|lia]]..].
  apply Hne, le_int_inj; try done. rewrite <- (Z.lxor_0_l (le_int a)), <- (Z.lxor_nilpotent s), Z.lxor_assoc, E.
  by rewrite <- Z.lxor_assoc, Z.lxor_nilpotent, Z.lxor_0_l.
Qed.

(** ** CRC-32 as a division

    The CRC-32 of IEEE 802.3 (and of UEFI): the message, each byte with its least
    significant bit first, goes through a 32-bit register that holds the remainder
    modulo the generator polynomial; the register starts with ones and is
    complemented at the end.  It is written as the list of its coefficients, that
    of x^31 first. *)

Definition generator_exponents : list nat := [26; 23; 22; 16; 12; 11; 10; 8; 7; 5; 4; 2; 1; 0]%nat.

Definition generator : list bool := (λ i : nat, bool_decide ((31 - i)%nat ∈ generator_exponents)) <$> seq 0 32.

(** Multiply the remainder by x and take in one bit of the message. *)
Definition divide (register : list bool) (bit : bool) : list bool :=
  let shifted := tail register ++ [false] in
  if xorb (default false (head register)) bit then zip_with xorb shifted generator else shifted.

Definition message_bits (data : list Z) : list bool :=
  data ≫= (λ b, Z.testbit b <$> seqZ 0 8).

Fixpoint bits_value (bits : list bool) : Z :=
  match bits with [] => 0 | b :: bits => Z.b2z b + 2 * bits_value bits end.

(** The coefficient of x^31 is the least significant bit of the result. *)
Definition ieee_crc32 (data : list Z) : Z :=
  bits_value (negb <$> fold_left divide (message_bits data) (replicate 32 true)).

(** The register that the code keeps in a word. *)
Definition register_of (c : Z) : list bool := Z.testbit c <$> seqZ 0 32.

Lemma lookup_register c i : (i < 32)%nat → register_of c !! i = Some (Z.testbit c (Z.of_nat i)).
Proof. intros H. unfold register_of. rewrite list_lookup_fmap, lookup_seqZ_lt by lia. cbn. by rewrite Z.add_0_l. Qed.

Lemma length_register c : length (register_of c) = 32%nat.
Proof. unfold register_of. by rewrite length_fmap, length_seqZ. Qed.

Lemma generator_bits : generator = register_of 0xEDB88320.
Proof. vm_compute. reflexivity. Qed.

Lemma shifted_register c :
  is_u32 c → tail (register_of c) ++ [false] = register_of (Z.shiftr c 1).
Proof.
  intros Hc. apply list_eq. intros i. destruct (decide (i < 32)%nat) as [Hi|Hi].
  - rewrite lookup_register, Z.shiftr_spec by lia. destruct (decide (i = 31)%nat) as [->|Hne].
    + rewrite lookup_app_r; rewrite length_tl, length_register; [|done]. cbn.
      rewrite (testbit_high c 32) by (unfold is_u32 in Hc; lia). done.
    + rewrite lookup_app_l by (rewrite length_tl, length_register; lia).
      rewrite lookup_tail, lookup_register by lia. do 2 f_equal. lia.
  - rewrite !lookup_ge_None_2; [done|rewrite length_register; lia|].
    rewrite length_app, length_tl, length_register. cbn. lia.
Qed.

Lemma register_lxor a b : zip_with xorb (register_of a) (register_of b) = register_of (Z.lxor a b).
Proof.
  unfold register_of. rewrite zip_with_fmap_l, zip_with_fmap_r, zip_with_diag.
  apply list_fmap_ext. intros i x _. by rewrite Z.lxor_spec.
Qed.

Lemma divide_register c bit :
  is_u32 c → divide (register_of c) bit = register_of (crc_bit (Z.lxor c (Z.b2z bit))).
Proof.
  intros Hc. unfold divide. rewrite shifted_register, generator_bits by done.
  change (default false (head (register_of c))) with (Z.testbit c 0).
  rewrite crc_bit_eq, odd_lxor, <- Z.bit0_odd.
  assert (Z.shiftr (Z.lxor c (Z.b2z bit)) 1 = Z.shiftr c 1) as ->.
  { rewrite Z.shiftr_lxor. replace (Z.shiftr (Z.b2z bit) 1) with 0 by (by destruct bit). apply Z.lxor_0_r. }
  replace (Z.odd (Z.b2z bit)) with bit by (by destruct bit).
  destruct (xorb _ _); [by rewrite register_lxor|by rewrite Z.lxor_0_r].
Qed.

(** One bit of a byte that is already in the word, the other bits behind it. *)
Lemma crc_bit_byte c b : 0 ≤ b →
  crc_bit (Z.lxor c b) = Z.lxor (crc_bit (Z.lxor c (Z.b2z (Z.odd b)))) (b / 2).
Proof.
  intros Hb. pose proof (iter_shift 1 (b / 2) ltac:(zsolve)) as Hs. change (2 ^ Z.of_nat 1) with 2 in Hs. cbn [Nat.iter] in Hs.
  rewrite <- Hs at 1. rewrite <- crc_bit_lxor, Z.lxor_assoc. do 2 f_equal.
  rewrite (Z.div_mod b 2) at 1 by lia. rewrite Zmod_odd, Z.add_comm. symmetry.
  assert (0 ≤ b / 2) by zsolve. rewrite Z.lxor_comm.
  transitivity (Z.lxor (b / 2 * 2 ^ 1) (Z.b2z (Z.odd b))); [f_equal; change (2 ^ 1) with 2; lia|].
  rewrite Z.lxor_lor.
  - rewrite lor_mul_pow2 by (destruct (Z.odd b); cbn; lia). change (2 ^ 1) with 2. destruct (Z.odd b); cbn; lia.
  - apply Z.bits_inj'. intros k Hk. rewrite Z.land_spec, Z.bits_0. destruct (Z.ltb_spec k 1).
    + rewrite Z.mul_pow2_bits_low by lia. done.
    + rewrite (testbit_high (Z.b2z _) 1) by (destruct (Z.odd b); cbn; lia). apply andb_false_r.
Qed.

Lemma seqZ_shifted n : seqZ (Z.succ 0) (Z.pred (Z.of_nat (S n))) = Z.add 1 <$> seqZ 0 (Z.of_nat n).
Proof. rewrite fmap_add_seqZ. f_equal. lia. Qed.

Lemma divide_bits n : ∀ c b, is_u32 c → 0 ≤ b < 2 ^ Z.of_nat n → is_u32 b →
  fold_left divide (Z.testbit b <$> seqZ 0 (Z.of_nat n)) (register_of c)
  = register_of (Nat.iter n crc_bit (Z.lxor c b)).
Proof.
  induction n as [|n IH]; intros c b Hc Hb Hu.
  { change (2 ^ Z.of_nat 0) with 1 in Hb. replace b with 0 by lia. by rewrite Z.lxor_0_r. }
  rewrite Nat2Z.inj_succ, Z.pow_succ_r in Hb by lia. rewrite Nat.iter_succ_r, crc_bit_byte by lia.
  rewrite seqZ_cons by lia. rewrite fmap_cons, fold_left_cons, divide_register, Z.bit0_odd by done.
  assert (Hbit : ∀ x : bool, is_u32 (Z.b2z x)) by (intros []; unfold is_u32; cbn; lia).
  rewrite <- IH; [|by apply crc_bit_u32, lxor_u32|zsolve|unfold is_u32 in *; zsolve].
  f_equal. rewrite seqZ_shifted, <- list_fmap_compose. apply list_fmap_ext. intros i x Hx.
  apply lookup_seqZ in Hx as [-> _]. cbn. change 2 with (2 ^ 1). rewrite <- Z.shiftr_div_pow2, Z.shiftr_spec by lia.
  f_equal. lia.
Qed.

Lemma divide_data data : ∀ c, is_u32 c → Forall is_u8 data →
  fold_left divide (message_bits data) (register_of c) = register_of (fold_left crc_byte data c).
Proof.
  induction data as [|b data IH]; intros c Hc Hd; [done|]. apply Forall_cons in Hd as [Hb Hd].
  unfold message_bits. rewrite bind_cons, fold_left_app, fold_left_cons.
  change (seqZ 0 8) with (seqZ 0 (Z.of_nat 8)). rewrite (divide_bits 8 c b Hc) by (unfold is_u8, is_u32 in *; cbn; lia).
  rewrite <- crc_byte_eq. apply IH; [by apply crc_byte_u32|done].
Qed.

Lemma bits_value_register n : ∀ c, 0 ≤ c < 2 ^ Z.of_nat n → bits_value (Z.testbit c <$> seqZ 0 (Z.of_nat n)) = c.
Proof.
  induction n as [|n IH]; intros c Hc.
  { change (2 ^ Z.of_nat 0) with 1 in Hc. by replace c with 0 by lia. }
  rewrite Nat2Z.inj_succ, Z.pow_succ_r in Hc by lia. rewrite seqZ_cons by lia.
  rewrite fmap_cons. cbn [bits_value]. rewrite Z.bit0_odd.
  rewrite seqZ_shifted, <- list_fmap_compose.
  rewrite (list_fmap_ext _ (Z.testbit (c / 2))).
  - rewrite IH by zsolve. pose proof (Zmod_odd c) as Ho. unfold Z.b2z. rewrite <- Ho. zsolve.
  - intros i x Hx. apply lookup_seqZ in Hx as [-> _]. cbn. change 2 with (2 ^ 1).
    rewrite <- Z.shiftr_div_pow2, Z.shiftr_spec by lia. f_equal. lia.
Qed.

Lemma partition_crc32_ieee data : Forall is_u8 data → data ≠ [] → partition_crc32 data = ieee_crc32 data.
Proof.
  intros Hd Hne. assert (is_u32 0xFFFFFFFF) as Hs by (unfold is_u32; lia). unfold ieee_crc32.
  change (replicate 32 true) with (register_of 0xFFFFFFFF). rewrite divide_data by done.
  pose proof (crc_fold_u32 data _ Hs Hd) as Hc.
  assert (partition_crc32 data = not32 (fold_left crc_byte data 0xFFFFFFFF)) as -> by (by destruct data).
  set (c := fold_left _ _ _) in *. clearbody c.
  rewrite <- (bits_value_register 32 (not32 c)) at 1; change (Z.of_nat 32) with 32.
  2:{ unfold not32, u32. change (2 ^ 32) with 4294967296. apply Z.mod_pos_bound. lia. }
  f_equal. unfold register_of. rewrite <- list_fmap_compose. apply list_fmap_ext. intros i x Hx.
  apply lookup_seqZ in Hx as [-> Hi]. cbn. unfold not32, u32. change 4294967296 with (2 ^ 32).
  rewrite <- Z.land_ones, Z.land_spec, Z.lnot_spec, Z.ones_spec_low by lia. apply andb_true_r.
Qed.

(** ** The GPT header

    What UEFI asks of it: the signature "EFI PART", a size, and the CRC-32 of that
    many bytes with the checksum field as zero. *)

Definition valid_gpt_header (sector : list Z) : Prop :=
  take 8 sector = [69; 70; 73; 32; 80; 65; 82; 84]
  ∧ 92 ≤ u32_at sector 12 ≤ 512
  ∧ u32_at sector 16
    = ieee_crc32 (take (Z.to_nat (u32_at sector 12)) (take 16 sector ++ [0; 0; 0; 0] ++ drop 20 sector)).

#[export] Instance valid_gpt_header_dec sector : Decision (valid_gpt_header sector).
Proof. unfold valid_gpt_header. apply _. Defined.

(** At most 128 entries are used, of at least 128 bytes each. *)
Definition gpt_entry_count (sector : list Z) : Z := Z.min 128 (u32_at sector 80).
Definition gpt_entry_bytes (sector : list Z) : Z := Z.max 128 (u32_at sector 84).
Definition gpt_entries_lba (sector : list Z) : Z := u64_at sector 72.

Lemma gpt_header_spec sector :
  Forall is_u8 sector →
  gpt_header sector =
  if decide (valid_gpt_header sector)
  then Some (gpt_entry_count sector, gpt_entry_bytes sector, gpt_entries_lba sector) else None.
Proof.
  intros Hb. unfold gpt_header. change (slice sector 0 8) with (take 8 sector).
  assert (Hcrc : 92 ≤ u32_at sector 12 →
    partition_crc32 (take (Z.to_nat (u32_at sector 12)) (splice sector 16 [0; 0; 0; 0]))
    = ieee_crc32 (take (Z.to_nat (u32_at sector 12)) (take 16 sector ++ [0; 0; 0; 0] ++ drop 20 sector))).
  { intros Hsz. unfold splice. change (Z.to_nat 16) with 16%nat. cbn [length].
    change (16 + 4)%nat with 20%nat. apply partition_crc32_ieee.
    - apply Forall_take, Forall_app. split; [by apply Forall_take|]. apply Forall_app.
      split; [repeat constructor; done|by apply Forall_drop].
    - intros E%(f_equal length). rewrite length_take, length_app, length_app in E. cbn [length] in E. lia. }
  case_bool_decide as Hsig; cbn [negb]; [|rewrite decide_False; [done|by intros []]].
  destruct (Z.ltb_spec (u32_at sector 12) 92); cbn [orb]; [rewrite decide_False; [done|intros (_ & ? & _); lia]|].
  rewrite Z.gtb_ltb. destruct (Z.ltb_spec 512 (u32_at sector 12)); [rewrite decide_False; [done|intros (_ & ? & _); lia]|].
  cbv zeta. rewrite Hcrc by done.
  match goal with |- context [?a =? ?b] => destruct (Z.eqb_spec a b) as [E|E] end; cbn [negb].
  - rewrite decide_True by (split_and!; by rewrite ?E). unfold gpt_entry_count, gpt_entry_bytes, GPT_ENTRY_SIZE.
    rewrite Z.gtb_ltb. do 3 f_equal;
      [destruct (Z.ltb_spec 128 (u32_at sector 80))|destruct (Z.ltb_spec (u32_at sector 84) 128)]; lia.
  - rewrite decide_False; [done|]. intros (_ & _ & ?). congruence.
Qed.

Lemma guid_is_zero_spec guid : guid_is_zero guid = bool_decide (Forall (λ b, b = 0) guid).
Proof.
  unfold guid_is_zero. apply eq_true_iff_eq. rewrite bool_decide_eq_true, forallb_forall, Forall_forall.
  setoid_rewrite list_elem_of_In. by setoid_rewrite Z.eqb_eq.
Qed.

(** ** The scan *)

Section scan.
Context {D : Type}.
Implicit Types s : block_state D.

(** What the table asks to register: first block, number of blocks, MBR type and
    GUID. *)
Record part := Part { p_start : Z; p_count : Z; p_type : Z; p_guid : option (list Z) }.

Definition part_ok (total : Z) (x : part) : Prop :=
  0 ≤ p_start x ∧ 0 < p_count x ∧ p_start x + p_count x ≤ total.

(** The device that stands for a partition of disk [p]. *)
Definition stands_for (p : nat) (i : Z) (x : part) (d : block_device D) : Prop :=
  state d = BLOCK_DEVICE_ONLINE ∧ type d = BLOCK_TYPE_PARTITION ∧ parent d = Some p ∧ partition_index d = i ∧
  start_lba d = p_start x ∧ total_blocks d = p_count x ∧ partition_type_mbr d = p_type x ∧
  has_guid d = bool_decide (is_Some (p_guid x)) ∧ partition_guid d = default (replicate 16 0) (p_guid x).

(** Registering a list of partitions, numbered from [valid + 1]. *)
Fixpoint register_all (p : nat) (xs : list part) (valid : Z) s : Z * block_state D :=
  match xs with
  | [] => (valid, s)
  | x :: xs =>
      let valid := u32 (valid + 1) in
      register_all p xs valid
        (block_partition_register (Some p) valid (p_start x) (p_count x) (p_type x) (p_guid x) s).2
  end.

(** The entry at an offset of a GPT, if it is valid. *)
Definition gpt_entry (entries : list Z) (total off : Z) : option part :=
  let starting := u64_at entries (off + 32) in
  let ending := u64_at entries (off + 40) in
  if bool_decide (Forall (λ b, b = 0) (slice entries off 16)) || (starting >? ending) || (ending >=? total) then None
  else Some (Part starting (ending - starting + 1) 0xEE (Some (slice entries (off + 16) 16))).

Definition gpt_parts (entries : list Z) (total entry_size : Z) (n : nat) (i : Z) : list part :=
  omap (λ k, gpt_entry entries total ((i + Z.of_nat k) * entry_size)) (seq 0 n).

Definition mbr_entry (sector : list Z) (total i : Z) : option part :=
  let e := 446 + 16 * i in
  let ty := u8_at sector (e + 4) in
  let start := u32_at sector (e + 8) in
  let count := u32_at sector (e + 12) in
  if (ty =? 0) || (count =? 0) || (start + count >? total) then None else Some (Part start count ty None).

Definition mbr_parts (sector : list Z) (total : Z) (n : nat) (i : Z) : list part :=
  omap (λ k, mbr_entry sector total (i + Z.of_nat k)) (seq 0 n).

Lemma omap_seq_S {A} (f : Z → option A) n i :
  omap (λ k, f (i + Z.of_nat k)) (seq 0 (S n)) =
  match f i with Some x => [x] | None => [] end ++ omap (λ k, f (i + 1 + Z.of_nat k)) (seq 0 n).
Proof.
  cbn [seq omap list_omap]. rewrite <- seq_shift. rewrite Z.add_0_r.
  assert (omap (λ k, f (i + Z.of_nat k)) (S <$> seq 0 n) = omap (λ k, f (i + 1 + Z.of_nat k)) (seq 0 n)) as E.
  { induction (seq 0 n) as [|k l IH]; [done|]. cbn [fmap list_fmap omap list_omap].
    rewrite IH. by replace (i + Z.of_nat (S k)) with (i + 1 + Z.of_nat k) by lia. }
  unfold fmap, list_fmap in E. unfold List.map in *. destruct (f i); by rewrite <- E.
Qed.

(** As long as the offsets fit into 32 bits, the loop registers the valid
    entries. *)
Lemma gpt_loop_spec entries entry_size total p n : ∀ i valid s,
  Forall is_u8 entries → total < W64 → 0 ≤ i → GPT_ENTRY_SIZE ≤ entry_size → (i + Z.of_nat n) * entry_size < 4294967296 →
  (i + Z.of_nat n) * entry_size ≤ Z.of_nat (length entries) →
  gpt_loop entries entry_size total p n i valid s =
    Some (register_all p (gpt_parts entries total entry_size n i) valid s).
Proof.
  induction n as [|n IH]; intros i valid s Hb Ht Hi Hsz Hw Hlen; [done|].
  unfold GPT_ENTRY_SIZE in Hsz. cbn [gpt_loop]. cbv zeta. rewrite (u32_small (i * entry_size)) by (unfold is_u32; nia).
  unfold GPT_ENTRY_SIZE. destruct (Z.gtb_spec (i * entry_size + 128) (Z.of_nat (length entries))) as [Hgt|_]; [nia|].
  unfold gpt_parts. rewrite (omap_seq_S (λ k, gpt_entry entries total (k * entry_size))). fold (gpt_parts entries total entry_size n (i + 1)).
  unfold gpt_entry. pose proof (u64_at_range entries (i * entry_size + 32) Hb) as Hs0.
  pose proof (u64_at_range entries (i * entry_size + 40) Hb) as He0.
  set (st := u64_at entries _) in *. set (en := u64_at entries (i * entry_size + 40)) in *.
  assert (Hnext : ∀ v s', gpt_loop entries entry_size total p n (i + 1) v s' =
    Some (register_all p (gpt_parts entries total entry_size n (i + 1)) v s')).
  { intros v s'. apply IH; try done; unfold GPT_ENTRY_SIZE; nia. }
  rewrite !Hnext, guid_is_zero_spec. destruct (bool_decide _); [done|]. cbn [orb].
  destruct (Z.gtb_spec st en) as [|Hle]; [done|]. cbn [orb]. destruct (Z.geb_spec en total) as [|Hlt]; [done|].
  cbn [app register_all p_start p_count p_type p_guid]. by rewrite u64_small by (unfold is_u64; lia).
Qed.

Lemma mbr_loop_spec sector total p n : ∀ i valid s,
  Forall is_u8 sector → 
  mbr_loop sector total p n i valid s = register_all p (mbr_parts sector total n i) valid s.
Proof.
  induction n as [|n IH]; intros i valid s Hb; [done|]. cbn [mbr_loop]. cbv zeta.
  unfold mbr_parts. rewrite (omap_seq_S (mbr_entry sector total)). fold (mbr_parts sector total n (i + 1)).
  unfold mbr_entry. pose proof (u32_at_range sector (446 + 16 * i + 8) Hb) as Hs.
  pose proof (u32_at_range sector (446 + 16 * i + 12) Hb) as Hc. rewrite !IH by done.
  rewrite u64_small by (unfold is_u64, W64; lia). unfold MBR_TYPE_EMPTY. destruct (_ =? 0); [done|]. cbn [orb].
  destruct (_ =? 0); [done|]. cbn [orb]. destruct (_ >? total); [done|]. done.
Qed.

(** ** Registering *)

Lemma register_one p pd i x s :
  device p s = Some pd → part_ok (total_blocks pd) x → total_blocks pd < W64 →
  ∃ d, stands_for p i x d ∧ used d ∧ ops d = PartitionOps ∧
    block_partition_register (Some p) i (p_start x) (p_count x) (p_type x) (p_guid x) s =
      match find_slot (block_devices s) 0 with Some q => (Some q, install q d s) | None => (None, s) end.
Proof.
  intros Hp (H1 & H2 & H3) Ht. unfold block_partition_register. rewrite Hp.
  rewrite u64_small by (unfold is_u64; lia). destruct (Z.eqb_spec (p_count x) 0); [lia|].
  destruct (Z.gtb_spec (p_start x + p_count x) (total_blocks pd)); [lia|]. cbn [orb].
  eexists. split; [|split; [|split; [|reflexivity]]]; [|done|done].
  unfold stands_for. cbn. destruct (p_guid x); cbn; split_and!; try done.
Qed.

Lemma register_full p pd xs : ∀ valid s,
  device p s = Some pd → Forall (part_ok (total_blocks pd)) xs → total_blocks pd < W64 →
  find_slot (block_devices s) 0 = None → (register_all p xs valid s).2 = s.
Proof.
  induction xs as [|x xs IH]; intros valid s Hp Hxs Ht Hf; [done|]. apply Forall_cons in Hxs as [Hx Hxs].
  cbn [register_all]. destruct (register_one p pd (u32 (valid + 1)) x s Hp Hx Ht) as (d & _ & _ & _ & ->).
  rewrite Hf. cbn [snd]. by apply IH.
Qed.

(** The devices of [s] are still there in [s']. *)
Definition keeps s s' : Prop := ∀ q d, device q s = Some d → used d → device q s' = Some d.

(** [new] are the devices that stand for the first partitions of [xs]. *)
Definition numbered (p : nat) (xs : list part) (valid : Z) (new : list nat) s : Prop :=
  (length new ≤ length xs)%nat ∧
  ∀ j q, new !! j = Some q → ∃ x d, xs !! j = Some x ∧ device q s = Some d ∧ used d ∧
    stands_for p (valid + 1 + Z.of_nat j) x d.

Lemma register_all_spec p pd xs : ∀ valid s,
  registry_ok s → device p s = Some pd → used pd → ¬ is_partition pd →
  1 ≤ next_device_id s → next_device_id s + Z.of_nat (length xs) < 4294967295 →
  0 ≤ valid → valid + Z.of_nat (length xs) < 4294967296 → Forall (part_ok (total_blocks pd)) xs →
  let '(n, s') := register_all p xs valid s in
  n = valid + Z.of_nat (length xs) ∧ registry_ok s' ∧ disks s' = disks s ∧ keeps s s' ∧
  ∃ new, block_device_list s' = block_device_list s ++ new ∧ numbered p xs valid new s' ∧
    (length new = length xs ∨ find_slot (block_devices s') 0 = None).
Proof.
  induction xs as [|x xs IH]; intros valid s Hok Hp Hu Hnp Hn1 Hn2 Hv1 Hv2 Hxs.
  { cbn [register_all length]. split_and!; [lia|done|done|by intros ?|]. exists []. rewrite app_nil_r.
    split_and!; [done| |by left]. split; [done|]. by intros j q ?%lookup_nil_Some || by intros [|j] q. }
  pose proof (Forall_inv Hxs) as Hx. pose proof (Forall_inv_tail Hxs) as Hxs'. cbn [length] in Hn2, Hv2.
  pose proof (ro_total _ Hok p pd Hp Hu) as Ht. cbn [register_all].
  rewrite (u32_small (valid + 1)) by (unfold is_u32; lia).
  destruct (register_one p pd (valid + 1) x s Hp Hx) as (d & Hst & Hud & Hops & E); [lia|].
  pose proof Hx as (Hx1 & Hx2 & Hx3).
  pose proof (block_partition_register_ok p (valid + 1) (p_start x) (p_count x) (p_type x) (p_guid x) s Hok) as Hok1.
  rewrite E in Hok1 |- *. destruct (find_slot (block_devices s) 0) as [q|] eqn:Ef; cbn [snd] in Hok1 |- *.
  - assert (registry_ok (install q d s)) as Hok' by (apply Hok1; [lia..|]; intros pd' Hpd'; by assert (pd' = pd) as -> by congruence).
    clear Hok1. apply find_slot_Some in Ef as (old & Hold & Hun & _). rewrite Nat.sub_0_r in Hold.
    assert (Hother : ∀ r, r ≠ q → device r (install q d s) = device r s)
      by (intros r Hr; unfold device; simpl; by rewrite list_lookup_insert_ne).
    assert (Hself : device q (install q d s) = Some d)
      by (unfold device; simpl; apply list_lookup_insert_eq; by eapply lookup_lt_Some).
    assert (Hne : ∀ r e, device r s = Some e → used e → r ≠ q).
    { intros r e Hr Hue ->. unfold device in Hr. rewrite Hold in Hr. injection Hr as ->. unfold used in Hue. congruence. }
    specialize (IH (valid + 1) (install q d s) Hok'). rewrite Hother in IH by (by eapply Hne).
    assert (next_device_id (install q d s) = next_device_id s + 1) as En by (simpl; apply u32_small; unfold is_u32; lia).
    rewrite En in IH. specialize (IH Hp Hu Hnp ltac:(lia) ltac:(lia) ltac:(lia) ltac:(lia) Hxs').
    destruct (register_all p xs (valid + 1) (install q d s)) as [n s']. destruct IH as (-> & Hr & Hd & Hk & new & Hl & (Hlen & Hnew) & Hfull).
    split_and!; [cbn [length]; lia|done|by rewrite Hd| |].
    { intros r e Hre Hue. apply Hk; [|done]. rewrite Hother; [done|by eapply Hne]. }
    exists (q :: new). split_and!; [rewrite Hl; simpl; by rewrite <- app_assoc| |cbn [length]; destruct Hfull; [left; lia|by right]].
    split; [simpl; lia|]. intros [|j] r; cbn [lookup list_lookup].
    + intros [= <-]. exists x, d. split_and!; [done|by apply Hk|done|]. by replace (valid + 1 + Z.of_nat 0) with (valid + 1) by lia.
    + intros Hj. destruct (Hnew j r Hj) as (y & e & ? & ? & ? & Hs'). exists y, e. split_and!; try done.
      by replace (valid + 1 + Z.of_nat (S j)) with (valid + 1 + 1 + Z.of_nat j) by lia.
  - pose proof (register_full p pd xs (valid + 1) s Hp Hxs' ltac:(lia) Ef) as Hsame.
    specialize (IH (valid + 1) s Hok Hp Hu Hnp Hn1 ltac:(lia) ltac:(lia) ltac:(lia) Hxs').
    destruct (register_all p xs (valid + 1) s) as [n s']. cbn [snd] in Hsame. subst s'. destruct IH as (-> & _).
    split_and!; [cbn [length]; lia|done|done|by intros ?|]. exists []. rewrite app_nil_r. split_and!; [done| |by right].
    split; [simpl; lia|]. by intros [|j] r.
Qed.

Lemma gpt_parts_ok entries total size n i : Forall is_u8 entries → Forall (part_ok total) (gpt_parts entries total size n i).
Proof.
  intros Hb. apply Forall_forall. intros x Hx. unfold gpt_parts in Hx. apply list_elem_of_omap in Hx as (k & _ & Hk). revert Hk.
  unfold gpt_entry. set (off := (i + Z.of_nat k) * size). pose proof (u64_at_range entries (off + 32) Hb) as Hs0.
  set (st := u64_at entries (off + 32)) in *. set (en := u64_at entries (off + 40)).
  destruct (bool_decide _); [done|]. destruct (Z.gtb_spec st en); [done|]. destruct (Z.geb_spec en total); [done|].
  cbn [orb]. intros [= <-]. unfold part_ok. cbn. lia.
Qed.

Lemma mbr_parts_ok sector total n i : Forall is_u8 sector → Forall (part_ok total) (mbr_parts sector total n i).
Proof.
  intros Hb. apply Forall_forall. intros x Hx. unfold mbr_parts in Hx. apply list_elem_of_omap in Hx as (k & _ & Hk). revert Hk.
  unfold mbr_entry. set (e := 446 + 16 * (i + Z.of_nat k)). pose proof (u32_at_range sector (e + 8) Hb) as Hs0.
  pose proof (u32_at_range sector (e + 12) Hb) as Hc0.
  destruct (_ =? 0); [done|]. destruct (Z.eqb_spec (u32_at sector (e + 12)) 0); [done|].
  destruct (Z.gtb_spec (u32_at sector (e + 8) + u32_at sector (e + 12)) total); [done|].
  cbn [orb]. intros [= <-]. unfold part_ok. cbn. lia.
Qed.

Lemma length_omap {A} (f : nat → option A) n i : (length (omap f (seq i n)) ≤ n)%nat.
Proof.
  revert i. induction n as [|n IH]; intros i; [done|]. cbn [seq omap list_omap]. specialize (IH (S i)).
  destruct (f i); [simpl; by apply le_n_S|by apply le_S].
Qed.

(** ** What is on the disk *)

(** The valid entries of the GPT. *)
Definition gpt_table (allocated : bool) (p : nat) (pd : block_device D) s : list part :=
  if total_blocks pd <? 34 then []
  else
    match read_disk p 1 1 s with
    | None => []
    | Some sector =>
        if decide (valid_gpt_header sector) then
          let n := gpt_entry_count sector in
          let size := gpt_entry_bytes sector in
          let sectors := (n * size + block_size pd - 1) / block_size pd in
          match (if allocated then read_disk p (gpt_entries_lba sector) sectors s else None) with
          | None => []
          | Some entries => gpt_parts entries (total_blocks pd) size (Z.to_nat n) 0
          end
        else []
    end.

(** The valid entries of the disk: those of the GPT behind a protective MBR, or
    else those of the MBR. *)
Definition partition_table (allocated : bool) (p : nat) (pd : block_device D) s : list part :=
  if negb (bool_decide (state pd = BLOCK_DEVICE_ONLINE)) || is_partition_type (type pd) then []
  else
    match read_disk p 0 1 s with
    | None => []
    | Some sector =>
        if negb (u16_at sector 510 =? 0xAA55) then []
        else
          let g := if u8_at sector 450 =? 0xEE then gpt_table allocated p pd s else [] in
          match g with [] => mbr_parts sector (total_blocks pd) 4 0 | _ => g end
    end.

(** The disk has blocks of the 512 bytes of [sector_buf] and the driver fills the
    buffer with bytes, and the size of the table that a valid
    GPT header gives does not overflow 32 bits, as the code computes it (see
    [gpt_entries_overrun] below for a header where it does). *)
Record readable (p : nat) (pd : block_device D) s : Prop := {
  rd_bytes lba c data : read_disk p lba c s = Some data → Forall is_u8 data;
  rd_length lba c data : read_disk p lba c s = Some data → Z.of_nat (length data) = c * block_size pd;
  rd_block : block_size pd = 512;
  rd_sizes sector : read_disk p 1 1 s = Some sector → valid_gpt_header sector →
    gpt_entry_count sector * gpt_entry_bytes sector + block_size pd < 4294967296;
}.

Lemma gpt_scan_eq allocated p pd s :
  readable p pd s → total_blocks pd < W64 →
  partition_scan_gpt allocated p pd s = Some (register_all p (gpt_table allocated p pd s) 0 s) ∧
  Forall (part_ok (total_blocks pd)) (gpt_table allocated p pd s) ∧ (length (gpt_table allocated p pd s) ≤ 128)%nat.
Proof.
  intros [R1 R2 R3 R4] Ht. unfold partition_scan_gpt, gpt_table.
  assert (Hnil : Some (0, s) = Some (register_all p [] 0 s) ∧ Forall (part_ok (total_blocks pd)) [] ∧ (0 ≤ 128)%nat)
    by (split_and!; [done|constructor|lia]).
  destruct (_ <? 34); [done|]. destruct (read_disk p 1 1 s) as [sector|] eqn:E1; [|done].
  rewrite gpt_header_spec by (by eapply R1). destruct (decide (valid_gpt_header sector)) as [Hv|]; [|done].
  pose proof (R4 sector eq_refl Hv) as Hw.
  assert (Hn : 0 ≤ gpt_entry_count sector ≤ 128)
    by (pose proof (u32_at_range sector 80 (R1 _ _ _ E1)); unfold gpt_entry_count; lia).
  assert (Hsz : 128 ≤ gpt_entry_bytes sector) by (unfold gpt_entry_bytes; lia).
  set (n := gpt_entry_count sector) in *. set (size := gpt_entry_bytes sector) in *.
  set (lba := gpt_entries_lba sector). cbv zeta.
  assert (0 ≤ n * size) by nia. rewrite (u32_small (n * size)) by (unfold is_u32; lia).
  rewrite (u32_small (block_size pd)) by (unfold is_u32; lia).
  rewrite (u32_small (n * size + block_size pd - 1)) by (unfold is_u32; lia).
  destruct allocated; [|done]. cbn [negb].
  destruct (read_disk p lba ((n * size + block_size pd - 1) / block_size pd) s) as [entries|] eqn:E2; [|done].
  pose proof (R2 _ _ _ E2) as Hlen. pose proof (R1 _ _ _ E2) as Hbytes. split_and!.
  - apply gpt_loop_spec; rewrite ?Z.add_0_l, ?Z2Nat.id by lia; try done; try lia. rewrite Hlen.
    pose proof (Z.div_mod (n * size + block_size pd - 1) (block_size pd)).
    pose proof (Z.mod_pos_bound (n * size + block_size pd - 1) (block_size pd)). nia.
  - by apply gpt_parts_ok.
  - etransitivity; [apply length_omap|]. lia.
Qed.

(** C39: scanning a disk registers exactly the valid entries of its partition
    table: behind a protective MBR those of a GPT whose header has the signature,
    a size from 92 to 512 and the IEEE CRC-32 of its bytes (defined by polynomial
    division), and without such entries those of the MBR.  The result is their
    number, the registered devices are the first of them in order (all of them unless the device table is full), each with its
    first block, size, type, GUID and number 1, 2, ...; every partition lies inside
    the disk; no registered device changes and nothing is written.  Assumed is
    that device identifiers are not used up, that the disk has blocks of 512 bytes, the size of the buffer on the stack,
    that the driver delivers bytes and whole blocks, and that the table size in
    the GPT header fits into 32 bits ([readable]); where partition.c:127 wraps
    around, entries are read outside the buffer ([gpt_entries_overrun]). *)
Theorem partition_scan_spec allocated p pd s :
  registry_ok s → device p s = Some pd → used pd → ¬ is_partition pd → readable p pd s →
  1 ≤ next_device_id s < 4294967000 →
  let xs := partition_table allocated p pd s in
  ∃ s', partition_scan allocated (Some p) s = Some (Z.of_nat (length xs), s') ∧
    registry_ok s' ∧ disks s' = disks s ∧ keeps s s' ∧ Forall (part_ok (total_blocks pd)) xs ∧
    ∃ new, block_device_list s' = block_device_list s ++ new ∧ numbered p xs 0 new s' ∧
      (length new = length xs ∨ find_slot (block_devices s') 0 = None).
Proof.
  intros Hok Hp Hu Hnp Hrd Hn xs. pose proof (ro_total _ Hok p pd Hp Hu) as Ht.
  assert (partition_scan allocated (Some p) s = Some (register_all p xs 0 s) ∧
    Forall (part_ok (total_blocks pd)) xs ∧ (length xs ≤ 128)%nat) as (E & Hxs & Hlen).
  { unfold xs, partition_table, partition_scan. rewrite Hp. destruct (_ || _); [split_and!; [done|constructor|simpl; lia]|].
    unfold partition_scan_mbr, MBR_BOOT_SIGNATURE, MBR_GPT_PROTECTIVE_TYPE. destruct (read_disk p 0 1 s) as [sector|] eqn:E0; [|split_and!; [done|constructor|simpl; lia]].
    destruct (negb _); [split_and!; [done|constructor|simpl; lia]|].
    pose proof (rd_bytes _ _ _ Hrd _ _ _ E0) as Hb. rewrite mbr_loop_spec by done. unfold MBR_PARTITION_COUNT.
    assert (Hmbr : Forall (part_ok (total_blocks pd)) (mbr_parts sector (total_blocks pd) 4 0) ∧
      (length (mbr_parts sector (total_blocks pd) 4 0) ≤ 128)%nat).
    { split; [by apply mbr_parts_ok|]. etransitivity; [apply length_omap|]. lia. }
    destruct (_ =? 0xEE); [|done].
    destruct (gpt_scan_eq allocated p pd s Hrd ltac:(lia)) as (-> & Hg & Hl).
    destruct (gpt_table allocated p pd s) as [|x g] eqn:Eg.
    { cbn [register_all]. rewrite Z.gtb_ltb, Z.ltb_irrefl. by rewrite mbr_loop_spec. }
    pose proof (register_all_spec p pd (x :: g) 0 s Hok Hp Hu Hnp ltac:(lia) ltac:(lia) ltac:(lia) ltac:(lia) Hg) as Hr.
    destruct (register_all p (x :: g) 0 s) as [n s']. destruct Hr as (-> & _).
    destruct (Z.gtb_spec (0 + Z.of_nat (length (x :: g))) 0) as [|Hz]; [done|]. simpl in Hz. lia. }
  pose proof (register_all_spec p pd xs 0 s Hok Hp Hu Hnp ltac:(lia) ltac:(lia) ltac:(lia) ltac:(lia) Hxs) as Hr.
  destruct (register_all p xs 0 s) as [n s']. destruct Hr as (-> & Hr). exists s'. split; [by rewrite E|]. tauto.
Qed.

End scan.

Lemma crc32_detects_bursts_witness :
  partition_crc32 ([1; 2] ++ [3; 4] ++ [5]) ≠ partition_crc32 ([1; 2] ++ [4; 3] ++ [5]).
Proof. apply crc32_detects_bursts; [repeat constructor; done|repeat constructor; done|done|simpl; lia|done]. Defined.

(** ** A concrete disk *)

(** A driver for disks that are lists of sectors. *)
Definition list_driver : block_device_ops (list sector) :=
  BlockOps (Some (λ _ lba count d,
    if (0 <=? lba) && (0 <=? count) && (lba + count <=? Z.of_nat (length d))
    then Some (take (Z.to_nat count) (drop (Z.to_nat lba) d)) else None)) None None None.

Definition unused_device : block_device (list sector) :=
  BlockDevice 0 [] BLOCK_TYPE_UNKNOWN BLOCK_DEVICE_OFFLINE 0 0 0 NullOps 0 None 0 0 0 [] false.

(** The registry with one disk. *)
Definition one_disk (d : list sector) : block_state (list sector) :=
  (block_device_register (Some [100]) BLOCK_TYPE_RAMDISK 512 (Z.of_nat (length d)) (DriverOps list_driver) 0
     (BlockState (replicate 64 unused_device) [] 1 true d)).2.

Definition disk_device (d : list sector) : block_device (list sector) :=
  BlockDevice 1 [100] BLOCK_TYPE_RAMDISK BLOCK_DEVICE_ONLINE 512 (Z.of_nat (length d))
    (u64 (512 * Z.of_nat (length d))) (DriverOps list_driver) 0 None 0 0 0 [] false.

Definition sectors_ok (d : list sector) : Prop := Forall (λ x, length x = 512%nat ∧ Forall is_u8 x) d.

Lemma one_disk_device d : (0 < length d)%nat → device 0 (one_disk d) = Some (disk_device d).
Proof. intros H. unfold one_disk, block_device_register. destruct (Z.eqb_spec (Z.of_nat (length d)) 0); [lia|done]. Qed.

Lemma concat_sectors d : sectors_ok d → Forall is_u8 (concat d) ∧ Z.of_nat (length (concat d)) = Z.of_nat (length d) * 512.
Proof.
  induction 1 as [|x d [Hx Hb] _ [IH1 IH2]]; [split; [constructor|done]|]. cbn [concat length].
  split; [by apply Forall_app|]. rewrite length_app. lia.
Qed.

Lemma one_disk_readable d :
  (0 < length d)%nat → sectors_ok d →
  (∀ sector, read_disk 0 1 1 (one_disk d) = Some sector → valid_gpt_header sector →
    gpt_entry_count sector * gpt_entry_bytes sector + 512 < 4294967296) →
  readable 0 (disk_device d) (one_disk d).
Proof.
  intros Hd Hs Hsz.
  assert (∀ lba c data, read_disk 0 lba c (one_disk d) = Some data →
    Forall is_u8 data ∧ Z.of_nat (length data) = c * 512) as H.
  { intros lba c data. unfold read_disk. cbn [block_read]. rewrite one_disk_device by done.
    destruct (c =? 0); [done|]. destruct (negb _); [done|]. destruct (_ >? _); [done|]. cbn [ops disk_device].
    cbn [read_blocks list_driver]. assert (disks (one_disk d) = d) as ->.
    { unfold one_disk, block_device_register. by destruct (Z.of_nat (length d) =? 0). }
    destruct (Z.leb_spec 0 lba); [|done]. destruct (Z.leb_spec 0 c); [|done]. cbn [andb].
    destruct (Z.leb_spec (lba + c) (Z.of_nat (length d))); [|done]. intros [= <-].
    destruct (concat_sectors (take (Z.to_nat c) (drop (Z.to_nat lba) d))) as [Hc1 Hc2].
    { by apply Forall_take, Forall_drop. }
    split; [done|]. rewrite Hc2, length_take, length_drop. lia. }
  split; cbn [block_size disk_device].
  - intros lba c data Hr. by apply (H lba c).
  - intros lba c data Hr. by apply (H lba c).
  - lia.
  - apply Hsz.
Qed.

Lemma no_devices_ok (d : list sector) : registry_ok (BlockState (replicate 64 unused_device) [] 1 true d).
Proof.
  assert (∀ p e, replicate 64 unused_device !! p = Some e → ¬ used e) as Hno.
  { intros p e [-> _]%lookup_replicate. by unfold used. }
  split; unfold device; cbn [block_devices block_device_list next_device_id]; try (by intros; exfalso; eapply Hno; eauto).
  - done.
  - constructor.
  - intros p. split; [by intros ?%not_elem_of_nil|]. intros (e & He & Hu). by destruct (Hno p e He).
Qed.

Lemma one_disk_ok d : registry_ok (one_disk d) ∨ W64 ≤ Z.of_nat (length d).
Proof.
  destruct (decide (Z.of_nat (length d) < W64)) as [Hl|]; [left|right; lia].
  apply block_device_register_ok; try done; first [apply no_devices_ok|simpl; lia|lia].
Qed.

(** A disk with an MBR that has one FAT32 partition of four blocks. *)
Definition mbr_disk : list sector :=
  (replicate 446 0 ++ [128; 0; 0; 0; 12; 0; 0; 0; 2; 0; 0; 0; 4; 0; 0; 0] ++ replicate 48 0 ++ [85; 170]) ::
  replicate 7 (replicate 512 0).

Lemma partition_scan_spec_witness :
  ∃ s', partition_scan true (Some 0%nat) (one_disk mbr_disk) = Some (1, s') ∧ registry_ok s' ∧
    ∃ d, device 1 s' = Some d ∧ start_lba d = 2 ∧ total_blocks d = 4.
Proof.
  assert (readable 0 (disk_device mbr_disk) (one_disk mbr_disk)) as Hr.
  { apply one_disk_readable; [vm_compute; lia| |].
    - unfold sectors_ok. rewrite Forall_forall. intros x Hx.
      assert (forallb (λ x, (length x =? 512)%nat && forallb (λ b, (0 <=? b) && (b <? 256)) x) mbr_disk = true) as Hb by (vm_compute; reflexivity).
      rewrite forallb_forall in Hb. specialize (Hb x (proj1 (list_elem_of_In _ _) Hx)).
      apply andb_prop in Hb as [Hlen%Nat.eqb_eq Hall]. split; [done|]. rewrite forallb_forall in Hall.
      apply Forall_forall. intros b Hb'%list_elem_of_In%Hall. apply andb_prop in Hb' as [?%Z.leb_le ?%Z.ltb_lt]. by split.
    - intros sector Hs. assert (read_disk 0 1 1 (one_disk mbr_disk) = Some (replicate 512 0)) as E by (vm_compute; reflexivity).
      rewrite E in Hs. apply Some_inj in Hs. rewrite <- Hs.
      by intros (Hsig & _). }
  destruct (partition_scan_spec true 0 (disk_device mbr_disk) (one_disk mbr_disk)) as (s' & E & Hok & _ & _ & _ & _).
  - destruct (one_disk_ok mbr_disk) as [|Hl]; [done|]. vm_compute in Hl. by destruct Hl.
  - apply one_disk_device. vm_compute. lia.
  - done.
  - done.
  - exact Hr.
  - vm_compute. done.
  - exists s'. assert (partition_table true 0 (disk_device mbr_disk) (one_disk mbr_disk) = [Part 2 4 12 None]) as Hx by (vm_compute; reflexivity).
    rewrite Hx in E. split; [exact E|]. split; [exact Hok|].
    assert (∃ s2 d, partition_scan true (Some 0%nat) (one_disk mbr_disk) = Some (1, s2) ∧ device 1 s2 = Some d ∧
      start_lba d = 2 ∧ total_blocks d = 4) as (s2 & d & E2 & Hd).
    { eexists _, _. split; [vm_compute; reflexivity|]. split; [vm_compute; reflexivity|]. split; reflexivity. }
    rewrite E2 in E. injection E as <-. by exists d.
Defined.

(** A GPT whose entry size makes the product of number and size of the entries
    wrap around 32 bits: one sector is allocated and read, and the second entry
    is read far outside of it. *)
Definition wrapping_header : list Z :=
  let h := GPT_SIGNATURE ++ [0; 0; 1; 0; 92; 0; 0; 0] ++ replicate 56 0 ++ le_bytes 8 2 ++ le_bytes 4 128 ++ le_bytes 4 0x02000001 ++
           replicate 4 0 in
  splice h 16 (le_bytes 4 (partition_crc32 h)).

Definition wrapping_disk : list sector :=
  (replicate 446 0 ++ [0; 0; 0; 0; 238; 0; 0; 0; 1; 0; 0; 0; 4; 0; 0; 0] ++ replicate 48 0 ++ [85; 170]) ::
  (wrapping_header ++ replicate 420 0) :: replicate 38 (replicate 512 0).

Theorem gpt_entries_overrun : partition_scan true (Some 0%nat) (one_disk wrapping_disk) = None.
Proof. vm_compute. reflexivity. Qed.

(** A GPT with one partition of two blocks. *)
Definition good_header : list Z :=
  let h := GPT_SIGNATURE ++ [0; 0; 1; 0; 92; 0; 0; 0] ++ replicate 56 0 ++ le_bytes 8 2 ++ le_bytes 4 1 ++ le_bytes 4 128 ++
           replicate 4 0 in
  splice h 16 (le_bytes 4 (partition_crc32 h)).

Definition gpt_disk : list sector :=
  (replicate 446 0 ++ [0; 0; 0; 0; 238; 0; 0; 0; 1; 0; 0; 0; 39; 0; 0; 0] ++ replicate 48 0 ++ [85; 170]) ::
  (good_header ++ replicate 420 0) ::
  (replicate 16 7 ++ replicate 16 9 ++ le_bytes 8 34 ++ le_bytes 8 35 ++ replicate 464 0) :: replicate 37 (replicate 512 0).

Example gpt_disk_scanned :
  partition_table true 0 (disk_device gpt_disk) (one_disk gpt_disk) = [Part 34 2 0xEE (Some (replicate 16 9))]
  ∧ option_map fst (partition_scan true (Some 0%nat) (one_disk gpt_disk)) = Some 1.
Proof. split; vm_compute; reflexivity. Qed.
