(* ===== verification/Fat32.v ===== *)
(** * FAT32 driver (src/fs/fat32.c, src/include/kos/fat32.h)

    The driver reads and writes sectors through the block cache, as the
    [SectorCache] of Interfaces.v.  A C string is the list of its characters
    before the terminator, [None] is NULL, a directory entry is its 32 bytes.
    Code that may not return (a chain of the FAT can be cyclic) runs in the
    monad [M]: it gets [fuel] rounds for each loop over a chain, and [None] means
    that the fuel is used up.  [kmalloc_ok] and [fresh] are what the heap does: whether the
    n-th call succeeds and what a new block holds; [junk] is what the stack holds
    where a [struct fat32_lookup_result] is declared without an initializer.
    The spinlock of a volume is held during each operation. *)

From Stdlib Require Import ZArith Lia.
From stdpp Require Import gmap.
From S2P Require Import Prelude Interfaces Inet Bytes.
#[local] Open Scope Z_scope.

(** ** Data *)

Definition FAT32_MAX_VOLUMES : Z := 8.
Definition FAT32_MAX_PATH_LEN : nat := 256.
Definition FAT32_MAX_CACHED_FILES : Z := 128.

Definition FAT_ATTR_VOLUME_ID : Z := 0x08.
Definition FAT_ATTR_DIRECTORY : Z := 0x10.
Definition FAT_ATTR_ARCHIVE : Z := 0x20.
Definition FAT_ATTR_LFN : Z := 0x0f.

Definition FAT32_CLUSTER_FREE : Z := 0.
Definition FAT32_CLUSTER_BAD : Z := 0x0ffffff7.
Definition FAT32_CLUSTER_END_MIN : Z := 0x0ffffff8.
Definition FAT32_CLUSTER_END : Z := 0x0fffffff.

(** The fields of [struct fat32_bpb] that the driver uses. *)
Record fat32_bpb := Bpb {
  bytes_per_sector : Z;
  bpb_sectors_per_cluster : Z;
  reserved_sector_count : Z;
  num_fats : Z;
  fat_size_16 : Z;
  total_sectors_32 : Z;
  fat_size_32 : Z;
  bpb_root_cluster : Z;
}.

Definition bpb_of (sec : list Z) : fat32_bpb :=
  Bpb (u16_at sec 11) (u8_at sec 13) (u16_at sec 14) (u8_at sec 16) (u16_at sec 22) (u32_at sec 32) (u32_at sec 36)
    (u32_at sec 44).

(** [data] is the content of the buffer, once [file_at] has read it. *)
Record fat32_cached_file := CachedFile { cf_path : list Z; cf_data : option (list Z); cf_size : Z; cf_valid : bool }.

(** [cached_files] holds the first [cached_file_count] entries of the array. *)
Record fat32_volume := Volume {
  dev : Z;
  bpb : fat32_bpb;
  fat_start_lba : Z;
  cluster_start_lba : Z;
  sectors_per_cluster : Z;
  cluster_size : Z;
  total_clusters : Z;
  root_cluster : Z;
  cached_files : list fat32_cached_file;
  mounted : bool;
}.

Definition with_cached (l : list fat32_cached_file) (vol : fat32_volume) : fat32_volume :=
  Volume (dev vol) (bpb vol) (fat_start_lba vol) (cluster_start_lba vol) (sectors_per_cluster vol) (cluster_size vol)
    (total_clusters vol) (root_cluster vol) l (mounted vol).

(** Fields of a directory entry. *)
Definition de_name (de : list Z) : list Z := take 11 de.
Definition de_first (de : list Z) : Z := u8_at de 0.
Definition de_attr (de : list Z) : Z := u8_at de 11.
Definition de_cluster (de : list Z) : Z := Z.lor (Z.shiftl (u16_at de 20) 16) (u16_at de 26).
Definition de_size (de : list Z) : Z := u32_at de 28.

Definition set_cluster (c : Z) (de : list Z) : list Z :=
  splice (splice de 20 (le_bytes 2 (u16 (Z.shiftr c 16)))) 26 (le_bytes 2 (u16 (Z.land c 0xffff))).
Definition set_size (n : Z) (de : list Z) : list Z := splice de 28 (le_bytes 4 (u32 n)).
Definition set_attr (a : Z) (de : list Z) : list Z := splice de 11 (le_bytes 1 a).

Definition is_directory (de : list Z) : bool := negb (Z.land (de_attr de) FAT_ATTR_DIRECTORY =? 0).

(** The entries of a sector. *)
Definition entry_at (sec : list Z) (e : Z) : list Z := slice sec (32 * e) 32.
Definition put_entry (sec : list Z) (e : Z) (de : list Z) : list Z := splice sec (32 * e) de.
Definition sector_entries (sec : list Z) : list (list Z) := entry_at sec <$> seqZ 0 16.

Record fat32_lookup_result := LookupResult {
  dir_cluster : Z;
  dir_sector_offset : Z;
  entry_index_in_sector : Z;
  entry : list Z;
}.

#[export] Instance lookup_result_eq_dec : EqDecision fat32_lookup_result.
Proof. solve_decision. Defined.

(** ** Strings *)

Definition to_upper (c : Z) : Z := if (97 <=? c) && (c <=? 122) then c - (97 - 65) else c.

(** [strcasecmp_kos(a, b) == 0]. *)
Fixpoint same_name (a b : list Z) : bool :=
  match a, b with
  | x :: a, y :: b => (to_upper x =? to_upper y) && same_name a b
  | [], [] => true
  | _, _ => false
  end.

Definition is_sep (c : Z) : bool := (c =? 47) || (c =? 92).

Fixpoint skip_seps (path : list Z) : list Z :=
  match path with c :: rest => if is_sep c then skip_seps rest else path | [] => [] end.

(** The characters up to the next separator, and the rest. *)
Fixpoint next_component (path : list Z) : list Z * list Z :=
  match path with
  | c :: rest => if is_sep c then ([], path) else let '(a, b) := next_component rest in (c :: a, b)
  | [] => ([], [])
  end.

(** Before and after the last character that satisfies [f]. *)
Fixpoint split_last (f : Z → bool) (s : list Z) : option (list Z * list Z) :=
  match s with
  | [] => None
  | c :: s =>
      match split_last f s with
      | Some (a, b) => Some (c :: a, b)
      | None => if f c then Some ([], s) else None
      end
  end.

(** ** 8.3 names *)

Definition not_space (c : Z) : bool := negb (c =? 32).

Definition fat32_format_83_name (raw : list Z) : list Z :=
  filter not_space (take 8 raw) ++
  (if not_space (nth 8 raw 32) then 46 :: filter not_space (slice raw 8 3) else []).

(** Upper case, cut or filled with spaces to [n] characters. *)
Definition pad_upper (n : nat) (s : list Z) : list Z :=
  let s := to_upper <$> take n s in s ++ replicate (n - length s) 32.

Definition fat32_generate_83_name (name : list Z) : list Z :=
  match split_last (λ c, c =? 46) name with
  | Some (base, ext) => pad_upper 8 base ++ pad_upper 3 ext
  | None => pad_upper 8 name ++ replicate 3 32
  end.

(** ** Long names *)

(** [lfn_buf] and [has_lfn]. *)
Definition lfn_state : Type := list Z * bool.
Definition no_lfn : lfn_state := (replicate 256 0, false).

Definition lfn_char (buf : list Z) (pos c : Z) : list Z :=
  if negb (c =? 0) && negb (c =? 0xffff) && (pos <? 255) then <[Z.to_nat pos := u8 c]> buf else buf.

(** The 13 characters of an entry, at their offsets. *)
Definition lfn_chars (de : list Z) : list (Z * Z) :=
  ((λ i, (i, u16_at de (1 + 2 * i))) <$> seqZ 0 5) ++
  ((λ i, (5 + i, u16_at de (14 + 2 * i))) <$> seqZ 0 6) ++
  ((λ i, (11 + i, u16_at de (28 + 2 * i))) <$> seqZ 0 2).

Definition lfn_entry (de : list Z) (l : lfn_state) : lfn_state :=
  let seq := Z.land (de_first de) 0x1f in
  if (0 <? seq) && (seq <=? 20)
  then (foldl (λ buf '(i, c), lfn_char buf ((seq - 1) * 13 + i) c) l.1 (lfn_chars de), true)
  else l.

(** What the three loops over directories do first with an entry. *)
Inductive visit := AtEnd | Skipped (l : lfn_state) | Visible.

Definition visit_entry (de : list Z) (l : lfn_state) : visit :=
  if de_first de =? 0 then AtEnd
  else if de_first de =? 0xe5 then Skipped (l.1, false)
  else if de_attr de =? FAT_ATTR_LFN then Skipped (lfn_entry de l)
  else if negb (Z.land (de_attr de) FAT_ATTR_VOLUME_ID =? 0) then Skipped (l.1, false)
  else Visible.

Definition sfn_name (de : list Z) : list Z := cstring (fat32_format_83_name (de_name de)).

(** [has_lfn ? lfn_buf : sfn_name]. *)
Definition entry_name (de : list Z) (l : lfn_state) : list Z := if l.2 then cstring l.1 else sfn_name de.

Definition entry_matches (target : list Z) (de : list Z) (l : lfn_state) : bool :=
  (l.2 && same_name (cstring l.1) target) || same_name (sfn_name de) target.

(** ** Effects *)

Section driver.
Context {S : Type} `{SectorCache S}.
Context (fuel : nat) (kmalloc_ok : nat → bool) (fresh : nat → list Z) (junk : fat32_lookup_result).

(** The sectors, and how many blocks were requested from the heap. *)
Record io := IO { store : S; allocs : nat }.

Definition M (A : Type) : Type := io → option (A * io).

#[export] Instance M_ret : MRet M := λ A x s, Some (x, s).
#[export] Instance M_bind : MBind M := λ A B f m s, match m s with None => None | Some (x, s) => f x s end.

(** The fuel is used up. *)
Definition diverge {A} : M A := λ _, None.

(** [kmalloc]: the number of the call, when it succeeds. *)
Definition kmalloc : M (option nat) := λ s,
  Some (if kmalloc_ok (allocs s) then Some (allocs s) else None, IO (store s) (Datatypes.S (allocs s))).

Definition block_cache_read (d lba count : Z) : M (option (list (list Z))) := λ s,
  let '(r, st) := sc_read d lba count (store s) in Some (r, IO st (allocs s)).
Definition block_cache_write (d lba : Z) (src : list (list Z)) : M bool := λ s,
  let '(r, st) := sc_write d lba src (store s) in Some (r, IO st (allocs s)).
Definition block_cache_flush_device (d : Z) : M bool := λ s,
  let '(r, st) := sc_flush d (store s) in Some (r, IO st (allocs s)).

(** One sector. *)
Definition read_sector (d lba : Z) : M (option (list Z)) :=
  r ← block_cache_read d lba 1; mret (r ≫= head).
Definition write_sector (d lba : Z) (sec : list Z) : M bool := block_cache_write d lba [sec].

Section volume.
Context (vol : fat32_volume).

(** ** The file allocation table *)

Definition cluster_to_lba (cluster : Z) : Z :=
  u64 (cluster_start_lba vol + u64 (u32 (cluster - 2) * sectors_per_cluster vol)).

Definition fat_sector (f cluster : Z) : Z :=
  u64 (fat_start_lba vol + u64 (f * fat_size_32 (bpb vol)) + cluster * 4 / bytes_per_sector (bpb vol)).
Definition fat_offset (cluster : Z) : Z := (cluster * 4) mod bytes_per_sector (bpb vol).

Definition fat32_read_fat_entry (cluster : Z) : M Z :=
  sec ← read_sector (dev vol) (fat_sector 0 cluster);
  mret (match sec with
        | None => FAT32_CLUSTER_BAD
        | Some sec => Z.land (u32_at sec (fat_offset cluster)) 0x0fffffff
        end).

Definition put_fat_entry (cluster next : Z) (sec : list Z) : list Z :=
  let old := u32_at sec (fat_offset cluster) in
  splice sec (fat_offset cluster) (le_bytes 4 (Z.lor (Z.land old 0xf0000000) (Z.land next 0x0fffffff))).

(** [n] tables are left, the next one is [f]. *)
Fixpoint write_fats (n : nat) (f cluster next : Z) : M bool :=
  match n with
  | O => mret true
  | Datatypes.S n =>
      sec ← read_sector (dev vol) (fat_sector f cluster);
      match sec with
      | None => mret false
      | Some sec =>
          ok ← write_sector (dev vol) (fat_sector f cluster) (put_fat_entry cluster next sec);
          if ok : bool then write_fats n (f + 1) cluster next else mret false
      end
  end.

Definition fat32_write_fat_entry (cluster next : Z) : M bool :=
  write_fats (Z.to_nat (num_fats (bpb vol))) 0 cluster next.

Fixpoint zero_sectors (n : nat) (lba : Z) : M unit :=
  match n with
  | O => mret tt
  | Datatypes.S n => _ ← write_sector (dev vol) lba (replicate 512 0); zero_sectors n (u64 (lba + 1))
  end.

(** [n] clusters are left to try. *)
Fixpoint allocate_from (n : nat) (clus prev : Z) : M Z :=
  match n with
  | O => mret 0
  | Datatypes.S n =>
      val ← fat32_read_fat_entry clus;
      if val =? FAT32_CLUSTER_FREE then
        ok ← fat32_write_fat_entry clus FAT32_CLUSTER_END;
        if negb ok then mret 0
        else
          _ ← (if prev >=? 2 then fat32_write_fat_entry prev clus else mret true);
          _ ← zero_sectors (Z.to_nat (sectors_per_cluster vol)) (cluster_to_lba clus);
          mret clus
      else allocate_from n (clus + 1) prev
  end.

Definition fat32_allocate_cluster (prev : Z) : M Z :=
  allocate_from (Z.to_nat (u32 (total_clusters vol + 2) - 2)) 2 prev.

Definition in_chain (c : Z) : bool := (c >=? 2) && (c <? FAT32_CLUSTER_END_MIN).

Fixpoint free_chain (n : nat) (curr : Z) : M unit :=
  if negb (in_chain curr) then mret tt
  else
    match n with
    | O => diverge
    | Datatypes.S n =>
        next ← fat32_read_fat_entry curr;
        _ ← fat32_write_fat_entry curr FAT32_CLUSTER_FREE;
        free_chain n next
    end.

Definition fat32_free_cluster_chain (start : Z) : M unit := free_chain fuel start.

(** ** Lookup *)

Inductive search := NotHere (l : lfn_state) | Missing | Found (e : Z) (de : list Z).

Fixpoint search_entries (target : list Z) (es : list (list Z)) (e : Z) (l : lfn_state) : search :=
  match es with
  | [] => NotHere l
  | de :: es =>
      match visit_entry de l with
      | AtEnd => Missing
      | Skipped l => search_entries target es (e + 1) l
      | Visible => if entry_matches target de l then Found e de else search_entries target es (e + 1) no_lfn
      end
  end.

(** What is left of the sectors of a cluster: [n] of them, from number [s] on. *)
Fixpoint search_sectors (target : list Z) (n : nat) (clus s : Z) (l : lfn_state)
    : M (lfn_state + option fat32_lookup_result) :=
  match n with
  | O => mret (inl l)
  | Datatypes.S n =>
      sec ← read_sector (dev vol) (u64 (cluster_to_lba clus + s));
      match sec with
      | None => mret (inr None)
      | Some sec =>
          match search_entries target (sector_entries sec) 0 l with
          | Missing => mret (inr None)
          | Found e de => mret (inr (Some (LookupResult clus s e de)))
          | NotHere l => search_sectors target n clus (s + 1) l
          end
      end
  end.

Fixpoint search_chain (n : nat) (target : list Z) (clus : Z) (l : lfn_state) : M (option fat32_lookup_result) :=
  if negb (in_chain clus) then mret None
  else
    match n with
    | O => diverge
    | Datatypes.S n =>
        r ← search_sectors target (Z.to_nat (sectors_per_cluster vol)) clus 0 l;
        match r with
        | inr r => mret r
        | inl l => next ← fat32_read_fat_entry clus; search_chain n target next l
        end
    end.

Definition fat32_lookup_entry_in_dir (clus : Z) (target : list Z) : M (option fat32_lookup_result) :=
  search_chain fuel target clus no_lfn.

(** The result of a query for the root directory. *)
Definition root_result : fat32_lookup_result :=
  LookupResult (root_cluster vol) (dir_sector_offset junk) (entry_index_in_sector junk)
    (set_size 0 (set_attr FAT_ATTR_DIRECTORY (set_cluster (root_cluster vol) (entry junk)))).

(** [n] bounds the number of components, and the path is not empty. *)
Fixpoint lookup_components (n : nat) (clus : Z) (path : list Z) : M (option fat32_lookup_result) :=
  match n with
  | O => mret None
  | Datatypes.S n =>
      let '(component, path) := next_component path in
      let path := skip_seps path in
      r ← fat32_lookup_entry_in_dir clus (take (FAT32_MAX_PATH_LEN - 1) component);
      match r with
      | None => mret None
      | Some r =>
          match path with
          | [] => mret (Some r)
          | _ :: _ =>
              if negb (is_directory (entry r)) then mret None
              else
                let c := de_cluster (entry r) in
                lookup_components n (if c =? 0 then root_cluster vol else c) path
          end
      end
  end.

Definition fat32_lookup_path (path : list Z) : M (option fat32_lookup_result) :=
  match path with
  | [] => mret None
  | _ :: _ =>
      match skip_seps path with
      | [] => mret (Some root_result)
      | path => lookup_components (length path) (root_cluster vol) path
      end
  end.

(** ** Files *)

(** [count] sectors, as the bytes of one buffer. *)
Definition read_cluster (clus : Z) : M (option (list Z)) :=
  r ← block_cache_read (dev vol) (cluster_to_lba clus) (sectors_per_cluster vol);
  mret (@concat Z <$> r).

(** [got] is what has been read. *)
Fixpoint read_chain (n : nat) (clus size : Z) (got : list Z) : M (option (list Z)) :=
  if negb (in_chain clus && (Z.of_nat (length got) <? size)) then mret (Some got)
  else
    match n with
    | O => diverge
    | Datatypes.S n =>
        buf ← read_cluster clus;
        match buf with
        | None => mret None
        | Some buf =>
            let to_copy := Z.min (size - Z.of_nat (length got)) (cluster_size vol) in
            next ← fat32_read_fat_entry clus;
            read_chain n next size (got ++ take (Z.to_nat to_copy) buf)
        end
    end.

(** What is in the buffer behind the bytes that were read is what the heap left there. *)
Definition fill (k : nat) (size : Z) (got : list Z) : list Z :=
  got ++ drop (length got) (take (Z.to_nat size) (fresh k)).

Definition fat32_read_file (path : option (list Z)) : M (option (list Z)) :=
  match path with
  | None => mret None
  | Some path =>
      if negb (mounted vol) then mret None
      else
        res ← fat32_lookup_path path;
        match res with
        | None => mret None
        | Some res =>
            if is_directory (entry res) then mret None
            else
              let size := de_size (entry res) in
              let start := de_cluster (entry res) in
              if (size =? 0) || (start <? 2) then mret (Some [])
              else
                buf ← kmalloc;
                match buf with
                | None => mret None
                | Some k =>
                    clus_buf ← kmalloc;
                    match clus_buf with
                    | None => mret None
                    | Some _ =>
                        got ← read_chain fuel start size [];
                        mret (fill k size <$> got)
                    end
                end
        end
  end.

(** The new entry of [fat32_add_dir_entry]. *)
Definition new_entry (name : list Z) (attr first_clus size : Z) : list Z :=
  set_size size (set_cluster first_clus (set_attr attr (splice (replicate 32 0) 0 (fat32_generate_83_name name)))).

Definition is_free_entry (de : list Z) : bool := (de_first de =? 0) || (de_first de =? 0xe5).

Fixpoint find_free_entry (es : list (list Z)) (e : Z) : option Z :=
  match es with
  | [] => None
  | de :: es => if is_free_entry de then Some e else find_free_entry es (e + 1)
  end.

Fixpoint add_in_sectors (new : list Z) (n : nat) (clus s : Z) : M (option bool) :=
  match n with
  | O => mret None
  | Datatypes.S n =>
      let lba := u64 (cluster_to_lba clus + s) in
      sec ← read_sector (dev vol) lba;
      match sec with
      | None => mret (Some false)
      | Some sec =>
          match find_free_entry (sector_entries sec) 0 with
          | Some e => ok ← write_sector (dev vol) lba (put_entry sec e new); mret (Some ok)
          | None => add_in_sectors new n clus (s + 1)
          end
      end
  end.

Fixpoint add_in_chain (n : nat) (new : list Z) (clus : Z) : M bool :=
  if negb (in_chain clus) then mret false
  else
    match n with
    | O => diverge
    | Datatypes.S n =>
        r ← add_in_sectors new (Z.to_nat (sectors_per_cluster vol)) clus 0;
        match r with
        | Some ok => mret ok
        | None =>
            next ← fat32_read_fat_entry clus;
            if next >=? FAT32_CLUSTER_END_MIN then
              c ← fat32_allocate_cluster clus;
              if c =? 0 then mret false else add_in_chain n new c
            else add_in_chain n new next
        end
    end.

Definition fat32_add_dir_entry (clus : Z) (name : list Z) (attr first_clus size : Z) : M bool :=
  add_in_chain fuel (new_entry name attr first_clus size) clus.

(** The sectors of a buffer. *)
Fixpoint sectors_of (n : nat) (buf : list Z) : list (list Z) :=
  match n with O => [] | Datatypes.S n => take 512 buf :: sectors_of n (drop 512 buf) end.

(** [clus_buf]: the chunk of the data at [offset], and zeros. *)
Definition cluster_buffer (data : option (list Z)) (offset chunk : Z) : list Z :=
  let part := match data with Some d => slice d offset (Z.to_nat chunk) | None => [] end in
  part ++ replicate (Z.to_nat (cluster_size vol) - length part) 0.

(** The loop that allocates and fills the clusters of a file: [n] are left, [i] are
    done, [prev] is the last of them and [start] the first (0: none yet). *)
Fixpoint write_data (n : nat) (i prev start : Z) (data : option (list Z)) (size : Z) : M (option Z) :=
  match n with
  | O => mret (Some start)
  | Datatypes.S n =>
      c ← fat32_allocate_cluster prev;
      if c =? 0 then
        _ ← (if start =? 0 then mret tt else fat32_free_cluster_chain start);
        mret None
      else
        let start := if start =? 0 then c else start in
        let offset := u64 (i * cluster_size vol) in
        let chunk := Z.min (u64 (size - offset)) (cluster_size vol) in
        buf ← kmalloc;
        _ ← match buf with
            | None => mret true
            | Some _ =>
                block_cache_write (dev vol) (cluster_to_lba c)
                  (sectors_of (Z.to_nat (sectors_per_cluster vol)) (cluster_buffer data offset chunk))
            end;
        write_data n (i + 1) c start data size
  end.

Definition needed_clusters (size : Z) : Z := u32 (u64 (size + cluster_size vol - 1) / cluster_size vol).

Definition write_clusters (data : option (list Z)) (size : Z) : M (option Z) :=
  if size >? 0 then write_data (Z.to_nat (needed_clusters size)) 0 0 0 data size else mret (Some 0).

(** Changes the entry that a lookup found. *)
Definition update_entry (res : fat32_lookup_result) (f : list Z → list Z) : M unit :=
  let lba := u64 (cluster_to_lba (dir_cluster res) + dir_sector_offset res) in
  sec ← read_sector (dev vol) lba;
  match sec with
  | None => mret tt
  | Some sec =>
      let e := entry_index_in_sector res in
      _ ← write_sector (dev vol) lba (put_entry sec e (f (entry_at sec e))); mret tt
  end.

(** The directory and the name of a new entry. *)
Definition parent_of (path : list Z) : M (option (Z * list Z)) :=
  match split_last is_sep path with
  | None => mret (Some (root_cluster vol, path))
  | Some (parent_path, name) =>
      res ← fat32_lookup_path (take (FAT32_MAX_PATH_LEN - 1) parent_path);
      mret (match res with
            | None => None
            | Some res =>
                if negb (is_directory (entry res)) then None
                else let c := de_cluster (entry res) in Some (if c =? 0 then root_cluster vol else c, name)
            end)
  end.

(** ** Enumeration *)

(** What the loops over a whole directory visit in a sector: the visible entries
    with their names, the state behind the sector, and whether the end was met. *)
Fixpoint list_entries (es : list (list Z)) (l : lfn_state) : list (list Z * list Z) * lfn_state * bool :=
  match es with
  | [] => ([], l, false)
  | de :: es =>
      match visit_entry de l with
      | AtEnd => ([], l, true)
      | Skipped l => list_entries es l
      | Visible => let '(r, l', ended) := list_entries es no_lfn in ((entry_name de l, de) :: r, l', ended)
      end
  end.

Definition readdir_call : Type := list Z * Z * Z.
Definition call_of (x : list Z * list Z) : readdir_call := (x.1, de_size x.2, de_attr x.2).

(** The calls of the callback; [inl] when the loops go on, [inr] with the result when they end. *)
Fixpoint readdir_sectors (n : nat) (clus s : Z) (l : lfn_state) (calls : list readdir_call)
    : M (list readdir_call * (lfn_state + bool)) :=
  match n with
  | O => mret (calls, inl l)
  | Datatypes.S n =>
      sec ← read_sector (dev vol) (u64 (cluster_to_lba clus + s));
      match sec with
      | None => mret (calls, inr false)
      | Some sec =>
          let '(r, l, ended) := list_entries (sector_entries sec) l in
          let calls := calls ++ (call_of <$> r) in
          if ended : bool then mret (calls, inr true) else readdir_sectors n clus (s + 1) l calls
      end
  end.

Fixpoint readdir_chain (n : nat) (clus : Z) (l : lfn_state) (calls : list readdir_call) : M (list readdir_call * bool) :=
  if negb (in_chain clus) then mret (calls, true)
  else
    match n with
    | O => diverge
    | Datatypes.S n =>
        r ← readdir_sectors (Z.to_nat (sectors_per_cluster vol)) clus 0 l calls;
        match r with
        | (calls, inr ok) => mret (calls, ok)
        | (calls, inl l) => next ← fat32_read_fat_entry clus; readdir_chain n next l calls
        end
    end.

(** [None] without a call of the callback; the path may be NULL. *)
Definition fat32_readdir (path : option (list Z)) : M (list readdir_call * bool) :=
  if negb (mounted vol) then mret ([], false)
  else
    match path with
    | None => mret ([], false)
    | Some path =>
        res ← fat32_lookup_path path;
        match res with
        | None => mret ([], false)
        | Some res =>
            if negb (is_directory (entry res)) then mret ([], false)
            else
              let c := de_cluster (entry res) in
              readdir_chain fuel (if c =? 0 then root_cluster vol else c) no_lfn []
        end
    end.

Definition is_dot (name : list Z) : bool := bool_decide (name = [46]) || bool_decide (name = [46; 46]).

Definition join_path (prefix name : list Z) : list Z :=
  let limit := (FAT32_MAX_PATH_LEN - 1)%nat in
  let head := match prefix with [] => [] | _ => let p := take limit prefix in if (length p <? limit)%nat then p ++ [47] else p end in
  head ++ take (limit - length head) name.

Section scan.
(** The call for a subdirectory. *)
Context (sub : Z → list Z → list fat32_cached_file → M (list fat32_cached_file)) (prefix : list Z).

Definition scan_entry (files : list fat32_cached_file) (x : list Z * list Z) : M (list fat32_cached_file) :=
  let '(name, de) := x in
  if is_dot name then mret files
  else
    let full := join_path prefix name in
    if is_directory de then
      if de_cluster de >=? 2 then sub (de_cluster de) full files else mret files
    else if Z.of_nat (length files) <? FAT32_MAX_CACHED_FILES
    then mret (files ++ [CachedFile (take (FAT32_MAX_PATH_LEN - 1) full) None (de_size de) true])
    else mret files.

Fixpoint scan_entries (xs : list (list Z * list Z)) (files : list fat32_cached_file) : M (list fat32_cached_file) :=
  match xs with
  | [] => mret files
  | x :: xs => files ← scan_entry files x; scan_entries xs files
  end.

(** [None] when the directory has ended. *)
Fixpoint scan_sectors (n : nat) (clus s : Z) (l : lfn_state) (files : list fat32_cached_file)
    : M (list fat32_cached_file * option lfn_state) :=
  match n with
  | O => mret (files, Some l)
  | Datatypes.S n =>
      sec ← read_sector (dev vol) (u64 (cluster_to_lba clus + s));
      match sec with
      | None => mret (files, None)
      | Some sec =>
          let '(r, l, ended) := list_entries (sector_entries sec) l in
          files ← scan_entries r files;
          if ended : bool then mret (files, None) else scan_sectors n clus (s + 1) l files
      end
  end.

Fixpoint scan_chain (n : nat) (clus : Z) (l : lfn_state) (files : list fat32_cached_file) : M (list fat32_cached_file) :=
  if negb (in_chain clus) then mret files
  else
    match n with
    | O => diverge
    | Datatypes.S n =>
        r ← scan_sectors (Z.to_nat (sectors_per_cluster vol)) clus 0 l files;
        match r with
        | (files, None) => mret files
        | (files, Some l) => next ← fat32_read_fat_entry clus; scan_chain n next l files
        end
    end.
End scan.

(** [depth] bounds the recursion; each loop over a chain has its own fuel. *)
Fixpoint fat32_scan_files_recursive (depth : nat) (clus : Z) (prefix : list Z) (files : list fat32_cached_file)
    : M (list fat32_cached_file) :=
  if Z.of_nat (length files) >=? FAT32_MAX_CACHED_FILES then mret files
  else
    match depth with
    | O => diverge
    | Datatypes.S depth => scan_chain (fat32_scan_files_recursive depth) prefix fuel clus no_lfn files
    end.

Definition fat32_refresh_cached_files_locked : M (list fat32_cached_file) :=
  fat32_scan_files_recursive fuel (root_cluster vol) [] [].

End volume.

(** ** Operations on a volume

    They return the volume as it is afterwards. *)

(** [block_cache_flush_device] and [fat32_refresh_cached_files_locked]. *)
Definition finish (vol : fat32_volume) : M (bool * fat32_volume) :=
  _ ← block_cache_flush_device (dev vol);
  files ← fat32_refresh_cached_files_locked vol;
  mret (true, with_cached files vol).

(** The branch of [fat32_write_file] for a path that exists. *)
Definition overwrite_file (vol : fat32_volume) (res : fat32_lookup_result) (data : option (list Z)) (size : Z)
    : M (bool * fat32_volume) :=
  if is_directory (entry res) then mret (false, vol)
  else
    let old := de_cluster (entry res) in
    _ ← (if old >=? 2 then fat32_free_cluster_chain vol old else mret tt);
    start ← write_clusters vol data size;
    match start with
    | None => mret (false, vol)
    | Some start => _ ← update_entry vol res (λ de, set_size size (set_cluster start de)); finish vol
    end.

(** The branch for a new file. *)
Definition create_file (vol : fat32_volume) (path : list Z) (data : option (list Z)) (size : Z) : M (bool * fat32_volume) :=
  p ← parent_of vol path;
  match p with
  | None => mret (false, vol)
  | Some (parent, name) =>
      start ← write_clusters vol data size;
      match start with
      | None => mret (false, vol)
      | Some start =>
          ok ← fat32_add_dir_entry vol parent name FAT_ATTR_ARCHIVE start (u32 size);
          if negb ok then
            _ ← (if start =? 0 then mret tt else fat32_free_cluster_chain vol start);
            mret (false, vol)
          else finish vol
      end
  end.

Definition fat32_write_file (vol : fat32_volume) (path : option (list Z)) (data : option (list Z)) (size : Z)
    : M (bool * fat32_volume) :=
  match path with
  | None => mret (false, vol)
  | Some path =>
      if negb (mounted vol) then mret (false, vol)
      else
        res ← fat32_lookup_path vol path;
        match res with
        | Some res => overwrite_file vol res data size
        | None => create_file vol path data size
        end
  end.

Definition mark_deleted (de : list Z) : list Z := splice de 0 [0xe5].

Definition fat32_unlink_file (vol : fat32_volume) (path : option (list Z)) : M (bool * fat32_volume) :=
  match path with
  | None => mret (false, vol)
  | Some path =>
      if negb (mounted vol) then mret (false, vol)
      else
        res ← fat32_lookup_path vol path;
        match res with
        | None => mret (false, vol)
        | Some res =>
            if is_directory (entry res) then mret (false, vol)
            else
              let clus := de_cluster (entry res) in
              _ ← (if clus >=? 2 then fat32_free_cluster_chain vol clus else mret tt);
              _ ← update_entry vol res mark_deleted;
              finish vol
        end
  end.

(** The first sector of a new directory. *)
Definition dot_entry (name : list Z) (clus : Z) : list Z :=
  set_cluster clus (set_attr FAT_ATTR_DIRECTORY (splice (replicate 32 0) 0 (name ++ replicate (11 - length name) 32))).
Definition dot_sector (new_clus parent : Z) : list Z :=
  dot_entry [46] new_clus ++ dot_entry [46; 46] parent ++ replicate 448 0.

Definition fat32_mkdir (vol : fat32_volume) (path : option (list Z)) : M bool :=
  match path with
  | None => mret false
  | Some path =>
      if negb (mounted vol) then mret false
      else
        res ← fat32_lookup_path vol path;
        match res with
        | Some _ => mret false
        | None =>
            p ← parent_of vol path;
            match p with
            | None => mret false
            | Some (parent, name) =>
                new_clus ← fat32_allocate_cluster vol 0;
                if new_clus =? 0 then mret false
                else
                  _ ← write_sector (dev vol) (cluster_to_lba vol new_clus) (dot_sector new_clus parent);
                  ok ← fat32_add_dir_entry vol parent name FAT_ATTR_DIRECTORY new_clus 0;
                  if negb ok then _ ← fat32_free_cluster_chain vol new_clus; mret false
                  else _ ← block_cache_flush_device (dev vol); mret true
            end
        end
  end.

Definition fat32_rmdir (vol : fat32_volume) (path : option (list Z)) : M bool :=
  match path with
  | None => mret false
  | Some path =>
      if negb (mounted vol) then mret false
      else
        res ← fat32_lookup_path vol path;
        match res with
        | None => mret false
        | Some res =>
            if negb (is_directory (entry res)) then mret false
            else
              let clus := de_cluster (entry res) in
              _ ← (if clus >=? 2 then fat32_free_cluster_chain vol clus else mret tt);
              _ ← update_entry vol res mark_deleted;
              _ ← block_cache_flush_device (dev vol);
              mret true
        end
  end.

Definition fat32_rename (vol : fat32_volume) (old_path new_path : option (list Z)) : M (bool * fat32_volume) :=
  match old_path, new_path with
  | Some _, Some _ =>
      if negb (mounted vol) then mret (false, vol)
      else
        data ← fat32_read_file vol old_path;
        match data with
        | None => mret (false, vol)
        | Some data =>
            r ← fat32_write_file vol new_path (Some data) (Z.of_nat (length data));
            let '(ok, vol) := r in
            if negb ok then mret (false, vol)
            else r ← fat32_unlink_file vol old_path; mret (true, r.2)
        end
  | _, _ => mret (false, vol)
  end.

(** ** All volumes *)

Record fat32 := Fat32 {
  disk : io;
  g_fat_volumes : list fat32_volume;
  g_fat_volume_count : Z;
  g_active_vfs_vol : option nat;
}.

Definition set_volume (i : nat) (s : io) (vol : fat32_volume) (g : fat32) : fat32 :=
  Fat32 s (<[i := vol]> (g_fat_volumes g)) (g_fat_volume_count g) (g_active_vfs_vol g).

(** Runs an operation on the volume a pointer names. *)
Definition on_volume {A} (v : option nat) (failed : A) (f : fat32_volume → M (A * fat32_volume)) (g : fat32)
    : option (A * fat32) :=
  match v with
  | None => Some (failed, g)
  | Some i =>
      match g_fat_volumes g !! i with
      | None => Some (failed, g)
      | Some vol =>
          match f vol (disk g) with
          | None => None
          | Some (x, vol, s) => Some (x, set_volume i s vol g)
          end
      end
  end.

(** [block_read] of sector 0; a device pointer that is NULL is 0. *)
Definition fat32_probe (d : Z) (s : io) : bool :=
  if d =? 0 then false
  else
    match sc_device_read d 0 (store s) with
    | None => false
    | Some sec =>
        let b := bpb_of sec in
        (u8_at sec 510 =? 0x55) && (u8_at sec 511 =? 0xaa) &&
        (bytes_per_sector b =? 512) && negb (bpb_sectors_per_cluster b =? 0) && negb (num_fats b =? 0) &&
        (fat_size_16 b =? 0) && negb (fat_size_32 b =? 0)
    end.

Definition volume_of (d : Z) (b : fat32_bpb) : fat32_volume :=
  let fat_start := reserved_sector_count b in
  let cluster_start := u64 (fat_start + num_fats b * fat_size_32 b) in
  Volume d b fat_start cluster_start (bpb_sectors_per_cluster b) (u32 (bpb_sectors_per_cluster b * bytes_per_sector b))
    (u32 (total_sectors_32 b - u32 cluster_start) / bpb_sectors_per_cluster b) (bpb_root_cluster b) [] true.

(** The index of the volume, when the mount succeeds. *)
Definition fat32_mount (d : Z) (g : fat32) : option (option nat * fat32) :=
  if negb (fat32_probe d (disk g)) || (g_fat_volume_count g >=? FAT32_MAX_VOLUMES) then Some (None, g)
  else
    match sc_device_read d 0 (store (disk g)) with
    | None => Some (None, g)
    | Some sec =>
        let i := Z.to_nat (g_fat_volume_count g) in
        let vol := volume_of d (bpb_of sec) in
        match fat32_refresh_cached_files_locked vol (disk g) with
        | None => None
        | Some (files, s) =>
            Some (Some i, Fat32 s (<[i := with_cached files vol]> (g_fat_volumes g)) (g_fat_volume_count g + 1) (g_active_vfs_vol g))
        end
    end.

Definition unmounted (vol : fat32_volume) : fat32_volume :=
  Volume (dev vol) (bpb vol) (fat_start_lba vol) (cluster_start_lba vol) (sectors_per_cluster vol) (cluster_size vol)
    (total_clusters vol) (root_cluster vol) [] false.

Definition fat32_unmount (v : option nat) : fat32 → option (bool * fat32) :=
  on_volume v false (λ vol,
    if negb (mounted vol) then mret (false, vol)
    else _ ← block_cache_flush_device (dev vol); mret (true, unmounted vol)).

(** ** The backend for the virtual file system *)

Definition fat32_get_vfs_backend (v : option nat) (g : fat32) : bool * fat32 :=
  match v with
  | None => (false, g)
  | Some i => (true, Fat32 (disk g) (g_fat_volumes g) (g_fat_volume_count g) (Some i))
  end.

Definition fat32_vfs_read_file (path : option (list Z)) (g : fat32) : option (option (list Z) * fat32) :=
  on_volume (g_active_vfs_vol g) None (λ vol, r ← fat32_read_file vol path; mret (r, vol)) g.

Definition fat32_vfs_write_file (path data : option (list Z)) (size : Z) (g : fat32) : option (bool * fat32) :=
  on_volume (g_active_vfs_vol g) false (λ vol, fat32_write_file vol path data size) g.

Definition fat32_vfs_unlink_file (path : option (list Z)) (g : fat32) : option (bool * fat32) :=
  on_volume (g_active_vfs_vol g) false (λ vol, fat32_unlink_file vol path) g.

Definition fat32_vfs_file_count (g : fat32) : Z :=
  match g_active_vfs_vol g with
  | None => 0
  | Some i => match g_fat_volumes g !! i with Some vol => Z.of_nat (length (cached_files vol)) | None => 0 end
  end.

(** The cached file, with its data after the first call. *)
Definition fat32_vfs_file_at (index : Z) (g : fat32) : option (option fat32_cached_file * fat32) :=
  on_volume (g_active_vfs_vol g) None (λ vol,
    match cached_files vol !! Z.to_nat index with
    | None => mret (None, vol)
    | Some cf =>
        match cf_data cf with
        | Some _ => mret (Some cf, vol)
        | None =>
            if cf_size cf >? 0 then
              d ← fat32_read_file vol (Some (cf_path cf));
              match d with
              | None => mret (Some cf, vol)
              | Some d =>
                  let cf := CachedFile (cf_path cf) (Some d) (cf_size cf) (cf_valid cf) in
                  mret (Some cf, with_cached (<[Z.to_nat index := cf]> (cached_files vol)) vol)
              end
            else mret (Some cf, vol)
        end
    end) g.

End driver.
