(* ===== verification/Fat32Entry.v ===== *)
(** * FAT32: directory entries and 8.3 names

    Field updates of a 32-byte entry, and the round trip of names: a name that
    fits the 8.3 form is stored so that a lookup by it finds it again. *)

From Stdlib Require Import ZArith Lia.
From stdpp Require Import gmap.
From S2P Require Import Prelude Interfaces Inet Bytes Fat32.
#[local] Open Scope Z_scope.

(** A byte field that a store does not touch. *)
Lemma u16_splice_other de off bs k : 0 ≤ off → off + Z.of_nat (length bs) ≤ Z.of_nat (length de) → 0 ≤ k →
  k + 2 ≤ off ∨ off + Z.of_nat (length bs) ≤ k → u16_at (splice de off bs) k = u16_at de k.
Proof. intros. unfold u16_at. by rewrite slice_splice_other. Qed.

Lemma u8_splice_other de off bs k : 0 ≤ off → off + Z.of_nat (length bs) ≤ Z.of_nat (length de) → 0 ≤ k →
  k + 1 ≤ off ∨ off + Z.of_nat (length bs) ≤ k → u8_at (splice de off bs) k = u8_at de k.
Proof. intros. unfold u8_at. by rewrite slice_splice_other. Qed.

Lemma u32_splice_other de off bs k : 0 ≤ off → off + Z.of_nat (length bs) ≤ Z.of_nat (length de) → 0 ≤ k →
  k + 4 ≤ off ∨ off + Z.of_nat (length bs) ≤ k → u32_at (splice de off bs) k = u32_at de k.
Proof. intros. unfold u32_at. by rewrite slice_splice_other. Qed.

Lemma le_field n de off v : 0 ≤ off → off + Z.of_nat n ≤ Z.of_nat (length de) → 0 ≤ v < 256 ^ Z.of_nat n →
  le_int (slice (splice de off (le_bytes n v)) off n) = v.
Proof.
  intros H0 Hl Hv. pose proof (slice_splice_same de off (le_bytes n v)) as E. rewrite length_le_bytes in E.
  rewrite E by lia. by apply le_int_bytes.
Qed.

Lemma take_splice de off bs n : (Z.of_nat n ≤ off) → off ≤ Z.of_nat (length de) → take n (splice de off bs) = take n de.
Proof. intros Hn Hl. unfold splice. rewrite take_app_le by (rewrite length_take; lia). rewrite take_take. f_equal. lia. Qed.

Definition entry_ok (de : list Z) : Prop := length de = 32%nat ∧ Forall is_u8 de.

Lemma full_splice de off n v : entry_ok de → 0 ≤ off → off + Z.of_nat n ≤ 32 → entry_ok (splice de off (le_bytes n v)).
Proof.
  intros [Hl Hu] H0 Hn. split; [rewrite length_splice; rewrite ?length_le_bytes; lia|]. apply splice_u8; [done|apply le_bytes_u8].
Qed.

#[local] Ltac field := repeat (rewrite length_splice by (rewrite ?length_le_bytes; lia)); rewrite ?length_le_bytes; (done || lia).

Section fields.
Context (de : list Z) (Hde : entry_ok de).

Lemma set_cluster_full c : entry_ok (set_cluster c de).
Proof. unfold set_cluster. by repeat (apply full_splice; [|lia|lia]). Qed.
Lemma set_size_full n : entry_ok (set_size n de).
Proof. unfold set_size. by repeat (apply full_splice; [|lia|lia]). Qed.
Lemma set_attr_full n : entry_ok (set_attr n de).
Proof. unfold set_attr. by repeat (apply full_splice; [|lia|lia]). Qed.

Lemma set_cluster_cluster c : 0 ≤ c < 4294967296 → de_cluster (set_cluster c de) = c.
Proof.
  intros Hc. destruct Hde as [Hl _]. unfold de_cluster, set_cluster.
  assert (Z.shiftr c 16 = c / 65536) as Es by (by rewrite Z.shiftr_div_pow2 by lia).
  assert (Z.land c 0xffff = c mod 65536) as El by (change 0xffff with (Z.ones 16); by rewrite Z.land_ones by lia).
  assert (0 ≤ c / 65536 < 65536) by (split; [apply Z.div_pos; lia|apply Z.div_lt_upper_bound; lia]).
  pose proof (Z.mod_pos_bound c 65536 ltac:(lia)).
  rewrite Es, El. unfold u16. rewrite (Z.mod_small (c / 65536)), (Z.mod_small (c mod 65536)) by lia.
  rewrite u16_splice_other by field. unfold u16_at. rewrite !le_field by field.
  rewrite Z.shiftl_mul_pow2, lor_mul_pow2 by (change (2 ^ 16) with 65536; lia). change (2 ^ 16) with 65536.
  pose proof (Z.div_mod c 65536 ltac:(lia)). lia.
Qed.

Lemma set_cluster_other c : de_name (set_cluster c de) = de_name de ∧ de_first (set_cluster c de) = de_first de ∧
  de_attr (set_cluster c de) = de_attr de ∧ de_size (set_cluster c de) = de_size de.
Proof.
  destruct Hde as [Hl _]. unfold de_name, de_first, de_attr, de_size, set_cluster. split_and!.
  - rewrite !take_splice by field. done.
  - by rewrite !u8_splice_other by field.
  - by rewrite !u8_splice_other by field.
  - by rewrite !u32_splice_other by field.
Qed.

Lemma set_size_size n : 0 ≤ n < 4294967296 → de_size (set_size n de) = n.
Proof.
  intros Hn. destruct Hde as [Hl _]. unfold de_size, set_size, u32_at. rewrite u32_small by done. apply le_field; lia.
Qed.

Lemma set_size_other n : de_name (set_size n de) = de_name de ∧ de_first (set_size n de) = de_first de ∧
  de_attr (set_size n de) = de_attr de ∧ de_cluster (set_size n de) = de_cluster de.
Proof.
  destruct Hde as [Hl _]. unfold de_name, de_first, de_attr, de_cluster, set_size. split_and!.
  - rewrite !take_splice by field. done.
  - by rewrite !u8_splice_other by field.
  - by rewrite !u8_splice_other by field.
  - by rewrite !u16_splice_other by field.
Qed.

Lemma set_attr_attr n : 0 ≤ n < 256 → de_attr (set_attr n de) = n.
Proof. intros Hn. destruct Hde as [Hl _]. unfold de_attr, set_attr, u8_at. apply le_field; lia. Qed.

Lemma set_attr_other n : de_name (set_attr n de) = de_name de ∧ de_first (set_attr n de) = de_first de.
Proof.
  destruct Hde as [Hl _]. unfold de_name, de_first, set_attr. split_and!.
  - rewrite !take_splice by field. done.
  - by rewrite !u8_splice_other by field.
Qed.

Lemma mark_deleted_full : entry_ok (mark_deleted de).
Proof. change (mark_deleted de) with (splice de 0 (le_bytes 1 0xe5)). apply full_splice; [done|lia|lia]. Qed.

Lemma mark_deleted_first : de_first (mark_deleted de) = 0xe5.
Proof.
  destruct Hde as [Hl _]. unfold de_first, u8_at. change (mark_deleted de) with (splice de 0 (le_bytes 1 0xe5)). apply le_field; lia.
Qed.
End fields.

(** ** Names *)

(** A character that a short name may have: no dot, no space, no terminator. *)
Definition name_char (c : Z) : Prop := 33 ≤ c < 256 ∧ c ≠ 46 ∧ c ≠ 0xe5.

(** [base] or [base.ext] in the 8.3 form. *)
Definition short_name (name : list Z) : Prop :=
  ∃ base ext, (name = base ∧ ext = [] ∨ name = base ++ 46 :: ext ∧ ext ≠ []) ∧
    (1 ≤ length base ≤ 8)%nat ∧ (length ext ≤ 3)%nat ∧ Forall name_char base ∧ Forall name_char ext.

Lemma upper_char c : name_char c → name_char (to_upper c).
Proof. unfold name_char, to_upper. intros. destruct ((97 <=? c) && (c <=? 122)) eqn:E; lia. Qed.

Lemma upper_idem c : to_upper (to_upper c) = to_upper c.
Proof. unfold to_upper. destruct ((97 <=? c) && (c <=? 122)) eqn:E; [|by rewrite E]. destruct ((97 <=? c - (97 - 65)) && _) eqn:E'; lia. Qed.

Lemma split_last_app f base c ext : f c = true → Forall (λ x, f x = false) ext → split_last f (base ++ c :: ext) = Some (base, ext).
Proof.
  intros Hc He. assert (split_last f ext = None) as En.
  { induction He as [|x ext Hx _ IH]; [done|]. cbn. by rewrite IH, Hx. }
  induction base as [|b base IH]; cbn; [by rewrite En, Hc|]. by rewrite IH.
Qed.

Lemma split_last_None f s : Forall (λ x, f x = false) s → split_last f s = None.
Proof. induction 1 as [|x s Hx _ IH]; [done|]. cbn. by rewrite IH, Hx. Qed.

Lemma pad_upper_short n s : (length s ≤ n)%nat → pad_upper n s = (to_upper <$> s) ++ replicate (n - length s) 32.
Proof. intros Hl. unfold pad_upper. rewrite take_ge by done. by rewrite length_fmap. Qed.

Lemma length_pad_upper n s : length (pad_upper n s) = n.
Proof. unfold pad_upper. rewrite length_app, length_replicate, length_fmap, length_take. lia. Qed.

Lemma length_generate name : length (fat32_generate_83_name name) = 11%nat.
Proof.
  unfold fat32_generate_83_name. destruct (split_last _ name) as [[b e]|]; rewrite length_app, ?length_replicate, !length_pad_upper; done.
Qed.

Lemma generate_u8 name : Forall is_u8 name → Forall is_u8 (fat32_generate_83_name name).
Proof.
  assert (∀ n s, Forall is_u8 s → Forall is_u8 (pad_upper n s)) as Hp.
  { intros n s Hs. unfold pad_upper. apply Forall_app. split; [|by apply Forall_replicate].
    apply Forall_fmap, Forall_take. apply (Forall_impl _ _ _ Hs). intros c Hc. unfold compose, is_u8, to_upper in *.
    destruct ((97 <=? c) && (c <=? 122)) eqn:E; lia. }
  assert (∀ f s b e, split_last f s = Some (b, e) → Forall is_u8 s → Forall is_u8 b ∧ Forall is_u8 e) as Hsplit.
  { intros f s. induction s as [|c s IH]; intros b e; cbn; [done|]. destruct (split_last f s) as [[b' e']|] eqn:E.
    - intros [= <- <-] [Hc Hs]%Forall_cons. destruct (IH b' e' eq_refl Hs). by split; [constructor|].
    - destruct (f c); [|done]. intros [= <- <-] [Hc Hs]%Forall_cons. by split. }
  intros Hn. unfold fat32_generate_83_name. destruct (split_last _ name) as [[b e]|] eqn:E.
  - destruct (Hsplit _ _ _ _ E Hn). apply Forall_app. split; by apply Hp.
  - apply Forall_app. split; [by apply Hp|by apply Forall_replicate].
Qed.

Lemma filter_spaces s n : Forall name_char s → filter not_space (s ++ replicate n 32) = s.
Proof.
  intros Hs. rewrite filter_app. assert (filter not_space s = s) as ->.
  { induction Hs as [|c s Hc _ IH]; [done|]. rewrite filter_cons_True; [by rewrite IH|]. unfold name_char in Hc. unfold not_space.
    apply Is_true_true. lia. }
  assert (filter not_space (replicate n 32) = []) as ->; [|by rewrite app_nil_r].
  induction n as [|n IH]; [done|]. cbn [replicate]. rewrite filter_cons_False; [exact IH|exact (λ H, H)].
Qed.

Lemma generate_split base ext :
  (length base ≤ 8)%nat → (length ext ≤ 3)%nat →
  take 8 (pad_upper 8 base ++ pad_upper 3 ext) = pad_upper 8 base ∧ slice (pad_upper 8 base ++ pad_upper 3 ext) 8 3 = pad_upper 3 ext.
Proof.
  intros Hb He. split; [by rewrite take_app_length' by (by rewrite length_pad_upper)|].
  unfold slice. rewrite drop_app_length' by (by rewrite length_pad_upper). rewrite take_ge; [done|rewrite length_pad_upper; lia].
Qed.

(** The stored form of a short name reads back as the name in upper case. *)
Lemma format_generate name : short_name name →
  cstring (fat32_format_83_name (fat32_generate_83_name name)) = to_upper <$> name ∧
  nth 0 (fat32_generate_83_name name) 0 ≠ 0 ∧ nth 0 (fat32_generate_83_name name) 0 ≠ 0xe5.
Proof.
  intros (base & ext & Hname & Hlb & Hle & Hb & He).
  assert (Forall (λ x, (x =? 46) = false) base) as Hb46 by (apply (Forall_impl _ _ _ Hb); unfold name_char; lia).
  assert (Forall (λ x, (x =? 46) = false) ext) as He46 by (apply (Forall_impl _ _ _ He); unfold name_char; lia).
  assert (fat32_generate_83_name name = pad_upper 8 base ++ pad_upper 3 ext) as ->.
  { unfold fat32_generate_83_name. destruct Hname as [[-> ->]|[-> Hne]].
    - by rewrite split_last_None.
    - by rewrite split_last_app. }
  assert (Forall name_char (to_upper <$> base)) as Hub by (apply Forall_fmap, (Forall_impl _ _ _ Hb); apply upper_char).
  assert (Forall name_char (to_upper <$> ext)) as Hue by (apply Forall_fmap, (Forall_impl _ _ _ He); apply upper_char).
  split.
  - unfold fat32_format_83_name. destruct (generate_split base ext ltac:(lia) Hle) as [-> ->].
    rewrite app_nth2, length_pad_upper by (rewrite length_pad_upper; lia). change (8 - 8)%nat with 0%nat.
    rewrite !pad_upper_short, !filter_spaces by (done || lia).
    assert (nth 0 ((to_upper <$> ext) ++ replicate (3 - length ext) 32) 32 = match ext with [] => 32 | c :: _ => to_upper c end) as -> by (by destruct ext).
    destruct Hname as [[-> ->]|[-> Hne]].
    + cbn. rewrite app_nil_r. apply cstring_nonzero. apply (Forall_impl _ _ _ Hub). unfold name_char. lia.
    + destruct ext as [|c ext]; [done|]. cbn in Hue. apply Forall_cons in Hue as [Hc Hue].
      assert (not_space (to_upper c) = true) as -> by (unfold not_space, name_char in *; lia).
      rewrite fmap_app. apply cstring_nonzero, Forall_app. split; [apply (Forall_impl _ _ _ Hub); unfold name_char; lia|].
      constructor; [done|]. cbn. constructor; [unfold name_char in Hc; lia|]. apply (Forall_impl _ _ _ Hue). unfold name_char. lia.
  - rewrite pad_upper_short by lia. destruct base as [|c base]; [cbn in Hlb; lia|]. cbn. apply Forall_cons in Hub as [Hc _].
    unfold name_char in Hc. lia.
Qed.

(** ** FAT32: the volume as a table and clusters

    [fatfs] is what a volume holds: an entry of the allocation table and the
    sectors of each cluster.  [holds] relates it to the sectors of the device,
    with every copy of the table in place, and [wp] says what a piece of the
    driver does in these terms: each transfer of Fat32.v gets a rule, and the
    layout of the disk is used nowhere else. *)

Record fatfs := Fatfs { fat : Z → Z; cl : Z → list (list Z) }.

Definition set_fat (c v : Z) (a : fatfs) : fatfs := Fatfs (λ x, if x =? c then v else fat a x) (cl a).
Definition set_cl (c : Z) (secs : list (list Z)) (a : fatfs) : fatfs := Fatfs (fat a) (λ x, if x =? c then secs else cl a x).
Definition set_sector (c s : Z) (sec : list Z) (a : fatfs) : fatfs := set_cl c (<[Z.to_nat s := sec]> (cl a c)) a.

Definition sector_ok (sec : list Z) : Prop := length sec = 512%nat ∧ Forall is_u8 sec.

(** Every allocation succeeds. *)
Class HeapWorks (ok : nat → bool) : Prop := heap_works n : ok n = true.

Section disk.
Context {S : Type} `{SectorCache S}.
Context (vol : fat32_volume).

(** The layout: two copies of the table do not overlap, the clusters follow, and all of it is on the device. *)
Class geometry : Prop := {
  g_dev : dev vol ≠ 0;
  g_bps : bytes_per_sector (bpb vol) = 512;
  g_fats : 1 ≤ num_fats (bpb vol);
  g_fat_size : 0 ≤ fat_size_32 (bpb vol);
  g_start : 0 ≤ fat_start_lba vol;
  g_clusters : cluster_start_lba vol = fat_start_lba vol + num_fats (bpb vol) * fat_size_32 (bpb vol);
  g_spc : 1 ≤ sectors_per_cluster vol ≤ 255;
  g_csize : cluster_size vol = sectors_per_cluster vol * 512;
  g_total : 0 ≤ total_clusters vol;
  g_entries : (total_clusters vol + 2) * 4 ≤ fat_size_32 (bpb vol) * 512;
  g_numbers : total_clusters vol + 2 ≤ FAT32_CLUSTER_BAD;
  g_end : cluster_start_lba vol + total_clusters vol * sectors_per_cluster vol ≤ 4294967296;
  g_sectors k : fat_start_lba vol ≤ k < cluster_start_lba vol + total_clusters vol * sectors_per_cluster vol →
    sc_sector (dev vol) k;
}.

Definition valid (c : Z) : Prop := 2 ≤ c < total_clusters vol + 2.

(** The sector of copy [f] of the table that has the entry of [c], and sector [s] of cluster [c]. *)
Definition fat_lba (f c : Z) : Z := fat_start_lba vol + f * fat_size_32 (bpb vol) + c * 4 / 512.
Definition data_lba (c s : Z) : Z := cluster_start_lba vol + (c - 2) * sectors_per_cluster vol + s.

Record holds (a : fatfs) (st : S) : Prop := {
  h_ok : sc_ok st;
  h_fat c f : valid c → 0 ≤ f < num_fats (bpb vol) → ∃ sec,
    sc_view st (dev vol) (fat_lba f c) = Some sec ∧ sector_ok sec ∧
    (f = 0 → Z.land (u32_at sec (c * 4 mod 512)) 0x0fffffff = fat a c);
  h_len c : valid c → Z.of_nat (length (cl a c)) = sectors_per_cluster vol;
  h_data c s : valid c → 0 ≤ s < sectors_per_cluster vol → ∃ sec,
    cl a c !! Z.to_nat s = Some sec ∧ sector_ok sec ∧ sc_view st (dev vol) (data_lba c s) = Some sec;
}.

(** ** Programs *)

Definition wp {A} (m : M A) (a : fatfs) (Q : A → fatfs → Prop) : Prop :=
  ∀ s, holds a (store s) → ∃ x s' a', m s = Some (x, s') ∧ holds a' (store s') ∧ Q x a'.

Lemma wp_ret {A} (x : A) a (Q : A → fatfs → Prop) : Q x a → wp (mret x) a Q.
Proof. intros HQ s Hs. by exists x, s, a. Qed.

Lemma wp_bind {A B} (m : M A) (k : A → M B) a Q : wp m a (λ x a', wp (k x) a' Q) → wp (m ≫= k) a Q.
Proof.
  intros Hm s Hs. destruct (Hm s Hs) as (x & s1 & a1 & E & H1 & Hk). destruct (Hk s1 H1) as (y & s2 & a2 & E2 & H2 & HQ).
  exists y, s2, a2. split; [|done]. unfold mbind, M_bind. by rewrite E.
Qed.

Lemma wp_mono {A} (m : M A) a (Q Q' : A → fatfs → Prop) : wp m a Q → (∀ x a', Q x a' → Q' x a') → wp m a Q'.
Proof. intros Hm HQ s Hs. destruct (Hm s Hs) as (x & s1 & a1 & E & H1 & HQ1). exists x, s1, a1. auto. Qed.

(** ** The layout *)

Section layout.
Context {G : geometry}.

Lemma fat_sector_lba f c : valid c → 0 ≤ f < num_fats (bpb vol) → fat_sector vol f c = fat_lba f c.
Proof.
  intros Hc Hf. destruct G. unfold fat_sector, fat_lba, valid in *. rewrite g_bps0.
  assert (0 ≤ c * 4 / 512 < fat_size_32 (bpb vol)) by (split; [apply Z.div_pos; lia|apply Z.div_lt_upper_bound; lia]).
  assert (0 ≤ f * fat_size_32 (bpb vol) ∧ f * fat_size_32 (bpb vol) + fat_size_32 (bpb vol) ≤ num_fats (bpb vol) * fat_size_32 (bpb vol)) by nia.
  assert (0 ≤ total_clusters vol * sectors_per_cluster vol) by nia.
  rewrite (u64_small (f * _)) by (unfold is_u64, W64; lia). rewrite u64_small; [done|unfold is_u64, W64; lia].
Qed.

Lemma fat_lba_range f c : valid c → 0 ≤ f < num_fats (bpb vol) →
  fat_start_lba vol + f * fat_size_32 (bpb vol) ≤ fat_lba f c < fat_start_lba vol + (f + 1) * fat_size_32 (bpb vol).
Proof.
  intros Hc Hf. destruct G. unfold fat_lba, valid in *.
  assert (0 ≤ c * 4 / 512 < fat_size_32 (bpb vol)) by (split; [apply Z.div_pos; lia|apply Z.div_lt_upper_bound; lia]). lia.
Qed.

Lemma fat_before_data f c : valid c → 0 ≤ f < num_fats (bpb vol) → fat_start_lba vol ≤ fat_lba f c < cluster_start_lba vol.
Proof.
  intros Hc Hf. pose proof (fat_lba_range f c Hc Hf). destruct G. rewrite g_clusters0. nia.
Qed.

Lemma data_lba_range c s : valid c → 0 ≤ s < sectors_per_cluster vol →
  cluster_start_lba vol ≤ data_lba c s < cluster_start_lba vol + total_clusters vol * sectors_per_cluster vol.
Proof. intros Hc Hs. unfold data_lba, valid in *. destruct G. nia. Qed.

Lemma cluster_lba c : valid c → cluster_to_lba vol c = data_lba c 0.
Proof.
  intros Hc. pose proof (data_lba_range c 0 Hc) as Hr. destruct G. unfold valid, FAT32_CLUSTER_BAD in *.
  unfold cluster_to_lba, data_lba in *. rewrite (u32_small (c - 2)) by (unfold is_u32; lia).
  assert (0 ≤ num_fats (bpb vol) * fat_size_32 (bpb vol)) by nia.
  assert (0 ≤ (c - 2) * sectors_per_cluster vol) by nia.
  rewrite (u64_small (_ * _)) by (unfold is_u64, W64; lia). rewrite u64_small; [lia|unfold is_u64, W64; lia].
Qed.

Lemma cluster_lba_at c s : valid c → 0 ≤ s < sectors_per_cluster vol → u64 (cluster_to_lba vol c + s) = data_lba c s.
Proof.
  intros Hc Hs. rewrite cluster_lba by done. pose proof (data_lba_range c s Hc Hs) as Hr. destruct G.
  replace (data_lba c 0 + s) with (data_lba c s) by (unfold data_lba; lia).
  apply u64_small. assert (0 ≤ num_fats (bpb vol) * fat_size_32 (bpb vol)) by nia. unfold is_u64, W64. lia.
Qed.

Lemma data_lba_inj c s c' s' : 0 ≤ s < sectors_per_cluster vol → 0 ≤ s' < sectors_per_cluster vol →
  data_lba c s = data_lba c' s' → c = c' ∧ s = s'.
Proof. intros Hs Hs' E. unfold data_lba in E. assert (c = c') by nia. subst. lia. Qed.

Lemma fat_lba_inj f c f' c' : valid c → valid c' → 0 ≤ f < num_fats (bpb vol) → 0 ≤ f' < num_fats (bpb vol) →
  fat_lba f c = fat_lba f' c' → f = f' ∧ c * 4 / 512 = c' * 4 / 512.
Proof.
  intros Hc Hc' Hf Hf' E. pose proof (fat_lba_range f c Hc Hf). pose proof (fat_lba_range f' c' Hc' Hf').
  assert (f = f') as -> by (destruct G; nia). split; [done|]. unfold fat_lba in E. lia.
Qed.

(** ** Entries of the table *)

Lemma merge_entry old v : 0 ≤ v < 2 ^ 28 → 
  let x := Z.lor (Z.land old 0xf0000000) (Z.land v 0x0fffffff) in 0 ≤ x < 256 ^ 4 ∧ Z.land x 0x0fffffff = v.
Proof.
  intros Hv x. assert (Z.land v 0x0fffffff = v) as Ev.
  { change 0x0fffffff with (Z.ones 28). rewrite Z.land_ones by lia. by apply Z.mod_small. }
  assert (0 ≤ x) as H0 by (apply Z.lor_nonneg; split; [apply Z.land_nonneg; right; lia|lia]).
  split; [split; [done|]|].
  - change (256 ^ 4) with (2 ^ 32). apply bits_bound; [done|lia|]. intros i Hi. unfold x.
    rewrite Z.lor_spec, !Z.land_spec, (Z.bits_above_log2 0xf0000000), (Z.bits_above_log2 0x0fffffff)
      by (done || (vm_compute Z.log2; lia)). by rewrite !andb_false_r.
  - unfold x. rewrite Z.land_lor_distr_l, <- !Z.land_assoc. change (Z.land 0xf0000000 0x0fffffff) with 0.
    change (Z.land 0x0fffffff 0x0fffffff) with 0x0fffffff. by rewrite Z.land_0_r, Z.lor_0_l.
Qed.

Lemma fat_offset_range c : valid c → 0 ≤ c * 4 mod 512 ≤ 508.
Proof. unfold valid. intros Hc. Z.to_euclidean_division_equations. lia. Qed.

Lemma fat_offset_ne c c' : valid c → valid c' → c * 4 / 512 = c' * 4 / 512 → c ≠ c' →
  c' * 4 mod 512 + 4 ≤ c * 4 mod 512 ∨ c * 4 mod 512 + 4 ≤ c' * 4 mod 512.
Proof. unfold valid. intros. Z.to_euclidean_division_equations. lia. Qed.

Lemma put_fat_entry_ok c v sec : valid c → 0 ≤ v < 2 ^ 28 → sector_ok sec →
  sector_ok (put_fat_entry vol c v sec) ∧
  ∀ c', valid c' → c * 4 / 512 = c' * 4 / 512 →
    Z.land (u32_at (put_fat_entry vol c v sec) (c' * 4 mod 512)) 0x0fffffff =
    if c' =? c then v else Z.land (u32_at sec (c' * 4 mod 512)) 0x0fffffff.
Proof.
  intros Hc Hv [Hl Hu]. unfold put_fat_entry, fat_offset. rewrite g_bps. pose proof (fat_offset_range c Hc).
  set (old := u32_at sec (c * 4 mod 512)). pose proof (merge_entry old v Hv) as [Hx Hm].
  set (x := Z.lor (Z.land old 0xf0000000) (Z.land v 0x0fffffff)) in *.
  assert (Z.of_nat (length (le_bytes 4 x)) = 4) as Hlb by (by rewrite length_le_bytes).
  split; [split|].
  - rewrite length_splice; lia.
  - apply splice_u8; [done|apply le_bytes_u8].
  - intros c' Hc' Es. destruct (Z.eqb_spec c' c) as [->|Hne].
    + unfold u32_at. pose proof (slice_splice_same sec (c * 4 mod 512) (le_bytes 4 x)) as E.
      rewrite length_le_bytes in E. rewrite E by lia. by rewrite le_int_bytes.
    + unfold u32_at. rewrite slice_splice_other; [done|lia|pose proof (fat_offset_range c' Hc'); lia|lia|].
      pose proof (fat_offset_ne c c' Hc Hc' Es). lia.
Qed.

(** ** Transfers *)

Lemma view_read st d lba : sc_ok st → d ≠ 0 → 0 ≤ lba < W64 →
  let '(r, st') := sc_read d lba 1 st in
  sc_ok st' ∧ (∀ d' b, sc_view st' d' b = sc_view st d' b) ∧ (r ≫= head) = sc_view st d lba.
Proof.
  intros Hok Hd Hl. pose proof (sc_read_spec d lba 1 st Hok Hd ltac:(lia)) as Hr.
  destruct (sc_read d lba 1 st) as [r st']. destruct Hr as (? & ? & ->). split_and!; try done.
  change (seqZ 0 1) with [0]. cbn [mapM]. rewrite Z.add_0_r, u64_small by (unfold is_u64; lia).
  by destruct (sc_view st d lba).
Qed.

Lemma holds_view a st st' :
  sc_ok st' → (∀ b, sc_view st' (dev vol) b = sc_view st (dev vol) b) → holds a st → holds a st'.
Proof.
  intros Hok Hv [H1 H2 H3 H4]. split; try done.
  - intros c f Hc Hf. destruct (H2 c f Hc Hf) as (sec & ? & ?). exists sec. by rewrite Hv.
  - intros c s Hc Hs. destruct (H4 c s Hc Hs) as (sec & ? & ? & ?). exists sec. by rewrite Hv.
Qed.

Lemma lba_u64 lba : fat_start_lba vol ≤ lba < cluster_start_lba vol + total_clusters vol * sectors_per_cluster vol → 0 ≤ lba < W64.
Proof. intros. destruct G. unfold W64. lia. Qed.

Lemma fat_u64 f c : valid c → 0 ≤ f < num_fats (bpb vol) → 0 ≤ fat_lba f c < W64.
Proof.
  intros Hc Hf. apply lba_u64. pose proof (fat_before_data f c Hc Hf). destruct G.
  assert (0 ≤ total_clusters vol * sectors_per_cluster vol) by nia. lia.
Qed.

Lemma data_u64 c s : valid c → 0 ≤ s < sectors_per_cluster vol → 0 ≤ data_lba c s < W64.
Proof.
  intros Hc Hf. apply lba_u64. pose proof (data_lba_range c s Hc Hf). destruct G.
  assert (0 ≤ num_fats (bpb vol) * fat_size_32 (bpb vol)) by nia. lia.
Qed.

(** Reading a sector leaves what the volume holds. *)
Lemma wp_read_sector lba a (Q : option (list Z) → fatfs → Prop) :
  0 ≤ lba < W64 → (∀ st, holds a st → Q (sc_view st (dev vol) lba) a) → wp (read_sector (dev vol) lba) a Q.
Proof.
  intros Hl HQ s Hs. pose proof (view_read (store s) (dev vol) lba (h_ok _ _ Hs) g_dev Hl) as Hr.
  unfold read_sector, block_cache_read, mbind, M_bind, mret, M_ret.
  destruct (sc_read (dev vol) lba 1 (store s)) as [r st']. destruct Hr as (Hok & Hv & E).
  exists (r ≫= head), (IO st' (allocs s)), a. split; [done|]. split; [|rewrite E; by apply HQ].
  apply (holds_view a (store s)); [done|intros b; apply Hv|done].
Qed.

Lemma wp_read_fat_entry c a (Q : Z → fatfs → Prop) : valid c → Q (fat a c) a → wp (fat32_read_fat_entry vol c) a Q.
Proof.
  intros Hc HQ. unfold fat32_read_fat_entry. assert (0 ≤ 0 < num_fats (bpb vol)) as H0 by (destruct G; lia).
  rewrite (fat_sector_lba 0 c Hc H0). apply wp_bind, wp_read_sector; [by apply fat_u64|]. intros st Hs. apply wp_ret.
  destruct (h_fat _ _ Hs c 0 Hc H0) as (sec & -> & _ & E). unfold fat_offset. rewrite g_bps, E by done. done.
Qed.

Lemma wp_read_data c s a (Q : option (list Z) → fatfs → Prop) :
  valid c → 0 ≤ s < sectors_per_cluster vol →
  (∀ sec, cl a c !! Z.to_nat s = Some sec → sector_ok sec → Q (Some sec) a) →
  wp (read_sector (dev vol) (u64 (cluster_to_lba vol c + s))) a Q.
Proof.
  intros Hc Hs HQ. rewrite cluster_lba_at by done. apply wp_read_sector; [by apply data_u64|]. intros st Hst.
  destruct (h_data _ _ Hst c s Hc Hs) as (sec & E & Hok & ->). by apply HQ.
Qed.

Lemma view_write st lba src : sc_ok st → src ≠ [] →
  fat_start_lba vol ≤ lba → lba + Z.of_nat (length src) ≤ cluster_start_lba vol + total_clusters vol * sectors_per_cluster vol →
  let '(ok, st') := sc_write (dev vol) lba src st in
  ok = true ∧ sc_ok st' ∧
  ∀ b, sc_view st' (dev vol) b = if bool_decide (lba ≤ b < lba + Z.of_nat (length src)) then src !! Z.to_nat (b - lba) else sc_view st (dev vol) b.
Proof.
  intros Hok Hn H1 H2. pose proof (lba_u64 lba) as Hu. destruct G.
  assert (0 < Z.of_nat (length src)) by (destruct src; [done|cbn; lia]).
  pose proof (sc_write_spec (dev vol) lba src st Hok g_dev0 Hn) as Hw.
  destruct (sc_write (dev vol) lba src st) as [ok st']. destruct Hw as (-> & Hok' & Hv);
    [lia|unfold W64; lia|intros k Hk; apply g_sectors0; lia|]. split_and!; try done.
  intros b. rewrite Hv. repeat case_bool_decide; try done; naive_solver.
Qed.

(** Writing the entry of a cluster into one copy of the table. *)
Lemma holds_put_fat a st st' c v f sec :
  holds a st → sc_ok st' → valid c → 0 ≤ v < 2 ^ 28 → 0 ≤ f < num_fats (bpb vol) →
  sc_view st (dev vol) (fat_lba f c) = Some sec →
  (∀ b, sc_view st' (dev vol) b = if bool_decide (b = fat_lba f c) then Some (put_fat_entry vol c v sec) else sc_view st (dev vol) b) →
  holds (if f =? 0 then set_fat c v a else a) st'.
Proof.
  intros Hs Hok Hc Hv Hf Hsec Hview. destruct (h_fat _ _ Hs c f Hc Hf) as (sec' & E & Hsok & Hval).
  rewrite Hsec in E. injection E as <-. destruct (put_fat_entry_ok c v sec Hc Hv Hsok) as [Hpok Hpv].
  assert (∀ x, cl (if f =? 0 then set_fat c v a else a) x = cl a x) as Ecl by (by destruct (f =? 0)).
  split; [done| | |].
  - intros c' f' Hc' Hf'. destruct (h_fat _ _ Hs c' f' Hc' Hf') as (sec' & E' & Hok' & Hval'). rewrite Hview.
    case_bool_decide as Hb.
    + destruct (fat_lba_inj _ _ _ _ Hc' Hc Hf' Hf Hb) as [-> Ed]. exists (put_fat_entry vol c v sec). split_and!; [done|done|].
      intros ->. rewrite Hpv by done. cbn. rewrite Hb, Hsec in E'. injection E' as <-. destruct (c' =? c); [done|by apply Hval'].
    + exists sec'. split_and!; [done|done|]. intros ->. rewrite Hval' by done. destruct (Z.eqb_spec f 0) as [->|]; [|done].
      cbn. destruct (Z.eqb_spec c' c) as [->|]; [done|done].
  - intros x Hx. rewrite Ecl. by apply (h_len _ _ Hs).
  - intros x s Hx Hxs. destruct (h_data _ _ Hs x s Hx Hxs) as (y & ? & ? & ?). exists y. rewrite Ecl, Hview.
    rewrite bool_decide_false; [done|]. pose proof (data_lba_range x s Hx Hxs). pose proof (fat_before_data f c Hc Hf). lia.
Qed.

(** One round of [fat32_write_fat_entry]. *)
Lemma put_fat_step f c v a s : valid c → 0 ≤ v < 2 ^ 28 → 0 ≤ f < num_fats (bpb vol) → holds a (store s) →
  ∃ sec s1 s2, read_sector (dev vol) (fat_lba f c) s = Some (Some sec, s1) ∧
    write_sector (dev vol) (fat_lba f c) (put_fat_entry vol c v sec) s1 = Some (true, s2) ∧
    holds (if f =? 0 then set_fat c v a else a) (store s2).
Proof.
  intros Hc Hv Hf Hs. pose proof (view_read (store s) (dev vol) (fat_lba f c) (h_ok _ _ Hs) g_dev (fat_u64 f c Hc Hf)) as Hr.
  destruct (h_fat _ _ Hs c f Hc Hf) as (sec & Esec & _).
  unfold read_sector, block_cache_read, mbind, M_bind, mret, M_ret.
  destruct (sc_read (dev vol) (fat_lba f c) 1 (store s)) as [r st1]. destruct Hr as (Hok1 & Hv1 & E). unfold mbind in E. rewrite E, Esec.
  exists sec, (IO st1 (allocs s)). unfold write_sector, block_cache_write. cbn [store allocs].
  pose proof (fat_before_data f c Hc Hf) as Hb. assert (0 ≤ total_clusters vol * sectors_per_cluster vol) by (destruct G; nia).
  pose proof (view_write st1 (fat_lba f c) [put_fat_entry vol c v sec] Hok1 ltac:(done) ltac:(lia) ltac:(cbn; lia)) as Hw.
  destruct (sc_write (dev vol) (fat_lba f c) _ st1) as [ok st2]. destruct Hw as (-> & Hok2 & Hv2).
  exists (IO st2 (allocs s)). split_and!; [done|done|]. cbn [store].
  apply (holds_put_fat a (store s) st2 c v f sec); try done. intros b. rewrite Hv2. cbn [length].
  case_bool_decide as Hb1; case_bool_decide as Hb2; [|lia|lia|apply Hv1].
  subst b. by rewrite Z.sub_diag.
Qed.

Lemma wp_write_fats n f c v a (Q : bool → fatfs → Prop) :
  valid c → 0 ≤ v < 2 ^ 28 → 0 ≤ f → f + Z.of_nat n = num_fats (bpb vol) →
  Q true (if (f =? 0) && (0 <? Z.of_nat n) then set_fat c v a else a) → wp (write_fats vol n f c v) a Q.
Proof.
  intros Hc Hv. revert f a. induction n as [|n IH]; intros f a Hf Hn HQ; cbn [write_fats].
  { apply wp_ret. by rewrite andb_false_r in HQ. }
  assert (0 ≤ f < num_fats (bpb vol)) as Hf' by lia. rewrite (fat_sector_lba f c Hc Hf'). intros s Hs.
  destruct (put_fat_step f c v a s Hc Hv Hf' Hs) as (sec & s1 & s2 & E1 & E2 & Hs2).
  unfold mbind, M_bind. rewrite E1, E2. revert Hs2. apply (IH (f + 1)); [lia|lia|].
  rewrite (proj2 (Z.eqb_neq (f + 1) 0)) by lia. rewrite (proj2 (Z.ltb_lt 0 _)), andb_true_r in HQ by lia. done.
Qed.

Lemma wp_write_fat_entry c v a (Q : bool → fatfs → Prop) :
  valid c → 0 ≤ v < 2 ^ 28 → Q true (set_fat c v a) → wp (fat32_write_fat_entry vol c v) a Q.
Proof.
  intros Hc Hv HQ. assert (1 ≤ num_fats (bpb vol)) by apply G. apply wp_write_fats; [done|done|lia|lia|].
  rewrite (proj2 (Z.ltb_lt 0 _)) by lia. done.
Qed.

(** Writing sectors of a cluster. *)
Lemma holds_put_data a st st' c secs :
  holds a st → sc_ok st' → valid c → Z.of_nat (length secs) = sectors_per_cluster vol → Forall sector_ok secs →
  (∀ s, 0 ≤ s < sectors_per_cluster vol → sc_view st' (dev vol) (data_lba c s) = secs !! Z.to_nat s) →
  (∀ b, b < data_lba c 0 ∨ data_lba (c + 1) 0 ≤ b → sc_view st' (dev vol) b = sc_view st (dev vol) b) →
  holds (set_cl c secs a) st'.
Proof.
  intros Hs Hok Hc Hlen Hsecs Hin Hout. assert (0 < sectors_per_cluster vol) as Hspc by (destruct G; lia). split; [done| | |].
  - intros x f Hx Hf. destruct (h_fat _ _ Hs x f Hx Hf) as (sec & ? & ?). exists sec. rewrite Hout; [done|].
    pose proof (fat_before_data f x Hx Hf). pose proof (data_lba_range c 0 Hc). lia.
  - intros x Hx. cbn. destruct (Z.eqb_spec x c) as [->|]; [lia|by apply (h_len _ _ Hs)].
  - intros x s Hx Hxs. cbn. destruct (Z.eqb_spec x c) as [->|Hne].
    + destruct (lookup_lt_is_Some_2 secs (Z.to_nat s)) as [y Hy]; [lia|]. exists y. split_and!; [done| |by rewrite Hin].
      by apply (Forall_lookup_1 _ _ _ _ Hsecs Hy).
    + destruct (h_data _ _ Hs x s Hx Hxs) as (y & ? & ? & ?). exists y. rewrite Hout; [done|]. unfold data_lba. nia.
Qed.

Lemma wp_write_cluster c secs a (Q : bool → fatfs → Prop) :
  valid c → Z.of_nat (length secs) = sectors_per_cluster vol → Forall sector_ok secs →
  Q true (set_cl c secs a) → wp (block_cache_write (dev vol) (cluster_to_lba vol c) secs) a Q.
Proof.
  intros Hc Hlen Hsecs HQ s Hs. rewrite cluster_lba by done. unfold block_cache_write.
  assert (0 < sectors_per_cluster vol ∧ 0 ≤ num_fats (bpb vol) * fat_size_32 (bpb vol)) as [Hspc Hf] by (destruct G; nia).
  pose proof (data_lba_range c 0 Hc ltac:(lia)). pose proof (data_lba_range c (sectors_per_cluster vol - 1) Hc ltac:(lia)) as Hl.
  assert (data_lba c (sectors_per_cluster vol - 1) = data_lba c 0 + sectors_per_cluster vol - 1) as E by (unfold data_lba; lia).
  pose proof (view_write (store s) (data_lba c 0) secs (h_ok _ _ Hs)) as Hw.
  destruct (sc_write (dev vol) (data_lba c 0) secs (store s)) as [ok st'].
  destruct Hw as (-> & Hok & Hv); [by intros ->; cbn in Hlen; lia|destruct G; lia|lia|].
  exists true, (IO st' (allocs s)), (set_cl c secs a). split_and!; [done| |done].
  apply (holds_put_data a (store s)); try done.
  - intros i Hi. rewrite Hv, bool_decide_true by (unfold data_lba; lia). f_equal. unfold data_lba. lia.
  - intros b Hb. rewrite Hv, bool_decide_false; [done|]. unfold data_lba in *. lia.
Qed.

Lemma wp_write_data c s sec a (Q : bool → fatfs → Prop) :
  valid c → 0 ≤ s < sectors_per_cluster vol → sector_ok sec →
  Q true (set_sector c s sec a) → wp (write_sector (dev vol) (u64 (cluster_to_lba vol c + s)) sec) a Q.
Proof.
  intros Hc Hs Hsec HQ s0 Hs0. rewrite cluster_lba_at by done. unfold write_sector, block_cache_write.
  assert (0 ≤ num_fats (bpb vol) * fat_size_32 (bpb vol)) as Hf by (destruct G; nia).
  pose proof (data_lba_range c s Hc Hs) as Hl. pose proof (h_len _ _ Hs0 c Hc) as Hlen.
  pose proof (view_write (store s0) (data_lba c s) [sec] (h_ok _ _ Hs0)) as Hw.
  destruct (sc_write (dev vol) (data_lba c s) [sec] (store s0)) as [ok st'].
  destruct Hw as (-> & Hok & Hv); [done|destruct G; lia|cbn; lia|].
  exists true, (IO st' (allocs s0)), (set_sector c s sec a). split_and!; [done| |done].
  apply (holds_put_data a (store s0)); try done.
  - by rewrite length_insert.
  - apply Forall_insert; [|done]. apply Forall_lookup. intros i x Hx.
    destruct (h_data _ _ Hs0 c (Z.of_nat i) Hc) as (y & Hy & Hyok & _); [apply lookup_lt_Some in Hx; lia|].
    rewrite Nat2Z.id in Hy. rewrite Hx in Hy. by injection Hy as ->.
  - intros i Hi. rewrite Hv. cbn [length]. case_bool_decide as Hb.
    + assert (i = s) as -> by (unfold data_lba in Hb; lia). rewrite list_lookup_insert_eq by lia.
      by replace (data_lba c s - data_lba c s) with 0 by lia.
    + rewrite list_lookup_insert_ne by (intros E; apply Hb; assert (i = s) as -> by lia; lia).
      destruct (h_data _ _ Hs0 c i Hc Hi) as (y & Hy & _ & Hy'). by rewrite Hy, Hy'.
  - intros b Hb. rewrite Hv, bool_decide_false; [done|]. cbn. unfold data_lba in *. lia.
Qed.

Lemma wp_read_cluster c a (Q : option (list Z) → fatfs → Prop) :
  valid c → Q (Some (concat (cl a c))) a → wp (read_cluster vol c) a Q.
Proof.
  intros Hc HQ s Hs. assert (0 < sectors_per_cluster vol) as Hspc by (destruct G; lia).
  unfold read_cluster, block_cache_read, mbind, M_bind. rewrite cluster_lba by done.
  pose proof (sc_read_spec (dev vol) (data_lba c 0) (sectors_per_cluster vol) (store s) (h_ok _ _ Hs) g_dev Hspc) as Hr.
  destruct (sc_read (dev vol) (data_lba c 0) (sectors_per_cluster vol) (store s)) as [r st']. destruct Hr as (Hok & Hv & ->).
  assert (mapM (λ k, sc_view (store s) (dev vol) (u64 (data_lba c 0 + k))) (seqZ 0 (sectors_per_cluster vol)) = Some (cl a c)) as ->.
  { apply mapM_Some_2. apply Forall2_same_length_lookup. rewrite length_seqZ. split; [pose proof (h_len _ _ Hs c Hc); lia|].
    intros i k sec [-> Hk]%lookup_seqZ Hi. destruct (h_data _ _ Hs c (0 + Z.of_nat i) Hc ltac:(lia)) as (y & Hy & _ & Hy').
    replace (Z.to_nat (0 + Z.of_nat i)) with i in Hy by lia. rewrite Hi in Hy. injection Hy as <-.
    rewrite <- Hy', <- (cluster_lba_at c (0 + Z.of_nat i)), cluster_lba by (done || lia). done. }
  exists (Some (concat (cl a c))), (IO st' (allocs s)), a. split_and!; [done| |done].
  apply (holds_view a (store s)); [done|intros b; apply Hv|done].
Qed.

Lemma wp_flush a (Q : bool → fatfs → Prop) : (∀ ok, Q ok a) → wp (block_cache_flush_device (dev vol)) a Q.
Proof.
  intros HQ s Hs. unfold block_cache_flush_device. pose proof (sc_flush_spec (dev vol) (store s) (h_ok _ _ Hs)) as Hf.
  destruct (sc_flush (dev vol) (store s)) as [ok st']. destruct Hf as [Hok Hv].
  exists ok, (IO st' (allocs s)), a. split_and!; [done| |done]. apply (holds_view a (store s)); [done|intros b; apply Hv|done].
Qed.

Lemma wp_kmalloc ok `{!HeapWorks ok} a (Q : option nat → fatfs → Prop) : (∀ k, Q (Some k) a) → wp (kmalloc ok) a Q.
Proof.
  intros HQ s Hs. unfold kmalloc. rewrite heap_works. by exists (Some (allocs s)), (IO (store s) (Datatypes.S (allocs s))), a.
Qed.

(** ** Allocation *)

(** The first free cluster of [n] from [c] on. *)
Fixpoint first_free (a : fatfs) (n : nat) (c : Z) : option Z :=
  match n with
  | O => None
  | Datatypes.S n => if fat a c =? 0 then Some c else first_free a n (c + 1)
  end.

Definition free_cluster (a : fatfs) : option Z := first_free a (Z.to_nat (total_clusters vol)) 2.

Definition blank : list (list Z) := replicate (Z.to_nat (sectors_per_cluster vol)) (replicate 512 0).

(** The cluster [c] is taken and linked behind [prev]. *)
Definition take_cluster (prev c : Z) (a : fatfs) : fatfs :=
  let a := set_fat c FAT32_CLUSTER_END a in
  let a := if prev >=? 2 then set_fat prev c a else a in
  set_cl c blank a.

Lemma zero_sector_ok : sector_ok (replicate 512 0).
Proof. split; [done|]. apply Forall_replicate. done. Qed.

(** Two descriptions of the same volume. *)
Definition same (a a' : fatfs) : Prop := (∀ c, fat a c = fat a' c) ∧ ∀ c, cl a c = cl a' c.

Lemma wp_zero_sectors n s c a (Q : unit → fatfs → Prop) :
  valid c → 0 ≤ s → s + Z.of_nat n = sectors_per_cluster vol →
  (∀ a', (∀ x, fat a' x = fat a x) → (∀ x, x ≠ c → cl a' x = cl a x) →
     take (Z.to_nat s) (cl a' c) = take (Z.to_nat s) (cl a c) →
     drop (Z.to_nat s) (cl a' c) = replicate n (replicate 512 0) → Q tt a') →
  wp (zero_sectors vol n (u64 (cluster_to_lba vol c + s))) a Q.
Proof.
  intros Hc. revert s a. induction n as [|n IH]; intros s a Hs Hn HQ; cbn [zero_sectors].
  { intros s0 Hs0. exists tt, s0, a. split_and!; [done|done|]. apply HQ; try done. apply drop_ge.
    pose proof (h_len _ _ Hs0 c Hc). lia. }
  apply wp_bind, wp_write_data; [done|lia|apply zero_sector_ok|].
  assert (u64 (u64 (cluster_to_lba vol c + s) + 1) = u64 (cluster_to_lba vol c + (s + 1))) as ->.
  { unfold u64. rewrite Zplus_mod_idemp_l. f_equal. lia. }
  intros s0 Hs0. pose proof (h_len _ _ Hs0 c Hc) as Hlen. cbn in Hlen. rewrite Z.eqb_refl, length_insert in Hlen. revert s0 Hs0.
  apply IH; [lia|lia|]. intros a' Hfat Hcl Htake Hdrop. cbn in Htake. rewrite Z.eqb_refl in Htake.
  apply HQ; [done| | |].
  - intros x Hx. rewrite Hcl by done. cbn. by rewrite (proj2 (Z.eqb_neq x c)).
  - replace (Z.to_nat s) with (Z.to_nat s `min` Z.to_nat (s + 1))%nat by lia. rewrite <- !take_take, Htake, !take_take.
    by rewrite take_insert_ge by lia.
  - assert (Z.to_nat (s + 1) = Datatypes.S (Z.to_nat s)) as E1 by lia.
    rewrite <- (take_drop (Z.to_nat (s + 1)) (cl a' c)), Htake, Hdrop, E1.
    rewrite (take_S_r _ _ (replicate 512 0)) by (apply list_lookup_insert_eq; lia).
    rewrite take_insert_ge by lia. rewrite <- app_assoc, drop_app_length'; [done|rewrite length_take; lia].
Qed.

Lemma wp_allocate_from n c prev a (Q : Z → fatfs → Prop) :
  2 ≤ c → c + Z.of_nat n = total_clusters vol + 2 → prev < 2 ∨ valid prev →
  match first_free a n c with
  | None => Q 0 a
  | Some x => valid x → fat a x = 0 → ∀ a', same a' (take_cluster prev x a) → Q x a'
  end → wp (allocate_from vol n c prev) a Q.
Proof.
  revert c. induction n as [|n IH]; intros c Hc Hn Hp HQ; cbn [allocate_from first_free] in *; [by apply wp_ret|].
  assert (valid c) as Hv by (unfold valid; lia). apply wp_bind, wp_read_fat_entry; [done|].
  unfold FAT32_CLUSTER_FREE. destruct (Z.eqb_spec (fat a c) 0) as [Hz|]; [|apply IH; try lia; done].
  assert (c < 2 ^ 28) as H28 by (destruct G; unfold FAT32_CLUSTER_BAD in *; lia).
  apply wp_bind, wp_write_fat_entry; [done|by unfold FAT32_CLUSTER_END|]. cbn [negb].
  apply wp_bind. set (a1 := if prev >=? 2 then set_fat prev c (set_fat c FAT32_CLUSTER_END a) else set_fat c FAT32_CLUSTER_END a).
  assert (wp (zero_sectors vol (Z.to_nat (sectors_per_cluster vol)) (cluster_to_lba vol c) ≫= λ _, mret c) a1 Q) as Hz1.
  { assert (cluster_to_lba vol c = u64 (cluster_to_lba vol c + 0)) as ->
      by (rewrite cluster_lba_at by (done || destruct G; lia); by apply cluster_lba).
    apply wp_bind, wp_zero_sectors; [done|lia|destruct G; lia|]. intros a' Hf Hc' _ Hd. apply wp_ret, HQ; [done|done|].
    split; intros x; cbn.
    - rewrite Hf. unfold a1, take_cluster. by destruct (prev >=? 2).
    - destruct (Z.eqb_spec x c) as [->|]; [exact Hd|]. rewrite Hc' by done. unfold a1. by destruct (prev >=? 2). }
  unfold a1 in Hz1. destruct (Z.geb_spec prev 2); [|by apply wp_ret].
  apply wp_write_fat_entry; [destruct Hp; [lia|done]|lia|exact Hz1].
Qed.

Lemma wp_allocate prev a (Q : Z → fatfs → Prop) :
  prev < 2 ∨ valid prev →
  match free_cluster a with
  | None => Q 0 a
  | Some x => valid x → fat a x = 0 → ∀ a', same a' (take_cluster prev x a) → Q x a'
  end → wp (fat32_allocate_cluster vol prev) a Q.
Proof.
  intros Hp HQ. unfold fat32_allocate_cluster. assert (total_clusters vol + 2 < 4294967296 ∧ 0 ≤ total_clusters vol)
    by (destruct G; unfold FAT32_CLUSTER_BAD in *; lia).
  rewrite u32_small by (unfold is_u32; lia). replace (total_clusters vol + 2 - 2) with (total_clusters vol) by lia.
  apply wp_allocate_from; [lia|lia|done|done].
Qed.

End layout.
End disk.
