(* ===== verification/Fat32Chain.v ===== *)
(** * FAT32: chains of clusters

    What the driver does with the allocation table: freeing a chain, finding
    room, and building the chain of a file with its data. *)

From Stdlib Require Import ZArith Lia.
From stdpp Require Import gmap.
From S2P Require Import Prelude Interfaces Inet Bytes Fat32 Fat32Entry.
#[local] Open Scope Z_scope.

Section chains.
Context {S : Type} `{SectorCache S} (vol : fat32_volume) {G : geometry vol}.
Local Abbreviation wp := (wp vol).
Local Abbreviation valid := (valid vol).
Implicit Types a : fatfs.
Implicit Types l : list Z.

(** ** Chains *)

(** The clusters from [c] on are [l]. *)
Fixpoint chain a (c : Z) l : Prop :=
  match l with
  | [] => FAT32_CLUSTER_END_MIN ≤ c
  | x :: l => c = x ∧ valid x ∧ chain a (fat a x) l
  end.

Lemma valid_in_chain c : valid c → in_chain c = true.
Proof.
  unfold Fat32Entry.valid, in_chain. intros. destruct G. unfold FAT32_CLUSTER_BAD, FAT32_CLUSTER_END_MIN in *. lia.
Qed.

Lemma end_not_in_chain c : FAT32_CLUSTER_END_MIN ≤ c → in_chain c = false.
Proof. unfold in_chain. lia. Qed.

Lemma chain_valid a c l x : chain a c l → x ∈ l → valid x.
Proof.
  revert c. induction l as [|y l IH]; intros c Hl Hx; [by apply not_elem_of_nil in Hx|].
  destruct Hl as (_ & Hy & Hl). apply elem_of_cons in Hx as [->|Hx]; [done|by apply (IH (fat a y))].
Qed.

Lemma chain_nonzero a c l x : chain a c l → x ∈ l → fat a x ≠ 0.
Proof.
  revert c. induction l as [|y l IH]; intros c Hl Hx; [by apply not_elem_of_nil in Hx|].
  destruct Hl as (_ & Hy & Hl). apply elem_of_cons in Hx as [->|Hx]; [|by apply (IH (fat a y))].
  destruct l as [|z l]; cbn in Hl; [unfold FAT32_CLUSTER_END_MIN in Hl; lia|].
  destruct Hl as (-> & Hz & _). unfold Fat32Entry.valid in Hz. lia.
Qed.

Lemma chain_ext a a' c l : (∀ x, x ∈ l → fat a' x = fat a x) → chain a c l → chain a' c l.
Proof.
  revert c. induction l as [|y l IH]; intros c Hf; cbn; [done|]. intros (-> & Hy & Hl). split_and!; try done.
  rewrite Hf by left. apply IH; [|done]. intros x Hx. apply Hf. by right.
Qed.

Lemma chain_head a c l : chain a c l → l ≠ [] → head l = Some c ∧ c ∈ l ∧ valid c.
Proof. destruct l as [|x l]; [done|]. intros (-> & Hx & _) _. split_and!; [done|left|done]. Qed.

Lemma cluster_chain_snoc a a' c l p x :
  chain a c (l ++ [p]) → p ∉ l → (∀ y, y ∈ l → fat a' y = fat a y) → fat a' p = x → valid x →
  FAT32_CLUSTER_END_MIN ≤ fat a' x → chain a' c ((l ++ [p]) ++ [x]).
Proof.
  revert c. induction l as [|y l IH]; intros c Hl Hp Hy Hpx Hx He; cbn in *.
  - destruct Hl as (-> & Hv & _). by rewrite Hpx.
  - destruct Hl as (-> & Hv & Hl). apply not_elem_of_cons in Hp as [_ Hp]. split_and!; try done.
    rewrite Hy by left. apply IH; try done. intros z Hz. apply Hy. by right.
Qed.

(** A chain without repetition is no longer than the table. *)
Lemma cluster_chain_length a c l : chain a c l → NoDup l → Z.of_nat (length l) ≤ total_clusters vol.
Proof.
  intros Hl Hn. assert (length l ≤ length (seqZ 2 (total_clusters vol)))%nat as Hle.
  { apply submseteq_length, NoDup_submseteq; [done|]. intros x Hx. apply elem_of_seqZ.
    pose proof (chain_valid _ _ _ _ Hl Hx) as Hv. unfold Fat32Entry.valid in Hv. lia. }
  rewrite length_seqZ in Hle. destruct G. lia.
Qed.

(** ** Freeing *)

Lemma wp_free_chain n l c a (Q : unit → fatfs → Prop) :
  chain a c l → NoDup l → (length l ≤ n)%nat →
  (∀ a', (∀ x, cl a' x = cl a x) → (∀ x, fat a' x = if bool_decide (x ∈ l) then 0 else fat a x) → Q tt a') →
  wp (free_chain vol n c) a Q.
Proof.
  revert n c a. induction l as [|x l IH]; intros n c a Hl Hn Hlen HQ.
  - cbn in Hl. assert (free_chain vol n c = mret tt) as ->
      by (destruct n; cbn [free_chain]; by rewrite end_not_in_chain).
    apply wp_ret, HQ; [done|]. intros x. by rewrite bool_decide_false by apply not_elem_of_nil.
  - destruct Hl as (-> & Hx & Hl). apply NoDup_cons in Hn as [Hnx Hn]. destruct n as [|n]; [cbn in Hlen; lia|].
    cbn [free_chain]. rewrite (valid_in_chain x Hx). cbn [negb].
    apply wp_bind, (wp_read_fat_entry vol); [done|]. apply wp_bind, (wp_write_fat_entry vol); [done|by unfold FAT32_CLUSTER_FREE|].
    apply IH; [|done|cbn in Hlen; lia|].
    + apply (chain_ext a); [|done]. intros y Hy. cbn. by rewrite (proj2 (Z.eqb_neq y x)) by (by intros ->).
    + intros a' Hcl Hf. apply HQ; [done|]. intros y. rewrite Hf. cbn. unfold FAT32_CLUSTER_FREE.
      destruct (Z.eqb_spec y x) as [->|Hne].
      * rewrite (bool_decide_false (x ∈ l)), bool_decide_true by (done || left). done.
      * by rewrite (bool_decide_ext (y ∈ x :: l) (y ∈ l)) by set_solver.
Qed.

(** ** Room *)

Definition free_list a : list Z := filter (λ c, fat a c = 0) (seqZ 2 (total_clusters vol)).
Definition room a : nat := length (free_list a).

Lemma elem_of_free_list a x : x ∈ free_list a ↔ fat a x = 0 ∧ valid x.
Proof. unfold free_list. rewrite list_elem_of_filter, elem_of_seqZ. unfold Fat32Entry.valid. naive_solver lia. Qed.

Lemma NoDup_free_list a : NoDup (free_list a).
Proof. apply NoDup_filter, NoDup_seqZ. Qed.

Lemma room_take a a' x : valid x → fat a x = 0 → fat a' x ≠ 0 → (∀ y, y ≠ x → valid y → fat a' y = 0 ↔ fat a y = 0) →
  room a = Datatypes.S (room a').
Proof.
  intros Hx Hz Hnz Hy. unfold room. change (Datatypes.S (length (free_list a'))) with (length (x :: free_list a')).
  apply Permutation_length, NoDup_Permutation.
  - apply NoDup_free_list.
  - apply NoDup_cons. split; [|apply NoDup_free_list]. rewrite elem_of_free_list. naive_solver.
  - intros y. rewrite elem_of_cons, !elem_of_free_list. destruct (decide (y = x)) as [->|]; naive_solver.
Qed.

Lemma room_eq a a' : (∀ y, valid y → fat a' y = 0 ↔ fat a y = 0) → room a' = room a.
Proof.
  intros Hy. apply Permutation_length, NoDup_Permutation; [apply NoDup_free_list..|].
  intros x. rewrite !elem_of_free_list. naive_solver.
Qed.

Lemma first_free_spec a n c :
  match first_free a n c with
  | Some x => fat a x = 0 ∧ c ≤ x < c + Z.of_nat n
  | None => ∀ x, c ≤ x < c + Z.of_nat n → fat a x ≠ 0
  end.
Proof.
  revert c. induction n as [|n IH]; intros c; cbn [first_free]; [lia|]. destruct (Z.eqb_spec (fat a c) 0); [lia|].
  specialize (IH (c + 1)). destruct (first_free a n (c + 1)) as [x|]; [lia|].
  intros x Hx. destruct (decide (x = c)) as [->|]; [done|]. apply IH. lia.
Qed.

Lemma free_cluster_None a : free_cluster vol a = None → room a = 0%nat.
Proof.
  unfold free_cluster. intros E. pose proof (first_free_spec a (Z.to_nat (total_clusters vol)) 2) as Hs. rewrite E in Hs.
  unfold room. destruct (free_list a) as [|x l] eqn:El; [done|]. exfalso.
  assert (x ∈ free_list a) as [Hz Hv]%elem_of_free_list by (rewrite El; left). apply (Hs x); [|done].
  unfold Fat32Entry.valid in Hv. lia.
Qed.

Lemma free_cluster_Some a x : free_cluster vol a = Some x → fat a x = 0 ∧ valid x.
Proof.
  unfold free_cluster. intros E. pose proof (first_free_spec a (Z.to_nat (total_clusters vol)) 2) as Hs. rewrite E in Hs.
  unfold Fat32Entry.valid. lia.
Qed.

(** ** The data of a file *)

Lemma length_sectors_of n buf : length (sectors_of n buf) = n.
Proof. revert buf. induction n as [|n IH]; intros buf; cbn; [done|by rewrite IH]. Qed.

Lemma sectors_of_ok n buf : length buf = (n * 512)%nat → Forall is_u8 buf → Forall sector_ok (sectors_of n buf).
Proof.
  revert buf. induction n as [|n IH]; intros buf Hl Hu; cbn [sectors_of]; [constructor|]. constructor.
  - split; [rewrite length_take; lia|by apply Forall_take].
  - apply IH; [rewrite length_drop; lia|by apply Forall_drop].
Qed.

Lemma concat_sectors_of n buf : length buf = (n * 512)%nat → concat (sectors_of n buf) = buf.
Proof.
  revert buf. induction n as [|n IH]; intros buf Hl; cbn [sectors_of concat]; [by destruct buf|].
  rewrite IH by (rewrite length_drop; lia). apply take_drop.
Qed.

Section data.
Context (data : list Z) (size : Z) (Hdata : Forall is_u8 data).

Definition chunk_offset (k : nat) : Z := u64 (Z.of_nat k * cluster_size vol).
Definition chunk_length (k : nat) : Z := Z.min (u64 (size - chunk_offset k)) (cluster_size vol).
Definition chunk (k : nat) : list Z := cluster_buffer vol (Some data) (chunk_offset k) (chunk_length k).
Definition chunk_sectors (k : nat) : list (list Z) := sectors_of (Z.to_nat (sectors_per_cluster vol)) (chunk k).

Lemma length_data_chunk k : length (chunk k) = (Z.to_nat (sectors_per_cluster vol) * 512)%nat.
Proof.
  unfold chunk, cluster_buffer. rewrite length_app, length_replicate.
  pose proof (length_slice_le data (chunk_offset k) (Z.to_nat (chunk_length k))).
  assert (chunk_length k ≤ cluster_size vol) by (unfold chunk_length; lia). destruct G. lia.
Qed.

Lemma data_chunk_u8 k : Forall is_u8 (chunk k).
Proof. unfold chunk, cluster_buffer. apply Forall_app. split; [by apply slice_u8|by apply Forall_replicate]. Qed.

Lemma chunk_sectors_ok k : Forall sector_ok (chunk_sectors k).
Proof. apply sectors_of_ok; [apply length_data_chunk|apply data_chunk_u8]. Qed.

(** [l] was taken from the free clusters of [a0] and now holds the first chunks. *)
Record filled a0 a l : Prop := {
  fl_nodup : NoDup l;
  fl_free x : x ∈ l → valid x ∧ fat a0 x = 0;
  fl_other x : x ∉ l → fat a x = fat a0 x ∧ cl a x = cl a0 x;
  fl_data k x : l !! k = Some x → cl a x = chunk_sectors k;
}.

(** [prev] and [start] are the two ends of the chain [l] (0: no chain yet). *)
Definition ends a l (prev start : Z) : Prop :=
  (l = [] ∧ prev = 0 ∧ start = 0) ∨ (∃ l0, l = l0 ++ [prev] ∧ chain a start l).

Lemma ends_start a l prev start : ends a l prev start → if start =? 0 then l = [] else chain a start l ∧ l ≠ [].
Proof.
  intros [(-> & -> & ->)|(l0 & -> & Hc)]; [done|]. assert (l0 ++ [prev] ≠ []) as Hne by (by destruct l0).
  destruct (chain_head _ _ _ Hc Hne) as (_ & _ & Hv). unfold Fat32Entry.valid in Hv.
  by rewrite (proj2 (Z.eqb_neq start 0)) by lia.
Qed.

(** One round of the loop, up to the copy of the data. *)
Lemma filled_step a0 a a' l prev start x :
  filled a0 a l → ends a l prev start → valid x → fat a x = 0 → same a' (take_cluster vol prev x a) →
  filled a0 (set_cl x (chunk_sectors (length l)) a') (l ++ [x]) ∧
  ends (set_cl x (chunk_sectors (length l)) a') (l ++ [x]) x (if start =? 0 then x else start) ∧
  room a = Datatypes.S (room (set_cl x (chunk_sectors (length l)) a')).
Proof.
  intros [H1 H2 H3 H4] He Hx Hz [Hf Hc]. unfold take_cluster in Hf, Hc. cbn in Hc.
  assert (prev = 0 ∧ l = [] ∨ ∃ l0, l = l0 ++ [prev] ∧ valid prev) as Hp.
  { destruct He as [(-> & -> & ->)|(l0 & -> & Hch)]; [by left|]. right. exists l0. split; [done|].
    apply (chain_valid _ _ _ _ Hch). set_solver. }
  assert (x ∉ l) as Hxl.
  { intros Hin. destruct He as [(-> & _)|(l0 & -> & Hch)]; [by apply not_elem_of_nil in Hin|]. by apply (chain_nonzero _ _ _ _ Hch Hin). }
  assert (∀ y, fat a' y = if (prev >=? 2) && (y =? prev) then x else if y =? x then FAT32_CLUSTER_END else fat a y) as Ef.
  { intros y. rewrite Hf. by destruct (prev >=? 2). }
  clear Hf.
  assert (∀ y, y ≠ x → cl a' y = cl a y) as Ec.
  { intros y Hy. rewrite Hc. rewrite (proj2 (Z.eqb_neq y x)) by done. by destruct (prev >=? 2). }
  assert (fat a' x = FAT32_CLUSTER_END) as Ex.
  { rewrite Ef, Z.eqb_refl. destruct (Z.eqb_spec x prev) as [->|]; [|by rewrite andb_false_r].
    destruct Hp as [[-> _]|(l0 & -> & _)]; [unfold Fat32Entry.valid in Hx; lia|]. set_solver. }
  assert (∀ y, y ∉ l → y ≠ x → fat a' y = fat a y) as Eo.
  { intros y Hy Hyx. rewrite Ef, (proj2 (Z.eqb_neq y x)) by done. destruct (Z.eqb_spec y prev) as [->|]; [|by rewrite andb_false_r].
    destruct Hp as [[-> _]|(l0 & -> & _)]; [done|]. set_solver. }
  split_and!.
  - split.
    + apply NoDup_app. split_and!; [done|set_solver|apply NoDup_singleton].
    + intros y [Hy|Hy]%elem_of_app; [by apply H2|]. apply list_elem_of_singleton in Hy as ->. split; [done|].
      destruct (H3 x Hxl) as [E _]. by rewrite <- E.
    + intros y Hy. assert (y ≠ x ∧ y ∉ l) as [Hyx Hyl] by set_solver. destruct (H3 y Hyl) as [E1 E2]. cbn.
      rewrite (proj2 (Z.eqb_neq y x)) by done. rewrite Eo, Ec by done. done.
    + intros k y Hk. cbn. apply lookup_app_Some in Hk as [Hk|[Hk Hy]].
      * assert (y ≠ x) by (intros ->; by apply list_elem_of_lookup_2 in Hk). rewrite (proj2 (Z.eqb_neq y x)), Ec by done. by apply H4.
      * apply list_lookup_singleton_Some in Hy as [Hk0 ->]. rewrite Z.eqb_refl. f_equal. lia.
  - right. exists l. split; [done|]. destruct He as [(-> & -> & ->)|(l0 & -> & Hch)].
    + cbn. cbn in Ex. rewrite Ex. done.
    + pose proof (ends_start a _ prev start (or_intror (ex_intro _ l0 (conj eq_refl Hch)))) as Hs.
      destruct (Z.eqb_spec start 0); [by destruct l0|].
      apply (cluster_chain_snoc a); cbn; try done.
      * apply NoDup_app in H1 as (_ & Hd & _). intros Hin. apply (Hd prev Hin). by left.
      * intros y Hy. assert (y ≠ prev) by (apply NoDup_app in H1 as (_ & Hd & _); intros ->; apply (Hd prev Hy); by left).
        rewrite Ef, (proj2 (Z.eqb_neq y prev)), andb_false_r by done.
        rewrite (proj2 (Z.eqb_neq y x)); [done|]. intros ->. set_solver.
      * rewrite Ef, Z.eqb_refl, andb_true_r. destruct Hp as [[-> Hl0]|(_ & _ & Hv)]; [by destruct l0|].
        unfold Fat32Entry.valid in Hv. rewrite (proj2 (Z.geb_le prev 2)) by lia. done.
      * rewrite Ex. done.
  - apply (room_take a _ x); [done|done|cbn; rewrite Ex; done|]. intros y Hy Hyv. cbn.
    destruct (decide (y ∈ l)) as [Hyl|Hyl]; [|by rewrite Eo].
    assert (fat a y ≠ 0) as Hnz.
    { destruct He as [(-> & _)|(l0 & -> & Hch)]; [by apply not_elem_of_nil in Hyl|]. by apply (chain_nonzero _ _ _ _ Hch Hyl). }
    rewrite Ef, (proj2 (Z.eqb_neq y x)) by done. destruct ((prev >=? 2) && (y =? prev)); [|done].
    split; [|done]. unfold Fat32Entry.valid in Hx. lia.
Qed.

Lemma ends_prev a l prev start : ends a l prev start → prev < 2 ∨ valid prev.
Proof.
  intros [(-> & -> & ->)|(l0 & -> & Hc)]; [lia|]. right. apply (chain_valid _ _ _ _ Hc). set_solver.
Qed.

Context (fuel : nat) (ok : nat → bool) `{!HeapWorks ok} (Hfuel : total_clusters vol ≤ Z.of_nat fuel).

(** The loop takes a free cluster for each chunk, or gives back all it has taken. *)
Lemma wp_write_data_loop n a0 a l prev start (Q : option Z → fatfs → Prop) :
  filled a0 a l → ends a l prev start → (room a + length l = room a0)%nat →
  (∀ a' l' prev' start', length l' = (length l + n)%nat → filled a0 a' l' → ends a' l' prev' start' →
     (room a' + length l' = room a0)%nat → Q (Some start') a') →
  (∀ a', (room a0 < length l + n)%nat → (∀ x, fat a' x = fat a0 x) → (∀ x, fat a0 x ≠ 0 ∨ ¬ valid x → cl a' x = cl a0 x) → Q None a') →
  wp (write_data fuel ok vol n (Z.of_nat (length l)) prev start (Some data) size) a Q.
Proof.
  revert a l prev start. induction n as [|n IH]; intros a l prev start Hf He Hr HQ HN; cbn [write_data].
  { apply wp_ret, (HQ a l prev); done || lia. }
  apply wp_bind, (wp_allocate vol); [by apply (ends_prev a l _ start)|].
  destruct (free_cluster vol a) as [x|] eqn:Ex.
  - intros Hx Hz a' Hs. destruct (filled_step a0 a a' l prev start x Hf He Hx Hz Hs) as (Hf' & He' & Hr').
    rewrite (proj2 (Z.eqb_neq x 0)) by (unfold Fat32Entry.valid in Hx; lia).
    apply wp_bind, (wp_kmalloc vol ok). intros k.
    apply wp_bind, (wp_write_cluster vol); [done|rewrite length_sectors_of; destruct G; lia|apply (chunk_sectors_ok (length l))|].
    change (set_cl x _ a') with (set_cl x (chunk_sectors (length l)) a').
    assert (Z.of_nat (length l) + 1 = Z.of_nat (length (l ++ [x]))) as -> by (rewrite length_app; cbn; lia).
    apply IH; [done|done| | |].
    + rewrite length_app. cbn [length]. lia.
    + intros a2 l2 p2 s2 Hl2 Hf2 He2 Hr2. apply (HQ a2 l2 p2); try done. rewrite length_app in Hl2. cbn in Hl2. lia.
    + intros a2 Hlt H2 H3. apply HN; [|done|done]. rewrite length_app in Hlt. cbn in Hlt. lia.
  - cbn [Z.eqb]. pose proof (free_cluster_None a Ex) as Hr0. pose proof (ends_start a l prev start He) as Hs.
    apply wp_bind. destruct (Z.eqb_spec start 0) as [->|].
    + apply wp_ret, wp_ret, HN; [lia|..]; intros x; [by apply (fl_other _ _ _ Hf x); rewrite Hs; apply not_elem_of_nil|].
      intros _. apply (fl_other _ _ _ Hf x). rewrite Hs. apply not_elem_of_nil.
    + destruct Hs as [Hc Hne]. unfold fat32_free_cluster_chain.
      pose proof (cluster_chain_length _ _ _ Hc (fl_nodup _ _ _ Hf)) as Hlen.
      apply (wp_free_chain _ l); [done|apply Hf|lia|]. intros a' Hcl Hfat. apply wp_ret, HN; [lia|..].
      * intros x. rewrite Hfat. case_bool_decide as Hin; [by destruct (fl_free _ _ _ Hf x Hin) as [_ ->]|].
        by apply (fl_other _ _ _ Hf).
      * intros x Hx. rewrite Hcl. apply (fl_other _ _ _ Hf). intros Hin. destruct (fl_free _ _ _ Hf x Hin). tauto.
Qed.

Lemma filled_nil a : filled a a [].
Proof. split; try done; [constructor|intros x Hx; by apply not_elem_of_nil in Hx]. Qed.

Lemma wp_write_clusters a (Q : option Z → fatfs → Prop) :
  0 ≤ size →
  (∀ a' l prev start, length l = Z.to_nat (if size >? 0 then needed_clusters vol size else 0) → filled a a' l → ends a' l prev start →
     (room a' + length l = room a)%nat → Q (Some start) a') →
  (∀ a', Z.of_nat (room a) < needed_clusters vol size → (∀ x, fat a' x = fat a x) → (∀ x, fat a x ≠ 0 ∨ ¬ valid x → cl a' x = cl a x) → Q None a') →
  wp (write_clusters fuel ok vol (Some data) size) a Q.
Proof.
  intros Hs HQ HN. unfold write_clusters. destruct (size >? 0).
  - apply (wp_write_data_loop _ a a []); [apply filled_nil|by left|cbn; lia|..].
    + intros a' l' p' s' Hl. by apply HQ.
    + intros a' Hlt. apply HN. cbn in Hlt. lia.
  - apply wp_ret, (HQ a [] 0); [done|apply filled_nil|by left|cbn; lia].
Qed.
End data.

(** ** Reading a chain *)

Definition bytes_of a l : list Z := concat ((λ c, concat (cl a c)) <$> l).

(** Every cluster has its full size. *)
Definition sized a : Prop :=
  ∀ c, valid c → Z.of_nat (length (cl a c)) = sectors_per_cluster vol ∧ Forall sector_ok (cl a c).

Lemma holds_sized a st : holds vol a st → sized a.
Proof.
  intros Hs c Hc. split; [by apply (h_len _ _ _ Hs)|]. apply Forall_lookup. intros i sec Hi.
  destruct (h_data _ _ _ Hs c (Z.of_nat i) Hc) as (y & Hy & Hok & _).
  { pose proof (h_len _ _ _ Hs c Hc). apply lookup_lt_Some in Hi. lia. }
  rewrite Nat2Z.id, Hi in Hy. by injection Hy as <-.
Qed.

Lemma wp_sized {A} (m : M A) a (Q : A → fatfs → Prop) : (sized a → wp m a Q) → wp m a Q.
Proof. intros Hm s Hs. apply Hm; [by apply (holds_sized a (store s))|done]. Qed.

Lemma length_cluster a c : sized a → valid c → Z.of_nat (length (concat (cl a c))) = cluster_size vol.
Proof.
  intros Hs Hc. destruct (Hs c Hc) as [Hl Hok]. rewrite (@g_csize _ _ vol G), <- Hl. clear Hl.
  induction Hok as [|sec secs [Hsec _] _ IH]; [done|]. cbn [concat]. rewrite length_app, Hsec, Nat2Z.inj_add, IH. cbn. lia.
Qed.

Lemma length_bytes_of a c l : sized a → chain a c l → Z.of_nat (length (bytes_of a l)) = Z.of_nat (length l) * cluster_size vol.
Proof.
  intros Hs. revert c. induction l as [|x l IH]; intros c; [done|]. intros (-> & Hx & Hl). unfold bytes_of in *. cbn.
  rewrite length_app, Nat2Z.inj_add, (IH _ Hl), length_cluster by done. lia.
Qed.

(** What the loop of [fat32_read_file] reads: the first [size] bytes of the chain. *)
Lemma wp_read_chain n l c size got a (Q : option (list Z) → fatfs → Prop) :
  chain a c l → (length l ≤ n)%nat → Z.of_nat (length got) ≤ size →
  size ≤ Z.of_nat (length got) + Z.of_nat (length l) * cluster_size vol →
  Q (Some (got ++ take (Z.to_nat (size - Z.of_nat (length got))) (bytes_of a l))) a →
  wp (read_chain vol n c size got) a Q.
Proof.
  intros Hl Hn Hg Hsz HQ. apply wp_sized. intros Hs. revert n c got Hl Hn Hg Hsz HQ.
  induction l as [|x l IH]; intros n c got Hl Hn Hg Hsz HQ.
  - cbn in Hl, Hsz. change (bytes_of a []) with (@nil Z) in HQ. rewrite take_nil, app_nil_r in HQ.
    assert (read_chain vol n c size got = mret (Some got)) as -> by (destruct n; cbn [read_chain]; by rewrite end_not_in_chain).
    by apply wp_ret.
  - destruct Hl as (-> & Hx & Hl). destruct n as [|n]; [cbn in Hn; lia|]. cbn [read_chain].
    rewrite valid_in_chain by done. cbn [andb]. destruct (Z.ltb_spec (Z.of_nat (length got)) size) as [Hlt|Hge]; cbn [negb].
    + apply wp_bind, (wp_read_cluster vol); [done|]. apply wp_bind, (wp_read_fat_entry vol); [done|].
      pose proof (length_cluster a x Hs Hx) as Hlen. set (k := Z.min (size - Z.of_nat (length got)) (cluster_size vol)).
      assert (0 < cluster_size vol) by (rewrite (@g_csize _ _ vol G); pose proof (@g_spc _ _ vol G); lia).
      assert (Z.of_nat (length (got ++ take (Z.to_nat k) (concat (cl a x)))) = Z.of_nat (length got) + k) as Hlg
        by (rewrite length_app, length_take; lia).
      cbn [length] in Hsz, Hn. apply IH; [done|lia|lia|lia|]. rewrite Hlg, <- app_assoc.
      replace (take (Z.to_nat k) (concat (cl a x)) ++ take (Z.to_nat (size - (Z.of_nat (length got) + k))) (bytes_of a l))
        with (take (Z.to_nat (size - Z.of_nat (length got))) (bytes_of a (x :: l))); [done|].
      unfold bytes_of. cbn [fmap list_fmap concat]. rewrite take_app. f_equal; [|f_equal; lia].
      destruct (decide (size - Z.of_nat (length got) ≤ cluster_size vol)); [f_equal; lia|]. rewrite !take_ge by lia. done.
    + apply wp_ret. replace (size - Z.of_nat (length got)) with 0 in HQ by lia. by rewrite take_0, app_nil_r in HQ.
Qed.

(** The bytes of a new chain are the data. *)
Lemma chunks_data data k n :
  (∀ i, (i < k + n)%nat → Z.of_nat i * cluster_size vol < Z.of_nat (length data)) → Z.of_nat (length data) < W64 →
  Z.of_nat (length data) ≤ Z.of_nat (k + n) * cluster_size vol →
  take (length data - k * Z.to_nat (cluster_size vol)) (concat (chunk data (Z.of_nat (length data)) <$> seq k n)) =
  drop (k * Z.to_nat (cluster_size vol)) data.
Proof.
  assert (0 < cluster_size vol) as Hcs by (rewrite (@g_csize _ _ vol G); pose proof (@g_spc _ _ vol G); lia).
  revert k. induction n as [|n IH]; intros k Hk Hw Hl; cbn [seq fmap list_fmap concat].
  { rewrite take_nil, drop_ge by lia. done. }
  assert (chunk_offset k = Z.of_nat k * cluster_size vol) as Eo
    by (unfold chunk_offset; apply u64_small; specialize (Hk k); unfold is_u64; lia).
  unfold chunk at 1, cluster_buffer, chunk_length. rewrite Eo. pose proof (Hk k ltac:(lia)) as Hkk.
  rewrite (u64_small (Z.of_nat (length data) - _)) by (unfold is_u64; lia). unfold slice.
  replace (Z.to_nat (Z.of_nat k * cluster_size vol)) with (k * Z.to_nat (cluster_size vol))%nat by lia.
  set (o := (k * Z.to_nat (cluster_size vol))%nat). assert (o < length data)%nat as Ho by lia.
  destruct (decide (Z.of_nat (length data) - Z.of_nat o ≤ cluster_size vol)) as [Hlast|Hmore].
  - rewrite (take_ge (drop o data)) by (rewrite length_drop; lia). rewrite <- app_assoc, take_app_le by (rewrite length_drop; lia).
    rewrite take_ge by (rewrite length_drop; lia). done.
  - rewrite Z.min_r by lia. set (m := Z.to_nat (cluster_size vol)) in *.
    assert (length (take m (drop o data)) = m) as Hm by (rewrite length_take, length_drop; lia).
    rewrite Hm, Nat.sub_diag, app_nil_r, take_app_ge by lia. rewrite Hm.
    replace (length data - o - m)%nat with (length data - Datatypes.S k * m)%nat by lia.
    rewrite IH by (lia || (intros i Hi; apply Hk; lia)). replace (Datatypes.S k * m)%nat with (o + m)%nat by lia.
    rewrite <- drop_drop. apply take_drop.
Qed.

Lemma filled_bytes data a0 a l :
  filled data (Z.of_nat (length data)) a0 a l → Z.of_nat (length data) < W64 →
  Z.of_nat (length l) * cluster_size vol < Z.of_nat (length data) + cluster_size vol →
  Z.of_nat (length data) ≤ Z.of_nat (length l) * cluster_size vol → take (length data) (bytes_of a l) = data.
Proof.
  intros Hf Hw Hlo Hhi. assert (0 < cluster_size vol) as Hcs by (rewrite (@g_csize _ _ vol G); pose proof (@g_spc _ _ vol G); lia).
  assert (bytes_of a l = concat (chunk data (Z.of_nat (length data)) <$> seq 0 (length l))) as ->.
  { unfold bytes_of. f_equal. apply list_eq. intros i. rewrite !list_lookup_fmap.
    destruct (l !! i) as [x|] eqn:Ex.
    - rewrite lookup_seq_lt by (by apply lookup_lt_Some in Ex). cbn. f_equal. rewrite (fl_data _ _ _ _ _ Hf i x Ex).
      apply concat_sectors_of, length_data_chunk.
    - apply lookup_ge_None in Ex. by rewrite lookup_seq_ge by lia. }
  pose proof (chunks_data data 0 (length l)) as E. cbn in E. rewrite Nat.sub_0_r in E. rewrite E; [by rewrite drop_0| |done|lia].
  intros i Hi. nia.
Qed.
End chains.
