(* ===== verification/Fat32Dir.v ===== *)
(** * FAT32: directories

    A directory is the sequence of the 32-byte entries of its chain.  On volumes
    whose entries are short names (all that the driver writes), a lookup
    finds the first visible entry with the name, and the loops that read,
    extend and scan directories are functions of that sequence. *)

From Stdlib Require Import ZArith Lia.
From stdpp Require Import gmap.
From S2P Require Import Prelude Interfaces Inet Bytes Fat32 Fat32Entry Fat32Chain.
#[local] Open Scope Z_scope.

(** Cluster, sector in it, entry in it. *)
Definition loc : Type := Z * Z * Z.

Section directories.
Context {S : Type} `{SectorCache S} (vol : fat32_volume) {G : geometry vol}.
Local Abbreviation wp := (wp vol).
Local Abbreviation valid := (valid vol).
Local Abbreviation chain := (chain vol).
Implicit Types a : fatfs.
Implicit Types p : loc.

Definition sec_at a (c s : Z) : list Z := nth (Z.to_nat s) (cl a c) [].
Definition at_loc a p : list Z := let '(c, s, e) := p in entry_at (sec_at a c s) e.

(** The entries of a sector from [e] on, of a cluster from sector [s] on, of a chain. *)
Definition sector_locs (c s : Z) (e : Z) : list loc := (λ e, (c, s, e)) <$> seqZ e (16 - e).
Definition cluster_locs (c s : Z) : list loc := concat ((λ s, sector_locs c s 0) <$> seqZ s (sectors_per_cluster vol - s)).
Definition locs (l : list Z) : list loc := concat ((λ c, cluster_locs c 0) <$> l).

Lemma elem_of_concat {A} (x : A) ls : x ∈ concat ls ↔ ∃ l, l ∈ ls ∧ x ∈ l.
Proof.
  rewrite list_elem_of_In, in_concat. split; intros (l & Hl & Hx); exists l; split; by apply list_elem_of_In.
Qed.

Lemma elem_of_cluster_locs c s c' s' e' :
  (c', s', e') ∈ cluster_locs c s ↔ c' = c ∧ s ≤ s' < sectors_per_cluster vol ∧ 0 ≤ e' < 16.
Proof.
  unfold cluster_locs, sector_locs. rewrite elem_of_concat. split.
  - intros (x & (s1 & -> & Hs%elem_of_seqZ)%list_elem_of_fmap & (e1 & [= -> -> ->] & He%elem_of_seqZ)%list_elem_of_fmap). lia.
  - intros (-> & Hs & He). exists ((λ e, (c, s', e)) <$> seqZ 0 (16 - 0)). split; apply list_elem_of_fmap.
    + exists s'. split; [done|]. apply elem_of_seqZ. lia.
    + exists e'. split; [done|]. apply elem_of_seqZ. lia.
Qed.

Lemma elem_of_locs l c s e : (c, s, e) ∈ locs l ↔ c ∈ l ∧ 0 ≤ s < sectors_per_cluster vol ∧ 0 ≤ e < 16.
Proof.
  unfold locs. rewrite elem_of_concat. split.
  - intros (x & (c1 & -> & Hc)%list_elem_of_fmap & (-> & Hs & He)%elem_of_cluster_locs). done.
  - intros (Hc & Hs & He). exists (cluster_locs c 0). split; [apply list_elem_of_fmap; by exists c|].
    by apply elem_of_cluster_locs.
Qed.

Lemma cluster_locs_cons c s : s < sectors_per_cluster vol → cluster_locs c s = sector_locs c s 0 ++ cluster_locs c (s + 1).
Proof.
  intros Hs. unfold cluster_locs. rewrite (seqZ_cons s) by lia. cbn [fmap list_fmap concat]. do 3 f_equal. f_equal; lia.
Qed.

Lemma sector_locs_cons c s e : e < 16 → sector_locs c s e = (c, s, e) :: sector_locs c s (e + 1).
Proof. intros He. unfold sector_locs. rewrite (seqZ_cons e) by lia. cbn. do 2 f_equal. f_equal; lia. Qed.

Lemma sector_entries_at a c s sec : cl a c !! Z.to_nat s = Some sec →
  sector_entries sec = at_loc a <$> sector_locs c s 0.
Proof.
  intros E. unfold sector_entries, sector_locs. rewrite <- list_fmap_compose. apply list_fmap_ext. intros i e _. cbn.
  unfold sec_at. by rewrite (nth_lookup_Some _ _ _ _ E).
Qed.

(** ** Entries *)

Definition blank_entry (de : list Z) : Prop := de_first de = 0.

Definition visible (de : list Z) : bool :=
  negb (de_first de =? 0) && negb (de_first de =? 0xe5) && (Z.land (de_attr de) FAT_ATTR_VOLUME_ID =? 0).

(** No long names. *)
Definition plain_entry (de : list Z) : Prop := is_free_entry de = true ∨ de_attr de ≠ FAT_ATTR_LFN.

(** Behind the first unused entry there are only unused ones. *)
Fixpoint ended a (ps : list loc) : Prop :=
  match ps with
  | [] => True
  | p :: ps => (blank_entry (at_loc a p) → ∀ q, q ∈ ps → blank_entry (at_loc a q)) ∧ ended a ps
  end.

Definition plain a (ps : list loc) : Prop := ∀ p, p ∈ ps → plain_entry (at_loc a p).

Lemma ended_app a ps qs :
  ended a (ps ++ qs) ↔ ended a ps ∧ ended a qs ∧ ∀ p q, p ∈ ps → q ∈ qs → blank_entry (at_loc a p) → blank_entry (at_loc a q).
Proof.
  induction ps as [|x ps IH]; cbn.
  - split; [|tauto]. intros. split_and!; try done. intros p q Hp. by apply not_elem_of_nil in Hp.
  - rewrite IH. split.
    + intros (H1 & H2 & H3 & H4). split_and!; try done.
      * intros Hb q Hq. apply H1; set_solver.
      * intros p q [->|Hp]%elem_of_cons Hq Hb; [apply H1; set_solver|by apply (H4 p q)].
    + intros ((H1 & H2) & H3 & H4). split_and!; try done.
      * intros Hb q [Hq|Hq]%elem_of_app; [by apply H1|apply (H4 x q); set_solver].
      * intros p q Hp. apply H4. set_solver.
Qed.

Lemma plain_app a ps qs : plain a (ps ++ qs) → plain a ps ∧ plain a qs.
Proof. intros Hp. split; intros p Hin; apply Hp, elem_of_app; auto. Qed.

Lemma ended_ext a a' ps : (∀ p, p ∈ ps → blank_entry (at_loc a' p) ↔ blank_entry (at_loc a p)) → ended a ps → ended a' ps.
Proof.
  induction ps as [|p ps IH]; cbn; [done|]. intros E [H1 H2]. split; [|apply IH; [set_solver|done]].
  intros Hb q Hq. apply E; [set_solver|]. apply H1; [by apply E; [left|]|done].
Qed.

(** ** Finding an entry *)

Definition hit (target : list Z) (de : list Z) : bool := visible de && same_name (sfn_name de) target.
Definition find_loc a (target : list Z) (ps : list loc) : option loc := List.find (λ p, hit target (at_loc a p)) ps.
Definition result_at a p : fat32_lookup_result := let '(c, s, e) := p in LookupResult c s e (at_loc a p).

Lemma hit_not_blank target de : hit target de = true → ¬ blank_entry de.
Proof. unfold hit, visible, blank_entry. intros Hh E. by rewrite E in Hh. Qed.

Lemma find_app {A} (f : A → bool) l k : List.find f (l ++ k) = match List.find f l with Some x => Some x | None => List.find f k end.
Proof. induction l as [|x l IH]; cbn; [done|]. by destruct (f x). Qed.

Lemma find_loc_app a target ps qs :
  find_loc a target (ps ++ qs) = match find_loc a target ps with Some p => Some p | None => find_loc a target qs end.
Proof. apply find_app. Qed.

Lemma find_loc_None a target ps : find_loc a target ps = None ↔ ∀ p, p ∈ ps → hit target (at_loc a p) = false.
Proof.
  unfold find_loc. induction ps as [|p ps IH]; cbn.
  - split; [|done]. intros _ p Hp. by apply not_elem_of_nil in Hp.
  - destruct (hit target (at_loc a p)) eqn:E; [split; [done|]; intros Hp; by rewrite Hp in E by left|]. rewrite IH. set_solver.
Qed.

Lemma find_loc_Some a target ps p : find_loc a target ps = Some p → p ∈ ps ∧ hit target (at_loc a p) = true.
Proof. intros E. apply find_some in E as [Hp Hh]. split; [by apply list_elem_of_In|done]. Qed.

Lemma find_loc_ended a target ps qs p :
  ended a (ps ++ qs) → p ∈ ps → blank_entry (at_loc a p) → find_loc a target qs = None.
Proof.
  rewrite ended_app. intros (_ & _ & Hq) Hp Hb. apply find_loc_None. intros q Hqin.
  destruct (hit target (at_loc a q)) eqn:E; [|done]. exfalso. apply (hit_not_blank _ _ E). by apply (Hq p).
Qed.

Lemma visit_plain de : plain_entry de →
  visit_entry de no_lfn = if de_first de =? 0 then AtEnd else if visible de then Visible else Skipped no_lfn.
Proof.
  intros Hp. unfold visit_entry, visible. destruct (de_first de =? 0) eqn:E0; [done|]. cbn [negb andb].
  destruct (de_first de =? 0xe5) eqn:E1; [done|]. cbn [negb andb].
  destruct (Z.eqb_spec (de_attr de) FAT_ATTR_LFN) as [E|]; [|by destruct (Z.land _ _ =? 0)].
  destruct Hp as [Hp|]; [|done]. unfold is_free_entry in Hp. by rewrite E0, E1 in Hp.
Qed.

Lemma search_entries_spec a target c s n e :
  e + Z.of_nat n = 16 → plain a (sector_locs c s e) → ended a (sector_locs c s e) →
  match search_entries target (at_loc a <$> sector_locs c s e) e no_lfn with
  | Found e' de => find_loc a target (sector_locs c s e) = Some (c, s, e') ∧ de = at_loc a (c, s, e')
  | Missing => find_loc a target (sector_locs c s e) = None ∧ ∃ p, p ∈ sector_locs c s e ∧ blank_entry (at_loc a p)
  | NotHere l => l = no_lfn ∧ find_loc a target (sector_locs c s e) = None
  end.
Proof.
  revert e. induction n as [|n IH]; intros e Hn Hp He.
  { assert (e = 16) as -> by lia. done. }
  rewrite sector_locs_cons in * by lia. cbn [fmap list_fmap search_entries]. unfold find_loc. cbn [List.find].
  rewrite visit_plain by (apply Hp; left). set (de := at_loc a (c, s, e)) in *.
  assert (plain a (sector_locs c s (e + 1))) as Hp' by (intros q Hq; apply Hp; by right).
  pose proof (IH (e + 1) ltac:(lia) Hp' (proj2 He)) as Hrec. fold (find_loc a target (sector_locs c s (e + 1))).
  destruct (Z.eqb_spec (de_first de) 0) as [E0|E0].
  - assert (hit target de = false) as Hh by (destruct (hit target de) eqn:E; [by apply hit_not_blank in E|done]). rewrite Hh.
    split; [|exists (c, s, e); split; [left|done]].
    apply (find_loc_ended a target [(c, s, e)] _ (c, s, e)); [exact He|left|done].
  - unfold hit. destruct (visible de) eqn:Ev; cbn [andb].
    + unfold entry_matches. cbn [snd no_lfn andb orb]. destruct (same_name (sfn_name de) target); [done|].
      destruct (search_entries target _ (e + 1) no_lfn); try done. destruct Hrec as (? & q & ? & ?).
      split; [done|]. exists q. split; [by right|done].
    + destruct (search_entries target _ (e + 1) no_lfn); try done. destruct Hrec as (? & q & ? & ?).
      split; [done|]. exists q. split; [by right|done].
Qed.

Lemma wp_search_sectors target n c s a (Q : lfn_state + option fat32_lookup_result → fatfs → Prop) :
  valid c → 0 ≤ s → s + Z.of_nat n = sectors_per_cluster vol → plain a (cluster_locs c s) → ended a (cluster_locs c s) →
  match find_loc a target (cluster_locs c s) with
  | Some p => Q (inr (Some (result_at a p))) a
  | None => Q (inl no_lfn) a ∧ ((∃ p, p ∈ cluster_locs c s ∧ blank_entry (at_loc a p)) → Q (inr None) a)
  end → wp (search_sectors vol target n c s no_lfn) a Q.
Proof.
  intros Hc. revert s. induction n as [|n IH]; intros s Hs Hn Hp He HQ; cbn [search_sectors].
  { assert (s = sectors_per_cluster vol) as -> by lia. apply wp_ret. unfold cluster_locs in HQ. rewrite Z.sub_diag in HQ.
    cbn in HQ. apply HQ. }
  rewrite cluster_locs_cons in Hp, He, HQ by lia. apply ended_app in He as (He1 & He2 & He3) . 
  apply wp_bind, (wp_read_data vol); [done|lia|]. intros sec Esec _. rewrite (sector_entries_at a c s sec) by done.
  destruct (plain_app _ _ _ Hp) as [Hp1 Hp2].
  pose proof (search_entries_spec a target c s 16 0 ltac:(lia) Hp1 He1) as Hspec. rewrite find_loc_app in HQ.
  destruct (search_entries target _ 0 no_lfn) as [l| |e de].
  - destruct Hspec as [-> E]. rewrite E in HQ. apply IH; [lia|lia|done|done|].
    destruct (find_loc a target (cluster_locs c (s + 1))) as [p|]; [done|]. destruct HQ as [HQ1 HQ2]. split; [done|].
    intros (p & Hpin & Hb). apply HQ2. exists p. split; [apply elem_of_app; by right|done].
  - destruct Hspec as (E & p & Hpin & Hb). rewrite E in HQ. apply wp_ret.
    rewrite (find_loc_ended a target (sector_locs c s 0) _ p) in HQ; [|by apply ended_app|done|done].
    apply HQ. exists p. split; [apply elem_of_app; by left|done].
  - destruct Hspec as [E ->]. rewrite E in HQ. apply wp_ret. exact HQ.
Qed.

Lemma wp_search_chain n target c l a (Q : option fat32_lookup_result → fatfs → Prop) :
  chain a c l → (length l ≤ n)%nat → plain a (locs l) → ended a (locs l) →
  Q (result_at a <$> find_loc a target (locs l)) a → wp (search_chain vol n target c no_lfn) a Q.
Proof.
  revert n c. induction l as [|x l IH]; intros n c Hl Hn Hp He HQ.
  { assert (search_chain vol n target c no_lfn = mret None) as -> by (destruct n; cbn [search_chain]; by rewrite end_not_in_chain).
    by apply wp_ret. }
  destruct Hl as (-> & Hx & Hl). destruct n as [|n]; [cbn in Hn; lia|]. cbn [search_chain].
  rewrite (valid_in_chain vol) by done. cbn [negb]. change (locs (x :: l)) with (cluster_locs x 0 ++ locs l) in *.
  destruct (plain_app _ _ _ Hp) as [Hp1 Hp2].
  pose proof He as (He1 & He2 & _)%ended_app. apply wp_bind, wp_search_sectors; [done|lia|destruct G; lia|done|done|].
  rewrite find_loc_app in HQ. destruct (find_loc a target (cluster_locs x 0)) as [p|]; [by apply wp_ret|]. split.
  - apply wp_bind, (wp_read_fat_entry vol); [done|]. apply IH; [done|cbn in Hn; lia|done|done|done].
  - intros (p & Hpin & Hb). apply wp_ret. by rewrite (find_loc_ended a target _ _ p He Hpin Hb) in HQ.
Qed.

(** ** Changing an entry *)

Definition in_range p : Prop := let '(c, s, e) := p in valid c ∧ 0 ≤ s < sectors_per_cluster vol ∧ 0 ≤ e < 16.

Definition put_loc p (de : list Z) a : fatfs := let '(c, s, e) := p in set_sector c s (put_entry (sec_at a c s) e de) a.

Lemma sec_at_ok a c s : sized vol a → valid c → 0 ≤ s < sectors_per_cluster vol →
  cl a c !! Z.to_nat s = Some (sec_at a c s) ∧ sector_ok (sec_at a c s).
Proof.
  intros Hz Hc Hs. destruct (Hz c Hc) as [Hl Hok]. destruct (lookup_lt_is_Some_2 (cl a c) (Z.to_nat s)) as [sec E]; [lia|].
  unfold sec_at. rewrite (nth_lookup_Some _ _ _ _ E). split; [done|]. by apply (Forall_lookup_1 _ _ _ _ Hok E).
Qed.

Lemma put_entry_ok sec e de : sector_ok sec → 0 ≤ e < 16 → entry_ok de → sector_ok (put_entry sec e de).
Proof.
  intros [Hl Hu] He [Hld Hud]. unfold put_entry. split; [rewrite length_splice; lia|by apply splice_u8].
Qed.

Lemma entry_put_entry sec e e' de : length sec = 512%nat → 0 ≤ e < 16 → 0 ≤ e' < 16 → length de = 32%nat →
  entry_at (put_entry sec e de) e' = if e' =? e then de else entry_at sec e'.
Proof.
  intros Hl He He' Hd. unfold entry_at, put_entry. destruct (Z.eqb_spec e' e) as [->|].
  - rewrite <- Hd at 1. apply slice_splice_same; lia.
  - apply slice_splice_other; lia.
Qed.

Lemma at_put_loc a p de q : sized vol a → in_range p → in_range q → length de = 32%nat →
  at_loc (put_loc p de a) q = if bool_decide (q = p) then de else at_loc a q.
Proof.
  intros Hz Hp Hq Hd. destruct p as [[c s] e], q as [[c' s'] e']. destruct Hp as (Hc & Hs & He), Hq as (Hc' & Hs' & He').
  destruct (sec_at_ok a c s Hz Hc Hs) as [E [Hl _]]. cbn. unfold sec_at at 1. cbn.
  destruct (Z.eqb_spec c' c) as [->|Hne]; [|by rewrite bool_decide_false by congruence].
  destruct (decide (s' = s)) as [->|Hs1].
  - rewrite (nth_lookup_Some _ _ _ (put_entry (sec_at a c s) e de)).
    + rewrite entry_put_entry by done. destruct (Z.eqb_spec e' e) as [->|]; [by rewrite bool_decide_true|by rewrite bool_decide_false by congruence].
    + apply list_lookup_insert_eq. by apply lookup_lt_Some in E.
  - rewrite bool_decide_false by congruence. unfold sec_at. f_equal. rewrite !nth_lookup.
    by rewrite list_lookup_insert_ne by lia.
Qed.

Lemma put_loc_fat p de a c : fat (put_loc p de a) c = fat a c.
Proof. by destruct p as [[? ?] ?]. Qed.

Lemma put_loc_cl p de a c : c ≠ p.1.1 → cl (put_loc p de a) c = cl a c.
Proof. destruct p as [[c' ?] ?]. cbn. intros. by rewrite (proj2 (Z.eqb_neq c c')). Qed.

Lemma wp_put_loc c s e de a (Q : bool → fatfs → Prop) :
  in_range (c, s, e) → entry_ok de → Q true (put_loc (c, s, e) de a) →
  wp (write_sector (dev vol) (u64 (cluster_to_lba vol c + s)) (put_entry (sec_at a c s) e de)) a Q.
Proof.
  intros (Hc & Hs & He) Hde HQ. apply wp_sized. intros Hz. apply (wp_write_data vol); [done|done| |done].
  apply put_entry_ok; [by apply sec_at_ok|done|done].
Qed.

(** The change the driver makes to an entry it found. *)
Lemma wp_update_entry p f de a (Q : unit → fatfs → Prop) :
  in_range p → entry_ok (f (at_loc a p)) → Q tt (put_loc p (f (at_loc a p)) a) →
  wp (update_entry vol (let '(c, s, e) := p in LookupResult c s e de) f) a Q.
Proof.
  destruct p as [[c s] e]. intros Hp Hf HQ. unfold update_entry. cbn [dir_cluster dir_sector_offset entry_index_in_sector].
  destruct Hp as (Hc & Hs & He). apply wp_bind, (wp_read_data vol); [done|done|]. intros sec E Hok.
  assert (sec = sec_at a c s) as -> by (unfold sec_at; by rewrite (nth_lookup_Some _ _ _ _ E)).
  apply wp_bind, wp_put_loc; [done|done|]. by apply wp_ret.
Qed.

(** ** Adding an entry *)

Definition free_loc a (ps : list loc) : option loc := List.find (λ p, is_free_entry (at_loc a p)) ps.

Lemma free_loc_app a ps qs : free_loc a (ps ++ qs) = match free_loc a ps with Some p => Some p | None => free_loc a qs end.
Proof. apply find_app. Qed.

Lemma find_free_entry_spec a c s n e : e + Z.of_nat n = 16 →
  free_loc a (sector_locs c s e) = (λ e, (c, s, e)) <$> find_free_entry (at_loc a <$> sector_locs c s e) e.
Proof.
  revert e. induction n as [|n IH]; intros e Hn; [assert (e = 16) as -> by lia; done|].
  rewrite sector_locs_cons by lia. unfold free_loc. cbn [fmap list_fmap find_free_entry List.find].
  destruct (is_free_entry (at_loc a (c, s, e))); [done|]. apply IH. lia.
Qed.

Lemma wp_add_in_sectors new n c s a (Q : option bool → fatfs → Prop) :
  valid c → 0 ≤ s → s + Z.of_nat n = sectors_per_cluster vol → entry_ok new →
  match free_loc a (cluster_locs c s) with
  | Some p => Q (Some true) (put_loc p new a)
  | None => Q None a
  end → wp (add_in_sectors vol new n c s) a Q.
Proof.
  intros Hc. revert s. induction n as [|n IH]; intros s Hs Hn Hnew HQ; cbn [add_in_sectors].
  { assert (s = sectors_per_cluster vol) as -> by lia. apply wp_ret. unfold cluster_locs in HQ. by rewrite Z.sub_diag in HQ. }
  rewrite cluster_locs_cons, free_loc_app in HQ by lia.
  apply wp_bind, (wp_read_data vol); [done|lia|]. intros sec E Hok. rewrite (sector_entries_at a c s sec) by done.
  rewrite (find_free_entry_spec a c s 16 0) in HQ by lia.
  destruct (find_free_entry (at_loc a <$> sector_locs c s 0) 0) as [e|] eqn:Ef; cbn in HQ; [|apply IH; (done || lia)].
  assert (sec = sec_at a c s) as -> by (unfold sec_at; by rewrite (nth_lookup_Some _ _ _ _ E)).
  assert (0 ≤ e < 16) as He.
  { pose proof (find_free_entry_spec a c s 16 0 ltac:(lia)) as E1. rewrite Ef in E1. cbn in E1. apply find_some in E1 as [E1 _].
    apply list_elem_of_In, list_elem_of_fmap in E1 as (e1 & [= ->] & E1%elem_of_seqZ). lia. }
  apply wp_bind, wp_put_loc; [split_and!; try done; lia|done|]. by apply wp_ret.
Qed.

Lemma free_loc_blank c a : (∀ s e, 0 ≤ s < sectors_per_cluster vol → 0 ≤ e < 16 → blank_entry (at_loc a (c, s, e))) →
  free_loc a (cluster_locs c 0) = Some (c, 0, 0).
Proof.
  intros Hb. assert (0 < sectors_per_cluster vol) by (destruct G; lia). rewrite cluster_locs_cons, sector_locs_cons by lia.
  unfold free_loc. cbn [app List.find]. unfold is_free_entry. by rewrite (Hb 0 0) by lia.
Qed.

Lemma blank_at a c s e : cl a c = blank vol → 0 ≤ s < sectors_per_cluster vol → 0 ≤ e < 16 → blank_entry (at_loc a (c, s, e)).
Proof.
  intros E Hs He. unfold blank_entry, at_loc, sec_at. rewrite E. unfold blank.
  rewrite (nth_lookup_Some _ _ _ (replicate 512 0)) by (apply lookup_replicate_2; lia).
  unfold de_first, u8_at, entry_at, slice. rewrite drop_0, take_take, drop_replicate, take_replicate. 
  replace (1 `min` 32 `min` (512 - Z.to_nat (32 * e)))%nat with 1%nat by lia. done.
Qed.

(** A free slot of the directory, or the first slot of a new cluster behind its last one. *)
Lemma wp_add_in_chain new n c l a (Q : bool → fatfs → Prop) :
  chain a c l → l ≠ [] → (length l < n)%nat → entry_ok new →
  match free_loc a (locs l) with
  | Some p => Q true (put_loc p new a)
  | None =>
      match free_cluster vol a with
      | None => Q false a
      | Some x => valid x → fat a x = 0 → ∀ y a', last l = Some y → same a' (take_cluster vol y x a) → Q true (put_loc (x, 0, 0) new a')
      end
  end → wp (add_in_chain vol n new c) a Q.
Proof.
  revert n c. induction l as [|x l IH]; intros n c Hl Hne Hn Hnew HQ; [done|].
  destruct Hl as (-> & Hx & Hl). destruct n as [|n]; [cbn in Hn; lia|]. cbn [add_in_chain].
  rewrite (valid_in_chain vol) by done. cbn [negb]. change (locs (x :: l)) with (cluster_locs x 0 ++ locs l) in HQ.
  rewrite free_loc_app in HQ. apply wp_bind, wp_add_in_sectors; [done|lia|destruct G; lia|done|].
  destruct (free_loc a (cluster_locs x 0)) as [p|] eqn:Ef; [by apply wp_ret|].
  apply wp_bind, (wp_read_fat_entry vol); [done|]. destruct l as [|z l].
  - cbn in Hl. rewrite (proj2 (Z.geb_le _ _)) by done. cbn in HQ. apply wp_bind, (wp_allocate vol); [by right|].
    destruct (free_cluster vol a) as [y|]; [|by apply wp_ret]. intros Hy Hz a' Hs.
    rewrite (proj2 (Z.eqb_neq y 0)) by (unfold Fat32Entry.valid in Hy; lia).
    destruct n as [|n]; [cbn in Hn; lia|]. cbn [add_in_chain]. rewrite (valid_in_chain vol) by done. cbn [negb].
    apply wp_bind, wp_add_in_sectors; [done|lia|destruct G; lia|done|].
    rewrite free_loc_blank; [by apply wp_ret, (HQ Hy Hz x)|]. intros s e Hs' He. apply blank_at; [|done|done].
    destruct Hs as [_ Hc]. rewrite Hc. cbn. by rewrite Z.eqb_refl.
  - pose proof Hl as (E & Hz & _). rewrite E.
    destruct (Z.geb_spec z FAT32_CLUSTER_END_MIN); [destruct G; unfold Fat32Entry.valid, FAT32_CLUSTER_BAD, FAT32_CLUSTER_END_MIN in *; lia|].
    rewrite <- E. apply IH; [done|done|cbn in *; lia|done|]. done.
Qed.

End directories.

(** ** FAT32: a consistent volume

    [wf] is the invariant of a volume without errors: every chain ends and no
    two share a cluster, directories form a tree, names are unique in
    a directory, and each file owns a chain that is long enough for it.  Paths
    resolve to entries, and the steps of the operations keep the invariant. *)

(** ** Names *)

Lemma same_name_spec a b : same_name a b = true ↔ to_upper <$> a = to_upper <$> b.
Proof.
  revert b. induction a as [|x a IH]; intros [|y b]; cbn; try done.
  rewrite andb_true_iff, Z.eqb_eq, IH. split; [by intros [-> ->]|]. by intros [= -> ->].
Qed.

Section tree.
Context {S : Type} `{SectorCache S} (vol : fat32_volume) {G : geometry vol}.
Local Abbreviation wp := (wp vol).
Local Abbreviation valid := (valid vol).
Local Abbreviation chain := (chain vol).
Local Abbreviation locs := (locs vol).
Local Abbreviation in_range := (in_range vol).
Implicit Types a : fatfs.
Implicit Types p q : loc.
Implicit Types al : gmap Z (list Z).
Implicit Types dirs : gset Z.
Implicit Types rank : Z → nat.

(** An entry for a subdirectory, in a directory of rank [n]; an entry for a file. *)
Definition sub_ok dirs rank (n : nat) (de : list Z) : Prop :=
  de_cluster de = 0 ∨ de_cluster de ∈ dirs ∧ (is_dot (sfn_name de) = false → (rank (de_cluster de) < n)%nat).

Definition file_ok al dirs (de : list Z) : Prop :=
  de_cluster de < 2 ∨
  ∃ l, al !! de_cluster de = Some l ∧ de_cluster de ∉ dirs ∧ de_size de ≤ Z.of_nat (length l) * cluster_size vol.

(** [p] is a slot of the directory [d]. *)
Definition slot al dirs (d : Z) p : Prop := d ∈ dirs ∧ ∃ l, al !! d = Some l ∧ p ∈ locs l.

Definition file_slot a al dirs d p : Prop := slot al dirs d p ∧ visible (at_loc a p) = true ∧ is_directory (at_loc a p) = false.

(** [x] is a slot whose file is about to change. *)
Record wf_but (x : option loc) a al dirs rank : Prop := {
  wf_chain h l : al !! h = Some l → chain a h l ∧ NoDup l ∧ l ≠ [];
  wf_disj h1 h2 l1 l2 c : al !! h1 = Some l1 → al !! h2 = Some l2 → c ∈ l1 → c ∈ l2 → h1 = h2;
  wf_root : root_cluster vol ∈ dirs;
  wf_dirs d : d ∈ dirs → is_Some (al !! d);
  wf_list d l : d ∈ dirs → al !! d = Some l → plain a (locs l) ∧ ended a (locs l);
  wf_names d p q : slot al dirs d p → slot al dirs d q → visible (at_loc a p) = true → visible (at_loc a q) = true →
    same_name (sfn_name (at_loc a p)) (sfn_name (at_loc a q)) = true → p = q;
  wf_sub d p : slot al dirs d p → visible (at_loc a p) = true → is_directory (at_loc a p) = true →
    sub_ok dirs rank (rank d) (at_loc a p);
  wf_file d p : file_slot a al dirs d p → x ≠ Some p → file_ok al dirs (at_loc a p);
  wf_own d d' p q : file_slot a al dirs d p → file_slot a al dirs d' q → x ≠ Some p → x ≠ Some q →
    2 ≤ de_cluster (at_loc a p) → de_cluster (at_loc a p) = de_cluster (at_loc a q) → p = q;
}.

Definition wf := wf_but None.

Lemma wf_weaken x a al dirs rank : wf a al dirs rank → wf_but x a al dirs rank.
Proof. intros [H1 H2 H3 H4 H5 H6 H7 H8 H9]. split; try done; intros; [by eapply H8|by eapply H9]. Qed.

Lemma slot_range x a al dirs rank d p : wf_but x a al dirs rank → slot al dirs d p → in_range p.
Proof.
  intros Hw (Hd & l & Hl & Hp). destruct p as [[c s] e]. apply elem_of_locs in Hp as (Hc & Hs & He).
  destruct (wf_chain _ _ _ _ _ Hw d l Hl) as (Hch & _). split; [by apply (chain_valid _ _ _ _ _ Hch)|done].
Qed.

Lemma dir_valid x a al dirs rank h l : wf_but x a al dirs rank → al !! h = Some l → valid h ∧ h ∈ l ∧ fat a h ≠ 0.
Proof.
  intros Hw Hl. destruct (wf_chain _ _ _ _ _ Hw h l Hl) as (Hch & _ & Hne).
  destruct (chain_head vol _ _ _ Hch Hne) as (_ & Hin & Hv). split_and!; [done|done|by apply (chain_nonzero _ _ _ _ _ Hch)].
Qed.

(** ** Lookup by name *)

Definition find_in a al dirs (d : Z) (t : list Z) : option fat32_lookup_result :=
  if bool_decide (d ∈ dirs) then match al !! d with Some l => result_at a <$> find_loc a t (locs l) | None => None end
  else None.

(** The unique visible entry with the name. *)
Lemma find_in_Some x a al dirs rank d t r : wf_but x a al dirs rank →
  find_in a al dirs d t = Some r ↔ ∃ p, slot al dirs d p ∧ hit t (at_loc a p) = true ∧ r = result_at a p.
Proof.
  intros Hw. unfold find_in. split.
  - case_bool_decide as Hd; [|done]. destruct (al !! d) as [l|] eqn:El; [|done]. intros (p & Hp & ->)%fmap_Some.
    apply find_loc_Some in Hp as [Hin Hh]. exists p. split_and!; [|done|done]. split; [done|]. by exists l.
  - intros (p & Hs & Hh & ->). pose proof Hs as (Hd & l & El & Hin). rewrite bool_decide_true, El by done.
    destruct (find_loc a t (locs l)) as [q|] eqn:Eq; [|pose proof (proj1 (find_loc_None vol a t (locs l)) Eq p Hin); congruence].
    apply find_loc_Some in Eq as [Hq Hhq]. cbn. do 2 f_equal. symmetry.
    unfold hit in Hh, Hhq. apply andb_true_iff in Hh as [Hv Hn], Hhq as [Hvq Hnq].
    apply (wf_names _ _ _ _ _ Hw d p q); try done; [split; [done|by exists l]|].
    apply same_name_spec. apply same_name_spec in Hn, Hnq. congruence.
Qed.

Lemma option_ext {A} (o o' : option A) : (∀ x, o = Some x ↔ o' = Some x) → o = o'.
Proof. intros E. destruct o as [x|]; [symmetry; by apply E|]. destruct o' as [x|]; [by apply E|done]. Qed.

(** ** Paths *)

Definition junk_ok (junk : fat32_lookup_result) : Prop := entry_ok (entry junk).

Section paths.
Context (fuel : nat) (Hfuel : total_clusters vol < Z.of_nat fuel) (junk : fat32_lookup_result).

Section walk.
Context (find : Z → list Z → option fat32_lookup_result).

Definition next_dir (de : list Z) : Z := if de_cluster de =? 0 then root_cluster vol else de_cluster de.

Fixpoint walk (n : nat) (d : Z) (path : list Z) : option fat32_lookup_result :=
  match n with
  | O => None
  | Datatypes.S n =>
      let '(component, path) := next_component path in
      let path := skip_seps path in
      match find d (take (FAT32_MAX_PATH_LEN - 1) component) with
      | None => None
      | Some r =>
          match path with
          | [] => Some r
          | _ :: _ => if negb (is_directory (entry r)) then None else walk n (next_dir (entry r)) path
          end
      end
  end.

Definition resolve_with (path : list Z) : option fat32_lookup_result :=
  match path with
  | [] => None
  | _ :: _ => match skip_seps path with [] => Some (root_result junk vol) | path => walk (length path) (root_cluster vol) path end
  end.
End walk.

Definition resolve a al dirs := resolve_with (find_in a al dirs).

Lemma wp_lookup_entry x a al dirs rank d t (Q : option fat32_lookup_result → fatfs → Prop) :
  wf_but x a al dirs rank → d ∈ dirs ∨ d < 2 ∧ d ∉ dirs → Q (find_in a al dirs d t) a →
  wp (fat32_lookup_entry_in_dir fuel vol d t) a Q.
Proof.
  intros Hw Hd HQ. unfold fat32_lookup_entry_in_dir, find_in in *. case_bool_decide as Hin.
  - destruct (wf_dirs _ _ _ _ _ Hw d Hin) as [l El]. rewrite El in HQ. destruct (wf_chain _ _ _ _ _ Hw d l El) as (Hc & Hn & _).
    destruct (wf_list _ _ _ _ _ Hw d l Hin El) as [Hp He]. apply (wp_search_chain vol _ _ _ l); [done| |done|done|done].
    pose proof (cluster_chain_length vol _ _ _ Hc Hn). lia.
  - assert (in_chain d = false) as Hf by (unfold in_chain; lia || (destruct Hd as [?|[? ?]]; [done|lia])).
    assert (search_chain vol fuel t d no_lfn = mret None) as -> by (destruct fuel; cbn [search_chain]; by rewrite Hf).
    by apply wp_ret.
Qed.

Lemma wp_lookup_components x a al dirs rank n d path (Q : option fat32_lookup_result → fatfs → Prop) :
  wf_but x a al dirs rank → d ∈ dirs ∨ d < 2 ∧ d ∉ dirs → Q (walk (find_in a al dirs) n d path) a →
  wp (lookup_components fuel vol n d path) a Q.
Proof.
  intros Hw. revert d path. induction n as [|n IH]; intros d path Hd HQ; cbn [lookup_components walk] in *; [by apply wp_ret|].
  destruct (next_component path) as [t rest]. apply wp_bind, (wp_lookup_entry x a al dirs rank); [done|done|].
  destruct (find_in a al dirs d _) as [r|] eqn:Er; [|by apply wp_ret].
  destruct (skip_seps rest) as [|c path']; [by apply wp_ret|].
  destruct (is_directory (entry r)) eqn:Edir; cbn [negb] in *; [|by apply wp_ret].
  apply IH; [|done]. apply (find_in_Some x a al dirs rank) in Er as (p & Hs & Hh & ->); [|done].
  assert (entry (result_at a p) = at_loc a p) as E by (by destruct p as [[? ?] ?]). rewrite E in *. unfold next_dir.
  unfold hit in Hh. apply andb_true_iff in Hh as [Hv _].
  destruct (Z.eqb_spec (de_cluster (at_loc a p)) 0); [left; apply Hw|].
  destruct (decide (de_cluster (at_loc a p) ∈ dirs)); [by left|right].
  destruct (wf_sub _ _ _ _ _ Hw d p Hs Hv Edir) as [|[? _]]; done.
Qed.

Lemma wp_lookup_path x a al dirs rank path (Q : option fat32_lookup_result → fatfs → Prop) :
  wf_but x a al dirs rank → Q (resolve a al dirs path) a → wp (fat32_lookup_path fuel junk vol path) a Q.
Proof.
  intros Hw HQ. unfold fat32_lookup_path, resolve, resolve_with in *. destruct path as [|c path]; [by apply wp_ret|].
  destruct (skip_seps (c :: path)) as [|c' path']; [by apply wp_ret|].
  apply (wp_lookup_components x a al dirs rank); [done|left; apply Hw|done].
Qed.

(** ** Scanning the tree *)

Lemma list_entries_plain a ps :
  plain a ps → ∃ r ended, list_entries (at_loc a <$> ps) no_lfn = (r, no_lfn, ended) ∧
    ∀ nm de, (nm, de) ∈ r → ∃ p, p ∈ ps ∧ de = at_loc a p ∧ visible de = true ∧ nm = sfn_name de.
Proof.
  induction ps as [|p ps IH]; intros Hp; cbn [fmap list_fmap list_entries].
  { exists [], false. split; [done|]. intros nm de Hin. by apply not_elem_of_nil in Hin. }
  destruct IH as (r & en & E & Hr); [intros q Hq; apply Hp; by right|].
  rewrite visit_plain by (apply Hp; left). destruct (de_first (at_loc a p) =? 0).
  { exists [], true. split; [done|]. intros nm de Hin. by apply not_elem_of_nil in Hin. }
  destruct (visible (at_loc a p)) eqn:Ev; rewrite E.
  - exists ((sfn_name (at_loc a p), at_loc a p) :: r), en. split; [done|]. intros nm de [[= -> ->]|Hin]%elem_of_cons.
    + exists p. split_and!; [left|done|done|done].
    + destruct (Hr nm de Hin) as (q & ? & ?). exists q. split; [by right|done].
  - exists r, en. split; [done|]. intros nm de Hin. destruct (Hr nm de Hin) as (q & ? & ?). exists q. split; [by right|done].
Qed.

Section scan_steps.
Context (a : fatfs) (al : gmap Z (list Z)) (dirs : gset Z) (rank : Z → nat) (Hw : wf a al dirs rank).
Context (sub : Z → list Z → list fat32_cached_file → M (S := S) (list fat32_cached_file)) (prefix : list Z) (d : Z) (l : list Z).
Context (Hd : d ∈ dirs) (Hl : al !! d = Some l).
Context (Hsub : ∀ c pre files (Q : list fat32_cached_file → fatfs → Prop),
  c ∈ dirs → (rank c < rank d)%nat → (∀ files', Q files' a) → wp (sub c pre files) a Q).

Lemma wp_scan_entries xs files (Q : list fat32_cached_file → fatfs → Prop) :
  (∀ nm de, (nm, de) ∈ xs → ∃ p, p ∈ locs l ∧ de = at_loc a p ∧ visible de = true ∧ nm = sfn_name de) →
  (∀ files', Q files' a) → wp (scan_entries sub prefix xs files) a Q.
Proof.
  revert files. induction xs as [|[nm de] xs IH]; intros files Hxs HQ; cbn [scan_entries]; [by apply wp_ret|].
  apply wp_bind. assert (∀ files', wp (scan_entries sub prefix xs files') a Q) as Hrest.
  { intros files'. apply IH; [|done]. intros nm' de' Hin. apply Hxs. by right. }
  destruct (Hxs nm de) as (p & Hp & -> & Hv & ->); [left|]. unfold scan_entry.
  destruct (is_dot (sfn_name (at_loc a p))) eqn:Edot; [by apply wp_ret|].
  destruct (is_directory (at_loc a p)) eqn:Edir; [|destruct (_ <? _); by apply wp_ret].
  destruct (Z.geb_spec (de_cluster (at_loc a p)) 2); [|by apply wp_ret].
  destruct (wf_sub _ _ _ _ _ Hw d p) as [|[Hin Hrank]]; [split; [done|by exists l]|done|done|lia|]. apply Hsub; auto.
Qed.

Lemma wp_scan_sectors n c s files (Q : list fat32_cached_file * option lfn_state → fatfs → Prop) :
  c ∈ l → valid c → 0 ≤ s → s + Z.of_nat n = sectors_per_cluster vol →
  (∀ files' o, o = None ∨ o = Some no_lfn → Q (files', o) a) → wp (scan_sectors vol sub prefix n c s no_lfn files) a Q.
Proof.
  intros Hcl Hc. revert s files. induction n as [|n IH]; intros s files Hs Hn HQ; cbn [scan_sectors].
  { apply wp_ret, HQ. by right. }
  apply wp_bind, (wp_read_data vol); [done|lia|]. intros sec E _. rewrite (sector_entries_at a c s sec) by done.
  assert (∀ p, p ∈ sector_locs c s 0 → p ∈ locs l) as Hin.
  { intros p (e & -> & He%elem_of_seqZ)%list_elem_of_fmap. apply elem_of_locs. split_and!; [done|lia..]. }
  destruct (list_entries_plain a (sector_locs c s 0)) as (r & en & -> & Hr).
  { intros p Hp. apply (proj1 (wf_list _ _ _ _ _ Hw d l Hd Hl)). by apply Hin. }
  apply wp_bind, wp_scan_entries.
  { intros nm de Hx. destruct (Hr nm de Hx) as (p & ? & ?). exists p. split; [by apply Hin|done]. }
  intros files'. destruct en; [apply wp_ret, HQ; by left|]. apply IH; [lia|lia|done].
Qed.

Lemma wp_scan_chain n c l1 l2 files (Q : list fat32_cached_file → fatfs → Prop) :
  l = l1 ++ l2 → chain a c l2 → (length l2 ≤ n)%nat → (∀ files', Q files' a) →
  wp (scan_chain vol sub prefix n c no_lfn files) a Q.
Proof.
  revert n c l1 files. induction l2 as [|x l2 IH]; intros n c l1 files E Hc Hn HQ.
  { assert (scan_chain vol sub prefix n c no_lfn files = mret files) as ->
      by (destruct n; cbn [scan_chain]; by rewrite end_not_in_chain). by apply wp_ret. }
  destruct Hc as (-> & Hx & Hc). destruct n as [|n]; [cbn in Hn; lia|]. cbn [scan_chain].
  rewrite (valid_in_chain vol) by done. cbn [negb].
  apply wp_bind, wp_scan_sectors; [rewrite E; apply elem_of_app; right; left|done|lia|destruct G; lia|].
  intros files' o [->| ->]; [by apply wp_ret|]. apply wp_bind, (wp_read_fat_entry vol); [done|].
  apply (IH _ _ (l1 ++ [x])); [by rewrite <- app_assoc|done|cbn in Hn; lia|done].
Qed.
End scan_steps.

Lemma wp_scan a al dirs rank depth d prefix files (Q : list fat32_cached_file → fatfs → Prop) :
  wf a al dirs rank → d ∈ dirs → (rank d < depth)%nat → (∀ files', Q files' a) →
  wp (fat32_scan_files_recursive fuel vol depth d prefix files) a Q.
Proof.
  intros Hw. revert d prefix files Q. induction depth as [|depth IH]; intros d prefix files Q Hd Hr HQ; [lia|].
  cbn [fat32_scan_files_recursive]. destruct (_ >=? _); [by apply wp_ret|].
  destruct (wf_dirs _ _ _ _ _ Hw d Hd) as [l El]. destruct (wf_chain _ _ _ _ _ Hw d l El) as (Hc & Hn & _).
  apply (wp_scan_chain a al dirs rank Hw _ _ d l Hd El) with (l1 := []) (l2 := l); [|done|done| |done].
  - intros c pre files' Q' Hcd Hlt HQ'. apply IH; [done|lia|done].
  - pose proof (cluster_chain_length vol _ _ _ Hc Hn). lia.
Qed.

(** The end of an operation: flush and scan. *)
Lemma wp_finish a al dirs rank (Q : bool * fat32_volume → fatfs → Prop) :
  wf a al dirs rank → (rank (root_cluster vol) < fuel)%nat → (∀ files, Q (true, with_cached files vol) a) →
  wp (finish fuel vol) a Q.
Proof.
  intros Hw Hr HQ. unfold finish. apply wp_bind, (wp_flush vol). intros _.
  apply wp_bind, (wp_scan a al dirs rank); [done|apply Hw|done|]. intros files. by apply wp_ret.
Qed.

End paths.

(** ** Steps that keep the invariant *)

(** The chains, and the contents of the directories, are as before. *)
Record agree al dirs a a' : Prop := {
  ag_fat h l c : al !! h = Some l → c ∈ l → fat a' c = fat a c;
  ag_dir d l c : d ∈ dirs → al !! d = Some l → c ∈ l → cl a' c = cl a c;
}.

Lemma at_loc_cl a a' p : cl a' p.1.1 = cl a p.1.1 → at_loc a' p = at_loc a p.
Proof. destruct p as [[c s] e]. cbn. unfold sec_at. by intros ->. Qed.

Lemma agree_at al dirs a a' d p : agree al dirs a a' → slot al dirs d p → at_loc a' p = at_loc a p.
Proof.
  intros Ha (Hd & l & Hl & Hp). apply at_loc_cl. destruct p as [[c s] e]. apply elem_of_locs in Hp as (Hc & _).
  by apply (ag_dir _ _ _ _ Ha d l).
Qed.

Lemma wf_agree x a a' al dirs rank : agree al dirs a a' → wf_but x a al dirs rank → wf_but x a' al dirs rank.
Proof.
  intros Ha Hw. assert (∀ d p, slot al dirs d p → at_loc a' p = at_loc a p) as E by (intros d p; by apply agree_at).
  assert (∀ d l p, d ∈ dirs → al !! d = Some l → p ∈ locs l → at_loc a' p = at_loc a p) as E'.
  { intros d l p Hd Hl Hp. apply (E d). split; [done|]. by exists l. }
  destruct Hw as [H1 H2 H3 H4 H5 H6 H7 H8 H9]. split; try done.
  - intros h l Hl. destruct (H1 h l Hl) as (Hc & ? & ?). split_and!; try done. apply (chain_ext vol a); [|done].
    intros c Hin. by apply (ag_fat _ _ _ _ Ha h l).
  - intros d l Hd Hl. destruct (H5 d l Hd Hl) as [Hp He]. split.
    + intros p Hin. rewrite (E' d l) by done. by apply Hp.
    + apply (ended_ext vol a); [|done]. intros p Hin. by rewrite (E' d l).
  - intros d p q Hp Hq. rewrite !(E d) by done. by apply (H6 d).
  - intros d p Hp. rewrite (E d) by done. by apply (H7 d).
  - intros d p (Hs & Hv). rewrite (E d) in * by done. by apply (H8 d).
  - intros d d' p q (Hs & Hv) (Hs' & Hv'). rewrite (E d p), (E d' q) in * by done. by apply (H9 d d').
Qed.

Lemma agree_find x al dirs rank a a' d t : wf_but x a al dirs rank → agree al dirs a a' →
  find_in a' al dirs d t = find_in a al dirs d t.
Proof.
  intros Hw Ha. apply option_ext. intros r.
  rewrite (find_in_Some x a' al dirs rank) by (by apply (wf_agree x a)). rewrite (find_in_Some x a al dirs rank) by done.
  split; intros (p & Hs & Hh & ->); exists p; rewrite (agree_at _ _ _ _ _ _ Ha Hs) in *; split_and!; try done.
  - destruct p as [[c s] e]. cbn. f_equal. by apply (agree_at _ _ _ _ _ _ Ha Hs).
  - destruct p as [[c s] e]. cbn. f_equal. symmetry. by apply (agree_at _ _ _ _ _ _ Ha Hs).
Qed.

(** The chain of a file is given back. *)
Lemma wf_free d p h l a a' al dirs rank :
  wf a al dirs rank → file_slot a al dirs d p → de_cluster (at_loc a p) = h → 2 ≤ h → al !! h = Some l →
  (∀ c, cl a' c = cl a c) → (∀ c, fat a' c = if bool_decide (c ∈ l) then 0 else fat a c) →
  wf_but (Some p) a' (delete h al) dirs rank ∧ (∀ d t, find_in a' (delete h al) dirs d t = find_in a al dirs d t).
Proof.
  intros Hw Hp Hh Hh2 Hl Hcl Hfat.
  assert (h ∉ dirs) as Hnd.
  { destruct (wf_file _ _ _ _ _ Hw d p Hp) as [|(l' & Hl' & Hnd & _)]; [done|lia|congruence]. }
  assert (wf_but (Some p) a (delete h al) dirs rank) as Hw'.
  { assert (∀ d q, slot (delete h al) dirs d q ↔ slot al dirs d q) as Es.
    { intros d' q. unfold slot. split; intros (Hd & l' & Hl' & Hq); (split; [done|]; exists l'; split; [|done]).
      - by apply lookup_delete_Some in Hl' as [_ ?].
      - apply lookup_delete_Some. split; [by intros ->|done]. }
    pose proof Hw as [H1 H2 H3 H4 H5 H6 H7 H8 H9]. split; try done.
    - intros h' l' [_ Hl']%lookup_delete_Some. by apply H1.
    - intros h1 h2 l1 l2 c [_ E1]%lookup_delete_Some [_ E2]%lookup_delete_Some. by apply H2.
    - intros d' Hd. destruct (H4 d' Hd) as [l' Hl']. exists l'. apply lookup_delete_Some. split; [by intros ->|done].
    - intros d' l' Hd [_ Hl']%lookup_delete_Some. by apply (H5 d').
    - intros d' q q'. rewrite !Es. by apply (H6 d').
    - intros d' q. rewrite Es. by apply (H7 d').
    - intros d' q (Hs%Es & Hv) Hne. destruct (H8 d' q) as [|(l' & Hl' & Hnd' & Hsz)]; [by split|done|by left|]. right.
      exists l'. split_and!; try done. apply lookup_delete_Some. split; [|done]. intros Eq. apply Hne. f_equal.
      apply (H9 d d' p q); [done|by split|done|done|lia|congruence].
    - intros d1 d2 q1 q2 (Hs1%Es & Hv1) (Hs2%Es & Hv2) Hn1 Hn2. apply (H9 d1 d2); (done || by split). }
  assert (agree (delete h al) dirs a a') as Ha.
  { split; [|done]. intros h' l' c [Hne Hl']%lookup_delete_Some Hc. rewrite Hfat, bool_decide_false; [done|].
    intros Hc'. apply Hne. by apply (wf_disj _ _ _ _ _ Hw h h' l l' c). }
  split; [by apply (wf_agree _ a)|]. intros d' t. rewrite (agree_find (Some p) _ _ rank a) by done.
  unfold find_in. case_bool_decide as Hd; [|done]. rewrite lookup_delete_ne; [done|]. by intros ->.
Qed.

(** A new chain, of clusters that no chain had. *)
Lemma wf_insert x a al dirs rank h l :
  wf_but x a al dirs rank → chain a h l → NoDup l → l ≠ [] → (∀ h' l' c, al !! h' = Some l' → c ∈ l' → c ∉ l) →
  wf_but x a (<[h := l]> al) dirs rank ∧ (∀ d t, find_in a (<[h := l]> al) dirs d t = find_in a al dirs d t) ∧ al !! h = None ∧ h ∉ dirs.
Proof.
  intros Hw Hc Hn Hne Hd. destruct (chain_head vol _ _ _ Hc Hne) as (_ & Hin & _).
  assert (al !! h = None) as Hh.
  { destruct (al !! h) as [l'|] eqn:E; [|done]. exfalso. apply (Hd h l' h E); [|done]. by apply (dir_valid _ _ _ _ _ _ _ Hw E). }
  assert (h ∉ dirs) as Hnd by (intros Hin'; destruct (wf_dirs _ _ _ _ _ Hw h Hin') as [? ?]; congruence).
  assert (∀ d q, slot (<[h := l]> al) dirs d q ↔ slot al dirs d q) as Es.
  { intros d' q. unfold slot. split; intros (Hd' & l' & Hl' & Hq); (split; [done|]; exists l'; split; [|done]).
    - by rewrite lookup_insert_ne in Hl' by (by intros ->).
    - by rewrite lookup_insert_ne by (by intros ->). }
  split_and!; [|intros d t; unfold find_in; case_bool_decide; [|done]; by rewrite lookup_insert_ne by (by intros ->)|done|done].
  pose proof Hw as [H1 H2 H3 H4 H5 H6 H7 H8 H9]. split; try done.
  - intros h' l' [[<- <-]|[_ Hl']]%lookup_insert_Some; [done|by apply H1].
  - intros h1 h2 l1 l2 c [[<- <-]|[_ E1]]%lookup_insert_Some [[<- <-]|[_ E2]]%lookup_insert_Some Hc1 Hc2; try done.
    + by destruct (Hd h2 l2 c).
    + by destruct (Hd h1 l1 c).
    + by apply (H2 h1 h2 l1 l2 c).
  - intros d Hd'. rewrite lookup_insert_ne by (by intros ->). by apply H4.
  - intros d l' Hd'. rewrite lookup_insert_ne by (by intros ->). by apply H5.
  - intros d q q'. rewrite !Es. by apply (H6 d).
  - intros d q. rewrite Es. by apply (H7 d).
  - intros d q (Hs%Es & Hv) Hx. destruct (H8 d q) as [|(l' & Hl' & ?)]; [by split|done|by left|]. right. exists l'.
    rewrite lookup_insert_ne by congruence. done.
  - intros d1 d2 q1 q2 (Hs1%Es & Hv1) (Hs2%Es & Hv2). apply (H9 d1 d2); by split.
Qed.

Lemma slot_unique x a al dirs rank d d' p : wf_but x a al dirs rank → slot al dirs d p → slot al dirs d' p → d = d'.
Proof.
  intros Hw (_ & l & Hl & Hp) (_ & l' & Hl' & Hp'). destruct p as [[c s] e].
  apply elem_of_locs in Hp as (Hc & _), Hp' as (Hc' & _). by apply (wf_disj _ _ _ _ _ Hw d d' l l' c).
Qed.

(** ** A slot of a directory changes *)

Section put.
Context (a : fatfs) (al : gmap Z (list Z)) (dirs : gset Z) (rank : Z → nat) (d : Z) (p : loc) (de : list Z).
Context (Hz : sized vol a) (Hw : wf_but (Some p) a al dirs rank) (Hp : slot al dirs d p) (Hde : entry_ok de).

Lemma at_put d' q : slot al dirs d' q → at_loc (put_loc p de a) q = if bool_decide (q = p) then de else at_loc a q.
Proof.
  intros Hq. apply (at_put_loc vol); [done|by apply (slot_range _ _ _ _ _ _ _ Hw Hp)|by apply (slot_range _ _ _ _ _ _ _ Hw Hq)|apply Hde].
Qed.

Lemma put_same_locs d' l : d' ≠ d → d' ∈ dirs → al !! d' = Some l → ∀ q, q ∈ locs l → at_loc (put_loc p de a) q = at_loc a q.
Proof.
  intros Hne Hd Hl q Hq. assert (slot al dirs d' q) as Hs by (split; [done|by exists l]). rewrite (at_put d' q Hs).
  rewrite bool_decide_false; [done|]. intros ->. apply Hne. by apply (slot_unique _ _ _ _ _ _ _ _ Hw Hs Hp).
Qed.

Lemma wf_put l :
  al !! d = Some l → plain_entry de → ended (put_loc p de a) (locs l) →
  (visible de = true → ∀ q, slot al dirs d q → q ≠ p → visible (at_loc a q) = true → same_name (sfn_name de) (sfn_name (at_loc a q)) = false) →
  (visible de = true → is_directory de = true → sub_ok dirs rank (rank d) de) →
  (visible de = true → is_directory de = false → file_ok al dirs de ∧
     ∀ d' q, file_slot a al dirs d' q → q ≠ p → de_cluster (at_loc a q) = de_cluster de → de_cluster de < 2) →
  wf (put_loc p de a) al dirs rank.
Proof.
  intros Hl Hplain Hended Hnames Hsub Hfile. pose proof Hw as [H1 H2 H3 H4 H5 H6 H7 H8 H9].
  assert (∀ d' q, file_slot (put_loc p de a) al dirs d' q → q ≠ p → file_slot a al dirs d' q ∧ at_loc (put_loc p de a) q = at_loc a q) as Ef.
  { intros d' q (Hs & Hv) Hne. rewrite (at_put d' q Hs), bool_decide_false in * by done. by split. }
  split; try done.
  - intros h l' Hl'. destruct (H1 h l' Hl') as (Hc & ?). split; [|done]. apply (chain_ext vol a); [|done]. intros. apply put_loc_fat.
  - intros d' l' Hd' Hl'. destruct (H5 d' l' Hd' Hl') as [Hpl He]. destruct (decide (d' = d)) as [->|Hne].
    + assert (l' = l) as -> by congruence. split; [|done]. intros q Hq. rewrite (at_put d) by (split; [done|by exists l]).
      case_bool_decide; [done|by apply Hpl].
    + pose proof (put_same_locs d' l' Hne Hd' Hl') as E. split.
      * intros q Hq. rewrite E by done. by apply Hpl.
      * apply (ended_ext vol a); [|done]. intros q Hq. by rewrite E.
  - intros d' q q' Hq Hq'. rewrite (at_put d' q Hq), (at_put d' q' Hq'). 
    destruct (decide (q = p)) as [->|Hnq]; destruct (decide (q' = p)) as [->|Hnq'];
      rewrite ?(bool_decide_true (p = p)), ?(bool_decide_false (q = p)), ?(bool_decide_false (q' = p)) by done; try done.
    + pose proof (slot_unique _ _ _ _ _ _ _ _ Hw Hq Hp) as ->. intros Hv Hv' Hs. rewrite (Hnames Hv q') in Hs; done.
    + pose proof (slot_unique _ _ _ _ _ _ _ _ Hw Hq' Hp) as ->. intros Hv Hv' Hs. apply same_name_spec in Hs.
      assert (same_name (sfn_name de) (sfn_name (at_loc a q)) = true) as Hs' by (by apply same_name_spec).
      rewrite (Hnames Hv' q) in Hs'; done.
    + by apply (H6 d').
  - intros d' q Hq. rewrite (at_put d' q Hq). case_bool_decide as E; [|by apply (H7 d')]. subst q.
    pose proof (slot_unique _ _ _ _ _ _ _ _ Hw Hq Hp) as ->. done.
  - intros d' q Hq _. destruct (decide (q = p)) as [->|Hne].
    + destruct Hq as (Hs & Hv & Hdir). rewrite (at_put d' p Hs), bool_decide_true in * by done. by apply Hfile.
    + destruct (Ef d' q Hq Hne) as [Hq' ->]. apply (H8 d' q Hq'). congruence.
  - intros d1 d2 q1 q2 Hq1 Hq2 _ _ Hge Heq. destruct (decide (q1 = p)) as [->|Hn1]; destruct (decide (q2 = p)) as [->|Hn2]; [done| | |].
    + destruct (Ef d2 q2 Hq2 Hn2) as [Hq2' E2]. destruct Hq1 as (Hs & Hv & Hdir). rewrite E2 in Heq.
      rewrite (at_put d1 p Hs), bool_decide_true in * by done. destruct (Hfile Hv Hdir) as [_ Hu].
      pose proof (Hu d2 q2 Hq2' Hn2 (eq_sym Heq)). lia.
    + destruct (Ef d1 q1 Hq1 Hn1) as [Hq1' E1]. destruct Hq2 as (Hs & Hv & Hdir). rewrite E1 in Heq, Hge.
      rewrite (at_put d2 p Hs), bool_decide_true in * by done. destruct (Hfile Hv Hdir) as [_ Hu].
      pose proof (Hu d1 q1 Hq1' Hn1 Heq). lia.
    + destruct (Ef d1 q1 Hq1 Hn1) as [Hq1' E1], (Ef d2 q2 Hq2 Hn2) as [Hq2' E2]. rewrite E1, E2 in *.
      apply (H9 d1 d2 q1 q2); (done || congruence).
Qed.

(** What lookups find then. *)
Lemma result_put q d' : slot al dirs d' q → q ≠ p → result_at (put_loc p de a) q = result_at a q.
Proof. intros Hq Hne. pose proof (at_put d' q Hq) as E. rewrite bool_decide_false in E by done. destruct q as [[c s] e]. cbn in *. by rewrite E. Qed.

Lemma result_put_here : result_at (put_loc p de a) p = let '(c, s, e) := p in LookupResult c s e de.
Proof. pose proof (at_put d p Hp) as E. rewrite bool_decide_true in E by done. destruct p as [[c s] e]. cbn in *. by rewrite E. Qed.

Lemma find_put d' t : wf (put_loc p de a) al dirs rank →
  find_in (put_loc p de a) al dirs d' t =
    if bool_decide (d' = d) && hit t de then Some (result_at (put_loc p de a) p)
    else match find_in a al dirs d' t with
         | Some r => if bool_decide (r = result_at a p) then None else Some r
         | None => None
         end.
Proof.
  intros Hw'. apply option_ext. intros r. rewrite (find_in_Some None _ al dirs rank) by done.
  assert (∀ q q' : loc, result_at a q = result_at a q' → q = q') as Hinj.
  { intros [[c s] e] [[c' s'] e']. cbn. by intros [= -> -> ->]. }
  assert (∀ b, (if bool_decide (b = result_at a p) then None else Some b) = Some r ↔ b = r ∧ r ≠ result_at a p) as Hif.
  { intros b. case_bool_decide; naive_solver. }
  split.
  - intros (q & Hq & Hh & ->). rewrite (at_put d' q Hq) in Hh. case_bool_decide as Eq.
    + subst q. pose proof (slot_unique _ _ _ _ _ _ _ _ Hw Hq Hp) as ->. by rewrite bool_decide_true, Hh.
    + rewrite (result_put q d') by done.
      assert (find_in a al dirs d' t = Some (result_at a q)) as -> by (apply (find_in_Some (Some p) _ _ _ rank); [done|by exists q]).
      destruct (bool_decide (d' = d) && hit t de) eqn:Eh.
      * apply andb_true_iff in Eh as [Ed%bool_decide_eq_true Eh]. subst d'. exfalso. apply Eq.
        unfold hit in Eh, Hh. apply andb_true_iff in Eh as [Ev En], Hh as [Ev' En'].
        apply (wf_names _ _ _ _ _ Hw' d q p); try done; rewrite ?(at_put d q Hq), ?(at_put d p Hp), ?(bool_decide_true (p = p)), ?(bool_decide_false (q = p)) by done; try done.
        apply same_name_spec. apply same_name_spec in En, En'. congruence.
      * rewrite bool_decide_false; [done|]. by intros E%Hinj.
  - destruct (bool_decide (d' = d) && hit t de) eqn:Eh.
    + apply andb_true_iff in Eh as [Ed%bool_decide_eq_true Eh]. subst d'. intros [= <-]. exists p. split_and!; [done| |done].
      by rewrite (at_put d p Hp), bool_decide_true.
    + destruct (find_in a al dirs d' t) as [r'|] eqn:Er; [|done]. intros [-> Hne]%Hif.
      apply (find_in_Some (Some p) _ _ _ rank) in Er as (q & Hq & Hh & ->); [|done].
      assert (q ≠ p) as Hqp by congruence. exists q. split_and!; [done| |by rewrite (result_put q d')].
      by rewrite (at_put d' q Hq), bool_decide_false.
Qed.
End put.

(** ** A directory grows *)

Lemma locs_snoc l x : locs (l ++ [x]) = locs l ++ cluster_locs vol x 0.
Proof. unfold Fat32Dir.locs. rewrite fmap_app, concat_app. cbn. by rewrite app_nil_r. Qed.

Lemma NoDup_cluster_locs c n s : s + Z.of_nat n = sectors_per_cluster vol → NoDup (cluster_locs vol c s).
Proof.
  revert s. induction n as [|n IH]; intros s Hn.
  { unfold cluster_locs. replace (sectors_per_cluster vol - s) with 0 by lia. constructor. }
  rewrite cluster_locs_cons by lia. apply NoDup_app. split_and!; [|intros p|apply IH; lia].
  - unfold sector_locs. apply NoDup_fmap_2; [intros e e'; by intros [= ->]|apply NoDup_seqZ].
  - intros (e & -> & _)%list_elem_of_fmap (_ & ? & _)%elem_of_cluster_locs. lia.
Qed.

Lemma NoDup_locs l : NoDup l → NoDup (locs l).
Proof.
  induction 1 as [|c l Hc _ IH]; [constructor|]. change (locs (c :: l)) with (cluster_locs vol c 0 ++ locs l).
  apply NoDup_app. split_and!; [apply (NoDup_cluster_locs c (Z.to_nat (sectors_per_cluster vol))); destruct G; lia| |done].
  intros [[c' s] e] (-> & _)%elem_of_cluster_locs (? & _)%elem_of_locs. done.
Qed.

Section extend.
Context (d : Z) (l0 : list Z) (y x : Z) (a a' : fatfs) (al : gmap Z (list Z)) (dirs : gset Z) (rank : Z → nat).
Let l := l0 ++ [y].
Let al' := <[d := l ++ [x]]> al.
Context (Hw : wf a al dirs rank) (Hd : d ∈ dirs) (Hl : al !! d = Some l) (Hx : valid x) (Hz : fat a x = 0).
Context (Hs : same a' (take_cluster vol y x a)).

Lemma ext_not_new h l' c : al !! h = Some l' → c ∈ l' → c ≠ x.
Proof.
  intros Hl' Hc ->. destruct (wf_chain _ _ _ _ _ Hw h l' Hl') as (Hch & _). by apply (chain_nonzero vol _ _ _ _ Hch Hc).
Qed.

Lemma ext_last : y ∈ l ∧ y ∉ l0 ∧ valid y ∧ y ≠ x.
Proof.
  destruct (wf_chain _ _ _ _ _ Hw d l Hl) as (Hch & Hn & _).
  assert (y ∈ l) as Hy by (apply elem_of_app; right; left). split_and!; [done| |by apply (chain_valid _ _ _ _ _ Hch)|by apply (ext_not_new d l)].
  apply NoDup_app in Hn as (_ & Hdis & _). intros Hin. apply (Hdis y Hin). left.
Qed.

Lemma ext_fat c : fat a' c = if c =? y then x else if c =? x then FAT32_CLUSTER_END else fat a c.
Proof.
  destruct ext_last as (_ & _ & Hv & _). destruct Hs as [Ef _]. rewrite Ef. unfold take_cluster.
  unfold Fat32Entry.valid in Hv. by rewrite (proj2 (Z.geb_le y 2)) by lia.
Qed.

Lemma ext_cl c : cl a' c = if c =? x then blank vol else cl a c.
Proof. destruct Hs as [_ Ec]. rewrite Ec. unfold take_cluster. cbn. destruct (c =? x); [done|]. by destruct (y >=? 2). Qed.

Lemma ext_blank q : q ∈ cluster_locs vol x 0 → blank_entry (at_loc a' q) ∧ visible (at_loc a' q) = false.
Proof.
  intros Hq. assert (blank_entry (at_loc a' q)) as Hb.
  { destruct q as [[c s] e]. apply elem_of_cluster_locs in Hq as (-> & ? & ?). apply (blank_at vol); try done.
    by rewrite ext_cl, Z.eqb_refl. }
  split; [done|]. unfold visible. by rewrite Hb.
Qed.

Lemma ext_at d' q : slot al dirs d' q → at_loc a' q = at_loc a q.
Proof.
  destruct q as [[c s] e]. intros (_ & l' & Hl' & (Hc & _)%elem_of_locs). apply at_loc_cl. cbn. rewrite ext_cl.
  rewrite (proj2 (Z.eqb_neq c x)); [done|]. by apply (ext_not_new d' l').
Qed.

Lemma ext_slot d' q : slot al' dirs d' q ↔ slot al dirs d' q ∨ d' = d ∧ q ∈ cluster_locs vol x 0.
Proof.
  unfold slot, al'. split.
  - intros (Hd' & l' & [[<- <-]|[Hne' Hl']]%lookup_insert_Some & Hq); [|left; split; [done|by exists l']].
    rewrite locs_snoc, elem_of_app in Hq. destruct Hq; [left; split; [done|by eexists]|by right].
  - intros [(Hd' & l' & Hl' & Hq)|[-> Hq]].
    + split; [done|]. destruct (decide (d' = d)) as [->|Hne']; [|exists l'; by rewrite lookup_insert_ne].
      eexists. rewrite lookup_insert_eq. split; [done|]. rewrite Hl in Hl'. injection Hl' as <-. rewrite locs_snoc. apply elem_of_app. by left.
    + split; [done|]. eexists. rewrite lookup_insert_eq. split; [done|]. rewrite locs_snoc. apply elem_of_app. by right.
Qed.

Lemma ext_visible d' q : slot al' dirs d' q → visible (at_loc a' q) = true → slot al dirs d' q ∧ at_loc a' q = at_loc a q.
Proof.
  intros [Hq|[-> Hq]]%ext_slot Hv; [split; [done|by apply (ext_at d')]|]. by rewrite (proj2 (ext_blank q Hq)) in Hv.
Qed.

Lemma ext_chains h l' : al' !! h = Some l' → chain a' h l' ∧ NoDup l' ∧ l' ≠ [].
Proof.
  destruct ext_last as (Hyl & Hy0 & Hvy & Hyx). intros [[<- <-]|[Hne' Hl']]%lookup_insert_Some.
  - destruct (wf_chain _ _ _ _ _ Hw d l Hl) as (Hch & Hn & Hne). split_and!.
    + apply (cluster_chain_snoc vol a); [done|done| |by rewrite ext_fat, Z.eqb_refl|done|].
      * intros c Hc. rewrite ext_fat, (proj2 (Z.eqb_neq c y)), (proj2 (Z.eqb_neq c x)); [done| |by intros ->].
        apply (ext_not_new d l); [done|apply elem_of_app; by left].
      * rewrite ext_fat, (proj2 (Z.eqb_neq x y)), Z.eqb_refl by done. done.
    + apply NoDup_app. split_and!; [done| |apply NoDup_singleton]. intros c Hc ->%list_elem_of_singleton. by apply (ext_not_new d l x).
    + by destruct l.
  - destruct (wf_chain _ _ _ _ _ Hw h l' Hl') as (Hch' & ?). split; [|done]. apply (chain_ext vol a); [|done]. intros c Hc. rewrite ext_fat.
    rewrite (proj2 (Z.eqb_neq c y)), (proj2 (Z.eqb_neq c x)); [done|by apply (ext_not_new h l')|]. intros ->. apply Hne'.
    by apply (wf_disj _ _ _ _ _ Hw d h l l' y).
Qed.

Lemma ext_disjoint h1 h2 l1 l2 c : al' !! h1 = Some l1 → al' !! h2 = Some l2 → c ∈ l1 → c ∈ l2 → h1 = h2.
Proof.
  assert (∀ h l' c, al !! h = Some l' → c ∈ l' → c ∈ l ++ [x] → h = d) as Hd'.
  { intros h l' c' Hl' Hc [Hc'| ->%list_elem_of_singleton]%elem_of_app; [by apply (wf_disj _ _ _ _ _ Hw h d l' l c')|by destruct (ext_not_new h l' x)]. }
  intros [[<- <-]|[_ E1]]%lookup_insert_Some [[<- <-]|[_ E2]]%lookup_insert_Some Hc1 Hc2; try done.
  - symmetry. by apply (Hd' h2 l2 c).
  - by apply (Hd' h1 l1 c).
  - by apply (wf_disj _ _ _ _ _ Hw h1 h2 l1 l2 c).
Qed.

Lemma ext_lists d' l' : d' ∈ dirs → al' !! d' = Some l' → plain a' (locs l') ∧ ended a' (locs l').
Proof.
  assert (∀ d' l', d' ∈ dirs → al !! d' = Some l' → plain a' (locs l') ∧ ended a' (locs l')) as Hold.
  { intros d1 l1 Hd1 Hl1. destruct (wf_list _ _ _ _ _ Hw d1 l1 Hd1 Hl1) as [Hp He].
    assert (∀ q, q ∈ locs l1 → at_loc a' q = at_loc a q) as E by (intros q Hq; apply (ext_at d1); split; [done|by exists l1]). split.
    - intros q Hq. rewrite E by done. by apply Hp.
    - apply (ended_ext vol a); [|done]. intros q Hq. by rewrite E. }
  intros Hd' [[<- <-]|[Hne' Hl']]%lookup_insert_Some; [|by apply (Hold d')].
  destruct (Hold d l Hd Hl) as [Hp He]. rewrite locs_snoc. split.
  - intros q [Hq|Hq]%elem_of_app; [by apply Hp|]. left. unfold is_free_entry. by rewrite (proj1 (ext_blank q Hq)).
  - apply (ended_app vol). split_and!; [done| |intros p q _ Hq _; by apply ext_blank].
    assert (∀ q, q ∈ cluster_locs vol x 0 → blank_entry (at_loc a' q)) as Hb by (intros q Hq; by apply ext_blank).
    revert Hb. generalize (cluster_locs vol x 0). intros qs. induction qs as [|q qs IH]; [done|]. intros Hb.
    split; [intros _ r Hr; apply Hb; by right|]. apply IH. intros r Hr. apply Hb. by right.
Qed.

Lemma wf_extend : wf a' al' dirs rank.
Proof.
  pose proof Hw as [_ _ H3 H4 _ H6 H7 H8 H9]. split; [exact ext_chains|exact ext_disjoint|done| |exact ext_lists|..].
  - intros d' Hd'. unfold al'. destruct (decide (d' = d)) as [->|]; [rewrite lookup_insert_eq; by eexists|]. rewrite lookup_insert_ne by done. by apply H4.
  - intros d' p q Hp Hq Hvp Hvq. destruct (ext_visible d' p Hp Hvp) as [Hp' Ep], (ext_visible d' q Hq Hvq) as [Hq' Eq]. rewrite Ep, Eq in *. by apply (H6 d').
  - intros d' p Hp Hv. destruct (ext_visible d' p Hp Hv) as [Hp' Ep]. rewrite Ep in *. by apply (H7 d').
  - intros d' p (Hp & Hv & Hdir) Hxx. destruct (ext_visible d' p Hp Hv) as [Hp' Ep]. rewrite Ep in *.
    destruct (H8 d' p) as [|(l' & Hl' & Hnd & Hsz)]; [by split|done|by left|]. right. exists l'. split_and!; try done.
    unfold al'. rewrite lookup_insert_ne; [done|]. intros E. apply Hnd. by rewrite <- E.
  - intros d1 d2 q1 q2 (Hs1 & Hv1 & ?) (Hs2 & Hv2 & ?). destruct (ext_visible d1 q1 Hs1 Hv1) as [Hs1' E1], (ext_visible d2 q2 Hs2 Hv2) as [Hs2' E2].
    unfold file_slot in *. rewrite E1, E2 in *. by apply (H9 d1 d2).
Qed.

Lemma find_extend d' t : find_in a' al' dirs d' t = find_in a al dirs d' t.
Proof.
  apply option_ext. intros r. rewrite (find_in_Some None a' _ dirs rank) by apply wf_extend. rewrite (find_in_Some None a _ dirs rank) by done.
  split; intros (p & Hp & Hh & ->); exists p.
  - assert (visible (at_loc a' p) = true) as Hv by (unfold hit in Hh; by apply andb_true_iff in Hh as [? _]).
    destruct (ext_visible d' p Hp Hv) as [Hp' Ep]. rewrite Ep in Hh. split_and!; try done. destruct p as [[c s] e]. cbn in *. by rewrite Ep.
  - pose proof (ext_at d' p Hp) as Ep. rewrite Ep. split_and!; [by apply ext_slot; left|done|]. destruct p as [[c s] e]. cbn in *. by rewrite Ep.
Qed.

Lemma free_extend : free_loc a (locs l) = None → free_loc a' (locs (l ++ [x])) = Some (x, 0, 0).
Proof.
  intros Hf. rewrite locs_snoc, free_loc_app. assert (free_loc a' (locs l) = free_loc a (locs l)) as ->.
  { assert (∀ q, q ∈ locs l → at_loc a' q = at_loc a q) as E by (intros q Hq; apply (ext_at d); split; [done|by exists l]).
    revert E. unfold free_loc. generalize (locs l). intros qs. induction qs as [|q qs IH]; [done|]. intros E. cbn. rewrite E by left.
    destruct (is_free_entry (at_loc a q)); [done|]. apply IH. intros r Hr. apply E. by right. }
  rewrite Hf. apply free_loc_blank; [done|]. intros s e Hs' He. apply ext_blank, elem_of_cluster_locs. done.
Qed.
End extend.

Lemma ended_put_free a a' p ps : NoDup ps → ended a ps → free_loc a ps = Some p → ¬ blank_entry (at_loc a' p) →
  (∀ q, q ∈ ps → q ≠ p → at_loc a' q = at_loc a q) → ended a' ps.
Proof.
  induction ps as [|q ps IH]; intros Hn He Hf Hb Eq; [done|]. apply NoDup_cons in Hn as [Hq Hn]. destruct He as [Hq1 He].
  unfold free_loc in Hf. cbn [List.find] in Hf. destruct (is_free_entry (at_loc a q)) eqn:Efree.
  - injection Hf as ->. split; [by intros ?|]. apply (ended_ext vol a); [|done]. intros r Hr. rewrite Eq; [done|by right|by intros ->].
  - assert (q ≠ p) as Hne.
    { intros ->. apply find_some in Hf as [_ Hf]. congruence. }
    split; [|apply IH; try done; intros r Hr; apply Eq; by right]. rewrite Eq by (done || left). intros Hbl. exfalso.
    unfold is_free_entry in Efree. unfold blank_entry in Hbl. by rewrite Hbl in Efree.
Qed.

End tree.
