(* ===== verification/Fat32Files.v ===== *)
(** * FAT32: files

    What the operations of the driver do to a consistent volume, seen as the
    function from paths to file contents: reading returns the content,
    overwriting and unlinking change one file, on every path that leads to it,
    and no other. *)

From Stdlib Require Import ZArith Lia.
From stdpp Require Import gmap.
From S2P Require Import Prelude Interfaces Inet Bytes Fat32 Fat32Entry Fat32Chain Fat32Dir.
#[local] Open Scope Z_scope.

Section files.
Context {S : Type} `{SectorCache S} (vol : fat32_volume) {G : geometry vol}.
Context (fuel : nat) (Hfuel : total_clusters vol < Z.of_nat fuel) (junk : fat32_lookup_result) (Hjunk : junk_ok junk).
Context (ok : nat → bool) `{!HeapWorks ok} (fresh : nat → list Z).
Local Abbreviation wp := (wp vol).
Local Abbreviation valid := (valid vol).
Local Abbreviation chain := (chain vol).
Local Abbreviation locs := (locs vol).
Local Abbreviation wf := (wf vol).
Local Abbreviation wf_but := (wf_but vol).
Local Abbreviation slot := (slot vol).
Local Abbreviation file_slot := (file_slot vol).
Local Abbreviation find_in := (find_in vol).
Local Abbreviation resolve := (resolve vol junk).
Implicit Types a : fatfs.
Implicit Types p q : loc.
Implicit Types al : gmap Z (list Z).
Implicit Types dirs : gset Z.
Implicit Types rank : Z → nat.

(** ** Contents *)

Definition content a al (de : list Z) : list Z :=
  if (de_size de =? 0) || (de_cluster de <? 2) then []
  else match al !! de_cluster de with Some l => take (Z.to_nat (de_size de)) (bytes_of a l) | None => [] end.

(** What the file at a path holds; [None] when there is no such file. *)
Definition file_at a al dirs (path : list Z) : option (list Z) :=
  match resolve a al dirs path with
  | Some r => if is_directory (entry r) then None else Some (content a al (entry r))
  | None => None
  end.

Lemma root_is_directory : is_directory (entry (root_result junk vol)) = true.
Proof.
  unfold root_result. cbn [entry]. unfold is_directory.
  pose proof (set_cluster_full (entry junk) Hjunk (root_cluster vol)) as H1.
  pose proof (set_attr_full _ H1 FAT_ATTR_DIRECTORY) as H2. destruct (set_size_other _ H2 0) as (_ & _ & -> & _).
  by rewrite set_attr_attr.
Qed.

Lemma walk_found find n d path r : walk vol find n d path = Some r → ∃ d' t, find d' t = Some r.
Proof.
  revert d path. induction n as [|n IH]; intros d path; cbn [walk]; [done|]. destruct (next_component path) as [t rest].
  destruct (find d _) as [r'|] eqn:E; [|done]. destruct (skip_seps rest); [intros [= <-]; by eexists _, _|].
  destruct (is_directory (entry r')); cbn [negb]; [apply IH|done].
Qed.

(** A path that does not name a directory leads to the entry of a file. *)
Lemma resolve_file x a al dirs rank path r :
  wf_but x a al dirs rank → resolve a al dirs path = Some r → is_directory (entry r) = false →
  ∃ d p, file_slot a al dirs d p ∧ r = result_at a p ∧ entry r = at_loc a p.
Proof.
  intros Hw Hr Hdir. assert (∃ d t, find_in a al dirs d t = Some r) as (d & t & E).
  { unfold Fat32Dir.resolve, resolve_with in Hr. destruct path; [done|]. destruct (skip_seps _).
    - injection Hr as <-. by rewrite root_is_directory in Hdir.
    - by apply walk_found in Hr. }
  apply (find_in_Some vol x a al dirs rank) in E as (p & Hp & Hh & ->); [|done]. exists d, p.
  assert (entry (result_at a p) = at_loc a p) as Ee by (by destruct p as [[? ?] ?]). rewrite Ee in *.
  split_and!; try done. unfold hit in Hh. by apply andb_true_iff in Hh as [? _].
Qed.

Lemma content_length a al dirs rank d p : sized vol a → wf a al dirs rank → file_slot a al dirs d p →
  ¬ ((de_size (at_loc a p) =? 0) || (de_cluster (at_loc a p) <? 2)) = true →
  ∃ l, al !! de_cluster (at_loc a p) = Some l ∧ chain a (de_cluster (at_loc a p)) l ∧ NoDup l ∧
    de_size (at_loc a p) ≤ Z.of_nat (length l) * cluster_size vol.
Proof. clear fuel Hfuel.
  intros Hz Hw Hp Hne. destruct (wf_file _ _ _ _ _ _ Hw d p Hp) as [Hlt|(l & Hl & _ & Hsz)]; [done|lia|].
  destruct (wf_chain _ _ _ _ _ _ Hw _ l Hl) as (Hc & Hn & _). by exists l.
Qed.

Lemma at_loc_ok a p : sized vol a → in_range vol p → entry_ok (at_loc a p).
Proof. clear fuel Hfuel.
  destruct p as [[c s] e]. intros Hz (Hc & Hs & He). destruct (sec_at_ok vol a c s Hz Hc Hs) as [_ [Hl Hu]]. cbn. unfold entry_at.
  split; [rewrite length_slice_full; lia|by apply slice_u8].
Qed.

Lemma size_range de : entry_ok de → 0 ≤ de_size de < 4294967296.
Proof. intros [_ Hu]. by apply u32_at_range. Qed.

(** Reading a path returns what the volume holds there. *)
Lemma wp_read_file a al dirs rank path (Q : option (list Z) → fatfs → Prop) :
  wf a al dirs rank → mounted vol = true → Q (file_at a al dirs path) a →
  wp (fat32_read_file fuel ok fresh junk vol (Some path)) a Q.
Proof.
  intros Hw Hm HQ. apply (wp_sized vol). intros Hz. unfold fat32_read_file. rewrite Hm. cbn [negb].
  apply wp_bind, (wp_lookup_path vol fuel Hfuel junk None a al dirs rank); [done|]. unfold file_at in HQ.
  destruct (resolve a al dirs path) as [r|] eqn:Er; [|by apply wp_ret].
  destruct (is_directory (entry r)) eqn:Edir; [by apply wp_ret|].
  destruct (resolve_file None a al dirs rank path r Hw Er Edir) as (d & p & Hp & -> & Ee). rewrite Ee in *.
  unfold content in HQ. destruct (_ || _) eqn:Ez; [by apply wp_ret|].
  destruct (content_length a al dirs rank d p Hz Hw Hp) as (l & Hl & Hc & Hn & Hsz); [congruence|]. rewrite Hl in HQ.
  pose proof (size_range _ (at_loc_ok a p Hz (slot_range _ _ _ _ _ _ _ _ Hw (proj1 Hp)))) as Hr.
  apply wp_bind, (wp_kmalloc vol ok). intros k. apply wp_bind, (wp_kmalloc vol ok). intros _.
  pose proof (cluster_chain_length vol _ _ _ Hc Hn). apply wp_bind, (wp_read_chain vol _ l); [done|lia|cbn; lia|cbn; lia|]. apply wp_ret. cbn.
  rewrite Z.sub_0_r. unfold fill. rewrite drop_ge; [by rewrite app_nil_r|].
  pose proof (length_bytes_of vol a _ l Hz Hc). rewrite !length_take. lia.
Qed.

(** ** Finders that differ in one entry *)

Definition is_file (r : fat32_lookup_result) : Prop := is_directory (entry r) = false.

Lemma walk_update find find' r0 r1 :
  is_file r0 → is_file r1 → (∀ d t, find' d t = (λ r, if bool_decide (r = r0) then r1 else r) <$> find d t) →
  ∀ n d path, walk vol find' n d path = (λ r, if bool_decide (r = r0) then r1 else r) <$> walk vol find n d path.
Proof.
  intros H0 H1 Hf n. induction n as [|n IH]; intros d path; cbn [walk]; [done|]. destruct (next_component path) as [t rest].
  rewrite Hf. destruct (find d _) as [r|]; [|done]. cbn. destruct (skip_seps rest); [done|]. case_bool_decide as E.
  - subst r. unfold is_file in *. by rewrite H0, H1.
  - destruct (is_directory (entry r)); cbn; [apply IH|done].
Qed.

Lemma walk_remove find find' r0 :
  is_file r0 → (∀ d t, find' d t = match find d t with Some r => if bool_decide (r = r0) then None else Some r | None => None end) →
  ∀ n d path, walk vol find' n d path =
    match walk vol find n d path with Some r => if bool_decide (r = r0) then None else Some r | None => None end.
Proof.
  intros H0 Hf n. induction n as [|n IH]; intros d path; cbn [walk]; [done|]. destruct (next_component path) as [t rest].
  rewrite Hf. destruct (find d _) as [r|]; [|done]. case_bool_decide as E.
  - subst r. unfold is_file in *. rewrite H0. cbn. destruct (skip_seps rest); [by rewrite bool_decide_true|done].
  - destruct (skip_seps rest); [by rewrite bool_decide_false|]. destruct (is_directory (entry r)); cbn; [apply IH|done].
Qed.

Lemma root_not_file r : is_file r → root_result junk vol ≠ r.
Proof. intros Hr <-. unfold is_file in Hr. by rewrite root_is_directory in Hr. Qed.

Lemma resolve_update find find' r0 r1 path :
  is_file r0 → is_file r1 → (∀ d t, find' d t = (λ r, if bool_decide (r = r0) then r1 else r) <$> find d t) →
  resolve_with vol junk find' path = (λ r, if bool_decide (r = r0) then r1 else r) <$> resolve_with vol junk find path.
Proof.
  intros H0 H1 Hf. unfold resolve_with. destruct path; [done|]. destruct (skip_seps _).
  - cbn. rewrite bool_decide_false; [done|]. by apply root_not_file.
  - by apply walk_update.
Qed.

Lemma resolve_remove find find' r0 path :
  is_file r0 → (∀ d t, find' d t = match find d t with Some r => if bool_decide (r = r0) then None else Some r | None => None end) →
  resolve_with vol junk find' path =
    match resolve_with vol junk find path with Some r => if bool_decide (r = r0) then None else Some r | None => None end.
Proof.
  intros H0 Hf. unfold resolve_with. destruct path; [done|]. destruct (skip_seps _).
  - rewrite bool_decide_false; [done|]. by apply root_not_file.
  - by apply walk_remove.
Qed.

(** ** Giving a chain back *)

Definition held al (h : Z) : nat := if h >=? 2 then match al !! h with Some l => length l | None => 0 end else 0.
Definition without al (h : Z) : gmap Z (list Z) := if h >=? 2 then delete h al else al.

Lemma room_release a a' l : NoDup l → (∀ c, c ∈ l → valid c ∧ fat a c ≠ 0) →
  (∀ c, fat a' c = if bool_decide (c ∈ l) then 0 else fat a c) → room vol a' = (room vol a + length l)%nat.
Proof. clear fuel Hfuel.
  intros Hn Hl Hf. unfold room. rewrite Nat.add_comm, <- length_app. apply Permutation_length, NoDup_Permutation.
  - apply NoDup_free_list.
  - apply NoDup_app. split_and!; [done| |apply NoDup_free_list]. intros c Hc [? _]%elem_of_free_list. by destruct (Hl c Hc).
  - intros c. rewrite elem_of_app, !elem_of_free_list, Hf. case_bool_decide as Hc; [|tauto]. destruct (Hl c Hc). tauto.
Qed.

Lemma room_put p de a : room vol (put_loc p de a) = room vol a.
Proof. clear fuel Hfuel. apply room_eq. intros c _. by destruct p as [[c' s'] e']. Qed.

Lemma wp_release d p a al dirs rank (Q : unit → fatfs → Prop) :
  wf a al dirs rank → file_slot a al dirs d p →
  (∀ a', wf_but (Some p) a' (without al (de_cluster (at_loc a p))) dirs rank →
     (∀ d t, find_in a' (without al (de_cluster (at_loc a p))) dirs d t = find_in a al dirs d t) →
     (∀ c, cl a' c = cl a c) → room vol a' = (room vol a + held al (de_cluster (at_loc a p)))%nat → Q tt a') →
  wp (if de_cluster (at_loc a p) >=? 2 then fat32_free_cluster_chain fuel vol (de_cluster (at_loc a p)) else mret tt) a Q.
Proof.
  intros Hw Hp HQ. unfold held, without in HQ. destruct (Z.geb_spec (de_cluster (at_loc a p)) 2) as [Hge|Hlt].
  - destruct (wf_file _ _ _ _ _ _ Hw d p Hp) as [|(l & Hl & Hnd & _)]; [done|lia|].
    destruct (wf_chain _ _ _ _ _ _ Hw _ l Hl) as (Hc & Hn & _). pose proof (cluster_chain_length vol _ _ _ Hc Hn).
    apply (wp_free_chain vol _ l); [done|done|lia|]. intros a' Hcl Hfat.
    destruct (wf_free vol d p _ l a a' al dirs rank Hw Hp eq_refl Hge Hl Hcl Hfat) as [Hw' Hf'].
    apply HQ; [done|done|done|]. rewrite Hl. apply room_release; [done| |done].
    intros c Hin. split; [by apply (chain_valid vol _ _ _ _ Hc)|by apply (chain_nonzero vol _ _ _ _ Hc)].
  - apply wp_ret, HQ; [by apply wf_weaken|done|done|lia].
Qed.

(** ** Storing data *)

Lemma needed_bounds size : 0 < size < 4294967296 →
  size ≤ needed_clusters vol size * cluster_size vol < size + cluster_size vol ∧ 0 < needed_clusters vol size.
Proof.
  intros Hs. assert (512 ≤ cluster_size vol ≤ 130560) as Hc by (rewrite (@g_csize _ _ vol G); pose proof (@g_spc _ _ vol G); lia).
  unfold needed_clusters. rewrite u64_small by (unfold is_u64, W64; lia).
  pose proof (Z.div_mod (size + cluster_size vol - 1) (cluster_size vol) ltac:(lia)).
  pose proof (Z.mod_pos_bound (size + cluster_size vol - 1) (cluster_size vol) ltac:(lia)).
  assert (0 < (size + cluster_size vol - 1) / cluster_size vol < 4294967296) by nia.
  rewrite u32_small by (unfold is_u32; lia). nia.
Qed.

(** The data are stored in a chain of their own, which starts at [start]. *)
Definition stored a al al' dirs (start : Z) (data : list Z) : Prop :=
  data = [] ∧ start = 0 ∧ al' = al ∨
  ∃ l, al' = <[start := l]> al ∧ 2 ≤ start < 4294967296 ∧ al !! start = None ∧ start ∉ dirs ∧
    Z.of_nat (length data) ≤ Z.of_nat (length l) * cluster_size vol ∧ take (length data) (bytes_of a l) = data.

Definition clusters_for (data : list Z) : Z := if Z.of_nat (length data) >? 0 then needed_clusters vol (Z.of_nat (length data)) else 0.

(** The contents of the other chains stay. *)
Definition keeps al a a' : Prop := ∀ h l c, al !! h = Some l → c ∈ l → cl a' c = cl a c.

(** The only entries of the table that changed are those of the chain, whose
    clusters were free. *)
Definition took a a' (al' : gmap Z (list Z)) (start : Z) : Prop :=
  (start = 0 ∧ ∀ c, fat a' c = fat a c) ∨
  ∃ l, al' !! start = Some l ∧ ∀ c, if bool_decide (c ∈ l) then fat a c = 0 else fat a' c = fat a c.

Lemma wp_store x a al dirs rank data (Q : option Z → fatfs → Prop) :
  wf_but x a al dirs rank → Forall is_u8 data → Z.of_nat (length data) < 4294967296 →
  (∀ a' al' start, wf_but x a' al' dirs rank → agree al dirs a a' → (∀ d t, find_in a' al' dirs d t = find_in a al dirs d t) → keeps al a a' →
     stored a' al al' dirs start data → (room vol a' + Z.to_nat (clusters_for data) = room vol a)%nat → took a a' al' start → Q (Some start) a') →
  (∀ a', Z.of_nat (room vol a) < clusters_for data → (∀ c, fat a' c = fat a c) → agree al dirs a a' → wf_but x a' al dirs rank → (∀ d t, find_in a' al dirs d t = find_in a al dirs d t) →
     keeps al a a' → Q None a') →
  wp (write_clusters fuel ok vol (Some data) (Z.of_nat (length data))) a Q.
Proof.
  intros Hw Hd Hlen HQ HN.
  assert (∀ h l c, al !! h = Some l → c ∈ l → fat a c ≠ 0) as Hnz.
  { intros h l c Hl Hc. destruct (wf_chain _ _ _ _ _ _ Hw h l Hl) as (Hch & _). by apply (chain_nonzero vol _ _ _ _ Hch). }
  apply (wp_write_clusters vol data (Z.of_nat (length data)) Hd fuel ok); [lia|lia| |].
  - intros a' l prev start Hl Hf He Hroom.
    assert (∀ h l' c, al !! h = Some l' → c ∈ l' → c ∉ l) as Hdis.
    { intros h l' c Hl' Hc Hin. destruct (fl_free _ _ _ _ _ _ Hf c Hin). by apply (Hnz h l' c). }
    assert (agree al dirs a a') as Ha.
    { split; [intros h l' c Hl' Hc|intros h l' c _ Hl' Hc]; apply (fl_other _ _ _ _ _ _ Hf c); by apply (Hdis h l'). }
    assert (keeps al a a') as Hk by (intros h l' c Hl' Hc; apply (fl_other _ _ _ _ _ _ Hf c); by apply (Hdis h l')).
    pose proof (wf_agree vol x a a' al dirs rank Ha Hw) as Hw'.
    pose proof (ends_start vol a' l prev start He) as Hs. unfold clusters_for in HQ.
    destruct (Z.gtb_spec (Z.of_nat (length data)) 0) as [Hpos|Hzero].
    + destruct (needed_bounds (Z.of_nat (length data)) ltac:(lia)) as [Hb Hb0].
      destruct (Z.eqb_spec start 0); [subst l; cbn in Hl; lia|]. destruct Hs as [Hc Hne].
      destruct (wf_insert vol x a' al dirs rank start l Hw' Hc (fl_nodup _ _ _ _ _ _ Hf) Hne Hdis) as (Hw2 & Hf2 & Hnone & Hnd).
      destruct (chain_head vol _ _ _ Hc Hne) as (_ & _ & Hv).
      apply (HQ a' (<[start := l]> al)); [done|done|intros d t; rewrite Hf2; by apply (agree_find vol x al dirs rank)|done| |lia|].
      2:{ right. exists l. split; [apply lookup_insert_eq|]. intros c.
          case_bool_decide as Hin; [by apply (fl_free _ _ _ _ _ _ Hf)|by apply (fl_other _ _ _ _ _ _ Hf)]. }
      right. exists l. split_and!; try done; [..|apply (filled_bytes vol data a a' l Hf); unfold W64; lia].
      * unfold Fat32Entry.valid in Hv. lia.
      * unfold Fat32Entry.valid in Hv. pose proof (@g_numbers _ _ vol G). unfold FAT32_CLUSTER_BAD in *. lia.
      * lia.
    + cbn in Hl. destruct l; [|done]. destruct (Z.eqb_spec start 0); [|by destruct Hs].
      apply (HQ a' al); [done|done|intros d t; by apply (agree_find vol x al dirs rank)|done| |cbn in Hroom; lia|].
      2:{ left. split; [done|]. intros c. apply (fl_other _ _ _ _ _ _ Hf), not_elem_of_nil. }
      left. split_and!; [|done|done]. destruct data; [done|cbn in Hzero; lia].
  - intros a' Hlt Hfat Hcl. unfold clusters_for in HN.
    assert (Z.of_nat (length data) > 0) as Hpos.
    { destruct (decide (Z.of_nat (length data) = 0)) as [E|]; [|lia]. exfalso. rewrite E in Hlt. revert Hlt. unfold needed_clusters.
      assert (512 ≤ cluster_size vol ≤ 130560) as Hc by (rewrite (@g_csize _ _ vol G); pose proof (@g_spc _ _ vol G); lia).
      rewrite u64_small by (unfold is_u64, W64; lia). rewrite Z.div_small by lia. change (u32 0) with 0. lia. }
    rewrite (proj2 (Z.gtb_lt _ _)) in HN by lia.
    assert (keeps al a a') as Hk by (intros h l c Hl Hc; apply Hcl; left; by apply (Hnz h l)).
    assert (agree al dirs a a') as Ha by (split; [intros; by rewrite Hfat|intros h l c _; by apply Hk]).
    apply HN; [lia|done|done|by apply (wf_agree vol x a)|intros d t; by apply (agree_find vol x al dirs rank)|done].
Qed.

(** ** The other files *)

Lemma bytes_of_ext a a' l : (∀ c, c ∈ l → cl a' c = cl a c) → bytes_of a' l = bytes_of a l.
Proof.
  intros E. unfold bytes_of. f_equal. apply list_fmap_ext. intros i c Hc. f_equal. apply E. by apply list_elem_of_lookup_2 in Hc.
Qed.

(** The cluster of a slot is in no chain of a file. *)
Lemma slot_not_file x a al dirs rank d p h l : wf_but x a al dirs rank → slot al dirs d p → al !! h = Some l → h ∉ dirs → p.1.1 ∉ l.
Proof.
  intros Hw (Hd & l' & Hl' & Hp) Hl Hh Hc. destruct p as [[c s] e]. apply elem_of_locs in Hp as (Hc' & _).
  apply Hh. by rewrite <- (wf_disj _ _ _ _ _ _ Hw d h l' l c).
Qed.

Section other.
Context (a a' : fatfs) (al al' : gmap Z (list Z)) (dirs : gset Z) (rank : Z → nat) (d : Z) (p : loc) (de : list Z).
Context (Hw : wf a al dirs rank) (Hp : slot al dirs d p).

(** All but the file at [p] keep their chains and contents. *)
Lemma other_content d' q :
  (∀ h l, al !! h = Some l → h ∉ dirs → h = de_cluster (at_loc a q) → al' !! h = Some l ∧ ∀ c, c ∈ l → cl a' c = cl a c) →
  file_slot a al dirs d' q → content (put_loc p de a') al' (at_loc a q) = content a al (at_loc a q).
Proof. clear fuel Hfuel.
  intros Hk Hq. unfold content. destruct (_ || _) eqn:Ez; [done|].
  destruct (wf_file _ _ _ _ _ _ Hw d' q Hq) as [|(l & Hl & Hnd & _)]; [done|lia|].
  destruct (Hk _ l Hl Hnd eq_refl) as [-> Hc]. rewrite Hl. f_equal.
  rewrite (bytes_of_ext a' (put_loc p de a')); [by apply bytes_of_ext|]. intros c Hin. apply put_loc_cl.
  intros ->. by apply (slot_not_file None a al dirs rank d p _ l Hw Hp Hl Hnd).
Qed.
End other.

Lemma without_other al h h' l : al !! h' = Some l → h' ≠ h → without al h !! h' = Some l.
Proof. intros Hl Hne. unfold without. destruct (h >=? 2); [by rewrite lookup_delete_ne|done]. Qed.

Lemma without_sub al h h' l : without al h !! h' = Some l → al !! h' = Some l.
Proof. unfold without. destruct (h >=? 2); [by intros [_ ?]%lookup_delete_Some|done]. Qed.

Lemma slot_without a al dirs rank d p d' q : wf a al dirs rank → file_slot a al dirs d p →
  slot (without al (de_cluster (at_loc a p))) dirs d' q ↔ slot al dirs d' q.
Proof. clear fuel Hfuel.
  intros Hw Hp. unfold Fat32Dir.slot. split; intros (Hd & l & Hl & Hq); (split; [done|]; exists l; split; [|done]).
  - by apply without_sub in Hl.
  - apply without_other; [done|]. intros ->. destruct (wf_file _ _ _ _ _ _ Hw d p Hp) as [Hlt|(_ & _ & Hn & _)]; [done| |done].
    destruct (dir_valid _ _ _ _ _ _ _ _ Hw Hl) as [Hv _]. unfold Fat32Entry.valid in Hv. lia.
Qed.

Lemma result_inj a q q' : result_at a q = result_at a q' → q = q'.
Proof. destruct q as [[c s] e], q' as [[c' s'] e']. cbn. by intros [= -> -> ->]. Qed.

Lemma entry_result a p : entry (result_at a p) = at_loc a p.
Proof. by destruct p as [[? ?] ?]. Qed.

Lemma result_at_ext a a' p : at_loc a' p = at_loc a p → result_at a' p = result_at a p.
Proof. destruct p as [[c s] e]. cbn. by intros ->. Qed.

(** ** Unlinking *)

Lemma deleted_invisible de : entry_ok de → visible (mark_deleted de) = false ∧ plain_entry (mark_deleted de) ∧ ¬ blank_entry (mark_deleted de).
Proof.
  intros Hde. unfold visible, plain_entry, is_free_entry, blank_entry. rewrite mark_deleted_first by done. split_and!; [done|by left|done].
Qed.

Lemma ended_put a al dirs rank d p de l x :
  sized vol a → wf_but x a al dirs rank → slot al dirs d p → al !! d = Some l → entry_ok de →
  (blank_entry de ↔ blank_entry (at_loc a p)) → ended (put_loc p de a) (locs l).
Proof.
  intros Hz Hw Hp Hl Hde Hb. destruct Hp as (Hd & l' & Hl' & Hin). assert (l' = l) as -> by congruence.
  apply (ended_ext vol a); [|by apply (wf_list _ _ _ _ _ _ Hw d l)]. intros q Hq.
  assert (∀ q, q ∈ locs l → in_range vol q) as Hr.
  { intros q' Hq'. apply (slot_range vol x a al dirs rank d); [done|]. split; [done|by exists l]. }
  rewrite (at_put_loc vol) by (auto || apply Hde). case_bool_decide as E; [by rewrite E|done].
Qed.

Lemma wp_unlink a al dirs rank path d p (Q : bool * fat32_volume → fatfs → Prop) :
  wf a al dirs rank → mounted vol = true → (rank (root_cluster vol) < fuel)%nat →
  resolve a al dirs path = Some (result_at a p) → file_slot a al dirs d p →
  (∀ a' al' files, wf a' al' dirs rank →
     (∀ path', file_at a' al' dirs path' = if bool_decide (resolve a al dirs path' = resolve a al dirs path) then None else file_at a al dirs path') →
     room vol a' = (room vol a + held al (de_cluster (at_loc a p)))%nat → Q (true, with_cached files vol) a') →
  wp (fat32_unlink_file fuel junk vol (Some path)) a Q.
Proof.
  intros Hw Hm Hrk Hres Hp HQ. apply (wp_sized vol). intros Hz. unfold fat32_unlink_file. rewrite Hm. cbn [negb].
  apply wp_bind, (wp_lookup_path vol fuel Hfuel junk None a al dirs rank); [done|]. rewrite Hres, entry_result.
  rewrite (proj2 (proj2 Hp)). apply wp_bind, (wp_release d p a al dirs rank); [done|done|]. intros a1 Hw1 Hf1 Hcl1 Hroom1.
  set (al1 := without al (de_cluster (at_loc a p))) in *.
  assert (at_loc a1 p = at_loc a p) as Eat by (apply at_loc_cl, Hcl1).
  assert (sized vol a1) as Hz1 by (intros c Hc; rewrite Hcl1; by apply Hz).
  assert (in_range vol p) as Hr by (by apply (slot_range vol _ _ _ _ _ _ _ Hw (proj1 Hp))).
  pose proof (at_loc_ok a p Hz Hr) as Hok. destruct (deleted_invisible _ Hok) as (Hinv & Hpl & Hnb).
  assert (slot al1 dirs d p) as Hp1 by (apply (slot_without a al dirs rank d); [done|done|apply Hp]).
  apply wp_bind. unfold result_at at 1.
  apply (wp_update_entry vol p mark_deleted (at_loc a p)); [done|rewrite Eat; by apply mark_deleted_full|]. rewrite Eat.
  set (a2 := put_loc p (mark_deleted (at_loc a p)) a1).
  assert (wf a2 al1 dirs rank) as Hw2.
  { pose proof Hp1 as (_ & l & Hl & _).
    apply (wf_put vol a1 al1 dirs rank d p _ Hz1 Hw1 Hp1 (mark_deleted_full _ Hok) l Hl Hpl); try (by rewrite Hinv).
    apply (ended_put a1 al1 dirs rank d p _ l (Some p)); try done; [by apply mark_deleted_full|]. rewrite Eat. split; [done|].
    intros Hb. destruct Hp as (_ & Hv & _). unfold visible in Hv. by rewrite Hb in Hv. }
  apply (wp_finish vol fuel Hfuel a2 al1 dirs rank); [done|done|]. intros files. apply (HQ a2 al1); [done| |unfold a2; by rewrite room_put]. intros q.
  assert (resolve a2 al1 dirs q = match resolve a al dirs q with
            Some r => if bool_decide (r = result_at a p) then None else Some r | None => None end) as Er.
  { apply resolve_remove; [unfold is_file; rewrite entry_result; apply Hp|]. intros d' t. unfold a2.
    rewrite (find_put vol a1 al1 dirs rank d p _ Hz1 Hw1 Hp1 (mark_deleted_full _ Hok)) by done. unfold hit at 1. rewrite Hinv, andb_false_r, Hf1.
    by rewrite (result_at_ext a a1 p Eat). }
  unfold file_at. rewrite Er, Hres. destruct (resolve a al dirs q) as [r|] eqn:Eq; [|by rewrite bool_decide_false].
  destruct (decide (r = result_at a p)) as [->|Hne]; [by rewrite !bool_decide_true|].
  rewrite (bool_decide_false (r = _)), (bool_decide_false (Some r = _)) by congruence.
  destruct (is_directory (entry r)) eqn:Edir; [done|]. f_equal.
  destruct (resolve_file None a al dirs rank q r Hw Eq Edir) as (d' & p' & Hp' & -> & Ee). rewrite Ee.
  apply (other_content a a1 al al1 dirs rank d p _ Hw (proj1 Hp) d' p'); [|done]. intros h l Hl Hnd ->. split; [|intros c' _; apply Hcl1].
  destruct (decide (de_cluster (at_loc a p') = de_cluster (at_loc a p))) as [E|]; [|by apply without_other].
  exfalso. apply Hne. f_equal. apply (wf_own _ _ _ _ _ _ Hw d' d); try done.
  destruct (dir_valid _ _ _ _ _ _ _ _ Hw Hl) as [Hv _]. unfold Fat32Entry.valid in Hv. lia.
Qed.

(** ** Overwriting *)

(** The entry of a file with new data. *)
Definition new_data (start : Z) (data : list Z) (de : list Z) : list Z := set_size (Z.of_nat (length data)) (set_cluster start de).

Lemma new_data_fields start data de : entry_ok de → 0 ≤ start < 4294967296 → Z.of_nat (length data) < 4294967296 →
  entry_ok (new_data start data de) ∧ de_cluster (new_data start data de) = start ∧ de_size (new_data start data de) = Z.of_nat (length data) ∧
  de_first (new_data start data de) = de_first de ∧ de_attr (new_data start data de) = de_attr de ∧ sfn_name (new_data start data de) = sfn_name de.
Proof. clear fuel Hfuel.
  intros Hde Hs Hd. unfold new_data. pose proof (set_cluster_full de Hde start) as Hc.
  destruct (set_size_other _ Hc (Z.of_nat (length data))) as (En & Ef & Ea & Ec).
  destruct (set_cluster_other de Hde start) as (En' & Ef' & Ea' & _). split_and!.
  - by apply set_size_full.
  - by rewrite Ec, set_cluster_cluster.
  - apply set_size_size; [done|lia].
  - by rewrite Ef, Ef'.
  - by rewrite Ea, Ea'.
  - unfold sfn_name. by rewrite En, En'.
Qed.

Lemma visible_fields de de' : de_first de' = de_first de → de_attr de' = de_attr de → visible de' = visible de ∧ is_directory de' = is_directory de.
Proof. intros E1 E2. unfold visible, is_directory. by rewrite E1, E2. Qed.

Lemma stored_start a al al' dirs start data : stored a al al' dirs start data → 0 ≤ start < 4294967296.
Proof. clear fuel Hfuel. intros [(_ & -> & _)|(l & _ & ? & _)]; lia. Qed.

Lemma stored_chain a al al' dirs start data h l : stored a al al' dirs start data → al !! h = Some l → al' !! h = Some l.
Proof.
  intros [(_ & _ & ->)|(l' & -> & _ & Hn & _)] Hl; [done|]. rewrite lookup_insert_ne; [done|]. congruence.
Qed.

(** The new entry of the file is consistent, and reads as the data. *)
Lemma stored_file a al al' dirs start data de :
  stored a al al' dirs start data → de_cluster de = start → de_size de = Z.of_nat (length data) → file_ok vol al' dirs de.
Proof. clear fuel Hfuel.
  intros [(-> & -> & ->)|(l & -> & Hs & Hn & Hnd & Hlen & _)] Ec Es; [left; lia|]. right. exists l.
  rewrite Ec, Es, lookup_insert_eq. done.
Qed.

Lemma stored_content a a' al al' dirs start data de :
  stored a al al' dirs start data → de_cluster de = start → de_size de = Z.of_nat (length data) →
  (∀ l c, al' !! start = Some l → c ∈ l → cl a' c = cl a c) → content a' al' de = data.
Proof. clear fuel Hfuel.
  intros Hs Ec Es Hk. unfold content. rewrite Ec, Es. destruct Hs as [(-> & -> & ->)|(l & -> & Hst & Hn & Hnd & Hlen & Ht)]; [done|].
  rewrite lookup_insert_eq in Hk. rewrite lookup_insert_eq, (proj2 (Z.ltb_ge start 2)), orb_false_r by lia.
  destruct (Z.eqb_spec (Z.of_nat (length data)) 0) as [E|]; [destruct data; [done|cbn in E; lia]|].
  rewrite (bytes_of_ext a a') by (intros; by apply (Hk l)). by rewrite Nat2Z.id.
Qed.

Lemma slot_stored a al al' dirs start data d p : stored a al al' dirs start data → (∀ d, d ∈ dirs → is_Some (al !! d)) →
  slot al' dirs d p ↔ slot al dirs d p.
Proof.
  intros Hs Hd. unfold Fat32Dir.slot. split; intros (Hin & l & Hl & Hp); (split; [done|]; exists l; split; [|done]).
  - destruct (Hd d Hin) as [l' Hl']. rewrite (stored_chain _ _ _ _ _ _ _ _ Hs Hl') in Hl. congruence.
  - by apply (stored_chain _ _ _ _ _ _ _ _ Hs).
Qed.

Lemma keeps_at al dirs a a' d q : keeps al a a' → slot al dirs d q → at_loc a' q = at_loc a q.
Proof.
  intros Hk (_ & l & Hl & Hin). apply at_loc_cl. destruct q as [[c s] e]. apply elem_of_locs in Hin as (Hc & _). by apply (Hk d l).
Qed.

(** [a1] has the old chain of the file at [p] released, [a2] the data stored. *)
Section overwritten.
Context (a a1 a2 : fatfs) (al al2 : gmap Z (list Z)) (dirs : gset Z) (rank : Z → nat) (d : Z) (p : loc) (start : Z) (data : list Z).
Let al1 := without al (de_cluster (at_loc a p)).
Let de := new_data start data (at_loc a p).
Let a3 := put_loc p de a2.
Context (Hz : sized vol a) (Hz2 : sized vol a2) (Hlen : Z.of_nat (length data) < 4294967296).
Context (Hw : wf a al dirs rank) (Hw1 : wf_but (Some p) a1 al1 dirs rank) (Hw2 : wf_but (Some p) a2 al2 dirs rank).
Context (Hp : file_slot a al dirs d p) (Hcl1 : ∀ c, cl a1 c = cl a c) (Hk2 : keeps al1 a1 a2) (Hst : stored a2 al1 al2 dirs start data).
Context (Hf1 : ∀ d t, find_in a1 al1 dirs d t = find_in a al dirs d t) (Hf2 : ∀ d t, find_in a2 al2 dirs d t = find_in a1 al1 dirs d t).

Lemma over_slot d' q : slot al2 dirs d' q ↔ slot al1 dirs d' q.
Proof. by apply (slot_stored _ _ _ _ _ _ _ _ Hst (wf_dirs _ _ _ _ _ _ Hw1)). Qed.

Lemma over_slot_p : slot al2 dirs d p.
Proof. apply over_slot. apply (slot_without a al dirs rank d); [done|done|apply Hp]. Qed.

Lemma over_at d' q : slot al1 dirs d' q → at_loc a2 q = at_loc a q.
Proof. intros Hq. transitivity (at_loc a1 q); [by apply (keeps_at al1 dirs a1 a2 d')|apply at_loc_cl, Hcl1]. Qed.

Lemma over_at_p : at_loc a2 p = at_loc a p.
Proof. apply (over_at d), over_slot, over_slot_p. Qed.

Lemma over_range : in_range vol p.
Proof. by apply (slot_range vol _ _ _ _ _ _ _ Hw (proj1 Hp)). Qed.

Lemma over_entry : entry_ok de ∧ de_cluster de = start ∧ de_size de = Z.of_nat (length data) ∧ de_first de = de_first (at_loc a p) ∧
  de_attr de ≠ FAT_ATTR_LFN ∧ visible de = true ∧ is_directory de = false ∧ sfn_name de = sfn_name (at_loc a p).
Proof.
  pose proof (at_loc_ok a p Hz over_range) as Hok. pose proof (stored_start _ _ _ _ _ _ Hst) as Hs0.
  destruct (new_data_fields start data (at_loc a p) Hok Hs0 Hlen) as (Hnok & Enc & Ens & Enf & Ena & Enn).
  destruct (visible_fields _ _ Enf Ena) as [Env End]. destruct Hp as (_ & Hv & Hd). unfold de. rewrite Env, End. split_and!; try done.
  intros E. rewrite Ena in E. unfold visible in Hv. rewrite E in Hv. by rewrite andb_false_r in Hv.
Qed.

(** No other file has the new chain. *)
Lemma over_own d' q : file_slot a2 al2 dirs d' q → q ≠ p → de_cluster (at_loc a2 q) = start → start < 2.
Proof.
  clear fuel Hfuel. intros (Hq & Hv & Hd) Hne E. destruct (decide (start < 2)) as [|Hge]; [done|]. exfalso. apply over_slot in Hq.
  rewrite (keeps_at al1 dirs a1 a2 d' q Hk2 Hq) in *. destruct (wf_file _ _ _ _ _ _ Hw1 d' q) as [|(l & Hl & _)]; [by split|congruence|lia|].
  destruct Hst as [(_ & -> & _)|(l' & _ & _ & Hn & _)]; [lia|]. congruence.
Qed.

Lemma over_wf : wf a3 al2 dirs rank.
Proof.
  pose proof over_slot_p as Hp2. destruct over_entry as (Hnok & Enc & Ens & Enf & Ena & Env & End & Enn). pose proof over_at_p as Eat.
  pose proof Hp2 as (_ & l & Hl & _). apply (wf_put vol a2 al2 dirs rank d p de Hz2 Hw2 Hp2 Hnok l Hl).
  - by right.
  - apply (ended_put a2 al2 dirs rank d p de l (Some p)); try done. rewrite Eat. unfold blank_entry. by rewrite Enf.
  - intros _ q Hq Hne Hv. rewrite Enn. destruct (same_name _ _) eqn:E; [|done]. exfalso. apply Hne. symmetry. rewrite <- Eat in E.
    apply (wf_names _ _ _ _ _ _ Hw2 d p q); try done. rewrite Eat. apply Hp.
  - by rewrite End.
  - intros _ _. split; [by apply (stored_file a2 al1 al2 dirs start data)|]. rewrite Enc. apply over_own.
Qed.

(** Lookups find the entry with the new data where they found the old one. *)
Lemma over_find d' t : find_in a3 al2 dirs d' t = (λ r, if bool_decide (r = result_at a p) then result_at a3 p else r) <$> find_in a al dirs d' t.
Proof.
  destruct over_entry as (Hnok & _ & _ & _ & _ & Env & _ & Enn). pose proof Hp as (Hps & Hpv & _).
  unfold a3. rewrite (find_put vol a2 al2 dirs rank d p de Hz2 Hw2 over_slot_p Hnok d' t over_wf).
  rewrite Hf2, Hf1, (result_at_ext a a2 p over_at_p). unfold hit at 1. rewrite Env, Enn. cbn [andb].
  destruct (find_in a al dirs d' t) as [r|] eqn:Ef.
  - pose proof Ef as (p' & Hp' & Hh & ->)%(find_in_Some vol None a al dirs rank); [|done]. cbn. destruct (decide (p' = p)) as [->|Hne'].
    + rewrite (slot_unique vol _ _ _ _ _ _ _ _ Hw Hp' Hps). unfold hit in Hh. apply andb_true_iff in Hh as [_ Hh].
      by rewrite Hh, !bool_decide_true.
    + rewrite (bool_decide_false (result_at a p' = _)) by (by intros ?%result_inj).
      destruct (bool_decide (d' = d)) eqn:Ed; [|done]. cbn [andb]. apply bool_decide_eq_true in Ed as ->.
      destruct (same_name (sfn_name (at_loc a p)) t) eqn:Et; [|done]. exfalso. apply Hne'.
      unfold hit in Hh. apply andb_true_iff in Hh as [Hv' Hn']. apply (wf_names _ _ _ _ _ _ Hw d); try done.
      apply same_name_spec. apply same_name_spec in Et, Hn'. congruence.
  - cbn. destruct (bool_decide (d' = d)) eqn:Ed; [|done]. cbn [andb]. apply bool_decide_eq_true in Ed as ->.
    destruct (same_name (sfn_name (at_loc a p)) t) eqn:Et; [|done]. exfalso.
    assert (find_in a al dirs d t = Some (result_at a p)) as E; [|congruence].
    apply (find_in_Some vol None a al dirs rank); [done|]. exists p. split_and!; [done| |done]. unfold hit. by rewrite Hpv, Et.
Qed.

Lemma over_content : content a3 al2 de = data.
Proof.
  clear fuel Hfuel. destruct over_entry as (_ & Enc & Ens & _). apply (stored_content a2 a3 al1 al2 dirs start data); [done|done|done|].
  intros l c Hl Hc. apply put_loc_cl. intros ->. destruct Hst as [(_ & -> & _)|(l' & _ & _ & _ & Hnd & _)].
  - destruct (dir_valid _ _ _ _ _ _ _ _ Hw2 Hl) as [Hv _]. unfold Fat32Entry.valid in Hv. lia.
  - by apply (slot_not_file _ a2 al2 dirs rank d p start l Hw2 over_slot_p).
Qed.

Lemma over_other d' q : file_slot a al dirs d' q → q ≠ p → content a3 al2 (at_loc a q) = content a al (at_loc a q).
Proof.
  clear fuel Hfuel. intros Hq Hne. apply (other_content a a2 al al2 dirs rank d p de Hw (proj1 Hp) d' q); [|done]. intros h l Hl Hnd ->.
  assert (al1 !! de_cluster (at_loc a q) = Some l) as Hl1.
  { apply without_other; [done|]. intros E. apply Hne. apply (wf_own _ _ _ _ _ _ Hw d' d); try done.
    destruct (dir_valid _ _ _ _ _ _ _ _ Hw Hl) as [Hv _]. unfold Fat32Entry.valid in Hv. lia. }
  split; [by apply (stored_chain _ _ _ _ _ _ _ _ Hst)|]. intros c Hc. rewrite <- Hcl1. by apply (Hk2 (de_cluster (at_loc a q)) l).
Qed.

Lemma over_files path path' : resolve a al dirs path = Some (result_at a p) →
  file_at a3 al2 dirs path' = if bool_decide (resolve a al dirs path' = resolve a al dirs path) then Some data else file_at a al dirs path'.
Proof.
  intros Hres. destruct over_entry as (Hnok & _ & _ & _ & _ & _ & End & _). pose proof Hp as (_ & _ & Hpd).
  assert (at_loc a3 p = de) as E3 by (unfold a3; rewrite (at_put_loc vol), bool_decide_true by (done || apply over_range || apply Hnok); done).
  assert (resolve a3 al2 dirs path' = (λ r, if bool_decide (r = result_at a p) then result_at a3 p else r) <$> resolve a al dirs path') as Er.
  { apply resolve_update; [by unfold is_file; rewrite entry_result|by unfold is_file; rewrite entry_result, E3|apply over_find]. }
  unfold file_at. rewrite Er, Hres. destruct (resolve a al dirs path') as [r|] eqn:Eq; [|by rewrite bool_decide_false]. cbn.
  destruct (decide (r = result_at a p)) as [->|Hne].
  - rewrite !bool_decide_true, entry_result, E3, End by done. f_equal. apply over_content.
  - rewrite (bool_decide_false (r = _)), (bool_decide_false (Some r = _)) by congruence.
    destruct (is_directory (entry r)) eqn:Edir; [done|]. f_equal.
    destruct (resolve_file None a al dirs rank path' r Hw Eq Edir) as (d' & q & Hq & -> & ->).
    apply (over_other d'); [done|]. by intros ->.
Qed.
End overwritten.

Lemma wp_overwrite a al dirs rank path data d p (Q : bool * fat32_volume → fatfs → Prop) :
  wf a al dirs rank → mounted vol = true → (rank (root_cluster vol) < fuel)%nat →
  Forall is_u8 data → Z.of_nat (length data) < 4294967296 →
  resolve a al dirs path = Some (result_at a p) → file_slot a al dirs d p →
  clusters_for data ≤ Z.of_nat (room vol a + held al (de_cluster (at_loc a p))) →
  (∀ a' al' files, wf a' al' dirs rank →
     (∀ path', file_at a' al' dirs path' = if bool_decide (resolve a al dirs path' = resolve a al dirs path) then Some data else file_at a al dirs path') →
     (room vol a' + Z.to_nat (clusters_for data) = room vol a + held al (de_cluster (at_loc a p)))%nat →
     Q (true, with_cached files vol) a') →
  wp (fat32_write_file fuel ok junk vol (Some path) (Some data) (Z.of_nat (length data))) a Q.
Proof.
  intros Hw Hm Hrk Hdata Hlen Hres Hp Hroom HQ. apply (wp_sized vol). intros Hz. unfold fat32_write_file. rewrite Hm. cbn [negb].
  apply wp_bind, (wp_lookup_path vol fuel Hfuel junk None a al dirs rank); [done|]. rewrite Hres. unfold overwrite_file. rewrite entry_result.
  rewrite (proj2 (proj2 Hp)). apply wp_bind, (wp_release d p a al dirs rank); [done|done|]. intros a1 Hw1 Hf1 Hcl1 Hr1.
  apply wp_bind, (wp_store (Some p) a1 (without al (de_cluster (at_loc a p))) dirs rank data); [done|done|done| |intros; lia].
  intros a2 al2 start Hw2 _ Hf2 Hk2 Hst Hr2 _. apply (wp_sized vol). intros Hz2. apply wp_bind. unfold result_at at 1.
  assert (at_loc a2 p = at_loc a p) as Eat by (by apply (over_at_p a a1 a2 al al2 dirs rank d p start data)).
  apply (wp_update_entry vol p (new_data start data) (at_loc a p)); [by apply (over_range a al dirs rank d)|rewrite Eat; by apply (over_entry a a2 al al2 dirs rank d p)|].
  rewrite Eat. pose proof (over_wf a a1 a2 al al2 dirs rank d p start data Hz Hz2 Hlen Hw Hw1 Hw2 Hp Hcl1 Hk2 Hst) as Hw3.
  apply (wp_finish vol fuel Hfuel _ al2 dirs rank); [done|done|]. intros files. apply (HQ _ al2); [done| |rewrite room_put; lia]. intros path'.
  by apply (over_files a a1 a2 al al2 dirs rank d p).
Qed.

End files.

(** ** FAT32: new files

    Paths split into the directory and the name, and what [fat32_write_file] does
    for a path that names nothing yet: the file appears under its name, in a
    free slot or in a new cluster of the directory, or nothing changes. *)

(** ** Splitting a path *)

Lemma split_last_Some f s b e : split_last f s = Some (b, e) → ∃ c, s = b ++ c :: e ∧ f c = true ∧ Forall (λ x, f x = false) e.
Proof.
  revert b e. induction s as [|x s IH]; intros b e; cbn; [done|]. destruct (split_last f s) as [[b' e']|] eqn:E.
  - intros [= <- <-]. destruct (IH b' e' eq_refl) as (c & -> & ?). by exists c.
  - destruct (f x) eqn:Ex; [|done]. intros [= <- <-]. exists x. split_and!; [done|done|].
    clear IH Ex. induction s as [|y s IH]; [done|]. cbn in E. destruct (split_last f s) as [[? ?]|]; [done|]. destruct (f y) eqn:Ey; [done|].
    constructor; [done|by apply IH].
Qed.

Lemma split_last_no f s : split_last f s = None → Forall (λ x, f x = false) s.
Proof.
  induction s as [|x s IH]; cbn; [done|]. destruct (split_last f s) as [[? ?]|]; [done|]. destruct (f x) eqn:Ex; [done|].
  intros _. constructor; [done|by apply IH].
Qed.

Definition plain_name (s : list Z) : Prop := s ≠ [] ∧ Forall (λ x, is_sep x = false) s.

Lemma skip_plain s : plain_name s → skip_seps s = s.
Proof. intros [Hne Hs]. destruct s as [|x s]; [done|]. apply Forall_cons in Hs as [Hx _]. cbn. by rewrite Hx. Qed.

Lemma next_component_plain s : Forall (λ x, is_sep x = false) s → next_component s = (s, []).
Proof. induction 1 as [|x s Hx _ IH]; [done|]. cbn. by rewrite Hx, IH. Qed.

Lemma next_component_app s c e : is_sep c = true →
  next_component (s ++ c :: e) = ((next_component s).1, (next_component s).2 ++ c :: e).
Proof.
  intros Hc. induction s as [|x s IH]; cbn; [by rewrite Hc|]. destruct (is_sep x) eqn:Ex; [done|]. rewrite IH. by destruct (next_component s).
Qed.

Lemma skip_seps_app s c e : is_sep c = true → plain_name e →
  skip_seps (s ++ c :: e) = match skip_seps s with [] => e | r => r ++ c :: e end.
Proof.
  intros Hc He. induction s as [|x s IH]; cbn.
  - rewrite Hc. by apply skip_plain.
  - destruct (is_sep x); [done|]. done.
Qed.

Lemma length_skip_seps s : (length (skip_seps s) ≤ length s)%nat.
Proof. induction s as [|x s IH]; cbn; [done|]. destruct (is_sep x); cbn; lia. Qed.

Lemma length_next_component s : s ≠ [] → (length (skip_seps (next_component s).2) < length s)%nat.
Proof.
  destruct s as [|x s]; [done|]. intros _. cbn. destruct (is_sep x) eqn:Ex.
  - cbn. rewrite Ex. pose proof (length_skip_seps s). lia.
  - assert (length (next_component s).2 ≤ length s)%nat.
    { clear Ex. induction s as [|y s IH]; cbn; [done|]. destruct (is_sep y); cbn; [done|]. destruct (next_component s). cbn in *. lia. }
    destruct (next_component s) as [t r]. cbn in *. pose proof (length_skip_seps r). lia.
Qed.

Section create.
Context {S : Type} `{SectorCache S} (vol : fat32_volume) {G : geometry vol}.
Context (fuel : nat) (Hfuel : total_clusters vol < Z.of_nat fuel) (junk : fat32_lookup_result) (Hjunk : junk_ok junk).
Context (ok : nat → bool) `{!HeapWorks ok}.
Local Abbreviation wp := (wp vol).
Local Abbreviation valid := (valid vol).
Local Abbreviation chain := (chain vol).
Local Abbreviation locs := (locs vol).
Local Abbreviation wf := (wf vol).
Local Abbreviation slot := (slot vol).
Local Abbreviation file_slot := (file_slot vol).
Local Abbreviation find_in := (find_in vol).
Local Abbreviation resolve := (resolve vol junk).
Local Abbreviation walk := (walk vol).
Local Abbreviation file_at := (file_at vol junk).
Implicit Types a : fatfs.
Implicit Types al : gmap Z (list Z).
Implicit Types dirs : gset Z.
Implicit Types rank : Z → nat.

Section walks.
Context (find : Z → list Z → option fat32_lookup_result).

Lemma walk_fuel n m d path : path ≠ [] → (length path ≤ n)%nat → (length path ≤ m)%nat → walk find n d path = walk find m d path.
Proof. clear fuel Hfuel.
  revert m d path. induction n as [|n IH]; intros m d path Hne Hn Hm; [by destruct path; cbn in Hn; [|lia]|].
  destruct m as [|m]; [by destruct path; cbn in Hm; [|lia]|]. cbn [Fat32Dir.walk]. pose proof (length_next_component path Hne) as Hl.
  destruct (next_component path) as [t rest]. cbn in Hl. destruct (find d _) as [r|]; [|done].
  destruct (skip_seps rest) as [|x path'] eqn:E; [done|]. destruct (is_directory (entry r)); [|done]. apply IH; [done|lia|lia].
Qed.

Lemma walk_split n d path c name :
  path ≠ [] → is_sep c = true → plain_name name → (length (path ++ c :: name) ≤ n)%nat →
  walk find n d (path ++ c :: name) =
    match walk find n d path with
    | Some r => if is_directory (entry r) then find (next_dir vol (entry r)) (take (FAT32_MAX_PATH_LEN - 1) name) else None
    | None => None
    end.
Proof. clear fuel Hfuel.
  intros Hne Hc Hname. revert d path Hne. induction n as [|n IH]; intros d path Hne Hn; [rewrite length_app in Hn; cbn in Hn; lia|].
  cbn [Fat32Dir.walk]. rewrite next_component_app by done. pose proof (length_next_component path Hne) as Hl.
  destruct (next_component path) as [t rest]. cbn in Hl |- *. rewrite skip_seps_app by done.
  destruct (find d _) as [r|]; [|done]. rewrite length_app in Hn. cbn in Hn. destruct (skip_seps rest) as [|x path'] eqn:E.
  - destruct name as [|y name'] eqn:En; [by destruct Hname|]. rewrite <- En in *. destruct (is_directory (entry r)); cbn [negb]; [|done].
    destruct n as [|n]; [rewrite En in Hn; cbn in Hn; lia|]. cbn [Fat32Dir.walk]. rewrite next_component_plain by apply Hname.
    cbn [skip_seps]. by destruct (find _ _).
  - cbn. destruct (is_directory (entry r)); cbn [negb]; [|done]. apply (IH _ (x :: path')); [done|]. rewrite length_app. cbn in *. lia.
Qed.
End walks.

Lemma root_next : 0 ≤ root_cluster vol < 4294967296 → next_dir vol (entry (root_result junk vol)) = root_cluster vol.
Proof. clear fuel Hfuel.
  intros Hr. unfold next_dir, root_result. cbn [entry].
  pose proof (set_cluster_full (entry junk) Hjunk (root_cluster vol)) as H1.
  pose proof (set_attr_full _ H1 FAT_ATTR_DIRECTORY) as H2. destruct (set_size_other _ H2 0) as (_ & _ & _ & ->).
  assert (de_cluster (set_attr FAT_ATTR_DIRECTORY (set_cluster (root_cluster vol) (entry junk))) = root_cluster vol) as ->; [|by case_match; lia].
  rewrite <- (set_cluster_cluster (entry junk) Hjunk (root_cluster vol) Hr) at 2. unfold de_cluster, set_attr.
  destruct H1 as [Hl _]. by rewrite !u16_splice_other by (rewrite ?length_le_bytes; lia).
Qed.

Lemma resolve_split find pp c name :
  0 ≤ root_cluster vol < 4294967296 → pp ≠ [] → is_sep c = true → plain_name name →
  resolve_with vol junk find (pp ++ c :: name) =
    match resolve_with vol junk find pp with
    | Some r => if is_directory (entry r) then find (next_dir vol (entry r)) (take (FAT32_MAX_PATH_LEN - 1) name) else None
    | None => None
    end.
Proof. clear fuel Hfuel.
  intros Hroot Hne Hc Hname. destruct pp as [|x pp]; [done|]. unfold resolve_with at 1. cbn [app].
  change (x :: pp ++ c :: name) with ((x :: pp) ++ c :: name). rewrite skip_seps_app by done. unfold resolve_with.
  destruct (skip_seps (x :: pp)) as [|y path] eqn:E.
  - rewrite root_is_directory, root_next by done. destruct name as [|z name'] eqn:En; [by destruct Hname|]. rewrite <- En in *.
    rewrite En. cbn [length Fat32Dir.walk]. rewrite <- En, next_component_plain by apply Hname. cbn [skip_seps]. by destruct (find _ _).
  - cbn [app]. change (y :: path ++ c :: name) with ((y :: path) ++ c :: name).
    rewrite walk_split by done. rewrite (walk_fuel find _ (length (y :: path)) _ (y :: path)); [done|done|rewrite length_app; cbn; lia|done].
Qed.

Lemma resolve_plain find name : plain_name name →
  resolve_with vol junk find name = find (root_cluster vol) (take (FAT32_MAX_PATH_LEN - 1) name).
Proof.
  intros Hname. unfold resolve_with. destruct name as [|x name'] eqn:En; [by destruct Hname|]. rewrite <- En in *.
  rewrite skip_plain by done. rewrite En. cbn [length Fat32Dir.walk]. rewrite <- En, next_component_plain by apply Hname.
  cbn [skip_seps]. by destruct (find _ _).
Qed.

(** The directory and the name of a path. *)
Definition parent_dir a al dirs (path : list Z) : option (Z * list Z) :=
  match split_last is_sep path with
  | None => Some (root_cluster vol, path)
  | Some (pp, name) =>
      match resolve a al dirs (take (FAT32_MAX_PATH_LEN - 1) pp) with
      | Some r => if is_directory (entry r) then Some (next_dir vol (entry r), name) else None
      | None => None
      end
  end.

Lemma wp_parent_of a al dirs rank path (Q : option (Z * list Z) → fatfs → Prop) :
  wf a al dirs rank → Q (parent_dir a al dirs path) a → wp (parent_of fuel junk vol path) a Q.
Proof.
  intros Hw HQ. unfold parent_of, parent_dir in *. destruct (split_last is_sep path) as [[pp name]|]; [|by apply wp_ret].
  apply wp_bind, (wp_lookup_path vol fuel Hfuel junk None a al dirs rank); [done|]. apply wp_ret.
  destruct (resolve a al dirs _) as [r|]; [|done]. by destruct (is_directory (entry r)).
Qed.

(** A path is looked up by looking up the name in the directory. *)
Lemma parent_lookup (find : Z → list Z → option fat32_lookup_result) path d name :
  0 ≤ root_cluster vol < 4294967296 → (length path < FAT32_MAX_PATH_LEN)%nat → name ≠ [] →
  match split_last is_sep path with
  | None => (root_cluster vol, path) = (d, name)
  | Some (pp, nm) => nm = name ∧ ∃ r, resolve_with vol junk find pp = Some r ∧ is_directory (entry r) = true ∧ next_dir vol (entry r) = d
  end → resolve_with vol junk find path = find d name.
Proof. clear fuel Hfuel.
  intros Hroot Hlen Hne. destruct (split_last is_sep path) as [[pp nm]|] eqn:E.
  - intros (-> & r & Hr & Hdir & Hd). apply split_last_Some in E as (c & -> & Hc & Hplain).
    assert (pp ≠ []) as Hpp by (by intros ->). assert (plain_name name) as Hnm by (by split).
    rewrite resolve_split by done. rewrite Hr, Hdir, Hd, take_ge; [done|]. rewrite length_app in Hlen. cbn in Hlen. unfold FAT32_MAX_PATH_LEN in *. lia.
  - intros [= <- <-]. apply split_last_no in E. rewrite resolve_plain by done. rewrite take_ge; [done|]. unfold FAT32_MAX_PATH_LEN in *. lia.
Qed.

Lemma parent_dir_spec a al dirs path d name : (length path < FAT32_MAX_PATH_LEN)%nat → parent_dir a al dirs path = Some (d, name) →
  match split_last is_sep path with
  | None => (root_cluster vol, path) = (d, name)
  | Some (pp, nm) => nm = name ∧ ∃ r, resolve a al dirs pp = Some r ∧ is_directory (entry r) = true ∧ next_dir vol (entry r) = d
  end.
Proof. clear fuel Hfuel.
  intros Hlen. unfold parent_dir. destruct (split_last is_sep path) as [[pp nm]|] eqn:E; [|by intros [= <- <-]].
  apply split_last_Some in E as (c & -> & _). rewrite length_app in Hlen. cbn in Hlen. rewrite take_ge by (unfold FAT32_MAX_PATH_LEN in *; lia).
  destruct (resolve a al dirs pp) as [r|]; [|done]. destruct (is_directory (entry r)) eqn:Ed; [|done]. intros [= <- <-]. split; [done|]. by exists r.
Qed.

(** ** The new entry *)

Lemma short_name_chars name : short_name name → Forall is_u8 name ∧ name ≠ [] ∧ (length name ≤ 12)%nat.
Proof. clear fuel Hfuel.
  intros (base & ext & Hname & Hlb & Hle & Hb & He).
  assert (∀ s, Forall name_char s → Forall is_u8 s) as Hc by (intros s Hs; apply (Forall_impl _ _ _ Hs); unfold name_char, is_u8; lia).
  destruct Hname as [[-> ->]|[-> _]].
  - split_and!; [by apply Hc|by destruct base; [cbn in Hlb; lia|]|lia].
  - rewrite length_app. cbn. split_and!; [|by destruct base|lia]. apply Forall_app. split; [by apply Hc|]. constructor; [done|by apply Hc].
Qed.

Lemma new_entry_fields name start size : short_name name → 0 ≤ start < 4294967296 → 0 ≤ size < 4294967296 →
  let de := new_entry name FAT_ATTR_ARCHIVE start (u32 size) in
  entry_ok de ∧ visible de = true ∧ is_directory de = false ∧ plain_entry de ∧ ¬ blank_entry de ∧
  de_cluster de = start ∧ de_size de = size ∧ sfn_name de = to_upper <$> name.
Proof. clear fuel Hfuel.
  intros Hname Hs Hz. destruct (short_name_chars name Hname) as (Hu & _). destruct (format_generate name Hname) as (Hfmt & Hf0 & Hfe).
  pose proof (length_generate name) as Hlg. pose proof (generate_u8 name Hu) as Hug.
  unfold new_entry. set (gen := fat32_generate_83_name name) in *. set (d0 := splice (replicate 32 0) 0 gen).
  assert (d0 = gen ++ replicate 21 0) as E0 by (unfold d0, splice; rewrite Hlg; done).
  assert (entry_ok d0) as H0.
  { rewrite E0. split; [rewrite length_app, Hlg; done|]. apply Forall_app. split; [done|]. by apply Forall_replicate. }
  assert (de_name d0 = gen) as En by (unfold de_name; rewrite E0, take_app_length'; done).
  assert (de_first d0 = nth 0 gen 0) as Ef.
  { rewrite E0. clearbody gen. destruct gen as [|g gen]; [done|]. unfold de_first, u8_at, slice. change (Z.to_nat 0) with 0%nat. rewrite drop_0. cbn [app]. rewrite (firstn_cons 0), firstn_O. cbn. lia. }
  pose proof (set_attr_full d0 H0 FAT_ATTR_ARCHIVE) as H1. pose proof (set_cluster_full _ H1 start) as H2.
  pose proof (set_size_full _ H2 (u32 size)) as H3.
  destruct (set_size_other _ H2 (u32 size)) as (Esn & Esf & Esa & Esc), (set_cluster_other _ H1 start) as (Ecn & Ecf & Eca & _),
    (set_attr_other d0 H0 FAT_ATTR_ARCHIVE) as (Ean & Eaf).
  set (de := set_size _ _) in *. assert (de_attr de = FAT_ATTR_ARCHIVE) as Ea by (rewrite Esa, Eca; by apply set_attr_attr).
  assert (de_first de = nth 0 gen 0) as Ef' by (by rewrite Esf, Ecf, Eaf).
  split_and!; [done|..].
  - unfold visible. rewrite Ef', Ea. rewrite (proj2 (Z.eqb_neq _ 0)), (proj2 (Z.eqb_neq _ 0xe5)) by done. done.
  - unfold is_directory. by rewrite Ea.
  - right. by rewrite Ea.
  - unfold blank_entry. by rewrite Ef'.
  - rewrite Esc. by apply set_cluster_cluster.
  - unfold de. rewrite u32_small by (unfold is_u32; lia). by apply set_size_size.
  - unfold sfn_name. by rewrite Esn, Ecn, Ean, En.
Qed.

Lemma upper_upper (name : list Z) : to_upper <$> (to_upper <$> name) = to_upper <$> name.
Proof. rewrite <- list_fmap_compose. apply list_fmap_ext. intros. apply upper_idem. Qed.

Lemma hit_new de name t : visible de = true → sfn_name de = to_upper <$> name → hit t de = same_name name t.
Proof.
  intros Hv Hn. unfold hit. rewrite Hv, Hn. cbn [andb]. apply eq_true_iff_eq. by rewrite !same_name_spec, upper_upper.
Qed.

(** ** Putting it into the directory *)

Lemma free_invisible de : is_free_entry de = true → visible de = false.
Proof. unfold is_free_entry, visible. destruct (de_first de =? 0); [done|]. cbn. by intros ->. Qed.

Lemma create_entry a al dirs rank d l p de name :
  sized vol a → wf a al dirs rank → d ∈ dirs → al !! d = Some l → free_loc a (locs l) = Some p →
  entry_ok de → visible de = true → is_directory de = false → plain_entry de → ¬ blank_entry de → sfn_name de = to_upper <$> name →
  file_ok vol al dirs de → (∀ d' q, file_slot a al dirs d' q → de_cluster (at_loc a q) = de_cluster de → de_cluster de < 2) →
  find_in a al dirs d name = None →
  slot al dirs d p ∧ in_range vol p ∧ wf (put_loc p de a) al dirs rank ∧
  ∀ d' t, find_in (put_loc p de a) al dirs d' t =
    if bool_decide (d' = d) && same_name name t then Some (result_at (put_loc p de a) p) else find_in a al dirs d' t.
Proof.
  intros Hz Hw Hd Hl Hfree Hok Hv Hdir Hpl Hb Hsfn Hfile Hown Hnone.
  pose proof Hfree as [Hin Hfr]%find_some. apply list_elem_of_In in Hin. apply free_invisible in Hfr.
  assert (slot al dirs d p) as Hp by (split; [done|by exists l]).
  assert (in_range vol p) as Hr by (by apply (slot_range vol _ _ _ _ _ _ _ Hw Hp)).
  pose proof (wf_weaken vol (Some p) a al dirs rank Hw) as Hwp. split; [done|]. split; [done|].
  assert (wf (put_loc p de a) al dirs rank) as Hw'.
  { apply (wf_put vol a al dirs rank d p de Hz Hwp Hp Hok l Hl Hpl).
    - destruct (wf_chain _ _ _ _ _ _ Hw d l Hl) as (_ & Hn & _). destruct (wf_list _ _ _ _ _ _ Hw d l Hd Hl) as [_ He].
      apply (ended_put_free vol a _ p); [by apply NoDup_locs|done|done| |].
      + by rewrite (at_put_loc vol), bool_decide_true by (done || apply Hok).
      + intros q Hq Hne. rewrite (at_put_loc vol), bool_decide_false by (done || apply Hok || (apply (slot_range vol None a al dirs rank d q Hw); split; [done|by exists l])). done.
    - intros _ q Hq Hne Hvq. destruct (same_name _ _) eqn:E; [|done]. exfalso.
      assert (find_in a al dirs d name = Some (result_at a q)) as E'; [|congruence].
      apply (find_in_Some vol None a al dirs rank); [done|]. exists q. split_and!; [done| |done]. unfold hit. rewrite Hvq. cbn.
      apply same_name_spec. apply same_name_spec in E. by rewrite <- E, Hsfn, upper_upper.
    - by rewrite Hdir.
    - intros _ _. split; [done|]. intros d' q Hq _. by apply (Hown d' q). }
  split; [done|]. intros d' t. rewrite (find_put vol a al dirs rank d p de Hz Hwp Hp Hok d' t Hw'). rewrite (hit_new de name t) by done.
  destruct (bool_decide (d' = d) && same_name name t); [done|].
  destruct (find_in a al dirs d' t) as [r|] eqn:Er; [|done]. rewrite bool_decide_false; [done|]. intros ->.
  apply (find_in_Some vol None a al dirs rank) in Er as (q & _ & Hh & Eq); [|done]. apply result_inj in Eq as <-.
  unfold hit in Hh. by rewrite Hfr in Hh.
Qed.

(** ** Finders with one more entry *)

Section added.
Context (find find' : Z → list Z → option fat32_lookup_result) (d0 : Z) (name : list Z) (r1 : fat32_lookup_result).
Context (Hfile : is_file r1) (Hnone : ∀ t, same_name name t = true → find d0 t = None).
Context (Hf : ∀ d t, find' d t = if bool_decide (d = d0) && same_name name t then Some r1 else find d t).

Lemma find_added d t r : find d t = Some r → find' d t = Some r.
Proof.
  intros E. rewrite Hf. destruct (bool_decide (d = d0) && same_name name t) eqn:Eb; [|done].
  apply andb_true_iff in Eb as [->%bool_decide_eq_true Et]. by rewrite Hnone in E.
Qed.

Lemma walk_added n d path r : walk find n d path = Some r → walk find' n d path = Some r.
Proof.
  revert d path. induction n as [|n IH]; intros d path; cbn [Fat32Dir.walk]; [done|]. destruct (next_component path) as [t rest].
  destruct (find d _) as [r'|] eqn:E; [|done]. rewrite (find_added _ _ _ E). destruct (skip_seps rest); [done|].
  destruct (is_directory (entry r')); [apply IH|done].
Qed.

Lemma walk_added_inv n d path r : walk find' n d path = Some r → walk find n d path = Some r ∨ r = r1.
Proof.
  revert d path. induction n as [|n IH]; intros d path; cbn [Fat32Dir.walk]; [done|]. destruct (next_component path) as [t rest].
  rewrite Hf. destruct (bool_decide (d = d0) && _).
  - unfold is_file in Hfile. rewrite Hfile. cbn. destruct (skip_seps rest); [|done]. intros [= <-]. by right.
  - destruct (find d _) as [r'|]; [|done]. destruct (skip_seps rest); [by left|]. destruct (is_directory (entry r')); [apply IH|done].
Qed.

Lemma resolve_added path r : resolve_with vol junk find path = Some r → resolve_with vol junk find' path = Some r.
Proof. unfold resolve_with. destruct path; [done|]. destruct (skip_seps _); [done|]. apply walk_added. Qed.

Lemma resolve_added_inv path r : resolve_with vol junk find' path = Some r → resolve_with vol junk find path = Some r ∨ r = r1.
Proof. unfold resolve_with. destruct path; [done|]. destruct (skip_seps _); [by left|]. apply walk_added_inv. Qed.
End added.

(** ** What stays *)

Lemma walk_ext find find' n d path : (∀ d t, find' d t = find d t) → walk find' n d path = walk find n d path.
Proof.
  intros E. revert d path. induction n as [|n IH]; intros d path; cbn [Fat32Dir.walk]; [done|]. destruct (next_component path) as [t rest].
  rewrite E. destruct (find d _) as [r|]; [|done]. destruct (skip_seps rest); [done|]. by destruct (is_directory (entry r)); cbn; [apply IH|].
Qed.

Lemma resolve_ext find find' path : (∀ d t, find' d t = find d t) → resolve_with vol junk find' path = resolve_with vol junk find path.
Proof. intros E. unfold resolve_with. destruct path; [done|]. destruct (skip_seps _); [done|]. by apply walk_ext. Qed.

(** The chains of files and what they hold are kept. *)
Definition kept dirs al al' a a' : Prop :=
  ∀ h l, al !! h = Some l → h ∉ dirs → al' !! h = Some l ∧ ∀ c, c ∈ l → cl a' c = cl a c.

Lemma kept_trans dirs al1 al2 al3 a1 a2 a3 : kept dirs al1 al2 a1 a2 → kept dirs al2 al3 a2 a3 → kept dirs al1 al3 a1 a3.
Proof.
  intros H1 H2 h l Hl Hh. destruct (H1 h l Hl Hh) as [Hl2 E1]. destruct (H2 h l Hl2 Hh) as [Hl3 E2]. split; [done|].
  intros c Hc. by rewrite E2, E1.
Qed.

Lemma kept_keeps dirs al a a' : keeps al a a' → kept dirs al al a a'.
Proof. intros Hk h l Hl _. split; [done|]. intros c. by apply (Hk h). Qed.

Lemma kept_put a al dirs rank d p de : wf a al dirs rank → slot al dirs d p → kept dirs al al a (put_loc p de a).
Proof.
  intros Hw Hp h l Hl Hh. split; [done|]. intros c Hc. apply put_loc_cl. intros ->.
  by apply (slot_not_file vol None a al dirs rank d p h l Hw Hp Hl Hh).
Qed.

Lemma kept_stored a a' al al' dirs start data : keeps al a a' → stored vol a' al al' dirs start data → kept dirs al al' a a'.
Proof. intros Hk Hs h l Hl _. split; [by apply (stored_chain vol _ _ _ _ _ _ _ _ Hs)|]. intros c. by apply (Hk h). Qed.

Lemma kept_content dirs al al' a a' de : kept dirs al al' a a' → file_ok vol al dirs de → content a' al' de = content a al de.
Proof. clear fuel Hfuel.
  intros Hk Hde. unfold content. destruct (_ || _) eqn:Ez; [done|]. destruct Hde as [|(l & Hl & Hh & _)]; [lia|].
  destruct (Hk _ l Hl Hh) as [-> Hc]. rewrite Hl. f_equal. by apply bytes_of_ext.
Qed.

Lemma kept_file_at a a' al al' dirs rank path :
  wf a al dirs rank → (∀ d t, find_in a' al' dirs d t = find_in a al dirs d t) → kept dirs al al' a a' →
  file_at a' al' dirs path = file_at a al dirs path.
Proof.
  intros Hw Hf Hk. unfold Fat32Files.file_at, Fat32Dir.resolve. rewrite (resolve_ext (find_in a al dirs)) by done.
  destruct (resolve_with _ _ _ path) as [r|] eqn:Er; [|done]. destruct (is_directory (entry r)) eqn:Ed; [done|]. f_equal.
  destruct (resolve_file vol junk Hjunk None a al dirs rank path r Hw Er Ed) as (d & p & Hp & _ & ->).
  apply (kept_content dirs); [done|]. by apply (wf_file _ _ _ _ _ _ Hw d p Hp).
Qed.

(** No file has the new chain. *)
Lemma stored_own a a' al al' dirs rank start data d q :
  wf a al dirs rank → stored vol a' al al' dirs start data → keeps al a a' →
  file_slot a' al' dirs d q → de_cluster (at_loc a' q) = start → start < 2.
Proof. clear fuel Hfuel.
  intros Hw Hst Hk (Hq & Hv & Hd) E. destruct (decide (start < 2)) as [|Hge]; [done|]. exfalso.
  apply (slot_stored vol _ _ _ _ _ _ _ _ Hst (wf_dirs _ _ _ _ _ _ Hw)) in Hq. rewrite (keeps_at vol al dirs a a' d q Hk Hq) in *.
  destruct (wf_file _ _ _ _ _ _ Hw d q) as [|(l & Hl & _)]; [by split|done|lia|].
  destruct Hst as [(_ & -> & _)|(l' & _ & _ & Hn & _)]; [lia|]. congruence.
Qed.

(** The directory of a path. *)
Lemma resolve_dir a al dirs rank path r : 0 ≤ root_cluster vol < 4294967296 →
  wf a al dirs rank → resolve a al dirs path = Some r → is_directory (entry r) = true → next_dir vol (entry r) ∈ dirs.
Proof.
  intros Hroot Hw Hr Hdir. unfold Fat32Dir.resolve, resolve_with in Hr. destruct path as [|x path]; [done|].
  destruct (skip_seps (x :: path)); [injection Hr as <-; rewrite root_next by done; apply Hw|].
  apply walk_found in Hr as (d & t & E). apply (find_in_Some vol None a al dirs rank) in E as (p & Hp & Hh & ->); [|done].
  rewrite entry_result in *. unfold hit in Hh. apply andb_true_iff in Hh as [Hv _]. unfold next_dir.
  destruct (wf_sub _ _ _ _ _ _ Hw d p Hp Hv Hdir) as [->|[Hin _]]; [apply Hw|].
  destruct (Z.eqb_spec (de_cluster (at_loc a p)) 0); [apply Hw|done].
Qed.

Lemma parent_in_dirs a al dirs rank path d name : 0 ≤ root_cluster vol < 4294967296 →
  wf a al dirs rank → parent_dir a al dirs path = Some (d, name) → d ∈ dirs.
Proof.
  intros Hroot Hw. unfold parent_dir. destruct (split_last is_sep path) as [[pp nm]|]; [|intros [= <- _]; apply Hw].
  destruct (resolve a al dirs _) as [r|] eqn:Er; [|done]. destruct (is_directory (entry r)) eqn:Ed; [|done]. intros [= <- _].
  by apply (resolve_dir a al dirs rank _ r Hroot Hw Er).
Qed.

(** ** The entry of a new file *)

Record file_entry (name : list Z) (de : list Z) : Prop := {
  fe_ok : entry_ok de;
  fe_visible : visible de = true;
  fe_file : is_directory de = false;
  fe_plain : plain_entry de;
  fe_used : ¬ blank_entry de;
  fe_name : sfn_name de = to_upper <$> name;
}.

Lemma find_upper a al dirs d name t : same_name name t = true → find_in a al dirs d t = find_in a al dirs d name.
Proof.
  intros E%same_name_spec. unfold Fat32Dir.find_in. case_bool_decide; [|done]. destruct (al !! d) as [l|]; [|done]. f_equal.
  unfold find_loc. assert (∀ p, hit t (at_loc a p) = hit name (at_loc a p)) as Eh.
  { intros p. unfold hit. f_equal. apply eq_true_iff_eq. by rewrite !same_name_spec, E. }
  generalize (locs l). intros ps. induction ps as [|p ps IH]; [done|]. cbn. by rewrite Eh, IH.
Qed.

Section place.
Context (a a2 : fatfs) (al al2 : gmap Z (list Z)) (dirs : gset Z) (rank : Z → nat) (d : Z) (l : list Z) (p : loc) (de name path data : list Z).
Context (Hroot : 0 ≤ root_cluster vol < 4294967296) (Hw : wf a al dirs rank) (Hz2 : sized vol a2) (Hw2 : wf a2 al2 dirs rank).
Context (Hf2 : ∀ d t, find_in a2 al2 dirs d t = find_in a al dirs d t) (Hk2 : kept dirs al al2 a a2).
Context (Hd : d ∈ dirs) (Hl : al2 !! d = Some l) (Hp : free_loc a2 (locs l) = Some p).
Context (Hfe : file_entry name de) (Hok : file_ok vol al2 dirs de) (Hcontent : content a2 al2 de = data).
Context (Hown : ∀ d' q, file_slot a2 al2 dirs d' q → de_cluster (at_loc a2 q) = de_cluster de → de_cluster de < 2).
Context (Hlen : (length path < FAT32_MAX_PATH_LEN)%nat) (Hname : short_name name).
Context (Hpar : parent_dir a al dirs path = Some (d, name)) (Hnone : resolve a al dirs path = None).

Lemma name_unused : find_in a al dirs d name = None.
Proof.
  rewrite <- Hnone. symmetry. apply (parent_lookup _ path d name); [done|done|by apply short_name_chars|].
  by apply parent_dir_spec.
Qed.

Lemma place_entry : wf (put_loc p de a2) al2 dirs rank ∧ slot al2 dirs d p ∧ in_range vol p ∧
  ∀ d' t, find_in (put_loc p de a2) al2 dirs d' t =
    if bool_decide (d' = d) && same_name name t then Some (result_at (put_loc p de a2) p) else find_in a al dirs d' t.
Proof.
  destruct Hfe. destruct (create_entry a2 al2 dirs rank d l p de name) as (Hs & Hr & Hw3 & Hf3); try done.
  - rewrite Hf2. apply name_unused.
  - split_and!; try done. intros d' t. rewrite Hf3. by rewrite Hf2.
Qed.

(** The new file appears; every other path leads where it led. *)
Lemma place_files path' :
  file_at (put_loc p de a2) al2 dirs path' =
    if bool_decide (resolve (put_loc p de a2) al2 dirs path' = resolve (put_loc p de a2) al2 dirs path) then Some data
    else file_at a al dirs path'.
Proof.
  destruct place_entry as (Hw3 & Hs & Hr & Hf3). set (a3 := put_loc p de a2) in *.
  assert (at_loc a3 p = de) as Eat by (unfold a3; rewrite (at_put_loc vol), bool_decide_true by (done || apply Hfe); done).
  assert (entry (result_at a3 p) = de) as Ee by (by rewrite entry_result).
  assert (is_file (result_at a3 p)) as Hfile by (unfold is_file; rewrite Ee; apply Hfe).
  assert (∀ t, same_name name t = true → find_in a al dirs d t = None) as Hn.
  { intros t Et. rewrite (find_upper _ _ _ _ _ _ Et). apply name_unused. }
  assert (kept dirs al al2 a a3) as Hk3 by (apply (kept_trans dirs al al2 al2 a a2); [done|by apply (kept_put a2 al2 dirs rank d p)]).
  assert (resolve a3 al2 dirs path = Some (result_at a3 p)) as Epath.
  { unfold Fat32Dir.resolve. rewrite (parent_lookup _ path d name); [|done|done|by apply short_name_chars|].
    - rewrite Hf3, bool_decide_true by done. cbn. by rewrite (proj2 (same_name_spec name name)).
    - pose proof (parent_dir_spec a al dirs path d name Hlen Hpar) as Hps. destruct (split_last is_sep path) as [[pp nm]|]; [|done].
      destruct Hps as (-> & r & Hr' & Hdir). split; [done|]. exists r. split; [|done].
      by apply (resolve_added (find_in a al dirs) _ d name (result_at a3 p)). }
  rewrite Epath. unfold Fat32Files.file_at. destruct (resolve a3 al2 dirs path') as [r|] eqn:Er.
  - destruct (decide (r = result_at a3 p)) as [->|Hne].
    + rewrite bool_decide_true, Ee by done. rewrite (fe_file _ _ Hfe). f_equal. rewrite <- Hcontent.
      apply (kept_content dirs); [|done]. by apply (kept_put a2 al2 dirs rank d p).
    + rewrite bool_decide_false by congruence.
      destruct (resolve_added_inv (find_in a al dirs) _ d name (result_at a3 p) Hfile Hf3 path' r Er) as [Er'|]; [|done].
      unfold Fat32Dir.resolve. rewrite Er'. destruct (is_directory (entry r)) eqn:Ed; [done|]. f_equal.
      destruct (resolve_file vol junk Hjunk None a al dirs rank path' r Hw Er' Ed) as (d' & q & Hq & _ & ->).
      apply (kept_content dirs); [done|]. by apply (wf_file _ _ _ _ _ _ Hw d' q Hq).
  - rewrite bool_decide_false by done. destruct (resolve a al dirs path') as [r|] eqn:Er'; [|done].
    apply (resolve_added _ (find_in a3 al2 dirs) d name (result_at a3 p) Hn Hf3) in Er'. unfold Fat32Dir.resolve in Er. congruence.
Qed.
End place.

(** ** Growing the directory *)

Section grow.
Context (a a' : fatfs) (al : gmap Z (list Z)) (dirs : gset Z) (rank : Z → nat) (d : Z) (l : list Z) (y x : Z).
Context (Hz : sized vol a) (Hw : wf a al dirs rank) (Hd : d ∈ dirs) (Hl : al !! d = Some l) (Hy : last l = Some y).
Context (Hx : valid x) (Hx0 : fat a x = 0) (Hs : same a' (take_cluster vol y x a)) (Hfull : free_loc a (locs l) = None).

Lemma grow_split : ∃ l0, l = l0 ++ [y].
Proof. apply last_Some in Hy as [l0 ->]. by exists l0. Qed.

Lemma grow_wf : wf a' (<[d := l ++ [x]]> al) dirs rank ∧ sized vol a' ∧ free_loc a' (locs (l ++ [x])) = Some (x, 0, 0) ∧
  (∀ d' t, find_in a' (<[d := l ++ [x]]> al) dirs d' t = find_in a al dirs d' t) ∧ kept dirs al (<[d := l ++ [x]]> al) a a' ∧
  ∀ d' q, file_slot a' (<[d := l ++ [x]]> al) dirs d' q → file_slot a al dirs d' q ∧ at_loc a' q = at_loc a q.
Proof.
  destruct grow_split as [l0 ->]. split_and!.
  - by apply (wf_extend vol d l0 y x a).
  - intros c Hc. rewrite (ext_cl vol y x a a' Hs c). destruct (c =? x); [|by apply Hz]. unfold blank. rewrite length_replicate.
    split; [pose proof (@g_spc _ _ vol G); lia|]. apply Forall_replicate. split; [done|]. by apply Forall_replicate.
  - by apply (free_extend vol d l0 y x a a' al dirs rank).
  - intros d' t. by apply (find_extend vol d l0 y x a a' al dirs rank).
  - intros h l' Hl' Hh. split; [rewrite lookup_insert_ne; [done|by intros <-]|]. intros c Hc. rewrite (ext_cl vol y x a a' Hs c).
    rewrite (proj2 (Z.eqb_neq c x)); [done|]. by apply (ext_not_new vol x a al dirs rank Hw Hx0 h l').
  - intros d' q (Hq & Hv & Hdir). destruct (ext_visible vol d l0 y x a a' al dirs rank Hw Hd Hl Hx0 Hs d' q Hq Hv) as [Hq' E].
    rewrite E in *. done.
Qed.
End grow.

(** ** Creating a file *)

Lemma clusters_for_nonneg data : 0 ≤ clusters_for vol data.
Proof. unfold clusters_for, needed_clusters, u32. destruct (_ >? _); [|done]. by apply Z.mod_pos_bound. Qed.

Lemma stored_release a a1 a2 al al1 dirs rank start l :
  wf a al dirs rank → wf a1 al1 dirs rank → agree al dirs a a1 → keeps al a a1 → al1 = <[start := l]> al → al !! start = None →
  (∀ c, cl a2 c = cl a1 c) → (∀ c, fat a2 c = if bool_decide (c ∈ l) then 0 else fat a1 c) →
  wf a2 al dirs rank ∧ ∀ path, file_at a2 al dirs path = file_at a al dirs path.
Proof.
  intros Hw Hw1 Ha Hk -> Hn Hcl Hfat.
  assert (agree al dirs a a2) as Ha2.
  { split; [|intros h l' c Hh Hl' Hc; rewrite Hcl; by apply (ag_dir _ _ _ _ Ha h l')]. intros h l' c Hl' Hc. rewrite Hfat, bool_decide_false.
    - by apply (ag_fat _ _ _ _ Ha h l').
    - intros Hin. assert (h ≠ start) as Hne by congruence. apply Hne.
      apply (wf_disj _ _ _ _ _ _ Hw1 h start l' l c); [by rewrite lookup_insert_ne|apply lookup_insert_eq|done|done]. }
  assert (wf a2 al dirs rank) as Hw2 by (by apply (wf_agree vol None a)). split; [done|].
  intros path. apply (kept_file_at a a2 al al dirs rank); [done|intros d t; by apply (agree_find vol None al dirs rank)|].
  apply kept_keeps. intros h l' c Hl' Hc. rewrite Hcl. by apply (Hk h l').
Qed.

(** [a1] has the data of the new file stored, in the chain that starts at [start]. *)
Section created.
Context (a a1 : fatfs) (al al1 : gmap Z (list Z)) (dirs : gset Z) (rank : Z → nat) (d : Z) (l : list Z) (start : Z) (name path data : list Z).
Let de := new_entry name FAT_ATTR_ARCHIVE start (u32 (Z.of_nat (length data))).
Context (Hroot : 0 ≤ root_cluster vol < 4294967296) (Hdl : Z.of_nat (length data) < 4294967296).
Context (Hw : wf a al dirs rank) (Hz1 : sized vol a1) (Hw1 : wf a1 al1 dirs rank) (Ha1 : agree al dirs a a1) (Hk1 : keeps al a a1).
Context (Hf1 : ∀ d t, find_in a1 al1 dirs d t = find_in a al dirs d t) (Hst : stored vol a1 al al1 dirs start data).
Context (Hd : d ∈ dirs) (Hl : al1 !! d = Some l).
Context (Hlen : (length path < FAT32_MAX_PATH_LEN)%nat) (Hname : short_name name).
Context (Hpar : parent_dir a al dirs path = Some (d, name)) (Hnone : resolve a al dirs path = None).

Definition created a' al' : Prop := wf a' al' dirs rank ∧ ∀ path',
  file_at a' al' dirs path' = if bool_decide (resolve a' al' dirs path' = resolve a' al' dirs path) then Some data else file_at a al dirs path'.

Lemma new_file_entry : file_entry name de ∧ file_ok vol al1 dirs de ∧ content a1 al1 de = data ∧ de_cluster de = start.
Proof.
  clear fuel Hfuel Hroot Hlen. pose proof (stored_start vol _ _ _ _ _ _ Hst) as Hs0.
  destruct (new_entry_fields name start (Z.of_nat (length data)) Hname Hs0 ltac:(lia)) as (E1 & E2 & E3 & E4 & E5 & Ec & Es & En).
  split_and!; [by split|by apply (stored_file vol a1 al al1 dirs start data)|by apply (stored_content vol a1 a1 al al1 dirs start data)|done].
Qed.

Lemma created_here p : free_loc a1 (locs l) = Some p → created (put_loc p de a1) al1.
Proof.
  intros Hp. destruct new_file_entry as (Hfe & Hfok & Hcont & Ec). pose proof (kept_stored a a1 al al1 dirs start data Hk1 Hst) as Hkp.
  assert (∀ d' q, file_slot a1 al1 dirs d' q → de_cluster (at_loc a1 q) = de_cluster de → de_cluster de < 2) as Hown.
  { intros d' q Hq. rewrite Ec. by apply (stored_own a a1 al al1 dirs rank start data d' q). }
  split; [by apply (place_entry a a1 al al1 dirs rank d l p de name path)|].
  intros path'. by apply (place_files a a1 al al1 dirs rank d l p de name path data).
Qed.

Lemma created_grown x y a2 :
  free_loc a1 (locs l) = None → last l = Some y → valid x → fat a1 x = 0 → same a2 (take_cluster vol y x a1) →
  created (put_loc (x, 0, 0) de a2) (<[d := l ++ [x]]> al1).
Proof.
  intros Hfull Hy Hx Hx0 Hs. destruct new_file_entry as (Hfe & Hfok & Hcont & Ec).
  destruct (grow_wf a1 a2 al1 dirs rank d l y x Hz1 Hw1 Hd Hl Hy Hx Hx0 Hs Hfull) as (Hw2 & Hz2 & Hfree & Hf2 & Hk2 & Hold).
  set (al2 := <[d := l ++ [x]]> al1) in *.
  assert (kept dirs al al2 a a2) as Hkp by (apply (kept_trans dirs al al1 al2 a a1); [by apply (kept_stored a a1 al al1 dirs start data)|done]).
  assert (∀ d' t, find_in a2 al2 dirs d' t = find_in a al dirs d' t) as Hff by (intros d' t; by rewrite Hf2).
  assert (al2 !! d = Some (l ++ [x])) as Hl2 by (by apply lookup_insert_eq).
  assert (file_ok vol al2 dirs de) as Hfok2.
  { destruct Hfok as [|(l' & Hl' & Hnd & Hsz)]; [by left|]. right. exists l'. split_and!; try done. by apply (Hk2 _ l' Hl' Hnd). }
  assert (content a2 al2 de = data) as Hcont2 by (rewrite <- Hcont; by apply (kept_content dirs)).
  assert (∀ d' q, file_slot a2 al2 dirs d' q → de_cluster (at_loc a2 q) = de_cluster de → de_cluster de < 2) as Hown.
  { intros d' q Hq. destruct (Hold d' q Hq) as [Hq' ->]. rewrite Ec. by apply (stored_own a a1 al al1 dirs rank start data d' q). }
  split; [by apply (place_entry a a2 al al2 dirs rank d (l ++ [x]) (x, 0, 0) de name path)|].
  intros path'. by apply (place_files a a2 al al2 dirs rank d (l ++ [x]) (x, 0, 0) de name path data).
Qed.

(** Without a slot for the entry, the chain is given back. *)
Lemma wp_undo (Q : bool * fat32_volume → fatfs → Prop) :
  took a a1 al1 start →
  (∀ a', wf a' al dirs rank → (∀ path', file_at a' al dirs path' = file_at a al dirs path') → (∀ c, fat a' c = fat a c) → Q (false, vol) a') →
  wp (_ ← (if start =? 0 then mret tt else fat32_free_cluster_chain fuel vol start); mret (false, vol)) a1 Q.
Proof.
  clear Hroot Hlen Hdl de. intros Htook HF. apply wp_bind. pose proof Hst as [(_ & -> & E)|(l' & Eal & Hst0 & Hnew & _)].
  - apply wp_ret, wp_ret, HF; [by apply (wf_agree vol None a)| |].
    + intros path'. rewrite E in Hf1. apply (kept_file_at a a1 al al dirs rank); [done|done|by apply kept_keeps].
    + destruct Htook as [[_ ?]|(l' & Hl' & _)]; [done|]. destruct (wf_chain _ _ _ _ _ _ Hw1 0 l' Hl') as (Hc' & _ & Hne').
      destruct (chain_head vol _ _ _ Hc' Hne') as (_ & _ & Hv). unfold Fat32Entry.valid in Hv. lia.
  - rewrite (proj2 (Z.eqb_neq start 0)) by lia. assert (al1 !! start = Some l') as Hl' by (rewrite Eal; apply lookup_insert_eq).
    destruct (wf_chain _ _ _ _ _ _ Hw1 start l' Hl') as (Hc' & Hn' & _). pose proof (cluster_chain_length vol _ _ _ Hc' Hn').
    apply (wp_free_chain vol _ l'); [done|done|lia|]. intros a2 Hcl Hfat. apply wp_ret.
    destruct (stored_release a a1 a2 al al1 dirs rank start l') as [Hw2 Hfiles]; try done. apply HF; [done|done|].
    intros c. rewrite Hfat. destruct Htook as [[? _]|(l2 & Hl2 & Ht)]; [lia|]. rewrite Hl' in Hl2. injection Hl2 as <-.
    specialize (Ht c). by case_bool_decide.
Qed.
End created.

(** The directory takes one cluster more. *)
Lemma room_grown a a' d l x y :
  chain a d l → last l = Some y → valid x → fat a x = 0 → same a' (take_cluster vol y x a) →
  room vol a = Datatypes.S (room vol a').
Proof.
  clear fuel Hfuel. intros Hc Hy Hx Hx0 [Hf _]. unfold take_cluster in Hf.
  assert (y ∈ l) as Hyl by (by apply last_Some_elem_of). pose proof (chain_nonzero vol _ _ _ _ Hc Hyl) as Hy0.
  pose proof (chain_valid vol _ _ _ _ Hc Hyl) as Hyv. unfold Fat32Entry.valid in Hx, Hyv.
  assert (∀ c, fat a' c = if c =? y then x else if c =? x then FAT32_CLUSTER_END else fat a c) as Ef.
  { intros c. rewrite Hf. rewrite (proj2 (Z.geb_le y 2)) by lia. done. }
  apply (room_take vol a a' x); [done|done| |].
  - rewrite Ef, Z.eqb_refl. destruct (Z.eqb_spec x y) as [->|]; done.
  - intros c Hne _. rewrite Ef. destruct (Z.eqb_spec c y) as [->|]; [split; [lia|done]|]. by rewrite (proj2 (Z.eqb_neq c x)).
Qed.

Lemma wp_create a al dirs rank path data d name (Q : bool * fat32_volume → fatfs → Prop) :
  wf a al dirs rank → mounted vol = true → (rank (root_cluster vol) < fuel)%nat → 0 ≤ root_cluster vol < 4294967296 →
  Forall is_u8 data → Z.of_nat (length data) < 4294967296 → (length path < FAT32_MAX_PATH_LEN)%nat →
  resolve a al dirs path = None → parent_dir a al dirs path = Some (d, name) → short_name name →
  (∀ a' al' files grown, created a al dirs rank path data a' al' → (grown ≤ 1)%nat →
     (room vol a' + Z.to_nat (clusters_for vol data) + grown = room vol a)%nat → Q (true, with_cached files vol) a') →
  (∀ a', Z.of_nat (room vol a) ≤ clusters_for vol data → wf a' al dirs rank →
     (∀ path', file_at a' al dirs path' = file_at a al dirs path') → (∀ c, fat a' c = fat a c) → Q (false, vol) a') →
  wp (fat32_write_file fuel ok junk vol (Some path) (Some data) (Z.of_nat (length data))) a Q.
Proof.
  intros Hw Hm Hrk Hroot Hdata Hdl Hlen Hnone Hpar Hname HQ HF. unfold fat32_write_file. rewrite Hm. cbn [negb].
  apply wp_bind, (wp_lookup_path vol fuel Hfuel junk None a al dirs rank); [done|]. rewrite Hnone. unfold create_file.
  apply wp_bind, (wp_parent_of a al dirs rank); [done|]. rewrite Hpar. pose proof (parent_in_dirs a al dirs rank path d name Hroot Hw Hpar) as Hd.
  apply wp_bind, (wp_store vol fuel Hfuel ok None a al dirs rank data); [done|done|done| |].
  2: { intros a' Hlt Hfat Ha Hw' Hf Hk. apply wp_ret, HF; [lia|done| |done]. intros path'. apply (kept_file_at a a' al al dirs rank); [done|done|by apply kept_keeps]. }
  intros a1 al1 start Hw1 Ha1 Hf1 Hk1 Hst Hroom Htook. apply (wp_sized vol). intros Hz1. unfold fat32_add_dir_entry.
  destruct (new_file_entry a1 al al1 dirs start name data Hdl Hst Hname) as (Hfe & _).
  destruct (wf_dirs _ _ _ _ _ _ Hw1 d Hd) as [l Hl]. destruct (wf_chain _ _ _ _ _ _ Hw1 d l Hl) as (Hc & Hn & Hne).
  pose proof (cluster_chain_length vol _ _ _ Hc Hn) as Hll.
  apply wp_bind, (wp_add_in_chain vol _ fuel d l); [done|done|lia|apply Hfe|].
  destruct (free_loc a1 (locs l)) as [p|] eqn:Efree; [|destruct (free_cluster vol a1) as [x|] eqn:Ex]; cbn [negb].
  - destruct (created_here a a1 al al1 dirs rank d l start name path data) with (p := p) as [Hw2 Hfiles]; try done.
    apply (wp_finish vol fuel Hfuel _ al1 dirs rank); [done|done|]. intros files.
    apply (HQ _ al1 files 0%nat); [done|lia|rewrite (room_put vol); lia].
  - intros Hx Hx0 y a2 Hy Hs.
    destruct (created_grown a a1 al al1 dirs rank d l start name path data) with (x := x) (y := y) (a2 := a2) as [Hw2 Hfiles]; try done.
    apply (wp_finish vol fuel Hfuel _ (<[d := l ++ [x]]> al1) dirs rank); [done|done|]. intros files.
    pose proof (room_grown a1 a2 d l x y Hc Hy Hx Hx0 Hs).
    apply (HQ _ (<[d := l ++ [x]]> al1) files 1%nat); [done|lia|rewrite (room_put vol); lia].
  - apply free_cluster_None in Ex. apply (wp_undo a a1 al al1 dirs rank start data); try done.
    intros a' Hw' Hfiles Hfat. apply HF; [|done..]. pose proof (clusters_for_nonneg data). lia.
Qed.

End create.
