(* ===== verification/Fat32Spec.v ===== *)
(** * FAT32: what the operations promise

    A volume is good when its sectors hold a consistent tree ([wf]), it is
    mounted, and the fuel covers its chains and the depth of its directories.
    On a good volume every operation returns, the volume stays good, and the
    function from paths to contents changes only where it should. *)

From Stdlib Require Import ZArith Lia.
From stdpp Require Import gmap.
From S2P Require Import Prelude Interfaces Inet Bytes Fat32 Fat32Entry Fat32Chain Fat32Dir Fat32Files.
#[local] Open Scope Z_scope.

Section spec.
Context {S : Type} `{SectorCache S} (fuel : nat) (junk : fat32_lookup_result) (ok : nat → bool) `{!HeapWorks ok} (fresh : nat → list Z).

Record good_volume (vol : fat32_volume) (a : fatfs) (al : gmap Z (list Z)) (dirs : gset Z) (rank : Z → nat) (s : io (S := S)) : Prop := {
  gv_geometry : geometry vol;
  gv_holds : holds vol a (store s);
  gv_wf : wf vol a al dirs rank;
  gv_mounted : mounted vol = true;
  gv_fuel : total_clusters vol < Z.of_nat fuel;
  gv_depth : (rank (root_cluster vol) < fuel)%nat;
  gv_root : 0 ≤ root_cluster vol < 4294967296;
  gv_junk : junk_ok junk;
}.

(** The list of files that the driver caches is not part of it. *)
Lemma good_cached vol a al dirs rank s s' a' al' files :
  good_volume vol a al dirs rank s → holds vol a' (store s') → wf vol a' al' dirs rank →
  good_volume (with_cached files vol) a' al' dirs rank s'.
Proof.
  intros [[] _ _ Hm Hf Hd Hr Hj] [h1 h2 h3 h4] [w1 w2 w3 w4 w5 w6 w7 w8 w9]. split; [by split| | |exact Hm|exact Hf|exact Hd|exact Hr|exact Hj].
  - split; [exact h1|exact h2|exact h3|exact h4].
  - split; [exact w1|exact w2|exact w3|exact w4|exact w5|exact w6|exact w7|exact w8|exact w9].
Qed.

Implicit Types a : fatfs.
Implicit Types al : gmap Z (list Z).
Implicit Types dirs : gset Z.

(** C21: reading a path of a good volume returns the content of the file there, or
    nothing when the path names no file, and changes nothing.  The heap is
    assumed to have room for the file and a cluster buffer ([HeapWorks]); without
    it the call fails. *)
Theorem fat32_read_file_spec vol a al dirs rank s path :
  good_volume vol a al dirs rank s →
  ∃ s', fat32_read_file fuel ok fresh junk vol (Some path) s = Some (file_at vol junk a al dirs path, s') ∧
    good_volume vol a al dirs rank s'.
Proof.
  intros Hg. pose proof Hg as [G Hh Hw Hm Hf Hr Hroot Hj].
  destruct (wp_read_file vol fuel Hf junk Hj ok fresh a al dirs rank path
    (λ r a', r = file_at vol junk a al dirs path ∧ a' = a) Hw Hm (conj eq_refl eq_refl) s Hh) as (r & s' & a' & E & Hh' & -> & ->).
  exists s'. by split.
Qed.

(** C18: writing to a path that names a file replaces the content of that file, on
    every path that leads to it, and of no other, when the free clusters and the
    ones the file has are enough; the clusters of the old content are free again
    and the new content takes as many as it needs.  [HeapWorks] is assumed: when
    [kmalloc] fails the driver writes nothing and still returns true (see
    [write_without_memory]). *)
Theorem fat32_overwrite_spec vol a al dirs rank s path r data :
  good_volume vol a al dirs rank s → resolve vol junk a al dirs path = Some r → is_directory (entry r) = false →
  Forall is_u8 data → Z.of_nat (length data) < 4294967296 →
  clusters_for vol data ≤ Z.of_nat (room vol a + held al (de_cluster (entry r))) →
  ∃ s' a' al' files,
    fat32_write_file fuel ok junk vol (Some path) (Some data) (Z.of_nat (length data)) s = Some ((true, with_cached files vol), s') ∧
    good_volume (with_cached files vol) a' al' dirs rank s' ∧
    (room vol a' + Z.to_nat (clusters_for vol data) = room vol a + held al (de_cluster (entry r)))%nat ∧
    ∀ path', file_at vol junk a' al' dirs path' =
      if bool_decide (resolve vol junk a al dirs path' = resolve vol junk a al dirs path) then Some data else file_at vol junk a al dirs path'.
Proof.
  intros Hg Hres Hdir Hdata Hlen Hroom. pose proof Hg as [G Hh Hw Hm Hf Hr Hroot Hj].
  destruct (resolve_file vol junk Hj None a al dirs rank path r Hw Hres Hdir) as (d & p & Hp & -> & Ee). rewrite Ee in Hroom |- *.
  destruct (wp_overwrite vol fuel Hf junk Hj ok a al dirs rank path data d p
    (λ x a', ∃ al' files, x = (true, with_cached files vol) ∧ wf vol a' al' dirs rank ∧
      (room vol a' + Z.to_nat (clusters_for vol data) = room vol a + held al (de_cluster (at_loc a p)))%nat ∧
      ∀ path', file_at vol junk a' al' dirs path' =
      if bool_decide (resolve vol junk a al dirs path' = resolve vol junk a al dirs path) then Some data else file_at vol junk a al dirs path')
    Hw Hm Hr Hdata Hlen Hres Hp Hroom) with (s := s) as (x & s' & a' & E & Hh' & al' & files & -> & Hw' & Hroom' & Hfiles); [|done|].
  - intros a' al' files Hw' Hfiles Hroom'. by exists al', files.
  - exists s', a', al', files. split_and!; [done|by apply (good_cached vol a al dirs rank s)|done|done].
Qed.


(** C20: unlinking a file takes it away from every path that leads to it, and from
    no other, and its clusters are free again. *)
Theorem fat32_unlink_spec vol a al dirs rank s path r :
  good_volume vol a al dirs rank s → resolve vol junk a al dirs path = Some r → is_directory (entry r) = false →
  ∃ s' a' al' files,
    fat32_unlink_file fuel junk vol (Some path) s = Some ((true, with_cached files vol), s') ∧
    good_volume (with_cached files vol) a' al' dirs rank s' ∧
    room vol a' = (room vol a + held al (de_cluster (entry r)))%nat ∧
    ∀ path', file_at vol junk a' al' dirs path' =
      if bool_decide (resolve vol junk a al dirs path' = resolve vol junk a al dirs path) then None else file_at vol junk a al dirs path'.
Proof.
  intros Hg Hres Hdir. pose proof Hg as [G Hh Hw Hm Hf Hr Hroot Hj].
  destruct (resolve_file vol junk Hj None a al dirs rank path r Hw Hres Hdir) as (d & p & Hp & -> & Ee). rewrite Ee.
  destruct (wp_unlink vol fuel Hf junk Hj a al dirs rank path d p
    (λ x a', ∃ al' files, x = (true, with_cached files vol) ∧ wf vol a' al' dirs rank ∧
      room vol a' = (room vol a + held al (de_cluster (at_loc a p)))%nat ∧ ∀ path', file_at vol junk a' al' dirs path' =
      if bool_decide (resolve vol junk a al dirs path' = resolve vol junk a al dirs path) then None else file_at vol junk a al dirs path')
    Hw Hm Hr Hres Hp) with (s := s) as (x & s' & a' & E & Hh' & al' & files & -> & Hw' & Hroom' & Hfiles); [|done|].
  - intros a' al' files Hw' Hfiles Hroom'. by exists al', files.
  - exists s', a', al', files. split_and!; [done|by apply (good_cached vol a al dirs rank s)|done|done].
Qed.

End spec.
