(* ===== verification/Fat32Examples.v ===== *)
(** * FAT32: a volume of five clusters

    The theorems of Fat32Spec.v applied to it, and what the driver does outside
    their hypotheses. *)

From Stdlib Require Import ZArith Lia.
From stdpp Require Import gmap.
From S2P Require Import Prelude Interfaces BlockCache BlockCacheSpec Inet Bytes Fat32 Fat32Entry Fat32Chain Fat32Dir Fat32Files Fat32Spec.
#[local] Open Scope Z_scope.

#[local] Instance demo_cache : SectorCache (cache_world BlockCacheSpec.disk) := cached_sectors disk_sector disk_reliable.

Definition demo_vol : fat32_volume := volume_of 1 (Bpb 512 1 1 2 0 8 1 2).

(** The root directory has one file, A.TXT, with its data in cluster 3. *)
Definition demo_fat : list Z :=
  le_bytes 4 0x0ffffff8 ++ le_bytes 4 0x0fffffff ++ le_bytes 4 0x0fffffff ++ le_bytes 4 0x0fffffff ++ replicate 496 0.
Definition demo_name : list Z := [65; 46; 84; 88; 84].
Definition demo_entry : list Z := new_entry demo_name FAT_ATTR_ARCHIVE 3 5.
Definition demo_root : list Z := demo_entry ++ replicate 480 0.
Definition demo_data : list Z := [104; 101; 108; 108; 111].
Definition demo_cluster : list Z := demo_data ++ replicate 507 0.
Definition zeros : list Z := replicate 512 0.

Definition demo_sector (k : Z) : list Z :=
  if k <=? 2 then demo_fat else if k =? 3 then demo_root else if k =? 4 then demo_cluster else zeros.
Definition demo_disk : BlockCacheSpec.disk := list_to_map ((λ k, ((1, k), demo_sector k)) <$> seqZ 1 7).
Definition demo_world : cache_world BlockCacheSpec.disk := (block_cache_init (CacheWorld (g_cache disk_boot) demo_disk 0)).2.
Definition demo_state : io := IO demo_world 0.
Definition demo_junk : fat32_lookup_result := LookupResult 0 0 0 (replicate 32 0).
Definition demo_heap : nat → bool := λ _, true.

#[local] Instance demo_heap_works : HeapWorks demo_heap.
Proof. done. Qed.

(** What the volume holds. *)
Definition demo_fs : fatfs :=
  Fatfs (λ c, if (c =? 2) || (c =? 3) then FAT32_CLUSTER_END else 0) (λ c, [demo_sector (c + 1)]).
Definition demo_chains : gmap Z (list Z) := {[2 := [2]; 3 := [3]]}.
Definition demo_dirs : gset Z := {[2]}.
Definition demo_rank (d : Z) : nat := 0.

Lemma demo_valid c : valid demo_vol c → c = 2 ∨ c = 3 ∨ c = 4 ∨ c = 5 ∨ c = 6.
Proof. unfold valid. change (total_clusters demo_vol) with 5. lia. Qed.

Lemma demo_geometry : geometry demo_vol.
Proof.
  split; try (vm_compute; congruence); try (vm_compute; split; congruence).
  intros k. change (fat_start_lba demo_vol) with 1. change (_ + _) with 8. cbn. unfold disk_sector. lia.
Qed.

Lemma demo_world_spec : cache_inv disk_sector None demo_world ∧ ∀ d b, view demo_world d b = disk_read d b demo_disk.
Proof. exact (block_cache_init_inv disk_sector (CacheWorld (g_cache disk_boot) demo_disk 0) eq_refl). Qed.

Lemma u8_check l : forallb (λ x, (0 <=? x) && (x <? 256)) l = true → Forall is_u8 l.
Proof.
  intros E. apply Forall_forall. intros x Hx. rewrite forallb_forall in E. specialize (E x (proj1 (list_elem_of_In l x) Hx)). unfold is_u8. lia.
Qed.

Lemma demo_sector_ok k : sector_ok (demo_sector k).
Proof.
  unfold demo_sector. destruct (k <=? 2); [|destruct (k =? 3); [|destruct (k =? 4)]]; (split; [reflexivity|apply u8_check; vm_compute; reflexivity]).
Qed.

Lemma demo_read k : 1 ≤ k < 8 → view demo_world 1 k = Some (demo_sector k).
Proof.
  intros Hk. rewrite (proj2 demo_world_spec).
  assert (k = 1 ∨ k = 2 ∨ k = 3 ∨ k = 4 ∨ k = 5 ∨ k = 6 ∨ k = 7) as Hc by lia.
  destruct Hc as [-> |[-> |[-> |[-> |[-> |[-> | ->]]]]]]; vm_compute; reflexivity.
Qed.

Lemma demo_holds : holds demo_vol demo_fs (store demo_state).
Proof.
  split.
  - apply demo_world_spec.
  - intros c f Hc Hf. change (num_fats (bpb demo_vol)) with 2 in Hf. exists demo_fat.
    assert (fat_lba demo_vol f c = 1 + f) as ->.
    { assert (f = 0 ∨ f = 1) as [-> | ->] by lia; destruct (demo_valid c Hc) as [-> |[-> |[-> |[-> | ->]]]]; vm_compute; reflexivity. }
    split; [|split].
    + cbn [sc_view demo_cache]. change (store demo_state) with demo_world. change (dev demo_vol) with 1.
      assert (f = 0 ∨ f = 1) as [-> | ->] by lia; [exact (demo_read 1 ltac:(lia))|exact (demo_read 2 ltac:(lia))].
    + exact (demo_sector_ok 1).
    + intros _. destruct (demo_valid c Hc) as [-> |[-> |[-> |[-> | ->]]]]; vm_compute; reflexivity.
  - intros c _. reflexivity.
  - intros c s Hc Hs. change (sectors_per_cluster demo_vol) with 1 in Hs. assert (s = 0) as -> by lia.
    exists (demo_sector (c + 1)). split; [reflexivity|]. split; [apply demo_sector_ok|].
    destruct (demo_valid c Hc) as [-> |[-> |[-> |[-> | ->]]]];
      [exact (demo_read 3 ltac:(lia))|exact (demo_read 4 ltac:(lia))|exact (demo_read 5 ltac:(lia))|exact (demo_read 6 ltac:(lia))|exact (demo_read 7 ltac:(lia))].
Qed.

(** The slots of the root directory: the file, and unused ones. *)
Lemma demo_slot d p : slot demo_vol demo_chains demo_dirs d p → d = 2 ∧ (p = (2, 0, 0) ∨ at_loc demo_fs p = replicate 32 0).
Proof.
  intros (->%elem_of_singleton & l & Hl & Hp). split; [done|]. assert (l = [2]) as -> by (vm_compute in Hl; congruence).
  destruct p as [[c s] e]. apply elem_of_locs in Hp as (->%list_elem_of_singleton & Hs & He). change (sectors_per_cluster demo_vol) with 1 in Hs.
  assert (s = 0) as -> by lia. destruct (decide (e = 0)) as [->|Hne]; [by left|]. right.
  assert (e ∈ seqZ 1 15) as Hin by (apply elem_of_seqZ; lia). revert Hin. clear. intros Hin.
  repeat (apply elem_of_cons in Hin as [->|Hin]; [vm_compute; reflexivity|]). by apply not_elem_of_nil in Hin.
Qed.

Lemma demo_visible d p : slot demo_vol demo_chains demo_dirs d p → visible (at_loc demo_fs p) = true → d = 2 ∧ p = (2, 0, 0).
Proof. intros [-> [->|E]]%demo_slot; [done|]. rewrite E. by vm_compute. Qed.

Lemma demo_at : at_loc demo_fs (2, 0, 0) = demo_entry.
Proof. vm_compute. reflexivity. Qed.

Lemma demo_chain h l : demo_chains !! h = Some l → l = [h] ∧ (h = 2 ∨ h = 3).
Proof.
  unfold demo_chains. intros [[<- <-]|[_ Hl]]%lookup_insert_Some; [by auto|].
  apply lookup_singleton_Some in Hl as [<- <-]. by auto.
Qed.

Lemma demo_blank_tail p : p ∈ locs demo_vol [2] → p ≠ (2, 0, 0) → at_loc demo_fs p = replicate 32 0.
Proof.
  intros Hp Hne. destruct (demo_slot 2 p) as [_ [|]]; [|done|done]. split; [by apply elem_of_singleton|]. by exists [2].
Qed.

Lemma demo_ended ps : (∀ p, p ∈ ps → at_loc demo_fs p = replicate 32 0) → ended demo_fs ps.
Proof.
  induction ps as [|p ps IH]; [done|]. intros E. split; [|apply IH; intros q Hq; apply E; by right].
  intros _ q Hq. unfold blank_entry. rewrite E by (by right). reflexivity.
Qed.

Lemma demo_list : plain demo_fs (locs demo_vol [2]) ∧ ended demo_fs (locs demo_vol [2]).
Proof.
  split.
  - intros p Hp. destruct (decide (p = (2, 0, 0))) as [->|Hne].
    + rewrite demo_at. right. vm_compute. done.
    + rewrite demo_blank_tail by done. left. reflexivity.
  - pose proof (NoDup_locs demo_vol (G := demo_geometry) [2] (NoDup_singleton 2)) as Hn.
    assert (∃ ps, locs demo_vol [2] = (2, 0, 0) :: ps) as [ps Eps] by (eexists; vm_compute; reflexivity). rewrite Eps in Hn |- *.
    apply NoDup_cons in Hn as [Hnin _]. split.
    + unfold blank_entry. rewrite demo_at. intros Hb. by vm_compute in Hb.
    + apply demo_ended. intros p Hp. apply demo_blank_tail; [rewrite Eps; by right|by intros ->].
Qed.

Lemma demo_wf : wf demo_vol demo_fs demo_chains demo_dirs demo_rank.
Proof.
  split.
  - intros h l [-> Hh]%demo_chain. split_and!; [|apply NoDup_singleton|done].
    destruct Hh as [-> | ->]; (split; [done|]; split; [unfold valid; change (total_clusters demo_vol) with 5; lia|vm_compute; done]).
  - intros h1 h2 l1 l2 c [-> _]%demo_chain [-> _]%demo_chain ->%list_elem_of_singleton Hc. by apply list_elem_of_singleton in Hc.
  - by apply elem_of_singleton.
  - intros d ->%elem_of_singleton. by exists [2].
  - intros d l ->%elem_of_singleton [-> _]%demo_chain. apply demo_list.
  - intros d p q Hp Hq Hvp Hvq _. destruct (demo_visible d p Hp Hvp) as [_ ->], (demo_visible d q Hq Hvq) as [_ ->]. done.
  - intros d p Hp Hv Hdir. destruct (demo_visible d p Hp Hv) as [_ ->]. rewrite demo_at in Hdir. by vm_compute in Hdir.
  - intros d p (Hp & Hv & _) _. destruct (demo_visible d p Hp Hv) as [_ ->]. rewrite demo_at. right. exists [3].
    split_and!; [reflexivity|vm_compute; done|vm_compute; done].
  - intros d d' p q (Hp & Hv & _) (Hq & Hvq & _) _ _ _ _. destruct (demo_visible d p Hp Hv) as [_ ->], (demo_visible d' q Hq Hvq) as [_ ->]. done.
Qed.

Lemma demo_good : good_volume 50 demo_junk demo_vol demo_fs demo_chains demo_dirs demo_rank demo_state.
Proof.
  split; [apply demo_geometry|apply demo_holds|apply demo_wf|reflexivity|vm_compute; reflexivity|vm_compute; lia|vm_compute; done|].
  split; [reflexivity|apply u8_check; reflexivity].
Qed.

(** ** The theorems at this volume *)

Lemma fat32_read_file_spec_witness :
  ∃ s', fat32_read_file 50 demo_heap (λ _, []) demo_junk demo_vol (Some demo_name) demo_state = Some (Some demo_data, s').
Proof.
  destruct (fat32_read_file_spec 50 demo_junk demo_heap (λ _, []) demo_vol demo_fs demo_chains demo_dirs demo_rank demo_state demo_name
    demo_good) as (s' & E & _).
  exists s'. rewrite E. reflexivity.
Defined.

Definition demo_new : list Z := replicate 600 7.

Lemma fat32_overwrite_spec_witness :
  ∃ s' files, fat32_write_file 50 demo_heap demo_junk demo_vol (Some demo_name) (Some demo_new) 600 demo_state =
    Some ((true, with_cached files demo_vol), s').
Proof.
  destruct (fat32_overwrite_spec 50 demo_junk demo_heap demo_vol demo_fs demo_chains demo_dirs demo_rank demo_state demo_name
    (result_at demo_fs (2, 0, 0)) demo_new demo_good) as (s' & a' & al' & files & E & _);
    [reflexivity|reflexivity|apply u8_check; reflexivity|reflexivity|vm_compute; congruence|].
  by exists s', files.
Defined.


Lemma fat32_unlink_spec_witness :
  ∃ s' files, fat32_unlink_file 50 demo_junk demo_vol (Some demo_name) demo_state = Some ((true, with_cached files demo_vol), s').
Proof.
  destruct (fat32_unlink_spec 50 demo_junk demo_vol demo_fs demo_chains demo_dirs demo_rank demo_state demo_name
    (result_at demo_fs (2, 0, 0)) demo_good) as (s' & a' & al' & files & E & _); [reflexivity|reflexivity|].
  by exists s', files.
Defined.

(** ** Outside the hypotheses *)

Definition demo_read_file (vol : fat32_volume) (path : list Z) : M (S := cache_world BlockCacheSpec.disk) (option (list Z)) :=
  fat32_read_file 50 demo_heap (λ _, []) demo_junk vol (Some path).

(** What is left of a file after an operation. *)
Definition then_read {A} (m : M (S := cache_world BlockCacheSpec.disk) A) (path : list Z) : option (A * option (list Z)) :=
  match m demo_state with
  | Some (x, s) => match demo_read_file demo_vol path s with Some (r, _) => Some (x, r) | None => None end
  | None => None
  end.

(** Renaming a file to its own name deletes it. *)
Example rename_to_itself :
  then_read (r ← fat32_rename 50 demo_heap (λ _, []) demo_junk demo_vol (Some demo_name) (Some demo_name); mret r.1) demo_name =
    Some (true, None).
Proof. vm_compute. reflexivity. Qed.

(** Overwriting a file with more than fits fails and loses the file. *)
Example overwrite_without_room :
  then_read (r ← fat32_write_file 50 demo_heap demo_junk demo_vol (Some demo_name) (Some (replicate 4000 7)) 4000; mret r.1) demo_name =
    Some (false, Some [7; 7; 7; 7; 7]).
Proof. vm_compute. reflexivity. Qed.

(** Without memory for the buffer the data are not written, and the write succeeds. *)
Example write_without_memory :
  then_read (r ← fat32_write_file 50 (λ _, false) demo_junk demo_vol (Some demo_name) (Some [1; 2; 3]) 3; mret r.1) demo_name =
    Some (true, Some [0; 0; 0]).
Proof. vm_compute. reflexivity. Qed.

(** A name that begins with a separator cannot be created in the root directory. *)
Example create_absolute :
  then_read (r ← fat32_write_file 50 demo_heap demo_junk demo_vol (Some [47; 66]) (Some [1]) 1; mret r.1) [66] = Some (false, None).
Proof. vm_compute. reflexivity. Qed.

(** A name of nine letters is created, and not found again. *)
Example create_long_name :
  then_read (r ← fat32_write_file 50 demo_heap demo_junk demo_vol (Some (replicate 9 66)) (Some [1]) 1; mret r.1) (replicate 9 66) =
    Some (true, None).
Proof. vm_compute. reflexivity. Qed.

(** A directory with a file in it is removed; its clusters are free again. *)
Example rmdir_not_empty :
  then_read (
    _ ← fat32_mkdir 50 demo_junk demo_vol (Some [68]);
    _ ← fat32_write_file 50 demo_heap demo_junk demo_vol (Some [68; 47; 66]) (Some [1]) 1;
    fat32_rmdir 50 demo_junk demo_vol (Some [68])) [68; 47; 66] = Some (true, None).
Proof. vm_compute. reflexivity. Qed.
