(* ===== verification/Elf.v ===== *)
(** * Program loader (src/fs/elf.c, src/include/kos/elf.h)

    Validation of ELF64 executables, mapping of their segments into an address
    space of the virtual memory manager, and the initial user stack.  A [machine]
    is the virtual memory manager with the contents of physical memory beside it:
    the loader writes the frames it has allocated through their physical
    addresses (the code adds the offset of the direct map, [vmm_physical_to_virtual]).
    A file is the list of its bytes. *)

From Stdlib Require Import ZArith Lia.
From stdpp Require Import gmap.
From S2P Require Import Prelude Interfaces Vmm Inet Bytes.
#[local] Open Scope Z_scope.

(** ** Data *)

Definition ELFMAG : list Z := [0x7f; 69; 76; 70].
Definition ELFCLASS64 : Z := 2.
Definition ELFDATA2LSB : Z := 1.
Definition EV_CURRENT : Z := 1.
Definition ET_EXEC : Z := 2.
Definition ET_DYN : Z := 3.
Definition EM_X86_64 : Z := 62.
Definition PT_LOAD : Z := 1.
Definition PT_INTERP : Z := 3.
Definition PF_X : Z := 1.
Definition PF_W : Z := 2.
Definition SIZEOF_EHDR : Z := 64.
Definition SIZEOF_PHDR : Z := 56.

Definition USER_STACK_TOP : Z := 0x00007FFFFFFFE000.
Definition USER_STACK_SIZE : Z := 64 * 1024.
Definition USER_STACK_BOTTOM : Z := USER_STACK_TOP - USER_STACK_SIZE.
Definition USER_STACK_GUARD_PAGE : Z := USER_STACK_BOTTOM - 4096.

Record Elf64_Phdr := Phdr {
  p_type : Z;
  p_flags : Z;
  p_offset : Z;
  p_vaddr : Z;
  p_filesz : Z;
  p_memsz : Z;
  p_align : Z;
}.

Record elf_binary_image := ElfImage {
  entry_point : Z;
  user_stack_top : Z;
  user_stack_bottom : Z;
  user_rsp : Z;
}.

Record elf_image_info := ElfInfo {
  info_entry_point : Z;
  program_header_count : Z;
  loadable_segment_count : Z;
}.

(** ** Checks *)

Definition range_is_valid (offset len total_size : Z) : bool := (offset <=? total_size) && (len <=? total_size - offset).

Definition is_power_of_two (value : Z) : bool := negb (value =? 0) && (Z.land value (value - 1) =? 0).

(** The program header at an offset of the file. *)
Definition read_phdr (data : list Z) (off : Z) : Elf64_Phdr :=
  Phdr (u32_at data off) (u32_at data (off + 4)) (u64_at data (off + 8)) (u64_at data (off + 16))
    (u64_at data (off + 32)) (u64_at data (off + 40)) (u64_at data (off + 48)).

Definition header_ok (data : list Z) : bool :=
  bool_decide (slice data 0 4 = ELFMAG) && (u8_at data 4 =? ELFCLASS64) && (u8_at data 5 =? ELFDATA2LSB) &&
  (u8_at data 6 =? EV_CURRENT) && (u16_at data 16 =? ET_EXEC) && (u16_at data 18 =? EM_X86_64) &&
  (u32_at data 20 =? EV_CURRENT) && (u16_at data 52 =? SIZEOF_EHDR) && (u16_at data 54 =? SIZEOF_PHDR) &&
  negb (u16_at data 56 =? 0) && (u16_at data 56 <=? 64).

(** The checks on a loadable segment. *)
Definition segment_ok (file_size : Z) (h : Elf64_Phdr) : bool :=
  if p_memsz h <? p_filesz h then false
  else if negb (range_is_valid (p_offset h) (p_filesz h) file_size) then false
  else if p_vaddr h <? 0x200000 then false
  else if (p_memsz h >? 0) &&
          (let end_va := u64 (p_vaddr h + p_memsz h) in (end_va <? p_vaddr h) || (end_va >=? 0x800000000000)) then false
  else if (p_align h >? 1) &&
          (negb (is_power_of_two (p_align h)) || negb (p_vaddr h mod p_align h =? p_offset h mod p_align h)) then false
  else true.

(** The loop over the program headers: the loadable segments. *)
Fixpoint collect_segments (data : list Z) (phoff : Z) (n : nat) (i : Z) : option (list Elf64_Phdr) :=
  match n with
  | O => Some []
  | S n =>
      let h := read_phdr data (phoff + i * SIZEOF_PHDR) in
      if p_type h =? PT_INTERP then None
      else if p_type h =? PT_LOAD then
        if segment_ok (Z.of_nat (length data)) h then
          match collect_segments data phoff n (i + 1) with Some l => Some (h :: l) | None => None end
        else None
      else collect_segments data phoff n (i + 1)
  end.

Definition segment_end (h : Elf64_Phdr) : Z := u64 (p_vaddr h + p_memsz h).

Definition overlap (h k : Elf64_Phdr) : bool :=
  Z.max (p_vaddr h) (p_vaddr k) <? Z.min (segment_end h) (segment_end k).

(** The double loop over pairs of segments. *)
Fixpoint segments_disjoint (l : list Elf64_Phdr) : bool :=
  match l with [] => true | h :: l => forallb (λ k, negb (overlap h k)) l && segments_disjoint l end.

Definition entry_in (e_entry : Z) (h : Elf64_Phdr) : bool :=
  negb (Z.land (p_flags h) PF_X =? 0) && (p_vaddr h <=? e_entry) && (e_entry <? segment_end h).

(** All checks of [elf_load_binary]: the entry point and the loadable segments. *)
Definition elf_validate (data : list Z) : option (Z * list Elf64_Phdr) :=
  let file_size := Z.of_nat (length data) in
  if file_size <? SIZEOF_EHDR then None
  else if negb (header_ok data) then None
  else
    let e_entry := u64_at data 24 in
    let e_phoff := u64_at data 32 in
    let e_phnum := u16_at data 56 in
    if negb (range_is_valid e_phoff (e_phnum * SIZEOF_PHDR) file_size) then None
    else if (e_entry <? 0x200000) || (e_entry >=? 0x800000000000) then None
    else
      match collect_segments data e_phoff (Z.to_nat e_phnum) 0 with
      | None | Some [] => None
      | Some l =>
          if negb (segments_disjoint l) then None
          else if negb (existsb (entry_in e_entry) l) then None
          else Some (e_entry, l)
      end.

(** [elf_inspect_image], for files that are only looked at. *)
Fixpoint count_loadable (image : list Z) (off size : Z) (n : nat) (i : Z) (found : Z) : option Z :=
  match n with
  | O => Some found
  | S n =>
      let ph := off + i * size in
      if u32_at image ph =? PT_LOAD then
        let file_offset := u64_at image (ph + 8) in
        let file_size := u64_at image (ph + 32) in
        let memory_size := u64_at image (ph + 40) in
        let alignment := u64_at image (ph + 48) in
        if (memory_size <? file_size) || negb (range_is_valid file_offset file_size (Z.of_nat (length image)))
           || (negb (alignment =? 0) && negb (is_power_of_two alignment)) then None
        else count_loadable image off size n (i + 1) (u16 (found + 1))
      else count_loadable image off size n (i + 1) found
  end.

Definition elf_inspect_image (image : list Z) : option elf_image_info :=
  if (Z.of_nat (length image) <? SIZEOF_EHDR) || negb (bool_decide (slice image 0 4 = ELFMAG))
     || negb (u8_at image 4 =? ELFCLASS64) || negb (u8_at image 5 =? ELFDATA2LSB) || negb (u8_at image 6 =? EV_CURRENT)
     || (negb (u16_at image 16 =? ET_EXEC) && negb (u16_at image 16 =? ET_DYN))
     || negb (u16_at image 18 =? EM_X86_64) || negb (u32_at image 20 =? EV_CURRENT) then None
  else
    let off := u64_at image 32 in
    let size := u16_at image 54 in
    let count := u16_at image 56 in
    if (size <? SIZEOF_PHDR) || (count =? 0) || negb (range_is_valid off (count * size) (Z.of_nat (length image))) then None
    else
      match count_loadable image off size (Z.to_nat count) 0 0 with
      | None => None
      | Some loadable => if loadable =? 0 then None else Some (ElfInfo (u64_at image 24) count loadable)
      end.

(** ** Memory *)

Record machine (PM : Type) := Machine { vm : vmm_state PM; ram : gmap Z Z }.
Arguments Machine {_}. Arguments vm {_}. Arguments ram {_}.

(** [memcpy] of the bytes [bs] to physical address [a]; [memset] with zeros. *)
Fixpoint write_bytes (a : Z) (bs : list Z) (r : gmap Z Z) : gmap Z Z :=
  match bs with [] => r | b :: bs => write_bytes (a + 1) bs (<[a := b]> r) end.

Definition zero_frame (frame : Z) (r : gmap Z Z) : gmap Z Z := write_bytes frame (replicate 4096 0) r.

Section loader.
Context {PM : Type} `{FA : FrameAllocator PM}.
Implicit Types m : machine PM.

Definition with_vm (s : vmm_state PM) m : machine PM := Machine s (ram m).
Definition with_ram (r : gmap Z Z) m : machine PM := Machine (vm m) r.

(** [pmm_allocate_frame] and [vmm_map_page_in], with the frame given back when
    the page cannot be mapped. *)
Definition map_new_page (p va flags : Z) m : option Z * machine PM :=
  let '(frame, s) := allocate_frame (vm m) in
  if frame =? 0 then (None, with_vm s m)
  else
    let '(ok, s) := vmm_map_page_in p va frame flags s in
    if ok then (Some frame, with_vm s m) else (None, with_vm (free_frame frame s).2 m).

(** ** User stack *)

(** The loop of [stack_write_bytes]; each round writes at least one byte. *)
Fixpoint stack_write_loop (fuel : nat) (stack_frames : list Z) (user_vaddr : Z) (src : list Z) (r : gmap Z Z) : gmap Z Z :=
  match fuel, src with
  | S fuel, _ :: _ =>
      let page_idx := (user_vaddr - USER_STACK_BOTTOM) / PAGE_SIZE in
      let page_off := (user_vaddr - USER_STACK_BOTTOM) mod PAGE_SIZE in
      let chunk := Z.min (PAGE_SIZE - page_off) (Z.of_nat (length src)) in
      let dest := default 0 (stack_frames !! Z.to_nat page_idx) + page_off in
      stack_write_loop fuel stack_frames (user_vaddr + chunk) (drop (Z.to_nat chunk) src)
        (write_bytes dest (take (Z.to_nat chunk) src) r)
  | _, _ => r
  end.

Definition stack_write_bytes (stack_frames : list Z) (user_vaddr : Z) (src : list Z) (r : gmap Z Z) : option (gmap Z Z) :=
  let len := Z.of_nat (length src) in
  if (user_vaddr <? USER_STACK_BOTTOM) || (u64 (user_vaddr + len) >? USER_STACK_TOP) then None
  else Some (stack_write_loop (length src) stack_frames user_vaddr src r).

Definition STACK_FLAGS : Z := Z.lor (Z.lor VMM_PAGE_USER VMM_PAGE_WRITABLE) VMM_PAGE_NO_EXECUTE.

Definition stack_page (i : Z) : Z := USER_STACK_BOTTOM + i * PAGE_SIZE.

(** The loop that maps the pages: whether it went through, the frames with
    [newly_allocated], and the machine. *)
Fixpoint map_stack (p : Z) (n : nat) (i : Z) (frames : list (Z * bool)) m : bool * list (Z * bool) * machine PM :=
  match n with
  | O => (true, frames, m)
  | S n =>
      match vmm_query_page_in p (stack_page i) (vm m) with
      | Some (frame, _) =>
          map_stack p n (i + 1) (frames ++ [(frame, false)]) (with_ram (zero_frame frame (ram m)) m)
      | None =>
          match map_new_page p (stack_page i) STACK_FLAGS m with
          | (None, m) => (false, frames, m)
          | (Some frame, m) =>
              map_stack p n (i + 1) (frames ++ [(frame, true)]) (with_ram (zero_frame frame (ram m)) m)
          end
      end
  end.

Fixpoint unwind_stack (p : Z) (frames : list (Z * bool)) (i : Z) m : machine PM :=
  match frames with
  | [] => m
  | (frame, fresh) :: frames =>
      let m :=
        if fresh then
          let s := (vmm_unmap_page_in p (stack_page i) (vm m)).2 in with_vm (free_frame frame s).2 m
        else m in
      unwind_stack p frames (i + 1) m
  end.

(** The validation of [argv] and the total length of its strings. *)
Fixpoint argv_bytes (argv : list (option (list Z))) (total : Z) : option Z :=
  match argv with
  | [] => Some total
  | None :: _ => None
  | Some arg :: argv =>
      let slen := Z.of_nat (length arg) in
      if slen >? 4096 then None else argv_bytes argv (total + (slen + 1))
  end.

(** The strings are written from the top of the stack down. *)
Fixpoint write_strings (stack_frames : list Z) (argv : list (option (list Z))) (curr_sp : Z) (ptrs : list Z) (r : gmap Z Z)
  : option (Z * list Z * gmap Z Z) :=
  match argv with
  | [] => Some (curr_sp, ptrs, r)
  | arg :: argv =>
      let bs := default [] arg ++ [0] in
      let curr_sp := curr_sp - Z.of_nat (length bs) in
      match stack_write_bytes stack_frames curr_sp bs r with
      | None => None
      | Some r => write_strings stack_frames argv curr_sp (ptrs ++ [curr_sp]) r
      end
  end.

(** argc, the pointers, and the terminators of argv, envp and auxv. *)
Definition stack_table (argc : Z) (ptrs : list Z) : list Z := [argc] ++ ptrs ++ [0; 0; 0; 0].

Definition quadwords (l : list Z) : list Z := concat (le_bytes 8 <$> l).

(** The part of [process_setup_user_stack] after the pages are mapped. *)
Definition fill_stack (stack_frames : list Z) (argv : list (option (list Z))) (r : gmap Z Z) : option (Z * gmap Z Z) :=
  let argc := Z.of_nat (length argv) in
  match argv_bytes argv 0 with
  | None => None
  | Some total_str_bytes =>
      let table_bytes := (1 + argc + 1 + 1 + 2) * 8 in
      if total_str_bytes + table_bytes + 64 >? USER_STACK_SIZE then None
      else
        match write_strings stack_frames argv USER_STACK_TOP [] r with
        | None => None
        | Some (curr_sp, ptrs, r) =>
            if curr_sp <? table_bytes then None
            else
              let target_rsp := Z.land (curr_sp - table_bytes) (not64 15) in
              if target_rsp <? USER_STACK_BOTTOM then None
              else
                match stack_write_bytes stack_frames target_rsp (quadwords (stack_table argc ptrs)) r with
                | None => None
                | Some r => Some (target_rsp, r)
                end
        end
  end.

(** [argv] is the array of [argc] pointers; [None] is NULL. *)
Definition process_setup_user_stack (p argc : Z) (argv : option (list (option (list Z)))) m
  : option Z * machine PM :=
  if (p =? 0) || negb (p mod PAGE_SIZE =? 0) then (None, m)
  else if (argc <? 0) || (argc >? 64) then (None, m)
  else if (argc >? 0) && match argv with None => true | Some _ => false end then (None, m)
  else
    let argv := take (Z.to_nat argc) (default [] argv) in
    let m := match vmm_query_page_in p USER_STACK_GUARD_PAGE (vm m) with
             | Some _ => with_vm (vmm_unmap_page_in p USER_STACK_GUARD_PAGE (vm m)).2 m
             | None => m
             end in
    let '(ok, frames, m) := map_stack p 16 0 [] m in
    if negb ok then (None, unwind_stack p frames 0 m)
    else
      match fill_stack (fst <$> frames) argv (ram m) with
      | None => (None, unwind_stack p frames 0 m)
      | Some (rsp, r) => (Some rsp, with_ram r m)
      end.

(** ** Segments *)

Definition segment_flags (h : Elf64_Phdr) : Z :=
  let flags := VMM_PAGE_USER in
  let flags := if negb (Z.land (p_flags h) PF_W =? 0) then Z.lor flags VMM_PAGE_WRITABLE else flags in
  if Z.land (p_flags h) PF_X =? 0 then Z.lor flags VMM_PAGE_NO_EXECUTE else flags.

(** Copies the part of the file that lies in the page at [va]. *)
Definition copy_page (data : list Z) (h : Elf64_Phdr) (va frame : Z) (r : gmap Z Z) : gmap Z Z :=
  let file_start := p_vaddr h in
  let file_end := u64 (p_vaddr h + p_filesz h) in
  let isect_start := Z.max file_start va in
  let isect_end := Z.min file_end (u64 (va + PAGE_SIZE)) in
  if isect_start <? isect_end then
    let copy_len := isect_end - isect_start in
    let src_off := u64 (p_offset h + (isect_start - file_start)) in
    write_bytes (frame + (isect_start - va)) (slice data src_off (Z.to_nat copy_len)) r
  else r.

(** The pages of one segment. *)
Fixpoint load_pages (data : list Z) (p : Z) (h : Elf64_Phdr) (n : nat) (va : Z) m : bool * machine PM :=
  match n with
  | O => (true, m)
  | S n =>
      let '(frame, m) :=
        match vmm_query_page_in p va (vm m) with
        | Some (frame, _) => (Some frame, m)
        | None =>
            match map_new_page p va (segment_flags h) m with
            | (Some frame, m) => (Some frame, with_ram (zero_frame frame (ram m)) m)
            | (None, m) => (None, m)
            end
        end in
      match frame with
      | None => (false, m)
      | Some frame => load_pages data p h n (va + PAGE_SIZE) (with_ram (copy_page data h va frame (ram m)) m)
      end
  end.

Definition segment_start (h : Elf64_Phdr) : Z := Z.land (p_vaddr h) (not64 (PAGE_SIZE - 1)).
Definition segment_stop (h : Elf64_Phdr) : Z :=
  Z.land (u64 (p_vaddr h + p_memsz h + PAGE_SIZE - 1)) (not64 (PAGE_SIZE - 1)).

Fixpoint load_segments (data : list Z) (p : Z) (l : list Elf64_Phdr) m : bool * machine PM :=
  match l with
  | [] => (true, m)
  | h :: l =>
      if p_memsz h =? 0 then load_segments data p l m
      else
        let pages := Z.to_nat ((segment_stop h - segment_start h) / PAGE_SIZE) in
        match load_pages data p h pages (segment_start h) m with
        | (false, m) => (false, m)
        | (true, m) => load_segments data p l m
        end
  end.

(** [file] is what [vfs_read_file(path)] gave. *)
Definition elf_load_binary (file : option (list Z)) (p : Z) m : option elf_binary_image * machine PM :=
  if (p =? 0) || negb (p mod PAGE_SIZE =? 0) then (None, m)
  else
    match file with
    | None => (None, m)
    | Some data =>
        match elf_validate data with
        | None => (None, m)
        | Some (e_entry, l) =>
            let '(ok, m) := load_segments data p l m in
            if negb ok then (None, with_vm (vmm_clear_user_address_space p (vm m)) m)
            else
              match process_setup_user_stack p 0 None m with
              | (None, m) => (None, with_vm (vmm_clear_user_address_space p (vm m)) m)
              | (Some rsp, m) => (Some (ElfImage e_entry USER_STACK_TOP USER_STACK_BOTTOM rsp), m)
              end
        end
    end.

End loader.
