(* ===== verification/ElfSpec.v ===== *)
(** * What the program loader guarantees: validation and segments (src/fs/elf.c)

    [elf_validate] accepts only files whose loadable segments are disjoint, lie
    in the user half and read inside the file, and whose entry point is in an
    executable segment.  [space] describes an address space during loading: which
    pages are mapped to which frame with which rights, every page on a frame of
    its own that is neither free nor a page table.  [load_segments] is then an
    update of the bytes the program sees. *)

From Stdlib Require Import ZArith Lia.
From stdpp Require Import gmap.
From S2P Require Import Prelude Interfaces Vmm PageWalk VmmSpec Inet Bytes Elf.
#[local] Open Scope Z_scope.

(** ** Validation *)

(** A loadable segment that may be mapped. *)
Record good_segment (file_size : Z) (h : Elf64_Phdr) : Prop := {
  gs_sizes : 0 ≤ p_filesz h ≤ p_memsz h;
  gs_file : 0 ≤ p_offset h ∧ p_offset h + p_filesz h ≤ file_size;
  gs_memory : 0 < p_memsz h → 0x200000 ≤ p_vaddr h ∧ p_vaddr h + p_memsz h < USER_LIMIT;
}.

Lemma read_phdr_ranges data off :
  Forall is_u8 data →
  let h := read_phdr data off in
  0 ≤ p_flags h < 2 ^ 32 ∧ 0 ≤ p_offset h < W64 ∧ 0 ≤ p_vaddr h < W64 ∧ 0 ≤ p_filesz h < W64 ∧ 0 ≤ p_memsz h < W64.
Proof.
  intros H. cbn. split; [apply (u32_at_range _ _ H)|]. split_and!; apply u64_at_range; done.
Qed.

Lemma segment_ok_spec data off :
  Forall is_u8 data → segment_ok (Z.of_nat (length data)) (read_phdr data off) = true →
  good_segment (Z.of_nat (length data)) (read_phdr data off).
Proof.
  intros Hu. pose proof (read_phdr_ranges data off Hu) as H. cbv zeta in H. set (h := read_phdr data off) in *.
  destruct H as (_ & Ho & Hv & Hf & Hm). unfold segment_ok, range_is_valid. rewrite Z.gtb_ltb.
  destruct (Z.ltb_spec (p_memsz h) (p_filesz h)); [done|].
  destruct (Z.leb_spec (p_offset h) (Z.of_nat (length data))); [|done].
  destruct (Z.leb_spec (p_filesz h) (Z.of_nat (length data) - p_offset h)); [|done]. cbn [andb negb].
  destruct (Z.ltb_spec (p_vaddr h) 0x200000); [done|]. cbv zeta.
  destruct (Z.ltb_spec 0 (p_memsz h)); cbn [andb].
  - destruct (Z.ltb_spec (u64 (p_vaddr h + p_memsz h)) (p_vaddr h)) as [|Hge]; [done|]. rewrite Z.geb_leb.
    destruct (Z.leb_spec 0x800000000000 (u64 (p_vaddr h + p_memsz h))) as [|Hlt]; [done|]. cbn [orb].
    intros _. split; try lia. intros _. split; [done|].
    destruct (Z.lt_ge_cases (p_vaddr h + p_memsz h) W64) as [Hw|Hw].
    + rewrite u64_small in Hlt by (unfold is_u64; lia). unfold USER_LIMIT. lia.
    + exfalso. unfold u64 in Hge. fold W64 in Hge.
      replace (p_vaddr h + p_memsz h) with (p_vaddr h + p_memsz h - W64 + 1 * W64) in Hge by lia.
      rewrite Z.mod_add, Z.mod_small in Hge by (unfold W64 in *; lia). lia.
  - intros _. split; lia.
Qed.

Lemma collect_segments_spec data phoff n : ∀ i l,
  Forall is_u8 data → collect_segments data phoff n i = Some l →
  Forall (λ h, good_segment (Z.of_nat (length data)) h ∧ ∃ j, i ≤ j < i + Z.of_nat n ∧ h = read_phdr data (phoff + j * SIZEOF_PHDR)) l.
Proof.
  induction n as [|n IH]; intros i l Hu; cbn [collect_segments]; [by intros [= <-]|].
  destruct (_ =? PT_INTERP); [done|].
  assert (∀ l', collect_segments data phoff n (i + 1) = Some l' →
    Forall (λ h, good_segment (Z.of_nat (length data)) h ∧ ∃ j, i ≤ j < i + Z.of_nat (S n) ∧ h = read_phdr data (phoff + j * SIZEOF_PHDR)) l') as Hrest.
  { intros l' H. eapply Forall_impl; [by apply IH|]. intros h (Hg & j & Hj & ->). split; [done|]. exists j. split; [lia|done]. }
  destruct (_ =? PT_LOAD); [|apply Hrest].
  destruct (segment_ok _ _) eqn:Hok; [|done]. destruct (collect_segments _ _ n _) as [l'|]; [|done].
  intros [= <-]. constructor; [|by apply Hrest]. split; [by apply segment_ok_spec|]. exists i. split; [lia|done].
Qed.

Definition seg_disjoint (h k : Elf64_Phdr) : Prop :=
  ∀ x, p_vaddr h ≤ x < p_vaddr h + p_memsz h → ¬ (p_vaddr k ≤ x < p_vaddr k + p_memsz k).

Lemma segment_end_small size h : good_segment size h → 0 < p_memsz h → segment_end h = p_vaddr h + p_memsz h.
Proof. intros [? ? H] Hm. apply u64_small. specialize (H Hm). unfold is_u64, USER_LIMIT, W64 in *. lia. Qed.

Lemma overlap_spec size h k : good_segment size h → good_segment size k → overlap h k = false → seg_disjoint h k.
Proof.
  intros Hh Hk. unfold overlap. intros Ho x Hx Hx'.
  rewrite (segment_end_small size h), (segment_end_small size k) in Ho by (done || lia). lia.
Qed.

(** Later segments are disjoint from earlier ones. *)
Lemma segments_disjoint_spec size l :
  Forall (good_segment size) l → segments_disjoint l = true →
  ∀ i j h k, (i < j)%nat → l !! i = Some h → l !! j = Some k → seg_disjoint h k.
Proof.
  induction 1 as [|h0 l Hh Hl IH]; [done|]. cbn [segments_disjoint]. rewrite andb_true_iff, forallb_forall.
  intros [H0 Hd] i [|j] h k Hij Hi Hj; [lia|]. cbn in Hj. destruct i as [|i]; cbn in Hi.
  - injection Hi as <-. apply list_elem_of_lookup_2 in Hj.
    assert (overlap h0 k = false) as Ho by (apply negb_true_iff, H0; by apply list_elem_of_In).
    eapply overlap_spec; [done|by eapply Forall_forall in Hl|done].
  - eapply (IH Hd i j); [lia|done..].
Qed.

(** What the header says of the entry point, and what is known of the segments. *)
Record valid_program (data : list Z) (entry : Z) (l : list Elf64_Phdr) : Prop := {
  vp_segments : Forall (good_segment (Z.of_nat (length data))) l;
  vp_disjoint i j h k : (i < j)%nat → l !! i = Some h → l !! j = Some k → seg_disjoint h k;
  vp_entry : ∃ h, h ∈ l ∧ Z.testbit (p_flags h) 0 = true ∧ p_vaddr h ≤ entry < p_vaddr h + p_memsz h;
  vp_headers : Forall (λ h, ∃ j, 0 ≤ j < u16_at data 56 ∧ h = read_phdr data (u64_at data 32 + j * SIZEOF_PHDR)) l;
  vp_table : u64_at data 32 + u16_at data 56 * SIZEOF_PHDR ≤ Z.of_nat (length data);
}.

Lemma entry_in_spec size entry h :
  good_segment size h → 0 ≤ p_vaddr h < W64 → 0 ≤ p_memsz h → entry_in entry h = true →
  Z.testbit (p_flags h) 0 = true ∧ p_vaddr h ≤ entry < p_vaddr h + p_memsz h.
Proof.
  intros Hg Hv Hm. unfold entry_in. rewrite !andb_true_iff, negb_true_iff, Z.eqb_neq, Z.leb_le, Z.ltb_lt. intros [[Hf H1] H2].
  split.
  - change PF_X with (Z.ones 1) in Hf. rewrite Z.land_ones in Hf by lia. change (2 ^ 1) with 2 in Hf.
    rewrite Z.bit0_odd, Zodd_mod. apply Z.eqb_eq. pose proof (Z.mod_pos_bound (p_flags h) 2). lia.
  - split; [done|]. destruct (Z.eq_dec (p_memsz h) 0) as [H0|H0].
    + unfold segment_end in H2. rewrite H0, Z.add_0_r, u64_small in H2 by (unfold is_u64; lia). lia.
    + rewrite (segment_end_small size) in H2 by (done || lia). lia.
Qed.

Lemma elf_validate_spec data entry l :
  Forall is_u8 data → elf_validate data = Some (entry, l) → valid_program data entry l.
Proof.
  intros Hu. unfold elf_validate. destruct (_ <? SIZEOF_EHDR); [done|]. destruct (header_ok data); [|done]. cbn [negb].
  unfold range_is_valid.
  destruct (Z.leb_spec (u64_at data 32) (Z.of_nat (length data))); [|done]. cbn [andb].
  destruct (Z.leb_spec (u16_at data 56 * SIZEOF_PHDR) (Z.of_nat (length data) - u64_at data 32)); [|done]. cbn [negb].
  destruct (_ || _); [done|].
  destruct (collect_segments _ _ _ _) as [l'|] eqn:Hc; [|done]. pose proof (collect_segments_spec _ _ _ _ _ Hu Hc) as Hs.
  destruct l' as [|h0 l0]; [done|]. set (l1 := h0 :: l0) in *.
  destruct (segments_disjoint l1) eqn:Hd; [|done]. destruct (existsb _ l1) eqn:He; [|done]. intros [= <- <-].
  assert (Forall (good_segment (Z.of_nat (length data))) l1) as Hg by (eapply Forall_impl; [exact Hs|]; by intros h [? _]).
  split.
  - done.
  - by eapply segments_disjoint_spec.
  - apply existsb_exists in He as (h & Hin%list_elem_of_In & He). exists h. split; [done|].
    pose proof (proj1 (Forall_forall _ _) Hs h Hin) as (Hgh & j & _ & Hh). pose proof (read_phdr_ranges data (u64_at data 32 + j * SIZEOF_PHDR) Hu) as R.
    rewrite <- Hh in R. cbv zeta in R. eapply entry_in_spec; [done|lia|lia|done].
  - eapply Forall_impl; [exact Hs|]. intros h (_ & j & Hj & ->). exists j. split; [|done].
    pose proof (u16_at_range data 56 Hu). lia.
  - lia.
Qed.

(** ** Physical memory *)

(** A byte of the file. *)
Definition get_byte (data : list Z) (i : Z) : Z := default 0 (data !! Z.to_nat i).

Lemma lookup_write_bytes bs : ∀ a r x,
  write_bytes a bs r !! x =
    if decide (a ≤ x < a + Z.of_nat (length bs)) then bs !! Z.to_nat (x - a) else r !! x.
Proof.
  induction bs as [|b bs IH]; intros a r x; cbn [write_bytes length].
  - by rewrite decide_False by lia.
  - rewrite IH. destruct (decide (x = a)) as [->|].
    + rewrite decide_False, decide_True by lia. rewrite Z.sub_diag. apply lookup_insert_eq.
    + rewrite lookup_insert_ne by done. destruct (decide (a + 1 ≤ x < a + 1 + Z.of_nat (length bs))).
      * rewrite decide_True by lia. replace (Z.to_nat (x - a)) with (S (Z.to_nat (x - (a + 1)))) by lia. done.
      * by rewrite decide_False by lia.
Qed.

Lemma lookup_zero_frame f r x :
  zero_frame f r !! x = if decide (f ≤ x < f + 4096) then Some 0 else r !! x.
Proof.
  unfold zero_frame. rewrite lookup_write_bytes, length_replicate. change (Z.of_nat 4096) with 4096.
  case_decide; [|done]. apply lookup_replicate_2. lia.
Qed.

(** ** Address spaces *)

Section space.
Context {PM : Type} `{FA : FrameAllocator PM}.
Implicit Types m : machine PM.
Implicit Types T : gmap Z nat.
Implicit Types P : gmap Z (Z * Z).

Definition user_page (va : Z) : Prop := 0 ≤ va < USER_LIMIT ∧ va mod 4096 = 0.

Definition page_of (x : Z) : Z := x / 4096 * 4096.

(** A page that should be on a frame with some rights, and its translation. *)
Definition backed (e q : option (Z * Z)) : Prop :=
  match e with
  | None => q = None
  | Some (f, fl) => ∃ g, q = Some (f, g) ∧ Z.testbit g 1 = Z.testbit fl 1 ∧ Z.testbit g 63 = Z.testbit fl 63
  end.

Record space T (p : Z) P m : Prop := {
  sp_inv : vm_inv T (vm m);
  sp_root : T !! p = Some 3%nat;
  sp_query va : user_page va → backed (P !! va) (vmm_query_page_in p va (vm m));
  sp_frame va f fl : P !! va = Some (f, fl) →
    f mod 4096 = 0 ∧ 0 ≤ f / 4096 ∧ f / 4096 ∈ fa_usable (frames (vm m)) ∧ f / 4096 ∉ fa_free (frames (vm m)) ∧ T !! f = None;
  sp_inj va va' f fl fl' : P !! va = Some (f, fl) → P !! va' = Some (f, fl') → va = va';
  sp_open va : user_page va → open_path (ent (vm m)) 3 p va;
}.

(** What [vmm_create_address_space] returns is an empty address space. *)
Lemma created_space T m :
  vm_inv T (vm m) → T !! kernel_pml4_phys (vm m) = Some 3%nat →
  pml4 (vm m) = physical_to_virtual (kernel_pml4_phys (vm m)) (vm m) →
  let '(g, s') := vmm_create_address_space (vm m) in
  g ≠ 0 → space (<[g := 3%nat]> T) g ∅ (with_vm s' m).
Proof.
  intros Hinv Hk Hpml.
  destruct (vmm_create_cases T (vm m) Hinv Hk Hpml)
    as [[-> _]|(g & s' & -> & _ & _ & _ & Hinv' & _ & Hlo & _)]; [done|]. intros _.
  assert (Hlow : ∀ va, user_page va → ent s' g (vidx va 3) = 0).
  { intros va [Hva _]. apply Hlo. pose proof (vidx_range va 3). pose proof (vidx3_user va (or_introl Hva)). lia. }
  split; cbn [vm with_vm].
  - done.
  - apply lookup_insert_eq.
  - intros va Hva. rewrite lookup_empty. cbn [backed].
    rewrite (query_walk _ s' g va Hinv') by apply lookup_insert_eq. apply walk_dead. left. by rewrite Hlow.
  - intros va f fl H. by rewrite lookup_empty in H.
  - intros va va' f fl fl' H. by rewrite lookup_empty in H.
  - intros va Hva. cbn [open_path]. by rewrite Hlow.
Qed.

(** The byte a user program reads at [x]. *)
Definition user_byte (p x : Z) m : option Z :=
  match vmm_query_page_in p (page_of x) (vm m) with
  | Some (f, _) => ram m !! (f + x mod 4096)
  | None => None
  end.

Definition free_count m : nat := size (fa_free (frames (vm m))).

Lemma backed_up_to_user e q q' : up_to_user q' = up_to_user q → backed e q → backed e q'.
Proof.
  destruct e as [[f fl]|]; cbn [backed].
  - intros H (g & -> & H1 & H2). destruct q' as [[f' g']|]; [|done]. cbn in H. injection H as -> H.
    exists g'. split; [done|].
    assert (∀ i, 0 ≤ i → i ≠ 2 → Z.testbit g' i = Z.testbit g i) as Hb.
    { intros i Hi Hn. apply (f_equal (λ z, Z.testbit z i)) in H. change PAGE_USER with (2 ^ 2) in H.
      rewrite !Z.lor_spec, Z.pow2_bits_false, !orb_false_r in H by lia. done. }
    by rewrite !Hb by lia.
  - intros H ->. by destruct q'.
Qed.

Lemma user_byte_space T p P m x :
  space T p P m → 0 ≤ x < USER_LIMIT →
  user_byte p x m = match P !! page_of x with Some (f, _) => ram m !! (f + x mod 4096) | None => None end.
Proof.
  intros Hs Hx. unfold user_byte. assert (user_page (page_of x)) as Hp by (unfold user_page, page_of, USER_LIMIT in *; zsolve).
  pose proof (sp_query _ _ _ _ Hs _ Hp) as H. destruct (P !! page_of x) as [[f fl]|]; cbn [backed] in H.
  - by destruct H as (g & -> & _).
  - by rewrite H.
Qed.

Lemma page_of_page va : user_page va → page_of va = va.
Proof. unfold user_page, page_of. intros [? ?]. zsolve. Qed.

(** ** Mapping a fresh page *)

Definition user_flags (fl : Z) : Prop := is_u64 fl ∧ Z.land fl (not64 VMM_PERMISSIONS) = 0.

Lemma map_arguments_user p va f fl :
  0 < p → p mod 4096 = 0 → user_page va → f mod 4096 = 0 → user_flags fl → map_arguments_ok p va f fl = true.
Proof.
  intros Hp Hpa [Hva Hvm] Hf [_ Hfl]. unfold map_arguments_ok, PAGE_SIZE. rewrite Hvm, Hf, Hpa, Hfl.
  rewrite !Z.geb_leb. destruct (Z.eqb_spec p 0); [lia|]. destruct (Z.leb_spec USER_LIMIT va); [lia|].
  cbn [Z.eqb negb orb]. by rewrite andb_false_r.
Qed.

Lemma user_page_u64 va : user_page va → is_u64 va.
Proof. unfold user_page, is_u64, USER_LIMIT, W64. lia. Qed.

Lemma user_page_canonical va : user_page va → canonical va.
Proof. intros [H _]. by left. Qed.

Lemma map_new_page_spec T p P m va fl :
  space T p P m → user_page va → P !! va = None → user_flags fl →
  match map_new_page p va fl m with
  | (Some f, m') =>
      ∃ T', T ⊆ T' ∧ space T' p (<[va := (f, fl)]> P) m' ∧ ram m' = ram m ∧ 0 ≤ f ∧ f mod 4096 = 0 ∧
            (∀ va' f' fl', P !! va' = Some (f', fl') → f' ≠ f) ∧ (free_count m ≤ free_count m' + 4)%nat
  | (None, m') => space T p P m' ∧ ram m' = ram m ∧ (free_count m < 4)%nat
  end.
Proof.
  intros Hs Hva HP Hfl. pose proof (sp_inv _ _ _ _ Hs) as Hinv. pose proof (sp_root _ _ _ _ Hs) as Hroot.
  pose proof (vi_addr _ _ Hinv _ _ Hroot) as (Hp0 & Hpa & _).
  unfold map_new_page, free_count. destruct (allocate_frame_spec (vm m) (vi_fa _ _ Hinv)) as [[-> Hempty]|(g & pm & -> & Hga & Hgr & Hgf & Hok & Hus & Hfr)].
  { cbn [Z.eqb]. rewrite Hempty, size_empty. split; [|split; [done|lia]]. by destruct m. }
  destruct (Z.eqb_spec g 0); [lia|]. set (s1 := with_frames pm (vm m)).
  assert (HT1 : vm_inv T s1).
  { destruct Hinv as [I1 I2 I3 I4 I5 I6 I7]. split; try done.
    - intros q L Hq. cbn. rewrite Hfr. pose proof (I5 q L Hq). set_solver.
    - intros q L i Hq Hi Ht Hb. cbn. rewrite Hus. by eapply I6. }
  assert (T !! g = None) as Hgt.
  { destruct (T !! g) as [L|] eqn:E; [|done]. by destruct (vi_free _ _ Hinv _ _ E). }
  assert (HPg : ∀ va' f' fl', P !! va' = Some (f', fl') → f' ≠ g).
  { intros va' f' fl' H ->. by destruct (sp_frame _ _ _ _ Hs _ _ _ H) as (_ & _ & _ & ? & _). }
  assert (Hq1 : ∀ va', vmm_query_page_in p va' s1 = vmm_query_page_in p va' (vm m)) by done.
  assert (Hsize : size (fa_free (frames (vm m))) = S (size (fa_free pm))).
  { rewrite Hfr, size_difference, size_singleton by (by apply singleton_subseteq_l).
    assert (size (fa_free (frames (vm m))) ≠ 0%nat); [|lia]. intros H%size_empty_inv. set_solver. }
  destruct (vmm_map_page_in_cases T s1 p va g fl HT1 Hroot) as [(s2 & -> & Hcase)|(Harg & s2 & T' & t & E1 & -> & Hm)].
  - destruct Hcase as [[Harg _]|Hm]; [by rewrite map_arguments_user in Harg|].
    destruct Hm as [M1 M2 M3 M4 M5 M6 M7 M8 Mopen].
    destruct (free_frame_spec s2 g) as (pm' & -> & Hok' & Hus' & Hfr').
    { apply M2. } { lia. } { done. } { rewrite M4. cbn. rewrite Hus. by apply (fa_free_usable _ (vi_fa _ _ Hinv)). }
    { rewrite M5. cbn. rewrite Hfr. set_solver. }
    assert (fa_free pm' = fa_free (frames (vm m))) as Hback.
    { rewrite Hfr', M5. cbn. rewrite Hfr. apply set_eq. intros x. destruct (decide (x = g / 4096)) as [->|]; set_solver. }
    split; [split|split; [done|]].
    + destruct M2 as [I1 I2 I3 I4 I5 I6 I7]. split; try done.
      * intros q L Hq. cbn. rewrite Hback. by apply (vi_free _ _ Hinv q L).
      * intros q L i Hq Hi Ht Hb. cbn. rewrite Hus'. by eapply I6.
    + done.
    + intros va' Hva'. eapply backed_up_to_user; [|by apply (sp_query _ _ _ _ Hs)]. cbn.
      change (vmm_query_page_in p va' (with_frames pm' s2)) with (vmm_query_page_in p va' s2). rewrite <- Hq1.
      by eapply (walks_eq_query T T).
    + intros va' f fl' H. destruct (sp_frame _ _ _ _ Hs _ _ _ H) as (? & ? & ? & ? & ?). cbn.
      rewrite Hus', M4, Hback. cbn. rewrite Hus. done.
    + apply (sp_inj _ _ _ _ Hs).
    + intros va' Hva'. apply (Mopen p 3%nat va' Hroot). by apply (sp_open _ _ _ _ Hs).
    + destruct M8 as [Hn|Hn].
      * exfalso. apply (Hn ACC0). rewrite <- (query_walk T s1 p va HT1 Hroot), Hq1.
        pose proof (sp_query _ _ _ _ Hs va Hva) as Hb. by rewrite HP in Hb.
      * cbn in Hn. lia.
  - destruct (map_done_query T s1 T' s2 p va g fl t E1) as (Q1 & _ & Q5);
      [done|done|by apply user_page_u64|apply Hfl|change (2 ^ 52) with 4503599627370496; lia|done|done|].
    destruct (map_done_rights T s1 T' s2 p va g fl t E1) as (fq & Q2 & Q3 & Q4);
      [done|done|by apply user_page_u64|apply Hfl|change (2 ^ 52) with 4503599627370496; lia|done
      |by apply (sp_open _ _ _ _ Hs)|done|].
    destruct Hm as [M1 M2 M3 M4 M5 M6 M7 M8 M9 M10 M11 M12 M13 M14 M15 M16 Mopen].
    exists T'. split; [done|]. split; [split|].
    + done.
    + by eapply lookup_weaken.
    + intros va' Hva'. destruct (decide (va' = va)) as [->|Hne].
      { rewrite lookup_insert_eq. exists fq. done. }
      rewrite lookup_insert_ne by done. eapply backed_up_to_user; [|by apply (sp_query _ _ _ _ Hs)].
      rewrite <- Hq1. apply Q5; [done|by apply user_page_canonical|]. left. unfold user_page in *. zsolve.
    + intros va' f fl' [[<- [= <- <-]]|[Hne H]]%lookup_insert_Some.
      * cbn. rewrite M12. cbn. rewrite Hus. cbn in M13. rewrite Hfr in M13. split_and!; try done; [zsolve|..].
        -- by apply (fa_free_usable _ (vi_fa _ _ Hinv)).
        -- set_solver.
        -- destruct (T' !! g) as [L|] eqn:E; [|done]. destruct (M15 g L E) as [?|H]; [congruence|].
           cbn in H. rewrite Hfr in H. set_solver.
      * destruct (sp_frame _ _ _ _ Hs _ _ _ H) as (? & ? & ? & ? & ?). cbn. rewrite M12. cbn. rewrite Hus.
        cbn in M13. rewrite Hfr in M13. split_and!; try done; [set_solver|].
        destruct (T' !! f) as [L|] eqn:E; [|done]. destruct (M15 f L E) as [?|H']; [congruence|].
        cbn in H'. rewrite Hfr in H'. set_solver.
    + intros va1 va2 f f1 f2 [[<- E1']|[N1 H1]]%lookup_insert_Some [[<- E2']|[N2 H2]]%lookup_insert_Some; simplify_eq.
      * done.
      * by destruct (HPg _ _ _ H2).
      * by destruct (HPg _ _ _ H1).
      * by eapply (sp_inj _ _ _ _ Hs).
    + intros va' Hva'. apply (Mopen p 3%nat va' Hroot). by apply (sp_open _ _ _ _ Hs).
    + split_and!; try done; [lia|]. cbn. cbn in M16. lia.
Qed.

(** ** Writing through the direct map *)

Lemma space_ram T p P m r : space T p P m → space T p P (with_ram r m).
Proof. intros [H1 H2 H3 H4 H5 H6]. by split. Qed.

Lemma user_byte_write T p P m va f fl o bs x :
  space T p P m → P !! va = Some (f, fl) → user_page va → 0 ≤ o → o + Z.of_nat (length bs) ≤ 4096 →
  0 ≤ x < USER_LIMIT →
  user_byte p x (with_ram (write_bytes (f + o) bs (ram m)) m) =
    if decide (va + o ≤ x < va + o + Z.of_nat (length bs)) then bs !! Z.to_nat (x - (va + o)) else user_byte p x m.
Proof.
  intros Hs HP [Hva Hvm] Ho Hl Hx. rewrite (user_byte_space T p P) by (done || by apply space_ram).
  rewrite (user_byte_space T p P m) by done. cbn [ram with_ram].
  destruct (sp_frame _ _ _ _ Hs _ _ _ HP) as (Hf & _).
  destruct (decide (page_of x = va)) as [He|Hne].
  - rewrite He, HP, lookup_write_bytes. unfold page_of in He.
    destruct (decide (va + o ≤ x < va + o + Z.of_nat (length bs))).
    + rewrite decide_True by zsolve. f_equal. zsolve.
    + by rewrite decide_False by zsolve.
  - rewrite decide_False by (unfold page_of in Hne; zsolve).
    destruct (P !! page_of x) as [[f' fl']|] eqn:E; [|done]. rewrite lookup_write_bytes.
    assert (f' ≠ f) as Hff by (intros ->; apply Hne; by eapply (sp_inj _ _ _ _ Hs)).
    destruct (sp_frame _ _ _ _ Hs _ _ _ E) as (Hf' & _). rewrite decide_False; [done|]. zsolve.
Qed.

Lemma user_byte_zero T p P m va f fl x :
  space T p P m → P !! va = Some (f, fl) → user_page va → 0 ≤ x < USER_LIMIT →
  user_byte p x (with_ram (zero_frame f (ram m)) m) = if decide (page_of x = va) then Some 0 else user_byte p x m.
Proof.
  intros Hs HP Hva Hx. unfold zero_frame. rewrite <- (Z.add_0_r f) at 1.
  rewrite (user_byte_write T p P m va f fl) by (done || (rewrite length_replicate; lia)).
  rewrite length_replicate. change (Z.of_nat 4096) with 4096. destruct Hva as [Hva Hvm]. unfold page_of.
  destruct (decide (x / 4096 * 4096 = va)).
  - rewrite decide_True by zsolve. apply lookup_replicate_2. zsolve.
  - by rewrite decide_False by zsolve.
Qed.

(** A page that was not there: its bytes are not readable before it is mapped. *)
Lemma user_byte_new T T' p P m m' va f fl x :
  space T p P m → space T' p (<[va := (f, fl)]> P) m' → ram m' = ram m → 0 ≤ x < USER_LIMIT → page_of x ≠ va →
  user_byte p x m' = user_byte p x m.
Proof.
  intros Hs Hs' Hr Hx Hne. rewrite (user_byte_space _ _ _ _ _ Hs), (user_byte_space _ _ _ _ _ Hs') by done.
  by rewrite lookup_insert_ne, Hr by done.
Qed.

Lemma user_byte_unmapped T p P m x : space T p P m → 0 ≤ x < USER_LIMIT → P !! page_of x = None → user_byte p x m = None.
Proof. intros Hs Hx HP. by rewrite (user_byte_space _ _ _ _ _ Hs), HP. Qed.

(** [page p va m]: the page is there, fresh pages are zeroed. *)
Lemma fresh_page_spec T p P m va fl :
  space T p P m → user_page va → P !! va = None → user_flags fl →
  match map_new_page p va fl m with
  | (Some f, m') =>
      ∃ T', T ⊆ T' ∧ space T' p (<[va := (f, fl)]> P) (with_ram (zero_frame f (ram m')) m') ∧
        (∀ x, 0 ≤ x < USER_LIMIT →
           user_byte p x (with_ram (zero_frame f (ram m')) m') = if decide (page_of x = va) then Some 0 else user_byte p x m) ∧
        (free_count m ≤ free_count m' + 4)%nat
  | (None, m') => space T p P m' ∧ ram m' = ram m ∧ (free_count m < 4)%nat
  end.
Proof.
  intros Hs Hva HP Hfl. pose proof (map_new_page_spec T p P m va fl Hs Hva HP Hfl) as H.
  destruct (map_new_page p va fl m) as [[f|] m']; [|done]. destruct H as (T' & HT & Hs' & Hr & _ & _ & _ & Hc).
  exists T'. split; [done|]. split; [by apply space_ram|]. split; [|done]. intros x Hx.
  rewrite (user_byte_zero T' p (<[va := (f, fl)]> P) m' va f fl) by (done || apply lookup_insert_eq).
  case_decide as Hd; [done|]. by eapply user_byte_new.
Qed.

(** ** Segments *)

(** What the loader leaves at [x] when it loads [h] over the byte [old]. *)
Definition seg_byte (data : list Z) (h : Elf64_Phdr) (x : Z) (old : option Z) : Z :=
  if decide (p_vaddr h ≤ x < p_vaddr h + p_filesz h) then get_byte data (p_offset h + (x - p_vaddr h)) else default 0 old.

Lemma copy_page_bytes data h va :
  good_segment (Z.of_nat (length data)) h → Z.of_nat (length data) < W64 → 0 < p_memsz h → user_page va →
  (∀ r f, copy_page data h va f r = r) ∧ (∀ x, va ≤ x < va + 4096 → ¬ (p_vaddr h ≤ x < p_vaddr h + p_filesz h)) ∨
  ∃ o bs, 0 ≤ o ∧ o + Z.of_nat (length bs) ≤ 4096 ∧ (∀ r f, copy_page data h va f r = write_bytes (f + o) bs r) ∧
    ∀ x, va ≤ x < va + 4096 →
      (va + o ≤ x < va + o + Z.of_nat (length bs) ↔ p_vaddr h ≤ x < p_vaddr h + p_filesz h) ∧
      (va + o ≤ x < va + o + Z.of_nat (length bs) →
        bs !! Z.to_nat (x - (va + o)) = Some (get_byte data (p_offset h + (x - p_vaddr h)))).
Proof.
  intros [G1 G2 G3] Hlen Hm [Hva Hvm]. specialize (G3 Hm). unfold copy_page.
  assert (u64 (p_vaddr h + p_filesz h) = p_vaddr h + p_filesz h) as -> by (apply u64_small; unfold is_u64, USER_LIMIT, W64 in *; lia).
  assert (u64 (va + PAGE_SIZE) = va + 4096) as -> by (apply u64_small; unfold is_u64, PAGE_SIZE, USER_LIMIT, W64 in *; lia).
  destruct (Z.ltb_spec (Z.max (p_vaddr h) va) (Z.min (p_vaddr h + p_filesz h) (va + 4096))) as [Hlt|Hge].
  - right. set (a := Z.max (p_vaddr h) va) in *. set (b := Z.min (p_vaddr h + p_filesz h) (va + 4096)) in *.
    assert (u64 (p_offset h + (a - p_vaddr h)) = p_offset h + (a - p_vaddr h)) as -> by (apply u64_small; unfold is_u64; lia).
    exists (a - va), (slice data (p_offset h + (a - p_vaddr h)) (Z.to_nat (b - a))).
    rewrite length_slice_full by lia. split; [lia|]. split; [lia|]. split; [done|]. intros x Hx. split; [lia|].
    intros Hin. rewrite lookup_slice, decide_True by lia. unfold get_byte.
    replace (Z.to_nat (p_offset h + (a - p_vaddr h)) + Z.to_nat (x - (va + (a - va))))%nat
      with (Z.to_nat (p_offset h + (x - p_vaddr h))) by lia.
    destruct (lookup_lt_is_Some_2 data (Z.to_nat (p_offset h + (x - p_vaddr h)))) as [v ->]; [lia|done].
  - left. split; [done|]. lia.
Qed.

Lemma copy_page_spec data T p P m h va f fl x :
  good_segment (Z.of_nat (length data)) h → Z.of_nat (length data) < W64 → 0 < p_memsz h → user_page va →
  space T p P m → P !! va = Some (f, fl) → 0 ≤ x < USER_LIMIT → (page_of x = va → is_Some (user_byte p x m)) →
  user_byte p x (with_ram (copy_page data h va f (ram m)) m) =
    if decide (page_of x = va) then Some (seg_byte data h x (user_byte p x m)) else user_byte p x m.
Proof.
  intros Hg Hlen Hm Hva Hs HP Hx Hold. unfold seg_byte.
  assert (page_of x = va ↔ va ≤ x < va + 4096) as Hpage by (unfold user_page, page_of in *; zsolve).
  destruct (copy_page_bytes data h va Hg Hlen Hm Hva) as [[Hc Hout]|(o & bs & Ho & Hl & Hc & Hin)].
  - rewrite Hc. replace (with_ram (ram m) m) with m by (by destruct m). case_decide as Hd; [|done].
    destruct (Hold Hd) as [v ->]. rewrite decide_False; [done|]. apply Hout. tauto.
  - rewrite Hc, (user_byte_write T p P m va f fl) by done.
    destruct (decide (page_of x = va)) as [Hd|Hd].
    + destruct (Hin x) as [Hiff Hval]; [tauto|]. destruct (Hold Hd) as [v ->].
      case_decide as H1; [rewrite decide_True by tauto; by apply Hval|by rewrite decide_False by tauto].
    + rewrite decide_False; [done|]. lia.
Qed.

(** Every byte of a mapped page can be read. *)
Definition filled (p : Z) P m : Prop :=
  ∀ x, 0 ≤ x < USER_LIMIT → is_Some (P !! page_of x) → is_Some (user_byte p x m).

(** [P'] has the pages of [P], and new ones only between [lo] and [hi] with the rights [fl]. *)
Definition grown P P' (lo hi fl : Z) : Prop :=
  P ⊆ P' ∧ ∀ va e, P' !! va = Some e → P !! va = Some e ∨ (lo ≤ va < hi ∧ va mod 4096 = 0 ∧ e.2 = fl).

Lemma segment_flags_ok h : user_flags (segment_flags h).
Proof.
  unfold user_flags, segment_flags, is_u64.
  destruct (Z.land (p_flags h) PF_W =? 0), (Z.land (p_flags h) PF_X =? 0); vm_compute; split_and!; done.
Qed.

Lemma segment_flags_bits h :
  0 ≤ p_flags h → Z.testbit (segment_flags h) 1 = Z.testbit (p_flags h) 1 ∧ Z.testbit (segment_flags h) 63 = negb (Z.testbit (p_flags h) 0).
Proof.
  intros H0. unfold segment_flags. change PF_W with (2 ^ 1). change PF_X with (2 ^ 0).
  assert (∀ n, 0 ≤ n → (Z.land (p_flags h) (2 ^ n) =? 0) = negb (Z.testbit (p_flags h) n)) as E.
  { intros n Hn. destruct (Z.testbit (p_flags h) n) eqn:Et; cbn [negb].
    - apply Z.eqb_neq. intros H. apply (f_equal (λ z, Z.testbit z n)) in H.
      rewrite Z.land_spec, Et, Z.pow2_bits_true, Z.bits_0 in H by lia. done.
    - apply Z.eqb_eq. apply Z.bits_inj_0. intros i. rewrite Z.land_spec, Z.pow2_bits_eqb by lia.
      destruct (Z.eqb_spec n i) as [<-|]; [by rewrite Et|apply andb_false_r]. }
  rewrite !E by lia. destruct (Z.testbit (p_flags h) 1), (Z.testbit (p_flags h) 0); done.
Qed.

(** One page of a segment: it is there already, or it is mapped and zeroed; then
    the part of the file is copied. *)
Definition load_page (data : list Z) (p : Z) (h : Elf64_Phdr) (va : Z) m : bool * machine PM := load_pages data p h 1 va m.

Lemma load_pages_step data p h n va m :
  load_pages data p h (S n) va m =
    match load_page data p h va m with (true, m) => load_pages data p h n (va + PAGE_SIZE) m | (false, m) => (false, m) end.
Proof.
  unfold load_page. cbn [load_pages]. destruct (vmm_query_page_in p va (vm m)) as [[f g]|]; [done|].
  by destruct (map_new_page p va (segment_flags h) m) as [[f|] m'].
Qed.

Lemma load_page_spec data T p P m h va :
  good_segment (Z.of_nat (length data)) h → Z.of_nat (length data) < W64 → 0 < p_memsz h → user_page va →
  space T p P m → filled p P m →
  match load_page data p h va m with
  | (true, m') =>
      ∃ T' P', T ⊆ T' ∧ space T' p P' m' ∧ filled p P' m' ∧ grown P P' va (va + 4096) (segment_flags h) ∧ is_Some (P' !! va) ∧
        (∀ x, 0 ≤ x < USER_LIMIT → user_byte p x m' =
           if decide (page_of x = va) then Some (seg_byte data h x (user_byte p x m)) else user_byte p x m) ∧
        (free_count m ≤ free_count m' + 4)%nat
  | (false, m') => (free_count m < 4)%nat
  end.
Proof.
  intros Hg Hlen Hm Hva Hs Hfill. unfold load_page. cbn [load_pages].
  pose proof (sp_query _ _ _ _ Hs va Hva) as Hq. destruct (P !! va) as [[f fl]|] eqn:HP; cbn [backed] in Hq.
  - destruct Hq as (g & -> & _). exists T, P. split; [done|]. split; [by apply space_ram|].
    assert (∀ x, 0 ≤ x < USER_LIMIT → user_byte p x (with_ram (copy_page data h va f (ram m)) m) =
      if decide (page_of x = va) then Some (seg_byte data h x (user_byte p x m)) else user_byte p x m) as Hb.
    { intros x Hx. apply (copy_page_spec data T p P m h va f fl x); try done. intros Hpx. apply Hfill; [done|]. rewrite Hpx. by eexists. }
    split; [|split; [split; [done|by left]|split; [by eexists|split; [done|unfold free_count; cbn; lia]]]].
    intros x Hx HPx. rewrite Hb by done. case_decide; [by eexists|by apply Hfill].
  - rewrite Hq. pose proof (fresh_page_spec T p P m va (segment_flags h) Hs Hva HP (segment_flags_ok h)) as Hn.
    destruct (map_new_page p va (segment_flags h) m) as [[f|] m1]; [|by destruct Hn as (_ & _ & Hn)].
    destruct Hn as (T' & HT & Hs' & Hz & Hc). set (m2 := with_ram (zero_frame f (ram m1)) m1) in *.
    set (P' := <[va := (f, segment_flags h)]> P) in *.
    assert (P' !! va = Some (f, segment_flags h)) as HP' by apply lookup_insert_eq.
    assert (∀ x, 0 ≤ x < USER_LIMIT → user_byte p x (with_ram (copy_page data h va f (ram m2)) m2) =
      if decide (page_of x = va) then Some (seg_byte data h x (user_byte p x m)) else user_byte p x m) as Hb.
    { intros x Hx. rewrite (copy_page_spec data T' p P' m2 h va f _ x Hg Hlen Hm Hva Hs' HP' Hx).
      - rewrite Hz by done. case_decide as Hd; [|done]. f_equal. unfold seg_byte.
        by rewrite (user_byte_unmapped T p P m x) by (done || by rewrite Hd).
      - intros Hd. rewrite Hz by done. rewrite decide_True by done. by eexists. }
    exists T', P'. split; [done|]. split; [by apply space_ram|].
    split; [|split; [split|split; [by eexists|split; [done|exact Hc]]]].
    + intros x Hx HPx. rewrite Hb by done. case_decide; [by eexists|]. apply Hfill; [done|].
      unfold P' in HPx. by rewrite lookup_insert_ne in HPx by done.
    + by apply insert_subseteq.
    + intros va' e [[<- <-]|[_ H]]%lookup_insert_Some; [right; split; [lia|split; [apply Hva|done]]|by left].
Qed.

Lemma grown_trans P P1 P2 lo mid hi fl :
  lo ≤ mid ≤ hi → grown P P1 lo mid fl → grown P1 P2 mid hi fl → grown P P2 lo hi fl.
Proof.
  intros Hl [S1 G1] [S2 G2]. split; [by etrans|]. intros va e H.
  destruct (G2 va e H) as [H1|[H1 He]]; [|right; split; [lia|done]].
  destruct (G1 va e H1) as [H2|[H2 He]]; [by left|right; split; [lia|done]].
Qed.

Lemma load_pages_spec data p h n : ∀ T P m va,
  good_segment (Z.of_nat (length data)) h → Z.of_nat (length data) < W64 → 0 < p_memsz h →
  0 ≤ va → va mod 4096 = 0 → va + Z.of_nat n * 4096 ≤ USER_LIMIT → space T p P m → filled p P m →
  match load_pages data p h n va m with
  | (true, m') =>
      ∃ T' P', T ⊆ T' ∧ space T' p P' m' ∧ filled p P' m' ∧ grown P P' va (va + Z.of_nat n * 4096) (segment_flags h) ∧
        (∀ x, 0 ≤ x < USER_LIMIT → user_byte p x m' =
           if decide (va ≤ x < va + Z.of_nat n * 4096) then Some (seg_byte data h x (user_byte p x m)) else user_byte p x m) ∧
        (free_count m ≤ free_count m' + 4 * n)%nat
  | (false, m') => (free_count m < 4 * n)%nat
  end.
Proof.
  induction n as [|n IH]; intros T P m va Hg Hlen Hm H0 Hva Hend Hs Hfill.
  - exists T, P. split_and!; try done; [split; [done|by left]| |lia]. intros x Hx. by rewrite decide_False by lia.
  - rewrite load_pages_step. assert (user_page va) as Hup by (split; [lia|done]).
    pose proof (load_page_spec data T p P m h va Hg Hlen Hm Hup Hs Hfill) as H1.
    destruct (load_page data p h va m) as [[] m1]; [|lia].
    destruct H1 as (T1 & P1 & HT1 & Hs1 & Hf1 & Hgr1 & _ & Hb1 & Hc1).
    specialize (IH T1 P1 m1 (va + PAGE_SIZE) Hg Hlen Hm). unfold PAGE_SIZE in *.
    specialize (IH ltac:(lia) ltac:(zsolve) ltac:(lia) Hs1 Hf1).
    destruct (load_pages data p h n (va + 4096) m1) as [[] m2]; [|lia].
    destruct IH as (T2 & P2 & HT2 & Hs2 & Hf2 & Hgr2 & Hb2 & Hc2). exists T2, P2. split_and!; try done; [by etrans| | |lia].
    + eapply grown_trans; [|exact Hgr1|]; [lia|]. by replace (va + Z.of_nat (S n) * 4096) with (va + 4096 + Z.of_nat n * 4096) by lia.
    + intros x Hx. rewrite Hb2, Hb1 by done.
      assert (page_of x = va ↔ va ≤ x < va + 4096) as Hpage by (unfold page_of; zsolve).
      destruct (decide (page_of x = va)) as [Hd|Hd].
      * rewrite decide_False, decide_True by lia. done.
      * destruct (decide (va + 4096 ≤ x < va + 4096 + Z.of_nat n * 4096)); [by rewrite decide_True by lia|by rewrite decide_False by lia].
Qed.

(** The number of pages of a segment, and where they lie. *)
Definition segment_pages (h : Elf64_Phdr) : nat :=
  if p_memsz h =? 0 then 0%nat else Z.to_nat ((segment_stop h - segment_start h) / PAGE_SIZE).

Definition in_segment (h : Elf64_Phdr) (x : Z) : Prop := p_vaddr h ≤ x < p_vaddr h + p_memsz h.

(** The page at [va] and the segment have a byte in common. *)
Definition touches (h : Elf64_Phdr) (va : Z) : Prop := va < p_vaddr h + p_memsz h ∧ p_vaddr h < va + 4096.

(** The segment has a byte in the page at [va]; the first of the file that has
    one gives the page its rights. *)
Definition covers (h : Elf64_Phdr) (va : Z) : Prop := 0 < p_memsz h ∧ touches h va.

#[export] Instance covers_dec h va : Decision (covers h va).
Proof. unfold covers, touches. apply _. Defined.

Definition page_segment (l : list Elf64_Phdr) (va : Z) : option Elf64_Phdr := head (filter (λ h, covers h va) l).

Lemma page_segment_cons h l va :
  page_segment (h :: l) va = if decide (covers h va) then Some h else page_segment l va.
Proof. unfold page_segment. rewrite filter_cons. by case_decide. Qed.

Lemma page_segment_Some l va h : page_segment l va = Some h → h ∈ l ∧ covers h va.
Proof.
  unfold page_segment. intros H. assert (h ∈ filter (λ h, covers h va) l) as [Hc Hl]%list_elem_of_filter; [|done].
  destruct (filter _ l) as [|k ks]; [done|]. injection H as ->. by left.
Qed.

Lemma segment_span size h :
  good_segment size h → 0 < p_memsz h →
  let n := Z.to_nat ((segment_stop h - segment_start h) / PAGE_SIZE) in
  0 ≤ segment_start h ∧ segment_start h mod 4096 = 0 ∧ segment_start h + Z.of_nat n * 4096 ≤ USER_LIMIT ∧
  segment_start h ≤ p_vaddr h ∧ p_vaddr h < segment_start h + 4096 ∧
  p_vaddr h + p_memsz h ≤ segment_start h + Z.of_nat n * 4096 ∧ segment_start h + Z.of_nat n * 4096 < p_vaddr h + p_memsz h + 4096.
Proof.
  intros [G1 G2 G3] Hm. specialize (G3 Hm). unfold segment_start, segment_stop, PAGE_SIZE, USER_LIMIT in *.
  change (4096 - 1) with (Z.ones 12). rewrite (u64_small (p_vaddr h + p_memsz h + 4096 - 1)) by (unfold is_u64, W64; lia).
  rewrite !land_not64_ones by (unfold is_u64, W64; lia). change (2 ^ 12) with 4096. cbv zeta.
  set (v := p_vaddr h) in *. set (e := p_vaddr h + p_memsz h + 4096 - 1) in *. rewrite Z2Nat.id; zsolve.
Qed.

Definition total_pages (l : list Elf64_Phdr) : nat := sum_list (segment_pages <$> l).

Lemma total_pages_cons h l : total_pages (h :: l) = (segment_pages h + total_pages l)%nat.
Proof. done. Qed.

(** The segments can be written over what is there. *)
Definition blank (p : Z) (l : list Elf64_Phdr) m : Prop :=
  ∀ h x, h ∈ l → in_segment h x → user_byte p x m = None ∨ user_byte p x m = Some 0.

Record loaded (data : list Z) (p : Z) (l : list Elf64_Phdr) T P m T' P' m' : Prop := {
  ld_tables : T ⊆ T';
  ld_space : space T' p P' m';
  ld_filled : filled p P' m';
  ld_pages : P ⊆ P';
  ld_rights va : user_page va → P !! va = None → Datatypes.snd <$> P' !! va = segment_flags <$> page_segment l va;
  ld_segments h k : h ∈ l → 0 ≤ k < p_memsz h →
    user_byte p (p_vaddr h + k) m' = Some (if decide (k < p_filesz h) then get_byte data (p_offset h + k) else 0);
  ld_others x : 0 ≤ x < USER_LIMIT → (∀ h, h ∈ l → ¬ in_segment h x) →
    user_byte p x m' = user_byte p x m ∨ (user_byte p x m = None ∧ user_byte p x m' = Some 0);
  ld_frames : (free_count m ≤ free_count m' + 4 * total_pages l)%nat;
}.

Lemma loaded_nil data p T P m : space T p P m → filled p P m → loaded data p [] T P m T P m.
Proof.
  intros Hs Hf. split; try done; [by intros va _ ->|by intros h k ?%not_elem_of_nil|by left|lia].
Qed.

(** One segment. *)
Lemma load_segment_spec data p h T P m :
  good_segment (Z.of_nat (length data)) h → Z.of_nat (length data) < W64 → 0 < p_memsz h →
  space T p P m → filled p P m → blank p [h] m →
  match load_pages data p h (segment_pages h) (segment_start h) m with
  | (true, m') => ∃ T' P', loaded data p [h] T P m T' P' m'
  | (false, m') => (free_count m < 4 * segment_pages h)%nat
  end.
Proof.
  intros Hg Hlen Hm Hs Hf Hbl. destruct (segment_span _ h Hg Hm) as (S0 & S1 & S2 & S3 & S4 & S5 & S6).
  unfold segment_pages. destruct (Z.eqb_spec (p_memsz h) 0) as [|_]; [lia|].
  set (n := Z.to_nat _) in *.
  pose proof (load_pages_spec data p h n T P m (segment_start h) Hg Hlen Hm S0 S1 S2 Hs Hf) as H.
  destruct (load_pages _ _ _ _ _ _) as [[] m']; [|done]. destruct H as (T' & P' & HT & Hs' & Hf' & [Hsub Hgr] & Hb & Hc).
  destruct (gs_memory _ _ Hg Hm) as [G1 G2]. pose proof (gs_sizes _ _ Hg) as G3.
  exists T', P'. split; try done.
  - intros va [Hva Hvm] HP. rewrite page_segment_cons. change (page_segment [] va) with (@None Elf64_Phdr).
    assert (covers h va ↔ segment_start h ≤ va < segment_start h + Z.of_nat n * 4096) as Hcov.
    { unfold covers, touches. split; [intros (_ & ? & ?); zsolve|intros ?; split; [done|]; zsolve]. }
    destruct (decide (covers h va)) as [Hc1|Hn1].
    + assert (is_Some (P' !! va)) as [e He].
      { pose proof (user_byte_space _ _ _ _ va Hs' ltac:(lia)) as Hub. rewrite Hb, decide_True in Hub by (done || tauto).
        rewrite page_of_page in Hub by done. destruct (P' !! va); [by eexists|done]. }
      rewrite He. destruct (Hgr va e He) as [H0|(_ & _ & Hfl)]; [congruence|]. cbn. by rewrite Hfl.
    + destruct (P' !! va) as [e|] eqn:He; [|done]. destruct (Hgr va e He) as [H0|[Hr _]]; [congruence|].
      by destruct Hn1; apply Hcov.
  - intros h' k ->%list_elem_of_singleton Hk. rewrite Hb, decide_True by (unfold USER_LIMIT in *; lia). f_equal. unfold seg_byte.
    replace (p_offset h + (p_vaddr h + k - p_vaddr h)) with (p_offset h + k) by lia.
    destruct (decide (k < p_filesz h)); [by rewrite decide_True by lia|]. rewrite decide_False by lia.
    destruct (Hbl h (p_vaddr h + k)) as [-> | ->]; [by apply list_elem_of_singleton|unfold in_segment; lia|done|done].
  - intros x Hx Hout. rewrite Hb by done. case_decide; [|by left]. unfold seg_byte.
    rewrite decide_False by (intros ?; apply (Hout h); [by apply list_elem_of_singleton|unfold in_segment; lia]).
    destruct (user_byte p x m) as [v|]; [by left|by right].
  - rewrite total_pages_cons. unfold segment_pages. destruct (Z.eqb_spec (p_memsz h) 0) as [|_]; [lia|]. fold n. lia.
Qed.

Lemma in_segment_user size h x : good_segment size h → in_segment h x → 0 ≤ x < USER_LIMIT.
Proof. intros [G1 G2 G3] Hx. unfold in_segment in Hx. specialize (G3 ltac:(lia)). lia. Qed.

Lemma loaded_cons data p h l T P m T1 P1 m1 T2 P2 m2 :
  Forall (good_segment (Z.of_nat (length data))) (h :: l) → (∀ k, k ∈ l → seg_disjoint h k) →
  loaded data p [h] T P m T1 P1 m1 → loaded data p l T1 P1 m1 T2 P2 m2 → loaded data p (h :: l) T P m T2 P2 m2.
Proof.
  intros [Hg Hgl]%Forall_cons Hd [A1 A2 A3 A4 A5 A6 A7 A8] [B1 B2 B3 B4 B5 B6 B7 B8]. split; try done; [by etrans|by etrans|..].
  - intros va Hva HP. specialize (A5 va Hva HP). rewrite page_segment_cons in A5 |- *.
    change (page_segment [] va) with (@None Elf64_Phdr) in A5. destruct (decide (covers h va)).
    + destruct (P1 !! va) as [e|] eqn:E1; [|done]. by rewrite (lookup_weaken _ _ _ _ E1 B4).
    + apply B5; [done|]. by apply fmap_None in A5.
  - intros k i Hk Hi. apply elem_of_cons in Hk as [-> | Hk]; [|by apply B6].
    assert (in_segment h (p_vaddr h + i)) as Hin by (unfold in_segment; lia).
    pose proof (A6 h i (proj2 (list_elem_of_singleton h h) eq_refl) Hi) as Ha.
    destruct (B7 (p_vaddr h + i)) as [Hb|[Hb _]]; [by eapply in_segment_user| |by rewrite Hb|by rewrite Hb in Ha].
    intros k Hk Hin'. by apply (Hd k Hk _ Hin).
  - intros x Hx Hout. destruct (A7 x Hx) as [Ha|[Ha Ha']]; [intros k ->%list_elem_of_singleton; apply Hout; by left|..];
      (destruct (B7 x Hx) as [Hb|[Hb Hb']]; [intros k Hk; apply Hout; by right|..]); rewrite ?Hb, ?Hb', <- ?Ha; auto.
  - rewrite total_pages_cons in *. change (total_pages []) with 0%nat in A8. lia.
Qed.

Lemma blank_after data p h l T P m T1 P1 m1 :
  Forall (good_segment (Z.of_nat (length data))) l → (∀ k, k ∈ l → seg_disjoint h k) →
  blank p (h :: l) m → loaded data p [h] T P m T1 P1 m1 → blank p l m1.
Proof.
  intros Hg Hd Hbl Hl k x Hk Hx. pose proof (proj1 (Forall_forall _ _) Hg k Hk) as Hgk.
  destruct (ld_others _ _ _ _ _ _ _ _ _ Hl x) as [-> | [_ H]]; [by eapply in_segment_user| |apply (Hbl k); [by right|done]|by right].
  intros h' ->%list_elem_of_singleton Hin. by apply (Hd k Hk x).
Qed.

Lemma load_segments_spec data p l : ∀ T P m,
  Forall (good_segment (Z.of_nat (length data))) l → Z.of_nat (length data) < W64 →
  (∀ i j h k, (i < j)%nat → l !! i = Some h → l !! j = Some k → seg_disjoint h k) →
  space T p P m → filled p P m → blank p l m →
  match load_segments data p l m with
  | (true, m') => ∃ T' P', loaded data p l T P m T' P' m'
  | (false, m') => (free_count m < 4 * total_pages l)%nat
  end.
Proof.
  induction l as [|h l IH]; intros T P m Hg Hlen Hd Hs Hf Hbl; [exists T, P; by apply loaded_nil|].
  assert (∀ k, k ∈ l → seg_disjoint h k) as Hd0.
  { intros k [j Hj]%list_elem_of_lookup. by apply (Hd 0%nat (S j)); [lia|..]. }
  assert (∀ i j h k, (i < j)%nat → l !! i = Some h → l !! j = Some k → seg_disjoint h k) as Hd1.
  { intros i j h' k Hij. apply (Hd (S i) (S j)). lia. }
  pose proof Hg as [Hgh Hgl]%Forall_cons. cbn [load_segments]. rewrite total_pages_cons.
  pose proof (gs_sizes _ _ Hgh) as Hz.
  destruct (Z.eqb_spec (p_memsz h) 0) as [H0|Hm].
  - assert (blank p l m) as Hbl1 by (intros k x Hk; apply Hbl; by right).
    specialize (IH T P m Hgl Hlen Hd1 Hs Hf Hbl1). destruct (load_segments data p l m) as [[] m']; [|lia].
    destruct IH as (T' & P' & HL). exists T', P'. destruct HL as [B1 B2 B3 B4 B5 B6 B7 B8]. split; try done.
    + intros va Hva HP. rewrite page_segment_cons, decide_False by (intros [? _]; lia). by apply B5.
    + intros k i Hk Hi. apply elem_of_cons in Hk as [-> | Hk]; [lia|by apply B6].
    + intros x Hx Hout. apply B7; [done|]. intros k Hk. apply Hout. by right.
    + rewrite total_pages_cons. lia.
  - assert (blank p [h] m) as Hbl0 by (intros k x ->%list_elem_of_singleton; apply Hbl; by left).
    pose proof (load_segment_spec data p h T P m Hgh Hlen ltac:(lia) Hs Hf Hbl0) as H1.
    replace (Z.to_nat ((segment_stop h - segment_start h) / PAGE_SIZE)) with (segment_pages h)
      by (unfold segment_pages; by rewrite (proj2 (Z.eqb_neq _ _) Hm)).
    destruct (load_pages data p h (segment_pages h) (segment_start h) m) as [[] m1]; [|lia].
    destruct H1 as (T1 & P1 & HL1). pose proof (blank_after data p h l T P m T1 P1 m1 Hgl Hd0 Hbl HL1) as Hbl1.
    specialize (IH T1 P1 m1 Hgl Hlen Hd1 (ld_space _ _ _ _ _ _ _ _ _ HL1) (ld_filled _ _ _ _ _ _ _ _ _ HL1) Hbl1).
    pose proof (ld_frames _ _ _ _ _ _ _ _ _ HL1) as Hc. rewrite total_pages_cons in Hc. change (total_pages []) with 0%nat in Hc.
    destruct (load_segments data p l m1) as [[] m2]; [|lia]. destruct IH as (T2 & P2 & HL2).
    exists T2, P2. by eapply loaded_cons.
Qed.

End space.
