(* ===== verification/ElfStack.v ===== *)
(** * The initial user stack and the loaded program (src/fs/elf.c)

    [process_setup_user_stack] maps and clears the stack and lays out argc, argv
    and the strings the way the System V ABI wants them; [elf_load_binary] puts
    the segments and the stack together. *)

From Stdlib Require Import ZArith Lia.
From stdpp Require Import gmap.
From S2P Require Import Prelude Interfaces Vmm PageWalk VmmSpec Inet Bytes Elf ElfSpec.
#[local] Open Scope Z_scope.

Section stack.
Context {PM : Type} `{FA : FrameAllocator PM}.
Implicit Types m : machine PM.
Implicit Types T : gmap Z nat.
Implicit Types P : gmap Z (Z * Z).

(** ** The pages *)

Lemma stack_flags_ok : user_flags STACK_FLAGS.
Proof. split; [by vm_compute|done]. Qed.

Lemma stack_page_user i : 0 ≤ i < 16 → user_page (stack_page i).
Proof.
  intros Hi. unfold user_page, stack_page, USER_STACK_BOTTOM, USER_STACK_TOP, USER_STACK_SIZE, PAGE_SIZE, USER_LIMIT.
  split; [lia|]. rewrite Z.mod_add by lia. done.
Qed.

Lemma page_of_stack x i : page_of x = stack_page i ↔ stack_page i ≤ x < stack_page (i + 1).
Proof.
  unfold page_of, stack_page, USER_STACK_BOTTOM, USER_STACK_TOP, USER_STACK_SIZE, PAGE_SIZE. zsolve.
Qed.

(** The stack pages from [i] on are on the given frames. *)
Definition stack_on P (i : Z) (fs : list Z) : Prop :=
  ∀ j f, fs !! j = Some f → ∃ fl, P !! stack_page (i + Z.of_nat j) = Some (f, fl).

Record stack_mapped (p i : Z) (n : nat) (fs : list (Z * bool)) T P m T' P' m' : Prop := {
  sm_tables : T ⊆ T';
  sm_space : space T' p P' m';
  sm_filled : filled p P' m';
  sm_grown : grown P P' (stack_page i) (stack_page (i + Z.of_nat n)) STACK_FLAGS;
  sm_length : length fs = n;
  sm_frames : stack_on P' i (fst <$> fs);
  sm_bytes x : 0 ≤ x < USER_LIMIT →
    user_byte p x m' = if decide (stack_page i ≤ x < stack_page (i + Z.of_nat n)) then Some 0 else user_byte p x m;
  sm_count : (free_count m ≤ free_count m' + 4 * n)%nat;
}.

(** One page: the frame it is on after the round, zeroed. *)
Lemma stack_page_step p i (f : Z) (fresh : bool) n fs T P m T1 P1 m1 T2 P2 m2 :
  T ⊆ T1 → grown P P1 (stack_page i) (stack_page (i + 1)) STACK_FLAGS → (∃ fl, P1 !! stack_page i = Some (f, fl)) →
  (∀ x, 0 ≤ x < USER_LIMIT → user_byte p x m1 = if decide (page_of x = stack_page i) then Some 0 else user_byte p x m) →
  (free_count m ≤ free_count m1 + 4)%nat →
  stack_mapped p (i + 1) n fs T1 P1 m1 T2 P2 m2 → stack_mapped p i (S n) ((f, fresh) :: fs) T P m T2 P2 m2.
Proof.
  intros HT Hgr [fl HP] Hb Hc [S1 S2 S3 S4 S5 S6 S7 S8].
  replace (i + 1 + Z.of_nat n) with (i + Z.of_nat (S n)) in * by lia. split; try done.
  - by etrans.
  - eapply grown_trans; [|exact Hgr|exact S4]. unfold stack_page, PAGE_SIZE. lia.
  - simpl. by rewrite S5.
  - intros [|j] f' Hj; cbn in Hj.
    + injection Hj as <-. exists fl. rewrite Z.add_0_r. eapply lookup_weaken; [exact HP|apply S4].
    + destruct (S6 j f' Hj) as [fl' H]. exists fl'. by replace (i + Z.of_nat (S j)) with (i + 1 + Z.of_nat j) by lia.
  - intros x Hx. rewrite S7, Hb by done. pose proof (page_of_stack x i) as Hpg.
    assert (stack_page i ≤ stack_page (i + 1) ≤ stack_page (i + Z.of_nat (S n))) by (unfold stack_page, PAGE_SIZE; lia).
    destruct (decide (stack_page (i + 1) ≤ x < stack_page (i + Z.of_nat (S n)))).
    + by rewrite decide_True by lia.
    + destruct (decide (page_of x = stack_page i)); [by rewrite decide_True by lia|by rewrite decide_False by lia].
  - lia.
Qed.

Lemma map_stack_spec p n : ∀ i fs T P m,
  0 ≤ i → i + Z.of_nat n ≤ 16 → space T p P m → filled p P m →
  match map_stack p n i fs m with
  | (true, fs', m') => ∃ new T' P', fs' = fs ++ new ∧ stack_mapped p i n new T P m T' P' m'
  | (false, _, m') => (free_count m < 4 * n)%nat
  end.
Proof.
  induction n as [|n IH]; intros i fs T P m Hi Hn Hs Hf; cbn [map_stack].
  - exists [], T, P. rewrite app_nil_r. split; [done|]. split; try done; [split; [done|by left]| |lia].
    intros x _. change (Z.of_nat 0) with 0. rewrite Z.add_0_r. by rewrite decide_False by lia.
  - assert (user_page (stack_page i)) as Hup by (apply stack_page_user; lia).
    pose proof (sp_query _ _ _ _ Hs _ Hup) as Hq. destruct (P !! stack_page i) as [[f fl]|] eqn:HP; cbn [backed] in Hq.
    + destruct Hq as (g & -> & _). set (m1 := with_ram (zero_frame f (ram m)) m).
      assert (space T p P m1) as Hs1 by (by apply space_ram).
      pose proof (λ x, user_byte_zero T p P m (stack_page i) f fl x Hs HP Hup) as Hz. fold m1 in Hz.
      assert (filled p P m1) as Hf1 by (intros x Hx HPx; rewrite Hz by done; case_decide; [by eexists|by apply Hf]).
      specialize (IH (i + 1) (fs ++ [(f, false)]) T P m1 ltac:(lia) ltac:(lia) Hs1 Hf1).
      assert (free_count m1 = free_count m) as Hc1 by done.
      destruct (map_stack p n (i + 1) _ m1) as [[[] fs'] m2]; [|lia].
      destruct IH as (new & T2 & P2 & -> & HS). exists ((f, false) :: new), T2, P2. rewrite <- app_assoc. split; [done|].
      eapply stack_page_step; [..|exact HS]; [done|split; [done|by left]|by exists fl|done|lia].
    + rewrite Hq. pose proof (fresh_page_spec T p P m (stack_page i) STACK_FLAGS Hs Hup HP stack_flags_ok) as Hn'.
      destruct (map_new_page p (stack_page i) STACK_FLAGS m) as [[f|] m1]; [|destruct Hn' as (_ & _ & Hn'); lia].
      destruct Hn' as (T1 & HT1 & Hs1 & Hz & Hc). set (m2 := with_ram (zero_frame f (ram m1)) m1) in *.
      set (P1 := <[stack_page i := (f, STACK_FLAGS)]> P) in *.
      assert (filled p P1 m2) as Hf1.
      { intros x Hx HPx. rewrite Hz by done. case_decide as Hd; [by eexists|]. apply Hf; [done|].
        unfold P1 in HPx. by rewrite lookup_insert_ne in HPx by done. }
      specialize (IH (i + 1) (fs ++ [(f, true)]) T1 P1 m2 ltac:(lia) ltac:(lia) Hs1 Hf1).
      assert (free_count m2 = free_count m1) as Hc2 by done.
      destruct (map_stack p n (i + 1) _ m2) as [[[] fs'] m3]; [|lia].
      destruct IH as (new & T2 & P2 & -> & HS). exists ((f, true) :: new), T2, P2. rewrite <- app_assoc. split; [done|].
      eapply stack_page_step; [..|exact HS]; [done|split|exists STACK_FLAGS; apply lookup_insert_eq|done|lia].
      * by apply insert_subseteq.
      * intros va e [[<- <-]|[_ H]]%lookup_insert_Some; [right|by left].
        split; [unfold stack_page, PAGE_SIZE; lia|]. split; [apply Hup|done].
Qed.

(** ** Writing to the stack *)

(** [m'] differs from [m] in the bytes [bs] at [a]. *)
Definition wrote (p a : Z) (bs : list Z) m m' : Prop :=
  ∀ x, 0 ≤ x < USER_LIMIT →
    user_byte p x m' = if decide (a ≤ x < a + Z.of_nat (length bs)) then bs !! Z.to_nat (x - a) else user_byte p x m.

Lemma wrote_app p a bs cs m m1 m2 :
  wrote p a bs m m1 → wrote p (a + Z.of_nat (length bs)) cs m1 m2 → wrote p a (bs ++ cs) m m2.
Proof.
  intros H1 H2 x Hx. rewrite H2, H1, length_app by done.
  destruct (decide (a ≤ x < a + Z.of_nat (length bs))) as [Hi|Hi].
  - rewrite decide_False, decide_True by lia. rewrite lookup_app_l by lia. done.
  - destruct (decide (a + Z.of_nat (length bs) ≤ x < a + Z.of_nat (length bs) + Z.of_nat (length cs))).
    + rewrite decide_True by lia. rewrite lookup_app_r by lia. f_equal. lia.
    + by rewrite decide_False by lia.
Qed.

Lemma stack_write_loop_spec p T P fs fuel : ∀ a src m,
  space T p P m → stack_on P 0 fs → length fs = 16%nat → (length src ≤ fuel)%nat →
  USER_STACK_BOTTOM ≤ a → a + Z.of_nat (length src) ≤ USER_STACK_TOP →
  wrote p a src m (with_ram (stack_write_loop fuel fs a src (ram m)) m).
Proof.
  induction fuel as [|fuel IH]; intros a [|b src] m Hs Hon Hlen Hfuel Ha Hend; cbn [stack_write_loop];
    try (intros x Hx; rewrite decide_False by (simpl; lia); by destruct m).
  { simpl in Hfuel. lia. }
  set (bs := b :: src) in *. set (off := (a - USER_STACK_BOTTOM) mod PAGE_SIZE). set (idx := (a - USER_STACK_BOTTOM) / PAGE_SIZE).
  set (n := Z.min (PAGE_SIZE - off) (Z.of_nat (length bs))).
  assert (1 ≤ length bs)%nat as Hlb by (simpl; lia).
  assert (0 ≤ off < 4096 ∧ a = stack_page idx + off ∧ 0 ≤ idx < 16) as (Hoff & Hpa & Hidx).
  { unfold off, idx, stack_page, PAGE_SIZE in *.
    unfold USER_STACK_BOTTOM, USER_STACK_TOP, USER_STACK_SIZE in *. zsolve. }
  assert (1 ≤ n ∧ n ≤ 4096 - off ∧ n ≤ Z.of_nat (length bs)) as (Hn1 & Hn2 & Hn3) by (unfold n, PAGE_SIZE; lia).
  destruct (lookup_lt_is_Some_2 fs (Z.to_nat idx)) as [f Hf]; [lia|]. rewrite Hf. cbn [from_option id default].
  destruct (Hon _ _ Hf) as [fl HP]. rewrite Z2Nat.id, Z.add_0_l in HP by lia.
  assert (length (take (Z.to_nat n) bs) = Z.to_nat n) as Hlt by (rewrite length_take; lia).
  set (m1 := with_ram (write_bytes (f + off) (take (Z.to_nat n) bs) (ram m)) m).
  assert (wrote p a (take (Z.to_nat n) bs) m m1) as H1.
  { intros x Hx. unfold m1. rewrite (user_byte_write T p P m (stack_page idx) f fl off) by (done || lia || by apply stack_page_user).
    by rewrite <- Hpa. }
  rewrite <- (take_drop (Z.to_nat n) bs) at 1.
  eapply (wrote_app p a _ _ m m1); [done|]. rewrite Hlt, Z2Nat.id by lia.
  apply (IH (a + n) (drop (Z.to_nat n) bs) m1); try done.
  - by apply space_ram.
  - rewrite length_drop. lia.
  - lia.
  - rewrite length_drop. lia.
Qed.

Lemma stack_write_bytes_spec p T P fs a src m :
  space T p P m → stack_on P 0 fs → length fs = 16%nat → USER_STACK_BOTTOM ≤ a → a + Z.of_nat (length src) ≤ USER_STACK_TOP →
  ∃ r, stack_write_bytes fs a src (ram m) = Some r ∧ wrote p a src m (with_ram r m).
Proof.
  intros Hs Hon Hlen Ha Hend. unfold stack_write_bytes.
  rewrite u64_small by (unfold is_u64, USER_STACK_BOTTOM, USER_STACK_TOP, USER_STACK_SIZE, W64 in *; lia).
  rewrite Z.gtb_ltb. destruct (Z.ltb_spec a USER_STACK_BOTTOM); [lia|].
  destruct (Z.ltb_spec USER_STACK_TOP (a + Z.of_nat (length src))); [lia|]. cbn [orb].
  eexists. split; [done|]. by eapply stack_write_loop_spec.
Qed.

(** ** Arguments *)

(** The bytes the strings take, with their terminators. *)
Fixpoint string_bytes (args : list (list Z)) : Z :=
  match args with [] => 0 | a :: args => Z.of_nat (length a) + 1 + string_bytes args end.

(** The arguments fit into the stack. *)
Definition args_fit (args : list (list Z)) : bool :=
  forallb (λ a, Z.of_nat (length a) <=? 4096) args &&
  (string_bytes args + (5 + Z.of_nat (length args)) * 8 + 64 <=? USER_STACK_SIZE).

Lemma string_bytes_cons a args : string_bytes (a :: args) = Z.of_nat (length a) + 1 + string_bytes args.
Proof. done. Qed.

Lemma string_bytes_pos args : 0 ≤ string_bytes args.
Proof. induction args as [|a args IH]; [done|]. rewrite string_bytes_cons. lia. Qed.

Lemma argv_bytes_spec args : ∀ t,
  argv_bytes (Some <$> args) t =
    if forallb (λ a, Z.of_nat (length a) <=? 4096) args then Some (t + string_bytes args) else None.
Proof.
  induction args as [|a args IH]; intros t; cbn [fmap list_fmap argv_bytes forallb]; [by rewrite Z.add_0_r|].
  rewrite Z.gtb_ltb, Z.ltb_antisym. destruct (Z.of_nat (length a) <=? 4096); cbn [negb andb]; [|done].
  rewrite IH, string_bytes_cons. destruct (forallb _ args); [f_equal; lia|done].
Qed.

(** Where the strings are after [write_strings]. *)
Record strings_at (p lo hi : Z) (args : list (list Z)) (ptrs : list Z) m : Prop := {
  sa_length : length ptrs = length args;
  sa_string i a : args !! i = Some a → ∃ q, ptrs !! i = Some q ∧ lo ≤ q ∧ q + Z.of_nat (length a) + 1 ≤ hi ∧
    ∀ k b, (a ++ [0]) !! k = Some b → user_byte p (q + Z.of_nat k) m = Some b;
}.

Lemma stack_in_user x : USER_STACK_BOTTOM ≤ x < USER_STACK_TOP → 0 ≤ x < USER_LIMIT.
Proof. unfold USER_STACK_BOTTOM, USER_STACK_TOP, USER_STACK_SIZE, USER_LIMIT. lia. Qed.

Lemma wrote_inside p a bs m m' k b :
  wrote p a bs m m' → USER_STACK_BOTTOM ≤ a → a + Z.of_nat (length bs) ≤ USER_STACK_TOP → bs !! k = Some b →
  user_byte p (a + Z.of_nat k) m' = Some b.
Proof.
  intros Hw H0 H1 Hk. pose proof (lookup_lt_Some _ _ _ Hk) as Hlt. rewrite Hw by (apply stack_in_user; lia).
  rewrite decide_True by lia. rewrite <- Hk. f_equal. lia.
Qed.

Lemma write_strings_spec p T P fs args : ∀ sp ptrs m,
  space T p P m → stack_on P 0 fs → length fs = 16%nat →
  USER_STACK_BOTTOM ≤ sp - string_bytes args → sp ≤ USER_STACK_TOP →
  ∃ new r, write_strings fs (Some <$> args) sp ptrs (ram m) = Some (sp - string_bytes args, ptrs ++ new, r) ∧
    strings_at p (sp - string_bytes args) sp args new (with_ram r m) ∧
    ∀ x, 0 ≤ x < USER_LIMIT → ¬ (sp - string_bytes args ≤ x < sp) → user_byte p x (with_ram r m) = user_byte p x m.
Proof.
  induction args as [|a args IH]; intros sp ptrs m Hs Hon Hlen Hlo Hhi; cbn [fmap list_fmap write_strings].
  - exists [], (ram m). rewrite app_nil_r, Z.sub_0_r. split; [done|]. split; [by split|]. intros x _ _. by destruct m.
  - cbn [default from_option id]. rewrite string_bytes_cons in *. pose proof (string_bytes_pos args) as Hpos.
    rewrite length_app. cbn [length]. set (sp1 := sp - Z.of_nat (length a + 1)).
    assert (length (a ++ [0%Z]) = length a + 1)%nat as Hla by apply length_app.
    destruct (stack_write_bytes_spec p T P fs sp1 (a ++ [0]) m) as (r & -> & Hw); [done..|lia|lia|].
    destruct (IH sp1 (ptrs ++ [sp1]) (with_ram r m)) as (new & r' & Hws & Hstr & Hout); [by apply space_ram|done|done|lia|lia|].
    cbn [ram with_ram] in Hws. rewrite Hws.
    exists (sp1 :: new), r'. rewrite <- app_assoc. cbn [app].
    replace (sp - (Z.of_nat (length a) + 1 + string_bytes args)) with (sp1 - string_bytes args) by lia.
    split; [done|]. change (with_ram r' (with_ram r m)) with (with_ram r' m) in *. split; [split|].
    + simpl. by rewrite (sa_length _ _ _ _ _ _ Hstr).
    + intros [|i] a' Ha'; cbn in Ha'.
      * injection Ha' as <-. exists sp1. split; [done|]. split; [lia|]. split; [lia|]. intros k b Hk.
        pose proof (lookup_lt_Some _ _ _ Hk). rewrite Hout by (lia || apply stack_in_user; lia).
        eapply wrote_inside; [exact Hw|lia|lia|done].
      * destruct (sa_string _ _ _ _ _ _ Hstr i a' Ha') as (q & Hq & H1 & H2 & H3). exists q. split; [done|]. split; [done|]. split; [lia|done].
    + intros x Hx Hn. rewrite Hout by (done || lia). rewrite Hw by done. by rewrite decide_False by lia.
Qed.

(** ** The table *)

(** A 64-bit word the program reads. *)
Definition user_u64 (p x : Z) m : option Z :=
  le_int <$> mapM (λ k, user_byte p (x + Z.of_nat k) m) (seq 0 8).

Lemma length_quadwords l : length (quadwords l) = (8 * length l)%nat.
Proof.
  unfold quadwords. induction l as [|v l IH]; [done|]. cbn [fmap list_fmap concat]. rewrite length_app, length_le_bytes, IH. simpl. lia.
Qed.

Lemma quadwords_slice l : ∀ i v, l !! i = Some v → take 8 (drop (8 * i) (quadwords l)) = le_bytes 8 v.
Proof.
  induction l as [|w l IH]; intros [|i] v Hi; try done; cbn in Hi.
  - injection Hi as ->. done.
  - rewrite <- (IH i v Hi). change (quadwords (w :: l)) with (le_bytes 8 w ++ quadwords l).
    replace (8 * S i)%nat with (length (le_bytes 8 w) + 8 * i)%nat by (rewrite length_le_bytes; lia). by rewrite drop_app_add.
Qed.

Lemma mapM_bytes (g : nat → option Z) bs n :
  length bs = n → (∀ k b, bs !! k = Some b → g k = Some b) → mapM g (seq 0 n) = Some bs.
Proof.
  intros Hl Hg. apply mapM_Some. apply Forall2_same_length_lookup. split; [by rewrite length_seq|].
  intros i k b Hk Hb. apply lookup_seq in Hk as [-> _]. by apply Hg.
Qed.

Lemma user_u64_table p a l m m' i v :
  wrote p a (quadwords l) m m' → USER_STACK_BOTTOM ≤ a → a + Z.of_nat (length (quadwords l)) ≤ USER_STACK_TOP →
  l !! i = Some v → 0 ≤ v < W64 → user_u64 p (a + 8 * Z.of_nat i) m' = Some v.
Proof.
  intros Hw H0 H1 Hi Hv. unfold user_u64.
  rewrite (mapM_bytes _ (le_bytes 8 v) 8); [|apply length_le_bytes|].
  - cbn [fmap option_fmap option_map]. f_equal. by apply le_int_bytes.
  - intros k b Hk. rewrite <- (quadwords_slice l i v Hi) in Hk.
    apply lookup_take_Some in Hk as [Hk Hk8]. rewrite lookup_drop in Hk.
    replace (a + 8 * Z.of_nat i + Z.of_nat k) with (a + Z.of_nat (8 * i + k)) by lia. by eapply wrote_inside.
Qed.

(** What the program finds on its stack. *)
Record stack_layout (p rsp : Z) (args : list (list Z)) m : Prop := {
  sl_align : rsp mod 16 = 0;
  sl_range : USER_STACK_BOTTOM ≤ rsp ∧ rsp + (5 + Z.of_nat (length args)) * 8 ≤ USER_STACK_TOP;
  sl_argc : user_u64 p rsp m = Some (Z.of_nat (length args));
  sl_argv i a : args !! i = Some a → ∃ q,
    user_u64 p (rsp + 8 + 8 * Z.of_nat i) m = Some q ∧
    rsp + (5 + Z.of_nat (length args)) * 8 ≤ q ∧ q + Z.of_nat (length a) + 1 ≤ USER_STACK_TOP ∧
    ∀ k b, (a ++ [0]) !! k = Some b → user_byte p (q + Z.of_nat k) m = Some b;
  sl_nulls i : (i < 4)%nat → user_u64 p (rsp + 8 + 8 * Z.of_nat (length args + i)) m = Some 0;
}.

Lemma target_rsp_spec n : 0 ≤ n < W64 → let r := Z.land n (not64 15) in r mod 16 = 0 ∧ n - 16 < r ≤ n.
Proof. intros Hn. change 15 with (Z.ones 4). rewrite land_not64_ones by (unfold is_u64; lia). cbv zeta. change (2 ^ 4) with 16. zsolve. Qed.

Lemma layout_intro p T P fs args sp new m rsp m' :
  strings_at p sp USER_STACK_TOP args new m → Z.of_nat (length args) < W64 →
  rsp mod 16 = 0 → USER_STACK_BOTTOM ≤ rsp → rsp + (5 + Z.of_nat (length args)) * 8 ≤ sp ≤ USER_STACK_TOP →
  space T p P m → stack_on P 0 fs →
  wrote p rsp (quadwords (stack_table (Z.of_nat (length args)) new)) m m' → stack_layout p rsp args m'.
Proof.
  intros Hstr Hlt Hal Hlo Hsp Hs Hon Hw. pose proof (sa_length _ _ _ _ _ _ Hstr) as Hnew.
  assert (length (quadwords (stack_table (Z.of_nat (length args)) new)) = 8 * (5 + length args))%nat as Hq.
  { rewrite length_quadwords. unfold stack_table. rewrite !length_app, Hnew. simpl. lia. }
  assert (Htab : ∀ i v, stack_table (Z.of_nat (length args)) new !! i = Some v → 0 ≤ v < W64 →
                        user_u64 p (rsp + 8 * Z.of_nat i) m' = Some v).
  { intros i v Hi Hv. eapply user_u64_table; [exact Hw|done|lia|done|done]. }
  split; [done|lia|..].
  - specialize (Htab 0%nat (Z.of_nat (length args)) eq_refl ltac:(lia)). by rewrite Z.add_0_r in Htab.
  - intros i a Hi. destruct (sa_string _ _ _ _ _ _ Hstr i a Hi) as (q & Hqi & H1 & H2 & H3). exists q.
    split; [|split; [lia|split; [lia|]]].
    + replace (rsp + 8 + 8 * Z.of_nat i) with (rsp + 8 * Z.of_nat (S i)) by lia. apply Htab.
      * change ((new ++ [0; 0; 0; 0]) !! i = Some q). by rewrite lookup_app_l by (by eapply lookup_lt_Some).
      * unfold USER_STACK_BOTTOM, USER_STACK_TOP, USER_STACK_SIZE, W64 in *. lia.
    + intros k b Hk. pose proof (lookup_lt_Some _ _ _ Hk) as Hkl. rewrite length_app in Hkl. cbn [length] in Hkl.
      rewrite Hw by (apply stack_in_user; lia). rewrite decide_False by lia. by apply H3.
  - intros i Hi. replace (rsp + 8 + 8 * Z.of_nat (length args + i)) with (rsp + 8 * Z.of_nat (S (length args + i))) by lia.
    apply Htab; [|done]. change ((new ++ [0; 0; 0; 0]) !! (length args + i)%nat = Some 0). rewrite lookup_app_r, Hnew by lia.
    replace (length args + i - length args)%nat with i by lia. do 4 (destruct i as [|i]; [done|]). lia.
Qed.

Lemma fill_stack_spec p T P fs args m :
  space T p P m → stack_on P 0 fs → length fs = 16%nat →
  if args_fit args then
    ∃ rsp r, fill_stack fs (Some <$> args) (ram m) = Some (rsp, r) ∧ stack_layout p rsp args (with_ram r m) ∧
      ∀ x, 0 ≤ x < USER_LIMIT → ¬ (USER_STACK_BOTTOM ≤ x < USER_STACK_TOP) → user_byte p x (with_ram r m) = user_byte p x m
  else fill_stack fs (Some <$> args) (ram m) = None.
Proof.
  intros Hs Hon Hlen. unfold args_fit, fill_stack. rewrite length_fmap, argv_bytes_spec, Z.add_0_l.
  destruct (forallb _ args); cbn [andb]; [|done]. pose proof (string_bytes_pos args) as Hpos.
  set (tb := (1 + Z.of_nat (length args) + 1 + 1 + 2) * 8).
  replace ((5 + Z.of_nat (length args)) * 8) with tb by (unfold tb; lia).
  rewrite Z.gtb_ltb, Z.ltb_antisym. destruct (Z.leb_spec (string_bytes args + tb + 64) USER_STACK_SIZE) as [Hfit|]; cbn [negb]; [|done].
  assert (USER_STACK_BOTTOM = USER_STACK_TOP - USER_STACK_SIZE) as Hbot by done.
  assert (0 ≤ USER_STACK_BOTTOM ∧ USER_STACK_TOP < W64) as Hw64 by (by vm_compute).
  destruct (write_strings_spec p T P fs args USER_STACK_TOP [] m) as (new & r & -> & Hstr & Hout); [done|done|done|lia|lia|].
  cbn [app]. set (sp := USER_STACK_TOP - string_bytes args) in *.
  destruct (Z.ltb_spec sp tb); [unfold USER_STACK_BOTTOM, USER_STACK_TOP, USER_STACK_SIZE in *; lia|].
  destruct (target_rsp_spec (sp - tb)) as [Hal Hr]; [lia|]. set (rsp := Z.land (sp - tb) (not64 15)) in *.
  destruct (Z.ltb_spec rsp USER_STACK_BOTTOM); [lia|]. pose proof (sa_length _ _ _ _ _ _ Hstr) as Hnew.
  assert (Z.of_nat (length (quadwords (stack_table (Z.of_nat (length args)) new))) = tb) as Hq.
  { rewrite length_quadwords. unfold stack_table. rewrite !length_app, Hnew. cbn [length]. unfold tb. lia. }
  destruct (stack_write_bytes_spec p T P fs rsp (quadwords (stack_table (Z.of_nat (length args)) new)) (with_ram r m)) as (r' & Hsw & Hw);
    [by apply space_ram|done|done|done|lia|].
  cbn [ram with_ram] in Hsw. rewrite Hsw. change (with_ram r' (with_ram r m)) with (with_ram r' m) in Hw.
  exists rsp, r'. split; [done|]. split.
  - eapply (layout_intro p T P fs args sp new (with_ram r m)); try done; [unfold tb in *; lia|unfold tb in *; lia|by apply space_ram].
  - intros x Hx Hn. rewrite Hw by done. rewrite decide_False by lia. apply Hout; [done|lia].
Qed.

(** ** The whole set-up *)

Definition guard_free P : Prop := P !! USER_STACK_GUARD_PAGE = None.

(** What the set-up leaves: [m'] is the machine after it. *)
Definition stack_ready (p : Z) (args : list (list Z)) P m (result : option Z) m' : Prop :=
  if args_fit args then
    ∃ rsp T' P', result = Some rsp ∧ stack_layout p rsp args m' ∧ space T' p P' m' ∧ guard_free P' ∧
      grown P P' USER_STACK_BOTTOM USER_STACK_TOP STACK_FLAGS ∧
      (∀ va, USER_STACK_BOTTOM ≤ va < USER_STACK_TOP → va mod 4096 = 0 → is_Some (P' !! va)) ∧
      ∀ x, 0 ≤ x < USER_LIMIT → ¬ (USER_STACK_BOTTOM ≤ x < USER_STACK_TOP) → user_byte p x m' = user_byte p x m
  else result = None.

Lemma guard_page_user : user_page USER_STACK_GUARD_PAGE.
Proof. by vm_compute. Qed.

Lemma setup_stack_spec T p P m argv args :
  space T p P m → filled p P m → guard_free P → (64 ≤ free_count m)%nat → (length args ≤ 64)%nat →
  take (length args) (default [] argv) = Some <$> args → (args ≠ [] → is_Some argv) →
  let '(result, m') := process_setup_user_stack p (Z.of_nat (length args)) argv m in stack_ready p args P m result m'.
Proof.
  intros Hs Hf Hg Hc Hlen Htake Hargv. unfold process_setup_user_stack, stack_ready.
  destruct (vi_addr _ _ (sp_inv _ _ _ _ Hs) _ _ (sp_root _ _ _ _ Hs)) as (Hp0 & Hpa & _). unfold PAGE_SIZE. rewrite Hpa.
  destruct (Z.eqb_spec p 0); [lia|]. cbn [Z.eqb negb orb]. rewrite !Z.gtb_ltb.
  destruct (Z.ltb_spec (Z.of_nat (length args)) 0); [lia|]. destruct (Z.ltb_spec 64 (Z.of_nat (length args))); [lia|]. cbn [orb].
  replace ((0 <? Z.of_nat (length args)) && match argv with None => true | Some _ => false end) with false; last first.
  { destruct args as [|a args]; [done|]. destruct (Hargv ltac:(done)) as [? ->]. by rewrite andb_false_r. }
  cbv zeta. rewrite Nat2Z.id, Htake.
  pose proof (sp_query _ _ _ _ Hs _ guard_page_user) as Hq. rewrite Hg in Hq. cbn [backed] in Hq. rewrite Hq.
  pose proof (map_stack_spec p 16 0 [] T P m ltac:(lia) ltac:(lia) Hs Hf) as Hm.
  destruct (map_stack p 16 0 [] m) as [[[] fs] m1]; [|lia]. destruct Hm as (new & T1 & P1 & -> & HS). cbn [app negb].
  pose proof (fill_stack_spec p T1 P1 (fst <$> new) args m1 (sm_space _ _ _ _ _ _ _ _ _ _ HS)
    (sm_frames _ _ _ _ _ _ _ _ _ _ HS) ltac:(rewrite length_fmap; apply HS)) as Hfill.
  destruct (args_fit args); [|by rewrite Hfill]. destruct Hfill as (rsp & r & -> & Hlay & Hout).
  pose proof (sm_grown _ _ _ _ _ _ _ _ _ _ HS) as Hgr. change (stack_page 0) with USER_STACK_BOTTOM in Hgr.
  change (stack_page (0 + Z.of_nat 16)) with USER_STACK_TOP in Hgr.
  exists rsp, T1, P1. split; [done|]. split; [done|]. split; [apply space_ram, HS|]. split; [|split; [done|split]].
  - unfold guard_free. destruct (P1 !! USER_STACK_GUARD_PAGE) as [e|] eqn:E; [|done].
    destruct (proj2 Hgr _ _ E) as [HP|[Hr _]]; [by rewrite Hg in HP|]. unfold USER_STACK_GUARD_PAGE in Hr. lia.
  - intros va Hva Hvm. destruct (lookup_lt_is_Some_2 (fst <$> new) (Z.to_nat ((va - USER_STACK_BOTTOM) / 4096))) as [f Hf1].
    { rewrite length_fmap, (sm_length _ _ _ _ _ _ _ _ _ _ HS).
      unfold USER_STACK_BOTTOM, USER_STACK_TOP, USER_STACK_SIZE in Hva |- *. zsolve. }
    destruct (sm_frames _ _ _ _ _ _ _ _ _ _ HS _ f Hf1) as [fl HP1]. exists (f, fl). rewrite <- HP1. f_equal.
    unfold stack_page, PAGE_SIZE. unfold USER_STACK_BOTTOM, USER_STACK_TOP, USER_STACK_SIZE in Hva |- *. zsolve.
  - intros x Hx Hn. rewrite Hout by done. rewrite (sm_bytes _ _ _ _ _ _ _ _ _ _ HS) by done.
    change (stack_page (0 + Z.of_nat 16)) with USER_STACK_TOP. change (stack_page 0) with USER_STACK_BOTTOM. by rewrite decide_False by lia.
Qed.

(** the initial stack.  In an address space with no page at the guard address
    and enough free frames, [process_setup_user_stack] succeeds exactly when the
    arguments fit.  The stack pointer it returns is 16-byte aligned; the program
    reads argc there, then a pointer per argument to a NUL-terminated copy of
    it inside the stack above the table, then the NULL that ends argv, an
    empty environment and an AT_NULL auxiliary vector.  Nothing outside the stack
    changes, no page is mapped at the guard address, and the pages added are the
    sixteen of the stack, never executable. *)
Theorem process_setup_user_stack_spec T p P m args :
  space T p P m → filled p P m → guard_free P → (64 ≤ free_count m)%nat → (length args ≤ 64)%nat →
  let '(result, m') := process_setup_user_stack p (Z.of_nat (length args)) (Some (Some <$> args)) m in
  if args_fit args then
    ∃ rsp T' P', result = Some rsp ∧ stack_layout p rsp args m' ∧ space T' p P' m' ∧ guard_free P' ∧
      grown P P' USER_STACK_BOTTOM USER_STACK_TOP STACK_FLAGS ∧
      (∀ va, USER_STACK_BOTTOM ≤ va < USER_STACK_TOP → va mod 4096 = 0 → is_Some (P' !! va)) ∧
      ∀ x, 0 ≤ x < USER_LIMIT → ¬ (USER_STACK_BOTTOM ≤ x < USER_STACK_TOP) → user_byte p x m' = user_byte p x m
  else result = None.
Proof.
  intros Hs Hf Hgf Hc Hlen. apply (setup_stack_spec T p P m (Some (Some <$> args)) args); try done.
  cbn [default from_option id]. by rewrite take_ge by (rewrite length_fmap; lia).
Qed.

(** ** Loading *)

(** The segment ends below the guard page of the stack. *)
Definition below_stack (h : Elf64_Phdr) : Prop := p_vaddr h + p_memsz h ≤ USER_STACK_GUARD_PAGE.

(** Whether a translation lets the program write, and execute; and what a segment
    asks for (PF_W, PF_X). *)
Definition rights (q : Z * Z) : bool * bool := (Z.testbit q.2 1, negb (Z.testbit q.2 63)).
Definition segment_rights (h : Elf64_Phdr) : bool * bool := (Z.testbit (p_flags h) 1, Z.testbit (p_flags h) 0).

(** The program as it starts: its bytes, and for every user page its rights, those
    of the first segment with a byte in it ([None]: the page is not mapped). *)
Record program_ready (data : list Z) (p : Z) (l : list Elf64_Phdr) (rsp : Z) m : Prop := {
  pr_segments h k : h ∈ l → 0 ≤ k < p_memsz h →
    user_byte p (p_vaddr h + k) m = Some (if decide (k < p_filesz h) then get_byte data (p_offset h + k) else 0);
  pr_stack : stack_layout p rsp [] m;
  pr_guard : vmm_query_page_in p USER_STACK_GUARD_PAGE (vm m) = None;
  pr_rights va : user_page va →
    rights <$> vmm_query_page_in p va (vm m)
    = if decide (USER_STACK_BOTTOM ≤ va < USER_STACK_TOP) then Some (true, false)
      else segment_rights <$> page_segment l va;
}.

Lemma fresh_space T p m : space T p ∅ m → filled p ∅ m ∧ ∀ l (data : list Z), Forall (good_segment (Z.of_nat (length data))) l → blank p l m.
Proof.
  intros Hs. split; [intros x _ [e He]; by rewrite lookup_empty in He|]. intros l data Hg h x Hh Hx. left.
  pose proof (proj1 (Forall_forall _ _) Hg h Hh) as Hgh.
  eapply user_byte_unmapped; [exact Hs|by eapply in_segment_user|]. apply lookup_empty.
Qed.

Lemma program_ready_intro data p l rsp T1 P1 T m m1 T2 P2 m2 :
  (∀ h, h ∈ l → 0 ≤ p_flags h) → Forall (good_segment (Z.of_nat (length data))) l → Forall below_stack l →
  loaded data p l T ∅ m T1 P1 m1 → stack_layout p rsp [] m2 → space T2 p P2 m2 → guard_free P2 →
  grown P1 P2 USER_STACK_BOTTOM USER_STACK_TOP STACK_FLAGS →
  (∀ va, USER_STACK_BOTTOM ≤ va < USER_STACK_TOP → va mod 4096 = 0 → is_Some (P2 !! va)) →
  (∀ x, 0 ≤ x < USER_LIMIT → ¬ (USER_STACK_BOTTOM ≤ x < USER_STACK_TOP) → user_byte p x m2 = user_byte p x m1) →
  program_ready data p l rsp m2.
Proof.
  intros Hfl Hg Hbelow HL Hlay Hs Hguard Hgr Hst Hout.
  assert (Hno : ∀ va h, page_segment l va = Some h → va < USER_STACK_GUARD_PAGE).
  { intros va h [Hh [_ [Ht _]]]%page_segment_Some. pose proof (proj1 (Forall_forall _ _) Hbelow h Hh) as Hb.
    unfold below_stack in Hb. lia. }
  split; try done.
  - intros h k Hh Hk. rewrite <- (ld_segments _ _ _ _ _ _ _ _ _ HL h k Hh Hk).
    pose proof (proj1 (Forall_forall _ _) Hg h Hh) as Hgh. pose proof (proj1 (Forall_forall _ _) Hbelow h Hh) as Hb. unfold below_stack in Hb.
    apply Hout; [eapply (in_segment_user _ h); [exact Hgh|unfold in_segment; lia]|]. unfold USER_STACK_GUARD_PAGE in Hb. lia.
  - pose proof (sp_query _ _ _ _ Hs _ guard_page_user) as Hb. by rewrite Hguard in Hb.
  - intros va Hva. pose proof (sp_query _ _ _ _ Hs va Hva) as Hb.
    pose proof (ld_rights _ _ _ _ _ _ _ _ _ HL va Hva (lookup_empty _)) as Hr.
    destruct (decide (USER_STACK_BOTTOM ≤ va < USER_STACK_TOP)) as [Hin|Hin].
    + destruct (Hst va Hin (proj2 Hva)) as [[f fl] E]. rewrite E in Hb. destruct Hb as (g & -> & B1 & B2).
      assert (fl = STACK_FLAGS) as ->.
      { destruct (proj2 Hgr va _ E) as [E1|(_ & _ & He)]; [|done]. rewrite E1 in Hr.
        destruct (page_segment l va) as [h|] eqn:Eh; [|done]. pose proof (Hno va h Eh). unfold USER_STACK_GUARD_PAGE in *. lia. }
      cbn. unfold rights. cbn [snd]. by rewrite B1, B2.
    + destruct (P2 !! va) as [[f fl]|] eqn:E.
      * destruct Hb as (g & -> & B1 & B2). destruct (proj2 Hgr va _ E) as [E1|(Hx & _)]; [|done].
        rewrite E1 in Hr. cbn in Hr. destruct (page_segment l va) as [h|] eqn:Eh; [|done]. injection Hr as ->.
        apply page_segment_Some in Eh as [Hh _]. destruct (segment_flags_bits h (Hfl h Hh)) as [S1 S2].
        cbn. unfold rights, segment_rights. cbn [snd]. by rewrite B1, B2, S1, S2, negb_involutive.
      * cbn [backed] in Hb. rewrite Hb. destruct (P1 !! va) as [e|] eqn:E1.
        { by rewrite (lookup_weaken _ _ _ _ E1 (proj1 Hgr)) in E. }
        by destruct (page_segment l va).
Qed.

(** C40: loading a program.  A file that does not pass the checks leaves the
    machine untouched.  One that does has segments that are disjoint, in the user
    half and read inside the file, and an entry point in an executable segment;
    loaded into an empty address space (as [vmm_create_address_space] makes it,
    see [created_space]), and provided that its segments end below
    the stack (elf.c:252 lets them overlap it) and that enough frames are free
    (four per page, a frame and three levels of tables, and 64 for the stack),
    every byte of every segment reads as the byte of the file, or zero past the
    end of its file part; the pages mapped are exactly those of the segments and
    of the stack; a page is writable and executable exactly as the first segment
    with a byte in it says (a later one that shares the page does not change its
    rights, elf.c:319), and the stack is writable and not executable; the guard
    page is unmapped and the stack is set up. *)
Theorem elf_load_binary_spec data T p m :
  space T p ∅ m → Forall is_u8 data → Z.of_nat (length data) < W64 →
  match elf_validate data with
  | None => elf_load_binary (Some data) p m = (None, m)
  | Some (entry, l) =>
      valid_program data entry l ∧
      (Forall below_stack l → (4 * total_pages l + 64 ≤ free_count m)%nat →
       ∃ rsp m', elf_load_binary (Some data) p m = (Some (ElfImage entry USER_STACK_TOP USER_STACK_BOTTOM rsp), m') ∧
                 program_ready data p l rsp m')
  end.
Proof.
  intros Hs Hu Hlen. unfold elf_load_binary.
  destruct (vi_addr _ _ (sp_inv _ _ _ _ Hs) _ _ (sp_root _ _ _ _ Hs)) as (Hp0 & Hpa & _). unfold PAGE_SIZE. rewrite Hpa.
  destruct (Z.eqb_spec p 0); [lia|]. cbn [Z.eqb negb orb].
  destruct (elf_validate data) as [[entry l]|] eqn:Hv; [|done]. pose proof (elf_validate_spec data entry l Hu Hv) as V.
  split; [done|]. intros Hbelow Hfree. destruct (fresh_space T p m Hs) as [Hfill Hblank].
  pose proof (load_segments_spec data p l T ∅ m (vp_segments _ _ _ V) Hlen (vp_disjoint _ _ _ V) Hs Hfill
    (Hblank l data (vp_segments _ _ _ V))) as HL.
  destruct (load_segments data p l m) as [[] m1]; [|lia]. destruct HL as (T1 & P1 & HL). cbn [negb].
  assert (guard_free P1) as Hguard.
  { unfold guard_free. destruct (P1 !! USER_STACK_GUARD_PAGE) as [e|] eqn:E; [exfalso|done].
    pose proof (ld_rights _ _ _ _ _ _ _ _ _ HL _ guard_page_user (lookup_empty _)) as Hr. rewrite E in Hr.
    destruct (page_segment l USER_STACK_GUARD_PAGE) as [h|] eqn:Eh; [|done].
    apply page_segment_Some in Eh as (Hh & _ & Ht & _).
    pose proof (proj1 (Forall_forall _ _) Hbelow h Hh) as Hb. unfold below_stack in Hb. lia. }
  pose proof (ld_frames _ _ _ _ _ _ _ _ _ HL) as Hc.
  pose proof (setup_stack_spec T1 p P1 m1 None [] (ld_space _ _ _ _ _ _ _ _ _ HL) (ld_filled _ _ _ _ _ _ _ _ _ HL) Hguard
    ltac:(lia) ltac:(simpl; lia) eq_refl ltac:(done)) as HR.
  change (Z.of_nat (length [])) with 0 in HR. destruct (process_setup_user_stack p 0 None m1) as [res m2].
  change (stack_ready p [] P1 m1 res m2) in HR. unfold stack_ready in HR. change (args_fit []) with true in HR. cbv iota in HR.
  destruct HR as (rsp & T2 & P2 & -> & Hlay & Hs2 & Hg2 & Hgr & Hst & Hout). exists rsp, m2. split; [done|].
  eapply program_ready_intro; [|apply V|done|exact HL|done|exact Hs2|done|done|done|done].
  intros h Hh. destruct (proj1 (Forall_forall _ _) (vp_headers _ _ _ V) h Hh) as (j & _ & ->).
  apply (read_phdr_ranges data _ Hu).
Qed.

End stack.

(** ** Loading a small program

    The theorems of ElfStack.v on a machine with 128 free frames, an empty
    address space and a one-segment executable. *)

From S2P Require Import Pmm.

Definition loader_bitmap : gmap Z Z := <[1 := W64 - 1]> {[2 := W64 - 1]}.

Definition loader_pmm : physical_memory_manager :=
  {| usable_bitmap := loader_bitmap; free_bitmap := loader_bitmap;
     total_memory_bytes := 786432; usable_memory_bytes := 524288; kernel_memory_bytes := 0;
     framebuffer_memory_bytes := 0; bootloader_reclaimable_bytes := 0;
     tracked_usable_frames := 128; free_frames := 128;
     frame_search_limit := 192; allocation_hint := 64; Pmm.initialized := true |}.

Lemma loader_frames : bitmap_frames loader_bitmap = list_to_set (seqZ 64 128).
Proof. vm_compute. reflexivity. Qed.

Lemma loader_frames_elem f : f ∈ bitmap_frames loader_bitmap ↔ 64 ≤ f < 192.
Proof. rewrite loader_frames, elem_of_list_to_set, elem_of_seqZ. lia. Qed.

Lemma loader_size : size (bitmap_frames loader_bitmap) = 128%nat.
Proof. rewrite loader_frames. vm_compute. reflexivity. Qed.

Lemma loader_words_ok : words_ok loader_bitmap.
Proof.
  unfold loader_bitmap. apply map_Forall_insert_2; [unfold_consts; unfold is_u64, W64; lia|].
  apply map_Forall_singleton. unfold_consts. unfold is_u64, W64. lia.
Qed.

Lemma loader_pmm_ready : pmm_ready loader_pmm.
Proof.
  split; [|reflexivity].
  split; unfold free_frames_set, usable_frames;
    cbn [usable_bitmap free_bitmap tracked_usable_frames free_frames frame_search_limit allocation_hint loader_pmm].
  - apply loader_words_ok.
  - apply loader_words_ok.
  - reflexivity.
  - intros f Hf%loader_frames_elem. lia.
  - unfold_consts. lia.
  - change (128 = Z.of_nat (size (bitmap_frames loader_bitmap))). by rewrite loader_size.
  - change (128 = Z.of_nat (size (bitmap_frames loader_bitmap))). by rewrite loader_size.
  - lia.
Qed.

Definition loader_machine : machine physical_memory_manager :=
  Machine (VmmState 0xffff800000000000 0xffff800000100000 0x100000 true ∅ loader_pmm 0x100000 []) ∅.

Definition loader_tables : gmap Z nat := {[0x100000 := 3%nat]}.

Lemma loader_tables_inv p L : loader_tables !! p = Some L → 0x100000 = p ∧ 3%nat = L.
Proof. apply lookup_singleton_Some. Qed.

Lemma loader_ent p i : ent (vm loader_machine) p i = 0.
Proof. unfold ent, load, get0. change (words (vm loader_machine)) with (∅ : gmap Z Z). by rewrite lookup_empty. Qed.

Lemma loader_vm_inv : vm_inv loader_tables (vm loader_machine).
Proof.
  split.
  - apply loader_pmm_ready.
  - reflexivity.
  - by vm_compute.
  - intros p L [<- <-]%loader_tables_inv. done.
  - intros p L [<- <-]%loader_tables_inv. intros H%loader_frames_elem. vm_compute (0x100000 / 4096) in H. lia.
  - intros p L i _ _. rewrite loader_ent. done.
  - split.
    + by intros p L [<- <-]%loader_tables_inv.
    + intros p L i _ _. rewrite loader_ent. done.
    + intros p i _ _. rewrite loader_ent. done.
    + intros p p' i i' L _ _ _ _. rewrite loader_ent. done.
Qed.

Lemma loader_space : space loader_tables 0x100000 ∅ loader_machine.
Proof.
  split.
  - apply loader_vm_inv.
  - reflexivity.
  - intros va _. rewrite lookup_empty. cbn [backed].
    rewrite (query_walk loader_tables) by (apply loader_vm_inv || reflexivity).
    apply walk_dead. left. by rewrite loader_ent.
  - intros va f fl H. by rewrite lookup_empty in H.
  - intros va va' f fl fl' H. by rewrite lookup_empty in H.
  - intros va _. apply open_empty. intros j _. by rewrite loader_ent.
Qed.

Lemma loader_free : free_count loader_machine = 128%nat.
Proof. exact loader_size. Qed.

(** A read-execute segment of eight bytes at 4 MiB, four of them in the file. *)
Definition sample_elf : list Z :=
  ELFMAG ++ [2; 1; 1] ++ replicate 9 0 ++ le_bytes 2 2 ++ le_bytes 2 62 ++ le_bytes 4 1 ++
  le_bytes 8 0x400000 ++ le_bytes 8 64 ++ le_bytes 8 0 ++ le_bytes 4 0 ++
  le_bytes 2 64 ++ le_bytes 2 56 ++ le_bytes 2 1 ++ le_bytes 2 0 ++ le_bytes 2 0 ++ le_bytes 2 0 ++
  le_bytes 4 1 ++ le_bytes 4 5 ++ le_bytes 8 120 ++ le_bytes 8 0x400000 ++ le_bytes 8 0x400000 ++
  le_bytes 8 4 ++ le_bytes 8 8 ++ le_bytes 8 1 ++ [0xeb; 0xfe; 0x90; 0x90].

Definition sample_segment : Elf64_Phdr := Phdr 1 5 120 0x400000 4 8 1.

Example sample_elf_validates : elf_validate sample_elf = Some (0x400000, [sample_segment]).
Proof. vm_compute. reflexivity. Qed.

Example sample_elf_inspects : elf_inspect_image sample_elf = Some (ElfInfo 0x400000 1 1).
Proof. vm_compute. reflexivity. Qed.

Lemma elf_load_binary_spec_witness :
  ∃ rsp m', elf_load_binary (Some sample_elf) 0x100000 loader_machine =
              (Some (ElfImage 0x400000 USER_STACK_TOP USER_STACK_BOTTOM rsp), m') ∧
    user_byte 0x100000 0x400001 m' = Some 0xfe ∧ user_byte 0x100000 0x400007 m' = Some 0 ∧ user_u64 0x100000 rsp m' = Some 0
    ∧ rights <$> vmm_query_page_in 0x100000 0x400000 (vm m') = Some (false, true).
Proof.
  pose proof (elf_load_binary_spec sample_elf loader_tables 0x100000 loader_machine loader_space) as H.
  assert (Forall is_u8 sample_elf) as Hu by (by vm_compute; repeat constructor).
  specialize (H Hu ltac:(by vm_compute)). rewrite sample_elf_validates in H. destruct H as [_ H].
  assert (Forall below_stack [sample_segment]) as Hb by (apply Forall_singleton; by vm_compute).
  destruct (H Hb) as (rsp & m' & He & Hr); [rewrite loader_free; apply Nat.leb_le; by vm_compute|].
  exists rsp, m'. split; [exact He|]. clear He H.
  assert (sample_segment ∈ [sample_segment]) as Hin by (by apply list_elem_of_singleton).
  split; [|split; [|split]].
  - change 0x400001 with (p_vaddr sample_segment + 1). rewrite (pr_segments _ _ _ _ _ Hr sample_segment 1 Hin) by done. by vm_compute.
  - change 0x400007 with (p_vaddr sample_segment + 7). rewrite (pr_segments _ _ _ _ _ Hr sample_segment 7 Hin) by done. by vm_compute.
  - exact (sl_argc _ _ _ _ (pr_stack _ _ _ _ _ Hr)).
  - rewrite (pr_rights _ _ _ _ _ Hr 0x400000) by done. reflexivity.
Defined.

(** Two arguments, "ls" and "-l". *)
Lemma process_setup_user_stack_spec_witness :
  ∃ rsp m', process_setup_user_stack 0x100000 2 (Some [Some [108; 115]; Some [45; 108]]) loader_machine = (Some rsp, m') ∧
    rsp mod 16 = 0 ∧ user_u64 0x100000 rsp m' = Some 2.
Proof.
  pose proof (process_setup_user_stack_spec loader_tables 0x100000 ∅ loader_machine [[108; 115]; [45; 108]]
    loader_space (proj1 (fresh_space _ _ _ loader_space)) eq_refl ltac:(rewrite loader_free; lia) ltac:(simpl; lia)) as H.
  change (Z.of_nat (Datatypes.length [[108; 115]; [45; 108]])) with 2 in H.
  change (Some <$> [[108; 115]; [45; 108]]) with [Some [108; 115]; Some [45; 108]] in H.
  change (args_fit [[108; 115]; [45; 108]]) with true in H.
  destruct (process_setup_user_stack 0x100000 2 _ loader_machine) as [res m']. cbv iota beta in H.
  destruct H as (rsp & T' & P' & -> & Hl & _). exists rsp, m'. split; [done|]. split; [apply Hl|exact (sl_argc _ _ _ _ Hl)].
Defined.
