(* ===== verification/Vfs.v ===== *)
(** * Virtual file system (src/fs/vfs.c)

    Volumes named by drive letters, each with a backend.  A C string is the list
    of its characters (the codes of the bytes before the terminator); a NULL
    pointer is [None].  A backend is the record of its function pointers, which
    work on the common state [B] of all file systems.  The critical sections of
    [vfs_lock] are functions of the volume table. *)

From Stdlib Require Import ZArith Lia.
From stdpp Require Import gmap.
From S2P Require Import Prelude.

#[local] Open Scope Z_scope.

Definition VFS_MAX_VOLUMES : nat := 8.
Definition VFS_MAX_PATH : Z := 256.

(** ** Characters *)

Definition ch_slash : Z := 47.
Definition ch_backslash : Z := 92.
Definition ch_colon : Z := 58.
Definition ch_dot : Z := 46.
Definition letter_C : Z := 67.

Definition is_separator (c : Z) : bool := (c =? ch_slash) || (c =? ch_backslash).

Definition normalize_letter (letter : Z) : Z :=
  if (97 <=? letter) && (letter <=? 122) then letter - (97 - 65) else letter.

Definition letter_is_valid (letter : Z) : bool := (65 <=? letter) && (letter <=? 90).

(** ** Paths *)

(** The loop of [path_is_safe]; [prev] is [character[-1]], [None] at the start. *)
Fixpoint safe_from (prev : option Z) (path : list Z) : bool :=
  match path with
  | [] => true
  | c :: rest =>
      if (c =? ch_colon)
         || ((c =? ch_dot) && (match rest with d :: _ => d =? ch_dot | [] => false end)
             && (match prev with None => true | Some p => is_separator p end)
             && (match rest with _ :: t :: _ => is_separator t | _ => true end))
      then false
      else safe_from (Some c) rest
  end.

Definition path_is_safe (path : list Z) : bool :=
  match path with [] => false | _ => safe_from None path end.

(** [while ( *path == '/' || *path == '\\') ++path;] *)
Fixpoint skip_separators (path : list Z) : list Z :=
  match path with
  | c :: rest => if is_separator c then skip_separators rest else path
  | [] => []
  end.

Definition unify_separator (c : Z) : Z := if c =? ch_backslash then ch_slash else c.

(** The drive letter and the rest of the path. *)
Definition split_letter (path : list Z) : Z * list Z :=
  match path with
  | l :: c :: rest => if c =? ch_colon then (l, rest) else (letter_C, path)
  | _ => (letter_C, path)
  end.

Section Vfs.
  Context {B : Type}.

(** A file as [file_at] shows it: its path and its content. *)
Definition vfs_file : Type := list Z * list Z.

Record vfs_backend := mk_backend {
  read_file : option (list Z → B → option (list Z));
  write_file : option (list Z → list Z → B → B * bool);
  file_count : option (B → Z);
  file_at : option (Z → B → option vfs_file);
  unlink_file : option (list Z → B → B * bool)
}.

Record vfs_volume := mk_volume { letter : Z; label : list Z; backend : vfs_backend }.

(** [volumes] holds the first [mounted_volume_count] entries of the array. *)
Record vfs := mk_vfs { volumes : list vfs_volume }.

Definition backend_is_valid (b : vfs_backend) : bool :=
  bool_decide (is_Some (read_file b)) && bool_decide (is_Some (file_count b))
    && bool_decide (is_Some (file_at b)).

Fixpoint find_from (i : nat) (l : Z) (vs : list vfs_volume) : option nat :=
  match vs with
  | [] => None
  | v :: vs => if letter v =? l then Some i else find_from (S i) l vs
  end.

Definition find_volume_locked (l : Z) (s : vfs) : option nat :=
  find_from 0 (normalize_letter l) (volumes s).

Definition volume_of (l : Z) (s : vfs) : option vfs_volume :=
  match find_volume_locked l s with Some i => volumes s !! i | None => None end.

Definition vfs_mount_volume (l : Z) (label : option (list Z)) (b : option vfs_backend) (s : vfs)
    : vfs * bool :=
  let l := normalize_letter l in
  match label, b with
  | Some (c :: cs), Some b =>
      if negb (letter_is_valid l) || negb (backend_is_valid b) then (s, false)
      else if bool_decide (is_Some (find_volume_locked l s)) || (VFS_MAX_VOLUMES <=? length (volumes s))%nat
      then (s, false)
      else (mk_vfs (volumes s ++ [mk_volume l (c :: cs) b]), true)
  | _, _ => (s, false)
  end.

(** The entries behind the removed one move down. *)
Definition vfs_unmount_volume (l : Z) (s : vfs) : vfs * bool :=
  match find_volume_locked l s with
  | None => (s, false)
  | Some i =>
      match volumes s !! i with
      | Some v =>
          if letter v =? letter_C then (s, false)
          else (mk_vfs (take i (volumes s) ++ drop (S i) (volumes s)), true)
      | None => (s, false)
      end
  end.

Definition vfs_mount_root (b : option vfs_backend) (s : vfs) : vfs * bool :=
  vfs_mount_volume letter_C (Some [83; 121; 115; 116; 101; 109]) b s.

Definition vfs_is_initialized (s : vfs) : bool := bool_decide (is_Some (find_volume_locked letter_C s)).

Definition vfs_volume_is_mounted (l : Z) (s : vfs) : bool := bool_decide (is_Some (find_volume_locked l s)).

Definition parse_path_locked (path : option (list Z)) (s : vfs) : option (vfs_backend * list Z) :=
  match path with
  | None => None
  | Some path =>
      let '(l, path) := split_letter path in
      let path := skip_separators path in
      if negb (path_is_safe path) then None
      else if Z.of_nat (length path) >=? VFS_MAX_PATH then None
      else
        match volume_of l s with
        | None => None
        | Some v => Some (backend v, unify_separator <$> path)
        end
  end.

(** ** Files *)

Definition vfs_read_file (path : option (list Z)) (s : vfs) (fs : B) : option (list Z) :=
  match parse_path_locked path s with
  | Some (b, relative) => match read_file b with Some f => f relative fs | None => None end
  | None => None
  end.

Definition vfs_write_file (path : option (list Z)) (data : list Z) (s : vfs) (fs : B) : B * bool :=
  match parse_path_locked path s with
  | Some (b, relative) => match write_file b with Some f => f relative data fs | None => (fs, false) end
  | None => (fs, false)
  end.

Definition vfs_unlink_file (path : option (list Z)) (s : vfs) (fs : B) : B * bool :=
  match parse_path_locked path s with
  | Some (b, relative) => match unlink_file b with Some f => f relative fs | None => (fs, false) end
  | None => (fs, false)
  end.

Definition vfs_file_count_on_volume (l : Z) (s : vfs) (fs : B) : Z :=
  match volume_of l s with
  | Some v => match file_count (backend v) with Some f => f fs | None => 0 end
  | None => 0
  end.

Definition vfs_file_at_on_volume (l index : Z) (s : vfs) (fs : B) : option vfs_file :=
  match volume_of l s with
  | Some v => match file_at (backend v) with Some f => f index fs | None => None end
  | None => None
  end.

Definition vfs_file_count (s : vfs) (fs : B) : Z := vfs_file_count_on_volume letter_C s fs.
Definition vfs_file_at (index : Z) (s : vfs) (fs : B) : option vfs_file :=
  vfs_file_at_on_volume letter_C index s fs.

Definition vfs_volume_count (s : vfs) : Z := Z.of_nat (length (volumes s)).

Definition vfs_volume_info_at (index : nat) (s : vfs) (fs : B) : option (Z * list Z * Z) :=
  match volumes s !! index with
  | Some v => Some (letter v, label v, match file_count (backend v) with Some f => f fs | None => 0 end)
  | None => None
  end.

End Vfs.

Arguments vfs_backend : clear implicits.
Arguments vfs_volume : clear implicits.
Arguments vfs : clear implicits.
