(* ===== verification/Ramfs.v ===== *)
(** * In-memory volume (src/fs/ramfs.c)

    Eight file slots and one built-in read-only file.  The state is a slot list;
    [content] is the prefix of a slot's [data] array that [view.size] covers,
    the only part a reader can see.  The critical sections of [ramfs_lock] are
    functions of the state.  [read_file] hands out a pointer into the slot: the
    model returns the bytes at the time of the call. *)

From Stdlib Require Import ZArith Lia Ascii String.
From stdpp Require Import gmap strings.
From S2P Require Import Prelude Vfs.

#[local] Open Scope Z_scope.
#[local] Open Scope list_scope.

Definition RAMFS_DYNAMIC_FILE_MAX : nat := 8.
Definition RAMFS_DYNAMIC_PATH_MAX : Z := 128.
Definition RAMFS_DYNAMIC_FILE_SIZE_MAX : Z := 8192.

Record ramfs_dynamic_file := mk_file { used : bool; path : list Z; content : list Z }.

(** [built_in_files] is a constant table. *)
Record ramfs := mk_ramfs {
  initialized : bool;
  dynamic_files : list ramfs_dynamic_file
}.

(** The character codes of a string literal. *)
Definition codes (s : string) : list Z := (λ c, Z.of_N (Ascii.N_of_ascii c)) <$> String.list_ascii_of_string s.

Definition readme_path : list Z := codes "README.TXT".

(** Characters are compared up to the first terminator, then the two characters
    there, which are equal exactly when both strings end. *)
Fixpoint strings_equal (l r : list Z) : bool :=
  match l, r with
  | a :: l, b :: r => if a =? b then strings_equal l r else false
  | [], [] => true
  | _, _ => false
  end.

Definition readme : list Z :=
  codes "KOS Data volume" ++ [10] ++ codes "This is an independent in-memory D: volume." ++ [10]
    ++ codes "It proves the VFS volume namespace before a disk/FAT32 backend is added." ++ [10].

Definition built_in_files : list vfs_file := [(readme_path, readme)].

Fixpoint find_built_in (p : list Z) (l : list vfs_file) : option (list Z) :=
  match l with
  | [] => None
  | (q, data) :: l => if strings_equal p q then Some data else find_built_in p l
  end.

Fixpoint find_dynamic (p : list Z) (l : list ramfs_dynamic_file) : option (list Z) :=
  match l with
  | [] => None
  | f :: l => if used f && strings_equal p (path f) then Some (content f) else find_dynamic p l
  end.

Definition ramfs_read_file (p : list Z) (r : ramfs) : option (list Z) :=
  if negb (initialized r) then None
  else
    match find_built_in p built_in_files with
    | Some data => Some data
    | None => find_dynamic p (dynamic_files r)
    end.

Definition count_used (l : list ramfs_dynamic_file) : Z :=
  fold_left (λ n f, if used f then n + 1 else n) l 0.

Definition ramfs_file_count (r : ramfs) : Z :=
  if negb (initialized r) then 0
  else Z.of_nat (length built_in_files) + count_used (dynamic_files r).

Fixpoint nth_used (index : Z) (l : list ramfs_dynamic_file) : option vfs_file :=
  match l with
  | [] => None
  | f :: l =>
      if used f then if index =? 0 then Some (path f, content f) else nth_used (index - 1) l
      else nth_used index l
  end.

Definition ramfs_file_at (index : Z) (r : ramfs) : option vfs_file :=
  if negb (initialized r) then None
  else
    let count := Z.of_nat (length built_in_files) in
    if index <? count then built_in_files !! Z.to_nat index
    else nth_used (index - count) (dynamic_files r).

(** The search of [ramfs_write_file]: the slot with the path, else the first
    free slot seen ([free] is the candidate so far). *)
Fixpoint find_slot (i : nat) (free : option nat) (p : list Z) (l : list ramfs_dynamic_file) : option nat :=
  match l with
  | [] => free
  | f :: l =>
      if used f && strings_equal p (path f) then Some i
      else find_slot (S i) (if negb (used f) && bool_decide (free = None) then Some i else free) p l
  end.

Definition ramfs_write_file (p data : list Z) (r : ramfs) : ramfs * bool :=
  if bool_decide (p = []) || (Z.of_nat (length data) >? RAMFS_DYNAMIC_FILE_SIZE_MAX)
     || (Z.of_nat (length p) >=? RAMFS_DYNAMIC_PATH_MAX) || negb (initialized r) then (r, false)
  else
    match find_slot 0 None p (dynamic_files r) with
    | None => (r, false)
    | Some i => (mk_ramfs (initialized r) (<[i := mk_file true p data]> (dynamic_files r)), true)
    end.

Fixpoint unlink_slot (p : list Z) (l : list ramfs_dynamic_file) : option (list ramfs_dynamic_file) :=
  match l with
  | [] => None
  | f :: l =>
      if used f && strings_equal p (path f) then Some (mk_file false [] [] :: l)
      else match unlink_slot p l with Some l => Some (f :: l) | None => None end
  end.

Definition ramfs_unlink_file (p : list Z) (r : ramfs) : ramfs * bool :=
  if bool_decide (p = []) || negb (initialized r) then (r, false)
  else
    match unlink_slot p (dynamic_files r) with
    | Some l => (mk_ramfs (initialized r) l, true)
    | None => (r, false)
    end.

Definition ramfs_initialize (r : ramfs) : ramfs * bool :=
  if initialized r then (r, false) else (mk_ramfs true (dynamic_files r), true).

Definition ramfs_vfs_backend : vfs_backend ramfs :=
  mk_backend (Some ramfs_read_file) (Some ramfs_write_file) (Some ramfs_file_count) (Some ramfs_file_at)
    (Some ramfs_unlink_file).

(** Static storage before [ramfs_initialize]. *)
Definition ramfs_boot : ramfs := mk_ramfs false (replicate RAMFS_DYNAMIC_FILE_MAX (mk_file false [] [])).
