(* ===== verification/RamfsSpec.v ===== *)
(** * What the in-memory volume guarantees (src/fs/ramfs.c)

    The slots refine a finite map from paths to contents with at most eight
    entries. *)

From Stdlib Require Import ZArith Lia.
From stdpp Require Import gmap.
From S2P Require Import Prelude Vfs Ramfs.

#[local] Open Scope Z_scope.

Lemma strings_equal_spec l r : strings_equal l r = bool_decide (l = r).
Proof.
  revert r. induction l as [|a l IH]; intros [|b r]; cbn [strings_equal]; try done.
  destruct (Z.eqb_spec a b) as [->|Hne].
  - rewrite IH. apply bool_decide_ext. split; congruence.
  - symmetry. apply bool_decide_eq_false. congruence.
Qed.

(** The slot holds [p]. *)
Definition holds (p : list Z) (f : ramfs_dynamic_file) : Prop := used f = true ∧ path f = p.

#[export] Instance holds_dec p f : Decision (holds p f).
Proof. unfold holds. apply _. Defined.

Lemma holds_test p f : (used f && strings_equal p (path f)) = bool_decide (holds p f).
Proof.
  rewrite strings_equal_spec. symmetry. case_bool_decide as H.
  - destruct H as [-> <-]. by rewrite bool_decide_true.
  - unfold holds in H. destruct (used f); [|done]. symmetry. apply bool_decide_eq_false. naive_solver.
Qed.

(** ** The abstract map *)

Definition entries (l : list ramfs_dynamic_file) : list (list Z * list Z) :=
  (λ f, (path f, content f)) <$> filter (λ f, used f = true) l.

Definition stored (l : list ramfs_dynamic_file) : gmap (list Z) (list Z) := list_to_map (entries l).

Lemma entries_cons f l :
  entries (f :: l) = if used f then (path f, content f) :: entries l else entries l.
Proof. unfold entries. rewrite filter_cons. by destruct (used f); repeat case_decide. Qed.

Lemma stored_lookup l p : stored l !! p = find_dynamic p l.
Proof.
  induction l as [|f l IH]; [done|]. unfold stored in *. rewrite entries_cons. cbn [find_dynamic].
  rewrite holds_test. destruct (used f) eqn:Hu.
  - cbn [list_to_map foldr]. destruct (decide (path f = p)) as [<-|Hne].
    + cbn. rewrite lookup_insert_eq, bool_decide_true by done. done.
    + cbn. rewrite lookup_insert_ne by done. rewrite bool_decide_false; [done|]. by intros [_ ?].
  - rewrite bool_decide_false; [done|]. intros [? _]. congruence.
Qed.

(** Paths name at most one slot. *)
Definition distinct (l : list ramfs_dynamic_file) : Prop := NoDup (entries l).*1.

Definition ramfs_ok (r : ramfs) : Prop :=
  length (dynamic_files r) = RAMFS_DYNAMIC_FILE_MAX ∧ distinct (dynamic_files r).

Lemma distinct_cons f l :
  distinct (f :: l) ↔ distinct l ∧ (used f = true → find_dynamic (path f) l = None).
Proof.
  unfold distinct. rewrite entries_cons. destruct (used f); [|naive_solver]. cbn [fmap list_fmap fst].
  rewrite NoDup_cons, <- stored_lookup. unfold stored. rewrite <- not_elem_of_list_to_map. naive_solver.
Qed.

Lemma find_dynamic_none p l : find_dynamic p l = None ↔ Forall (λ f, ¬ holds p f) l.
Proof.
  induction l as [|f l IH]; cbn [find_dynamic]; [by split|].
  rewrite holds_test, Forall_cons. case_bool_decide; [|rewrite IH]; naive_solver.
Qed.

(** ** Writing *)

(** The slot that is taken holds the path or is free, and no earlier one holds it. *)
Lemma insert_lookup p data l i f q :
  l !! i = Some f → (used f = false ∨ path f = p) → (∀ j g, (j < i)%nat → l !! j = Some g → ¬ holds p g) →
  find_dynamic q (<[i := mk_file true p data]> l) = if decide (q = p) then Some data else find_dynamic q l.
Proof.
  revert i. induction l as [|g l IH]; intros i Hi Hf Hbefore; [done|]. destruct i as [|i].
  - injection Hi as ->. cbn. rewrite strings_equal_spec. case_decide as Hd.
    + by rewrite bool_decide_true.
    + rewrite bool_decide_false by done. rewrite holds_test, bool_decide_false; [done|].
      unfold holds. destruct Hf; [intros [? _]|intros [_ ?]]; congruence.
  - cbn. rewrite holds_test. case_bool_decide as Hg.
    + rewrite decide_False; [done|]. intros ->. by apply (Hbefore 0%nat g ltac:(lia) eq_refl).
    + apply IH; [done|done|]. intros j h Hj Hh. apply (Hbefore (S j) h ltac:(lia) Hh).
Qed.

Lemma insert_distinct p data l i f :
  distinct l → l !! i = Some f →
  (holds p f ∨ used f = false ∧ find_dynamic p l = None) → distinct (<[i := mk_file true p data]> l).
Proof.
  revert i. induction l as [|g l IH]; intros i; [done|]. rewrite distinct_cons. intros [Hd Hg] Hi Hf.
  destruct i as [|i].
  - injection Hi as ->. cbn. apply distinct_cons. split; [done|]. intros _. cbn [path].
    destruct Hf as [[Hu <-]|[_ Hn]]; [by apply Hg|]. cbn in Hn. by destruct (_ && _).
  - cbn. cbn [lookup list_lookup] in Hi. apply distinct_cons. split.
    + apply (IH i Hd Hi). destruct Hf as [?|[? Hn]]; [by left|right]. split; [done|].
      cbn in Hn. by destruct (_ && _).
    + intros Hu. specialize (Hg Hu). rewrite find_dynamic_none in Hg |- *.
      apply Forall_insert; [done|]. intros [_ He]. cbn in He.
      rewrite Forall_lookup in Hg. destruct Hf as [Hh|[_ Hn]].
      * apply (Hg i f Hi). by rewrite <- He.
      * cbn in Hn. rewrite holds_test, bool_decide_true in Hn by done. done.
Qed.

Lemma find_slot_spec i free p l :
  match find_slot i free p l with
  | Some k =>
      (∃ j f, k = (i + j)%nat ∧ l !! j = Some f ∧ holds p f ∧
         ∀ j' g, (j' < j)%nat → l !! j' = Some g → ¬ holds p g)
      ∨ Forall (λ f, ¬ holds p f) l ∧
        (free = Some k ∨ free = None ∧ ∃ j f, k = (i + j)%nat ∧ l !! j = Some f ∧ used f = false)
  | None => Forall (λ f, ¬ holds p f ∧ used f = true) l ∧ free = None
  end.
Proof.
  revert i free. induction l as [|f l IH]; intros i free; cbn [find_slot].
  { destruct free; [right|]; auto. }
  rewrite holds_test. case_bool_decide as Hf.
  { left. exists 0%nat, f. split_and!; [lia|done|done|lia]. }
  match goal with |- context [find_slot (S i) ?x p l] => set (free' := x) end. specialize (IH (S i) free'). destruct (find_slot (S i) free' p l) as [k|].
  - destruct IH as [(j & g & -> & Hj & Hg & Hb)|[Hall Hor]].
    + left. exists (S j), g. split; [lia|]. split; [done|]. split; [done|].
      intros [|j'] h Hj' Hh; [cbn in Hh; by simplify_eq|]. by apply (Hb j' h ltac:(lia)).
    + right. split; [by constructor|]. subst free'. destruct (used f) eqn:Hu, free; cbn in *; try naive_solver.
  - destruct IH as [Hall Hn]. subst free'. destruct (used f) eqn:Hu, free; cbn in *; try done.
    split; [|done]. by constructor.
Qed.

Lemma size_stored l : distinct l → size (stored l) = length (filter (λ f, used f = true) l).
Proof.
  intros Hd. unfold stored. rewrite map_size_list_to_map by done. unfold entries. by rewrite length_fmap.
Qed.

(** A free slot exists exactly when the map is not full. *)
Lemma all_used l : length (filter (λ f, used f = true) l) = length l ↔ Forall (λ f, used f = true) l.
Proof.
  split.
  - intros H. induction l as [|f l IH]; [by constructor|]. rewrite filter_cons in H.
    pose proof (length_filter (λ f, used f = true) l) as Hl. case_decide; cbn [length] in H; [|lia].
    constructor; [done|]. apply IH. lia.
  - induction 1 as [|f l Hf _ IH]; [done|]. rewrite filter_cons, decide_True by done. cbn [length]. lia.
Qed.

Definition may_write (p data : list Z) (files : gmap (list Z) (list Z)) : Prop :=
  p ≠ [] ∧ Z.of_nat (length data) ≤ RAMFS_DYNAMIC_FILE_SIZE_MAX ∧ Z.of_nat (length p) < RAMFS_DYNAMIC_PATH_MAX
  ∧ (is_Some (files !! p) ∨ (size files < RAMFS_DYNAMIC_FILE_MAX)%nat).

#[export] Instance may_write_dec p data files : Decision (may_write p data files).
Proof. unfold may_write. apply _. Defined.

(** Storing into the slot that [find_slot] returns. *)
Lemma write_slot p data l :
  length l = RAMFS_DYNAMIC_FILE_MAX → distinct l →
  match find_slot 0 None p l with
  | Some i => (is_Some (stored l !! p) ∨ (size (stored l) < RAMFS_DYNAMIC_FILE_MAX)%nat) ∧
      distinct (<[i := mk_file true p data]> l) ∧
      stored (<[i := mk_file true p data]> l) = <[p := data]> (stored l)
  | None => stored l !! p = None ∧ size (stored l) = RAMFS_DYNAMIC_FILE_MAX
  end.
Proof.
  intros Hlen Hd. pose proof (find_slot_spec 0 None p l) as Hs.
  assert (Hmap : ∀ i f, l !! i = Some f → (used f = false ∨ path f = p) →
    (∀ j g, (j < i)%nat → l !! j = Some g → ¬ holds p g) →
    stored (<[i := mk_file true p data]> l) = <[p := data]> (stored l)).
  { intros i f Hi Hf Hb. apply map_eq. intros q. rewrite stored_lookup, (insert_lookup p data l i f q Hi Hf Hb).
    case_decide as Hq; [subst; by rewrite lookup_insert_eq|]. rewrite lookup_insert_ne by done.
    by rewrite stored_lookup. }
  destruct (find_slot 0 None p l) as [i|].
  - destruct Hs as [(j & f & -> & Hj & Hf & Hb)|[Hall [?|[_ (j & f & -> & Hj & Hf)]]]]; [|done|].
    + cbn [Nat.add]. split; [|split; [by eapply insert_distinct; eauto|by eapply Hmap; eauto; right; apply Hf]].
      left. rewrite stored_lookup. destruct (find_dynamic p l) eqn:E; [done|].
      apply find_dynamic_none in E. rewrite Forall_lookup in E. by apply E in Hj.
    + cbn [Nat.add]. split; [|split].
      * right. rewrite size_stored by done.
        pose proof (length_filter (λ f, used f = true) l) as Hle.
        destruct (decide (length (filter (λ f, used f = true) l) = length l)) as [He|]; [|lia].
        apply all_used in He. rewrite Forall_lookup in He. apply He in Hj. congruence.
      * eapply insert_distinct; [done|done|right]. split; [done|by apply find_dynamic_none].
      * eapply Hmap; eauto. intros j' g _ Hg. rewrite Forall_lookup in Hall. by eapply Hall.
  - destruct Hs as [Hall _]. split.
    + rewrite stored_lookup. apply find_dynamic_none. eapply Forall_impl; [exact Hall|]. naive_solver.
    + rewrite size_stored, <- Hlen by done. apply all_used. eapply Forall_impl; [exact Hall|]. naive_solver.
Qed.

Lemma write_spec p data r :
  ramfs_ok r → initialized r = true →
  let '(r', ok) := ramfs_write_file p data r in
  ramfs_ok r' ∧ initialized r' = true ∧
  ok = bool_decide (may_write p data (stored (dynamic_files r))) ∧
  stored (dynamic_files r')
    = if ok then <[p := data]> (stored (dynamic_files r)) else stored (dynamic_files r).
Proof.
  intros [Hlen Hd] Hinit. unfold ramfs_write_file. rewrite Hinit, Z.gtb_ltb, Z.geb_leb.
  pose proof (write_slot p data (dynamic_files r) Hlen Hd) as Hs.
  assert (Hrest : ramfs_ok r) by done. unfold may_write.
  case_bool_decide as Hp; cbn [orb negb].
  { rewrite bool_decide_false by naive_solver. done. }
  destruct (Z.ltb_spec RAMFS_DYNAMIC_FILE_SIZE_MAX (Z.of_nat (length data))); cbn [orb].
  { rewrite bool_decide_false by (intros (_ & ? & _); lia). done. }
  destruct (Z.leb_spec RAMFS_DYNAMIC_PATH_MAX (Z.of_nat (length p))); cbn [orb].
  { rewrite bool_decide_false by (intros (_ & _ & ? & _); lia). done. }
  destruct (find_slot 0 None p (dynamic_files r)) as [i|].
  - destruct Hs as (Hroom & Hd' & Hst). rewrite bool_decide_true by (split_and!; auto; lia).
    split; [|done]. split; [by cbn; rewrite length_insert|done].
  - destruct Hs as [Hn Hsize]. rewrite bool_decide_false; [done|].
    intros (_ & _ & _ & [[x Hx]|Hlt]); [congruence|lia].
Qed.

(** ** Unlinking *)

Lemma unlink_slot_spec p l :
  distinct l →
  match unlink_slot p l with
  | Some l' => length l' = length l ∧ distinct l' ∧ is_Some (stored l !! p) ∧ stored l' = delete p (stored l)
  | None => stored l !! p = None
  end.
Proof.
  assert (Hkey : ∀ l, distinct l → match unlink_slot p l with
    | Some l' => length l' = length l ∧ is_Some (find_dynamic p l) ∧
        ∀ q, find_dynamic q l' = if decide (q = p) then None else find_dynamic q l
    | None => find_dynamic p l = None end).
  { clear l. induction l as [|f l IH]; [done|]. rewrite distinct_cons. intros [Hd Hf].
    cbn [unlink_slot]. rewrite holds_test. case_bool_decide as Hh.
    - split; [done|]. split; [cbn; by rewrite holds_test, bool_decide_true|].
      intros q. cbn [find_dynamic used andb]. rewrite holds_test. destruct Hh as [Hu Hp].
      case_decide as Hq; [subst; by apply Hf|]. rewrite bool_decide_false; [done|]. by intros [_ ?]; congruence.
    - specialize (IH Hd). destruct (unlink_slot p l) as [l'|].
      + destruct IH as (Hl & Hs & Hq). split; [cbn; lia|]. cbn [find_dynamic].
        rewrite holds_test, bool_decide_false by done. split; [done|]. intros q. rewrite holds_test.
        case_bool_decide as Hfq; [|apply Hq]. rewrite decide_False; [done|]. by intros ->.
      + cbn. by rewrite holds_test, bool_decide_false. }
  intros Hd. pose proof (Hkey l Hd) as Hk. 
  assert (Hdist : ∀ l l', distinct l → unlink_slot p l = Some l' → distinct l').
  { clear l Hd Hk. induction l as [|f l IH]; intros l'; [done|]. rewrite distinct_cons. intros [Hd Hf].
    cbn [unlink_slot]. rewrite holds_test. case_bool_decide as Hh.
    - intros [= <-]. apply distinct_cons. split; [done|]. by cbn.
    - pose proof (Hkey l Hd) as Hk. destruct (unlink_slot p l) as [l1|]; [|done]. intros [= <-].
      apply distinct_cons. split; [by apply IH|]. intros Hu. destruct Hk as (_ & _ & ->).
      case_decide; [done|by apply Hf]. }
  destruct (unlink_slot p l) as [l'|] eqn:E; rewrite stored_lookup; [|done].
  destruct Hk as (Hl & Hs & Hq). split; [done|]. split; [by eapply Hdist|]. split; [done|].
  apply map_eq. intros q. rewrite stored_lookup, Hq. case_decide as Hd'; [subst; by rewrite lookup_delete_eq|].
  by rewrite lookup_delete_ne, stored_lookup.
Qed.

Lemma unlink_spec p r :
  ramfs_ok r → initialized r = true →
  let '(r', ok) := ramfs_unlink_file p r in
  ramfs_ok r' ∧ initialized r' = true ∧
  ok = bool_decide (p ≠ [] ∧ is_Some (stored (dynamic_files r) !! p)) ∧
  stored (dynamic_files r') = if ok then delete p (stored (dynamic_files r)) else stored (dynamic_files r).
Proof.
  intros [Hlen Hd] Hinit. unfold ramfs_unlink_file. rewrite Hinit. case_bool_decide as Hp; cbn [orb negb].
  { rewrite bool_decide_false by naive_solver. done. }
  pose proof (unlink_slot_spec p (dynamic_files r) Hd) as Hs.
  destruct (unlink_slot p (dynamic_files r)) as [l'|].
  - destruct Hs as (Hl & Hd' & Hsome & Hst). rewrite bool_decide_true by done.
    split; [|done]. split; [by cbn; rewrite Hl|done].
  - rewrite Hs, bool_decide_false by (by intros [_ [? ?]]). done.
Qed.

(** ** Enumeration *)

Lemma count_used_from l n :
  fold_left (λ n f, if used f then n + 1 else n) l n
  = n + Z.of_nat (length (filter (λ f, used f = true) l)).
Proof.
  revert n. induction l as [|f l IH]; intros n; cbn [fold_left]; [cbn; lia|].
  rewrite IH, filter_cons. destruct (used f); repeat case_decide; try done; cbn [length]; lia.
Qed.

Lemma nth_used_spec l k : nth_used (Z.of_nat k) l = entries l !! k.
Proof.
  revert k. induction l as [|f l IH]; intros k; [done|]. cbn [nth_used]. rewrite entries_cons.
  destruct (used f); [|apply IH]. destruct k as [|k]; [done|].
  destruct (Z.eqb_spec (Z.of_nat (S k)) 0); [lia|]. replace (Z.of_nat (S k) - 1) with (Z.of_nat k) by lia.
  apply IH.
Qed.

(** What the operations do to the map of the files that are stored; reading the
    name of the built-in file never reaches it. *)
Lemma ramfs_operations r :
  ramfs_ok r → initialized r = true →
  let files := stored (dynamic_files r) in
  (∀ p, ramfs_read_file p r = if decide (p = readme_path) then Some readme else files !! p)
  ∧ (∀ p data, let '(r', ok) := ramfs_write_file p data r in
     ramfs_ok r' ∧ initialized r' = true ∧ ok = bool_decide (may_write p data files) ∧
     stored (dynamic_files r') = if ok then <[p := data]> files else files)
  ∧ (∀ p, let '(r', ok) := ramfs_unlink_file p r in
     ramfs_ok r' ∧ initialized r' = true ∧ ok = bool_decide (p ≠ [] ∧ is_Some (files !! p)) ∧
     stored (dynamic_files r') = if ok then delete p files else files)
  ∧ ramfs_file_count r = 1 + Z.of_nat (size files)
  ∧ ∀ k, ramfs_file_at (Z.of_nat k) r = ((readme_path, readme) :: entries (dynamic_files r)) !! k.
Proof.
  intros Hok Hinit. cbn zeta. split; [|split; [|split; [|split]]].
  - intros p. unfold ramfs_read_file. rewrite Hinit. cbn [negb find_built_in built_in_files].
    rewrite strings_equal_spec, stored_lookup. destruct (decide (p = readme_path)).
    + rewrite bool_decide_true by assumption. reflexivity.
    + rewrite bool_decide_false by assumption. reflexivity.
  - intros p data. by apply write_spec.
  - intros p. by apply unlink_spec.
  - unfold ramfs_file_count. rewrite Hinit. cbn [negb]. unfold count_used.
    rewrite count_used_from, size_stored by apply Hok. cbn [built_in_files length]. lia.
  - intros k. unfold ramfs_file_at. rewrite Hinit. cbn [negb built_in_files length].
    change (Z.of_nat 1) with 1. destruct k as [|k]; [done|].
    destruct (Z.ltb_spec (Z.of_nat (S k)) 1); [lia|]. replace (Z.of_nat (S k) - 1) with (Z.of_nat k) by lia.
    apply nth_used_spec.
Qed.

(** ** Runs *)

Inductive ramfs_op := RWrite (p data : list Z) | RUnlink (p : list Z).

Definition ramfs_step (r : ramfs) (op : ramfs_op) : ramfs :=
  match op with
  | RWrite p data => (ramfs_write_file p data r).1
  | RUnlink p => (ramfs_unlink_file p r).1
  end.

(** The same operations on a map with at most eight entries. *)
Definition map_step (files : gmap (list Z) (list Z)) (op : ramfs_op) : gmap (list Z) (list Z) :=
  match op with
  | RWrite p data => if decide (may_write p data files) then <[p := data]> files else files
  | RUnlink p => if decide (p = []) then files else delete p files
  end.

Lemma ramfs_step_refines r op :
  ramfs_ok r → initialized r = true →
  ramfs_ok (ramfs_step r op) ∧ initialized (ramfs_step r op) = true ∧
  stored (dynamic_files (ramfs_step r op)) = map_step (stored (dynamic_files r)) op.
Proof.
  intros Hok Hinit. destruct op as [p data|p]; cbn [ramfs_step map_step].
  - pose proof (write_spec p data r Hok Hinit) as H.
    destruct (ramfs_write_file p data r) as [r' ok]. destruct H as (? & ? & -> & Hst).
    cbn [fst]. split; [done|]. split; [done|]. rewrite Hst.
    destruct (decide (may_write p data (stored (dynamic_files r)))).
    + by rewrite bool_decide_true.
    + by rewrite bool_decide_false.
  - pose proof (unlink_spec p r Hok Hinit) as H.
    destruct (ramfs_unlink_file p r) as [r' ok]. destruct H as (? & ? & -> & Hst).
    cbn [fst]. split; [done|]. split; [done|]. rewrite Hst. case_bool_decide; case_decide; try naive_solver.
    symmetry. apply delete_id, eq_None_not_Some. naive_solver.
Qed.

Lemma boot_ok : ramfs_ok (ramfs_initialize ramfs_boot).1.
Proof. split; [done|]. unfold distinct. cbn. constructor. Qed.

(** After any sequence of writes and deletions the volume is the map that the
    same operations build, where a write succeeds exactly when the path is not
    empty and shorter than 128 characters, the data has at most 8192 bytes, and
    the path exists or fewer than eight files do: reading a path other than the
    built-in one returns what was last written to it, and the count and the
    enumeration list exactly the built-in file and the entries of the map. *)
Theorem ramfs_is_bounded_map ops :
  let r := fold_left ramfs_step ops (ramfs_initialize ramfs_boot).1 in
  let files := fold_left map_step ops ∅ in
  (∀ p, ramfs_read_file p r = if decide (p = readme_path) then Some readme else files !! p)
  ∧ (∀ p data, (ramfs_write_file p data r).2 = bool_decide (may_write p data files))
  ∧ (∀ p, (ramfs_unlink_file p r).2 = bool_decide (p ≠ [] ∧ is_Some (files !! p)))
  ∧ ramfs_file_count r = 1 + Z.of_nat (size files)
  ∧ (size files ≤ RAMFS_DYNAMIC_FILE_MAX)%nat
  ∧ ∀ p data, files !! p = Some data ↔ ∃ k, ramfs_file_at (Z.of_nat (S k)) r = Some (p, data).
Proof.
  cbn zeta.
  assert (Hrun : ∀ r files, ramfs_ok r → initialized r = true → stored (dynamic_files r) = files →
    ramfs_ok (fold_left ramfs_step ops r) ∧ initialized (fold_left ramfs_step ops r) = true ∧
    stored (dynamic_files (fold_left ramfs_step ops r)) = fold_left map_step ops files).
  { induction ops as [|op ops IH]; intros r files Hok Hi <-; [done|]. cbn [fold_left].
    destruct (ramfs_step_refines r op Hok Hi) as (H1 & H2 & H3). by apply IH. }
  destruct (Hrun (ramfs_initialize ramfs_boot).1 ∅ boot_ok eq_refl) as (Hok & Hi & Hst); [reflexivity|].
  set (r := fold_left ramfs_step ops _) in *. rewrite <- Hst.
  destruct (ramfs_operations r Hok Hi) as (Hr & Hw & Hu & Hc & Hat). split_and!; try done.
  - intros p data. specialize (Hw p data). destruct (ramfs_write_file p data r). by destruct Hw as (_ & _ & ? & _).
  - intros p. specialize (Hu p). destruct (ramfs_unlink_file p r). by destruct Hu as (_ & _ & ? & _).
  - destruct Hok as [<- Hd]. rewrite size_stored by done. apply length_filter.
  - intros p data. unfold stored. rewrite <- elem_of_list_to_map by apply Hok.
    rewrite list_elem_of_lookup. split; intros [k Hk]; exists k; rewrite Hat in *; done.
Qed.

(** The built-in file hides a stored file with its name: the write succeeds, the
    content is never seen. *)
Example readme_write_is_hidden :
  let r := (ramfs_initialize ramfs_boot).1 in
  let '(r', ok) := ramfs_write_file readme_path [1; 2; 3] r in
  (ok, ramfs_read_file readme_path r') = (true, Some readme).
Proof. reflexivity. Qed.
