(* ===== verification/VfsSpec.v ===== *)
(** * What the virtual file system guarantees (src/fs/vfs.c)

    The parser accepts exactly the spellings of file names on mounted volumes and
    no path leaves its volume, the volume table is a map
    from letters to backends, and files written through it can be read back. *)

From Stdlib Require Import ZArith Lia String.
From stdpp Require Import gmap strings.
From S2P Require Import Prelude Vfs Ramfs RamfsSpec.

#[local] Open Scope Z_scope.
#[local] Open Scope list_scope.

(** ** Path components *)

Fixpoint split_at (acc path : list Z) : list (list Z) :=
  match path with
  | [] => [reverse acc]
  | c :: rest => if c =? ch_slash then reverse acc :: split_at [] rest else split_at (c :: acc) rest
  end.

Definition components (path : list Z) : list (list Z) := split_at [] path.

Lemma split_at_spec acc p x :
  x ∈ split_at acc p →
  ∃ pre post, reverse acc ++ p = pre ++ x ++ post ∧ (pre = [] ∨ ∃ pre', pre = pre' ++ [ch_slash])
    ∧ (post = [] ∨ ∃ post', post = ch_slash :: post').
Proof.
  revert acc. induction p as [|c p IH]; intros acc; cbn [split_at].
  { intros ->%list_elem_of_singleton. exists [], []. rewrite !app_nil_r. auto. }
  destruct (Z.eqb_spec c ch_slash) as [->|Hne].
  - intros [->|Hx]%elem_of_cons.
    + exists [], (ch_slash :: p). split; [done|]. eauto.
    + destruct (IH [] Hx) as (pre & post & Heq & Hpre & Hpost). rewrite reverse_nil in Heq. cbn in Heq.
      exists (reverse acc ++ ch_slash :: pre), post. split_and!; [by rewrite Heq, <- app_assoc| |done].
      right. destruct Hpre as [->|[pre' ->]]; [by exists (reverse acc)|].
      exists (reverse acc ++ ch_slash :: pre'). by rewrite <- app_assoc.
  - intros Hx. destruct (IH _ Hx) as (pre & post & Heq & Hrest).
    exists pre, post. by rewrite reverse_cons, <- app_assoc in Heq.
Qed.

(** ** Safe paths *)

Lemma safe_step prev c rest : safe_from prev (c :: rest) = true → safe_from (Some c) rest = true ∧ c ≠ ch_colon.
Proof.
  cbn [safe_from]. intros H. destruct (Z.eqb_spec c ch_colon); cbn [orb] in H; [done|].
  split; [|done]. by destruct (_ && _) in H.
Qed.

Lemma safe_app prev pre q :
  safe_from prev (pre ++ q) = true → safe_from (default prev (Some <$> last pre)) q = true.
Proof.
  revert prev. induction pre as [|c pre IH]; intros prev H; [done|]. cbn [app] in H.
  apply safe_step in H as [H _]. apply IH in H. destruct pre as [|d pre]; [done|].
  rewrite last_cons_cons. destruct (last (d :: pre)) eqn:E; [done|]. by apply last_None in E.
Qed.

Lemma safe_no_colon prev path : safe_from prev path = true → ch_colon ∉ path.
Proof.
  revert prev. induction path as [|c path IH]; intros prev H; [apply not_elem_of_nil|].
  apply safe_step in H as [H Hc]. apply not_elem_of_cons. split; [congruence|by eapply IH].
Qed.

Lemma unify_slash c : unify_separator c = ch_slash → is_separator c = true.
Proof.
  unfold unify_separator, is_separator. destruct (Z.eqb_spec c ch_backslash); [by rewrite orb_true_r|].
  intros ->. done.
Qed.

Lemma unify_dot c : unify_separator c = ch_dot → c = ch_dot.
Proof. unfold unify_separator. by destruct (_ =? _). Qed.

Lemma safe_no_dotdot path :
  safe_from None path = true → [ch_dot; ch_dot] ∉ components (unify_separator <$> path).
Proof.
  intros Hs (pre & post & Heq & Hpre & Hpost)%split_at_spec. rewrite reverse_nil in Heq. cbn [app] in Heq.
  apply fmap_app_inv in Heq as (p1 & p2 & Hp1 & Hp2 & ->).
  change (ch_dot :: ch_dot :: post) with ([ch_dot; ch_dot] ++ post) in Hp2.
  destruct p2 as [|a [|b p3]]; try done. cbn in Hp2. injection Hp2 as Ha Hb Hpost'.
  symmetry in Ha, Hb. apply unify_dot in Ha, Hb. subst a b.
  apply safe_app in Hs. cbn [safe_from] in Hs.
  assert (Hsep : match default None (Some <$> last p1) with None => true | Some p => is_separator p end = true).
  { destruct Hpre as [->|[pre' ->]].
    - symmetry in Hp1. apply fmap_nil_inv in Hp1. by subst.
    - symmetry in Hp1. apply fmap_app_inv in Hp1 as (q1 & q2 & _ & Hq2 & ->).
      destruct q2 as [|s [|? ?]]; try done. cbn in Hq2. injection Hq2 as Hq2. rewrite last_snoc. cbn.
      by apply unify_slash. }
  rewrite Hsep in Hs. change (ch_dot =? ch_colon) with false in Hs. change (ch_dot =? ch_dot) with true in Hs.
  cbn [orb andb] in Hs. destruct p3 as [|t p3]; [done|].
  destruct Hpost as [->|[post' ->]]; [done|]. cbn in Hpost'. injection Hpost' as Ht _.
  by rewrite (unify_slash t) in Hs.
Qed.

Lemma skip_head path : match skip_separators path with c :: _ => is_separator c = false | [] => True end.
Proof. induction path as [|c path IH]; [done|]. cbn. by destruct (is_separator c) eqn:E. Qed.

(** ** Spellings

    What a path means, without the parser: an optional drive (a letter in either
    case and a colon, [C:] when it is left out), any number of separators, and
    the characters of the name, with either slash where the name has ['/']. *)

Inductive same_char : Z → Z → Prop :=
  | same_slash : same_char 47 47
  | same_backslash : same_char 47 92
  | same_other c : c ≠ 47 → c ≠ 92 → same_char c c.

Inductive drive : Z → list Z → Prop :=
  | drive_upper l : 65 ≤ l ≤ 90 → drive l [l; 58]
  | drive_lower l : 65 ≤ l ≤ 90 → drive l [l + 32; 58]
  | drive_C : drive 67 [].

(** A name of a file on a volume: its components are separated by ['/'], none of
    them is [..], and the first is not empty. *)
Record file_name (name : list Z) : Prop := mk_file_name {
  fn_nonempty : name ≠ [];
  fn_short : (length name < 256)%nat;
  fn_relative : head name ≠ Some 47;
  fn_backslash : 92 ∉ name;
  fn_colon : 58 ∉ name;
  fn_inside : [46; 46] ∉ components name
}.

Inductive spells (l : Z) (name : list Z) : list Z → Prop :=
  | spelling d seps p :
      file_name name → drive l d → Forall (λ c, c = 47 ∨ c = 92) seps → Forall2 same_char name p →
      spells l name (d ++ seps ++ p).

Lemma components_app a b : components (a ++ ch_slash :: b) = components a ++ components b.
Proof.
  unfold components. assert (H : ∀ acc, split_at acc (a ++ ch_slash :: b) = split_at acc a ++ split_at [] b); [|apply H].
  induction a as [|c a IH]; intros acc; cbn [app split_at]; [done|].
  destruct (c =? ch_slash); [cbn; by rewrite IH|apply IH].
Qed.

Lemma components_dots : components [ch_dot; ch_dot] = [[ch_dot; ch_dot]].
Proof. done. Qed.

(** Two dots between separators, or at an end, are a component. *)
Lemma dots_component pre post :
  (pre = [] ∨ ∃ pre', pre = pre' ++ [ch_slash]) → (post = [] ∨ ∃ post', post = ch_slash :: post') →
  [ch_dot; ch_dot] ∈ components (pre ++ [ch_dot; ch_dot] ++ post).
Proof.
  assert (Hend : ∀ post, (post = [] ∨ ∃ post', post = ch_slash :: post') →
    [ch_dot; ch_dot] ∈ components ([ch_dot; ch_dot] ++ post)).
  { intros q [->|[q' ->]]; [rewrite app_nil_r|rewrite components_app]; rewrite components_dots.
    - by apply list_elem_of_singleton.
    - apply elem_of_app. left. by apply list_elem_of_singleton. }
  intros [->|[pre' ->]] Hpost; [by apply Hend|].
  rewrite <- app_assoc. cbn [app]. rewrite components_app. apply elem_of_app. right. by apply Hend.
Qed.

Lemma separator_unify c : is_separator c = true → unify_separator c = ch_slash.
Proof.
  unfold is_separator, unify_separator. intros [->%Z.eqb_eq| ->%Z.eqb_eq]%orb_prop; done.
Qed.

(** What [path_is_safe] refuses. *)
Lemma unsafe_from prev p :
  safe_from prev p = false →
  ch_colon ∈ p ∨ ∃ pre post, p = pre ++ [ch_dot; ch_dot] ++ post
    ∧ match default prev (Some <$> last pre) with None => True | Some c => is_separator c = true end
    ∧ match post with [] => True | t :: _ => is_separator t = true end.
Proof.
  revert prev. induction p as [|c p IH]; intros prev H; [done|]. cbn [safe_from] in H.
  destruct (_ || _) eqn:E in H.
  - apply orb_prop in E as [->%Z.eqb_eq|E]; [left; apply elem_of_cons; by left|].
    apply andb_prop in E as [[[->%Z.eqb_eq Hd]%andb_prop Hp]%andb_prop Ht]. right.
    destruct p as [|d p]; [done|]. apply Z.eqb_eq in Hd as ->. exists [], p. split; [done|].
    split; [by destruct prev|by destruct p].
  - destruct (IH (Some c) H) as [Hin|(pre & post & -> & Hpre & Hpost)]; [left; apply elem_of_cons; by right|].
    right. exists (c :: pre), post. split; [done|]. split; [|done].
    destruct pre as [|d pre]; [done|]. rewrite last_cons_cons.
    destruct (last (d :: pre)) eqn:El; [done|]. by apply last_None in El.
Qed.

Lemma safe_complete p :
  ch_colon ∉ p → [ch_dot; ch_dot] ∉ components (unify_separator <$> p) → safe_from None p = true.
Proof.
  intros Hc Hd. destruct (safe_from None p) eqn:E; [done|]. exfalso.
  apply unsafe_from in E as [Hin|(pre & post & -> & Hpre & Hpost)]; [done|]. apply Hd.
  rewrite !fmap_app. apply (dots_component (unify_separator <$> pre) (unify_separator <$> post)).
  - destruct pre as [|c pre _] using rev_ind; [by left|]. right. exists (unify_separator <$> pre).
    rewrite last_snoc in Hpre. cbn in Hpre. rewrite fmap_app. cbn. by rewrite separator_unify.
  - destruct post as [|t post]; [by left|]. right. exists (unify_separator <$> post). cbn.
    by rewrite separator_unify.
Qed.

Lemma same_unify name p : 92 ∉ name → Forall2 same_char name p ↔ name = unify_separator <$> p.
Proof.
  intros Hb. split.
  - induction 1 as [|c d name p Hcd _ IH]; [done|]. apply not_elem_of_cons in Hb as [_ Hb].
    cbn. f_equal; [|by apply IH]. destruct Hcd; [done..|]. unfold unify_separator.
    by destruct (Z.eqb_spec c ch_backslash).
  - intros ->. clear Hb. induction p as [|c p IH]; cbn; constructor; [|done]. unfold unify_separator.
    destruct (Z.eqb_spec c ch_backslash) as [->|]; [constructor|].
    destruct (Z.eq_dec c 47) as [->|]; by constructor.
Qed.

Lemma same_separator c d : same_char c d → is_separator d = true → c = ch_slash.
Proof.
  destruct 1 as [| |c H1 H2]; [done..|]. unfold is_separator.
  intros [->%Z.eqb_eq| ->%Z.eqb_eq]%orb_prop; done.
Qed.

Lemma skip_seps seps p :
  Forall (λ c, c = 47 ∨ c = 92) seps → match p with c :: _ => is_separator c = false | [] => True end →
  skip_separators (seps ++ p) = p.
Proof.
  intros Hs Hp. induction Hs as [|c seps [->| ->] _ IH]; [|exact IH..].
  destruct p as [|c p]; [done|]. cbn. by rewrite Hp.
Qed.

Lemma skip_split path :
  ∃ seps, path = seps ++ skip_separators path ∧ Forall (λ c, c = 47 ∨ c = 92) seps.
Proof.
  induction path as [|c path (seps & IH & Hs)]; [by exists []|]. cbn.
  destruct (is_separator c) eqn:E; [|by exists []].
  exists (c :: seps). split; [cbn; by rewrite <- IH|]. constructor; [|done].
  unfold is_separator, ch_slash, ch_backslash in E. apply orb_prop in E as [?%Z.eqb_eq|?%Z.eqb_eq]; auto.
Qed.

Section Volumes.
  Context {B : Type}.

(** A path that [parse_path_locked] accepts names a mounted volume and a
    relative path that stays inside it: it is not empty, shorter than 256
    characters, uses only forward slashes, does not start with one, contains no
    colon, and none of its components is [..]. *)
Lemma vfs_paths_confined (path : list Z) (s : vfs B) b relative :
  parse_path_locked (Some path) s = Some (b, relative) →
  (∃ v, volume_of (split_letter path).1 s = Some v ∧ backend v = b)
  ∧ relative ≠ [] ∧ Z.of_nat (length relative) < VFS_MAX_PATH
  ∧ ch_backslash ∉ relative ∧ head relative ≠ Some ch_slash ∧ ch_colon ∉ relative
  ∧ [ch_dot; ch_dot] ∉ components relative.
Proof.
  unfold parse_path_locked. destruct (split_letter path) as [l rest]. cbn [fst].
  pose proof (skip_head rest) as Hhead. set (p := skip_separators rest) in *.
  destruct (path_is_safe p) eqn:Hsafe; cbn [negb]; [|done]. rewrite Z.geb_leb.
  destruct (Z.leb_spec VFS_MAX_PATH (Z.of_nat (length p))) as [|Hlen]; [done|].
  destruct (volume_of l s) as [v|] eqn:Hv; [|done]. intros [= <- <-].
  unfold path_is_safe in Hsafe. destruct p as [|c p]; [done|].
  split; [by exists v|]. split; [done|]. split; [by rewrite length_fmap|]. split; [|split; [|split]].
  - intros (x & Hx & _)%list_elem_of_fmap. unfold unify_separator in Hx.
    by destruct (Z.eqb_spec x ch_backslash).
  - cbn. intros [= Hc]. apply unify_slash in Hc. congruence.
  - intros (x & Hx & Hin)%list_elem_of_fmap. apply safe_no_colon in Hsafe. apply Hsafe.
    unfold unify_separator in Hx. destruct (x =? ch_backslash); [done|by rewrite Hx].
  - by apply safe_no_dotdot.
Qed.

(** ** The volume table *)

Record vfs_ok (s : vfs B) : Prop := mk_vfs_ok {
  vok_count : (length (volumes s) ≤ VFS_MAX_VOLUMES)%nat;
  vok_letters : NoDup (letter <$> volumes s);
  vok_valid : Forall (λ v, letter_is_valid (letter v) = true ∧ backend_is_valid (backend v) = true) (volumes s)
}.

(** The table as a map from letters to backends. *)
Definition mounted (s : vfs B) : gmap Z (vfs_backend B) :=
  list_to_map ((λ v, (letter v, backend v)) <$> volumes s).

Lemma find_from_spec i l (vs : list (vfs_volume B)) :
  match find_from i l vs with
  | Some k => ∃ v, (i ≤ k)%nat ∧ vs !! (k - i)%nat = Some v ∧ letter v = l
  | None => l ∉ letter <$> vs
  end.
Proof.
  revert i. induction vs as [|v vs IH]; intros i; cbn [find_from]; [apply not_elem_of_nil|].
  destruct (Z.eqb_spec (letter v) l) as [<-|Hne].
  - exists v. by rewrite Nat.sub_diag.
  - specialize (IH (S i)). destruct (find_from (S i) l vs) as [k|].
    + destruct IH as (w & Hk & Hw & Hl). exists w. replace (k - i)%nat with (S (k - S i)) by lia.
      split; [lia|done].
    + cbn. apply not_elem_of_cons. split; [congruence|done].
Qed.

Lemma fst_pairs (vs : list (vfs_volume B)) : ((λ v, (letter v, backend v)) <$> vs).*1 = letter <$> vs.
Proof. rewrite <- list_fmap_compose. done. Qed.

Lemma volume_of_mounted l s : vfs_ok s → backend <$> volume_of l s = mounted s !! normalize_letter l.
Proof.
  intros Hok. unfold volume_of, find_volume_locked.
  pose proof (find_from_spec 0 (normalize_letter l) (volumes s)) as Hf.
  destruct (find_from 0 (normalize_letter l) (volumes s)) as [k|].
  - destruct Hf as (v & _ & Hv & Hl). rewrite Nat.sub_0_r in Hv. rewrite Hv. cbn. symmetry.
    apply elem_of_list_to_map_1; [rewrite fst_pairs; apply Hok|].
    apply list_elem_of_fmap. exists v. split; [by rewrite <- Hl|by eapply list_elem_of_lookup_2].
  - symmetry. apply not_elem_of_list_to_map_1. by rewrite fst_pairs.
Qed.

Lemma normalize_valid l : letter_is_valid l = true → normalize_letter l = l.
Proof.
  unfold letter_is_valid, normalize_letter. intros [H1%Z.leb_le H2%Z.leb_le]%andb_prop.
  destruct (Z.leb_spec 97 l); [lia|done].
Qed.

Lemma normalize_idem l : letter_is_valid (normalize_letter l) = true → normalize_letter (normalize_letter l) = normalize_letter l.
Proof. apply normalize_valid. Qed.

(** The drive: how [split_letter] and [normalize_letter] see it. *)
Lemma split_drive l d rest :
  drive l d → ch_colon ∉ rest →
  ∃ c, split_letter (d ++ rest) = (c, rest) ∧ normalize_letter c = l.
Proof.
  intros Hd Hc. destruct Hd as [l Hl|l Hl|].
  - exists l. split; [done|]. apply normalize_valid. unfold letter_is_valid. apply andb_true_intro.
    split; apply Z.leb_le; lia.
  - exists (l + 32). split; [done|]. unfold normalize_letter.
    destruct (Z.leb_spec 97 (l + 32)), (Z.leb_spec (l + 32) 122); cbn [andb]; lia.
  - exists letter_C. split; [|done]. cbn [app]. destruct rest as [|a [|b rest]]; [done..|].
    cbn [split_letter]. destruct (Z.eqb_spec b ch_colon) as [->|]; [|done].
    destruct Hc. apply elem_of_cons. right. apply elem_of_cons. by left.
Qed.

Lemma drive_split path l :
  letter_is_valid l = true → normalize_letter (split_letter path).1 = l →
  ∃ d, path = d ++ (split_letter path).2 ∧ drive l d.
Proof.
  unfold letter_is_valid. intros [H1%Z.leb_le H2%Z.leb_le]%andb_prop.
  assert (Hnone : normalize_letter letter_C = l → ∃ d, path = d ++ path ∧ drive l d).
  { intros <-. exists []. split; [done|constructor]. }
  destruct path as [|a [|c rest]]; [exact Hnone..|]. cbn [split_letter].
  destruct (Z.eqb_spec c ch_colon) as [->|]; [|exact Hnone]. cbn [fst snd]. intros Hn. exists [a; ch_colon].
  split; [done|]. unfold normalize_letter in Hn.
  destruct (Z.leb_spec 97 a), (Z.leb_spec a 122); cbn [andb] in Hn; [|subst a; constructor; lia..].
  replace a with (l + 32) by lia. constructor. lia.
Qed.

Lemma mounted_valid l s b : vfs_ok s → mounted s !! l = Some b → letter_is_valid l = true.
Proof.
  intros Hok H. apply elem_of_list_to_map_2, list_elem_of_fmap in H as (v & [= -> ->] & Hv).
  pose proof (vok_valid _ Hok) as Hall. rewrite Forall_forall in Hall. by apply Hall.
Qed.

Lemma name_length name p : Forall2 same_char name p → file_name name → Z.of_nat (length p) < VFS_MAX_PATH.
Proof. intros H Hn. apply Forall2_length in H. pose proof (fn_short _ Hn). unfold VFS_MAX_PATH. lia. Qed.

(** The parser accepts exactly the spellings of file names on mounted volumes. *)
Lemma parse_spells s path b name :
  vfs_ok s →
  parse_path_locked (Some path) s = Some (b, name) ↔ ∃ l, spells l name path ∧ mounted s !! l = Some b.
Proof.
  intros Hok. split.
  - intros H. pose proof (vfs_paths_confined path s b name H)
      as ((v & Hv & Hb) & Hne & Hlen & Hback & Hslash & Hcolon & Hdots).
    assert (Hm : mounted s !! normalize_letter (split_letter path).1 = Some b).
    { by rewrite <- volume_of_mounted, Hv; cbn; [rewrite Hb|]. }
    exists (normalize_letter (split_letter path).1). split; [|done].
    destruct (drive_split path _ (mounted_valid _ _ _ Hok Hm) eq_refl) as (d & Hpath & Hd).
    destruct (skip_split (split_letter path).2) as (seps & Hsplit & Hs).
    rewrite Hsplit in Hpath. rewrite Hpath at 2. constructor; [|done|done|].
    + constructor; [done|unfold VFS_MAX_PATH in Hlen; lia|done|done|done|done].
    + apply same_unify; [done|]. clear -H. unfold parse_path_locked in H.
      destruct (split_letter path) as [l rest]. destruct (negb _); [done|]. destruct (_ >=? _); [done|].
      destruct (volume_of l s); [|done]. by injection H.
  - intros (l & [d seps p Hn Hd Hs Hp] & Hm). pose proof (name_length _ _ Hp Hn) as Hlen.
    pose proof (proj1 (same_unify name p (fn_backslash _ Hn)) Hp) as Hu.
    assert (Hcp : ch_colon ∉ p).
    { intros Hin. apply (fn_colon _ Hn). rewrite Hu. apply list_elem_of_fmap. by exists ch_colon. }
    assert (Hc : ch_colon ∉ seps ++ p).
    { intros [Hin|Hin]%elem_of_app; [|done]. rewrite Forall_forall in Hs. by destruct (Hs _ Hin). }
    assert (Hhead : match p with c :: _ => is_separator c = false | [] => True end).
    { destruct p as [|c p]; [done|]. destruct (is_separator c) eqn:E; [|done]. destruct (fn_relative _ Hn).
      rewrite Hu. cbn. by rewrite separator_unify. }
    destruct (split_drive l d (seps ++ p) Hd Hc) as (c & Hsl & Hnorm).
    unfold parse_path_locked. rewrite Hsl, (skip_seps seps p Hs Hhead).
    assert (path_is_safe p = true) as ->.
    { unfold path_is_safe. destruct p as [|a p]; [by destruct (fn_nonempty _ Hn)|].
      apply safe_complete; [done|]. rewrite <- Hu. apply (fn_inside _ Hn). }
    cbn [negb]. rewrite Z.geb_leb. destruct (Z.leb_spec VFS_MAX_PATH (Z.of_nat (length p))); [lia|].
    pose proof (volume_of_mounted c s Hok) as Hv. rewrite Hnorm, Hm in Hv.
    destruct (volume_of c s) as [v|]; [|done]. cbn in Hv. injection Hv as ->. by rewrite Hu.
Qed.

(** A path that names nothing on a mounted volume. *)
Lemma parse_no_spelling s path :
  vfs_ok s → (∀ l name, is_Some (mounted s !! l) → ¬ spells l name path) → parse_path_locked (Some path) s = None.
Proof.
  intros Hok H. destruct (parse_path_locked (Some path) s) as [[b name]|] eqn:E; [|done].
  apply parse_spells in E as (l & Hs & Hm); [|done]. by destruct (H l name ltac:(by exists b)).
Qed.

Lemma mount_spec l label b s :
  vfs_ok s →
  let '(s', ok) := vfs_mount_volume l label b s in
  vfs_ok s' ∧
  (ok = true → ∃ b', b = Some b' ∧ backend_is_valid b' = true ∧ mounted s !! normalize_letter l = None ∧
    mounted s' = <[normalize_letter l := b']> (mounted s)) ∧
  (ok = false → s' = s).
Proof.
  intros Hok. unfold vfs_mount_volume. destruct label as [[|c cs]|], b as [b|]; try (by split; [|split]).
  destruct (negb _ || negb _) eqn:E; [by split; [|split]|].
  apply orb_false_elim in E as [Hl%negb_false_iff Hb%negb_false_iff].
  destruct (_ || _) eqn:E; [by split; [|split]|].
  apply orb_false_elim in E as [Hfree%bool_decide_eq_false Hcnt%Nat.leb_gt].
  rewrite <- eq_None_not_Some in Hfree. unfold find_volume_locked in Hfree. rewrite normalize_idem in Hfree by done.
  pose proof (find_from_spec 0 (normalize_letter l) (volumes s)) as Hf. rewrite Hfree in Hf.
  assert (Hn : mounted s !! normalize_letter l = None).
  { apply not_elem_of_list_to_map_1. by rewrite fst_pairs. }
  destruct Hok as [H1 H2 H3]. split; [|split; [|done]].
  - constructor; cbn [volumes].
    + rewrite length_app. cbn. lia.
    + rewrite fmap_app. apply NoDup_app. split_and!; [done| |apply NoDup_singleton].
      intros x Hx ->%list_elem_of_singleton. done.
    + apply Forall_app. split; [done|]. by constructor.
  - intros _. exists b. split_and!; try done. unfold mounted. cbn [volumes]. rewrite fmap_app, list_to_map_app.
    cbn. rewrite insert_empty. apply map_eq. intros x. destruct (decide (x = normalize_letter l)) as [->|Hx].
    + rewrite lookup_union_r, lookup_singleton_eq, lookup_insert_eq by done. done.
    + rewrite lookup_insert_ne by done. apply lookup_union_l. by rewrite lookup_singleton_ne.
Qed.

Lemma unmount_spec l s :
  vfs_ok s →
  let '(s', ok) := vfs_unmount_volume l s in
  vfs_ok s' ∧ (ok = true ↔ normalize_letter l ≠ letter_C ∧ is_Some (mounted s !! normalize_letter l)) ∧
  mounted s' = if ok then delete (normalize_letter l) (mounted s) else mounted s.
Proof.
  intros Hok. unfold vfs_unmount_volume, find_volume_locked.
  pose proof (find_from_spec 0 (normalize_letter l) (volumes s)) as Hf.
  destruct (find_from 0 (normalize_letter l) (volumes s)) as [k|].
  2:{ split; [done|]. split; [|done]. split; [done|]. intros [_ [b Hb]].
      unfold mounted in Hb. rewrite not_elem_of_list_to_map_1 in Hb; [done|]. by rewrite fst_pairs. }
  destruct Hf as (v & _ & Hv & Hl). rewrite Nat.sub_0_r in Hv. rewrite Hv, Hl.
  assert (Hsome : mounted s !! normalize_letter l = Some (backend v)).
  { apply elem_of_list_to_map_1; [rewrite fst_pairs; apply Hok|].
    apply list_elem_of_fmap. exists v. split; [by rewrite <- Hl|by eapply list_elem_of_lookup_2]. }
  destruct (Z.eqb_spec (normalize_letter l) letter_C) as [Hc|Hc].
  { split; [done|]. split; [|done]. by split; [|intros [? _]]. }
  pose proof (take_drop_middle _ _ _ Hv) as Hsplit. destruct Hok as [H1 H2 H3].
  rewrite <- Hsplit in H1, H2, H3. rewrite length_app in H1. cbn in H1.
  rewrite fmap_app, fmap_cons in H2. apply NoDup_app in H2 as (N1 & N2 & [N3 N4]%NoDup_cons).
  apply Forall_app in H3 as [F1 [_ F2]%Forall_cons].
  split; [|split].
  - constructor; cbn [volumes].
    + rewrite length_app. lia.
    + rewrite fmap_app. apply NoDup_app. split_and!; [done| |done].
      intros x Hx Hx2. eapply N2; [exact Hx|]. by apply elem_of_cons; right.
    + by apply Forall_app.
  - split; [intros _|done]. by rewrite Hsome.
  - unfold mounted. cbn [volumes]. rewrite <- Hsplit at 3. rewrite !fmap_app, !list_to_map_app, fmap_cons.
    cbn [list_to_map foldr]. rewrite Hl. apply map_eq. intros x. cbn.
    assert (A1 : (list_to_map ((λ v, (letter v, backend v)) <$> take k (volumes s)) : gmap Z (vfs_backend B))
                   !! normalize_letter l = None).
    { apply not_elem_of_list_to_map_1. rewrite fst_pairs. intros Hin. eapply N2; [exact Hin|].
      apply elem_of_cons. by left. }
    assert (A2 : (list_to_map ((λ v, (letter v, backend v)) <$> drop (S k) (volumes s)) : gmap Z (vfs_backend B))
                   !! normalize_letter l = None).
    { apply not_elem_of_list_to_map_1. rewrite fst_pairs. by rewrite <- Hl. }
    destruct (decide (x = normalize_letter l)) as [->|Hx].
    + rewrite lookup_delete_eq, lookup_union, A1, A2. done.
    + rewrite lookup_delete_ne, !lookup_union by done. by rewrite lookup_insert_ne.
Qed.

End Volumes.

(** ** What the VFS asks of a backend *)

Class FileStore {B} (b : vfs_backend B) := {
  fs_ok : B → Prop;
  fs_files : B → gmap (list Z) (list Z);
  (** paths under which a stored file can be seen *)
  fs_visible : list Z → Prop;
  fs_read : ∀ p st, fs_ok st → fs_visible p → ∃ f, read_file b = Some f ∧ f p st = fs_files st !! p;
  fs_write : ∀ f p data st st' ok, write_file b = Some f → fs_ok st → f p data st = (st', ok) →
    fs_ok st' ∧ fs_files st' = if ok then <[p := data]> (fs_files st) else fs_files st;
  fs_unlink : ∀ f p st st' ok, unlink_file b = Some f → fs_ok st → f p st = (st', ok) →
    fs_ok st' ∧ fs_files st' = if ok then delete p (fs_files st) else fs_files st
}.

(** The in-memory volume is one. *)
#[export] Program Instance ramfs_file_store : FileStore ramfs_vfs_backend := {
  fs_ok r := ramfs_ok r ∧ initialized r = true;
  fs_files r := stored (dynamic_files r);
  fs_visible p := p ≠ readme_path
}.
Next Obligation.
  intros p r [Hok Hi] Hp. exists ramfs_read_file. split; [done|].
  destruct (ramfs_operations r Hok Hi) as (Hr & _). rewrite Hr. by rewrite decide_False.
Qed.
Next Obligation.
  intros f p data r r' ok [= <-] [Hok Hi] Hw. pose proof (write_spec p data r Hok Hi) as H. rewrite Hw in H.
  by destruct H as (? & ? & _ & ?).
Qed.
Next Obligation.
  intros f p r r' ok [= <-] [Hok Hi] Hw. pose proof (unlink_spec p r Hok Hi) as H. rewrite Hw in H.
  by destruct H as (? & ? & _ & ?).
Qed.

(** ** Files through the VFS *)

Section Files.
  Context {B : Type} (b : vfs_backend B) `{!FileStore b}.

(** What a path on a volume with this backend reads. *)
Lemma read_through (s : vfs B) path relative st :
  parse_path_locked (Some path) s = Some (b, relative) → fs_ok st → fs_visible relative →
  vfs_read_file (Some path) s st = fs_files st !! relative.
Proof.
  intros Hp Hok Hv. unfold vfs_read_file. rewrite Hp.
  destruct (fs_read relative st Hok Hv) as (f & -> & Hf). done.
Qed.

End Files.

(** ** The in-memory volume under its letter *)

Section InMemory.
  Context (s : vfs ramfs) (Hs : vfs_ok s).

(** A letter of the in-memory volume. *)
Definition on_ramfs (l : Z) : Prop := mounted s !! l = Some ramfs_vfs_backend.

Lemma parse_on_ramfs l name path :
  on_ramfs l → spells l name path → parse_path_locked (Some path) s = Some (ramfs_vfs_backend, name).
Proof. intros Hl Hsp. apply parse_spells; [done|]. by exists l. Qed.

(** What a spelling reads. *)
Lemma read_spelling l name path r :
  on_ramfs l → spells l name path → ramfs_ok r → initialized r = true →
  vfs_read_file (Some path) s r
  = if decide (name = readme_path) then Some readme else stored (dynamic_files r) !! name.
Proof.
  intros Hl Hsp Hok Hi. unfold vfs_read_file. rewrite (parse_on_ramfs l name path) by done.
  cbn [read_file ramfs_vfs_backend]. apply (ramfs_operations r Hok Hi).
Qed.

Lemma count_on_ramfs l r :
  on_ramfs l → letter_is_valid l = true → ramfs_ok r → initialized r = true →
  vfs_file_count_on_volume l s r = 1 + Z.of_nat (size (stored (dynamic_files r))).
Proof.
  intros Hl Hv Hok Hi. unfold vfs_file_count_on_volume. pose proof (volume_of_mounted l s Hs) as H.
  rewrite normalize_valid, Hl in H by done. destruct (volume_of l s) as [v|]; [|done]. cbn in H.
  injection H as ->. apply (ramfs_operations r Hok Hi).
Qed.

(** C34: The files of the in-memory volume through the VFS, under any letters it
    is mounted at.  Writing under one spelling of a name (the drive letter in
    either case or left out for [C:], any number of leading separators, either
    slash in the name) succeeds exactly when the data has at most 8192 bytes, the
    name fewer than 128 characters, and the file exists or fewer than eight files
    are stored; then every spelling of the name reads the data, and every other
    name reads what it read before; a failed write changes nothing that can be
    read.  Deleting succeeds exactly when the file exists; it is then gone under
    every spelling and the others stay.  A path that spells no name on a mounted
    volume (an unknown drive, an empty name, a colon, a [..] component, 256
    characters or more) neither reads, writes nor deletes.  The name written or
    deleted is not that of the built-in README.TXT, which always reads the same
    (a file stored under its name cannot be read). *)
Theorem vfs_write_read r l name path data :
  ramfs_ok r → initialized r = true → on_ramfs l → spells l name path → name ≠ readme_path →
  (let '(r', ok) := vfs_write_file (Some path) data s r in
   ramfs_ok r' ∧ initialized r' = true
   ∧ (ok = true ↔ Z.of_nat (length data) ≤ 8192 ∧ (length name < 128)%nat
        ∧ (is_Some (vfs_read_file (Some path) s r) ∨ vfs_file_count_on_volume l s r < 9))
   ∧ ∀ l' name' path', on_ramfs l' → spells l' name' path' →
     vfs_read_file (Some path') s r'
     = if ok && bool_decide (name' = name) then Some data else vfs_read_file (Some path') s r)
  ∧ (let '(r', ok) := vfs_unlink_file (Some path) s r in
   ramfs_ok r' ∧ initialized r' = true ∧ (ok = true ↔ is_Some (vfs_read_file (Some path) s r))
   ∧ ∀ l' name' path', on_ramfs l' → spells l' name' path' →
     vfs_read_file (Some path') s r'
     = if ok && bool_decide (name' = name) then None else vfs_read_file (Some path') s r)
  ∧ (∀ path', (∀ l' name', is_Some (mounted s !! l') → ¬ spells l' name' path') →
     vfs_read_file (Some path') s r = None ∧ vfs_write_file (Some path') data s r = (r, false)
     ∧ vfs_unlink_file (Some path') s r = (r, false)).
Proof.
  intros Hok Hi Hl Hsp Hname. destruct (ramfs_operations r Hok Hi) as (_ & Hw & Hu & _).
  specialize (Hw name data). specialize (Hu name).
  assert (Hne : name ≠ []) by (destruct Hsp as [? ? ? Hn]; apply (fn_nonempty _ Hn)).
  pose proof (read_spelling l name path r Hl Hsp Hok Hi) as Hread. rewrite decide_False in Hread by done.
  split; [|split].
  - unfold vfs_write_file. rewrite (parse_on_ramfs l name path Hl Hsp). cbn [write_file ramfs_vfs_backend].
    destruct (ramfs_write_file name data r) as [r' ok]. destruct Hw as (Hok' & Hi' & Hcond & Hst).
    split; [done|]. split; [done|]. split.
    + rewrite Hcond, bool_decide_eq_true, Hread. unfold may_write.
      rewrite (count_on_ramfs l r Hl (mounted_valid _ _ _ Hs Hl) Hok Hi).
      unfold RAMFS_DYNAMIC_FILE_SIZE_MAX, RAMFS_DYNAMIC_PATH_MAX, RAMFS_DYNAMIC_FILE_MAX.
      split; [intros (_ & H1 & H2 & H3)|intros (H1 & H2 & H3); split; [done|]];
        (split; [lia|]; split; [lia|]; destruct H3; [by left|right; lia]).
    + clear Hcond Hu. intros l' name' path' Hl' Hsp'. rewrite !(read_spelling l' name' path') by done. rewrite Hst.
      destruct ok; cbn [andb]; [|done]. case_bool_decide; [subst; rewrite decide_False by done; apply lookup_insert_eq|].
      by rewrite lookup_insert_ne.
  - unfold vfs_unlink_file. rewrite (parse_on_ramfs l name path Hl Hsp). cbn [unlink_file ramfs_vfs_backend].
    destruct (ramfs_unlink_file name r) as [r' ok]. destruct Hu as (Hok' & Hi' & Hcond & Hst).
    split; [done|]. split; [done|]. split.
    + rewrite Hcond, bool_decide_eq_true, Hread. naive_solver.
    + clear Hcond Hw. intros l' name' path' Hl' Hsp'. rewrite !(read_spelling l' name' path') by done. rewrite Hst.
      destruct ok; cbn [andb]; [|done]. case_bool_decide; [subst; rewrite decide_False by done; apply lookup_delete_eq|].
      by rewrite lookup_delete_ne.
  - intros path' Hno. apply parse_no_spelling in Hno; [|done].
    unfold vfs_read_file, vfs_write_file, vfs_unlink_file. by rewrite Hno.
Qed.

End InMemory.

(** ** An example: the in-memory volume as D: *)

Definition example_vfs : vfs ramfs :=
  (vfs_mount_volume 68 (Some (codes "Data")) (Some ramfs_vfs_backend) (mk_vfs [])).1.

Definition example_fs : ramfs := (ramfs_initialize ramfs_boot).1.

Lemma vfs_paths_confined_witness :
  [ch_dot; ch_dot] ∉ components (codes "logs/boot..txt")
  ∧ parse_path_locked (Some (codes "d:/../secret")) example_vfs = None.
Proof.
  split; [|reflexivity].
  destruct (vfs_paths_confined (codes "d:/logs/boot..txt") example_vfs ramfs_vfs_backend (codes "logs/boot..txt"))
    as (_ & _ & _ & _ & _ & _ & H); [reflexivity|exact H].
Defined.

Lemma example_vfs_ok : vfs_ok example_vfs.
Proof.
  assert (H0 : vfs_ok (mk_vfs [] : vfs ramfs)) by (constructor; [cbn; lia|constructor|constructor]).
  unfold example_vfs. pose proof (mount_spec 68 (Some (codes "Data")) (Some ramfs_vfs_backend) _ H0) as H.
  destruct (vfs_mount_volume _ _ _ _). apply H.
Qed.

Lemma notes_name : file_name (codes "notes/a.txt").
Proof.
  constructor; [done|cbn; lia|done| | |].
  1, 2: intros H; apply list_elem_of_In in H; vm_compute in H; repeat destruct H as [H|H]; done.
  intros H. vm_compute in H. apply elem_of_cons in H as [H|H%list_elem_of_singleton]; done.
Qed.

(** Two ways to write [notes/a.txt] on volume D. *)
Lemma notes_spellings :
  spells 68 (codes "notes/a.txt") (codes "D:/notes/a.txt") ∧ spells 68 (codes "notes/a.txt") (codes "d:\\notes\a.txt").
Proof.
  split.
  - apply (spelling 68 _ (codes "D:") (codes "/") (codes "notes/a.txt") notes_name); [by apply (drive_upper 68)| |].
    + repeat constructor.
    + repeat (constructor; [by constructor|]). constructor.
  - apply (spelling 68 _ (codes "d:") (codes "\\") (codes "notes\a.txt") notes_name); [by apply (drive_lower 68)| |].
    + repeat (constructor; [by right|]). constructor.
    + repeat (constructor; [by constructor|]). constructor.
Qed.

Lemma vfs_write_read_witness :
  let '(st', ok) := vfs_write_file (Some (codes "D:/notes/a.txt")) [1; 2; 3] example_vfs example_fs in
  ok = true ∧ vfs_read_file (Some (codes "d:\\notes\a.txt")) example_vfs st' = Some [1; 2; 3].
Proof.
  destruct (vfs_write_read example_vfs example_vfs_ok example_fs 68 (codes "notes/a.txt")
    (codes "D:/notes/a.txt") [1; 2; 3]) as [H _].
  - exact boot_ok.
  - reflexivity.
  - reflexivity.
  - apply notes_spellings.
  - discriminate.
  - assert (Hw : (vfs_write_file (Some (codes "D:/notes/a.txt")) [1; 2; 3] example_vfs example_fs).2 = true)
      by (vm_compute; reflexivity).
    destruct (vfs_write_file _ _ _ _) as [st' ok]. cbn in Hw. subst ok. split; [reflexivity|].
    destruct H as (_ & _ & _ & H). rewrite (H 68 (codes "notes/a.txt")); [reflexivity|reflexivity|apply notes_spellings].
Defined.
