(* ===== verification/Asn1.v ===== *)
(** * ASN.1 DER (src/lib/asn1.c)

    A buffer with its size is a list of bytes.  An element is described by its
    tag, the size of its header and the length of its content; the pointer
    [data] of the C structure is the place right behind the header
    ([element_data]).  Lengths and offsets are 32-bit. *)

From Stdlib Require Import ZArith Lia.
From stdpp Require Import gmap.
From S2P Require Import Prelude Inet.

#[local] Open Scope Z_scope.

Definition ASN1_TAG_INTEGER : Z := 0x02.
Definition ASN1_TAG_BIT_STRING : Z := 0x03.
Definition ASN1_TAG_OBJECT_ID : Z := 0x06.
Definition ASN1_TAG_UTC_TIME : Z := 0x17.
Definition ASN1_TAG_GENERALIZED_TIME : Z := 0x18.
Definition ASN1_TAG_SEQUENCE : Z := 0x30.

Record asn1_element := mk_element {
  tag : Z;
  constructed : bool;
  length_of : Z;
  header_length : Z
}.

Definition element_data (buffer : list Z) (e : asn1_element) : list Z :=
  take (Z.to_nat (length_of e)) (drop (Z.to_nat (header_length e)) buffer).

(** [length = (length << 8) | octet], in 32 bits. *)
Definition shift_octet (len octet : Z) : Z := Z.lor (u32 (Z.shiftl len 8)) octet.

(** The long form: the length and the offset behind it. *)
Definition long_length (buffer : list Z) (num_octets : Z) : option (Z * Z) :=
  if (num_octets =? 0) || (num_octets >? 4) then None
  else if u32 (2 + num_octets) >? Z.of_nat (length buffer) then None
  else if byte_at buffer 2 =? 0 then None
  else
    let len := fold_left shift_octet (take (Z.to_nat num_octets) (drop 2 buffer)) 0 in
    if len <? 128 then None else Some (len, 2 + num_octets).

Definition asn1_parse_element (buffer : list Z) : option asn1_element :=
  if Z.of_nat (length buffer) <? 2 then None
  else
    let tag := byte_at buffer 0 in
    let len_byte := byte_at buffer 1 in
    match (if Z.land len_byte 0x80 =? 0 then Some (len_byte, 2)
           else long_length buffer (Z.land len_byte 0x7f)) with
    | None => None
    | Some (len, offset) =>
        if u32 (offset + len) >? Z.of_nat (length buffer) then None
        else Some (mk_element tag (negb (Z.land tag 0x20 =? 0)) len offset)
    end.

Definition asn1_get_sequence (buffer : list Z) : option asn1_element :=
  match asn1_parse_element buffer with
  | Some e => if tag e =? ASN1_TAG_SEQUENCE then Some e else None
  | None => None
  end.

Definition asn1_get_integer (buffer : list Z) : option (list Z) :=
  match asn1_parse_element buffer with
  | Some e =>
      if negb (tag e =? ASN1_TAG_INTEGER) || (length_of e =? 0) then None else Some (element_data buffer e)
  | None => None
  end.

(** The content without its first byte, and that byte, the number of unused bits. *)
Definition asn1_get_bitstring (buffer : list Z) : option (list Z * Z) :=
  match asn1_parse_element buffer with
  | Some e =>
      if negb (tag e =? ASN1_TAG_BIT_STRING) || (length_of e =? 0) then None
      else
        let unused := byte_at (element_data buffer e) 0 in
        if unused >? 7 then None else Some (drop 1 (element_data buffer e), unused)
  | None => None
  end.

Definition asn1_get_oid (buffer : list Z) : option (list Z) :=
  match asn1_parse_element buffer with
  | Some e =>
      if negb (tag e =? ASN1_TAG_OBJECT_ID) || (length_of e =? 0) then None else Some (element_data buffer e)
  | None => None
  end.

Fixpoint same_bytes (l r : list Z) : bool :=
  match l, r with
  | a :: l, b :: r => if a =? b then same_bytes l r else false
  | _, _ => true
  end.

Definition asn1_match_oid (oid expected : list Z) : bool :=
  if negb (Z.of_nat (length oid) =? Z.of_nat (length expected)) then false else same_bytes oid expected.

(** ** Time *)

(** Character codes are not checked to be digits. *)
Definition parse_2digits (buffer : list Z) (i : Z) : Z :=
  u32 ((byte_at buffer i - 48) * 10 + (byte_at buffer (i + 1) - 48)).

Definition is_leap_year (year : Z) : bool :=
  ((year mod 4 =? 0) && negb (year mod 100 =? 0)) || (year mod 400 =? 0).

Definition days_before_month : list Z := [0; 31; 59; 90; 120; 151; 181; 212; 243; 273; 304; 334].

(** [for (y = 1970; y < year; ++y) days += is_leap_year(y) ? 366 : 365;] after
    [n] rounds. *)
Fixpoint days_of_years (n : nat) (y : Z) : Z :=
  match n with
  | O => 0
  | S n => (if is_leap_year y then 366 else 365) + days_of_years n (y + 1)
  end.

Definition calendar_to_epoch_seconds (year month day hour min sec : Z) : Z :=
  if (year <? 1970) || (month <? 1) || (month >? 12) || (day <? 1) || (day >? 31) then 0
  else
    let days := days_of_years (Z.to_nat (year - 1970)) 1970 in
    let days := days + default 0 (days_before_month !! Z.to_nat (month - 1)) in
    let days := if (month >? 2) && is_leap_year year then days + 1 else days in
    let days := days + (day - 1) in
    u64 (days * 86400 + hour * 3600 + min * 60 + sec).

Definition is_digit (c : Z) : bool := (48 <=? c) && (c <=? 57).

Definition asn1_parse_time (buffer : list Z) (tag : Z) : option Z :=
  let size := Z.of_nat (length buffer) in
  if tag =? ASN1_TAG_UTC_TIME then
    if size <? 11 then None
    else
      let yy := parse_2digits buffer 0 in
      let year := if yy >=? 50 then u32 (1900 + yy) else u32 (2000 + yy) in
      let sec := if (size >=? 13) && is_digit (byte_at buffer 10) then parse_2digits buffer 10 else 0 in
      Some (calendar_to_epoch_seconds year (parse_2digits buffer 2) (parse_2digits buffer 4)
        (parse_2digits buffer 6) (parse_2digits buffer 8) sec)
  else if tag =? ASN1_TAG_GENERALIZED_TIME then
    if size <? 13 then None
    else
      let year := u32 (parse_2digits buffer 0 * 100 + parse_2digits buffer 2) in
      let sec := if (size >=? 15) && is_digit (byte_at buffer 12) then parse_2digits buffer 12 else 0 in
      Some (calendar_to_epoch_seconds year (parse_2digits buffer 4) (parse_2digits buffer 6)
        (parse_2digits buffer 8) (parse_2digits buffer 10) sec)
  else None.
