(* ===== verification/Asn1Spec.v ===== *)
(** * What the DER parser guarantees (src/lib/asn1.c)

    The parser accepts exactly the distinguished encodings: an element that is
    accepted has the one header its tag and length have, and lies inside the
    buffer (up to the wrap of the 32-bit bounds check).  The conversion of
    calendar dates is checked against the successor of a date. *)

From Stdlib Require Import ZArith Lia.
From stdpp Require Import gmap.
From S2P Require Import Prelude Inet Asn1.

#[local] Open Scope Z_scope.

(** ** Bytes *)

(** A property of all bytes is a computation. *)
Lemma all_bytes (p : Z → bool) b : forallb p (seqZ 0 256) = true → is_u8 b → p b = true.
Proof.
  intros H Hb. rewrite forallb_forall in H. apply H. apply list_elem_of_In, elem_of_seqZ. unfold is_u8 in Hb. lia.
Qed.

Lemma length_octet b :
  is_u8 b → (Z.land b 0x80 =? 0) = (b <? 128) ∧ (128 ≤ b → Z.land b 0x7f = b - 128).
Proof.
  intros Hb.
  pose proof (all_bytes (λ b, Bool.eqb (Z.land b 0x80 =? 0) (b <? 128) &&
    ((b <? 128) || (Z.land b 0x7f =? b - 128))) b ltac:(vm_compute; reflexivity) Hb) as H.
  apply andb_prop in H as [H1%Bool.eqb_prop H2]. split; [done|]. intros Hge.
  destruct (Z.ltb_spec b 128); [lia|]. by apply Z.eqb_eq in H2.
Qed.

Lemma shift_octet_value a b : 0 ≤ a < 16777216 → is_u8 b → shift_octet a b = 256 * a + b.
Proof.
  intros Ha Hb. unfold shift_octet. rewrite Z.shiftl_mul_pow2 by lia. change (2 ^ 8) with 256.
  unfold u32. rewrite Z.mod_small by lia. replace (a * 256) with (a * 2 ^ 8) by (change (2 ^ 8) with 256; lia).
  unfold is_u8 in Hb. rewrite lor_mul_pow2 by (change (2 ^ 8) with 256; lia). change (2 ^ 8) with 256. lia.
Qed.

(** ** The distinguished encoding *)

Definition der_length (len : Z) : list Z :=
  if len <? 128 then [len]
  else if len <? 256 then 0x81 :: [len]
  else if len <? 65536 then [0x82; len / 256; len mod 256]
  else if len <? 16777216 then [0x83; len / 65536; len / 256 mod 256; len mod 256]
  else [0x84; len / 16777216; len / 65536 mod 256; len / 256 mod 256; len mod 256].

Lemma der_length_not_nil len : der_length len ≠ [].
Proof. unfold der_length. repeat case_match; done. Qed.

Definition der_encode (t : Z) (data : list Z) : list Z :=
  t :: der_length (Z.of_nat (length data)) ++ data.

(** The value of one to four octets without a leading zero, and that the
    distinguished encoding of the value is these octets. *)
Lemma octets_value octets :
  Forall is_u8 octets → (1 ≤ length octets ≤ 4)%nat → byte_at octets 0 ≠ 0 →
  let v := fold_left shift_octet octets 0 in
  is_u32 v ∧ (128 ≤ v → (128 + Z.of_nat (length octets)) :: octets = der_length v).
Proof.
  intros Hb Hlen H0. cbn zeta. unfold is_u32, der_length.
  destruct octets as [|a [|b [|c [|d [|? ?]]]]]; cbn [length] in Hlen; try lia;
    repeat (apply Forall_cons in Hb as [? Hb]); cbn [fold_left length];
    change (a ≠ 0) in H0; unfold is_u8 in *.
  - rewrite shift_octet_value by (unfold is_u8; lia). split; [lia|]. intros Hv.
    destruct (Z.ltb_spec (256 * 0 + a) 128); [lia|]. destruct (Z.ltb_spec (256 * 0 + a) 256); [|lia]. done.
  - rewrite !shift_octet_value by (unfold is_u8; try rewrite shift_octet_value by (unfold is_u8; lia); lia).
    split; [lia|]. intros Hv. remember (256 * (256 * 0 + a) + b) as v eqn:Ev.
    destruct (Z.ltb_spec v 128); [lia|]. destruct (Z.ltb_spec v 256); [lia|].
    destruct (Z.ltb_spec v 65536); [|lia]. repeat f_equal; zsolve.
  - rewrite (shift_octet_value 0 a), (shift_octet_value _ b), (shift_octet_value _ c) by (unfold is_u8; lia).
    split; [lia|]. intros Hv. remember (256 * (256 * (256 * 0 + a) + b) + c) as v eqn:Ev.
    destruct (Z.ltb_spec v 128); [lia|]. destruct (Z.ltb_spec v 256); [lia|].
    destruct (Z.ltb_spec v 65536); [lia|]. destruct (Z.ltb_spec v 16777216); [|lia].
    repeat f_equal; zsolve.
  - rewrite (shift_octet_value 0 a), (shift_octet_value _ b), (shift_octet_value _ c), (shift_octet_value _ d)
      by (unfold is_u8; lia).
    split; [lia|]. intros Hv. remember (256 * (256 * (256 * (256 * 0 + a) + b) + c) + d) as v eqn:Ev.
    destruct (Z.ltb_spec v 128); [lia|]. destruct (Z.ltb_spec v 256); [lia|].
    destruct (Z.ltb_spec v 65536); [lia|]. destruct (Z.ltb_spec v 16777216); [lia|].
    repeat f_equal; zsolve.
Qed.

(** The other direction: the octets of a distinguished length. *)
Lemma der_length_octets len :
  128 ≤ len < 4294967296 →
  ∃ octets, der_length len = (128 + Z.of_nat (length octets)) :: octets ∧ Forall is_u8 octets ∧
    (1 ≤ length octets ≤ 4)%nat ∧ byte_at octets 0 ≠ 0 ∧ fold_left shift_octet octets 0 = len.
Proof.
  intros Hlen.
  assert (Hgo : ∀ octets, Forall is_u8 octets → (1 ≤ length octets ≤ 4)%nat → byte_at octets 0 ≠ 0 →
    fold_left shift_octet octets 0 = len →
    ∃ octets, der_length len = (128 + Z.of_nat (length octets)) :: octets ∧ Forall is_u8 octets ∧
    (1 ≤ length octets ≤ 4)%nat ∧ byte_at octets 0 ≠ 0 ∧ fold_left shift_octet octets 0 = len).
  { intros octets Hb Hl H0 Hv. exists octets.
    destruct (octets_value octets Hb Hl H0) as [_ Hd]. rewrite Hv in Hd. split; [|done]. symmetry. apply Hd. lia. }
  assert (Hb : ∀ x, is_u8 (x mod 256)) by (intros; apply Z.mod_pos_bound; lia).
  destruct (Z.ltb_spec len 256); [|destruct (Z.ltb_spec len 65536); [|destruct (Z.ltb_spec len 16777216)]].
  - apply (Hgo [len]); [repeat constructor; unfold is_u8; lia|cbn; lia|change (len ≠ 0); lia|].
    cbn [fold_left]. by rewrite shift_octet_value by (unfold is_u8; lia).
  - apply (Hgo [len / 256; len mod 256]);
      [repeat constructor; auto; unfold is_u8; zsolve|cbn; lia|change (len / 256 ≠ 0); zsolve|].
    cbn [fold_left]. rewrite (shift_octet_value 0), shift_octet_value by (auto; unfold is_u8; zsolve). zsolve.
  - apply (Hgo [len / 65536; len / 256 mod 256; len mod 256]);
      [repeat constructor; auto; unfold is_u8; zsolve|cbn; lia|change (len / 65536 ≠ 0); zsolve|].
    cbn [fold_left].
    rewrite (shift_octet_value 0), (shift_octet_value _ (len / 256 mod 256)), shift_octet_value
      by (auto; unfold is_u8; zsolve). zsolve.
  - apply (Hgo [len / 16777216; len / 65536 mod 256; len / 256 mod 256; len mod 256]);
      [repeat constructor; auto; unfold is_u8; zsolve|cbn; lia|change (len / 16777216 ≠ 0); zsolve|].
    cbn [fold_left].
    rewrite (shift_octet_value 0), (shift_octet_value _ (len / 65536 mod 256)),
      (shift_octet_value _ (len / 256 mod 256)), shift_octet_value by (auto; unfold is_u8; zsolve). zsolve.
Qed.

(** ** Parsing *)

(** The two length octets forms in one statement: the first octet [lb] and the
    octets after it are the distinguished length. *)
Lemma length_form t lb rest len offset :
  is_u8 lb → Forall is_u8 rest →
  (if Z.land lb 0x80 =? 0 then Some (lb, 2) else long_length (t :: lb :: rest) (Z.land lb 0x7f))
    = Some (len, offset) ↔
  ∃ octets tail, rest = octets ++ tail ∧ lb :: octets = der_length len ∧ is_u32 len ∧
    offset = 2 + Z.of_nat (length octets).
Proof.
  intros Hlb Hr. destruct (length_octet lb Hlb) as [-> Hk]. unfold is_u8 in Hlb.
  destruct (Z.ltb_spec lb 128) as [Hs|Hl].
  { split.
    - intros [= <- <-]. exists [], rest. unfold der_length, is_u32. destruct (Z.ltb_spec lb 128); [|lia].
      split; [done|]. split; [done|]. split; [lia|done].
    - intros (octets & tail & -> & Hd & Hu & ->). unfold is_u32 in Hu.
      destruct (Z.lt_ge_cases len 128) as [Hlt|Hge].
      + unfold der_length in Hd. destruct (Z.ltb_spec len 128); [|lia]. by simplify_eq.
      + destruct (der_length_octets len ltac:(lia)) as (o & E & _ & Ho & _). rewrite E in Hd.
        simplify_eq. lia. }
  rewrite Hk by done. unfold long_length. rewrite !Z.gtb_ltb. cbn [length].
  change (byte_at (t :: lb :: rest) 2) with (byte_at rest 0). cbn [drop]. rewrite drop_0.
  split.
  - destruct (Z.eqb_spec (lb - 128) 0); [done|]. destruct (Z.ltb_spec 4 (lb - 128)); [done|]. cbn [orb].
    destruct (Z.ltb_spec (Z.of_nat (S (S (length rest)))) (u32 (2 + (lb - 128)))) as [|Hfit]; [done|].
    unfold u32 in Hfit. rewrite Z.mod_small in Hfit by lia.
    destruct (Z.eqb_spec (byte_at rest 0) 0) as [|H0]; [done|]. cbn zeta.
    set (octets := take (Z.to_nat (lb - 128)) rest).
    assert (Hlo : length octets = Z.to_nat (lb - 128)) by (subst octets; rewrite length_take; lia).
    destruct (Z.ltb_spec (fold_left shift_octet octets 0) 128) as [|Hge]; [done|]. intros [= <- <-].
    destruct (octets_value octets) as [Hu Hd];
      [by apply Forall_take|lia|subst octets; destruct rest; [cbn in Hfit; lia|];
       destruct (Z.to_nat (lb - 128)) eqn:E; [lia|exact H0]|].
    exists octets, (drop (Z.to_nat (lb - 128)) rest). split; [subst octets; by rewrite take_drop|]. split; [|split; [done|lia]].
    rewrite <- Hd by done. f_equal. lia.
  - intros (octets & tail & -> & Hd & Hu & ->). unfold is_u32 in Hu.
    destruct (Z.lt_ge_cases len 128) as [Hlt|Hge].
    { unfold der_length in Hd. destruct (Z.ltb_spec len 128); [|lia]. simplify_eq. lia. }
    destruct (der_length_octets len ltac:(lia)) as (o & E & Hob & Ho & H0 & Hv). rewrite E in Hd.
    injection Hd as Elb Eoct. subst lb octets.
    replace (128 + Z.of_nat (length o) - 128) with (Z.of_nat (length o)) by lia.
    destruct (Z.eqb_spec (Z.of_nat (length o)) 0); [lia|]. destruct (Z.ltb_spec 4 (Z.of_nat (length o))); [lia|].
    cbn [orb]. rewrite length_app. unfold u32. rewrite Z.mod_small by lia.
    destruct (Z.ltb_spec (Z.of_nat (S (S (length o + length tail)))) (2 + Z.of_nat (length o))); [lia|].
    rewrite byte_at_app_l by lia. destruct (Z.eqb_spec (byte_at o 0) 0); [done|]. cbn zeta.
    rewrite Nat2Z.id, take_app_length, Hv. destruct (Z.ltb_spec len 128); [lia|done].
Qed.

(** Elements whose end fits into 32 bits. *)
Lemma der_exact_in_range buffer e :
  Forall is_u8 buffer → Z.of_nat (length buffer) < 4294967296 →
  header_length e + length_of e < 4294967296 → 0 ≤ length_of e →
  constructed e = negb (Z.land (tag e) 0x20 =? 0) →
  asn1_parse_element buffer = Some e ↔
  ∃ data rest, buffer = der_encode (tag e) data ++ rest ∧ element_data buffer e = data ∧
    length_of e = Z.of_nat (length data) ∧ header_length e = 1 + Z.of_nat (length (der_length (length_of e))).
Proof.
  intros Hb Hsize Hend Hpos Hcons. unfold asn1_parse_element.
  destruct (Z.ltb_spec (Z.of_nat (length buffer)) 2) as [Hshort|Hlong].
  { split; [done|]. intros (data & rest & -> & _). unfold der_encode in Hshort. rewrite length_app in Hshort.
    cbn [length] in Hshort. rewrite length_app in Hshort.
    pose proof (der_length_not_nil (Z.of_nat (length data))) as Hnil.
    destruct (der_length _); [done|]. cbn [length] in Hshort. lia. }
  destruct buffer as [|t [|lb rest]]; [cbn in Hlong; lia|cbn in Hlong; lia|].
  apply Forall_cons in Hb as [Ht Hb]. apply Forall_cons in Hb as [Hlb Hr].
  change (byte_at (t :: lb :: rest) 0) with t. change (byte_at (t :: lb :: rest) 1) with lb. cbn zeta.
  split.
  - destruct (if Z.land lb 0x80 =? 0 then _ else _) as [[len offset]|] eqn:Hd; [|done].
    apply length_form in Hd as (octets & tail & -> & Hoct & Hu & ->); [|done|done].
    rewrite Z.gtb_ltb.
    match goal with |- context [?a <? ?b] => destruct (Z.ltb_spec a b) as [|Hfit]; [done|] end. intros [= <-].
    cbn [tag header_length length_of] in *. unfold u32, is_u32 in *. rewrite Z.mod_small in Hfit by lia.
    cbn [length] in Hfit. rewrite length_app in Hfit.
    exists (take (Z.to_nat len) tail), (drop (Z.to_nat len) tail).
    assert (Hlt : length (take (Z.to_nat len) tail) = Z.to_nat len) by (rewrite length_take; lia).
    unfold der_encode. rewrite Hlt, Z2Nat.id by lia. rewrite <- Hoct. split; [|split; [|split]].
    + cbn. rewrite <- app_assoc, take_drop. done.
    + unfold element_data. cbn [header_length length_of].
      replace (Z.to_nat (2 + Z.of_nat (length octets))) with (S (S (length octets))) by lia. cbn [drop].
      by rewrite drop_app_length.
    + lia.
    + cbn [length]. lia.
  - intros (data & rest' & Heq & Hdata & Hlen & Hhdr). unfold der_encode in Heq. rewrite <- Hlen in Heq.
    cbn [app] in Heq. injection Heq as -> Heq.
    unfold is_u32 in *.
    destruct (der_length (length_of e)) as [|lb' octets] eqn:Hd; [by apply der_length_not_nil in Hd|].
    cbn in Heq. injection Heq as -> ->. cbn [length] in Hhdr.
    rewrite (proj2 (length_form _ _ _ (length_of e) (2 + Z.of_nat (length octets)) Hlb Hr)).
    2:{ exists octets, (data ++ rest'). rewrite <- app_assoc. split; [done|]. split; [done|]. split; [|done].
        unfold is_u32. lia. }
    rewrite Z.gtb_ltb. unfold u32. rewrite Z.mod_small by lia.
    match goal with |- context [?a <? ?b] => destruct (Z.ltb_spec a b) as [Hbad|] end.
    { cbn [length] in Hbad. rewrite !length_app in Hbad. lia. }
    destruct e as [tg c l h]. cbn in *. subst. f_equal. f_equal. lia.
Qed.

(** What is accepted: a length of 32 bits and a header of at most six bytes. *)
Lemma parsed_fields buffer e :
  Forall is_u8 buffer → asn1_parse_element buffer = Some e →
  0 ≤ length_of e ∧ 2 ≤ header_length e ≤ 6 ∧ constructed e = negb (Z.land (tag e) 0x20 =? 0).
Proof.
  intros Hb. unfold asn1_parse_element.
  destruct (Z.ltb_spec (Z.of_nat (length buffer)) 2) as [|Hlong]; [done|].
  destruct buffer as [|t [|lb rest]]; [cbn in Hlong; lia|cbn in Hlong; lia|].
  apply Forall_cons in Hb as [Ht Hb]. apply Forall_cons in Hb as [Hlb Hr].
  change (byte_at (t :: lb :: rest) 0) with t. change (byte_at (t :: lb :: rest) 1) with lb. cbn zeta.
  destruct (if Z.land lb 0x80 =? 0 then _ else _) as [[len offset]|] eqn:Hd; [|done].
  assert (Hoff : 2 ≤ offset ≤ 6).
  { destruct (_ =? 0) in Hd; [injection Hd; lia|]. unfold long_length in Hd.
    destruct (_ || _) eqn:E in Hd; [done|]. apply orb_false_elim in E as [_ E]. rewrite Z.gtb_ltb in E.
    apply Z.ltb_ge in E. destruct (_ >? _) in Hd; [done|]. destruct (_ =? 0) in Hd; [done|].
    destruct (_ <? 128) in Hd; [done|]. injection Hd as _ <-.
    pose proof (Z.land_nonneg lb 0x7f). lia. }
  apply length_form in Hd as (octets & tail & _ & _ & Hu & _); [|done|done]. unfold is_u32 in Hu.
  destruct (_ >? _); [done|]. intros [= <-]. cbn. split; [lia|]. by split.
Qed.

(** C36: The DER parser accepts exactly the distinguished encodings, among the
    elements whose end fits into 32 bits.  What [der_encode] writes is parsed
    back, with anything after it; and a buffer that is accepted with such an
    element starts with the one encoding of the tag and content that are
    returned, so that the element lies inside the buffer and no second encoding
    of it exists.  The other elements that are accepted (the 32-bit sum of header
    and length wraps around, see [element_outside_buffer]) are those with one of
    the six largest values in the length field. *)
Theorem asn1_der_exact buffer e :
  Forall is_u8 buffer → Z.of_nat (length buffer) < 4294967296 →
  (asn1_parse_element buffer = Some e ∧ header_length e + length_of e < 4294967296 ↔
   ∃ data rest, buffer = der_encode (tag e) data ++ rest ∧ element_data buffer e = data ∧
     length_of e = Z.of_nat (length data) ∧ header_length e = 1 + Z.of_nat (length (der_length (length_of e))) ∧
     constructed e = negb (Z.land (tag e) 0x20 =? 0))
  ∧ (asn1_parse_element buffer = Some e → 4294967296 ≤ header_length e + length_of e →
     4294967290 ≤ length_of e).
Proof.
  intros Hb Hsize. split.
  - split.
    + intros [Hp Hend]. destruct (parsed_fields buffer e Hb Hp) as (Hl & _ & Hc).
      apply der_exact_in_range in Hp as (data & rest & H1 & H2 & H3 & H4); [|done..]. by exists data, rest.
    + intros (data & rest & Heq & Hdata & Hlen & Hhdr & Hc).
      assert (Hend : header_length e + length_of e < 4294967296).
      { rewrite Heq in Hsize. unfold der_encode in Hsize. rewrite <- Hlen in Hsize.
        rewrite length_app in Hsize. cbn [length] in Hsize. rewrite length_app in Hsize. lia. }
      split; [|done]. apply der_exact_in_range; [done|done|done|lia|done|]. by exists data, rest.
  - intros Hp Hw. destruct (parsed_fields buffer e Hb Hp). lia.
Qed.

Lemma asn1_der_exact_witness :
  let buffer := der_encode 0x30 (replicate 200 5) ++ [1; 2] in
  asn1_parse_element buffer = Some (mk_element 0x30 true 200 3) ∧
  ∃ data rest, buffer = der_encode 0x30 data ++ rest ∧
    element_data buffer (mk_element 0x30 true 200 3) = data ∧ 200 = Z.of_nat (length data) ∧
    3 = 1 + Z.of_nat (length (der_length 200)) ∧ true = negb (Z.land 0x30 0x20 =? 0).
Proof.
  cbn zeta. split; [vm_compute; reflexivity|].
  apply (asn1_der_exact (der_encode 0x30 (replicate 200 5) ++ [1; 2]) (mk_element 0x30 true 200 3)).
  - apply Forall_app. split; [|repeat constructor; unfold is_u8; lia]. unfold der_encode.
    apply Forall_cons. split; [unfold is_u8; lia|]. apply Forall_app. split.
    + change (der_length (Z.of_nat (length (replicate 200 5)))) with [0x81; 200].
      repeat constructor; unfold is_u8; lia.
    + apply Forall_replicate. unfold is_u8. lia.
  - vm_compute. reflexivity.
  - split; vm_compute; reflexivity.
Defined.

(** The 32-bit sum of offset and length can wrap: an element of almost 4 GiB is
    accepted in a buffer of eight bytes. *)
Example element_outside_buffer :
  asn1_parse_element [0x04; 0x84; 0xff; 0xff; 0xff; 0xff; 0; 0] = Some (mk_element 0x04 false 0xffffffff 6).
Proof. vm_compute. reflexivity. Qed.

(** ** The calendar *)

Record date := mk_date { year : Z; month : Z; day : Z }.

Definition days_in_month (y m : Z) : Z :=
  if m =? 2 then if is_leap_year y then 29 else 28
  else if (m =? 4) || (m =? 6) || (m =? 9) || (m =? 11) then 30 else 31.

Definition valid_date (d : date) : Prop :=
  1970 ≤ year d < 4294967295 ∧ 1 ≤ month d ≤ 12 ∧ 1 ≤ day d ≤ days_in_month (year d) (month d).

Definition next_day (d : date) : date :=
  if day d <? days_in_month (year d) (month d) then mk_date (year d) (month d) (day d + 1)
  else if month d <? 12 then mk_date (year d) (month d + 1) 1
  else mk_date (year d + 1) 1 1.

Definition epoch (d : date) (hour min sec : Z) : Z :=
  calendar_to_epoch_seconds (year d) (month d) (day d) hour min sec.

Lemma days_of_years_snoc n y :
  days_of_years (S n) y = days_of_years n y + (if is_leap_year (y + Z.of_nat n) then 366 else 365).
Proof.
  revert y. induction n as [|n IH]; intros y.
  { cbn [days_of_years]. change (Z.of_nat 0) with 0. rewrite (Z.add_0_r y). lia. }
  change (days_of_years (S (S n)) y) with ((if is_leap_year y then 366 else 365) + days_of_years (S n) (y + 1)).
  rewrite IH. change (days_of_years (S n) y) with ((if is_leap_year y then 366 else 365) + days_of_years n (y + 1)).
  replace (y + 1 + Z.of_nat n) with (y + Z.of_nat (S n)) by lia. lia.
Qed.

Lemma days_of_years_bound n y : 0 ≤ days_of_years n y ≤ 366 * Z.of_nat n.
Proof.
  revert y. induction n as [|n IH]; intros y; cbn [days_of_years]; [lia|].
  specialize (IH (y + 1)). destruct (is_leap_year y); lia.
Qed.

(** Days before a month, in closed form over the month. *)
Definition month_start (y m : Z) : Z :=
  default 0 (days_before_month !! Z.to_nat (m - 1)) + (if (m >? 2) && is_leap_year y then 1 else 0).

Definition days_since_epoch (d : date) : Z :=
  days_of_years (Z.to_nat (year d - 1970)) 1970 + month_start (year d) (month d) + (day d - 1).

Lemma month_cases m : 1 ≤ m ≤ 12 →
  m = 1 ∨ m = 2 ∨ m = 3 ∨ m = 4 ∨ m = 5 ∨ m = 6 ∨ m = 7 ∨ m = 8 ∨ m = 9 ∨ m = 10 ∨ m = 11 ∨ m = 12.
Proof. lia. Qed.

Lemma month_start_next y m : 1 ≤ m < 12 → month_start y (m + 1) = month_start y m + days_in_month y m.
Proof.
  intros Hm. unfold month_start, days_in_month.
  destruct (month_cases m) as [->|[->|[->|[->|[->|[->|[->|[->|[->|[->|[->| ->]]]]]]]]]]]; try lia;
    cbn; destruct (is_leap_year y); reflexivity.
Qed.

Lemma month_start_bound y m : 1 ≤ m ≤ 12 → 0 ≤ month_start y m ≤ 335.
Proof.
  intros Hm. unfold month_start.
  destruct (month_cases m Hm) as [->|[->|[->|[->|[->|[->|[->|[->|[->|[->|[->| ->]]]]]]]]]]];
    destruct (is_leap_year y); vm_compute; split; discriminate.
Qed.

Lemma epoch_days d hour min sec :
  valid_date d → 0 ≤ hour < 100 → 0 ≤ min < 100 → 0 ≤ sec < 100 →
  epoch d hour min sec = days_since_epoch d * 86400 + hour * 3600 + min * 60 + sec.
Proof.
  intros (Hy & Hm & Hd) Hh Hmi Hs. unfold epoch, calendar_to_epoch_seconds. rewrite !Z.gtb_ltb.
  assert (Hdm : days_in_month (year d) (month d) ≤ 31) by (unfold days_in_month; repeat case_match; lia).
  destruct (Z.ltb_spec (year d) 1970); [lia|]. destruct (Z.ltb_spec (month d) 1); [lia|].
  destruct (Z.ltb_spec 12 (month d)); [lia|]. destruct (Z.ltb_spec (day d) 1); [lia|].
  destruct (Z.ltb_spec 31 (day d)); [lia|]. cbn [orb]. cbn zeta.
  pose proof (days_of_years_bound (Z.to_nat (year d - 1970)) 1970) as Hb.
  pose proof (month_start_bound (year d) (month d) Hm) as Hms.
  unfold days_since_epoch. unfold month_start in *. rewrite Z.gtb_ltb in *.
  destruct ((2 <? month d) && is_leap_year (year d)); rewrite u64_small by (unfold is_u64, W64; lia); lia.
Qed.

Lemma next_day_days d : valid_date d → days_since_epoch (next_day d) = days_since_epoch d + 1.
Proof.
  intros (Hy & Hm & Hd). unfold next_day.
  destruct (Z.ltb_spec (day d) (days_in_month (year d) (month d))); [unfold days_since_epoch; cbn; lia|].
  destruct (Z.ltb_spec (month d) 12).
  - unfold days_since_epoch. cbn [year month day]. rewrite month_start_next by lia. lia.
  - assert (month d = 12) as Hm12 by lia. unfold days_since_epoch. cbn [year month day]. rewrite Hm12 in *.
    replace (Z.to_nat (year d + 1 - 1970)) with (S (Z.to_nat (year d - 1970))) by lia.
    rewrite days_of_years_snoc, Z2Nat.id by lia. replace (1970 + (year d - 1970)) with (year d) by lia.
    change (month_start (year d + 1) 1) with 0.
    assert (month_start (year d) 12 = 334 + if is_leap_year (year d) then 1 else 0) as ->.
    { unfold month_start. by destruct (is_leap_year (year d)). }
    change (days_in_month (year d) 12) with 31 in *. destruct (is_leap_year (year d)); lia.
Qed.

Lemma next_day_valid d : valid_date d → year d < 4294967294 → valid_date (next_day d).
Proof.
  intros (Hy & Hm & Hd) Hlast. unfold next_day, valid_date.
  assert (Hone : ∀ y m, 1 ≤ days_in_month y m) by (intros; unfold days_in_month; repeat case_match; lia).
  destruct (Z.ltb_spec (day d) (days_in_month (year d) (month d))); [cbn; lia|].
  destruct (Z.ltb_spec (month d) 12); cbn [year month day].
  - pose proof (Hone (year d) (month d + 1)). lia.
  - pose proof (Hone (year d + 1) 1). lia.
Qed.

(** [calendar_to_epoch_seconds] counts calendar days: the first of January
    1970 is second zero, the day after any valid date (leap years included) is
    86400 seconds later, and the time of day is added in seconds. *)
Theorem calendar_counts_days d hour min sec :
  valid_date d → year d < 4294967294 → 0 ≤ hour < 24 → 0 ≤ min < 60 → 0 ≤ sec < 60 →
  epoch (mk_date 1970 1 1) 0 0 0 = 0
  ∧ epoch (next_day d) hour min sec = epoch d hour min sec + 86400
  ∧ epoch d hour min sec = epoch d 0 0 0 + hour * 3600 + min * 60 + sec.
Proof.
  intros Hv Hl Hh Hmi Hs. pose proof (next_day_valid d Hv Hl) as Hn. split; [reflexivity|].
  rewrite !epoch_days by (done || lia). rewrite next_day_days by done. lia.
Qed.

Lemma calendar_counts_days_witness :
  next_day (mk_date 2024 2 28) = mk_date 2024 2 29 ∧
  epoch (mk_date 2024 2 29) 12 0 0 = epoch (mk_date 2024 2 28) 12 0 0 + 86400 ∧
  epoch (mk_date 2024 2 28) 12 0 0 = 1709121600.
Proof.
  split; [reflexivity|]. split; [|vm_compute; reflexivity].
  destruct (calendar_counts_days (mk_date 2024 2 28) 12 0 0) as (_ & H & _).
  - vm_compute. repeat split; discriminate.
  - cbn. lia.
  - lia.
  - lia.
  - lia.
  - exact H.
Defined.

(** A date outside the calendar (month 13) is reported as the epoch, not as an
    error: "241301000000Z". *)
Example invalid_time_accepted :
  asn1_parse_time [50; 52; 49; 51; 48; 49; 48; 48; 48; 48; 48; 48; 90] ASN1_TAG_UTC_TIME = Some 0.
Proof. vm_compute. reflexivity. Qed.
