(* ===== verification/Sha2.v ===== *)
(** * SHA-256, SHA-384, HMAC and HKDF (src/lib/crypto.c, sections 1 to 4)

    The two hash functions share the shape of their contexts: eight state words,
    a block buffer with a fill count and a bit count.  The part that is the same
    text in both, filling the buffer and running the compression function when
    it is full, is written once over the block size and the compression
    function.  A byte array with its size is a list of bytes; a NULL pointer with
    size zero is the empty list. *)

From Stdlib Require Import ZArith Lia.
From stdpp Require Import gmap.
From S2P Require Import Prelude Inet.

#[local] Open Scope Z_scope.

(** [w[i]] *)
Definition word (w : list Z) (i : Z) : Z := default 0 (w !! Z.to_nat i).

Definition ror32 (value count : Z) : Z :=
  Z.lor (Z.shiftr value count) (u32 (Z.shiftl value (32 - count))).

Definition ror64 (value count : Z) : Z :=
  Z.lor (Z.shiftr value count) (u64 (Z.shiftl value (64 - count))).

Definition read_u64_be (data : list Z) (i : Z) : Z :=
  Z.lor (Z.lor (Z.lor (Z.lor (Z.lor (Z.lor (Z.lor
    (Z.shiftl (byte_at data i) 56) (Z.shiftl (byte_at data (i + 1)) 48))
    (Z.shiftl (byte_at data (i + 2)) 40)) (Z.shiftl (byte_at data (i + 3)) 32))
    (Z.shiftl (byte_at data (i + 4)) 24)) (Z.shiftl (byte_at data (i + 5)) 16))
    (Z.shiftl (byte_at data (i + 6)) 8)) (byte_at data (i + 7)).

Definition write_u64_be (value : Z) : list Z :=
  [u8 (Z.shiftr value 56); u8 (Z.shiftr value 48); u8 (Z.shiftr value 40); u8 (Z.shiftr value 32);
   u8 (Z.shiftr value 24); u8 (Z.shiftr value 16); u8 (Z.shiftr value 8); u8 value].

(** The working variables [a] to [h] of a compression function. *)
Record vars := mk_vars { va : Z; vb : Z; vc : Z; vd : Z; ve : Z; vf : Z; vg : Z; vh : Z }.

Definition load_vars (state : list Z) : vars :=
  mk_vars (word state 0) (word state 1) (word state 2) (word state 3)
          (word state 4) (word state 5) (word state 6) (word state 7).

Definition list_of_vars (v : vars) : list Z :=
  [va v; vb v; vc v; vd v; ve v; vf v; vg v; vh v].

(** ** SHA-256 *)

Definition sha256_k : list Z :=
  [0x428a2f98; 0x71374491; 0xb5c0fbcf; 0xe9b5dba5] ++
  [0x3956c25b; 0x59f111f1; 0x923f82a4; 0xab1c5ed5] ++
  [0xd807aa98; 0x12835b01; 0x243185be; 0x550c7dc3] ++
  [0x72be5d74; 0x80deb1fe; 0x9bdc06a7; 0xc19bf174] ++
  [0xe49b69c1; 0xefbe4786; 0x0fc19dc6; 0x240ca1cc] ++
  [0x2de92c6f; 0x4a7484aa; 0x5cb0a9dc; 0x76f988da] ++
  [0x983e5152; 0xa831c66d; 0xb00327c8; 0xbf597fc7] ++
  [0xc6e00bf3; 0xd5a79147; 0x06ca6351; 0x14292967] ++
  [0x27b70a85; 0x2e1b2138; 0x4d2c6dfc; 0x53380d13] ++
  [0x650a7354; 0x766a0abb; 0x81c2c92e; 0x92722c85] ++
  [0xa2bfe8a1; 0xa81a664b; 0xc24b8b70; 0xc76c51a3] ++
  [0xd192e819; 0xd6990624; 0xf40e3585; 0x106aa070] ++
  [0x19a4c116; 0x1e376c08; 0x2748774c; 0x34b0bcb5] ++
  [0x391c0cb3; 0x4ed8aa4a; 0x5b9cca4f; 0x682e6ff3] ++
  [0x748f82ee; 0x78a5636f; 0x84c87814; 0x8cc70208] ++
  [0x90befffa; 0xa4506ceb; 0xbef9a3f7; 0xc67178f2].

Definition sha256_word (w : list Z) : Z :=
  let i := Z.of_nat (length w) in
  let x := word w (i - 15) in
  let y := word w (i - 2) in
  let s0 := Z.lxor (Z.lxor (ror32 x 7) (ror32 x 18)) (Z.shiftr x 3) in
  let s1 := Z.lxor (Z.lxor (ror32 y 17) (ror32 y 19)) (Z.shiftr y 10) in
  u32 (word w (i - 16) + s0 + word w (i - 7) + s1).

Fixpoint sha256_extend (count : nat) (w : list Z) : list Z :=
  match count with O => w | S count => sha256_extend count (w ++ [sha256_word w]) end.

Definition sha256_round (v : vars) (kw : Z * Z) : vars :=
  let s1 := Z.lxor (Z.lxor (ror32 (ve v) 6) (ror32 (ve v) 11)) (ror32 (ve v) 25) in
  let ch := Z.lxor (Z.land (ve v) (vf v)) (Z.land (not32 (ve v)) (vg v)) in
  let t1 := u32 (vh v + s1 + ch + kw.1 + kw.2) in
  let s0 := Z.lxor (Z.lxor (ror32 (va v) 2) (ror32 (va v) 13)) (ror32 (va v) 22) in
  let maj := Z.lxor (Z.lxor (Z.land (va v) (vb v)) (Z.land (va v) (vc v))) (Z.land (vb v) (vc v)) in
  let t2 := u32 (s0 + maj) in
  mk_vars (u32 (t1 + t2)) (va v) (vb v) (vc v) (u32 (vd v + t1)) (ve v) (vf v) (vg v).

Definition sha256_transform (state block : list Z) : list Z :=
  let w := sha256_extend 48 ((λ i, read_u32_be block (i * 4)) <$> seqZ 0 16) in
  let v := fold_left sha256_round (zip sha256_k w) (load_vars state) in
  zip_with (λ x y, u32 (x + y)) (list_of_vars (load_vars state)) (list_of_vars v).

(** ** SHA-384 *)

Definition sha384_k : list Z :=
  [0x428a2f98d728ae22; 0x7137449123ef65cd; 0xb5c0fbcfec4d3b2f; 0xe9b5dba58189dbbc] ++
  [0x3956c25bf348b538; 0x59f111f1b605d019; 0x923f82a4af194f9b; 0xab1c5ed5da6d8118] ++
  [0xd807aa98a3030242; 0x12835b0145706fbe; 0x243185be4ee4b28c; 0x550c7dc3d5ffb4e2] ++
  [0x72be5d74f27b896f; 0x80deb1fe3b1696b1; 0x9bdc06a725c71235; 0xc19bf174cf692694] ++
  [0xe49b69c19ef14ad2; 0xefbe4786384f25e3; 0x0fc19dc68b8cd5b5; 0x240ca1cc77ac9c65] ++
  [0x2de92c6f592b0275; 0x4a7484aa6ea6e483; 0x5cb0a9dcbd41fbd4; 0x76f988da831153b5] ++
  [0x983e5152ee66dfab; 0xa831c66d2db43210; 0xb00327c898fb213f; 0xbf597fc7beef0ee4] ++
  [0xc6e00bf33da88fc2; 0xd5a79147930aa725; 0x06ca6351e003826f; 0x142929670a0e6e70] ++
  [0x27b70a8546d22ffc; 0x2e1b21385c26c926; 0x4d2c6dfc5ac42aed; 0x53380d139d95b3df] ++
  [0x650a73548baf63de; 0x766a0abb3c77b2a8; 0x81c2c92e47edaee6; 0x92722c851482353b] ++
  [0xa2bfe8a14cf10364; 0xa81a664bbc423001; 0xc24b8b70d0f89791; 0xc76c51a30654be30] ++
  [0xd192e819d6ef5218; 0xd69906245565a910; 0xf40e35855771202a; 0x106aa07032bbd1b8] ++
  [0x19a4c116b8d2d0c8; 0x1e376c085141ab53; 0x2748774cdf8eeb99; 0x34b0bcb5e19b48a8] ++
  [0x391c0cb3c5c95a63; 0x4ed8aa4ae3418acb; 0x5b9cca4f7763e373; 0x682e6ff3d6b2b8a3] ++
  [0x748f82ee5defb2fc; 0x78a5636f43172f60; 0x84c87814a1f0ab72; 0x8cc702081a6439ec] ++
  [0x90befffa23631e28; 0xa4506cebde82bde9; 0xbef9a3f7b2c67915; 0xc67178f2e372532b] ++
  [0xca273eceea26619c; 0xd186b8c721c0c207; 0xeada7dd6cde0eb1e; 0xf57d4f7fee6ed178] ++
  [0x06f067aa72176fba; 0x0a637dc5a2c898a6; 0x113f9804bef90dae; 0x1b710b35131c471b] ++
  [0x28db77f523047d84; 0x32caab7b40c72493; 0x3c9ebe0a15c9bebc; 0x431d67c49c100d4c] ++
  [0x4cc5d4becb3e42b6; 0x597f299cfc657e2a; 0x5fcb6fab3ad6faec; 0x6c44198c4a475817].

Definition sha384_word (w : list Z) : Z :=
  let i := Z.of_nat (length w) in
  let x := word w (i - 15) in
  let y := word w (i - 2) in
  let s0 := Z.lxor (Z.lxor (ror64 x 1) (ror64 x 8)) (Z.shiftr x 7) in
  let s1 := Z.lxor (Z.lxor (ror64 y 19) (ror64 y 61)) (Z.shiftr y 6) in
  u64 (word w (i - 16) + s0 + word w (i - 7) + s1).

Fixpoint sha384_extend (count : nat) (w : list Z) : list Z :=
  match count with O => w | S count => sha384_extend count (w ++ [sha384_word w]) end.

Definition sha384_round (v : vars) (kw : Z * Z) : vars :=
  let s1 := Z.lxor (Z.lxor (ror64 (ve v) 14) (ror64 (ve v) 18)) (ror64 (ve v) 41) in
  let ch := Z.lxor (Z.land (ve v) (vf v)) (Z.land (not64 (ve v)) (vg v)) in
  let t1 := u64 (vh v + s1 + ch + kw.1 + kw.2) in
  let s0 := Z.lxor (Z.lxor (ror64 (va v) 28) (ror64 (va v) 34)) (ror64 (va v) 39) in
  let maj := Z.lxor (Z.lxor (Z.land (va v) (vb v)) (Z.land (va v) (vc v))) (Z.land (vb v) (vc v)) in
  let t2 := u64 (s0 + maj) in
  mk_vars (u64 (t1 + t2)) (va v) (vb v) (vc v) (u64 (vd v + t1)) (ve v) (vf v) (vg v).

Definition sha384_transform (state block : list Z) : list Z :=
  let w := sha384_extend 64 ((λ i, read_u64_be block (i * 8)) <$> seqZ 0 16) in
  let v := fold_left sha384_round (zip sha384_k w) (load_vars state) in
  zip_with (λ x y, u64 (x + y)) (list_of_vars (load_vars state)) (list_of_vars v).

(** ** Buffering *)

(** The state words, the block buffer (an array of the block size) and its fill
    count. *)
Record hash_core := mk_core { state : list Z; buffer : list Z; buffer_size : Z }.

(** [for (i = 0; i < |data|; ++i) array[offset + i] = data[i];] *)
Definition array_write (array : list Z) (offset : Z) (data : list Z) : list Z :=
  take (Z.to_nat offset) array ++ data ++ drop (Z.to_nat offset + length data) array.

Section Core.
  Context (block_size : Z) (transform : list Z → list Z → list Z).

(** [if (buffer_size == block_size) { transform; buffer_size = 0; }] *)
Definition flush_full (c : hash_core) : hash_core :=
  if buffer_size c =? block_size
  then mk_core (transform (state c) (buffer c)) (buffer c) 0 else c.

(** The loop of the update functions.  A round consumes at least one byte while
    the buffer is not full, so the length of the data is enough fuel. *)
Fixpoint absorb (fuel : nat) (c : hash_core) (data : list Z) : hash_core :=
  match fuel with
  | O => c
  | S fuel =>
      let size := Z.of_nat (length data) in
      if size >? 0 then
        let amount := Z.min (block_size - buffer_size c) size in
        let chunk := take (Z.to_nat amount) data in
        absorb fuel
          (flush_full (mk_core (state c) (array_write (buffer c) (buffer_size c) chunk)
             (buffer_size c + amount)))
          (drop (Z.to_nat amount) data)
      else c
  end.

(** [buffer[buffer_size++] = byte] *)
Definition push_byte (byte : Z) (c : hash_core) : hash_core :=
  mk_core (state c) (array_write (buffer c) (buffer_size c) [byte]) (buffer_size c + 1).

(** The zero filling loop of the finalize functions, up to [target]; two blocks
    of fuel are enough ([pad_zeros_done]). *)
Fixpoint pad_zeros (fuel : nat) (target : Z) (c : hash_core) : hash_core :=
  match fuel with
  | O => c
  | S fuel =>
      if buffer_size c =? target then c
      else pad_zeros fuel target (push_byte 0 (flush_full c))
  end.

(** The rest of the finalize functions: the length bytes and the last block. *)
Definition finish (target : Z) (length_bytes : list Z) (c : hash_core) : list Z :=
  let c := pad_zeros (2 * Z.to_nat block_size) target (push_byte 0x80 c) in
  transform (state c) (array_write (buffer c) target length_bytes).

End Core.

(** ** The SHA-256 interface *)

Record kos_sha256_context := mk_sha256 { core256 : hash_core; bit_count : Z }.

Definition kos_sha256_initialize : kos_sha256_context :=
  mk_sha256 (mk_core
    [0x6a09e667; 0xbb67ae85; 0x3c6ef372; 0xa54ff53a;
     0x510e527f; 0x9b05688c; 0x1f83d9ab; 0x5be0cd19] (replicate 64 0) 0) 0.

Definition kos_sha256_update (context : kos_sha256_context) (data : list Z) : kos_sha256_context :=
  mk_sha256 (absorb 64 sha256_transform (length data) (core256 context) data)
            (u64 (bit_count context + Z.of_nat (length data) * 8)).

Definition kos_sha256_finalize (context : kos_sha256_context) : list Z :=
  concat (write_u32_be <$> finish 64 sha256_transform 56 (write_u64_be (bit_count context))
                             (core256 context)).

Definition kos_sha256 (data : list Z) : list Z :=
  kos_sha256_finalize (kos_sha256_update kos_sha256_initialize data).

(** ** The SHA-384 interface *)

Record kos_sha384_context := mk_sha384 {
  core384 : hash_core;
  bit_count_high : Z;
  bit_count_low : Z
}.

Definition kos_sha384_initialize : kos_sha384_context :=
  mk_sha384 (mk_core
    [0xcbbb9d5dc1059ed8; 0x629a292a367cd507; 0x9159015a3070dd17; 0x152fecd8f70e5939;
     0x67332667ffc00b31; 0x8eb44a8768581511; 0xdb0c2e0d64f98fa7; 0x47b5481dbefa4fa4]
    (replicate 128 0) 0) 0 0.

Definition kos_sha384_update (context : kos_sha384_context) (data : list Z) : kos_sha384_context :=
  let add_bits := u64 (Z.of_nat (length data) * 8) in
  let low := u64 (bit_count_low context + add_bits) in
  let high := if low <? add_bits then u64 (bit_count_high context + 1) else bit_count_high context in
  mk_sha384 (absorb 128 sha384_transform (length data) (core384 context) data) high low.

Definition kos_sha384_finalize (context : kos_sha384_context) : list Z :=
  concat (write_u64_be <$> take 6
    (finish 128 sha384_transform 112
       (write_u64_be (bit_count_high context) ++ write_u64_be (bit_count_low context))
       (core384 context))).

Definition kos_sha384 (data : list Z) : list Z :=
  kos_sha384_finalize (kos_sha384_update kos_sha384_initialize data).

(** ** HMAC *)

(** The key block [k]: the key, or its digest when it is longer than a block,
    padded with zeros. *)
Definition hmac_block (block_size : nat) (hash : list Z → list Z) (key : list Z) : list Z :=
  let k := if Z.of_nat (length key) >? Z.of_nat block_size then hash key else key in
  k ++ replicate (block_size - length k) 0.

Definition kos_hmac_sha256 (key data : list Z) : list Z :=
  let k := hmac_block 64 kos_sha256 key in
  let inner := (λ b, Z.lxor b 0x36) <$> k in
  let outer := (λ b, Z.lxor b 0x5c) <$> k in
  let inner_digest :=
    kos_sha256_finalize (kos_sha256_update (kos_sha256_update kos_sha256_initialize inner) data) in
  kos_sha256_finalize (kos_sha256_update (kos_sha256_update kos_sha256_initialize outer) inner_digest).

Definition kos_hmac_sha384 (key data : list Z) : list Z :=
  let k := hmac_block 128 kos_sha384 key in
  let inner := (λ b, Z.lxor b 0x36) <$> k in
  let outer := (λ b, Z.lxor b 0x5c) <$> k in
  let inner_digest :=
    kos_sha384_finalize (kos_sha384_update (kos_sha384_update kos_sha384_initialize inner) data) in
  kos_sha384_finalize (kos_sha384_update (kos_sha384_update kos_sha384_initialize outer) inner_digest).

(** ** HKDF *)

Definition kos_hkdf_extract_sha256 (salt ikm : list Z) : list Z :=
  let salt := match salt with [] => replicate 32 0 | _ => salt end in
  kos_hmac_sha256 salt ikm.

(** The expansion loop: [produced] bytes are in [output], [counter] is the
    8-bit block counter.  Each round produces at least one byte. *)
Fixpoint hkdf_loop (fuel : nat) (prk info previous : list Z) (counter size : Z) (output : list Z)
    : list Z :=
  match fuel with
  | O => output
  | S fuel =>
      let produced := Z.of_nat (length output) in
      if produced <? size then
        let block := (if counter =? 1 then [] else previous) ++ info ++ [counter] in
        let previous := kos_hmac_sha256 prk block in
        let amount := Z.min (size - produced) 32 in
        hkdf_loop fuel prk info previous (u8 (counter + 1)) size
          (output ++ take (Z.to_nat amount) previous)
      else output
  end.

(** [None] is [false].  The block buffer of the C function has 288 bytes, so its
    callers keep [info] below 256 bytes. *)
Definition kos_hkdf_expand_sha256 (prk info : list Z) (output_size : Z) : option (list Z) :=
  if output_size >? 255 * 32 then None
  else Some (hkdf_loop (Z.to_nat output_size) prk info (replicate 32 0) 1 output_size []).

Definition kos_hkdf_sha256 (salt ikm info : list Z) (output_size : Z) : option (list Z) :=
  kos_hkdf_expand_sha256 (kos_hkdf_extract_sha256 salt ikm) info output_size.

(** ["tls13 "] *)
Definition tls13_prefix : list Z := [116; 108; 115; 49; 51; 32].

(** The 64-byte array [full_label] holds at most 58 bytes of the label. *)
Definition kos_hkdf_expand_label_sha256 (secret label context : list Z) (length' : Z)
    : option (list Z) :=
  let full_label :=
    let l := tls13_prefix ++ take 58 label in l ++ replicate (64 - length l) 0 in
  let full_label_len := u8 (6 + Z.of_nat (length label)) in
  let hkdf_label :=
    [u8 (Z.shiftr length' 8); u8 length'; full_label_len]
    ++ take (Z.to_nat full_label_len) full_label
    ++ [u8 (Z.of_nat (length context))] ++ context in
  kos_hkdf_expand_sha256 secret hkdf_label length'.

(** ** The vectors of [kos_crypto_self_test] *)

Example sha256_abc :
  kos_sha256 [97; 98; 99] =
  [0xba; 0x78; 0x16; 0xbf; 0x8f; 0x01; 0xcf; 0xea; 0x41; 0x41; 0x40; 0xde; 0x5d; 0xae; 0x22; 0x23;
   0xb0; 0x03; 0x61; 0xa3; 0x96; 0x17; 0x7a; 0x9c; 0xb4; 0x10; 0xff; 0x61; 0xf2; 0x00; 0x15; 0xad].
Proof. vm_compute. reflexivity. Qed.

Example sha384_abc :
  kos_sha384 [97; 98; 99] =
  [0xcb; 0x00; 0x75; 0x3f; 0x45; 0xa3; 0x5e; 0x8b; 0xb5; 0xa0; 0x3d; 0x69; 0x9a; 0xc6; 0x50; 0x07;
   0x27; 0x2c; 0x32; 0xab; 0x0e; 0xde; 0xd1; 0x63; 0x1a; 0x8b; 0x60; 0x5a; 0x43; 0xff; 0x5b; 0xed;
   0x80; 0x86; 0x07; 0x2b; 0xa1; 0xe7; 0xcc; 0x23; 0x58; 0xba; 0xec; 0xa1; 0x34; 0xc8; 0x25; 0xa7].
Proof. vm_compute. reflexivity. Qed.

(** HMAC, RFC 4231 test case 2 (key "Jefe"). *)
Example hmac_jefe :
  kos_hmac_sha256 [74; 101; 102; 101]
    [119; 104; 97; 116; 32; 100; 111; 32; 121; 97; 32; 119; 97; 110; 116; 32; 102; 111; 114; 32;
     110; 111; 116; 104; 105; 110; 103; 63] =
  [0x5b; 0xdc; 0xc1; 0x46; 0xbf; 0x60; 0x75; 0x4e; 0x6a; 0x04; 0x24; 0x26; 0x08; 0x95; 0x75; 0xc7;
   0x5a; 0x00; 0x3f; 0x08; 0x9d; 0x27; 0x39; 0x83; 0x9d; 0xec; 0x58; 0xb9; 0x64; 0xec; 0x38; 0x43].
Proof. vm_compute. reflexivity. Qed.
