(* ===== verification/Sha2Spec.v ===== *)
(** * Theorems on the hash functions

    Whatever the way a message is cut into updates, the digest is the
    Merkle-Damgard iteration of the compression function over the padded
    message of FIPS 180-4; HMAC and HKDF are the compositions of RFC 2104 and
    RFC 5869. *)

From Stdlib Require Import ZArith Lia.
From stdpp Require Import gmap.
From S2P Require Import Prelude Inet Sha2.

#[local] Open Scope Z_scope.

(** ** Iteration over the blocks of a message *)

Section Iteration.
  Context (B : nat) (transform : list Z → list Z → list Z).
  Context (HB : (0 < B)%nat).

Fixpoint iterate_fuel (fuel : nat) (st data : list Z) : list Z :=
  match fuel with
  | O => st
  | S fuel =>
      if (length data <? B)%nat then st
      else iterate_fuel fuel (transform st (take B data)) (drop B data)
  end.

(** The compression function applied to each complete block in turn. *)
Definition iterate (st data : list Z) : list Z := iterate_fuel (length data) st data.

Lemma iterate_fuel_enough fuel fuel' st data :
  (length data ≤ fuel)%nat → (length data ≤ fuel')%nat →
  iterate_fuel fuel st data = iterate_fuel fuel' st data.
Proof.
  revert fuel' st data. induction fuel as [|fuel IH]; intros fuel' st data H H'.
  - destruct data; [|cbn in H; lia]. destruct fuel'; [done|]. cbn [iterate_fuel].
    destruct (Nat.ltb_spec (length (@nil Z)) B) as [|Hge]; [done|]. cbn in Hge; lia.
  - cbn [iterate_fuel]. destruct (Nat.ltb_spec (length data) B) as [Hlt|Hge].
    + destruct fuel'; [done|]. cbn [iterate_fuel].
      destruct (Nat.ltb_spec (length data) B); [done|lia].
    + destruct fuel' as [|fuel']; [lia|]. cbn [iterate_fuel].
      destruct (Nat.ltb_spec (length data) B); [lia|].
      apply IH; rewrite length_drop; lia.
Qed.

Lemma iterate_short st data : (length data < B)%nat → iterate st data = st.
Proof.
  intros H. unfold iterate. destruct (length data) as [|n] eqn:E; [done|]. cbn [iterate_fuel].
  destruct (Nat.ltb_spec (length data) B); [done|lia].
Qed.

Lemma iterate_block st block data :
  length block = B → iterate st (block ++ data) = iterate (transform st block) data.
Proof.
  intros Hb. unfold iterate. rewrite length_app, Hb.
  rewrite (iterate_fuel_enough _ (S (B + length data)))
    by (rewrite length_app; lia).
  cbn [iterate_fuel]. destruct (Nat.ltb_spec (length (block ++ data)) B) as [Hlt|_];
    [rewrite length_app in Hlt; lia|].
  rewrite take_app_length', drop_app_length' by done. apply iterate_fuel_enough; lia.
Qed.

Lemma iterate_app st full data :
  (B | length full)%nat → iterate st (full ++ data) = iterate (iterate st full) data.
Proof.
  intros [k Hk]. revert st full Hk. induction k as [|k IH]; intros st full Hk.
  - destruct full; [|cbn in Hk; lia]. cbn [app]. by rewrite (iterate_short _ []) by (cbn; lia).
  - rewrite <- (take_drop B full). set (b := take B full). set (r := drop B full).
    assert (length b = B) by (unfold b; rewrite length_take; lia).
    rewrite <- app_assoc, (iterate_block st b (r ++ data)), (iterate_block st b r) by done. apply IH. unfold r. rewrite length_drop. lia.
Qed.

(** ** Contexts *)

(** [c] has absorbed [msg]: the complete blocks are in the state and the rest,
    [Sha2.buffer_size] bytes, is at the front of the buffer.  With [full = true]
    the buffer may be full. *)
Definition absorbed (full : bool) (st0 msg : list Z) (c : hash_core) : Prop :=
  ∃ blocks rest,
    msg = blocks ++ rest ∧ (B | length blocks)%nat ∧
    (length rest < B ∨ (full = true ∧ length rest = B))%nat ∧
    state c = iterate st0 blocks ∧ length (buffer c) = B ∧
    buffer_size c = Z.of_nat (length rest) ∧ take (length rest) (buffer c) = rest.

Let BZ := Z.of_nat B.

Lemma array_write_front buf rest data :
  take (length rest) buf = rest → (length rest + length data ≤ length buf)%nat →
  let buf' := array_write buf (Z.of_nat (length rest)) data in
  length buf' = length buf ∧ take (length rest + length data) buf' = rest ++ data.
Proof.
  intros Ht Hl. unfold array_write. rewrite Nat2Z.id, Ht. split.
  - rewrite !length_app, length_drop. lia.
  - rewrite app_assoc. apply take_app_length'. rewrite length_app. lia.
Qed.

Lemma write_absorbed full st0 msg c data :
  absorbed full st0 msg c → (Z.to_nat (buffer_size c) + length data ≤ B)%nat →
  absorbed true st0 (msg ++ data)
    (mk_core (state c) (array_write (buffer c) (buffer_size c) data)
       (buffer_size c + Z.of_nat (length data))).
Proof.
  intros (blocks & rest & -> & Hdiv & Hr & Hst & Hlen & Hbs & Ht) Hle.
  rewrite Hbs in *. rewrite Nat2Z.id in Hle.
  destruct (array_write_front (buffer c) rest data Ht ltac:(lia)) as [Hl' Ht'].
  exists blocks, (rest ++ data). cbn [state buffer buffer_size]. rewrite length_app.
  split_and!; [by rewrite app_assoc|done|lia|done|lia|lia|done].
Qed.

Lemma flush_absorbed st0 msg c :
  absorbed true st0 msg c → absorbed false st0 msg (flush_full BZ transform c).
Proof.
  intros (blocks & rest & -> & Hdiv & Hr & Hst & Hlen & Hbs & Ht). unfold flush_full, BZ. rewrite Hbs.
  destruct (Z.eqb_spec (Z.of_nat (length rest)) (Z.of_nat B)) as [He|Hne].
  - assert (length rest = B) as Hb by lia. exists (blocks ++ rest), [].
    cbn [state buffer buffer_size length]. rewrite app_nil_r, length_app, Hb.
    rewrite Hb in Ht. rewrite <- Hlen, firstn_all in Ht.
    split_and!; [done|by apply Nat.divide_add_r|lia| |done|done|done].
    rewrite iterate_app by done.
    rewrite <- (app_nil_r rest), iterate_block by done.
    by rewrite (iterate_short _ []), Hst, Ht by (cbn; lia).
  - exists blocks, rest. split_and!; try done. lia.
Qed.

Lemma absorb_absorbed st0 fuel msg c data :
  absorbed false st0 msg c → (length data ≤ fuel)%nat →
  absorbed false st0 (msg ++ data) (absorb BZ transform fuel c data).
Proof.
  revert msg c data. induction fuel as [|fuel IH]; intros msg c data Hc Hl; cbn [absorb].
  - destruct data; [|cbn in Hl; lia]. by rewrite app_nil_r.
  - destruct (Z.gtb_spec (Z.of_nat (length data)) 0) as [Hpos|H0].
    2:{ destruct data; [by rewrite app_nil_r|cbn in H0; lia]. }
    set (amount := Z.min (BZ - buffer_size c) (Z.of_nat (length data))).
    assert (Hbs : 0 ≤ buffer_size c < BZ).
    { destruct Hc as (? & rest & _ & _ & [?|[? _]] & _ & _ & -> & _); [unfold BZ; lia|done]. }
    set (chunk := take (Z.to_nat amount) data).
    assert (Hchunk : Z.of_nat (length chunk) = amount) by (unfold chunk; rewrite length_take; lia).
    rewrite <- (take_drop (Z.to_nat amount) data) at 1. fold chunk. rewrite app_assoc.
    apply IH; [|rewrite length_drop; lia]. apply flush_absorbed. rewrite <- Hchunk.
    eapply write_absorbed; [done|]. unfold BZ in *. lia.
Qed.

(** ** Padding *)

Context (L : nat) (HL : (L < B)%nat).

Let target := BZ - Z.of_nat L.

(** Zero bytes between the marker byte and the length field. *)
Definition pad_count (len : Z) : Z := (target - len) mod BZ.

Lemma pad_zeros_absorbed fuel st0 msg c :
  absorbed true st0 msg c → pad_count (Z.of_nat (length msg)) < Z.of_nat fuel →
  (0 < L)%nat →
  let c' := pad_zeros BZ transform fuel target c in
  absorbed true st0 (msg ++ replicate (Z.to_nat (pad_count (Z.of_nat (length msg)))) 0) c' ∧
  buffer_size c' = target.
Proof.
  intros Hc Hfuel HL0. revert msg c Hc Hfuel.
  induction fuel as [|fuel IH]; intros msg c Hc Hf.
  { pose proof (Z.mod_pos_bound (target - Z.of_nat (length msg)) BZ ltac:(unfold BZ; lia)).
    unfold pad_count in Hf. lia. }
  pose proof Hc as (blocks & rest & Hmsg & [k Hk] & Hr & _ & _ & Hbs & _).
  assert (Hlen : Z.of_nat (length msg) = Z.of_nat (length rest) + Z.of_nat k * BZ)
    by (rewrite Hmsg, length_app; unfold BZ; lia).
  cbn [pad_zeros]. destruct (Z.eqb_spec (buffer_size c) target) as [Heq|Hne].
  - assert (pad_count (Z.of_nat (length msg)) = 0) as ->.
    { unfold pad_count. rewrite Hlen. apply Z.mod_divide; [unfold BZ; lia|].
      exists (- Z.of_nat k). lia. }
    rewrite app_nil_r. done.
  - apply flush_absorbed in Hc.
    set (c1 := flush_full BZ transform c) in *.
    assert (Hpos : 0 < pad_count (Z.of_nat (length msg))).
    { pose proof (Z.mod_pos_bound (target - Z.of_nat (length msg)) BZ ltac:(unfold BZ; lia)) as Hb.
      unfold pad_count. destruct (Z.eq_dec ((target - Z.of_nat (length msg)) mod BZ) 0) as [Hz|]; [|lia].
      exfalso. apply Hne. rewrite Hbs. apply Z.mod_divide in Hz as [q Hq]; [|unfold BZ; lia].
      assert (Z.of_nat (length rest) ≤ BZ) by (unfold BZ; lia).
      assert (0 < target < BZ) by (unfold target, BZ; lia).
      assert (target - Z.of_nat (length rest) = (q + Z.of_nat k) * BZ) as Hm by lia.
      assert (q + Z.of_nat k = 0) as Hz by nia. rewrite Hz in Hm. lia. }
    assert (Hnext : pad_count (Z.of_nat (length (msg ++ [0]))) = pad_count (Z.of_nat (length msg)) - 1).
    { rewrite length_app. cbn [length]. unfold pad_count in *.
      set (x := target - Z.of_nat (length msg)) in *.
      replace (target - Z.of_nat (length msg + 1)) with (x - 1) by lia.
      assert (BZ ≠ 0) by (unfold BZ; lia).
      rewrite (Z.div_mod x BZ) at 1 by done.
      replace (BZ * (x / BZ) + x mod BZ - 1) with (x mod BZ - 1 + x / BZ * BZ) by lia.
      rewrite Z.mod_add by done. apply Z.mod_small.
      pose proof (Z.mod_pos_bound x BZ ltac:(unfold BZ; lia)). lia. }
    assert (Hstep : absorbed true st0 (msg ++ [0]) (push_byte 0 c1)).
    { unfold push_byte. change 1 with (Z.of_nat (length [0])). eapply write_absorbed; [done|].
      destruct Hc as (? & rest1 & _ & _ & [?|[? _]] & _ & _ & -> & _); [cbn; lia|done]. }
    specialize (IH (msg ++ [0]) (push_byte 0 c1) Hstep ltac:(lia)) as [IH1 IH2].
    split; [|done]. rewrite Hnext, <- app_assoc in IH1.
    replace (Z.to_nat (pad_count (Z.of_nat (length msg))))
      with (S (Z.to_nat (pad_count (Z.of_nat (length msg)) - 1))) by lia.
    exact IH1.
Qed.

(** The padded message of FIPS 180-4 for a length field [length_bytes]. *)
Definition padded (msg length_bytes : list Z) : list Z :=
  msg ++ [0x80] ++ replicate (Z.to_nat (pad_count (Z.of_nat (length msg) + 1))) 0 ++ length_bytes.

Lemma finish_padded st0 msg c length_bytes :
  absorbed false st0 msg c → length length_bytes = L → (0 < L)%nat →
  finish BZ transform target length_bytes c = iterate st0 (padded msg length_bytes).
Proof.
  intros Hc Hlb HL0. unfold finish.
  assert (H80 : absorbed true st0 (msg ++ [0x80]) (push_byte 0x80 c)).
  { unfold push_byte. change 1 with (Z.of_nat (length [0x80])). eapply write_absorbed; [done|].
    destruct Hc as (? & rest1 & _ & _ & [?|[? _]] & _ & _ & -> & _); [cbn; lia|done]. }
  pose proof (Z.mod_pos_bound (target - Z.of_nat (length (msg ++ [0x80]))) BZ ltac:(unfold BZ; lia)).
  destruct (pad_zeros_absorbed (2 * Z.to_nat BZ) st0 (msg ++ [0x80]) (push_byte 0x80 c) H80)
    as [Hpad Hbs]; [unfold pad_count, BZ in *; lia|done|].
  set (c' := pad_zeros _ _ _ _ _) in *.
  assert (Hlen : Z.of_nat (length (msg ++ [0x80])) = Z.of_nat (length msg) + 1)
    by (rewrite length_app; cbn; lia).
  rewrite Hlen in Hpad. rewrite <- app_assoc in Hpad.
  destruct Hpad as (blocks & rest & Hmsg & Hdiv & _ & Hst & Hbl & Hbs' & Ht).
  unfold padded. rewrite !app_assoc. rewrite <- (app_assoc msg), Hmsg.
  rewrite <- app_assoc, iterate_app, Hst by done. rewrite Hbs' in Hbs.
  rewrite <- Hbs. unfold array_write. rewrite Nat2Z.id, Ht.
  rewrite drop_ge, app_nil_r by (rewrite Hlb; unfold target, BZ in Hbs; lia).
  rewrite <- (app_nil_r (rest ++ length_bytes)) at 2. rewrite iterate_block.
  - by rewrite (iterate_short _ []) by (cbn; lia).
  - rewrite length_app, Hlb. unfold target, BZ in Hbs. lia.
Qed.

End Iteration.

(** ** The compression function of FIPS 180-4

    Written from the standard, with the functions of section 4.1.2, the constants
    of sections 4.2.2 and 5.3.3 computed from the primes and the loop of section
    6.2.2; nothing of Sha2.v is used.  Words are taken modulo 2^32. *)

Module Fips180.

Definition SHR (n x : Z) : Z := x / 2 ^ n.
Definition ROTR (n x : Z) : Z := Z.lor (x / 2 ^ n) ((x * 2 ^ (32 - n)) mod 2 ^ 32).
Definition NOT (x : Z) : Z := (2 ^ 32 - 1 - x) mod 2 ^ 32.

Definition Ch (x y z : Z) : Z := Z.lxor (Z.land x y) (Z.land (NOT x) z).
Definition Maj (x y z : Z) : Z := Z.lxor (Z.lxor (Z.land x y) (Z.land x z)) (Z.land y z).
Definition Sigma0 (x : Z) : Z := Z.lxor (Z.lxor (ROTR 2 x) (ROTR 13 x)) (ROTR 22 x).
Definition Sigma1 (x : Z) : Z := Z.lxor (Z.lxor (ROTR 6 x) (ROTR 11 x)) (ROTR 25 x).
Definition sigma0 (x : Z) : Z := Z.lxor (Z.lxor (ROTR 7 x) (ROTR 18 x)) (SHR 3 x).
Definition sigma1 (x : Z) : Z := Z.lxor (Z.lxor (ROTR 17 x) (ROTR 19 x)) (SHR 10 x).

(** The largest [r] below [2 ^ bits] with [r ^ k <= n], bit by bit. *)
Fixpoint root (bits : nat) (k n acc : Z) : Z :=
  match bits with
  | O => acc
  | S bits => let c := acc + 2 ^ Z.of_nat bits in root bits k n (if c ^ k <=? n then c else acc)
  end.

Definition is_prime (n : Z) : bool := forallb (λ d, negb (n mod d =? 0)) (seqZ 2 (n - 2)).

Definition primes (count : nat) : list Z := take count (filter (λ n, is_prime n = true) (seqZ 2 400)).

(** The first 32 bits of the fractional part of the [k]th root of [p]. *)
Definition fraction (k p : Z) : Z := root 40 k (p * 2 ^ (32 * k)) 0 mod 2 ^ 32.

Definition K : list Z := Eval vm_compute in fraction 3 <$> primes 64.
Definition H0 : list Z := Eval vm_compute in fraction 2 <$> primes 8.

(** Big-endian numbers. *)
Definition be_int (bytes : list Z) : Z := fold_left (λ acc b, Z.lor (acc * 2 ^ 8) b) bytes 0.

Fixpoint be_bytes (n : nat) (v : Z) : list Z :=
  match n with O => [] | S n => (v / 2 ^ (8 * Z.of_nat n)) mod 2 ^ 8 :: be_bytes n v end.

(** The sixteen words of a block, then W(t) from W(t-2), W(t-7), W(t-15) and
    W(t-16). *)
Definition block_word (block : list Z) (t : nat) : Z := be_int ((λ i, default 0 (block !! (4 * t + i)%nat)) <$> seq 0 4).

Definition at_ (w : list Z) (t : nat) : Z := default 0 (w !! t).

Definition next_word (w : list Z) : Z :=
  let t := length w in
  (sigma1 (at_ w (t - 2)) + at_ w (t - 7) + sigma0 (at_ w (t - 15)) + at_ w (t - 16)) mod 2 ^ 32.

Fixpoint schedule (count : nat) (w : list Z) : list Z :=
  match count with O => w | S count => schedule count (w ++ [next_word w]) end.

Definition W (block : list Z) : list Z := schedule 48 (block_word block <$> seq 0 16).

Definition round (w : list Z) (s : list Z) (t : nat) : list Z :=
  match s with
  | [a; b; c; d; e; f; g; h] =>
      let T1 := (h + Sigma1 e + Ch e f g + at_ K t + at_ w t) mod 2 ^ 32 in
      let T2 := (Sigma0 a + Maj a b c) mod 2 ^ 32 in
      [(T1 + T2) mod 2 ^ 32; a; b; c; (d + T1) mod 2 ^ 32; e; f; g]
  | _ => s
  end.

Definition compress (H block : list Z) : list Z :=
  zip_with (λ x y, (x + y) mod 2 ^ 32) H (fold_left (round (W block)) (seq 0 64) H).

End Fips180.

(** *** The code computes it *)

Lemma fips_constants : sha256_k = Fips180.K ∧ state (core256 kos_sha256_initialize) = Fips180.H0.
Proof. split; vm_compute; reflexivity. Qed.

Lemma ror32_rotr x n : 0 ≤ n ≤ 32 → ror32 x n = Fips180.ROTR n x.
Proof. intros Hn. unfold ror32, Fips180.ROTR, u32. by rewrite Z.shiftr_div_pow2, Z.shiftl_mul_pow2 by lia. Qed.

Lemma not32_not x : not32 x = Fips180.NOT x.
Proof. unfold not32, u32, Fips180.NOT, Z.lnot. rewrite <- Z.sub_1_r. replace (2 ^ 32 - 1 - x) with (- x - 1 + 1 * 4294967296) by lia. by rewrite Z.mod_add. Qed.

Lemma word_at w i : word w (Z.of_nat i) = Fips180.at_ w i.
Proof. unfold word, Fips180.at_. by rewrite Nat2Z.id. Qed.

Lemma lor_shift a b n : 0 ≤ n → Z.lor a b * 2 ^ n = Z.lor (a * 2 ^ n) (b * 2 ^ n).
Proof. intros Hn. rewrite <- !Z.shiftl_mul_pow2 by done. apply Z.shiftl_lor. Qed.

Lemma read_block_word block t : read_u32_be block (Z.of_nat t * 4) = Fips180.block_word block t.
Proof.
  unfold read_u32_be, Fips180.block_word, Fips180.be_int, byte_at. cbn [seq fmap list_fmap fold_left].
  rewrite !Z.shiftl_mul_pow2 by lia. rewrite Z.mul_0_l, Z.lor_0_l. rewrite !lor_shift by lia.
  rewrite <- !Z.mul_assoc, <- !Z.pow_add_r by lia. cbn [Z.add Pos.add Pos.add_carry Pos.succ].
  repeat first [progress f_equal | lia].
Qed.

Lemma next_word_eq w : (16 ≤ length w)%nat → sha256_word w = Fips180.next_word w.
Proof.
  intros Hl. unfold sha256_word, Fips180.next_word, Fips180.sigma0, Fips180.sigma1, Fips180.SHR. cbv zeta.
  rewrite !ror32_rotr by lia. rewrite !Z.shiftr_div_pow2 by lia.
  replace (Z.of_nat (length w) - 15) with (Z.of_nat (length w - 15)) by lia.
  replace (Z.of_nat (length w) - 2) with (Z.of_nat (length w - 2)) by lia.
  replace (Z.of_nat (length w) - 16) with (Z.of_nat (length w - 16)) by lia.
  replace (Z.of_nat (length w) - 7) with (Z.of_nat (length w - 7)) by lia.
  rewrite !word_at. unfold u32. f_equal. lia.
Qed.

Lemma schedule_eq n : ∀ w, (16 ≤ length w)%nat → sha256_extend n w = Fips180.schedule n w ∧ length (sha256_extend n w) = (n + length w)%nat.
Proof.
  induction n as [|n IH]; intros w Hw; cbn [sha256_extend Fips180.schedule]; [done|]. rewrite <- next_word_eq by done.
  destruct (IH (w ++ [sha256_word w])) as [E Hl]; [rewrite length_app; lia|]. split; [done|]. rewrite Hl, length_app. cbn. lia.
Qed.

Lemma W_eq block : sha256_extend 48 (Fips180.block_word block <$> seq 0 16) = Fips180.W block ∧ length (Fips180.W block) = 64%nat.
Proof.
  destruct (schedule_eq 48 (Fips180.block_word block <$> seq 0 16)) as [E Hl]; [rewrite length_fmap, length_seq; lia|].
  rewrite length_fmap, length_seq, E in Hl. unfold Fips180.W. split; [exact E|exact Hl].
Qed.

Lemma zip_at (k w : list Z) n : length k = n → length w = n → zip k w = (λ t, (Fips180.at_ k t, Fips180.at_ w t)) <$> seq 0 n.
Proof.
  revert w n. induction k as [|x k IH]; intros [|y w] n <- Hw; cbn in Hw; try done. cbn [length seq fmap list_fmap zip_with].
  f_equal. rewrite (IH w (length k)) by lia. rewrite <- fmap_S_seq, <- list_fmap_compose. done.
Qed.

Lemma round_eq w v t : list_of_vars (sha256_round v (Fips180.at_ Fips180.K t, Fips180.at_ w t)) = Fips180.round w (list_of_vars v) t.
Proof.
  destruct v as [a b c d e f g h]. unfold sha256_round, Fips180.round, list_of_vars, Fips180.Sigma0, Fips180.Sigma1, Fips180.Ch, Fips180.Maj.
  cbn [va vb vc vd ve vf vg vh fst snd]. cbv zeta. rewrite !ror32_rotr, not32_not by lia. done.
Qed.

(** The compression function of the code is that of the standard. *)
Lemma sha256_compress st block : length st = 8%nat → sha256_transform st block = Fips180.compress st block.
Proof.
  intros Hst. assert (list_of_vars (load_vars st) = st) as Hv.
  { do 9 (destruct st as [|? st]; [done|]). done. }
  unfold sha256_transform, Fips180.compress. cbv zeta. rewrite Hv. f_equal.
  assert ((λ i, read_u32_be block (i * 4)) <$> seqZ 0 16 = Fips180.block_word block <$> seq 0 16) as ->.
  { unfold seqZ. rewrite <- list_fmap_compose. apply list_fmap_ext. intros i t _. unfold compose. rewrite Z.add_0_r. apply read_block_word. }
  destruct (W_eq block) as [-> Hl].
  rewrite (proj1 fips_constants), (zip_at Fips180.K (Fips180.W block) 64); [|vm_compute; reflexivity|exact Hl]. clear Hl.
  rewrite <- Hv at 2. clear Hv Hst.
  generalize (seq 0 64) (load_vars st) (Fips180.W block). intros l. induction l as [|t l IH]; intros v w; [done|].
  cbn [fmap list_fmap fold_left]. rewrite IH, round_eq. done.
Qed.

(** ** SHA-256 *)

(** The hash of FIPS 180-4: the compression function iterated over the padded
    message, with the length in bits as the 64-bit field. *)
Definition sha256_reference (msg : list Z) : list Z :=
  concat (Fips180.be_bytes 4 <$>
    iterate 64 Fips180.compress Fips180.H0
      (padded 64 8 msg (Fips180.be_bytes 8 ((8 * Z.of_nat (length msg)) mod 2 ^ 64)))).

Lemma vars_length v : length (list_of_vars v) = 8%nat.
Proof. reflexivity. Qed.

Lemma sha256_transform_length st block : length (sha256_transform st block) = 8%nat.
Proof. unfold sha256_transform. by rewrite length_zip_with, !vars_length. Qed.

Lemma be_bytes_4 v : Fips180.be_bytes 4 v = write_u32_be v.
Proof.
  unfold write_u32_be, u8. rewrite !Z.shiftr_div_pow2 by lia. cbn [Fips180.be_bytes].
  change (8 * Z.of_nat 0) with 0. rewrite Z.div_1_r. done.
Qed.

Lemma be_bytes_8 v : Fips180.be_bytes 8 v = write_u64_be v.
Proof.
  unfold write_u64_be, u8. rewrite !Z.shiftr_div_pow2 by lia. cbn [Fips180.be_bytes].
  change (8 * Z.of_nat 0) with 0. rewrite Z.div_1_r. done.
Qed.

Lemma iterate_compress fuel : ∀ st data, length st = 8%nat →
  iterate_fuel 64 sha256_transform fuel st data = iterate_fuel 64 Fips180.compress fuel st data.
Proof.
  induction fuel as [|fuel IH]; intros st data Hst; cbn [iterate_fuel]; [done|]. case_match; [done|].
  rewrite <- sha256_compress by done. apply IH, sha256_transform_length.
Qed.

(** The same with the parts of the code. *)
Lemma sha256_reference_eq msg :
  sha256_reference msg =
  concat (write_u32_be <$>
    iterate 64 sha256_transform (state (core256 kos_sha256_initialize))
      (padded 64 8 msg (write_u64_be (u64 (Z.of_nat (length msg) * 8))))).
Proof.
  unfold sha256_reference. rewrite be_bytes_8, (Z.mul_comm 8). change ((?x) mod 2 ^ 64) with (u64 x).
  rewrite (proj2 fips_constants). unfold iterate. rewrite iterate_compress by done.
  f_equal. apply list_fmap_ext. intros _ v _. apply be_bytes_4.
Qed.

Lemma initial_absorbed B transform st :
  (0 < B)%nat → absorbed B transform false st [] (mk_core st (replicate B 0) 0).
Proof.
  intros HB. exists [], []. cbn [state buffer buffer_size].
  split_and!; try done; [by exists 0%nat|left; cbn; lia|by rewrite length_replicate].
Qed.

Lemma sha256_absorbed chunks msg c :
  absorbed 64 sha256_transform false (state (core256 kos_sha256_initialize)) msg (core256 c) →
  bit_count c = u64 (Z.of_nat (length msg) * 8) →
  let c' := fold_left kos_sha256_update chunks c in
  absorbed 64 sha256_transform false (state (core256 kos_sha256_initialize))
    (msg ++ concat chunks) (core256 c') ∧
  bit_count c' = u64 (Z.of_nat (length (msg ++ concat chunks)) * 8).
Proof.
  revert msg c. induction chunks as [|d chunks IH]; intros msg c Hc Hb; cbn [fold_left concat].
  - by rewrite app_nil_r.
  - rewrite app_assoc. apply IH.
    + apply absorb_absorbed; [lia|done|lia].
    + unfold kos_sha256_update. cbn [bit_count]. rewrite Hb, length_app. unfold u64.
      rewrite Zplus_mod_idemp_l. f_equal. lia.
Qed.

Lemma sha256_many chunks :
  kos_sha256_finalize (fold_left kos_sha256_update chunks kos_sha256_initialize)
  = sha256_reference (concat chunks).
Proof.
  destruct (sha256_absorbed chunks [] kos_sha256_initialize) as [Hc Hb];
    [apply initial_absorbed; lia|done|].
  cbn [app] in Hc, Hb. rewrite sha256_reference_eq. unfold kos_sha256_finalize. do 2 f_equal.
  rewrite Hb. apply (finish_padded 64 sha256_transform ltac:(lia) 8 ltac:(lia)); [done|done|lia].
Qed.

Lemma sha256_one data : kos_sha256 data = sha256_reference data.
Proof.
  pose proof (sha256_many [data]) as H. cbn [concat fold_left] in H. by rewrite app_nil_r in H.
Qed.

(** C37: However a message is cut into [kos_sha256_update] calls, the digest of
    [kos_sha256_finalize] is that of FIPS 180-4 as [Fips180] states it, which
    shares no definition with the code: the standard's compression function,
    with the constants computed from the roots of the first primes, iterated
    from the standard's initial value over the message padded with a one bit,
    zeros up to 56 modulo 64 bytes and the 64-bit length in bits; [kos_sha256]
    is the case of one update. *)
Theorem sha256_streaming chunks :
  kos_sha256_finalize (fold_left kos_sha256_update chunks kos_sha256_initialize)
    = sha256_reference (concat chunks)
  ∧ kos_sha256 (concat chunks) = sha256_reference (concat chunks).
Proof. split; [apply sha256_many|apply sha256_one]. Qed.

(** The reference, on the first example of the standard: the digest of "abc". *)
Example sha256_reference_abc :
  sha256_reference [0x61; 0x62; 0x63]
  = concat (Fips180.be_bytes 4 <$>
      [0xba7816bf; 0x8f01cfea; 0x414140de; 0x5dae2223; 0xb00361a3; 0x96177a9c; 0xb410ff61; 0xf20015ad]).
Proof. vm_compute. reflexivity. Qed.

(** ** SHA-384 *)

Definition sha384_reference (msg : list Z) : list Z :=
  let bits := Z.of_nat (length msg) * 8 in
  concat (write_u64_be <$> take 6
    (iterate 128 sha384_transform (state (core384 kos_sha384_initialize))
      (padded 128 16 msg (write_u64_be (u64 (bits / W64)) ++ write_u64_be (u64 bits))))).

Lemma sha384_absorbed chunks msg c :
  Forall (λ d, Z.of_nat (length d) < 2 ^ 61) chunks →
  absorbed 128 sha384_transform false (state (core384 kos_sha384_initialize)) msg (core384 c) →
  bit_count_high c = u64 (Z.of_nat (length msg) * 8 / W64) →
  bit_count_low c = u64 (Z.of_nat (length msg) * 8) →
  let c' := fold_left kos_sha384_update chunks c in
  absorbed 128 sha384_transform false (state (core384 kos_sha384_initialize))
    (msg ++ concat chunks) (core384 c') ∧
  bit_count_high c' = u64 (Z.of_nat (length (msg ++ concat chunks)) * 8 / W64) ∧
  bit_count_low c' = u64 (Z.of_nat (length (msg ++ concat chunks)) * 8).
Proof.
  intros Hch. revert msg c.
  induction Hch as [|d chunks Hd Hch IH]; intros msg c Hc Hh Hl; cbn [fold_left concat].
  { by rewrite app_nil_r. }
  rewrite app_assoc. apply IH.
  - apply absorb_absorbed; [lia|done|lia].
  - unfold kos_sha384_update. cbn [bit_count_high]. rewrite Hh, Hl, length_app. clear Hc IH.
    change (2 ^ 61) with 2305843009213693952 in Hd. unfold u64, W64.
    set (m := Z.of_nat (length msg)). set (x := Z.of_nat (length d)) in *.
    replace (Z.of_nat (length msg + length d)) with (m + x) by lia.
    rewrite (Z.mod_small (x * 8)) by lia.
    destruct (Z.ltb_spec ((m * 8 mod 18446744073709551616 + x * 8) mod 18446744073709551616) (x * 8)).
    + rewrite Zplus_mod_idemp_l. f_equal. zsolve.
    + f_equal. zsolve.
  - unfold kos_sha384_update. cbn [bit_count_low]. rewrite Hl, length_app. unfold u64.
    rewrite Zplus_mod_idemp_l, Zplus_mod_idemp_r. f_equal. lia.
Qed.

(** The same for SHA-384, with its 128-bit length field, for updates of less
    than 2^61 bytes each. *)
Lemma sha384_streaming chunks :
  Forall (λ d, Z.of_nat (length d) < 2 ^ 61) chunks →
  kos_sha384_finalize (fold_left kos_sha384_update chunks kos_sha384_initialize)
    = sha384_reference (concat chunks).
Proof.
  intros Hch. destruct (sha384_absorbed chunks [] kos_sha384_initialize Hch) as (Hc & Hh & Hl);
    [apply initial_absorbed; lia|done|done|].
  cbn [app] in Hc, Hh, Hl. unfold kos_sha384_finalize, sha384_reference. rewrite Hh, Hl.
  do 3 f_equal. apply (finish_padded 128 sha384_transform ltac:(lia) 16 ltac:(lia)); [done|done|lia].
Qed.

(** ** HMAC and HKDF *)

(** RFC 2104 over the hash of FIPS 180-4. *)
Definition hmac_reference (key data : list Z) : list Z :=
  let k := hmac_block 64 sha256_reference key in
  sha256_reference (((λ b, Z.lxor b 0x5c) <$> k) ++ sha256_reference (((λ b, Z.lxor b 0x36) <$> k) ++ data)).

Lemma sha256_two x y :
  kos_sha256_finalize (kos_sha256_update (kos_sha256_update kos_sha256_initialize x) y)
  = sha256_reference (x ++ y).
Proof.
  pose proof (sha256_many [x; y]) as H. cbn [concat fold_left] in H. by rewrite app_nil_r in H.
Qed.

Lemma hmac_spec key data : kos_hmac_sha256 key data = hmac_reference key data.
Proof.
  unfold kos_hmac_sha256, hmac_reference. rewrite !sha256_two. unfold hmac_block. by rewrite sha256_one.
Qed.

(** RFC 5869: the blocks T(i), T(i+1), ... *)
Fixpoint hkdf_blocks (count : nat) (prk info previous : list Z) (i : Z) : list Z :=
  match count with
  | O => []
  | S count =>
      let t := hmac_reference prk (previous ++ info ++ [i]) in t ++ hkdf_blocks count prk info t (i + 1)
  end.

(** The output key material of RFC 5869: the first bytes of T(1) T(2) ... *)
Definition hkdf_expand_reference (prk info : list Z) (size : Z) : list Z :=
  take (Z.to_nat size) (hkdf_blocks (Z.to_nat ((size + 31) / 32)) prk info [] 1).

Lemma iterate_fuel_length B transform fuel st data n :
  (∀ s b, length (transform s b) = n) → length st = n →
  length (iterate_fuel B transform fuel st data) = n.
Proof.
  intros Ht. revert st data. induction fuel as [|fuel IH]; intros st data Hst; cbn [iterate_fuel]; [done|].
  case_match; [done|]. by apply IH.
Qed.

Lemma concat_length_const {A} (f : A → list Z) n l :
  (∀ x, length (f x) = n) → length (concat (f <$> l)) = (n * length l)%nat.
Proof.
  intros Hf. induction l as [|x l IH]; cbn; [lia|]. rewrite length_app, Hf, IH. lia.
Qed.

Lemma sha256_length msg : length (sha256_reference msg) = 32%nat.
Proof.
  rewrite sha256_reference_eq, (concat_length_const _ 4) by done.
  unfold iterate. rewrite iterate_fuel_length with (n := 8%nat); [done|apply sha256_transform_length|done].
Qed.

Lemma hkdf_loop_spec fuel prk info previous i size output :
  0 ≤ size - Z.of_nat (length output) ≤ Z.of_nat fuel →
  1 ≤ i → i * 32 + (size - Z.of_nat (length output)) ≤ 256 * 32 →
  hkdf_loop fuel prk info previous i size output
  = output ++ take (Z.to_nat (size - Z.of_nat (length output)))
      (hkdf_blocks (Z.to_nat ((size - Z.of_nat (length output) + 31) / 32)) prk info
         (if i =? 1 then [] else previous) i).
Proof.
  revert previous i output. induction fuel as [|fuel IH]; intros previous i output Hf Hi Hmax; cbn [hkdf_loop].
  - assert (size - Z.of_nat (length output) = 0) as -> by lia. by rewrite take_0, app_nil_r.
  - destruct (Z.ltb_spec (Z.of_nat (length output)) size) as [Hlt|Hge].
    2:{ assert (size - Z.of_nat (length output) = 0) as -> by lia. by rewrite take_0, app_nil_r. }
    rewrite hmac_spec. set (t := hmac_reference _ _).
    assert (Ht : length t = 32%nat) by apply sha256_length.
    set (left := size - Z.of_nat (length output)) in *.
    set (amount := Z.min left 32).
    assert (Hlen : Z.of_nat (length (output ++ take (Z.to_nat amount) t)) = Z.of_nat (length output) + amount)
      by (rewrite length_app, length_take, Ht; lia).
    replace (Z.to_nat ((left + 31) / 32)) with (S (Z.to_nat ((left - 32 + 31) / 32)))
      by (replace (left + 31) with (left - 32 + 31 + 1 * 32) by lia; rewrite Z.div_add by lia; zsolve).
    cbn [hkdf_blocks]. fold t. rewrite take_app, Ht.
    destruct (Z.le_gt_cases left 32) as [Hle|Hgt].
    + (* the last block *)
      assert (amount = left) as Ha by lia. rewrite Ha in Hlen |- *.
      replace (Z.to_nat left - 32)%nat with 0%nat by lia. rewrite take_0, app_nil_r.
      set (out := output ++ take (Z.to_nat left) t) in *.
      destruct fuel; cbn [hkdf_loop]; [done|].
      destruct (Z.ltb_spec (Z.of_nat (length out)) size); [lia|done].
    + assert (amount = 32) as Ha by lia. rewrite Ha in Hlen |- *.
      assert (u8 (i + 1) = i + 1) as -> by (apply Z.mod_small; lia).
      rewrite IH by lia. rewrite Hlen. destruct (Z.eqb_spec (i + 1) 1); [lia|].
      rewrite (take_ge t (Z.to_nat 32)) by (rewrite Ht; lia).
      rewrite (take_ge t (Z.to_nat left)) by (rewrite Ht; lia).
      rewrite <- app_assoc. do 2 f_equal.
      replace (size - (Z.of_nat (length output) + 32)) with (left - 32) by lia.
      f_equal. lia.
Qed.

(** [kos_hkdf_expand_sha256] computes the expansion of RFC 5869 and refuses
    more than 255 blocks of output. *)
Lemma hkdf_expand_spec prk info size :
  0 ≤ size →
  kos_hkdf_expand_sha256 prk info size
  = if size >? 255 * 32 then None else Some (hkdf_expand_reference prk info size).
Proof.
  intros Hs. unfold kos_hkdf_expand_sha256. destruct (Z.gtb_spec size (255 * 32)); [done|].
  f_equal. rewrite hkdf_loop_spec by (cbn [length]; lia). cbn [length app Z.eqb].
  rewrite Z.sub_0_r. reflexivity.
Qed.
