(* ===== verification/Aead.v ===== *)
(** * Shared facts on authenticated encryption

    A stream cipher is its own inverse, and the comparison that accumulates the
    differences of two tags accepts exactly equal tags. *)

From Stdlib Require Import ZArith Lia.
From stdpp Require Import gmap.
From S2P Require Import Prelude Inet.

#[local] Open Scope Z_scope.

(** ** Keystreams *)

Lemma xor_twice (l s : list Z) :
  (length l ≤ length s)%nat → zip_with Z.lxor (zip_with Z.lxor l s) s = l.
Proof.
  revert s. induction l as [|x l IH]; intros [|y s] Hl; cbn in *; try done; [lia|].
  f_equal; [|apply IH; lia]. by rewrite Z.lxor_assoc, Z.lxor_nilpotent, Z.lxor_0_r.
Qed.

Lemma xor_length (l s : list Z) :
  (length l ≤ length s)%nat → length (zip_with Z.lxor l s) = length l.
Proof. intros. rewrite length_zip_with. lia. Qed.

(** A stream cipher over blocks of [B] bytes: block [i] of the data is xored
    with the [i]th keystream block. *)
Section Stream.
  Context (B : nat) (HB : (0 < B)%nat) (key_stream : nat → list Z).
  Context (Hstream : ∀ i, length (key_stream i) = B).

Fixpoint stream_crypt (fuel i : nat) (data : list Z) : list Z :=
  match fuel with
  | O => []
  | S fuel =>
      match data with
      | [] => []
      | _ => zip_with Z.lxor (take B data) (key_stream i) ++ stream_crypt fuel (S i) (drop B data)
      end
  end.

Lemma stream_nil fuel i : stream_crypt fuel i [] = [].
Proof. by destruct fuel. Qed.

Lemma stream_length fuel i data :
  (length data ≤ fuel)%nat → length (stream_crypt fuel i data) = length data.
Proof.
  revert i data. induction fuel as [|fuel IH]; intros i data Hl; [destruct data; cbn in *; [done|lia]|].
  destruct data as [|x data]; [done|]. cbn [stream_crypt].
  rewrite length_app, xor_length by (rewrite length_take, Hstream; lia).
  rewrite IH by (rewrite length_drop; cbn [length] in *; lia).
  rewrite <- length_app, take_drop. done.
Qed.

Lemma stream_involutive fuel i data :
  (length data ≤ fuel)%nat → stream_crypt fuel i (stream_crypt fuel i data) = data.
Proof.
  revert i data. induction fuel as [|fuel IH]; intros i data Hl; [destruct data; cbn in *; [done|lia]|].
  destruct data as [|x data]; [done|].
  assert (Hfirst : length (zip_with Z.lxor (take B (x :: data)) (key_stream i))
                   = Nat.min B (length (x :: data)))
    by (rewrite xor_length, length_take by (rewrite length_take, Hstream; lia); done).
  cbn [stream_crypt]. set (first := zip_with _ _ _) in *. set (rest := stream_crypt fuel (S i) _).
  destruct (first ++ rest) as [|y ys] eqn:E.
  { apply app_eq_nil in E as [E _]. rewrite E in Hfirst. cbn [length] in Hfirst. lia. }
  rewrite <- E. clear E y ys.
  destruct (decide (length (x :: data) ≤ B)%nat) as [Hle|Hgt].
  - (* a single block *)
    unfold rest. rewrite (drop_ge (x :: data)) by lia. rewrite stream_nil, app_nil_r.
    rewrite (take_ge first), (drop_ge first), stream_nil, app_nil_r by lia.
    unfold first. rewrite xor_twice by (rewrite length_take, Hstream; lia). by rewrite take_ge.
  - rewrite take_app_length', drop_app_length' by lia. unfold rest, first.
    rewrite xor_twice by (rewrite length_take, Hstream; lia).
    rewrite IH by (rewrite length_drop; cbn [length] in *; lia). apply take_drop.
Qed.

End Stream.

(** ** Comparing tags *)

Lemma fold_lor_zero (l : list Z) a : fold_left Z.lor l a = 0 ↔ a = 0 ∧ Forall (λ x, x = 0) l.
Proof.
  revert a. induction l as [|x l IH]; intros a; cbn [fold_left].
  - rewrite Forall_nil. intuition.
  - rewrite IH, Z.lor_eq_0_iff, Forall_cons. intuition.
Qed.

Lemma xor_all_zero (l k : list Z) :
  length l = length k → Forall (λ x, x = 0) (zip_with Z.lxor l k) ↔ l = k.
Proof.
  revert k. induction l as [|x l IH]; intros [|y k] Hl; cbn in *; try done.
  rewrite Forall_cons, IH, Z.lxor_eq_0_iff by lia. split; [by intros [-> ->]|by intros [= -> ->]].
Qed.

Lemma tags_equal (l k : list Z) :
  length l = length k → fold_left Z.lor (zip_with Z.lxor l k) 0 = 0 ↔ l = k.
Proof. intros Hl. rewrite fold_lor_zero, xor_all_zero by done. intuition. Qed.
