(* ===== verification/Aes.v ===== *)
(** * AES-128/256 in Galois/Counter Mode (src/lib/crypto.c, section 6)

    Byte arrays are lists of bytes.  The encrypt and decrypt functions of the two
    key sizes are the same text up to the key schedule and the number of rounds
    (10 with a 176-byte schedule, 14 with 240 bytes), so their common part is
    written once over these. *)

From Stdlib Require Import ZArith Lia.
From stdpp Require Import gmap.
From S2P Require Import Prelude Inet Aead.

#[local] Open Scope Z_scope.

(** ** The field GF(2^8) and the S-box *)

(** One round of the shift-and-add loop of [aes_gf_mul]. *)
Fixpoint gf_mul_loop (bits : nat) (result a b : Z) : Z :=
  match bits with
  | O => result
  | S bits =>
      let result := if Z.land b 1 =? 0 then result else Z.lxor result a in
      let high := negb (Z.land a 0x80 =? 0) in
      let a := u8 (Z.shiftl a 1) in
      let a := if high then Z.lxor a 0x1b else a in
      gf_mul_loop bits result a (Z.shiftr b 1)
  end.

Definition aes_gf_mul (a b : Z) : Z := gf_mul_loop 8 0 a b.

Definition gf_power (count : nat) (value : Z) : Z :=
  Nat.iter count (λ inverse, aes_gf_mul inverse value) 1.

Definition aes_sbox (value : Z) : Z :=
  if value =? 0 then 0x63
  else
    let inverse := gf_power 254 value in
    let rotated := inverse in
    let rotated := Z.lxor rotated (u8 (Z.lor (Z.shiftl inverse 1) (Z.shiftr inverse 7))) in
    let rotated := Z.lxor rotated (u8 (Z.lor (Z.shiftl inverse 2) (Z.shiftr inverse 6))) in
    let rotated := Z.lxor rotated (u8 (Z.lor (Z.shiftl inverse 3) (Z.shiftr inverse 5))) in
    let rotated := Z.lxor rotated (u8 (Z.lor (Z.shiftl inverse 4) (Z.shiftr inverse 4))) in
    Z.lxor rotated 0x63.

(** ** Key schedules *)

(** [round_keys[from .. from + count - 1]] *)
Definition slice (l : list Z) (from count : Z) : list Z := (λ i, byte_at l (from + i)) <$> seqZ 0 count.

(** The word after rotation, substitution and round constant. *)
Definition rotate_word (rcon : Z) (w : list Z) : list Z :=
  [Z.lxor (aes_sbox (byte_at w 1)) rcon; aes_sbox (byte_at w 2); aes_sbox (byte_at w 3);
   aes_sbox (byte_at w 0)].

(** [words] rounds of the loop, each of which appends four bytes; [generated] is
    the length of the schedule so far. *)
Fixpoint expand128 (words : nat) (rcon : Z) (round_keys : list Z) : list Z :=
  match words with
  | O => round_keys
  | S words =>
      let generated := Z.of_nat (length round_keys) in
      let w := slice round_keys (generated - 4) 4 in
      let first := Z.land generated 15 =? 0 in
      let w' := if first then rotate_word rcon w else w in
      let rcon := if first then aes_gf_mul rcon 2 else rcon in
      expand128 words rcon (round_keys ++ zip_with Z.lxor (slice round_keys (generated - 16) 4) w')
  end.

Definition aes128_expand_key (key : list Z) : list Z := expand128 40 1 (slice key 0 16).

Fixpoint expand256 (words : nat) (rcon : Z) (round_keys : list Z) : list Z :=
  match words with
  | O => round_keys
  | S words =>
      let generated := Z.of_nat (length round_keys) in
      let w := slice round_keys (generated - 4) 4 in
      let first := generated mod 32 =? 0 in
      let w' := if first then rotate_word rcon w
                else if generated mod 32 =? 16 then aes_sbox <$> w else w in
      let rcon := if first then aes_gf_mul rcon 2 else rcon in
      expand256 words rcon (round_keys ++ zip_with Z.lxor (slice round_keys (generated - 32) 4) w')
  end.

Definition aes256_expand_key (key : list Z) : list Z := expand256 52 1 (slice key 0 32).

(** ** The block cipher *)

Definition shift_rows (substituted : list Z) : list Z :=
  (λ k, let row := k mod 4 in let column := k / 4 in
        byte_at substituted (row + 4 * Z.land (column + row) 3)) <$> seqZ 0 16.

Definition mix_column (v : list Z) : list Z :=
  let a := byte_at v 0 in let b := byte_at v 1 in let c := byte_at v 2 in let d := byte_at v 3 in
  [Z.lxor (Z.lxor (Z.lxor (aes_gf_mul a 2) (aes_gf_mul b 3)) c) d;
   Z.lxor (Z.lxor (Z.lxor a (aes_gf_mul b 2)) (aes_gf_mul c 3)) d;
   Z.lxor (Z.lxor (Z.lxor a b) (aes_gf_mul c 2)) (aes_gf_mul d 3);
   Z.lxor (Z.lxor (Z.lxor (aes_gf_mul a 3) b) c) (aes_gf_mul d 2)].

Definition mix_columns (state : list Z) : list Z :=
  mix_column (slice state 0 4) ++ mix_column (slice state 4 4)
  ++ mix_column (slice state 8 4) ++ mix_column (slice state 12 4).

Definition aes_round (round_keys : list Z) (rounds round : Z) (state : list Z) : list Z :=
  let state := shift_rows (aes_sbox <$> state) in
  let state := if round =? rounds then state else mix_columns state in
  zip_with Z.lxor state (slice round_keys (round * 16) 16).

Definition aes_encrypt_block_rounds (round_keys : list Z) (rounds : Z) (input : list Z) : list Z :=
  fold_left (λ state round, aes_round round_keys rounds round state) (seqZ 1 rounds)
    (zip_with Z.lxor (slice input 0 16) (slice round_keys 0 16)).

(** ** GHASH *)

Definition gcm_xor (target source : list Z) : list Z := zip_with Z.lxor (slice target 0 16) (slice source 0 16).

(** The sixteen bytes shifted right by one bit. *)
Definition gcm_shift (v : list Z) : list Z :=
  (λ i, if i =? 0 then Z.shiftr (byte_at v 0) 1
        else u8 (Z.lor (Z.shiftr (byte_at v i) 1) (Z.shiftl (byte_at v (i - 1)) 7))) <$> seqZ 0 16.

Definition gcm_multiply_bit (x : list Z) (zv : list Z * list Z) (bit : Z) : list Z * list Z :=
  let '(z, v) := zv in
  let z := if Z.land (byte_at x (bit / 8)) (Z.shiftr 0x80 (Z.land bit 7)) =? 0 then z else gcm_xor z v in
  let lsb := negb (Z.land (byte_at v 15) 1 =? 0) in
  let v := gcm_shift v in
  let v := if lsb then <[0%nat := Z.lxor (byte_at v 0) 0xe1]> v else v in
  (z, v).

Definition gcm_multiply (x y : list Z) : list Z :=
  (fold_left (gcm_multiply_bit x) (seqZ 0 128) (replicate 16 0, slice y 0 16)).1.

Definition gcm_ghash_block (accumulator hash_key block : list Z) : list Z :=
  gcm_multiply (gcm_xor accumulator block) hash_key.

(** One of the two loops over 16-byte blocks, the last one padded with zeros;
    a round consumes at least one byte. *)
Fixpoint ghash_blocks (fuel : nat) (hash_key data accumulator : list Z) : list Z :=
  match fuel with
  | O => accumulator
  | S fuel =>
      match data with
      | [] => accumulator
      | _ =>
          let block := take 16 data ++ replicate (16 - length data) 0 in
          ghash_blocks fuel hash_key (drop 16 data) (gcm_ghash_block accumulator hash_key block)
      end
  end.

(** Eight bytes, most significant first. *)
Definition be64 (value : Z) : list Z := (λ i, u8 (Z.shiftr value ((7 - i) * 8))) <$> seqZ 0 8.

Definition gcm_ghash (hash_key aad ciphertext : list Z) : list Z :=
  let result := replicate 16 0 in
  let result := ghash_blocks (length aad) hash_key aad result in
  let result := ghash_blocks (length ciphertext) hash_key ciphertext result in
  let lengths := be64 (u64 (Z.of_nat (length aad) * 8)) ++ be64 (u64 (Z.of_nat (length ciphertext) * 8)) in
  gcm_ghash_block result hash_key lengths.

(** ** Counter mode *)

(** [for (i = 15; i >= 12; --i) if (++counter[i] != 0) break;] *)
Fixpoint increment_from (count : nat) (i : Z) (counter : list Z) : list Z :=
  match count with
  | O => counter
  | S count =>
      let b := u8 (byte_at counter i + 1) in
      let counter := <[Z.to_nat i := b]> counter in
      if b =? 0 then increment_from count (i - 1) counter else counter
  end.

Definition gcm_increment_counter (counter : list Z) : list Z := increment_from 4 15 counter.

(** The counter block of a nonce: [j0], and the initial [counter]. *)
Definition counter_block (nonce : list Z) : list Z := slice nonce 0 12 ++ [0; 0; 0; 1].

(** The loop that encrypts and the one that decrypts. *)
Fixpoint gcm_crypt (fuel : nat) (round_keys : list Z) (rounds : Z) (counter data : list Z) : list Z :=
  match fuel with
  | O => []
  | S fuel =>
      match data with
      | [] => []
      | _ =>
          let counter := gcm_increment_counter counter in
          let stream := aes_encrypt_block_rounds round_keys rounds counter in
          zip_with Z.lxor (take 16 data) stream
          ++ gcm_crypt fuel round_keys rounds counter (drop 16 data)
      end
  end.

Definition gcm_tag (round_keys : list Z) (rounds : Z) (nonce aad ciphertext : list Z) : list Z :=
  let hash_key := aes_encrypt_block_rounds round_keys rounds (replicate 16 0) in
  let accumulator := gcm_ghash hash_key aad ciphertext in
  gcm_xor (aes_encrypt_block_rounds round_keys rounds (counter_block nonce)) accumulator.

(** [mismatch |= expected[i] ^ tag[i]] over the sixteen bytes. *)
Definition tag_mismatch (expected tag : list Z) : Z :=
  fold_left Z.lor (zip_with Z.lxor (slice expected 0 16) (slice tag 0 16)) 0.

Definition gcm_encrypt (round_keys : list Z) (rounds : Z) (nonce aad plaintext : list Z)
    : list Z * list Z :=
  let ciphertext := gcm_crypt (length plaintext) round_keys rounds (counter_block nonce) plaintext in
  (ciphertext, gcm_tag round_keys rounds nonce aad ciphertext).

Definition gcm_decrypt (round_keys : list Z) (rounds : Z) (nonce aad ciphertext tag : list Z)
    : option (list Z) :=
  let expected := gcm_tag round_keys rounds nonce aad ciphertext in
  if tag_mismatch expected tag =? 0
  then Some (gcm_crypt (length ciphertext) round_keys rounds (counter_block nonce) ciphertext)
  else None.

(** The four functions of the interface, for non-NULL key, nonce and tag:
    encryption returns the ciphertext and the tag, decryption the plaintext or
    [false]. *)
Definition kos_aes128_gcm_encrypt (key nonce aad plaintext : list Z) : list Z * list Z :=
  gcm_encrypt (aes128_expand_key key) 10 nonce aad plaintext.

Definition kos_aes128_gcm_decrypt (key nonce aad ciphertext tag : list Z) : option (list Z) :=
  gcm_decrypt (aes128_expand_key key) 10 nonce aad ciphertext tag.

Definition kos_aes256_gcm_encrypt (key nonce aad plaintext : list Z) : list Z * list Z :=
  gcm_encrypt (aes256_expand_key key) 14 nonce aad plaintext.

Definition kos_aes256_gcm_decrypt (key nonce aad ciphertext tag : list Z) : option (list Z) :=
  gcm_decrypt (aes256_expand_key key) 14 nonce aad ciphertext tag.

(** ** Test vectors *)

(** FIPS 197, appendix B. *)
Example aes128_fips197 :
  aes_encrypt_block_rounds
    (aes128_expand_key [0x2b; 0x7e; 0x15; 0x16; 0x28; 0xae; 0xd2; 0xa6; 0xab; 0xf7; 0x15; 0x88; 0x09; 0xcf; 0x4f; 0x3c])
    10 [0x32; 0x43; 0xf6; 0xa8; 0x88; 0x5a; 0x30; 0x8d; 0x31; 0x31; 0x98; 0xa2; 0xe0; 0x37; 0x07; 0x34]
  = [0x39; 0x25; 0x84; 0x1d; 0x02; 0xdc; 0x09; 0xfb; 0xdc; 0x11; 0x85; 0x97; 0x19; 0x6a; 0x0b; 0x32].
Proof. vm_compute. reflexivity. Qed.

(** The vector of [kos_crypto_self_test] (GCM specification, test case 2). *)
Example aes128_gcm_self_test :
  kos_aes128_gcm_encrypt (replicate 16 0) (replicate 12 0) [] (replicate 16 0)
  = ([0x03; 0x88; 0xda; 0xce; 0x60; 0xb6; 0xa3; 0x92; 0xf3; 0x28; 0xc2; 0xb9; 0x71; 0xb2; 0xfe; 0x78],
     [0xab; 0x6e; 0x47; 0xd4; 0x2c; 0xec; 0x13; 0xbd; 0xf5; 0x3a; 0x67; 0xb2; 0x12; 0x57; 0xbd; 0xdf]).
Proof. vm_compute. reflexivity. Qed.

(** ** Theorems on AES-GCM *)

Lemma length_slice l from count : 0 ≤ count → Z.of_nat (length (slice l from count)) = count.
Proof. intros. unfold slice. rewrite length_fmap, length_seqZ. lia. Qed.

Lemma slice_whole l n : Z.of_nat (length l) = n → slice l 0 n = l.
Proof.
  intros Hl. apply list_eq. intros i. unfold slice. rewrite list_lookup_fmap.
  destruct (decide (i < length l)%nat) as [Hi|Hi].
  - rewrite lookup_seqZ_lt by lia. cbn [fmap option_fmap option_map]. unfold byte_at.
    replace (Z.to_nat (0 + (0 + Z.of_nat i))) with i by lia.
    by destruct (lookup_lt_is_Some_2 l i Hi) as [x ->].
  - rewrite lookup_seqZ_ge by lia. by rewrite lookup_ge_None_2 by lia.
Qed.

Lemma length_round round_keys rounds round state : length (aes_round round_keys rounds round state) = 16%nat.
Proof.
  unfold aes_round. rewrite length_zip_with.
  assert (length (slice round_keys (round * 16) 16) = 16%nat) as -> by reflexivity.
  by case_match.
Qed.

Lemma length_encrypt_block round_keys rounds input :
  length (aes_encrypt_block_rounds round_keys rounds input) = 16%nat.
Proof.
  unfold aes_encrypt_block_rounds.
  assert (Hgen : ∀ l st, length st = 16%nat →
    length (fold_left (λ state round, aes_round round_keys rounds round state) l st) = 16%nat).
  { induction l as [|r l IH]; intros st Hst; cbn [fold_left]; [done|]. apply IH, length_round. }
  by apply Hgen.
Qed.

Lemma length_gcm_xor a b : length (gcm_xor a b) = 16%nat.
Proof. reflexivity. Qed.

Section Gcm.
  Context (round_keys : list Z) (rounds : Z) (nonce : list Z).

(** The keystream block [i] of a nonce. *)
Definition key_block (i : nat) : list Z :=
  aes_encrypt_block_rounds round_keys rounds (Nat.iter (S i) gcm_increment_counter (counter_block nonce)).

Lemma gcm_crypt_stream fuel i data :
  gcm_crypt fuel round_keys rounds (Nat.iter i gcm_increment_counter (counter_block nonce)) data
  = stream_crypt 16 key_block fuel i data.
Proof.
  revert i data. induction fuel as [|fuel IH]; intros i data; [done|].
  cbn [gcm_crypt stream_crypt]. destruct data as [|x data]; [done|]. f_equal. apply (IH (S i)).
Qed.

Lemma gcm_crypt_twice data :
  let ct := gcm_crypt (length data) round_keys rounds (counter_block nonce) data in
  length ct = length data ∧ gcm_crypt (length ct) round_keys rounds (counter_block nonce) ct = data.
Proof.
  cbn zeta. change (counter_block nonce) with (Nat.iter 0 gcm_increment_counter (counter_block nonce)).
  rewrite !gcm_crypt_stream.
  assert (Hs : ∀ i, length (key_block i) = 16%nat) by (intros; apply length_encrypt_block).
  rewrite stream_length by (done || lia). split; [done|].
  apply stream_involutive; [lia|done|lia].
Qed.

Context (aad : list Z).

Lemma gcm_decrypt_cases ciphertext tag :
  length tag = 16%nat →
  gcm_decrypt round_keys rounds nonce aad ciphertext tag
  = if decide (tag = gcm_tag round_keys rounds nonce aad ciphertext)
    then Some (gcm_crypt (length ciphertext) round_keys rounds (counter_block nonce) ciphertext)
    else None.
Proof.
  intros Ht. unfold gcm_decrypt, tag_mismatch. set (e := gcm_tag _ _ _ _ _).
  assert (He : length e = 16%nat) by apply length_gcm_xor.
  rewrite !slice_whole by lia. pose proof (tags_equal e tag ltac:(lia)) as Heq.
  case_decide as Hd.
  - subst tag. rewrite (proj2 Heq eq_refl). done.
  - destruct (Z.eqb_spec (fold_left Z.lor (zip_with Z.lxor e tag) 0) 0) as [Hz|]; [|done].
    apply Heq in Hz. congruence.
Qed.

Lemma gcm_roundtrip plaintext :
  let '(ciphertext, tag) := gcm_encrypt round_keys rounds nonce aad plaintext in
  length ciphertext = length plaintext ∧ length tag = 16%nat ∧
  gcm_decrypt round_keys rounds nonce aad ciphertext tag = Some plaintext ∧
  ∀ forged, length forged = 16%nat → forged ≠ tag →
    gcm_decrypt round_keys rounds nonce aad ciphertext forged = None.
Proof.
  unfold gcm_encrypt. destruct (gcm_crypt_twice plaintext) as [Hl Hc].
  set (ct := gcm_crypt _ _ _ _ plaintext) in *.
  split_and!; [done|apply length_gcm_xor| |].
  - rewrite gcm_decrypt_cases, decide_True, Hc by (done || apply length_gcm_xor). done.
  - intros forged Hf Hne. by rewrite gcm_decrypt_cases, decide_False.
Qed.

End Gcm.

(** For both key sizes, decrypting what was encrypted under the same key,
    nonce and additional data returns the plaintext, the ciphertext has the
    length of the plaintext, and with any other 16-byte tag decryption fails and
    releases nothing. *)
Theorem aes_gcm_roundtrip key nonce aad plaintext :
  (let '(ciphertext, tag) := kos_aes128_gcm_encrypt key nonce aad plaintext in
   length ciphertext = length plaintext ∧ length tag = 16%nat ∧
   kos_aes128_gcm_decrypt key nonce aad ciphertext tag = Some plaintext ∧
   ∀ forged, length forged = 16%nat → forged ≠ tag →
     kos_aes128_gcm_decrypt key nonce aad ciphertext forged = None) ∧
  (let '(ciphertext, tag) := kos_aes256_gcm_encrypt key nonce aad plaintext in
   length ciphertext = length plaintext ∧ length tag = 16%nat ∧
   kos_aes256_gcm_decrypt key nonce aad ciphertext tag = Some plaintext ∧
   ∀ forged, length forged = 16%nat → forged ≠ tag →
     kos_aes256_gcm_decrypt key nonce aad ciphertext forged = None).
Proof.
  split; [exact (gcm_roundtrip (aes128_expand_key key) 10 nonce aad plaintext)
         |exact (gcm_roundtrip (aes256_expand_key key) 14 nonce aad plaintext)].
Qed.
