(* ===== verification/Chacha.v ===== *)
(** * ChaCha20-Poly1305 (src/lib/crypto.c, section 7)

    32-bit words are kept at their width; the products of the Poly1305 limbs are
    64-bit.  Byte arrays are lists of bytes. *)

From Stdlib Require Import ZArith Lia.
From stdpp Require Import gmap.
From S2P Require Import Prelude Inet Aead.

#[local] Open Scope Z_scope.

(** [x[i]] of an array of words. *)
Definition limb (x : list Z) (i : nat) : Z := default 0 (x !! i).

(** Little-endian words and bytes. *)
Definition read_u32_le (data : list Z) (i : Z) : Z :=
  Z.lor (Z.lor (Z.lor (byte_at data i) (Z.shiftl (byte_at data (i + 1)) 8))
    (Z.shiftl (byte_at data (i + 2)) 16)) (Z.shiftl (byte_at data (i + 3)) 24).

Definition write_u32_le (value : Z) : list Z :=
  [u8 value; u8 (Z.shiftr value 8); u8 (Z.shiftr value 16); u8 (Z.shiftr value 24)].

Definition write_u64_le (value : Z) : list Z := (λ i, u8 (Z.shiftr value (i * 8))) <$> seqZ 0 8.

(** ** ChaCha20 *)

Definition chacha_rotl (v c : Z) : Z := Z.lor (u32 (Z.shiftl v c)) (Z.shiftr v (32 - c)).

(** The macro [CHACHA_QR] on the words at four positions. *)
Definition CHACHA_QR (ia ib ic id : nat) (x : list Z) : list Z :=
  let a := limb x ia in let b := limb x ib in let c := limb x ic in let d := limb x id in
  let a := u32 (a + b) in let d := chacha_rotl (Z.lxor d a) 16 in
  let c := u32 (c + d) in let b := chacha_rotl (Z.lxor b c) 12 in
  let a := u32 (a + b) in let d := chacha_rotl (Z.lxor d a) 8 in
  let c := u32 (c + d) in let b := chacha_rotl (Z.lxor b c) 7 in
  <[ia := a]> (<[ib := b]> (<[ic := c]> (<[id := d]> x))).

(** One of the ten double rounds. *)
Definition chacha_double_round (x : list Z) : list Z :=
  let x := CHACHA_QR 0 4 8 12 x in
  let x := CHACHA_QR 1 5 9 13 x in
  let x := CHACHA_QR 2 6 10 14 x in
  let x := CHACHA_QR 3 7 11 15 x in
  let x := CHACHA_QR 0 5 10 15 x in
  let x := CHACHA_QR 1 6 11 12 x in
  let x := CHACHA_QR 2 7 8 13 x in
  CHACHA_QR 3 4 9 14 x.

Definition chacha20_block (state : list Z) : list Z :=
  let x := Nat.iter 10 chacha_double_round state in
  concat ((λ i, write_u32_le (u32 (limb x i + limb state i))) <$> seq 0 16).

Definition chacha_state (key nonce : list Z) (counter : Z) : list Z :=
  [0x61707865; 0x3320646e; 0x79622d32; 0x6b206574]
  ++ ((λ i, read_u32_le key (i * 4)) <$> seqZ 0 8)
  ++ [counter] ++ ((λ i, read_u32_le nonce (i * 4)) <$> seqZ 0 3).

(** [state[12]++] *)
Definition next_counter (state : list Z) : list Z := <[12%nat := u32 (limb state 12 + 1)]> state.

(** The loop over 64-byte blocks; a round consumes at least one byte. *)
Fixpoint chacha_loop (fuel : nat) (state input : list Z) : list Z :=
  match fuel with
  | O => []
  | S fuel =>
      match input with
      | [] => []
      | _ =>
          zip_with Z.lxor (take 64 input) (chacha20_block state)
          ++ chacha_loop fuel (next_counter state) (drop 64 input)
      end
  end.

(** A NULL [input] of the given size is xored as zeros, which is what storing the
    stream itself amounts to. *)
Definition chacha20_crypt (key nonce : list Z) (initial_counter : Z) (input : list Z) : list Z :=
  chacha_loop (length input) (chacha_state key nonce initial_counter) input.

(** ** Poly1305 *)

Record poly1305_ctx := mk_poly {
  poly_r : list Z;
  poly_h : list Z;
  poly_pad : list Z;
  leftover : Z;
  poly_buffer : list Z
}.

Definition poly1305_init (key : list Z) : poly1305_ctx :=
  let k i := byte_at key i in
  let r0 := Z.land (Z.lor (Z.lor (Z.lor (k 0) (Z.shiftl (k 1) 8)) (Z.shiftl (k 2) 16)) (Z.shiftl (k 3) 24)) 0x3ffffff in
  let r1 := Z.land (u32 (Z.lor (Z.lor (Z.lor (Z.shiftr (k 3) 2) (Z.shiftl (k 4) 6)) (Z.shiftl (k 5) 14)) (Z.shiftl (k 6) 22))) 0x3ffff03 in
  let r2 := Z.land (u32 (Z.lor (Z.lor (Z.lor (Z.shiftr (k 6) 4) (Z.shiftl (k 7) 4)) (Z.shiftl (k 8) 12)) (Z.shiftl (k 9) 20))) 0x3ffc0ff in
  let r3 := Z.land (u32 (Z.lor (Z.lor (Z.lor (Z.shiftr (k 9) 6) (Z.shiftl (k 10) 2)) (Z.shiftl (k 11) 10)) (Z.shiftl (k 12) 18))) 0x3f03fff in
  let r4 := Z.land (u32 (Z.lor (Z.lor (Z.lor (Z.shiftr (k 12) 8) (k 13)) (Z.shiftl (k 14) 8)) (Z.shiftl (k 15) 16))) 0x00fffff in
  mk_poly [r0; r1; r2; r3; r4] [0; 0; 0; 0; 0]
    ((λ i, read_u32_le key (16 + i * 4)) <$> seqZ 0 4) 0 (replicate 16 0).

(** One 16-byte block: add it to the accumulator, multiply by [r], carry. *)
Definition poly1305_block (r h m : list Z) (hibit : Z) : list Z :=
  let t0 := read_u32_le m 0 in let t1 := read_u32_le m 4 in
  let t2 := read_u32_le m 8 in let t3 := read_u32_le m 12 in
  let h0 := u32 (limb h 0 + Z.land t0 0x3ffffff) in
  let h1 := u32 (limb h 1 + Z.land (Z.lor (Z.shiftr t0 26) (u32 (Z.shiftl t1 6))) 0x3ffffff) in
  let h2 := u32 (limb h 2 + Z.land (Z.lor (Z.shiftr t1 20) (u32 (Z.shiftl t2 12))) 0x3ffffff) in
  let h3 := u32 (limb h 3 + Z.land (Z.lor (Z.shiftr t2 14) (u32 (Z.shiftl t3 18))) 0x3ffffff) in
  let h4 := u32 (limb h 4 + Z.lor (Z.shiftr t3 8) hibit) in
  let r0 := limb r 0 in let r1 := limb r 1 in let r2 := limb r 2 in
  let r3 := limb r 3 in let r4 := limb r 4 in
  let s1 := u32 (5 * r1) in let s2 := u32 (5 * r2) in
  let s3 := u32 (5 * r3) in let s4 := u32 (5 * r4) in
  let d0 := u64 (h0 * r0 + h1 * s4 + h2 * s3 + h3 * s2 + h4 * s1) in
  let d1 := u64 (h0 * r1 + h1 * r0 + h2 * s4 + h3 * s3 + h4 * s2) in
  let d2 := u64 (h0 * r2 + h1 * r1 + h2 * r0 + h3 * s4 + h4 * s3) in
  let d3 := u64 (h0 * r3 + h1 * r2 + h2 * r1 + h3 * r0 + h4 * s4) in
  let d4 := u64 (h0 * r4 + h1 * r3 + h2 * r2 + h3 * r1 + h4 * r0) in
  let c := u32 (Z.shiftr d0 26) in let h0 := Z.land (u32 d0) 0x3ffffff in let d1 := u64 (d1 + c) in
  let c := u32 (Z.shiftr d1 26) in let h1 := Z.land (u32 d1) 0x3ffffff in let d2 := u64 (d2 + c) in
  let c := u32 (Z.shiftr d2 26) in let h2 := Z.land (u32 d2) 0x3ffffff in let d3 := u64 (d3 + c) in
  let c := u32 (Z.shiftr d3 26) in let h3 := Z.land (u32 d3) 0x3ffffff in let d4 := u64 (d4 + c) in
  let c := u32 (Z.shiftr d4 26) in let h4 := Z.land (u32 d4) 0x3ffffff in let h0 := u32 (h0 + u32 (c * 5)) in
  let c := Z.shiftr h0 26 in let h0 := Z.land h0 0x3ffffff in let h1 := u32 (h1 + c) in
  [h0; h1; h2; h3; h4].

(** [while (bytes >= 16)] *)
Fixpoint poly_blocks_loop (fuel : nat) (r h m : list Z) (hibit : Z) : list Z :=
  match fuel with
  | O => h
  | S fuel =>
      if Z.of_nat (length m) >=? 16
      then poly_blocks_loop fuel r (poly1305_block r h (take 16 m) hibit) (drop 16 m) hibit
      else h
  end.

Definition poly1305_blocks (ctx : poly1305_ctx) (m : list Z) (is_final : bool) : poly1305_ctx :=
  let hibit := if is_final then 0 else Z.shiftl 1 24 in
  mk_poly (poly_r ctx) (poly_blocks_loop (length m) (poly_r ctx) (poly_h ctx) m hibit)
    (poly_pad ctx) (leftover ctx) (poly_buffer ctx).

(** Bytes stored into the buffer from [offset] on. *)
Definition store_at (buffer : list Z) (offset : Z) (data : list Z) : list Z :=
  take (Z.to_nat offset) buffer ++ data ++ drop (Z.to_nat offset + length data) buffer.

Definition set_leftover (ctx : poly1305_ctx) (n : Z) (buffer : list Z) : poly1305_ctx :=
  mk_poly (poly_r ctx) (poly_h ctx) (poly_pad ctx) n buffer.

Definition poly1305_update (ctx : poly1305_ctx) (m : list Z) : poly1305_ctx :=
  let '(ctx, m) :=
    if leftover ctx >? 0 then
      let want := Z.min (16 - leftover ctx) (Z.of_nat (length m)) in
      let ctx := set_leftover ctx (leftover ctx + want)
                   (store_at (poly_buffer ctx) (leftover ctx) (take (Z.to_nat want) m)) in
      let ctx := if leftover ctx =? 16
                 then let ctx := poly1305_blocks ctx (poly_buffer ctx) false in
                      set_leftover ctx 0 (poly_buffer ctx)
                 else ctx in
      (ctx, drop (Z.to_nat want) m)
    else (ctx, m) in
  let '(ctx, m) :=
    if Z.of_nat (length m) >=? 16 then
      let count := Z.to_nat (Z.land (Z.of_nat (length m)) (not64 15)) in
      (poly1305_blocks ctx (take count m) false, drop count m)
    else (ctx, m) in
  set_leftover ctx (leftover ctx + Z.of_nat (length m)) (store_at (poly_buffer ctx) (leftover ctx) m).

Definition poly1305_finish (ctx : poly1305_ctx) : list Z :=
  let ctx :=
    if leftover ctx >? 0 then
      let n := Z.to_nat (leftover ctx) in
      let padded := take n (poly_buffer ctx) ++ [1] ++ replicate (15 - n) 0 in
      poly1305_blocks (set_leftover ctx (leftover ctx) padded) padded true
    else ctx in
  let h0 := limb (poly_h ctx) 0 in let h1 := limb (poly_h ctx) 1 in let h2 := limb (poly_h ctx) 2 in
  let h3 := limb (poly_h ctx) 3 in let h4 := limb (poly_h ctx) 4 in
  let c := Z.shiftr h1 26 in let h1 := Z.land h1 0x3ffffff in let h2 := u32 (h2 + c) in
  let c := Z.shiftr h2 26 in let h2 := Z.land h2 0x3ffffff in let h3 := u32 (h3 + c) in
  let c := Z.shiftr h3 26 in let h3 := Z.land h3 0x3ffffff in let h4 := u32 (h4 + c) in
  let c := Z.shiftr h4 26 in let h4 := Z.land h4 0x3ffffff in let h0 := u32 (h0 + u32 (c * 5)) in
  let c := Z.shiftr h0 26 in let h0 := Z.land h0 0x3ffffff in let h1 := u32 (h1 + c) in
  let g0 := u32 (h0 + 5) in let c := Z.shiftr g0 26 in let g0 := Z.land g0 0x3ffffff in
  let g1 := u32 (h1 + c) in let c := Z.shiftr g1 26 in let g1 := Z.land g1 0x3ffffff in
  let g2 := u32 (h2 + c) in let c := Z.shiftr g2 26 in let g2 := Z.land g2 0x3ffffff in
  let g3 := u32 (h3 + c) in let c := Z.shiftr g3 26 in let g3 := Z.land g3 0x3ffffff in
  let g4 := u32 (h4 + c - Z.shiftl 1 26) in
  let mask := u32 (Z.shiftr g4 31 - 1) in
  let g0 := Z.land g0 mask in let g1 := Z.land g1 mask in let g2 := Z.land g2 mask in
  let g3 := Z.land g3 mask in let g4 := Z.land g4 mask in
  let mask := not32 mask in
  let h0 := Z.lor (Z.land h0 mask) g0 in let h1 := Z.lor (Z.land h1 mask) g1 in
  let h2 := Z.lor (Z.land h2 mask) g2 in let h3 := Z.lor (Z.land h3 mask) g3 in
  let h4 := Z.lor (Z.land h4 mask) g4 in
  let pad i := limb (poly_pad ctx) i in
  let f0 := u64 (Z.lor h0 (Z.shiftl h1 26) + pad 0%nat + Z.shiftl (pad 1%nat) 32) in
  let f1 := u64 (u64 (Z.lor (Z.lor (Z.shiftr h2 12) (Z.shiftl h3 14)) (Z.shiftl h4 40))
                 + pad 2%nat + Z.shiftl (pad 3%nat) 32) in
  write_u64_le f0 ++ write_u64_le f1.

(** ** The AEAD *)

(** A part of the authenticated data, padded with zeros to whole blocks. *)
Definition authenticate (ctx : poly1305_ctx) (data : list Z) : poly1305_ctx :=
  let size := Z.of_nat (length data) in
  if size >? 0 then
    let ctx := poly1305_update ctx data in
    if size mod 16 =? 0 then ctx
    else poly1305_update ctx (replicate (Z.to_nat (16 - size mod 16)) 0)
  else ctx.

Definition aead_tag (key nonce aad ciphertext : list Z) : list Z :=
  let poly_key := chacha20_crypt key nonce 0 (replicate 64 0) in
  let ctx := poly1305_init poly_key in
  let ctx := authenticate ctx aad in
  let ctx := authenticate ctx ciphertext in
  let lens := write_u64_le (Z.of_nat (length aad)) ++ write_u64_le (Z.of_nat (length ciphertext)) in
  poly1305_finish (poly1305_update ctx lens).

(** For non-NULL key, nonce and tag; [None] is [false]. *)
Definition kos_chacha20_poly1305_encrypt (key nonce aad plaintext : list Z) : list Z * list Z :=
  let ciphertext := chacha20_crypt key nonce 1 plaintext in
  (ciphertext, aead_tag key nonce aad ciphertext).

Definition kos_chacha20_poly1305_decrypt (key nonce aad ciphertext tag : list Z) : option (list Z) :=
  let expected_tag := aead_tag key nonce aad ciphertext in
  let mismatch := fold_left Z.lor (zip_with Z.lxor expected_tag tag) 0 in
  if mismatch =? 0 then Some (chacha20_crypt key nonce 1 ciphertext) else None.

(** ** Theorems *)

Section Stream.
  Context (key nonce : list Z) (counter : Z).

Lemma length_chacha_block state : length (chacha20_block state) = 64%nat.
Proof. reflexivity. Qed.

Lemma chacha_loop_stream state fuel i data :
  chacha_loop fuel (Nat.iter i next_counter state) data
  = stream_crypt 64 (λ i, chacha20_block (Nat.iter i next_counter state)) fuel i data.
Proof.
  revert i data. induction fuel as [|fuel IH]; intros i data; [done|].
  cbn [chacha_loop stream_crypt]. destruct data as [|x data]; [done|]. f_equal. apply (IH (S i)).
Qed.

Lemma chacha20_twice data :
  let ct := chacha20_crypt key nonce counter data in
  length ct = length data ∧ chacha20_crypt key nonce counter ct = data.
Proof.
  unfold chacha20_crypt. cbn zeta. set (state := chacha_state key nonce counter).
  change state with (Nat.iter 0 next_counter state). rewrite !chacha_loop_stream.
  rewrite stream_length by (done || lia). split; [done|]. apply stream_involutive; [lia|done|lia].
Qed.

End Stream.

Lemma length_finish ctx : length (poly1305_finish ctx) = 16%nat.
Proof. reflexivity. Qed.

(** Decrypting what was encrypted under the same key, nonce and additional
    data returns the plaintext, the ciphertext has its length, and with any
    other 16-byte tag decryption fails and releases nothing. *)
Theorem chacha20_poly1305_roundtrip key nonce aad plaintext :
  let '(ciphertext, tag) := kos_chacha20_poly1305_encrypt key nonce aad plaintext in
  length ciphertext = length plaintext ∧ length tag = 16%nat ∧
  kos_chacha20_poly1305_decrypt key nonce aad ciphertext tag = Some plaintext ∧
  ∀ forged, length forged = 16%nat → forged ≠ tag →
    kos_chacha20_poly1305_decrypt key nonce aad ciphertext forged = None.
Proof.
  unfold kos_chacha20_poly1305_encrypt, kos_chacha20_poly1305_decrypt.
  destruct (chacha20_twice key nonce 1 plaintext) as [Hl Hc].
  set (ct := chacha20_crypt key nonce 1 plaintext) in *. set (tag := aead_tag key nonce aad ct).
  assert (Ht : length tag = 16%nat) by apply length_finish. split_and!; [done|done| |].
  - rewrite (proj2 (tags_equal tag tag eq_refl) eq_refl). cbn [Z.eqb]. by rewrite Hc.
  - intros forged Hf Hne. pose proof (tags_equal tag forged ltac:(lia)) as Heq.
    destruct (Z.eqb_spec (fold_left Z.lor (zip_with Z.lxor tag forged) 0) 0) as [Hz|]; [|done].
    apply Heq in Hz. congruence.
Qed.

(** ** The vector of RFC 8439, section 2.8.2 *)

Definition rfc_key : list Z := (λ i, 0x80 + i) <$> seqZ 0 32.
Definition rfc_nonce : list Z := [0x07; 0; 0; 0; 0x40; 0x41; 0x42; 0x43; 0x44; 0x45; 0x46; 0x47].
Definition rfc_aad : list Z := [0x50; 0x51; 0x52; 0x53; 0xc0; 0xc1; 0xc2; 0xc3; 0xc4; 0xc5; 0xc6; 0xc7].

(** "Ladies and Gentlemen of the class of '99: If I could offer you only one tip
    for the future, sunscreen would be it." *)
Definition rfc_plaintext : list Z :=
  [76; 97; 100; 105; 101; 115; 32; 97; 110; 100; 32; 71; 101; 110; 116; 108; 101; 109; 101; 110; 32;
   111; 102; 32; 116; 104; 101; 32; 99; 108; 97; 115; 115; 32; 111; 102; 32; 39; 57; 57; 58; 32; 73;
   102; 32; 73; 32; 99; 111; 117; 108; 100; 32; 111; 102; 102; 101; 114; 32; 121; 111; 117; 32; 111;
   110; 108; 121; 32; 111; 110; 101; 32; 116; 105; 112; 32; 102; 111; 114; 32; 116; 104; 101; 32;
   102; 117; 116; 117; 114; 101; 44; 32; 115; 117; 110; 115; 99; 114; 101; 101; 110; 32; 119; 111;
   117; 108; 100; 32; 98; 101; 32; 105; 116; 46].

(** The first bytes of the ciphertext are those of the RFC. *)
Example rfc8439_ciphertext :
  take 16 (kos_chacha20_poly1305_encrypt rfc_key rfc_nonce rfc_aad rfc_plaintext).1
  = [0xd3; 0x1a; 0x8d; 0x34; 0x64; 0x8e; 0x60; 0xdb; 0x7b; 0x86; 0xaf; 0xbc; 0x53; 0xef; 0x7e; 0xc2].
Proof. vm_compute. reflexivity. Qed.

(** The tag is not: [poly1305_finish] drops the low twelve bits of the third limb
    from the first half and the carry into the second half, so bytes 7 and 8
    differ from the tag of the RFC. *)
Example rfc8439_tag_differs :
  let tag := (kos_chacha20_poly1305_encrypt rfc_key rfc_nonce rfc_aad rfc_plaintext).2 in
  let rfc_tag := [0x1a; 0xe1; 0x0b; 0x59; 0x4f; 0x09; 0xe2; 0x6a; 0x7e; 0x90; 0x2e; 0xcb; 0xd0; 0x60; 0x06; 0x91] in
  tag ≠ rfc_tag ∧ take 7 tag = take 7 rfc_tag ∧ drop 9 tag = drop 9 rfc_tag.
Proof. vm_compute. split; [discriminate|split; reflexivity]. Qed.
