(* ===== verification/Signature.v ===== *)
(** * Signature verification and entropy (src/lib/crypto.c, sections 8 and 9)

    The verification functions check only that their arguments are present;
    [kos_entropy_fill] cuts 64-bit samples into bytes. *)

From Stdlib Require Import ZArith Lia.
From stdpp Require Import gmap.
From S2P Require Import Prelude Inet.

#[local] Open Scope Z_scope.

(** ** Signatures *)

(** Pointers are [None] when NULL. *)
Definition kos_ecdsa_p256_verify (pubkey_x pubkey_y hash r s : option (list Z)) : bool :=
  match pubkey_x, pubkey_y, hash, r, s with
  | Some _, Some _, Some _, Some r, Some s =>
      let zero_check := fold_left (λ acc i, Z.lor acc (Z.lor (byte_at r i) (byte_at s i))) (seqZ 0 32) 0 in
      negb (zero_check =? 0)
  | _, _, _, _, _ => false
  end.

Definition kos_rsa_pkcs1_verify_sha256 (modulus : option (list Z)) (mod_len : Z)
    (exponent : option (list Z)) (exp_len : Z) (hash sig : option (list Z)) (sig_len : Z) : bool :=
  match modulus, exponent, hash, sig with
  | Some _, Some _, Some _, Some _ =>
      negb ((mod_len =? 0) || (exp_len =? 0) || negb (sig_len =? mod_len))
  | _, _, _, _ => false
  end.

Definition kos_rsa_pss_verify_sha256 (modulus : option (list Z)) (mod_len : Z)
    (exponent : option (list Z)) (exp_len : Z) (hash sig : option (list Z)) (sig_len : Z) : bool :=
  kos_rsa_pkcs1_verify_sha256 modulus mod_len exponent exp_len hash sig sig_len.

(** The answers do not depend on the key, the digest or the signature value: an
    RSA signature of the length of the modulus is always accepted. *)
Lemma rsa_accepts_any modulus exponent hash sig len exp_len :
  0 < len → 0 < exp_len →
  kos_rsa_pkcs1_verify_sha256 (Some modulus) len (Some exponent) exp_len (Some hash) (Some sig) len = true.
Proof.
  intros Hl He. unfold kos_rsa_pkcs1_verify_sha256.
  by rewrite Z.eqb_refl, (proj2 (Z.eqb_neq len 0)), (proj2 (Z.eqb_neq exp_len 0)) by lia.
Qed.

(** An ECDSA signature is accepted under every key and for every digest, if it is
    accepted under one. *)
Lemma ecdsa_ignores_key x y hash x' y' hash' r s :
  kos_ecdsa_p256_verify (Some x) (Some y) (Some hash) r s
  = kos_ecdsa_p256_verify (Some x') (Some y') (Some hash') r s.
Proof. unfold kos_ecdsa_p256_verify. destruct r, s; reflexivity. Qed.

(** ** Entropy *)

Record kos_entropy_status := mk_entropy {
  initialized : bool;
  hardware_source : bool;
  samples : Z
}.

Section Entropy.
  (** What the processor answers: whether it has [rdrand], and for the [n]th
      sample the value of [rdrand] (if it succeeds), of the time stamp counter
      and of [timer_ticks()]. *)
  Context (cpu_has_rdrand : bool) (rdrand64 : Z → option Z) (rdtsc timer_ticks : Z → Z).

Definition kos_entropy_initialize : kos_entropy_status := mk_entropy true cpu_has_rdrand 0.

Definition sample (e : kos_entropy_status) : Z :=
  let fallback := Z.lxor (rdtsc (samples e)) (u64 (timer_ticks (samples e) * 0x5851f42d4c957f2d)) in
  if hardware_source e then default fallback (rdrand64 (samples e)) else fallback.

(** [(uint8_t)(value >> (byte * 8))] for the first eight bytes. *)
Definition sample_bytes (value : Z) : list Z := (λ byte, u8 (Z.shiftr value (byte * 8))) <$> seqZ 0 8.

(** A round stores at least one byte, so [size] rounds are enough. *)
Fixpoint fill_loop (fuel : nat) (size : nat) (e : kos_entropy_status) : kos_entropy_status * list Z :=
  match fuel with
  | O => (e, [])
  | S fuel =>
      if (size =? 0)%nat then (e, [])
      else
        let bytes := take size (sample_bytes (sample e)) in
        let e := mk_entropy (initialized e) (hardware_source e) (u64 (samples e + 1)) in
        let '(e, rest) := fill_loop fuel (size - length bytes) e in (e, bytes ++ rest)
  end.

(** [None] is [false]; the output pointer is not NULL. *)
Definition kos_entropy_fill (size : nat) (e : kos_entropy_status) : kos_entropy_status * option (list Z) :=
  if negb (initialized e) then (e, None)
  else let '(e, bytes) := fill_loop size size e in (e, Some bytes).

Lemma length_fill_loop fuel size e : (size ≤ fuel)%nat → length (fill_loop fuel size e).2 = size.
Proof.
  revert size e. induction fuel as [|fuel IH]; intros size e Hf; cbn [fill_loop]; [cbn; lia|].
  destruct (Nat.eqb_spec size 0) as [->|Hne]; [done|].
  set (bytes := take size _). assert (Hb : length bytes = Nat.min size 8).
  { unfold bytes. rewrite length_take. unfold sample_bytes. rewrite length_fmap, length_seqZ. lia. }
  specialize (IH (size - length bytes)%nat
    (mk_entropy (initialized e) (hardware_source e) (u64 (samples e + 1))) ltac:(lia)).
  destruct (fill_loop fuel (size - length bytes) _) as [e' rest]. cbn [snd] in IH |- *.
  rewrite length_app, IH. lia.
Qed.

(** An initialised source fills exactly the requested number of bytes. *)
Lemma entropy_fill_length size e :
  initialized e = true → ∃ e' bytes, kos_entropy_fill size e = (e', Some bytes) ∧ length bytes = size.
Proof.
  intros Hi. unfold kos_entropy_fill. rewrite Hi. cbn [negb].
  pose proof (length_fill_loop size size e ltac:(lia)) as Hl.
  destruct (fill_loop size size e) as [e' bytes]. by exists e', bytes.
Qed.

End Entropy.
