(* ===== verification/X25519.v ===== *)
(** * X25519 (src/lib/crypto.c, section 5)

    A field element is sixteen signed 64-bit limbs of radix 2^16, least
    significant first.  The limbs are integers here; [M_bounds] and
    [reduced_bounds] of X25519Spec show that no intermediate value of the ladder
    leaves the range of [int64_t]. *)

From Stdlib Require Import ZArith Lia.
From stdpp Require Import gmap.
From S2P Require Import Prelude Inet.

#[local] Open Scope Z_scope.

(** [o[i]] *)
Definition at_limb (o : list Z) (i : nat) : Z := default 0 (o !! i).

(** ** Field operations *)

(** Round [i] of the carry loop. *)
Definition car_step (o : list Z) (i : nat) : list Z :=
  let o := <[i := at_limb o i + Z.shiftl 1 16]> o in
  let c := Z.shiftr (at_limb o i) 16 in
  let j := if (i <? 15)%nat then S i else 0%nat in
  let o := <[j := at_limb o j + (c - 1 + 37 * (c - 1) * (if (i =? 15)%nat then 1 else 0))]> o in
  <[i := at_limb o i - Z.shiftl c 16]> o.

Definition car25519 (o : list Z) : list Z := fold_left car_step (seq 0 16) o.

(** Constant-time swap of two elements when [b] is one. *)
Definition sel25519 (p q : list Z) (b : Z) : list Z * list Z :=
  let c := Z.lnot (b - 1) in
  let t := zip_with (λ x y, Z.land c (Z.lxor x y)) p q in
  (zip_with Z.lxor p t, zip_with Z.lxor q t).

(** The trial subtraction of the prime: the borrows run up the limbs. *)
Fixpoint sub_borrow (limbs : list Z) (borrow : Z) : list Z :=
  match limbs with
  | [] => []
  | [x] => [x - 0x7fff - borrow]
  | x :: rest =>
      let m := x - 0xffff - borrow in
      Z.land m 0xffff :: sub_borrow rest (Z.land (Z.shiftr m 16) 1)
  end.

(** [m] of [pack25519]. *)
Definition sub_prime (t : list Z) : list Z :=
  match t with
  | [] => []
  | x :: rest =>
      let m := x - 0xffed in
      Z.land m 0xffff :: sub_borrow rest (Z.land (Z.shiftr m 16) 1)
  end.

Definition pack_round (t : list Z) : list Z :=
  let m := sub_prime t in
  let c := Z.land (Z.shiftr (at_limb m 15) 16) 1 in
  (sel25519 t m (1 - c)).1.

Definition pack25519 (n : list Z) : list Z :=
  let t := car25519 (car25519 (car25519 n)) in
  let t := pack_round (pack_round t) in
  concat ((λ x, [u8 x; u8 (Z.shiftr x 8)]) <$> t).

Definition unpack25519 (n : list Z) : list Z :=
  let o := (λ i, Z.lor (byte_at n (2 * i)) (Z.shiftl (byte_at n (2 * i + 1)) 8)) <$> seqZ 0 16 in
  <[15%nat := Z.land (at_limb o 15) 0x7fff]> o.

Definition A (a b : list Z) : list Z := zip_with Z.add a b.
Definition Z' (a b : list Z) : list Z := zip_with Z.sub a b.

(** The inner loop: row [i] of the product, [t[i + j] += a[i] * b[j]]. *)
Fixpoint add_row (t : list Z) (k : nat) (ai : Z) (b : list Z) : list Z :=
  match b with
  | [] => t
  | bj :: b => add_row (<[k := at_limb t k + ai * bj]> t) (S k) ai b
  end.

Fixpoint add_rows (t : list Z) (i : nat) (a b : list Z) : list Z :=
  match a with
  | [] => t
  | ai :: a => add_rows (add_row t i ai b) (S i) a b
  end.

(** [t], the 31 limbs of the product. *)
Definition product (a b : list Z) : list Z := add_rows (replicate 31 0) 0 a b.

(** [t[i] += 38 * t[i + 16]] for the first fifteen limbs, of which sixteen are
    kept. *)
Definition fold_high (t : list Z) : list Z :=
  (λ i, at_limb t i + (if (i <? 15)%nat then 38 * at_limb t (i + 16) else 0)) <$> seq 0 16.

Definition M (a b : list Z) : list Z := car25519 (car25519 (fold_high (product a b))).

Definition S' (a : list Z) : list Z := M a a.

(** [for (a = 253; a >= 0; --a)], by the number of rounds left. *)
Fixpoint inv_loop (rounds : nat) (c i : list Z) : list Z :=
  match rounds with
  | O => c
  | S a =>
      let c := S' c in
      let c := if (a =? 2)%nat || (a =? 4)%nat then c else M c i in
      inv_loop a c i
  end.

Definition inv25519 (i : list Z) : list Z := inv_loop 254 i i.

(** ** The ladder *)

Definition clamp (scalar : list Z) : list Z :=
  let z := (λ i, byte_at scalar i) <$> seqZ 0 32 in
  let z := <[0%nat := Z.land (byte_at z 0) 248]> z in
  let z := <[31%nat := Z.land (byte_at z 31) 127]> z in
  <[31%nat := Z.lor (byte_at z 31) 64]> z.

Definition scalar_bit (z : list Z) (pos : nat) : Z :=
  Z.land (Z.shiftr (byte_at z (Z.of_nat pos / 8)) (Z.land (Z.of_nat pos) 7)) 1.

Definition a24 : list Z := [0xDB41; 1] ++ replicate 14 0.

Record ladder := mk_ladder { lx2 : list Z; lz2 : list Z; lx3 : list Z; lz3 : list Z }.

Definition ladder_swap (s : ladder) (swap : Z) : ladder :=
  let '(x2, x3) := sel25519 (lx2 s) (lx3 s) swap in
  let '(z2, z3) := sel25519 (lz2 s) (lz3 s) swap in
  mk_ladder x2 z2 x3 z3.

(** The body of the loop after the swap. *)
Definition ladder_step (x1 : list Z) (s : ladder) : ladder :=
  let a := A (lx2 s) (lz2 s) in
  let aa := S' a in
  let b := Z' (lx2 s) (lz2 s) in
  let bb := S' b in
  let e := Z' aa bb in
  let c := A (lx3 s) (lz3 s) in
  let d := Z' (lx3 s) (lz3 s) in
  let da := M d a in
  let cb := M c b in
  let x3 := S' (A da cb) in
  let z3 := M (S' (Z' da cb)) x1 in
  let x2 := M aa bb in
  let z2 := M e (A (M e a24) aa) in
  mk_ladder x2 z2 x3 z3.

(** [for (pos = 254; pos >= 0; --pos)], by the number of rounds left. *)
Fixpoint ladder_loop (rounds : nat) (z x1 : list Z) (swap : Z) (s : ladder) : ladder * Z :=
  match rounds with
  | O => (s, swap)
  | S pos =>
      let b_bit := scalar_bit z pos in
      let s := ladder_swap s (Z.lxor swap b_bit) in
      ladder_loop pos z x1 b_bit (ladder_step x1 s)
  end.

(** For non-NULL arguments. *)
Definition kos_x25519 (scalar base : list Z) : list Z :=
  let z := clamp scalar in
  let x1 := unpack25519 base in
  let zero := replicate 16 0 in
  let one := <[0%nat := 1]> zero in
  let '(s, swap) := ladder_loop 255 z x1 0 (mk_ladder one zero x1 one) in
  let s := ladder_swap s swap in
  pack25519 (M (lx2 s) (inv25519 (lz2 s))).

Definition kos_x25519_base (scalar : list Z) : list Z := kos_x25519 scalar (9 :: replicate 31 0).
