(* ===== verification/X25519Spec.v ===== *)
(** * X25519 computes in the field of 2^255 - 19

    The limb operations are those of the field, with limbs that stay far below
    the range of 64-bit integers; the ladder and the inversion are those of RFC
    7748 over the integers modulo the prime; the packed result is the canonical
    encoding. *)

From Stdlib Require Import ZArith Lia Setoid Morphisms.
From stdpp Require Import gmap.
From S2P Require Import Prelude Inet X25519.

#[local] Open Scope Z_scope.

(** ** Congruence modulo the prime *)

Definition P : Z := 57896044618658097711785492504343953926634992332820282019728792003956564819949.

Lemma P_value : P = 2 ^ 255 - 19.
Proof. reflexivity. Qed.

Definition cong (a b : Z) : Prop := ∃ k, a - b = k * P.

#[export] Instance cong_equivalence : Equivalence cong.
Proof.
  split.
  - intros a. exists 0. lia.
  - intros a b [k Hk]. exists (- k). lia.
  - intros a b c [j Hj] [k Hk]. exists (j + k). lia.
Qed.

#[export] Instance cong_add : Proper (cong ==> cong ==> cong) Z.add.
Proof. intros a b [j Hj] c d [k Hk]. exists (j + k). lia. Qed.

#[export] Instance cong_sub : Proper (cong ==> cong ==> cong) Z.sub.
Proof. intros a b [j Hj] c d [k Hk]. exists (j - k). lia. Qed.

#[export] Instance cong_mul : Proper (cong ==> cong ==> cong) Z.mul.
Proof.
  intros a b [j Hj] c d [k Hk]. exists (j * c + b * k).
  replace (a * c - b * d) with ((a - b) * c + b * (c - d)) by ring. rewrite Hj, Hk. ring.
Qed.

Lemma cong_mod a : cong (a mod P) a.
Proof. exists (- (a / P)). pose proof (Z.div_mod a P ltac:(discriminate)). lia. Qed.

Lemma cong_small a b : 0 ≤ a < P → cong a b → a = b mod P.
Proof.
  intros Ha [k Hk]. replace b with (a + (- k) * P) by lia.
  rewrite Z.mod_add by discriminate. by rewrite Z.mod_small.
Qed.

Lemma cong_pow a b n : 0 ≤ n → cong a b → cong (a ^ n) (b ^ n).
Proof.
  intros Hn Hab. revert n Hn. apply natlike_ind; [done|]. intros n Hn IH.
  rewrite !Z.pow_succ_r by done. by apply cong_mul.
Qed.

(** ** The value of limbs *)

Fixpoint value (l : list Z) : Z :=
  match l with [] => 0 | x :: l => x + 65536 * value l end.

Lemma value_app l k : value (l ++ k) = value l + 65536 ^ Z.of_nat (length l) * value k.
Proof.
  induction l as [|x l IH]; cbn [app value length]; [rewrite Z.mul_1_l; lia|].
  rewrite IH, Nat2Z.inj_succ, Z.pow_succ_r by lia. ring.
Qed.

Lemma value_insert l i x :
  (i < length l)%nat → value (<[i := x]> l) = value l + (x - at_limb l i) * 65536 ^ Z.of_nat i.
Proof.
  revert i. induction l as [|y l IH]; intros [|i] Hi; cbn in Hi; try lia.
  - cbn. lia.
  - change (<[S i := x]> (y :: l)) with (y :: <[i := x]> l). cbn [value]. rewrite IH by lia.
    change (at_limb (y :: l) (S i)) with (at_limb l i). rewrite Nat2Z.inj_succ, Z.pow_succ_r by lia. ring.
Qed.

Lemma value_add a b : length a = length b → value (A a b) = value a + value b.
Proof.
  unfold A. revert b. induction a as [|x a IH]; intros [|y b] Hl; cbn in *; try done.
  rewrite IH by lia. lia.
Qed.

Lemma value_sub a b : length a = length b → value (Z' a b) = value a - value b.
Proof.
  unfold Z'. revert b. induction a as [|x a IH]; intros [|y b] Hl; cbn in *; try done.
  rewrite IH by lia. lia.
Qed.

(** ** Carrying *)

(** The first fifteen rounds: [x] is the limb being carried out of. *)
Fixpoint chain (x : Z) (rest : list Z) : list Z * Z :=
  match rest with
  | [] => ([], x)
  | y :: rest => let '(l, last) := chain (y + x / 65536) rest in (x mod 65536 :: l, last)
  end.

Lemma chain_length x rest : length (chain x rest).1 = length rest.
Proof.
  revert x. induction rest as [|y rest IH]; intros x; [done|]. cbn [chain].
  specialize (IH (y + x / 65536)). destruct (chain (y + x / 65536) rest) as [l last].
  cbn [fst length] in *. lia.
Qed.

Lemma chain_value x rest :
  value (chain x rest).1 + 65536 ^ Z.of_nat (length rest) * (chain x rest).2 = value (x :: rest).
Proof.
  revert x. induction rest as [|y rest IH]; intros x; cbn [chain].
  - cbn [fst snd value length]. rewrite Z.mul_1_l. lia.
  - specialize (IH (y + x / 65536)). destruct (chain (y + x / 65536) rest) as [l last].
    cbn [fst snd value length] in *. rewrite Nat2Z.inj_succ, Z.pow_succ_r by lia.
    pose proof (Z.div_mod x 65536 ltac:(lia)). lia.
Qed.

Lemma chain_limbs x rest : Forall (λ y, 0 ≤ y < 65536) (chain x rest).1.
Proof.
  revert x. induction rest as [|y rest IH]; intros x; cbn [chain]; [by apply Forall_nil|].
  specialize (IH (y + x / 65536)). destruct (chain (y + x / 65536) rest) as [l last].
  cbn [fst] in *. apply Forall_cons. split; [apply Z.mod_pos_bound; lia|done].
Qed.

Lemma at_limb_middle pre x rest : at_limb (pre ++ x :: rest) (length pre) = x.
Proof. unfold at_limb. by rewrite list_lookup_middle. Qed.

Lemma insert_middle pre x y (rest : list Z) : <[length pre := y]> (pre ++ x :: rest) = pre ++ y :: rest.
Proof.
  rewrite insert_app_r_alt by lia. by rewrite Nat.sub_diag.
Qed.

Lemma shift_carry x : Z.shiftr (x + Z.shiftl 1 16) 16 = x / 65536 + 1.
Proof.
  rewrite Z.shiftr_div_pow2 by lia. change (Z.shiftl 1 16) with (1 * 65536). change (2 ^ 16) with 65536.
  by rewrite Z.div_add by lia.
Qed.

Lemma car_step_low pre x y rest :
  (length pre < 15)%nat →
  car_step (pre ++ x :: y :: rest) (length pre)
  = pre ++ x mod 65536 :: (y + x / 65536) :: rest.
Proof.
  intros Hi. unfold car_step. rewrite at_limb_middle, insert_middle, at_limb_middle, shift_carry.
  destruct (Nat.ltb_spec (length pre) 15); [|lia]. destruct (Nat.eqb_spec (length pre) 15); [lia|].
  set (x' := x + Z.shiftl 1 16).
  assert (Hs : S (length pre) = length (pre ++ [x'])) by (rewrite length_app; cbn; lia).
  rewrite Hs. replace (pre ++ x' :: y :: rest) with ((pre ++ [x']) ++ y :: rest) by by rewrite <- app_assoc.
  rewrite at_limb_middle, insert_middle, <- app_assoc. cbn [app].
  rewrite at_limb_middle, insert_middle. f_equal.
  rewrite Z.shiftl_mul_pow2 by lia. change (2 ^ 16) with 65536. unfold x'. change (Z.shiftl 1 16) with 65536.
  f_equal; [pose proof (Z.div_mod x 65536 ltac:(lia)); lia|]. f_equal. lia.
Qed.

Lemma car_low pre x rest :
  (length pre + length rest = 15)%nat →
  fold_left car_step (seq (length pre) (length rest)) (pre ++ x :: rest)
  = pre ++ (chain x rest).1 ++ [(chain x rest).2].
Proof.
  revert pre x. induction rest as [|y rest IH]; intros pre x Hl; [done|]. cbn [length] in Hl.
  cbn [length seq fold_left]. rewrite car_step_low by lia.
  specialize (IH (pre ++ [x mod 65536]) (y + x / 65536) ltac:(rewrite length_app; cbn; lia)).
  rewrite length_app, Nat.add_1_r in IH. cbn [chain].
  rewrite <- app_assoc in IH. cbn [app] in IH. rewrite IH. clear IH.
  destruct (chain (y + x / 65536) rest) as [l last]. cbn [fst snd]. by rewrite <- app_assoc.
Qed.

Lemma car_step_top y l last :
  length l = 14%nat →
  car_step (y :: l ++ [last]) 15 = (y + 38 * (last / 65536)) :: l ++ [last mod 65536].
Proof.
  intros Hl.
  assert (Hat : ∀ u z, at_limb (u :: l ++ [z]) 15 = z).
  { intros u z. change (at_limb (u :: l ++ [z]) 15) with (at_limb (l ++ [z]) 14).
    rewrite <- Hl. apply at_limb_middle. }
  assert (Hin : ∀ u z z', <[15%nat := z']> (u :: l ++ [z]) = u :: l ++ [z']).
  { intros u z z'. change (<[15%nat := z']> (u :: l ++ [z])) with (u :: <[14%nat := z']> (l ++ [z])).
    rewrite <- Hl. by rewrite insert_middle. }
  unfold car_step. rewrite Hat, Hin, Hat, shift_carry.
  change (if (15 <? 15)%nat then 16%nat else 0%nat) with 0%nat. change (15 =? 15)%nat with true.
  set (last' := last + Z.shiftl 1 16).
  change (at_limb (y :: l ++ [last']) 0) with y.
  set (y' := y + _). change (<[0%nat := y']> (y :: l ++ [last'])) with (y' :: l ++ [last']).
  rewrite Hat, Hin. unfold y', last'. rewrite !Z.shiftl_mul_pow2 by lia.
  change (2 ^ 16) with 65536. change (Z.shiftl 1 16) with 65536.
  f_equal; [lia|]. do 2 f_equal. pose proof (Z.div_mod last 65536 ltac:(lia)). lia.
Qed.

(** The whole function: the carry out of the top limb returns to the bottom one
    with the weight 38. *)
Lemma car25519_chain x rest :
  length rest = 15%nat →
  ∃ y l last, chain x rest = (y :: l, last) ∧ length l = 14%nat ∧
    car25519 (x :: rest) = (y + 38 * (last / 65536)) :: l ++ [last mod 65536].
Proof.
  intros Hl. unfold car25519. change (seq 0 16) with (seq 0 15 ++ [15%nat]). rewrite fold_left_app.
  assert (fold_left car_step (seq 0 15) (x :: rest) = (chain x rest).1 ++ [(chain x rest).2]) as ->.
  { pose proof (car_low [] x rest ltac:(cbn; lia)) as H. by rewrite Hl in H. }
  pose proof (chain_length x rest) as Hc. destruct (chain x rest) as [[|y l] last]; cbn [fst snd] in *.
  { cbn in Hc. lia. }
  cbn [length] in Hc. exists y, l, last. split_and!; [done|lia|]. cbn [fold_left app].
  apply car_step_top. lia.
Qed.

Lemma pow256_cong : cong (65536 ^ 16) 38.
Proof. exists 2. reflexivity. Qed.

Lemma list_16 (o : list Z) : length o = 16%nat → ∃ x rest, o = x :: rest ∧ length rest = 15%nat.
Proof. intros H. destruct o as [|x rest]; [done|]. exists x, rest. split; [done|]. cbn in H. lia. Qed.

Lemma car25519_value o :
  length o = 16%nat → length (car25519 o) = 16%nat ∧ cong (value (car25519 o)) (value o).
Proof.
  intros (x & rest & -> & Hl)%list_16.
  destruct (car25519_chain x rest Hl) as (y & l & last & Hc & Hll & ->).
  pose proof (chain_value x rest) as Hv. rewrite Hc in Hv. cbn [fst snd] in Hv.
  split; [cbn [length]; rewrite length_app; cbn; lia|].
  rewrite <- Hv, Hl. cbn [value]. rewrite value_app, Hll. cbn [value].
  exists (- 2 * (last / 65536)).
  change (65536 ^ Z.of_nat 15) with (65536 * 65536 ^ Z.of_nat 14). set (w := 65536 ^ Z.of_nat 14).
  assert (H38 : w * 65536 * 65536 = 38 + 2 * P) by reflexivity.
  pose proof (Z.div_mod last 65536 ltac:(lia)) as Hd.
  replace (65536 * w * last) with (w * 65536 * 65536 * (last / 65536) + 65536 * w * (last mod 65536))
    by (rewrite Hd at 3; ring).
  rewrite H38. ring.
Qed.

(** ** Bounds *)

Definition below (b : Z) (x : Z) : Prop := - b ≤ x ≤ b.
Definition limb16 (x : Z) : Prop := 0 ≤ x < 65536.

Lemma chain_last_cons x y rest : (chain x (y :: rest)).2 = (chain (y + x / 65536) rest).2.
Proof. cbn [chain]. by destruct (chain (y + x / 65536) rest). Qed.

Lemma chain_big x rest :
  below (2 ^ 62) x → Forall (below (2 ^ 61)) rest → below (2 ^ 62) (chain x rest).2.
Proof.
  unfold below. change (2 ^ 62) with 4611686018427387904. change (2 ^ 61) with 2305843009213693952.
  intros Hx Hr. revert x Hx. induction Hr as [|y rest Hy Hr IH]; intros x Hx; [done|].
  rewrite chain_last_cons. apply IH. zsolve.
Qed.

Lemma chain_small x rest :
  -65536 ≤ x < 131072 → Forall limb16 rest → -65536 ≤ (chain x rest).2 < 131072.
Proof.
  unfold limb16. intros Hx Hr. revert x Hx. induction Hr as [|y rest Hy Hr IH]; intros x Hx; [done|].
  rewrite chain_last_cons. apply IH. zsolve.
Qed.

(** What two carry passes leave: all limbs but the lowest of sixteen bits. *)
Definition reduced (o : list Z) : Prop :=
  ∃ x rest, o = x :: rest ∧ length rest = 15%nat ∧ -38 ≤ x < 65574 ∧ Forall limb16 rest.

Lemma reduced_length o : reduced o → length o = 16%nat.
Proof. intros (x & rest & -> & Hl & _). cbn. lia. Qed.

Lemma car_limbs x rest :
  length rest = 15%nat →
  ∃ y rest', car25519 (x :: rest) = (y + 38 * ((chain x rest).2 / 65536)) :: rest' ∧
    length rest' = 15%nat ∧ limb16 y ∧ Forall limb16 rest'.
Proof.
  intros Hl. destruct (car25519_chain x rest Hl) as (y & l & last & Hc & Hll & ->).
  pose proof (chain_limbs x rest) as Hf. rewrite Hc in *. cbn [fst snd] in *.
  apply Forall_cons in Hf as [Hy Hf].
  exists y, (l ++ [last mod 65536]). split; [done|]. split; [rewrite length_app; cbn; lia|].
  split; [exact Hy|].
  apply Forall_app. split; [done|]. apply Forall_singleton. apply Z.mod_pos_bound. lia.
Qed.

Lemma car_first o :
  length o = 16%nat → Forall (below (2 ^ 61)) o →
  ∃ x rest, car25519 o = x :: rest ∧ length rest = 15%nat ∧ below (2 ^ 53) x ∧ Forall limb16 rest.
Proof.
  intros (x & rest & -> & Hl)%list_16 Hb. apply Forall_cons in Hb as [Hx Hr].
  destruct (car_limbs x rest Hl) as (y & rest' & -> & Hl' & Hy & Hr').
  exists (y + 38 * ((chain x rest).2 / 65536)), rest'. split; [done|]. split; [done|]. split; [|done].
  assert (Hlast : below (2 ^ 62) (chain x rest).2).
  { apply chain_big; [|done]. unfold below in *. change (2 ^ 62) with (2 * 2 ^ 61). lia. }
  unfold below, limb16 in *. change (2 ^ 62) with 4611686018427387904 in Hlast.
  change (2 ^ 53) with 9007199254740992. zsolve.
Qed.

Lemma car_second x rest :
  length rest = 15%nat → below (2 ^ 53) x → Forall limb16 rest → reduced (car25519 (x :: rest)).
Proof.
  intros Hl Hx Hr. destruct (car_limbs x rest Hl) as (y & rest' & -> & Hl' & Hy & Hr').
  eexists _, rest'. split; [done|]. split; [done|]. split; [|done].
  assert (Hlast : -65536 ≤ (chain x rest).2 < 131072).
  { destruct rest as [|y1 [|y2 [|y3 rest]]]; try (cbn in Hl; lia).
    rewrite !Forall_cons in Hr. destruct Hr as (H1 & H2 & H3 & Hr).
    rewrite !chain_last_cons. apply chain_small; [|done].
    unfold below, limb16 in *. change (2 ^ 53) with 9007199254740992 in Hx. zsolve. }
  unfold limb16 in Hy. zsolve.
Qed.

(** ** Multiplication *)

Lemma length_add_row t k ai b : length (add_row t k ai b) = length t.
Proof.
  revert t k. induction b as [|bj b IH]; intros t k; cbn [add_row]; [done|]. by rewrite IH, length_insert.
Qed.

Lemma add_row_value t k ai b :
  (k + length b ≤ length t)%nat →
  value (add_row t k ai b) = value t + ai * value b * 65536 ^ Z.of_nat k.
Proof.
  revert t k. induction b as [|bj b IH]; intros t k Hl; cbn [add_row value length] in *; [lia|].
  rewrite IH by (rewrite length_insert; lia). rewrite value_insert by lia.
  rewrite Nat2Z.inj_succ, Z.pow_succ_r by lia. ring.
Qed.

Lemma add_rows_value t i a b :
  (i + length a + length b ≤ S (length t))%nat →
  value (add_rows t i a b) = value t + value a * value b * 65536 ^ Z.of_nat i
  ∧ length (add_rows t i a b) = length t.
Proof.
  revert t i. induction a as [|ai a IH]; intros t i Hl; cbn [add_rows value length] in *.
  { split; [ring|done]. }
  destruct (IH (add_row t i ai b) (S i)) as [Hv Hlen]; [rewrite length_add_row; lia|].
  rewrite Hv, Hlen, length_add_row. split; [|done].
  rewrite add_row_value by lia. rewrite Nat2Z.inj_succ, Z.pow_succ_r by lia. ring.
Qed.

Lemma value_zeros n : value (replicate n 0) = 0.
Proof. induction n as [|n IH]; cbn; [done|]. rewrite IH. lia. Qed.

Lemma product_value a b :
  length a = 16%nat → length b = 16%nat →
  value (product a b) = value a * value b ∧ length (product a b) = 31%nat.
Proof.
  intros Ha Hb. unfold product.
  destruct (add_rows_value (replicate 31 0) 0 a b) as [Hv Hl]; [rewrite length_replicate; lia|].
  rewrite Hv, Hl, value_zeros, length_replicate. split; [|done].
  change (65536 ^ Z.of_nat 0) with 1. lia.
Qed.

(** Bounds of a row: every limb of the product receives one term from it. *)
Lemma add_row_limb t k ai b y i :
  Forall (below y) b → 0 ≤ y →
  Z.abs (at_limb (add_row t k ai b) i) ≤ Z.abs (at_limb t i) + Z.abs ai * y
  ∧ ((i < k)%nat → at_limb (add_row t k ai b) i = at_limb t i).
Proof.
  intros Hb Hy. revert t k. induction Hb as [|bj b Hbj Hb IH]; intros t k; cbn [add_row].
  { split; [nia|done]. }
  destruct (IH (<[k := at_limb t k + ai * bj]> t) (S k)) as [IH1 IH2].
  assert (Hne : i ≠ k → at_limb (<[k := at_limb t k + ai * bj]> t) i = at_limb t i).
  { intros Hne. unfold at_limb. by rewrite list_lookup_insert_ne. }
  split.
  - destruct (decide (i = k)) as [->|Hik].
    + rewrite IH2 by lia. destruct (decide (k < length t)%nat) as [Hk|Hk].
      * unfold at_limb at 1. rewrite list_lookup_insert_eq by done. cbn [default]. unfold id.
        assert (Z.abs (ai * bj) ≤ Z.abs ai * y) by (rewrite Z.abs_mul; unfold below in Hbj; nia). lia.
      * rewrite list_insert_ge by lia. nia.
    + by rewrite Hne in IH1.
  - intros Hi. rewrite IH2 by lia. apply Hne. lia.
Qed.

Lemma add_rows_limb t j a b x y i :
  Forall (below x) a → Forall (below y) b → 0 ≤ x → 0 ≤ y →
  Z.abs (at_limb (add_rows t j a b) i) ≤ Z.abs (at_limb t i) + Z.of_nat (length a) * (x * y).
Proof.
  intros Ha Hb Hx Hy. revert t j. induction Ha as [|ai a Hai Ha IH]; intros t j; cbn [add_rows length]; [lia|].
  specialize (IH (add_row t j ai b) (S j)). destruct (add_row_limb t j ai b y i Hb Hy) as [Hrow _].
  assert (Z.abs ai * y ≤ x * y) by (unfold below in Hai; nia). lia.
Qed.

(** With limbs below 2^20, no limb of the product or of its folding reaches 2^61. *)
Lemma M_bounds a b :
  length a = 16%nat → length b = 16%nat →
  Forall (below (2 ^ 20)) a → Forall (below (2 ^ 20)) b →
  (∀ i, below (2 ^ 44) (at_limb (product a b) i)) ∧ Forall (below (2 ^ 61)) (fold_high (product a b)).
Proof.
  intros La Lb Ha Hb.
  assert (Hp : ∀ i, below (2 ^ 44) (at_limb (product a b) i)).
  { intros i. unfold below, product.
    pose proof (add_rows_limb (replicate 31 0) 0 a b (2 ^ 20) (2 ^ 20) i Ha Hb ltac:(lia) ltac:(lia)) as H.
    rewrite La in H. change (Z.of_nat 16 * (2 ^ 20 * 2 ^ 20)) with (2 ^ 44) in H.
    assert (at_limb (replicate 31 0) i = 0) as Hz.
    { unfold at_limb. destruct (replicate 31 0 !! i) as [z|] eqn:E; [|done].
      by apply lookup_replicate in E as [-> _]. }
    rewrite Hz in H. lia. }
  split; [done|]. apply Forall_fmap, Forall_forall. intros i _. unfold compose, below.
  pose proof (Hp i). pose proof (Hp (i + 16)%nat). unfold below in *.
  change (2 ^ 44) with 17592186044416 in *. change (2 ^ 61) with 2305843009213693952.
  destruct (i <? 15)%nat; lia.
Qed.

Lemma value_split16 (t : list Z) :
  length t = 31%nat → value t = value (take 16 t) + 65536 ^ 16 * value (drop 16 t).
Proof.
  intros Hl. rewrite <- (take_drop 16 t) at 1. rewrite value_app.
  by rewrite length_take, Hl.
Qed.

Lemma fold_high_value t :
  length t = 31%nat → length (fold_high t) = 16%nat ∧ cong (value (fold_high t)) (value t).
Proof.
  intros Hl. split; [done|].
  assert (Hf : fold_high t = A (take 16 t) ((λ x, 38 * x) <$> (drop 16 t ++ [0]))).
  { do 31 (destruct t as [|? t]; [done|]). destruct t; [|done]. cbn -[Z.mul]. repeat f_equal; lia. }
  rewrite Hf, value_add by (rewrite length_fmap, length_app, length_take, length_drop; cbn [length]; lia).
  rewrite (value_split16 t) by done.
  assert (Hm : ∀ l, value ((λ x, 38 * x) <$> l) = 38 * value l).
  { induction l as [|x l IH]; cbn -[Z.mul]; [done|]. rewrite IH. lia. }
  rewrite Hm, value_app. replace (value [0]) with 0 by reflexivity. rewrite Z.mul_0_r, Z.add_0_r.
  by rewrite pow256_cong.
Qed.

(** Small enough to be multiplied. *)
Definition small (o : list Z) : Prop := length o = 16%nat ∧ Forall (below (2 ^ 20)) o.

Lemma M_spec a b :
  small a → small b → reduced (M a b) ∧ cong (value (M a b)) (value a * value b).
Proof.
  intros [La Ha] [Lb Hb]. unfold M. destruct (product_value a b La Lb) as [Hv Hl].
  destruct (M_bounds a b La Lb Ha Hb) as [_ Hf]. destruct (fold_high_value _ Hl) as [Lf Hc].
  destruct (car25519_value _ Lf) as [L1 C1]. destruct (car25519_value _ L1) as [L2 C2].
  destruct (car_first _ Lf Hf) as (x & rest & E & Lr & Hx & Hr).
  split; [rewrite E; by apply car_second|]. by rewrite C2, C1, Hc, Hv.
Qed.

Lemma reduced_small o : reduced o → small o.
Proof.
  intros (x & rest & -> & Hl & Hx & Hr). split; [cbn; lia|]. apply Forall_cons. unfold below.
  change (2 ^ 20) with 1048576. split; [lia|].
  eapply Forall_impl; [exact Hr|]. unfold limb16. intros; lia.
Qed.

Lemma zip_bound (f : Z → Z → Z) bx by' bz (a b : list Z) :
  (∀ x y, below bx x → below by' y → below bz (f x y)) →
  Forall (below bx) a → Forall (below by') b → Forall (below bz) (zip_with f a b).
Proof.
  intros Hf Ha. revert b. induction Ha as [|x a Hx Ha IH]; intros b Hb; [by apply Forall_nil|].
  destruct Hb as [|y b Hy Hb]; [by apply Forall_nil|]. cbn. apply Forall_cons. auto.
Qed.

(** Sums and differences of reduced elements are small. *)
Lemma reduced_bounds o : reduced o → Forall (below (2 ^ 17)) o.
Proof.
  intros (x & rest & -> & Hl & Hx & Hr). apply Forall_cons. unfold below.
  change (2 ^ 17) with 131072. split; [lia|].
  eapply Forall_impl; [exact Hr|]. unfold limb16. intros; lia.
Qed.

Lemma A_spec a b : reduced a → reduced b → small (A a b) ∧ value (A a b) = value a + value b.
Proof.
  intros Ha Hb. pose proof (reduced_length a Ha) as La. pose proof (reduced_length b Hb) as Lb.
  split; [|apply value_add; lia]. split; [unfold A; rewrite length_zip_with; lia|].
  eapply zip_bound; [|by apply reduced_bounds|by apply reduced_bounds].
  unfold below. change (2 ^ 17) with 131072. change (2 ^ 20) with 1048576. intros; lia.
Qed.

Lemma Z_spec a b : reduced a → reduced b → small (Z' a b) ∧ value (Z' a b) = value a - value b.
Proof.
  intros Ha Hb. pose proof (reduced_length a Ha) as La. pose proof (reduced_length b Hb) as Lb.
  split; [|apply value_sub; lia]. split; [unfold Z'; rewrite length_zip_with; lia|].
  eapply zip_bound; [|by apply reduced_bounds|by apply reduced_bounds].
  unfold below. change (2 ^ 17) with 131072. change (2 ^ 20) with 1048576. intros; lia.
Qed.

(** ** The X25519 function

    Composes the field operations of X25519Spec: swaps, inversion, encoding, and
    the ladder against the description of RFC 7748 over the integers modulo
    2^255 - 19. *)

(** ** Conditional swap *)

Lemma sel25519_spec p q b :
  length p = length q → b = 0 ∨ b = 1 →
  sel25519 p q b = if b =? 1 then (q, p) else (p, q).
Proof.
  intros Hl Hb. unfold sel25519.
  assert (Hgen : ∀ c, (c = 0 ∨ c = -1) →
    zip_with Z.lxor p (zip_with (λ x y, Z.land c (Z.lxor x y)) p q) = (if c =? 0 then p else q) ∧
    zip_with Z.lxor q (zip_with (λ x y, Z.land c (Z.lxor x y)) p q) = (if c =? 0 then q else p)).
  { intros c Hc. revert q Hl. induction p as [|x p IH]; intros [|y q] Hl; try done.
    - by destruct Hc as [-> | ->].
    - cbn [zip_with length] in *. destruct (IH q ltac:(lia)) as [-> ->].
      destruct Hc as [-> | ->]; cbn [Z.eqb].
      + rewrite Z.land_0_l, !Z.lxor_0_r. done.
      + rewrite Z.land_m1_l. split; f_equal.
        * by rewrite <- Z.lxor_assoc, Z.lxor_nilpotent, Z.lxor_0_l.
        * by rewrite (Z.lxor_comm x y), <- Z.lxor_assoc, Z.lxor_nilpotent, Z.lxor_0_l. }
  destruct Hb as [-> | ->]; cbn [Z.eqb].
  - destruct (Hgen 0 (or_introl eq_refl)) as [E1 E2]. change (Z.lnot (0 - 1)) with 0. by rewrite E1, E2.
  - destruct (Hgen (-1) (or_intror eq_refl)) as [E1 E2]. change (Z.lnot (1 - 1)) with (-1).
    by rewrite E1, E2.
Qed.

(** ** Inversion *)

(** The exponent reached after the remaining rounds. *)
Fixpoint exponent (rounds : nat) (e : Z) : Z :=
  match rounds with
  | O => e
  | S a => exponent a (if (a =? 2)%nat || (a =? 4)%nat then 2 * e else 2 * e + 1)
  end.

Lemma exponent_value : exponent 254 1 = P - 2.
Proof. vm_compute. reflexivity. Qed.

Lemma inv_loop_spec rounds c i e :
  reduced c → reduced i → 0 ≤ e → cong (value c) (value i ^ e) →
  reduced (inv_loop rounds c i) ∧
  cong (value (inv_loop rounds c i)) (value i ^ exponent rounds e).
Proof.
  revert c e. induction rounds as [|a IH]; intros c e Hc Hi He Hv; cbn [inv_loop exponent]; [done|].
  destruct (M_spec c c (reduced_small c Hc) (reduced_small c Hc)) as [Hr Hs]. unfold S'.
  assert (Hsq : cong (value (M c c)) (value i ^ (2 * e))).
  { rewrite Hs, Hv. replace (2 * e) with (e + e) by lia. by rewrite Z.pow_add_r. }
  destruct ((a =? 2)%nat || (a =? 4)%nat).
  - apply IH; [done|done|lia|done].
  - destruct (M_spec (M c c) i (reduced_small _ Hr) (reduced_small i Hi)) as [Hr' Hs'].
    apply IH; [done|done|lia|]. rewrite Hs', Hsq, Z.pow_add_r by lia. by rewrite Z.pow_1_r.
Qed.

Lemma inv25519_spec i :
  reduced i → reduced (inv25519 i) ∧ cong (value (inv25519 i)) (value i ^ (P - 2)).
Proof.
  intros Hi. rewrite <- exponent_value. unfold inv25519. apply inv_loop_spec; [done|done|lia|].
  by rewrite Z.pow_1_r.
Qed.

(** ** Encoding *)

Fixpoint le_value (bytes : list Z) : Z :=
  match bytes with [] => 0 | b :: bytes => b + 256 * le_value bytes end.

(** The [n] bytes of an integer, least significant first. *)
Fixpoint le_bytes (n : nat) (v : Z) : list Z :=
  match n with O => [] | S n => v mod 256 :: le_bytes n (v / 256) end.

Lemma limbs_bytes l :
  Forall limb16 l →
  concat ((λ x, [u8 x; u8 (Z.shiftr x 8)]) <$> l) = le_bytes (2 * length l) (value l).
Proof.
  induction 1 as [|x l Hx Hl IH]; [done|]. cbn [fmap list_fmap concat]. rewrite IH. clear IH.
  unfold limb16 in Hx. replace (2 * length (x :: l))%nat with (S (S (2 * length l))) by (cbn; lia).
  cbn [le_bytes app value]. rewrite Z.shiftr_div_pow2 by lia. change (2 ^ 8) with 256. unfold u8.
  f_equal; [zsolve|]. f_equal; [zsolve|]. f_equal. rewrite Z.div_div by lia. zsolve.
Qed.

Lemma value_bounds l : Forall limb16 l → 0 ≤ value l < 65536 ^ Z.of_nat (length l).
Proof.
  induction 1 as [|x l Hx Hl IH]; cbn [value length]; [lia|].
  rewrite Nat2Z.inj_succ, Z.pow_succ_r by lia. unfold limb16 in Hx. lia.
Qed.

(** A borrow chain: the limbs of the difference, the last one signed. *)
Lemma sub_borrow_spec l borrow :
  (0 < length l)%nat → Forall limb16 l → 0 ≤ borrow ≤ 1 →
  ∃ front last, sub_borrow l borrow = front ++ [last] ∧ length front = (length l - 1)%nat ∧
    Forall limb16 front ∧ -65536 ≤ last < 65536 ∧
    value front + 65536 ^ Z.of_nat (length l - 1) * last
    = value l - borrow - (65536 ^ Z.of_nat (length l - 1) * 0x8000 - 1).
Proof.
  intros Hpos Hl. revert borrow. induction Hl as [|x l Hx Hl IH]; intros borrow Hb; [cbn in Hpos; lia|].
  destruct l as [|y l].
  - exists [], (x - 0x7fff - borrow). unfold limb16 in Hx. cbn -[Z.mul Z.pow].
    split_and!; [done|done|by apply Forall_nil|lia|lia|]. change (65536 ^ 0) with 1. lia.
  - set (m := x - 65535 - borrow).
    change (sub_borrow (x :: y :: l) borrow)
      with (Z.land m 0xffff :: sub_borrow (y :: l) (Z.land (Z.shiftr m 16) 1)).
    assert (Hm : -65536 ≤ m ≤ 0) by (unfold m, limb16 in *; lia).
    assert (Hbr : Z.land (Z.shiftr m 16) 1 = - (m / 65536)).
    { rewrite Z.shiftr_div_pow2 by lia. change (2 ^ 16) with 65536.
      rewrite (land_low_mask _ 1) by (done || lia). change (2 ^ 1) with 2. zsolve. }
    assert (Hlow : Z.land m 0xffff = m mod 65536) by (rewrite (land_low_mask _ 16) by (done || lia); done).
    destruct (IH ltac:(cbn; lia) (- (m / 65536))) as (front & last & E & Lf & Hf & Hlast & Hv); [zsolve|].
    rewrite Hbr, Hlow, E. exists (m mod 65536 :: front), last. cbn [length] in *.
    replace (S (length l) - 1)%nat with (length l) in * by lia.
    replace (S (S (length l)) - 1)%nat with (S (length l)) by lia.
    split_and!; [done|cbn; lia| |lia|lia|].
    + apply Forall_cons. split; [apply Z.mod_pos_bound; lia|done].
    + cbn [value]. rewrite (Nat2Z.inj_succ (length l)), Z.pow_succ_r by lia.
      set (w := 65536 ^ Z.of_nat (length l)) in *.
      pose proof (Z.div_mod m 65536 ltac:(lia)) as Hd. cbn [value] in Hv. unfold m in *. lia.
Qed.

Definition canonical (t : list Z) : Prop := length t = 16%nat ∧ Forall limb16 t.

Lemma canonical_bounds t : canonical t → 0 ≤ value t < 65536 ^ 16.
Proof. intros [Hl Ht]. pose proof (value_bounds t Ht) as H. by rewrite Hl in H. Qed.

Lemma canonical_reduced t : canonical t → reduced t.
Proof.
  intros [(x & rest & -> & Hl)%list_16 Ht]. apply Forall_cons in Ht as [Hx Ht].
  exists x, rest. unfold limb16 in Hx. split; [done|]. split; [done|]. split; [lia|done].
Qed.

(** One more carry pass makes a reduced element canonical. *)
Lemma car_canonical o : reduced o → canonical (car25519 o) ∧ cong (value (car25519 o)) (value o).
Proof.
  intros Ho. destruct (car25519_value o (reduced_length o Ho)) as [Hlen Hc].
  split; [|done]. split; [done|].
  destruct Ho as (x & rest & -> & Hl & Hx & Hr).
  destruct (car25519_chain x rest Hl) as (y & l & last & Ech & Ll & Ecar). rewrite Ecar.
  pose proof (chain_limbs x rest) as Hf. pose proof (chain_value x rest) as Hv.
  rewrite Ech in Hf, Hv. cbn [fst snd] in Hf, Hv. rewrite Hl in Hv.
  apply Forall_cons in Hf as [Hy Hf].
  pose proof (value_bounds rest Hr) as Hrb. rewrite Hl in Hrb.
  pose proof (value_bounds l Hf) as Hlb. rewrite Ll in Hlb.
  assert (Htop : limb16 (last mod 65536)) by (apply Z.mod_pos_bound; lia).
  pose proof (Z.div_mod last 65536 ltac:(lia)) as Hd.
  apply Forall_cons. split; [|apply Forall_app; split; [done|by apply Forall_singleton]].
  cbn [value] in Hv. change (65536 ^ Z.of_nat 15) with (65536 * 65536 ^ Z.of_nat 14) in *.
  set (w := 65536 ^ Z.of_nat 14) in *.
  assert (Hw : w = 26959946667150639794667015087019630673637144422540572481103610249216) by reflexivity.
  unfold limb16 in *. set (k := last / 65536) in *. set (m := last mod 65536) in *.
  rewrite Hd in Hv. clearbody w k m. subst w.
  assert (-1 ≤ k ≤ 1) by lia. assert (k = -1 ∨ k = 0 ∨ k = 1) as [-> | [-> | ->]] by lia; lia.
Qed.

Lemma sub_prime_spec t :
  canonical t →
  ∃ front last, sub_prime t = front ++ [last] ∧ length front = 15%nat ∧
    Forall limb16 front ∧ -65536 ≤ last < 65536 ∧
    value front + 65536 ^ 15 * last = value t - P.
Proof.
  intros [(x & rest & -> & Hl)%list_16 Ht]. apply Forall_cons in Ht as [Hx Hr].
  cbn [sub_prime]. set (m := x - 0xffed).
  assert (Hm : -65536 < m < 65536) by (unfold m, limb16 in *; lia).
  assert (Hbr : Z.land (Z.shiftr m 16) 1 = - (m / 65536)).
  { rewrite Z.shiftr_div_pow2 by lia. change (2 ^ 16) with 65536.
    rewrite (land_low_mask _ 1) by (done || lia). change (2 ^ 1) with 2. zsolve. }
  assert (Hlow : Z.land m 0xffff = m mod 65536) by (rewrite (land_low_mask _ 16) by (done || lia); done).
  destruct (sub_borrow_spec rest (- (m / 65536))) as (front & last & E & Lf & Hf & Hlast & Hv);
    [lia|done|zsolve|].
  rewrite Hl in *. change (15 - 1)%nat with 14%nat in *. rewrite Hbr, Hlow, E.
  exists (m mod 65536 :: front), last. split; [done|]. split; [cbn; lia|].
  split; [apply Forall_cons; split; [apply Z.mod_pos_bound; lia|done]|]. split; [done|].
  cbn [value]. change (65536 ^ 15) with (65536 * 65536 ^ 14). change (Z.of_nat 14) with 14 in *.
  set (w := 65536 ^ 14) in *.
  assert (HP : P = 65536 * (w * 0x8000) - 19) by reflexivity.
  pose proof (Z.div_mod m 65536 ltac:(lia)) as Hd. unfold m in *. lia.
Qed.

Lemma pack_round_spec t :
  canonical t →
  canonical (pack_round t) ∧ value (pack_round t) = if value t <? P then value t else value t - P.
Proof.
  intros Ht. pose proof Ht as [Lt Hf]. unfold pack_round.
  destruct (sub_prime_spec t Ht) as (front & last & E & Lf & Hff & Hlast & Hv). rewrite E.
  assert (at_limb (front ++ [last]) 15 = last) as -> by (rewrite <- Lf; apply at_limb_middle).
  pose proof (value_bounds front Hff) as Hb. rewrite Lf in Hb. change (Z.of_nat 15) with 15 in Hb.
  assert (Hc : Z.land (Z.shiftr last 16) 1 = if last <? 0 then 1 else 0).
  { rewrite Z.shiftr_div_pow2 by lia. change (2 ^ 16) with 65536.
    rewrite (land_low_mask _ 1) by (done || lia). change (2 ^ 1) with 2.
    destruct (Z.ltb_spec last 0); zsolve. }
  rewrite Hc, sel25519_spec;
    [|rewrite length_app, Lf; cbn; lia|destruct (last <? 0); [left|right]; reflexivity].
  remember (65536 ^ 15) as w eqn:Ew. assert (Hw : 0 < w) by (by rewrite Ew).
  destruct (Z.ltb_spec last 0) as [Hneg|Hpos].
  - change (1 - 1 =? 1) with false. cbn [fst]. destruct (Z.ltb_spec (value t) P); [done|nia].
  - change (1 - 0 =? 1) with true. cbn [fst]. destruct (Z.ltb_spec (value t) P); [nia|]. split.
    + split; [rewrite length_app, Lf; cbn; lia|]. apply Forall_app. split; [done|].
      apply Forall_singleton. unfold limb16. lia.
    + rewrite value_app, Lf. cbn [value]. change (Z.of_nat 15) with 15. rewrite <- Ew. lia.
Qed.

(** The packed bytes are the canonical encoding of the residue. *)
Lemma pack25519_spec n : reduced n → pack25519 n = le_bytes 32 (value n mod P).
Proof.
  intros Hn. unfold pack25519.
  destruct (car_canonical n Hn) as [H1 C1].
  destruct (car_canonical _ (canonical_reduced _ H1)) as [H2 C2].
  destruct (car_canonical _ (canonical_reduced _ H2)) as [H3 C3].
  set (t := car25519 (car25519 (car25519 n))) in *.
  assert (Ht : cong (value t) (value n)) by (by rewrite C3, C2, C1).
  pose proof (canonical_bounds t H3) as Hb.
  destruct (pack_round_spec t H3) as [H4 V4]. destruct (pack_round_spec _ H4) as [H5 V5].
  set (r := pack_round (pack_round t)) in *. destruct H5 as [Lr Fr].
  rewrite limbs_bytes, Lr by done. change (2 * 16)%nat with 32%nat. f_equal.
  assert (Hsmall : 65536 ^ 16 = 2 * P + 38) by reflexivity.
  assert (HP : 38 < P) by reflexivity.
  apply cong_small.
  - rewrite V5, V4. destruct (Z.ltb_spec (value t) P) as [|]; [destruct (Z.ltb_spec (value t) P)|
      destruct (Z.ltb_spec (value t - P) P)]; lia.
  - rewrite <- Ht. unfold cong. rewrite V5, V4.
    destruct (Z.ltb_spec (value t) P) as [|]; [destruct (Z.ltb_spec (value t) P)|
      destruct (Z.ltb_spec (value t - P) P)];
      [exists 0; lia|exists (-1); lia|exists (-1); lia|exists (-2); lia].
Qed.

(** ** Decoding *)

Lemma le_value_bounds l : Forall is_u8 l → 0 ≤ le_value l < 256 ^ Z.of_nat (length l).
Proof.
  induction 1 as [|x l Hx Hl IH]; cbn [le_value length]; [lia|].
  rewrite Nat2Z.inj_succ, Z.pow_succ_r by lia. unfold is_u8 in Hx. lia.
Qed.

(** Bit [i] of the integer is bit [i mod 8] of byte [i / 8]. *)
Lemma le_value_testbit l i :
  Forall is_u8 l → 0 ≤ i → Z.testbit (le_value l) i = Z.testbit (byte_at l (i / 8)) (i mod 8).
Proof.
  intros Hl. revert i. induction Hl as [|x l Hx Hl IH]; intros i Hi; cbn [le_value].
  - unfold byte_at. by rewrite lookup_nil, !Z.bits_0.
  - rewrite Z.add_comm, Z.mul_comm. change 256 with (2 ^ 8).
    rewrite <- lor_mul_pow2, Z.lor_spec by (done || lia).
    destruct (Z.lt_ge_cases i 8) as [Hlt|Hge].
    + rewrite Z.mul_pow2_bits_low by lia. rewrite (Z.div_small i 8), (Z.mod_small i 8) by lia. done.
    + rewrite (testbit_high x 8 i) by (done || lia). rewrite orb_false_r.
      rewrite Z.mul_pow2_bits by lia. rewrite IH by lia.
      replace (i - 8) with (i + (-1) * 8) by lia. rewrite Z.div_add, Z.mod_add by lia.
      f_equal. unfold byte_at.
      replace (Z.to_nat (i / 8)) with (S (Z.to_nat (i / 8 + -1))) by zsolve. done.
Qed.

(** The integer that RFC 7748 decodes from 32 scalar bytes. *)
Definition decode_scalar (scalar : list Z) : Z :=
  Z.lor (Z.land (le_value scalar) (2 ^ 255 - 8)) (2 ^ 254).

Lemma scalar_bit_testbit z pos :
  scalar_bit z pos = Z.b2z (Z.testbit (byte_at z (Z.of_nat pos / 8)) (Z.of_nat pos mod 8)).
Proof.
  unfold scalar_bit. rewrite (land_low_mask (Z.of_nat pos) 3) by (done || lia). change (2 ^ 3) with 8.
  rewrite Z.testbit_odd. set (v := Z.shiftr _ _).
  rewrite (land_low_mask v 1) by (done || lia). change (2 ^ 1) with 2. by rewrite Zmod_odd.
Qed.

Lemma byte_of_clamp scalar j :
  length scalar = 32%nat → 0 ≤ j < 32 →
  byte_at (clamp scalar) j
  = if j =? 0 then Z.land (byte_at scalar 0) 248
    else if j =? 31 then Z.lor (Z.land (byte_at scalar 31) 127) 64 else byte_at scalar j.
Proof.
  intros Hl Hj. unfold clamp. do 32 (destruct scalar as [|? scalar]; [done|]). destruct scalar; [|done].
  assert (Hcases : ∃ n, (n < 32)%nat ∧ j = Z.of_nat n) by (exists (Z.to_nat j); lia).
  destruct Hcases as (n & Hn & ->).
  do 32 (destruct n as [|n]; [reflexivity|]). lia.
Qed.

Lemma small_cases (P : Z → Prop) r :
  0 ≤ r < 8 → P 0 → P 1 → P 2 → P 3 → P 4 → P 5 → P 6 → P 7 → P r.
Proof.
  intros Hr ????????.
  assert (r = 0 ∨ r = 1 ∨ r = 2 ∨ r = 3 ∨ r = 4 ∨ r = 5 ∨ r = 6 ∨ r = 7)
    as [-> | [-> | [-> | [-> | [-> | [-> | [-> | ->]]]]]]] by lia; done.
Qed.

(** The ladder reads the bits of the decoded scalar. *)
Lemma clamp_bits scalar pos :
  length scalar = 32%nat → Forall is_u8 scalar → (pos < 255)%nat →
  scalar_bit (clamp scalar) pos = Z.b2z (Z.testbit (decode_scalar scalar) (Z.of_nat pos)).
Proof.
  intros Hl Hb Hpos. rewrite scalar_bit_testbit. f_equal. unfold decode_scalar.
  set (i := Z.of_nat pos). assert (Hi : 0 ≤ i < 255) by lia.
  rewrite Z.lor_spec, Z.land_spec, Z.pow2_bits_eqb by lia.
  change (2 ^ 255 - 8) with (Z.shiftl (Z.ones 252) 3). rewrite Z.shiftl_spec by lia.
  rewrite le_value_testbit by (done || lia). rewrite byte_of_clamp by (done || zsolve).
  pose proof (Z.div_mod i 8 ltac:(lia)) as Hd. pose proof (Z.mod_pos_bound i 8 ltac:(lia)) as Hr.
  set (j := i / 8) in *. set (r := i mod 8) in *. clearbody j r.
  destruct (Z.eqb_spec j 0) as [->|Hj0]; [|destruct (Z.eqb_spec j 31) as [->|Hj31]].
  - replace i with r by lia. clear Hd Hi. revert r Hr.
    intros r Hr. apply (small_cases (λ r, Z.testbit (Z.land (byte_at scalar 0) 248) r
      = Z.testbit (byte_at scalar 0) r && Z.testbit (Z.ones 252) (r - 3) || (254 =? r)) r Hr);
      rewrite Z.land_spec; cbn; by rewrite ?andb_true_r, ?andb_false_r, ?orb_false_r.
  - replace i with (248 + r) by lia. assert (Hr7 : r ≠ 7) by lia. clear Hd Hi. revert Hr7.
    apply (small_cases (λ r, r ≠ 7 → Z.testbit (Z.lor (Z.land (byte_at scalar 31) 127) 64) r
      = Z.testbit (byte_at scalar 31) r && Z.testbit (Z.ones 252) (248 + r - 3) || (254 =? 248 + r)) r Hr);
      intros Hr7; try done; rewrite Z.lor_spec, Z.land_spec;
      change (Z.testbit (Z.ones 252) _) with true; cbn; by rewrite ?andb_true_r, ?orb_false_r, ?orb_true_r.
  - assert (3 ≤ i - 3 + 3 < 254) by (unfold i in *; lia).
    rewrite Z.testbit_ones_nonneg by lia.
    destruct (Z.ltb_spec (i - 3) 252); [|lia]. destruct (Z.eqb_spec 254 i); [lia|].
    by rewrite andb_true_r, orb_false_r.
Qed.

(** The coordinate that RFC 7748 decodes from 32 bytes: the top bit is ignored. *)
Definition decode_u (base : list Z) : Z := le_value base mod 2 ^ 255.

(** The limbs of a byte string. *)
Fixpoint limbs_of (bytes : list Z) : list Z :=
  match bytes with
  | a :: b :: rest => Z.lor a (Z.shiftl b 8) :: limbs_of rest
  | _ => []
  end.

Lemma limbs_of_value bytes :
  Nat.Even (length bytes) → Forall is_u8 bytes →
  value (limbs_of bytes) = le_value bytes ∧ Forall limb16 (limbs_of bytes).
Proof.
  induction bytes as [|a|a b l IH] using pair_ind; intros He Hb.
  - split; [done|by apply Forall_nil].
  - destruct He as [n Hn]. cbn in Hn. lia.
  - rewrite !Forall_cons in Hb. destruct Hb as (Ha & Hbb & Hl).
    destruct IH as [IHv IHl]; [destruct He as [n Hn]; exists (n - 1)%nat; cbn in Hn; lia|done|].
    cbn [limbs_of]. rewrite Z.lor_comm, shiftl8_lor by done. cbn [value le_value].
    unfold is_u8 in *. split; [rewrite IHv; lia|]. apply Forall_cons. split; [unfold limb16; lia|done].
Qed.

Lemma unpack25519_spec base :
  length base = 32%nat → Forall is_u8 base →
  reduced (unpack25519 base) ∧ value (unpack25519 base) = decode_u base.
Proof.
  intros Hl Hb.
  assert (Hu : unpack25519 base = <[15%nat := Z.land (at_limb (limbs_of base) 15) 0x7fff]> (limbs_of base)
               ∧ length (limbs_of base) = 16%nat).
  { do 32 (destruct base as [|? base]; [done|]). destruct base; [|done]. split; reflexivity. }
  destruct Hu as [-> Hlen].
  destruct (limbs_of_value base) as [Hv Hf]; [exists 16%nat; lia|done|].
  set (o := limbs_of base) in *.
  assert (Hsplit : ∃ low top, o = low ++ [top] ∧ length low = 15%nat).
  { exists (take 15 o), (at_limb o 15). split; [|rewrite length_take; lia].
    rewrite <- (take_drop 15 o) at 1. f_equal. do 16 (destruct o as [|? o]; [done|]). by destruct o. }
  destruct Hsplit as (low & top & E & Ll). rewrite E in *.
  assert (Hat : at_limb (low ++ [top]) 15 = top) by (rewrite <- Ll; apply at_limb_middle).
  assert (Hin : ∀ z, <[15%nat := z]> (low ++ [top]) = low ++ [z])
    by (intros z; rewrite <- Ll; apply insert_middle).
  rewrite Hat, Hin. apply Forall_app in Hf as [Hf Ht]. rewrite Forall_singleton in Ht. unfold limb16 in Ht.
  rewrite (land_low_mask top 15) by (done || lia). change (2 ^ 15) with 32768.
  split.
  - apply canonical_reduced. split; [rewrite length_app, Ll; done|]. apply Forall_app. split; [done|].
    apply Forall_singleton. unfold limb16. zsolve.
  - rewrite value_app, Ll in Hv |- *. cbn [value] in *. unfold decode_u. rewrite <- Hv.
    pose proof (value_bounds low Hf) as Hlow. rewrite Ll in Hlow.
    change (65536 ^ Z.of_nat 15) with (2 ^ 240) in *. change (2 ^ 255) with (2 ^ 240 * 32768).
    remember (2 ^ 240) as w eqn:Ew. assert (0 < w) by (by rewrite Ew). clear Ew.
    rewrite !Z.mul_0_r, !Z.add_0_r.
    pose proof (Z.div_mod top 32768 ltac:(lia)) as Hd.
    pose proof (Z.mod_pos_bound top 32768 ltac:(lia)) as Hm.
    set (m := top mod 32768) in *. set (q := top / 32768) in *. clearbody m q.
    apply (Z.mod_unique_pos _ _ q); [nia|]. rewrite Hd. ring.
Qed.

(** ** The ladder of RFC 7748 *)

Record rladder := mk_rladder { rx2 : Z; rz2 : Z; rx3 : Z; rz3 : Z }.

Definition cswap (swap : Z) (s : rladder) : rladder :=
  if swap =? 1 then mk_rladder (rx3 s) (rz3 s) (rx2 s) (rz2 s) else s.

Definition rfc_step (x1 : Z) (s : rladder) : rladder :=
  let a := rx2 s + rz2 s in
  let aa := a ^ 2 in
  let b := rx2 s - rz2 s in
  let bb := b ^ 2 in
  let e := aa - bb in
  let c := rx3 s + rz3 s in
  let d := rx3 s - rz3 s in
  let da := d * a in
  let cb := c * b in
  mk_rladder (aa * bb mod P) (e * (aa + 121665 * e) mod P)
             ((da + cb) ^ 2 mod P) (x1 * (da - cb) ^ 2 mod P).

(** The bits of the scalar [k] from [rounds - 1] down to 0. *)
Fixpoint rfc_loop (rounds : nat) (k x1 swap : Z) (s : rladder) : rladder :=
  match rounds with
  | O => cswap swap s
  | S t =>
      let kt := Z.b2z (Z.testbit k (Z.of_nat t)) in
      rfc_loop t k x1 kt (rfc_step x1 (cswap (Z.lxor swap kt) s))
  end.

(** X25519(scalar, u) of RFC 7748: x2 * z2^(p - 2), encoded in 32 bytes. *)
Definition x25519_reference (scalar base : list Z) : list Z :=
  let u := decode_u base in
  let s := rfc_loop 255 (decode_scalar scalar) u 0 (mk_rladder 1 0 u 1) in
  le_bytes 32 (rx2 s * rz2 s ^ (P - 2) mod P).

(** The limbs of the implementation stand for the residues of the reference. *)
Definition stands (o : list Z) (v : Z) : Prop := reduced o ∧ cong (value o) v.

Definition refines (s : ladder) (r : rladder) : Prop :=
  stands (lx2 s) (rx2 r) ∧ stands (lz2 s) (rz2 r) ∧ stands (lx3 s) (rx3 r) ∧ stands (lz3 s) (rz3 r).

Lemma swap_refines s r swap :
  refines s r → swap = 0 ∨ swap = 1 → refines (ladder_swap s swap) (cswap swap r).
Proof.
  intros (H1 & H2 & H3 & H4) Hs. unfold ladder_swap, cswap.
  assert (∀ o v o' v', stands o v → stands o' v' → length o = length o') as Hlen.
  { intros o v o' v' [Ho _] [Ho' _]. by rewrite !reduced_length. }
  rewrite (sel25519_spec (lx2 s)), (sel25519_spec (lz2 s)) by (done || by eapply Hlen).
  destruct Hs as [-> | ->]; cbn [Z.eqb Pos.eqb]; [by split_and!|].
  unfold refines. cbn [lx2 lz2 lx3 lz3 rx2 rz2 rx3 rz3]. by split_and!.
Qed.

(** The two inputs of a multiplication stand for residues, or are sums of such. *)
Definition stands_small (o : list Z) (v : Z) : Prop := small o ∧ cong (value o) v.

Lemma stands_weaken o v : stands o v → stands_small o v.
Proof. intros [H1 H2]. split; [by apply reduced_small|done]. Qed.

Lemma M_stands a b va vb : stands_small a va → stands_small b vb → stands (M a b) (va * vb).
Proof. intros [Ha Ca] [Hb Cb]. destruct (M_spec a b Ha Hb) as [Hr Hc]. split; [done|]. by rewrite Hc, Ca, Cb. Qed.

Lemma A_stands a b va vb : stands a va → stands b vb → stands_small (A a b) (va + vb).
Proof. intros [Ha Ca] [Hb Cb]. destruct (A_spec a b Ha Hb) as [Hs Hv]. split; [done|]. by rewrite Hv, Ca, Cb. Qed.

Lemma Z_stands a b va vb : stands a va → stands b vb → stands_small (Z' a b) (va - vb).
Proof. intros [Ha Ca] [Hb Cb]. destruct (Z_spec a b Ha Hb) as [Hs Hv]. split; [done|]. by rewrite Hv, Ca, Cb. Qed.

Lemma a24_stands : stands_small a24 121665.
Proof.
  split; [|done]. split; [done|]. unfold a24, below. change (2 ^ 20) with 1048576. cbn [app replicate].
  repeat (apply Forall_cons; split; [lia|]). by apply Forall_nil.
Qed.

Lemma stands_mod o v : stands o v → stands o (v mod P).
Proof. intros [H1 H2]. split; [done|]. by rewrite cong_mod. Qed.

Lemma stands_eq o v v' : stands o v → v = v' → stands o v'.
Proof. by intros ? <-. Qed.

Lemma step_refines x1 u s r :
  stands x1 u → refines s r → refines (ladder_step x1 s) (rfc_step u r).
Proof.
  intros Hu (H1 & H2 & H3 & H4). unfold ladder_step, rfc_step, S'.
  pose proof (A_stands _ _ _ _ H1 H2) as Ha. pose proof (Z_stands _ _ _ _ H1 H2) as Hb.
  pose proof (A_stands _ _ _ _ H3 H4) as Hc. pose proof (Z_stands _ _ _ _ H3 H4) as Hd.
  pose proof (M_stands _ _ _ _ Ha Ha) as Haa. pose proof (M_stands _ _ _ _ Hb Hb) as Hbb.
  pose proof (Z_stands _ _ _ _ Haa Hbb) as He.
  pose proof (M_stands _ _ _ _ Hd Ha) as Hda. pose proof (M_stands _ _ _ _ Hc Hb) as Hcb.
  pose proof (A_stands _ _ _ _ Hda Hcb) as Hs. pose proof (Z_stands _ _ _ _ Hda Hcb) as Ht.
  pose proof (M_stands _ _ _ _ Ht Ht) as Ht2.
  pose proof (M_stands _ _ _ _ He a24_stands) as He24.
  pose proof (A_stands _ _ _ _ He24 Haa) as Hsum.
  unfold refines. cbn [lx2 lz2 lx3 lz3 rx2 rz2 rx3 rz3]. split_and!; apply stands_mod.
  - eapply stands_eq; [apply M_stands; apply stands_weaken; [exact Haa|exact Hbb]|ring].
  - eapply stands_eq; [apply M_stands; [exact He|exact Hsum]|ring].
  - eapply stands_eq; [apply M_stands; exact Hs|ring].
  - eapply stands_eq; [apply M_stands; [apply stands_weaken; exact Ht2|apply stands_weaken; exact Hu]|ring].
Qed.

Lemma lxor_bits a b : (a = 0 ∨ a = 1) → (b = 0 ∨ b = 1) → Z.lxor a b = 0 ∨ Z.lxor a b = 1.
Proof. intros [-> | ->] [-> | ->]; cbn; auto. Qed.

Lemma b2z_bit b : Z.b2z b = 0 ∨ Z.b2z b = 1.
Proof. destruct b; cbn; auto. Qed.

Lemma loop_refines rounds z k x1 u swap s r :
  (∀ pos, (pos < rounds)%nat → scalar_bit z pos = Z.b2z (Z.testbit k (Z.of_nat pos))) →
  stands x1 u → refines s r → swap = 0 ∨ swap = 1 →
  let '(s', swap') := ladder_loop rounds z x1 swap s in
  refines (ladder_swap s' swap') (rfc_loop rounds k u swap r).
Proof.
  intros Hbits Hu. revert swap s r. induction rounds as [|t IH]; intros swap s r Hs Hsw; cbn [ladder_loop rfc_loop].
  - by apply swap_refines.
  - rewrite Hbits by lia. apply IH; [intros; apply Hbits; lia| |apply b2z_bit].
    apply step_refines; [done|]. apply swap_refines; [done|]. apply lxor_bits; [done|apply b2z_bit].
Qed.

(** C35: [kos_x25519] computes the function of RFC 7748: for 32-byte arguments the
    result is the 32-byte encoding of the Montgomery ladder's u-coordinate
    modulo 2^255 - 19, with the scalar clamped and the top bit of the
    coordinate ignored. *)
Theorem x25519_correct scalar base :
  length scalar = 32%nat → Forall is_u8 scalar → length base = 32%nat → Forall is_u8 base →
  kos_x25519 scalar base = x25519_reference scalar base.
Proof.
  intros Ls Hs Lb Hb. unfold kos_x25519, x25519_reference.
  destruct (unpack25519_spec base Lb Hb) as [Hred Hval].
  assert (Hu : stands (unpack25519 base) (decode_u base)) by (split; [done|by rewrite Hval]).
  assert (H0 : stands (replicate 16 0) 0).
  { split; [|done]. apply canonical_reduced. split; [done|]. apply Forall_replicate. unfold limb16. lia. }
  assert (H1 : stands (<[0%nat := 1]> (replicate 16 0)) 1).
  { split; [|done]. apply canonical_reduced. split; [done|]. cbn [replicate insert list_insert].
    repeat (apply Forall_cons; split; [unfold limb16; lia|]). by apply Forall_nil. }
  pose proof (loop_refines 255 (clamp scalar) (decode_scalar scalar) (unpack25519 base) (decode_u base) 0
    (mk_ladder (<[0%nat := 1]> (replicate 16 0)) (replicate 16 0) (unpack25519 base)
       (<[0%nat := 1]> (replicate 16 0)))
    (mk_rladder 1 0 (decode_u base) 1)) as Hloop.
  destruct (ladder_loop 255 (clamp scalar) (unpack25519 base) 0 _) as [s swap].
  specialize (Hloop ltac:(intros; by apply clamp_bits) Hu ltac:(by split_and!) ltac:(by left)).
  set (s' := ladder_swap s swap) in *. set (r := rfc_loop _ _ _ _ _) in *.
  destruct Hloop as ([Hx Cx] & [Hz Cz] & _).
  destruct (inv25519_spec (lz2 s') Hz) as [Hir Hiv].
  destruct (M_spec (lx2 s') (inv25519 (lz2 s')) (reduced_small _ Hx) (reduced_small _ Hir)) as [Hm Cm].
  rewrite pack25519_spec by done. f_equal.
  apply cong_small; [apply Z.mod_pos_bound; reflexivity|].
  rewrite cong_mod, Cm, Hiv, Cx. apply cong_mul; [done|]. apply cong_pow; [|done]. discriminate.
Qed.

Lemma x25519_correct_witness :
  kos_x25519 (replicate 32 1) (9 :: replicate 31 0) = x25519_reference (replicate 32 1) (9 :: replicate 31 0).
Proof.
  apply x25519_correct.
  - reflexivity.
  - apply Forall_replicate. unfold is_u8. lia.
  - reflexivity.
  - apply Forall_cons. split; [unfold is_u8; lia|]. apply Forall_replicate. unfold is_u8. lia.
Defined.
