(* ===== verification/Kpkg.v ===== *)
(** * Application packages (src/lib/kpkg.c, src/include/kos/kpkg.h)

    A package is a header, a manifest, an index of files and a payload, read
    through a [kpkg_reader].  The packed structures are kept as the bytes that the
    code reads into them, with one accessor per field, because the signature is
    computed over those bytes.  Every call of [kmalloc] takes a flag that says
    whether it succeeds; the buffers are values. *)

From Stdlib Require Import ZArith Lia.
From stdpp Require Import gmap.
From S2P Require Import Prelude Inet Bytes Sha2 Sha2Spec Signature.
#[local] Open Scope Z_scope.

Definition KPKG_MAGIC : Z := 0x47504B4B.
Definition KPKG_VERSION_1 : Z := 1.
Definition KPKG_SIG_NONE : Z := 0.
Definition KPKG_SIG_ECDSA_P256 : Z := 1.
Definition KPKG_SIG_RSA2048_PKCS1 : Z := 2.
Definition KPKG_MAX_FILES : Z := 128.
Definition KPKG_MAX_FILE_SIZE : Z := 16 * 1024 * 1024.
Definition KPKG_MAX_TOTAL_SIZE : Z := 64 * 1024 * 1024.
Definition KPKG_MAX_PATH_LEN : Z := 256.
Definition KPKG_MAX_APPID_LEN : Z := 64.

(** ** Names *)

Definition is_slash (c : Z) : bool := (c =? 47) || (c =? 92).

(** [c < 32 || c == 127 || one of : * ? Q < > |], with [Q] the double quote. *)
Definition illegal_char (c : Z) : bool :=
  (c <? 32) || (c =? 127) || (c =? 58) || (c =? 42) || (c =? 63) || (c =? 34) || (c =? 60) || (c =? 62) || (c =? 124).

(** The inner loop: the characters up to the next separator and what follows,
    unless one of them is illegal. *)
Fixpoint scan_segment (p : list Z) : option (list Z * list Z) :=
  match p with
  | [] => Some ([], [])
  | c :: r =>
      if is_slash c then Some ([], p)
      else if illegal_char c then None
      else match scan_segment r with Some (seg, rest) => Some (c :: seg, rest) | None => None end
  end.

Definition bad_segment (seg : list Z) : bool :=
  match seg with
  | [] => true
  | [c] => c =? 46
  | [c; d] => (c =? 46) && (d =? 46)
  | _ => false
  end.

(** The outer loop takes a character or more per round. *)
Fixpoint scan_path (n : nat) (p : list Z) : bool :=
  match p, n with
  | [], _ => true
  | _ :: _, O => false
  | _ :: _, S n =>
      match scan_segment p with
      | None => false
      | Some (seg, rest) => if bad_segment seg then false else scan_path n (tail rest)
      end
  end.

(** The string has no terminator within [KPKG_MAX_PATH_LEN] bytes when its length
    reaches it. *)
Definition kpkg_validate_path (path : option (list Z)) : bool :=
  match path with
  | None | Some [] => false
  | Some ((c :: r) as path) =>
      if Z.of_nat (length path) >? KPKG_MAX_PATH_LEN - 1 then false
      else if is_slash c then false
      else if match r with d :: _ => d =? 58 | [] => false end then false
      else scan_path (length path) path
  end.

Definition app_id_char (c : Z) : bool :=
  ((97 <=? c) && (c <=? 122)) || ((65 <=? c) && (c <=? 90)) || ((48 <=? c) && (c <=? 57))
    || (c =? 46) || (c =? 45) || (c =? 95).

(** The loop over the characters; [has_char] or [None] for a refusal. *)
Fixpoint scan_app_id (len : Z) (has_char : bool) (s : list Z) : option bool :=
  match s with
  | [] => Some has_char
  | c :: s =>
      if len >=? KPKG_MAX_APPID_LEN - 1 then None
      else if negb (app_id_char c) then None
      else scan_app_id (len + 1) (if negb (c =? 46) then true else has_char) s
  end.

Fixpoint double_dot (s : list Z) : bool :=
  match s with
  | c :: ((d :: _) as s') => if (c =? 46) && (d =? 46) then true else double_dot s'
  | _ => false
  end.

Definition kpkg_validate_app_id (app_id : option (list Z)) : bool :=
  match app_id with
  | None | Some [] => false
  | Some ((c :: _) as s) =>
      match scan_app_id 0 false s with
      | None => false
      | Some has_char =>
          if negb has_char || (c =? 46) || (default 0 (last s) =? 46) then false else negb (double_dot s)
      end
  end.

(** ** The structures *)

Definition SIZEOF_HEADER : Z := 80.
Definition SIZEOF_MANIFEST : Z := 960.
Definition SIZEOF_FILE_ENTRY : Z := 308.
Definition SIZEOF_SIGNATURE_BLOCK : Z := 16.

Definition h_magic (h : list Z) : Z := u32_at h 0.
Definition h_format_version (h : list Z) : Z := u32_at h 4.
Definition h_header_size (h : list Z) : Z := u32_at h 8.
Definition h_sig_type (h : list Z) : Z := u32_at h 12.
Definition h_manifest_offset (h : list Z) : Z := u64_at h 16.
Definition h_manifest_size (h : list Z) : Z := u32_at h 24.
Definition h_file_count (h : list Z) : Z := u32_at h 28.
Definition h_index_offset (h : list Z) : Z := u64_at h 32.
Definition h_payload_offset (h : list Z) : Z := u64_at h 48.
Definition h_payload_size (h : list Z) : Z := u64_at h 56.
Definition h_sig_offset (h : list Z) : Z := u64_at h 64.
Definition h_sig_size (h : list Z) : Z := u32_at h 72.

Definition m_app_id (m : list Z) : list Z := cstring (slice m 0 64).
Definition m_name (m : list Z) : list Z := slice m 64 64.
Definition m_version (m : list Z) : list Z := slice m 128 32.
Definition m_version_code (m : list Z) : Z := u32_at m 160.
Definition m_entry_point (m : list Z) : list Z := slice m 180 256.
Definition m_permissions (m : list Z) : Z := u32_at m 436.

Definition f_path (f : list Z) : list Z := cstring (slice f 0 256).
Definition f_size (f : list Z) : Z := u64_at f 256.
Definition f_payload_offset (f : list Z) : Z := u64_at f 264.
Definition f_sha256 (f : list Z) : list Z := slice f 276 32.

Definition s_sig_type (s : list Z) : Z := u32_at s 0.
Definition s_key_len (s : list Z) : Z := u32_at s 4.
Definition s_sig_len (s : list Z) : Z := u32_at s 8.

(** The function pointers, closed over their context; [read offset size] returns
    the bytes that it puts into the buffer, [None] for false. *)
Record kpkg_reader := Reader {
  read : option (Z → Z → option (list Z));
  get_size : option Z
}.

Definition reader_read (r : kpkg_reader) (offset size : Z) : option (list Z) :=
  read ← read r; read offset size.

Record kpkg_package := Package {
  header : list Z;
  manifest : list Z;
  files : option (list Z);
  file_count : Z;
  reader : kpkg_reader;
  verified_integrity : bool;
  verified_authenticity : bool
}.

Definition file_entry (files : list Z) (i : Z) : list Z := slice files (SIZEOF_FILE_ENTRY * i) 308.

(** The entries of the index, in order. *)
Definition pkg_entries (files : list Z) (count : Z) : list (list Z) := file_entry files <$> seqZ 0 count.

(** ** Opening *)

(** The loop over the index: the accumulated size, [None] for a refusal. *)
Fixpoint check_entries (payload_size accumulated_payload : Z) (l : list (list Z)) : option Z :=
  match l with
  | [] => Some accumulated_payload
  | f :: l =>
      if negb (kpkg_validate_path (Some (f_path f))) then None
      else if f_size f >? KPKG_MAX_FILE_SIZE then None
      else if u64 (f_payload_offset f + f_size f) >? payload_size then None
      else check_entries payload_size (u64 (accumulated_payload + f_size f)) l
  end.

Definition read_manifest (r : kpkg_reader) (total_size : Z) (h : list Z) : option (list Z) :=
  let zero := replicate (Z.to_nat SIZEOF_MANIFEST) 0 in
  if h_manifest_size h >? 0 then
    if u64 (h_manifest_offset h + h_manifest_size h) >? total_size then None
    else
      bytes ← reader_read r (h_manifest_offset h) (h_manifest_size h);
      let m := splice zero 0 bytes in
      if negb (kpkg_validate_app_id (Some (m_app_id m))) then None else Some m
  else Some zero.

Definition read_index (kmalloc_ok : bool) (r : kpkg_reader) (total_size : Z) (h : list Z) : option (option (list Z)) :=
  let count := h_file_count h in
  if count >? 0 then
    let index_bytes := u64 (count * SIZEOF_FILE_ENTRY) in
    if u64 (h_index_offset h + index_bytes) >? total_size then None
    else if negb kmalloc_ok then None
    else
      index ← reader_read r (h_index_offset h) index_bytes;
      accumulated_payload ← check_entries (h_payload_size h) 0 (pkg_entries index count);
      if accumulated_payload >? KPKG_MAX_TOTAL_SIZE then None else Some (Some index)
  else Some None.

Definition header_valid (h : list Z) : bool :=
  (h_magic h =? KPKG_MAGIC) && (h_format_version h =? KPKG_VERSION_1) && (h_header_size h =? SIZEOF_HEADER).

Definition header_within_limits (h : list Z) : bool :=
  negb ((h_file_count h >? KPKG_MAX_FILES) || (h_manifest_size h >? SIZEOF_MANIFEST)
        || (h_payload_size h >? KPKG_MAX_TOTAL_SIZE)).

Definition kpkg_open (kmalloc_ok : bool) (r : kpkg_reader) : option kpkg_package :=
  match read r, get_size r with
  | Some _, Some total_size =>
      if total_size <? SIZEOF_HEADER then None
      else
        h ← reader_read r 0 SIZEOF_HEADER;
        if negb (header_valid h) then None
        else if negb (header_within_limits h) then None
        else
          m ← read_manifest r total_size h;
          index ← read_index kmalloc_ok r total_size h;
          Some (Package h m index (h_file_count h) r false false)
  | _, _ => None
  end.

Definition zero_package : kpkg_package :=
  Package (replicate (Z.to_nat SIZEOF_HEADER) 0) (replicate (Z.to_nat SIZEOF_MANIFEST) 0) None 0 (Reader None None) false false.

Definition kpkg_close (p : option kpkg_package) : option kpkg_package :=
  match p with Some _ => Some zero_package | None => None end.

(** ** Integrity *)

(** The loop over the chunks of a file.  Each round takes a byte or more, at most
    4096. *)
Fixpoint hash_chunks (n : nat) (r : kpkg_reader) (cur_offset remaining : Z) (sha : kos_sha256_context)
    : option kos_sha256_context :=
  if remaining >? 0 then
    match n with
    | O => None
    | S n =>
        let to_read := if remaining >? 4096 then 4096 else remaining in
        chunk ← reader_read r cur_offset to_read;
        hash_chunks n r (u64 (cur_offset + to_read)) (remaining - to_read) (kos_sha256_update sha chunk)
    end
  else Some sha.

Definition chunk_count (size : Z) : nat := Z.to_nat (size / 4096 + 1).

Definition check_hash (p : kpkg_package) (f : list Z) : bool :=
  let cur_offset := u64 (h_payload_offset (header p) + f_payload_offset f) in
  match hash_chunks (chunk_count (f_size f)) (reader p) cur_offset (f_size f) kos_sha256_initialize with
  | None => false
  | Some sha => bool_decide (kos_sha256_finalize sha = f_sha256 f)
  end.

Definition with_integrity (p : kpkg_package) : kpkg_package :=
  Package (header p) (manifest p) (files p) (file_count p) (reader p) true (verified_authenticity p).
Definition with_authenticity (p : kpkg_package) : kpkg_package :=
  Package (header p) (manifest p) (files p) (file_count p) (reader p) (verified_integrity p) true.

Definition kpkg_verify_integrity (kmalloc_ok : bool) (p : kpkg_package) : kpkg_package * bool :=
  match files p with
  | None => if (file_count p >? 0) || negb kmalloc_ok then (p, false) else (with_integrity p, true)
  | Some index =>
      if negb kmalloc_ok then (p, false)
      else if forallb (check_hash p) (pkg_entries index (file_count p)) then (with_integrity p, true)
      else (p, false)
  end.

(** ** Authenticity *)

(** The bytes that are signed, as the chunks of the updates. *)
Definition signed_chunks (p : kpkg_package) : list (list Z) :=
  [header p]
  ++ (if h_manifest_size (header p) >? 0 then [slice (manifest p) 0 (Z.to_nat (h_manifest_size (header p)))] else [])
  ++ match files p with
     | Some index => if file_count p >? 0 then [index] else []
     | None => []
     end.

Definition rsa_exponent : list Z := [1; 0; 1].

Definition kpkg_verify_signature (kmalloc_ok : bool) (p : kpkg_package) (trusted_pubkey : option (list Z)) (key_len : Z)
    : kpkg_package * bool :=
  let h := header p in
  match trusted_pubkey with
  | None => (p, false)
  | Some key =>
      if key_len =? 0 then (p, false)
      else if (h_sig_type h =? KPKG_SIG_NONE) || (h_sig_size h =? 0) then (p, false)
      else if h_sig_size h <? SIZEOF_SIGNATURE_BLOCK then (p, false)
      else
        match reader_read (reader p) (h_sig_offset h) SIZEOF_SIGNATURE_BLOCK with
        | None => (p, false)
        | Some block =>
            if negb (s_sig_type block =? h_sig_type h)
               || (u64 (SIZEOF_SIGNATURE_BLOCK + s_key_len block + s_sig_len block) >? h_sig_size h) then (p, false)
            else if negb kmalloc_ok then (p, false)
            else
              match reader_read (reader p) (u64 (h_sig_offset h + SIZEOF_SIGNATURE_BLOCK + s_key_len block)) (s_sig_len block) with
              | None => (p, false)
              | Some sig =>
                  let digest := kos_sha256_finalize (fold_left kos_sha256_update (signed_chunks p) kos_sha256_initialize) in
                  let verified :=
                    if (s_sig_type block =? KPKG_SIG_ECDSA_P256) && (s_sig_len block =? 64) && (key_len >=? 64) then
                      kos_ecdsa_p256_verify (Some (take 32 key)) (Some (slice key 32 32)) (Some digest)
                        (Some (take 32 sig)) (Some (slice sig 32 32))
                    else if (s_sig_type block =? KPKG_SIG_RSA2048_PKCS1) && (key_len >=? 256) then
                      kos_rsa_pkcs1_verify_sha256 (Some key) key_len (Some rsa_exponent) 3 (Some digest)
                        (Some sig) (s_sig_len block)
                    else false in
                  (if verified then with_authenticity p else p, verified)
              end
        end
  end.

(** ** Extraction *)

(** The buffer, with the terminator behind the content, and the size. *)
Definition kpkg_extract_file (kmalloc_ok : bool) (p : kpkg_package) (file_index : Z) : option (list Z * Z) :=
  if file_index >=? file_count p then None
  else
    index ← files p;
    let f := file_entry index file_index in
    if negb kmalloc_ok then None
    else
      let cur_offset := u64 (h_payload_offset (header p) + f_payload_offset f) in
      content ← reader_read (reader p) cur_offset (f_size f);
      if bool_decide (kos_sha256 content = f_sha256 f) then Some (content ++ [0], f_size f) else None.

(** ** The reader over a buffer (src/kernel/installer.c) *)

(** The bytes of [data] that are copied; all of them when the addition does not
    wrap. *)
Definition memory_read (data : list Z) (offset size : Z) : option (list Z) :=
  if u64 (offset + size) >? Z.of_nat (length data) then None else Some (slice data offset (Z.to_nat size)).

Definition memory_get_size (data : list Z) : Z := Z.of_nat (length data).

Definition memory_reader (data : list Z) : kpkg_reader := Reader (Some (memory_read data)) (Some (memory_get_size data)).

(** ** Paths that stay below their directory *)

(** The components of a path between separators of either kind. *)
Fixpoint segments (p : list Z) : list (list Z) :=
  match p with
  | [] => [[]]
  | c :: r =>
      if is_slash c then [] :: segments r
      else match segments r with s :: ss => (c :: s) :: ss | [] => [[c]] end
  end.

Definition good_segment (s : list Z) : Prop :=
  s ≠ [] ∧ s ≠ [46] ∧ s ≠ [46; 46] ∧ Forall (λ c, illegal_char c = false) s.

(** The directory that a file system reaches from [base]: empty components and
    [.] stay, [..] goes up. *)
Definition resolve_segment (base : list (list Z)) (s : list Z) : list (list Z) :=
  if bool_decide (s = [] ∨ s = [46]) then base
  else if bool_decide (s = [46; 46]) then removelast base
  else base ++ [s].

Definition resolve (base : list (list Z)) (p : list Z) : list (list Z) := foldl resolve_segment base (segments p).

Lemma bad_segment_spec s : bad_segment s = false ↔ s ≠ [] ∧ s ≠ [46] ∧ s ≠ [46; 46].
Proof.
  destruct s as [|c [|d [|e s]]]; cbn; [naive_solver|..|naive_solver].
  - destruct (Z.eqb_spec c 46); naive_solver.
  - destruct (Z.eqb_spec c 46), (Z.eqb_spec d 46); naive_solver.
Qed.

Lemma segments_ne p : segments p ≠ [].
Proof. destruct p as [|c p]; cbn; [done|]. destruct (is_slash c); [done|]. by destruct (segments p). Qed.

(** The inner loop reads the first component. *)
Lemma scan_segment_spec p :
  match scan_segment p with
  | Some (seg, rest) =>
      Forall (λ c, illegal_char c = false) seg ∧ (length rest ≤ length p)%nat ∧ (length seg + length rest = length p)%nat ∧
      segments p = seg :: match rest with [] => [] | _ :: rest => segments rest end
  | None => ∃ seg ss, segments p = seg :: ss ∧ ¬ Forall (λ c, illegal_char c = false) seg
  end.
Proof.
  induction p as [|c p IH]; cbn [scan_segment segments]; [by repeat constructor|].
  destruct (is_slash c) eqn:Hs; [cbn; split_and!; [constructor|lia|lia|done]|].
  destruct (illegal_char c) eqn:Hi.
  { destruct (segments p) as [|s ss] eqn:Hp; [by apply segments_ne in Hp|]. exists (c :: s), ss. split; [done|].
    intros H. apply Forall_cons in H as [? _]. congruence. }
  destruct (scan_segment p) as [[seg rest]|].
  - destruct IH as (Hf & Hl & Hlen & ->). cbn [length]. split_and!; [by constructor|lia|lia|done].
  - destruct IH as (seg & ss & -> & Hn). exists (c :: seg), ss. split; [done|].
    intros H. apply Forall_cons in H as [_ H]. done.
Qed.

(** All components are good, but for an empty one behind a final separator. *)
Definition path_good (ss : list (list Z)) : Prop := ∃ l, Forall good_segment l ∧ (ss = l ∨ ss = l ++ [[]]).

Lemma path_good_cons s ss : s ≠ [] → path_good (s :: ss) ↔ good_segment s ∧ path_good ss.
Proof.
  intros Hne. split.
  - intros (l & Hl & [<-|He]).
    + apply Forall_cons in Hl as [Hs Hl]. split; [done|]. exists ss. by split; [|left].
    + destruct l as [|x l]; [by injection He as ->|]. injection He as -> ->. apply Forall_cons in Hl as [Hs Hl].
      split; [done|]. exists l. by split; [|right].
  - intros [Hs (l & Hl & [->| ->])]; exists (s :: l); (split; [by constructor|]); [by left|by right].
Qed.

Lemma scan_path_spec n : ∀ p, (length p ≤ n)%nat → scan_path n p = true ↔ path_good (segments p).
Proof.
  induction n as [|n IH]; intros p Hn.
  - destruct p; [|cbn in Hn; lia]. cbn. split; [|done]. intros _. exists []. split; [constructor|by right].
  - destruct p as [|c p]; [cbn; split; [intros _; exists []; split; [constructor|by right]|done]|].
    cbn [scan_path]. pose proof (scan_segment_spec (c :: p)) as Hs.
    destruct (scan_segment (c :: p)) as [[seg rest]|].
    + destruct Hs as (Hf & Hl & Hlen & ->). destruct (bad_segment seg) eqn:Hb.
      * split; [done|]. intros (l & Hl' & He). destruct (decide (seg = [])) as [->|Hne].
        -- destruct rest as [|d rest]; [cbn in Hlen; lia|]. destruct He as [<-|He]; [by apply Forall_cons in Hl' as [[? _] _]|].
           destruct l as [|x l]; [|injection He as <- He; by apply Forall_cons in Hl' as [[? _] _]].
           injection He as He. by apply segments_ne in He.
        -- exfalso. assert (good_segment seg) as (H1 & H2 & H3 & _).
           { destruct He as [<-|He]; [by apply Forall_cons in Hl' as [? _]|]. destruct l as [|x l]; [by injection He|].
             injection He as <- _. by apply Forall_cons in Hl' as [? _]. }
           assert (bad_segment seg = false) by (by apply bad_segment_spec). congruence.
      * apply bad_segment_spec in Hb as (H1 & H2 & H3). rewrite path_good_cons by done.
        assert (1 ≤ length seg)%nat by (destruct seg; [done|cbn; lia]).
        destruct rest as [|d rest]; cbn [tail].
        -- destruct n; cbn; (split; [intros _|done]); (split; [by repeat split|]); exists []; (split; [constructor|by left]).
        -- rewrite IH by (cbn in *; lia). unfold good_segment. naive_solver.
    + split; [done|]. destruct Hs as (seg & ss & -> & Hn'). intros (l & Hl & He). exfalso. apply Hn'.
      destruct He as [<-|He]; [apply Forall_cons in Hl as [(_ & _ & _ & ?) _]; done|].
      destruct l as [|x l]; [by injection He as -> _|]. injection He as <- _. by apply Forall_cons in Hl as [(_ & _ & _ & ?) _].
Qed.

Lemma slash_segment p : path_good (segments p) → match p with c :: _ => is_slash c = false | [] => True end.
Proof.
  destruct p as [|c p]; [done|]. cbn. destruct (is_slash c); [|done]. intros (l & Hl & [<-|He]).
  - by apply Forall_cons in Hl as [[? _] _].
  - destruct l as [|x l]; [injection He as He; by apply segments_ne in He|]. injection He as <- _. by apply Forall_cons in Hl as [[? _] _].
Qed.

(** No component has an illegal character, so no drive letter either. *)
Lemma segments_legal p : path_good (segments p) → Forall (λ c, is_slash c = true ∨ illegal_char c = false) p.
Proof.
  intros (l & Hl & He). assert (Forall (Forall (λ c, illegal_char c = false)) (segments p)) as H.
  { destruct He as [->| ->]; [|rewrite Forall_app; split; [|by repeat constructor]];
      apply (Forall_impl _ _ _ Hl); by intros s (_ & _ & _ & ?). }
  clear l Hl He. induction p as [|c p IH]; [constructor|]. cbn in H. destruct (is_slash c) eqn:Hs.
  - apply Forall_cons in H as [_ H]. constructor; [by left|by apply IH].
  - destruct (segments p) as [|s ss] eqn:Hp; [by apply segments_ne in Hp|].
    apply Forall_cons in H as [[Hc Hs']%Forall_cons H]. constructor; [by right|]. apply IH. by constructor.
Qed.

Lemma validate_path_spec p :
  kpkg_validate_path (Some p) = true ↔ p ≠ [] ∧ Z.of_nat (length p) < KPKG_MAX_PATH_LEN ∧ path_good (segments p).
Proof.
  destruct p as [|c r]; [cbn; naive_solver|]. unfold kpkg_validate_path. rewrite Z.gtb_ltb. cbn [length].
  destruct (Z.ltb_spec (KPKG_MAX_PATH_LEN - 1) (Z.of_nat (S (length r)))); [split; [done|unfold KPKG_MAX_PATH_LEN in *; lia]|].
  destruct (is_slash c) eqn:Hs.
  { split; [done|]. intros (_ & _ & H'). apply slash_segment in H'. congruence. }
  destruct (match r with d :: _ => d =? 58 | [] => false end) eqn:Hd.
  { split; [done|]. intros (_ & _ & H'). apply segments_legal in H'. destruct r as [|d r]; [done|].
    apply Z.eqb_eq in Hd as ->. apply Forall_cons in H' as [_ H']. apply Forall_cons in H' as [[?|?] _]; done. }
  rewrite (scan_path_spec (S (length r)) (c :: r)) by (cbn; lia). split; [|naive_solver].
  intros. split_and!; [done|lia|done].
Qed.

Lemma resolve_good l base : Forall good_segment l → foldl resolve_segment base l = base ++ l.
Proof.
  revert base. induction l as [|s l IH]; intros base Hl; [cbn; by rewrite app_nil_r|].
  apply Forall_cons in Hl as [(H1 & H2 & H3 & _) Hl]. cbn. unfold resolve_segment at 2.
  rewrite bool_decide_false by naive_solver. rewrite bool_decide_false by done. rewrite IH by done.
  by rewrite <- app_assoc.
Qed.

Lemma segments_empty p : segments p = [[]] → p = [].
Proof.
  destruct p as [|c p]; [done|]. cbn. destruct (is_slash c); [intros [= H]; by apply segments_ne in H|].
  by destruct (segments p).
Qed.

(** An accepted path leads to something below the directory it starts from. *)
Lemma validate_path_below p base :
  kpkg_validate_path (Some p) = true → ∃ l, l ≠ [] ∧ Forall good_segment l ∧ resolve base p = base ++ l.
Proof.
  intros (Hne & _ & l & Hl & He)%validate_path_spec. exists l. unfold resolve. destruct He as [He|He]; rewrite He.
  - split_and!; [|done|by apply resolve_good]. intros ->. by apply segments_ne in He.
  - split_and!; [|done|rewrite foldl_app, (resolve_good l) by done; reflexivity]. intros ->. by apply segments_empty in He.
Qed.

(** ** Opening accepts only what is safe to install *)

(** What the code relies on: a read returns as many bytes as it was asked for. *)
Definition reader_ok (r : kpkg_reader) : Prop :=
  ∀ offset size bytes, reader_read r offset size = Some bytes → Forall is_u8 bytes ∧ Z.of_nat (length bytes) = size.

Definition entry_ok (payload_size : Z) (f : list Z) : Prop :=
  kpkg_validate_path (Some (f_path f)) = true ∧ f_size f ≤ KPKG_MAX_FILE_SIZE ∧
  u64 (f_payload_offset f + f_size f) ≤ payload_size.

#[export] Instance entry_ok_dec payload_size f : Decision (entry_ok payload_size f).
Proof. unfold entry_ok. apply _. Defined.

Definition total_size (l : list (list Z)) : Z := foldr (λ f n, f_size f + n) 0 l.

Lemma f_size_range f : Forall is_u8 f → 0 ≤ f_size f < W64.
Proof. apply u64_at_range. Qed.

(** The loop of the index accepts exactly the lists of good entries. *)
Lemma check_entries_spec ps l : ∀ acc,
  check_entries ps acc l = if bool_decide (Forall (entry_ok ps) l) then Some (foldl (λ a f, u64 (a + f_size f)) acc l) else None.
Proof.
  induction l as [|f l IH]; intros acc; [by rewrite bool_decide_true by constructor|]. cbn [check_entries foldl].
  rewrite IH. destruct (kpkg_validate_path (Some (f_path f))) eqn:Hv; cbn [negb].
  2: { rewrite bool_decide_false; [done|]. intros H. apply Forall_cons in H as [[? _] _]. congruence. }
  rewrite !Z.gtb_ltb. destruct (Z.ltb_spec KPKG_MAX_FILE_SIZE (f_size f)).
  { rewrite bool_decide_false; [done|]. intros H'. apply Forall_cons in H' as [(_ & ? & _) _]. lia. }
  destruct (Z.ltb_spec ps (u64 (f_payload_offset f + f_size f))).
  { rewrite bool_decide_false; [done|]. intros H'. apply Forall_cons in H' as [(_ & _ & ?) _]. lia. }
  erewrite (bool_decide_ext (Forall (entry_ok ps) (f :: l))); [done|].
  rewrite Forall_cons. unfold entry_ok at 1. naive_solver lia.
Qed.

(** The sum does not wrap: there are few files, and each is small. *)
Lemma sizes_no_wrap l : ∀ acc,
  Forall (λ f, 0 ≤ f_size f ≤ KPKG_MAX_FILE_SIZE) l → 0 ≤ acc →
  acc + KPKG_MAX_FILE_SIZE * Z.of_nat (length l) < W64 →
  foldl (λ a f, u64 (a + f_size f)) acc l = acc + total_size l.
Proof.
  induction l as [|f l IH]; intros acc Hs H0 Hb; [cbn; lia|].
  apply Forall_cons in Hs as [Hs1 Hs]. cbn [foldl total_size foldr length] in *. unfold KPKG_MAX_FILE_SIZE in *.
  rewrite u64_small by (unfold is_u64; lia). fold (total_size l). rewrite IH; [lia|done|lia|lia].
Qed.

Lemma length_pkg_entries index count : 0 ≤ count → Z.of_nat (length (pkg_entries index count)) = count.
Proof. intros. unfold pkg_entries. rewrite length_fmap, length_seqZ. lia. Qed.

Lemma pkg_entries_u8 index count : Forall is_u8 index → Forall (Forall is_u8) (pkg_entries index count).
Proof. intros H. apply Forall_fmap, Forall_forall. intros i _. by apply slice_u8. Qed.

(** The entries of an opened package. *)
Definition opened_entries (p : kpkg_package) : list (list Z) := pkg_entries (default [] (files p)) (file_count p).

Lemma open_inv ok r p :
  reader_ok r → kpkg_open ok r = Some p →
  reader p = r ∧ verified_integrity p = false ∧ verified_authenticity p = false ∧
  Forall is_u8 (header p) ∧ file_count p = h_file_count (header p) ∧ 0 ≤ file_count p ≤ KPKG_MAX_FILES ∧
  h_payload_size (header p) ≤ KPKG_MAX_TOTAL_SIZE ∧
  Forall is_u8 (default [] (files p)) ∧
  (0 < file_count p → is_Some (files p)) ∧
  (0 < h_manifest_size (header p) → kpkg_validate_app_id (Some (m_app_id (manifest p))) = true) ∧
  Forall (entry_ok (h_payload_size (header p))) (opened_entries p) ∧
  total_size (opened_entries p) ≤ KPKG_MAX_TOTAL_SIZE.
Proof.
  intros Hr. unfold kpkg_open. destruct (read r) as [rd|] eqn:Er; [|done]. destruct (get_size r) as [total|]; [|done].
  destruct (total <? SIZEOF_HEADER); [done|]. destruct (reader_read r 0 SIZEOF_HEADER) as [h|] eqn:Eh; [|done]. cbn [mbind option_bind].
  apply Hr in Eh as [Hh _]. destruct (header_valid h); [|done]. cbn [negb].
  destruct (header_within_limits h) eqn:El; [|done]. cbn [negb]. unfold header_within_limits in El.
  apply negb_true_iff, orb_false_iff in El as [[Hc _]%orb_false_iff Hp]. rewrite Z.gtb_ltb in Hc, Hp. apply Z.ltb_ge in Hc, Hp.
  destruct (read_manifest r total h) as [m|] eqn:Em; [|done]. cbn [mbind option_bind].
  destruct (read_index ok r total h) as [index|] eqn:Ei; [|done]. cbn [mbind option_bind]. intros [= <-].
  cbn [reader header manifest files file_count verified_integrity verified_authenticity].
  pose proof (u32_at_range h 28 Hh) as Hcount. fold (h_file_count h) in Hcount. unfold opened_entries. cbn [files file_count].
  assert (0 < h_manifest_size h → kpkg_validate_app_id (Some (m_app_id m)) = true) as Hm.
  { intros H0. unfold read_manifest in Em. rewrite Z.gtb_ltb, (proj2 (Z.ltb_lt _ _)) in Em by done.
    destruct (_ >? _); [done|]. destruct (reader_read r _ _); [|done]. cbn [mbind option_bind] in Em.
    destruct (kpkg_validate_app_id _) eqn:Ha in Em; [|done]. by injection Em as <-. }
  unfold read_index in Ei. rewrite !Z.gtb_ltb in Ei. destruct (Z.ltb_spec 0 (h_file_count h)) as [H0|H0].
  - destruct (_ <? _); [done|]. destruct ok; [|done]. cbn [negb] in Ei.
    destruct (reader_read r (h_index_offset h) _) as [bytes|] eqn:Eb; [|done]. cbn [mbind option_bind] in Ei.
    apply Hr in Eb as [Hb _]. rewrite check_entries_spec in Ei. case_bool_decide as Hall; [|done]. cbn [mbind option_bind] in Ei.
    rewrite sizes_no_wrap in Ei; [| |done|].
    2: { rewrite Forall_forall in Hall |- *. intros f Hf. destruct (Hall f Hf) as (_ & ? & _). split; [|done].
      pose proof (pkg_entries_u8 bytes (h_file_count h) Hb) as Hu. rewrite Forall_forall in Hu. by apply f_size_range, Hu. }
    2: { rewrite length_pkg_entries by lia. unfold KPKG_MAX_FILE_SIZE, KPKG_MAX_FILES, W64 in *. lia. }
    rewrite Z.gtb_ltb in Ei. destruct (Z.ltb_spec KPKG_MAX_TOTAL_SIZE (0 + total_size (pkg_entries bytes (h_file_count h)))); [done|].
    injection Ei as <-. cbn [default]. split_and!; try done; try lia.
  - injection Ei as <-. cbn [default]. assert (h_file_count h = 0) as -> by lia. split_and!; try done; try lia.
Qed.

(** ** Hashes *)

(** The chunked loop computes the digest of the whole file. *)
Lemma hash_chunks_fold n r : ∀ cur remaining sha sha',
  hash_chunks n r cur remaining sha = Some sha' →
  ∃ chunks, sha' = fold_left kos_sha256_update chunks sha.
Proof.
  induction n as [|n IH]; intros cur remaining sha sha'; cbn [hash_chunks]; destruct (remaining >? 0); try done.
  - intros [= <-]. by exists [].
  - destruct (reader_read r _ _) as [chunk|]; [|done]. cbn [mbind option_bind]. intros (chunks & ->)%IH. by exists (chunk :: chunks).
  - intros [= <-]. by exists [].
Qed.

(** A reader over the bytes [data]. *)
Definition reads (r : kpkg_reader) (data : list Z) : Prop :=
  ∀ offset size, 0 ≤ offset → 0 ≤ size → offset + size ≤ Z.of_nat (length data) →
  reader_read r offset size = Some (slice data offset (Z.to_nat size)).

Lemma memory_reader_reads data : Z.of_nat (length data) < W64 → reads (memory_reader data) data.
Proof.
  intros Hw offset size H0 H1 H2. unfold reader_read, memory_reader. cbn. unfold memory_read.
  rewrite u64_small by (unfold is_u64; lia). rewrite Z.gtb_ltb. by destruct (Z.ltb_spec (Z.of_nat (length data)) (offset + size)); [lia|].
Qed.

Lemma slice_split data off n m :
  0 ≤ off → slice data off (n + m) = slice data off n ++ slice data (off + Z.of_nat n) m.
Proof.
  intros H. unfold slice. rewrite Z2Nat.inj_add, Nat2Z.id by lia. rewrite <- drop_drop. by rewrite take_take_drop.
Qed.

Lemma hash_chunks_reads r data n : ∀ cur remaining sha,
  reads r data → Z.of_nat (length data) < W64 → 0 ≤ cur → 0 ≤ remaining → cur + remaining ≤ Z.of_nat (length data) →
  remaining ≤ 4096 * Z.of_nat n →
  ∃ chunks, hash_chunks n r cur remaining sha = Some (fold_left kos_sha256_update chunks sha) ∧
    concat chunks = slice data cur (Z.to_nat remaining).
Proof.
  induction n as [|n IH]; intros cur remaining sha Hr Hw H0 H1 Hl Hn; cbn [hash_chunks]; rewrite Z.gtb_ltb.
  { destruct (Z.ltb_spec 0 remaining); [lia|]. exists []. split; [done|]. by replace (Z.to_nat remaining) with 0%nat by lia. }
  destruct (Z.ltb_spec 0 remaining); [|exists []; split; [done|by replace (Z.to_nat remaining) with 0%nat by lia]].
  set (to_read := if remaining >? 4096 then 4096 else remaining).
  assert (0 < to_read ≤ remaining ∧ (to_read = 4096 ∨ to_read = remaining)) as [Ht Hd].
  { unfold to_read. rewrite Z.gtb_ltb. destruct (Z.ltb_spec 4096 remaining); lia. }
  clearbody to_read. rewrite Hr by lia. cbn [mbind option_bind]. rewrite u64_small by (unfold is_u64; lia).
  destruct (IH (cur + to_read) (remaining - to_read) (kos_sha256_update sha (slice data cur (Z.to_nat to_read)))) as (chunks & -> & Hc);
    [done|done|lia|lia|lia|lia|].
  exists (slice data cur (Z.to_nat to_read) :: chunks). split; [done|]. cbn [concat]. rewrite Hc.
  replace (Z.to_nat remaining) with (Z.to_nat to_read + Z.to_nat (remaining - to_read))%nat by lia.
  rewrite slice_split by done. do 2 f_equal. lia.
Qed.

(** What [kpkg_verify_integrity] decides for a file that lies in the package. *)
Lemma check_hash_reads p data f :
  reads (reader p) data → Z.of_nat (length data) < W64 → 0 ≤ f_size f →
  0 ≤ h_payload_offset (header p) + f_payload_offset f →
  h_payload_offset (header p) + f_payload_offset f + f_size f ≤ Z.of_nat (length data) →
  check_hash p f =
    bool_decide (sha256_reference (slice data (h_payload_offset (header p) + f_payload_offset f) (Z.to_nat (f_size f))) = f_sha256 f).
Proof.
  intros Hr Hw H0 H1 H2. unfold check_hash. rewrite u64_small by (unfold is_u64; lia).
  destruct (hash_chunks_reads (reader p) data (chunk_count (f_size f)) (h_payload_offset (header p) + f_payload_offset f)
    (f_size f) kos_sha256_initialize) as (chunks & -> & <-); try done.
  - unfold chunk_count. pose proof (Z.div_pos (f_size f) 4096). pose proof (Z.mod_pos_bound (f_size f) 4096).
    pose proof (Z.div_mod (f_size f) 4096). lia.
  - by rewrite sha256_many.
Qed.

(** A file that is handed out has the digest of its entry. *)
Lemma extract_digest ok p i buf size :
  kpkg_extract_file ok p i = Some (buf, size) →
  ∃ index content, files p = Some index ∧ i < file_count p ∧ buf = content ++ [0] ∧ size = f_size (file_entry index i) ∧
    reader_read (reader p) (u64 (h_payload_offset (header p) + f_payload_offset (file_entry index i))) size = Some content ∧
    sha256_reference content = f_sha256 (file_entry index i).
Proof.
  unfold kpkg_extract_file. rewrite Z.geb_leb. destruct (Z.leb_spec (file_count p) i); [done|].
  destruct (files p) as [index|]; [|done]. cbn [mbind option_bind]. destruct ok; [|done]. cbn [negb].
  destruct (reader_read _ _ _) as [content|] eqn:Er; [|done]. cbn [mbind option_bind]. case_bool_decide as Hh; [|done].
  intros [= <- <-]. rewrite sha256_one in Hh. by exists index, content.
Qed.

(** C23: What [kpkg_open] accepts is safe to install.  For a reader that returns the
    bytes it is asked for: at most 128 files with at most 16 MB each and 64 MB in
    all; every path, followed from any directory, ends strictly below it, through
    components that are neither empty nor [.] or [..] and hold no drive letter,
    wildcard or control character; the application id is well formed when there
    is a manifest.  Every file that [kpkg_extract_file] hands out of the package
    has the size and, followed by a terminator, content with the SHA-256 digest
    (FIPS 180-4) of its index entry. *)
Theorem kpkg_open_safe ok r p :
  reader_ok r → kpkg_open ok r = Some p →
  0 ≤ file_count p ≤ KPKG_MAX_FILES ∧ total_size (opened_entries p) ≤ KPKG_MAX_TOTAL_SIZE
  ∧ (∀ f, f ∈ opened_entries p → f_size f ≤ KPKG_MAX_FILE_SIZE ∧ Z.of_nat (length (f_path f)) < KPKG_MAX_PATH_LEN ∧
       ∀ base, ∃ l, l ≠ [] ∧ Forall good_segment l ∧ resolve base (f_path f) = base ++ l)
  ∧ (0 < h_manifest_size (header p) → kpkg_validate_app_id (Some (m_app_id (manifest p))) = true)
  ∧ ∀ ok' i buf size, 0 ≤ i → kpkg_extract_file ok' p i = Some (buf, size) →
      ∃ f content, opened_entries p !! Z.to_nat i = Some f ∧ buf = content ++ [0] ∧
        size = f_size f ∧ Z.of_nat (length content) = size ∧ sha256_reference content = f_sha256 f.
Proof.
  intros Hr Hp. destruct (open_inv ok r p Hr Hp) as (Hrd & _ & _ & _ & _ & Hc & _ & _ & _ & Hm & Hall & Ht).
  split_and!; try done; try lia.
  - intros f Hf. rewrite Forall_forall in Hall. destruct (Hall f Hf) as (Hv & Hs & _).
    split_and!; [done|by apply validate_path_spec in Hv as (_ & ? & _)|]. intros base. by apply validate_path_below.
  - intros ok' i buf size Hi (index & content & Ef & Hlt & -> & -> & Hread & Hh)%extract_digest.
    exists (file_entry index i), content. rewrite Hrd in Hread. apply Hr in Hread as [_ Hlen]. split_and!; try done.
    unfold opened_entries, pkg_entries. rewrite Ef. cbn [default]. rewrite list_lookup_fmap, lookup_seqZ_lt by lia. cbn. do 2 f_equal. lia.
Qed.

(** ** Round trip *)

Record source_file := SourceFile { sf_path : list Z; sf_permissions : Z; sf_content : list Z }.

Definition sf_size (f : source_file) : Z := Z.of_nat (length (sf_content f)).

Definition pack_entry (offset : Z) (f : source_file) : list Z :=
  (sf_path f ++ replicate (256 - length (sf_path f)) 0) ++ le_bytes 8 (sf_size f) ++ le_bytes 8 offset
    ++ le_bytes 4 (sf_permissions f) ++ sha256_reference (sf_content f).

Fixpoint pack_index (offset : Z) (fs : list source_file) : list (list Z) :=
  match fs with [] => [] | f :: fs => pack_entry offset f :: pack_index (offset + sf_size f) fs end.

Definition payload (fs : list source_file) : list Z := concat (sf_content <$> fs).

Definition pack_header (count payload_size : Z) : list Z :=
  le_bytes 4 KPKG_MAGIC ++ le_bytes 4 KPKG_VERSION_1 ++ le_bytes 4 SIZEOF_HEADER ++ le_bytes 4 KPKG_SIG_NONE
    ++ le_bytes 8 SIZEOF_HEADER ++ le_bytes 4 SIZEOF_MANIFEST ++ le_bytes 4 count
    ++ le_bytes 8 (SIZEOF_HEADER + SIZEOF_MANIFEST) ++ le_bytes 4 (SIZEOF_FILE_ENTRY * count) ++ le_bytes 4 0
    ++ le_bytes 8 (SIZEOF_HEADER + SIZEOF_MANIFEST + SIZEOF_FILE_ENTRY * count) ++ le_bytes 8 payload_size
    ++ le_bytes 8 0 ++ le_bytes 4 0 ++ le_bytes 4 0.

(** The layout that the self-test of installer.c builds: header, manifest, index
    and payloads, one after the other. *)
Definition pack (m : list Z) (fs : list source_file) : list Z :=
  pack_header (Z.of_nat (length fs)) (Z.of_nat (length (payload fs))) ++ m ++ concat (pack_index 0 fs) ++ payload fs.

Definition source_ok (f : source_file) : Prop :=
  kpkg_validate_path (Some (sf_path f)) = true ∧ sf_size f ≤ KPKG_MAX_FILE_SIZE.

Lemma legal_nonzero p : kpkg_validate_path (Some p) = true → Forall (λ c, c ≠ 0) p ∧ (length p < 256)%nat.
Proof.
  intros (_ & Hl & Hg)%validate_path_spec. unfold KPKG_MAX_PATH_LEN in Hl. split; [|lia].
  apply (Forall_impl _ _ _ (segments_legal _ Hg)). by intros c [H|H] ->.
Qed.

Lemma length_pack_entry offset f : source_ok f → length (pack_entry offset f) = 308%nat.
Proof.
  intros [[_ Hl]%legal_nonzero _]. unfold pack_entry. rewrite !length_app, length_replicate, !length_le_bytes, sha256_length. lia.
Qed.

Lemma length_path_field f : source_ok f → length (sf_path f ++ replicate (256 - length (sf_path f)) 0) = 256%nat.
Proof. intros [[_ Hl]%legal_nonzero _]. rewrite length_app, length_replicate. lia. Qed.

Lemma pack_entry_path offset f : source_ok f → f_path (pack_entry offset f) = sf_path f.
Proof.
  intros Hf. pose proof (length_path_field f Hf) as Hp. destruct Hf as [[Hn Hl]%legal_nonzero _].
  unfold f_path, pack_entry, slice. rewrite drop_0, take_app_length' by done.
  destruct (256 - length (sf_path f))%nat eqn:E; [lia|]. cbn [replicate]. by apply cstring_app.
Qed.

Lemma pack_entry_fields offset f :
  source_ok f → 0 ≤ offset < W64 →
  f_size (pack_entry offset f) = sf_size f ∧ f_payload_offset (pack_entry offset f) = offset ∧
  f_sha256 (pack_entry offset f) = sha256_reference (sf_content f).
Proof.
  intros Hf Ho. pose proof (length_path_field f Hf) as Hp. destruct Hf as [_ Hs]. unfold KPKG_MAX_FILE_SIZE in Hs.
  unfold f_size, f_payload_offset, f_sha256, u64_at, pack_entry.
  assert (0 ≤ sf_size f < 256 ^ 8) by (unfold sf_size in *; lia). unfold W64 in Ho.
  set (P := sf_path f ++ _) in *. clearbody P. split_and!.
  - rewrite slice_app by (rewrite ?Hp; done). apply le_int_bytes. done.
  - rewrite app_assoc. rewrite slice_app by (rewrite ?length_app, ?Hp; done). apply le_int_bytes. done.
  - rewrite !app_assoc, <- (app_nil_r (_ ++ sha256_reference _)), <- app_assoc.
    apply slice_app; [rewrite !length_app, Hp; done|by rewrite sha256_length].
Qed.

(** Chunks of equal length can be told apart again. *)
Lemma slice_concat (l : list (list Z)) n i x :
  Forall (λ y, length y = n) l → l !! i = Some x → slice (concat l) (Z.of_nat n * Z.of_nat i) n = x.
Proof.
  intros Hl Hi. apply take_drop_middle in Hi as Hl'. rewrite <- Hl' in *. rewrite Forall_app, Forall_cons in Hl.
  destruct Hl as (Hb & Hx & _). rewrite concat_app. cbn [concat].
  apply slice_app; [|done]. assert (length (take i l) = i) as Hlen.
  { apply lookup_lt_Some in Hi. rewrite length_take. rewrite Hl' in Hi. lia. }
  revert Hb Hlen. generalize (take i l). clear. revert i. induction i as [|i IH]; intros [|y k] Hk Hlen; cbn in *; try done; [lia|].
  apply Forall_cons in Hk as [Hy Hk]. rewrite length_app. specialize (IH k Hk). lia.
Qed.

Definition offset_of (fs : list source_file) (i : nat) : Z := Z.of_nat (length (payload (take i fs))).

Lemma pack_index_lookup fs : ∀ offset i f,
  fs !! i = Some f → pack_index offset fs !! i = Some (pack_entry (offset + offset_of fs i) f).
Proof.
  induction fs as [|g fs IH]; intros offset i f Hi; [done|]. destruct i as [|i]; cbn [pack_index].
  - injection Hi as ->. cbn. do 2 f_equal. unfold offset_of. cbn. lia.
  - cbn [lookup list_lookup] in *. rewrite (IH _ i f Hi). do 2 f_equal. unfold offset_of, payload, sf_size. cbn [take fmap list_fmap concat].
    rewrite length_app. lia.
Qed.

Lemma length_pack_index fs : ∀ offset, length (pack_index offset fs) = length fs.
Proof. induction fs as [|f fs IH]; intros offset; cbn; [done|by rewrite IH]. Qed.

Lemma pack_index_lengths fs : ∀ offset, Forall source_ok fs → Forall (λ y, length y = 308%nat) (pack_index offset fs).
Proof.
  induction fs as [|f fs IH]; intros offset Hf; cbn; [constructor|]. apply Forall_cons in Hf as [Hf Hfs].
  constructor; [by apply length_pack_entry|by apply IH].
Qed.

Lemma length_concat_const (l : list (list Z)) n : Forall (λ y, length y = n) l → length (concat l) = (n * length l)%nat.
Proof. induction 1 as [|y l Hy _ IH]; cbn; [lia|]. rewrite length_app. lia. Qed.

Lemma payload_split fs i f :
  fs !! i = Some f → payload fs = payload (take i fs) ++ sf_content f ++ payload (drop (S i) fs).
Proof.
  intros Hi. rewrite <- (take_drop_middle _ _ _ Hi) at 1. unfold payload. by rewrite fmap_app, concat_app.
Qed.

Lemma header_fields count size :
  0 ≤ count ≤ KPKG_MAX_FILES → 0 ≤ size ≤ KPKG_MAX_TOTAL_SIZE →
  let h := pack_header count size in
  header_valid h = true ∧ header_within_limits h = true ∧ h_manifest_offset h = 80 ∧ h_manifest_size h = 960 ∧
  h_file_count h = count ∧ h_index_offset h = 1040 ∧ h_payload_offset h = 1040 + 308 * count ∧ h_payload_size h = size.
Proof.
  intros Hc Hs h. unfold KPKG_MAX_FILES, KPKG_MAX_TOTAL_SIZE in *.
  assert (h_file_count h = count) as Ec by (apply (le_int_bytes 4); cbn; lia).
  assert (h_payload_size h = size) as Es by (apply (le_int_bytes 8); cbn; lia).
  assert (h_payload_offset h = 1040 + 308 * count) as Eo by (apply (le_int_bytes 8); cbn; unfold SIZEOF_HEADER, SIZEOF_MANIFEST, SIZEOF_FILE_ENTRY; lia).
  split_and!; try done. unfold header_within_limits. rewrite Ec, Es. unfold KPKG_MAX_FILES, KPKG_MAX_TOTAL_SIZE.
  change (h_manifest_size h) with 960. rewrite !Z.gtb_ltb.
  destruct (Z.ltb_spec 128 count); [lia|]. destruct (Z.ltb_spec (64 * 1024 * 1024) size); [lia|done].
Qed.

Lemma length_pack_header count size : length (pack_header count size) = 80%nat.
Proof. done. Qed.

Section roundtrip.
Context (m : list Z) (fs : list source_file).
Hypothesis Hm : length m = 960%nat.
Hypothesis Hid : kpkg_validate_app_id (Some (m_app_id m)) = true.
Hypothesis Hfs : Forall source_ok fs.
Hypothesis Hcount : Z.of_nat (length fs) ≤ KPKG_MAX_FILES.
Hypothesis Htotal : Z.of_nat (length (payload fs)) ≤ KPKG_MAX_TOTAL_SIZE.

#[local] Abbreviation count := (Z.of_nat (length fs)).
#[local] Abbreviation index := (concat (pack_index 0 fs)).
#[local] Abbreviation hdr := (pack_header count (Z.of_nat (length (payload fs)))).
#[local] Abbreviation rdr := (memory_reader (pack m fs)).

#[local] Lemma length_index : length index = (308 * length fs)%nat.
Proof. rewrite (length_concat_const _ 308), length_pack_index by by apply pack_index_lengths. done. Qed.

#[local] Lemma length_pack : Z.of_nat (length (pack m fs)) = 1040 + 308 * count + Z.of_nat (length (payload fs)).
Proof. unfold pack. rewrite !length_app, Hm, length_index, length_pack_header. lia. Qed.

#[local] Lemma pack_reads : reads rdr (pack m fs).
Proof.
  apply memory_reader_reads. rewrite length_pack. unfold KPKG_MAX_FILES, KPKG_MAX_TOTAL_SIZE, W64 in *. lia.
Qed.

#[local] Lemma read_header : reader_read rdr 0 SIZEOF_HEADER = Some hdr.
Proof.
  rewrite pack_reads; [|done|done|rewrite length_pack; unfold SIZEOF_HEADER; lia]. apply (f_equal Some). by apply (slice_app []).
Qed.

#[local] Lemma read_manifest_bytes : reader_read rdr 80 960 = Some m.
Proof.
  rewrite pack_reads; [|done|done|rewrite length_pack; lia]. apply (f_equal Some), slice_app; [done|by rewrite Hm].
Qed.

#[local] Lemma read_index_bytes : reader_read rdr 1040 (308 * count) = Some index.
Proof.
  rewrite pack_reads; [|done|lia|rewrite length_pack; lia]. apply (f_equal Some). unfold pack. rewrite app_assoc.
  apply slice_app; [rewrite length_app, Hm; done|rewrite length_index; lia].
Qed.

#[local] Lemma entry_lookup i f : fs !! i = Some f → file_entry index (Z.of_nat i) = pack_entry (offset_of fs i) f.
Proof.
  intros Hi. apply (slice_concat (pack_index 0 fs) 308); [by apply pack_index_lengths|].
  by rewrite (pack_index_lookup fs 0 i f Hi).
Qed.

#[local] Lemma entries_pack : pkg_entries index count = pack_index 0 fs.
Proof.
  apply list_eq. intros i. unfold pkg_entries. rewrite list_lookup_fmap. destruct (fs !! i) as [f|] eqn:Hi.
  - pose proof (lookup_lt_Some _ _ _ Hi). rewrite lookup_seqZ_lt by lia. cbn [fmap option_fmap option_map].
    rewrite (pack_index_lookup fs 0 i f Hi). f_equal. by apply entry_lookup.
  - apply lookup_ge_None in Hi. rewrite lookup_seqZ_ge by lia. symmetry. apply lookup_ge_None. by rewrite length_pack_index.
Qed.

(** Where a file lies in the payload. *)
#[local] Lemma offset_bounds i f : fs !! i = Some f → 0 ≤ offset_of fs i ∧ offset_of fs i + sf_size f ≤ Z.of_nat (length (payload fs)).
Proof. intros Hi. unfold offset_of, sf_size. rewrite (payload_split fs i f Hi), !length_app. lia. Qed.

#[local] Lemma offset_u64 i f : fs !! i = Some f → 0 ≤ offset_of fs i < W64.
Proof. intros Hi. pose proof (offset_bounds i f Hi). unfold sf_size, KPKG_MAX_TOTAL_SIZE, W64 in *. lia. Qed.

#[local] Lemma source_lookup i f : fs !! i = Some f → source_ok f.
Proof. intros Hi. rewrite Forall_forall in Hfs. apply Hfs. by apply list_elem_of_lookup_2 with i. Qed.

#[local] Lemma content_slice i f :
  fs !! i = Some f → slice (pack m fs) (1040 + 308 * count + offset_of fs i) (Z.to_nat (sf_size f)) = sf_content f.
Proof.
  intros Hi. unfold pack. rewrite (payload_split fs i f Hi) at 2. rewrite !app_assoc. rewrite <- !(app_assoc _ (sf_content f)).
  apply slice_app; [|unfold sf_size; lia]. rewrite !length_app, Hm, length_index, length_pack_header. unfold offset_of. lia.
Qed.

#[local] Lemma entries_ok : Forall (entry_ok (Z.of_nat (length (payload fs)))) (pack_index 0 fs).
Proof.
  apply Forall_lookup_2. intros i e He. destruct (fs !! i) as [f|] eqn:Hi.
  2: { apply lookup_ge_None in Hi. apply lookup_lt_Some in He. rewrite length_pack_index in He. lia. }
  rewrite (pack_index_lookup fs 0 i f Hi) in He. injection He as <-. pose proof (source_lookup i f Hi) as Hf.
  destruct (pack_entry_fields (0 + offset_of fs i) f Hf (offset_u64 i f Hi)) as (E1 & E2 & _).
  pose proof (offset_bounds i f Hi). unfold entry_ok. rewrite pack_entry_path, E1, E2 by done. destruct Hf as [Hv Hs].
  split_and!; [done|done|]. unfold KPKG_MAX_TOTAL_SIZE in Htotal. rewrite u64_small by (unfold is_u64, W64, sf_size in *; lia). lia.
Qed.

#[local] Lemma total_pack : total_size (pack_index 0 fs) = Z.of_nat (length (payload fs)).
Proof.
  assert (∀ off, 0 ≤ off → off + Z.of_nat (length (payload fs)) < W64 →
    total_size (pack_index off fs) = Z.of_nat (length (payload fs))) as H.
  { clear Hcount Htotal. revert Hfs. clear. induction fs as [|f l IH]; intros Hf off H0 Hw; [done|].
    apply Forall_cons in Hf as [Hf Hl]. unfold payload in *. cbn [fmap list_fmap concat pack_index total_size foldr] in *.
    rewrite length_app in *. destruct (pack_entry_fields off f Hf) as (-> & _); [lia|]. fold (total_size (pack_index (off + sf_size f) l)).
    rewrite IH by (unfold sf_size in *; done || lia). unfold sf_size. lia. }
  apply H; unfold KPKG_MAX_TOTAL_SIZE, W64 in *; lia.
Qed.

#[local] Lemma sizes_pack : Forall (λ e, 0 ≤ f_size e ≤ KPKG_MAX_FILE_SIZE) (pack_index 0 fs).
Proof.
  apply Forall_lookup_2. intros i e He. destruct (fs !! i) as [f|] eqn:Hi.
  2: { apply lookup_ge_None in Hi. apply lookup_lt_Some in He. rewrite length_pack_index in He. lia. }
  rewrite (pack_index_lookup fs 0 i f Hi) in He. injection He as <-. pose proof (source_lookup i f Hi) as Hf.
  destruct (pack_entry_fields (0 + offset_of fs i) f Hf (offset_u64 i f Hi)) as (-> & _). destruct Hf. unfold sf_size in *. lia.
Qed.

Definition packed : kpkg_package := Package hdr m (if decide (fs = []) then None else Some index) count rdr false false.

Lemma open_pack : kpkg_open true rdr = Some packed.
Proof.
  unfold kpkg_open. cbn [memory_reader read get_size]. unfold memory_get_size. rewrite length_pack.
  destruct (header_fields count (Z.of_nat (length (payload fs)))) as (H1 & H2 & H3 & H4 & H5 & H6 & H7 & H8); [lia|lia|].
  destruct (Z.ltb_spec (1040 + 308 * count + Z.of_nat (length (payload fs))) SIZEOF_HEADER); [unfold SIZEOF_HEADER in *; lia|].
  fold rdr. rewrite read_header. cbn [mbind option_bind]. rewrite H1, H2. cbn [negb].
  unfold read_manifest. rewrite H3, H4. cbn [Z.gtb Z.compare]. unfold KPKG_MAX_FILES, KPKG_MAX_TOTAL_SIZE in *.
  rewrite Z.gtb_ltb, u64_small by (unfold is_u64, W64; lia). destruct (Z.ltb_spec (1040 + 308 * count + Z.of_nat (length (payload fs))) (80 + 960)); [lia|].
  rewrite read_manifest_bytes. cbn [mbind option_bind].
  assert (splice (replicate (Z.to_nat SIZEOF_MANIFEST) 0) 0 m = m) as ->.
  { unfold splice. rewrite Hm, drop_ge by (rewrite length_replicate; done). by rewrite app_nil_r. }
  rewrite Hid. cbn [negb mbind option_bind]. unfold read_index. rewrite H5, H6, H8, !Z.gtb_ltb. unfold packed.
  destruct (Z.ltb_spec 0 count) as [Hc|Hc].
  2: { destruct fs; [done|cbn in Hc; lia]. }
  rewrite decide_False by (intros ->; cbn in Hc; lia). replace (count * SIZEOF_FILE_ENTRY) with (308 * count) by (unfold SIZEOF_FILE_ENTRY; lia).
  rewrite (u64_small (308 * count)) by (unfold is_u64, W64; lia). rewrite u64_small by (unfold is_u64, W64; lia).
  destruct (Z.ltb_spec (1040 + 308 * count + Z.of_nat (length (payload fs))) (1040 + 308 * count)); [lia|]. cbn [negb].
  rewrite read_index_bytes. cbn [mbind option_bind]. rewrite entries_pack, check_entries_spec, bool_decide_true by apply entries_ok.
  cbn [mbind option_bind]. rewrite sizes_no_wrap; [|apply sizes_pack|done|rewrite length_pack_index; unfold KPKG_MAX_FILE_SIZE, W64; lia].
  rewrite total_pack, Z.gtb_ltb. by destruct (Z.ltb_spec (KPKG_MAX_TOTAL_SIZE) (0 + Z.of_nat (length (payload fs)))); [unfold KPKG_MAX_TOTAL_SIZE in *; lia|].
Qed.

#[local] Lemma packed_files i f : fs !! i = Some f → files packed = Some index.
Proof. intros Hi. unfold packed. cbn [files]. by rewrite decide_False by (intros E; rewrite E in Hi; done). Qed.

#[local] Lemma packed_offset i f :
  fs !! i = Some f →
  h_payload_offset (header packed) + f_payload_offset (pack_entry (offset_of fs i) f) = 1040 + 308 * count + offset_of fs i.
Proof.
  intros Hi. destruct (header_fields count (Z.of_nat (length (payload fs)))) as (_ & _ & _ & _ & _ & _ & H & _); [lia|lia|].
  cbn [packed header]. rewrite H. destruct (pack_entry_fields (offset_of fs i) f) as (_ & -> & _); [by apply (source_lookup i)|by apply (offset_u64 i f)|done].
Qed.

#[local] Lemma pack_u64 : Z.of_nat (length (pack m fs)) < W64.
Proof. rewrite length_pack. unfold KPKG_MAX_FILES, KPKG_MAX_TOTAL_SIZE, W64 in *. lia. Qed.

#[local] Lemma check_pack i f : fs !! i = Some f → check_hash packed (pack_entry (offset_of fs i) f) = true.
Proof.
  intros Hi. pose proof (offset_bounds i f Hi).
  destruct (pack_entry_fields (offset_of fs i) f) as (E1 & _ & E3); [by apply (source_lookup i)|by apply (offset_u64 i f)|].
  rewrite (check_hash_reads packed (pack m fs)); rewrite ?(packed_offset i f Hi), ?E1;
    [|apply pack_reads|apply pack_u64|unfold sf_size; lia|lia|rewrite length_pack; lia].
  rewrite (content_slice i f Hi), E3. by rewrite bool_decide_true.
Qed.

Lemma verify_pack : kpkg_verify_integrity true packed = (with_integrity packed, true).
Proof.
  unfold kpkg_verify_integrity, packed at 1. cbn [files]. case_decide as Hd.
  { cbn [file_count packed]. by rewrite Hd. }
  cbn [negb]. cbn [file_count packed]. rewrite entries_pack.
  assert (forallb (check_hash packed) (pack_index 0 fs) = true) as Hall; [|unfold packed in Hall |- *; by rewrite Hall].
  apply forallb_forall. intros e He. apply list_elem_of_In, list_elem_of_lookup in He as [i He].
  destruct (fs !! i) as [f|] eqn:Hi.
  - rewrite (pack_index_lookup fs 0 i f Hi) in He. injection He as <-. by apply check_pack.
  - apply lookup_ge_None in Hi. apply lookup_lt_Some in He. rewrite length_pack_index in He. lia.
Qed.

Lemma extract_pack i f :
  fs !! i = Some f → kpkg_extract_file true packed (Z.of_nat i) = Some (sf_content f ++ [0], sf_size f).
Proof.
  intros Hi. pose proof (offset_bounds i f Hi) as Ho. pose proof (lookup_lt_Some _ _ _ Hi) as Hlt. unfold kpkg_extract_file.
  rewrite (packed_files i f Hi). change (file_count packed) with count. rewrite Z.geb_leb.
  destruct (Z.leb_spec count (Z.of_nat i)); [lia|]. cbn [mbind option_bind negb]. rewrite (entry_lookup i f Hi).
  destruct (pack_entry_fields (offset_of fs i) f) as (E1 & _ & E3); [by apply (source_lookup i)|by apply (offset_u64 i f)|].
  pose proof pack_u64 as Hw. pose proof length_pack as Hl.
  rewrite (packed_offset i f Hi), E1, E3. rewrite u64_small by (unfold is_u64, sf_size in *; lia).
  change (reader packed) with rdr. rewrite pack_reads; [|lia|unfold sf_size; lia|lia]. cbn [mbind option_bind].
  rewrite (content_slice i f Hi), sha256_one. by rewrite bool_decide_true.
Qed.

Lemma paths_pack : f_path <$> opened_entries packed = sf_path <$> fs.
Proof.
  unfold opened_entries. change (file_count packed) with count. cbn [packed files].
  assert (pkg_entries (default [] (if decide (fs = []) then None else Some index)) count = pack_index 0 fs) as ->.
  { case_decide as Hd; cbn [default]; [by rewrite Hd|apply entries_pack]. }
  apply list_eq. intros i. rewrite !list_lookup_fmap. destruct (fs !! i) as [f|] eqn:Hi.
  - rewrite (pack_index_lookup fs 0 i f Hi). cbn. f_equal. by apply pack_entry_path, (source_lookup i).
  - apply lookup_ge_None in Hi. rewrite (proj2 (lookup_ge_None (pack_index 0 fs) i)) by by rewrite length_pack_index. done.
Qed.
End roundtrip.

(** C24: A package built from a manifest with a well-formed application id and files
    with acceptable paths and sizes, laid out as the self-test of installer.c does,
    can be opened from memory; the manifest and the paths are those that were
    packed, the integrity check passes, and extracting a file gives its
    content. *)
Theorem kpkg_roundtrip m fs :
  length m = 960%nat → kpkg_validate_app_id (Some (m_app_id m)) = true → Forall source_ok fs →
  Z.of_nat (length fs) ≤ KPKG_MAX_FILES → Z.of_nat (length (payload fs)) ≤ KPKG_MAX_TOTAL_SIZE →
  ∃ p, kpkg_open true (memory_reader (pack m fs)) = Some p ∧ manifest p = m ∧
    f_path <$> opened_entries p = sf_path <$> fs ∧
    kpkg_verify_integrity true p = (with_integrity p, true) ∧
    ∀ i f, fs !! i = Some f → kpkg_extract_file true p (Z.of_nat i) = Some (sf_content f ++ [0], sf_size f).
Proof.
  intros. exists (packed m fs).
  split_and!; [by apply open_pack|done|by apply paths_pack|by apply verify_pack|intros; by apply extract_pack].
Qed.

(** ** A package of two files *)

Definition sample_manifest : list Z := [99; 111; 109; 46; 107; 111; 115] ++ replicate 953 0.

Definition sample_files : list source_file :=
  [SourceFile [98; 105; 110; 47; 97] 0 [127; 69; 76; 70]; SourceFile [82; 69; 65; 68; 77; 69] 0 [75; 79; 83]].

Lemma sample_sources : Forall source_ok sample_files.
Proof. repeat constructor; done. Qed.

Lemma kpkg_roundtrip_witness :
  ∃ p, kpkg_open true (memory_reader (pack sample_manifest sample_files)) = Some p ∧
    kpkg_extract_file true p 1 = Some ([75; 79; 83; 0], 3).
Proof.
  destruct (kpkg_roundtrip sample_manifest sample_files ltac:(done) ltac:(done) sample_sources ltac:(done) ltac:(done))
    as (p & Ho & _ & _ & _ & He).
  exists p. split; [exact Ho|]. exact (He 1%nat _ eq_refl).
Defined.

(** A reader over a buffer that refuses sums that wrap. *)
Definition checked_reader (data : list Z) : kpkg_reader :=
  Reader (Some (λ offset size, if (0 <=? offset) && (0 <=? size) then if offset + size <=? Z.of_nat (length data)
                               then Some (slice data offset (Z.to_nat size)) else None else None))
    (Some (Z.of_nat (length data))).

Lemma checked_reader_ok data : Forall is_u8 data → reader_ok (checked_reader data).
Proof.
  intros Hd offset size bytes. unfold reader_read, checked_reader. cbn.
  destruct (Z.leb_spec 0 offset), (Z.leb_spec 0 size); cbn; try done.
  destruct (Z.leb_spec (offset + size) (Z.of_nat (length data))); [|done]. intros [= <-].
  split; [by apply slice_u8|]. rewrite length_slice_full by lia. lia.
Qed.

Lemma sample_open :
  Forall is_u8 (pack sample_manifest sample_files) ∧
  bool_decide (is_Some (kpkg_open true (checked_reader (pack sample_manifest sample_files)))) = true.
Proof.
  split; [|vm_compute; reflexivity]. apply Forall_forall. intros b Hb.
  assert (forallb (λ b, (0 <=? b) && (b <? 256)) (pack sample_manifest sample_files) = true) as H by (vm_compute; reflexivity).
  rewrite forallb_forall in H. apply list_elem_of_In, H in Hb. unfold is_u8. lia.
Qed.

Lemma kpkg_open_safe_witness :
  ∃ p, kpkg_open true (checked_reader (pack sample_manifest sample_files)) = Some p ∧
    total_size (opened_entries p) ≤ KPKG_MAX_TOTAL_SIZE.
Proof.
  destruct sample_open as [Hu Ho]. apply bool_decide_eq_true in Ho. destruct Ho as [p Hp]. exists p. split; [exact Hp|].
  apply (kpkg_open_safe true (checked_reader (pack sample_manifest sample_files)) p (checked_reader_ok _ Hu) Hp).
Defined.
