(* ===== verification/PkgDb.v ===== *)
(** * Package database (src/kernel/pkg_db.c, src/include/kos/pkg_db.h)

    The table of installed applications and the table of the files they own.
    Strings are lists of characters; a pointer to a record is its slot.  Each
    operation is one critical section of [g_pkg_db.lock]. *)

From Stdlib Require Import ZArith Lia.
From Stdlib Require Ascii String.
From stdpp Require Import gmap.
From S2P Require Import Prelude Bytes Format FormatSpec Kpkg.
Import String.StringSyntax.
#[local] Open Scope string_scope.
#[local] Open Scope Z_scope.

Definition PKG_DB_MAX_PACKAGES : nat := 64.
Definition PKG_DB_MAX_FILES_TOTAL : nat := 1024.

Inductive pkg_state := PKG_STATE_UNUSED | PKG_STATE_INSTALLED | PKG_STATE_STAGED | PKG_STATE_BROKEN.

#[export] Instance pkg_state_eq_dec : EqDecision pkg_state.
Proof. solve_decision. Defined.

Record pkg_file_record := FileRecord {
  fr_path : list Z; fr_size : Z; fr_sha256 : list Z; pkg_index : nat; in_use : bool
}.

(** [file_indices] holds the first [file_count] entries of the array. *)
Record pkg_record := PkgRecord {
  id : Z; state : pkg_state; app_id : list Z; name : list Z; version : list Z; version_code : Z;
  install_path : list Z; data_path : list Z; entry_point : list Z; permissions : Z; install_timestamp : Z;
  file_indices : list nat
}.

(** The counters [package_count] and [file_count] are never used. *)
Record pkg_database := PkgDatabase { packages : list pkg_record; db_files : list pkg_file_record; initialized : bool }.

(** Records after [memset]. *)
Definition zero_record : pkg_record := PkgRecord 0 PKG_STATE_UNUSED [] [] [] 0 [] [] [] 0 0 [].
Definition zero_file : pkg_file_record := FileRecord [] 0 (replicate 32 0) 0 false.

Definition zero_database (initialized : bool) : pkg_database :=
  PkgDatabase (replicate PKG_DB_MAX_PACKAGES zero_record) (replicate PKG_DB_MAX_FILES_TOTAL zero_file) initialized.

Definition pkg_db_init (db : pkg_database) : pkg_database * bool :=
  if initialized db then (db, true) else (zero_database true, true).

(** The text that [snprintf] leaves in a buffer of [KPKG_MAX_PATH_LEN] bytes. *)
Definition format_path (format : list Z) (args : list va) : list Z :=
  match ksnprintf (Some (replicate (Z.to_nat KPKG_MAX_PATH_LEN) 0)) KPKG_MAX_PATH_LEN (Some format) args with
  | Some (_, Some buffer) => cstring buffer
  | _ => []
  end.

Definition join_path (a b : list Z) : list Z := format_path (ascii "%s/%s") [VStr (Some a); VStr (Some b)].

(** ** Searching *)

Definition is_installed (p : pkg_record) : bool := bool_decide (state p = PKG_STATE_INSTALLED).

Definition installed_as (key : list Z) (p : pkg_record) : bool := is_installed p && bool_decide (app_id p = key).

Fixpoint find_package (i : nat) (key : list Z) (l : list pkg_record) : option nat :=
  match l with
  | [] => None
  | p :: l => if installed_as key p then Some i else find_package (S i) key l
  end.

Definition pkg_db_find (key : option (list Z)) (db : pkg_database) : option nat :=
  match key with
  | None => None
  | Some key => if negb (initialized db) then None else find_package 0 key (packages db)
  end.

Definition pkg_db_find_by_index (index : nat) (db : pkg_database) : option nat :=
  if (PKG_DB_MAX_PACKAGES <=? index)%nat || negb (initialized db) then None
  else
    match packages db !! index with
    | Some p => if is_installed p then Some index else None
    | None => None
    end.

Definition pkg_db_count (db : pkg_database) : Z :=
  if negb (initialized db) then 0
  else fold_left (λ count p, if is_installed p then count + 1 else count) (packages db) 0.

(** ** Registering *)

(** The slot of the application, else the first unused one. *)
Fixpoint find_register_slot (i : nat) (slot : option nat) (key : list Z) (l : list pkg_record) : option nat :=
  match l with
  | [] => slot
  | p :: l =>
      if installed_as key p then Some i
      else find_register_slot (S i)
             (if bool_decide (slot = None) && bool_decide (state p = PKG_STATE_UNUSED) then Some i else slot) key l
  end.

Definition release_file (f : pkg_file_record) : pkg_file_record :=
  FileRecord (fr_path f) (fr_size f) (fr_sha256 f) (pkg_index f) false.

(** Entries outside the table are skipped. *)
Definition release_files (indices : list nat) (files : list pkg_file_record) : list pkg_file_record :=
  foldl (λ files g, alter release_file g files) files indices.

Fixpoint find_free_file (i : nat) (l : list pkg_file_record) : option nat :=
  match l with
  | [] => None
  | f :: l => if negb (in_use f) then Some i else find_free_file (S i) l
  end.

Definition register_file (slot : nat) (path : list Z) (s : list pkg_file_record * list nat) (f : list Z)
    : list pkg_file_record * list nat :=
  let '(files, indices) := s in
  if Z.of_nat (length indices) <? KPKG_MAX_FILES then
    match find_free_file 0 files with
    | Some g => (<[g := FileRecord (join_path path (f_path f)) (f_size f) (f_sha256 f) slot true]> files, indices ++ [g])
    | None => (files, indices)
    end
  else (files, indices).

(** The data path of a call: a string of the caller, or the field of a record of
    the database itself. *)
Inductive string_arg := Str (s : list Z) | DataPathOf (slot : nat).

Definition string_value (packages : list pkg_record) (a : string_arg) : list Z :=
  match a with Str s => s | DataPathOf i => default [] (data_path <$> packages !! i) end.

(** [strncpy] into a cleared array of [n + 1] characters. *)
Definition strncpy (n : nat) (s : list Z) : list Z := take n (cstring s).

(** The record is cleared before its fields are copied from the arguments. *)
Definition fill_record (slot : nat) (m : list Z) (path : list Z) (data : string_arg) (now : Z) (cleared : list pkg_record)
    (indices : list nat) : pkg_record :=
  PkgRecord (Z.of_nat slot + 1) PKG_STATE_INSTALLED (strncpy 63 (slice m 0 64)) (strncpy 63 (m_name m)) (strncpy 31 (m_version m))
    (m_version_code m) (strncpy 255 path) (strncpy 255 (string_value cleared data)) (strncpy 255 (m_entry_point m))
    (m_permissions m) now indices.

Definition pkg_db_register (m path : option (list Z)) (data : option string_arg) (entries : list (list Z)) (now : Z)
    (db : pkg_database) : pkg_database * option nat :=
  match m, path, data with
  | Some m, Some path, Some data =>
      if negb (initialized db) then (db, None)
      else
        match find_register_slot 0 None (m_app_id m) (packages db) with
        | None => (db, None)
        | Some slot =>
            let old := default zero_record (packages db !! slot) in
            let files := if is_installed old then release_files (file_indices old) (db_files db) else db_files db in
            let cleared := <[slot := zero_record]> (packages db) in
            let '(files, indices) := foldl (register_file slot path) (files, []) entries in
            (PkgDatabase (<[slot := fill_record slot m path data now cleared indices]> cleared) files true, Some slot)
        end
  | _, _, _ => (db, None)
  end.

Definition pkg_db_unregister (key : option (list Z)) (db : pkg_database) : pkg_database * bool :=
  match pkg_db_find key db with
  | None => (db, false)
  | Some i =>
      let old := default zero_record (packages db !! i) in
      (PkgDatabase (<[i := zero_record]> (packages db)) (release_files (file_indices old) (db_files db)) (initialized db), true)
  end.

(** The owner of a path: its application id. *)
Fixpoint find_owner (path : list Z) (pkgs : list pkg_record) (l : list pkg_file_record) : option (list Z) :=
  match l with
  | [] => None
  | f :: l =>
      if in_use f && bool_decide (fr_path f = path) then
        match pkgs !! pkg_index f with
        | Some p => if is_installed p then Some (app_id p) else find_owner path pkgs l
        | None => find_owner path pkgs l
        end
      else find_owner path pkgs l
  end.

(** The string that is left in the buffer of [max_len] characters; [None] for
    false, [Some None] when no buffer is given. *)
Definition pkg_db_is_file_owned (path : option (list Z)) (buffer : bool) (max_len : nat) (db : pkg_database)
    : option (option (list Z)) :=
  match path with
  | None => None
  | Some path =>
      if negb (initialized db) then None
      else
        owner ← find_owner path (packages db) (db_files db);
        Some (if buffer && (0 <? max_len)%nat then Some (take (max_len - 1) owner) else None)
  end.

(** ** Formatted paths *)

(** A plain conversion of a string, and an ordinary character. *)
Lemma render_string n rest s args :
  render_loop (S n) (37 :: 115 :: rest) (VStr (Some s) :: args) = app s <$> render_loop n rest args.
Proof.
  cbn [render_loop]. change (parse_conversion (115 :: rest)) with (Some (Conversion false false 0 (-1) 0 115, rest)).
  cbn [negb Z.eqb Pos.eqb mbind option_bind]. cbn -[field]. unfold field. cbn [left_align width length Nat.add app].
  by replace (Z.to_nat (0 - Z.of_nat (length s))) with 0%nat by lia.
Qed.

Lemma render_char n c rest args : (c =? 37) = false → render_loop (S n) (c :: rest) args = cons c <$> render_loop n rest args.
Proof. intros H. cbn [render_loop]. by rewrite H. Qed.

Ltac render := unfold render; cbn [length ascii]; repeat (rewrite render_string || rewrite render_char by done); cbn.

Lemma format_path_text format args text :
  render format args = Some text → Forall (λ c, c ≠ 0) text → Z.of_nat (length text) ≤ INT_MAX →
  format_path format args = take 255 text.
Proof.
  intros Hr Hn Hl. unfold format_path, ksnprintf.
  rewrite (kvsnprintf_text _ _ _ _ text); [|done|done|done|done]. unfold filled_buffer.
  change (KPKG_MAX_PATH_LEN >? 0) with true. cbv iota. change (Z.to_nat (KPKG_MAX_PATH_LEN - 1)) with 255%nat.
  unfold splice. change (Z.to_nat 0) with 0%nat. rewrite take_0. cbn [app]. rewrite <- app_assoc.
  by apply cstring_app, Forall_take.
Qed.

Lemma join_path_text a b :
  Forall (λ c, c ≠ 0) a → Forall (λ c, c ≠ 0) b → Z.of_nat (length a + length b) < INT_MAX →
  join_path a b = take 255 (a ++ 47 :: b).
Proof.
  intros Ha Hb Hl. apply format_path_text.
  - change (ascii _) with [37; 115; 47; 37; 115]. render. by rewrite app_nil_r.
  - apply Forall_app. split; [done|]. by constructor.
  - rewrite length_app. cbn [length]. lia.
Qed.

(** ** The invariant *)

Record db_ok (db : pkg_database) : Prop := {
  ok_packages : length (packages db) = PKG_DB_MAX_PACKAGES;
  ok_files : length (db_files db) = PKG_DB_MAX_FILES_TOTAL;
  ok_state i p : packages db !! i = Some p → state p = PKG_STATE_INSTALLED ∨ p = zero_record;
  ok_unique i j p q : packages db !! i = Some p → packages db !! j = Some q →
    state p = PKG_STATE_INSTALLED → state q = PKG_STATE_INSTALLED → app_id p = app_id q → i = j;
  ok_distinct i p : packages db !! i = Some p → NoDup (file_indices p);
  ok_owned i p g : packages db !! i = Some p → g ∈ file_indices p →
    ∃ f, db_files db !! g = Some f ∧ in_use f = true ∧ pkg_index f = i;
  ok_owner g f : db_files db !! g = Some f → in_use f = true →
    ∃ p, packages db !! pkg_index f = Some p ∧ g ∈ file_indices p
}.

(** The record under which an application is installed. *)
Definition installed (db : pkg_database) (key : list Z) : option pkg_record :=
  i ← pkg_db_find (Some key) db; packages db !! i.

Lemma installed_as_spec key p : installed_as key p = true ↔ state p = PKG_STATE_INSTALLED ∧ app_id p = key.
Proof. unfold installed_as, is_installed. repeat case_bool_decide; naive_solver. Qed.

Lemma find_package_spec i key l :
  match find_package i key l with
  | Some k => ∃ j p, k = (i + j)%nat ∧ l !! j = Some p ∧ installed_as key p = true
  | None => Forall (λ p, installed_as key p = false) l
  end.
Proof.
  revert i. induction l as [|p l IH]; intros i; cbn [find_package]; [constructor|]. destruct (installed_as key p) eqn:Hp.
  - exists 0%nat, p. split; [lia|done].
  - specialize (IH (S i)). destruct (find_package (S i) key l) as [k|]; [|by constructor].
    destruct IH as (j & q & -> & Hj & Hq). exists (S j), q. split; [lia|done].
Qed.

(** A search finds the one record with the id. *)
Lemma installed_iff db key p :
  db_ok db → initialized db = true →
  installed db key = Some p ↔ ∃ i, packages db !! i = Some p ∧ state p = PKG_STATE_INSTALLED ∧ app_id p = key.
Proof.
  intros Hok Hi. unfold installed, pkg_db_find. rewrite Hi. cbn [negb].
  pose proof (find_package_spec 0 key (packages db)) as Hf. destruct (find_package 0 key (packages db)) as [k|]; cbn [mbind option_bind].
  - destruct Hf as (j & q & -> & Hj & [Hs Ha]%installed_as_spec). cbn [Nat.add]. rewrite Hj. split.
    + intros [= <-]. by exists j.
    + intros (i & Hp & Hsp & Hap). f_equal. assert (i = j) as -> by (apply (ok_unique db Hok i j p q); congruence). congruence.
  - split; [done|]. intros (i & Hp & Hs & Ha). rewrite Forall_forall in Hf.
    assert (installed_as key p = false) as He by (apply Hf; by apply list_elem_of_lookup_2 with i).
    assert (installed_as key p = true) by (by apply installed_as_spec). congruence.
Qed.

Lemma find_installed db key i :
  pkg_db_find (Some key) db = Some i → ∃ p, packages db !! i = Some p ∧ state p = PKG_STATE_INSTALLED ∧ app_id p = key.
Proof.
  unfold pkg_db_find. destruct (initialized db); [|done]. cbn [negb]. intros Hf.
  pose proof (find_package_spec 0 key (packages db)) as H. rewrite Hf in H.
  destruct H as (j & q & -> & Hj & [Hs Ha]%installed_as_spec). by exists q.
Qed.

(** ** The file table *)

Lemma release_lookup indices : ∀ files g,
  release_files indices files !! g = if decide (g ∈ indices) then release_file <$> files !! g else files !! g.
Proof.
  unfold release_files. induction indices as [|x l IH]; intros files g; cbn [foldl].
  { by rewrite decide_False by apply not_elem_of_nil. }
  rewrite IH. destruct (decide (g = x)) as [->|Hne].
  - rewrite list_lookup_alter_eq. rewrite (decide_True _ _ (proj2 (elem_of_cons _ _ _) (or_introl eq_refl))).
    case_decide; [|done]. by destruct (files !! x).
  - rewrite list_lookup_alter_ne by done. repeat case_decide; set_solver.
Qed.

Lemma length_release indices : ∀ files, length (release_files indices files) = length files.
Proof.
  unfold release_files. induction indices as [|x l IH]; intros files; cbn [foldl]; [done|]. by rewrite IH, length_alter.
Qed.

Lemma find_free_spec i l :
  match find_free_file i l with
  | Some k => ∃ j f, k = (i + j)%nat ∧ l !! j = Some f ∧ in_use f = false
  | None => Forall (λ f, in_use f = true) l
  end.
Proof.
  revert i. induction l as [|f l IH]; intros i; cbn [find_free_file]; [constructor|]. destruct (in_use f) eqn:Hf; cbn [negb].
  - specialize (IH (S i)). destruct (find_free_file (S i) l) as [k|]; [|by constructor].
    destruct IH as (j & q & -> & Hj & Hq). exists (S j), q. split; [lia|done].
  - exists 0%nat, f. split; [lia|done].
Qed.

(** The files that a record lists. *)
Definition file_path (files : list pkg_file_record) (g : nat) : list Z := default [] (fr_path <$> files !! g).

(** What registering files does to the table: new entries at free places, in the
    order of the package, for as many files as fit. *)
Record registered (slot : nat) (path : list Z) (files : list pkg_file_record) (entries : list (list Z))
    (files' : list pkg_file_record) (indices : list nat) : Prop := {
  rg_length : length files' = length files;
  rg_nodup : NoDup indices;
  rg_max : Z.of_nat (length indices) ≤ KPKG_MAX_FILES;
  rg_new g : g ∈ indices → ∃ f, files' !! g = Some f ∧ in_use f = true ∧ pkg_index f = slot;
  rg_free g f : g ∈ indices → files !! g = Some f → in_use f = false;
  rg_old g : g ∉ indices → files' !! g = files !! g;
  rg_prefix : file_path files' <$> indices = (λ f, join_path path (f_path f)) <$> take (length indices) entries;
  rg_all : length indices = length entries ∨ Z.of_nat (length indices) = KPKG_MAX_FILES ∨ Forall (λ f, in_use f = true) files'
}.

Lemma file_path_insert files g f (indices : list nat) : g ∉ indices → file_path (<[g := f]> files) <$> indices = file_path files <$> indices.
Proof.
  intros Hg. apply list_fmap_ext. intros i x Hx. unfold file_path. rewrite list_lookup_insert_ne; [done|].
  intros ->. apply Hg. by apply list_elem_of_lookup_2 with i.
Qed.

Lemma register_files_spec slot path files entries :
  let '(files', indices) := foldl (register_file slot path) (files, []) entries in
  registered slot path files entries files' indices.
Proof.
  induction entries as [|e l IH] using rev_ind; cbn [foldl].
  { split; try done; [constructor|set_solver|set_solver|by left]. }
  rewrite foldl_app. destruct (foldl (register_file slot path) (files, []) l) as [files' indices]. cbn [foldl register_file].
  destruct IH as [Hl Hn Hm Hnew Hfree Hold Hpre Hall].
  assert (length indices ≤ length l)%nat as Hle.
  { apply (f_equal length) in Hpre. rewrite !length_fmap, length_take in Hpre. lia. }
  assert (take (length indices) (l ++ [e]) = take (length indices) l) as Htake by (rewrite take_app_le by lia; done).
  destruct (Z.ltb_spec (Z.of_nat (length indices)) KPKG_MAX_FILES) as [Hlt|Hge].
  2: { split; try done; [by rewrite Htake|]. right; left. lia. }
  pose proof (find_free_spec 0 files') as Hff. destruct (find_free_file 0 files') as [g|].
  2: { split; try done; [by rewrite Htake|by right; right]. }
  destruct Hff as (j & f & -> & Hj & Hu). cbn [Nat.add].
  assert (j ∉ indices) as Hnj by (intros (f' & Hf' & Hu' & _)%Hnew; congruence).
  assert (length indices = length l) as Hlen.
  { destruct Hall as [?|[?|Hall]]; [done|lia|]. rewrite Forall_forall in Hall.
    rewrite Hall in Hu; [done|]. by apply list_elem_of_lookup_2 with j. }
  pose proof (lookup_lt_Some _ _ _ Hj) as Hjl. split.
  - by rewrite length_insert.
  - apply NoDup_app. split_and!; [done|set_solver|apply NoDup_singleton].
  - rewrite length_app. cbn [length]. lia.
  - intros g [Hg|Hg]%elem_of_app.
    + rewrite list_lookup_insert_ne by (intros ->; done). by apply Hnew.
    + apply list_elem_of_singleton in Hg as ->. rewrite list_lookup_insert_eq by done. by eexists.
  - intros g f' [Hg|Hg]%elem_of_app Hf'; [by apply (Hfree g f')|]. apply list_elem_of_singleton in Hg as ->.
    rewrite Hold in Hj by done. congruence.
  - intros g Hg. rewrite list_lookup_insert_ne by set_solver. apply Hold. set_solver.
  - rewrite length_app, fmap_app, file_path_insert by done. cbn [length fmap list_fmap].
    rewrite Hlen, take_ge by (rewrite length_app; cbn; lia). rewrite fmap_app, Hpre, Hlen, take_ge by lia. f_equal.
    unfold file_path. by rewrite list_lookup_insert_eq.
  - left. rewrite !length_app, Hlen. done.
Qed.

(** ** Clearing and filling a slot *)

Lemma cleared_ok db slot old :
  db_ok db → packages db !! slot = Some old →
  db_ok (PkgDatabase (<[slot := zero_record]> (packages db)) (release_files (file_indices old) (db_files db)) (initialized db)).
Proof.
  intros [Hp Hf Hs Hu Hd Ho Hw] Hold.
  assert (∀ i p, <[slot := zero_record]> (packages db) !! i = Some p → i = slot ∧ p = zero_record ∨ i ≠ slot ∧ packages db !! i = Some p) as Hget.
  { intros i p. rewrite list_lookup_insert_Some. naive_solver. }
  split; cbn [packages db_files].
  - by rewrite length_insert.
  - by rewrite length_release.
  - intros i p [[_ ->]|[_ Hi]]%Hget; [by right|by apply (Hs i)].
  - intros i j p q [[_ ->]|[_ Hi]]%Hget [[_ ->]|[_ Hj]]%Hget; try done. by apply Hu.
  - intros i p [[_ ->]|[_ Hi]]%Hget; [constructor|by apply (Hd i)].
  - intros i p g [[_ ->]|[Hne Hi]]%Hget Hg; [set_solver|]. destruct (Ho i p g Hi Hg) as (f & Hf' & Hu' & Hx). exists f.
    rewrite release_lookup, decide_False; [done|]. intros Hg'. destruct (Ho slot old g Hold Hg') as (f2 & ? & _ & ?). congruence.
  - intros g f. rewrite release_lookup. case_decide as Hg; [by destruct (db_files db !! g); intros [= <-]|]. intros Hgf Huse.
    destruct (Hw g f Hgf Huse) as (p & Hp' & Hin). exists p. split; [|done]. rewrite list_lookup_insert_ne; [done|].
    intros E. rewrite <- E, Hold in Hp'. congruence.
Qed.

Lemma filled_ok db slot rec path entries files' :
  db_ok db → packages db !! slot = Some zero_record → state rec = PKG_STATE_INSTALLED →
  (∀ i p, packages db !! i = Some p → installed_as (app_id rec) p = false) →
  registered slot path (db_files db) entries files' (file_indices rec) →
  db_ok (PkgDatabase (<[slot := rec]> (packages db)) files' (initialized db)).
Proof.
  intros [Hp Hf Hs Hu Hd Ho Hw] Hz Hst Hfresh [Rl Rn Rm Rnew Rfree Rold _ _].
  assert (∀ i p, <[slot := rec]> (packages db) !! i = Some p → i = slot ∧ p = rec ∨ i ≠ slot ∧ packages db !! i = Some p) as Hget.
  { intros i p. rewrite list_lookup_insert_Some. naive_solver. }
  assert (∀ i p, packages db !! i = Some p → state p = PKG_STATE_INSTALLED → app_id p ≠ app_id rec) as Hdiff.
  { intros i p Hi Hsp E. specialize (Hfresh i p Hi). assert (installed_as (app_id rec) p = true) by (by apply installed_as_spec). congruence. }
  pose proof (lookup_lt_Some _ _ _ Hz) as Hlt.
  split; cbn [packages db_files].
  - by rewrite length_insert.
  - by rewrite Rl.
  - intros i p [[_ ->]|[_ Hi]]%Hget; [by left|by apply (Hs i)].
  - intros i j p q [[-> ->]|[_ Hi]]%Hget [[-> ->]|[_ Hj]]%Hget Hip Hjq E; try done;
      [by destruct (Hdiff j q Hj Hjq)|by destruct (Hdiff i p Hi Hip)|by apply (Hu i j p q)].
  - intros i p [[_ ->]|[_ Hi]]%Hget; [done|by apply (Hd i)].
  - intros i p g [[-> ->]|[Hne Hi]]%Hget Hg; [by apply Rnew|]. destruct (Ho i p g Hi Hg) as (f & Hf' & Hu' & Hx). exists f.
    rewrite Rold; [done|]. intros Hg'. rewrite (Rfree g f Hg' Hf') in Hu'. done.
  - intros g f Hgf Huse. destruct (decide (g ∈ file_indices rec)) as [Hg|Hg].
    + destruct (Rnew g Hg) as (f' & Hf' & _ & Hx). assert (f' = f) as -> by congruence. exists rec. rewrite Hx.
      by rewrite list_lookup_insert_eq.
    + rewrite Rold in Hgf by done. destruct (Hw g f Hgf Huse) as (p & Hp' & Hin). exists p. split; [|done].
      rewrite list_lookup_insert_ne; [done|]. intros E. rewrite <- E, Hz in Hp'. injection Hp' as <-. cbn in Hin. set_solver.
Qed.

Lemma find_register_spec i slot key l :
  match find_register_slot i slot key l with
  | Some k =>
      (∃ j p, k = (i + j)%nat ∧ l !! j = Some p ∧ installed_as key p = true)
      ∨ Forall (λ p, installed_as key p = false) l ∧
        (slot = Some k ∨ ∃ j p, k = (i + j)%nat ∧ l !! j = Some p ∧ state p = PKG_STATE_UNUSED)
  | None => slot = None ∧ Forall (λ p, installed_as key p = false ∧ state p ≠ PKG_STATE_UNUSED) l
  end.
Proof.
  revert i slot. induction l as [|p l IH]; intros i slot; cbn [find_register_slot].
  { destruct slot; [right; split; [constructor|by left]|by split; [|constructor]]. }
  destruct (installed_as key p) eqn:Hp; [left; exists 0%nat, p; split; [lia|done]|].
  set (slot' := if bool_decide (slot = None) && bool_decide (state p = PKG_STATE_UNUSED) then Some i else slot).
  assert (slot' = slot ∧ (slot = None → state p ≠ PKG_STATE_UNUSED) ∨ slot = None ∧ slot' = Some i ∧ state p = PKG_STATE_UNUSED) as Hs'.
  { unfold slot'. repeat case_bool_decide; cbn [andb]; naive_solver. }
  clearbody slot'. specialize (IH (S i) slot'). destruct (find_register_slot (S i) slot' key l) as [k|].
  - destruct IH as [(j & q & -> & Hj & Hq)|[Hall Hk]]; [left; exists (S j), q; split; [lia|done]|]. right. split; [by constructor|].
    destruct Hk as [->|(j & q & -> & Hj & Hq)]; [|right; exists (S j), q; split; [lia|done]].
    destruct Hs' as [[<- _]|(-> & [= ->] & Hst)]; [by left|]. right. exists 0%nat, p. split; [lia|done].
  - destruct IH as [-> Hall]. destruct Hs' as [[<- Hst]|(_ & ? & _)]; [|done]. split; [done|]. constructor; [by split; [|apply Hst]|done].
Qed.

Lemma strncpy_app_id m : Z.of_nat (length (m_app_id m)) < KPKG_MAX_APPID_LEN → strncpy 63 (slice m 0 64) = m_app_id m.
Proof. intros H. unfold strncpy. fold (m_app_id m). rewrite take_ge; [done|]. unfold KPKG_MAX_APPID_LEN in H. lia. Qed.

(** The other applications keep their records. *)
Lemma installed_insert db db' slot rec old key :
  db_ok db → db_ok db' → initialized db = true → initialized db' = true → packages db !! slot = Some old →
  packages db' = <[slot := rec]> (packages db) →
  (state old = PKG_STATE_INSTALLED → app_id old ≠ key) → (state rec = PKG_STATE_INSTALLED → app_id rec ≠ key) →
  installed db' key = installed db key.
Proof.
  intros Hok Hok' Hi Hi' Hold Hp Ho Hr. apply option_eq. intros p. rewrite !installed_iff by done. rewrite Hp.
  apply exist_proper. intros i. rewrite list_lookup_insert_Some. pose proof (lookup_lt_Some _ _ _ Hold).
  split; [naive_solver|]. intros (Hip & Hs & Ha). split; [|done]. right. split; [|done]. intros <-. naive_solver congruence.
Qed.

(** ** The operations on the invariant *)

Lemma release_old db slot old :
  db_ok db → packages db !! slot = Some old →
  (if is_installed old then release_files (file_indices old) (db_files db) else db_files db) = release_files (file_indices old) (db_files db).
Proof.
  intros Hok Ho. unfold is_installed. case_bool_decide as Hs; [done|].
  destruct (ok_state db Hok slot old Ho) as [?| ->]; done.
Qed.

(** The slot that is chosen holds the application, or is unused and nobody else
    has the id. *)
Lemma register_slot db key slot :
  db_ok db → find_register_slot 0 None key (packages db) = Some slot →
  ∃ old, packages db !! slot = Some old ∧ (state old = PKG_STATE_INSTALLED → app_id old = key) ∧
    ∀ i p, i ≠ slot → packages db !! i = Some p → installed_as key p = false.
Proof.
  intros Hok Hf. pose proof (find_register_spec 0 None key (packages db)) as H. rewrite Hf in H.
  destruct H as [(j & p & -> & Hj & [Hs Ha]%installed_as_spec)|[Hall [?|(j & p & -> & Hj & Hs)]]]; [|done|]; cbn [Nat.add]; exists p.
  - split_and!; try done. intros i q Hne Hq. destruct (installed_as key q) eqn:E; [|done]. apply installed_as_spec in E as [Hsq Haq].
    destruct Hne. apply (ok_unique db Hok i j q p); congruence.
  - split_and!; [done|congruence|]. intros i q _ Hq. rewrite Forall_forall in Hall. apply Hall. by apply list_elem_of_lookup_2 with i.
Qed.

Definition register_result (m path : list Z) (data : string_arg) (entries : list (list Z)) (now : Z) (db db' : pkg_database)
    (slot : nat) : Prop :=
  ∃ rec, packages db' !! slot = Some rec ∧ installed db' (m_app_id m) = Some rec ∧
    version_code rec = m_version_code m ∧ permissions rec = m_permissions m ∧ install_path rec = strncpy 255 path ∧
    data_path rec = strncpy 255 (match data with Str s => s | DataPathOf i =>
      if decide (i = slot) then [] else default [] (data_path <$> packages db !! i) end) ∧
    install_timestamp rec = now ∧
    file_path (db_files db') <$> file_indices rec = (λ f, join_path path (f_path f)) <$> take (length (file_indices rec)) entries ∧
    (length (file_indices rec) = length entries ∨ Z.of_nat (length (file_indices rec)) = KPKG_MAX_FILES ∨
     Forall (λ f, in_use f = true) (db_files db')).

Lemma register_spec m path data entries now db :
  db_ok db → initialized db = true → Z.of_nat (length (m_app_id m)) < KPKG_MAX_APPID_LEN →
  let '(db', r) := pkg_db_register (Some m) (Some path) (Some data) entries now db in
  db_ok db' ∧ initialized db' = true ∧
  (∀ key, key ≠ m_app_id m → installed db' key = installed db key) ∧
  match r with
  | Some slot => register_result m path data entries now db db' slot
  | None => db' = db ∧ installed db (m_app_id m) = None ∧ Forall (λ p, state p = PKG_STATE_INSTALLED) (packages db)
  end.
Proof.
  intros Hok Hi Hid. unfold pkg_db_register. rewrite Hi. cbn [negb].
  destruct (find_register_slot 0 None (m_app_id m) (packages db)) as [slot|] eqn:Hf.
  2: { pose proof (find_register_spec 0 None (m_app_id m) (packages db)) as H. rewrite Hf in H. destruct H as [_ Hall].
       split_and!; try done.
       - destruct (installed db (m_app_id m)) as [p|] eqn:E; [|done]. apply installed_iff in E as (i & Hp & Hs & Ha); [|done|done].
         rewrite Forall_forall in Hall. destruct (Hall p) as [Hn _]; [by apply list_elem_of_lookup_2 with i|].
         assert (installed_as (m_app_id m) p = true) by (by apply installed_as_spec). congruence.
       - apply Forall_lookup_2. intros i p Hp. destruct (ok_state db Hok i p Hp) as [?| ->]; [done|].
         rewrite Forall_forall in Hall. destruct (Hall zero_record) as [_ Hn]; [by apply list_elem_of_lookup_2 with i|done]. }
  destruct (register_slot db _ slot Hok Hf) as (old & Hold & Hsame & Hother). rewrite Hold. change (default zero_record (Some old)) with old.
  rewrite (release_old db slot old Hok Hold).
  pose proof (cleared_ok db slot old Hok Hold) as Hc. set (db0 := PkgDatabase _ _ _) in Hc.
  pose proof (register_files_spec slot path (release_files (file_indices old) (db_files db)) entries) as Hr.
  destruct (foldl _ _ entries) as [files' indices]. set (rec := fill_record _ _ _ _ _ _ _).
  assert (app_id rec = m_app_id m) as Ea by by apply strncpy_app_id.
  pose proof (lookup_lt_Some _ _ _ Hold) as Hlt.
  assert (packages db0 !! slot = Some zero_record) as Hz by (cbn; by rewrite list_lookup_insert_eq).
  assert (db_ok (PkgDatabase (<[slot := rec]> (packages db0)) files' (initialized db0))) as Hok'.
  { apply (filled_ok db0 slot rec path entries); try done. intros i p Hp. rewrite Ea. cbn in Hp.
    apply list_lookup_insert_Some in Hp as [(_ & <- & _)|[Hne Hp]]; [done|]. by apply (Hother i). }
  cbn [packages initialized db0] in Hok'. rewrite Hi in Hok'. split_and!; try done.
  - intros key Hkey. apply (installed_insert db _ slot rec old); try done; [cbn; by rewrite list_insert_insert_eq|naive_solver|congruence].
  - exists rec. destruct Hr as [Rl Rn Rm Rnew Rfree Rold Rpre Rall]. cbn [packages db_files]. split_and!; try done.
    + rewrite list_lookup_insert_eq by (by rewrite length_insert). done.
    + apply installed_iff; [done|done|]. exists slot. cbn [packages]. rewrite list_lookup_insert_eq by (by rewrite length_insert). done.
    + cbn. f_equal. destruct data as [s|i]; [done|]. cbn. case_decide as Hd.
      * rewrite Hd, list_lookup_insert_eq by done. done.
      * by rewrite list_lookup_insert_ne.
Qed.

Lemma unregister_spec key db :
  db_ok db → initialized db = true →
  let '(db', r) := pkg_db_unregister (Some key) db in
  db_ok db' ∧ initialized db' = true ∧ r = bool_decide (is_Some (installed db key)) ∧
  installed db' key = None ∧ (∀ key', key' ≠ key → installed db' key' = installed db key').
Proof.
  intros Hok Hi. unfold pkg_db_unregister. destruct (pkg_db_find (Some key) db) as [i|] eqn:Hf.
  2: { assert (installed db key = None) as E by (unfold installed; by rewrite Hf). rewrite E. done. }
  destruct (find_installed db key i Hf) as (old & Hold & Hs & Ha). rewrite Hold. change (default zero_record (Some old)) with old.
  pose proof (cleared_ok db i old Hok Hold) as Hc. pose proof (lookup_lt_Some _ _ _ Hold) as Hlt. split_and!; try done.
  - symmetry. apply bool_decide_eq_true. exists old. apply installed_iff; [done|done|]. by exists i.
  - destruct (installed _ key) as [p|] eqn:E; [|done]. apply installed_iff in E as (j & Hp & Hsp & Hap); [|done|done]. cbn in Hp.
    apply list_lookup_insert_Some in Hp as [(_ & <- & _)|[Hne Hp]]; [done|]. destruct Hne. apply (ok_unique db Hok i j old p); congruence.
  - intros key' Hk. apply (installed_insert db _ i zero_record old); try done. congruence.
Qed.

(** ** Ownership *)

Definition owns (db : pkg_database) (key path : list Z) : Prop :=
  ∃ p, installed db key = Some p ∧ ∃ g, g ∈ file_indices p ∧ file_path (db_files db) g = path.

Lemma find_owner_spec path pkgs l :
  match find_owner path pkgs l with
  | Some key => ∃ g f p, l !! g = Some f ∧ in_use f = true ∧ fr_path f = path ∧ pkgs !! pkg_index f = Some p ∧
      state p = PKG_STATE_INSTALLED ∧ app_id p = key
  | None => ∀ g f p, l !! g = Some f → in_use f = true → fr_path f = path → pkgs !! pkg_index f = Some p →
      state p ≠ PKG_STATE_INSTALLED
  end.
Proof.
  induction l as [|f l IH]; cbn [find_owner]; [done|].
  assert ((∃ p, in_use f = true ∧ fr_path f = path ∧ pkgs !! pkg_index f = Some p ∧ state p = PKG_STATE_INSTALLED ∧
            find_owner path pkgs (f :: l) = Some (app_id p)) ∨
          (∀ p, in_use f = true → fr_path f = path → pkgs !! pkg_index f = Some p → state p ≠ PKG_STATE_INSTALLED) ∧
            find_owner path pkgs (f :: l) = find_owner path pkgs l) as Hcase.
  { cbn [find_owner]. unfold is_installed. destruct (in_use f); cbn [andb]; [|right; naive_solver].
    case_bool_decide; [|right; naive_solver]. destruct (pkgs !! pkg_index f) as [p|]; [|right; naive_solver].
    case_bool_decide; [left; naive_solver|right; naive_solver]. }
  fold (find_owner path pkgs (f :: l)). cbn [find_owner] in Hcase.
  destruct Hcase as [(p & Hu & Hp & Hq & Hs & E)|[Hno E]]; rewrite E.
  - by exists 0%nat, f, p.
  - destruct (find_owner path pkgs l) as [key|].
    + destruct IH as (g & f' & p & Hg & ?). by exists (S g), f', p.
    + intros [|g] f' p Hg; [injection Hg as <-; apply Hno|by apply (IH g)].
Qed.

Lemma owned_spec path buffer max_len db :
  db_ok db → initialized db = true →
  match pkg_db_is_file_owned (Some path) buffer max_len db with
  | Some out => ∃ key, owns db key path ∧ out = if buffer && (0 <? max_len)%nat then Some (take (max_len - 1) key) else None
  | None => ∀ key, ¬ owns db key path
  end.
Proof.
  intros Hok Hi. unfold pkg_db_is_file_owned. rewrite Hi. cbn [negb].
  pose proof (find_owner_spec path (packages db) (db_files db)) as H.
  destruct (find_owner path (packages db) (db_files db)) as [key|]; cbn [mbind option_bind].
  - destruct H as (g & f & p & Hg & Hu & Hpath & Hp & Hs & Ha). exists key. split; [|done]. exists p. split.
    + apply installed_iff; [done|done|]. by exists (pkg_index f).
    + exists g. destruct (ok_owner db Hok g f Hg Hu) as (p' & Hp' & Hin). split; [congruence|]. unfold file_path. by rewrite Hg.
  - intros key (p & Hp & g & Hin & Hpath). apply installed_iff in Hp as (i & Hi' & Hs & _); [|done|done].
    destruct (ok_owned db Hok i p g Hi' Hin) as (f & Hg & Hu & Hx). unfold file_path in Hpath. rewrite Hg in Hpath.
    apply (H g f p Hg Hu Hpath); [congruence|done].
Qed.

Lemma zero_database_ok b : db_ok (zero_database b).
Proof.
  assert (∀ i p, packages (zero_database b) !! i = Some p → p = zero_record) as Hp by (intros i p [-> _]%lookup_replicate; done).
  assert (∀ g f, db_files (zero_database b) !! g = Some f → f = zero_file) as Hf by (intros i p [-> _]%lookup_replicate; done).
  split.
  - apply length_replicate.
  - apply length_replicate.
  - intros i p ->%Hp. by right.
  - intros i j p q ->%Hp ->%Hp. done.
  - intros i p ->%Hp. constructor.
  - intros i p g ->%Hp. cbn. set_solver.
  - intros g f ->%Hf. done.
Qed.

(** C25: The database refines a map from application ids to records.  In every
    consistent state (no id twice, every entry of the file table in use belongs to
    exactly the record that lists it) [pkg_db_register] binds the id to a record
    with the fields of the manifest and, in order, the files of the package as far
    as the file table has room, leaves every other id as it was, and fails only
    when the id is new and all 64 slots are taken; [pkg_db_unregister] removes the
    id and nothing else; [pkg_db_is_file_owned] answers exactly for the paths that
    an installed application owns; and all of them keep the state consistent. *)
Theorem pkg_db_refines_map db :
  db_ok db → initialized db = true →
  (∀ m path data entries now, Z.of_nat (length (m_app_id m)) < KPKG_MAX_APPID_LEN →
     let '(db', r) := pkg_db_register (Some m) (Some path) (Some data) entries now db in
     db_ok db' ∧ initialized db' = true ∧
     (∀ key, key ≠ m_app_id m → installed db' key = installed db key) ∧
     match r with
     | Some slot => register_result m path data entries now db db' slot
     | None => db' = db ∧ installed db (m_app_id m) = None ∧ Forall (λ p, state p = PKG_STATE_INSTALLED) (packages db)
     end)
  ∧ (∀ key,
     let '(db', r) := pkg_db_unregister (Some key) db in
     db_ok db' ∧ initialized db' = true ∧ r = bool_decide (is_Some (installed db key)) ∧
     installed db' key = None ∧ (∀ key', key' ≠ key → installed db' key' = installed db key'))
  ∧ (∀ path buffer max_len,
     match pkg_db_is_file_owned (Some path) buffer max_len db with
     | Some out => ∃ key, owns db key path ∧ out = if buffer && (0 <? max_len)%nat then Some (take (max_len - 1) key) else None
     | None => ∀ key, ¬ owns db key path
     end)
  ∧ db_ok (pkg_db_init db).1.
Proof.
  intros Hok Hi. split_and!.
  - intros. by apply register_spec.
  - intros. by apply unregister_spec.
  - intros. by apply owned_spec.
  - unfold pkg_db_init. by rewrite Hi.
Qed.

Lemma pkg_db_refines_map_witness :
  db_ok (zero_database true) ∧
  (pkg_db_register (Some sample_manifest) (Some [68]) (Some (Str [69])) [] 7 (zero_database true)).2 = Some 0%nat ∧
  db_ok (pkg_db_register (Some sample_manifest) (Some [68]) (Some (Str [69])) [] 7 (zero_database true)).1.
Proof.
  split; [apply zero_database_ok|]. split; [vm_compute; reflexivity|].
  destruct (pkg_db_refines_map (zero_database true) (zero_database_ok true) eq_refl) as [H _].
  specialize (H sample_manifest [68] (Str [69]) [] 7 ltac:(vm_compute; reflexivity)).
  destruct (pkg_db_register _ _ _ _ _ _) as [db' r]. exact (proj1 H).
Defined.
