(* ===== verification/Installer.v ===== *)
(** * Installer (src/kernel/installer.c)

    Installs packages into a file store and records them in the database.  The
    store is the interface [PathStore], which the virtual file system of Vfs.v
    implements; flags say which calls of [kmalloc] succeed.  Log messages are left
    out. *)

From Stdlib Require Import ZArith Lia.
From Stdlib Require Ascii String.
From stdpp Require Import gmap.
From S2P Require Import Prelude Bytes Format FormatSpec Vfs Ramfs RamfsSpec VfsSpec Sha2 Sha2Spec Kpkg PkgDb.
Import String.StringSyntax.
#[local] Open Scope string_scope.
#[local] Open Scope Z_scope.

(** ** Files by path

    What the installer expects of the functions of vfs.c.  [ps_key] is the file
    that a path names, [None] when the contract does not cover it. *)
Class PathStore (F : Type) := {
  ps_read : list Z → F → option (list Z);
  ps_write : list Z → list Z → F → F * bool;
  ps_unlink : list Z → F → F * bool;
  ps_ok : F → Prop;
  ps_key : list Z → option (list Z);
  ps_write_spec p data fs fs' ok :
    ps_ok fs → is_Some (ps_key p) → ps_write p data fs = (fs', ok) →
    ps_ok fs' ∧ ∀ q, is_Some (ps_key q) →
      ps_read q fs' = if ok && bool_decide (ps_key q = ps_key p) then Some data else ps_read q fs;
  ps_unlink_spec p fs fs' ok :
    ps_ok fs → is_Some (ps_key p) → ps_unlink p fs = (fs', ok) →
    ps_ok fs' ∧ ∀ q, is_Some (ps_key q) →
      ps_read q fs' = if bool_decide (ps_key q = ps_key p) then None else ps_read q fs
}.

Definition INSTALLER_OK : Z := 0.
Definition INSTALLER_ERR_INVALID_HEADER : Z := -1.
Definition INSTALLER_ERR_INTEGRITY_FAIL : Z := -5.
Definition INSTALLER_ERR_AUTH_FAIL : Z := -6.
Definition INSTALLER_ERR_STAGING_FAIL : Z := -7.
Definition INSTALLER_ERR_COMMIT_FAIL : Z := -8.
Definition INSTALLER_ERR_NOT_FOUND : Z := -10.
Definition INSTALLER_ERR_ALREADY_INSTALLED : Z := -11.
Definition INSTALLER_ERR_VERSION_DOWNGRADE : Z := -12.

Record installer_options := Options {
  verify_signature : bool; trusted_pubkey : option (list Z); key_len : Z; allow_downgrade : bool
}.

(** Which allocations succeed: the index, the signature, the chunk of the
    integrity check, and the buffer of each file. *)
Record allocations := Allocations { alloc_index : bool; alloc_signature : bool; alloc_chunk : bool; alloc_file : nat → bool }.

Definition base_dir : list Z := ascii "D:/Apps".
Definition data_dir : list Z := ascii "D:/Data".

Definition staging_prefix (key : list Z) : list Z := format_path (ascii "%s/.staging_%s") [VStr (Some base_dir); VStr (Some key)].
Definition backup_prefix (key : list Z) : list Z := format_path (ascii "%s/.backup_%s") [VStr (Some base_dir); VStr (Some key)].
Definition marker_path (key : list Z) : list Z := format_path (ascii "%s/%s/.keep") [VStr (Some data_dir); VStr (Some key)].
Definition backup_file (prefix : list Z) (f : nat) : list Z :=
  format_path (ascii "%s/file_%u") [VStr (Some prefix); VInt (Z.of_nat f)].

Definition marker_data : list Z := ascii "KOS App Data Directory" ++ [10].

Section installer.
Context {F : Type} {PS : PathStore F}.

Record installer_state := State { db : pkg_database; fs : F }.

Definition ensure_app_data_directory (key : list Z) (fs : F) : F * bool := ps_write (marker_path key) marker_data fs.

Definition installer_subsystem_init (s : installer_state) : installer_state * bool := (State (pkg_db_init (db s)).1 (fs s), true).

(** The extraction loop: file [i] of the package and the following ones. *)
Fixpoint stage_files (mem : nat → bool) (p : kpkg_package) (staged : list Z → list Z) (i : nat) (entries : list (list Z)) (fs : F)
    : F * bool :=
  match entries with
  | [] => (fs, true)
  | f :: entries =>
      match kpkg_extract_file (mem i) p (Z.of_nat i) with
      | None => (fs, false)
      | Some (file_data, file_size) =>
          let '(fs, ok) := ps_write (staged f) (take (Z.to_nat file_size) file_data) fs in
          if negb ok then (fs, false) else stage_files mem p staged (S i) entries fs
      end
  end.

Definition unlink_paths (paths : list (list Z)) (fs : F) : F := foldl (λ fs p, (ps_unlink p fs).1) fs paths.

Fixpoint commit_files (target staged : list Z → list Z) (entries : list (list Z)) (fs : F) : F * bool :=
  match entries with
  | [] => (fs, true)
  | f :: entries =>
      match ps_read (staged f) fs with
      | None => (fs, false)
      | Some staged_data =>
          let '(fs, ok) := ps_write (target f) staged_data fs in
          if negb ok then (fs, false) else commit_files target staged entries (ps_unlink (staged f) fs).1
      end
  end.

(** The signature, when it is asked for. *)
Definition check_signature (a : allocations) (opts : option installer_options) (p : kpkg_package) : kpkg_package * bool :=
  match opts with
  | Some o => if verify_signature o then kpkg_verify_signature (alloc_signature a) p (trusted_pubkey o) (key_len o) else (p, true)
  | None => (p, true)
  end.

(** Phases 1 to 4: staging, commit, the data area and the record, each with its
    rollback. *)
Definition install_phases (a : allocations) (now : Z) (p : kpkg_package) (s : installer_state) : installer_state * Z :=
  let key := m_app_id (manifest p) in
  let install_path := join_path base_dir key in
  let data_path := join_path data_dir key in
  let target f := join_path install_path (f_path f) in
  let staged f := join_path (staging_prefix key) (f_path f) in
  let entries := opened_entries p in
  let '(fs1, stage_ok) := stage_files (alloc_file a) p staged 0 entries (fs s) in
  if negb stage_ok then
    (State (db s) (unlink_paths (staged <$> entries) fs1), INSTALLER_ERR_STAGING_FAIL)
  else
    let '(fs2, commit_ok) := commit_files target staged entries fs1 in
    if negb commit_ok then
      (State (db s) (unlink_paths (concat ((λ f, [target f; staged f]) <$> entries)) fs2), INSTALLER_ERR_COMMIT_FAIL)
    else
      let fs3 := (ensure_app_data_directory key fs2).1 in
      match pkg_db_register (Some (manifest p)) (Some install_path) (Some (Str data_path)) entries now (db s) with
      | (db', None) => (State db' (unlink_paths (target <$> entries) fs3), INSTALLER_ERR_COMMIT_FAIL)
      | (db', Some _) => (State db' fs3, INSTALLER_OK)
      end.

Definition installer_install (a : allocations) (now : Z) (r : kpkg_reader) (opts : option installer_options) (s : installer_state)
    : installer_state * Z :=
  match kpkg_open (alloc_index a) r with
  | None => (s, INSTALLER_ERR_INVALID_HEADER)
  | Some p =>
      match pkg_db_find (Some (m_app_id (manifest p))) (db s) with
      | Some _ => (s, INSTALLER_ERR_ALREADY_INSTALLED)
      | None =>
          let '(p, authentic) := check_signature a opts p in
          if negb authentic then (s, INSTALLER_ERR_AUTH_FAIL)
          else
            let '(p, intact) := kpkg_verify_integrity (alloc_chunk a) p in
            if negb intact then (s, INSTALLER_ERR_INTEGRITY_FAIL) else install_phases a now p s
      end
  end.

(** The backup loop: [install_path] of the record is what is read for each file. *)
Definition backup_files (old : pkg_record) (prefix : list Z) (fs : F) : F :=
  foldl (λ fs f,
    match file_indices old !! f with
    | Some idx =>
        if (idx <? PKG_DB_MAX_FILES_TOTAL)%nat then
          match ps_read (install_path old) fs with
          | Some old_data => (ps_write (backup_file prefix f) old_data fs).1
          | None => fs
          end
        else fs
    | None => fs
    end) fs (seq 0 (length (file_indices old))).

(** [existing] is the slot of the record, which the registration overwrites: its
    [data_path] is passed by reference, and its [file_count] is read again. *)
Definition installer_update (a : allocations) (now : Z) (r : kpkg_reader) (opts : option installer_options) (s : installer_state)
    : installer_state * Z :=
  match kpkg_open (alloc_index a) r with
  | None => (s, INSTALLER_ERR_INVALID_HEADER)
  | Some p =>
      let key := m_app_id (manifest p) in
      match pkg_db_find (Some key) (db s) with
      | None => (s, INSTALLER_ERR_NOT_FOUND)
      | Some existing =>
          let old := default zero_record (packages (db s) !! existing) in
          let allow := match opts with Some o => allow_downgrade o | None => false end in
          if negb allow && (m_version_code (manifest p) <? version_code old) then (s, INSTALLER_ERR_VERSION_DOWNGRADE)
          else
            let '(p, authentic) := check_signature a opts p in
            if negb authentic then (s, INSTALLER_ERR_AUTH_FAIL)
            else
              let '(p, intact) := kpkg_verify_integrity (alloc_chunk a) p in
              if negb intact then (s, INSTALLER_ERR_INTEGRITY_FAIL)
              else
                let path := join_path base_dir key in
                let target f := join_path path (f_path f) in
                let staged f := join_path (staging_prefix key) (f_path f) in
                let entries := opened_entries p in
                let fs0 := backup_files old (backup_prefix key) (fs s) in
                let '(fs1, stage_ok) := stage_files (alloc_file a) p staged 0 entries fs0 in
                if negb stage_ok then
                  (State (db s) (unlink_paths (staged <$> entries) fs1), INSTALLER_ERR_STAGING_FAIL)
                else
                  let '(fs2, commit_ok) := commit_files target staged entries fs1 in
                  if negb commit_ok then (State (db s) fs2, INSTALLER_ERR_COMMIT_FAIL)
                  else
                    let db' := (pkg_db_register (Some (manifest p)) (Some path) (Some (DataPathOf existing)) entries now (db s)).1 in
                    let rec := default zero_record (packages db' !! existing) in
                    (State db' (unlink_paths (backup_file (backup_prefix key) <$> seq 0 (length (file_indices rec))) fs2), INSTALLER_OK)
      end
  end.

(** The loop over the files of the package has no effect. *)
Definition installer_uninstall (key : option (list Z)) (keep_data : bool) (s : installer_state) : installer_state * Z :=
  match key, pkg_db_find key (db s) with
  | Some k, Some _ =>
      let fs' := if negb keep_data then (ps_unlink (marker_path k) (fs s)).1 else fs s in
      (State (pkg_db_unregister key (db s)).1 fs', INSTALLER_OK)
  | _, _ => (s, INSTALLER_ERR_NOT_FOUND)
  end.

Definition installer_rollback (key : option (list Z)) (s : installer_state) : Z :=
  match pkg_db_find key (db s) with Some _ => INSTALLER_OK | None => INSTALLER_ERR_NOT_FOUND end.

(** ** The loops on the store *)

Lemma unlink_paths_spec paths : ∀ fs,
  ps_ok fs → Forall (λ p, is_Some (ps_key p)) paths →
  ps_ok (unlink_paths paths fs) ∧ ∀ q, is_Some (ps_key q) →
    ps_read q (unlink_paths paths fs) = if bool_decide (ps_key q ∈ ps_key <$> paths) then None else ps_read q fs.
Proof.
  unfold unlink_paths. induction paths as [|p l IH]; intros fs Hok Hk; cbn [foldl].
  { split; [done|]. intros q _. by rewrite bool_decide_false by (cbn; set_solver). }
  apply Forall_cons in Hk as [Hp Hl]. destruct (ps_unlink p fs) as [fs' ok] eqn:Hu.
  destruct (ps_unlink_spec p fs fs' ok Hok Hp Hu) as [Hok' Hr]. cbn [fst]. destruct (IH fs' Hok' Hl) as [Hok2 Hr2]. split; [done|].
  intros q Hq. rewrite Hr2, Hr by done. cbn [fmap list_fmap]. repeat case_bool_decide; try done; set_solver.
Qed.

Section loops.
Context (target staged : list Z → list Z).

(** The files that the package touches. *)
Definition touched (es : list (list Z)) : list (option (list Z)) := concat ((λ f, [ps_key (target f); ps_key (staged f)]) <$> es).

Lemma touched_cons f es : touched (f :: es) = ps_key (target f) :: ps_key (staged f) :: touched es.
Proof. done. Qed.

Lemma touched_elem f es : f ∈ es → ps_key (target f) ∈ touched es ∧ ps_key (staged f) ∈ touched es.
Proof. induction 1 as [f es|f g es Hf IH]; rewrite touched_cons; set_solver. Qed.

Definition covered (es : list (list Z)) : Prop := Forall is_Some (touched es).

Lemma covered_cons f es : covered (f :: es) ↔ is_Some (ps_key (target f)) ∧ is_Some (ps_key (staged f)) ∧ covered es.
Proof. unfold covered. rewrite touched_cons, !Forall_cons. done. Qed.

(** The content of each file, as [kpkg_extract_file] gives it. *)
Definition extracted (mem : nat → bool) (p : kpkg_package) (i : nat) (data : list Z) : Prop :=
  ∃ buffer size, kpkg_extract_file (mem i) p (Z.of_nat i) = Some (buffer, size) ∧ data = take (Z.to_nat size) buffer.

Lemma stage_files_spec mem p es : ∀ i fs,
  ps_ok fs → covered es → NoDup (touched es) →
  let '(fs', ok) := stage_files mem p staged i es fs in
  ps_ok fs' ∧
  (∀ q, is_Some (ps_key q) → ps_key q ∉ ps_key <$> (staged <$> es) → ps_read q fs' = ps_read q fs) ∧
  (ok = true → ∀ j f, es !! j = Some f → ∃ data, extracted mem p (i + j) data ∧ ps_read (staged f) fs' = Some data).
Proof.
  induction es as [|f es IH]; intros i fs Hok Hc Hn; cbn [stage_files]; [done|].
  apply covered_cons in Hc as (Ht & Hs & Hc). rewrite touched_cons in Hn.
  apply NoDup_cons in Hn as [Hn1 [Hn2 Hn]%NoDup_cons].
  destruct (kpkg_extract_file (mem i) p (Z.of_nat i)) as [[buffer size]|] eqn:He; [|done].
  destruct (ps_write _ _ fs) as [fs1 ok] eqn:Hw. destruct (ps_write_spec _ _ _ _ _ Hok Hs Hw) as [Hok1 Hr1].
  destruct ok; cbn [negb].
  2: { split_and!; [done| |done]. intros q Hq _. by rewrite Hr1. }
  specialize (IH (S i) fs1 Hok1 Hc Hn). destruct (stage_files mem p staged (S i) es fs1) as [fs' ok].
  destruct IH as (Hok' & Hsame & Hdone). cbn [fmap list_fmap]. split_and!; [done| |].
  - intros q Hq Hnin. rewrite Hsame by (done || set_solver). rewrite Hr1 by done. by rewrite bool_decide_false by set_solver.
  - intros -> j g Hj. destruct j as [|j].
    + injection Hj as <-. exists (take (Z.to_nat size) buffer). rewrite Nat.add_0_r. split; [by exists buffer, size|].
      rewrite Hsame; [rewrite Hr1 by done; by rewrite bool_decide_true|done|].
      intros (x & Hx & Hin)%list_elem_of_fmap. apply list_elem_of_fmap in Hin as (g & -> & Hg).
      apply touched_elem in Hg as [_ Hg]. rewrite <- Hx in Hg. done.
    + destruct (Hdone eq_refl j g Hj) as (data & Hd & Hrd). exists data. by rewrite <- Nat.add_succ_comm.
Qed.

Lemma commit_files_spec es : ∀ fs,
  ps_ok fs → covered es → NoDup (touched es) →
  let '(fs', ok) := commit_files target staged es fs in
  ps_ok fs' ∧
  (∀ q, is_Some (ps_key q) → ps_key q ∉ touched es → ps_read q fs' = ps_read q fs) ∧
  (ok = true → ∀ j f, es !! j = Some f →
     is_Some (ps_read (staged f) fs) ∧ ps_read (target f) fs' = ps_read (staged f) fs ∧ ps_read (staged f) fs' = None).
Proof.
  induction es as [|f es IH]; intros fs Hok Hc Hn; cbn [commit_files]; [done|].
  apply covered_cons in Hc as (Ht & Hs & Hc). rewrite touched_cons in Hn |- *.
  apply NoDup_cons in Hn as [Hn1 [Hn2 Hn]%NoDup_cons].
  destruct (ps_read (staged f) fs) as [data|] eqn:Hd; [|done].
  destruct (ps_write _ _ fs) as [fs1 ok] eqn:Hw. destruct (ps_write_spec _ _ _ _ _ Hok Ht Hw) as [Hok1 Hr1].
  destruct ok; cbn [negb].
  2: { split_and!; [done| |done]. intros q Hq _. by rewrite Hr1. }
  destruct (ps_unlink (staged f) fs1) as [fs2 uok] eqn:Hu. destruct (ps_unlink_spec _ _ _ _ Hok1 Hs Hu) as [Hok2 Hr2]. cbn [fst].
  specialize (IH fs2 Hok2 Hc Hn). destruct (commit_files target staged es fs2) as [fs' ok].
  destruct IH as (Hok' & Hsame & Hdone).
  assert (∀ q, is_Some (ps_key q) → ps_key q ≠ ps_key (target f) → ps_key q ≠ ps_key (staged f) → ps_read q fs2 = ps_read q fs) as Hstep.
  { intros q Hq H1 H2. rewrite Hr2, Hr1 by done. by rewrite !bool_decide_false by done. }
  split_and!; [done| |].
  - intros q Hq Hnin. rewrite Hsame by (done || set_solver). apply Hstep; [done|set_solver|set_solver].
  - intros -> j g Hj. destruct j as [|j].
    + injection Hj as <-. rewrite Hd. split_and!; [done| |].
      * rewrite Hsame by set_solver. rewrite Hr2 by done. rewrite bool_decide_false by set_solver. rewrite Hr1 by done. by rewrite bool_decide_true.
      * rewrite Hsame by set_solver. rewrite Hr2 by done. by rewrite bool_decide_true.
    + destruct (Hdone eq_refl j g Hj) as (H1 & H2 & H3).
      assert (g ∈ es) as [Hgt Hgs]%touched_elem by (apply list_elem_of_lookup_2 with j; exact Hj).
      assert (is_Some (ps_key (staged g))) by (unfold covered in Hc; rewrite Forall_forall in Hc; by apply Hc).
      rewrite Hstep in H1, H2 by (done || (intros E; rewrite E in *; set_solver)). done.
Qed.
End loops.

(** ** The package during the checks *)

(** The checks set flags only. *)
Definition same_content (p p' : kpkg_package) : Prop :=
  header p' = header p ∧ manifest p' = manifest p ∧ files p' = files p ∧ file_count p' = file_count p ∧ reader p' = reader p.

Lemma check_signature_same a opts p : same_content p (check_signature a opts p).1.
Proof.
  unfold check_signature, kpkg_verify_signature. destruct opts as [o|]; [|done]. destruct (verify_signature o); [|done].
  destruct (trusted_pubkey o); [|done]. repeat (case_match; try done).
Qed.

Lemma verify_integrity_same ok p : same_content p (kpkg_verify_integrity ok p).1.
Proof. unfold kpkg_verify_integrity. repeat (case_match; try done). Qed.

Lemma same_content_trans p q r : same_content p q → same_content q r → same_content p r.
Proof. unfold same_content. naive_solver congruence. Qed.

Lemma same_entries p p' : same_content p p' → opened_entries p' = opened_entries p.
Proof. intros (_ & _ & Hf & Hc & _). unfold opened_entries. by rewrite Hf, Hc. Qed.

Lemma same_extract mem p p' i data : same_content p p' → extracted mem p' i data → extracted mem p i data.
Proof.
  intros (Hh & _ & Hf & Hc & Hr) (buffer & size & He & ->). exists buffer, size. split; [|done].
  unfold kpkg_extract_file in *. by rewrite <- Hh, <- Hf, <- Hc, <- Hr.
Qed.

(** What is extracted is the content of the entry. *)
Lemma extracted_content mem p i data f :
  reader_ok (reader p) → extracted mem p i data → opened_entries p !! i = Some f →
  Z.of_nat (length data) = f_size f ∧ sha256_reference data = f_sha256 f.
Proof.
  intros Hr (buffer & size & He & ->) Hf. apply extract_digest in He as (index & content & Ef & Hi & -> & -> & Hread & Hh).
  apply Hr in Hread as [_ Hl]. assert (file_entry index (Z.of_nat i) = f) as <-.
  { unfold opened_entries, pkg_entries in Hf. rewrite Ef in Hf. cbn [default] in Hf. rewrite list_lookup_fmap, lookup_seqZ_lt in Hf by lia.
    injection Hf as <-. done. }
  rewrite take_app_length' by lia. done.
Qed.

Lemma scan_app_id_length s : ∀ len b r, scan_app_id len b s = Some r → len ≤ 63 → len + Z.of_nat (length s) ≤ 63.
Proof.
  induction s as [|c s IH]; intros len b r; cbn [scan_app_id length]; [lia|]. rewrite Z.geb_leb. unfold KPKG_MAX_APPID_LEN.
  destruct (Z.leb_spec (64 - 1) len); [done|]. destruct (app_id_char c); [|done]. cbn [negb]. intros H' _.
  apply IH in H'; lia.
Qed.

Lemma opened_app_id ok r p : kpkg_open ok r = Some p → Z.of_nat (length (m_app_id (manifest p))) < KPKG_MAX_APPID_LEN.
Proof.
  unfold kpkg_open. destruct (read r); [|done]. destruct (get_size r) as [total|]; [|done]. destruct (_ <? _); [done|].
  destruct (reader_read r 0 _) as [h|]; [|done]. cbn [mbind option_bind]. destruct (header_valid h); [|done]. cbn [negb].
  destruct (header_within_limits h); [|done]. cbn [negb]. destruct (read_manifest r total h) as [m|] eqn:Em; [|done]. cbn [mbind option_bind].
  destruct (read_index ok r total h); [|done]. cbn [mbind option_bind]. intros [= <-]. cbn [manifest].
  unfold read_manifest in Em. destruct (h_manifest_size h >? 0); [|by injection Em as <-].
  destruct (_ >? _); [done|]. destruct (reader_read r _ _) as [bytes|]; [|done]. cbn [mbind option_bind] in Em.
  destruct (kpkg_validate_app_id _) eqn:Hv in Em; [|done]. injection Em as <-.
  unfold kpkg_validate_app_id in Hv. destruct (m_app_id _) as [|c k]; [done|].
  destruct (scan_app_id 0 false (c :: k)) eqn:Hs; [|done]. apply scan_app_id_length in Hs; [|done]. unfold KPKG_MAX_APPID_LEN. lia.
Qed.

(** ** Installing is a transaction *)

Definition target_path (p : kpkg_package) (f : list Z) : list Z := join_path (join_path base_dir (m_app_id (manifest p))) (f_path f).
Definition staged_path (p : kpkg_package) (f : list Z) : list Z := join_path (staging_prefix (m_app_id (manifest p))) (f_path f).

#[local] Opaque join_path staging_prefix marker_path.

(** The paths of the package name different files of the store. *)
Record installable (p : kpkg_package) : Prop := {
  in_covered : covered (target_path p) (staged_path p) (opened_entries p);
  in_distinct : NoDup (touched (target_path p) (staged_path p) (opened_entries p));
  in_marker : is_Some (ps_key (marker_path (m_app_id (manifest p))));
  in_apart : ps_key (marker_path (m_app_id (manifest p))) ∉ touched (target_path p) (staged_path p) (opened_entries p)
}.

(** The files outside the package and its marker. *)
Definition others_same (p : kpkg_package) (f f' : F) : Prop :=
  ∀ q, is_Some (ps_key q) → ps_key q ∉ touched (target_path p) (staged_path p) (opened_entries p) →
    ps_key q ≠ ps_key (marker_path (m_app_id (manifest p))) → ps_read q f' = ps_read q f.

(** What the marker of the application's data area holds. *)
Definition marker (p : kpkg_package) (f : F) : option (list Z) := ps_read (marker_path (m_app_id (manifest p))) f.

(** No slot is left for a new application. *)
Definition database_full (d : pkg_database) : Prop := Forall (λ rec, state rec = PKG_STATE_INSTALLED) (packages d).

(** The marker is written (or not, when the store refuses: the code ignores the
    result of [ensure_app_data_directory]). *)
Definition installed_state (p : kpkg_package) (s s' : installer_state) : Prop :=
  installed (db s) (m_app_id (manifest p)) = None ∧ is_Some (installed (db s') (m_app_id (manifest p))) ∧
  (∀ key, key ≠ m_app_id (manifest p) → installed (db s') key = installed (db s) key) ∧
  (∀ f, f ∈ opened_entries p →
     (∃ content, ps_read (target_path p f) (fs s') = Some content ∧ Z.of_nat (length content) = f_size f ∧
        sha256_reference content = f_sha256 f) ∧
     ps_read (staged_path p f) (fs s') = None) ∧
  others_same p (fs s) (fs s') ∧ (marker p (fs s') = Some marker_data ∨ marker p (fs s') = marker p (fs s)).

(** The marker is left behind in one case: the files were committed, and then the
    database had no room for the record. *)
Definition rolled_back (p : kpkg_package) (status : Z) (s s' : installer_state) : Prop :=
  db s' = db s ∧ others_same p (fs s) (fs s') ∧
  (marker p (fs s') = marker p (fs s) ∨
   status = INSTALLER_ERR_COMMIT_FAIL ∧ database_full (db s) ∧ marker p (fs s') = Some marker_data) ∧
  ∀ f, f ∈ opened_entries p →
    ps_read (staged_path p f) (fs s') = None ∧
    ps_read (target_path p f) (fs s') = if status =? INSTALLER_ERR_STAGING_FAIL then ps_read (target_path p f) (fs s) else None.

Definition install_outcome (a : allocations) (r : kpkg_reader) (s s' : installer_state) (status : Z) : Prop :=
  ps_ok (fs s') ∧ db_ok (db s') ∧ initialized (db s') = true ∧
  (status = INSTALLER_OK ∧ (∃ p, kpkg_open (alloc_index a) r = Some p ∧ installed_state p s s')
   ∨ (status = INSTALLER_ERR_STAGING_FAIL ∨ status = INSTALLER_ERR_COMMIT_FAIL) ∧
     (∃ p, kpkg_open (alloc_index a) r = Some p ∧ rolled_back p status s s')
   ∨ status ≠ INSTALLER_OK ∧ s' = s).

Lemma touched_paths target staged es :
  touched target staged es = ps_key <$> concat ((λ f, [target f; staged f]) <$> es).
Proof. induction es as [|f es IH]; [done|]. rewrite touched_cons, IH. done. Qed.

Lemma map_touched target staged es k :
  k ∈ ps_key <$> (target <$> es) ∨ k ∈ ps_key <$> (staged <$> es) → k ∈ touched target staged es.
Proof.
  intros [H|H]; apply list_elem_of_fmap in H as (x & -> & H); apply list_elem_of_fmap in H as (f & -> & H);
    destruct (touched_elem target staged f es H) as [H1 H2]; [exact H1|exact H2].
Qed.

(** A target is no staged file. *)
Lemma touched_split target staged es f g :
  NoDup (touched target staged es) → f ∈ es → g ∈ es → ps_key (target f) ≠ ps_key (staged g).
Proof.
  induction es as [|h es IH]; [by intros _ ?%not_elem_of_nil|]. rewrite touched_cons.
  intros [H1 [H2 Hn]%NoDup_cons]%NoDup_cons Hf Hg. apply elem_of_cons in Hf as [->|Hf], Hg as [->|Hg].
  - set_solver.
  - apply (touched_elem target staged) in Hg as [_ Hg]. intros E. rewrite E in H1. set_solver.
  - apply (touched_elem target staged) in Hf as [Hf _]. intros E. rewrite E in Hf. set_solver.
  - by apply IH.
Qed.

Section phases.
Context (a : allocations) (now : Z) (r : kpkg_reader) (p p' : kpkg_package) (s : installer_state).
Hypothesis Hok : ps_ok (fs s).
Hypothesis Hdb : db_ok (db s).
Hypothesis Hinit : initialized (db s) = true.
Hypothesis Hr : reader_ok r.
Hypothesis Hopen : kpkg_open (alloc_index a) r = Some p.
Hypothesis Hsame : same_content p p'.
Hypothesis Hin : installable p.
Hypothesis Hnew : installed (db s) (m_app_id (manifest p)) = None.

#[local] Abbreviation es := (opened_entries p).
#[local] Abbreviation target := (target_path p).
#[local] Abbreviation staged := (staged_path p).

#[local] Lemma keyed f : f ∈ es → is_Some (ps_key (target f)) ∧ is_Some (ps_key (staged f)).
Proof.
  intros [H1 H2]%(touched_elem target staged). pose proof (in_covered p Hin) as Hc. unfold covered in Hc.
  rewrite Forall_forall in Hc. split; by apply Hc.
Qed.

#[local] Lemma keyed_all : Forall (λ q, is_Some (ps_key q)) (target <$> es) ∧ Forall (λ q, is_Some (ps_key q)) (staged <$> es).
Proof. split; apply Forall_fmap, Forall_forall; intros f Hf; destruct (keyed f Hf) as [Ht Hs]; [exact Ht|exact Hs]. Qed.

#[local] Lemma keyed_pairs : Forall (λ q, is_Some (ps_key q)) (concat ((λ f, [target f; staged f]) <$> es)).
Proof.
  apply Forall_forall. intros q Hq. pose proof (in_covered p Hin) as Hc. unfold covered in Hc. rewrite touched_paths, Forall_fmap in Hc.
  rewrite Forall_forall in Hc. by apply Hc.
Qed.

#[local] Lemma target_not_staged f : f ∈ es → ps_key (target f) ∉ ps_key <$> (staged <$> es).
Proof.
  intros Hf (x & Hx & Hin')%list_elem_of_fmap. apply list_elem_of_fmap in Hin' as (g & -> & Hg).
  by apply (touched_split target staged es f g) in Hx; [|apply in_distinct|..].
Qed.

#[local] Lemma staged_not_target f : f ∈ es → ps_key (staged f) ∉ ps_key <$> (target <$> es).
Proof.
  intros Hf (x & Hx & Hin')%list_elem_of_fmap. apply list_elem_of_fmap in Hin' as (g & -> & Hg). symmetry in Hx.
  by apply (touched_split target staged es g f) in Hx; [|apply in_distinct|..].
Qed.

#[local] Lemma path_in (path : list Z → list Z) f : f ∈ es → ps_key (path f) ∈ ps_key <$> (path <$> es).
Proof. intros Hf. by do 2 apply list_elem_of_fmap_2. Qed.

(** Staging that fails removes every staged file. *)
#[local] Lemma staging_failed fs1 :
  ps_ok fs1 → (∀ q, is_Some (ps_key q) → ps_key q ∉ ps_key <$> (staged <$> es) → ps_read q fs1 = ps_read q (fs s)) →
  ps_ok (unlink_paths (staged <$> es) fs1) ∧
  rolled_back p INSTALLER_ERR_STAGING_FAIL s (State (db s) (unlink_paths (staged <$> es) fs1)).
Proof.
  intros Hok1 Hst. destruct (unlink_paths_spec (staged <$> es) fs1 Hok1 (proj2 keyed_all)) as [Hok2 Hrd]. split; [done|].
  assert (∀ q, is_Some (ps_key q) → ps_key q ∉ touched target staged es →
    ps_read q (unlink_paths (staged <$> es) fs1) = ps_read q (fs s)) as Hout.
  { intros q Hq Hnin. rewrite Hrd by done. assert (ps_key q ∉ ps_key <$> (staged <$> es)) as Hq'
      by (intros ?; apply Hnin, map_touched; by right). rewrite bool_decide_false by done. by apply Hst. }
  split_and!; [done| | |]; cbn [fs].
  - intros q Hq Hnin _. by apply Hout.
  - left. apply Hout; [apply (in_marker p Hin)|apply (in_apart p Hin)].
  - intros f Hf. destruct (keyed f Hf). split.
    + rewrite Hrd by done. by rewrite bool_decide_true by by apply path_in.
    + cbn. rewrite Hrd by done. pose proof (target_not_staged f Hf). rewrite bool_decide_false by done. by apply Hst.
Qed.

(** A commit that fails removes everything that the package wrote. *)
#[local] Lemma commit_failed fs2 :
  ps_ok fs2 → (∀ q, is_Some (ps_key q) → ps_key q ∉ touched target staged es → ps_read q fs2 = ps_read q (fs s)) →
  let fs' := unlink_paths (concat ((λ f, [target f; staged f]) <$> es)) fs2 in
  ps_ok fs' ∧ rolled_back p INSTALLER_ERR_COMMIT_FAIL s (State (db s) fs').
Proof.
  intros Hok2 Hst. destruct (unlink_paths_spec _ fs2 Hok2 keyed_pairs) as [Hok3 Hrd]. split; [done|].
  rewrite <- (touched_paths target staged) in Hrd. 
  assert (∀ q, is_Some (ps_key q) → ps_key q ∉ touched target staged es →
    ps_read q (unlink_paths (concat ((λ f, [target f; staged f]) <$> es)) fs2) = ps_read q (fs s)) as Hout.
  { intros q Hq Hnin. rewrite Hrd by done. rewrite bool_decide_false by done. by apply Hst. }
  split_and!; [done| | |]; cbn [fs].
  - intros q Hq Hnin _. by apply Hout.
  - left. apply Hout; [apply (in_marker p Hin)|apply (in_apart p Hin)].
  - intros f Hf. destruct (keyed f Hf). destruct (touched_elem target staged f es Hf). cbn.
    by rewrite !Hrd, !bool_decide_true by done.
Qed.

(** The state behind a successful commit and the marker. *)
Definition committed (fs3 : F) : Prop :=
  ps_ok fs3 ∧ others_same p (fs s) fs3 ∧ (marker p fs3 = Some marker_data ∨ marker p fs3 = marker p (fs s)) ∧
  ∀ f, f ∈ es →
    (∃ content, ps_read (target f) fs3 = Some content ∧ Z.of_nat (length content) = f_size f ∧ sha256_reference content = f_sha256 f) ∧
    ps_read (staged f) fs3 = None.

#[local] Lemma register_failed fs3 :
  committed fs3 → database_full (db s) →
  ps_ok (unlink_paths (target <$> es) fs3) ∧
  rolled_back p INSTALLER_ERR_COMMIT_FAIL s (State (db s) (unlink_paths (target <$> es) fs3)).
Proof.
  intros (Hok3 & Hoth & Hmark & Hfiles) Hfull.
  destruct (unlink_paths_spec (target <$> es) fs3 Hok3 (proj1 keyed_all)) as [Hok4 Hrd]. split; [done|].
  split_and!; [done| | |]; cbn [fs].
  - intros q Hq Hnin Hm. rewrite Hrd by done. assert (ps_key q ∉ ps_key <$> (target <$> es)) as Hq'
      by (intros ?; apply Hnin, map_touched; by left). rewrite bool_decide_false by done. by apply Hoth.
  - assert (marker p (unlink_paths (target <$> es) fs3) = marker p fs3) as ->.
    { unfold marker. rewrite Hrd by apply (in_marker p Hin). pose proof (in_apart p Hin) as Hap.
      assert (ps_key (marker_path (m_app_id (manifest p))) ∉ ps_key <$> (target <$> es)) as Hm'
        by (intros ?; apply Hap, map_touched; by left). by rewrite bool_decide_false by done. }
    destruct Hmark as [Hmark|Hmark]; [right; by split_and!|by left].
  - intros f Hf. destruct (keyed f Hf). destruct (Hfiles f Hf) as [_ Hs]. cbn. rewrite !Hrd by done. pose proof (staged_not_target f Hf).
    rewrite bool_decide_false by done. split; [done|]. by rewrite bool_decide_true by by apply path_in.
Qed.

#[local] Lemma committed_files fs1 fs2 fs3 mok :
  ps_ok fs2 →
  (∀ q, is_Some (ps_key q) → ps_key q ∉ ps_key <$> (staged <$> es) → ps_read q fs1 = ps_read q (fs s)) →
  (∀ j f, es !! j = Some f → ∃ data, extracted (alloc_file a) p' j data ∧ ps_read (staged f) fs1 = Some data) →
  (∀ q, is_Some (ps_key q) → ps_key q ∉ touched target staged es → ps_read q fs2 = ps_read q fs1) →
  (∀ j f, es !! j = Some f → is_Some (ps_read (staged f) fs1) ∧ ps_read (target f) fs2 = ps_read (staged f) fs1 ∧ ps_read (staged f) fs2 = None) →
  ensure_app_data_directory (m_app_id (manifest p)) fs2 = (fs3, mok) → committed fs3.
Proof.
  intros Hok2 H1 H2 H3 H4 Hm. destruct (ps_write_spec _ _ _ _ _ Hok2 (in_marker p Hin) Hm) as [Hok3 Hrd].
  assert (∀ q, is_Some (ps_key q) → ps_key q ∉ touched target staged es → ps_read q fs2 = ps_read q (fs s)) as Hout.
  { intros q Hq Hnin. rewrite H3 by done. apply H1; [done|]. intros ?. apply Hnin, map_touched. by right. }
  split_and!; [done| | |].
  - intros q Hq Hnin Hne. rewrite Hrd by done. rewrite bool_decide_false, andb_false_r by done. by apply Hout.
  - unfold marker. rewrite Hrd by apply (in_marker p Hin). rewrite bool_decide_true by done. destruct mok; cbn [andb]; [by left|].
    right. apply Hout; [apply (in_marker p Hin)|apply (in_apart p Hin)].
  - intros f Hf. destruct (keyed f Hf) as [Kt Ks]. pose proof (in_apart p Hin) as Hap. destruct (touched_elem target staged f es Hf) as [Tt Ts].
    assert (∀ q, is_Some (ps_key q) → ps_key q ∈ touched target staged es → ps_read q fs3 = ps_read q fs2) as Hkeep.
    { intros q Hq Hin'. rewrite Hrd by done. rewrite bool_decide_false, andb_false_r; [done|]. intros E. rewrite E in Hin'. done. }
    apply list_elem_of_lookup in Hf as [j Hj]. destruct (H2 j f Hj) as (data & He & Hd). destruct (H4 j f Hj) as (_ & Ht & Hs).
    rewrite !Hkeep by done. split; [|done]. exists data. split; [congruence|].
    assert (reader p = r) as Hrp by (by destruct (open_inv _ r p Hr Hopen) as [? _]).
    apply (extracted_content (alloc_file a) p j); [by rewrite Hrp|by apply (same_extract _ p p')|done].
Qed.

Lemma install_phases_spec :
  let '(s', status) := install_phases a now p' s in install_outcome a r s s' status.
Proof.
  pose proof (same_entries p p' Hsame) as Ees. destruct Hsame as (_ & Em & _). unfold install_phases. rewrite Ees, Em.
  change (λ f, join_path (staging_prefix (m_app_id (manifest p))) (f_path f)) with staged.
  change (λ f, join_path (join_path base_dir (m_app_id (manifest p))) (f_path f)) with target.
  pose proof (stage_files_spec target staged (alloc_file a) p' es 0 (fs s) Hok (in_covered p Hin) (in_distinct p Hin)) as Hst.
  destruct (stage_files _ _ _ _ _ _) as [fs1 stage_ok]. destruct Hst as (Hok1 & Hs1 & Hd1). destruct stage_ok; cbn [negb].
  2: { destruct (staging_failed fs1 Hok1 Hs1) as [Hk Hrb]. split_and!; try done. right; left. split; [by left|]. by exists p. }
  pose proof (commit_files_spec target staged es fs1 Hok1 (in_covered p Hin) (in_distinct p Hin)) as Hct.
  destruct (commit_files _ _ _ _) as [fs2 commit_ok]. destruct Hct as (Hok2 & Hs2 & Hd2).
  assert (∀ q, is_Some (ps_key q) → ps_key q ∉ touched target staged es → ps_read q fs2 = ps_read q (fs s)) as Hs12.
  { intros q Hq Hn. rewrite Hs2 by done. apply Hs1; [done|]. intros ?. apply Hn, map_touched. by right. }
  destruct commit_ok; cbn [negb].
  2: { destruct (commit_failed fs2 Hok2 Hs12) as [Hk Hrb]. split_and!; try done. right; left. split; [by right|]. by exists p. }
  destruct (ensure_app_data_directory (m_app_id (manifest p)) fs2) as [fs3 mok] eqn:Hm. cbn [fst].
  pose proof (committed_files fs1 fs2 fs3 mok Hok2 Hs1 (Hd1 eq_refl) Hs2 (Hd2 eq_refl) Hm) as Hc.
  pose proof (register_spec (manifest p) (join_path base_dir (m_app_id (manifest p))) (Str (join_path data_dir (m_app_id (manifest p)))) es now
    (db s) Hdb Hinit (opened_app_id _ r p Hopen)) as Hreg.
  destruct (pkg_db_register _ _ _ _ _ _) as [db' [slot|]].
  - destruct Hreg as (Hdb' & Hi' & Hother & rec & _ & Hrec & _). destruct Hc as (Hok3 & Hoth & Hmark & Hfiles). split_and!; try done.
    left. split; [done|]. exists p. by split_and!.
  - destruct Hreg as (_ & _ & _ & -> & _ & Hfull). destruct (register_failed fs3 Hc Hfull) as [Hk Hrb]. split_and!; try done.
    right; left. split; [by right|]. by exists p.
Qed.
End phases.

(** C22: Installing is a transaction, up to the marker of the data area.  Over any
    store that keeps its contract, for a reader that returns the bytes it is asked
    for and a package whose staged and final paths and marker name different files
    ([installable]): if [installer_install] returns OK, the application was not
    installed before and is now, every file of the package has content with the
    size and SHA-256 digest of its index entry under the application's directory,
    no staged file is left, the marker is written (unless the store refused it),
    and no other application and no other file has changed.  If staging or commit
    fails, the database is what it was, nothing is left at the staged paths and,
    after a commit, at the final paths of the package, and no other file has
    changed; only when the files were committed and the database is full does the
    marker D:/Data/<app>/.keep stay behind.  Any other error changes nothing. *)
Theorem installer_install_atomic a now r opts s :
  ps_ok (fs s) → db_ok (db s) → initialized (db s) = true → reader_ok r →
  (∀ p, kpkg_open (alloc_index a) r = Some p → installable p) →
  let '(s', status) := installer_install a now r opts s in install_outcome a r s s' status.
Proof.
  intros Hok Hdb Hinit Hr Hin. unfold installer_install.
  assert (∀ status, status ≠ INSTALLER_OK → install_outcome a r s s status) as Hsame by (intros; split_and!; try done; by right; right).
  destruct (kpkg_open (alloc_index a) r) as [p|] eqn:Hopen; [|by apply Hsame].
  destruct (pkg_db_find (Some (m_app_id (manifest p))) (db s)) eqn:Hf; [by apply Hsame|].
  pose proof (check_signature_same a opts p) as H1. destruct (check_signature a opts p) as [p1 ok1]. cbn [fst] in H1.
  destruct ok1; cbn [negb]; [|by apply Hsame].
  pose proof (verify_integrity_same (alloc_chunk a) p1) as H2. destruct (kpkg_verify_integrity (alloc_chunk a) p1) as [p2 ok2]. cbn [fst] in H2.
  destruct ok2; cbn [negb]; [|by apply Hsame].
  apply (install_phases_spec a now r p); try done; [by apply same_content_trans with p1|by apply Hin|].
  unfold installed. by rewrite Hf.
Qed.

(** ** Updating and uninstalling *)

(** The registration of an update takes the slot of the old record. *)
Lemma register_existing m path entries now d existing :
  db_ok d → initialized d = true → Z.of_nat (length (m_app_id m)) < KPKG_MAX_APPID_LEN →
  pkg_db_find (Some (m_app_id m)) d = Some existing →
  let d' := (pkg_db_register (Some m) (Some path) (Some (DataPathOf existing)) entries now d).1 in
  db_ok d' ∧ (∀ key, key ≠ m_app_id m → installed d' key = installed d key) ∧
  ∃ rec, installed d' (m_app_id m) = Some rec ∧ packages d' !! existing = Some rec ∧ version_code rec = m_version_code m ∧ data_path rec = [].
Proof.
  intros Hok Hi Hid Hf. destruct (find_installed d _ existing Hf) as (old & Hold & Hs & Ha).
  pose proof (register_spec m path (DataPathOf existing) entries now d Hok Hi Hid) as H.
  destruct (pkg_db_register _ _ _ _ _ _) as [d' [slot|]] eqn:Hreg; cbn [fst].
  - destruct H as (Hok' & _ & Hother & rec & Hp & Hin & Hv & _ & _ & Hdata & _). split_and!; [done|done|].
    assert (slot = existing) as ->.
    { unfold pkg_db_register in Hreg. rewrite Hi in Hreg. cbn [negb] in Hreg.
      destruct (find_register_slot 0 None (m_app_id m) (packages d)) as [k|] eqn:Hk; [|done].
      destruct (foldl _ _ _) as [files' indices] in Hreg. injection Hreg as _ <-.
      destruct (register_slot d _ k Hok Hk) as (_ & _ & _ & Hother'). destruct (decide (existing = k)) as [<-|Hne]; [done|].
      specialize (Hother' existing old Hne Hold). assert (installed_as (m_app_id m) old = true) by (by apply installed_as_spec). congruence. }
    exists rec. rewrite decide_True in Hdata by done. done.
  - destruct H as (_ & _ & _ & _ & Hnone & _). unfold installed in Hnone. rewrite Hf in Hnone. cbn in Hnone. congruence.
Qed.

(** C26: An update forgets where the application keeps its data.  Whenever
    [installer_update] returns OK, the application is recorded with the version of
    the package and the other applications are as before, but the data path of its
    record is empty: the code passes the field of the old record, which
    [pkg_db_register] clears before it copies the argument. *)
Theorem update_loses_data_path a now r opts s s' :
  db_ok (db s) → initialized (db s) = true → installer_update a now r opts s = (s', INSTALLER_OK) →
  ∃ p rec, kpkg_open (alloc_index a) r = Some p ∧ installed (db s') (m_app_id (manifest p)) = Some rec ∧
    version_code rec = m_version_code (manifest p) ∧ data_path rec = [] ∧ db_ok (db s') ∧
    ∀ key, key ≠ m_app_id (manifest p) → installed (db s') key = installed (db s) key.
Proof.
  intros Hdb Hinit. unfold installer_update. destruct (kpkg_open (alloc_index a) r) as [p|] eqn:Hopen; [|done].
  destruct (pkg_db_find (Some (m_app_id (manifest p))) (db s)) as [existing|] eqn:Hf; [|done].
  destruct (_ && _); [done|]. pose proof (check_signature_same a opts p) as (_ & H1 & _).
  destruct (check_signature a opts p) as [p1 ok1]. cbn [fst] in H1. destruct ok1; [|done]. cbn [negb].
  pose proof (verify_integrity_same (alloc_chunk a) p1) as (_ & H2 & _). destruct (kpkg_verify_integrity (alloc_chunk a) p1) as [p2 ok2].
  cbn [fst] in H2. destruct ok2; [|done]. cbn [negb]. rewrite H1 in H2. rewrite H2.
  destruct (stage_files _ _ _ _ _ _) as [fs1 ok]. destruct ok; [|done]. cbn [negb].
  destruct (commit_files _ _ _ _) as [fs2 ok]. destruct ok; [|done]. cbn [negb].
  destruct (register_existing (manifest p) (join_path base_dir (m_app_id (manifest p))) (opened_entries p2) now (db s) existing Hdb Hinit
    (opened_app_id _ r p Hopen) Hf) as (Hok' & Hother & rec & Hin & _ & Hv & Hd).
  intros [= <-]. cbn [db]. by exists p, rec.
Qed.

(** Uninstalling removes the record and at most the marker of the data area: the
    files of the application stay. *)
Lemma uninstall_spec key keep_data s :
  ps_ok (fs s) → db_ok (db s) → initialized (db s) = true → is_Some (ps_key (marker_path key)) →
  let '(s', status) := installer_uninstall (Some key) keep_data s in
  ps_ok (fs s') ∧ db_ok (db s') ∧ installed (db s') key = None ∧
  (status = INSTALLER_OK ↔ is_Some (installed (db s) key)) ∧
  (∀ q, is_Some (ps_key q) → ps_key q ≠ ps_key (marker_path key) → ps_read q (fs s') = ps_read q (fs s)).
Proof.
  intros Hok Hdb Hinit Hm. unfold installer_uninstall. destruct (pkg_db_find (Some key) (db s)) as [i|] eqn:Hf.
  2: { assert (installed (db s) key = None) as E by (unfold installed; by rewrite Hf). rewrite E. by split_and!. }
  pose proof (unregister_spec key (db s) Hdb Hinit) as Hu. unfold pkg_db_unregister in *. rewrite Hf in *.
  destruct Hu as (Hdb' & _ & Hb & Hn & _). symmetry in Hb. apply bool_decide_eq_true in Hb. cbn [db fs fst].
  destruct keep_data; cbn [negb]; [split_and!; done|].
  destruct (ps_unlink (marker_path key) (fs s)) as [fs' ok] eqn:E. destruct (ps_unlink_spec _ _ _ _ Hok Hm E) as [Hok' Hr].
  split_and!; try done. intros q Hq Hne. cbn [fst]. rewrite Hr by done. by rewrite bool_decide_false.
Qed.
End installer.

(** ** The virtual file system as a store

    The installer's base directories are on D:, the in-memory volume. *)

Lemma example_backend path b relative : parse_path_locked (Some path) example_vfs = Some (b, relative) → b = ramfs_vfs_backend ∧ relative ≠ [].
Proof.
  unfold parse_path_locked. destruct (split_letter path) as [l rest]. set (q := skip_separators rest).
  destruct (path_is_safe q) eqn:Hs; [|done]. cbn [negb]. destruct (_ >=? _); [done|].
  unfold volume_of, find_volume_locked. change (volumes example_vfs) with [mk_volume 68 (codes "Data") ramfs_vfs_backend].
  cbn [find_from letter]. destruct (68 =? normalize_letter l); [|done]. cbn. intros [= <- <-]. split; [done|].
  destruct q; done.
Qed.

Definition vfs_key (path : list Z) : option (list Z) :=
  match parse_path_locked (Some path) example_vfs with
  | Some (_, relative) => if decide (relative = readme_path) then None else Some relative
  | None => None
  end.

Lemma vfs_key_Some path relative :
  vfs_key path = Some relative ↔ parse_path_locked (Some path) example_vfs = Some (ramfs_vfs_backend, relative) ∧ relative ≠ readme_path.
Proof.
  unfold vfs_key. destruct (parse_path_locked (Some path) example_vfs) as [[b rel]|] eqn:E; [|naive_solver].
  destruct (example_backend path b rel E) as [-> _]. case_decide; naive_solver.
Qed.

Lemma key_equal (a b : list Z) : bool_decide (Some a = Some b) = bool_decide (a = b).
Proof. apply bool_decide_ext. naive_solver. Qed.

#[export] Program Instance vfs_path_store : PathStore ramfs := {
  ps_read p st := vfs_read_file (Some p) example_vfs st;
  ps_write p data st := vfs_write_file (Some p) data example_vfs st;
  ps_unlink p st := vfs_unlink_file (Some p) example_vfs st;
  ps_ok := fs_ok;
  ps_key := vfs_key
}.
Next Obligation.
  intros p data st st' ok Hok [k Hk]. pose proof Hk as [Hp Hv]%vfs_key_Some. unfold vfs_write_file. rewrite Hp. cbn [write_file ramfs_vfs_backend].
  intros Hw. destruct (fs_write (b := ramfs_vfs_backend) ramfs_write_file k data st st' ok eq_refl Hok Hw) as [Hok' Hf]. split; [done|]. intros q [k' Hk'].
  pose proof Hk' as [Hq Hv']%vfs_key_Some. rewrite !(read_through ramfs_vfs_backend example_vfs q k') by done. rewrite Hf, Hk, Hk', key_equal.
  destruct ok; cbn [andb]; [|done]. case_bool_decide; [subst; apply lookup_insert_eq|by apply lookup_insert_ne].
Qed.
Next Obligation.
  intros p st st' ok Hok [k Hk]. pose proof Hk as [Hp Hv]%vfs_key_Some. unfold vfs_unlink_file. rewrite Hp. cbn [unlink_file ramfs_vfs_backend].
  intros Hu. pose proof (unlink_spec k st (proj1 Hok) (proj2 Hok)) as H. rewrite Hu in H. destruct H as (H1 & H2 & Hb & Hf).
  assert (fs_ok st') as Hok' by done. split; [done|]. intros q [k' Hk']. pose proof Hk' as [Hq Hv']%vfs_key_Some.
  rewrite !(read_through ramfs_vfs_backend example_vfs q k') by done. rewrite Hk, Hk', key_equal. cbn. rewrite Hf.
  destruct (example_backend p _ _ Hp) as [_ Hne].
  symmetry in Hb. destruct ok.
  - clear Hb. case_bool_decide; [subst; apply lookup_delete_eq|by apply lookup_delete_ne].
  - apply bool_decide_eq_false in Hb. case_bool_decide as E; [subst k'|done]. apply eq_None_not_Some. naive_solver.
Qed.

(** ** Installing the package of two files on D: *)

Definition installable_test (p : kpkg_package) : bool :=
  let paths := touched (F := ramfs) (target_path p) (staged_path p) (opened_entries p) in
  let marker := ps_key (F := ramfs) (marker_path (m_app_id (manifest p))) in
  forallb (λ k, bool_decide (is_Some k)) paths && bool_decide (NoDup paths) && bool_decide (is_Some marker)
    && bool_decide (marker ∉ paths).

Lemma installable_test_ok p : installable_test p = true → installable (F := ramfs) p.
Proof.
  unfold installable_test. intros [[[H1 H2]%andb_prop H3]%andb_prop H4]%andb_prop.
  apply bool_decide_eq_true in H2, H3, H4. constructor; [|exact H2|exact H3|exact H4].
  unfold covered. rewrite forallb_forall in H1. apply Forall_forall. intros k Hk. apply list_elem_of_In, H1 in Hk.
  by apply bool_decide_eq_true in Hk.
Qed.

Definition all_allocations : allocations := Allocations true true true (λ _, true).
Definition sample_reader : kpkg_reader := checked_reader (pack sample_manifest sample_files).
Definition sample_state : installer_state (F := ramfs) := State (zero_database true) example_fs.

Lemma sample_installable p : kpkg_open true sample_reader = Some p → installable (F := ramfs) p.
Proof.
  intros Hp. assert (match kpkg_open true sample_reader with Some p => installable_test p | None => true end = true) as H
    by (vm_compute; reflexivity).
  rewrite Hp in H. by apply installable_test_ok.
Qed.

Lemma installer_install_atomic_witness :
  (installer_install all_allocations 7 sample_reader None sample_state).2 = INSTALLER_OK ∧
  db_ok (db (installer_install all_allocations 7 sample_reader None sample_state).1).
Proof.
  split; [vm_compute; reflexivity|].
  pose proof (installer_install_atomic all_allocations 7 sample_reader None sample_state (conj boot_ok eq_refl) (zero_database_ok true) eq_refl
    (checked_reader_ok _ (proj1 sample_open)) sample_installable) as H.
  destruct (installer_install _ _ _ _ _) as [s' status]. exact (proj1 (proj2 H)).
Defined.

(** The application is installed, with its data area. *)
Definition sample_db : pkg_database :=
  (pkg_db_register (Some sample_manifest) (Some (ascii "D:/Apps/com.kos")) (Some (Str (ascii "D:/Data/com.kos"))) [] 7 (zero_database true)).1.

Lemma sample_db_ok : db_ok sample_db ∧ initialized sample_db = true.
Proof.
  pose proof (register_spec sample_manifest (ascii "D:/Apps/com.kos") (Str (ascii "D:/Data/com.kos")) [] 7 (zero_database true)
    (zero_database_ok true) eq_refl ltac:(vm_compute; reflexivity)) as H.
  unfold sample_db. destruct (pkg_db_register _ _ _ _ _ _) as [d r]. by destruct H as (? & ? & _).
Qed.

Definition sample_update : installer_state (F := ramfs) * Z :=
  installer_update all_allocations 9 sample_reader None (State sample_db example_fs).

Lemma sample_update_ok : sample_update.2 = INSTALLER_OK.
Proof. vm_compute. reflexivity. Qed.

Lemma update_loses_data_path_witness :
  (data_path <$> installed sample_db (m_app_id sample_manifest)) = Some (ascii "D:/Data/com.kos") ∧
  ∃ key rec, installed (db sample_update.1) key = Some rec ∧ data_path rec = [].
Proof.
  split; [vm_compute; reflexivity|].
  destruct (update_loses_data_path all_allocations 9 sample_reader None (State sample_db example_fs) sample_update.1
    (proj1 sample_db_ok) (proj2 sample_db_ok)) as (p & rec & _ & H & _ & Hd & _).
  - pose proof sample_update_ok as E. unfold sample_update in *. destruct (installer_update _ _ _ _ _) as [s' st]. cbn in E |- *. by rewrite E.
  - exists (m_app_id (manifest p)), rec. exact (conj H Hd).
Defined.
